(* ===== verification/_CoqProject ===== *)
-Q . S2P
Prelude.v
CLib.v
EscapeString.v
Url.v
Settings.v
HttpParsers.v
HttpDate.v
Bitfield.v
OrdMap.v
Rangefield.v
Entry.v
Bencode.v
Cookie.v
Ipdb.v
HttpBody.v
HttpStream.v
Transport.v
Socks.v
HttpOpen.v
HttpAsync.v
HttpAsyncBody.v
DownloadRange.v
DownloadState.v
DownloadMeta.v
MultiDownload.v
DownloadSystem.v
DownloadSafety.v
CoroQueue.v
Regex.v
Irc.v
IrcSafety.v
FileUpload.v
Httpd.v
PTree.v
Json.v
JsonFacts.v
Rpc.v
Avbot.v
System.v
BotRpc.v
Base64.v
MailFormat.v
MailFacts.v
MailReading.v
Smtp.v
SmtpFacts.v
Pop3.v
Pop3Facts.v
MailSystem.v
Html.v
Avlog.v
AvlogFacts.v
Botctl.v
BotctlFacts.v
BuddyMgr.v
BuddyFacts.v
WebqqCodec.v
WebqqPoll.v
WebqqSystem.v
WebqqLoop.v
WebqqLogin.v
CookieStore.v
CookieFacts.v
WebqqSender.v
WebqqSession.v
WebqqRefresh.v
Bulletin.v
BulletinFacts.v
Joke.v
JokeFacts.v
UrlPreview.v
UrlPreviewFacts.v
Extension.v
StaticContent.v
