(* ===== verification/Prelude.v ===== *)
(** * A verification library for avbot

    avbot is a chat robot that forwards messages between QQ, IRC, XMPP and
    mail, keeps a log of them, obeys commands, and can be used through a remote
    procedure server.  What it does over HTTP goes through its own library
    [avhttp]; the robot adds an IP location database ([qqwry]), small libraries
    ([avboost], [avhttpd]) and the clients of the protocols.  This library models
    these parts: the code that turns text or bytes from the network or from a file
    into data and back, the state the parts keep, the coroutines and handlers that
    change it, and the way the parts work together.

    ** Parts of the program and the files that model them

    Paths of the left column are under src/; [include/avhttp] is
    src/avhttp/include/avhttp.

    - (none)                              Prelude.v, CLib.v, OrdMap.v
        shared notation, the error type [result], the state and fault monad
        [st], machine integers, and the parts of the C and C++ libraries the
        code uses: <cctype>, [strtoll], [atoi], [sscanf] patterns, [trim],
        [to_lower], decimal output, and [std::map] as a sorted association list
        over a key class [OrdKey].
    - include/avhttp/detail/escape_string.hpp      EscapeString.v
    - include/avhttp/url.hpp                       Url.v
    - include/avhttp/settings.hpp ([option])       Settings.v
    - include/avhttp/detail/parsers.hpp            HttpParsers.v (modules
        [StatusLine], [Headers], [Disposition]: one per state machine) and
        HttpDate.v (the date routines of the same header)
    - include/avhttp/bitfield.hpp                  Bitfield.v
    - include/avhttp/rangefield.hpp                Rangefield.v
    - include/avhttp/entry.hpp                     Entry.v
    - include/avhttp/bencode.hpp                   Bencode.v
    - include/avhttp/cookie.hpp                    Cookie.v
    - qqwry/include/qqwry/ipdb.hpp                 Ipdb.v
    - include/avhttp/impl/http_stream.ipp          HttpBody.v ([read_some]) and
        HttpStream.v ([request], [receive_header]), the synchronous functions in
        the configuration of avbot, which does not enable zlib; Socks.v (the
        SOCKS handshake, synchronous and asynchronous), HttpOpen.v ([open],
        CONNECT, [close]), HttpAsync.v ([async_open], [async_request] and
        their handlers) and HttpAsyncBody.v ([async_read_some] and its handlers)
    - include/avhttp/detail/io.hpp, detail/ssl_stream.hpp   Transport.v (the
        integers on the wire, connecting to a list of addresses)
    - include/avhttp/multi_download.hpp and impl/multi_download.ipp
        DownloadRange.v ([allocate_range], [default_piece_size]),
        DownloadState.v (the members of the class, the connections and the
        pending operations), DownloadMeta.v ([open_meta], [update_meta]),
        MultiDownload.v (the start, every handler, the timer, [stop],
        [fetch_data], the queries), DownloadSystem.v (the events that can
        happen to a download, its invariant) and DownloadSafety.v (reachable
        states and the theorems about them)
    - avboost/include/boost/async_coro_queue.hpp   CoroQueue.v
    - libirc/irc.cpp, libirc/irc.hpp               Irc.v (the client and its
        coroutines) and IrcSafety.v (the theorems about it), with Regex.v for
        the regular expressions it uses
    - include/avhttp/file_upload.hpp and impl/file_upload.ipp   FileUpload.v
    - avhttpd/include/avhttpd                      Httpd.v (reading a request,
        writing a response)
    - avboost/include/boost/json_parser_*.hpp      PTree.v (property trees),
        Json.v (the reader and the writer) and JsonFacts.v
    - rpc/server.cpp                               Rpc.v
    - libavbot/avbot.cpp                           Avbot.v (channels, forwarding,
        the callbacks of the protocols)
    - avboost/include/boost/base64.hpp, libmailexchange
        Base64.v, MailFormat.v (writing and reading of mails), MailFacts.v,
        MailReading.v, Smtp.v with SmtpFacts.v, Pop3.v with Pop3Facts.v
    - extension/html.hpp, libavlog                 Html.v, Avlog.v, AvlogFacts.v
    - main.cpp, botctl.cpp, auto_welcome.hpp       Botctl.v, BotctlFacts.v
    - libwebqq/src/impl                            BuddyMgr.v (the tables of groups,
        members and friends, and the answers that fill them) with BuddyFacts.v;
        WebqqCodec.v (hash, password, escapes); WebqqPoll.v (polls and the group
        messages in them); WebqqLoop.v (the main loop); WebqqLogin.v (the login);
        CookieStore.v with CookieFacts.v (the table of cookies); WebqqSender.v
        (sending); WebqqSession.v (the check before a login, the session and its
        cookies); WebqqRefresh.v (friends, numbers, the loop that refreshes groups)
    - extension/bulletin.*, joke.*, urlpreview.*, staticcontent.cpp, extension.*
        Bulletin.v with BulletinFacts.v, Joke.v with JokeFacts.v, UrlPreview.v with
        UrlPreviewFacts.v, StaticContent.v, and Extension.v, which connects them to
        the bot and to the log
    - composition                                  System.v (IRC client and bot),
        BotRpc.v (remote procedure server and bot), MailSystem.v (SMTP and POP3),
        WebqqSystem.v (WebQQ and bot)

    How they interact: a request begins with a [url] (escaped by
    escape_string), carries an [option] list and the cookies of the jar; the
    response goes through the three parsers, and the dates of [Set-Cookie]
    through HttpDate: this is [HttpStream.request].  [HttpBody.read_some] then
    delivers the body.  The downloader keeps two rangefields, what was allocated
    to a connection and what was stored, converts the second to and from a
    [bitfield] of pieces, and saves that in a bencoded [entry].  DownloadMeta.v
    uses the round trips of Bencode.v and Rangefield.v, DownloadSystem.v the
    theorems on allocation.  Rangefield.v is proved against the class
    [Bitfield.BitMap], which Bitfield.v implements; Cookie.v is proved against
    the class [Cookie.Platform] with the laws [PlatformLaws], instantiated by
    [example_platform], and HttpBody.v and HttpStream.v against the class
    [HttpBody.Network] with the laws [NetworkLaws] of a stream socket,
    instantiated by [packet_network], which splits the text in any packets.
    [Transport.Transport] adds connections, name resolution and TLS to it
    (laws [TransportLaws], instance [script_transport]: a list of hosts with
    the packets they send); Socks.v, HttpOpen.v and HttpAsync.v are proved
    against these two classes.  [HttpOpen.open] and [HttpAsync.async_open]
    connect, through Socks.v where a SOCKS proxy is set, and send the request of
    HttpStream.v.  The coroutines of the IRC client communicate through two
    queues of CoroQueue.v, which are proved against the class
    [CoroQueue.Container] (laws [ContainerLaws], instances [unbounded] and
    [circular_buffer]); [boost::regex_match] is the class [Regex.RegexEngine]
    with the law [RegexLaws], instance [perl_engine].

    The remote procedure server reads its requests with Httpd.v, keeps the messages
    for its clients in a queue of CoroQueue.v and their texts in JSON: it is proved
    against the class [JsonReader], which Json.v implements (the comments of its
    skipper are the class [Comments]).  FileUpload.v takes the files from the class
    [Filesystem], Base64.v the iterators of Boost from [Base64Iterators], MailFormat.v
    the character sets from [Locale].  The clients for SMTP and POP3 write and read
    mails with MailFormat.v.  Botctl.v is the program: the bot of Avbot.v with the log
    of Avlog.v, the recording of mails and the commands, behind the signal that all
    messages go through.  The WebQQ client keeps its groups in BuddyMgr.v, whose
    lookups are the account that Avbot.v uses ([WebqqSystem.qq_account_of]); its
    sender, its refresh loop and its captchas wait in queues of CoroQueue.v; its
    session is kept in the store of CookieStore.v, whose rows become jars of Cookie.v.
    The extensions are instances of the class [Extension.Extension] with the laws
    [ExtensionLaws]: objects that react to messages and to events of their own, timers
    that expire and pages that arrive; what they send goes through Avbot.v and Avlog.v.
    The objects of the remote procedure server are slots of one signal: BotRpc.v has a
    connection beside others.

    ** How the code is modelled

    - A [char] is an [ascii], a [std::string] a list of them, a
      [char const*] the list before the terminating NUL.  Integers are [Z] with
      the wrap-around of their width written out ([int32], [int64], [uint32],
      [wraps], [wrapu]); shifts and masks are those of [Z].
    - An error code is a constructor of an error type, returned in [result].
      What the standard leaves undefined (a read past the end, a null pointer,
      an overflown array), a lock taken twice by one thread, and an assertion
      that fails are values of a fault type.  So a theorem that says that a
      function returns [Ok] or [Some] also says that none of these happens.
    - A class is a record; a member function takes the record and returns the
      new one.  Local variables of the state machines are a record that the step
      function transforms, one step per character, one constructor per state of
      the [enum] in the source.
    - The downloader is a state machine: each handler is a function in the
      monad [st] over the record [multi_download], which contains the multiset
      of asynchronous operations that were started and have not ended; an
      [event] ends one of them with the outcome it carries, and [reachable] is
      the set of states of all sequences of events.
    - The asynchronous functions of http_stream return an [action]: the
      operation they start with the handler bound to it, or the call of the
      user's handler.  [HttpAsync.step] performs the operation with the functions
      the synchronous code uses and calls the handler, [HttpAsync.run] repeats
      that; [Socks.run_socks] does it for the SOCKS state machine.
    - The coroutines of the IRC client are suspended in a queue or behind an
      operation of the list [Irc.todo]; [Irc.handle] ends one of these, or calls
      a member function, and runs the coroutine to its next suspension.
      [Irc.irc_steps] are all sequences of such events.
    - The coroutines of the server, the mail clients and the WebQQ client are
      records with the point where they are suspended; a function takes the event
      that ends the pending operation and runs them to the next suspension, and
      what they start, send and call is recorded in order.  A claim about all
      behaviours is about all lists of such events.
    - Where an exception leaves changed state behind, the monad [sx] keeps the
      state: Botctl.v and BuddyMgr.v.  Tables of the database are the lists of
      their rows; indicators and numbers that a statement leaves unset are
      parameters.
    - [asserts] tells whether [BOOST_ASSERT] is active, [SIZEOF_TIME_T] is the
      macro of that name; the theorems hold for both values unless they say so.
    - The contents of uninitialised memory ([realloc] in [bitfield]), the Boost
      base64 iterators, [iconv], the clock, [boost::filesystem] and the
      unspecified parts of [std::sort] are variables or class members.

    ** What the theorems show

    - Url, EscapeString, Settings: printing a well-formed URL and parsing it
      gives it back; what the parser accepts is well formed; ports; escaping
      and unescaping are inverse and [unescape_path] is the decoding relation;
      insertion and lookup of options.
    - HttpParsers: the status line machine accepts exactly the strings of the
      grammar and yields their fields; a printed header block parses to its
      fields, no accepted field has a control character, both overloads agree;
      what a Content-Disposition parameter before [filename] does.
    - HttpDate: the calendar function equals the count of days of the Gregorian
      calendar; the RFC 1123 text of a date parses to its seconds; an input
      that is read past its end.
    - Bitfield: each bit operation against the function [nat -> bool], resizing
      with every case of partial bytes, counting and iteration.
    - Rangefield: the operations against the set of covered positions
      (refinement): merging gives the canonical disjoint list of the same set,
      the first gap, updates, membership of ranges, complement, the bitmap of
      complete pieces and back; where the code deviates from its comments.
    - Entry, Bencode: equality is equality, the dictionary operators, encoding
      and decoding are inverse; the decoder terminates on every input.
    - Cookie: the Set-Cookie text of a cookie parses to it; merging of jars
      keeps one cookie for each name, domain and path; domain matching; what
      the cookie file and [remove_cookie] do.
    - HttpBody, HttpStream: however the network splits the response, a whole
      exchange sends the request, stores status, headers and cookies, and
      returns exactly the data of a chunked body; plain bodies; the header
      parser reads back the headers of a request; what a "100 Continue" in the
      same packet and a stream left inside a chunk do.
    - Socks: through a proxy that grants the connection the handshake sends
      exactly the messages of the protocol, consumes exactly the replies, and
      the two implementations agree when assertions are off; the asynchronous one
      always ends; where refused methods, the SOCKS 4 version, a truncated reply and a wrong
      assertion make the two differ.
    - HttpOpen: a chain of redirections is followed to its end within the
      limit, and stops at the limit; the reply to CONNECT; a bad location.
    - HttpAsync: the asynchronous exchange is equivalent to the synchronous
      one on every network, but for one error code; it loses the cookies of a
      redirection.
    - HttpAsyncBody: asynchronous reads deliver the data of a chunked body, or
      reject it when the network splits a line break; plain bodies; what is
      reported behind the end and for a negative length.
    - DownloadRange: [allocate_range] returns a free part of the file and fails
      only when there is none; repeated, it partitions the free part of the
      file; the default piece size; the empty file.
    - DownloadMeta: the saved progress is read back, exactly for the complete
      pieces; what a file that does not decode does.
    - DownloadSystem, DownloadSafety: an invariant of all interleavings of the
      connections, the timer and [stop], from which follows that recorded bytes
      are the bytes of the server, that no handler fails, that the count of
      outstanding work is exact and that [stop] ends the download; what
      [fetch_data] returns; where the last byte of a range, the count of
      [wait_for_complete] and the check of [fetch_data] go wrong.
    - Ipdb: the binary search finds the record that covers an address; the
      wildcard match is the glob relation; the last record is not found.
    - CoroQueue: every sequence of operations makes the calls of a queue that drops
      the oldest value when it is full ([bounded_run]), each handler is called once,
      no assertion fails; what [cancele] forgets.
    - Regex: the matcher succeeds exactly on the language of the expression.
    - IrcSafety: a relayed message reaches the callback as it was sent, PING is
      answered; over all interleavings only whole commands of one line are
      sent and nothing fails; the client gives up exactly at its limit; how
      anybody can rename it, and when it never connects again.
    - FileUpload, Httpd: the announced length is the number of bytes that are
      sent, whatever the files are; a whole upload, with or without the wait for
      "100 Continue"; the server reads back the request of the
      client, however the network splits it.
    - Json: what the writer writes, the reader reads back; comments and blanks.
    - Rpc, BotRpc: a client that waits gets the next message, clients and messages
      in order; a message that is posted reaches the rooms of its channel and the
      queues of all connections.
    - Avbot, System: a message reaches the other rooms of its channel once and in
      order; no relayed text becomes a command of IRC.
    - Base64, MailFacts, MailReading, SmtpFacts, Pop3Facts, MailSystem: a mail that
      is sent is the mail that is fetched, as far as [base64_decode] keeps it;
      the sessions of both clients; reading a mail and sending one come to an end, but
      for a mail that cannot be written and a TLS stream whose socket is gone.
    - Html, AvlogFacts: escaping is undone by unescaping; the entries of a day are
      in the file of their group and day, in order.
    - BotctlFacts: what somebody without rights cannot do, and the captchas that he can
      answer; recording of mails; the
      channels of the settings.
    - BuddyFacts: the tables stay consistent; the answers with groups and members
      arrive; how flags are lost and who is taken for an owner.
    - WebqqCodec, WebqqSystem: the hash against the algorithm of the comment before it,
      which differs in the case of letters; passwords and their hashes; what is said on
      QQ, pictures included, reaches the other rooms.
    - WebqqLoop, WebqqLogin: logins are paced, errors lead to a new login, a login
      comes to an end; how a stopped client logs in again.
    - CookieFacts, WebqqSession: the store of cookies refines a map; which cookies
      an address gets; a session outlives the program; the outcomes of the check, by
      the text of its answer;
      cookies that cannot be deleted and a number that is too long.
    - WebqqSender, WebqqRefresh: messages are sent once and in order, and none is
      lost while there is room; their texts can be read back; the list of friends
      arrives; lists are not asked for too often.
    - BulletinFacts: for well-formed settings and a timer that is not late, every
      announced minute is one of the settings, each once and in
      order, and none that stands alone is missed; a minute that is passed over, and
      settings that end the program or keep it from starting.
    - JokeFacts: the teller never stops; settings outlive the program; jokes are parts
      of the page; how talk puts them off.
    - UrlPreviewFacts: the list of links refines the latest times of the links that may
      be previewed, and which of them are, against the five minutes of the comment; no
      link of a message is overlooked; the title that is sent; pages without a title.
    - StaticContent, Extension: every keyword is answered; an extension hears its
      channel only, and what it sends, at once or later, reaches all the rooms of it and
      the log.

    ** Fuel

    - [HttpDate]: the loop of [parse] is bounded by the six parts of the source.
    - [Bencode.bdecode] uses twice the length of the input plus one;
      [bdecode_total] shows that it never runs out.
    - [Ipdb.find_loop] uses the fifty tries of the source's own counter;
      [Ipdb.match_exp] splits a pattern of length [n] in at most [n + 1] pieces.
    - [HttpBody] and [HttpStream]: lines are read on fuel that the caller gives,
      since a server can send an endless line; the theorems hold as soon as it
      exceeds the number of headers and the length of the size lines.
    - [HttpOpen.open]: a depth of [m_max_redirects + 1] is enough
      ([open_depth]).  [Socks.run_socks]: a number of operations that
      [async_socks_terminates] gives from the addresses of the proxy.
      [HttpAsync.run]: the equivalence says that some fuel is enough, and every
      greater one too.
    - [DownloadRange.allocate_range] takes one turn of its loop on a file that is
      not empty, so one unit of fuel is enough ([allocate_range_correct]); on an
      empty file the source itself does not return.  [MultiDownload.halve] has
      65 turns, more than the bits of its counter.
    - Redirections of the IP database are followed on fuel that the caller
      gives; a file can redirect to itself, and then the code does not return.
    - [Httpd.read_request] reads lines on fuel of the caller, more than there are
      headers; [Httpd.run_coro] needs two turns for each part of a response and
      two more.  [Json]: the length of the text and one ([json_roundtrip]).
    - [MailFormat.imf_read_stream]: the length of the text and one, and
      [inline_loop] four turns ([read_mail_terminates]); [SmtpFacts.smtp_terminates]
      and [WebqqLogin.login_terminates] bound the events.  [Pop3.list_words]: the
      length of the text and one.  [Html.html_unescape]: the length of the text.
    - [WebqqCodec.hash_loop]: two turns more than the length of the key
      ([hash_func_u_correct]); with an empty number the code does not return.
      [CookieStore.domain_turns] and [path_turns]: the length of the text and one
      ([CookieFacts.suffix_turns_spec]).
    - [Bulletin.scan_times]: 121 turns, as two hours have 120 steps of a minute
      ([scan_times_due]); [settings_loop]: the length of the file and one
      ([settings_lines]), and no number is enough for a file that can not be read.
      [Joke.jokes_loop] and [UrlPreview.links_loop]: the length of the text and one
      ([jokes_loop_enough], [links_cover]).

    ** What is not modelled

    The zlib paths of http_stream; sockets, timers and files themselves; the XMPP
    client, which calls the vendored gloox; the CAPTCHA decoders, which call web
    services; of the WebQQ client the requests that are sent (their addresses and
    options), offline files and the keep-alive; the scripts of the robot and its
    extensions that ask a web service for prices, rates and locations; its user interfaces, the search in the log and the reading of the
    settings; vendored libraries (gloox, soci, sqlite, libzmq, Lua).
    Inside the modelled headers: stream operators and debug output, the Boost
    locale facet of the dates, [mktime], memory mapping and the decompression of
    the IP database.  Handlers run one at a time, as on an [io_service] with one
    thread: interleavings inside a handler, which the mutexes of the downloader are
    for, are not modelled, and the invariant of DownloadSystem.v is about downloads
    in several ranges (the model of the handlers has the mode with one connection
    too).  Functions that only forward to a modelled one are left out. *)

From Stdlib Require Export ZArith Lia Bool Ascii String.
From stdpp Require Export base list numbers option tactics strings.

#[global] Open Scope Z_scope.
#[global] Open Scope list_scope.

(** ** Strings as lists of characters

    A [std::string] is a list of [ascii]; the bytes behind a [char const*] are
    the list without the terminating NUL. *)

Abbreviation cstring := (list ascii).

Declare Scope avbot_scope.
Delimit Scope avbot_scope with avbot.
#[global] Open Scope avbot_scope.

(** [$"text"] is the C string literal. *)
Notation "$ s" := (list_ascii_of_string s%string)
  (at level 1, s at level 0, format "$ s") : avbot_scope.

(** Character comparison, as [==] on [char]. *)
Notation "a =c b" := (Ascii.eqb a b) (at level 70, no associativity) : avbot_scope.

(** The value of a character as [unsigned char], and as the (signed) [char]
    of the x86 ABI, which is what an implicit conversion to [int] gives. *)
Definition uchar (c : ascii) : Z := Z.of_N (N_of_ascii c).
Definition schar (c : ascii) : Z :=
  if uchar c <? 128 then uchar c else uchar c - 256.

(** [static_cast<char>(z)]: the low eight bits. *)
Definition chr (z : Z) : ascii := ascii_of_N (Z.to_N (z mod 256)).

#[global] Arguments uchar : simpl never.
#[global] Arguments chr : simpl never.

(** Equality of strings, as [operator==] on [std::string]. *)
Fixpoint str_eqb (a b : cstring) : bool :=
  match a, b with
  | [], [] => true
  | x :: a', y :: b' => (x =c y) && str_eqb a' b'
  | _, _ => false
  end.

(** Lexicographic order of [std::string::operator<] (characters compare as
    [unsigned char], which is what [std::char_traits<char>::lt] does). *)
Fixpoint str_ltb (a b : cstring) : bool :=
  match a, b with
  | [], [] => false
  | [], _ :: _ => true
  | _ :: _, [] => false
  | x :: a', y :: b' =>
      if uchar x <? uchar y then true
      else if uchar y <? uchar x then false
      else str_ltb a' b'
  end.

(** ** Machine integers *)

(** Unsigned and two's complement wrap-around at [w] bits. *)
Definition wrapu (w z : Z) : Z := z mod 2 ^ w.
Definition wraps (w z : Z) : Z := (z + 2 ^ (w - 1)) mod 2 ^ w - 2 ^ (w - 1).
Abbreviation int32 := (wraps 32).
Abbreviation int64 := (wraps 64).
Abbreviation uint32 := (wrapu 32).

Definition INT64_MAX : Z := 2 ^ 63 - 1.
Definition INT64_MIN : Z := - 2 ^ 63.

(** ** Error results

    Fallible operations return [result E A]; [x ← m; k] is the monadic bind. *)

Inductive result (E A : Type) : Type :=
| Ok (a : A)
| Err (e : E).
Arguments Ok {E A} a.
Arguments Err {E A} e.

#[export] Instance result_ret E : MRet (result E) := fun A a => Ok a.
#[export] Instance result_bind E : MBind (result E) :=
  fun A B f m => match m with Ok a => f a | Err e => Err e end.

Definition is_ok {E A} (r : result E A) : bool :=
  match r with Ok _ => true | Err _ => false end.

(** Methods of an object: the object's state [S] is threaded through, a fault
    of type [E] ends the run. *)
Definition st (S E A : Type) : Type := S -> result E (A * S).
#[export] Instance st_ret S E : MRet (st S E) := fun A a s => Ok (a, s).
#[export] Instance st_bind S E : MBind (st S E) :=
  fun A B k m s => match m s with Ok (a, s') => k a s' | Err e => Err e end.
Definition st_get {S E} : st S E S := fun s => Ok (s, s).
Definition st_modify {S E} (f : S -> S) : st S E unit := fun s => Ok ((), f s).
Definition st_fail {S E A} (e : E) : st S E A := fun _ => Err e.
Definition st_lift {S E A} (r : result E A) : st S E A :=
  fun s => match r with Ok a => Ok (a, s) | Err e => Err e end.

(** Running a sequence: the first part, then the rest. *)
Lemma bind_ok {S E A B} (m : st S E A) (k : A -> st S E B) s a s' :
  m s = Ok (a, s') -> (m ≫= k) s = k a s'.
Proof. intros H. unfold mbind, st_bind. now rewrite H. Qed.

Lemma bind_ext {S E A B} (m : st S E A) (k k' : A -> st S E B) s :
  (forall a s', m s = Ok (a, s') -> k a s' = k' a s') -> (m ≫= k) s = (m ≫= k') s.
Proof. intros H. unfold mbind, st_bind. destruct (m s) as [[a s']|e]; [now apply H|reflexivity]. Qed.

(** [wp m Q s]: the run of [m] from [s] ends without a fault, in a state and
    with a value for which [Q] holds. *)
Definition wp {S E A} (m : st S E A) (Q : A -> S -> Prop) (s : S) : Prop :=
  match m s with Ok (a, s') => Q a s' | Err _ => False end.

Section Wp.
Context {S E : Type}.

Lemma wp_run {A} (m : st S E A) Q s : wp m Q s <-> exists a s', m s = Ok (a, s') /\ Q a s'.
Proof.
  unfold wp. destruct (m s) as [[a s']|e].
  - split; [eauto|]. now intros (? & ? & [= -> ->] & H).
  - split; [contradiction|]. now intros (? & ? & [=] & _).
Qed.
Lemma wp_ok {A} (m : st S E A) Q s a s' : m s = Ok (a, s') -> Q a s' -> wp m Q s.
Proof. unfold wp. now intros ->. Qed.
Lemma wp_bind {A B} (m : st S E A) (k : A -> st S E B) Q s :
  wp m (fun a s' => wp (k a) Q s') s -> wp (m ≫= k) Q s.
Proof. unfold wp, mbind, st_bind. destruct (m s) as [[a s']|e]; auto. Qed.
Lemma wp_mono {A} (m : st S E A) (Q R : A -> S -> Prop) s :
  wp m Q s -> (forall a s', Q a s' -> R a s') -> wp m R s.
Proof. unfold wp. destruct (m s) as [[a s']|e]; auto. Qed.
Lemma wp_ret {A} (a : A) (Q : A -> S -> Prop) s : Q a s -> wp (mret a : st S E A) Q s.
Proof. auto. Qed.
Lemma wp_get (Q : S -> S -> Prop) s : Q s s -> wp (st_get : st S E S) Q s.
Proof. auto. Qed.
Lemma wp_modify f (Q : () -> S -> Prop) s : Q () (f s) -> wp (st_modify f : st S E ()) Q s.
Proof. auto. Qed.
End Wp.

(** Code whose effects stay when it throws: the state is there in both cases. *)
Definition sx (S E A : Type) : Type := S -> S * result E A.
#[export] Instance sx_ret S E : MRet (sx S E) := fun A a s => (s, Ok a).
#[export] Instance sx_bind S E : MBind (sx S E) :=
  fun A B k m s => match m s with (s', Ok a) => k a s' | (s', Err e) => (s', Err e) end.
Definition sx_get {S E} : sx S E S := fun s => (s, Ok s).
Definition sx_modify {S E} (f : S -> S) : sx S E () := fun s => (f s, Ok ()).
Definition sx_fail {S E A} (e : E) : sx S E A := fun s => (s, Err e).

(** ** Automation *)

Create HintDb avbot discriminated.

(** Unfold the state monad around a run. *)
Ltac run := cbv beta iota zeta delta [mbind st_bind mret st_ret st_get st_modify st_fail st_lift].

(** Case analysis on every boolean test and [match] of the goal. *)
Ltac split_ifs :=
  repeat match goal with
  | |- context [if ?b then _ else _] => destruct b eqn:?
  end.

Ltac split_ifs_in H :=
  repeat match type of H with
  | context [if ?b then _ else _] => destruct b eqn:?
  end.

(** Turn boolean tests in the context into propositions. *)
Ltac bool_to_prop :=
  repeat match goal with
  | H : _ && _ = true |- _ => apply andb_true_iff in H as [? ?]
  | H : _ || _ = false |- _ => apply orb_false_iff in H as [? ?]
  | H : negb _ = true |- _ => apply negb_true_iff in H
  | H : negb _ = false |- _ => apply negb_false_iff in H
  | H : (_ =? _) = true |- _ => apply Z.eqb_eq in H
  | H : (_ =? _) = false |- _ => apply Z.eqb_neq in H
  | H : (_ <? _) = true |- _ => apply Z.ltb_lt in H
  | H : (_ <? _) = false |- _ => apply Z.ltb_ge in H
  | H : (_ <=? _) = true |- _ => apply Z.leb_le in H
  | H : (_ <=? _) = false |- _ => apply Z.leb_gt in H
  | H : (_ =c _) = true |- _ => apply Ascii.eqb_eq in H
  | H : (_ =c _) = false |- _ => apply Ascii.eqb_neq in H
  | H : _ || _ = true |- _ => apply orb_true_iff in H as [?|?]
  | H : _ && _ = false |- _ => apply andb_false_iff in H as [?|?]
  end.

(** Evaluate the comparisons of character literals. *)
Ltac ceval :=
  repeat match goal with
  | |- context [Ascii.eqb ?a ?b] =>
      let v := eval vm_compute in (Ascii.eqb a b) in
      match v with
      | true => change (Ascii.eqb a b) with true
      | false => change (Ascii.eqb a b) with false
      end
  end; cbv iota; cbn [negb].

Ltac zbool := bool_to_prop; try lia.

(** Turn a boolean goal into arithmetic goals. *)
Ltac bool_goal :=
  rewrite ?andb_true_iff, ?negb_true_iff, ?Z.leb_le, ?Z.ltb_lt, ?Z.eqb_eq, ?Z.leb_gt, ?Z.ltb_ge,
    ?Z.eqb_neq; repeat split.

(** [lia] with division and modulo. *)
Ltac zdiv := bool_to_prop; Z.to_euclidean_division_equations; lia.

(** [lia] for goals over a small range, by cases. *)
Ltac small_cases k n :=
  let rec go i :=
    match i with
    | O => exfalso; lia
    | S ?j => destruct (Z.eq_dec k (Z.of_nat j)) as [->|]; [|go j]
    end in
  go n.

(** ** Characters: reasoning by enumeration *)

(** The 256 characters. *)
Definition all_ascii : list ascii := map (fun n => ascii_of_nat n) (seq 0 256).

Lemma all_ascii_complete (c : ascii) : In c all_ascii.
Proof.
  unfold all_ascii. rewrite <- (ascii_nat_embedding c).
  apply in_map, in_seq. pose proof (nat_ascii_bounded c). lia.
Qed.

(** A boolean property of characters holds of all of them as soon as it
    evaluates to [true] on the enumeration. *)
Lemma forall_ascii (P : ascii -> bool) :
  forallb P all_ascii = true -> forall c, P c = true.
Proof. rewrite forallb_forall. eauto using all_ascii_complete. Qed.

Lemma forall_ascii_eqb (f g : ascii -> bool) :
  forallb (fun c => Bool.eqb (f c) (g c)) all_ascii = true -> forall c, f c = g c.
Proof. intros H c. apply eqb_prop. revert c. now apply forall_ascii. Qed.

Lemma uchar_range c : 0 <= uchar c < 256.
Proof.
  unfold uchar. pose proof (N_ascii_bounded c). lia.
Qed.

Lemma chr_uchar c : chr (uchar c) = c.
Proof.
  unfold chr. rewrite Z.mod_small by apply uchar_range.
  unfold uchar. rewrite N2Z.id. apply ascii_N_embedding.
Qed.

Lemma uchar_chr z : uchar (chr z) = z mod 256.
Proof.
  unfold chr, uchar. pose proof (Z.mod_pos_bound z 256 ltac:(lia)).
  rewrite N_ascii_embedding by lia. lia.
Qed.

Lemma uchar_inj a b : uchar a = uchar b -> a = b.
Proof. intros H. rewrite <- (chr_uchar a), <- (chr_uchar b). congruence. Qed.


(** ** Strings *)

Lemma str_eqb_eq a b : str_eqb a b = true <-> a = b.
Proof.
  revert b; induction a as [|x a IH]; intros [|y b]; simpl; try (split; congruence).
  rewrite andb_true_iff, Ascii.eqb_eq, IH. split; [intros [-> ->]|intros [= -> ->]]; auto.
Qed.

Lemma str_eqb_refl a : str_eqb a a = true.
Proof. now apply str_eqb_eq. Qed.

Lemma str_eqb_neq a b : str_eqb a b = false <-> a <> b.
Proof. rewrite <- str_eqb_eq. destruct (str_eqb a b); split; congruence. Qed.

Lemma str_eqb_spec a b : reflect (a = b) (str_eqb a b).
Proof. apply iff_reflect. symmetry. apply str_eqb_eq. Qed.

Lemma str_ltb_irrefl a : str_ltb a a = false.
Proof. induction a; simpl; auto. now rewrite Z.ltb_irrefl. Qed.

Lemma str_ltb_trans a b c :
  str_ltb a b = true -> str_ltb b c = true -> str_ltb a c = true.
Proof.
  revert b c; induction a as [|x a IH]; intros [|y b] [|z c]; simpl; try congruence.
  intros H1 H2. split_ifs; try reflexivity; split_ifs_in H1; split_ifs_in H2;
    zbool; try discriminate; eauto.
Qed.

Lemma str_ltb_total a b : str_ltb a b = false -> str_ltb b a = false -> a = b.
Proof.
  revert b; induction a as [|x a IH]; intros [|y b]; simpl; try congruence.
  intros H1 H2. split_ifs_in H1; split_ifs_in H2; try discriminate.
  f_equal; [apply uchar_inj; zbool | now apply IH].
Qed.

(** ** Machine integers in range *)

Lemma wrapu_id w z : 0 <= z < 2 ^ w -> wrapu w z = z.
Proof. intros. now apply Z.mod_small. Qed.

Lemma wraps_id w z : 0 < w -> - 2 ^ (w - 1) <= z < 2 ^ (w - 1) -> wraps w z = z.
Proof.
  intros Hw Hz. unfold wraps.
  assert (2 ^ w = 2 * 2 ^ (w - 1)) as E.
  { rewrite <- Z.pow_succ_r by lia. f_equal; lia. }
  rewrite Z.mod_small; lia.
Qed.

(** Wrapping before or after a ring operation gives the same result. *)
Lemma wraps_wraps_linear w a k z : 0 < w -> wraps w (wraps w z * a + k) = wraps w (z * a + k).
Proof.
  intros Hw. unfold wraps. f_equal.
  set (h := 2 ^ (w - 1)). set (m := 2 ^ w).
  assert (0 < m) by (apply Z.pow_pos_nonneg; lia).
  replace (((z + h) mod m - h) * a + k + h) with ((z + h) mod m * a + (k + h - h * a)) by ring.
  replace (z * a + k + h) with ((z + h) * a + (k + h - h * a)) by ring.
  rewrite Z.add_mod, (Z.add_mod ((z + h) * a)) by lia. f_equal. f_equal.
  rewrite Z.mul_mod_idemp_l by lia. reflexivity.
Qed.

Lemma int32_id z : - 2147483648 <= z < 2147483648 -> int32 z = z.
Proof. intros. apply wraps_id; simpl; lia. Qed.

Lemma int64_id z : - 9223372036854775808 <= z < 9223372036854775808 -> int64 z = z.
Proof. intros. apply wraps_id; simpl; lia. Qed.

Lemma wraps_range w z : 0 < w -> - 2 ^ (w - 1) <= wraps w z < 2 ^ (w - 1).
Proof.
  intros Hw. unfold wraps.
  assert (2 ^ w = 2 * 2 ^ (w - 1)) as E.
  { rewrite <- Z.pow_succ_r by lia. f_equal; lia. }
  pose proof (Z.pow_pos_nonneg 2 (w - 1) ltac:(lia) ltac:(lia)).
  pose proof (Z.mod_pos_bound (z + 2 ^ (w - 1)) (2 ^ w) ltac:(lia)). lia.
Qed.

(** ** Lists *)

(** [span p l]: the longest prefix of [l] on which [p] holds, and the rest. *)
Fixpoint span {A} (p : A -> bool) (l : list A) : list A * list A :=
  match l with
  | [] => ([], [])
  | x :: l' => if p x then let (a, b) := span p l' in (x :: a, b) else ([], l)
  end.

Lemma span_app {A} (p : A -> bool) l : fst (span p l) ++ snd (span p l) = l.
Proof.
  induction l as [|x l IH]; simpl; [reflexivity|].
  destruct (p x); [|reflexivity]. destruct (span p l); simpl in *. congruence.
Qed.

Lemma span_all {A} (p : A -> bool) l : Forall (fun x => p x = true) (fst (span p l)).
Proof.
  induction l as [|x l IH]; simpl; [constructor|].
  destruct (p x) eqn:E; [|constructor]. destruct (span p l). now constructor.
Qed.

Lemma span_stop {A} (p : A -> bool) a b :
  Forall (fun x => p x = true) a ->
  match b with [] => True | x :: _ => p x = false end ->
  span p (a ++ b) = (a, b).
Proof.
  induction 1 as [|x a Hx Ha IH]; simpl; intros Hb.
  - destruct b as [|y b]; simpl; [reflexivity|]. now rewrite Hb.
  - rewrite Hx, IH; auto.
Qed.

Lemma span_rest {A} (p : A -> bool) l :
  match snd (span p l) with [] => True | x :: _ => p x = false end.
Proof.
  induction l as [|x l IH]; simpl; [exact I|].
  destruct (p x) eqn:E; [|exact E]. destruct (span p l). exact IH.
Qed.

Lemma span_length {A} (p : A -> bool) l : (length (snd (span p l)) <= length l)%nat.
Proof. rewrite <- (span_app p l) at 2. rewrite length_app. lia. Qed.

