(* ===== verification/CLib.v ===== *)
(** The parts of the C and C++ standard libraries (and of Boost.StringAlgo)
    that the modelled code calls on strings: character classes in the "C"
    locale, [strcspn], [strtoll]/[atoi], decimal output, [trim], [to_lower],
    [std::string::find]/[substr].  Everything is executable. *)

From S2P Require Import Prelude.

(** ** <cctype>, "C" locale *)

Definition isdigit (c : ascii) : bool := (48 <=? uchar c) && (uchar c <=? 57).
Definition isupper (c : ascii) : bool := (65 <=? uchar c) && (uchar c <=? 90).
Definition islower (c : ascii) : bool := (97 <=? uchar c) && (uchar c <=? 122).
Definition isalpha (c : ascii) : bool := isupper c || islower c.
Definition isalnum (c : ascii) : bool := isalpha c || isdigit c.
Definition isspace (c : ascii) : bool :=
  (uchar c =? 32) || ((9 <=? uchar c) && (uchar c <=? 13)).
Definition tolower (c : ascii) : ascii := if isupper c then chr (uchar c + 32) else c.
Definition toupper (c : ascii) : ascii := if islower c then chr (uchar c - 32) else c.

(** [boost::to_lower]. *)
Definition to_lower (s : cstring) : cstring := map tolower s.

(** [strcasecmp(a, b) == 0]. *)
Definition strcaseeq (a b : cstring) : bool := str_eqb (to_lower a) (to_lower b).

(** ** C strings *)

Abbreviation CR := "013"%char.
Abbreviation LF := "010"%char.
Abbreviation TAB := "009"%char.

Definition NUL : ascii := "000"%char.

(** [s.c_str()] seen as a C string: the characters before the first NUL. *)
Definition c_str (s : cstring) : cstring := fst (span (fun c => negb (c =c NUL)) s).

(** [existsb] on a reject/accept set of characters. *)
Definition mem_char (c : ascii) (set : cstring) : bool := existsb (Ascii.eqb c) set.

#[global] Arguments mem_char : simpl never.

(** [strcspn(s, reject)]. *)
Fixpoint strcspn (s reject : cstring) : nat :=
  match s with
  | [] => 0
  | c :: s' => if mem_char c reject then 0 else S (strcspn s' reject)
  end%nat.

(** [boost::trim]. *)
Fixpoint drop_while (p : ascii -> bool) (s : cstring) : cstring :=
  match s with
  | [] => []
  | c :: s' => if p c then drop_while p s' else s
  end.
Definition trim_left_if (p : ascii -> bool) (s : cstring) : cstring := drop_while p s.
Definition trim_right_if (p : ascii -> bool) (s : cstring) : cstring :=
  rev (drop_while p (rev s)).
Definition trim (s : cstring) : cstring := trim_right_if isspace (trim_left_if isspace s).

#[global] Arguments trim : simpl never.

(** [s.find(c)], [None] for [npos]. *)
Fixpoint find_char (c : ascii) (s : cstring) : option nat :=
  match s with
  | [] => None
  | x :: s' => if x =c c then Some 0%nat else S <$> find_char c s'
  end.

(** [s.find(pat)], [None] for [npos]. *)
Fixpoint is_prefix (p s : cstring) : bool :=
  match p, s with
  | [], _ => true
  | x :: p', y :: s' => (x =c y) && is_prefix p' s'
  | _ :: _, [] => false
  end.
Fixpoint find_str (pat s : cstring) : option nat :=
  if is_prefix pat s then Some 0%nat
  else match s with
       | [] => None
       | _ :: s' => S <$> find_str pat s'
       end.

(** ** Numbers *)

Definition dec_step (a : Z) (c : ascii) : Z := a * 10 + (uchar c - 48).

(** The value of a string of decimal digits. *)
Definition dec_value (s : cstring) : Z := fold_left dec_step s 0.

Definition clamp (lo hi z : Z) : Z := Z.max lo (Z.min hi z).

(** The sign [strtol] accepts before the digits. *)
Definition strtol_sign (s : cstring) : bool * cstring :=
  match s with
  | c :: t => if c =c "-" then (true, t) else if c =c "+" then (false, t) else (false, s)
  | [] => (false, [])
  end.

(** [strtoll(s, &end, 10)]: the value, saturated at 64 bits, and what [end]
    points to ([s] itself when there is no number). *)
Definition strtoll (s : cstring) : Z * cstring :=
  let '(neg, s2) := strtol_sign (drop_while isspace s) in
  let '(ds, rest) := span isdigit s2 in
  match ds with
  | [] => (0, s)
  | _ => (clamp INT64_MIN INT64_MAX (if neg then - dec_value ds else dec_value ds), rest)
  end.

(** [atoi]: glibc's [(int) strtol(s, NULL, 10)]; [long] has 64 bits. *)
Definition atoi (s : cstring) : Z := int32 (fst (strtoll s)).
Definition atol (s : cstring) : Z := fst (strtoll s).

(** Decimal digits of a non-negative number (the fuel bounds their number;
    20 digits hold every 64-bit value). *)
Fixpoint dec_digits (fuel : nat) (n : Z) (acc : cstring) : cstring :=
  match fuel with
  | O => acc
  | S f =>
      let acc' := chr (48 + n mod 10) :: acc in
      if n <? 10 then acc' else dec_digits f (n / 10) acc'
  end.

(** [os << n] for an integer of at most 64 bits. *)
Definition itoa (n : Z) : cstring :=
  if n <? 0 then "-"%char :: dec_digits 20 (- n) [] else dec_digits 20 n [].

(** ** Lemmas *)

Lemma isdigit_chr d : 0 <= d < 10 -> isdigit (chr (48 + d)) = true.
Proof.
  intros H. unfold isdigit. rewrite uchar_chr, Z.mod_small by lia.
  apply andb_true_iff; split; apply Z.leb_le; lia.
Qed.

Lemma dec_digits_value fuel n acc :
  (0 < fuel)%nat -> 0 <= n < 10 ^ Z.of_nat fuel ->
  fold_left dec_step (dec_digits fuel n acc) 0 = fold_left dec_step acc n.
Proof.
  revert n acc. induction fuel as [|f IH]; intros n acc Hf Hn; [lia|]. cbn [dec_digits].
  assert (forall a, dec_step a (chr (48 + n mod 10)) = a * 10 + n mod 10) as Hstep.
  { intros a. unfold dec_step. pose proof (Z.mod_pos_bound n 10 ltac:(lia)).
    rewrite uchar_chr, (Z.mod_small (48 + n mod 10)) by lia. lia. }
  destruct (n <? 10) eqn:E; zbool.
  - cbn [fold_left]. rewrite Hstep, Z.mod_small by lia. reflexivity.
  - rewrite Nat2Z.inj_succ, Z.pow_succ_r in Hn by lia.
    destruct f as [|f]; [simpl in Hn; lia|].
    rewrite IH; [|lia|].
    + cbn [fold_left]. rewrite Hstep. f_equal. pose proof (Z.div_mod n 10). lia.
    + split; [apply Z.div_pos; lia|]. apply Z.div_lt_upper_bound; lia.
Qed.

Lemma dec_digits_isdigit fuel n acc :
  Forall (fun c => isdigit c = true) acc ->
  Forall (fun c => isdigit c = true) (dec_digits fuel n acc).
Proof.
  revert n acc; induction fuel as [|f IH]; intros n acc Ha; [exact Ha|]. cbn [dec_digits].
  assert (Forall (fun c => isdigit c = true) (chr (48 + n mod 10) :: acc)).
  { constructor; [|exact Ha]. apply isdigit_chr, Z.mod_pos_bound. lia. }
  destruct (n <? 10); auto.
Qed.

Lemma dec_digits_length fuel n acc :
  (length acc <= length (dec_digits fuel n acc) <= fuel + length acc)%nat.
Proof.
  revert n acc; induction fuel as [|f IH]; intros n acc; cbn [dec_digits]; [lia|].
  destruct (n <? 10); simpl; [lia|]. specialize (IH (n / 10) (chr (48 + n mod 10) :: acc)).
  simpl in IH. lia.
Qed.

Lemma dec_digits_nonnil fuel n : (0 < fuel)%nat -> dec_digits fuel n [] <> [].
Proof.
  destruct fuel as [|f]; [lia|]. cbn [dec_digits]. intros _.
  destruct (n <? 10); [discriminate|].
  pose proof (dec_digits_length f (n / 10) [chr (48 + n mod 10)]) as H.
  destruct (dec_digits _ _ _); simpl in *; [lia|discriminate].
Qed.

Lemma isdigit_not_space c : isdigit c = true -> isspace c = false.
Proof. unfold isdigit, isspace. intros H. lia. Qed.

Lemma isdigit_not_sign c : isdigit c = true -> (c =c "-") = false /\ (c =c "+") = false.
Proof.
  intros H. split; apply Ascii.eqb_neq; intros ->; vm_compute in H; discriminate.
Qed.

(** [strtoll] on a string of digits followed by something else. *)
Lemma strtoll_digits ds rest :
  ds <> [] -> Forall (fun c => isdigit c = true) ds ->
  match rest with [] => True | x :: _ => isdigit x = false end ->
  strtoll (ds ++ rest) = (clamp INT64_MIN INT64_MAX (dec_value ds), rest).
Proof.
  intros Hne Hd Hr. destruct ds as [|c ds]; [congruence|]. unfold strtoll. cbn [app drop_while].
  pose proof (Forall_inv Hd) as Hc. cbv beta in Hc.
  rewrite isdigit_not_space by exact Hc. cbn [strtol_sign].
  destruct (isdigit_not_sign c Hc) as [-> ->].
  change (c :: ds ++ rest) with ((c :: ds) ++ rest).
  now rewrite (span_stop isdigit (c :: ds) rest Hd Hr).
Qed.

Lemma strtoll_neg_digits ds rest :
  ds <> [] -> Forall (fun c => isdigit c = true) ds ->
  match rest with [] => True | x :: _ => isdigit x = false end ->
  strtoll ("-"%char :: ds ++ rest) = (clamp INT64_MIN INT64_MAX (- dec_value ds), rest).
Proof.
  intros Hne Hd Hr. unfold strtoll. simpl.
  rewrite (span_stop isdigit ds rest Hd Hr). now destruct ds.
Qed.

(** Printing a 64-bit integer and reading it back. *)
Lemma strtoll_itoa n rest :
  INT64_MIN <= n <= INT64_MAX ->
  match rest with [] => True | x :: _ => isdigit x = false end ->
  strtoll (itoa n ++ rest) = (n, rest).
Proof.
  intros Hn Hr. unfold INT64_MIN, INT64_MAX in Hn. unfold itoa.
  assert (forall m, 0 <= m <= 2 ^ 63 -> dec_value (dec_digits 20 m []) = m) as Hv.
  { intros m Hm. unfold dec_value. rewrite dec_digits_value; simpl; lia. }
  destruct (n <? 0) eqn:E; zbool.
  - cbn [app]. rewrite strtoll_neg_digits by auto using dec_digits_nonnil, dec_digits_isdigit with lia.
    rewrite Hv by lia. unfold clamp, INT64_MIN, INT64_MAX. f_equal. lia.
  - rewrite strtoll_digits by auto using dec_digits_nonnil, dec_digits_isdigit with lia.
    rewrite Hv by lia. unfold clamp, INT64_MIN, INT64_MAX. f_equal. lia.
Qed.

(** ** Scanning with [strcspn] *)

Lemma drop_while_length p s : (length (drop_while p s) <= length s)%nat.
Proof. induction s as [|c s IH]; cbn; [lia|]. destruct (p c); cbn; lia. Qed.

(** No character of [s] is in [set]. *)
Definition free_of (set s : cstring) : Prop := Forall (fun c => mem_char c set = false) s.

(** [s] is at its end or at a character of [set]. *)
Definition stops_at (set s : cstring) : Prop :=
  match s with [] => True | c :: _ => mem_char c set = true end.

Lemma strcspn_stop set a b :
  free_of set a -> stops_at set b -> strcspn (a ++ b) set = length a.
Proof.
  induction 1 as [|c a Hc _ IH]; simpl; intros Hb.
  - destruct b as [|c b]; simpl in *; [reflexivity|]. now rewrite Hb.
  - rewrite Hc. auto.
Qed.

Lemma strcspn_le s set : (strcspn s set <= length s)%nat.
Proof. induction s as [|c s IH]; simpl; [lia|]. destruct (mem_char c set); lia. Qed.

Lemma strcspn_free s set : free_of set (take (strcspn s set) s).
Proof.
  unfold free_of. induction s as [|c s IH]; simpl; [constructor|].
  destruct (mem_char c set) eqn:E; [constructor|]. simpl. now constructor.
Qed.

Lemma strcspn_stops s set : stops_at set (drop (strcspn s set) s).
Proof.
  induction s as [|c s IH]; simpl; [exact I|].
  destruct (mem_char c set) eqn:E; [exact E|]. exact IH.
Qed.

Lemma mem_char_true c set : mem_char c set = true <-> c ∈ set.
Proof.
  unfold mem_char. rewrite existsb_exists, list_elem_of_In. split.
  - intros (x & Hx & E). apply Ascii.eqb_eq in E as ->. exact Hx.
  - intros H. exists c. split; [exact H|]. apply Ascii.eqb_refl.
Qed.

Lemma mem_char_false c set : mem_char c set = false <-> ~ c ∈ set.
Proof. rewrite <- mem_char_true. destruct (mem_char c set); split; congruence. Qed.

Lemma free_of_sub set set' s : (forall c, c ∈ set' -> c ∈ set) -> free_of set s -> free_of set' s.
Proof.
  intros Hs H. eapply Forall_impl; [exact H|]. intros c Hc.
  apply mem_char_false. apply mem_char_false in Hc. auto.
Qed.

Lemma free_of_app set a b : free_of set (a ++ b) <-> free_of set a /\ free_of set b.
Proof. apply Forall_app. Qed.

Lemma take_length_app {A} (a b : list A) : take (length a) (a ++ b) = a.
Proof. now rewrite take_app_length. Qed.

Lemma c_str_nul_free s : free_of [NUL] (c_str s).
Proof.
  unfold c_str, free_of. eapply Forall_impl; [apply span_all|]. cbv beta.
  intros c Hc. unfold mem_char. simpl. apply negb_true_iff in Hc. now rewrite Hc.
Qed.

Lemma c_str_id s : free_of [NUL] s -> c_str s = s.
Proof.
  intros H. unfold c_str. rewrite <- (app_nil_r s) at 1. rewrite span_stop; [reflexivity| |exact I].
  eapply Forall_impl; [exact H|]. unfold mem_char; simpl. intros c Hc.
  rewrite orb_false_r in Hc. now rewrite Hc.
Qed.

Lemma to_lower_length s : length (to_lower s) = length s.
Proof. apply length_map. Qed.

Lemma tolower_idem c : tolower (tolower c) = tolower c.
Proof. apply Ascii.eqb_eq. revert c. apply forall_ascii. vm_compute. reflexivity. Qed.

Lemma to_lower_idem s : to_lower (to_lower s) = to_lower s.
Proof. unfold to_lower. rewrite map_map. apply map_ext, tolower_idem. Qed.

(** Lower-casing neither creates nor removes a character that is not a letter. *)
Lemma free_of_to_lower set s :
  forallb (fun c => negb (isalpha c)) set = true -> free_of set s -> free_of set (to_lower s).
Proof.
  intros Hset H. unfold free_of, to_lower. rewrite Forall_map.
  eapply Forall_impl; [exact H|]. intros c Hc. simpl.
  destruct (isupper c) eqn:E; unfold tolower; rewrite E; [|exact Hc].
  apply mem_char_false. intros Hin. rewrite forallb_forall in Hset.
  apply list_elem_of_In, Hset in Hin. apply negb_true_iff in Hin.
  unfold isalpha, islower in Hin. unfold isupper in E. rewrite uchar_chr, Z.mod_small in Hin by lia. lia.
Qed.

Lemma digits_free_of set ds :
  forallb (fun c => negb (isdigit c)) set = true -> forallb isdigit ds = true -> free_of set ds.
Proof.
  rewrite !forallb_forall. intros Hset Hds. apply Forall_forall. intros c Hc.
  apply mem_char_false. intros Hin.
  apply list_elem_of_In, Hset in Hin. apply list_elem_of_In, Hds in Hc. now rewrite Hc in Hin.
Qed.

Lemma dec_value_nonneg ds : forallb isdigit ds = true -> 0 <= dec_value ds.
Proof.
  unfold dec_value. generalize (Z.le_refl 0). generalize 0 at 2 4.
  induction ds as [|c ds IH]; simpl; intros a Ha H; [exact Ha|].
  apply andb_true_iff in H as [Hc H]. apply IH; [|exact H].
  unfold dec_step. unfold isdigit in Hc. lia.
Qed.

Lemma strtoll_all_digits ds :
  ds <> [] -> forallb isdigit ds = true -> strtoll ds = (Z.min INT64_MAX (dec_value ds), []).
Proof.
  intros Hne D. rewrite <- (app_nil_r ds) at 1. rewrite strtoll_digits; [|exact Hne| |exact I].
  - unfold clamp. rewrite Z.max_r; [reflexivity|].
    pose proof (dec_value_nonneg ds D). unfold INT64_MIN, INT64_MAX. lia.
  - apply Forall_forall. intros x Hx. rewrite forallb_forall in D. apply D. now apply list_elem_of_In.
Qed.

(** ** Trimming *)

Lemma drop_while_forall (P : ascii -> Prop) p s : Forall P s -> Forall P (drop_while p s).
Proof. induction 1; simpl; [constructor|]. destruct (p _); [assumption|now constructor]. Qed.

Lemma trim_forall (P : ascii -> Prop) s : Forall P s -> Forall P (trim s).
Proof.
  intros H. unfold trim, trim_right_if, trim_left_if.
  apply Forall_rev, drop_while_forall, Forall_rev, drop_while_forall, H.
Qed.

Lemma drop_while_id p s : Forall (fun c => p c = false) s -> drop_while p s = s.
Proof. destruct 1 as [|c s Hc _]; simpl; [reflexivity|]. now rewrite Hc. Qed.

Lemma trim_id s : Forall (fun c => isspace c = false) s -> trim s = s.
Proof.
  intros H. unfold trim, trim_right_if, trim_left_if. rewrite (drop_while_id _ s H).
  rewrite drop_while_id by now apply Forall_rev. apply rev_involutive.
Qed.

Lemma trim_space c s : isspace c = true -> trim (c :: s) = trim s.
Proof. intros H. unfold trim, trim_left_if. simpl. now rewrite H. Qed.

(** The characters of a number. *)
Lemma itoa_chars v :
  Forall (fun c => isdigit c = true \/ c = "-"%char) (itoa v).
Proof.
  unfold itoa. destruct (v <? 0); [constructor; [now right|]|];
    (eapply Forall_impl; [apply dec_digits_isdigit; constructor|]; intros c Hc; now left).
Qed.

Lemma itoa_free set v :
  forallb (fun c => negb (isdigit c) && negb (c =c "-")) set = true -> free_of set (itoa v).
Proof.
  rewrite forallb_forall. intros H. eapply Forall_impl; [apply itoa_chars|]. cbv beta. intros c Hc.
  apply mem_char_false. intros Hin. apply list_elem_of_In in Hin. specialize (H c Hin).
  destruct Hc as [Hc| ->]; [now rewrite Hc in H|discriminate].
Qed.

Lemma itoa_nonneg_digits n : 0 <= n -> itoa n <> [] /\ Forall (fun c => isdigit c = true) (itoa n).
Proof.
  intros Hn. unfold itoa. replace (n <? 0) with false by lia.
  split; [now apply dec_digits_nonnil; lia|apply dec_digits_isdigit; constructor].
Qed.

Lemma strtoll_c_str_itoa n : INT64_MIN <= n <= INT64_MAX -> fst (strtoll (c_str (itoa n))) = n.
Proof.
  intros Hn. rewrite c_str_id by now apply itoa_free.
  rewrite <- (app_nil_r (itoa n)), strtoll_itoa by (exact Hn || exact I). reflexivity.
Qed.

(** ** Searching *)

Lemma is_prefix_spec p s : is_prefix p s = true <-> exists r, s = p ++ r.
Proof.
  revert s. induction p as [|c p IH]; intros s; [split; [now exists s|now destruct s]|].
  destruct s as [|x s]; cbn [is_prefix]; [split; [discriminate|now intros (? & [=])]|].
  rewrite andb_true_iff, IH. split.
  - intros [Hc (r & ->)]. apply Ascii.eqb_eq in Hc as ->. now exists r.
  - intros (r & [= -> ->]). split; [apply Ascii.eqb_refl|now exists r].
Qed.

Lemma is_prefix_app p s : is_prefix p (p ++ s) = true.
Proof. induction p as [|x p IH]; cbn [app is_prefix]; [reflexivity|]. now rewrite Ascii.eqb_refl, IH. Qed.

(** [find] gives the first place. *)
Lemma find_str_first pat s : forall n, find_str pat s = Some n ->
  (exists x y, s = x ++ pat ++ y /\ length x = n) /\ forall x y, s = x ++ pat ++ y -> (n <= length x)%nat.
Proof.
  induction s as [|c s IH]; intros n; cbn [find_str]; (destruct (is_prefix pat _) eqn:Ep; [intros [= <-]; split; [|lia];
    apply is_prefix_spec in Ep as [r ->]; now exists [], r|]); [discriminate|].
  destruct (find_str pat s) as [m|] eqn:Em; [|discriminate]. intros [= <-]. destruct (IH m eq_refl) as [(x & y & -> & Hl) Hm]. split.
  - exists (c :: x), y. split; [reflexivity|]. cbn. lia.
  - intros [|d x'] y' Ex; [cbn in Ex; now rewrite Ex, is_prefix_app in Ep|]. injection Ex as -> Ex. apply Hm in Ex. cbn. lia.
Qed.

Lemma find_str_none pat s : find_str pat s = None -> forall x y, s <> x ++ pat ++ y.
Proof.
  induction s as [|c s IH]; cbn [find_str]; (destruct (is_prefix pat _) eqn:Ep; [discriminate|]).
  - intros _ x y Ex. symmetry in Ex. apply app_eq_nil in Ex as [-> Ex]. apply app_eq_nil in Ex as [-> ->]. discriminate.
  - destruct (find_str pat s) eqn:Em; [discriminate|]. intros _ [|d x] y Ex; [cbn [app] in Ex; now rewrite Ex, is_prefix_app in Ep|].
    injection Ex as -> Ex. now apply (IH eq_refl x y).
Qed.

Lemma is_prefix_take p : forall s n, (length p <= n)%nat -> is_prefix p (take n s) = is_prefix p s.
Proof.
  induction p as [|x p IH]; intros s n Hn; [reflexivity|]. destruct n as [|n]; [cbn in Hn; lia|].
  destruct s as [|y s]; [reflexivity|]. cbn in *. rewrite IH by lia. reflexivity.
Qed.

(** A place that is found is found in what reaches its end. *)
Lemma find_str_take pat s n m : find_str pat s = Some n -> (n + length pat <= m)%nat -> find_str pat (take m s) = Some n.
Proof.
  revert n m. induction s as [|c s IH]; intros n m; cbn [find_str].
  - rewrite take_nil. now intros H _.
  - destruct (is_prefix pat (c :: s)) eqn:Ep.
    + intros [= <-] Hm. rewrite <- (is_prefix_take pat (c :: s) m) in Ep by lia. destruct (take m (c :: s)); cbn [find_str]; now rewrite Ep.
    + destruct (find_str pat s) as [k|] eqn:Ek; [|discriminate]. intros [= <-] Hm. destruct m as [|m]; [lia|].
      rewrite <- (is_prefix_take pat (c :: s) (S m)) in Ep by lia. cbn [take] in *. cbn [find_str]. rewrite Ep.
      now rewrite (IH k m eq_refl) by lia.
Qed.
