(* ===== verification/EscapeString.v ===== *)
(** Percent-encoding and character classes: avhttp/detail/escape_string.hpp.

    [escape_path], [escape_string] and [unescape_path] are the code's three
    loops; [PctDecoded] is the specification of percent-decoding that
    [unescape_path] implements. *)

From S2P Require Import Prelude CLib.

(** ** Character classes *)

Definition hex_chars : cstring := $"0123456789abcdef".

(** The [int c] parameters receive a sign-extended [char]. *)
Definition is_char (c : ascii) : bool := (0 <=? schar c) && (schar c <=? 127).
Definition is_digit (c : ascii) : bool := (48 <=? schar c) && (schar c <=? 57).
Definition is_ctl (c : ascii) : bool :=
  ((0 <=? schar c) && (schar c <=? 31)) || (schar c =? 127).

Definition is_unreserved_char (c : ascii) : bool :=
  ((65 <=? schar c) && (schar c <=? 90)) || ((97 <=? schar c) && (schar c <=? 122))
  || ((48 <=? schar c) && (schar c <=? 57))
  || ("-" =c c) || ("_" =c c) || ("." =c c) || ("~" =c c).

Definition is_tspecial (c : ascii) : bool :=
  mem_char c [" "; "`"; "{"; "}"; "^"; "|"]%char.

Definition is_print (c : ascii) : bool := (32 <=? schar c) && (schar c <? 127).

Definition tolower_compare (a b : ascii) : bool := tolower a =c tolower b.

(** ** Hexadecimal *)

(** [hex_chars[i]] for an index below 16. *)
Definition hex_char (i : Z) : ascii := nth (Z.to_nat i) hex_chars NUL.

Fixpoint to_hex (s : cstring) : cstring :=
  match s with
  | [] => []
  | c :: s' =>
      hex_char (Z.shiftr (uchar c) 4) :: hex_char (Z.land (uchar c) 15) :: to_hex s'
  end.

(** ** Escaping *)

Fixpoint escape_path (s : cstring) : cstring :=
  match s with
  | [] => []
  | c :: s' =>
      (if negb (is_char c) || is_tspecial c then $"%" ++ to_hex [c] else [c])
        ++ escape_path s'
  end.

Fixpoint escape_string (s : cstring) : cstring :=
  match s with
  | [] => []
  | c :: s' =>
      (if negb (is_unreserved_char c) then $"%" ++ to_hex [c] else [c])
        ++ escape_string s'
  end.

(** The inner [switch (in[j])]; [None] is its [return false]. *)
Definition hex_value (c : ascii) : option Z :=
  if (48 <=? uchar c) && (uchar c <=? 57) then Some (uchar c - 48)
  else if (97 <=? uchar c) && (uchar c <=? 102) then Some (uchar c - 97 + 10)
  else if (65 <=? uchar c) && (uchar c <=? 70) then Some (uchar c - 65 + 10)
  else None.

(** The characters the outer [switch] copies without looking further. *)
Definition unescape_literals : cstring := $"-_.~!*'();:@&=+$,/?#[]".

(** The loop; [out] is the output parameter, which keeps what was decoded
    before a failure. *)
Fixpoint unescape_loop (in_ out : cstring) : bool * cstring :=
  match in_ with
  | [] => (true, out)
  | c :: rest =>
      if c =c "%" then
        match rest with
        | a :: b :: rest' =>
            match hex_value a, hex_value b with
            | Some va, Some vb => unescape_loop rest' (out ++ [chr (Z.shiftl va 4 + vb)])
            | _, _ => (false, out)
            end
        | _ => (false, out)
        end
      else if mem_char c unescape_literals then unescape_loop rest (out ++ [c])
      else if negb (isalnum c) then (false, out)
      else unescape_loop rest (out ++ [c])
  end.

Definition unescape_path (in_ : cstring) : bool * cstring := unescape_loop in_ [].

(** ** base64

    The transformation itself is done by Boost's archive iterators
    ([base64_from_binary] over [transform_width<6, 8>]): a parameter here.  The
    code's own part is the padding. *)
Definition base64_padding (result : cstring) : cstring :=
  result ++ repeat "="%char (4 - length result mod 4)%nat.

Definition encode_base64 (base64_text : cstring -> cstring) (s : cstring) : cstring :=
  base64_padding (base64_text s).

(** A concrete text transformation (RFC 4648 without padding), used to
    instantiate the parameter. *)
Definition b64_char (i : Z) : ascii :=
  nth (Z.to_nat i) $"ABCDEFGHIJKLMNOPQRSTUVWXYZabcdefghijklmnopqrstuvwxyz0123456789+/" NUL.

Fixpoint rfc4648_text (s : cstring) : cstring :=
  match s with
  | a :: b :: c :: s' =>
      let n := uchar a * 65536 + uchar b * 256 + uchar c in
      [b64_char (n / 262144); b64_char (n / 4096 mod 64); b64_char (n / 64 mod 64);
       b64_char (n mod 64)] ++ rfc4648_text s'
  | [a; b] =>
      let n := uchar a * 65536 + uchar b * 256 in
      [b64_char (n / 262144); b64_char (n / 4096 mod 64); b64_char (n / 64 mod 64)]
  | [a] => [b64_char (uchar a / 4); b64_char (uchar a * 16 mod 64)]
  | [] => []
  end.

(** ** Specification of percent-decoding *)

Definition path_literal (c : ascii) : bool :=
  negb (c =c "%") && (mem_char c unescape_literals || isalnum c).

Inductive PctDecoded : cstring -> cstring -> Prop :=
| pct_nil : PctDecoded [] []
| pct_literal c i o :
    path_literal c = true -> PctDecoded i o -> PctDecoded (c :: i) (c :: o)
| pct_escape a b va vb i o :
    hex_value a = Some va -> hex_value b = Some vb -> PctDecoded i o ->
    PctDecoded ("%"%char :: a :: b :: i) (chr (va * 16 + vb) :: o).

(** ** Lemmas *)

Lemma is_char_iff c : is_char c = (uchar c <? 128).
Proof. unfold is_char, schar. pose proof (uchar_range c). destruct (uchar c <? 128) eqn:E; lia. Qed.

Lemma is_ctl_iff c : is_ctl c = ((uchar c <=? 31) || (uchar c =? 127)).
Proof. unfold is_ctl, schar. pose proof (uchar_range c). destruct (uchar c <? 128) eqn:E; lia. Qed.

Lemma is_digit_isdigit c : is_digit c = isdigit c.
Proof.
  unfold is_digit, isdigit, schar. pose proof (uchar_range c).
  destruct (uchar c <? 128) eqn:E; lia.
Qed.

(** Two hexadecimal digits written by [to_hex] decode to the character. *)
Lemma to_hex_decode c :
  exists a b va vb, to_hex [c] = [a; b] /\ hex_value a = Some va /\ hex_value b = Some vb
    /\ chr (va * 16 + vb) = c /\ chr (Z.shiftl va 4 + vb) = c.
Proof.
  assert (H : match to_hex [c] with
              | [a; b] => match hex_value a, hex_value b with
                          | Some va, Some vb => (chr (va * 16 + vb) =c c) && (chr (Z.shiftl va 4 + vb) =c c)
                          | _, _ => false end
              | _ => false end = true).
  { revert c. apply forall_ascii. vm_compute. reflexivity. }
  destruct (to_hex [c]) as [|a [|b [|? ?]]] eqn:E; try discriminate.
  destruct (hex_value a) as [va|] eqn:Ea, (hex_value b) as [vb|] eqn:Eb; try discriminate.
  bool_to_prop. exists a, b, va, vb. auto.
Qed.

Lemma unescape_loop_app in_ out :
  unescape_loop in_ out = (fst (unescape_loop in_ []), out ++ snd (unescape_loop in_ [])).
Proof.
  revert out. induction in_ as [in_ IH] using (induction_ltof1 _ (@length ascii)).
  unfold ltof in IH. intros out. destruct in_ as [|c rest]; simpl.
  - now rewrite app_nil_r.
  - destruct (c =c "%").
    + destruct rest as [|a [|b rest]]; simpl; rewrite ?app_nil_r; try reflexivity.
      destruct (hex_value a), (hex_value b); simpl; rewrite ?app_nil_r; try reflexivity.
      rewrite IH by (simpl; lia). rewrite (IH rest ltac:(simpl; lia) [_]).
      simpl. now rewrite <- app_assoc.
    + assert (unescape_loop rest (out ++ [c]) =
        (fst (unescape_loop rest [c]), out ++ snd (unescape_loop rest [c]))) as E.
      { rewrite (IH rest ltac:(simpl; lia) (out ++ [c])), (IH rest ltac:(simpl; lia) [c]).
        simpl. now rewrite <- app_assoc. }
      destruct (mem_char c unescape_literals); [exact E|].
      destruct (negb (isalnum c)); [simpl; now rewrite app_nil_r | exact E].
Qed.

Lemma unescape_literal c rest out :
  path_literal c = true -> unescape_loop (c :: rest) out = unescape_loop rest (out ++ [c]).
Proof.
  unfold path_literal. rewrite andb_true_iff, negb_true_iff, orb_true_iff.
  intros [Hc H]. simpl. rewrite Hc. destruct (mem_char c unescape_literals); [reflexivity|].
  destruct H as [|H]; [discriminate|]. now rewrite H.
Qed.

Lemma unescape_escape_char c rest out :
  unescape_loop (($"%" ++ to_hex [c]) ++ rest) out = unescape_loop rest (out ++ [c]).
Proof.
  destruct (to_hex_decode c) as (a & b & va & vb & -> & Ha & Hb & _ & Hc).
  cbn [list_ascii_of_string app unescape_loop]. rewrite Ha, Hb, Hc. reflexivity.
Qed.

(** A per-character escaper that leaves only literals unescaped is inverted by
    [unescape_path]. *)
Lemma unescape_map (esc : ascii -> bool) s out :
  Forall (fun c => esc c = true \/ path_literal c = true) s ->
  unescape_loop (flat_map (fun c => if esc c then $"%" ++ to_hex [c] else [c]) s) out
  = (true, out ++ s).
Proof.
  revert out; induction s as [|c s IH]; intros out H; cbn [flat_map].
  - simpl. now rewrite app_nil_r.
  - inversion_clear H as [|? ? Hc Hs]. destruct (esc c) eqn:E.
    + rewrite unescape_escape_char, IH by auto. now rewrite <- app_assoc.
    + destruct Hc as [|Hc]; [congruence|]. cbn [app].
      rewrite unescape_literal, IH by auto. now rewrite <- app_assoc.
Qed.

Lemma escape_string_flat_map s :
  escape_string s =
  flat_map (fun c => if negb (is_unreserved_char c) then $"%" ++ to_hex [c] else [c]) s.
Proof. induction s as [|c s IH]; [reflexivity|]. cbn [escape_string flat_map]. now rewrite IH. Qed.

Lemma escape_path_flat_map s :
  escape_path s =
  flat_map (fun c => if negb (is_char c) || is_tspecial c then $"%" ++ to_hex [c] else [c]) s.
Proof. induction s as [|c s IH]; [reflexivity|]. cbn [escape_path flat_map]. now rewrite IH. Qed.

Lemma pct_decoded_unescape i o : PctDecoded i o -> forall out, unescape_loop i out = (true, out ++ o).
Proof.
  induction 1 as [|c i o Hc _ IH|a b va vb i o Ha Hb _ IH]; intros out.
  - simpl. now rewrite app_nil_r.
  - rewrite unescape_literal, IH by auto. now rewrite <- app_assoc.
  - simpl. rewrite Ha, Hb, IH, <- app_assoc. simpl. now rewrite Z.shiftl_mul_pow2 by lia.
Qed.

Lemma unescape_pct_decoded i out o : unescape_loop i out = (true, o) ->
  exists o', o = out ++ o' /\ PctDecoded i o'.
Proof.
  revert out. induction i as [i IH] using (induction_ltof1 _ (@length ascii)).
  unfold ltof in IH. intros out. destruct i as [|c rest]; simpl; intros H.
  - injection H as <-. exists []. split; [now rewrite app_nil_r|constructor].
  - destruct (c =c "%") eqn:Ec.
    + destruct rest as [|a [|b rest]]; try discriminate.
      destruct (hex_value a) as [va|] eqn:Ha, (hex_value b) as [vb|] eqn:Hb; try discriminate.
      apply IH in H as (o' & -> & Ho'); [|simpl; lia]. apply Ascii.eqb_eq in Ec as ->.
      eexists. split; [now rewrite <- app_assoc|]. simpl.
      rewrite Z.shiftl_mul_pow2 by lia. now constructor.
    + assert (path_literal c = true \/ fst (unescape_loop (c :: rest) out) = false) as [L|L].
      { unfold path_literal. simpl. rewrite Ec. simpl.
        destruct (mem_char c unescape_literals); [now left|]. simpl.
        destruct (isalnum c); simpl; [now left|now right]. }
      * assert (unescape_loop (c :: rest) out = (true, o)) as H' by (simpl; now rewrite Ec).
        rewrite unescape_literal in H' by exact L.
        apply IH in H' as (o' & -> & Ho'); [|simpl; lia].
        eexists. split; [now rewrite <- app_assoc|]. now constructor.
      * simpl in L. rewrite Ec, H in L. discriminate.
Qed.

Lemma to_hex_length s : length (to_hex s) = (2 * length s)%nat.
Proof. induction s; simpl; lia. Qed.

(** ** Properties *)

(** Every string survives [escape_string] followed by [unescape_path]:
    the decoder succeeds and gives the string back, whatever bytes it holds. *)
Theorem escape_string_roundtrip (s : cstring) : unescape_path (escape_string s) = (true, s).
Proof.
  unfold unescape_path. rewrite escape_string_flat_map, unescape_map; [reflexivity|].
  apply Forall_forall. intros c _.
  assert (negb (is_unreserved_char c) || path_literal c = true) as H.
  { revert c. apply forall_ascii. vm_compute. reflexivity. }
  apply orb_true_iff in H. tauto.
Qed.

(** [unescape_path] implements percent-decoding: it returns [true] with
    output [o] exactly when [o] is the decoding of the input, so it rejects
    every string that is not validly escaped. *)
Theorem unescape_path_correct (i o : cstring) :
  unescape_path i = (true, o) <-> PctDecoded i o.
Proof.
  split.
  - intros H. apply unescape_pct_decoded in H as (o' & -> & H). exact H.
  - intros H. apply (pct_decoded_unescape _ _ H []).
Qed.

(** [escape_path] is inverted by [unescape_path] on every string that
    holds no [%] and no character that is neither escaped nor accepted
    unescaped (control characters, quotes, angle brackets, backslash). *)
Theorem escape_path_roundtrip (s : cstring) :
  Forall (fun c => negb (is_char c) || is_tspecial c || path_literal c = true) s ->
  unescape_path (escape_path s) = (true, s).
Proof.
  intros H. unfold unescape_path. rewrite escape_path_flat_map, unescape_map; [reflexivity|].
  eapply Forall_impl; [exact H|]. intros c Hc. apply orb_true_iff in Hc. tauto.
Qed.

Lemma escape_path_roundtrip_witness :
  unescape_path (escape_path ($"/a dir/{x}" ++ [chr 228])) = (true, $"/a dir/{x}" ++ [chr 228]).
Proof.
  apply escape_path_roundtrip. repeat constructor.
Defined.

(** [encode_base64] always appends at least one [=]: on an input whose
    base64 text already has a multiple of four characters (any input whose
    length is a multiple of three) it appends four of them, where base64
    appends none. *)
Theorem encode_base64_overpads (base64_text : cstring -> cstring) (s : cstring)
    (Hlen : forall x, length (base64_text x) = ((4 * length x + 2) / 3)%nat) :
  (length s mod 3 = 0)%nat -> encode_base64 base64_text s = base64_text s ++ $"====".
Proof.
  intros H3. unfold encode_base64, base64_padding. rewrite Hlen.
  replace (((4 * length s + 2) / 3) mod 4)%nat with 0%nat; [reflexivity|].
  apply Nat.Div0.div_exact in H3. set (k := (length s / 3)%nat) in *. rewrite H3.
  replace (4 * (3 * k) + 2)%nat with (2 + (4 * k) * 3)%nat by lia.
  rewrite Nat.div_add by lia. change (2 / 3)%nat with 0%nat. rewrite Nat.add_0_l, Nat.mul_comm.
  symmetry. apply Nat.Div0.mod_mul.
Qed.

Lemma rfc4648_text_length s : length (rfc4648_text s) = ((4 * length s + 2) / 3)%nat.
Proof.
  induction s as [s IH] using (induction_ltof1 _ (@length ascii)). unfold ltof in IH.
  destruct s as [|a [|b [|c s]]]; try reflexivity.
  cbn [rfc4648_text length app]. rewrite IH by (simpl; lia).
  replace (4 * S (S (S (length s))) + 2)%nat with ((4 * length s + 2) + 4 * 3)%nat by lia.
  rewrite Nat.div_add by lia. lia.
Qed.

Lemma encode_base64_overpads_witness :
  encode_base64 rfc4648_text $"abc" = $"YWJj" ++ $"====".
Proof.
  exact (encode_base64_overpads rfc4648_text $"abc" rfc4648_text_length eq_refl).
Defined.
