(* ===== verification/Settings.v ===== *)
(** Option lists: avhttp/settings.hpp.

    [option] keeps headers in order, duplicates included; [find] is
    case-insensitive, [remove] is not. *)

From S2P Require Import Prelude CLib.

Abbreviation option_item := (cstring * cstring)%type.
Abbreviation option_item_list := (list option_item).

Module http_options.
Definition request_method : cstring := $"_request_method".
Definition http_version : cstring := $"_http_version".
Definition request_body : cstring := $"_request_body".
Definition status_code : cstring := $"_status_code".
Definition path : cstring := $"_path".
Definition url : cstring := $"_url".
Definition host : cstring := $"Host".
Definition accept : cstring := $"Accept".
Definition range : cstring := $"Range".
Definition cookie : cstring := $"Cookie".
Definition referer : cstring := $"Referer".
Definition user_agent : cstring := $"User-Agent".
Definition content_type : cstring := $"Content-Type".
Definition content_length : cstring := $"Content-Length".
Definition content_range : cstring := $"Content-Range".
Definition connection : cstring := $"Connection".
Definition proxy_connection : cstring := $"Proxy-Connection".
Definition accept_encoding : cstring := $"Accept-Encoding".
Definition transfer_encoding : cstring := $"Transfer-Encoding".
Definition content_encoding : cstring := $"Content-Encoding".
End http_options.

(** [class option]. *)
Record opts : Type := Opts {
  m_opts : option_item_list;
  m_fake_continue : bool
}.

Definition new_option : opts := Opts [] false.

Definition insert (key val : cstring) (o : opts) : opts :=
  Opts (m_opts o ++ [(key, val)]) (m_fake_continue o).

(** Erases the first item with this key. *)
Fixpoint remove_item (key : cstring) (l : option_item_list) : option_item_list :=
  match l with
  | [] => []
  | (k, v) :: l' => if str_eqb k key then l' else (k, v) :: remove_item key l'
  end.
Definition remove (key : cstring) (o : opts) : opts :=
  Opts (remove_item key (m_opts o)) (m_fake_continue o).

(** [find(key, val)]: the value of the first item whose key matches. *)
Fixpoint find_item (s : cstring) (l : option_item_list) : option cstring :=
  match l with
  | [] => None
  | (k, v) :: l' => if str_eqb (to_lower k) s then Some v else find_item s l'
  end.
Definition find (key : cstring) (o : opts) : option cstring :=
  find_item (to_lower key) (m_opts o).

(** [find(key)]: the empty string when there is none. *)
Definition find_or_empty (key : cstring) (o : opts) : cstring :=
  match find key o with Some v => v | None => [] end.

Definition crlf : cstring := ["013"; "010"]%char.

Fixpoint header_lines (l : option_item_list) : cstring :=
  match l with
  | [] => []
  | (k, v) :: l' =>
      (if negb (str_eqb k http_options.status_code) then k ++ $": " ++ v ++ crlf else [])
      ++ header_lines l'
  end.
Definition header_string (o : opts) : cstring := header_lines (m_opts o).

Definition clear (o : opts) : opts := Opts [] (m_fake_continue o).

Definition size (o : opts) : Z := Z.of_nat (length (m_opts o)).

Definition set_fake_continue (b : bool) (o : opts) : opts := Opts (m_opts o) b.

(** ** Properties *)

Lemma find_item_app s l l' :
  find_item s (l ++ l') = match find_item s l with Some v => Some v | None => find_item s l' end.
Proof. induction l as [|[k v] l IH]; simpl; [reflexivity|]. destruct (str_eqb _ s); auto. Qed.

(** [find] after [insert]: an inserted option never hides an earlier one
    with the same name, is found under any capitalisation of its name when it
    is the first, and leaves every other name alone. *)
Theorem find_insert (key key' val : cstring) (o : opts) :
  find key' (insert key val o) =
  match find key' o with
  | Some v => Some v
  | None => if strcaseeq key key' then Some val else None
  end.
Proof.
  unfold find, insert, strcaseeq. simpl. rewrite find_item_app. simpl.
  now destruct (find_item (to_lower key') (m_opts o)).
Qed.

(** How many items have this key. *)
Fixpoint count_key (key : cstring) (l : option_item_list) : nat :=
  match l with
  | [] => 0
  | (k, _) :: l' => (if str_eqb k key then 1 else 0) + count_key key l'
  end%nat.

(** [remove] erases exactly one occurrence of exactly that name (case
    sensitively), or nothing when the name is absent; the other options keep
    their number. *)
Theorem remove_count (key x : cstring) (o : opts) :
  count_key x (m_opts (remove key o)) =
  (count_key x (m_opts o) - (if str_eqb key x then 1 else 0))%nat.
Proof.
  unfold remove. simpl. induction (m_opts o) as [|[k v] l IH]; simpl; [reflexivity|].
  destruct (str_eqb_spec k key) as [->|Hne]; simpl.
  - destruct (str_eqb key x); lia.
  - rewrite IH. destruct (str_eqb_spec k x) as [->|Hx]; [|reflexivity].
    destruct (str_eqb_spec key x); [congruence|]. lia.
Qed.
