(* ===== verification/HttpParsers.v ===== *)
(** The HTTP response parsers: avhttp/detail/parsers.hpp, lines 59-530.

    Each parser of the source is a [while] over the characters with a local
    state enumeration.  Here it is a [step] function from a state, the data and
    a character, run by a recursion over the characters; the recursion carries
    the code's [return] statements. *)

From S2P Require Import Prelude CLib EscapeString Settings.

Abbreviation DQUOTE := "034"%char.

(** ** Header lookup *)

Definition headers_equal (a b : cstring) : bool :=
  if negb (length a =? length b)%nat then false
  else forallb (fun '(x, y) => tolower_compare x y) (combine a b).

(** The output parameters of [parse_http_headers]. *)
Record header_info : Type := HeaderInfo {
  content_type : cstring;
  content_length : Z;
  location : cstring
}.

Definition check_header (name value : cstring) (h : header_info) : header_info :=
  if headers_equal name $"Content-Type" then
    HeaderInfo value (content_length h) (location h)
  else if headers_equal name $"Content-Length" then
    HeaderInfo (content_type h) (Z.max (fst (strtoll (c_str value))) (content_length h)) (location h)
  else if headers_equal name $"Location" then
    HeaderInfo (content_type h) (content_length h) value
  else if headers_equal name $"Content-Range" then
    match find_char "/" value with
    | Some f =>
        let tmp := drop (f + 1) value in
        match tmp with
        | [] => h
        | _ => HeaderInfo (content_type h)
                 (Z.max (fst (strtoll (c_str tmp))) (content_length h)) (location h)
        end
    | None => h
    end
  else h.

#[global] Arguments check_header : simpl never.

(** ** The status line *)

Module StatusLine.

Inductive state : Type :=
| http_version_h | http_version_t_1 | http_version_t_2 | http_version_p | http_version_slash
| http_version_major_start | http_version_major | http_version_minor_start | http_version_minor
| status_code_start | status_code | reason_phrase | linefeed | fail.

(** The three [int&] parameters and the local [reason]. *)
Record data : Type := Data {
  version_major : Z;
  version_minor : Z;
  status : Z;
  reason : cstring
}.

(** [v = v * 10 + c - '0'] on [int]. *)
Definition add_digit (v : Z) (c : ascii) : Z := int32 (v * 10 + schar c - 48).

Definition set_major (v : Z) (d : data) : data := Data v (version_minor d) (status d) (reason d).
Definition set_minor (v : Z) (d : data) : data := Data (version_major d) v (status d) (reason d).
Definition set_status (v : Z) (d : data) : data := Data (version_major d) (version_minor d) v (reason d).
Definition push_reason (c : ascii) (d : data) : data :=
  Data (version_major d) (version_minor d) (status d) (reason d ++ [c]).

(** The [switch]; the two cases that return are in [loop]. *)
Definition step (st : state) (c : ascii) (d : data) : state * data :=
  match st with
  | http_version_h => (if c =c "H" then http_version_t_1 else fail, d)
  | http_version_t_1 => (if c =c "T" then http_version_t_2 else fail, d)
  | http_version_t_2 => (if c =c "T" then http_version_p else fail, d)
  | http_version_p => (if c =c "P" then http_version_slash else fail, d)
  | http_version_slash => (if c =c "/" then http_version_major_start else fail, d)
  | http_version_major_start =>
      if is_digit c then (http_version_major, set_major (add_digit (version_major d) c) d)
      else (fail, d)
  | http_version_major =>
      if c =c "." then (http_version_minor_start, d)
      else if is_digit c then (http_version_major, set_major (add_digit (version_major d) c) d)
      else (fail, d)
  | http_version_minor_start =>
      if is_digit c then (http_version_minor, set_minor (add_digit (version_minor d) c) d)
      else (fail, d)
  | http_version_minor =>
      if c =c " " then (status_code_start, d)
      else if is_digit c then (http_version_minor, set_minor (add_digit (version_minor d) c) d)
      else (fail, d)
  | status_code_start =>
      if is_digit c then (status_code, set_status (add_digit (status d) c) d) else (fail, d)
  | status_code =>
      if c =c " " then (reason_phrase, d)
      else if is_digit c then (status_code, set_status (add_digit (status d) c) d)
      else (fail, d)
  | reason_phrase =>
      if c =c CR then (linefeed, d)
      else if is_ctl c then (fail, d)
      else (reason_phrase, push_reason c d)
  | linefeed | fail => (fail, d)
  end.

Fixpoint loop (st : state) (d : data) (s : cstring) : bool * data :=
  match s with
  | [] => (false, d)
  | c :: s' =>
      match st with
      | fail => (false, d)
      | linefeed => (c =c LF, d)
      | _ => let '(st', d') := step st c d in loop st' d' s'
      end
  end.

End StatusLine.

(** [parse_http_status_line(begin, end, version_major, version_minor, status)]. *)
Definition parse_http_status_line (s : cstring) (version_major version_minor status : Z)
    : bool * StatusLine.data :=
  StatusLine.loop StatusLine.http_version_h (StatusLine.Data version_major version_minor status []) s.

(** ** The headers *)

Module Headers.

Inductive state : Type :=
| first_header_line_start | header_line_start | header_lws | header_name
| space_before_header_value | header_value | linefeed | final_linefeed | fail.

Record data : Type := Data {
  name : cstring;
  value : cstring;
  info : header_info;
  headers : option_item_list
}.

Definition push_name (c : ascii) (d : data) : data :=
  Data (name d ++ [c]) (value d) (info d) (headers d).
Definition push_value (c : ascii) (d : data) : data :=
  Data (name d) (value d ++ [c]) (info d) (headers d).

(** [!is_char(c) || is_ctl(c) || is_tspecial(c)]. *)
Definition bad_name_char (c : ascii) : bool := negb (is_char c) || is_ctl c || is_tspecial c.

(** A header is complete: trim, [check_header], and clear. *)
Definition end_header (d : data) : data :=
  Data [] [] (check_header (trim (name d)) (trim (value d)) (info d)) (headers d).

(** The same, with [headers.push_back]. *)
Definition end_header_push (d : data) : data :=
  Data [] [] (check_header (trim (name d)) (trim (value d)) (info d))
    (headers d ++ [(trim (name d), trim (value d))]).

(** The [switch] of the overload without a header list. *)
Definition step (st : state) (c : ascii) (d : data) : state * data :=
  match st with
  | first_header_line_start =>
      if c =c CR then (final_linefeed, d)
      else if bad_name_char c then (fail, d)
      else (header_name, push_name c d)
  | header_line_start =>
      if c =c CR then (final_linefeed, end_header d)
      else if (c =c " ") || (c =c TAB) then (header_lws, d)
      else if bad_name_char c then (fail, d)
      else (header_name, push_name c (end_header d))
  | header_lws =>
      if c =c CR then (linefeed, d)
      else if (c =c " ") || (c =c TAB) then (header_lws, d)
      else if is_ctl c then (fail, d)
      else (header_value, push_value c d)
  | header_name =>
      if c =c ":" then (space_before_header_value, d)
      else if bad_name_char c then (fail, d)
      else (header_name, push_name c d)
  | space_before_header_value =>
      if c =c " " then (header_value, d)
      else if is_ctl c then (fail, d)
      else (header_value, push_value c d)
  | header_value =>
      if c =c CR then (linefeed, d)
      else if is_ctl c then (fail, d)
      else (header_value, push_value c d)
  | linefeed => (if c =c LF then header_line_start else fail, d)
  | final_linefeed | fail => (fail, d)
  end.

(** The [switch] of the overload with a header list. *)
Definition step_list (st : state) (c : ascii) (d : data) : state * data :=
  match st with
  | first_header_line_start =>
      if c =c CR then (final_linefeed, d)
      else if bad_name_char c then (fail, d)
      else (header_name, push_name c d)
  | header_line_start =>
      if c =c CR then (final_linefeed, end_header_push d)
      else if (c =c " ") || (c =c TAB) then (header_lws, d)
      else if bad_name_char c then (fail, d)
      else (header_name, push_name c (end_header_push d))
  | header_lws =>
      if c =c CR then (linefeed, d)
      else if (c =c " ") || (c =c TAB) then (header_lws, d)
      else if is_ctl c then (fail, d)
      else (header_value, push_value c d)
  | header_name =>
      if c =c ":" then (space_before_header_value, d)
      else if bad_name_char c then (fail, d)
      else (header_name, push_name c d)
  | space_before_header_value =>
      (* the first [if] sets the state, the chain after it decides again *)
      if c =c CR then (linefeed, d)
      else if is_ctl c then (fail, d)
      else (header_value, push_value c d)
  | header_value =>
      if c =c CR then (linefeed, d)
      else if is_ctl c then (if c =c LF then header_line_start else fail, d)
      else (header_value, push_value c d)
  | linefeed => (if c =c LF then header_line_start else fail, d)
  | final_linefeed | fail => (fail, d)
  end.

Section Loop.
Variable step_fn : state -> ascii -> data -> state * data.

Fixpoint loop (st : state) (d : data) (s : cstring) : bool * data :=
  match s with
  | [] => (false, d)
  | c :: s' =>
      match st with
      | fail => (false, d)
      | final_linefeed => (c =c LF, d)
      | _ => let '(st', d') := step_fn st c d in loop st' d' s'
      end
  end.
End Loop.

End Headers.

(** [parse_http_headers(begin, end, content_type, content_length, location)]. *)
Definition parse_http_headers (s : cstring) (h : header_info) : bool * header_info :=
  let '(ok, d) := Headers.loop Headers.step Headers.first_header_line_start
                    (Headers.Data [] [] h []) s in
  (ok, Headers.info d).

(** [parse_http_headers(begin, end, content_type, content_length, location, headers)]. *)
Definition parse_http_headers_list (s : cstring) (h : header_info) (headers : option_item_list)
    : bool * header_info * option_item_list :=
  let '(ok, d) := Headers.loop Headers.step_list Headers.first_header_line_start
                    (Headers.Data [] [] h headers) s in
  (ok, Headers.info d, Headers.headers d).

(** ** Content-Disposition *)

Module Disposition.

Inductive state : Type := parse_key_start | parse_key | parse_value_start | parse_value | parse_fail.

Record data : Type := Data { name : cstring; value : cstring; filename : cstring }.

Definition is_quote (c : ascii) : bool := (c =c ";") || (c =c DQUOTE) || (c =c "'").

Definition step (st : state) (c : ascii) (d : data) : state * data :=
  match st with
  | parse_key_start =>
      if c =c " " then (parse_key_start, d)
      else if is_char c then (parse_key, Data (name d ++ [c]) (value d) (filename d))
      else (parse_fail, d)
  | parse_key =>
      if c =c ";" then (parse_key_start, Data [] (value d) (filename d))
      else if c =c "=" then (parse_value_start, Data (name d) [] (filename d))
      else if is_tspecial c || (c =c ":") then (parse_key_start, Data [] (value d) (filename d))
      else if is_char c || (c =c "_") then (parse_key, Data (name d ++ [c]) (value d) (filename d))
      else (parse_key, d)
  | parse_value_start =>
      if is_quote c then (parse_value_start, d)
      else if is_char c then (parse_value, Data (name d) (value d ++ [c]) (filename d))
      else (parse_fail, d)
  | parse_value =>
      if is_quote c then
        (parse_key_start,
         if str_eqb (name d) $"filename" then Data (name d) (value d) (value d) else d)
      else if is_char c then (parse_value, Data (name d) (value d ++ [c]) (filename d))
      else (parse_fail, d)
  | parse_fail => (parse_fail, d)
  end.

Fixpoint loop (st : state) (d : data) (s : cstring) : data :=
  match s with
  | [] => d
  | c :: s' =>
      match st with
      | parse_fail => d
      | _ => let '(st', d') := step st c d in loop st' d' s'
      end
  end.

End Disposition.

(** [content_disposition_filename(begin, end, filename)]. *)
Definition content_disposition_filename (s filename : cstring) : bool * cstring :=
  let d := Disposition.loop Disposition.parse_key_start (Disposition.Data [] [] filename) s in
  let filename :=
    if str_eqb (Disposition.name d) $"filename"
       && negb (bool_decide (Disposition.value d = []))
    then Disposition.value d else Disposition.filename d in
  (negb (bool_decide (filename = [])), filename).

(** ** Lemmas: header names *)

Lemma headers_equal_lower a b : headers_equal a b = strcaseeq a b.
Proof.
  unfold headers_equal, strcaseeq, tolower_compare.
  revert b; induction a as [|x a IH]; intros [|y b]; try reflexivity.
  specialize (IH b). cbn [length combine forallb to_lower map str_eqb Nat.eqb].
  unfold to_lower in IH. rewrite <- IH.
  destruct (length a =? length b)%nat; simpl; [reflexivity|]. now rewrite andb_false_r.
Qed.

(** ** Lemmas: the status line *)

Module StatusLineFacts.
Import StatusLine.

Definition digits (s : cstring) : Prop := Forall (fun c => is_digit c = true) s.

(** [st] consumes digits with [upd] until [stop], then goes to [next]. *)
Definition scans (st : state) (stop : ascii) (next : state) (upd : ascii -> data -> data) : Prop :=
  forall c d s, loop st d (c :: s) =
    if c =c stop then loop next d s else if is_digit c then loop st (upd c d) s else (false, d).

(** [st] consumes one digit and goes to [next]. *)
Definition starts (st next : state) (upd : ascii -> data -> data) : Prop :=
  forall c d s, loop st d (c :: s) = if is_digit c then loop next (upd c d) s else (false, d).

Lemma loop_fail d s : loop fail d s = (false, d).
Proof. now destruct s. Qed.

Lemma scans_iff st stop next upd :
  scans st stop next upd -> is_digit stop = false ->
  forall s d d', loop st d s = (true, d') <->
    exists ds rest, s = ds ++ stop :: rest /\ digits ds
      /\ loop next (fold_left (fun d c => upd c d) ds d) rest = (true, d').
Proof.
  intros Hst Hstop. induction s as [|c s IH]; intros d d'.
  - split; [destruct st; discriminate|]. intros (ds & rest & H & _). destruct ds; discriminate.
  - rewrite Hst. destruct (Ascii.eqb_spec c stop) as [->|Hc].
    + split.
      * intros H. exists [], s. repeat split; [constructor|exact H].
      * intros ([|x ds] & rest & E & Hd & H); simplify_eq/=; [exact H|].
        apply Forall_inv in Hd. cbv beta in Hd. congruence.
    + destruct (is_digit c) eqn:Ed.
      * rewrite IH. split.
        -- intros (ds & rest & -> & Hd & H). exists (c :: ds), rest.
           repeat split; [now constructor|exact H].
        -- intros ([|x ds] & rest & E & Hd & H); simplify_eq/=.
           exists ds, rest. inversion Hd. auto.
      * split; [discriminate|]. intros ([|x ds] & rest & E & Hd & H); simplify_eq/=.
        apply Forall_inv in Hd. cbv beta in Hd. congruence.
Qed.

Lemma number_iff start st stop next upd :
  starts start st upd -> scans st stop next upd -> is_digit stop = false ->
  forall s d d', loop start d s = (true, d') <->
    exists ds rest, s = ds ++ stop :: rest /\ ds <> [] /\ digits ds
      /\ loop next (fold_left (fun d c => upd c d) ds d) rest = (true, d').
Proof.
  intros Hs Hst Hstop [|c s] d d'.
  - split; [destruct start; discriminate|]. intros ([|? ?] & rest & H & Hne & _); [congruence|discriminate].
  - rewrite Hs. destruct (is_digit c) eqn:Ed.
    + rewrite (scans_iff _ _ _ _ Hst Hstop). split.
      * intros (ds & rest & -> & Hd & H). exists (c :: ds), rest.
        repeat split; [discriminate|now constructor|exact H].
      * intros ([|x ds] & rest & E & Hne & Hd & H); simplify_eq/=.
        exists ds, rest. inversion Hd. auto.
    + split; [discriminate|]. intros ([|x ds] & rest & E & Hne & Hd & _); simplify_eq/=.
      apply Forall_inv in Hd. cbv beta in Hd. congruence.
Qed.

Lemma literal_iff st k next :
  (forall c d s, loop st d (c :: s) = if c =c k then loop next d s else (false, d)) ->
  forall s d d', loop st d s = (true, d') <->
    exists rest, s = k :: rest /\ loop next d rest = (true, d').
Proof.
  intros Hst [|c s] d d'.
  - split; [destruct st; discriminate|]. intros (? & ? & _). discriminate.
  - rewrite Hst. destruct (Ascii.eqb_spec c k) as [->|Hc].
    + split; [eauto|]. intros (rest & E & H). simplify_eq/=. exact H.
    + split; [discriminate|]. intros (rest & E & _). simplify_eq/=.
Qed.

Lemma reason_iff s d d' :
  loop reason_phrase d s = (true, d') <->
  exists r rest, s = r ++ CR :: LF :: rest /\ Forall (fun c => is_ctl c = false) r
    /\ d' = Data (version_major d) (version_minor d) (status d) (reason d ++ r).
Proof.
  revert d. induction s as [|c s IH]; intros d.
  - split; [discriminate|]. intros ([|? ?] & rest & H & _); discriminate.
  - cbn [loop step]. destruct (Ascii.eqb_spec c CR) as [->|Hc].
    + split.
      * destruct s as [|c s]; [discriminate|]. cbn [loop]. intros [= E1 <-].
        apply Ascii.eqb_eq in E1 as ->. exists [], s.
        repeat split; [constructor|]. rewrite app_nil_r. now destruct d.
      * intros ([|x r] & rest & E & Hr & ->); simplify_eq/=.
        -- rewrite app_nil_r. now destruct d.
        -- apply Forall_inv in Hr. discriminate.
    + destruct (is_ctl c) eqn:Ec.
      * rewrite loop_fail. split; [discriminate|].
        intros ([|x r] & rest & E & Hr & ->); simplify_eq/=.
        apply Forall_inv in Hr. cbv beta in Hr. congruence.
      * rewrite IH. split.
        -- intros (r & rest & -> & Hr & ->). exists (c :: r), rest.
           repeat split; [now constructor|]. simpl. now rewrite <- app_assoc.
        -- intros ([|x r] & rest & E & Hr & ->); simplify_eq/=.
           exists r, rest. inversion Hr. repeat split; auto. simpl. now rewrite <- app_assoc.
Qed.

Lemma fold_int32 ds v :
  digits ds -> int32 v = v -> fold_left add_digit ds v = int32 (fold_left dec_step ds v).
Proof.
  revert v. induction ds as [|c ds IH]; intros v Hd Hv; [now symmetry|].
  inversion_clear Hd as [|? ? Hc Hds]. cbn [fold_left].
  rewrite IH; [|exact Hds|unfold add_digit; apply wraps_id; [lia|apply wraps_range; lia]].
  assert (add_digit v c = int32 (dec_step v c)) as ->.
  { unfold add_digit, dec_step, schar. unfold is_digit, schar in Hc.
    pose proof (uchar_range c). destruct (uchar c <? 128); f_equal; lia. }
  clear. generalize (dec_step v c). intros z. revert z.
  induction ds as [|x ds IH]; intros z; cbn [fold_left].
  - apply wraps_id; [lia|]. apply wraps_range; lia.
  - rewrite <- IH. rewrite <- (IH (dec_step z x)). unfold dec_step at 2.
    rewrite wraps_wraps_linear by lia. reflexivity.
Qed.

Lemma prefix_iff s d d' :
  loop http_version_h d s = (true, d') <->
  exists rest, s = $"HTTP/" ++ rest /\ loop http_version_major_start d rest = (true, d').
Proof.
  rewrite (literal_iff http_version_h "H" http_version_t_1)
    by (intros; simpl; destruct (_ =c _); [reflexivity|apply loop_fail]).
  setoid_rewrite (literal_iff http_version_t_1 "T" http_version_t_2);
    [|intros; simpl; destruct (_ =c _); [reflexivity|apply loop_fail]].
  setoid_rewrite (literal_iff http_version_t_2 "T" http_version_p);
    [|intros; simpl; destruct (_ =c _); [reflexivity|apply loop_fail]].
  setoid_rewrite (literal_iff http_version_p "P" http_version_slash);
    [|intros; simpl; destruct (_ =c _); [reflexivity|apply loop_fail]].
  setoid_rewrite (literal_iff http_version_slash "/" http_version_major_start);
    [|intros; simpl; destruct (_ =c _); [reflexivity|apply loop_fail]].
  split; [intros (? & -> & ? & -> & ? & -> & ? & -> & ? & -> & H)|intros (? & -> & H)]; eauto 20.
Qed.

Ltac number_tac start st stop next upd :=
  rewrite (number_iff start st stop next upd);
  [ | intros c d0 s0; simpl; destruct (is_digit c); [reflexivity|apply loop_fail]
    | intros c d0 s0; simpl; destruct (c =c _); [reflexivity|];
      destruct (is_digit c); [reflexivity|apply loop_fail]
    | reflexivity ].

Lemma fold_major ds d :
  fold_left (fun d c => set_major (add_digit (version_major d) c) d) ds d
  = set_major (fold_left add_digit ds (version_major d)) d.
Proof. revert d; induction ds as [|x ds IH]; intros d; [now destruct d|]. simpl. now rewrite IH. Qed.

Lemma fold_minor ds d :
  fold_left (fun d c => set_minor (add_digit (version_minor d) c) d) ds d
  = set_minor (fold_left add_digit ds (version_minor d)) d.
Proof. revert d; induction ds as [|x ds IH]; intros d; [now destruct d|]. simpl. now rewrite IH. Qed.

Lemma fold_status ds d :
  fold_left (fun d c => set_status (add_digit (status d) c) d) ds d
  = set_status (fold_left add_digit ds (status d)) d.
Proof. revert d; induction ds as [|x ds IH]; intros d; [now destruct d|]. simpl. now rewrite IH. Qed.

Lemma major_iff s d d' :
  loop http_version_major_start d s = (true, d') <->
  exists ds rest, s = ds ++ "."%char :: rest /\ ds <> [] /\ digits ds
    /\ loop http_version_minor_start (set_major (fold_left add_digit ds (version_major d)) d) rest
       = (true, d').
Proof.
  number_tac http_version_major_start http_version_major "."%char http_version_minor_start
    (fun c d => set_major (add_digit (version_major d) c) d).
  now setoid_rewrite fold_major.
Qed.

Lemma minor_iff s d d' :
  loop http_version_minor_start d s = (true, d') <->
  exists ds rest, s = ds ++ " "%char :: rest /\ ds <> [] /\ digits ds
    /\ loop status_code_start (set_minor (fold_left add_digit ds (version_minor d)) d) rest
       = (true, d').
Proof.
  number_tac http_version_minor_start http_version_minor " "%char status_code_start
    (fun c d => set_minor (add_digit (version_minor d) c) d).
  now setoid_rewrite fold_minor.
Qed.

Lemma status_iff s d d' :
  loop status_code_start d s = (true, d') <->
  exists ds rest, s = ds ++ " "%char :: rest /\ ds <> [] /\ digits ds
    /\ loop reason_phrase (set_status (fold_left add_digit ds (status d)) d) rest = (true, d').
Proof.
  number_tac status_code_start status_code " "%char reason_phrase
    (fun c d => set_status (add_digit (status d) c) d).
  now setoid_rewrite fold_status.
Qed.
(** A status line of the grammar is accepted. *)
Lemma line_parses a b c r rest :
  a <> [] -> b <> [] -> c <> [] -> digits a -> digits b -> digits c ->
  Forall (fun x => is_ctl x = false) r ->
  parse_http_status_line ($"HTTP/" ++ a ++ $"." ++ b ++ $" " ++ c ++ $" " ++ r ++ CR :: LF :: rest) 0 0 0
  = (true, Data (int32 (dec_value a)) (int32 (dec_value b)) (int32 (dec_value c)) r).
Proof.
  intros Ha Hb Hc Da Db Dc Hr. unfold parse_http_status_line. rewrite prefix_iff.
  setoid_rewrite major_iff. setoid_rewrite minor_iff. setoid_rewrite status_iff. setoid_rewrite reason_iff.
  eexists. split; [reflexivity|]. exists a. eexists. split; [reflexivity|]. do 2 (split; [assumption|]).
  exists b. eexists. split; [reflexivity|]. do 2 (split; [assumption|]).
  exists c. eexists. split; [reflexivity|]. do 2 (split; [assumption|]).
  exists r, rest. split; [reflexivity|]. split; [exact Hr|]. simpl.
  now rewrite !fold_int32 by (auto; reflexivity).
Qed.
End StatusLineFacts.

(** [parse_http_status_line] accepts exactly the status lines
    [HTTP/<digits>.<digits> <digits> <reason>\r\n], and on those it returns the
    three numbers (reduced to [int]) and stops at the line feed. *)
Theorem parse_http_status_line_correct (s : cstring) (d : StatusLine.data) :
  parse_http_status_line s 0 0 0 = (true, d) <->
  exists a b c r rest,
    s = $"HTTP/" ++ a ++ $"." ++ b ++ $" " ++ c ++ $" " ++ r ++ CR :: LF :: rest
    /\ (a <> [] /\ b <> [] /\ c <> [])
    /\ Forall (fun x => is_digit x = true) (a ++ b ++ c)
    /\ Forall (fun x => is_ctl x = false) r
    /\ d = StatusLine.Data (int32 (dec_value a)) (int32 (dec_value b)) (int32 (dec_value c)) r.
Proof.
  split.
  - unfold parse_http_status_line. rewrite StatusLineFacts.prefix_iff.
    setoid_rewrite StatusLineFacts.major_iff. setoid_rewrite StatusLineFacts.minor_iff.
    setoid_rewrite StatusLineFacts.status_iff. setoid_rewrite StatusLineFacts.reason_iff.
    intros (? & -> & a & ? & -> & Ha & Da & b & ? & -> & Hb & Db & c & ? & -> & Hc & Dc & r & rest & -> & Hr & ->).
    exists a, b, c, r, rest. rewrite !Forall_app. simpl.
    rewrite !StatusLineFacts.fold_int32 by (auto; reflexivity). auto 10.
  - intros (a & b & c & r & rest & -> & (Ha & Hb & Hc) & Hd & Hr & ->).
    rewrite !Forall_app in Hd. destruct Hd as (Da & Db & Dc).
    now apply StatusLineFacts.line_parses.
Qed.

(** ** Lemmas: the headers *)

Module HeadersFacts.
Import Headers.

Definition name_char (c : ascii) : bool := negb (bad_name_char c) && negb (c =c ":").

(** A header that survives printing and parsing. *)
Definition wf_header (kv : option_item) : Prop :=
  fst kv <> [] /\ Forall (fun c => name_char c = true) (fst kv)
  /\ fst kv <> http_options.status_code
  /\ Forall (fun c => is_ctl c = false) (snd kv) /\ trim (snd kv) = snd kv.

Lemma name_char_facts c :
  name_char c = true ->
  bad_name_char c = false /\ (c =c ":") = false /\ (c =c CR) = false
  /\ ((c =c " ") || (c =c TAB)) = false /\ isspace c = false.
Proof.
  intros H.
  assert (implb (name_char c)
    (negb (bad_name_char c) && negb (c =c ":") && negb (c =c CR)
     && negb ((c =c " ") || (c =c TAB)) && negb (isspace c)) = true) as E.
  { revert c H. intros c _. revert c. apply forall_ascii. vm_compute. reflexivity. }
  rewrite H in E. cbn [implb] in E. rewrite !andb_true_iff, !negb_true_iff in E. tauto.
Qed.

Lemma not_ctl_facts c : is_ctl c = false -> (c =c CR) = false /\ (c =c LF) = false.
Proof. intros H. split; apply Ascii.eqb_neq; intros ->; discriminate. Qed.

(** Numbers are values of headers. *)
Lemma number_value n :
  0 <= n -> Forall (fun c => is_ctl c = false) (itoa n) /\ trim (itoa n) = itoa n.
Proof.
  intros Hn. destruct (itoa_nonneg_digits n Hn) as [_ Hd].
  assert (forall c, implb (isdigit c) (negb (is_ctl c) && negb (isspace c)) = true) as F
    by (apply forall_ascii; vm_compute; reflexivity).
  assert (Forall (fun c => is_ctl c = false /\ isspace c = false) (itoa n)) as H.
  { eapply Forall_impl; [exact Hd|]. intros c Hc. specialize (F c). cbv beta in Hc. rewrite Hc in F. cbn [implb] in F.
    apply andb_true_iff in F as [F1 F2]. now rewrite negb_true_iff in F1, F2. }
  split; [|apply trim_id]; (eapply Forall_impl; [exact H|]); now intros c [? ?].
Qed.

Lemma trim_name k : Forall (fun c => name_char c = true) k -> trim k = k.
Proof.
  intros H. apply trim_id. eapply Forall_impl; [exact H|]. intros c Hc.
  now apply name_char_facts in Hc as (_ & _ & _ & _ & ?).
Qed.

Lemma loop_name k rest n v i hs :
  Forall (fun c => name_char c = true) k ->
  loop step_list header_name (Data n v i hs) (k ++ ":"%char :: rest)
  = loop step_list space_before_header_value (Data (n ++ k) v i hs) rest.
Proof.
  intros H. revert n. induction H as [|c k Hc _ IH]; intros n; simpl.
  - now rewrite app_nil_r.
  - apply name_char_facts in Hc as (-> & -> & _). simpl. unfold push_name. simpl.
    rewrite IH. now rewrite <- app_assoc.
Qed.

Lemma loop_value w rest n v i hs :
  Forall (fun c => is_ctl c = false) w ->
  loop step_list header_value (Data n v i hs) (w ++ CR :: LF :: rest)
  = loop step_list header_line_start (Data n (v ++ w) i hs) rest.
Proof.
  intros H. revert v. induction H as [|c w Hc _ IH]; intros v; simpl.
  - now rewrite app_nil_r.
  - destruct (not_ctl_facts c Hc) as [-> _]. rewrite Hc. simpl. unfold push_value. simpl.
    rewrite IH. now rewrite <- app_assoc.
Qed.

(** From just after the first character of a name to the next line. *)
Lemma loop_rest_of_line c k w rest i hs :
  Forall (fun c => name_char c = true) k -> Forall (fun c => is_ctl c = false) w ->
  loop step_list header_name (Data [c] [] i hs) (k ++ $": " ++ w ++ crlf ++ rest)
  = loop step_list header_line_start (Data (c :: k) (" "%char :: w) i hs) rest.
Proof.
  intros Hk Hw. cbn [list_ascii_of_string app]. rewrite loop_name by exact Hk.
  cbn [loop step_list]. ceval. change (is_ctl " ") with false. cbv iota.
  unfold push_value. cbn [name value info headers app crlf]. now rewrite loop_value.
Qed.

Lemma loop_lines l k w i hs rest :
  wf_header (k, w) -> Forall wf_header l ->
  loop step_list header_line_start (Data k (" "%char :: w) i hs) (header_lines l ++ crlf ++ rest)
  = (true, Data [] [] (fold_left (fun h '(k, v) => check_header k v h) ((k, w) :: l) i)
             (hs ++ (k, w) :: l)).
Proof.
  intros Hw Hl. revert k w i hs Hw. induction Hl as [|[k' w'] l Hh Hl IH]; intros k w i hs Hw.
  - cbn [header_lines app crlf loop step_list]. ceval. unfold end_header_push. simpl.
    destruct Hw as (_ & Hk & _ & _ & Ht). simpl in *.
    rewrite (trim_space " "%char) by reflexivity. now rewrite (trim_name k Hk), Ht.
  - destruct Hh as (Hne & Hk' & Hs & Hw' & Ht'). cbn [fst snd] in *.
    cbn [header_lines]. apply str_eqb_neq in Hs. rewrite Hs. cbn [negb].
    destruct k' as [|c k']; [congruence|]. inversion_clear Hk' as [|? ? Hc Hk].
    rewrite <- !app_assoc. cbn [app loop step_list].
    apply name_char_facts in Hc as Fc. destruct Fc as (F1 & _ & F2 & F3 & _).
    rewrite F2, F3, F1. unfold push_name, end_header_push.
    cbn [name value info headers app].
    destruct Hw as (? & HK & ? & ? & HT). cbn [fst snd] in *.
    rewrite (trim_space " "%char), (trim_name k HK), HT by reflexivity.
    rewrite loop_rest_of_line by auto.
    rewrite IH.
    + cbn [fold_left]. now rewrite <- app_assoc.
    + split; [discriminate|]. cbn [fst snd]. apply str_eqb_neq in Hs. auto using Forall_cons.
Qed.

(** A printed list of headers, followed by the empty line, is accepted. *)
Lemma lines_parse l h hs rest :
  Forall wf_header l ->
  parse_http_headers_list (header_lines l ++ crlf ++ rest) h hs
  = (true, fold_left (fun h '(k, v) => check_header k v h) l h, hs ++ l).
Proof.
  intros H. unfold parse_http_headers_list. destruct l as [|[k w] l]; cbn [header_lines app].
  - cbn. now rewrite app_nil_r.
  - inversion_clear H as [|? ? Hh Hl]. pose proof Hh as (Hne & Hk & Hs & Hw & Ht). cbn [fst snd] in *.
    apply str_eqb_neq in Hs. rewrite Hs. cbn [negb].
    destruct k as [|c k]; [congruence|]. inversion_clear Hk as [|? ? Hc Hk'].
    rewrite <- !app_assoc. cbn [app loop step_list].
    apply name_char_facts in Hc as (F1 & _ & F2 & _).
    rewrite F2, F1. unfold push_name. cbn [name value info headers app].
    rewrite loop_rest_of_line, loop_lines by auto. reflexivity.
Qed.

(** *** Control characters never reach a header *)

Definition no_ctl (s : cstring) : Prop := Forall (fun c => is_ctl c = false) s.
Definition clean (kv : option_item) : Prop := no_ctl (fst kv) /\ no_ctl (snd kv).

Lemma no_ctl_snoc s c : no_ctl s -> is_ctl c = false -> no_ctl (s ++ [c]).
Proof. intros. apply Forall_app. split; [assumption|]. now repeat constructor. Qed.

Lemma loop_clean s : forall st n v i hs b d,
  no_ctl n -> no_ctl v -> Forall clean hs ->
  loop step_list st (Data n v i hs) s = (b, d) -> Forall clean (headers d).
Proof.
  induction s as [|c s IH]; intros st n v i hs b d Hn Hv Hh H; [injection H as _ <-; exact Hh|].
  assert (bad_name_char c = false -> is_ctl c = false) as Hb.
  { unfold bad_name_char. destruct (is_char c), (is_ctl c), (is_tspecial c); simpl; congruence. }
  assert (Forall clean (hs ++ [(trim n, trim v)])) as Hpush.
  { apply Forall_app. split; [exact Hh|]. constructor; [|constructor].
    split; apply trim_forall; assumption. }
  assert (no_ctl [c] <-> is_ctl c = false) as H1.
  { split; [intros F; now apply Forall_inv in F|]. intros. now repeat constructor. }
  destruct st; cbn [loop step_list] in H; try (injection H as _ <-; exact Hh);
    split_ifs_in H; eapply IH in H; try exact H;
    try assumption; try apply no_ctl_snoc; auto; try (now constructor); try (apply H1; auto).
Qed.

(** *** The two overloads agree *)

Definition sim (a b : data) : Prop :=
  name a = name b /\ info a = info b
  /\ (value b = value a \/ value b = " "%char :: value a).

Lemma sim_end a b : sim a b -> sim (end_header a) (end_header_push b).
Proof.
  intros (Hn & Hi & Hv). repeat split; simpl; [|now left]. rewrite Hn, Hi.
  destruct Hv as [->| ->]; [reflexivity|]. now rewrite (trim_space " "%char).
Qed.

Lemma sim_push_name a b c : sim a b -> sim (push_name c a) (push_name c b).
Proof. intros (Hn & Hi & Hv). repeat split; simpl; [congruence|exact Hi|exact Hv]. Qed.

Lemma sim_push_value a b c : sim a b -> sim (push_value c a) (push_value c b).
Proof.
  intros (Hn & Hi & Hv). repeat split; simpl; [exact Hn|exact Hi|].
  destruct Hv as [->| ->]; [now left|now right].
Qed.
#[local] Hint Resolve sim_end sim_push_name sim_push_value : avbot.

(** Before the first character of a value both values are empty. *)
Definition at_value_start (st : state) (a b : data) : Prop :=
  match st with
  | space_before_header_value | header_name | first_header_line_start =>
      value a = [] /\ value b = []
  | _ => True
  end.

Lemma step_sim st c a b st' a' :
  sim a b -> at_value_start st a b -> step st c a = (st', a') -> st' <> fail ->
  exists b', step_list st c b = (st', b') /\ sim a' b' /\ at_value_start st' a' b'.
Proof.
  intros S V H Hf. destruct st; cbn [step step_list at_value_start] in *; split_ifs_in H;
    injection H as <- <-; try congruence;
    try (eexists; split; [reflexivity|]; cbn [at_value_start push_name end_header end_header_push value];
         auto with avbot; fail).
  - (* the space before a value *)
    destruct V as [Va Vb]. apply Ascii.eqb_eq in Heqb0 as ->. ceval.
    change (is_ctl " ") with false. cbv iota. eexists. split; [reflexivity|].
    split; [|exact I]. destruct S as (Hn & Hi & _). repeat split; simpl; auto.
    right. now rewrite Va, Vb.
  - (* another character *)
    assert ((c =c CR) = false) as -> by (apply not_ctl_facts; assumption).
    eexists. split; [reflexivity|]. cbn [at_value_start]. auto with avbot.
Qed.

Lemma loop_sim s : forall st a b a',
  sim a b -> at_value_start st a b -> loop step st a s = (true, a') ->
  exists b', loop step_list st b s = (true, b') /\ info a' = info b'.
Proof.
  induction s as [|c s IH]; intros st a b a' S V H; [discriminate|].
  assert (forall st1 a1, step st c a = (st1, a1) -> loop step st1 a1 s = (true, a') ->
            exists b', (let '(st', d') := step_list st c b in loop step_list st' d' s) = (true, b')
              /\ info a' = info b') as Hstep.
  { intros st1 a1 E L. assert (st1 <> fail) by (intros ->; destruct s; discriminate).
    destruct (step_sim _ _ _ _ _ _ S V E) as (b1 & -> & S1 & V1); [assumption|]. eauto. }
  destruct (step st c a) as [st1 a1] eqn:E.
  destruct st; cbn [loop] in *; try discriminate; try rewrite E in H; eauto.
  injection H as Elf <-. exists b. rewrite Elf. split; [reflexivity|apply S].
Qed.
End HeadersFacts.

(** The headers an option list prints are the headers the response parser
    reads: parsing [header_string()] followed by the empty line succeeds,
    appends exactly the options, in order, and reports the content type,
    length and location that [check_header] extracts from them. *)
Theorem parse_header_string (o : opts) (h : header_info) (hs : option_item_list) (rest : cstring) :
  Forall HeadersFacts.wf_header (m_opts o) ->
  parse_http_headers_list (header_string o ++ crlf ++ rest) h hs
  = (true, fold_left (fun h '(k, v) => check_header k v h) (m_opts o) h, hs ++ m_opts o).
Proof.
  apply HeadersFacts.lines_parse.
Qed.

Definition example_headers : opts :=
  Opts [($"Host", $"example.com:80"); ($"content-LENGTH", $"42"); ($"X-Empty", [])] false.

Lemma parse_header_string_witness :
  parse_http_headers_list (header_string example_headers ++ crlf) (HeaderInfo [] 0 []) []
  = (true, HeaderInfo [] 42 [], m_opts example_headers).
Proof.
  rewrite <- (app_nil_r crlf).
  rewrite (parse_header_string example_headers (HeaderInfo [] 0 []) [] []); [reflexivity|].
  repeat (constructor; [split; [discriminate|];
    split; [repeat constructor|]; split; [discriminate|]; split; [repeat constructor|reflexivity]|]).
  constructor.
Defined.

(** No header injection: whatever bytes the server sends, and whether
    parsing succeeds or not, no name or value that the parser appends to the
    header list holds a control character (in particular no CR, LF or NUL). *)
Theorem parse_http_headers_clean (s : cstring) (h : header_info) (hs : option_item_list) :
  Forall HeadersFacts.clean hs ->
  Forall HeadersFacts.clean (snd (parse_http_headers_list s h hs)).
Proof.
  intros H. unfold parse_http_headers_list.
  destruct (Headers.loop _ _ _ _) as [b d] eqn:E. simpl.
  eapply HeadersFacts.loop_clean in E; try exact E; [constructor|constructor|exact H].
Qed.

Lemma parse_http_headers_clean_witness :
  Forall HeadersFacts.clean
    (snd (parse_http_headers_list ($"A: b" ++ crlf ++ $"C: d" ++ [chr 7]) (HeaderInfo [] 0 []) [])).
Proof. apply parse_http_headers_clean. constructor. Defined.

(** The two overloads agree: whenever the one without a header list
    accepts a response, the one with a header list accepts it and reports the
    same content type, content length and location. *)
Theorem parse_http_headers_overloads (s : cstring) (h h' : header_info) (hs : option_item_list) :
  parse_http_headers s h = (true, h') ->
  exists hs', parse_http_headers_list s h hs = (true, h', hs').
Proof.
  unfold parse_http_headers, parse_http_headers_list.
  destruct (Headers.loop Headers.step _ _ _) as [b d] eqn:E. intros [= -> <-].
  eapply HeadersFacts.loop_sim with (b := Headers.Data [] [] h hs) in E as (b' & -> & ->).
  - eauto.
  - repeat split. now left.
  - now split.
Qed.

Lemma parse_http_headers_overloads_witness :
  exists hs', parse_http_headers_list ($"Content-Type:  text" ++ crlf ++ crlf) (HeaderInfo [] 7 []) []
  = (true, HeaderInfo $"text" 7 [], hs').
Proof.
  apply (parse_http_headers_overloads _ (HeaderInfo [] 7 []) (HeaderInfo $"text" 7 []) []).
  reflexivity.
Defined.

(** ** Lemmas: Content-Disposition *)

Module DispositionFacts.
Import Disposition.

(** Characters of a parameter name, and of a parameter value. *)
Definition key_char (c : ascii) : bool :=
  is_char c && negb ((c =c ";") || (c =c "=") || is_tspecial c || (c =c ":")).
Definition value_char (c : ascii) : bool := is_char c && negb (is_quote c).

Definition word (p : ascii -> bool) (s : cstring) : Prop :=
  s <> [] /\ Forall (fun c => p c = true) s.

Lemma key_char_facts c : key_char c = true ->
  is_char c = true /\ (c =c ";") = false /\ (c =c "=") = false
  /\ is_tspecial c || (c =c ":") = false /\ (c =c " ") = false.
Proof.
  intros H.
  assert (implb (key_char c) (is_char c && negb (c =c ";") && negb (c =c "=")
            && negb (is_tspecial c || (c =c ":")) && negb (c =c " ")) = true) as E.
  { revert c H. intros c _. revert c. apply forall_ascii. vm_compute. reflexivity. }
  rewrite H in E. cbn [implb] in E. rewrite !andb_true_iff, !negb_true_iff in E. tauto.
Qed.

Lemma loop_key k n v f rest :
  Forall (fun c => key_char c = true) k ->
  loop parse_key (Data n v f) (k ++ rest) = loop parse_key (Data (n ++ k) v f) rest.
Proof.
  intros H. revert n. induction H as [|c k Hc _ IH]; intros n; simpl.
  - now rewrite app_nil_r.
  - apply key_char_facts in Hc as (-> & -> & -> & -> & _). simpl.
    rewrite IH. now rewrite <- app_assoc.
Qed.

Lemma loop_word k n v f rest :
  word key_char k ->
  loop parse_key_start (Data n v f) (k ++ rest) = loop parse_key (Data (n ++ k) v f) rest.
Proof.
  intros [Hne H]. destruct k as [|c k]; [congruence|]. inversion_clear H as [|? ? Hc Hk]. simpl.
  apply key_char_facts in Hc as (-> & _ & _ & _ & ->).
  rewrite loop_key by exact Hk. now rewrite <- app_assoc.
Qed.

Lemma loop_param_value w n v f rest :
  Forall (fun c => value_char c = true) w ->
  loop parse_value (Data n v f) (w ++ rest) = loop parse_value (Data n (v ++ w) f) rest.
Proof.
  intros H. revert v. induction H as [|c w Hc _ IH]; intros v; simpl.
  - now rewrite app_nil_r.
  - unfold value_char in Hc. rewrite andb_true_iff, negb_true_iff in Hc. destruct Hc as [-> ->].
    rewrite IH. now rewrite <- app_assoc.
Qed.

(** From the [=] of a parameter to the end of its value. *)
Lemma loop_assign w n v f rest :
  word value_char w ->
  loop parse_key (Data n v f) ("="%char :: w ++ rest) = loop parse_value (Data n w f) rest.
Proof.
  intros [Hne H]. destruct w as [|c w]; [congruence|]. inversion_clear H as [|? ? Hc Hw]. simpl.
  unfold value_char in Hc. rewrite andb_true_iff, negb_true_iff in Hc. destruct Hc as [-> ->].
  now rewrite loop_param_value.
Qed.

Lemma loop_assign_quoted w n v f rest :
  word value_char w ->
  loop parse_key (Data n v f) ("="%char :: DQUOTE :: w ++ rest) = loop parse_value (Data n w f) rest.
Proof.
  intros H. rewrite <- (loop_assign w n v f rest H). reflexivity.
Qed.

Lemma loop_key_end n v g x :
  loop parse_key (Data n v g) (";"%char :: x) = loop parse_key_start (Data [] v g) x.
Proof. reflexivity. Qed.

Lemma loop_value_end n v g x :
  loop parse_value (Data n v g) (";"%char :: x)
  = loop parse_key_start (Data n v (if str_eqb n $"filename" then v else g)) x.
Proof. simpl. now destruct (str_eqb n _). Qed.

Lemma loop_filename n v g f :
  word value_char f ->
  loop parse_key_start (Data n v g) (" "%char :: $"filename" ++ "="%char :: DQUOTE :: f ++ [DQUOTE])
  = Data (n ++ $"filename") f (if str_eqb (n ++ $"filename") $"filename" then f else g).
Proof.
  intros Hf.
  change (loop parse_key_start (Data n v g) ($"filename" ++ "="%char :: DQUOTE :: f ++ [DQUOTE])
          = Data (n ++ $"filename") f (if str_eqb (n ++ $"filename") $"filename" then f else g)).
  rewrite (loop_word $"filename") by (split; [discriminate|repeat constructor]).
  rewrite loop_assign_quoted by exact Hf. cbn [loop step is_quote name value]. ceval. cbn [orb].
  now destruct (str_eqb _ _).
Qed.
End DispositionFacts.

Definition filename_param (f : cstring) : cstring :=
  ";"%char :: " "%char :: $"filename" ++ "="%char :: DQUOTE :: f ++ [DQUOTE].

(** The usual header is read: from [<type>; filename="<f>"] the function
    extracts [f]. *)
Theorem content_disposition_filename_ok (t f : cstring) :
  DispositionFacts.word DispositionFacts.key_char t ->
  DispositionFacts.word DispositionFacts.value_char f ->
  content_disposition_filename (t ++ filename_param f) [] = (true, f).
Proof.
  intros Ht Hf. unfold content_disposition_filename, filename_param.
  rewrite DispositionFacts.loop_word, DispositionFacts.loop_key_end by exact Ht.
  rewrite DispositionFacts.loop_filename by exact Hf.
  destruct Hf as [Hne _]. destruct f as [|c f]; [congruence|]. reflexivity.
Qed.

Lemma content_disposition_filename_ok_witness :
  content_disposition_filename ($"attachment" ++ filename_param $"file.zip") [] = (true, $"file.zip").
Proof.
  apply content_disposition_filename_ok; (split; [discriminate|repeat constructor]).
Defined.

(** A parameter before the file name hides it: the parameter's name is
    not cleared after its value, so on [<key>=<value>; filename="<f>"] (the shape
    of the example in the function's comment) the function returns false. *)
Theorem content_disposition_filename_hidden (k v f : cstring) :
  DispositionFacts.word DispositionFacts.key_char k -> k <> $"filename" ->
  DispositionFacts.word DispositionFacts.value_char v ->
  DispositionFacts.word DispositionFacts.value_char f ->
  content_disposition_filename (k ++ "="%char :: v ++ filename_param f) [] = (false, []).
Proof.
  intros Hk Hkf Hv Hf. unfold content_disposition_filename, filename_param.
  rewrite DispositionFacts.loop_word, DispositionFacts.loop_assign by assumption.
  rewrite DispositionFacts.loop_value_end. change ([] ++ k) with k.
  rewrite (proj2 (str_eqb_neq k _) Hkf).
  rewrite DispositionFacts.loop_filename by exact Hf.
  cbn [Disposition.name Disposition.value Disposition.filename].
  assert (str_eqb (k ++ $"filename") $"filename" = false) as ->; [|reflexivity].
  apply str_eqb_neq. intros E. destruct Hk as [Hne _]. apply (f_equal length) in E.
  rewrite length_app in E. destruct k; [congruence|]. simpl in E. lia.
Qed.

Lemma content_disposition_filename_hidden_witness :
  content_disposition_filename ($"attachment=other" ++ filename_param $"file.zip") [] = (false, []).
Proof.
  apply (content_disposition_filename_hidden $"attachment" $"other" $"file.zip");
    solve [split; [discriminate|repeat constructor] | discriminate].
Defined.
