(* ===== verification/HttpDate.v ===== *)
(** HTTP dates: the date routines of avhttp/detail/parsers.hpp.

    The cursor [const char *date] is a suffix of the NUL-terminated text with
    the character before it ([date[-1]]).  The code moves the cursor by a fixed
    8 or 5 characters after a time of day and then reads it: a move past the
    terminating NUL is the fault [OutOfBounds].  The macro [SIZEOF_TIME_T] is a
    variable, 0 where the headers leave it undefined (the preprocessor then
    reads it as 0). *)

From S2P Require Import Prelude CLib.

(** ** Tables *)

Definition wkday : list cstring := [$"Mon"; $"Tue"; $"Wed"; $"Thu"; $"Fri"; $"Sat"; $"Sun"].
Definition weekday : list cstring :=
  [$"Monday"; $"Tuesday"; $"Wednesday"; $"Thursday"; $"Friday"; $"Saturday"; $"Sunday"].
Definition month : list cstring :=
  [$"Jan"; $"Feb"; $"Mar"; $"Apr"; $"May"; $"Jun"; $"Jul"; $"Aug"; $"Sep"; $"Oct"; $"Nov"; $"Dec"].

Definition TMP_DAYZONE : Z := -60.

(** Zone names with their offset in minutes. *)
Definition tz : list (cstring * Z) :=
  [
    ($"GMT", 0); ($"UTC", 0); ($"WET", 0); ($"BST", 0 + TMP_DAYZONE); ($"WAT", 60); ($"AST", 240);
    ($"ADT", 240 + TMP_DAYZONE); ($"EST", 300); ($"EDT", 300 + TMP_DAYZONE); ($"CST", 360);
    ($"CDT", 360 + TMP_DAYZONE); ($"MST", 420); ($"MDT", 420 + TMP_DAYZONE); ($"PST", 480);
    ($"PDT", 480 + TMP_DAYZONE); ($"YST", 540); ($"YDT", 540 + TMP_DAYZONE); ($"HST", 600);
    ($"HDT", 600 + TMP_DAYZONE); ($"CAT", 600); ($"AHST", 600); ($"NT", 660); ($"IDLW", 720);
    ($"CET", (-60)); ($"MET", (-60)); ($"MEWT", (-60)); ($"MEST", (-60) + TMP_DAYZONE);
    ($"CEST", (-60) + TMP_DAYZONE); ($"MESZ", (-60) + TMP_DAYZONE); ($"FWT", (-60));
    ($"FST", (-60) + TMP_DAYZONE); ($"EET", (-120)); ($"WAST", (-420));
    ($"WADT", (-420) + TMP_DAYZONE); ($"CCT", (-480)); ($"JST", (-540)); ($"EAST", (-600));
    ($"EADT", (-600) + TMP_DAYZONE); ($"GST", (-600)); ($"NZT", (-720)); ($"NZST", (-720));
    ($"NZDT", (-720) + TMP_DAYZONE); ($"IDLE", (-720)); ($"A", 1 * 60); ($"B", 2 * 60);
    ($"C", 3 * 60); ($"D", 4 * 60); ($"E", 5 * 60); ($"F", 6 * 60); ($"G", 7 * 60); ($"H", 8 * 60);
    ($"I", 9 * 60); ($"K", 10 * 60); ($"L", 11 * 60); ($"M", 12 * 60); ($"N", (-1) * 60);
    ($"O", (-2) * 60); ($"P", (-3) * 60); ($"Q", (-4) * 60); ($"R", (-5) * 60); ($"S", (-6) * 60);
    ($"T", (-7) * 60); ($"U", (-8) * 60); ($"V", (-9) * 60); ($"W", (-10) * 60); ($"X", (-11) * 60);
    ($"Y", (-12) * 60); ($"Z", 0)
  ].

Inductive assume : Type := DATE_MDAY | DATE_YEAR | DATE_TIME.

Record short_tm : Type := ShortTm {
  tm_sec : Z; tm_min : Z; tm_hour : Z; tm_mday : Z; tm_mon : Z; tm_year : Z
}.

(** ** Helpers *)

(** The index of the first name equal to [check] but for case. *)
Fixpoint index_of (check : cstring) (what : list cstring) (i : Z) : Z :=
  match what with
  | [] => -1
  | w :: what' => if strcaseeq check w then i else index_of check what' (i + 1)
  end.

Definition checkday (check : cstring) (len : nat) : Z :=
  index_of check (if (3 <? len)%nat then weekday else wkday) 0.

Definition checkmonth (check : cstring) : Z := index_of check month 0.

Fixpoint checktz_in (check : cstring) (what : list (cstring * Z)) : Z :=
  match what with
  | [] => -1
  | (name, offset) :: what' => if strcaseeq check name then offset * 60 else checktz_in check what'
  end.
Definition checktz (check : cstring) : Z := checktz_in check tz.

Definition sltosi (slnum : Z) : Z := int32 (Z.land slnum 0x7FFFFFFF).

(** The cursor. *)
Record cursor : Type := Cursor { before : option ascii; rest : cstring }.

Inductive fault : Type := OutOfBounds.

(** [date += n], followed by a read of [*date]. *)
Definition advance (n : nat) (p : cursor) : result fault cursor :=
  if (n <=? length (rest p))%nat
  then Ok (Cursor (match n with O => before p | S k => rest p !! k end) (drop n (rest p)))
  else Err OutOfBounds.

(** Skip everything that is not a letter or a digit. *)
Fixpoint skip_from (b : option ascii) (s : cstring) : cursor :=
  match s with
  | [] => Cursor b []
  | c :: s' => if isalnum c then Cursor b s else skip_from (Some c) s'
  end.
Definition skip (p : cursor) : cursor := skip_from (before p) (rest p).

Definition month_days_cumulative : list Z := [0; 31; 59; 90; 120; 151; 181; 212; 243; 273; 304; 334].

Definition short_tm_time_t (tm : short_tm) : Z :=
  if tm_year tm <? 70 then -1
  else
    let year := tm_year tm + 1900 in
    let month := tm_mon tm in
    let '(year, month) :=
      if month <? 0 then (year + Z.quot (11 - month) 12, 11 - Z.rem (11 - month) 12)
      else if 12 <=? month then (year - Z.quot month 12, Z.rem month 12)
      else (year, month) in
    let leap_days := year - (if tm_mon tm <=? 1 then 1 else 0) in
    let leap_days :=
      (Z.quot leap_days 4 - Z.quot leap_days 100 + Z.quot leap_days 400)
      - Z.quot 1969 4 + Z.quot 1969 100 - Z.quot 1969 400 in
    (((((year - 1970) * 365
       + leap_days + default 0 (month_days_cumulative !! Z.to_nat month) + tm_mday tm - 1) * 24
      + tm_hour tm) * 60 + tm_min tm) * 60 + tm_sec tm).

(** ** [parse] *)

(** The locals that a part of the date can set. *)
Record parts : Type := Parts {
  wdaynum : Z; monnum : Z; mdaynum : Z;
  hournum : Z; minnum : Z; secnum : Z;
  yearnum : Z; tzoff : Z; dignext : assume
}.

Definition no_parts : parts := Parts (-1) (-1) (-1) (-1) (-1) (-1) (-1) (-1) DATE_MDAY.

Definition set_wday (v : Z) (d : parts) : parts :=
  Parts v (monnum d) (mdaynum d) (hournum d) (minnum d) (secnum d) (yearnum d) (tzoff d) (dignext d).
Definition set_mon (v : Z) (d : parts) : parts :=
  Parts (wdaynum d) v (mdaynum d) (hournum d) (minnum d) (secnum d) (yearnum d) (tzoff d) (dignext d).
Definition set_mday (v : Z) (d : parts) : parts :=
  Parts (wdaynum d) (monnum d) v (hournum d) (minnum d) (secnum d) (yearnum d) (tzoff d) (dignext d).
Definition set_hour (v : Z) (d : parts) : parts :=
  Parts (wdaynum d) (monnum d) (mdaynum d) v (minnum d) (secnum d) (yearnum d) (tzoff d) (dignext d).
Definition set_min (v : Z) (d : parts) : parts :=
  Parts (wdaynum d) (monnum d) (mdaynum d) (hournum d) v (secnum d) (yearnum d) (tzoff d) (dignext d).
Definition set_sec (v : Z) (d : parts) : parts :=
  Parts (wdaynum d) (monnum d) (mdaynum d) (hournum d) (minnum d) v (yearnum d) (tzoff d) (dignext d).
Definition set_year (v : Z) (d : parts) : parts :=
  Parts (wdaynum d) (monnum d) (mdaynum d) (hournum d) (minnum d) (secnum d) v (tzoff d) (dignext d).
Definition set_tz (v : Z) (d : parts) : parts :=
  Parts (wdaynum d) (monnum d) (mdaynum d) (hournum d) (minnum d) (secnum d) (yearnum d) v (dignext d).
Definition set_dignext (v : assume) (d : parts) : parts :=
  Parts (wdaynum d) (monnum d) (mdaynum d) (hournum d) (minnum d) (secnum d) (yearnum d) (tzoff d) v.

(** [sscanf(date, "%31[A-Za-z]", buf)]. *)
Definition scan_name (s : cstring) : cstring := take 31 (fst (span isalpha s)).

(** A name: a day, else a month, else a time zone.  [None] for a bad string. *)
Definition name_part (buf : cstring) (d : parts) : option parts :=
  let '(found, d) :=
    if wdaynum d =? -1
    then let v := checkday buf (length buf) in (negb (v =? -1), set_wday v d)
    else (false, d) in
  let '(found, d) :=
    if negb found && (monnum d =? -1)
    then let v := checkmonth buf in (negb (v =? -1), set_mon v d)
    else (found, d) in
  let '(found, d) :=
    if negb found && (tzoff d =? -1)
    then let v := checktz buf in (negb (v =? -1), set_tz v d)
    else (found, d) in
  if found then Some d else None.

(** One [%02d] of [sscanf]: white space, then at most two characters, a sign
    among them. *)
Definition scan_int2 (s : cstring) : option (Z * cstring) :=
  match drop_while isspace s with
  | c :: t =>
      if (c =c "-") || (c =c "+") then
        match t with
        | d :: t' =>
            if isdigit d
            then Some (if c =c "-" then - (uchar d - 48) else uchar d - 48, t') else None
        | [] => None
        end
      else if isdigit c then
        match t with
        | d :: t' => if isdigit d then Some (dec_value [c; d], t') else Some (dec_value [c], t)
        | [] => Some (dec_value [c], t)
        end
      else None
  | [] => None
  end.

(** [sscanf] with [k] conversions [%02d] separated by colons: the values
    stored; their number is the return value. *)
Fixpoint scan_times (k : nat) (s : cstring) : list Z :=
  match k with
  | O => []
  | S k' =>
      match scan_int2 s with
      | None => []
      | Some (v, r) =>
          v :: match k', r with
               | S _, c :: r' => if c =c ":" then scan_times k' r' else []
               | _, _ => []
               end
      end
  end.

(** The stores of [sscanf] into [hournum], [minnum], [secnum]. *)
Definition store_times (vs : list Z) (d : parts) : parts :=
  match vs with
  | [] => d
  | [h] => set_hour h d
  | [h; m] => set_min m (set_hour h d)
  | h :: m :: s :: _ => set_sec s (set_min m (set_hour h d))
  end.

(** A number that is not a time of day: a zone offset, a date YYYYMMDD, a day
    of the month or a year.  [None] when it fits nowhere. *)
Definition number_part (p : cursor) (val : Z) (len : nat) (d : parts) : option parts :=
  let '(found, d) :=
    if (tzoff d =? -1) && (len =? 4)%nat && (val <=? 1400)
       && match before p with Some c => (c =c "+") || (c =c "-") | None => false end
    then let off := (Z.quot val 100 * 60 + Z.rem val 100) * 60 in
         (true, set_tz (match before p with
                        | Some c => if c =c "+" then - off else off
                        | None => off
                        end) d)
    else (false, d) in
  let '(found, d) :=
    if (len =? 8)%nat && (yearnum d =? -1) && (monnum d =? -1) && (mdaynum d =? -1)
    then (true, set_mday (Z.rem val 100)
                  (set_mon (Z.quot (Z.rem val 10000) 100 - 1) (set_year (Z.quot val 10000) d)))
    else (found, d) in
  let '(found, d) :=
    if negb found && match dignext d with DATE_MDAY => true | _ => false end && (mdaynum d =? -1)
    then let ok := (0 <? val) && (val <? 32) in
         (ok, set_dignext DATE_YEAR (if ok then set_mday val d else d))
    else (found, d) in
  let '(found, d) :=
    if negb found && match dignext d with DATE_YEAR => true | _ => false end && (yearnum d =? -1)
    then let y := if val <? 1900 then if 70 <? val then val + 1900 else val + 2000 else val in
         let d := set_year y d in
         (true, if mdaynum d =? -1 then set_dignext DATE_MDAY d else d)
    else (found, d) in
  if found then Some d else None.

(** The branch for a digit: the moved cursor and the locals, [None] to fail. *)
Definition plain_number (p : cursor) (d : parts) : result fault (option (cursor * parts)) :=
  let '(v, e) := strtoll (rest p) in
  let len := (length (rest p) - length e)%nat in
  match number_part p (sltosi v) len d with
  | Some d' => p' ← advance len p; mret (Some (p', d'))
  | None => mret None
  end.

Definition digit_part (p : cursor) (d : parts) : result fault (option (cursor * parts)) :=
  if secnum d =? -1 then
    let v3 := scan_times 3 (rest p) in
    let d := store_times v3 d in
    if (length v3 =? 3)%nat then p' ← advance 8 p; mret (Some (p', d))
    else
      let v2 := scan_times 2 (rest p) in
      let d := store_times v2 d in
      if (length v2 =? 2)%nat then p' ← advance 5 p; mret (Some (p', set_sec 0 d))
      else plain_number p d
  else plain_number p d.

(** One turn of the loop. *)
Definition date_step (p : cursor) (d : parts) : result fault (option (cursor * parts)) :=
  let p := skip p in
  match rest p with
  | c :: _ =>
      if isalpha c then
        let buf := scan_name (rest p) in
        match name_part buf d with
        | Some d' => p' ← advance (length buf) p; mret (Some (p', d'))
        | None => mret None
        end
      else if isdigit c then digit_part p d
      else mret (Some (p, d))
  | [] => mret (Some (p, d))
  end.

(** [while (date[0] && part < 6)], with [n = 6 - part]. *)
Fixpoint date_loop (n : nat) (p : cursor) (d : parts) : result fault (option parts) :=
  match rest p, n with
  | [], _ | _, O => mret (Some d)
  | _, S n' =>
      r ← date_step p d;
      match r with
      | Some (p', d') => date_loop n' p' d'
      | None => mret None
      end
  end.

Section Parse.
Variable SIZEOF_TIME_T : Z.

(** After the loop: the result and the value of [output]. *)
Definition finish (d : parts) (output : Z) : bool * Z :=
  let d := if -1 =? secnum d then set_hour 0 (set_min 0 (set_sec 0 d)) else d in
  if (-1 =? mdaynum d) || (-1 =? monnum d) || (-1 =? yearnum d) then (false, output)
  else if (SIZEOF_TIME_T <? 5) && (2037 <? yearnum d) then (false, 0x7fffffff)
  else if yearnum d <? 1970 then (false, 0)
  else
    let t := short_tm_time_t
               (ShortTm (secnum d) (minnum d) (hournum d) (mdaynum d) (monnum d) (yearnum d - 1900)) in
    if negb (-1 =? int32 t) then
      let delta := if negb (tzoff d =? -1) then tzoff d else 0 in
      if (0 <? delta) && (int64 (t + delta) <? t) then (false, output)
      else (true, int64 (t + delta))
    else (true, t).

Definition parse (date : cstring) (output : Z) : result fault (bool * Z) :=
  r ← date_loop 6 (Cursor None (c_str date)) no_parts;
  mret match r with
       | Some d => finish d output
       | None => (false, output)
       end.

(** [parse_http_date] with a [ptime]: the conversion of a [time_t] by [gmtime]
    and [ptime_from_tm] belongs to the C and Boost libraries. *)
Definition parse_http_date {P} (ptime_from_gmtime : Z -> option P) (s : cstring)
  : result fault (option P) :=
  r ← parse s 0;
  mret (let '(ok, st) := r : bool * Z in if ok then ptime_from_gmtime st else None).
End Parse.

(** ** The calendar *)

Definition is_leap (y : Z) : bool := (y mod 4 =? 0) && (negb (y mod 100 =? 0) || (y mod 400 =? 0)).

Definition days_in_year (y : Z) : Z := if is_leap y then 366 else 365.

(** The days of the [n] years from 1970 on. *)
Fixpoint days_to_year (n : nat) : Z :=
  match n with O => 0 | S k => days_to_year k + days_in_year (1970 + Z.of_nat k) end.

Definition month_lengths (y : Z) : list Z :=
  [31; if is_leap y then 29 else 28; 31; 30; 31; 30; 31; 31; 30; 31; 30; 31].

(** The days of the months before month [m] (0 for January) of year [y]. *)
Definition days_to_month (y m : Z) : Z := fold_right Z.add 0 (take (Z.to_nat m) (month_lengths y)).

(** Seconds from 1970-01-01T00:00:00Z to the given instant. *)
Definition utc_seconds (y mon mday hour min sec : Z) : Z :=
  (((days_to_year (Z.to_nat (y - 1970)) + days_to_month y mon + (mday - 1)) * 24 + hour) * 60 + min) * 60 + sec.

(** Leap years up to [y]. *)
Definition leaps (y : Z) : Z := y / 4 - y / 100 + y / 400.

Lemma leaps_step y : leaps y = leaps (y - 1) + (if is_leap y then 1 else 0).
Proof.
  unfold leaps, is_leap.
  destruct (y mod 4 =? 0) eqn:E1, (y mod 100 =? 0) eqn:E2, (y mod 400 =? 0) eqn:E3; cbn [andb orb negb]; zdiv.
Qed.

Lemma days_to_year_leaps n : days_to_year n = Z.of_nat n * 365 + leaps (1969 + Z.of_nat n) - leaps 1969.
Proof.
  induction n as [|n IH]; [reflexivity|]. cbn [days_to_year]. rewrite IH.
  rewrite (leaps_step (1969 + Z.of_nat (S n))).
  replace (1969 + Z.of_nat (S n) - 1) with (1969 + Z.of_nat n) by lia.
  replace (1970 + Z.of_nat n) with (1969 + Z.of_nat (S n)) by lia.
  unfold days_in_year. destruct (is_leap _); lia.
Qed.

Lemma days_to_month_cumulative y m :
  0 <= m < 12 ->
  days_to_month y m =
  default 0 (month_days_cumulative !! Z.to_nat m) + (if (1 <? m) && is_leap y then 1 else 0).
Proof.
  intros Hm. unfold days_to_month, month_lengths.
  small_cases m 12%nat; destruct (is_leap y); reflexivity.
Qed.

(** [short_tm_time_t] for a month of the year, in closed form. *)
Lemma short_tm_leaps tm :
  70 <= tm_year tm -> 0 <= tm_mon tm < 12 ->
  short_tm_time_t tm =
  utc_seconds (tm_year tm + 1900) (tm_mon tm) (tm_mday tm) (tm_hour tm) (tm_min tm) (tm_sec tm).
Proof.
  intros Hy Hm. unfold short_tm_time_t, utc_seconds.
  replace (tm_year tm <? 70) with false by lia. replace (tm_mon tm <? 0) with false by lia.
  replace (12 <=? tm_mon tm) with false by lia.
  rewrite !(Z.quot_div_nonneg (_ - _)) by (destruct (tm_mon tm <=? 1); lia).
  rewrite days_to_month_cumulative, days_to_year_leaps, Z2Nat.id by lia.
  replace (1969 + (tm_year tm + 1900 - 1970)) with (tm_year tm + 1900 - 1) by lia.
  pose proof (leaps_step (tm_year tm + 1900)) as L. unfold leaps in *.
  change (Z.quot 1969 4) with (1969 / 4). change (Z.quot 1969 100) with (1969 / 100).
  change (Z.quot 1969 400) with (1969 / 400).
  replace (tm_mon tm <=? 1) with (negb (1 <? tm_mon tm)) by lia.
  destruct (1 <? tm_mon tm); cbn [negb andb]; rewrite ?Z.sub_0_r; [|lia].
  destruct (is_leap (tm_year tm + 1900)); lia.
Qed.

(** [short_tm_time_t] is the number of seconds since 1970 of the given
    calendar date, counting the days of every year and month in turn. *)
Theorem short_tm_time_t_correct tm :
  70 <= tm_year tm -> 0 <= tm_mon tm < 12 ->
  short_tm_time_t tm =
  utc_seconds (tm_year tm + 1900) (tm_mon tm) (tm_mday tm) (tm_hour tm) (tm_min tm) (tm_sec tm).
Proof. apply short_tm_leaps. Qed.

Lemma short_tm_time_t_correct_witness : short_tm_time_t (ShortTm 37 49 8 6 10 94) = 784111777.
Proof. rewrite short_tm_time_t_correct; [reflexivity|cbn; lia|cbn; lia]. Defined.

(** ** Reading an RFC 1123 date *)

(** A number below 100 and below 10000 with leading zeros. *)
Definition two (n : Z) : cstring := [chr (48 + n / 10); chr (48 + n mod 10)].
Definition four (n : Z) : cstring := two (n / 100) ++ two (n mod 100).

(** [Sun, 06 Nov 1994 08:49:37 GMT]. *)
Definition rfc1123 (w mday mon y h m s : Z) : cstring :=
  default [] (wkday !! Z.to_nat w) ++ $", " ++ two mday ++ $" " ++ default [] (month !! Z.to_nat mon)
  ++ $" " ++ four y ++ $" " ++ two h ++ $":" ++ two m ++ $":" ++ two s ++ $" GMT".

Lemma two_digits n : 0 <= n < 100 -> Forall (fun c => isdigit c = true) (two n).
Proof.
  intros Hn. repeat apply List.Forall_cons; try apply List.Forall_nil; apply isdigit_chr; zdiv.
Qed.

Lemma two_value n : 0 <= n < 100 -> dec_value (two n) = n.
Proof.
  intros Hn. unfold dec_value, two, dec_step. cbn [fold_left]. rewrite !uchar_chr, !Z.mod_small by zdiv. zdiv.
Qed.

Lemma four_value n : 0 <= n < 10000 -> dec_value (four n) = n.
Proof.
  intros Hn. unfold four, dec_value. rewrite fold_left_app. fold (dec_value (two (n / 100))).
  rewrite two_value by zdiv. unfold two, dec_step. cbn [fold_left].
  rewrite !uchar_chr, !Z.mod_small by zdiv. zdiv.
Qed.

Lemma scan_int2_two n t : 0 <= n < 100 -> scan_int2 (two n ++ t) = Some (n, t).
Proof.
  intros Hn. pose proof (two_digits n Hn) as D. pose proof (two_value n Hn) as V.
  unfold two in *. inversion D as [|? ? D1 D']; subst. inversion D' as [|? ? D2 _]; subst.
  unfold scan_int2. cbn [app drop_while]. rewrite (isdigit_not_space _ D1).
  destruct (isdigit_not_sign _ D1) as [-> ->]. cbn [orb]. now rewrite D1, D2, V.
Qed.

Lemma skip_digits c d t : isdigit c = true -> skip (Cursor d (c :: t)) = Cursor d (c :: t).
Proof. intros D. unfold skip, isalnum. cbn [rest before skip_from]. unfold isalnum. now rewrite D, orb_true_r. Qed.

Lemma digit_not_alpha c : isdigit c = true -> isalpha c = false.
Proof. unfold isdigit, isalpha, isupper, islower. intros H. lia. Qed.

(** A step at a digit. *)
Lemma date_step_digit b c t d :
  isdigit c = true -> date_step (Cursor b (" "%char :: c :: t)) d = digit_part (Cursor (Some " "%char) (c :: t)) d.
Proof.
  intros D. unfold date_step.
  change (skip (Cursor b (" "%char :: c :: t))) with (skip (Cursor (Some " "%char) (c :: t))).
  rewrite skip_digits by exact D. cbn [rest]. now rewrite (digit_not_alpha _ D), D.
Qed.

(** Digits that no colon follows are not a time. *)
Lemma scan_times_number k n c t :
  0 <= n < 100 -> (c =c ":") = false -> scan_times (S k) (two n ++ c :: t) = [n].
Proof. intros Hn Hc. cbn [scan_times]. rewrite scan_int2_two by exact Hn. now destruct k; rewrite ?Hc. Qed.

Lemma sltosi_id n : 0 <= n < 2 ^ 31 -> sltosi n = n.
Proof.
  intros Hn. unfold sltosi. change 0x7FFFFFFF with (Z.ones 31). rewrite Z.land_ones, Z.mod_small by lia.
  apply int32_id. lia.
Qed.

(** [strtol] on digits before a space. *)
Lemma plain_number_digits b ds t d :
  ds <> [] -> Forall (fun c => isdigit c = true) ds -> 0 <= dec_value ds < 2 ^ 31 ->
  plain_number (Cursor b (ds ++ " "%char :: t)) d =
  match number_part (Cursor b (ds ++ " "%char :: t)) (dec_value ds) (length ds) d with
  | Some d' => Ok (Some (Cursor (last ds) (" "%char :: t), d'))
  | None => Ok None
  end.
Proof.
  intros Hne D V. unfold plain_number. cbn [rest]. rewrite strtoll_digits by (auto; reflexivity).
  unfold clamp, INT64_MIN, INT64_MAX. rewrite Z.max_r, Z.min_r by lia. rewrite sltosi_id by exact V.
  replace (length (ds ++ " "%char :: t) - length (" "%char :: t))%nat with (length ds)
    by (rewrite length_app; lia).
  destruct (number_part _ _ _ d); [|reflexivity]. unfold advance. cbn [rest before].
  replace (length ds <=? length (ds ++ " "%char :: t))%nat with true
    by (symmetry; apply Nat.leb_le; rewrite length_app; lia).
  rewrite drop_app_length. cbn. do 4 f_equal.
  destruct ds as [|x ds]; [congruence|]. cbn [length]. rewrite last_lookup. cbn [length Nat.pred].
  now rewrite lookup_app_l by (cbn; lia).
Qed.

(** The six parts of an RFC 1123 date, one step each. *)
Section Rfc1123Steps.
Variables (w mday mon y h m s : Z) (t : cstring).
Hypothesis Hw : 0 <= w < 7.
Hypothesis Hmday : 1 <= mday <= 31.
Hypothesis Hmon : 0 <= mon < 12.
Hypothesis Hy : 1900 <= y <= 9999.
Hypothesis Hh : 0 <= h < 100.
Hypothesis Hm : 0 <= m < 100.
Hypothesis Hs : 0 <= s < 100.

Lemma step_weekday :
  exists b, date_step (Cursor None (default [] (wkday !! Z.to_nat w) ++ ","%char :: " "%char :: t)) no_parts =
  Ok (Some (Cursor b (","%char :: " "%char :: t), Parts w (-1) (-1) (-1) (-1) (-1) (-1) (-1) DATE_MDAY)).
Proof using Hw. clear - Hw. small_cases w 7%nat; eexists; reflexivity. Qed.

Lemma step_mday b :
  exists b', date_step (Cursor b (","%char :: " "%char :: two mday ++ " "%char :: t))
               (Parts w (-1) (-1) (-1) (-1) (-1) (-1) (-1) DATE_MDAY) =
  Ok (Some (Cursor b' (" "%char :: t), Parts w (-1) mday mday (-1) (-1) (-1) (-1) DATE_YEAR)).
Proof using Hmday.
  clear - Hmday. exists (last (two mday)).
  change (date_step (Cursor b (","%char :: ?s)) ?d) with (date_step (Cursor (Some ","%char) s) d).
  pose proof (two_digits mday ltac:(lia)) as D. pose proof (Forall_inv D) as D1.
  change (two mday ++ " "%char :: t) with
    (chr (48 + mday / 10) :: chr (48 + mday mod 10) :: " "%char :: t).
  rewrite date_step_digit by exact D1.
  change (chr (48 + mday / 10) :: chr (48 + mday mod 10) :: " "%char :: t) with (two mday ++ " "%char :: t).
  unfold digit_part. cbn [secnum rest]. rewrite !scan_times_number by (auto; lia).
  cbn -[plain_number two]. rewrite plain_number_digits; [|discriminate|exact D|rewrite two_value; lia].
  rewrite two_value by lia. unfold number_part. cbn -[Z.ltb two].
  replace ((0 <? mday) && (mday <? 32)) with true by lia. reflexivity.
Qed.

Lemma step_month b :
  exists b', date_step (Cursor b (" "%char :: default [] (month !! Z.to_nat mon) ++ " "%char :: t))
               (Parts w (-1) mday mday (-1) (-1) (-1) (-1) DATE_YEAR) =
  Ok (Some (Cursor b' (" "%char :: t), Parts w mon mday mday (-1) (-1) (-1) (-1) DATE_YEAR)).
Proof using Hw Hmon.
  clear - Hw Hmon. small_cases w 7%nat; small_cases mon 12%nat; eexists; reflexivity.
Qed.

Lemma step_year b :
  exists b', date_step (Cursor b (" "%char :: four y ++ " "%char :: t))
               (Parts w mon mday mday (-1) (-1) (-1) (-1) DATE_YEAR) =
  Ok (Some (Cursor b' (" "%char :: t), Parts w mon mday (y / 100) (-1) (-1) y (-1) DATE_YEAR)).
Proof using Hmday Hmon Hy.
  clear - Hmday Hmon Hy. exists (last (four y)).
  pose proof (two_digits (y / 100) ltac:(zdiv)) as D1. pose proof (two_digits (y mod 100) ltac:(zdiv)) as D2.
  change (four y ++ " "%char :: t) with (chr (48 + y / 100 / 10) ::
    chr (48 + y / 100 mod 10) :: two (y mod 100) ++ " "%char :: t).
  rewrite date_step_digit by apply (Forall_inv D1).
  change (chr (48 + y / 100 / 10) :: chr (48 + y / 100 mod 10) :: two (y mod 100) ++ " "%char :: t)
    with (two (y / 100) ++ chr (48 + y mod 100 / 10) :: chr (48 + y mod 100 mod 10) :: " "%char :: t).
  assert ((chr (48 + y mod 100 / 10) =c ":") = false) as Hc.
  { apply Ascii.eqb_neq. intros E. pose proof (Forall_inv D2) as F. rewrite E in F. discriminate. }
  unfold digit_part. cbn [secnum rest]. rewrite !scan_times_number by (auto; zdiv).
  change (two (y / 100) ++ chr (48 + y mod 100 / 10) :: chr (48 + y mod 100 mod 10) :: " "%char :: t)
    with (four y ++ " "%char :: t).
  cbn -[plain_number four Z.div]. rewrite plain_number_digits;
    [|discriminate|now apply Forall_app|rewrite four_value; lia].
  rewrite four_value by lia. unfold number_part. change (length (four y)) with 4%nat.
  replace (y <=? 1400) with false by lia. replace (y <? 1900) with false by lia. rewrite andb_false_r.
  cbn -[Z.eqb four Z.div]. change (-1 =? -1) with true. cbn -[Z.eqb four Z.div].
  replace (mday =? -1) with false by lia. reflexivity.
Qed.

Lemma step_time b d :
  secnum d = -1 ->
  exists b', date_step (Cursor b (" "%char :: two h ++ ":"%char :: two m ++ ":"%char :: two s ++ t)) d =
  Ok (Some (Cursor b' t, set_sec s (set_min m (set_hour h d)))).
Proof using Hh Hm Hs.
  clear - Hh Hm Hs. intros Es. eexists.
  change (two h ++ ":"%char :: two m ++ ":"%char :: two s ++ t) with
    (chr (48 + h / 10) :: chr (48 + h mod 10) :: ":"%char :: two m ++ ":"%char :: two s ++ t).
  rewrite date_step_digit by (apply (Forall_inv (two_digits h Hh))).
  change (chr (48 + h / 10) :: chr (48 + h mod 10) :: ":"%char :: two m ++ ":"%char :: two s ++ t) with
    (two h ++ ":"%char :: two m ++ ":"%char :: two s ++ t).
  unfold digit_part. rewrite Es. cbn [rest Z.eqb]. cbn [scan_times].
  rewrite !scan_int2_two by assumption. reflexivity.
Qed.

Lemma step_zone b d :
  wdaynum d <> -1 -> monnum d <> -1 -> tzoff d = -1 ->
  exists b', date_step (Cursor b ($" GMT")) d = Ok (Some (Cursor b' [], set_tz 0 d)).
Proof.
  intros H1 H2 H3. eexists. unfold date_step.
  change (skip (Cursor b ($" GMT"))) with (Cursor (Some " "%char) ($"GMT")). cbn [rest].
  change (isalpha "G"%char) with true. cbv iota.
  change (scan_name ($"GMT")) with ($"GMT"). unfold name_part.
  destruct d as [w0 m0 d0 h0 n0 s0 y0 z0 x0]. cbn [wdaynum monnum tzoff] in *. subst z0.
  replace (w0 =? -1) with false by lia. cbn -[Z.eqb checktz].
  replace (m0 =? -1) with false by lia. reflexivity.
Qed.
End Rfc1123Steps.

Lemma date_loop_step n p d p' d' :
  rest p <> [] -> date_step p d = Ok (Some (p', d')) -> date_loop (S n) p d = date_loop n p' d'.
Proof. intros Hr E. cbn [date_loop]. destruct (rest p); [congruence|]. now rewrite E. Qed.

(** The whole loop on an RFC 1123 date. *)
Lemma date_loop_rfc1123 w mday mon y h m s :
  0 <= w < 7 -> 1 <= mday <= 31 -> 0 <= mon < 12 -> 1900 <= y <= 9999 ->
  0 <= h < 100 -> 0 <= m < 100 -> 0 <= s < 100 ->
  date_loop 6 (Cursor None (rfc1123 w mday mon y h m s)) no_parts =
  Ok (Some (Parts w mon mday h m s y 0 DATE_YEAR)).
Proof.
  intros Hw Hd Hmon Hy Hh Hm Hs. unfold rfc1123.
  change ($", " ++ ?x) with (","%char :: " "%char :: x). change ($" " ++ ?x) with (" "%char :: x).
  change ($":" ++ ?x) with (":"%char :: x).
  set (t5 := two s ++ $" GMT"). set (t4 := two h ++ ":"%char :: two m ++ ":"%char :: t5).
  set (t3 := four y ++ " "%char :: t4).
  set (t2 := default [] (month !! Z.to_nat mon) ++ " "%char :: t3).
  destruct (step_weekday w (two mday ++ " "%char :: t2) Hw) as [b1 E1].
  destruct (step_mday w mday t2 Hd b1) as [b2 E2].
  destruct (step_month w mday mon t3 Hw Hmon b2) as [b3 E3].
  destruct (step_year w mday mon y t4 Hd Hmon Hy b3) as [b4 E4].
  destruct (step_time h m s ($" GMT") Hh Hm Hs b4 (Parts w mon mday (y / 100) (-1) (-1) y (-1) DATE_YEAR) eq_refl)
    as [b5 E5].
  destruct (step_zone b5 (Parts w mon mday h m s y (-1) DATE_YEAR)) as [b6 E6]; [cbn; lia|cbn; lia|reflexivity|].
  erewrite date_loop_step; [|intros E; now apply app_eq_nil in E as [_ E]|exact E1].
  erewrite date_loop_step; [|discriminate|exact E2].
  erewrite date_loop_step; [|discriminate|exact E3].
  erewrite date_loop_step; [|discriminate|exact E4].
  erewrite date_loop_step; [|discriminate|exact E5].
  erewrite date_loop_step; [|discriminate|exact E6]. reflexivity.
Qed.

Lemma nul_free_rfc1123 w mday mon y h m s :
  0 <= w < 7 -> 1 <= mday <= 31 -> 0 <= mon < 12 -> 1900 <= y <= 9999 ->
  0 <= h < 100 -> 0 <= m < 100 -> 0 <= s < 100 ->
  c_str (rfc1123 w mday mon y h m s) = rfc1123 w mday mon y h m s.
Proof.
  intros Hw Hd Hmon Hy Hh Hm Hs. apply c_str_id. unfold rfc1123, four.
  assert (forall n, 0 <= n < 100 -> free_of [NUL] (two n)) as F.
  { intros n Hn. apply digits_free_of; [reflexivity|]. apply forallb_forall. intros c Hc.
    apply (proj1 (List.Forall_forall _ _) (two_digits n Hn) c Hc). }
  assert (forall l, forallb (fun n => negb (mem_char NUL n)) l = true -> forall i, free_of [NUL] (default [] (l !! i))) as G.
  { intros l Hl i. destruct (l !! i) as [n|] eqn:E; cbn; [|constructor].
    apply list_elem_of_lookup_2, list_elem_of_In in E. rewrite forallb_forall in Hl. specialize (Hl _ E).
    apply Forall_forall. intros c Hc. apply mem_char_false. intros [->|K%not_elem_of_nil]%elem_of_cons; [|exact K].
    apply negb_true_iff, mem_char_false in Hl. now apply Hl. }
  repeat (apply free_of_app; split); try (apply F; zdiv); try (apply G; reflexivity); try (repeat constructor).
Qed.

(** The time of a date of a four-digit year fits a 64-bit [time_t]. *)
Lemma utc_seconds_range y mon mday h m s :
  1970 <= y <= 9999 -> 0 <= mon < 12 -> 1 <= mday <= 31 -> 0 <= h < 100 -> 0 <= m < 100 -> 0 <= s < 100 ->
  0 <= utc_seconds y mon mday h m s < 2 ^ 62.
Proof.
  intros Hy Hmon Hd Hh Hm Hs. unfold utc_seconds. rewrite days_to_year_leaps, Z2Nat.id by lia.
  replace (1969 + (y - 1970)) with (y - 1) by lia.
  rewrite days_to_month_cumulative by exact Hmon.
  assert (0 <= default 0 (month_days_cumulative !! Z.to_nat mon) <= 334) as B
    by (small_cases mon 12%nat; cbv; split; congruence).
  assert (leaps 1969 <= leaps (y - 1) <= y) as L by (unfold leaps; zdiv).
  change (leaps 1969) with 477 in *. destruct (_ && _); lia.
Qed.

(** [parse] on an RFC 1123 date. *)
Lemma parse_rfc1123_value SIZEOF_TIME_T w mday mon y h m s output :
  0 <= w < 7 -> 1 <= mday <= 31 -> 0 <= mon < 12 -> 1900 <= y <= 9999 ->
  0 <= h < 100 -> 0 <= m < 100 -> 0 <= s < 100 ->
  parse SIZEOF_TIME_T (rfc1123 w mday mon y h m s) output =
  Ok (if (SIZEOF_TIME_T <? 5) && (2037 <? y) then (false, 0x7fffffff)
      else if y <? 1970 then (false, 0)
      else (true, utc_seconds y mon mday h m s)).
Proof.
  intros Hw Hd Hmon Hy Hh Hm Hs. unfold parse.
  rewrite nul_free_rfc1123, date_loop_rfc1123 by assumption. cbn [mbind result_bind mret result_ret].
  f_equal. unfold finish. cbn [secnum].
  replace (-1 =? s) with false by lia. cbn [mdaynum monnum yearnum tzoff secnum minnum hournum].
  replace (-1 =? mday) with false by lia. replace (-1 =? mon) with false by lia.
  replace (-1 =? y) with false by lia. cbn [orb].
  destruct ((SIZEOF_TIME_T <? 5) && (2037 <? y)); [reflexivity|].
  destruct (y <? 1970) eqn:E; [reflexivity|]. rewrite short_tm_leaps by (cbn; lia). cbn [tm_year tm_mon tm_mday tm_hour tm_min tm_sec].
  replace (y - 1900 + 1900) with y by lia.
  pose proof (utc_seconds_range y mon mday h m s ltac:(lia) Hmon Hd Hh Hm Hs) as R.
  destruct (negb _); [|reflexivity]. change (negb (0 =? -1)) with true. cbv iota. change (0 <? 0) with false.
  cbn [andb]. rewrite Z.add_0_r. rewrite int64_id by (unfold INT64_MIN, INT64_MAX; lia). reflexivity.
Qed.

(** [parse] reads every RFC 1123 date: it returns the UTC time of the
    date, but fails with 0 before 1970, and with 0x7fffffff after 2037 where
    [SIZEOF_TIME_T] is below 5 or undefined. *)
Theorem parse_rfc1123 SIZEOF_TIME_T w mday mon y h m s output :
  0 <= w < 7 -> 1 <= mday <= 31 -> 0 <= mon < 12 -> 1900 <= y <= 9999 ->
  0 <= h < 100 -> 0 <= m < 100 -> 0 <= s < 100 ->
  parse SIZEOF_TIME_T (rfc1123 w mday mon y h m s) output =
  Ok (if (SIZEOF_TIME_T <? 5) && (2037 <? y) then (false, 0x7fffffff)
      else if y <? 1970 then (false, 0)
      else (true, utc_seconds y mon mday h m s)).
Proof. apply parse_rfc1123_value. Qed.

Lemma parse_rfc1123_witness :
  rfc1123 6 6 10 1994 8 49 37 = $"Sun, 06 Nov 1994 08:49:37 GMT"
  /\ parse 0 (rfc1123 6 6 10 1994 8 49 37) 0 = Ok (true, 784111777).
Proof. split; [reflexivity|]. rewrite parse_rfc1123 by lia. reflexivity. Defined.

(** A time of day written with single digits makes [parse] read past the
    end of the text: the cursor is moved by eight characters whatever
    [sscanf] consumed. *)
Theorem parse_reads_past_end SIZEOF_TIME_T h m s output :
  isdigit h = true -> isdigit m = true -> isdigit s = true ->
  parse SIZEOF_TIME_T [h; ":"%char; m; ":"%char; s] output = Err OutOfBounds.
Proof.
  intros Dh Dm Ds.
  assert (forall c, isdigit c = true -> mem_char c [NUL] = false) as N.
  { intros c Dc. apply mem_char_false. intros [->|K%not_elem_of_nil]%elem_of_cons; [discriminate|exact K]. }
  assert (forall c t, isdigit c = true -> isdigit (hd NUL t) = false -> scan_int2 (c :: t) = Some (dec_value [c], t)) as S.
  { intros c t Dc Dt. unfold scan_int2. cbn [drop_while]. rewrite (isdigit_not_space _ Dc).
    destruct (isdigit_not_sign _ Dc) as [-> ->]. cbn [orb]. rewrite Dc. destruct t as [|d t]; [reflexivity|].
    cbn in Dt. now rewrite Dt. }
  unfold parse. rewrite c_str_id; [|repeat (apply List.Forall_cons; [auto|]); apply List.Forall_nil].
  cbn [date_loop rest]. unfold date_step. rewrite skip_digits by exact Dh. cbn [rest].
  rewrite (digit_not_alpha _ Dh), Dh. unfold digit_part. cbn [secnum no_parts rest]. cbn [scan_times].
  rewrite S by (auto; reflexivity). cbn [scan_times Ascii.eqb Bool.eqb]. rewrite !S by (auto; reflexivity).
  reflexivity.
Qed.

Lemma parse_reads_past_end_witness : parse 0 ($"1:2:3") 0 = Err OutOfBounds.
Proof. apply (parse_reads_past_end 0 "1" "2" "3"); reflexivity. Defined.
