(* ===== verification/Bitfield.v ===== *)
(** The bitmap class: avhttp/bitfield.hpp.

    The buffer behind [m_bytes] is a list of bytes ([None] for a null pointer).
    Memory that [malloc] or [realloc] returns without initialising it is the
    parameter [junk], about which nothing is assumed but that its cells are
    bytes.  [m_size] is a 31-bit signed bit-field of the structure.  An index outside [0, m_size) fails the code's [BOOST_ASSERT]s and is
    [None] here. *)

From S2P Require Import Prelude.

Record bitfield : Type := Bitfield {
  m_bytes : option (list Z);
  m_size : Z;
  m_own : bool
}.

(** [bitfield()]. *)
Definition bitfield_new : bitfield := Bitfield None 0 false.

(** The buffer, empty for a null pointer. *)
Definition buf (b : bitfield) : list Z := default [] (m_bytes b).

(** [m_bytes[i]] for an index inside the buffer. *)
Definition byte_at (l : list Z) (i : Z) : Z := default 0 (l !! Z.to_nat i).

Definition set_buf (l : list Z) (b : bitfield) : bitfield :=
  Bitfield (Some l) (m_size b) (m_own b).

Definition update_byte (i : Z) (f : Z -> Z) (b : bitfield) : bitfield :=
  set_buf (alter f (Z.to_nat i) (buf b)) b.

(** [0x80 >> (index & 7)]. *)
Definition bit_mask (index : Z) : Z := Z.shiftr 128 (Z.land index 7).

(** The two assertions. *)
Definition in_range (b : bitfield) (index : Z) : bool := (0 <=? index) && (index <? m_size b).

(** ** Bits *)

Definition get_bit (b : bitfield) (index : Z) : option bool :=
  if in_range b index
  then Some (negb (Z.land (byte_at (buf b) (index / 8)) (bit_mask index) =? 0))
  else None.

Definition clear_bit (index : Z) (b : bitfield) : option bitfield :=
  if in_range b index
  then Some (update_byte (index / 8)
               (fun x => wrapu 8 (Z.land x (Z.lnot (bit_mask index)))) b)
  else None.

Definition set_bit (index : Z) (b : bitfield) : option bitfield :=
  if in_range b index
  then Some (update_byte (index / 8) (fun x => Z.lor x (bit_mask index)) b)
  else None.

Definition bytes_size (b : bitfield) : Z :=
  m_size b / 8 + (if m_size b mod 8 =? 0 then 0 else 1).
Definition size (b : bitfield) : Z := m_size b.
Definition empty (b : bitfield) : bool := m_size b =? 0.

(** ** Counting *)

Definition num_bits : list Z := [0; 1; 1; 2; 1; 2; 2; 3; 1; 2; 2; 3; 2; 3; 3; 4].

Definition count_byte (x : Z) : Z :=
  byte_at num_bits (Z.land x 15) + byte_at num_bits (Z.shiftr x 4).

Definition count (b : bitfield) : Z :=
  let num_bytes := m_size b / 8 in
  let full := fold_left (fun ret x => ret + count_byte x) (take (Z.to_nat num_bytes) (buf b)) 0 in
  let rest := m_size b - num_bytes * 8 in
  fold_left (fun ret i => ret + Z.land (Z.shiftr (byte_at (buf b) num_bytes) (7 - i)) 1)
    (map Z.of_nat (seq 0 (Z.to_nat rest))) full.

(** ** Iterators: a byte position and a one-bit mask *)

Record const_iterator : Type := Iter { it_byte : Z; it_bit : Z }.

Definition iter_begin (b : bitfield) : const_iterator := Iter 0 128.
Definition iter_end (b : bitfield) : const_iterator :=
  Iter (m_size b / 8) (Z.shiftr 128 (Z.land (m_size b) 7)).
Definition iter_deref (b : bitfield) (i : const_iterator) : bool :=
  negb (Z.land (byte_at (buf b) (it_byte i)) (it_bit i) =? 0).
Definition inc (i : const_iterator) : const_iterator :=
  if it_bit i =? 1 then Iter (it_byte i + 1) 128 else Iter (it_byte i) (Z.shiftr (it_bit i) 1).
Definition dec (i : const_iterator) : const_iterator :=
  if it_bit i =? 128 then Iter (it_byte i - 1) 1 else Iter (it_byte i) (Z.shiftl (it_bit i) 1).
Definition iter_eqb (a b : const_iterator) : bool :=
  (it_byte a =? it_byte b) && (it_bit a =? it_bit b).

(** [for (i = begin(); i != end(); i++) ... *i ...]: the bits visited. *)
Fixpoint iterate (fuel : nat) (b : bitfield) (i : const_iterator) : list bool :=
  match fuel with
  | O => []
  | S f => if iter_eqb i (iter_end b) then [] else iter_deref b i :: iterate f b (inc i)
  end.

(** ** Resizing *)

(** [if (m_size & 7) m_bytes[(m_size + 7) / 8 - 1] &= 0xff << (8 - (m_size & 7))]. *)
Definition clear_trailing_bits (b : bitfield) : bitfield :=
  if Z.land (m_size b) 7 =? 0 then b
  else update_byte ((m_size b + 7) / 8 - 1)
         (fun x => wrapu 8 (Z.land x (Z.shiftl 255 (8 - Z.land (m_size b) 7)))) b.

(** [memset(m_bytes + from, v, n)]. *)
Definition memset (from n : nat) (v : Z) (l : list Z) : list Z :=
  take from l ++ replicate n v ++ drop (from + n) l.

(** [if (old < new) memset(m_bytes + old, v, new - old)]. *)
Definition fill_bytes (old new v : Z) (b : bitfield) : bitfield :=
  if old <? new
  then set_buf (memset (Z.to_nat old) (Z.to_nat (new - old)) v (buf b)) b
  else b.

Section Allocation.
Variable junk : nat -> Z.

(** [n] fresh bytes, and [realloc]: the first bytes are kept. *)
Definition malloc (n : nat) : list Z := map junk (seq 0 n).
Definition realloc (l : list Z) (n : nat) : list Z := take n l ++ drop (length l) (malloc n).

Definition resize (bits : Z) (b : bitfield) : bitfield :=
  let n := Z.to_nat ((bits + 7) / 8) in
  let '(bytes, own) :=
    match m_bytes b with
    | Some l =>
        if m_own b then (realloc l n, true)
        else if m_size b <? bits then
          (* memcpy of min((m_size + 7) / 8, b) bytes into the new block *)
          let k := Nat.min (Z.to_nat ((m_size b + 7) / 8)) n in
          (take k l ++ drop k (malloc n), true)
        else (l, false)
    | None => (malloc n, true)
    end in
  clear_trailing_bits (Bitfield (Some bytes) (wraps 31 bits) own).

Definition resize_val (bits : Z) (val : bool) (b : bitfield) : bitfield :=
  let s := m_size b in
  let r := Z.land (m_size b) 7 in
  let b' := resize bits b in
  if m_size b' <=? s then b'
  else
    let old_size_bytes := (s + 7) / 8 in
    let new_size_bytes := (m_size b' + 7) / 8 in
    if val then
      let b1 :=
        if negb (old_size_bytes =? 0) && negb (r =? 0)
        then update_byte (old_size_bytes - 1) (fun x => Z.lor x (Z.shiftr 255 r)) b'
        else b' in
      clear_trailing_bits (fill_bytes old_size_bytes new_size_bytes 255 b1)
    else fill_bytes old_size_bytes new_size_bytes 0 b'.

(** [assign(b, bits)]: the caller's buffer has at least [(bits + 7) / 8] bytes. *)
Definition assign (src : list Z) (bits : Z) (b : bitfield) : bitfield :=
  let b' := resize bits b in
  let n := Z.to_nat ((bits + 7) / 8) in
  clear_trailing_bits (set_buf (take n src ++ drop n (buf b')) b').
End Allocation.

Definition set_all (b : bitfield) : bitfield :=
  clear_trailing_bits (set_buf (memset 0 (Z.to_nat ((m_size b + 7) / 8)) 255 (buf b)) b).

Definition clear_all (b : bitfield) : bitfield :=
  set_buf (memset 0 (Z.to_nat ((m_size b + 7) / 8)) 0 (buf b)) b.

(** [dealloc] and [free]. *)
Definition dealloc (b : bitfield) : bitfield := Bitfield None (m_size b) (m_own b).
Definition free (b : bitfield) : bitfield := Bitfield None 0 (m_own b).

(** [borrow_bytes(b, bits)]. *)
Definition borrow_bytes (src : list Z) (bits : Z) (b : bitfield) : bitfield :=
  Bitfield (Some src) (wraps 31 bits) false.

(** ** Invariant and abstraction *)

(** Bit [k] of a byte, the most significant first. *)
Definition bit_of (x k : Z) : bool := Z.testbit x (7 - k).

(** Bit [i] of the buffer. *)
Definition bit_at (l : list Z) (i : Z) : bool := bit_of (byte_at l (i / 8)) (i mod 8).

(** The buffer holds the bits of the map, as bytes. *)
Record wf_bitfield (b : bitfield) : Prop := {
  wf_size : 0 <= m_size b;
  wf_length : (m_size b + 7) / 8 <= Z.of_nat (length (buf b));
  wf_bytes : Forall (fun x => 0 <= x < 256) (buf b);
  (** the bits past the end in the last byte are zero *)
  wf_trailing : forall i, m_size b <= i < (m_size b + 7) / 8 * 8 -> bit_at (buf b) i = false
}.

(** What the bitmap means: its bits in order. *)
Definition bits (b : bitfield) : list bool :=
  map (fun i => bit_at (buf b) (Z.of_nat i)) (seq 0 (Z.to_nat (m_size b))).

(** ** Lemmas on bytes *)

Lemma land7 i : Z.land i 7 = i mod 8.
Proof. change 7 with (Z.ones 3). now rewrite Z.land_ones by lia. Qed.

Lemma bit_mask_pow i : bit_mask i = 2 ^ (7 - i mod 8).
Proof.
  unfold bit_mask. rewrite land7. pose proof (Z.mod_pos_bound i 8 ltac:(lia)) as H.
  generalize dependent (i mod 8). intros k H. small_cases k 8%nat; reflexivity.
Qed.

Lemma land_pow2 x n : 0 <= n -> negb (Z.land x (2 ^ n) =? 0) = Z.testbit x n.
Proof.
  intros Hn. destruct (Z.testbit x n) eqn:E.
  - apply negb_true_iff, Z.eqb_neq. intros H. apply (f_equal (fun z => Z.testbit z n)) in H.
    rewrite Z.land_spec, E, Z.pow2_bits_true, Z.bits_0 in H by lia. discriminate.
  - apply negb_false_iff, Z.eqb_eq, Z.bits_inj'. intros m Hm.
    rewrite Z.land_spec, Z.pow2_bits_eqb, Z.bits_0 by lia.
    destruct (n =? m) eqn:F; [|apply andb_false_r]. apply Z.eqb_eq in F as <-. now rewrite E.
Qed.

Lemma byte_bits_high x n : 0 <= x < 256 -> 8 <= n -> Z.testbit x n = false.
Proof.
  intros Hx Hn. rewrite <- (Z.mod_small x (2 ^ 8)) by lia. apply Z.mod_pow2_bits_high. lia.
Qed.

Lemma byte_lor x y : 0 <= x < 256 -> 0 <= y < 256 -> 0 <= Z.lor x y < 256.
Proof.
  intros Hx Hy. split; [apply Z.lor_nonneg; lia|].
  enough (Z.lor x y = Z.lor x y mod 2 ^ 8) as -> by (apply Z.mod_pos_bound; lia).
  apply Z.bits_inj'. intros n Hn. destruct (Z.lt_ge_cases n 8).
  - now rewrite Z.mod_pow2_bits_low by lia.
  - rewrite Z.mod_pow2_bits_high by lia. now rewrite Z.lor_spec, !byte_bits_high by lia.
Qed.

Lemma byte_wrap x : 0 <= wrapu 8 x < 256.
Proof. unfold wrapu. apply Z.mod_pos_bound. lia. Qed.

Lemma bit_mask_byte i : 0 <= bit_mask i < 256.
Proof.
  rewrite bit_mask_pow. pose proof (Z.mod_pos_bound i 8 ltac:(lia)).
  split; [apply Z.pow_nonneg; lia|]. apply (Z.pow_lt_mono_r 2 _ 8); lia.
Qed.

(** ** Lemmas on buffers *)

Lemma byte_at_byte l i : Forall (fun x => 0 <= x < 256) l -> 0 <= byte_at l i < 256.
Proof.
  intros H. unfold byte_at. destruct (l !! Z.to_nat i) eqn:E; simpl; [|lia].
  eapply Forall_lookup in H; eauto.
Qed.

Lemma byte_at_alter f l i j :
  0 <= i < Z.of_nat (length l) -> 0 <= j ->
  byte_at (alter f (Z.to_nat i) l) j = if j =? i then f (byte_at l i) else byte_at l j.
Proof.
  intros Hi Hj. unfold byte_at. destruct (j =? i) eqn:E; zbool.
  - subst. rewrite list_lookup_alter_eq.
    destruct (lookup_lt_is_Some_2 l (Z.to_nat i)) as [x ->]; [lia|]. reflexivity.
  - rewrite list_lookup_alter_ne by lia. reflexivity.
Qed.

Lemma bit_at_alter f l i j :
  0 <= i < Z.of_nat (length l) -> 0 <= j ->
  bit_at (alter f (Z.to_nat i) l) j =
  if j / 8 =? i then bit_of (f (byte_at l i)) (j mod 8) else bit_at l j.
Proof.
  intros Hi Hj. unfold bit_at. rewrite byte_at_alter by zdiv. now destruct (j / 8 =? i).
Qed.

Lemma Forall_alter_byte f i l :
  (forall x, 0 <= x < 256 -> 0 <= f x < 256) -> Forall (fun x => 0 <= x < 256) l ->
  Forall (fun x => 0 <= x < 256) (alter f i l).
Proof. intros Hf H. apply Forall_alter; auto. Qed.

Lemma byte_at_take l n i : 0 <= i < Z.of_nat n -> byte_at (take n l) i = byte_at l i.
Proof. intros H. unfold byte_at. now rewrite lookup_take_lt by lia. Qed.

Lemma byte_at_app_l a b i : 0 <= i < Z.of_nat (length a) -> byte_at (a ++ b) i = byte_at a i.
Proof. intros H. unfold byte_at. now rewrite lookup_app_l by lia. Qed.

Lemma bit_at_memset from n v l i :
  (from + n <= length l)%nat -> 0 <= i ->
  bit_at (memset from n v l) i =
  if (Z.of_nat from <=? i / 8) && (i / 8 <? Z.of_nat (from + n)) then bit_of v (i mod 8) else bit_at l i.
Proof.
  intros Hl Hi. unfold bit_at, byte_at, memset.
  destruct ((Z.of_nat from <=? i / 8) && (i / 8 <? Z.of_nat (from + n))) eqn:E; zbool.
  - rewrite lookup_app_r by (rewrite length_take; zdiv). rewrite length_take, Nat.min_l by lia.
    rewrite lookup_app_l by (rewrite length_replicate; zdiv).
    rewrite lookup_replicate_2 by zdiv. reflexivity.
  - rewrite lookup_app_l by (rewrite length_take; zdiv). rewrite lookup_take_lt by zdiv. reflexivity.
  - rewrite lookup_app_r by (rewrite length_take; zdiv). rewrite length_take, Nat.min_l by lia.
    rewrite lookup_app_r by (rewrite length_replicate; zdiv). rewrite length_replicate, lookup_drop.
    do 3 f_equal. zdiv.
Qed.

Lemma memset_bytes from n v l :
  0 <= v < 256 -> Forall (fun x => 0 <= x < 256) l -> Forall (fun x => 0 <= x < 256) (memset from n v l).
Proof.
  intros Hv H. unfold memset. rewrite !Forall_app.
  repeat split; [now apply Forall_take| |now apply Forall_drop].
  now apply Forall_replicate.
Qed.

Lemma length_memset from n v l : (from + n <= length l)%nat -> length (memset from n v l) = length l.
Proof.
  intros H. unfold memset. rewrite !length_app, length_take, length_replicate, length_drop. lia.
Qed.

(** ** Lemmas on operations *)

Lemma get_bit_spec b i : get_bit b i = if in_range b i then Some (bit_at (buf b) i) else None.
Proof.
  unfold get_bit. destruct (in_range b i) eqn:E; [|reflexivity]. unfold in_range in E.
  rewrite bit_mask_pow, land_pow2 by zdiv. reflexivity.
Qed.

Lemma in_range_index b i :
  wf_bitfield b -> in_range b i = true -> 0 <= i < m_size b /\ 0 <= i / 8 < Z.of_nat (length (buf b)).
Proof. intros W H. unfold in_range in H. pose proof (wf_length _ W). zdiv. Qed.

Lemma bit_of_lor x i k : 0 <= k < 8 -> bit_of (Z.lor x (bit_mask i)) k = (i mod 8 =? k) || bit_of x k.
Proof.
  intros Hk. pose proof (Z.mod_pos_bound i 8 ltac:(lia)). unfold bit_of.
  rewrite bit_mask_pow, Z.lor_spec, Z.pow2_bits_eqb, orb_comm by lia. f_equal. lia.
Qed.

Lemma bit_of_clear x i k :
  0 <= k < 8 -> bit_of (wrapu 8 (Z.land x (Z.lnot (bit_mask i)))) k = negb (i mod 8 =? k) && bit_of x k.
Proof.
  intros Hk. pose proof (Z.mod_pos_bound i 8 ltac:(lia)). unfold bit_of, wrapu.
  rewrite Z.mod_pow2_bits_low by lia.
  rewrite bit_mask_pow, Z.land_spec, Z.lnot_spec, Z.pow2_bits_eqb, andb_comm by lia. do 2 f_equal. lia.
Qed.

Lemma buf_update i f b : buf (update_byte i f b) = alter f (Z.to_nat i) (buf b).
Proof. reflexivity. Qed.

(** Updating one byte of a well-formed map, bit by bit. *)
Lemma update_byte_bits b i (f : Z -> Z) (g : Z -> bool -> bool) :
  wf_bitfield b -> 0 <= i < Z.of_nat (length (buf b)) ->
  (forall x, 0 <= x < 256 -> 0 <= f x < 256) ->
  (forall x k, 0 <= k < 8 -> bit_of (f x) k = g k (bit_of x k)) ->
  (forall j, m_size b <= j -> g (j mod 8) false = false \/ j / 8 <> i) ->
  wf_bitfield (update_byte i f b)
  /\ forall j, 0 <= j -> bit_at (buf (update_byte i f b)) j =
       if j / 8 =? i then g (j mod 8) (bit_at (buf b) j) else bit_at (buf b) j.
Proof.
  intros W Hi Hf Hg Htr.
  assert (forall j, 0 <= j -> bit_at (buf (update_byte i f b)) j =
            if j / 8 =? i then g (j mod 8) (bit_at (buf b) j) else bit_at (buf b) j) as E.
  { intros j Hj. rewrite buf_update, bit_at_alter by lia.
    destruct (j / 8 =? i) eqn:Ej; [|reflexivity]. apply Z.eqb_eq in Ej as <-.
    unfold bit_at. apply Hg, Z.mod_pos_bound. lia. }
  split; [|exact E]. destruct W as [W1 W2 W3 W4]. constructor.
  - exact W1.
  - now rewrite buf_update, length_alter.
  - rewrite buf_update. apply Forall_alter_byte; auto.
  - intros j Hj. change (m_size (update_byte i f b)) with (m_size b) in Hj.
    rewrite E by lia. rewrite W4 by lia. destruct (Htr j ltac:(lia)) as [->|Hne].
    + now destruct (_ =? _).
    + destruct (j / 8 =? i) eqn:F; zbool.
Qed.

Lemma set_bit_bits b i b' :
  wf_bitfield b -> set_bit i b = Some b' ->
  wf_bitfield b' /\ m_size b' = m_size b
  /\ forall j, 0 <= j -> bit_at (buf b') j = (j =? i) || bit_at (buf b) j.
Proof.
  intros W H. unfold set_bit in H. destruct (in_range b i) eqn:E; [|discriminate].
  injection H as <-. destruct (in_range_index _ _ W E) as [Hi Hb].
  destruct (update_byte_bits b (i / 8) (fun x => Z.lor x (bit_mask i))
              (fun k v => (i mod 8 =? k) || v) W Hb) as [W' B].
  - intros x Hx. apply byte_lor; auto using bit_mask_byte.
  - intros. now apply bit_of_lor.
  - intros j Hj. destruct (Z.eq_dec (j / 8) (i / 8)); [left|now right]. zdiv.
  - split; [exact W'|]. split; [reflexivity|]. intros j Hj. rewrite B by exact Hj.
    destruct (j / 8 =? i / 8) eqn:F; [f_equal; zdiv|].
    destruct (j =? i) eqn:G; [|reflexivity]. exfalso. zdiv.
Qed.

Lemma clear_bit_bits b i b' :
  wf_bitfield b -> clear_bit i b = Some b' ->
  wf_bitfield b' /\ m_size b' = m_size b
  /\ forall j, 0 <= j -> bit_at (buf b') j = negb (j =? i) && bit_at (buf b) j.
Proof.
  intros W H. unfold clear_bit in H. destruct (in_range b i) eqn:E; [|discriminate].
  injection H as <-. destruct (in_range_index _ _ W E) as [Hi Hb].
  destruct (update_byte_bits b (i / 8) (fun x => wrapu 8 (Z.land x (Z.lnot (bit_mask i))))
              (fun k v => negb (i mod 8 =? k) && v) W Hb) as [W' B].
  - intros x Hx. apply byte_wrap.
  - intros. now apply bit_of_clear.
  - intros j Hj. left. apply andb_false_r.
  - split; [exact W'|]. split; [reflexivity|]. intros j Hj. rewrite B by exact Hj.
    destruct (j / 8 =? i / 8) eqn:F; [do 2 f_equal; zdiv|].
    destruct (j =? i) eqn:G; [exfalso; zdiv|reflexivity].
Qed.

(** [clear_trailing_bits] establishes the invariant and keeps the bits in range. *)
Lemma bit_of_trailing x r k :
  0 < r < 8 -> 0 <= k < 8 ->
  bit_of (wrapu 8 (Z.land x (Z.shiftl 255 (8 - r)))) k = (k <? r) && bit_of x k.
Proof.
  intros Hr Hk. unfold bit_of, wrapu. rewrite Z.mod_pow2_bits_low, Z.land_spec, andb_comm by lia.
  f_equal. rewrite Z.shiftl_spec by lia. small_cases r 8%nat; try lia; small_cases k 8%nat; reflexivity.
Qed.

Lemma clear_trailing_bits_wf b :
  0 <= m_size b -> (m_size b + 7) / 8 <= Z.of_nat (length (buf b)) ->
  Forall (fun x => 0 <= x < 256) (buf b) ->
  wf_bitfield (clear_trailing_bits b)
  /\ m_size (clear_trailing_bits b) = m_size b
  /\ forall i, 0 <= i -> bit_at (buf (clear_trailing_bits b)) i =
       if (m_size b <=? i) && (i <? (m_size b + 7) / 8 * 8) then false else bit_at (buf b) i.
Proof.
  intros Hs Hl Hb. unfold clear_trailing_bits. rewrite land7.
  destruct (m_size b mod 8 =? 0) eqn:E; zbool.
  - split; [|split; [reflexivity|]].
    + constructor; auto. intros i Hi. exfalso. zdiv.
    + intros i Hi. destruct (_ && _) eqn:F; [|reflexivity]. exfalso. zdiv.
  - set (r := m_size b mod 8) in *. assert (0 < r < 8) as Hr by (unfold r; zdiv).
    set (f := fun x => wrapu 8 (Z.land x (Z.shiftl 255 (8 - r)))).
    assert (forall i, 0 <= i -> bit_at (buf (update_byte ((m_size b + 7) / 8 - 1) f b)) i =
       if (m_size b <=? i) && (i <? (m_size b + 7) / 8 * 8) then false else bit_at (buf b) i) as B.
    { intros i Hi. rewrite buf_update, bit_at_alter by (unfold r in *; zdiv).
      destruct (i / 8 =? (m_size b + 7) / 8 - 1) eqn:F.
      - unfold f. rewrite bit_of_trailing by (try apply Z.mod_pos_bound; lia).
        unfold bit_at. apply Z.eqb_eq in F. rewrite <- F.
        replace (i mod 8 <? r) with (negb ((m_size b <=? i) && (i <? (m_size b + 7) / 8 * 8)))
          by (unfold r; zdiv).
        now destruct ((m_size b <=? i) && _).
      - destruct ((m_size b <=? i) && _) eqn:G; [|reflexivity]. exfalso. zdiv. }
    split; [|split; [reflexivity|exact B]]. constructor.
    + exact Hs.
    + rewrite buf_update, length_alter. exact Hl.
    + rewrite buf_update. apply Forall_alter_byte; [|exact Hb]. intros. apply byte_wrap.
    + intros i Hi. change (m_size (update_byte _ f b)) with (m_size b) in Hi.
      rewrite B by lia. destruct (_ && _) eqn:G; [reflexivity|]. exfalso. lia.
Qed.

Lemma memset_255 k : 0 <= k < 8 -> bit_of 255 k = true.
Proof. intros H. small_cases k 8%nat; reflexivity. Qed.

Lemma bit_of_0 k : bit_of 0 k = false.
Proof. apply Z.bits_0. Qed.

Lemma bit_of_fill x r k :
  0 <= r < 8 -> 0 <= k < 8 -> bit_of (Z.lor x (Z.shiftr 255 r)) k = bit_of x k || (r <=? k).
Proof.
  intros Hr Hk. unfold bit_of. rewrite Z.lor_spec. f_equal.
  small_cases r 8%nat; small_cases k 8%nat; reflexivity.
Qed.

(** The invariant without its last clause. *)
Definition parts (b : bitfield) : Prop :=
  0 <= m_size b /\ (m_size b + 7) / 8 <= Z.of_nat (length (buf b))
  /\ Forall (fun x => 0 <= x < 256) (buf b).

Lemma wf_parts b : wf_bitfield b -> parts b.
Proof. intros W. split; [apply (wf_size _ W)|]. split; [apply (wf_length _ W)|apply (wf_bytes _ W)]. Qed.

Lemma fill_bytes_bits b old v :
  parts b -> 0 <= old <= (m_size b + 7) / 8 -> 0 <= v < 256 ->
  let b' := fill_bytes old ((m_size b + 7) / 8) v b in
  parts b' /\ m_size b' = m_size b
  /\ forall i, 0 <= i < (m_size b + 7) / 8 * 8 ->
       bit_at (buf b') i = if i / 8 <? old then bit_at (buf b) i else bit_of v (i mod 8).
Proof.
  intros (Hs & L & Y) Ho Hv. cbv zeta. unfold fill_bytes, parts.
  destruct (old <? (m_size b + 7) / 8) eqn:G; zbool.
  - change (buf (set_buf ?l b)) with l. change (m_size (set_buf _ b)) with (m_size b).
    rewrite length_memset by lia. repeat split; auto using memset_bytes.
    intros i Hi. assert (i / 8 < (m_size b + 7) / 8) by (apply Z.div_lt_upper_bound; lia).
    rewrite bit_at_memset by lia. destruct (i / 8 <? old) eqn:J; zbool.
    + destruct (_ && _) eqn:J2; zbool. reflexivity.
    + replace (_ && _) with true; [reflexivity|]. symmetry. bool_goal; lia.
  - repeat split; auto. intros i Hi.
    assert (i / 8 < (m_size b + 7) / 8) by (apply Z.div_lt_upper_bound; lia).
    destruct (i / 8 <? old) eqn:J; zbool. reflexivity.
Qed.

(** The last old byte is filled with ones past the old size. *)
Definition fill_last (s : Z) (b : bitfield) : bitfield :=
  if negb ((s + 7) / 8 =? 0) && negb (s mod 8 =? 0)
  then update_byte ((s + 7) / 8 - 1) (fun x => Z.lor x (Z.shiftr 255 (s mod 8))) b
  else b.

Lemma fill_last_bits s b :
  parts b -> 0 <= s < m_size b ->
  parts (fill_last s b) /\ m_size (fill_last s b) = m_size b
  /\ forall i, 0 <= i < (s + 7) / 8 * 8 ->
       bit_at (buf (fill_last s b)) i = bit_at (buf b) i || (s <=? i).
Proof.
  intros (Hs & L & Y) Hn. unfold fill_last, parts. pose proof (Z.mod_pos_bound s 8 ltac:(lia)) as Hr.
  destruct (negb _ && negb _) eqn:G; zbool.
  - rewrite buf_update, length_alter. change (m_size (update_byte _ _ b)) with (m_size b).
    repeat split; auto.
    + apply Forall_alter_byte; [|exact Y]. intros x Hx. apply byte_lor; [exact Hx|].
      generalize dependent (s mod 8). intros r Hr _. small_cases r 8%nat; vm_compute; split; congruence.
    + intros i Hi. rewrite bit_at_alter by zdiv. destruct (i / 8 =? _) eqn:F; zbool.
      * rewrite bit_of_fill by (try apply Z.mod_pos_bound; lia). unfold bit_at. rewrite <- F.
        f_equal. zdiv.
      * replace (s <=? i) with false by zdiv. now rewrite orb_false_r.
  - repeat split; auto. intros i Hi. exfalso. zdiv.
  - repeat split; auto. intros i Hi. replace (s <=? i) with false by zdiv. now rewrite orb_false_r.
Qed.

Section ResizeFacts.
Variable junk : nat -> Z.
Hypothesis junk_byte : forall n, 0 <= junk n < 256.

Lemma malloc_bytes n : Forall (fun x => 0 <= x < 256) (malloc junk n).
Proof. unfold malloc. apply Forall_map, Forall_true. intros. apply junk_byte. Qed.

Lemma length_malloc n : length (malloc junk n) = n.
Proof. unfold malloc. now rewrite length_map, length_seq. Qed.

(** [resize(bits)]: the new size, the invariant, the old bits. *)
Lemma resize_bits n b :
  wf_bitfield b -> 0 <= n < 2 ^ 30 ->
  wf_bitfield (resize junk n b) /\ m_size (resize junk n b) = n
  /\ forall i, 0 <= i < n -> i / 8 < (m_size b + 7) / 8 ->
       bit_at (buf (resize junk n b)) i = bit_at (buf b) i.
Proof.
  intros W Hn. unfold resize.
  set (nb := Z.to_nat ((n + 7) / 8)).
  rewrite (wraps_id 31 n) by lia.
  assert (forall l own, (nb <= length l)%nat -> Forall (fun x => 0 <= x < 256) l ->
    (forall i, 0 <= i < Z.of_nat nb -> i < (m_size b + 7) / 8 -> byte_at l i = byte_at (buf b) i) ->
    let b' := clear_trailing_bits (Bitfield (Some l) n own) in
    wf_bitfield b' /\ m_size b' = n
    /\ forall i, 0 <= i < n -> i / 8 < (m_size b + 7) / 8 -> bit_at (buf b') i = bit_at (buf b) i) as K.
  { intros l own Hl Hb Hk. cbv zeta.
    destruct (clear_trailing_bits_wf (Bitfield (Some l) n own)) as (W' & S' & B');
      unfold buf; simpl; auto; try lia.
    split; [exact W'|]. split; [exact S'|]. intros i Hi Hi'. rewrite B' by lia. simpl.
    destruct (n <=? i) eqn:F; zbool. simpl. unfold bit_at, buf; simpl. f_equal. apply Hk; unfold nb; zdiv. }
  destruct (m_bytes b) as [l|] eqn:El.
  - assert (buf b = l) as Eb by (unfold buf; now rewrite El).
    pose proof (wf_length _ W) as WL. pose proof (wf_bytes _ W) as WB. rewrite Eb in WL, WB, K |- *.
    destruct (m_own b).
    + apply K; unfold realloc.
      * rewrite length_app, length_take, length_drop, length_malloc. lia.
      * apply Forall_app. split; [now apply Forall_take|]. apply Forall_drop, malloc_bytes.
      * intros i Hi Hi'. rewrite byte_at_app_l, byte_at_take; [reflexivity|lia|].
        rewrite length_take. zdiv.
    + destruct (m_size b <? n) eqn:F.
      * apply K.
        -- rewrite length_app, length_take, length_drop, length_malloc. lia.
        -- apply Forall_app. split; [now apply Forall_take|]. apply Forall_drop, malloc_bytes.
        -- intros i Hi Hi'. rewrite byte_at_app_l, byte_at_take; [reflexivity|lia|].
           rewrite length_take. lia.
      * apply K; auto. unfold nb. zbool. zdiv.
  - assert (m_size b <= 0) as Hs.
    { pose proof (wf_length _ W) as WL. unfold buf in WL. rewrite El in WL. simpl in WL. zdiv. }
    apply K; auto using malloc_bytes.
    + now rewrite length_malloc.
    + intros i Hi Hi'. exfalso. zdiv.
Qed.

(** [resize(bits, val)]: old bits are kept, new bits are [val]. *)
Lemma resize_val_bits n v b :
  wf_bitfield b -> 0 <= n < 2 ^ 30 ->
  wf_bitfield (resize_val junk n v b) /\ m_size (resize_val junk n v b) = n
  /\ forall i, 0 <= i < n ->
       bit_at (buf (resize_val junk n v b)) i = if i <? m_size b then bit_at (buf b) i else v.
Proof.
  intros W Hn. destruct (resize_bits n b W Hn) as (W1 & S1 & B1).
  unfold resize_val. rewrite land7, S1. set (b1 := resize junk n b) in *.
  destruct (n <=? m_size b) eqn:E; zbool.
  { split; [exact W1|]. split; [exact S1|]. intros i Hi. rewrite B1 by zdiv.
    destruct (i <? m_size b) eqn:F; zbool. reflexivity. }
  pose proof (wf_size _ W) as Hs.
  assert (forall i, 0 <= i < n -> m_size b <= i -> i / 8 < (m_size b + 7) / 8 -> bit_at (buf b1) i = false) as T1.
  { intros i Hi Hi' Hb. rewrite B1 by lia. apply (wf_trailing _ W). zdiv. }
  pose proof (wf_parts _ W1) as P1. destruct v.
  - change (if negb _ && negb _ then _ else b1) with (fill_last (m_size b) b1).
    destruct (fill_last_bits (m_size b) b1 P1) as (P2 & S2 & B2); [lia|].
    destruct (fill_bytes_bits (fill_last (m_size b) b1) ((m_size b + 7) / 8) 255 P2)
      as (P3 & S3 & B3); [rewrite S2, S1; zdiv|lia|]. rewrite S2, S1 in *.
    set (b3 := fill_bytes _ _ _ _) in *. destruct P3 as (Z3 & L3 & Y3).
    destruct (clear_trailing_bits_wf b3 Z3 L3 Y3) as (W4 & S4 & B4). rewrite S3 in *.
    split; [exact W4|]. split; [exact S4|]. intros i Hi.
    rewrite B4 by lia. replace (n <=? i) with false by lia. cbn [andb].
    rewrite B3 by zdiv. destruct (i / 8 <? (m_size b + 7) / 8) eqn:F; zbool.
    + rewrite B2 by zdiv. destruct (i <? m_size b) eqn:G; zbool.
      rewrite B1 by lia. replace (m_size b <=? i) with false by lia. apply orb_false_r.
    + rewrite memset_255 by (apply Z.mod_pos_bound; lia).
      destruct (i <? m_size b) eqn:G; zbool. exfalso; zdiv.
  - destruct (fill_bytes_bits b1 ((m_size b + 7) / 8) 0 P1) as (P2 & S2 & B2); [rewrite S1; zdiv|lia|].
    rewrite S1 in *. destruct P2 as (Z2 & L2 & Y2). split; [|split; [exact S2|]].
    + constructor; auto. rewrite S2. intros i Hi. rewrite B2 by lia.
      destruct (_ <? _); [|apply bit_of_0]. apply (wf_trailing _ W1). rewrite S1. exact Hi.
    + intros i Hi. rewrite B2 by zdiv. destruct (i / 8 <? (m_size b + 7) / 8) eqn:F; zbool.
      * destruct (i <? m_size b) eqn:G; zbool; [apply B1; lia|apply T1; lia].
      * rewrite bit_of_0. destruct (i <? m_size b) eqn:G; zbool. exfalso; zdiv.
Qed.
End ResizeFacts.

(** ** Counting and iterating *)

Definition b2z (v : bool) : Z := if v then 1 else 0.

Definition count_true (l : list bool) : Z := fold_right (fun v n => b2z v + n) 0 l.

Lemma count_true_app a b : count_true (a ++ b) = count_true a + count_true b.
Proof. induction a as [|v a IH]; simpl; lia. Qed.

Lemma count_true_range l : 0 <= count_true l <= Z.of_nat (length l).
Proof. induction l as [|[] l IH]; simpl length; simpl count_true; unfold b2z; lia. Qed.

Definition byte_bits (x : Z) : list bool := map (fun k => bit_of x (Z.of_nat k)) (seq 0 8).

Lemma count_byte_bits x : 0 <= x < 256 -> count_byte x = count_true (byte_bits x).
Proof.
  intros Hx.
  assert (forallb (fun n => count_byte (Z.of_nat n) =? count_true (byte_bits (Z.of_nat n))) (seq 0 256) = true)
    as H by (vm_compute; reflexivity).
  rewrite forallb_forall in H. specialize (H (Z.to_nat x)). rewrite Z2Nat.id in H by lia.
  apply Z.eqb_eq, H, in_seq. lia.
Qed.

(** The bits from the start of byte [n]. *)
Lemma bits_from_byte l n k :
  (k <= 8)%nat ->
  map (fun i => bit_at l (Z.of_nat i)) (seq (8 * n) k) =
  map (fun i => bit_of (byte_at l (Z.of_nat n)) (Z.of_nat i)) (seq 0 k).
Proof.
  intros Hk. rewrite <- (Nat.add_0_l (8 * n)), Nat.add_comm, <- fmap_add_seq.
  change (?f <$> ?l) with (map f l). rewrite map_map. apply map_ext_in. intros i Hi%in_seq. unfold bit_at.
  f_equal; [f_equal|]; zdiv.
Qed.

Lemma count_full_bytes l n :
  (n <= length l)%nat -> Forall (fun x => 0 <= x < 256) l ->
  fold_left (fun ret x => ret + count_byte x) (take n l) 0 =
  count_true (map (fun i => bit_at l (Z.of_nat i)) (seq 0 (8 * n))).
Proof.
  intros Hn Hb. induction n as [|n IH]; [reflexivity|].
  destruct (lookup_lt_is_Some_2 l n) as [x Hx]; [lia|].
  rewrite (take_S_r _ _ _ Hx), fold_left_app. cbn [fold_left]. rewrite IH by lia.
  replace (8 * S n)%nat with (8 * n + 8)%nat by lia.
  rewrite seq_app, map_app, count_true_app. f_equal. rewrite Nat.add_0_l, bits_from_byte by lia.
  unfold byte_at. rewrite Nat2Z.id, Hx. apply count_byte_bits. eapply Forall_lookup in Hb; eauto.
Qed.

Lemma land1 y : Z.land y 1 = b2z (Z.testbit y 0).
Proof.
  change 1 with (Z.ones 1). rewrite Z.land_ones, Z.bit0_odd by lia. change (2 ^ 1) with 2.
  rewrite Zmod_odd. reflexivity.
Qed.

Lemma count_rest_bits x acc n :
  (n <= 7)%nat ->
  fold_left (fun ret i => ret + Z.land (Z.shiftr x (7 - i)) 1) (map Z.of_nat (seq 0 n)) acc =
  acc + count_true (map (fun i => bit_of x (Z.of_nat i)) (seq 0 n)).
Proof.
  induction n as [|n IH]; intros Hn; [simpl; lia|].
  rewrite seq_S, !map_app, fold_left_app, count_true_app, IH by lia. cbn [map fold_left count_true fold_right].
  rewrite Nat.add_0_l, land1, Z.shiftr_spec, Z.add_0_l by lia. unfold bit_of. lia.
Qed.

(** The iterator at bit [i]. *)
Definition iter_at (i : Z) : const_iterator := Iter (i / 8) (2 ^ (7 - i mod 8)).

Lemma iter_at_begin b : iter_begin b = iter_at 0.
Proof. reflexivity. Qed.

Lemma iter_at_end b : iter_end b = iter_at (m_size b).
Proof. unfold iter_end, iter_at. f_equal. rewrite <- bit_mask_pow. reflexivity. Qed.

Lemma iter_at_deref b i : iter_deref b (iter_at i) = bit_at (buf b) i.
Proof. unfold iter_deref, iter_at. simpl. now rewrite land_pow2 by zdiv. Qed.

Lemma iter_at_inc i : inc (iter_at i) = iter_at (i + 1).
Proof.
  unfold inc, iter_at. simpl. pose proof (Z.mod_pos_bound i 8 ltac:(lia)).
  destruct (Z.eq_dec (i mod 8) 7) as [E|E].
  - rewrite E. simpl. f_equal; [zdiv|]. replace ((i + 1) mod 8) with 0 by zdiv. reflexivity.
  - replace (2 ^ (7 - i mod 8) =? 1) with false.
    + f_equal; [zdiv|]. replace ((i + 1) mod 8) with (i mod 8 + 1) by zdiv.
      rewrite Z.shiftr_div_pow2 by lia. change (2 ^ 1) with 2.
      replace (7 - i mod 8) with (Z.succ (7 - (i mod 8 + 1))) by lia.
      rewrite Z.pow_succ_r by lia. rewrite Z.mul_comm, Z.div_mul by lia. reflexivity.
    + symmetry. apply Z.eqb_neq. intros F. apply (Z.pow_inj_r 2 _ 0) in F; lia.
Qed.

Lemma iter_at_inj i j : 0 <= i -> 0 <= j -> iter_eqb (iter_at i) (iter_at j) = (i =? j).
Proof.
  intros Hi Hj. unfold iter_eqb, iter_at. simpl.
  pose proof (Z.mod_pos_bound i 8 ltac:(lia)). pose proof (Z.mod_pos_bound j 8 ltac:(lia)).
  destruct (Z.eqb_spec i j) as [->|Hne].
  - now rewrite !Z.eqb_refl.
  - apply andb_false_iff. destruct (Z.eq_dec (i / 8) (j / 8)) as [E|E].
    + right. apply Z.eqb_neq. intros F. apply Z.pow_inj_r in F; [zdiv|lia..].
    + left. now apply Z.eqb_neq.
Qed.

Lemma iterate_from b n k :
  0 <= k -> k + Z.of_nat n = m_size b ->
  forall fuel, (n < fuel)%nat ->
  iterate fuel b (iter_at k) = map (fun i => bit_at (buf b) (k + Z.of_nat i)) (seq 0 n).
Proof.
  revert k. induction n as [|n IH]; intros k Hk E fuel Hf; destruct fuel as [|fuel]; try lia;
    cbn [iterate]; rewrite iter_at_end, iter_at_inj by lia.
  - replace (k =? m_size b) with true by lia. reflexivity.
  - replace (k =? m_size b) with false by lia. rewrite iter_at_deref, iter_at_inc.
    cbn [seq map]. rewrite Z.add_0_r. f_equal. rewrite IH by lia.
    rewrite <- seq_shift, map_map. apply map_ext. intros i. f_equal. lia.
Qed.

Lemma iterate_bits b fuel :
  wf_bitfield b -> (Z.to_nat (m_size b) < fuel)%nat -> iterate fuel b (iter_begin b) = bits b.
Proof.
  intros W Hf. pose proof (wf_size _ W). rewrite iter_at_begin.
  rewrite (iterate_from b (Z.to_nat (m_size b))) by lia. reflexivity.
Qed.

Lemma lookup_bits b i : (i < Z.to_nat (m_size b))%nat -> bits b !! i = Some (bit_at (buf b) (Z.of_nat i)).
Proof.
  intros H. unfold bits. change (map ?f ?l) with (f <$> l). rewrite list_lookup_fmap, lookup_seq_lt by lia. reflexivity.
Qed.

Lemma length_bits b : length (bits b) = Z.to_nat (m_size b).
Proof. unfold bits. now rewrite length_map, length_seq. Qed.

(** Two maps of one size with the same bits. *)
Lemma bits_ext l n b :
  m_size b = Z.of_nat n -> length l = n ->
  (forall i, (i < n)%nat -> l !! i = Some (bit_at (buf b) (Z.of_nat i))) -> bits b = l.
Proof.
  intros Hs Hl H. apply list_eq_same_length with (n := n); [exact Hl|rewrite length_bits; lia|].
  intros i x y Hi Hx Hy. rewrite lookup_bits in Hx by lia. rewrite H in Hy by lia. congruence.
Qed.

Lemma bits_insert b b' i v :
  0 <= i < m_size b -> m_size b' = m_size b ->
  (forall j, 0 <= j -> bit_at (buf b') j = if j =? i then v else bit_at (buf b) j) ->
  bits b' = <[Z.to_nat i := v]> (bits b).
Proof.
  intros Hi Hs H. apply bits_ext with (n := Z.to_nat (m_size b)); [lia|now rewrite length_insert, length_bits|].
  intros j Hj. rewrite H by lia. destruct (Z.of_nat j =? i) eqn:E; zbool.
  - replace j with (Z.to_nat i) by lia. apply list_lookup_insert_eq. rewrite length_bits. lia.
  - rewrite list_lookup_insert_ne by lia. now apply lookup_bits.
Qed.

Lemma bitfield_new_wf : wf_bitfield bitfield_new.
Proof.
  constructor; [cbv; congruence|cbv; congruence|constructor|].
  intros i Hi. change (0 <= i < 0) in Hi. lia.
Qed.

(** The invariant as a test. *)
Definition check_bitfield (b : bitfield) : bool :=
  (0 <=? m_size b) && ((m_size b + 7) / 8 <=? Z.of_nat (length (buf b)))
  && forallb (fun x => (0 <=? x) && (x <? 256)) (buf b)
  && forallb (fun k => negb (bit_at (buf b) (m_size b + Z.of_nat k)))
       (seq 0 (Z.to_nat ((m_size b + 7) / 8 * 8 - m_size b))).

Lemma wf_bitfield_check b : check_bitfield b = true -> wf_bitfield b.
Proof.
  unfold check_bitfield. rewrite !andb_true_iff, !forallb_forall. intros (((H1 & H2) & H3) & H4).
  constructor; try lia.
  - apply List.Forall_forall. intros x Hx. specialize (H3 x Hx). lia.
  - intros i Hi. specialize (H4 (Z.to_nat (i - m_size b))).
    rewrite Z2Nat.id in H4 by lia. replace (m_size b + (i - m_size b)) with i in H4 by lia.
    apply negb_true_iff, H4, in_seq. lia.
Qed.

(** [assign] of the bytes of another map, followed by anything. *)
Lemma assign_bits junk (Hj : forall n, 0 <= junk n < 256) b rest :
  wf_bitfield b -> m_size b < 2 ^ 30 ->
  let b' := assign junk (take (Z.to_nat ((m_size b + 7) / 8)) (buf b) ++ rest) (m_size b) bitfield_new in
  wf_bitfield b' /\ bits b' = bits b.
Proof.
  intros W Hb. pose proof (wf_size _ W) as Hs. pose proof (wf_length _ W) as Hl.
  pose proof (wf_bytes _ W) as Wb. cbv zeta. unfold assign.
  set (n := Z.to_nat ((m_size b + 7) / 8)).
  destruct (resize_bits junk Hj (m_size b) bitfield_new bitfield_new_wf ltac:(lia)) as (W1 & S1 & _).
  set (b1 := resize junk (m_size b) bitfield_new) in *.
  assert (length (take n (buf b)) = n) as Ln by (rewrite length_take; unfold n; zdiv).
  replace (take n (take n (buf b) ++ rest)) with (take n (buf b))
    by (rewrite take_app_le, take_take by lia; f_equal; lia).
  set (b2 := set_buf (take n (buf b) ++ drop n (buf b1)) b1).
  assert (buf b2 = take n (buf b) ++ drop n (buf b1)) as Eb by reflexivity.
  destruct (clear_trailing_bits_wf b2) as (W2 & S2 & B2).
  - cbn [m_size b2 set_buf]. lia.
  - rewrite Eb, length_app, Ln. change (m_size b2) with (m_size b1). rewrite S1. unfold n. zdiv.
  - rewrite Eb. apply Forall_app. split; [now apply Forall_take|]. apply Forall_drop, (wf_bytes _ W1).
  - split; [exact W2|]. change (m_size b2) with (m_size b1) in *. rewrite S1 in *.
    apply bits_ext with (n := Z.to_nat (m_size b)); [lia|apply length_bits|].
    intros i Hi. rewrite lookup_bits, B2 by lia. replace ((m_size b <=? Z.of_nat i) && _) with false by lia.
    f_equal. rewrite Eb. unfold bit_at. rewrite byte_at_app_l, byte_at_take; [reflexivity| |rewrite Ln];
      unfold n; zdiv.
Qed.

(** ** The interface of a bitmap

    What rangefield.hpp relies on: a map that can be resized with a fill value,
    whose bits can be set one by one, and that can be walked from [begin()] to
    [end()]. *)

Class BitMap (T : Type) := {
  bm_wf : T -> Prop;
  bm_bits : T -> list bool;
  bm_resize : Z -> bool -> T -> T;
  bm_set : Z -> T -> option T;
  bm_walk : T -> list bool;
  bm_resize_ok : forall n v b, bm_wf b -> 0 <= n < 2 ^ 30 ->
    bm_wf (bm_resize n v b)
    /\ bm_bits (bm_resize n v b) =
       take (Z.to_nat n) (bm_bits b) ++ replicate (Z.to_nat n - length (bm_bits b)) v;
  bm_set_ok : forall i b, bm_wf b -> 0 <= i < Z.of_nat (length (bm_bits b)) ->
    exists b', bm_set i b = Some b' /\ bm_wf b' /\ bm_bits b' = <[Z.to_nat i := true]> (bm_bits b);
  bm_walk_ok : forall b, bm_wf b -> bm_walk b = bm_bits b
}.

Section Instance_BitMap.
Variable junk : nat -> Z.
Hypothesis junk_byte : forall n, 0 <= junk n < 256.

Lemma bits_resize_val n v b :
  wf_bitfield b -> 0 <= n < 2 ^ 30 ->
  bits (resize_val junk n v b) =
  take (Z.to_nat n) (bits b) ++ replicate (Z.to_nat n - length (bits b)) v.
Proof.
  intros W Hn. destruct (resize_val_bits junk junk_byte n v b W Hn) as (W' & S' & B').
  pose proof (wf_size _ W).
  apply bits_ext with (n := Z.to_nat n); [lia| |].
  { rewrite length_app, length_take, length_replicate. lia. }
  intros i Hi. rewrite B' by lia. destruct (Z.of_nat i <? m_size b) eqn:E; zbool.
  - rewrite lookup_app_l by (rewrite length_take, length_bits; lia).
    rewrite lookup_take_lt by lia. apply lookup_bits. lia.
  - rewrite lookup_app_r by (rewrite length_take, length_bits; lia).
    apply lookup_replicate_2. rewrite length_take, length_bits. lia.
Qed.

Lemma bits_set_bit i b :
  wf_bitfield b -> in_range b i = true ->
  exists b', set_bit i b = Some b' /\ wf_bitfield b' /\ bits b' = <[Z.to_nat i := true]> (bits b).
Proof.
  intros W E. destruct (set_bit i b) as [s|] eqn:Es; [|unfold set_bit in Es; now rewrite E in Es].
  destruct (set_bit_bits b i s W Es) as (Ws & Ss & Bs). exists s. split; [reflexivity|].
  split; [exact Ws|]. unfold in_range in E. apply (bits_insert b); [lia|assumption|].
  intros j Hj. rewrite Bs by lia. destruct (j =? i); reflexivity.
Qed.

#[refine] Instance bitfield_BitMap : BitMap bitfield := {
  bm_wf := wf_bitfield;
  bm_bits := bits;
  bm_resize := resize_val junk;
  bm_set := set_bit;
  bm_walk := fun b => iterate (S (Z.to_nat (m_size b))) b (iter_begin b)
}.
Proof.
  - intros n v b W Hn. split; [now apply resize_val_bits|now apply bits_resize_val].
  - intros i b W Hi. apply bits_set_bit; [exact W|]. rewrite length_bits in Hi. unfold in_range. lia.
  - intros b W. apply iterate_bits; auto.
Defined.
End Instance_BitMap.

(** ** Properties *)

(** The bit operations work on the map of bits: [get_bit] reads bit
    [index], [set_bit] and [clear_bit] change that bit only and keep the
    invariant; all three fail their assertion exactly when the index is out of
    range. *)
Theorem bit_operations b i :
  wf_bitfield b ->
  get_bit b i = (if in_range b i then bits b !! Z.to_nat i else None)
  /\ (in_range b i = false -> set_bit i b = None /\ clear_bit i b = None)
  /\ (in_range b i = true -> exists s c,
        set_bit i b = Some s /\ wf_bitfield s /\ bits s = <[Z.to_nat i := true]> (bits b)
        /\ clear_bit i b = Some c /\ wf_bitfield c /\ bits c = <[Z.to_nat i := false]> (bits b)).
Proof.
  intros W. split; [|split].
  - rewrite get_bit_spec. destruct (in_range b i) eqn:E; [|reflexivity].
    unfold in_range in E. rewrite lookup_bits by lia. do 2 f_equal. lia.
  - intros E. unfold set_bit, clear_bit. now rewrite E.
  - intros E. destruct (bits_set_bit i b W E) as (s & Es & Ws & Bs).
    destruct (clear_bit i b) as [c|] eqn:Ec; [|unfold clear_bit in Ec; now rewrite E in Ec].
    destruct (clear_bit_bits b i c W Ec) as (Wc & Sc & Bc).
    exists s, c. unfold in_range in E. do 5 (split; auto).
    apply (bits_insert b); [lia|assumption|]. intros j Hj. rewrite Bc by lia. destruct (j =? i); reflexivity.
Qed.

Lemma bit_operations_witness :
  bits (Bitfield (Some [160]) 3 true) = [true; false; true]
  /\ exists s, set_bit 1 (Bitfield (Some [160]) 3 true) = Some s /\ bits s = [true; true; true].
Proof.
  split; [reflexivity|].
  pose proof (wf_bitfield_check (Bitfield (Some [160]) 3 true) eq_refl) as W.
  destruct (bit_operations _ 1 W) as (_ & _ & H). destruct (H eq_refl) as (s & c & Hs & _ & Bs & _).
  exists s. split; [exact Hs|]. rewrite Bs. reflexivity.
Defined.

(** [count] is the number of set bits, and walking the map from [begin()]
    to [end()] with [operator++] visits exactly its bits in order. *)
Theorem count_and_iterate b :
  wf_bitfield b ->
  count b = count_true (bits b) /\ 0 <= count b <= m_size b
  /\ iterate (S (Z.to_nat (m_size b))) b (iter_begin b) = bits b.
Proof.
  intros W. pose proof (wf_size _ W) as Hs. pose proof (wf_length _ W) as Hl.
  assert (count b = count_true (bits b)) as E.
  { unfold count. rewrite (count_full_bytes (buf b) (Z.to_nat (m_size b / 8)) ltac:(zdiv) (wf_bytes _ W)).
    rewrite count_rest_bits by zdiv. unfold bits.
    replace (Z.to_nat (m_size b)) with
      (8 * Z.to_nat (m_size b / 8) + Z.to_nat (m_size b - m_size b / 8 * 8))%nat by zdiv.
    rewrite seq_app, map_app, count_true_app, Nat.add_0_l, bits_from_byte by zdiv.
    rewrite Z2Nat.id by zdiv. reflexivity. }
  split; [exact E|]. split; [|apply iterate_bits; auto].
  rewrite E. pose proof (count_true_range (bits b)) as R. rewrite length_bits in R. lia.
Qed.

Lemma count_and_iterate_witness :
  count (clear_all (Bitfield (Some [255; 7]) 13 true)) = 0
  /\ count (set_all (Bitfield (Some [0; 7]) 13 true)) = 13.
Proof.
  split; [reflexivity|].
  pose proof (wf_bitfield_check (set_all (Bitfield (Some [0; 7]) 13 true)) eq_refl) as W.
  destruct (count_and_iterate _ W) as [-> _]. reflexivity.
Defined.

(** [resize(bits, val)] keeps the old bits that still fit and gives every
    new bit the value [val], whatever the allocator left in the fresh bytes, and
    establishes the invariant. *)
Theorem resize_val_correct junk n v b :
  (forall k, 0 <= junk k < 256) -> wf_bitfield b -> 0 <= n < 2 ^ 30 ->
  wf_bitfield (resize_val junk n v b)
  /\ bits (resize_val junk n v b) =
     take (Z.to_nat n) (bits b) ++ replicate (Z.to_nat n - length (bits b)) v.
Proof.
  intros Hj W Hn. split; [|now apply bits_resize_val].
  now apply resize_val_bits.
Qed.

Lemma resize_val_correct_witness :
  bits (resize_val (fun _ => 170) 11 true bitfield_new) = replicate 11 true.
Proof.
  pose proof bitfield_new_wf as W.
  destruct (resize_val_correct (fun _ => 170) 11 true bitfield_new) as [_ ->]; [lia|exact W|lia|].
  reflexivity.
Defined.

(** [set_all] and [clear_all]. *)
Lemma fill_all_bits (v : bool) b :
  wf_bitfield b -> let b' := if v then set_all b else clear_all b in
  wf_bitfield b' /\ bits b' = replicate (length (bits b)) v.
Proof.
  intros W. cbv zeta. set (x := if v then 255 else 0).
  set (b1 := set_buf (memset 0 (Z.to_nat ((m_size b + 7) / 8)) x (buf b)) b).
  pose proof (wf_length _ W) as Hl. pose proof (wf_size _ W) as Hs.
  assert (Z.to_nat ((m_size b + 7) / 8) <= length (buf b))%nat as Hl' by lia.
  assert (forall i, 0 <= i < (m_size b + 7) / 8 * 8 -> bit_at (buf b1) i = v) as B.
  { intros i Hi. change (buf b1) with (memset 0 (Z.to_nat ((m_size b + 7) / 8)) x (buf b)).
    rewrite bit_at_memset by lia. replace (_ && _) with true by (symmetry; bool_goal; zdiv).
    unfold x. destruct v; [apply memset_255; zdiv|apply bit_of_0]. }
  assert (parts b1) as (P1 & P2 & P3).
  { unfold parts. change (buf b1) with (memset 0 (Z.to_nat ((m_size b + 7) / 8)) x (buf b)).
    rewrite length_memset by lia. repeat split; auto. apply memset_bytes, (wf_bytes _ W).
    unfold x. destruct v; lia. }
  assert (forall c, m_size c = m_size b -> (forall i, 0 <= i < m_size b -> bit_at (buf c) i = v) ->
            bits c = replicate (length (bits b)) v) as K.
  { intros c Hc Bc. apply bits_ext with (n := length (bits b)); rewrite ?length_bits; [lia|apply length_replicate|].
    intros i Hi. rewrite Bc by lia. apply lookup_replicate_2. exact Hi. }
  destruct v.
  - destruct (clear_trailing_bits_wf b1 P1 P2 P3) as (W2 & S2 & B2). split; [exact W2|].
    apply K; [exact S2|]. intros i Hi. change (set_all b) with (clear_trailing_bits b1).
    rewrite B2 by lia. change (m_size b1) with (m_size b). replace (m_size b <=? i) with false by lia.
    apply B. zdiv.
  - split; [|apply K; [reflexivity|intros i Hi; apply B; zdiv]].
    constructor; auto. intros i Hi. apply B. change (m_size (clear_all b)) with (m_size b) in Hi. lia.
Qed.
