(* ===== verification/OrdMap.v ===== *)
(** [std::map]: an association list sorted by strictly increasing keys, so that
    walking the list is iterating from [begin()] to [end()].  The ordering of
    the keys is the class [OrdKey], with the two key types the program uses:
    64-bit integers (rangefield.hpp) and strings (entry.hpp). *)

From S2P Require Import Prelude.

Class OrdKey (K : Type) := {
  key_ltb : K -> K -> bool;
  key_ltb_irrefl : forall a, key_ltb a a = false;
  key_ltb_trans : forall a b c, key_ltb a b = true -> key_ltb b c = true -> key_ltb a c = true;
  key_ltb_total : forall a b, key_ltb a b = false -> key_ltb b a = false -> a = b
}.

#[export] Instance OrdKey_Z : OrdKey Z.
Proof. refine {| key_ltb := Z.ltb |}; intros; lia. Defined.

#[export] Instance OrdKey_string : OrdKey cstring.
Proof.
  refine {| key_ltb := str_ltb |}; eauto using str_ltb_irrefl, str_ltb_trans, str_ltb_total.
Defined.

Section OrdMap.
Context {K V : Type} `{OrdKey K}.

Abbreviation omap := (list (K * V)).

(** [m[k] = v]. *)
Fixpoint insert_or_assign (k : K) (v : V) (m : omap) : omap :=
  match m with
  | [] => [(k, v)]
  | (k', v') :: m' =>
      if key_ltb k k' then (k, v) :: m
      else if key_ltb k' k then (k', v') :: insert_or_assign k v m'
      else (k, v) :: m'
  end.

(** [m.insert(std::make_pair(k, v))]: no effect when the key is present. *)
Fixpoint map_insert (k : K) (v : V) (m : omap) : omap :=
  match m with
  | [] => [(k, v)]
  | (k', v') :: m' =>
      if key_ltb k k' then (k, v) :: m
      else if key_ltb k' k then (k', v') :: map_insert k v m'
      else m
  end.

(** [m.find(k)]. *)
Fixpoint map_find (k : K) (m : omap) : option V :=
  match m with
  | [] => None
  | (k', v') :: m' =>
      if key_ltb k k' then None
      else if key_ltb k' k then map_find k m'
      else Some v'
  end.

(** Every key of [m] is above [k]. *)
Definition above (k : K) (m : omap) : Prop := Forall (fun p => key_ltb k (fst p) = true) m.

(** The keys are strictly increasing. *)
Inductive sorted : omap -> Prop :=
| sorted_nil : sorted []
| sorted_cons k v m : above k m -> sorted m -> sorted ((k, v) :: m).

Lemma sorted_inv k v m : sorted ((k, v) :: m) -> above k m /\ sorted m.
Proof. intros S. inversion S; subst. auto. Qed.

Lemma above_trans a b m : key_ltb a b = true -> above b m -> above a m.
Proof. intros L A. eapply Forall_impl; [exact A|]. intros p Hp. eapply key_ltb_trans; eauto. Qed.

Lemma above_assign a k v m : key_ltb a k = true -> above a m -> above a (insert_or_assign k v m).
Proof.
  intros L A. induction m as [|[k' v'] m IH]; simpl; [repeat constructor; auto|].
  inversion A; subst. split_ifs; repeat constructor; auto. now apply IH.
Qed.

Lemma sorted_assign k v m : sorted m -> sorted (insert_or_assign k v m).
Proof.
  induction 1 as [|k' v' m A S IH]; simpl; [repeat constructor|].
  destruct (key_ltb k k') eqn:L1; [|destruct (key_ltb k' k) eqn:L2].
  - constructor; [|now constructor]. constructor; [exact L1|now apply (above_trans _ k')].
  - constructor; [now apply above_assign|exact IH].
  - rewrite (key_ltb_total k k' L1 L2). now constructor.
Qed.

Lemma above_find k m : above k m -> map_find k m = None.
Proof. destruct 1 as [|[k' v'] m L A]; simpl in *; [reflexivity|]. now rewrite L. Qed.

Lemma find_assign k v m k' :
  sorted m ->
  map_find k' (insert_or_assign k v m) =
  if key_ltb k' k then map_find k' m else if key_ltb k k' then map_find k' m else Some v.
Proof.
  induction 1 as [|k1 v1 m A S IH]; simpl; [destruct (key_ltb k' k), (key_ltb k k'); reflexivity|].
  destruct (key_ltb k k1) eqn:L1; [|destruct (key_ltb k1 k) eqn:L2]; simpl.
  - destruct (key_ltb k' k) eqn:L3; [now rewrite (key_ltb_trans _ _ _ L3 L1)|].
    destruct (key_ltb k k'); reflexivity.
  - destruct (key_ltb k' k1) eqn:L3; [now rewrite (key_ltb_trans _ _ _ L3 L2)|].
    destruct (key_ltb k1 k') eqn:L4; [exact IH|].
    rewrite <- (key_ltb_total k' k1 L3 L4) in L2. now rewrite L2.
  - rewrite <- (key_ltb_total k k1 L1 L2).
    destruct (key_ltb k' k), (key_ltb k k'); reflexivity.
Qed.

(** Appending above every key. *)
Lemma assign_snoc k v m :
  Forall (fun p => key_ltb (fst p) k = true) m -> insert_or_assign k v m = m ++ [(k, v)].
Proof.
  induction 1 as [|[k' v'] m L A IH]; simpl in *; [reflexivity|].
  destruct (key_ltb k k') eqn:E; [|now rewrite L, IH].
  pose proof (key_ltb_trans _ _ _ E L) as C. now rewrite key_ltb_irrefl in C.
Qed.

Lemma insert_snoc k v m :
  Forall (fun p => key_ltb (fst p) k = true) m -> map_insert k v m = m ++ [(k, v)].
Proof.
  induction 1 as [|[k' v'] m L A IH]; simpl in *; [reflexivity|].
  destruct (key_ltb k k') eqn:E; [|now rewrite L, IH].
  pose proof (key_ltb_trans _ _ _ E L) as C. now rewrite key_ltb_irrefl in C.
Qed.

Lemma above_In k p m : above k m -> In p m -> key_ltb k (fst p) = true.
Proof. intros A E. now apply (proj1 (List.Forall_forall _ _) A). Qed.

Lemma find_In k v m : sorted m -> map_find k m = Some v <-> In (k, v) m.
Proof.
  induction 1 as [|k1 v1 m A S IH]; simpl; [split; [discriminate|tauto]|].
  destruct (key_ltb k k1) eqn:L1; [|destruct (key_ltb k1 k) eqn:L2].
  - split; [discriminate|]. intros [E|E]; [simplify_eq; now rewrite key_ltb_irrefl in L1|].
    pose proof (key_ltb_trans _ _ _ L1 (above_In _ _ _ A E)) as C. simpl in C. now rewrite key_ltb_irrefl in C.
  - rewrite IH. split; [auto|]. intros [E|E]; [simplify_eq; now rewrite key_ltb_irrefl in L2|exact E].
  - rewrite (key_ltb_total k k1 L1 L2). split; [intros [= ->]; auto|].
    intros [E|E]; [now simplify_eq|].
    pose proof (above_In _ _ _ A E) as C. simpl in C. now rewrite key_ltb_irrefl in C.
Qed.

Lemma sorted_snoc k v m :
  sorted m -> Forall (fun p => key_ltb (fst p) k = true) m -> sorted (m ++ [(k, v)]).
Proof.
  induction 1 as [|k' v' m A S IH]; intros F; simpl; [repeat constructor|].
  inversion F; subst. constructor; [|now apply IH].
  apply Forall_app. split; [exact A|]. repeat constructor. assumption.
Qed.
(** In a sorted map the keys before an element are below its key. *)
Lemma sorted_below a k v b : sorted (a ++ (k, v) :: b) -> Forall (fun p => key_ltb (fst p) k = true) a.
Proof.
  induction a as [|[k' v'] a IH]; intros S; [constructor|]. apply sorted_inv in S as [A S].
  constructor; [|now apply IH]. apply Forall_app in A as [_ A]. now inversion A.
Qed.
End OrdMap.

#[export] Hint Resolve sorted_assign sorted_nil : avbot.
