(* ===== verification/Rangefield.v ===== *)
(** The set of byte ranges of a download: avhttp/rangefield.hpp.

    [m_ranges] is a [std::map] from left to right bounds ([OrdMap]).  The mutex
    behind [m_mutex] is not recursive: locking it twice in one thread never
    returns, which is the fault [Deadlock].  [BOOST_ASSERT] is compiled out
    when [NDEBUG] is defined; the variable [asserts] says whether it is active.
    The bitmap is any instance of [BitMap], the class of Bitfield.v. *)

From S2P Require Import Prelude OrdMap Bitfield.

(** ** [struct range] *)

Record range : Type := Range { left : Z; right : Z }.

Definition range_default : range := Range 0 0.
Definition range_length (r : range) : Z := int64 (right r - left r + 1).
Definition range_eqb (a b : range) : bool :=
  if (left a =? left b) && (right a =? right b) then true else false.
Definition range_neqb (a b : range) : bool :=
  if (left a =? left b) && (right a =? right b) then false else true.

(** ** [class rangefield] *)

Abbreviation range_map := (list (Z * Z)).

Record rangefield : Type := Rangefield {
  m_need_merge : bool;
  m_size : Z;
  m_ranges : range_map;
  m_locked : bool
}.

Inductive fault : Type := Deadlock | AssertFailed | DivideByZero.

Abbreviation RF := (st rangefield fault).

Definition rangefield_new (size : Z) : rangefield := Rangefield false size [] false.

(** The copy has a mutex of its own. *)
Definition rangefield_copy (rhs : rangefield) : rangefield :=
  Rangefield (m_need_merge rhs) (m_size rhs) (m_ranges rhs) false.

Definition set_locked (v : bool) (s : rangefield) : rangefield :=
  Rangefield (m_need_merge s) (m_size s) (m_ranges s) v.
Definition set_need_merge (v : bool) (s : rangefield) : rangefield :=
  Rangefield v (m_size s) (m_ranges s) (m_locked s).
Definition set_ranges (m : range_map) (s : rangefield) : rangefield :=
  Rangefield (m_need_merge s) (m_size s) m (m_locked s).

(** [boost::mutex::scoped_lock lock] on the mutex, to the end of the scope. *)
Definition lock : RF unit :=
  s ← st_get; if m_locked s then st_fail Deadlock else st_modify (set_locked true).
Definition scoped_lock {A} (body : RF A) : RF A :=
  lock ;; x ← body; st_modify (set_locked false) ;; mret x.

(** *** Merging *)

(** One turn of the loop of [merge]: [max_value] and [result]. *)
Definition merge_step (acc : (Z * Z) * range_map) (i : Z * Z) : (Z * Z) * range_map :=
  let '(max, result) := acc in
  if (fst max <=? fst i) && (snd i <=? snd max) then acc
  else if (fst i <=? fst max) && ((fst max <=? snd i) && (snd i <=? snd max))
  then ((fst i, snd max), result)
  else if (fst max <? fst i) && (fst i <=? snd max) then ((fst max, snd i), result)
  else if (snd max <? fst i) || ((fst max =? 0) && (snd max =? 0)) then
    (i, if negb (fst max =? 0) || negb (snd max =? 0)
        then map_insert (fst max) (snd max) result else result)
  else acc.

Definition merge_ranges (m : range_map) : range_map :=
  let '(max, result) := fold_left merge_step m ((0, 0), []) in
  map_insert (fst max) (snd max) result.

Definition merge : RF unit :=
  scoped_lock
    (s ← st_get;
     st_modify (set_ranges (merge_ranges (m_ranges s))) ;;
     st_modify (set_need_merge false)).

(** [if (m_need_merge) merge();]. *)
Definition merge_if_needed : RF unit :=
  s ← st_get; if m_need_merge s then merge else mret ().

(** *** Inverting *)

Fixpoint inverse_loop (first : bool) (point : Z) (reverse_map m : range_map) : Z * range_map :=
  match m with
  | [] => (point, reverse_map)
  | i :: m' =>
      if first then
        if negb (fst i =? 0)
        then inverse_loop false (snd i) (map_insert 0 (fst i) reverse_map) m'
        else inverse_loop false (snd i) reverse_map m'
      else inverse_loop false (snd i) (map_insert point (fst i) reverse_map) m'
  end.

Definition inverse_ranges (size : Z) (m : range_map) : range_map :=
  let '(point, reverse_map) := inverse_loop true 0 [] m in
  if negb (point =? size) || (Z.of_nat (length m) =? 0)
  then map_insert point size reverse_map else reverse_map.

Definition inverse_impl : RF range_map :=
  merge_if_needed ;;
  s ← st_get; mret (inverse_ranges (m_size s) (m_ranges s)).

Definition inverse : RF rangefield :=
  scoped_lock
    (m ← inverse_impl;
     s ← st_get; mret (Rangefield (m_need_merge s) (m_size s) m false)).

(** *** Queries and updates *)

Definition reset (size : Z) : RF unit :=
  scoped_lock (st_modify (fun s => Rangefield false size [] (m_locked s))).

Definition is_full : RF bool :=
  merge_if_needed ;;
  scoped_lock
    (s ← st_get;
     mret match m_ranges s with
          | [i] => (fst i =? 0) && (snd i =? m_size s)
          | _ => false
          end).

Definition range_size : RF Z :=
  scoped_lock
    (s ← st_get;
     mret (fold_left (fun size i => int64 (size + (snd i - fst i))) (m_ranges s) 0)).

(** The loop of [get_range]; [left] is never written. *)
Fixpoint get_range_loop (l r : Z) (m : range_map) : option Z :=
  match m with
  | [] => None
  | i :: m' =>
      if fst i <=? l then
        if r <=? snd i then Some r
        else if (fst i <? r) && (l <? snd i) then Some (snd i)
        else get_range_loop l r m'
      else get_range_loop l r m'
  end.

(** The loop of [out_space] over the gaps. *)
Fixpoint out_space_loop (offset : Z) (inv : range_map) : option range :=
  match inv with
  | [] => None
  | i :: inv' =>
      if fst i <=? offset then
        if offset <? snd i then Some (Range offset (snd i)) else out_space_loop offset inv'
      else Some (Range (fst i) (snd i))
  end.

(** [out_space(offset, left, right)]: [None] for [false]. *)
Definition out_space_from (offset : Z) : RF (option range) :=
  merge_if_needed ;;
  scoped_lock
    (inv ← inverse_impl;
     mret match inv with
          | [] => None
          | i :: _ =>
              match out_space_loop offset inv with
              | Some r => Some r
              | None => Some (Range (fst i) (snd i))
              end
          end).

Definition out_space : RF (option range) := merge_if_needed ;; out_space_from 0.

Section Asserts.
Variable asserts : bool.

Definition boost_assert (c : bool) : RF unit :=
  if asserts && negb c then st_fail AssertFailed else mret ().

(** The argument check of [update], [check_range] and [get_range]. *)
Definition assert_range (l r : Z) : RF unit :=
  s ← st_get; boost_assert (((0 <=? l) && (l <? r)) && (r <=? m_size s)).

Definition update (l r : Z) : RF bool :=
  assert_range l r ;;
  scoped_lock
    (s ← st_get;
     if ((l <? 0) || (m_size s <? r)) || (r <=? l) then mret false
     else
       st_modify (set_ranges (insert_or_assign l r (m_ranges s))) ;;
       st_modify (set_need_merge true) ;;
       mret true).

Definition check_range (l r : Z) : RF bool :=
  assert_range l r ;;
  merge_if_needed ;;
  scoped_lock
    (s ← st_get;
     mret (existsb (fun i => (fst i <=? l) && (r <=? snd i)) (m_ranges s))).

(** [get_range(left, right)]: the new value of [right], or [None] for [false]. *)
Definition get_range (l r : Z) : RF (option Z) :=
  assert_range l r ;;
  merge_if_needed ;;
  scoped_lock (s ← st_get; mret (get_range_loop l r (m_ranges s))).

(** *** Bitmaps *)

Section Bitmap.
Context {T : Type} `{BitMap T}.

(** The number of pieces, an [int]. *)
Definition piece_num (size piece_size : Z) : Z :=
  int32 (Z.quot size piece_size + (if Z.rem size piece_size =? 0 then 0 else 1)).

(** The test of one piece: whether it is complete, and the iterator after it. *)
Definition piece_step (l r : Z) (it : range_map) : bool * range_map :=
  match it with
  | [] => (false, [])
  | i :: it' =>
      if (fst i <=? l) && (r <=? snd i) then (true, it)
      else if snd i <=? r then
        (match it' with
         | [] => false
         | j :: _ => (fst j <=? l) && (r <=? snd j)
         end, it')
      else (false, it)
  end.

(** The bounds of piece [i]; the products are of type [int]. *)
Definition piece_left (piece_size i : Z) : Z := int32 (i * piece_size).
Definition piece_right (size piece_size i : Z) : Z :=
  let r := int32 ((i + 1) * piece_size) in if size <? r then size else r.

(** [n] turns of the loop from piece [i]. *)
Fixpoint pieces_loop (size piece_size : Z) (n : nat) (i : Z) (it : range_map) (bf : T)
  : result fault T :=
  match n with
  | O => Ok bf
  | S n' =>
      let '(is_complete, it') := piece_step (piece_left piece_size i) (piece_right size piece_size i) it in
      if is_complete then
        match bm_set i bf with
        | Some bf' => pieces_loop size piece_size n' (i + 1) it' bf'
        | None => Err AssertFailed
        end
      else pieces_loop size piece_size n' (i + 1) it' bf
  end.

Definition range_to_bitfield (bf : T) (piece_size : Z) : RF T :=
  merge_if_needed ;;
  scoped_lock
    (if piece_size =? 0 then st_fail DivideByZero
     else
       s ← st_get;
       let n := piece_num (m_size s) piece_size in
       st_lift (pieces_loop (m_size s) piece_size (Z.to_nat n) 0 (m_ranges s) (bm_resize n false bf))).

(** The loop of [bitfield_to_range]: [left], [right] and [left_record]. *)
Fixpoint bits_loop (piece_size : Z) (index : Z) (l r : Z) (left_record : bool) (bs : list bool) : RF unit :=
  match bs with
  | [] =>
      if left_record
      then st_modify (fun s => set_ranges (insert_or_assign l (Z.min r (m_size s)) (m_ranges s)) s)
      else mret ()
  | b :: bs' =>
      s ← st_get;
      boost_assert (int32 (index * piece_size) <? m_size s) ;;
      if b && negb left_record then
        let l' := int32 (index * piece_size) in
        bits_loop piece_size (index + 1) l' (int64 (l' + piece_size)) true bs'
      else
        let r' := if b && left_record then int64 (r + piece_size) else r in
        if left_record && negb b then
          let r'' := Z.min r' (m_size s) in
          st_modify (set_ranges (insert_or_assign l r'' (m_ranges s))) ;;
          bits_loop piece_size (index + 1) l r'' false bs'
        else bits_loop piece_size (index + 1) l r' left_record bs'
  end.

Definition bitfield_to_range (bf : T) (piece_size : Z) : RF unit :=
  scoped_lock
    (st_modify (set_ranges []) ;;
     bits_loop piece_size 0 0 0 false (bm_walk bf) ;;
     st_modify (set_need_merge true)).
End Bitmap.
End Asserts.

(** ** Specification *)

(** What a range map means: the set of covered positions. *)
Definition covers (p : Z * Z) (x : Z) : bool := (fst p <=? x) && (x <? snd p).
Definition covered (m : range_map) (x : Z) : bool := existsb (fun p => covers p x) m.

(** An entry that [update] or [bitfield_to_range] makes, or the entry [(0, 0)]
    that [merge] leaves for an empty map. *)
Definition valid_entry (size : Z) (p : Z * Z) : Prop :=
  0 <= fst p < snd p /\ snd p <= size \/ p = (0, 0).

(** Merged ranges: in order, not empty, with a gap between any two. *)
Fixpoint separated (lo : Z) (m : range_map) : Prop :=
  match m with
  | [] => True
  | (l, r) :: m' => lo < l /\ l < r /\ separated r m'
  end.

(** The representation invariant: a merged map is separated, up to [(0, 0)]. *)
Record wf_rangefield (s : rangefield) : Prop := {
  wf_nonneg : 0 <= m_size s;
  wf_sorted : sorted (m_ranges s);
  wf_valid : Forall (valid_entry (m_size s)) (m_ranges s);
  wf_merged : m_need_merge s = false -> m_ranges s = [(0, 0)] \/ separated (-1) (m_ranges s);
  wf_unlocked : m_locked s = false
}.

(** ** Lemmas on coverage *)

(** Equations between coverages, by arithmetic on the first ranges. *)
Ltac cover_cases :=
  unfold covered; cbn [existsb];
  repeat match goal with
  | |- context [existsb ?f ?m] => let c := fresh "c" in generalize (existsb f m) as c; intros c
  end;
  unfold covers; cbn [fst snd];
  repeat match goal with c : bool |- _ => destruct c end; lia.

Lemma covered_app a b x : covered (a ++ b) x = covered a x || covered b x.
Proof. apply existsb_app. Qed.

Lemma covered_true m x : covered m x = true <-> exists p, In p m /\ fst p <= x < snd p.
Proof.
  unfold covered. rewrite existsb_exists. unfold covers.
  split; intros (p & Hp & Hx); exists p; (split; [exact Hp|]); lia.
Qed.

Lemma separated_weaken a b m : a <= b -> separated b m -> separated a m.
Proof. destruct m as [|[l r] m]; simpl; [auto|]. intros Hab (H1 & H2 & H3). repeat split; auto; lia. Qed.

Lemma separated_In lo m p : separated lo m -> In p m -> lo < fst p < snd p.
Proof.
  revert lo; induction m as [|[l r] m IH]; simpl; [tauto|]. intros lo (H1 & H2 & H3) [<-|Hp]; [simpl; lia|].
  specialize (IH r H3 Hp). lia.
Qed.

(** A position below the first range is not covered. *)
Lemma separated_low lo m x : separated lo m -> x <= lo -> covered m x = false.
Proof.
  intros S Hx. apply not_true_iff_false. rewrite covered_true. intros (p & Hp & Hpx).
  pose proof (separated_In _ _ _ S Hp). lia.
Qed.

Lemma separated_disjoint lo m p q :
  separated lo m -> In p m -> In q m -> p = q \/ snd p < fst q \/ snd q < fst p.
Proof.
  revert lo; induction m as [|[l r] m IH]; simpl; [tauto|]. intros lo (H1 & H2 & H3) [<-|Hp] [<-|Hq]; auto.
  - right; left. apply (separated_In _ _ _ H3 Hq).
  - right; right. apply (separated_In _ _ _ H3 Hp).
  - eapply IH; eauto.
Qed.

(** A covered interval lies inside one range. *)
Lemma separated_interval lo m l r :
  separated lo m -> l < r ->
  existsb (fun i => (fst i <=? l) && (r <=? snd i)) m = true <->
  (forall x, l <= x < r -> covered m x = true).
Proof.
  intros S Hlr. rewrite existsb_exists. split.
  - intros (p & Hp & E) x Hx. apply covered_true. exists p. split; [exact Hp|]. lia.
  - intros C. destruct (proj1 (covered_true m l) (C l ltac:(lia))) as (p & Hp & Hl).
    exists p. split; [exact Hp|]. destruct (r <=? snd p) eqn:E; [lia|]. exfalso.
    destruct (proj1 (covered_true m (snd p)) (C (snd p) ltac:(lia))) as (q & Hq & Hx).
    destruct (separated_disjoint _ _ _ _ S Hp Hq) as [->|[D|D]]; lia.
Qed.

(** ** Merging *)

Lemma merge_step_next a b res l r :
  0 <= a < b -> a < l -> l < r -> Forall (fun p : Z * Z => fst p < a) res ->
  merge_step ((a, b), res) (l, r) =
  if r <=? b then ((a, b), res)
  else if l <=? b then ((a, r), res)
  else ((l, r), res ++ [(a, b)]).
Proof.
  intros Hab Hl Hr F. unfold merge_step. cbn [fst snd].
  replace (a <=? l) with true by lia. replace (l <=? a) with false by lia. replace (a <? l) with true by lia.
  cbn [andb]. destruct (r <=? b) eqn:E1; [reflexivity|].
  destruct (l <=? b) eqn:E2; [reflexivity|]. replace (b <? l) with true by lia.
  cbn [orb]. replace (negb (a =? 0) || negb (b =? 0)) with true by lia.
  f_equal. apply insert_snoc. eapply Forall_impl; [exact F|]. intros p Hp. apply Z.ltb_lt, Hp.
Qed.

(** The loop after its first range: the ranges already done are kept, the rest
    becomes separated ranges from [a] on with the same coverage. *)
Lemma merge_loop size m a b res :
  0 <= a < b -> b <= size -> Forall (fun p : Z * Z => fst p < a) res ->
  sorted m -> above a m -> Forall (valid_entry size) m ->
  exists out,
    (let '(mx, result) := fold_left merge_step m ((a, b), res) in map_insert (fst mx) (snd mx) result)
      = res ++ out
    /\ separated (a - 1) out /\ Forall (valid_entry size) out
    /\ forall x, covered out x = covered ((a, b) :: m) x.
Proof.
  intros Hab Hb F S. revert a b res Hab Hb F. induction S as [|l r m A S IH]; intros a b res Hab Hb F Ab V.
  { exists [(a, b)]. cbn [fold_left]. rewrite insert_snoc by (eapply Forall_impl; [exact F|]; intros; now apply Z.ltb_lt).
    split; [reflexivity|]. split; [simpl; lia|]. split; [|reflexivity]. apply List.Forall_cons; [left; simpl; lia|constructor]. }
  inversion Ab as [|? ? La Ab']; subst. inversion V as [|? ? Vl V']; subst. simpl in La.
  assert (l < r /\ r <= size) as [Hlr Hr].
  { destruct Vl as [Vl|Vl]; [simpl in Vl; lia|]. injection Vl as -> ->. lia. }
  cbn [fold_left]. rewrite merge_step_next by (auto; lia).
  destruct (r <=? b) eqn:E1; [|destruct (l <=? b) eqn:E2].
  - destruct (IH a b res) as (out & E & H1 & H2 & H3); auto. exists out. repeat split; auto.
    intros x. rewrite H3. cover_cases.
  - destruct (IH a r res) as (out & E & H1 & H2 & H3); auto; try lia. exists out. repeat split; auto.
    intros x. rewrite H3. cover_cases.
  - destruct (IH l r (res ++ [(a, b)])) as (out & E & H1 & H2 & H3); auto; try lia.
    { apply Forall_app. split; [|repeat constructor; simpl; lia].
      eapply Forall_impl; [exact F|]. intros p Hp. simpl in *. lia. }
    exists ((a, b) :: out). rewrite E, <- app_assoc. repeat split; try lia.
    + apply (separated_weaken _ (l - 1)); [lia|exact H1].
    + constructor; [left; simpl; lia|exact H2].
    + intros x. simpl. now rewrite H3.
Qed.

Lemma covered_zero m x : covered ((0, 0) :: m) x = covered m x.
Proof. cover_cases. Qed.

Lemma merge_ranges_spec size m :
  sorted m -> Forall (valid_entry size) m ->
  (merge_ranges m = [(0, 0)] \/ separated (-1) (merge_ranges m))
  /\ Forall (valid_entry size) (merge_ranges m)
  /\ forall x, covered (merge_ranges m) x = covered m x.
Proof.
  intros S V. unfold merge_ranges.
  assert (forall m', sorted m' -> Forall (valid_entry size) m' -> Forall (fun p => p <> (0, 0)) m' ->
    let m1 := (let '(mx, result) := fold_left merge_step m' ((0, 0), []) in map_insert (fst mx) (snd mx) result) in
    (m1 = [(0, 0)] \/ separated (-1) m1) /\ Forall (valid_entry size) m1
    /\ forall x, covered m1 x = covered m' x) as K.
  { intros m' S' V' N. cbv zeta. destruct S' as [|l r m' A S'].
    - split; [now left|]. split; [repeat constructor; now right|]. exact (covered_zero []).
    - inversion V' as [|? ? Vl V'']; subst. inversion N as [|? ? Nl N']; subst.
      destruct Vl as [Vl|Vl]; [|congruence]. simpl in Vl. cbn [fold_left].
      assert (merge_step ((0, 0), []) (l, r) = ((l, r), [])) as ->.
      { unfold merge_step. cbn [fst snd]. split_ifs; zbool; reflexivity. }
      destruct (merge_loop size m' l r []) as (out & E & H1 & H2 & H3); auto; try lia.
      rewrite E. cbn [app]. split; [right; apply (separated_weaken _ (l - 1)); [lia|exact H1]|]. auto. }
  destruct S as [|l r m A S]; [now apply (K []); auto using sorted_nil|].
  inversion V as [|? ? Vl V']; subst.
  assert (0 <= l) as Hl by (destruct Vl as [Vl|Vl]; [simpl in Vl; lia|injection Vl as -> ->; lia]).
  assert (Forall (fun p => p <> (0, 0)) m) as N.
  { eapply Forall_impl; [exact A|]. intros [x y] Hp [= -> ->]. simpl in Hp. lia. }
  destruct Vl as [Vl|Vl].
  - apply K; [now constructor|auto|]. constructor; [|exact N]. intros [= -> ->]. simpl in Vl. lia.
  - injection Vl as -> ->. cbn [fold_left].
    change (merge_step ((0, 0), []) (0, 0)) with ((0, 0), @nil (Z * Z)).
    setoid_rewrite covered_zero. now apply K.
Qed.

(** ** Inverting *)

(** The gaps of separated ranges from [point] on. *)
Fixpoint gaps (size point : Z) (m : range_map) : range_map :=
  match m with
  | [] => if point =? size then [] else [(point, size)]
  | (l, r) :: m' => (point, l) :: gaps size r m'
  end.

Lemma inverse_loop_gaps size point rev m :
  Forall (fun p : Z * Z => fst p < point) rev -> separated point m ->
  (let '(p, rev') := inverse_loop false point rev m in
   if negb (p =? size) then map_insert p size rev' else rev') = rev ++ gaps size point m.
Proof.
  revert point rev. induction m as [|[l r] m IH]; intros point rev F S.
  - cbn. destruct (point =? size); cbn [negb]; [now rewrite app_nil_r|].
    apply insert_snoc. eapply Forall_impl; [exact F|]. intros. now apply Z.ltb_lt.
  - cbn. destruct S as (S1 & S2 & S3).
    rewrite insert_snoc by (eapply Forall_impl; [exact F|]; intros; now apply Z.ltb_lt).
    rewrite IH; [now rewrite <- app_assoc| |exact S3].
    apply Forall_app. split; [|apply List.Forall_cons; [simpl; lia|constructor]].
    eapply Forall_impl; [exact F|]. intros p Hp. simpl in *. lia.
Qed.

Lemma gaps_spec size point m :
  0 <= point <= size -> separated point m -> Forall (valid_entry size) m ->
  separated (point - 1) (gaps size point m) /\ Forall (valid_entry size) (gaps size point m)
  /\ forall x, covered (gaps size point m) x = (point <=? x) && (x <? size) && negb (covered m x).
Proof.
  revert point. induction m as [|[l r] m IH]; intros point Hp S V.
  - simpl. destruct (point =? size) eqn:E; zbool; simpl.
    + repeat split; auto. intros x. cover_cases.
    + split; [lia|]. split; [apply List.Forall_cons; [left; simpl; lia|constructor]|]. intros x. cover_cases.
  - destruct S as (S1 & S2 & S3). inversion V as [|? ? Vl V']; subst.
    assert (r <= size) as Hr by (destruct Vl as [Vl|Vl]; [simpl in Vl; lia|injection Vl as -> ->; lia]).
    destruct (IH r) as (I1 & I2 & I3); auto; [lia|]. cbn [gaps]. repeat split; try lia.
    + apply (separated_weaken _ (r - 1)); [lia|exact I1].
    + apply List.Forall_cons; [left; simpl; lia|exact I2].
    + intros x. change (covered ((?a, ?b) :: ?m) x) with (covers (a, b) x || covered m x). rewrite I3.
      destruct (Z.le_gt_cases x r) as [Hx|Hx].
      * destruct (Z.eq_dec x r) as [->|]; rewrite ?(separated_low _ _ _ S3) by lia; unfold covers; simpl; lia.
      * unfold covers; simpl. destruct (covered m x); lia.
Qed.

(** Merged maps. *)
Definition merged_map (m : range_map) : Prop := m = [(0, 0)] \/ separated (-1) m.

(** The shape of [inverse_ranges] on a merged map. *)
Lemma inverse_ranges_gaps size m :
  merged_map m -> Forall (valid_entry size) m ->
  inverse_ranges size m =
  match m with
  | [] => [(0, size)]
  | (l, r) :: m' => if l =? 0 then gaps size r m' else gaps size 0 m
  end.
Proof.
  intros [->|S] V; unfold inverse_ranges.
  { simpl. destruct size; reflexivity. }
  destruct m as [|[l r] m]; [cbn; rewrite orb_true_r; reflexivity|].
  replace (Z.of_nat (length ((l, r) :: m)) =? 0) with false by (symmetry; apply Z.eqb_neq; cbn [length]; lia).
  destruct S as (S1 & S2 & S3). cbn [inverse_loop fst snd]. destruct (l =? 0) eqn:E; cbn [negb].
  - pose proof (inverse_loop_gaps size r [] m (List.Forall_nil _) S3) as G.
    destruct (inverse_loop false r [] m). rewrite orb_false_r. exact G.
  - pose proof (inverse_loop_gaps size r [(0, l)] m) as G. cbn [map_insert].
    destruct (inverse_loop false r [(0, l)] m). rewrite orb_false_r. apply G; [|exact S3].
    apply List.Forall_cons; [simpl; lia|constructor].
Qed.

(** The inverse is the complement within [0, size). *)
Lemma inverse_ranges_spec size m :
  0 <= size -> merged_map m -> Forall (valid_entry size) m ->
  merged_map (inverse_ranges size m) /\ Forall (valid_entry size) (inverse_ranges size m)
  /\ (0 < size -> separated (-1) (inverse_ranges size m))
  /\ forall x, covered (inverse_ranges size m) x = (0 <=? x) && (x <? size) && negb (covered m x).
Proof.
  intros Hs M V. rewrite inverse_ranges_gaps by assumption.
  assert (0 < size -> separated (-1) [(0, size)]) as S0 by (simpl; lia).
  destruct M as [->|S].
  { change (if 0 =? 0 then gaps size 0 [] else _) with (if 0 =? size then [] else [(0, size)]).
    destruct (Z.eq_dec size 0) as [->|]; [cbn|replace (0 =? size) with false by lia].
    - repeat split; auto; [now right|]. intros x. cover_cases.
    - repeat split; auto; [right; apply S0; lia| |intros x; cover_cases].
      apply List.Forall_cons; [left; simpl; lia|constructor]. }
  destruct m as [|[l r] m].
  { split; [|split; [apply List.Forall_cons; [|constructor]|split; [exact S0|intros x; cover_cases]]].
    - destruct (Z.eq_dec size 0) as [->|]; [now left|right; apply S0; lia].
    - destruct (Z.eq_dec size 0) as [->|]; [now right|left; simpl; lia]. }
  pose proof S as (S1 & S2 & S3). inversion V as [|? ? Vl V']; subst.
  assert (r <= size) as Hr by (destruct Vl as [Vl|Vl]; [simpl in Vl; lia|injection Vl as -> ->; lia]).
  destruct (l =? 0) eqn:E; zbool.
  - subst. destruct (gaps_spec size r m) as (G1 & G2 & G3); auto; [lia|].
    assert (separated (-1) (gaps size r m)) as G4 by (apply (separated_weaken _ (r - 1)); [lia|exact G1]).
    repeat split; auto; [now right|]. intros x. rewrite G3. cover_cases.
  - destruct (gaps_spec size 0 ((l, r) :: m)) as (G1 & G2 & G3); auto; [lia|simpl; repeat split; auto; lia|].
    change (0 - 1) with (-1) in G1. split; [now right|]. split; [exact G2|]. split; [auto|].
    intros x. rewrite G3. reflexivity.
Qed.

(** ** Running the operations *)

(** The object after [if (m_need_merge) merge()]. *)
Definition normalise (s : rangefield) : rangefield :=
  if m_need_merge s
  then Rangefield false (m_size s) (merge_ranges (m_ranges s)) (m_locked s) else s.

Lemma merge_if_needed_run s :
  merge_if_needed s = if m_need_merge s && m_locked s then Err Deadlock else Ok ((), normalise s).
Proof. destruct s as [[] size m []]; reflexivity. Qed.

Lemma assert_range_run asserts l r s :
  assert_range asserts l r s =
  if asserts && negb ((0 <=? l) && (l <? r) && (r <=? m_size s)) then Err AssertFailed else Ok ((), s).
Proof. unfold assert_range, boost_assert. run. now destruct (asserts && _). Qed.

Lemma scoped_lock_run {A} (body : RF A) s :
  m_locked s = false ->
  scoped_lock body s =
  match body (set_locked true s) with Ok (a, s') => Ok (a, set_locked false s') | Err e => Err e end.
Proof. intros U. unfold scoped_lock, lock. run. rewrite U. reflexivity. Qed.

Lemma set_locked_id s : m_locked s = false -> set_locked false (set_locked true s) = s.
Proof. destruct s as [n z m k]. cbn. intros ->. reflexivity. Qed.

(** [update] on an unlocked object. *)
Lemma update_run asserts l r s :
  m_locked s = false ->
  update asserts l r s =
  if (0 <=? l) && (l <? r) && (r <=? m_size s)
  then Ok (true, Rangefield true (m_size s) (insert_or_assign l r (m_ranges s)) false)
  else if asserts then Err AssertFailed else Ok (false, s).
Proof.
  intros U. unfold update. run. rewrite assert_range_run.
  destruct ((0 <=? l) && (l <? r) && (r <=? m_size s)) eqn:E.
  - cbn [negb]. rewrite andb_false_r, scoped_lock_run by exact U.
    change (m_size (set_locked true s)) with (m_size s).
    replace ((l <? 0) || _ || _) with false by lia. reflexivity.
  - cbn [negb]. rewrite andb_true_r. destruct asserts; [reflexivity|]. rewrite scoped_lock_run by exact U.
    change (m_size (set_locked true s)) with (m_size s).
    replace ((l <? 0) || _ || _) with true by lia. run. now rewrite set_locked_id.
Qed.

Lemma sorted_separated lo m : separated lo m -> sorted m.
Proof.
  revert lo; induction m as [|[l r] m IH]; intros lo S; constructor.
  - apply List.Forall_forall. intros p Hp. destruct S as (_ & S2 & S3).
    pose proof (separated_In _ _ _ S3 Hp). simpl. lia.
  - destruct S as (_ & _ & S3). eapply IH, S3.
Qed.

Lemma sorted_merged m : merged_map m -> sorted m.
Proof. intros [->|S]; [repeat constructor|now apply sorted_separated in S]. Qed.

Lemma normalise_wf s :
  wf_rangefield s ->
  wf_rangefield (normalise s) /\ m_need_merge (normalise s) = false
  /\ m_size (normalise s) = m_size s /\ merged_map (m_ranges (normalise s))
  /\ forall x, covered (m_ranges (normalise s)) x = covered (m_ranges s) x.
Proof.
  intros [W1 W2 W3 W4 W5]. unfold normalise. destruct (m_need_merge s) eqn:E.
  - destruct (merge_ranges_spec _ _ W2 W3) as (M1 & M2 & M3). cbn.
    repeat split; auto. now apply sorted_merged.
  - specialize (W4 eq_refl). repeat split; auto.
Qed.

(** [existsb] on a merged map tells whether an interval is covered. *)
Lemma merged_interval m l r :
  merged_map m -> 0 <= l < r ->
  existsb (fun i => (fst i <=? l) && (r <=? snd i)) m = true <->
  (forall x, l <= x < r -> covered m x = true).
Proof.
  intros [->|S] Hlr; [|apply (separated_interval (-1)); [exact S|lia]].
  split; [cbn; lia|]. intros C. specialize (C l ltac:(lia)). rewrite covered_zero in C. discriminate C.
Qed.

Lemma is_full_merged m size :
  merged_map m -> 0 < size -> Forall (valid_entry size) m ->
  match m with [i] => (fst i =? 0) && (snd i =? size) | _ => false end = true <->
  (forall x, 0 <= x < size -> covered m x = true).
Proof.
  intros M Hs V. rewrite <- (merged_interval m 0 size M ltac:(lia)). rewrite existsb_exists. split.
  - destruct m as [|i [|]]; try discriminate. intros E. exists i. split; [now left|]. lia.
  - intros (p & Hp & E). destruct M as [->|S]; [simpl in Hp; destruct Hp as [<-|[]]; simpl in E; lia|].
    pose proof (proj1 (List.Forall_forall _ _) V p Hp) as Vp.
    assert (snd p = size) as Er by (destruct Vp as [Vp|Vp]; subst; simpl in *; lia).
    pose proof (separated_In _ _ _ S Hp) as Lp.
    destruct m as [|i m]; [destruct Hp|].
    assert (i = p) as ->.
    { destruct (separated_disjoint _ _ i p S ltac:(now left) Hp) as [D|[D|D]]; [exact D| |].
      - pose proof (separated_In _ _ i S ltac:(now left)). lia.
      - pose proof (proj1 (List.Forall_forall _ _) V i ltac:(now left)) as [Vi|Vi]; subst; simpl in *; lia. }
    destruct m as [|j m]; [lia|]. destruct p as [l r], j as [l' r']. exfalso.
    inversion V as [|? ? _ V']; subst. inversion V' as [|? ? Vj _]; subst.
    simpl in *. destruct Vj as [Vj|Vj]; [simpl in Vj|injection Vj as -> ->]; lia.
Qed.

(** The loop of [out_space] over separated gaps. *)
Lemma out_space_loop_spec offset lo m :
  separated lo m ->
  match out_space_loop offset m with
  | Some g => offset <= left g < right g
      /\ (forall x, left g <= x < right g -> covered m x = true) /\ covered m (right g) = false
      /\ forall x, offset <= x < left g -> covered m x = false
  | None => forall x, offset <= x -> covered m x = false
  end.
Proof.
  revert lo. induction m as [|[l r] m IH]; intros lo S; [now simpl|]. destruct S as (S1 & S2 & S3).
  cbn [out_space_loop fst snd].
  assert (forall x, covered ((l, r) :: m) x = covers (l, r) x || covered m x) as C by reflexivity.
  assert (forall y, y <= r -> covered m y = false) as L by (intros; now apply (separated_low r)).
  destruct (l <=? offset) eqn:E1; [destruct (offset <? r) eqn:E2|]; zbool.
  - cbn [left right]. repeat split; try lia; intros; rewrite C; unfold covers; cbn [fst snd];
      rewrite ?L by lia; lia.
  - specialize (IH r S3). destruct (out_space_loop offset m) as [g|].
    + destruct IH as (I1 & I2 & I3 & I4). repeat split; try lia; intros; rewrite C; unfold covers; cbn [fst snd].
      * rewrite I2 by lia. apply orb_true_r.
      * rewrite I3. lia.
      * rewrite I4 by lia. lia.
    + intros x Hx. rewrite C, IH by lia. unfold covers. simpl. lia.
  - cbn [left right]. repeat split; try lia; intros; rewrite C; unfold covers; cbn [fst snd];
      rewrite ?L by lia; lia.
Qed.

(** ** Properties *)

Lemma rangefield_new_wf size : 0 <= size -> wf_rangefield (rangefield_new size).
Proof. intros Hs. constructor; simpl; auto using sorted_nil. Qed.

(** Well-formedness of a concrete object. *)
Ltac solve_wf :=
  constructor; cbn;
  [ lia
  | repeat (apply sorted_cons || apply sorted_nil || (apply List.Forall_cons; [reflexivity|]) || apply List.Forall_nil)
  | repeat first [apply List.Forall_cons; [left; cbn; lia|] | apply List.Forall_nil]
  | intros; first [discriminate | right; cbn; lia]
  | reflexivity ].

(** C20: [merge] returns, keeps the set of covered positions, and leaves the
    ranges sorted, disjoint and separated by gaps (an empty map becomes the
    single empty range [(0, 0)]). *)
Theorem merge_correct s :
  wf_rangefield s -> exists s', merge s = Ok ((), s')
  /\ wf_rangefield s' /\ m_need_merge s' = false /\ m_size s' = m_size s
  /\ merged_map (m_ranges s')
  /\ forall x, covered (m_ranges s') x = covered (m_ranges s) x.
Proof.
  intros W. set (s1 := set_need_merge true s).
  assert (wf_rangefield s1) as W1 by (destruct W; constructor; auto; discriminate).
  destruct (normalise_wf s1 W1) as (N1 & N2 & N3 & N4 & N5).
  exists (normalise s1). split; [|auto]. pose proof (wf_unlocked _ W) as U.
  unfold s1. destruct s as [n z m k]. cbn in U. subst. reflexivity.
Qed.

Lemma merge_correct_witness :
  exists s', merge (Rangefield true 30 [(0, 5); (3, 10); (10, 12); (20, 30)] false) = Ok ((), s')
  /\ m_ranges s' = [(0, 12); (20, 30)].
Proof.
  destruct (merge_correct (Rangefield true 30 [(0, 5); (3, 10); (10, 12); (20, 30)] false)) as (s' & E & _);
    [solve_wf|].
  exists s'. split; [exact E|]. vm_compute in E. injection E as <-. reflexivity.
Defined.

(** The coverage after [m[l] = r]. *)
Lemma covered_assign l r m x :
  sorted m ->
  covered (insert_or_assign l r m) x =
  covers (l, r) x || covered (List.filter (fun p => negb (fst p =? l)) m) x.
Proof.
  induction 1 as [|k v m A S IH]; [reflexivity|]. cbn [insert_or_assign List.filter fst].
  assert (k <= l \/ List.filter (fun p => negb (fst p =? l)) m = m) as F.
  { destruct (Z.le_gt_cases k l); [now left|right]. apply forallb_filter_id, forallb_forall.
    intros p Hp. pose proof (above_In _ _ _ A Hp) as Q. simpl in Q. lia. }
  assert (forall a b m', covered ((a, b) :: m') x = covers (a, b) x || covered m' x) as C by reflexivity.
  cbn [key_ltb OrdKey_Z].
  destruct (l <? k) eqn:L1; [|destruct (k <? l) eqn:L2].
  - destruct F as [F|F]; [lia|]. rewrite F. replace (k =? l) with false by lia. reflexivity.
  - replace (k =? l) with false by lia. cbn [negb]. rewrite !C, IH.
    destruct (covers (k, v) x), (covers (l, r) x); reflexivity.
  - replace (k =? l) with true by lia. cbn [negb]. rewrite !C.
    assert (k = l) as -> by lia. do 2 f_equal. symmetry. apply forallb_filter_id, forallb_forall.
    intros p Hp. pose proof (above_In _ _ _ A Hp) as Q. simpl in Q. lia.
Qed.

Lemma wf_assign l r s :
  wf_rangefield s -> 0 <= l < r -> r <= m_size s ->
  wf_rangefield (Rangefield true (m_size s) (insert_or_assign l r (m_ranges s)) false).
Proof.
  intros [W1 W2 W3 W4 W5] Hl Hr. constructor; cbn; auto with avbot; [|discriminate].
  assert (valid_entry (m_size s) (l, r)) as Vn by (left; simpl; lia).
  clear - W3 Vn. induction W3 as [|[k v] m V V' IH]; cbn; [auto|]. split_ifs; auto.
Qed.

(** [update] accepts exactly the intervals [0 <= left < right <= size];
    it then covers [left, right) in addition to the ranges with another left
    bound and keeps the invariant.  Other arguments are refused, by the
    assertion or by the return value [false] with the object unchanged. *)
Theorem update_correct asserts l r s :
  wf_rangefield s ->
  if (0 <=? l) && (l <? r) && (r <=? m_size s)
  then exists s', update asserts l r s = Ok (true, s') /\ wf_rangefield s'
       /\ forall x, covered (m_ranges s') x =
            covers (l, r) x || covered (List.filter (fun p => negb (fst p =? l)) (m_ranges s)) x
  else update asserts l r s = if asserts then Err AssertFailed else Ok (false, s).
Proof.
  intros W. rewrite update_run by apply (wf_unlocked _ W).
  destruct ((0 <=? l) && (l <? r) && (r <=? m_size s)) eqn:E; [|reflexivity].
  eexists. split; [reflexivity|]. split; [apply wf_assign; auto; lia|].
  intros x. apply covered_assign, (wf_sorted _ W).
Qed.

Lemma update_correct_witness :
  wf_rangefield (rangefield_new 10)
  /\ update true 3 12 (rangefield_new 10) = Err AssertFailed
  /\ update false 3 12 (rangefield_new 10) = Ok (false, rangefield_new 10).
Proof.
  pose proof (rangefield_new_wf 10 ltac:(lia)) as W. split; [exact W|].
  split; [exact (update_correct true 3 12 _ W)|exact (update_correct false 3 12 _ W)].
Defined.

(** An interval that starts where a longer range starts replaces it: the
    positions after the new right bound are lost, although [update] promises
    that overlapping intervals may be added. *)
Theorem update_forgets asserts l r r' s :
  wf_rangefield s -> m_need_merge s = false -> In (l, r') (m_ranges s) -> l < r < r' ->
  covered (m_ranges s) r = true
  /\ exists s', update asserts l r s = Ok (true, s') /\ covered (m_ranges s') r = false.
Proof.
  intros W N Hin Hr. pose proof (proj1 (List.Forall_forall _ _) (wf_valid _ W) _ Hin) as V.
  destruct V as [V|V]; [|injection V as -> ->; lia]. cbn in V.
  split; [apply covered_true; exists (l, r'); split; [exact Hin|cbn; lia]|].
  rewrite update_run by apply (wf_unlocked _ W). replace ((0 <=? l) && _ && _) with true by lia.
  eexists. split; [reflexivity|]. cbn [m_ranges].
  rewrite covered_assign by apply (wf_sorted _ W). unfold covers at 1; cbn [fst snd].
    replace ((l <=? r) && (r <? r)) with false by lia. cbn [orb].
    apply not_true_iff_false. rewrite covered_true. intros (p & Hp & Hx). apply filter_In in Hp as [Hp Hne].
    destruct (wf_merged _ W N) as [E|S]; [rewrite E in Hin; destruct Hin as [[= <- <-]|[]]; lia|].
    destruct (separated_disjoint _ _ _ _ S Hp Hin) as [->|[D|D]]; cbn in *; lia.
Qed.

Lemma update_forgets_witness :
  exists s', update true 0 5 (Rangefield false 20 [(0, 10)] false) = Ok (true, s')
             /\ covered (m_ranges s') 5 = false.
Proof.
  apply (update_forgets true 0 5 10 (Rangefield false 20 [(0, 10)] false));
    [solve_wf|reflexivity|now left|lia].
Defined.

(** A query: merge if needed, then read under the lock. *)
Lemma query_run {A} (f : rangefield -> A) s :
  wf_rangefield s ->
  (merge_if_needed ;; scoped_lock (x ← st_get; mret (f x)) : RF A) s =
  Ok (f (set_locked true (normalise s)), normalise s).
Proof.
  intros W. destruct (normalise_wf s W) as (N1 & _). pose proof (wf_unlocked _ W) as U.
  pose proof (wf_unlocked _ N1) as U'. run. rewrite merge_if_needed_run, U, andb_false_r.
  rewrite scoped_lock_run by exact U'. run. now rewrite set_locked_id.
Qed.

(** [check_range] answers whether the whole interval is covered, and
    leaves the object merged. *)
Theorem check_range_correct asserts l r s :
  wf_rangefield s -> 0 <= l < r -> r <= m_size s ->
  exists b, check_range asserts l r s = Ok (b, normalise s)
  /\ (b = true <-> forall x, l <= x < r -> covered (m_ranges s) x = true).
Proof.
  intros W Hl Hr. destruct (normalise_wf s W) as (_ & _ & _ & M & C).
  eexists. split.
  - unfold check_range. run. rewrite assert_range_run.
    replace ((0 <=? l) && _ && _) with true by lia. cbn [negb]. rewrite andb_false_r.
    exact (query_run (fun s => existsb (fun i => (fst i <=? l) && (r <=? snd i)) (m_ranges s)) s W).
  - cbn [m_ranges set_locked]. rewrite merged_interval by (auto; lia). now setoid_rewrite C.
Qed.

Lemma check_range_correct_witness :
  exists b, check_range true 2 9 (Rangefield true 10 [(0, 5); (3, 10)] false)
            = Ok (b, normalise (Rangefield true 10 [(0, 5); (3, 10)] false)) /\ b = true.
Proof.
  destruct (check_range_correct true 2 9 (Rangefield true 10 [(0, 5); (3, 10)] false)) as (b & E & _);
    [solve_wf|lia|cbn; lia|].
  exists b. split; [exact E|]. vm_compute in E. now injection E as <-.
Defined.

Lemma get_range_loop_spec lo l r m :
  separated lo m -> l < r ->
  match get_range_loop l r m with
  | Some r' => l < r' <= r /\ (forall x, l <= x < r' -> covered m x = true) /\ (r' = r \/ covered m r' = false)
  | None => covered m l = false
  end.
Proof.
  revert lo. induction m as [|[a b] m IH]; intros lo S Hlr; [reflexivity|]. destruct S as (S1 & S2 & S3).
  assert (forall x, covered ((a, b) :: m) x = covers (a, b) x || covered m x) as C by reflexivity.
  assert (forall y, y <= b -> covered m y = false) as L by (intros; now apply (separated_low b)).
  specialize (IH b S3 Hlr). cbn [get_range_loop fst snd].
  assert (b <= l \/ l < a ->
    match get_range_loop l r m with
    | Some r' => l < r' <= r /\ (forall x, l <= x < r' -> covered ((a, b) :: m) x = true)
                 /\ (r' = r \/ covered ((a, b) :: m) r' = false)
    | None => covered ((a, b) :: m) l = false
    end) as K.
  { intros Hout. destruct (get_range_loop l r m) as [r'|].
    - destruct IH as (I1 & I2 & I3). split; [exact I1|].
      assert (b < l) as Hb by (specialize (I2 l ltac:(lia)); destruct (Z.le_gt_cases l b); [rewrite L in I2 by lia; discriminate|lia]).
      split; [intros x Hx; rewrite C, I2 by lia; apply orb_true_r|].
      destruct I3 as [I3|I3]; [now left|right]. rewrite C, I3. unfold covers. cbn [fst snd]. lia.
    - rewrite C, IH. unfold covers. cbn [fst snd]. lia. }
  destruct (a <=? l) eqn:E1; [destruct (r <=? b) eqn:E2; [|destruct ((a <? r) && (l <? b)) eqn:E3]|]; zbool;
    try (apply K; lia).
  - split; [lia|]. split; [|now left]. intros x Hx. rewrite C. unfold covers. cbn [fst snd]. lia.
  - split; [lia|]. split; [intros x Hx; rewrite C; unfold covers; cbn [fst snd]; lia|].
    right. rewrite C, L by lia. unfold covers. cbn [fst snd]. lia.
Qed.

(** [get_range] returns the longest covered interval that starts at
    [left], cut at [right]; it fails exactly when the position [left] itself is
    not covered, even if later positions of the interval are. *)
Theorem get_range_correct asserts l r s :
  wf_rangefield s -> 0 <= l < r -> r <= m_size s ->
  exists o, get_range asserts l r s = Ok (o, normalise s)
  /\ match o with
     | Some r' => l < r' <= r /\ (forall x, l <= x < r' -> covered (m_ranges s) x = true)
                  /\ (r' = r \/ covered (m_ranges s) r' = false)
     | None => covered (m_ranges s) l = false
     end.
Proof.
  intros W Hl Hr. destruct (normalise_wf s W) as (_ & _ & _ & M & C). eexists. split.
  - unfold get_range. run. rewrite assert_range_run.
    replace ((0 <=? l) && _ && _) with true by lia. cbn [negb]. rewrite andb_false_r.
    exact (query_run (fun s => get_range_loop l r (m_ranges s)) s W).
  - cbn [m_ranges set_locked]. destruct M as [E|S].
    + rewrite E in *. replace (get_range_loop l r [(0, 0)]) with (@None Z); [now rewrite <- C, covered_zero|].
      cbn [get_range_loop fst snd]. replace (r <=? 0) with false by lia.
      replace (l <? 0) with false by lia. rewrite andb_false_r. now destruct (0 <=? l).
    + pose proof (get_range_loop_spec (-1) l r _ S ltac:(lia)) as G.
      destruct (get_range_loop l r _); rewrite ?C in G; [|exact G].
      destruct G as (G1 & G2 & G3). split; [exact G1|]. split; [|exact G3].
      intros x Hx. rewrite <- C. now apply G2.
Qed.

Lemma get_range_correct_witness :
  exists o, get_range true 0 10 (Rangefield true 10 [(5, 10)] false)
            = Ok (o, normalise (Rangefield true 10 [(5, 10)] false)) /\ o = None.
Proof.
  destruct (get_range_correct true 0 10 (Rangefield true 10 [(5, 10)] false)) as (o & E & _);
    [solve_wf|lia|cbn; lia|].
  exists o. split; [exact E|]. vm_compute in E. now injection E as <-.
Defined.

(** [is_full] answers whether every position is covered. *)
Lemma is_full_run s :
  wf_rangefield s -> 0 < m_size s ->
  exists b, is_full s = Ok (b, normalise s)
  /\ (b = true <-> forall x, 0 <= x < m_size s -> covered (m_ranges s) x = true).
Proof.
  intros W Hs. destruct (normalise_wf s W) as (N & _ & Sz & M & C). eexists. split.
  - exact (query_run (fun s => match m_ranges s with
                               | [i] => (fst i =? 0) && (snd i =? m_size s)
                               | _ => false end) s W).
  - cbn [m_ranges m_size set_locked]. rewrite Sz. pose proof (wf_valid _ N) as V. rewrite Sz in V.
    rewrite (is_full_merged _ _ M Hs V). now setoid_rewrite C.
Qed.

Theorem is_full_correct s :
  wf_rangefield s -> 0 < m_size s ->
  exists b, is_full s = Ok (b, normalise s)
  /\ (b = true <-> forall x, 0 <= x < m_size s -> covered (m_ranges s) x = true).
Proof. apply is_full_run. Qed.

Lemma is_full_correct_witness :
  exists b, is_full (Rangefield true 10 [(0, 6); (3, 10)] false)
            = Ok (b, normalise (Rangefield true 10 [(0, 6); (3, 10)] false)) /\ b = true.
Proof.
  destruct (is_full_correct (Rangefield true 10 [(0, 6); (3, 10)] false)) as (b & E & _); [solve_wf|cbn; lia|].
  exists b. split; [exact E|]. vm_compute in E. now injection E as <-.
Defined.

(** [inverse_impl] under the lock. *)
Lemma inverse_impl_run s :
  inverse_impl s =
  if m_need_merge s && m_locked s then Err Deadlock
  else Ok (inverse_ranges (m_size s) (m_ranges (normalise s)), normalise s).
Proof.
  unfold inverse_impl. run. rewrite merge_if_needed_run. destruct (_ && _); [reflexivity|].
  unfold normalise. destruct (m_need_merge s); reflexivity.
Qed.

(** [inverse] on a merged object returns the complement of the covered
    set; on an object that still has to be merged it locks its mutex twice and
    never returns. *)
Theorem inverse_correct s :
  wf_rangefield s ->
  (m_need_merge s = true -> inverse s = Err Deadlock)
  /\ (m_need_merge s = false -> exists f, inverse s = Ok (f, s) /\ wf_rangefield f /\ m_size f = m_size s
      /\ forall x, covered (m_ranges f) x = (0 <=? x) && (x <? m_size s) && negb (covered (m_ranges s) x)).
Proof.
  intros W. pose proof (wf_unlocked _ W) as U. unfold inverse. rewrite scoped_lock_run by exact U. run.
  rewrite inverse_impl_run. change (m_need_merge (set_locked true s)) with (m_need_merge s).
  change (m_locked (set_locked true s)) with true. rewrite andb_true_r.
  split; intros N; rewrite N; [reflexivity|]. unfold normalise.
  change (m_need_merge (set_locked true s)) with (m_need_merge s). rewrite N. eexists.
  rewrite set_locked_id by exact U. split; [reflexivity|]. cbn.
  destruct (inverse_ranges_spec (m_size s) (m_ranges s) (wf_nonneg _ W) (wf_merged _ W N) (wf_valid _ W))
    as (I1 & I2 & _ & I4).
  split; [|auto]. constructor; cbn; auto; [apply (wf_nonneg _ W)|now apply sorted_merged].
Qed.

Lemma inverse_correct_witness :
  inverse (Rangefield true 10 [(2, 5)] false) = Err Deadlock
  /\ exists f, inverse (Rangefield false 10 [(2, 5)] false) = Ok (f, Rangefield false 10 [(2, 5)] false)
     /\ m_ranges f = [(0, 2); (5, 10)].
Proof.
  split.
  - apply (inverse_correct (Rangefield true 10 [(2, 5)] false)); [solve_wf|reflexivity].
  - destruct (inverse_correct (Rangefield false 10 [(2, 5)] false)) as [_ I]; [solve_wf|].
    destruct (I eq_refl) as (f & E & _). exists f. split; [exact E|]. vm_compute in E. now injection E as <-.
Defined.

(** The answer of [out_space] for the gaps [inv] of the set [cov]. *)
Definition pick_gap (offset : Z) (inv : range_map) : option range :=
  match inv with
  | [] => None
  | i :: _ =>
      match out_space_loop offset inv with
      | Some r => Some r
      | None => Some (Range (fst i) (snd i))
      end
  end.

(** What a gap handed out for [offset] is. *)
Definition good_gap (offset size : Z) (cov : Z -> bool) (g : range) : Prop :=
  0 <= left g < right g /\ right g <= size
  /\ (forall x, left g <= x < right g -> cov x = false)
  /\ (right g = size \/ cov (right g) = true)
  /\ (offset <= left g /\ (forall x, offset <= x < left g -> cov x = true)
      \/ (forall x, offset <= x < size -> cov x = true) /\ forall x, 0 <= x < left g -> cov x = true).

Lemma pick_gap_spec offset size inv cov :
  separated (-1) inv -> 0 <= offset ->
  (forall x, covered inv x = (0 <=? x) && (x <? size) && negb (cov x)) ->
  match pick_gap offset inv with
  | None => forall x, 0 <= x < size -> cov x = true
  | Some g => good_gap offset size cov g
  end.
Proof.
  intros S Ho I4. pose proof (out_space_loop_spec offset (-1) inv S) as O.
  assert (forall x, covered inv x = true -> 0 <= x < size /\ cov x = false) as I5.
  { intros x Hx. rewrite I4 in Hx. destruct (cov x); split; auto; lia. }
  assert (forall x, 0 <= x < size -> covered inv x = false -> cov x = true) as I6.
  { intros x Hx Hc. rewrite I4 in Hc. destruct (cov x); auto; lia. }
  clear I4. destruct inv as [|[l r] inv']; [intros x Hx; now apply I6|].
  unfold pick_gap, good_gap. destruct (out_space_loop offset ((l, r) :: inv')) as [g|].
  - destruct O as (O1 & O2 & O3 & O4).
    pose proof (I5 _ (O2 (left g) ltac:(lia))) as R1. pose proof (I5 _ (O2 (right g - 1) ltac:(lia))) as R2.
    split; [lia|]. split; [lia|]. split; [|split; [|left; split; [lia|]]].
    + intros x Hx. now apply I5, O2.
    + destruct (Z.eq_dec (right g) size); [now left|right]. apply I6; [lia|exact O3].
    + intros x Hx. apply I6; [lia|]. now apply O4.
  - cbn [fst snd left right]. destruct S as (S1 & S2 & S3).
    assert (forall x, l <= x < r -> covered ((l, r) :: inv') x = true) as K.
    { intros x Hx. apply covered_true. exists (l, r). split; [now left|exact Hx]. }
    pose proof (I5 _ (K l ltac:(lia))) as R1. pose proof (I5 _ (K (r - 1) ltac:(lia))) as R2.
    assert (forall x, x < l \/ x = r -> covered ((l, r) :: inv') x = false) as L.
    { intros x Hx. change (covered ((l, r) :: inv') x) with (covers (l, r) x || covered inv' x).
      rewrite (separated_low r) by (auto; lia). unfold covers. cbn [fst snd]. lia. }
    split; [lia|]. split; [lia|]. split; [|split; [|right; split]].
    + intros x Hx. now apply I5, K.
    + destruct (Z.eq_dec r size); [now left|right]. apply I6; [lia|]. apply L. now right.
    + intros x Hx. apply I6; [lia|]. apply O. lia.
    + intros x Hx. apply I6; [lia|]. apply L. lia.
Qed.

(** [out_space] on a well-formed object. *)
Lemma out_space_from_run offset s :
  wf_rangefield s ->
  out_space_from offset s =
  Ok (pick_gap offset (inverse_ranges (m_size s) (m_ranges (normalise s))), normalise s).
Proof.
  intros W. destruct (normalise_wf s W) as (N & Nm & Sz & _ & _).
  unfold out_space_from. run. rewrite merge_if_needed_run, (wf_unlocked _ W), andb_false_r.
  rewrite scoped_lock_run by apply (wf_unlocked _ N). rewrite inverse_impl_run.
  change (m_need_merge (set_locked true (normalise s))) with (m_need_merge (normalise s)).
  rewrite Nm. cbn [andb].
  replace (normalise (set_locked true (normalise s))) with (set_locked true (normalise s))
    by (unfold normalise at 2; cbn; now rewrite Nm).
  rewrite set_locked_id by apply (wf_unlocked _ N). cbn [m_size m_ranges set_locked]. now rewrite Sz.
Qed.

(** The gap that [out_space] picks. *)
Lemma out_space_gap offset s :
  wf_rangefield s -> 0 < m_size s -> 0 <= offset ->
  match pick_gap offset (inverse_ranges (m_size s) (m_ranges (normalise s))) with
  | None => forall x, 0 <= x < m_size s -> covered (m_ranges s) x = true
  | Some g => good_gap offset (m_size s) (covered (m_ranges s)) g
  end.
Proof.
  intros W Hs Ho. destruct (normalise_wf s W) as (N & _ & Sz & M & C).
  pose proof (wf_valid _ N) as V. rewrite Sz in V.
  destruct (inverse_ranges_spec (m_size s) _ ltac:(lia) M V) as (_ & _ & I3 & I4).
  apply pick_gap_spec; auto. intros x. now rewrite I4, C.
Qed.

(** [out_space] never deadlocks and hands out a gap: it fails only when
    everything is covered, and otherwise returns a non-empty interval of
    uncovered positions that ends at a covered position or at the end, starting
    at the first free position from [offset] on, or, when there is none, at
    the first free position of all. *)
Theorem out_space_correct offset s :
  wf_rangefield s -> 0 < m_size s -> 0 <= offset ->
  exists o, out_space_from offset s = Ok (o, normalise s)
  /\ match o with
     | None => forall x, 0 <= x < m_size s -> covered (m_ranges s) x = true
     | Some g => good_gap offset (m_size s) (covered (m_ranges s)) g
     end.
Proof.
  intros W Hs Ho. eexists. split; [now apply out_space_from_run|now apply out_space_gap].
Qed.

Lemma out_space_correct_witness :
  exists o, out_space_from 8 (Rangefield true 10 [(2, 5); (5, 10)] false)
            = Ok (o, normalise (Rangefield true 10 [(2, 5); (5, 10)] false)) /\ o = Some (Range 0 2).
Proof.
  destruct (out_space_correct 8 (Rangefield true 10 [(2, 5); (5, 10)] false)) as (o & E & _);
    [solve_wf|cbn; lia|lia|].
  exists o. split; [exact E|]. vm_compute in E. now injection E as <-.
Defined.

(** ** Bitmaps *)

Section BitmapFacts.
Context {T : Type} `{BitMap T}.
Variables (size piece_size : Z).
Hypothesis Hsize : 0 < size.
Hypothesis Hpiece : 0 < piece_size.
Hypothesis Hint : size + piece_size < 2 ^ 31.

(** Piece [i] is a piece of the file. *)
Definition is_piece (i : Z) : Prop := 0 <= i /\ i * piece_size < size.

Lemma piece_left_eq i : is_piece i -> piece_left piece_size i = i * piece_size.
Proof. intros [Hi1 Hi2]. unfold piece_left. apply int32_id. nia. Qed.

Lemma piece_right_eq i : is_piece i -> piece_right size piece_size i = Z.min ((i + 1) * piece_size) size.
Proof.
  intros [Hi1 Hi2]. unfold piece_right. rewrite int32_id by nia.
  destruct (size <? (i + 1) * piece_size) eqn:E; lia.
Qed.

Lemma piece_num_eq : piece_num size piece_size = (size + piece_size - 1) / piece_size.
Proof.
  unfold piece_num. rewrite Z.quot_div_nonneg, Z.rem_mod_nonneg by lia.
  pose proof (Z.div_mod size piece_size ltac:(lia)) as D.
  pose proof (Z.mod_pos_bound size piece_size ltac:(lia)) as B.
  assert (size / piece_size + (if size mod piece_size =? 0 then 0 else 1) =
          (size + piece_size - 1) / piece_size) as ->.
  { apply (Z.div_unique _ _ _ (if size mod piece_size =? 0 then piece_size - 1 else size mod piece_size - 1));
      destruct (size mod piece_size =? 0) eqn:E; zbool; nia. }
  apply int32_id. split; [apply (Z.le_trans _ 0); [lia|apply Z.div_pos; lia]|].
  apply Z.div_lt_upper_bound; nia.
Qed.

(** The pieces of the file are those below [piece_num]. *)
Lemma is_piece_num i : is_piece i <-> 0 <= i < piece_num size piece_size.
Proof.
  rewrite piece_num_eq. unfold is_piece.
  pose proof (Z.div_mod (size + piece_size - 1) piece_size ltac:(lia)).
  pose proof (Z.mod_pos_bound (size + piece_size - 1) piece_size ltac:(lia)).
  split; intros [Hi1 Hi2]; (split; [exact Hi1|]); nia.
Qed.

(** The tests of the loop without the bitmap. *)
Fixpoint piece_flags (n : nat) (i : Z) (it : range_map) : list bool :=
  match n with
  | O => []
  | S n' =>
      let '(c, it') := piece_step (piece_left piece_size i) (piece_right size piece_size i) it in
      c :: piece_flags n' (i + 1) it'
  end.

Lemma pieces_loop_flags n i it bf pre :
  bm_wf bf -> i = Z.of_nat (length pre) -> bm_bits bf = pre ++ replicate n false ->
  exists bf', pieces_loop size piece_size n i it bf = Ok bf' /\ bm_wf bf'
  /\ bm_bits bf' = pre ++ piece_flags n i it.
Proof.
  revert i it bf pre. induction n as [|n IH]; intros i it bf pre W Hi E; cbn [pieces_loop piece_flags].
  { exists bf. auto. }
  destruct (piece_step _ _ it) as [c it']. cbn [replicate] in E. rewrite cons_middle in E.
  assert (forall bf' c', bm_wf bf' -> bm_bits bf' = (pre ++ [c']) ++ replicate n false ->
    exists bf'', pieces_loop size piece_size n (i + 1) it' bf' = Ok bf'' /\ bm_wf bf''
    /\ bm_bits bf'' = pre ++ c' :: piece_flags n (i + 1) it') as K.
  { intros bf' c' W' E'. destruct (IH (i + 1) it' bf' (pre ++ [c']) W') as (bf'' & R & W'' & B);
      [rewrite length_app; simpl; lia|exact E'|]. exists bf''. rewrite B, <- app_assoc. auto. }
  destruct c; [|apply (K bf false W); now rewrite E, app_assoc].
  destruct (bm_set_ok i bf W) as (bf' & -> & W' & B').
  { rewrite E, length_app, Hi. simpl. lia. }
  apply (K bf' true W'). rewrite B', E, Hi, Nat2Z.id, app_assoc.
  rewrite insert_app_l by (rewrite length_app; simpl; lia). f_equal.
  rewrite insert_app_r_alt, Nat.sub_diag by lia. reflexivity.
Qed.

(** A piece is reported complete only if one range contains it. *)
Lemma piece_step_In l r it c it' :
  piece_step l r it = (c, it') ->
  incl it' it /\ (c = true -> exists p, In p it /\ fst p <= l /\ r <= snd p).
Proof.
  destruct it as [|i it]; cbn; [intros [= <- <-]; split; [apply incl_refl|discriminate]|].
  destruct ((fst i <=? l) && (r <=? snd i)) eqn:E1; [|destruct (snd i <=? r)].
  - intros [= <- <-]. split; [apply incl_refl|]. intros _. exists i. split; [now left|lia].
  - intros [= <- <-]. split; [apply incl_tl, incl_refl|]. destruct it as [|j it]; [discriminate|].
    intros Hj. exists j. split; [right; now left|lia].
  - intros [= <- <-]. split; [apply incl_refl|discriminate].
Qed.

Lemma piece_flags_sound n i it j :
  piece_flags n i it !! j = Some true ->
  exists p, In p it /\ fst p <= piece_left piece_size (i + Z.of_nat j)
            /\ piece_right size piece_size (i + Z.of_nat j) <= snd p.
Proof.
  revert i it j. induction n as [|n IH]; intros i it j; cbn [piece_flags]; [discriminate|].
  destruct (piece_step _ _ it) as [c it'] eqn:E. destruct (piece_step_In _ _ _ _ _ E) as [I C].
  destruct j as [|j]; cbn.
  - intros [= ->]. rewrite Z.add_0_r. now apply C.
  - intros F. destruct (IH _ _ _ F) as (p & Hp & Hl & Hr). exists p. split; [now apply I|].
    replace (i + Z.of_nat (S j)) with (i + 1 + Z.of_nat j) by lia. auto.
Qed.

Lemma multiples k i : k * piece_size <= i * piece_size \/ (i + 1) * piece_size <= k * piece_size.
Proof. destruct (Z.le_gt_cases k i); [left|right]; apply Z.mul_le_mono_nonneg_r; lia. Qed.

(** A range that begins and ends on piece boundaries. *)
Definition aligned (p : Z * Z) : Prop :=
  (exists k, fst p = k * piece_size) /\ (snd p = size \/ exists k, snd p = k * piece_size).

(** On aligned ranges every complete piece is found. *)
Lemma piece_flags_complete n i it :
  (forall j, i <= j < i + Z.of_nat n -> is_piece j) -> 0 <= i ->
  Forall aligned it -> separated (-1) it -> Forall (fun p => snd p <= size) it ->
  match it with [] => True | p :: _ => i * piece_size <= snd p end ->
  piece_flags n i it = map (fun j => covered it ((i + Z.of_nat j) * piece_size)) (seq 0 n).
Proof.
  revert i it. induction n as [|n IH]; intros i it Hj Hi A S R L; [reflexivity|].
  cbn [piece_flags seq map]. pose proof (Hj i ltac:(lia)) as Pi.
  rewrite piece_left_eq, piece_right_eq by exact Pi. destruct Pi as [_ Pi].
  assert (forall it', Forall aligned it' -> separated (-1) it' -> Forall (fun p => snd p <= size) it' ->
    match it' with [] => True | p :: _ => (i + 1) * piece_size <= snd p \/ n = O end ->
    (forall j, i < j -> covered it' (j * piece_size) = covered it (j * piece_size)) ->
    piece_flags n (i + 1) it' = map (fun j => covered it ((i + Z.of_nat j) * piece_size)) (seq 1 n)) as K.
  { intros it' A' S' R' L' E. rewrite <- seq_shift, map_map. destruct n as [|n']; [reflexivity|].
    rewrite IH; auto; try lia; [|intros j Hj'; apply Hj; lia|destruct it' as [|p it']; [exact I|lia]].
    apply map_ext. intros j. rewrite E by lia. f_equal. f_equal. lia. }
  destruct it as [|[a b] it]; cbn [piece_step].
  { rewrite <- (K []) by auto. reflexivity. }
  assert (i * piece_size = size \/ n = O \/ (i + 1) * piece_size <= size) as Next.
  { destruct n as [|n']; [auto|]. destruct (Hj (i + 1) ltac:(lia)). lia. }
  inversion A as [|? ? [[k Ea] Eb] A']; subst. inversion R as [|? ? Rb R']; subst.
  cbn [fst snd] in *. destruct S as (S1 & S2 & S3). rewrite Z.add_0_r.
  assert (covered ((a, b) :: it) (i * piece_size) = (a <=? i * piece_size) && (i * piece_size <? b)) as C.
  { change (covered ((a, b) :: it) (i * piece_size)) with (covers (a, b) (i * piece_size) || covered it (i * piece_size)).
    rewrite (separated_low b) by (auto; lia). apply orb_false_r. }
  assert (a <= i * piece_size \/ (i + 1) * piece_size <= a) as Ha by (rewrite Ea; apply multiples).
  assert (b <= i * piece_size \/ Z.min ((i + 1) * piece_size) size <= b) as Hb
    by (destruct Eb as [->|[k' ->]]; [lia|pose proof (multiples k' i); lia]).
  rewrite C. destruct ((a <=? i * piece_size) && (Z.min ((i + 1) * piece_size) size <=? b)) eqn:E1.
  - f_equal; [lia|]. apply K; auto; [simpl; auto|]. cbn [snd]. lia.
  - destruct (b <=? Z.min ((i + 1) * piece_size) size) eqn:E2.
    + assert (b = i * piece_size) as Eb' by nia.
      assert (Forall (fun p => (i + 1) * piece_size <= fst p < snd p) it) as F.
      { apply List.Forall_forall. intros p Hp. pose proof (separated_In _ _ _ S3 Hp) as Lp.
        destruct (proj1 (List.Forall_forall _ _) A' p Hp) as [[k1 E] _].
        pose proof (multiples k1 i). lia. }
      f_equal.
      * destruct it as [|j it']; [lia|]. inversion F; subst. lia.
      * apply K; auto; [apply (separated_weaken _ b); [lia|exact S3]| |].
        -- destruct it as [|j it']; [exact I|]. inversion F; subst. lia.
        -- intros j Hj'. change (covered ((a, b) :: it) ?x) with (covers (a, b) x || covered it x).
           unfold covers. cbn [fst snd]. replace (j * piece_size <? b) with false by nia.
           now rewrite andb_false_r.
    + f_equal; [nia|]. apply K; auto; [simpl; auto|]. cbn [snd]. lia.
Qed.

(** The positions that the bits [bs], from piece [index] on, stand for. *)
Definition bits_cover (index : Z) (bs : list bool) (x : Z) : bool :=
  (index * piece_size <=? x) && (x <? size) && default false (bs !! Z.to_nat (x / piece_size - index)).

Lemma piece_of x i : i * piece_size <= x < (i + 1) * piece_size -> x / piece_size = i.
Proof. intros Hx. symmetry. apply (Z.div_unique _ _ _ (x - i * piece_size)); lia. Qed.

Lemma bits_cover_cons i b bs x :
  bits_cover i (b :: bs) x =
  (b && (i * piece_size <=? x) && (x <? Z.min ((i + 1) * piece_size) size)) || bits_cover (i + 1) bs x.
Proof.
  unfold bits_cover. pose proof (Z.mul_add_distr_r i 1 piece_size) as D.
  destruct (Z.lt_ge_cases x (i * piece_size)) as [Hx|Hx].
  { replace (i * piece_size <=? x) with false by lia.
    replace ((i + 1) * piece_size <=? x) with false by lia. now rewrite andb_false_r. }
  destruct (Z.lt_ge_cases x ((i + 1) * piece_size)) as [Hx'|Hx'].
  - rewrite (piece_of x i) by lia. rewrite Z.sub_diag. change (default false ((b :: bs) !! Z.to_nat 0)) with b. destruct b; lia.
  - assert (i + 1 <= x / piece_size) as Hd by (apply Z.div_le_lower_bound; lia).
    replace (Z.to_nat (x / piece_size - i)) with (S (Z.to_nat (x / piece_size - (i + 1)))) by lia.
    cbn [lookup list_lookup]. destruct b; cbn [andb orb];
      replace (x <? Z.min ((i + 1) * piece_size) size) with false by lia; rewrite ?andb_false_r; cbn [orb];
      f_equal; lia.
Qed.

Lemma Forall_lt_le (a b : Z) (m : range_map) :
  a <= b -> Forall (fun p => fst p < a) m -> Forall (fun p => fst p < b) m.
Proof. intros Hab F. eapply Forall_impl; [exact F|]. intros p Hp. simpl in Hp. lia. Qed.

(** Appending one range at the right end. *)
Lemma assign_right l r m :
  sorted m -> Forall (valid_entry size) m -> Forall (fun p => fst p < l) m -> 0 <= l < r -> r <= size ->
  let m' := insert_or_assign l r m in
  sorted m' /\ Forall (valid_entry size) m'
  /\ Forall (fun p => fst p < r) m' /\ forall x, covered m' x = covered m x || covers (l, r) x.
Proof.
  intros S V F Hl Hr. cbv zeta. assert (Forall (fun p : Z * Z => key_ltb (fst p) l = true) m) as F'.
  { eapply Forall_impl; [exact F|]. intros p Hp. now apply Z.ltb_lt. }
  rewrite assign_snoc by exact F'. split; [now apply sorted_snoc|]. rewrite !Forall_app.
  split; [split; [exact V|apply List.Forall_cons; [left; simpl; lia|constructor]]|].
  split; [split; [apply (Forall_lt_le l); [lia|exact F]|apply List.Forall_cons; [simpl; lia|constructor]]|].
  intros x. rewrite covered_app. cbn. now rewrite orb_false_r.
Qed.

Variable asserts : bool.

(** The loop of [bitfield_to_range] adds the runs of one bits. *)
Lemma bits_loop_run bs : forall index l r (rec : bool) s,
  m_size s = size -> 0 <= index ->
  (forall j, index <= j < index + Z.of_nat (length bs) -> is_piece j) ->
  sorted (m_ranges s) -> Forall (valid_entry size) (m_ranges s) ->
  (if rec then 0 <= l < size /\ l < r /\ r = index * piece_size /\ r < size + piece_size else l = l) ->
  Forall (fun p => fst p < if rec then l else index * piece_size) (m_ranges s) ->
  exists m, bits_loop asserts piece_size index l r rec bs s = Ok ((), set_ranges m s)
  /\ sorted m /\ Forall (valid_entry size) m
  /\ forall x, covered m x =
       covered (m_ranges s) x || (rec && covers (l, Z.min r size) x) || bits_cover index bs x.
Proof.
  induction bs as [|b bs IH]; intros index l r rec s Sz Hi Hj So V Hrec F; cbn [bits_loop].
  { destruct rec.
    - destruct (assign_right l (Z.min r size) (m_ranges s)) as (A1 & A2 & _ & A4); auto; try lia.
      eexists. split; [unfold st_modify; now rewrite Sz|]. repeat split; auto. intros x. rewrite A4.
      unfold bits_cover. cbn. now rewrite andb_false_r, orb_false_r.
    - exists (m_ranges s). split; [destruct s; reflexivity|]. repeat split; auto.
      intros x. unfold bits_cover. cbn. now rewrite andb_false_r, !orb_false_r. }
  destruct (Hj index ltac:(cbn [length]; lia)) as [_ Pi].
  assert (int32 (index * piece_size) = index * piece_size) as Ew by (apply int32_id; nia).
  run. rewrite Ew. unfold boost_assert. rewrite Sz. replace (index * piece_size <? size) with true by lia.
  cbn [negb]. rewrite andb_false_r. run.
  assert (forall j, index + 1 <= j < index + 1 + Z.of_nat (length bs) -> is_piece j) as Hj'
    by (intros j Hj'; apply Hj; cbn [length]; lia).
  assert (forall x, -2 ^ 63 <= x < 2 ^ 63 -> int64 x = x) as W64 by (intros; apply wraps_id; lia).
  setoid_rewrite bits_cover_cons. destruct b, rec; cbn [andb negb].
  - destruct Hrec as (R1 & R2 & R3 & R4). rewrite W64 by nia.
    destruct (IH (index + 1) l (r + piece_size) true s) as (m & E & M1 & M2 & M3); auto; try lia.
    exists m. split; [exact E|]. repeat split; auto. intros x. rewrite M3. unfold covers. cbn [fst snd andb].
    destruct (covered (m_ranges s) x), (bits_cover (index + 1) bs x); lia.
  - rewrite W64 by nia.
    destruct (IH (index + 1) (index * piece_size) (index * piece_size + piece_size) true s)
      as (m & E & M1 & M2 & M3); auto; try lia.
    exists m. split; [exact E|]. repeat split; auto. intros x. rewrite M3. unfold covers. cbn [fst snd andb].
    replace (index * piece_size + piece_size) with ((index + 1) * piece_size) by lia.
    destruct (covered (m_ranges s) x), (bits_cover (index + 1) bs x); lia.
  - destruct Hrec as (R1 & R2 & R3 & R4).
    destruct (assign_right l (Z.min r size) (m_ranges s)) as (A1 & A2 & A3 & A4); auto; try lia.
    destruct (IH (index + 1) l (Z.min r size) false
                (set_ranges (insert_or_assign l (Z.min r size) (m_ranges s)) s))
      as (m & E & M1 & M2 & M3); auto; try lia.
    { cbn [set_ranges m_ranges]. apply (Forall_lt_le (Z.min r size)); [lia|exact A3]. }
    exists m. split; [exact E|]. repeat split; auto. intros x. rewrite M3. cbn [m_ranges set_ranges andb orb].
    rewrite A4. now rewrite orb_false_r.
  - destruct (IH (index + 1) l r false s) as (m & E & M1 & M2 & M3); auto; try lia.
    { apply (Forall_lt_le (index * piece_size)); [lia|exact F]. }
    exists m. split; [exact E|]. repeat split; auto.
Qed.
(** The edges of a separated range are edges of the covered set. *)
Lemma separated_edges m p :
  separated (-1) m -> In p m ->
  covered m (fst p) = true /\ covered m (fst p - 1) = false
  /\ covered m (snd p - 1) = true /\ covered m (snd p) = false.
Proof.
  intros S Hp. pose proof (separated_In _ _ _ S Hp) as L.
  assert (forall x, fst p <= x < snd p -> covered m x = true) as C
    by (intros x Hx; apply covered_true; exists p; auto).
  assert (forall x, x = fst p - 1 \/ x = snd p -> covered m x = false) as N.
  { intros x Hx. apply not_true_iff_false. rewrite covered_true. intros (q & Hq & Hxq).
    destruct (separated_disjoint _ _ _ _ S Hp Hq) as [->|[D|D]]; lia. }
  repeat split; auto; apply C; lia.
Qed.

(** Separated ranges that cover whole pieces are aligned. *)
Lemma aligned_cover bs m :
  separated (-1) m -> Forall (valid_entry size) m ->
  (forall x, covered m x = bits_cover 0 bs x) -> Forall aligned m.
Proof.
  intros S V C.
  assert (forall x, 0 < x < size -> x mod piece_size <> 0 -> covered m (x - 1) = covered m x) as K.
  { intros x Hx Hm. rewrite !C. unfold bits_cover. pose proof (Z.mod_pos_bound x piece_size ltac:(lia)).
    pose proof (Z.div_mod x piece_size ltac:(lia)) as D. rewrite (piece_of (x - 1) (x / piece_size)) by lia.
    f_equal. lia. }
  apply List.Forall_forall. intros p Hp. destruct (separated_edges m p S Hp) as (E1 & E2 & E3 & E4).
  pose proof (separated_In _ _ _ S Hp). pose proof (proj1 (List.Forall_forall _ _) V p Hp) as Vp.
  assert (snd p <= size) as Hr by (destruct Vp as [Vp| ->]; cbn; lia). split.
  - exists (fst p / piece_size). destruct (Z.eq_dec (fst p mod piece_size) 0) as [Z0|Z0].
    + pose proof (Z.div_mod (fst p) piece_size ltac:(lia)). lia.
    + destruct (Z.eq_dec (fst p) 0) as [Z1|Z1]; [rewrite Z1, Z.mod_0_l in Z0; lia|].
      rewrite K in E2 by (auto; lia). congruence.
  - destruct (Z.eq_dec (snd p) size) as [Z1|Z1]; [now left|right]. exists (snd p / piece_size).
    destruct (Z.eq_dec (snd p mod piece_size) 0) as [Z0|Z0].
    + pose proof (Z.div_mod (snd p) piece_size ltac:(lia)). lia.
    + rewrite K in E3 by (auto; lia). congruence.
Qed.

(** On a map without positions no piece is complete. *)
Lemma flags_empty n : forall i k it,
  it = [] \/ it = [(0, 0)] -> 0 <= i -> (forall j, i <= j < i + Z.of_nat n -> is_piece j) ->
  piece_flags n i it = map (fun j => covered [(0, 0)] (Z.of_nat j * piece_size)) (seq k n).
Proof.
  induction n as [|n IH]; intros i k it Hit Hi Hj; [reflexivity|].
  cbn [piece_flags seq map]. rewrite piece_left_eq, piece_right_eq by (apply Hj; lia).
  destruct (Hj i ltac:(lia)) as [_ P]. rewrite covered_zero.
  destruct Hit as [->| ->]; cbn [piece_step fst snd].
  - f_equal. apply IH; auto; [lia|]. intros j Hj'. apply Hj. lia.
  - replace ((0 <=? i * piece_size) && (_ <=? 0)) with false by lia.
    replace (0 <=? Z.min _ _) with true by nia. f_equal.
    apply IH; auto; [lia|]. intros j Hj'. apply Hj. lia.
Qed.

Lemma flags_of_bits bs m :
  merged_map m -> Forall (valid_entry size) m -> Z.of_nat (length bs) = piece_num size piece_size ->
  (forall x, covered m x = bits_cover 0 bs x) -> piece_flags (length bs) 0 m = bs.
Proof.
  intros M V Hn C.
  assert (map (fun j => covered m (Z.of_nat j * piece_size)) (seq 0 (length bs)) = bs) as E.
  { apply list_eq_same_length with (n := length bs); [reflexivity|now rewrite length_map, length_seq|].
    intros j a b Hj Ha Hb. change (map ?f ?l) with (f <$> l) in Ha.
    rewrite list_lookup_fmap, lookup_seq_lt in Ha by lia. cbn in Ha. injection Ha as <-.
    destruct (proj2 (is_piece_num (Z.of_nat j)) ltac:(lia)) as [_ P].
    rewrite C. unfold bits_cover. rewrite (piece_of _ (Z.of_nat j)), Z.sub_0_r, Nat2Z.id, Hb by lia. cbn [default].
    replace (0 * piece_size <=? _) with true by nia. replace (Z.of_nat j * piece_size <? size) with true by lia.
    reflexivity. }
  destruct M as [->|S].
  - rewrite <- E at 2. apply flags_empty; auto; [lia|]. intros j Hj. apply is_piece_num. lia.
  - rewrite (piece_flags_complete (length bs) 0 m); [exact E| |lia|now apply (aligned_cover bs)|exact S| |].
    + intros j Hj. apply is_piece_num. lia.
    + eapply Forall_impl; [exact V|]. intros p [Vp| ->]; cbn; lia.
    + destruct m as [|[l r] m']; [exact I|]. destruct S as (S1 & S2 & _). cbn. lia.
Qed.

(** Running [range_to_bitfield] on a fresh map. *)
Lemma range_to_bitfield_run bf s :
  wf_rangefield s -> m_size s = size -> bm_wf bf -> bm_bits bf = [] -> piece_num size piece_size < 2 ^ 30 ->
  exists bf', range_to_bitfield bf piece_size s = Ok (bf', normalise s) /\ bm_wf bf'
  /\ bm_bits bf' = piece_flags (Z.to_nat (piece_num size piece_size)) 0 (m_ranges (normalise s)).
Proof.
  intros W Sz Wb Eb Hn. destruct (normalise_wf s W) as (N & _ & Sz' & _).
  assert (0 <= piece_num size piece_size) as H0.
  { rewrite piece_num_eq. apply Z.div_pos; lia. }
  destruct (bm_resize_ok (piece_num size piece_size) false bf Wb ltac:(lia)) as [Wr Er].
  rewrite Eb, take_nil, app_nil_l, Nat.sub_0_r in Er.
  destruct (pieces_loop_flags (Z.to_nat (piece_num size piece_size)) 0 (m_ranges (normalise s))
              (bm_resize (piece_num size piece_size) false bf) [] Wr eq_refl Er) as (bf' & R & W' & B').
  exists bf'. split; [|auto]. unfold range_to_bitfield. run.
  rewrite merge_if_needed_run, (wf_unlocked _ W), andb_false_r.
  rewrite scoped_lock_run by apply (wf_unlocked _ N). replace (piece_size =? 0) with false by lia. run.
  cbn [m_size m_ranges set_locked]. rewrite Sz', Sz, R. now rewrite set_locked_id by apply (wf_unlocked _ N).
Qed.

(** Running [bitfield_to_range]. *)
Lemma bitfield_to_range_run bf s :
  wf_rangefield s -> m_size s = size -> bm_wf bf ->
  Z.of_nat (length (bm_bits bf)) = piece_num size piece_size ->
  exists s', bitfield_to_range asserts bf piece_size s = Ok ((), s') /\ wf_rangefield s' /\ m_size s' = size
  /\ forall x, covered (m_ranges s') x = bits_cover 0 (bm_bits bf) x.
Proof.
  intros W Sz Wb Hn. unfold bitfield_to_range. rewrite scoped_lock_run by apply (wf_unlocked _ W). run.
  rewrite bm_walk_ok by exact Wb.
  destruct (bits_loop_run (bm_bits bf) 0 0 0 false (set_ranges [] (set_locked true s)))
    as (m & E & M1 & M2 & M3); auto; try lia; [intros j Hj; apply is_piece_num; lia|apply sorted_nil|].
  rewrite E. eexists. split; [reflexivity|]. split; [|split; [exact Sz|]].
  - constructor; cbn; auto; [apply (wf_nonneg _ W)|now rewrite Sz|discriminate].
  - intros x. cbn [m_ranges set_need_merge set_locked set_ranges]. rewrite M3. reflexivity.
Qed.
End BitmapFacts.

(** The sizes for which the [int] arithmetic of the bitmap routines is exact. *)
Definition piece_bounds (size piece_size : Z) : Prop :=
  0 < size /\ 0 < piece_size /\ size + piece_size < 2 ^ 31 /\ piece_num size piece_size < 2 ^ 30.

(** The bits that [range_to_bitfield] computes. *)
Definition complete_pieces (piece_size : Z) (s : rangefield) : list bool :=
  piece_flags (m_size s) piece_size (Z.to_nat (piece_num (m_size s) piece_size)) 0 (m_ranges (normalise s)).

Lemma complete_pieces_length piece_size s :
  piece_bounds (m_size s) piece_size ->
  Z.of_nat (length (complete_pieces piece_size s)) = piece_num (m_size s) piece_size.
Proof.
  intros (B1 & B2 & B3 & B4).
  assert (0 <= piece_num (m_size s) piece_size) as H0 by (rewrite piece_num_eq by lia; apply Z.div_pos; lia).
  assert (forall n i it, length (piece_flags (m_size s) piece_size n i it) = n) as L.
  { induction n as [|n IH]; intros i it; cbn [piece_flags]; [reflexivity|]. destruct (piece_step _ _ it).
    cbn [length]. now rewrite IH. }
  unfold complete_pieces. rewrite L. lia.
Qed.

Lemma complete_pieces_sound piece_size s i x :
  wf_rangefield s -> piece_bounds (m_size s) piece_size -> complete_pieces piece_size s !! i = Some true ->
  Z.of_nat i * piece_size <= x < Z.min ((Z.of_nat i + 1) * piece_size) (m_size s) ->
  covered (m_ranges s) x = true.
Proof.
  intros W B Hi Hx. pose proof (complete_pieces_length _ _ B) as L.
  pose proof (lookup_lt_Some _ _ _ Hi) as Li. destruct B as (B1 & B2 & B3 & B4).
  destruct (piece_flags_sound _ _ _ _ _ _ Hi) as (p & Hp & Hl & Hr).
  assert (is_piece (m_size s) piece_size (0 + Z.of_nat i)) as P by (apply is_piece_num; lia).
  rewrite (piece_left_eq (m_size s)) in Hl by assumption. rewrite piece_right_eq in Hr by assumption.
  destruct (normalise_wf s W) as (_ & _ & _ & _ & C). rewrite <- C. apply covered_true. exists p. split; [exact Hp|lia].
Qed.

(** [range_to_bitfield] on a fresh map returns one bit per piece, and a
    piece whose bit is set is completely covered. *)
Theorem range_to_bitfield_sound {T} `{BitMap T} piece_size (bf : T) s :
  wf_rangefield s -> piece_bounds (m_size s) piece_size -> bm_wf bf -> bm_bits bf = [] ->
  exists bf', range_to_bitfield bf piece_size s = Ok (bf', normalise s) /\ bm_wf bf'
  /\ Z.of_nat (length (bm_bits bf')) = piece_num (m_size s) piece_size
  /\ forall i x, bm_bits bf' !! i = Some true ->
       Z.of_nat i * piece_size <= x < Z.min ((Z.of_nat i + 1) * piece_size) (m_size s) ->
       covered (m_ranges s) x = true.
Proof.
  intros W B Wb Eb. pose proof B as (B1 & B2 & B3 & B4).
  destruct (range_to_bitfield_run (m_size s) piece_size B1 B2 B3 bf s W eq_refl Wb Eb B4) as (bf' & R & W' & E').
  exists bf'. split; [exact R|]. split; [exact W'|]. rewrite E'.
  split; [now apply complete_pieces_length|]. intros i x Hi. now apply complete_pieces_sound.
Qed.

Lemma range_to_bitfield_sound_witness :
  exists bf', range_to_bitfield (H := bitfield_BitMap (fun _ => 170) ltac:(lia)) bitfield_new 10
                (Rangefield true 25 [(0, 10); (20, 25)] false)
              = Ok (bf', normalise (Rangefield true 25 [(0, 10); (20, 25)] false))
  /\ bits bf' = [true; false; true].
Proof.
  destruct (range_to_bitfield_sound (H := bitfield_BitMap (fun _ => 170) ltac:(lia)) 10 bitfield_new
              (Rangefield true 25 [(0, 10); (20, 25)] false)) as (bf' & E & _);
    [solve_wf|repeat split|apply bitfield_new_wf|reflexivity|].
  exists bf'. split; [exact E|]. vm_compute in E. injection E as <-. reflexivity.
Defined.

(** [range_to_bitfield] can miss complete pieces: it skips at most one
    range per piece, so after several small ranges inside one piece it falls
    behind.  Here the second piece [10, 20) is covered and its bit is not set. *)
Theorem range_to_bitfield_misses junk (Hj : forall n, 0 <= junk n < 256) :
  let s := Rangefield false 20 [(0, 1); (2, 3); (4, 5); (10, 20)] false in
  wf_rangefield s
  /\ (forall x, 10 <= x < 20 -> covered (m_ranges s) x = true)
  /\ exists bf, range_to_bitfield (H := bitfield_BitMap junk Hj) bitfield_new 10 s = Ok (bf, s)
     /\ bits bf = [false; false].
Proof.
  cbv zeta. split; [solve_wf|]. split.
  - intros x Hx. apply covered_true. exists (10, 20). split; [cbn; tauto|cbn; lia].
  - eexists. split; [reflexivity|].
    change (bits (bm_resize (BitMap := bitfield_BitMap junk Hj) 2 false bitfield_new) = [false; false]).
    pose proof (bm_resize_ok (BitMap := bitfield_BitMap junk Hj) 2 false bitfield_new) as R.
    destruct R as [_ E]; [apply bitfield_new_wf|lia|]. exact E.
Qed.

Lemma range_to_bitfield_misses_witness :
  exists bf, range_to_bitfield (H := bitfield_BitMap (fun _ => 7) ltac:(lia)) bitfield_new 10
               (Rangefield false 20 [(0, 1); (2, 3); (4, 5); (10, 20)] false)
             = Ok (bf, Rangefield false 20 [(0, 1); (2, 3); (4, 5); (10, 20)] false)
  /\ bits bf = [false; false].
Proof. apply (range_to_bitfield_misses (fun _ => 7)). Defined.

(** Restoring a download: [bitfield_to_range] makes the object cover
    exactly the pieces whose bit is set, whatever it held before, and
    [range_to_bitfield] then gives the same bits back. *)
Theorem bitfield_roundtrip {T} `{BitMap T} asserts piece_size (bf fresh : T) s :
  wf_rangefield s -> piece_bounds (m_size s) piece_size ->
  bm_wf bf -> Z.of_nat (length (bm_bits bf)) = piece_num (m_size s) piece_size ->
  bm_wf fresh -> bm_bits fresh = [] ->
  exists s' bf', bitfield_to_range asserts bf piece_size s = Ok ((), s') /\ wf_rangefield s'
  /\ (forall x, covered (m_ranges s') x =
        (0 <=? x) && (x <? m_size s) && default false (bm_bits bf !! Z.to_nat (x / piece_size)))
  /\ range_to_bitfield fresh piece_size s' = Ok (bf', normalise s') /\ bm_bits bf' = bm_bits bf.
Proof.
  intros W (B1 & B2 & B3 & B4) Wb Hn Wf Ef.
  destruct (bitfield_to_range_run (m_size s) piece_size B1 B2 B3 asserts bf s W eq_refl Wb Hn)
    as (s' & E & W' & Sz & C).
  destruct (range_to_bitfield_run (m_size s) piece_size B1 B2 B3 fresh s' W' Sz Wf Ef B4) as (bf' & R & _ & E').
  exists s', bf'. split; [exact E|]. split; [exact W'|]. split; [|split; [exact R|]].
  - intros x. rewrite C. unfold bits_cover. now rewrite Z.mul_0_l, Z.sub_0_r.
  - destruct (normalise_wf s' W') as (N & _ & Sz' & M & C').
    rewrite E', <- Hn, Nat2Z.id. apply flags_of_bits; auto.
    + pose proof (wf_valid _ N) as V. now rewrite Sz', Sz in V.
    + intros x. now rewrite C'.
Qed.

Lemma bitfield_roundtrip_witness :
  let bm := bitfield_BitMap (fun _ => 170) ltac:(lia) in
  exists s' bf',
    bitfield_to_range true (H := bm) (Bitfield (Some [160]) 3 true) 10 (rangefield_new 25) = Ok ((), s')
    /\ range_to_bitfield (H := bm) bitfield_new 10 s' = Ok (bf', normalise s') /\ bits bf' = [true; false; true].
Proof.
  intros bm.
  destruct (bitfield_roundtrip (H := bm) true 10 (Bitfield (Some [160]) 3 true) bitfield_new (rangefield_new 25))
    as (s' & bf' & E & _ & _ & R & B);
    [apply rangefield_new_wf; lia|repeat split|apply (wf_bitfield_check (Bitfield (Some [160]) 3 true)); reflexivity
    |reflexivity|apply bitfield_new_wf|reflexivity|].
  exists s', bf'. split; [exact E|]. split; [exact R|]. exact B.
Defined.
