(* ===== verification/Entry.v ===== *)
(** Generic values: class entry of avhttp/entry.hpp.

    The tagged union behind [m_type] and [m_data] is an inductive type with one
    constructor per [data_type].  A dictionary is a [std::map] (OrdMap.v).
    Accessors that throw return [result]; the accessors of a non-constant entry
    turn an undefined entry into an empty value of their type and therefore
    also return the entry.  The value of a freshly constructed integer is not
    initialised: it is the variable [junk_int]. *)

From S2P Require Import Prelude CLib OrdMap.

Set Warnings "-register-all".

Inductive entry : Type :=
| int_t (v : Z)
| string_t (v : cstring)
| list_t (v : list entry)
| dictionary_t (v : list (cstring * entry))
| undefined_t.

Inductive data_type : Type := Tint | Tstring | Tlist | Tdictionary | Tundefined.

Definition entry_type (e : entry) : data_type :=
  match e with
  | int_t _ => Tint
  | string_t _ => Tstring
  | list_t _ => Tlist
  | dictionary_t _ => Tdictionary
  | undefined_t => Tundefined
  end.

(** What the accessors throw. *)
Inductive entry_error : Type := invalid_entry_type | key_not_found (key : cstring).

(** ** Induction over entries *)

Section EntryInd.
Variable P : entry -> Prop.
Hypothesis Hint : forall v, P (int_t v).
Hypothesis Hstring : forall v, P (string_t v).
Hypothesis Hlist : forall l, Forall P l -> P (list_t l).
Hypothesis Hdict : forall m, Forall (fun p => P (snd p)) m -> P (dictionary_t m).
Hypothesis Hundef : P undefined_t.

Fixpoint entry_ind' (e : entry) : P e :=
  match e with
  | int_t v => Hint v
  | string_t v => Hstring v
  | list_t l =>
      Hlist l ((fix go l : Forall P l :=
                  match l with
                  | [] => @List.Forall_nil _ P
                  | x :: l' => @List.Forall_cons _ P x l' (entry_ind' x) (go l')
                  end) l)
  | dictionary_t m =>
      Hdict m ((fix go m : Forall (fun p => P (snd p)) m :=
                  match m with
                  | [] => @List.Forall_nil _ (fun p => P (snd p))
                  | x :: m' => @List.Forall_cons _ (fun p => P (snd p)) x m' (entry_ind' (snd x)) (go m')
                  end) m)
  | undefined_t => Hundef
  end.
End EntryInd.

(** ** Operations *)

(** [operator==]. *)
Fixpoint entry_eqb (a b : entry) {struct a} : bool :=
  match a, b with
  | int_t x, int_t y => x =? y
  | string_t x, string_t y => str_eqb x y
  | list_t x, list_t y =>
      (fix go x y :=
         match x, y with
         | [], [] => true
         | i :: x', j :: y' => entry_eqb i j && go x' y'
         | _, _ => false
         end) x y
  | dictionary_t x, dictionary_t y =>
      (fix go x y :=
         match x, y with
         | [], [] => true
         | i :: x', j :: y' => (str_eqb (fst i) (fst j) && entry_eqb (snd i) (snd j)) && go x' y'
         | _, _ => false
         end) x y
  | undefined_t, undefined_t => true
  | _, _ => false
  end.

Section Accessors.
Variable junk_int : Z.

Definition construct (t : data_type) : entry :=
  match t with
  | Tint => int_t junk_int
  | Tstring => string_t []
  | Tlist => list_t []
  | Tdictionary => dictionary_t []
  | Tundefined => undefined_t
  end.

(** The constant accessors. *)
Definition integer (e : entry) : result entry_error Z :=
  match e with int_t v => Ok v | _ => Err invalid_entry_type end.
Definition string (e : entry) : result entry_error cstring :=
  match e with string_t v => Ok v | _ => Err invalid_entry_type end.
Definition list_of (e : entry) : result entry_error (list entry) :=
  match e with list_t v => Ok v | _ => Err invalid_entry_type end.
Definition dict (e : entry) : result entry_error (list (cstring * entry)) :=
  match e with dictionary_t v => Ok v | _ => Err invalid_entry_type end.

(** [if (m_type == undefined_t) construct(t)] of the other accessors. *)
Definition define (t : data_type) (e : entry) : entry :=
  match e with undefined_t => construct t | _ => e end.

Definition integer_mut (e : entry) : result entry_error (Z * entry) :=
  let e := define Tint e in v ← integer e; mret (v, e).
Definition string_mut (e : entry) : result entry_error (cstring * entry) :=
  let e := define Tstring e in v ← string e; mret (v, e).
Definition list_mut (e : entry) : result entry_error (list entry * entry) :=
  let e := define Tlist e in v ← list_of e; mret (v, e).
Definition dict_mut (e : entry) : result entry_error (list (cstring * entry) * entry) :=
  let e := define Tdictionary e in v ← dict e; mret (v, e).

(** [operator[](key)]: the element, inserted undefined when it is missing, and
    the entry it is an element of. *)
Definition at_key (key : cstring) (e : entry) : result entry_error (entry * entry) :=
  r ← dict_mut e;
  let '(m, e) := r in
  mret match map_find key m with
       | Some v => (v, e)
       | None => (undefined_t, dictionary_t (map_insert key undefined_t m))
       end.

(** [e[key] = v]. *)
Definition assign_key (key : cstring) (v : entry) (e : entry) : result entry_error entry :=
  r ← at_key key e;
  m ← dict (snd r);
  mret (dictionary_t (insert_or_assign key v m)).

(** The constant [operator[](key)] with a C string. *)
Definition get_key (key : cstring) (e : entry) : result entry_error entry :=
  m ← dict e;
  match map_find key m with
  | Some v => Ok v
  | None => Err (key_not_found key)
  end.

(** With a [std::string] the key is cut at its first NUL. *)
Definition get_key_string (key : cstring) (e : entry) : result entry_error entry := get_key (c_str key) e.

Definition find_key (key : cstring) (e : entry) : result entry_error (option entry) :=
  m ← dict e; mret (map_find key m).
End Accessors.

(** ** Well-formed entries *)

(** Every dictionary is a map: its keys are in order. *)
Fixpoint sorted_entry (e : entry) : Prop :=
  match e with
  | list_t l => (fix go l := match l with [] => True | x :: l' => sorted_entry x /\ go l' end) l
  | dictionary_t m =>
      sorted m
      /\ (fix go m := match m with [] => True | x :: m' => sorted_entry (snd x) /\ go m' end) m
  | _ => True
  end.

Lemma sorted_list l : sorted_entry (list_t l) <-> Forall sorted_entry l.
Proof.
  cbn. induction l as [|x l IH]; [split; auto|]. rewrite IH. split; [intros [? ?]; auto|inversion 1; auto].
Qed.

Lemma sorted_dict m :
  sorted_entry (dictionary_t m) <-> sorted m /\ Forall (fun p => sorted_entry (snd p)) m.
Proof.
  cbn. apply and_iff_compat_l. induction m as [|x m IH]; [split; auto|]. rewrite IH.
  split; [intros [? ?]; auto|inversion 1; auto].
Qed.

(** ** Properties *)

(** [operator==] on entries is structural equality, whatever their types
    and nesting. *)
Theorem entry_eqb_eq a b : entry_eqb a b = true <-> a = b.
Proof.
  revert b. induction a as [v|v|l IH|m IH|] using entry_ind'; intros [w|w|k|k|]; cbn;
    try (split; [discriminate|congruence]).
  - rewrite Z.eqb_eq. split; congruence.
  - rewrite str_eqb_eq. split; congruence.
  - enough (forall k, (fix go x y := match x, y with
              | [], [] => true | i :: x', j :: y' => entry_eqb i j && go x' y' | _, _ => false end) l k = true <-> l = k)
      as K by (rewrite K; split; congruence).
    clear k. induction IH as [|x l Hx _ IH]; intros [|y k]; try (split; [discriminate|congruence]); [tauto|].
    rewrite andb_true_iff, Hx, IH. split; [intros [-> ->]; reflexivity|now intros [= -> ->]].
  - enough (forall k, (fix go x y := match x, y with
              | [], [] => true
              | i :: x', j :: y' => (str_eqb (fst i) (fst j) && entry_eqb (snd i) (snd j)) && go x' y'
              | _, _ => false end) m k = true <-> m = k) as K by (rewrite K; split; congruence).
    clear k. induction IH as [|[x e] m Hx _ IH]; intros [|[y f] k]; try (split; [discriminate|congruence]); [tauto|].
    cbn in *. rewrite !andb_true_iff, Hx, IH, str_eqb_eq.
    split; [intros [[-> ->] ->]; reflexivity|now intros [= -> -> ->]].
  - split; reflexivity.
Qed.

Lemma find_insert_absent {K V} `{OrdKey K} k (v : V) (m : list (K * V)) :
  map_find k m = None -> map_insert k v m = insert_or_assign k v m.
Proof.
  induction m as [|[k' v'] m IH]; cbn; [reflexivity|].
  destruct (key_ltb k k'); [reflexivity|]. destruct (key_ltb k' k); [|discriminate].
  intros F. now rewrite IH.
Qed.

Lemma assign_twice {K V} `{OrdKey K} k (v w : V) (m : list (K * V)) :
  insert_or_assign k v (insert_or_assign k w m) = insert_or_assign k v m.
Proof.
  induction m as [|[k' v'] m IH]; cbn; [now rewrite key_ltb_irrefl|].
  destruct (key_ltb k k') eqn:E1; cbn; [now rewrite key_ltb_irrefl|].
  destruct (key_ltb k' k) eqn:E2; cbn; [now rewrite E1, E2, IH|now rewrite key_ltb_irrefl].
Qed.

Lemma assign_key_dict j key v m :
  assign_key j key v (dictionary_t m) = Ok (dictionary_t (insert_or_assign key v m)).
Proof.
  unfold assign_key, at_key. cbn. destruct (map_find key m) eqn:F; [reflexivity|]. cbn.
  now rewrite find_insert_absent, assign_twice by exact F.
Qed.

(** [e[key] = v] on a dictionary, or on an undefined entry, stores [v]:
    it is found again under [key], every other key keeps its value and the keys
    stay in order; on any other entry it throws and nothing changes. *)
Theorem assign_key_correct j key v e :
  sorted_entry e ->
  match e with
  | dictionary_t _ | undefined_t =>
      exists e', assign_key j key v e = Ok e'
      /\ find_key key e' = Ok (Some v)
      /\ (forall key', key' <> key ->
            find_key key' e' = Ok (match e with dictionary_t m => map_find key' m | _ => None end))
      /\ (sorted_entry v -> sorted_entry e')
  | _ => assign_key j key v e = Err invalid_entry_type
  end.
Proof.
  intros S. destruct e as [x|x|x|m|]; try reflexivity.
  - rewrite assign_key_dict. apply sorted_dict in S as [S1 S2]. eexists. split; [reflexivity|]. unfold find_key. cbn -[str_ltb].
    rewrite find_assign by exact S1. rewrite key_ltb_irrefl. split; [reflexivity|]. split.
    + intros k Hk. f_equal. rewrite find_assign by exact S1.
      destruct (key_ltb k key) eqn:E1; [reflexivity|]. destruct (key_ltb key k) eqn:E2; [reflexivity|].
      now apply (key_ltb_total k key) in E1.
    + intros Sv. apply sorted_dict. split; [now apply sorted_assign|]. clear S1.
      induction S2 as [|[k' v'] m Hx F IH]; cbn -[key_ltb]; [auto|]. split_ifs; auto.
  - eexists. split; [reflexivity|]. unfold find_key. cbn -[str_ltb key_ltb].
    rewrite !key_ltb_irrefl. cbn -[key_ltb]. rewrite key_ltb_irrefl. split; [reflexivity|]. split.
    + intros k Hk. destruct (key_ltb k key) eqn:E1; [reflexivity|]. destruct (key_ltb key k) eqn:E2; [reflexivity|].
      now apply (key_ltb_total k key) in E1.
    + intros Sv. repeat split; auto. repeat constructor.
Qed.

Lemma assign_key_correct_witness :
  exists e', assign_key 0 ($"a") (int_t 1) (dictionary_t [($"b", int_t 2)]) = Ok e'
             /\ find_key ($"b") e' = Ok (Some (int_t 2)).
Proof.
  destruct (assign_key_correct 0 ($"a") (int_t 1) (dictionary_t [($"b", int_t 2)])) as (e' & E & _ & O & _).
  - apply sorted_dict. repeat constructor.
  - exists e'. split; [exact E|]. rewrite (O ($"b")) by discriminate. reflexivity.
Defined.
