(* ===== verification/Bencode.v ===== *)
(** Bencoding of entries: avhttp/bencode.hpp.

    An output iterator is the text written so far, an input iterator the text
    that is left.  Reading through an iterator that is at the end is the fault
    [ReadPastEnd]: the loops of [bdecode_recursive] over lists and dictionaries
    look at the next character before they test for the end.  The decoder runs
    on fuel; [OutOfFuel] is shown never to happen with the fuel [bdecode]
    gives.  [asserts] tells whether [BOOST_ASSERT] is active. *)

From S2P Require Import Prelude CLib OrdMap EscapeString Entry.

(** ** Writing *)

(** [for (; size > sign && val != 0;)]: the index and the characters from it on. *)
Fixpoint digits_loop (fuel : nat) (size sign val : Z) (buf : cstring) : Z * cstring * Z :=
  match fuel with
  | O => (size, buf, val)
  | S f =>
      if (sign <? size) && negb (val =? 0)
      then digits_loop f (size - 1) sign (Z.quot val 10)
             (chr (wraps 8 (48 + wraps 8 (Z.rem val 10))) :: buf)
      else (size, buf, val)
  end.

(** [integer_to_str(buf, size, val)]: the lowest index written and the text
    before the terminating NUL. *)
Definition integer_to_str (size val : Z) : Z * cstring :=
  let '(sign, val) := if val <? 0 then (1, int64 (- val)) else (0, val) in
  let size := size - 1 in
  let '(size, buf) := if val =? 0 then (size - 1, ["0"%char]) else (size, []) in
  let '(size, buf, _) := digits_loop (Z.to_nat size) size sign val buf in
  if sign =? 1 then (size - 1, "-"%char :: buf) else (size, buf).

(** [write_integer]: the characters up to the NUL, and their number. *)
Definition write_integer (val : Z) : cstring * Z :=
  let out := c_str (snd (integer_to_str 21 val)) in (out, Z.of_nat (length out)).

Definition write_string (val : cstring) : cstring * Z := (val, int32 (Z.of_nat (length val))).

Definition write_char (c : ascii) : cstring := [c].

(** Length and contents of a string. *)
Definition write_len_string (v : cstring) : cstring * Z :=
  let '(o1, r1) := write_integer (Z.of_nat (length v)) in
  let '(o2, r2) := write_string v in
  (o1 ++ write_char ":" ++ o2, int32 (int32 (r1 + r2) + 1)).

(** [bencode_recursive]: the text written and the returned count. *)
Fixpoint bencode_recursive (e : entry) : cstring * Z :=
  match e with
  | int_t v =>
      let '(o, r) := write_integer v in
      (write_char "i" ++ o ++ write_char "e", int32 (r + 2))
  | string_t v => write_len_string v
  | list_t l =>
      let '(o, r) :=
        (fix go l :=
           match l with
           | [] => ([], 0)
           | x :: l' =>
               let '(o1, r1) := bencode_recursive x in
               let '(o2, r2) := go l' in (o1 ++ o2, int32 (r1 + r2))
           end) l in
      (write_char "l" ++ o ++ write_char "e", int32 (r + 2))
  | dictionary_t m =>
      let '(o, r) :=
        (fix go m :=
           match m with
           | [] => ([], 0)
           | p :: m' =>
               let '(o0, r0) := write_len_string (fst p) in
               let '(o1, r1) := bencode_recursive (snd p) in
               let '(o2, r2) := go m' in (o0 ++ o1 ++ o2, int32 (int32 (r0 + r1) + r2))
           end) m in
      (write_char "d" ++ o ++ write_char "e", int32 (r + 2))
  | undefined_t => ([], 0)
  end.

Definition bencode (e : entry) : cstring * Z := bencode_recursive e.

(** ** Reading *)

Inductive fault : Type := ReadPastEnd | AssertFailed | OutOfFuel.

(** [read_until]: the text before the token and the rest from it on, [None]
    when [err] is set. *)
Fixpoint read_until (s : cstring) (end_token : ascii) : option (cstring * cstring) :=
  match s with
  | [] => None
  | c :: s' =>
      if c =c end_token then Some ([], s)
      else '(r, rest) ← read_until s' end_token; Some (c :: r, rest)
  end.

(** The loop of [read_string]. *)
Fixpoint read_chars (n : nat) (s : cstring) : option (cstring * cstring) :=
  match n with
  | O => Some ([], s)
  | S n' =>
      match s with
      | [] => None
      | c :: s' => '(r, rest) ← read_chars n' s'; Some (c :: r, rest)
      end
  end.

(** What [bdecode_recursive] leaves: the iterator, [ret] and [err]. *)
Record decoded : Type := Decoded { d_in : cstring; d_ret : entry; d_err : bool }.

Section Decode.
Variable asserts : bool.

Definition read_string (s : cstring) (len : Z) : result fault (option (cstring * cstring)) :=
  if asserts && (len <? 0) then Err AssertFailed else Ok (read_chars (Z.to_nat len) s).

(** The case of an integer, after the [i]. *)
Definition decode_int (s : cstring) (ret : entry) : decoded :=
  match read_until s "e" with
  | None => Decoded [] ret true
  | Some (val, rest) =>
      let '(v, e) := strtoll (c_str val) in
      Decoded (drop 1 rest) (int_t v) (length e =? length (c_str val))%nat
  end.

(** The case of a string. *)
Definition decode_string (s : cstring) (ret : entry) : result fault decoded :=
  match read_until s ":" with
  | None => Ok (Decoded [] ret true)
  | Some (len_s, rest) =>
      r ← read_string (drop 1 rest) (atoi (c_str len_s));
      mret match r with
           | Some (v, rest') => Decoded rest' (string_t v) false
           | None => Decoded [] (string_t (drop 1 rest)) true
           end
  end.

Fixpoint bdecode_recursive (fuel : nat) (s : cstring) (ret : entry) (depth : Z) {struct fuel} : result fault decoded :=
  match fuel with
  | O => Err OutOfFuel
  | S f =>
      if 100 <=? depth then Ok (Decoded s ret true)
      else match s with
           | [] => Ok (Decoded s ret true)
           | c :: s' =>
               if c =c "i" then Ok (decode_int s' ret)
               else if c =c "l" then decode_list f s' [] depth
               else if c =c "d" then decode_dict f s' [] depth
               else if is_digit c then decode_string s ret
               else Ok (Decoded s ret true)
           end
  end
(** [while (in[0] != 'e')] for a list; [acc] is the list so far. *)
with decode_list (fuel : nat) (s : cstring) (acc : list entry) (depth : Z) {struct fuel} : result fault decoded :=
  match fuel with
  | O => Err OutOfFuel
  | S f =>
      match s with
      | [] => Err ReadPastEnd
      | c :: s' =>
          if c =c "e" then Ok (Decoded s' (list_t acc) false)
          else
            r ← bdecode_recursive f s undefined_t (depth + 1);
            let acc' := acc ++ [d_ret r] in
            if d_err r then Ok (Decoded (d_in r) (list_t acc') true)
            else match d_in r with
                 | [] => Ok (Decoded [] (list_t acc') true)
                 | _ => decode_list f (d_in r) acc' depth
                 end
      end
  end
(** The same for a dictionary. *)
with decode_dict (fuel : nat) (s : cstring) (acc : list (cstring * entry)) (depth : Z) {struct fuel} : result fault decoded :=
  match fuel with
  | O => Err OutOfFuel
  | S f =>
      match s with
      | [] => Err ReadPastEnd
      | c :: s' =>
          if c =c "e" then Ok (Decoded s' (dictionary_t acc) false)
          else
            k ← bdecode_recursive f s undefined_t (depth + 1);
            match d_err k, d_ret k with
            | false, string_t key =>
                let old := default undefined_t (map_find key acc) in
                r ← bdecode_recursive f (d_in k) old (depth + 1);
                let acc' := insert_or_assign key (d_ret r) acc in
                if d_err r then Ok (Decoded (d_in r) (dictionary_t acc') true)
                else match d_in r with
                     | [] => Ok (Decoded [] (dictionary_t acc') true)
                     | _ => decode_dict f (d_in r) acc' depth
                     end
            | err, _ => Ok (Decoded (d_in k) (dictionary_t acc) err)
            end
      end
  end.

(** Enough for every input (see [bdecode_total]). *)
Definition decode_fuel (s : cstring) : nat := S (2 * length s).

(** [bdecode(start, end, len)]: the entry and the number of characters read. *)
Definition bdecode_len (s : cstring) : result fault (entry * Z) :=
  r ← bdecode_recursive (decode_fuel s) s undefined_t 0;
  mret (let '(Decoded rest e err) := r : decoded in
        (if err then undefined_t else e, int32 (Z.of_nat (length s - length rest)))).

Definition bdecode (s : cstring) : result fault entry :=
  r ← bdecode_len s; mret (fst r).
End Decode.

(** ** Integers *)

Lemma dec_digits_fuel k : forall k' n acc,
  (k <= k')%nat -> (0 < k)%nat -> 0 <= n < 10 ^ Z.of_nat k -> dec_digits k n acc = dec_digits k' n acc.
Proof.
  induction k as [|k IH]; intros [|k'] n acc Hk H0 Hn; try lia. cbn [dec_digits].
  destruct (n <? 10) eqn:E; [reflexivity|]. rewrite Nat2Z.inj_succ, Z.pow_succ_r in Hn by lia.
  destruct k as [|k]; [cbn in Hn; lia|]. apply IH; [lia|lia|]. zdiv.
Qed.

(** The loop writes the decimal digits and stays inside the buffer. *)
Lemma digits_loop_digits k : forall fuel size sign val buf,
  (k <= fuel)%nat -> (0 < k)%nat -> sign + Z.of_nat k <= size -> 0 < val < 10 ^ Z.of_nat k ->
  exists size', digits_loop fuel size sign val buf = (size', dec_digits k val buf, 0) /\ sign <= size' < size.
Proof.
  induction k as [|k IH]; intros [|fuel] size sign val buf Hk H0 Hs Hv; try lia.
  cbn [digits_loop dec_digits]. replace ((sign <? size) && negb (val =? 0)) with true by lia.
  rewrite Z.quot_div_nonneg, Z.rem_mod_nonneg by lia.
  rewrite (wraps_id 8 (val mod 10)), wraps_id by zdiv.
  rewrite Nat2Z.inj_succ, Z.pow_succ_r in Hv by lia.
  destruct (val <? 10) eqn:E.
  - replace (val / 10) with 0 by zdiv. exists (size - 1). split; [|lia].
    destruct fuel; cbn [digits_loop]; [reflexivity|]. now rewrite andb_false_r.
  - destruct k as [|k]; [cbn in Hv; lia|].
    destruct (IH fuel (size - 1) sign (val / 10) (chr (48 + val mod 10) :: buf)) as (size' & -> & B);
      [lia|lia|lia|zdiv|]. exists size'. split; [reflexivity|lia].
Qed.

Lemma integer_to_str_itoa v :
  INT64_MIN < v <= INT64_MAX ->
  snd (integer_to_str 21 v) = itoa v /\ 0 <= fst (integer_to_str 21 v).
Proof.
  unfold INT64_MIN, INT64_MAX. intros Hv. unfold integer_to_str, itoa. destruct (v <? 0) eqn:E.
  - rewrite (wraps_id 64) by lia. replace (- v =? 0) with false by lia.
    destruct (digits_loop_digits 19 20 20 1 (- v) []) as (size' & L & B); [lia|lia|lia|cbn; lia|].
    change (Z.to_nat (21 - 1)) with 20%nat. change (21 - 1) with 20. rewrite L. cbn [Z.eqb Pos.eqb fst snd].
    split; [|lia]. f_equal. apply dec_digits_fuel; [lia|lia|cbn; lia].
  - destruct (v =? 0) eqn:E0.
    + apply Z.eqb_eq in E0 as ->. split; [reflexivity|cbv; congruence].
    + destruct (digits_loop_digits 19 20 20 0 v []) as (size' & L & B); [lia|lia|lia|cbn; lia|].
      change (Z.to_nat (21 - 1)) with 20%nat. change (21 - 1) with 20. rewrite L. cbn [Z.eqb fst snd].
      split; [|lia]. apply dec_digits_fuel; [lia|lia|cbn; lia].
Qed.

Lemma write_integer_itoa v :
  INT64_MIN < v <= INT64_MAX -> write_integer v = (itoa v, Z.of_nat (length (itoa v))).
Proof.
  intros Hv. unfold write_integer. rewrite (proj1 (integer_to_str_itoa v Hv)).
  rewrite c_str_id; [reflexivity|]. now apply itoa_free.
Qed.

(** ** Reading back *)

Lemma read_until_app tok a b :
  free_of [tok] a -> read_until (a ++ tok :: b) tok = Some (a, tok :: b).
Proof.
  induction 1 as [|c a Hc _ IH]; cbn [app read_until]; [now rewrite Ascii.eqb_refl|].
  unfold mem_char in Hc. cbn in Hc. rewrite orb_false_r in Hc. rewrite Hc, IH. reflexivity.
Qed.

Lemma read_chars_app v rest : read_chars (length v) (v ++ rest) = Some (v, rest).
Proof. induction v as [|c v IH]; cbn; [reflexivity|]. now rewrite IH. Qed.

Lemma decode_int_itoa v rest ret :
  INT64_MIN <= v <= INT64_MAX -> decode_int (itoa v ++ "e"%char :: rest) ret = Decoded rest (int_t v) false.
Proof.
  intros Hv. unfold decode_int. rewrite read_until_app by now apply itoa_free.
  rewrite c_str_id by now apply itoa_free. pose proof (strtoll_itoa v [] Hv I) as S. rewrite app_nil_r in S.
  rewrite S. cbn [skipn]. f_equal. apply Nat.eqb_neq. intros E. symmetry in E. apply length_zero_iff_nil in E.
  unfold itoa in E. destruct (v <? 0); [discriminate|]. now apply dec_digits_nonnil in E; [|lia].
Qed.

Section RoundTrip.
Variable asserts : bool.

Lemma decode_string_len v rest ret :
  Z.of_nat (length v) < 2 ^ 31 ->
  decode_string asserts (fst (write_len_string v) ++ rest) ret = Ok (Decoded rest (string_t v) false).
Proof.
  intros Hv. unfold write_len_string. rewrite write_integer_itoa by (unfold INT64_MIN, INT64_MAX; lia).
  cbn [fst write_string write_char]. unfold decode_string. rewrite <- !app_assoc. change (write_char ":" ++ ?x) with (":"%char :: x).
  rewrite read_until_app by now apply itoa_free. rewrite c_str_id by now apply itoa_free.
  assert (atoi (itoa (Z.of_nat (length v))) = Z.of_nat (length v)) as A.
  { unfold atoi. pose proof (strtoll_itoa (Z.of_nat (length v)) []) as S. rewrite app_nil_r in S.
    rewrite S by (unfold INT64_MIN, INT64_MAX; lia || exact I). cbn [fst]. apply int32_id. lia. }
  rewrite A. unfold read_string. replace (Z.of_nat (length v) <? 0) with false by lia.
  rewrite andb_false_r, Nat2Z.id. cbn [skipn]. rewrite drop_0, read_chars_app. reflexivity.
Qed.

(** The head of an encoded string is a digit. *)
Lemma write_len_string_head v :
  Z.of_nat (length v) < 2 ^ 31 -> exists c t, fst (write_len_string v) = c :: t /\ isdigit c = true.
Proof.
  intros Hv. unfold write_len_string. rewrite write_integer_itoa by (unfold INT64_MIN, INT64_MAX; lia).
  destruct (itoa_nonneg_digits (Z.of_nat (length v)) ltac:(lia)) as [Hne D]. cbn [fst write_string].
  destruct (itoa (Z.of_nat (length v))) as [|c t]; [congruence|]. exists c, (t ++ write_char ":" ++ v).
  split; [reflexivity|]. now inversion D.
Qed.

Set Warnings "-register-all".

(** What can be encoded at nesting [depth] and read back: no undefined entry, no
    integer -2^63, strings below 2^31 characters, sorted dictionaries, less than
    100 levels. *)
Inductive encodable : Z -> entry -> Prop :=
| encodable_int depth v : depth < 100 -> INT64_MIN < v <= INT64_MAX -> encodable depth (int_t v)
| encodable_string depth v : depth < 100 -> Z.of_nat (length v) < 2 ^ 31 -> encodable depth (string_t v)
| encodable_list depth l : depth < 100 -> Forall (encodable (depth + 1)) l -> encodable depth (list_t l)
| encodable_dict depth m :
    depth < 100 -> sorted m ->
    Forall (fun p => encodable (depth + 1) (string_t (fst p)) /\ encodable (depth + 1) (snd p)) m ->
    encodable depth (dictionary_t m).

(** The text written for an entry, for the elements of a list, of a dictionary. *)
Definition text (e : entry) : cstring := fst (bencode_recursive e).
Definition list_text (l : list entry) : cstring := concat (map text l).
Definition dict_text (m : list (cstring * entry)) : cstring :=
  concat (map (fun p => fst (write_len_string (fst p)) ++ text (snd p)) m).

Lemma text_list l : text (list_t l) = "l"%char :: list_text l ++ ["e"%char].
Proof.
  unfold text. cbn [bencode_recursive].
  set (go := fix go l := match l with
             | [] => ([], 0)
             | x :: l' => let '(o1, r1) := bencode_recursive x in
                          let '(o2, r2) := go l' in (o1 ++ o2, int32 (r1 + r2)) end).
  assert (fst (go l) = list_text l) as E.
  { induction l as [|x l IH]; [reflexivity|]. cbn [go]. unfold list_text in *. cbn [map concat].
    rewrite <- IH. unfold text. destruct (bencode_recursive x), (go l). reflexivity. }
  rewrite <- E. destruct (go l). reflexivity.
Qed.

Lemma text_dict m : text (dictionary_t m) = "d"%char :: dict_text m ++ ["e"%char].
Proof.
  unfold text. cbn [bencode_recursive].
  set (go := fix go m := match m with
             | [] => ([], 0)
             | p :: m' => let '(o0, r0) := write_len_string (fst p) in
                          let '(o1, r1) := bencode_recursive (snd p) in
                          let '(o2, r2) := go m' in (o0 ++ o1 ++ o2, int32 (int32 (r0 + r1) + r2)) end).
  assert (fst (go m) = dict_text m) as E.
  { induction m as [|p m IH]; [reflexivity|]. cbn [go]. unfold dict_text in *. cbn [map concat].
    rewrite <- IH. unfold text. destruct (write_len_string (fst p)), (bencode_recursive (snd p)), (go m).
    cbn [fst]. now rewrite app_assoc. }
  rewrite <- E. destruct (go m). reflexivity.
Qed.

Lemma text_int v : INT64_MIN < v <= INT64_MAX -> text (int_t v) = "i"%char :: itoa v ++ ["e"%char].
Proof. intros Hv. unfold text. cbn [bencode_recursive]. rewrite write_integer_itoa by exact Hv. reflexivity. Qed.

(** An encoded entry starts with one of [i], [l], [d] or a digit. *)
Lemma text_head depth e :
  encodable depth e -> exists c t, text e = c :: t /\ (c =c "e") = false.
Proof.
  destruct 1 as [d v Hd Hv|d v Hd Hv|d l Hd Hl|d m Hd S Hm].
  - rewrite text_int by exact Hv. eauto.
  - destruct (write_len_string_head v Hv) as (c & t & E & D). exists c, t. split; [exact E|].
    apply Ascii.eqb_neq. intros ->. discriminate.
  - rewrite text_list. eauto.
  - rewrite text_dict. eauto.
Qed.

(** What the decoder does on the text of an entry, at any fuel above twice its
    length. *)
Definition decodes (depth : Z) (e : entry) : Prop :=
  forall rest ret n, (2 * length (text e) <= n)%nat ->
  bdecode_recursive asserts n (text e ++ rest) ret depth = Ok (Decoded rest e false).

Lemma decode_list_text depth l : forall rest acc n,
  Forall (encodable (depth + 1)) l -> Forall (decodes (depth + 1)) l ->
  (2 * length (list_text l) + 1 <= n)%nat ->
  decode_list asserts n (list_text l ++ "e"%char :: rest) acc depth = Ok (Decoded rest (list_t (acc ++ l)) false).
Proof.
  induction l as [|x l IH]; intros rest acc n E D Hn; (destruct n as [|n]; [lia|]); cbn [decode_list].
  { cbn. now rewrite app_nil_r. }
  inversion E as [|? ? Ex El]; subst. inversion D as [|? ? Dx Dl]; subst.
  unfold list_text in *. cbn [map concat] in *. rewrite length_app in Hn. rewrite <- app_assoc.
  destruct (text_head _ _ Ex) as (c & t & Et & Ec). assert (length (text x) <> 0)%nat by (rewrite Et; discriminate).
  specialize (Dx (concat (map text l) ++ "e"%char :: rest) undefined_t n ltac:(lia)).
  rewrite Et in *. cbn [app] in *. rewrite Ec, Dx. cbn [mbind result_bind d_err d_ret d_in].
  rewrite IH by (auto; cbn [length] in *; lia). rewrite <- app_assoc.
  destruct (concat (map text l) ++ "e"%char :: rest) eqn:F; [now apply app_eq_nil in F as [_ F]|reflexivity].
Qed.

(** A string at an allowed depth. *)
Lemma decode_string_text depth v rest ret n :
  encodable depth (string_t v) -> (0 < n)%nat ->
  bdecode_recursive asserts n (fst (write_len_string v) ++ rest) ret depth = Ok (Decoded rest (string_t v) false).
Proof.
  intros E Hn. inversion E as [|? ? Hd Hv| |]; subst. destruct n as [|n]; [lia|]. cbn [bdecode_recursive].
  replace (100 <=? depth) with false by lia.
  pose proof (decode_string_len v rest ret Hv) as S.
  destruct (write_len_string_head v Hv) as (c & t & Et & D). rewrite Et in *. cbn [app] in *.
  replace (c =c "i") with false by (symmetry; apply Ascii.eqb_neq; intros ->; discriminate).
  replace (c =c "l") with false by (symmetry; apply Ascii.eqb_neq; intros ->; discriminate).
  replace (c =c "d") with false by (symmetry; apply Ascii.eqb_neq; intros ->; discriminate).
  rewrite is_digit_isdigit, D. exact S.
Qed.

Lemma decode_dict_text depth m : forall rest acc n,
  sorted (acc ++ m) ->
  Forall (fun p => encodable (depth + 1) (string_t (fst p)) /\ encodable (depth + 1) (snd p)) m ->
  Forall (fun p => decodes (depth + 1) (snd p)) m ->
  (2 * length (dict_text m) + 1 <= n)%nat ->
  decode_dict asserts n (dict_text m ++ "e"%char :: rest) acc depth =
  Ok (Decoded rest (dictionary_t (acc ++ m)) false).
Proof.
  induction m as [|[k v] m IH]; intros rest acc n S E D Hn; (destruct n as [|n]; [lia|]); cbn [decode_dict].
  { cbn. now rewrite app_nil_r. }
  inversion E as [|? ? [Ek Ev] Em]; subst. inversion D as [|? ? Dv Dm]; subst. cbn [fst snd] in *.
  unfold dict_text in *. cbn [map concat fst snd] in *. rewrite !length_app in Hn. rewrite <- !app_assoc.
  set (rest' := concat (map _ m) ++ "e"%char :: rest) in *.
  assert (Z.of_nat (length k) < 2 ^ 31) as Hk by (now inversion Ek).
  destruct (write_len_string_head k Hk) as (c & t & Et & Dc).
  assert (length (fst (write_len_string k)) <> 0)%nat by (rewrite Et; discriminate).
  pose proof (decode_string_text _ k (text v ++ rest') undefined_t n Ek ltac:(lia)) as Sk.
  rewrite Et in *. cbn [app] in *.
  replace (c =c "e") with false by (symmetry; apply Ascii.eqb_neq; intros ->; discriminate).
  rewrite Sk. cbn [mbind result_bind d_err d_ret d_in]. cbn [length] in *.
  rewrite (Dv rest' _ n) by lia. cbn [mbind result_bind d_err d_ret d_in].
  rewrite assign_snoc by (apply (sorted_below acc k v m S)).
  unfold rest'. rewrite IH; [|now rewrite <- app_assoc|exact Em|exact Dm|lia]. rewrite <- app_assoc.
  destruct (concat _ ++ "e"%char :: rest) eqn:F; [now apply app_eq_nil in F as [_ F]|reflexivity].
Qed.

(** Every encodable entry is read back. *)
Lemma decodes_encodable e : forall depth, encodable depth e -> decodes depth e.
Proof.
  induction e as [v|v|l IH|m IH|] using entry_ind'; intros depth E rest ret n Hn; inversion E; subst.
  - rewrite text_int in * by assumption. cbn [length app] in *. destruct n as [|n]; [lia|]. cbn [bdecode_recursive].
    replace (100 <=? depth) with false by lia. rewrite Ascii.eqb_refl, <- app_assoc. cbn [app].
    now rewrite decode_int_itoa by lia.
  - apply decode_string_text; [exact E|].
    destruct (write_len_string_head v) as (c & t & Et & _); [assumption|].    change (text (string_t v)) with (fst (write_len_string v)) in Hn. rewrite Et in Hn. cbn [length] in Hn. lia.
  - rewrite text_list in *. cbn [length app] in *. rewrite length_app in Hn. cbn in Hn. destruct n as [|n]; [lia|].
    cbn [bdecode_recursive]. replace (100 <=? depth) with false by lia.
    change ("l"%char =c "i") with false. rewrite Ascii.eqb_refl, <- app_assoc. cbn [app].
    rewrite decode_list_text; [reflexivity|assumption| |lia].
    rewrite List.Forall_forall in *. auto.
  - rewrite text_dict in *. cbn [length app] in *. rewrite length_app in Hn. cbn in Hn. destruct n as [|n]; [lia|].
    cbn [bdecode_recursive]. replace (100 <=? depth) with false by lia.
    change ("d"%char =c "i") with false. change ("d"%char =c "l") with false.
    rewrite Ascii.eqb_refl, <- app_assoc. cbn [app].
    rewrite decode_dict_text; [reflexivity|assumption|assumption| |lia].
    rewrite List.Forall_forall in *. intros p Hp. apply IH; [exact Hp|]. now apply (H3 p Hp).
Qed.
End RoundTrip.

(** ** The returned count *)

(** The count is the length of the text, as long as it fits an [int]. *)
Definition counted (w : cstring * Z) : Prop :=
  Z.of_nat (length (fst w)) < 2 ^ 31 -> snd w = Z.of_nat (length (fst w)).

Lemma counted_len_string v : counted (write_len_string v).
Proof.
  unfold counted, write_len_string, write_integer, write_string, write_char. cbn [fst snd].
  rewrite !length_app. cbn [length]. generalize (length (c_str (snd (integer_to_str 21 (Z.of_nat (length v)))))).
  intros n H. rewrite (int32_id (Z.of_nat (length v))), (int32_id (Z.of_nat n + Z.of_nat (length v))), int32_id by lia.
  lia.
Qed.

Ltac count_cases := cbn [fst snd] in *; rewrite ?length_app in *; cbn [length write_char] in *; lia.

Lemma counted_bencode e : counted (bencode_recursive e).
Proof.
  induction e as [v|v|l IH|m IH|] using entry_ind'; cbn [bencode_recursive].
  - unfold counted, write_integer, write_char. cbn [fst snd]. rewrite !length_app. cbn [length].
    intros H. rewrite int32_id; lia.
  - apply counted_len_string.
  - match goal with |- context [?f l] => set (go := f) end.
    assert (counted (go l)) as C.
    { induction IH as [|x l Hx _ IH]; cbn [go]; [now unfold counted|]. unfold counted in *.
      destruct (bencode_recursive x) as [o1 r1], (go l) as [o2 r2]. intros H.
      rewrite int32_id; count_cases. }
    unfold counted in *. destruct (go l) as [o r]. intros H. rewrite int32_id; count_cases.
  - match goal with |- context [?f m] => set (go := f) end.
    assert (counted (go m)) as C.
    { induction IH as [|x m Hx _ IH]; cbn [go]; [now unfold counted|].
      pose proof (counted_len_string (fst x)) as C0. unfold counted in *.
      destruct (write_len_string (fst x)) as [o0 r0], (bencode_recursive (snd x)) as [o1 r1], (go m) as [o2 r2].
      intros H. rewrite (int32_id (r0 + r1)), int32_id; count_cases. }
    unfold counted in *. destruct (go m) as [o r]. intros H. rewrite int32_id; count_cases.
  - now unfold counted.
Qed.

(** ** Termination *)

Section Total.
Variable asserts : bool.

Lemma read_until_length s tok a b : read_until s tok = Some (a, b) -> (length a + length b = length s)%nat /\ b <> [].
Proof.
  revert a b. induction s as [|c s IH]; intros a b; cbn [read_until]; [discriminate|].
  destruct (c =c tok); [now intros [= <- <-]|].
  destruct (read_until s tok) as [[r rest]|]; [|discriminate]. cbn. intros [= <- <-].
  destruct (IH _ _ eq_refl) as [L N]. split; [cbn; lia|exact N].
Qed.

Lemma read_chars_length n s a b : read_chars n s = Some (a, b) -> (length b <= length s)%nat.
Proof.
  revert s a b. induction n as [|n IH]; intros s a b; cbn; [intros [= <- <-]; lia|].
  destruct s as [|c s]; [discriminate|]. destruct (read_chars n s) as [[r rest]|] eqn:E; [|discriminate].
  cbn. intros [= <- <-]. apply IH in E. cbn. lia.
Qed.

(** The result is no [OutOfFuel], and a success leaves less than [n] characters. *)
Definition progress (n : nat) (r : result fault decoded) : Prop :=
  match r with
  | Err e => e <> OutOfFuel
  | Ok d => d_err d = false -> (length (d_in d) < n)%nat
  end.

Lemma progress_int s ret : progress (S (length s)) (Ok (decode_int s ret)).
Proof.
  unfold progress, decode_int. destruct (read_until s "e") as [[a b]|] eqn:E; [|discriminate].
  apply read_until_length in E as [L _]. destruct (strtoll (c_str a)) as [v e]. cbn. intros _.
  rewrite length_drop. lia.
Qed.

Lemma progress_string s ret : progress (length s) (decode_string asserts s ret).
Proof.
  unfold progress, decode_string. destruct (read_until s ":") as [[a b]|] eqn:E; [|discriminate].
  apply read_until_length in E as [L N]. unfold read_string. destruct (asserts && _); [discriminate|].
  cbn [mbind result_bind mret result_ret].
  destruct (read_chars _ (drop 1 b)) as [[v rest]|] eqn:R; [|discriminate]. cbn. intros _.
  apply read_chars_length in R. rewrite length_drop in R. destruct b; [congruence|]. cbn in *. lia.
Qed.

Lemma bdecode_progress fuel :
  (forall s ret depth, (2 * length s + 1 <= fuel)%nat -> progress (length s) (bdecode_recursive asserts fuel s ret depth))
  /\ (forall s acc depth, (2 * length s + 2 <= fuel)%nat -> progress (length s) (decode_list asserts fuel s acc depth))
  /\ (forall s acc depth, (2 * length s + 2 <= fuel)%nat -> progress (length s) (decode_dict asserts fuel s acc depth)).
Proof.
  induction fuel as [|f (IH1 & IH2 & IH3)]; [repeat split; intros; lia|]. repeat split; intros s x depth Hf.
  - cbn [bdecode_recursive]. destruct (100 <=? depth); [now cbn|]. destruct s as [|c s]; [now cbn|].
    cbn [length] in *.
    destruct (c =c "i"); [apply progress_int|].
    assert (forall r, progress (length s) r -> progress (S (length s)) r) as W.
    { intros [d|e]; cbn; [|auto]. intros K H. specialize (K H). lia. }
    destruct (c =c "l"); [apply W, IH2; lia|]. destruct (c =c "d"); [apply W, IH3; lia|].
    destruct (is_digit c); [apply (progress_string (c :: s))|now cbn].
  - cbn [decode_list]. destruct s as [|c s]; [now cbn|]. destruct (c =c "e"); [cbn; lia|].
    specialize (IH1 (c :: s) undefined_t (depth + 1) ltac:(lia)).
    destruct (bdecode_recursive asserts f (c :: s) undefined_t (depth + 1)) as [[i e err]|e]; cbn in *; [|exact IH1].
    destruct err; [now cbn|]. specialize (IH1 eq_refl). destruct i as [|c' i]; [now cbn|].
    specialize (IH2 (c' :: i) (x ++ [e]) depth). cbn [length] in *.
    destruct (decode_list asserts f (c' :: i) (x ++ [e]) depth) as [d|e']; cbn in *; [|apply IH2; lia].
    intros Hd. specialize (IH2 ltac:(lia) Hd). lia.
  - cbn [decode_dict]. destruct s as [|c s]; [now cbn|]. destruct (c =c "e"); [cbn; lia|].
    pose proof (IH1 (c :: s) undefined_t (depth + 1) ltac:(lia)) as K1.
    destruct (bdecode_recursive asserts f (c :: s) undefined_t (depth + 1)) as [[i k err]|e]; cbn in *; [|exact K1].
    destruct err; [now cbn|]. specialize (K1 eq_refl). destruct k as [|key| | |]; try (now cbn).
    specialize (IH1 i (default undefined_t (map_find key x)) (depth + 1) ltac:(lia)).
    destruct (bdecode_recursive asserts f i _ (depth + 1)) as [[i' v err]|e]; cbn in *; [|exact IH1].
    destruct err; [now cbn|]. specialize (IH1 eq_refl). destruct i' as [|c' i']; [now cbn|].
    specialize (IH3 (c' :: i') (insert_or_assign key v x) depth). cbn [length] in *.
    destruct (decode_dict asserts f (c' :: i') _ depth) as [d|e']; cbn in *; [|apply IH3; lia].
    intros Hd. specialize (IH3 ltac:(lia) Hd). lia.
Qed.
End Total.

(** ** Properties *)

Lemma bdecode_recursive_text asserts e rest :
  encodable 0 e ->
  bdecode_recursive asserts (decode_fuel (text e ++ rest)) (text e ++ rest) undefined_t 0
  = Ok (Decoded rest e false).
Proof. intros E. apply (decodes_encodable asserts e 0 E). unfold decode_fuel. rewrite length_app. lia. Qed.

(** [bdecode] on the text of an entry, whatever follows. *)
Lemma bdecode_text asserts e rest : encodable 0 e -> bdecode asserts (text e ++ rest) = Ok e.
Proof. intros E. unfold bdecode, bdecode_len. now rewrite bdecode_recursive_text. Qed.

(** Reading back what was written: for every encodable entry, [bdecode]
    on the text of [bencode], followed by anything, returns the entry and
    the length of the text, which is also the count [bencode] returns. *)
Theorem bencode_roundtrip asserts e rest :
  encodable 0 e -> Z.of_nat (length (fst (bencode e) ++ rest)) < 2 ^ 31 ->
  bdecode_len asserts (fst (bencode e) ++ rest) = Ok (e, snd (bencode e))
  /\ snd (bencode e) = Z.of_nat (length (fst (bencode e))).
Proof.
  intros E L. rewrite length_app in L.
  assert (snd (bencode e) = Z.of_nat (length (fst (bencode e)))) as C by (apply counted_bencode; unfold bencode in L; lia).
  split; [|exact C]. unfold bdecode_len.
  assert (bdecode_recursive asserts (decode_fuel (fst (bencode e) ++ rest)) (fst (bencode e) ++ rest) undefined_t 0
          = Ok (Decoded rest e false)) as D by now apply bdecode_recursive_text.
  rewrite D. cbn [mbind result_bind mret result_ret]. do 2 f_equal. rewrite C, length_app, int32_id by lia. lia.
Qed.

Lemma bencode_roundtrip_witness :
  bdecode_len true (fst (bencode (dictionary_t [($"a", int_t (-12)); ($"b", list_t [string_t ($"xy")])])) ++ $"!") =
  Ok (dictionary_t [($"a", int_t (-12)); ($"b", list_t [string_t ($"xy")])], 19).
Proof.
  destruct (bencode_roundtrip true (dictionary_t [($"a", int_t (-12)); ($"b", list_t [string_t ($"xy")])]) ($"!"))
    as [-> _]; [|reflexivity|reflexivity].
  constructor; [lia|repeat constructor|].
  repeat apply List.Forall_cons; try apply List.Forall_nil; split; constructor; cbn; try lia;
    try (unfold INT64_MIN, INT64_MAX; lia).
  apply List.Forall_cons; [constructor; cbn; lia|apply List.Forall_nil].
Defined.

(** [bdecode] terminates on every input: the fuel it runs on, twice the
    length of the input, is never used up. *)
Theorem bdecode_total asserts s : bdecode asserts s <> Err OutOfFuel.
Proof.
  unfold bdecode, bdecode_len. destruct (bdecode_progress asserts (decode_fuel s)) as (P & _ & _).
  specialize (P s undefined_t 0 ltac:(unfold decode_fuel; lia)).
  destruct (bdecode_recursive asserts (decode_fuel s) s undefined_t 0) as [[i e err]|e];
    cbn [mbind result_bind mret result_ret]; [discriminate|]. intros [= ->]. now apply P.
Qed.

(** Opened lists that are never closed, from [depth] on. *)
Lemma open_lists asserts k : forall fuel ret depth,
  (2 * k + 2 <= fuel)%nat -> 0 <= depth <= 100 ->
  match bdecode_recursive asserts fuel (replicate (S k) "l"%char) ret depth with
  | Ok d => d_err d = true /\ 100 <= depth + Z.of_nat k
  | Err e => e = ReadPastEnd /\ depth + Z.of_nat k < 100
  end.
Proof.
  induction k as [|k IH]; intros [|fuel] ret depth Hf Hd; try lia; cbn [replicate bdecode_recursive].
  - destruct (100 <=? depth) eqn:E; [cbn; split; [reflexivity|lia]|]. destruct fuel as [|fuel]; [lia|]. cbn. split; [reflexivity|lia].
  - destruct (100 <=? depth) eqn:E; [cbn -[Z.of_nat]; split; [reflexivity|lia]|].
    change ("l"%char =c "i") with false. change ("l"%char =c "l") with true. cbv iota.
    destruct fuel as [|fuel]; [lia|]. cbn [decode_list]. change ("l"%char =c "e") with false. cbv iota.
    specialize (IH fuel undefined_t (depth + 1) ltac:(lia) ltac:(lia)). cbn [replicate] in IH.
    destruct (bdecode_recursive asserts fuel ("l"%char :: replicate k "l"%char) undefined_t (depth + 1)) as [d|e];
      cbn [mbind result_bind].
    + destruct IH as [-> IH]. cbn [d_err]. split; [reflexivity|lia].
    + split; [tauto|lia].
Qed.

(** A text that only opens lists: up to 100 of them make [bdecode] read
    past the end of the input, more are refused by the depth limit. *)
Theorem bdecode_open_lists asserts k :
  bdecode asserts (replicate (S k) "l"%char) =
  if Z.of_nat k <? 100 then Err ReadPastEnd else Ok undefined_t.
Proof.
  unfold bdecode, bdecode_len.
  pose proof (open_lists asserts k (decode_fuel (replicate (S k) "l"%char)) undefined_t 0) as O.
  unfold decode_fuel in O at 1. rewrite length_replicate in O. specialize (O ltac:(lia) ltac:(lia)).
  destruct (bdecode_recursive _ _ _ _ _) as [[i e err]|e]; cbn [mbind result_bind mret result_ret fst].
  - destruct O as [Oe O]. cbn in Oe. subst err. replace (Z.of_nat k <? 100) with false by lia. reflexivity.
  - destruct O as [-> O]. replace (Z.of_nat k <? 100) with true by lia. reflexivity.
Qed.

(** A dictionary whose key is not a string is accepted: decoding stops at
    the key, without an error, and returns the empty dictionary. *)
Theorem bdecode_bad_key asserts v rest :
  INT64_MIN <= v <= INT64_MAX ->
  bdecode asserts ("d"%char :: "i"%char :: itoa v ++ "e"%char :: rest) = Ok (dictionary_t []).
Proof.
  intros Hv. unfold bdecode, bdecode_len, decode_fuel. cbn [length].
  rewrite length_app. set (n := (length (itoa v) + _)%nat).
  replace (2 * S (S n))%nat with (S (S (S (S (2 * n))))) by lia. cbn [bdecode_recursive].
  change (100 <=? 0) with false. change ("d"%char =c "i") with false. change ("d"%char =c "l") with false.
  change ("d"%char =c "d") with true. cbv iota. cbn [decode_dict]. change ("i"%char =c "e") with false. cbv iota.
  cbn [bdecode_recursive]. change (100 <=? 0 + 1) with false. change ("i"%char =c "i") with true. cbv iota.
  rewrite decode_int_itoa by exact Hv. reflexivity.
Qed.

Lemma bdecode_bad_key_witness : bdecode true ($"di1ei2ee") = Ok (dictionary_t []).
Proof. apply (bdecode_bad_key true 1 ($"i2ee")). unfold INT64_MIN, INT64_MAX. lia. Defined.

(** [integer_to_str] stays inside its buffer of 21 characters and writes
    the decimal text of every 64-bit integer but -2^63, whose negation
    overflows: that one cannot be read back. *)
Theorem integer_to_str_correct v :
  INT64_MIN <= v <= INT64_MAX ->
  0 <= fst (integer_to_str 21 v)
  /\ if v =? INT64_MIN
     then forall asserts, bdecode asserts (fst (bencode (int_t v))) = Ok undefined_t
     else snd (integer_to_str 21 v) = itoa v.
Proof.
  intros Hv. destruct (v =? INT64_MIN) eqn:E.
  - apply Z.eqb_eq in E as ->. split; [vm_compute; congruence|]. intros []; vm_compute; reflexivity.
  - destruct (integer_to_str_itoa v) as [H1 H2]; [lia|]. auto.
Qed.

Lemma integer_to_str_correct_witness : snd (integer_to_str 21 (-907)) = $"-907".
Proof. apply (integer_to_str_correct (-907)). unfold INT64_MIN, INT64_MAX. lia. Defined.
