(* ===== verification/Cookie.v ===== *)
(** The cookie jar: avhttp/cookie.hpp.

    Times are [boost::posix_time::ptime] values and paths are compared by
    [boost::filesystem]; these libraries, the clock and the unspecified parts of
    [std::sort] and of moved-from strings are the operations of the class
    [Platform].  [parse_http_date] is the function of HttpDate.v. *)

From S2P Require Import Prelude CLib OrdMap EscapeString HttpDate.
From Stdlib Require Import Sorting.Permutation Sorting.Sorted.

Class Platform := {
  ptime : Type;
  not_a_date_time : ptime;
  (** [t.is_not_a_date_time()], and [t == not_a_date_time]. *)
  is_not_a_date_time : ptime -> bool;
  (** [a < b] and [a <= b]. *)
  ptime_ltb : ptime -> ptime -> bool;
  ptime_leb : ptime -> ptime -> bool;
  (** [second_clock::local_time()]. *)
  local_time : ptime;
  (** [from_time_t], [mktime] of [to_tm], and [ptime_from_tm] of [gmtime]. *)
  from_time_t : Z -> ptime;
  ptime_to_time_t : ptime -> Z;
  ptime_from_gmtime : Z -> option ptime;
  (** [boost::filesystem::path] equality. *)
  path_eqb : cstring -> cstring -> bool;
  (** [std::sort] with a comparison. *)
  std_sort : forall {A}, (A -> A -> bool) -> list A -> list A;
  (** Whether [BOOST_ASSERT] is active, and the macro [SIZEOF_TIME_T]. *)
  asserts : bool;
  SIZEOF_TIME_T : Z
}.

(** ** Data *)

Record cookie_t `{Platform} : Type := Cookie {
  name : cstring;
  value : cstring;
  domain : cstring;
  path : cstring;
  expires : ptime;
  httponly : bool;
  secure : bool
}.

Record cookies `{Platform} : Type := Cookies {
  m_cookies : list cookie_t;
  m_default_domain : cstring
}.

Inductive fault : Type := DateFault | AssertFailed | BadIndex.

Section Cookies.
Context `{P : Platform}.

Definition new_cookie : cookie_t := Cookie _ [] [] [] [] not_a_date_time false false.
Definition new_cookies : cookies := Cookies _ [] [].

Definition with_pair (n v : cstring) (c : cookie_t) : cookie_t :=
  Cookie _ n v (domain c) (path c) (expires c) (httponly c) (secure c).
Definition set_domain (d : cstring) (c : cookie_t) : cookie_t :=
  Cookie _ (name c) (value c) d (path c) (expires c) (httponly c) (secure c).
Definition set_path (p : cstring) (c : cookie_t) : cookie_t :=
  Cookie _ (name c) (value c) (domain c) p (expires c) (httponly c) (secure c).
Definition set_expires (t : ptime) (c : cookie_t) : cookie_t :=
  Cookie _ (name c) (value c) (domain c) (path c) t (httponly c) (secure c).
Definition set_httponly (c : cookie_t) : cookie_t :=
  Cookie _ (name c) (value c) (domain c) (path c) (expires c) true (secure c).
Definition set_secure (c : cookie_t) : cookie_t :=
  Cookie _ (name c) (value c) (domain c) (path c) (expires c) (httponly c) true.

Definition push_back (c : cookie_t) (j : cookies) : cookies :=
  Cookies _ (m_cookies j ++ [c]) (m_default_domain j).

(** ** Parsing *)

Inductive state : Type := cookie_name_start | cookie_name | cookie_value_start | cookie_value | cookie_bad.

(** The locals of the loop: [state], [name], [value], [tmp] and [cookie_tmp]. *)
Record locals : Type := Locals {
  l_state : state;
  l_name : cstring;
  l_value : cstring;
  l_tmp : list (cstring * cstring);
  l_cookie : cookie_t
}.

Definition is_quote (c : ascii) : bool := (c =c "034") || (c =c "'").

(** One character. *)
Definition step (c : ascii) (l : locals) : locals :=
  let '(Locals st n v tmp ck) := l in
  match st with
  | cookie_name_start =>
      if c =c " " then l
      else if is_char c then Locals cookie_name (n ++ [c]) v tmp ck
      else Locals cookie_bad n v tmp ck
  | cookie_name =>
      if c =c ";" then
        if str_eqb (to_lower n) ($"secure") then Locals cookie_name_start [] v tmp (set_secure ck)
        else if str_eqb (to_lower n) ($"httponly") then Locals cookie_name_start [] v tmp (set_httponly ck)
        else Locals cookie_bad [] v tmp ck
      else if c =c "=" then Locals cookie_value_start n [] tmp ck
      else if is_tspecial c || (c =c ":") then Locals cookie_name_start [] v tmp ck
      else if is_char c || (c =c "_") then Locals cookie_name (n ++ [c]) v tmp ck
      else l
  | cookie_value_start =>
      if c =c ";" then Locals cookie_name_start [] [] (insert_or_assign n v tmp) ck
      else if is_quote c then l
      else if is_char c then Locals cookie_value n (v ++ [c]) tmp ck
      else Locals cookie_bad n v tmp ck
  | cookie_value =>
      if (c =c ";") || is_quote c then Locals cookie_name_start [] [] (insert_or_assign n v tmp) ck
      else if is_char c then Locals cookie_value n (v ++ [c]) tmp ck
      else Locals cookie_bad n v tmp ck
  | cookie_bad => l
  end.

Definition is_bad (st : state) : bool := match st with cookie_bad => true | _ => false end.

Fixpoint loop (s : cstring) (l : locals) : locals :=
  match s with
  | [] => l
  | c :: s' => if is_bad (l_state l) then l else loop s' (step c l)
  end.

(** After the loop: the pending name or value; [None] for [return false]. *)
Definition end_of_text (l : locals) : option (list (cstring * cstring) * cookie_t) :=
  let '(Locals st n v tmp ck) := l in
  match st with
  | cookie_name =>
      if str_eqb n [] then Some (tmp, ck)
      else if str_eqb (to_lower n) ($"secure") then Some (tmp, set_secure ck)
      else if str_eqb (to_lower n) ($"httponly") then Some (tmp, set_httponly ck)
      else Some (tmp, ck)
  | cookie_value => if str_eqb v [] then Some (tmp, ck) else Some (insert_or_assign n v tmp, ck)
  | cookie_bad => None
  | _ => Some (tmp, ck)
  end.

(** The attributes are taken out of [tmp] in the order of the map. *)
Fixpoint attributes (default_domain : cstring) (tmp : list (cstring * cstring)) (ck : cookie_t)
  : result fault (list (cstring * cstring) * cookie_t) :=
  match tmp with
  | [] => Ok ([], ck)
  | (k, v) :: tmp' =>
      if str_eqb (to_lower k) ($"expires") then
        match parse_http_date SIZEOF_TIME_T ptime_from_gmtime v with
        | Err _ => Err DateFault
        | Ok (Some t) => attributes default_domain tmp' (set_expires t ck)
        | Ok None => if asserts then Err AssertFailed else attributes default_domain tmp' ck
        end
      else if str_eqb (to_lower k) ($"domain") then
        let d := if str_eqb v [] && negb (str_eqb default_domain []) then default_domain else v in
        attributes default_domain tmp' (set_domain d ck)
      else if str_eqb (to_lower k) ($"path") then attributes default_domain tmp' (set_path v ck)
      else
        r ← attributes default_domain tmp' ck;
        mret (((k, v) :: fst r), snd r)
  end.

Definition parse_cookie_string (default_domain str : cstring) : result fault (option (list cookie_t)) :=
  match end_of_text (loop str (Locals cookie_name_start [] [] [] new_cookie)) with
  | None => Ok None
  | Some (tmp, ck) =>
      r ← attributes default_domain tmp ck;
      mret (Some (map (fun p => with_pair (fst p) (snd p) (snd r)) (fst r)))
  end.

(** ** The jar *)

(** [operator()(name, value)], [operator()(cookie)] and [operator()(str)]. *)
Definition add_pair (n v : cstring) (j : cookies) : cookies := push_back (with_pair n v new_cookie) j.
Definition add_cookie (c : cookie_t) (j : cookies) : cookies := push_back c j.
Definition add_string (str : cstring) (j : cookies) : result fault cookies :=
  r ← parse_cookie_string (m_default_domain j) str;
  mret match r with
       | Some cs => fold_left (fun j c => push_back c j) cs j
       | None => j
       end.

(** [operator[]]: the first value that is not empty. *)
Definition get_value (key : cstring) (j : cookies) : cstring :=
  match List.find (fun c => str_eqb (name c) key && negb (str_eqb (value c) [])) (m_cookies j) with
  | Some c => value c
  | None => []
  end.

(** [find(key)], by name and by domain, path and name. *)
Definition find_name (key : cstring) (l : list cookie_t) : option cookie_t :=
  List.find (fun c => str_eqb (name c) key) l.
Definition same_key (a b : cookie_t) : bool :=
  str_eqb (name a) (name b) && str_eqb (domain a) (domain b) && str_eqb (path a) (path b).
Definition find_cookie (key : cookie_t) (l : list cookie_t) : option cookie_t :=
  List.find (fun c => same_key c key) l.

(** [std::remove_if] without [erase]: the kept elements move to the front, the
    tail keeps its old elements, those that were moved away in the unspecified
    state [moved]. *)
Definition remove_if (moved : cookie_t -> cookie_t) (p : cookie_t -> bool) (l : list cookie_t) : list cookie_t :=
  let kept := List.filter (fun c => negb (p c)) l in
  kept ++ map (fun c => if p c then c else moved c) (drop (length kept) l).

Definition remove_cookie (moved : cookie_t -> cookie_t) (n : cstring) (j : cookies) : cookies :=
  Cookies _ (remove_if moved (fun c => str_eqb (name c) n) (m_cookies j)) (m_default_domain j).

Definition clear (j : cookies) : cookies := Cookies _ [] (m_default_domain j).
Definition size (j : cookies) : Z := int32 (Z.of_nat (length (m_cookies j))).
Definition set_default_domain (d : cstring) (j : cookies) : cookies := Cookies _ (m_cookies j) d.

(** *** Merging *)

Definition cookie_megerable (element : cookie_t) (container : list cookie_t) : bool :=
  let it := find_name (name element) container in
  match find_cookie element container with
  | None => true
  | Some _ =>
      if str_eqb (value element) [] then false
      else match it with
           | None => true
           | Some i =>
               if str_eqb (value i) [] then true
               else if ptime_leb (expires element) (expires i) then false else true
           end
  end.

Definition by_expires (a b : cookie_t) : bool := ptime_ltb (expires b) (expires a).

(** [copy_if] into the container that the predicate reads. *)
Definition merge_into (ret : list cookie_t) (l : list cookie_t) : list cookie_t :=
  fold_left (fun ret c => if cookie_megerable c ret then ret ++ [c] else ret) l ret.

(** [operator+]. *)
Definition cookies_plus (lhs rhs : cookies) : cookies :=
  Cookies _ (merge_into [] (std_sort by_expires (m_cookies lhs ++ m_cookies rhs))) [].

(** *** The request header *)

Definition iends_with (s t : cstring) : bool :=
  let d := (length s - length t)%nat in
  (length t <=? length s)%nat && strcaseeq (drop d s) t.

(** The test of the domain; both sides are trimmed. *)
Definition domain_matches (domain cookie_domain : cstring) : bool :=
  let d := trim domain in
  if str_eqb d [] then true
  else
    let cd := trim cookie_domain in
    match cd with
    | [] => true
    | c :: _ =>
        if c =c "." then iends_with d (trim_left_if (fun x => x =c ".") cd)
        else str_eqb cd d
    end.

Definition path_matches (path cookie_path : cstring) : bool :=
  let p := trim path in
  if str_eqb p [] then true else path_eqb p (trim cookie_path).

(** Whether a cookie is sent. *)
Definition sends (https : bool) (dom pth : cstring) (c : cookie_t) : bool :=
  negb (str_eqb (value c) [])
  && negb (secure c && negb https)
  && path_matches pth (path c)
  && domain_matches dom (domain c)
  && negb (negb (is_not_a_date_time (expires c)) && ptime_ltb (expires c) local_time).

(** One turn of the loop of [get_cookie_line]. *)
Definition add_to_line (https : bool) (dom pth : cstring) (cookie : cstring) (c : cookie_t) : cstring :=
  if sends https dom pth c
  then (if str_eqb cookie [] then [] else cookie ++ $"; ") ++ name c ++ $"=" ++ value c
  else cookie.

Definition get_cookie_line (https : bool) (dom pth : cstring) (j : cookies) : cstring :=
  if (length (m_cookies j) =? 0)%nat then []
  else fold_left (add_to_line https dom pth) (m_cookies (cookies_plus new_cookies j)) [].

(** *** The cookie file *)

Definition memo : cstring :=
  $"# Netscape HTTP Cookie File" ++ [LF]
  ++ $"# http://curl.haxx.se/docs/http-cookies.html" ++ [LF]
  ++ $"# This file was generated by libcurl! Edit at your own risk." ++ [LF; LF].

(** One cookie; [f.write] of the last literal writes one character, the tab. *)
Definition save_cookie (default_domain : cstring) (c : cookie_t) : cstring :=
  (if str_eqb (domain c) [] then default_domain else domain c) ++ [TAB]
  ++ (if str_eqb (domain c) [] then $"FALSE" else $"TRUE") ++ [TAB]
  ++ path c ++ [TAB]
  ++ (if secure c then $"TRUE" else $"FALSE") ++ [TAB]
  ++ itoa (if negb (is_not_a_date_time (expires c)) then ptime_to_time_t (expires c) else 0) ++ [TAB]
  ++ name c ++ [TAB]
  ++ value c ++ take 1 [TAB; LF].

(** The contents of the file: opening it truncates it, so its size is 0. *)
Definition save_to_file (default_domain : cstring) (j : cookies) : cstring :=
  memo ++ concat (map (save_cookie default_domain) (m_cookies j)).

(** [getline] until the end of the file. *)
Fixpoint lines (cur s : cstring) : list cstring :=
  match s with
  | [] => [cur]
  | c :: s' => if c =c LF then cur :: lines [] s' else lines (cur ++ [c]) s'
  end.

(** [boost::split] on tabs with [token_compress_on]. *)
Fixpoint split_tabs (cur : cstring) (in_tabs : bool) (s : cstring) : list cstring :=
  match s with
  | [] => [cur]
  | c :: s' =>
      if c =c TAB then if in_tabs then split_tabs cur true s' else cur :: split_tabs [] true s'
      else split_tabs (cur ++ [c]) false s'
  end.

(** A line of the file: [None] for a comment, [BadIndex] for missing fields. *)
Definition load_line (line : cstring) : result fault (option cookie_t) :=
  match trim line with
  | [] => Ok None
  | (c :: _) as l =>
      if c =c "#" then Ok None
      else match split_tabs [] false l with
           | d :: _ :: p :: s :: t :: n :: v :: _ =>
               Ok (Some (Cookie _ n v d p (from_time_t (atol t)) false (str_eqb s ($"TRUE"))))
           | _ => Err BadIndex
           end
  end.

Fixpoint load_lines (ls : list cstring) (j : cookies) : result fault cookies :=
  match ls with
  | [] => Ok j
  | l :: ls' =>
      r ← load_line l;
      load_lines ls' (match r with Some c => push_back c j | None => j end)
  end.

Definition load_from_file (contents : cstring) (j : cookies) : result fault cookies :=
  load_lines (lines [] contents) j.
End Cookies.

Section CookieFacts.
Context `{P : Platform}.

(** ** Parsing *)

(** A name and a value as servers write them. *)
Definition name_char (c : ascii) : bool :=
  is_char c && negb (is_tspecial c) && negb (mem_char c [";"; "="; ":"]%char).
Definition value_char (c : ascii) : bool := is_char c && negb (mem_char c [";"; "034"; "'"]%char).
Definition good_name (n : cstring) : Prop := n <> [] /\ forallb name_char n = true.
Definition good_value (v : cstring) : Prop := v <> [] /\ forallb value_char v = true.

Lemma name_char_tests c :
  name_char c = true ->
  (c =c " ") = false /\ is_char c = true /\ (c =c ";") = false /\ (c =c "=") = false
  /\ is_tspecial c = false /\ (c =c ":") = false.
Proof.
  unfold name_char. rewrite !andb_true_iff, !negb_true_iff. intros [[H1 H2] H3].
  unfold mem_char in H3. cbn [existsb] in H3. rewrite !orb_false_iff in H3. destruct H3 as (E1 & E2 & E3 & _).
  repeat split; auto. apply Ascii.eqb_neq. intros ->. vm_compute in H2. discriminate.
Qed.

Lemma value_char_tests c :
  value_char c = true -> is_char c = true /\ (c =c ";") = false /\ is_quote c = false.
Proof.
  unfold value_char. rewrite andb_true_iff, negb_true_iff. intros [H1 H2].
  unfold mem_char in H2. cbn [existsb] in H2. rewrite !orb_false_iff in H2. destruct H2 as (E1 & E2 & E3 & _).
  repeat split; auto. unfold is_quote. now rewrite E2, E3.
Qed.

Lemma loop_step c s l : is_bad (l_state l) = false -> loop (c :: s) l = loop s (step c l).
Proof. intros E. cbn [loop]. now rewrite E. Qed.

Lemma loop_name_chars n s acc v tmp ck :
  forallb name_char n = true ->
  loop (n ++ s) (Locals cookie_name acc v tmp ck) = loop s (Locals cookie_name (acc ++ n) v tmp ck).
Proof.
  revert acc. induction n as [|c n IH]; intros acc; cbn [forallb app]; [now rewrite app_nil_r|].
  rewrite andb_true_iff. intros [Hc Hn]. rewrite loop_step by reflexivity.
  destruct (name_char_tests c Hc) as (_ & E1 & E2 & E3 & E4 & E5).
  unfold step. rewrite E2, E3, E4, E5, E1. cbn [orb]. rewrite IH by exact Hn. now rewrite <- app_assoc.
Qed.

Lemma loop_value_chars w s n acc tmp ck :
  forallb value_char w = true ->
  loop (w ++ s) (Locals cookie_value n acc tmp ck) = loop s (Locals cookie_value n (acc ++ w) tmp ck).
Proof.
  revert acc. induction w as [|c w IH]; intros acc; cbn [forallb app]; [now rewrite app_nil_r|].
  rewrite andb_true_iff. intros [Hc Hw]. rewrite loop_step by reflexivity.
  destruct (value_char_tests c Hc) as (E1 & E2 & E3).
  unfold step. rewrite E1, E2, E3. cbn [orb]. rewrite IH by exact Hw. now rewrite <- app_assoc.
Qed.

(** [name] from the start state. *)
Lemma cookie_loop_name n s v tmp ck :
  good_name n -> loop (n ++ s) (Locals cookie_name_start [] v tmp ck) = loop s (Locals cookie_name n v tmp ck).
Proof.
  intros [Hne Hn]. destruct n as [|c n]; [congruence|]. cbn [forallb app] in *. apply andb_true_iff in Hn as [Hc Hn].
  rewrite loop_step by reflexivity. destruct (name_char_tests c Hc) as (E0 & E1 & _).
  unfold step. rewrite E0, E1. cbn [app]. now rewrite (loop_name_chars n s [c]).
Qed.

Lemma cookie_loop_value w s n tmp ck :
  good_value w ->
  loop (w ++ s) (Locals cookie_value_start n [] tmp ck) = loop s (Locals cookie_value n w tmp ck).
Proof.
  intros [Hne Hw]. destruct w as [|c w]; [congruence|]. cbn [forallb app] in *. apply andb_true_iff in Hw as [Hc Hw].
  rewrite loop_step by reflexivity. destruct (value_char_tests c Hc) as (E1 & E2 & E3).
  unfold step. rewrite E1, E2, E3. cbn [app]. now rewrite (loop_value_chars w s n [c]).
Qed.

(** [name=value; ] stores the pair. *)
Lemma loop_pair n w s v tmp ck :
  good_name n -> good_value w ->
  loop (n ++ "="%char :: w ++ ";"%char :: " "%char :: s) (Locals cookie_name_start [] v tmp ck) =
  loop s (Locals cookie_name_start [] [] (insert_or_assign n w tmp) ck).
Proof.
  intros Hn Hw. rewrite cookie_loop_name by exact Hn. rewrite loop_step by reflexivity.
  change (step "="%char (Locals cookie_name n v tmp ck)) with (Locals cookie_value_start n [] tmp ck).
  rewrite cookie_loop_value by exact Hw. reflexivity.
Qed.

(** [secure] and [httponly], the latter at the end of the text. *)
Lemma loop_secure s v tmp ck :
  loop ($"secure; " ++ s) (Locals cookie_name_start [] v tmp ck) =
  loop s (Locals cookie_name_start [] v tmp (set_secure ck)).
Proof. reflexivity. Qed.

Lemma loop_httponly v tmp ck :
  end_of_text (loop ($"httponly") (Locals cookie_name_start [] v tmp ck)) = Some (tmp, set_httponly ck).
Proof. reflexivity. Qed.

(** A name that is none of the three attributes with a value. *)
Definition attribute_name (n : cstring) : bool :=
  str_eqb (to_lower n) ($"expires") || str_eqb (to_lower n) ($"domain") || str_eqb (to_lower n) ($"path").

Lemma attribute_name_false n :
  attribute_name n = false ->
  str_eqb (to_lower n) ($"expires") = false /\ str_eqb (to_lower n) ($"domain") = false
  /\ str_eqb (to_lower n) ($"path") = false.
Proof. unfold attribute_name. rewrite !orb_false_iff. tauto. Qed.

(** The four pairs of a complete cookie, in whatever order the map has them. *)
Lemma attributes_all dd n v dt p d t ck :
  attribute_name n = false -> d <> [] ->
  parse_http_date SIZEOF_TIME_T ptime_from_gmtime dt = Ok (Some t) ->
  attributes dd (insert_or_assign ($"domain") d (insert_or_assign ($"path") p
                  (insert_or_assign ($"expires") dt (insert_or_assign n v [])))) ck =
  Ok ([(n, v)], set_domain d (set_path p (set_expires t ck))).
Proof.
  intros Hn Hd Ht. destruct (attribute_name_false n Hn) as (E1 & E2 & E3).
  assert (str_eqb d [] = false) as Ed by now apply str_eqb_neq.
  assert (forall k, to_lower k = k -> str_eqb (to_lower n) k = false -> str_ltb k n = negb (str_ltb n k)) as T.
  { intros k Hk Hnk. destruct (str_ltb k n) eqn:L1, (str_ltb n k) eqn:L2; try reflexivity; exfalso.
    - pose proof (str_ltb_trans _ _ _ L1 L2) as C. now rewrite str_ltb_irrefl in C.
    - assert (k = n) as -> by now apply str_ltb_total. rewrite Hk, str_eqb_refl in Hnk. discriminate. }
  cbn [insert_or_assign key_ltb OrdKey_string].
  rewrite (T ($"expires")) by (auto; reflexivity).
  destruct (str_ltb n ($"expires")) eqn:L1; cbn [negb insert_or_assign key_ltb OrdKey_string];
  rewrite ?(T ($"path")) by (auto; reflexivity);
  destruct (str_ltb n ($"path")) eqn:L2; cbn [negb insert_or_assign key_ltb OrdKey_string];
  repeat (change (str_ltb ($"path") ($"expires")) with false; change (str_ltb ($"expires") ($"path")) with true;
          cbn [insert_or_assign key_ltb OrdKey_string]);
  rewrite ?(T ($"domain")) by (auto; reflexivity);
  destruct (str_ltb n ($"domain")) eqn:L3; cbn [negb insert_or_assign key_ltb OrdKey_string];
  repeat (change (str_ltb ($"domain") ($"expires")) with true; change (str_ltb ($"domain") ($"path")) with true;
          change (str_ltb ($"path") ($"expires")) with false; change (str_ltb ($"expires") ($"path")) with true;
          cbn [insert_or_assign key_ltb OrdKey_string]);
  repeat (cbn [attributes]; rewrite ?E1, ?E2, ?E3, ?Ht, ?Ed;
          change (str_eqb (to_lower ($"expires")) ($"expires")) with true;
          change (str_eqb (to_lower ($"domain")) ($"expires")) with false;
          change (str_eqb (to_lower ($"domain")) ($"domain")) with true;
          change (str_eqb (to_lower ($"path")) ($"expires")) with false;
          change (str_eqb (to_lower ($"path")) ($"domain")) with false;
          change (str_eqb (to_lower ($"path")) ($"path")) with true);
  reflexivity.
Qed.

Lemma digit_value_char c : isdigit c = true -> value_char c = true.
Proof.
  intros D. pose proof (forall_ascii (fun c => implb (isdigit c) (value_char c)) eq_refl c) as F.
  cbv beta in F. now rewrite D in F.
Qed.

(** A date is a good value. *)
Lemma rfc1123_value w mday mon y h m s :
  0 <= w < 7 -> 1 <= mday <= 31 -> 0 <= mon < 12 -> 1900 <= y <= 9999 ->
  0 <= h < 100 -> 0 <= m < 100 -> 0 <= s < 100 -> good_value (rfc1123 w mday mon y h m s).
Proof.
  intros Hw Hd Hmon Hy Hh Hm Hs.
  assert (forall n, 0 <= n < 100 -> forallb value_char (two n) = true) as T.
  { intros n Hn. apply forallb_forall. intros c Hc. apply digit_value_char.
    apply (proj1 (List.Forall_forall _ _) (two_digits n Hn) c Hc). }
  assert (forallb value_char (default [] (wkday !! Z.to_nat w)) = true) as W by (small_cases w 7%nat; reflexivity).
  assert (forallb value_char (default [] (month !! Z.to_nat mon)) = true) as M by (small_cases mon 12%nat; reflexivity).
  unfold rfc1123, four. split.
  - intros E. apply app_eq_nil in E as [_ E]. discriminate.
  - rewrite !forallb_app, W, M, !T by zdiv. reflexivity.
Qed.
End CookieFacts.

(** ** Properties *)

(** A [Set-Cookie] text with every attribute. *)
Definition set_cookie_text (n v date p d : cstring) : cstring :=
  n ++ $"=" ++ v ++ $"; expires=" ++ date ++ $"; path=" ++ p ++ $"; domain=" ++ d ++ $"; secure; httponly".

(** A complete [Set-Cookie] text is parsed into one cookie with its name,
    value, expiry time, path, domain and flags. *)
Theorem parse_set_cookie `{Platform} dd n v p d w mday mon y h m s t :
  good_name n -> attribute_name n = false -> good_value v -> good_value p -> good_value d ->
  0 <= w < 7 -> 1 <= mday <= 31 -> 0 <= mon < 12 -> 1970 <= y <= 2037 ->
  0 <= h < 100 -> 0 <= m < 100 -> 0 <= s < 100 ->
  ptime_from_gmtime (utc_seconds y mon mday h m s) = Some t ->
  parse_cookie_string dd (set_cookie_text n v (rfc1123 w mday mon y h m s) p d) =
  Ok (Some [Cookie _ n v d p t true true]).
Proof.
  intros Hn Ha Hv Hp Hd Hw Hmd Hmon Hy Hh Hm Hs Ht. unfold parse_cookie_string, set_cookie_text.
  pose proof (rfc1123_value w mday mon y h m s Hw Hmd Hmon ltac:(lia) Hh Hm Hs) as Hdate.
  assert (parse_http_date SIZEOF_TIME_T ptime_from_gmtime (rfc1123 w mday mon y h m s) = Ok (Some t)) as E.
  { unfold parse_http_date. rewrite parse_rfc1123_value by (auto; lia).
    replace (2037 <? y) with false by lia. rewrite andb_false_r. replace (y <? 1970) with false by lia.
    cbn. now rewrite Ht. }
  set (date := rfc1123 w mday mon y h m s) in *. clearbody date.

  change ($"=" ++ ?x) with ("="%char :: x).
  change ($"; expires=" ++ ?x) with (";"%char :: " "%char :: $"expires" ++ "="%char :: x).
  change ($"; path=" ++ ?x) with (";"%char :: " "%char :: $"path" ++ "="%char :: x).
  change ($"; domain=" ++ ?x) with (";"%char :: " "%char :: $"domain" ++ "="%char :: x).
  change ($"; secure; httponly") with (";"%char :: " "%char :: $"secure; " ++ $"httponly").
  rewrite !loop_pair by first [assumption | split; [discriminate|reflexivity]].
  rewrite loop_secure, loop_httponly. destruct Hd as [Hd _].
  rewrite (attributes_all dd n v date p d t) by assumption. reflexivity.
Qed.

(** A platform for examples: times in seconds, [None] for no time. *)
#[refine] Instance example_platform : Platform := {
  ptime := option Z;
  not_a_date_time := None;
  is_not_a_date_time := fun t => match t with None => true | Some _ => false end;
  ptime_ltb := fun a b => match a, b with Some x, Some y => x <? y | _, _ => false end;
  ptime_leb := fun a b => negb match b, a with Some x, Some y => x <? y | _, _ => false end;
  local_time := Some 1380000000;
  from_time_t := Some;
  ptime_to_time_t := default 0;
  ptime_from_gmtime := fun t => Some (Some t);
  path_eqb := str_eqb;
  std_sort := fun A lt => fold_right (fix ins x l := match l with
                                       | [] => [x]
                                       | y :: l' => if lt y x then y :: ins x l' else x :: l
                                       end) [];
  asserts := true;
  SIZEOF_TIME_T := 0
}.
Proof. Defined.

Lemma parse_set_cookie_witness :
  parse_cookie_string [] ($"gsid=none; expires=Sun, 22 Sep 2013 14:27:43 GMT; path=/; domain=.fidelity.cn; secure; httponly") =
  Ok (Some [Cookie example_platform ($"gsid") ($"none") ($".fidelity.cn") ($"/") (Some 1379860063) true true]).
Proof.
  apply (@parse_set_cookie example_platform [] ($"gsid") ($"none") ($"/") ($".fidelity.cn") 6 22 8 2013 14 27 43
           (Some 1379860063));
    try (split; [discriminate|reflexivity]); try lia; reflexivity.
Defined.

(** ** Merging jars *)

(** A strict weak order on the elements of a list, what [std::sort] requires. *)
Definition strict_weak {A} (lt : A -> A -> bool) (l : list A) : Prop :=
  (forall a, In a l -> lt a a = false)
  /\ (forall a b c, In a l -> In b l -> In c l -> lt a b = true -> lt b c = true -> lt a c = true)
  /\ (forall a b c, In a l -> In b l -> In c l ->
        lt a b = false -> lt b a = false -> lt b c = false -> lt c b = false -> lt a c = false).

(** What the standard library and Boost document. *)
Class PlatformLaws `(P : Platform) : Prop := {
  std_sort_ok : forall A (lt : A -> A -> bool) l, strict_weak lt l ->
    Permutation l (std_sort lt l) /\ StronglySorted (fun a b => lt b a = false) (std_sort lt l);
  ptime_leb_ok : forall a b, ptime_leb a b = negb (ptime_ltb b a)
}.

Section Merging.
Context `{L : PlatformLaws}.

Definition key (c : cookie_t) : cstring * cstring * cstring := (name c, domain c, path c).

Lemma same_key_key a b : same_key a b = true <-> key a = key b.
Proof.
  unfold same_key, key. rewrite !andb_true_iff, !str_eqb_eq. split; [intros [[-> ->] ->]; reflexivity|].
  intros [= -> -> ->]. auto.
Qed.

Lemma find_cookie_spec c l :
  match find_cookie c l with
  | Some x => In x l /\ key x = key c
  | None => ~ In (key c) (map key l)
  end.
Proof.
  unfold find_cookie. destruct (List.find _ l) as [x|] eqn:E.
  - apply List.find_some in E as [E1 E2]. split; [exact E1|]. now apply same_key_key.
  - intros Hin. apply in_map_iff in Hin as (x & Ex & Hx). pose proof (List.find_none _ _ E x Hx) as N.
    cbv beta in N. apply same_key_key in Ex. congruence.
Qed.

(** A cookie that is no newer than the container and not empty is taken exactly
    when its key is new. *)
Lemma megerable_new c ret :
  value c <> [] -> (forall x, In x ret -> value x <> []) ->
  (forall x, In x ret -> ptime_ltb (expires x) (expires c) = false) ->
  cookie_megerable c ret = match find_cookie c ret with None => true | Some _ => false end.
Proof using L.
  intros Vc Vr Hr. unfold cookie_megerable. pose proof (find_cookie_spec c ret) as F.
  destruct (find_cookie c ret) as [x|]; [|reflexivity]. destruct F as [Fx Kx].
  rewrite (proj2 (str_eqb_neq _ _) Vc). unfold find_name.
  destruct (List.find _ ret) as [i|] eqn:E.
  - apply List.find_some in E as [E1 _]. rewrite (proj2 (str_eqb_neq _ _) (Vr i E1)).
    rewrite ptime_leb_ok, (Hr i E1). reflexivity.
  - pose proof (List.find_none _ _ E x Fx) as N. cbv beta in N. unfold key in Kx. injection Kx as K1 _ _.
    rewrite K1, str_eqb_refl in N. discriminate.
Qed.

(** The cookies of [l] with a key that neither [seen] nor an earlier one has. *)
Fixpoint dedup (seen l : list cookie_t) : list cookie_t :=
  match l with
  | [] => []
  | c :: l' =>
      match find_cookie c seen with
      | None => c :: dedup (seen ++ [c]) l'
      | Some _ => dedup seen l'
      end
  end.

Lemma merge_into_dedup l : forall ret,
  StronglySorted (fun a b => by_expires b a = false) l ->
  (forall x y, In x ret -> In y l -> ptime_ltb (expires x) (expires y) = false) ->
  (forall x, In x (ret ++ l) -> value x <> []) ->
  merge_into ret l = ret ++ dedup ret l.
Proof using L.
  induction l as [|c l IH]; intros ret S R V; [cbn; now rewrite app_nil_r|].
  inversion S as [|? ? S' F]; subst. rewrite List.Forall_forall in F. unfold by_expires in F.
  unfold merge_into. cbn [fold_left dedup].
  rewrite megerable_new by (intros; first [apply V, in_or_app; cbn; tauto | apply R; cbn; tauto]).
  destruct (find_cookie c ret) as [x0|].
  - apply IH; auto; [intros x y Hx Hy; apply R; cbn; tauto|].
    intros x Hx. apply V. rewrite in_app_iff in *. cbn. tauto.
  - fold (merge_into (ret ++ [c]) l). rewrite IH; auto; [now rewrite <- app_assoc| |].
    + intros x y Hx Hy. rewrite in_app_iff in Hx. destruct Hx as [Hx|[<-|[]]]; [apply R; cbn; tauto|now apply F].
    + intros x Hx. apply V. rewrite !in_app_iff in *. cbn in *. tauto.
Qed.

Lemma dedup_spec l : forall seen,
  StronglySorted (fun a b => by_expires b a = false) l ->
  (forall x, In x l -> ptime_ltb (expires x) (expires x) = false) ->
  List.NoDup (map key (dedup seen l))
  /\ (forall x, In x (dedup seen l) -> In x l /\ ~ In (key x) (map key seen))
  /\ (forall x, In x l -> In (key x) (map key seen)
        \/ exists y, In y (dedup seen l) /\ key y = key x /\ ptime_ltb (expires y) (expires x) = false).
Proof.
  induction l as [|c l IH]; intros seen S I0; cbn [dedup]; [repeat split; cbn; tauto || constructor|].
  inversion S as [|? ? S' F]; subst. rewrite List.Forall_forall in F. unfold by_expires in F.
  pose proof (find_cookie_spec c seen) as FC. destruct (find_cookie c seen) as [x0|].
  - destruct (IH seen S') as (I1 & I2 & I3); [intros; apply I0; now right|].
    repeat split; auto; [now right; apply I2|now apply I2|].
    intros x [<-|Hx]; [left|now apply I3]. destruct FC as [F1 <-]. now apply in_map.
  - destruct (IH (seen ++ [c]) S') as (I1 & I2 & I3); [intros; apply I0; now right|].
    rewrite map_app in *. cbn [map] in *. repeat split.
    + constructor; [|exact I1]. intros Hin. apply in_map_iff in Hin as (y & Ey & Hy).
      apply I2 in Hy as [_ Hy]. apply Hy. rewrite Ey, ?map_app, in_app_iff. cbn. tauto.
    + destruct H as [->|Hx]; [now left|right; now apply I2].
    + destruct H as [->|Hx]; [exact FC|]. apply I2 in Hx as [_ Hx]. rewrite ?map_app, in_app_iff in Hx. tauto.
    + intros x [<-|Hx]; [right; exists c; repeat split; [now left|apply I0; now left]|].
      destruct (I3 x Hx) as [K|(y & Y1 & Y2 & Y3)].
      * rewrite ?map_app, in_app_iff in K. destruct K as [K|[K|[]]]; [now left|right].
        exists c. repeat split; [now left|exact K|now apply F].
      * right. exists y. repeat split; [now right|exact Y2|exact Y3].
Qed.
End Merging.

(** Merging two jars whose cookies all have a value keeps exactly one
    cookie per name, domain and path, and of those the one that expires last. *)
Theorem cookies_plus_correct `{L : PlatformLaws} a b :
  strict_weak by_expires (m_cookies a ++ m_cookies b) ->
  (forall c, In c (m_cookies a ++ m_cookies b) -> value c <> []) ->
  let r := m_cookies (cookies_plus a b) in
  List.NoDup (map key r)
  /\ (forall c, In c r -> In c (m_cookies a ++ m_cookies b))
  /\ forall c, In c (m_cookies a ++ m_cookies b) ->
       exists c', In c' r /\ key c' = key c /\ ptime_ltb (expires c') (expires c) = false.
Proof.
  intros W V r. destruct (std_sort_ok _ by_expires _ W) as [Pm S].
  set (l := m_cookies a ++ m_cookies b) in *.
  assert (forall x, In x (std_sort by_expires l) <-> In x l) as M.
  { intros x. split; apply Permutation_in; [now apply Permutation_sym|exact Pm]. }
  assert (r = dedup [] (std_sort by_expires l)) as ->.
  { unfold r, cookies_plus. cbn [m_cookies]. rewrite (merge_into_dedup _ []); auto; [intros x y []|].
    intros x Hx. apply V, M, Hx. }
  destruct (dedup_spec (std_sort by_expires l) [] S) as (D1 & D2 & D3).
  { intros x Hx. apply M in Hx. destruct W as (W1 & _). exact (W1 x Hx). }
  split; [exact D1|]. split; [intros c Hc; apply M, D2, Hc|].
  intros c Hc. apply M in Hc. destruct (D3 c Hc) as [[]|D]. exact D.
Qed.

(** The cookie that a merged cookie is compared with is looked up by its
    name alone: an empty cookie of the same name for another domain makes a
    second cookie with the same name, domain and path pass. *)
Theorem megerable_wrong_domain `{Platform} c d e :
  name d = name c -> value d = [] -> same_key d c = false -> same_key e c = true -> value c <> [] ->
  cookie_megerable c [d; e] = true.
Proof.
  intros Hn Vd Kd Ke Vc. unfold cookie_megerable, find_cookie, find_name. cbn [List.find].
  rewrite Kd, Ke, (proj2 (str_eqb_neq _ _) Vc), Hn, str_eqb_refl, Vd. reflexivity.
Qed.

Lemma megerable_wrong_domain_witness :
  cookie_megerable (P := example_platform)
    (Cookie example_platform ($"a") ($"2") ($"y") [] (Some 5) false false)
    [Cookie example_platform ($"a") [] ($"x") [] (Some 9) false false;
     Cookie example_platform ($"a") ($"1") ($"y") [] (Some 7) false false] = true.
Proof. apply (@megerable_wrong_domain example_platform); try reflexivity; discriminate. Defined.

(** ** The example platform obeys the laws *)

Section InsertionSort.
Context {A : Type} (lt : A -> A -> bool) (all : list A).
Hypothesis W : strict_weak lt all.

Fixpoint ins (x : A) (l : list A) : list A :=
  match l with
  | [] => [x]
  | y :: l' => if lt y x then y :: ins x l' else x :: l
  end.

Lemma neg_trans b y x : In b all -> In y all -> In x all -> lt b y = false -> lt y x = false -> lt b x = false.
Proof using W.
  intros Hb Hy Hx E1 E2. destruct W as (W1 & W2 & W3). destruct (lt b x) eqn:E; [|reflexivity]. exfalso.
  destruct (lt y b) eqn:E3; [rewrite (W2 y b x) in E2 by auto; discriminate|].
  destruct (lt x y) eqn:E4; [rewrite (W2 b x y) in E1 by auto; discriminate|].
  rewrite (W3 b y x) in E by auto. discriminate.
Qed.

Lemma ins_perm x l : Permutation (x :: l) (ins x l).
Proof.
  induction l as [|y l IH]; cbn; [reflexivity|]. destruct (lt y x); [|reflexivity].
  rewrite perm_swap. now constructor.
Qed.

Lemma ins_sorted x l :
  In x all -> incl l all -> StronglySorted (fun a b => lt b a = false) l ->
  StronglySorted (fun a b => lt b a = false) (ins x l).
Proof using W.
  intros Hx I S. induction S as [|y l S IH F]; cbn; [repeat constructor|].
  rewrite List.Forall_forall in F. assert (In y all) as Hy by (apply I; now left).
  assert (incl l all) as I' by (intros z Hz; apply I; now right).
  destruct (lt y x) eqn:E; constructor.
  - now apply IH.
  - apply List.Forall_forall. intros b Hb. apply (Permutation_in _ (Permutation_sym (ins_perm x l))) in Hb.
    destruct Hb as [<-|Hb]; [|now apply F]. destruct (lt x y) eqn:E2; [|reflexivity].
    destruct W as (W1 & W2 & _). pose proof (W2 x y x Hx Hy Hx E2 E) as C. now rewrite W1 in C.
  - constructor; [exact S|now apply List.Forall_forall].
  - apply List.Forall_forall. intros b [<-|Hb]; [exact E|]. apply (neg_trans b y x); auto.
Qed.

Lemma insertion_sort l :
  incl l all ->
  Permutation l (fold_right ins [] l) /\ StronglySorted (fun a b => lt b a = false) (fold_right ins [] l).
Proof using W.
  induction l as [|x l IH]; intros I; cbn; [split; [reflexivity|constructor]|].
  destruct IH as [P1 S1]; [intros z Hz; apply I; now right|]. split.
  - rewrite <- ins_perm. now constructor.
  - apply ins_sorted; [apply I; now left| |exact S1].
    intros z Hz. apply I. right. now apply (Permutation_in _ (Permutation_sym P1)).
Qed.
End InsertionSort.

#[export] Instance example_platform_laws : PlatformLaws example_platform.
Proof.
  constructor.
  - intros A lt l W. exact (insertion_sort lt l W l (incl_refl l)).
  - reflexivity.
Qed.

Lemma cookies_plus_correct_witness :
  let c v t := Cookie example_platform ($"a") v ($"x") [] (Some t) false false in
  exists c', In c' (m_cookies (cookies_plus (Cookies _ [c ($"1") 5] []) (Cookies _ [c ($"2") 9] [])))
  /\ key c' = key (c ($"1") 5) /\ ptime_ltb (expires c') (Some 5 : @ptime example_platform) = false.
Proof.
  intros c.
  destruct (cookies_plus_correct (P := example_platform) (Cookies _ [c ($"1") 5] []) (Cookies _ [c ($"2") 9] []))
    as (_ & _ & E).
  - repeat split; intros; cbn in *; repeat match goal with H : _ \/ _ |- _ => destruct H as [<-|H] | H : False |- _ => destruct H end;
      try reflexivity; try discriminate.
  - intros x [<-|[<-|[]]]; discriminate.
  - apply (E (c ($"1") 5)). now left.
Defined.

(** ** Removing *)

Lemma filter_length_le {A} (f : A -> bool) l : (length (List.filter f l) <= length l)%nat.
Proof. induction l as [|x l IH]; cbn; [lia|]. destruct (f x); cbn; lia. Qed.

(** [remove_cookie] never makes the jar smaller: the vector is not shortened
    after [std::remove_if].  In particular a cookie that is last in the jar and
    the only one of its name is not removed at all. *)
Theorem remove_cookie_keeps_size `{P : Platform} moved n j :
  length (m_cookies (remove_cookie moved n j)) = length (m_cookies j)
  /\ forall l c, m_cookies j = l ++ [c] -> name c = n -> (forall x, In x l -> name x <> n) ->
       m_cookies (remove_cookie moved n j) = m_cookies j.
Proof.
  unfold remove_cookie, remove_if. cbn [m_cookies]. split.
  - rewrite length_app, length_map, length_drop.
    pose proof (filter_length_le (fun c => negb (str_eqb (name c) n)) (m_cookies j)). lia.
  - intros l c E Hc Hl. rewrite E.
    assert (List.filter (fun c => negb (str_eqb (name c) n)) (l ++ [c]) = l) as F.
    { rewrite List.filter_app. cbn. rewrite Hc, str_eqb_refl. cbn. rewrite app_nil_r. apply forallb_filter_id, forallb_forall.
      intros x Hx. apply negb_true_iff, str_eqb_neq, Hl, Hx. }
    rewrite F, drop_app_length. cbn. now rewrite Hc, str_eqb_refl.
Qed.

Lemma remove_cookie_keeps_size_witness :
  let c n := with_pair (P := example_platform) n ($"1") new_cookie in
  m_cookies (remove_cookie (fun c => c) ($"b") (Cookies _ [c ($"a"); c ($"b")] [])) = [c ($"a"); c ($"b")].
Proof.
  intros c.
  apply (proj2 (remove_cookie_keeps_size (P := example_platform) (fun c => c) ($"b") (Cookies _ [c ($"a"); c ($"b")] [])))
    with (l := [c ($"a")]) (c := c ($"b")); [reflexivity|reflexivity|].
  intros x [<-|[]]. discriminate.
Defined.

(** ** Domains *)

Lemma strcaseeq_refl s : strcaseeq s s = true.
Proof. apply str_eqb_refl. Qed.

(** A cookie for the domain [.d] is sent to every host whose name ends in
    the characters of [d], also without a dot before them. *)
Theorem cookie_domain_suffix p d :
  d <> [] -> Forall (fun c => isspace c = false) (p ++ d) -> hd NUL d <> "."%char ->
  domain_matches (p ++ d) ("."%char :: d) = true.
Proof.
  intros Hd S Hh. unfold domain_matches. rewrite (trim_id (p ++ d)) by exact S.
  destruct (str_eqb_spec (p ++ d) []) as [E|_]; [now apply app_eq_nil in E as [_ E]|].
  apply Forall_app in S as [_ S]. rewrite trim_id by (constructor; [reflexivity|exact S]).
  rewrite Ascii.eqb_refl. unfold trim_left_if. cbn [drop_while]. rewrite Ascii.eqb_refl.
  assert (drop_while (fun x => x =c ".") d = d) as ->.
  { destruct d as [|c d]; [congruence|]. cbn in Hh. cbn [drop_while].
    now rewrite (proj2 (Ascii.eqb_neq c ".") Hh). }
  unfold iends_with. rewrite length_app.
  replace (length p + length d - length d)%nat with (length p) by lia.
  replace (length d <=? length p + length d)%nat with true by (symmetry; apply Nat.leb_le; lia).
  rewrite drop_app_length, strcaseeq_refl. reflexivity.
Qed.

Lemma cookie_domain_suffix_witness : domain_matches ($"notmybank.com") ($".mybank.com") = true.
Proof.
  apply (cookie_domain_suffix ($"not") ($"mybank.com")); [discriminate| |discriminate].
  repeat (apply List.Forall_cons; [reflexivity|]). apply List.Forall_nil.
Defined.

(** ** The cookie file *)

Section File.
Context `{P : Platform}.

(** The seven fields of a cookie. *)
Definition fields (dd : cstring) (c : cookie_t) : list cstring :=
  [if str_eqb (domain c) [] then dd else domain c; if str_eqb (domain c) [] then $"FALSE" else $"TRUE";
   path c; if secure c then $"TRUE" else $"FALSE";
   itoa (if negb (is_not_a_date_time (expires c)) then ptime_to_time_t (expires c) else 0); name c; value c].

(** A field without white space. *)
Definition plain (f : cstring) : Prop := f <> [] /\ Forall (fun c => isspace c = false) f.

Definition tabbed (fs : list cstring) : cstring := concat (map (fun f => f ++ [TAB]) fs).

Lemma save_cookie_fields dd c : save_cookie dd c = tabbed (fields dd c).
Proof.
  unfold save_cookie, tabbed, fields. cbn [map concat]. rewrite <- !app_assoc. cbn [take]. now rewrite app_nil_r.
Qed.

Lemma tabbed_app a b : tabbed (a ++ b) = tabbed a ++ tabbed b.
Proof. unfold tabbed. now rewrite map_app, concat_app. Qed.

Lemma lines_nolf cur s :
  Forall (fun c => (c =c LF) = false) s -> lines cur s = [cur ++ s].
Proof.
  intros F. revert cur. induction F as [|c s Hc _ IH]; intros cur; cbn [lines]; [now rewrite app_nil_r|].
  rewrite Hc, IH, <- app_assoc. reflexivity.
Qed.

Lemma plain_no_lf f : plain f -> Forall (fun c => (c =c LF) = false) f.
Proof.
  intros [_ F]. eapply Forall_impl; [exact F|]. cbv beta. intros c Hc. apply Ascii.eqb_neq. intros ->. discriminate.
Qed.

Lemma tabbed_no_lf fs : Forall plain fs -> Forall (fun c => (c =c LF) = false) (tabbed fs).
Proof.
  induction 1 as [|f fs Hf _ IH]; [constructor|]. unfold tabbed. cbn [map concat].
  apply Forall_app. split; [|exact IH]. apply Forall_app. split; [now apply plain_no_lf|repeat constructor].
Qed.

(** A field in front of the tokens. *)
Lemma split_tabs_field f s cur :
  Forall (fun c => (c =c TAB) = false) f -> split_tabs cur false (f ++ TAB :: s) = (cur ++ f) :: split_tabs [] true s.
Proof.
  intros F. revert cur. induction F as [|c f Hc _ IH]; intros cur; cbn [app split_tabs].
  - now rewrite Ascii.eqb_refl, app_nil_r.
  - rewrite Hc, IH, <- app_assoc. reflexivity.
Qed.

Lemma plain_no_tab f : plain f -> Forall (fun c => (c =c TAB) = false) f.
Proof.
  intros [_ F]. eapply Forall_impl; [exact F|]. cbv beta. intros c Hc. apply Ascii.eqb_neq. intros ->. discriminate.
Qed.

Lemma split_tabs_in_tabs f s : plain f -> split_tabs [] true (f ++ s) = split_tabs [] false (f ++ s).
Proof.
  intros Pf. pose proof (plain_no_tab f Pf) as F. destruct Pf as [Hne _]. destruct f as [|c f]; [congruence|].
  inversion F; subst. cbn [app split_tabs]. now rewrite H1.
Qed.

Lemma split_tabs_last f : Forall (fun c => (c =c TAB) = false) f -> forall cur, split_tabs cur false f = [cur ++ f].
Proof.
  induction 1 as [|c f Hc _ IH]; intros cur; cbn [split_tabs]; [now rewrite app_nil_r|]. rewrite Hc, IH, <- app_assoc. reflexivity.
Qed.

(** The tokens of tab-terminated fields without the last tab. *)
Lemma split_tabs_tabbed fs f : Forall plain (fs ++ [f]) -> split_tabs [] false (tabbed fs ++ f) = fs ++ [f].
Proof.
  induction fs as [|g fs IH]; intros F; cbn [app] in *.
  - inversion F; subst. apply split_tabs_last, plain_no_tab. assumption.
  - inversion F as [|? ? Pg F']; subst. unfold tabbed. cbn [map concat]. rewrite <- !app_assoc. cbn [app].
    rewrite split_tabs_field by now apply plain_no_tab. cbn [app]. f_equal. fold (tabbed fs). rewrite <- IH by exact F'.
    destruct fs as [|h fs]; cbn [app] in *.
    + inversion F'; subst. change (tabbed []) with (@nil ascii). cbn [app].
      rewrite <- (app_nil_r f). now apply split_tabs_in_tabs.
    + inversion F'; subst. unfold tabbed. cbn [map concat]. rewrite <- !app_assoc. now apply split_tabs_in_tabs.
Qed.

Lemma drop_while_hd p (c : ascii) s : p c = false -> drop_while p (c :: s) = c :: s.
Proof. intros E. cbn. now rewrite E. Qed.

(** Trimming drops the last tab. *)
Lemma trim_tabbed fs f : Forall plain (fs ++ [f]) -> trim (tabbed fs ++ f ++ [TAB]) = tabbed fs ++ f.
Proof.
  intros F. apply Forall_app in F as [Ffs Ff]. apply Forall_inv in Ff as [Hne Sf].
  assert (drop_while isspace (tabbed fs ++ f ++ [TAB]) = tabbed fs ++ f ++ [TAB]) as E.
  { destruct Ffs as [|g fs [Hg Sg] _].
    - destruct f as [|c f]; [congruence|]. inversion Sf; subst. now apply drop_while_hd.
    - destruct g as [|c g]; [congruence|]. inversion Sg; subst. now apply drop_while_hd. }
  unfold trim, trim_left_if, trim_right_if. rewrite E, app_assoc, rev_app_distr. cbn [rev app].
  change (drop_while isspace (TAB :: ?x)) with (drop_while isspace x).
  rewrite rev_app_distr. destruct (rev f) as [|c r] eqn:R.
  - apply (f_equal (@rev ascii)) in R. rewrite rev_involutive in R. cbn in R. congruence.
  - assert (isspace c = false) as Hc.
    { apply (proj1 (List.Forall_forall _ _) Sf). apply in_rev. rewrite R. now left. }
    cbn [app]. rewrite drop_while_hd by exact Hc. change (c :: r ++ rev (tabbed fs)) with ((c :: r) ++ rev (tabbed fs)).
    rewrite <- R, <- rev_app_distr, rev_involutive. reflexivity.
Qed.

Lemma concat_save dd cs : concat (map (save_cookie dd) cs) = tabbed (concat (map (fields dd) cs)).
Proof.
  induction cs as [|c cs IH]; [reflexivity|]. cbn [map concat]. now rewrite tabbed_app, IH, save_cookie_fields.
Qed.

(** The cookie as it comes back. *)
Definition reloaded (dd : cstring) (c : cookie_t) : cookie_t :=
  Cookie _ (name c) (value c) (if str_eqb (domain c) [] then dd else domain c) (path c)
    (from_time_t (if negb (is_not_a_date_time (expires c)) then ptime_to_time_t (expires c) else 0)) false (secure c).

Lemma load_line_fields dd c fs :
  Forall plain (fields dd c ++ fs) ->
  hd NUL (if str_eqb (domain c) [] then dd else domain c) <> "#"%char ->
  INT64_MIN <= (if negb (is_not_a_date_time (expires c)) then ptime_to_time_t (expires c) else 0) <= INT64_MAX ->
  load_line (tabbed (fields dd c ++ fs)) = Ok (Some (reloaded dd c)).
Proof.
  intros F Hh Ht.
  assert (exists gs g, fields dd c ++ fs = gs ++ [g]) as (gs & g & E).
  { destruct (exists_last (l := fields dd c ++ fs)) as (gs & g & E); [discriminate|eauto]. }
  unfold load_line. rewrite E in *. rewrite tabbed_app.
  change (tabbed [g]) with (concat [g ++ [TAB]]). cbn [concat]. rewrite app_nil_r.
  rewrite trim_tabbed by exact F. pose proof (split_tabs_tabbed gs g F) as ST.
  destruct (tabbed gs ++ g) as [|x t] eqn:Et.
  { apply app_eq_nil in Et as [_ Et]. apply Forall_app in F as [_ F]. apply Forall_inv in F as [Hg _]. congruence. }
  assert (x <> "#"%char) as Hx.
  { unfold fields in E. set (d := if str_eqb (domain c) [] then dd else domain c) in *. cbn [app] in E.
    destruct gs as [|h gs]; [discriminate|]. injection E as Eh _. rewrite <- Eh in *. clear Eh.
    assert (plain d) as [Hd _] by (apply Forall_app in F as [F _]; apply (Forall_inv F)).
    destruct d as [|y d]; [congruence|]. unfold tabbed in Et. cbn in Et. injection Et as -> _. exact Hh. }
  rewrite (proj2 (Ascii.eqb_neq x "#") Hx), ST, <- E. unfold fields. cbn [app]. unfold reloaded, atol.
  rewrite <- (app_nil_r (itoa _)), strtoll_itoa by (auto; exact I). cbn [fst].
  destruct (secure c); reflexivity.
Qed.
End File.

(** Saving a jar and loading the file gives back the first cookie only:
    no line break is written after a cookie, and a line is one cookie. *)
Theorem save_load_first `{P : Platform} dd c cs d j :
  Forall (fun c => Forall plain (fields dd c)) (c :: cs) ->
  hd NUL (if str_eqb (domain c) [] then dd else domain c) <> "#"%char ->
  INT64_MIN <= (if negb (is_not_a_date_time (expires c)) then ptime_to_time_t (expires c) else 0) <= INT64_MAX ->
  load_from_file (save_to_file dd (Cookies _ (c :: cs) d)) j = Ok (push_back (reloaded dd c) j).
Proof.
  intros F Hh Ht. unfold load_from_file, save_to_file. cbn [m_cookies]. rewrite concat_save. cbn [map concat].
  set (fs := concat (map (fields dd) cs)).
  assert (Forall plain (fields dd c ++ fs)) as Fp.
  { inversion F as [|? ? Fc Fcs]; subst. apply Forall_app. split; [exact Fc|].
    unfold fs. apply Forall_concat, Forall_map. exact Fcs. }
  assert (forall t, lines [] (memo ++ t) =
    [$"# Netscape HTTP Cookie File"; $"# http://curl.haxx.se/docs/http-cookies.html";
     $"# This file was generated by libcurl! Edit at your own risk."; []] ++ lines [] t) as M by reflexivity.
  rewrite M, lines_nolf by now apply tabbed_no_lf. cbn [app load_lines].
  rewrite load_line_fields by assumption. reflexivity.
Qed.

Lemma save_load_first_witness :
  let c v := Cookie example_platform ($"n") v ($"x.com") ($"/") (Some 5) false true in
  load_from_file (save_to_file [] (Cookies _ [c ($"1"); c ($"2")] [])) new_cookies = Ok (Cookies _ [c ($"1")] []).
Proof.
  intros c. rewrite (save_load_first (P := example_platform)); [reflexivity| |discriminate|vm_compute; split; congruence].
  repeat (apply List.Forall_cons; [repeat (apply List.Forall_cons; [split; [discriminate|repeat constructor]|]); apply List.Forall_nil|]).
  apply List.Forall_nil.
Defined.

(** A quoted value hides the semicolon after it: the attribute that follows
    becomes a cookie of its own, named [;path]. *)
Lemma quoted_value_attribute :
  parse_cookie_string (P := example_platform) [] ($"a=" ++ ["034"%char] ++ $"x" ++ ["034"%char] ++ $";path=/") =
  Ok (Some [with_pair ($";path") ($"/") new_cookie; with_pair ($"a") ($"x") new_cookie]).
Proof. reflexivity. Qed.
