(* ===== verification/Ipdb.v ===== *)
(** The IP location database: qqwry/include/qqwry/ipdb.hpp.

    The mapped file is a string of bytes and a pointer into it an offset; a read
    outside the file is the fault [OutOfFile].  The conversions of [iconv] are
    variables.  Redirections are followed on fuel ([RedirectLoop] when it runs
    out), since a file can redirect to itself. *)

From S2P Require Import Prelude CLib OrdMap.

Inductive fault : Type := OutOfFile | BufferOverflow | Unterminated | NullDereference | RedirectLoop | NotFound.

Record ipdb : Type := Ipdb {
  m_file : cstring;
  m_first_record : Z;
  m_last_record : Z
}.

(** ** Reading the file *)

Definition byte_at (f : cstring) (off : Z) : result fault Z :=
  if off <? 0 then Err OutOfFile
  else match f !! Z.to_nat off with Some c => Ok (uchar c) | None => Err OutOfFile end.

(** [to_hostending] on a little-endian host. *)
Definition to_hostending (v : Z) : Z := v.

Definition get_dword (f : cstring) (off : Z) : result fault Z :=
  b0 ← byte_at f off;
  b1 ← byte_at f (off + 1);
  b2 ← byte_at f (off + 2);
  b3 ← byte_at f (off + 3);
  mret (to_hostending (b0 + Z.shiftl b1 8 + Z.shiftl b2 16 + Z.shiftl b3 24)).

(** [Get3BYTEptr], and the conversion of [_offset_]: four bytes are read. *)
Definition get_3byte (f : cstring) (off : Z) : result fault Z :=
  v ← get_dword f off; mret (Z.land v 0xffffff).

(** The constructor from memory. *)
Definition ipdb_new (f : cstring) : result fault ipdb :=
  a ← get_dword f 0; b ← get_dword f 4; mret (Ipdb f a b).

(** A NUL-terminated string of the file. *)
Fixpoint until_nul (s : cstring) : option cstring :=
  match s with
  | [] => None
  | c :: s' => if c =c NUL then Some [] else (cons c) <$> until_nul s'
  end.
Definition str_at (f : cstring) (off : Z) : result fault cstring :=
  if off <? 0 then Err OutOfFile
  else match until_nul (drop (Z.to_nat off) f) with Some s => Ok s | None => Err OutOfFile end.

(** ** Wildcards *)

(** One segment of a pattern against the beginning of a text. *)
Fixpoint match_here (seg s : cstring) : bool :=
  match seg, s with
  | [], _ => true
  | _ :: _, [] => false
  | p :: seg', c :: s' => ((p =c "?") || (c =c p)) && match_here seg' s'
  end.

(** [searchMatch]: the text after the leftmost occurrence of the segment. *)
Fixpoint search_match (seg s : cstring) : option cstring :=
  match s with
  | [] => None
  | _ :: s' => if match_here seg s then Some (drop (length seg) s) else search_match seg s'
  end.

(** The first loop of [match_exp]: [None] for a mismatch, else what is left of
    the text and of the pattern. *)
Fixpoint match_prefix (s e : cstring) : option (cstring * cstring) :=
  match s, e with
  | c :: s', p :: e' =>
      if p =c "*" then Some (s, e)
      else if negb (p =c "?") && negb (c =c p) then None
      else match_prefix s' e'
  | _, _ => Some (s, e)
  end.

Definition all_stars (e : cstring) : bool := match drop_while (fun c => c =c "*") e with [] => true | _ => false end.

(** The loop over the segments: [None] for [false], else the last segment, or no
    segment when the pattern ends in a star. *)
Fixpoint segments (fuel : nat) (s e last : cstring) : option (option cstring) :=
  match fuel with
  | O => None
  | S f =>
      match e with
      | [] => Some (Some last)
      | _ :: _ =>
          match drop_while (fun c => c =c "*") e with
          | [] => Some None
          | e' =>
              let '(tmp, e'') := span (fun c => negb (c =c "*")) e' in
              match search_match tmp s with
              | Some s' => segments f s' e'' tmp
              | None => None
              end
          end
      end
  end.

Definition match_exp (str exp : cstring) : bool :=
  match str, exp with
  | [], _ => all_stars exp
  | _ :: _, [] => false
  | _, _ =>
      match match_prefix str exp with
      | None => false
      | Some ([], e) => all_stars e
      | Some (_ :: _, []) => false
      | Some (s, e) =>
          match segments (S (length e)) s e [] with
          | None => false
          | Some None => true
          | Some (Some last) => match_here last (drop (length str - length last) str)
          end
      end
  end.

(** ** Locations *)

Record IPLocation : Type := Location { country : cstring; area : cstring }.

Definition REDIRECT_MODE_1 : Z := 1.
Definition REDIRECT_MODE_2 : Z := 2.

(** [Get_String]: the offset of the text. *)
Fixpoint get_string (fuel : nat) (f : cstring) (p : Z) : result fault Z :=
  match fuel with
  | O => Err RedirectLoop
  | S k =>
      b ← byte_at f p;
      if b =? REDIRECT_MODE_1 then o ← get_3byte f (p + 1); get_string k f o
      else if b =? REDIRECT_MODE_2 then get_3byte f (p + 1)
      else mret p
  end.

(** The text behind [Get_String]. *)
Definition text_at (fuel : nat) (f : cstring) (p : Z) : result fault cstring :=
  o ← get_string fuel f p; str_at f o.

(** [GetIPLocation(ptr)]: [strncpy] copies at most 128 characters, the [strcpy]
    of a country that is not redirected has no bound. *)
Fixpoint get_location (fuel : nat) (f : cstring) (ptr : Z) : result fault IPLocation :=
  match fuel with
  | O => Err RedirectLoop
  | S k =>
      b ← byte_at f ptr;
      if b =? REDIRECT_MODE_1 then o ← get_3byte f (ptr + 1); get_location k f o
      else
        c ← text_at k f ptr;
        if b =? REDIRECT_MODE_2 then
          a ← text_at k f (ptr + 4);
          mret (Location (take 128 c) (take 128 a))
        else if (128 <=? length c)%nat then Err BufferOverflow
        else
          a ← text_at k f (ptr + Z.of_nat (length c) + 1);
          mret (Location c (take 128 a))
  end.

(** ** Finding a record *)

Definition ip_in_region (ip ip1 ip2 : Z) : Z := if ip <? ip1 then -1 else if ip2 <? ip then 1 else 0.

(** [ntohl] on a little-endian host. *)
Definition ntohl (v : Z) : Z :=
  Z.shiftl (Z.land v 255) 24 + Z.shiftl (Z.land (Z.shiftr v 8) 255) 16
  + Z.shiftl (Z.land (Z.shiftr v 16) 255) 8 + Z.land (Z.shiftr v 24) 255.

(** [pindex[i].ip] and [pindex[i].offset]. *)
Definition index_ip (db : ipdb) (i : Z) : result fault Z := get_dword (m_file db) (m_first_record db + 7 * i).
Definition index_offset (db : ipdb) (i : Z) : result fault Z := get_3byte (m_file db) (m_first_record db + 7 * i + 4).

(** The loop of [FindRecord]; [None] for the null pointer. *)
Fixpoint find_loop (tries : nat) (db : ipdb) (ip l i r : Z) : result fault (option Z) :=
  match tries with
  | O => mret None
  | S t =>
      start ← index_ip db i;
      off ← index_offset db i;
      fin ← get_dword (m_file db) off;
      let c := ip_in_region ip start fin in
      if c =? 0 then mret (Some off)
      else if c =? 1 then
        let i' := i + (r - i) / 2 in
        if i =? i' then mret None else find_loop t db ip i i' r
      else find_loop t db ip l (i - (i - l) / 2) i
  end.

Definition find_record (db : ipdb) (s_addr : Z) : result fault (option Z) :=
  find_loop 50 db (ntohl s_addr) 0 0 (wrapu 64 (m_last_record db - m_first_record db) / 7).

Section Iconv.
(** [code_convert] (GBK to UTF-8) and [utf8_gbk]. *)
Variables to_utf8 to_gbk : cstring -> cstring.

(** [strlen] of an array of 128 characters. *)
Definition array_text (s : cstring) : result fault cstring :=
  if (length s <? 128)%nat then Ok s else Err Unterminated.

Definition convert_location (g : IPLocation) : result fault IPLocation :=
  c ← array_text (country g); a ← array_text (area g); mret (Location (to_utf8 c) (to_utf8 a)).

(** [GetIPLocation(ip)]. *)
Definition get_ip_location (fuel : nat) (db : ipdb) (s_addr : Z) : result fault IPLocation :=
  p ← find_record db s_addr;
  match p with
  | None => Err NotFound
  | Some o => g ← get_location fuel (m_file db) (o + 4); convert_location g
  end.

(** ** Searching by location *)

(** The offsets of the countries and areas already matched. *)
Record matched : Type := Matched { m_country : list (Z * unit); m_area : list (Z * unit) }.

Definition is_star (e : cstring) : bool := str_eqb e ($"*").
Definition has (k : Z) (m : list (Z * unit)) : bool :=
  match map_find k m with Some _ => true | None => false end.

(** The area field; [None] for the null pointer [parea]. *)
Definition match_area (fuel : nat) (f : cstring) (parea : option Z) (exp_area : cstring) (m : matched)
  : result fault (bool * matched) :=
  if is_star exp_area then mret (true, m)
  else match parea with
       | None => Err NullDereference
       | Some p =>
           b ← byte_at f p;
           if (b =? REDIRECT_MODE_1) || (b =? REDIRECT_MODE_2) then
             o ← get_3byte f (p + 1);
             if has o (m_area m) then mret (true, m)
             else
               t ← text_at fuel f p;
               mret (if match_exp t exp_area
                     then (true, Matched (m_country m) (map_insert o tt (m_area m))) else (false, m))
           else
             t ← text_at fuel f p;
             mret (if match_exp t exp_area
                   then (true, Matched (m_country m) (map_insert (Z.land p 0xFFFFFF) tt (m_area m))) else (false, m))
       end.

Fixpoint match_record (fuel : nat) (f : cstring) (p : Z) (exp_country exp_area : cstring) (m : matched)
  : result fault (bool * matched) :=
  match fuel with
  | O => Err RedirectLoop
  | S k =>
      if is_star exp_country then match_area k f None exp_area m
      else
        b ← byte_at f p;
        if b =? REDIRECT_MODE_1 then
          o ← get_3byte f (p + 1); match_record k f o exp_country exp_area m
        else if b =? REDIRECT_MODE_2 then
          o ← get_3byte f (p + 1);
          if has o (m_country m) then match_area k f (Some (p + 4)) exp_area m else mret (false, m)
        else
          c ← text_at k f p;
          if match_exp c exp_country
          then match_area k f (Some (p + Z.of_nat (length c) + 1)) exp_area
                 (Matched (map_insert p tt (m_country m)) (m_area m))
          else mret (false, m)
  end.

Record IP_region : Type := Region { r_start : Z; r_end : Z; r_location : IPLocation }.

(** The loop over the index, [n] records from offset [i] on. *)
Fixpoint get_ips_loop (n fuel : nat) (db : ipdb) (i : Z) (exp_country exp_area : cstring) (m : matched)
  : result fault (list IP_region) :=
  match n with
  | O => mret []
  | S n' =>
      o ← get_3byte (m_file db) (i + 4);
      '(ok, m') ← match_record fuel (m_file db) (o + 4) exp_country exp_area m;
      if (ok : bool) then
        s ← get_dword (m_file db) i;
        e ← get_dword (m_file db) o;
        g ← get_location fuel (m_file db) (o + 4);
        u ← convert_location g;
        rest ← get_ips_loop n' fuel db (i + 7) exp_country exp_area m';
        mret (Region (ntohl s) (ntohl e) u :: rest)
      else get_ips_loop n' fuel db (i + 7) exp_country exp_area m'
  end.

Definition get_ips (fuel : nat) (db : ipdb) (exp_country exp_area : cstring) : result fault (list IP_region) :=
  get_ips_loop (Z.to_nat ((m_last_record db - m_first_record db + 6) / 7)) fuel db (m_first_record db)
    (to_gbk exp_country) (to_gbk exp_area) (Matched [] []).
End Iconv.

(** ** Decrypting *)

(** The loop of [decodeQQWryDat] over the first [n] bytes. *)
Fixpoint decrypt (n : nat) (key : Z) (s : cstring) : result fault cstring :=
  match n with
  | O => mret s
  | S n' =>
      match s with
      | [] => Err OutOfFile
      | c :: s' =>
          let key' := Z.land (uint32 (uint32 (key * 0x805) + 1)) 0xFF in
          r ← decrypt n' key' s'; mret (chr (Z.lxor (uchar c) key') :: r)
      end
  end.

(** ** The search *)

Section Search.
Variables (db : ipdb) (n : Z) (start off fin : Z -> Z).

(** The index of a database: [n + 1] records, readable below the last, in
    increasing order and without overlap. *)
Record wf_index : Prop := {
  wf_count : wrapu 64 (m_last_record db - m_first_record db) / 7 = n;
  wf_some : 0 < n < 2 ^ 49;
  wf_read : forall k, 0 <= k < n ->
    index_ip db k = Ok (start k) /\ index_offset db k = Ok (off k)
    /\ get_dword (m_file db) (off k) = Ok (fin k);
  wf_order : forall j k, 0 <= j < k -> k <= n -> fin j < start k;
  wf_range : forall k, 0 <= k <= n -> start k <= fin k
}.

Hypothesis W : wf_index.
Variable ip : Z.

(** One turn of the loop at a readable record. *)
Lemma find_loop_step t l i r :
  0 <= i < n ->
  find_loop (S t) db ip l i r =
  if ip <? start i then find_loop t db ip l (i - (i - l) / 2) i
  else if fin i <? ip
  then if i =? i + (r - i) / 2 then Ok None else find_loop t db ip i (i + (r - i) / 2) r
  else Ok (Some (off i)).
Proof using W.
  intros Hi. cbn [find_loop]. destruct (wf_read W i Hi) as (-> & -> & E). cbn [mbind result_bind]. rewrite E.
  cbn [mbind result_bind]. unfold ip_in_region. destruct (ip <? start i); [reflexivity|].
  destruct (fin i <? ip); reflexivity.
Qed.

(** Records before and after the one that contains the address. *)
Lemma side k i :
  0 <= k < n -> start k <= ip <= fin k -> 0 <= i < n ->
  (i < k -> fin i < ip /\ start i <= ip) /\ (k < i -> ip < start i).
Proof using W.
  intros Hk Hip Hi. split; intros L.
  - pose proof (wf_order W i k). pose proof (wf_range W i). lia.
  - pose proof (wf_order W k i). lia.
Qed.

(** With the record strictly between [l] and [r] and [i] in the middle, the
    interval is halved until the record is found. *)
Lemma find_loop_finds k t : forall l i r,
  0 <= k < n -> start k <= ip <= fin k ->
  0 <= l < k -> k < r <= n -> r - l <= 2 ^ Z.of_nat t ->
  i = l + (r - l) / 2 \/ i = r - (r - l) / 2 ->
  find_loop t db ip l i r = Ok (Some (off k)).
Proof using W.
  induction t as [|t IH]; intros l i r Hk Hip Hl Hr Hd Hi; [cbn in Hd; lia|].
  rewrite Nat2Z.inj_succ, Z.pow_succ_r in Hd by lia.
  assert (l < i < r) as Hb by (destruct Hi; zdiv).
  rewrite find_loop_step by lia. destruct (side k i Hk Hip ltac:(lia)) as [Lo Hi'].
  destruct (Z.lt_trichotomy i k) as [C|[->|C]].
  - destruct (Lo C). replace (ip <? start i) with false by lia. replace (fin i <? ip) with true by lia.
    replace (i =? i + (r - i) / 2) with false by zdiv. apply IH; auto; [lia|]. destruct Hi; zdiv.
  - replace (ip <? start k) with false by lia. replace (fin k <? ip) with false by lia. reflexivity.
  - specialize (Hi' C). replace (ip <? start i) with true by lia. apply IH; auto; [lia|]. destruct Hi; zdiv.
Qed.

(** An address in no record before the last is never found. *)
Lemma find_loop_none t : forall l i r,
  (forall k, 0 <= k < n -> ~ start k <= ip <= fin k) ->
  0 <= l <= i -> i < n -> i <= r <= n -> find_loop t db ip l i r = Ok None.
Proof using W.
  induction t as [|t IH]; intros l i r N Hl Hi Hr; [reflexivity|]. rewrite find_loop_step by lia.
  specialize (N i ltac:(lia)) as Ni.
  destruct (ip <? start i) eqn:E1; [apply IH; auto; zdiv|]. destruct (fin i <? ip) eqn:E2; [|lia].
  destruct (i =? i + (r - i) / 2); [reflexivity|]. apply IH; auto; zdiv.
Qed.
End Search.

(** [FindRecord] finds the record of an address: if record [k] before the
    last of an ordered index contains the address, its offset is returned, within
    the 50 rounds the code allows; otherwise the null pointer. *)
Theorem find_record_correct db n start off fin s_addr :
  wf_index db n start off fin ->
  (forall k, 0 <= k < n -> start k <= ntohl s_addr <= fin k -> find_record db s_addr = Ok (Some (off k)))
  /\ ((forall k, 0 <= k < n -> ~ start k <= ntohl s_addr <= fin k) -> find_record db s_addr = Ok None).
Proof.
  intros W. unfold find_record. rewrite (wf_count _ _ _ _ _ W). pose proof (wf_some _ _ _ _ _ W) as Hn. split.
  - intros k Hk Hip. rewrite (find_loop_step db n start off fin W) by lia.
    destruct (side db n start off fin W _ k 0 Hk Hip ltac:(lia)) as [Lo _].
    destruct (Z.eq_dec k 0) as [->|Hk0].
    + replace (ntohl s_addr <? start 0) with false by lia. replace (fin 0 <? ntohl s_addr) with false by lia. reflexivity.
    + destruct (Lo ltac:(lia)). replace (ntohl s_addr <? start 0) with false by lia.
      replace (fin 0 <? ntohl s_addr) with true by lia. rewrite Z.sub_0_r, Z.add_0_l.
      replace (0 =? n / 2) with false by zdiv.
      apply (find_loop_finds db n start off fin W); auto; [lia|lia|cbn; lia|]. left. now rewrite Z.sub_0_r.
  - intros N. apply (find_loop_none db n start off fin W); auto; lia.
Qed.

(** The last record of the index is never found: an address it contains is
    reported as missing. *)
Theorem find_record_misses_last db n start off fin s_addr :
  wf_index db n start off fin -> start n <= ntohl s_addr -> find_record db s_addr = Ok None.
Proof.
  intros W Hip. unfold find_record. rewrite (wf_count _ _ _ _ _ W). pose proof (wf_some _ _ _ _ _ W) as Hn.
  apply (find_loop_none db n start off fin W); try lia. intros k Hk. pose proof (wf_order _ _ _ _ _ W k n). lia.
Qed.

(** A database of two records for the examples: 0.0.0.0 - 0.255.255.255 and the rest. *)
Definition dword_bytes (v : Z) : cstring := map (fun k => chr (Z.shiftr v (8 * k) mod 256)) [0; 1; 2; 3].
Definition example_db : ipdb :=
  Ipdb (dword_bytes 16 ++ dword_bytes 23 ++ dword_bytes 16777215 ++ dword_bytes 4294967295
        ++ dword_bytes 0 ++ take 3 (dword_bytes 8) ++ dword_bytes 16777216 ++ dword_bytes 12) 16 23.
Definition example_start (k : Z) : Z := if k =? 0 then 0 else 16777216.
Definition example_fin (k : Z) : Z := if k =? 0 then 16777215 else 4294967295.

Lemma example_wf : wf_index example_db 1 example_start (fun k => 8) example_fin.
Proof.
  constructor; try reflexivity; try lia.
  - intros k Hk. assert (k = 0) as -> by lia. repeat split; reflexivity.
  - intros j k Hj Hk. assert (j = 0) as -> by lia. assert (k = 1) as -> by lia. reflexivity.
  - intros k Hk. unfold example_start, example_fin. destruct (k =? 0); lia.
Qed.

Lemma find_record_correct_witness : find_record example_db 16777216 = Ok (Some 8).
Proof.
  apply (proj1 (find_record_correct _ _ _ _ _ 16777216 example_wf) 0); [lia|vm_compute; split; congruence].
Defined.

Lemma find_record_misses_last_witness : find_record example_db 255 = Ok None.
Proof. apply (find_record_misses_last _ _ _ _ _ 255 example_wf). vm_compute. congruence. Defined.

(** ** Wildcard matching *)

(** The meaning of a pattern: a star stands for any text, a question mark for
    any character. *)
Fixpoint glob (p : cstring) : cstring -> bool :=
  match p with
  | [] => fun s => match s with [] => true | _ => false end
  | c :: p' =>
      if c =c "*" then
        fix star s := glob p' s || match s with [] => false | _ :: s' => star s' end
      else fun s => match s with [] => false | x :: s' => ((c =c "?") || (x =c c)) && glob p' s' end
  end.

Lemma glob_star p s : glob ("*"%char :: p) s = true <-> exists k, (k <= length s)%nat /\ glob p (drop k s) = true.
Proof.
  induction s as [|c s IH].
  - cbn. rewrite orb_false_r. split; [intros G; exists O; auto|]. intros (k & Hk & G). destruct k; [exact G|lia].
  - change (glob ("*"%char :: p) (c :: s)) with (glob p (c :: s) || glob ("*"%char :: p) s).
    rewrite orb_true_iff, IH. split.
    + intros [G|(k & Hk & G)]; [exists O; split; [lia|exact G]|exists (S k); split; [cbn; lia|exact G]].
    + intros (k & Hk & G). destruct k as [|k]; [now left|right]. exists k. cbn in *. split; [lia|exact G].
Qed.

(** A star absorbs more text on its left. *)
Lemma glob_star_longer p s k : glob ("*"%char :: p) (drop k s) = true -> glob ("*"%char :: p) s = true.
Proof.
  rewrite !glob_star. intros (j & Hj & G). rewrite length_drop in Hj. rewrite drop_drop in G.
  destruct (Nat.le_gt_cases (k + j) (length s)) as [Hk|Hk]; [eauto|].
  exists (length s). split; [lia|]. rewrite drop_ge in G by lia. now rewrite drop_ge by lia.
Qed.

Lemma glob_star_star p s : glob ("*"%char :: "*"%char :: p) s = glob ("*"%char :: p) s.
Proof.
  apply eq_true_iff_eq. split.
  - intros G. apply glob_star in G as (k & _ & G). now apply glob_star_longer in G.
  - intros G. apply glob_star. exists O. split; [lia|exact G].
Qed.

Lemma glob_drop_stars e s :
  glob ("*"%char :: e) s = glob ("*"%char :: drop_while (fun c => c =c "*") e) s.
Proof.
  induction e as [|c e IH]; [reflexivity|]. cbn [drop_while]. destruct (c =c "*") eqn:E; [|reflexivity].
  apply Ascii.eqb_eq in E as ->. rewrite glob_star_star. exact IH.
Qed.

Lemma glob_all e : glob e [] = all_stars e.
Proof.
  unfold all_stars. induction e as [|c e IH]; [reflexivity|]. cbn [drop_while]. destruct (c =c "*") eqn:E.
  - cbn [glob]. rewrite E, orb_false_r. exact IH.
  - cbn [glob]. now rewrite E.
Qed.

(** A segment without stars. *)
Lemma glob_segment seg p s :
  forallb (fun c => negb (c =c "*")) seg = true ->
  glob (seg ++ p) s = match_here seg s && glob p (drop (length seg) s).
Proof.
  revert s. induction seg as [|c seg IH]; intros s; cbn [forallb app]; [reflexivity|].
  rewrite andb_true_iff, negb_true_iff. intros [E F]. cbn [glob match_here length]. rewrite E.
  destruct s as [|x s]; [reflexivity|]. rewrite IH by exact F. cbn [skipn]. now rewrite andb_assoc.
Qed.

Lemma match_here_length seg s : match_here seg s = true -> (length seg <= length s)%nat.
Proof.
  revert s. induction seg as [|c seg IH]; intros [|x s]; cbn; try lia; try discriminate.
  rewrite andb_true_iff. intros [_ M]. apply IH in M. lia.
Qed.

(** [search_match] finds the leftmost occurrence. *)
Lemma search_match_spec seg s :
  seg <> [] ->
  match search_match seg s with
  | Some t => exists q, t = drop (q + length seg) s /\ match_here seg (drop q s) = true
                        /\ forall q', (q' < q)%nat -> match_here seg (drop q' s) = false
  | None => forall q, match_here seg (drop q s) = false
  end.
Proof.
  intros Hne. induction s as [|c s IH]; cbn [search_match].
  - intros q. rewrite drop_nil. destruct seg; [congruence|reflexivity].
  - destruct (match_here seg (c :: s)) eqn:M.
    + exists O. repeat split; [exact M|lia].
    + destruct (search_match seg s) as [t|].
      * destruct IH as (q & -> & Mq & Lq). exists (S q). repeat split; [exact Mq|].
        intros [|q'] Hq; [exact M|]. apply Lq. lia.
      * intros [|q]; [exact M|apply IH].
Qed.

(** A last segment must end the text. *)
Lemma glob_last_segment seg s :
  forallb (fun c => negb (c =c "*")) seg = true -> (length seg <= length s)%nat ->
  glob ("*"%char :: seg) s = match_here seg (drop (length s - length seg) s).
Proof.
  intros F L. apply eq_true_iff_eq. rewrite glob_star.
  pose proof (fun t => glob_segment seg [] t F) as GS. rewrite app_nil_r in GS. split.
  - intros (k & Hk & G). rewrite GS, andb_true_iff in G. destruct G as [M E].
    destruct (drop (length seg) (drop k s)) eqn:D; [|discriminate].
    assert (length (drop (length seg) (drop k s)) = O) as Z0 by now rewrite D.
    rewrite !length_drop in Z0. apply match_here_length in M as Lm. rewrite length_drop in Lm.
    replace (length s - length seg)%nat with k by lia. exact M.
  - intros M. exists (length s - length seg)%nat. split; [lia|]. rewrite GS, M.
    rewrite drop_drop, drop_ge by lia. reflexivity.
Qed.

(** A segment before a star may be taken at its leftmost occurrence. *)
Lemma glob_leftmost seg e s :
  seg <> [] -> forallb (fun c => negb (c =c "*")) seg = true ->
  glob ("*"%char :: seg ++ "*"%char :: e) s =
  match search_match seg s with Some t => glob ("*"%char :: e) t | None => false end.
Proof.
  intros Hne F. pose proof (search_match_spec seg s Hne) as S. apply eq_true_iff_eq. rewrite glob_star.
  destruct (search_match seg s) as [t|].
  - destruct S as (q & -> & Mq & Lq). split.
    + intros (k & Hk & G). rewrite glob_segment, andb_true_iff in G by exact F. destruct G as [M G].
      destruct (Nat.lt_ge_cases k q) as [C|C]; [now rewrite Lq in M|].
      rewrite drop_drop in G. replace (k + length seg)%nat with (q + length seg + (k - q))%nat in G by lia.
      rewrite <- drop_drop in G. now apply glob_star_longer in G.
    + intros G. pose proof (match_here_length _ _ Mq) as Lm. rewrite length_drop in Lm.
      assert (length seg <> O) by (destruct seg; [congruence|discriminate]).
      exists q. split; [lia|]. rewrite glob_segment, Mq by exact F. now rewrite drop_drop.
  - split; [|discriminate]. intros (k & Hk & G). rewrite glob_segment, S in G by exact F. discriminate.
Qed.

Lemma span_split (p : ascii -> bool) s : s = fst (span p s) ++ snd (span p s) /\ forallb p (fst (span p s)) = true
  /\ match snd (span p s) with [] => True | c :: _ => p c = false end.
Proof.
  induction s as [|c s IH]; cbn [span].
  { repeat split. }
  destruct (p c) eqn:E; [|cbn; auto].
  destruct (span p s) as [a b]. cbn in *. destruct IH as (-> & F & S). rewrite E. auto.
Qed.

Lemma drop_while_stop p s : match drop_while p s with [] => True | c :: _ => p c = false end.
Proof. induction s as [|c s IH]; cbn; [exact I|]. destruct (p c) eqn:E; [exact IH|exact E]. Qed.

(** Suffixes of suffixes. *)
Lemma drop_suffix {A} (s : list A) m n :
  (n <= length (drop m s))%nat -> drop (length (drop m s) - n) (drop m s) = drop (length s - n) s.
Proof.
  intros H. rewrite length_drop in *. rewrite drop_drop. destruct (Nat.le_gt_cases m (length s)).
  - f_equal. lia.
  - now rewrite !drop_ge by lia.
Qed.

(** The loop over the segments decides the pattern. *)
Lemma segments_glob fuel : forall s e last,
  (length e < fuel)%nat ->
  match segments fuel s ("*"%char :: e) last with
  | None => glob ("*"%char :: e) s = false
  | Some None => glob ("*"%char :: e) s = true
  | Some (Some seg) => (length seg <= length s)%nat
      /\ glob ("*"%char :: e) s = match_here seg (drop (length s - length seg) s)
  end.
Proof.
  induction fuel as [|f IH]; intros s e last Hf; [lia|]. cbn [segments].
  change (drop_while (fun c => c =c "*") ("*"%char :: e)) with (drop_while (fun c => c =c "*") e).
  rewrite glob_drop_stars. pose proof (drop_while_stop (fun c => c =c "*") e) as D.
  pose proof (drop_while_length (fun c => c =c "*") e) as Ld.
  destruct (drop_while (fun c => c =c "*") e) as [|c e'].
  { apply glob_star. exists (length s). split; [lia|]. now rewrite drop_ge by lia. }
  pose proof (span_split (fun c => negb (c =c "*")) (c :: e')) as SS.
  assert (fst (span (fun c => negb (c =c "*")) (c :: e')) <> []) as Hne.
  { cbn [span]. rewrite D. cbn [negb]. destruct (span _ e'). discriminate. }
  destruct (span (fun c => negb (c =c "*")) (c :: e')) as [tmp e'']. cbn [fst snd] in *.
  destruct SS as (Es & Ft & St). rewrite Es in *. rewrite length_app in Ld.
  assert (length tmp <> O) by (destruct tmp; [congruence|discriminate]).
  destruct e'' as [|x e''].
  - rewrite app_nil_r. pose proof (search_match_spec tmp s Hne) as S. destruct (search_match tmp s) as [t|].
    + destruct S as (q & _ & Mq & _). apply match_here_length in Mq. rewrite length_drop in Mq.
      destruct f as [|f]; [lia|]. cbn [segments]. split; [lia|]. apply glob_last_segment; [exact Ft|lia].
    + apply not_true_iff_false. intros G. apply glob_star in G as (k & _ & G).
      rewrite <- (app_nil_r tmp), glob_segment, S in G by exact Ft. discriminate.
  - apply negb_false_iff, Ascii.eqb_eq in St as ->. rewrite glob_leftmost by assumption.
    pose proof (search_match_spec tmp s Hne) as S. destruct (search_match tmp s) as [t|]; [|reflexivity].
    destruct S as (q & -> & Mq & _). cbn [length] in Ld.
    specialize (IH (drop (q + length tmp) s) e'' tmp ltac:(lia)).
    destruct (segments f (drop (q + length tmp) s) ("*"%char :: e'') tmp) as [[seg|]|]; auto.
    destruct IH as [L ->]. split; [rewrite length_drop in L; lia|]. now rewrite drop_suffix by exact L.
Qed.

Lemma match_prefix_glob s : forall e,
  match match_prefix s e with
  | None => glob e s = false
  | Some (s', e') => glob e s = glob e' s' /\ (exists m, s' = drop m s)
      /\ match s', e' with _ :: _, c :: _ => c = "*"%char | _, _ => True end
  end.
Proof.
  induction s as [|c s IH]; intros [|p e]; cbn [match_prefix]; try (repeat split; exists O; reflexivity).
  destruct (p =c "*") eqn:E1.
  - apply Ascii.eqb_eq in E1. repeat split; [exists O; reflexivity|exact E1].
  - cbn [glob]. rewrite E1. destruct (p =c "?") eqn:E2; cbn [negb andb orb].
    + specialize (IH e). destruct (match_prefix s e) as [[s' e']|]; [|exact IH].
      destruct IH as (I1 & (m & ->) & I3). repeat split; [exact I1|exists (S m); reflexivity|exact I3].
    + destruct (c =c p) eqn:E3; cbn [negb andb]; [|reflexivity].
      specialize (IH e). destruct (match_prefix s e) as [[s' e']|]; [|exact IH].
      destruct IH as (I1 & (m & ->) & I3). repeat split; [exact I1|exists (S m); reflexivity|exact I3].
Qed.

(** [match_exp] decides whether a text matches a pattern with stars and
    question marks: the greedy search by segments agrees with the meaning of
    the pattern on every text and every pattern. *)
Theorem match_exp_glob str exp : match_exp str exp = glob exp str.
Proof.
  unfold match_exp. destruct str as [|c str]; [symmetry; apply glob_all|]. destruct exp as [|p exp]; [reflexivity|].
  pose proof (match_prefix_glob (c :: str) (p :: exp)) as M.
  destruct (match_prefix (c :: str) (p :: exp)) as [[s e]|]; [|symmetry; exact M].
  destruct M as (-> & (m & Es) & St). destruct s as [|x s]; [symmetry; apply glob_all|].
  destruct e as [|y e]; [reflexivity|]. subst y.
  pose proof (segments_glob (S (length ("*"%char :: e))) (x :: s) e [] ltac:(cbn; lia)) as G.
  destruct (segments _ (x :: s) _ _) as [[seg|]|]; [|now rewrite G|now rewrite G].
  destruct G as [L ->]. rewrite Es in *. now rewrite drop_suffix.
Qed.

(** ** Other facts *)

(** A search for any country with a particular area dereferences a null pointer:
    the pointer to the area is only set while the country is examined. *)
Lemma match_any_country fuel f p exp_area m :
  is_star exp_area = false -> match_record (S fuel) f p ($"*") exp_area m = Err NullDereference.
Proof. intros E. cbn [match_record]. change (is_star ($"*")) with true. unfold match_area. now rewrite E. Qed.

(** A country of 128 characters or more that is stored in the record itself
    overflows the buffer. *)
Lemma long_country_overflows fuel f p b c :
  byte_at f p = Ok b -> b <> REDIRECT_MODE_1 -> b <> REDIRECT_MODE_2 ->
  str_at f p = Ok c -> (128 <= length c)%nat ->
  get_location (S (S fuel)) f p = Err BufferOverflow.
Proof.
  intros Eb N1 N2 Ec L. cbn [get_location]. rewrite Eb. cbn [mbind result_bind].
  unfold text_at. cbn [get_string]. rewrite Eb. cbn [mbind result_bind].
  rewrite !(proj2 (Z.eqb_neq _ _) N1), !(proj2 (Z.eqb_neq _ _) N2). cbn [mbind result_bind mret result_ret].
  rewrite Ec. cbn [mbind result_bind]. now rewrite (proj2 (Nat.leb_le _ _) L).
Qed.

(** Decrypting twice gives the text back: the key stream does not depend on it. *)
Lemma decrypt_involutive n key s s' : decrypt n key s = Ok s' -> decrypt n key s' = Ok s.
Proof.
  revert key s s'. induction n as [|n IH]; intros key s s'; cbn [decrypt]; [now intros [= <-]|].
  destruct s as [|c s]; [discriminate|]. set (k := Z.land _ 0xFF).
  destruct (decrypt n k s) as [r|] eqn:E; [|discriminate]. cbn [mbind result_bind mret result_ret]. intros [= <-].
  rewrite (IH _ _ _ E). cbn [mbind result_bind mret result_ret]. do 2 f_equal.
  assert (0 <= k < 256) as Hk.
  { unfold k. change 0xFF with (Z.ones 8). rewrite Z.land_ones by lia. apply Z.mod_pos_bound. lia. }
  pose proof (uchar_range c) as Hc.
  assert (0 <= Z.lxor (uchar c) k < 256) as Hx.
  { split; [apply Z.lxor_nonneg; lia|].
    destruct (Z.eq_dec (Z.lxor (uchar c) k) 0) as [->|Hn]; [lia|].
    apply Z.log2_lt_cancel. eapply Z.le_lt_trans; [apply Z.log2_lxor; lia|].
    change (Z.log2 256) with 8.
    assert (forall x, x < 256 -> Z.log2 x < 8) as B.
    { intros x Hx. apply (Z.le_lt_trans _ (Z.log2 255)); [apply Z.log2_le_mono; lia|reflexivity]. }
    apply Z.max_lub_lt; apply B; lia. }
  rewrite uchar_chr, Z.mod_small, Z.lxor_assoc, Z.lxor_nilpotent, Z.lxor_0_r by lia. apply chr_uchar.
Qed.
