(* ===== verification/HttpBody.v ===== *)
(** Reading a response body: [read_some] and [read_some_impl] of
    avhttp/impl/http_stream.ipp, in the configuration of avbot, which does not
    define [AVHTTP_ENABLE_ZLIB].

    The members that reading uses are the record [body].  The socket is the
    class [Network]; what Boost.Asio documents about stream sockets is the class
    [NetworkLaws], whose [incoming] is the text the peer still sends.  A buffer
    sequence is its total size: its buffers are filled in order.  An
    [error_code] is [None] for success; it is an in and out parameter.  The
    loops that read until a line ends run on fuel, since a peer can send an
    endless line ([Hang]). *)

From S2P Require Import Prelude CLib EscapeString Settings Cookie HttpParsers.

(** ** Errors *)

Inductive error : Type :=
| eof | shut_down | network_reset | not_found | host_not_found | operation_not_supported | already_open
| no_permission | network_unreachable | host_unreachable | connection_refused | timed_out
| address_family_not_supported
| malformed_status_line | malformed_response_headers | invalid_chunked_encoding | fake_continue | invalid_redirect
| socks_unsupported_version | socks_username_required | socks_unsupported_authentication_version
| socks_authentication_error | socks_general_failure | socks_command_not_supported
| socks_no_identd | socks_identd_error
| http_status (code : Z)
| system_error (n : Z).

Abbreviation error_code := (option error).

(** [ReadPastEnd] is a read behind the contents of a buffer, [Thrown] an
    exception that leaves a function which reports errors in an [error_code]. *)
Inductive fault : Type := AssertFailed | Hang | BadUrl | ReadPastEnd | Thrown | CookieFault (f : Cookie.fault).

(** ** The network *)

Class Network := {
  sock : Type;
  sock_is_open : sock -> bool;
  (** [sock.read_some(buffers of this size, ec)]. *)
  sock_read_some : nat -> sock -> cstring * error_code * sock;
  (** [read_until(sock, streambuf, CRLF, ec)]: the position after the delimiter
      and the new contents of the buffer. *)
  read_until_crlf : cstring -> sock -> nat * error_code * cstring * sock;
  (** [write(sock, streambuf, ec)]. *)
  sock_write : cstring -> sock -> error_code * sock
}.

(** The position after the first CRLF. *)
Fixpoint crlf_end (s : cstring) : option nat :=
  match s with
  | [] => None
  | c :: s' => if is_prefix crlf s then Some 2%nat else S <$> crlf_end s'
  end.

Class NetworkLaws `(N : Network) := {
  incoming : sock -> cstring;
  (** A read gives at least one character when there is one. *)
  read_some_data : forall n s, (0 < n)%nat -> incoming s <> [] ->
    exists d s', sock_read_some n s = (d, None, s') /\ d <> [] /\ (length d <= n)%nat
      /\ incoming s = d ++ incoming s';
  read_some_eof : forall n s, (0 < n)%nat -> incoming s = [] ->
    exists s', sock_read_some n s = ([], Some eof, s') /\ incoming s' = [];
  read_until_found : forall n buf s, crlf_end (buf ++ incoming s) = Some n ->
    exists buf' s', read_until_crlf buf s = (n, None, buf', s')
      /\ buf' ++ incoming s' = buf ++ incoming s /\ (n <= length buf')%nat;
  read_until_eof : forall buf s, crlf_end (buf ++ incoming s) = None ->
    exists n buf' s', read_until_crlf buf s = (n, Some eof, buf', s')
}.

(** ** State *)

Record body `{Network} : Type := Body {
  m_keep_alive : bool;
  m_is_chunked : bool;
  m_skip_crlf : bool;
  m_is_chunked_end : bool;
  m_chunked_size : Z;
  m_content_length : Z;
  m_body_size : Z;
  m_response : cstring;
  m_sock : sock
}.

(** ** [stream >> size] with [std::hex] *)

Definition hex_step (a : Z) (c : ascii) : Z := a * 16 + default 0 (hex_value c).
Definition is_hex (c : ascii) : bool := match hex_value c with Some _ => true | None => false end.

(** A [size_t]: white space, a sign, [0x], digits; the largest value on
    overflow, 0 when there is no number. *)
Definition extract_hex (s : cstring) : Z :=
  let '(neg, s) := strtol_sign (drop_while isspace s) in
  let s := match s with
           | z :: x :: s' => if (z =c "0") && ((x =c "x") || (x =c "X")) then s' else s
           | _ => s
           end in
  let v := fold_left hex_step (fst (span is_hex s)) 0 in
  if 2 ^ 64 <=? v then 2 ^ 64 - 1 else if (neg : bool) then wrapu 64 (- v) else v.

Section Body.
Context `{N : Network}.
(** Whether [BOOST_ASSERT] is active. *)
Variable asserts : bool.

Abbreviation B := (st body fault).

Definition set_response (r : cstring) (b : body) : body :=
  Body _ (m_keep_alive b) (m_is_chunked b) (m_skip_crlf b) (m_is_chunked_end b) (m_chunked_size b)
    (m_content_length b) (m_body_size b) r (m_sock b).
Definition set_sock (s : sock) (b : body) : body :=
  Body _ (m_keep_alive b) (m_is_chunked b) (m_skip_crlf b) (m_is_chunked_end b) (m_chunked_size b)
    (m_content_length b) (m_body_size b) (m_response b) s.
Definition set_chunked_size (n : Z) (b : body) : body :=
  Body _ (m_keep_alive b) (m_is_chunked b) (m_skip_crlf b) (m_is_chunked_end b) n
    (m_content_length b) (m_body_size b) (m_response b) (m_sock b).
Definition set_skip_crlf (k : bool) (b : body) : body :=
  Body _ (m_keep_alive b) (m_is_chunked b) k (m_is_chunked_end b) (m_chunked_size b)
    (m_content_length b) (m_body_size b) (m_response b) (m_sock b).
Definition set_chunked_end (e : bool) (b : body) : body :=
  Body _ (m_keep_alive b) (m_is_chunked b) (m_skip_crlf b) e (m_chunked_size b)
    (m_content_length b) (m_body_size b) (m_response b) (m_sock b).
Definition set_body_size (n : Z) (b : body) : body :=
  Body _ (m_keep_alive b) (m_is_chunked b) (m_skip_crlf b) (m_is_chunked_end b) (m_chunked_size b)
    (m_content_length b) n (m_response b) (m_sock b).

Definition boost_assert (c : bool) : B () := if asserts && negb c then st_fail AssertFailed else mret ().

(** [read_some_impl]: first what is left in [m_response], then the socket. *)
Definition read_some_impl (n : nat) : B (cstring * error_code) :=
  b ← st_get;
  if (0 <? length (m_response b))%nat then
    st_modify (set_response (drop n (m_response b))) ;; mret (take n (m_response b), None)
  else
    let '(d, ec, s) := sock_read_some n (m_sock b) in
    st_modify (set_sock s) ;;
    mret (d, match ec with Some shut_down => Some eof | _ => ec end).

(** [while (!ec && bytes_transferred != 2)]. *)
Fixpoint read_crlf (fuel : nat) (got : cstring) : B (cstring * error_code) :=
  if (length got =? 2)%nat then mret (got, None)
  else match fuel with
       | O => st_fail Hang
       | S f =>
           '(d, ec) ← read_some_impl (2 - length got);
           match ec with
           | Some _ => mret (got ++ d, ec)
           | None => read_crlf f (got ++ d)
           end
       end.

Definition ends_with_crlf (s : cstring) : bool :=
  (2 <=? length s)%nat && str_eqb (drop (length s - 2) s) crlf.

(** [while (!ec)] over the characters of the line with the size. *)
Fixpoint read_size_line (fuel : nat) (line : cstring) (ec : error_code) : B (cstring * error_code) :=
  match ec with
  | Some _ => mret (line, ec)
  | None =>
      match fuel with
      | O => st_fail Hang
      | S f =>
          '(d, ec) ← read_some_impl 1;
          if (length d =? 1)%nat then
            if ends_with_crlf (line ++ d) then mret (line ++ d, ec)
            else read_size_line f (line ++ d) ec
          else read_size_line f line ec
      end
  end.

(** The head of a chunk: [inl] for a [return], else the error code. *)
Definition chunk_header (fuel : nat) (ec : error_code) : B (nat * error_code + error_code) :=
  b ← st_get;
  r ← (if negb (m_skip_crlf b) then
         '(got, ec) ← read_crlf fuel [];
         match ec with
         | Some _ => mret (inl (O, ec))
         | None =>
             if m_is_chunked_end b then
               mret (inl (O, if negb (m_keep_alive b) then Some eof else None))
             else
               boost_assert (str_eqb got crlf) ;;
               mret (if negb (str_eqb got crlf) then inl (2%nat, Some invalid_chunked_encoding)
                     else inr None)
         end
       else mret (inr ec));
  match r with
  | inl x => mret (inl x)
  | inr ec =>
      '(line, ec) ← read_size_line fuel [] ec;
      match ec with
      | Some _ => mret (inl (O, ec))
      | None =>
          st_modify (set_chunked_size (extract_hex line)) ;;
          st_modify (set_skip_crlf false) ;;
          mret (inr None)
      end
  end.

(** A read from a chunked body. *)
Definition read_some_chunked (fuel n : nat) (ec : error_code) : B (nat * cstring * error_code) :=
  b ← st_get;
  h ← (if m_chunked_size b =? 0 then chunk_header fuel ec else mret (inr ec));
  match h with
  | inl (k, ec) => mret (k, [], ec)
  | inr ec =>
      b ← st_get;
      if negb (m_chunked_size b =? 0) then
        let max_length := Z.to_nat (Z.min (Z.of_nat n) (m_chunked_size b)) in
        '(d, ec) ← read_some_impl max_length;
        st_modify (fun b => set_chunked_size (wrapu 64 (m_chunked_size b - Z.of_nat (length d))) b) ;;
        mret (length d, d, ec)
      else
        st_modify (set_chunked_end true) ;;
        mret (O, [], if negb (m_keep_alive b) then Some eof else ec)
  end.

(** [read_some(buffers, ec)]: the returned count, what was stored in the
    buffers, and the error code. *)
Definition read_some (fuel n : nat) (ec : error_code) : B (nat * cstring * error_code) :=
  b ← st_get;
  if m_is_chunked b then read_some_chunked fuel n ec
  else if m_keep_alive b
          && negb (m_content_length b =? -1) && (m_body_size b =? wrapu 64 (m_content_length b))
  then mret (O, [], ec)
  else
    '(d, ec) ← read_some_impl n;
    st_modify (fun b => set_body_size (wrapu 64 (m_body_size b + Z.of_nat (length d))) b) ;;
    mret (length d, d, ec).
End Body.

(** ** Specification: the chunked coding *)

(** A chunk as it is sent: the line with its size, and its data. *)
Record chunk : Type := Chunk { c_line : cstring; c_data : cstring }.

Fixpoint chunked (cs : list chunk) (last : cstring) : cstring :=
  match cs with
  | [] => last ++ crlf
  | c :: cs' => c_line c ++ crlf ++ c_data c ++ crlf ++ chunked cs' last
  end.

Definition chunks_text (cs : list chunk) : cstring := concat (map c_data cs).

(** The loop of a client: reads until an error or until nothing comes. *)
Fixpoint read_all `{Network} (asserts : bool) (calls fuel n : nat) : st body fault (cstring * error_code) :=
  match calls with
  | O => st_fail Hang
  | S k =>
      '(m, d, ec) ← read_some asserts fuel n None;
      if (m =? 0)%nat || bool_decide (ec <> None) then mret (d, ec)
      else '(t, ec) ← read_all asserts k fuel n; mret (d ++ t, ec)
  end.

(** ** Lemmas: numbers *)

Lemma hex_step_nonneg ds : forall a, 0 <= a -> 0 <= fold_left hex_step ds a.
Proof.
  induction ds as [|c ds IH]; intros a Ha; cbn [fold_left]; [exact Ha|]. apply IH. unfold hex_step, hex_value.
  pose proof (uchar_range c). split_ifs; cbv [default from_option id]; zbool.
Qed.

Lemma extract_hex_range s : 0 <= extract_hex s < 2 ^ 64.
Proof.
  unfold extract_hex. destruct (strtol_sign _) as [neg s1].
  match goal with |- context [fold_left hex_step ?x 0] =>
    pose proof (hex_step_nonneg x 0 ltac:(lia)) as H; set (v := fold_left hex_step x 0) in * end.
  cbv zeta. destruct (2 ^ 64 <=? v) eqn:E; [lia|]. destruct neg; [unfold wrapu; apply Z.mod_pos_bound; lia|zbool].
Qed.

(** The text of a size. *)
Fixpoint hex_digits (k : nat) (n : Z) (acc : cstring) : cstring :=
  match k with
  | O => acc
  | S k' =>
      let acc' := hex_char (n mod 16) :: acc in
      if n <? 16 then acc' else hex_digits k' (n / 16) acc'
  end.
Definition hex_text (n : Z) : cstring := hex_digits 16 n [].

Lemma hex_value_char i : 0 <= i < 16 ->
  hex_value (hex_char i) = Some i /\ isspace (hex_char i) = false
  /\ (hex_char i =c "-") = false /\ (hex_char i =c "+") = false
  /\ (hex_char i =c "x") = false /\ (hex_char i =c "X") = false /\ mem_char (hex_char i) [LF] = false.
Proof. intros Hi. small_cases i 16%nat; repeat split; reflexivity. Qed.

Lemma hex_digits_value k n acc :
  (0 < k)%nat -> 0 <= n < 16 ^ Z.of_nat k ->
  fold_left hex_step (hex_digits k n acc) 0 = fold_left hex_step acc n.
Proof.
  revert n acc. induction k as [|k IH]; intros n acc Hk Hn; [lia|]. cbn [hex_digits].
  assert (forall a, hex_step a (hex_char (n mod 16)) = a * 16 + n mod 16) as Hstep.
  { intros a. unfold hex_step. now rewrite (proj1 (hex_value_char (n mod 16) ltac:(apply Z.mod_pos_bound; lia))). }
  destruct (n <? 16) eqn:E; zbool.
  - cbn [fold_left]. rewrite Hstep, Z.mod_small by lia. reflexivity.
  - rewrite Nat2Z.inj_succ, Z.pow_succ_r in Hn by lia. destruct k as [|k]; [change (16 ^ Z.of_nat 0) with 1 in Hn; lia|].
    rewrite IH; [|lia|].
    + cbn [fold_left]. rewrite Hstep. f_equal. pose proof (Z.div_mod n 16). lia.
    + split; [apply Z.div_pos; lia|]. apply Z.div_lt_upper_bound; lia.
Qed.

(** Digits, as [hex_digits] makes them. *)
Definition hex_digit (c : ascii) : Prop := exists i, 0 <= i < 16 /\ c = hex_char i.

Lemma hex_digits_digit k n acc : Forall hex_digit acc -> Forall hex_digit (hex_digits k n acc).
Proof.
  revert n acc; induction k as [|k IH]; intros n acc Ha; [exact Ha|]. cbn [hex_digits].
  assert (Forall hex_digit (hex_char (n mod 16) :: acc)).
  { constructor; [|exact Ha]. exists (n mod 16). split; [apply Z.mod_pos_bound; lia|reflexivity]. }
  destruct (n <? 16); auto.
Qed.

Lemma hex_digits_length k n acc :
  (length acc <= length (hex_digits k n acc) <= k + length acc)%nat.
Proof.
  revert n acc; induction k as [|k IH]; intros n acc; cbn [hex_digits]; [lia|].
  destruct (n <? 16); [cbn [length]; lia|]. specialize (IH (n / 16) (hex_char (n mod 16) :: acc)).
  cbn [length] in IH. lia.
Qed.

Lemma hex_digits_nonnil k n : (0 < k)%nat -> hex_digits k n [] <> [].
Proof.
  destruct k as [|k]; [lia|]. cbn [hex_digits]. intros _. destruct (n <? 16); [discriminate|].
  pose proof (hex_digits_length k (n / 16) [hex_char (n mod 16)]) as H.
  destruct (hex_digits _ _ _); cbn [length] in *; [lia|discriminate].
Qed.

(** What may follow a size: nothing that continues the number. *)
Definition ends_number (s : cstring) : Prop :=
  match s with [] => True | c :: _ => is_hex c = false /\ (c =c "x") = false /\ (c =c "X") = false end.

Lemma extract_hex_digits ds rest :
  Forall hex_digit ds -> ds <> [] -> ends_number rest -> fold_left hex_step ds 0 < 2 ^ 64 ->
  extract_hex (ds ++ rest) = fold_left hex_step ds 0.
Proof.
  intros Hd Hne Hr Hv. unfold extract_hex.
  destruct ds as [|c ds]; [congruence|]. inversion_clear Hd as [|? ? (i & Hi & Hci) Hds]. subst c.
  destruct (hex_value_char i Hi) as (Hh & Hsp & Hm & Hp & _).
  cbn [app drop_while]. rewrite Hsp. cbn [strtol_sign]. rewrite Hm, Hp.
  assert (match hex_char i :: ds ++ rest with
          | z :: x :: s' => if (z =c "0") && ((x =c "x") || (x =c "X")) then s' else hex_char i :: ds ++ rest
          | _ => hex_char i :: ds ++ rest
          end = hex_char i :: ds ++ rest) as ->.
  { destruct ds as [|y ds]; cbn [app].
    - destruct rest as [|y rest]; [reflexivity|]. destruct Hr as (_ & -> & ->). now rewrite andb_false_r.
    - inversion_clear Hds as [|? ? (k & Hk & ->) _]. destruct (hex_value_char k Hk) as (_ & _ & _ & _ & -> & -> & _).
      now rewrite andb_false_r. }
  assert (span is_hex (hex_char i :: ds ++ rest) = (hex_char i :: ds, rest)) as ->.
  { change (hex_char i :: ds ++ rest) with ((hex_char i :: ds) ++ rest). apply span_stop.
    - constructor; [unfold is_hex; now rewrite Hh|]. eapply Forall_impl; [exact Hds|]. intros c (k & Hk & ->).
      unfold is_hex. now rewrite (proj1 (hex_value_char k Hk)).
    - destruct rest; [exact I|]. apply Hr. }
  cbn [fst]. cbv zeta. now replace (2 ^ 64 <=? _) with false by lia.
Qed.

Lemma extract_hex_text n rest :
  0 <= n < 2 ^ 64 -> ends_number rest -> extract_hex (hex_text n ++ rest) = n.
Proof.
  intros Hn Hr. assert (fold_left hex_step (hex_text n) 0 = n) as Hv.
  { unfold hex_text. rewrite hex_digits_value; [reflexivity|lia|]. change (16 ^ Z.of_nat 16) with (2 ^ 64). exact Hn. }
  rewrite extract_hex_digits; [exact Hv| | |exact Hr|lia].
  - apply hex_digits_digit. constructor.
  - apply hex_digits_nonnil. lia.
Qed.

(** ** Lemmas: reading *)

Section Reading.
Context `{L : NetworkLaws}.
Variable asserts : bool.
Abbreviation B := (st body fault).

(** What is still to be read: the buffer and the network. *)
Definition input (b : body) : cstring := m_response b ++ incoming (m_sock b).

Definition set_input (r : cstring) (s : sock) (b : body) : body := set_sock s (set_response r b).

Lemma set_input_input r s r' s' b : set_input r s (set_input r' s' b) = set_input r s b.
Proof. reflexivity. Qed.

Lemma set_input_id b : set_input (m_response b) (m_sock b) b = b.
Proof. now destruct b. Qed.

Lemma read_some_impl_data n b :
  (0 < n)%nat -> input b <> [] ->
  exists d r s, read_some_impl n b = Ok ((d, None), set_input r s b)
    /\ d <> [] /\ (length d <= n)%nat /\ input b = d ++ r ++ incoming s.
Proof.
  intros Hn Hi. unfold read_some_impl. run. destruct (m_response b) as [|c r] eqn:E.
  - unfold input in Hi. rewrite E in Hi. destruct (read_some_data n (m_sock b) Hn Hi) as (d & s & E' & Hd & Hl & Hs).
    cbn [length Nat.ltb Nat.leb]. rewrite E'. exists d, [], s. split; [|split; [exact Hd|split; [exact Hl|]]].
    + unfold set_input. destruct b; cbn in *. now subst.
    + unfold input. now rewrite E, Hs.
  - exists (take n (c :: r)), (drop n (c :: r)), (m_sock b). split; [|split; [|split]].
    + cbn [length Nat.ltb Nat.leb]. now destruct b.
    + destruct n; [lia|discriminate].
    + rewrite length_take. lia.
    + unfold input. now rewrite E, app_assoc, take_drop.
Qed.

(** One character. *)
Lemma read_some_impl_one b c rest :
  input b = c :: rest ->
  exists r s, read_some_impl 1 b = Ok (([c], None), set_input r s b) /\ r ++ incoming s = rest.
Proof.
  intros Hi. destruct (read_some_impl_data 1 b) as (d & r & s & -> & Hd & Hl & E); [lia|now rewrite Hi|].
  rewrite Hi in E. destruct d as [|x [|y d]]; [congruence| |cbn in Hl; lia].
  injection E as -> E. eauto.
Qed.

Lemma input_set_input r s b : input (set_input r s b) = r ++ incoming s.
Proof. reflexivity. Qed.

Lemma read_crlf_ok fuel b x y rest :
  (2 <= fuel)%nat -> input b = x :: y :: rest ->
  exists r s, read_crlf fuel [] b = Ok (([x; y], None), set_input r s b) /\ r ++ incoming s = rest.
Proof.
  intros Hf Hi. destruct fuel as [|[|fuel]]; [lia|lia|].
  destruct (read_some_impl_data 2 b) as (d & r & s & E & Hd & Hl & Hr); [lia|now rewrite Hi|].
  cbn [read_crlf length Nat.eqb Nat.sub]. run. rewrite E. cbn [app].
  rewrite Hi in Hr. destruct d as [|a [|a' [|]]]; cbn [length] in Hl; [congruence| | |lia].
  - injection Hr as <- Hr. cbn [read_crlf length Nat.eqb Nat.sub app]. run.
    destruct (read_some_impl_one (set_input r s b) y rest) as (r' & s' & -> & Hr'); [now rewrite input_set_input|].
    exists r', s'. split; [|exact Hr']. destruct fuel; reflexivity.
  - injection Hr as <- <- Hr. exists r, s. split; [reflexivity|now symmetry].
Qed.

Lemma ends_with_crlf_lf s c : (c =c LF) = false -> ends_with_crlf (s ++ [c]) = false.
Proof.
  intros Hc. unfold ends_with_crlf. destruct (2 <=? _)%nat eqn:E; [|reflexivity]. cbn [andb].
  apply Nat.leb_le in E. rewrite length_app in *. cbn [length] in *.
  rewrite drop_app_le by lia. apply str_eqb_neq. intros H.
  destruct (drop _ s) as [|a [|a' l]] eqn:D; cbn in H; try discriminate.
  - injection H as -> ->. now rewrite Ascii.eqb_refl in Hc.
  - injection H as _ _ H. destruct l; discriminate.
Qed.

Lemma ends_with_crlf_end s : ends_with_crlf (s ++ crlf) = true.
Proof.
  unfold ends_with_crlf. rewrite length_app. cbn [crlf length].
  replace (length s + 2 - 2)%nat with (length s) by lia. rewrite drop_app_length.
  apply andb_true_iff. split; [apply Nat.leb_le; lia|apply str_eqb_refl].
Qed.

Lemma read_size_line_ok line : forall fuel pre b rest,
  (S (S (length line)) <= fuel)%nat -> free_of [LF] line -> input b = line ++ crlf ++ rest ->
  exists r s, read_size_line fuel pre None b = Ok ((pre ++ line ++ crlf, None), set_input r s b)
    /\ r ++ incoming s = rest.
Proof.
  induction line as [|c line IH]; intros fuel pre b rest Hf Hl Hi; destruct fuel as [|fuel]; try (cbn in Hf; lia).
  - destruct fuel as [|fuel]; [cbn in Hf; lia|].
    destruct (read_some_impl_one b CR (LF :: rest) Hi) as (r & s & E & Hr).
    cbn [read_size_line]. run. rewrite E. cbn [length Nat.eqb]. rewrite ends_with_crlf_lf by reflexivity.
    destruct (read_some_impl_one (set_input r s b) LF rest) as (r' & s' & E' & Hr'); [now rewrite input_set_input|].
    cbn [read_size_line]. run. rewrite E'. cbn [length Nat.eqb]. rewrite <- app_assoc.
    change ([CR] ++ [LF]) with crlf. rewrite ends_with_crlf_end. eauto.
  - inversion_clear Hl as [|? ? Hc Hl']. cbn [app] in Hi.
    destruct (read_some_impl_one b c _ Hi) as (r & s & E & Hr).
    cbn [read_size_line]. run. rewrite E. cbn [length Nat.eqb].
    rewrite ends_with_crlf_lf by (unfold mem_char in Hc; cbn [existsb] in Hc; now rewrite orb_false_r in Hc).
    destruct (IH fuel (pre ++ [c]) (set_input r s b) rest) as (r' & s' & -> & Hr');
      [cbn in Hf; lia|exact Hl'|now rewrite input_set_input|].
    exists r', s'. split; [|exact Hr']. now rewrite <- app_assoc.
Qed.
Lemma chunk_header_ok fuel b line rest :
  (S (S (length line)) <= fuel)%nat -> free_of [LF] line -> m_is_chunked_end b = false ->
  input b = (if m_skip_crlf b then [] else crlf) ++ line ++ crlf ++ rest ->
  exists r s, chunk_header asserts fuel None b
    = Ok (inr None, set_skip_crlf false (set_chunked_size (extract_hex (line ++ crlf)) (set_input r s b)))
    /\ r ++ incoming s = rest.
Proof.
  intros Hf Hl He Hi. unfold chunk_header. run. destruct (m_skip_crlf b); cbn [negb].
  - destruct (read_size_line_ok line fuel [] b rest Hf Hl Hi) as (r & s & -> & Hr).
    exists r, s. split; [reflexivity|exact Hr].
  - destruct (read_crlf_ok fuel b CR LF (line ++ crlf ++ rest)) as (r & s & -> & Hr); [lia|exact Hi|].
    rewrite He. change (str_eqb [CR; LF] crlf) with true. unfold boost_assert. rewrite andb_false_r. run. cbn [negb].
    destruct (read_size_line_ok line fuel [] (set_input r s b) rest Hf Hl) as (r' & s' & -> & Hr');
      [now rewrite input_set_input|].
    exists r', s'. split; [reflexivity|exact Hr'].
Qed.

(** The fuel covers the lines with the sizes. *)
Variable fuel : nat.

Definition wf_chunk (c : chunk) : Prop :=
  free_of [LF] (c_line c) /\ (S (S (length (c_line c))) <= fuel)%nat
  /\ c_data c <> [] /\ extract_hex (c_line c ++ crlf) = Z.of_nat (length (c_data c)).

Definition wf_last (last : cstring) : Prop :=
  free_of [LF] last /\ (S (S (length last)) <= fuel)%nat /\ extract_hex (last ++ crlf) = 0.

(** [b] is inside a chunked body: [t] is still to be delivered, [rest] follows
    the last chunk. *)
Definition serves (k : bool) (b : body) (t rest : cstring) : Prop :=
  m_is_chunked b = true /\ m_is_chunked_end b = false /\ m_keep_alive b = k
  /\ exists cs last d, Forall wf_chunk cs /\ wf_last last /\ t = d ++ chunks_text cs
     /\ m_chunked_size b = Z.of_nat (length d) /\ Z.of_nat (length d) < 2 ^ 64 /\ (m_skip_crlf b = true -> d = [])
     /\ input b = d ++ (if m_skip_crlf b then [] else crlf) ++ chunked cs last ++ rest.

(** A read inside a chunk. *)
Lemma read_in_chunk k b t rest n :
  serves k b t rest -> m_chunked_size b <> 0 -> (0 < n)%nat ->
  exists d b', read_some_chunked asserts fuel n None b = Ok ((length d, d, None), b')
    /\ d <> [] /\ (length d <= n)%nat /\ exists t', t = d ++ t' /\ serves k b' t' rest.
Proof.
  intros (Hc & He & Hk & cs & last & d & Hcs & Hlast & -> & Hs & Hb & Hskip & Hi) Hz Hn.
  assert (d <> []) as Hd by (intros ->; apply Hz; exact Hs).
  assert (m_skip_crlf b = false) as Hsk by (destruct (m_skip_crlf b); [now specialize (Hskip eq_refl)|reflexivity]).
  unfold read_some_chunked. run. replace (m_chunked_size b =? 0) with false by lia.
  replace (m_chunked_size b =? 0) with false by lia. cbn [negb].
  set (m := Z.to_nat (Z.min (Z.of_nat n) (m_chunked_size b))).
  assert (0 < m <= length d)%nat as Hm by (destruct d; [congruence|]; subst m; cbn [length] in *; lia).
  destruct (read_some_impl_data m b) as (x & r & s & -> & Hx & Hlx & E); [lia|now rewrite Hi; destruct d|].
  exists x. eexists. split; [reflexivity|]. split; [exact Hx|]. split; [lia|].
  rewrite Hi in E.
  assert (exists d', d = x ++ d' /\ r ++ incoming s = d' ++ crlf ++ chunked cs last ++ rest) as (d' & -> & E').
  { exists (drop (length x) d). rewrite Hsk in E.
    assert (x = take (length x) d) as Ex.
    { apply (f_equal (take (length x))) in E. rewrite take_app_le in E by lia.
      now rewrite take_length_app in E. }
    split; [rewrite Ex at 1; symmetry; apply take_drop|].
    apply (f_equal (drop (length x))) in E. rewrite drop_app_le in E by lia.
    rewrite drop_app_length in E. now symmetry. }
  exists (d' ++ chunks_text cs). split; [now rewrite app_assoc|].
  split; [exact Hc|]. split; [exact He|]. split; [exact Hk|].
  exists cs, last, d'. split; [exact Hcs|]. split; [exact Hlast|]. split; [reflexivity|].
  cbn [m_chunked_size set_chunked_size set_input set_sock set_response m_skip_crlf].
  rewrite Hs, Hsk, length_app in *. unfold wrapu. rewrite Z.mod_small by lia.
  repeat split; [lia|lia|congruence|exact E'].
Qed.
(** What holds behind the head of a chunk: the next chunk, or the end. *)
Definition behind_head (k : bool) (b' : body) (t rest : cstring) : Prop :=
  m_skip_crlf b' = false
  /\ if bool_decide (t = []) then m_chunked_size b' = 0 /\ m_is_chunked b' = true /\ m_keep_alive b' = k
                                  /\ input b' = rest
     else m_chunked_size b' <> 0 /\ serves k b' t rest.

(** The end of a chunk: the head that comes next, and what holds behind it. *)
Lemma next_head k b t rest :
  serves k b t rest -> m_chunked_size b = 0 ->
  exists line rest', input b = (if m_skip_crlf b then [] else crlf) ++ line ++ crlf ++ rest'
    /\ free_of [LF] line /\ (S (S (length line)) <= fuel)%nat
    /\ forall r s, r ++ incoming s = rest' ->
       behind_head k (set_skip_crlf false (set_chunked_size (extract_hex (line ++ crlf)) (set_input r s b))) t rest.
Proof.
  intros (Hc & He & Hk & cs & last & d & Hcs & (Hl1 & Hl2 & Hl3) & -> & Hs & Hb & Hskip & Hi) Hz.
  destruct d; [clear Hskip|cbn [length] in Hs; lia]. cbn [app] in *. destruct cs as [|c cs].
  - exists last, rest. split; [rewrite Hi; cbn [chunked]; now rewrite <- app_assoc|].
    split; [exact Hl1|]. split; [exact Hl2|]. intros r s Hr. split; [reflexivity|].
    rewrite bool_decide_eq_true_2 by reflexivity. rewrite Hl3. repeat split; auto.
  - inversion_clear Hcs as [|? ? Hwc Hcs']. destruct Hwc as (W1 & W2 & W3 & W4).
    exists (c_line c), (c_data c ++ crlf ++ chunked cs last ++ rest).
    split; [rewrite Hi; cbn [chunked]; now rewrite <- !app_assoc|]. split; [exact W1|]. split; [exact W2|].
    intros r s Hr. split; [reflexivity|]. unfold chunks_text. cbn [map concat]. rewrite bool_decide_eq_false_2
      by (intros E; apply app_eq_nil in E as [? _]; congruence).
    pose proof (extract_hex_range (c_line c ++ crlf)) as Hrange. rewrite W4 in *.
    split; [cbn [m_chunked_size set_chunked_size set_skip_crlf]; destruct (c_data c); [congruence|cbn [length]; lia]|].
    split; [exact Hc|]. split; [exact He|]. split; [exact Hk|]. exists cs, last, (c_data c).
    repeat split; auto; [lia|discriminate].
Qed.

(** The end of a chunk: its head is read, then the next chunk or the end. *)
Lemma next_chunk k b t rest :
  serves k b t rest -> m_chunked_size b = 0 ->
  exists b', chunk_header asserts fuel None b = Ok (inr None, b') /\ behind_head k b' t rest.
Proof.
  intros HS Hz. destruct (next_head k b t rest HS Hz) as (line & rest' & Hi & Hl & Hf & H).
  destruct HS as (_ & He & _). destruct (chunk_header_ok fuel b line rest' Hf Hl He Hi) as (r & s & E & Hr).
  eexists. split; [exact E|]. now apply H.
Qed.

Lemma read_chunked_step k b t rest n :
  serves k b t rest -> (0 < n)%nat -> t <> [] ->
  exists d b', read_some asserts fuel n None b = Ok ((length d, d, None), b')
    /\ d <> [] /\ (length d <= n)%nat /\ exists t', t = d ++ t' /\ serves k b' t' rest.
Proof.
  intros HS Hn Ht. pose proof HS as (Hc & _). unfold read_some. run. rewrite Hc.
  destruct (Z.eq_dec (m_chunked_size b) 0) as [Hz|Hz]; [|now apply read_in_chunk].
  destruct (next_chunk k b t rest HS Hz) as (b' & E & _ & H). rewrite bool_decide_eq_false_2 in H by exact Ht.
  destruct H as [Hz' HS']. destruct (read_in_chunk k b' t rest n HS' Hz' Hn) as (d & b2 & R & Hd).
  exists d, b2. split; [|exact Hd]. unfold read_some_chunked in *. run. revert R. run.
  rewrite Hz. cbn [Z.eqb]. rewrite E.
  assert ((m_chunked_size b' =? 0) = false) as Ez by lia. rewrite !Ez. auto.
Qed.

Lemma read_chunked_end k b rest n :
  serves k b [] rest ->
  exists b', read_some asserts fuel n None b = Ok ((O, [], if k then None else Some eof), b')
    /\ m_is_chunked b' = true /\ m_is_chunked_end b' = true /\ m_chunked_size b' = 0
    /\ m_skip_crlf b' = false /\ m_keep_alive b' = k /\ input b' = rest.
Proof.
  intros HS. pose proof HS as (Hc & _ & _ & cs & last & d & _ & _ & Ht & Hs & _).
  symmetry in Ht. apply app_eq_nil in Ht as [-> _].
  destruct (next_chunk k b [] rest HS Hs) as (b' & E & Hsk & H). rewrite bool_decide_eq_true_2 in H by reflexivity.
  destruct H as (Hz' & Hc' & Hk' & Hi').
  unfold read_some, read_some_chunked. run. rewrite Hc.
  change (m_chunked_size b = 0) in Hs. rewrite Hs. cbn [Z.eqb]. rewrite E, Hz'. cbn [Z.eqb negb]. rewrite Hk'. eexists. split; [now destruct k|].
  repeat split; auto.
Qed.

Lemma read_all_serves n : (0 < n)%nat -> forall calls k b t rest,
  (length t < calls)%nat -> serves k b t rest ->
  exists b', read_all asserts calls fuel n b = Ok ((t, if k then None else Some eof), b')
    /\ m_is_chunked b' = true /\ m_is_chunked_end b' = true /\ m_chunked_size b' = 0
    /\ m_skip_crlf b' = false /\ m_keep_alive b' = k /\ input b' = rest.
Proof.
  intros Hn. induction calls as [|calls IH]; intros k b t rest Hl HS; [lia|].
  cbn [read_all]. run. destruct t as [|c t].
  - destruct (read_chunked_end k b rest n HS) as (b' & -> & H). exists b'. split; [reflexivity|exact H].
  - destruct (read_chunked_step k b (c :: t) rest n HS Hn) as (d & b' & -> & Hd & _ & t' & E & HS'); [discriminate|].
    replace (length d =? 0)%nat with false by (destruct d; [congruence|reflexivity]).
    rewrite bool_decide_eq_false_2 by tauto. cbn [orb].
    destruct (IH k b' t' rest) as (b2 & -> & H2).
    { apply (f_equal length) in E. rewrite length_app in E. destruct d; [congruence|]. cbn [length] in *. lia. }
    { exact HS'. }
    exists b2. rewrite E. split; [reflexivity|exact H2].
Qed.
End Reading.

(** After the end of the body the line break behind the last chunk is skipped;
    what follows is the next response. *)
Lemma read_after_end `{L : NetworkLaws} asserts fuel n b rest :
  (2 <= fuel)%nat -> m_is_chunked b = true -> m_is_chunked_end b = true -> m_chunked_size b = 0 ->
  m_skip_crlf b = false -> input b = crlf ++ rest ->
  exists b', read_some asserts fuel n None b = Ok ((O, [], if m_keep_alive b then None else Some eof), b')
    /\ input b' = rest.
Proof.
  intros Hf Hc He Hz Hs Hi. unfold read_some, read_some_chunked, chunk_header. run.
  rewrite Hc, Hz. cbn [Z.eqb]. rewrite Hs. cbn [negb].
  destruct (read_crlf_ok fuel b CR LF rest Hf Hi) as (r & s & -> & Hr). rewrite He.
  eexists. split; [now destruct (m_keep_alive b)|exact Hr].
Qed.

(** ** Properties *)

(** However the network splits it, a chunked body is read back exactly:
    the loop of reads returns the concatenated data of the chunks, and nothing
    else, in at most one call more than it has characters, for buffers of any
    size; it ends with [eof] on a connection that is closed and without an
    error on one that is kept.  The read after that skips the final line break
    and leaves the next response untouched. *)
Theorem read_chunked_body `{L : NetworkLaws} (asserts : bool) (fuel n calls : nat)
    (cs : list chunk) (last rest : cstring) (b : body) :
  (0 < n)%nat -> (length (chunks_text cs) < calls)%nat ->
  Forall (wf_chunk fuel) cs -> wf_last fuel last ->
  m_is_chunked b = true -> m_skip_crlf b = true -> m_is_chunked_end b = false -> m_chunked_size b = 0 ->
  input b = chunked cs last ++ crlf ++ rest ->
  let ec := if m_keep_alive b then None else Some eof in
  exists b1 b2, read_all asserts calls fuel n b = Ok ((chunks_text cs, ec), b1)
    /\ read_some asserts fuel n None b1 = Ok ((O, [], ec), b2) /\ input b2 = rest.
Proof.
  intros Hn Hcalls Hcs Hl Hc Hs He Hz Hi ec.
  destruct (read_all_serves asserts fuel n Hn calls (m_keep_alive b) b (chunks_text cs) (crlf ++ rest) Hcalls)
    as (b1 & R & Hc1 & He1 & Hz1 & Hs1 & Hk1 & Hi1).
  - split; [exact Hc|]. split; [exact He|]. split; [reflexivity|]. exists cs, last, []. rewrite Hs.
    split; [exact Hcs|]. split; [exact Hl|]. cbn [app length]. change (Z.of_nat 0) with 0. auto with lia.
  - destruct (read_after_end asserts fuel n b1 rest) as (b2 & R2 & Hi2); auto.
    { destruct Hl as (_ & ? & _). lia. }
    exists b1, b2. rewrite Hk1 in R2. auto.
Qed.

(** ** A network for examples *)

(** What each packet holds; a packet is not empty. *)
Definition packets : Type := list (ascii * cstring).
Definition packets_text (s : packets) : cstring := concat (map (fun p => fst p :: snd p) s).

Fixpoint packets_until (buf : cstring) (s : packets) : nat * error_code * cstring * packets :=
  match crlf_end buf with
  | Some n => (n, None, buf, s)
  | None =>
      match s with
      | [] => (O, Some eof, buf, [])
      | (c, d) :: s' => packets_until (buf ++ c :: d) s'
      end
  end.

#[refine] Instance packet_network : Network := {
  sock := packets;
  sock_is_open := fun _ => true;
  sock_read_some := fun n s =>
    match s with
    | [] => ([], Some eof, [])
    | (c, d) :: s' =>
        (take n (c :: d), None, match drop n (c :: d) with [] => s' | x :: d' => (x, d') :: s' end)
    end;
  read_until_crlf := packets_until;
  sock_write := fun _ s => (None, s)
}.
Proof. Defined.

Lemma is_prefix_crlf c c' s : is_prefix crlf (c :: c' :: s) = (CR =c c) && (LF =c c').
Proof. cbn [is_prefix crlf]. destruct s; now rewrite andb_true_r. Qed.

Lemma crlf_end_app n a b : crlf_end a = Some n -> crlf_end (a ++ b) = Some n /\ (n <= length a)%nat.
Proof.
  revert n. induction a as [|c a IH]; intros n H; [discriminate|]. cbn [crlf_end app] in *.
  destruct a as [|c' a]; [cbn [crlf is_prefix crlf_end fmap option_fmap option_map] in H; rewrite andb_false_r in H; discriminate|].
  cbn [app] in *. rewrite is_prefix_crlf in *. destruct (_ && _).
  - injection H as <-. cbn [length]. split; [reflexivity|lia].
  - destruct (crlf_end (c' :: a)) as [m|] eqn:Ea; [|discriminate]. injection H as <-.
    destruct (IH m eq_refl) as [-> IH2]. cbn [length] in *. split; [reflexivity|lia].
Qed.

Lemma packets_until_spec s : forall buf,
  match crlf_end (buf ++ packets_text s) with
  | Some n => exists buf' s', packets_until buf s = (n, None, buf', s')
      /\ buf' ++ packets_text s' = buf ++ packets_text s /\ (n <= length buf')%nat
  | None => exists n buf' s', packets_until buf s = (n, Some eof, buf', s')
  end.
Proof.
  induction s as [|[c d] s IH]; intros buf; cbn [packets_until].
  - cbn [packets_text map concat]. rewrite app_nil_r. destruct (crlf_end buf) as [n|] eqn:E; [|eauto].
    exists buf, []. split; [reflexivity|]. cbn [packets_text map concat]. rewrite app_nil_r.
    split; [reflexivity|]. apply (crlf_end_app n buf [] E).
  - destruct (crlf_end buf) as [n|] eqn:E.
    + destruct (crlf_end_app n buf (packets_text ((c, d) :: s)) E) as [-> H]. eauto.
    + specialize (IH (buf ++ c :: d)). unfold packets_text in *. cbn [map concat fst snd].
      rewrite <- app_assoc in IH. exact IH.
Qed.

#[refine] Instance packet_network_laws : NetworkLaws packet_network := { incoming := packets_text }.
Proof.
  - intros n [|[c d] s] Hn Hi; [now contradiction Hi|]. cbn [sock_read_some packet_network].
    exists (take n (c :: d)). eexists. split; [reflexivity|].
    split; [destruct n; [lia|discriminate]|]. split; [rewrite length_take; lia|].
    unfold packets_text. cbn [map concat fst snd]. rewrite <- (take_drop n (c :: d)) at 1.
    rewrite <- app_assoc. f_equal. now destruct (drop n (c :: d)).
  - intros n [|[c d] s] _ Hi; [|discriminate]. now exists [].
  - intros n buf s H. pose proof (packets_until_spec s buf) as P. now rewrite H in P.
  - intros buf s H. pose proof (packets_until_spec s buf) as P. now rewrite H in P.
Defined.

Definition example_packet (s : cstring) : packets := match s with [] => [] | c :: d => [(c, d)] end.
Definition example_body : body (H := packet_network) :=
  Body packet_network true true true false 0 (-1) 0 ($"5" ++ crlf ++ $"He")
    (example_packet ($"llo" ++ [CR]) ++ example_packet ([LF] ++ $"7;name=v" ++ crlf ++ $", wor")
     ++ example_packet ($"ld" ++ crlf ++ $"0" ++ crlf ++ crlf ++ $"HTTP/1.1 200 OK")).

Definition example_chunks : list chunk := [Chunk ($"5") ($"Hello"); Chunk ($"7;name=v") ($", world")].

Lemma read_chunked_body_witness :
  exists b1 b2, read_all true 13 20 7 example_body = Ok (($"Hello, world", None), b1)
    /\ read_some true 20 7 None b1 = Ok ((O, [], None), b2) /\ input b2 = $"HTTP/1.1 200 OK".
Proof.
  assert (Forall (wf_chunk 20) example_chunks /\ wf_last 20 ($"0")) as [Hc Hl].
  { repeat constructor; cbn; try lia; discriminate. }
  apply (read_chunked_body true 20 7 13 example_chunks ($"0") ($"HTTP/1.1 200 OK") example_body
           ltac:(lia) ltac:(cbn; lia) Hc Hl); reflexivity.
Defined.

(** The sizes that servers print are read back: a chunk whose line is its
    length in hexadecimal, without or with an extension, is well formed, and
    so is a last chunk of size 0. *)
Theorem printed_chunk_wf (fuel : nat) (data ext : cstring) :
  Z.of_nat (length data) < 2 ^ 64 -> free_of [LF] ext -> ends_number (ext ++ crlf) ->
  (18 + length ext <= fuel)%nat ->
  let line := hex_text (Z.of_nat (length data)) ++ ext in
  (data <> [] -> wf_chunk fuel (Chunk line data)) /\ (data = [] -> wf_last fuel line).
Proof.
  intros Hd He Hn Hf line.
  assert (free_of [LF] line /\ (S (S (length line)) <= fuel)%nat
          /\ extract_hex (line ++ crlf) = Z.of_nat (length data)) as (H1 & H2 & H3).
  { subst line. rewrite free_of_app, length_app, <- app_assoc, extract_hex_text by (auto; lia). repeat split; auto.
    - unfold free_of. eapply Forall_impl; [apply hex_digits_digit; constructor|]. intros c (i & Hi & ->).
      apply (hex_value_char i Hi).
    - pose proof (hex_digits_length 16 (Z.of_nat (length data)) []). unfold hex_text. cbn [length] in *. lia. }
  split; [intros Hne; repeat split; auto|intros ->; repeat split; auto].
Qed.

Lemma printed_chunk_wf_witness : wf_chunk 30 (Chunk ($"c;name=v") ($"Hello, world")).
Proof.
  apply (printed_chunk_wf 30 ($"Hello, world") ($";name=v")); try (cbn; lia); try discriminate; repeat constructor.
Defined.

(** Data that is not chunked. *)
Lemma read_plain_step `{L : NetworkLaws} asserts fuel n b :
  (0 < n)%nat -> m_is_chunked b = false -> m_keep_alive b = false ->
  exists d r s, read_some asserts fuel n None b
      = Ok ((length d, d, if bool_decide (input b = []) then Some eof else None),
            set_body_size (wrapu 64 (m_body_size b + Z.of_nat (length d))) (set_input r s b))
    /\ (d = [] <-> input b = []) /\ input b = d ++ r ++ incoming s.
Proof.
  intros Hn Hc Hk. unfold read_some. run. rewrite Hc, Hk. cbn [andb].
  destruct (decide (input b = [])) as [Hi|Hi].
  - rewrite bool_decide_eq_true_2 by exact Hi. unfold input in Hi. apply app_eq_nil in Hi as [Hr Hi].
    destruct (read_some_eof n (m_sock b) Hn Hi) as (s & E & Hs).
    unfold read_some_impl. run. rewrite Hr. cbn [length Nat.ltb Nat.leb]. rewrite E.
    exists [], [], s. unfold input. rewrite Hr, Hi, Hs. split; [|tauto].
    unfold set_input. destruct b; cbn in *. now subst.
  - rewrite bool_decide_eq_false_2 by exact Hi.
    destruct (read_some_impl_data n b Hn Hi) as (d & r & s & -> & Hd & _ & E).
    exists d, r, s. split; [reflexivity|]. split; [tauto|exact E].
Qed.

(** A body without chunks on a connection that is closed is read back
    exactly, however the network splits it: the loop of reads returns all that
    is left in the buffer and on the network, then [eof]. *)
Theorem read_plain_body `{L : NetworkLaws} (asserts : bool) (fuel n calls : nat) (b : body) :
  (0 < n)%nat -> (length (input b) < calls)%nat -> m_is_chunked b = false -> m_keep_alive b = false ->
  exists b', read_all asserts calls fuel n b = Ok ((input b, Some eof), b').
Proof.
  intros Hn. revert b. induction calls as [|calls IH]; intros b Hl Hc Hk; [lia|]. cbn [read_all]. run.
  destruct (read_plain_step asserts fuel n b Hn Hc Hk) as (d & r & s & -> & Hd & Hi).
  destruct (decide (input b = [])) as [E|E].
  - rewrite !(bool_decide_eq_true_2 (input b = [])) by exact E. rewrite E. apply Hd in E as ->.
    cbn [length Nat.eqb orb]. eauto.
  - rewrite !(bool_decide_eq_false_2 (input b = [])) by exact E. rewrite bool_decide_eq_false_2 by tauto.
    assert (length d <> 0)%nat as Hne by (destruct d; [tauto|discriminate]).
    replace (length d =? 0)%nat with false by (symmetry; now apply Nat.eqb_neq). cbn [orb].
    destruct (IH (set_body_size (wrapu 64 (m_body_size b + Z.of_nat (length d))) (set_input r s b))) as (b' & R);
      [|exact Hc|exact Hk|].
    + rewrite Hi, length_app in Hl. unfold input. cbn. lia.
    + rewrite R. exists b'. now rewrite Hi.
Qed.

Definition example_plain : body (H := packet_network) :=
  Body packet_network false false true false 0 (-1) 0 ($"Hel") (example_packet ($"lo, wo") ++ example_packet ($"rld")).

Lemma read_plain_body_witness :
  exists b', read_all true 13 0 4 example_plain = Ok (($"Hello, world", Some eof), b').
Proof.
  change ($"Hello, world") with (input example_plain).
  apply (read_plain_body true 0 4 13 example_plain); try reflexivity; cbn; lia.
Defined.

(** On a connection that is kept, a read is not bounded by the length of
    the body: what is buffered of the next response is handed out as data, and
    the count of the body then never equals its length again. *)
Theorem read_overruns `{Network} (asserts : bool) (fuel n : nat) (text next : cstring) (b : body) :
  m_is_chunked b = false -> m_body_size b = 0 -> m_content_length b = Z.of_nat (length text) ->
  m_response b = text ++ next -> text <> [] -> next <> [] ->
  Z.of_nat (length (text ++ next)) < 2 ^ 63 -> (length (text ++ next) <= n)%nat ->
  exists b', read_some asserts fuel n None b = Ok ((length (text ++ next), text ++ next, None), b')
    /\ m_body_size b' > m_content_length b'.
Proof.
  intros Hc Hz Hl Hr Ht Hx Hb Hn. unfold read_some, read_some_impl. run. rewrite Hc, Hz, Hl.
  assert (0 < length text)%nat by (destruct text; [congruence|cbn; lia]).
  assert (0 < length next)%nat by (destruct next; [congruence|cbn; lia]).
  rewrite length_app in Hn, Hb. unfold wrapu. rewrite (Z.mod_small (Z.of_nat (length text))) by lia.
  replace (0 =? Z.of_nat (length text)) with false by lia. rewrite andb_false_r.
  rewrite Hr. replace (0 <? _)%nat with true by (symmetry; apply Nat.ltb_lt; rewrite length_app; lia).
  rewrite take_ge by (rewrite length_app; lia). eexists. split; [reflexivity|].
  cbn [m_body_size m_content_length set_body_size set_response]. rewrite Hz, Hl, Z.mod_small; rewrite ?length_app; lia.
Qed.

Lemma read_overruns_witness :
  exists b', read_some true 0 100 None
      (Body packet_network true false true false 0 5 0 ($"HelloHTTP/1.1 200 OK") [])
    = Ok ((20%nat, $"HelloHTTP/1.1 200 OK", None), b') /\ m_body_size b' > m_content_length b'.
Proof.
  apply (read_overruns true 0 100 ($"Hello") ($"HTTP/1.1 200 OK")); try reflexivity; try discriminate; cbn; lia.
Defined.
