(* ===== verification/HttpStream.v ===== *)
(** Requests and response headers: [request] and [receive_header] of
    avhttp/impl/http_stream.ipp, the synchronous versions.

    [http_stream] keeps the members these functions use; those that reading the
    body uses are the record [body] of HttpBody.v.  The request buffer is the
    text that is written.  [encode_base64] takes the base64 iterators of Boost
    as a variable.  The loops over lines and over "100 Continue" responses run
    on fuel, since a server can send them without end ([Hang]). *)

From S2P Require Import Prelude CLib EscapeString Url Settings Cookie HttpParsers HttpBody.

(** ** Data *)

Inductive proxy_type : Type := none | socks4 | socks5 | socks5_pw | http | http_pw.

Record proxy_settings : Type := Proxy {
  hostname : cstring;
  proxy_port : Z;
  username : cstring;
  password : cstring;
  type : proxy_type
}.

Definition AVHTTP_VERSION_MIME : cstring := $"avhttp/" ++ $"2.9.9".

(** [errc::continue_request], [errc::ok] and [errc::partial_content]. *)
Definition continue_request : Z := 100.
Definition ok : Z := 200.
Definition partial_content : Z := 206.

(** [make_error_code(static_cast<errc_t>(status))]: the value 0 is no error.  (The
    small codes 1, 2 and 11 are also those of the library's own errors.) *)
Definition make_error_code (status : Z) : error_code := if status =? 0 then None else Some (http_status status).

Record http_stream `{Platform} `{Network} : Type := HttpStream {
  m_request_opts : opts;
  m_request_opts_priv : opts;
  m_response_opts : opts;
  m_proxy : proxy_settings;
  m_protocol : cstring;
  m_url : url;
  m_status_code : Z;
  m_content_type : cstring;
  m_location : cstring;
  m_jar : cookies;
  m_body : body
}.

(** What [parse_http_status_line] leaves in the stream it reads from. *)
Fixpoint unread (st : StatusLine.state) (d : StatusLine.data) (s : cstring) : cstring :=
  match s with
  | [] => []
  | c :: s' =>
      match st with
      | StatusLine.fail => s
      | StatusLine.linefeed => s'
      | _ => let '(st', d') := StatusLine.step st c d in unread st' d' s'
      end
  end.

Section Stream.
Context `{P : Platform} `{N : Network}.
(** The Boost iterators behind [encode_base64]. *)
Variable base64_text : cstring -> cstring.

Abbreviation H := (st http_stream fault).

Definition set_body (b : body) (s : http_stream) : http_stream :=
  HttpStream _ _ (m_request_opts s) (m_request_opts_priv s) (m_response_opts s) (m_proxy s) (m_protocol s)
    (m_url s) (m_status_code s) (m_content_type s) (m_location s) (m_jar s) b.
Definition set_status (n : Z) (s : http_stream) : http_stream :=
  HttpStream _ _ (m_request_opts s) (m_request_opts_priv s) (m_response_opts s) (m_proxy s) (m_protocol s)
    (m_url s) n (m_content_type s) (m_location s) (m_jar s) (m_body s).
Definition set_response_opts (o : opts) (s : http_stream) : http_stream :=
  HttpStream _ _ (m_request_opts s) (m_request_opts_priv s) o (m_proxy s) (m_protocol s)
    (m_url s) (m_status_code s) (m_content_type s) (m_location s) (m_jar s) (m_body s).
Definition set_request (o : opts) (u : url) (s : http_stream) : http_stream :=
  HttpStream _ _ o (m_request_opts_priv s) (m_response_opts s) (m_proxy s) (m_protocol s)
    u (m_status_code s) (m_content_type s) (m_location s) (m_jar s) (m_body s).
Definition set_content_type (t : cstring) (s : http_stream) : http_stream :=
  HttpStream _ _ (m_request_opts s) (m_request_opts_priv s) (m_response_opts s) (m_proxy s) (m_protocol s)
    (m_url s) (m_status_code s) t (m_location s) (m_jar s) (m_body s).
Definition set_location (l : cstring) (s : http_stream) : http_stream :=
  HttpStream _ _ (m_request_opts s) (m_request_opts_priv s) (m_response_opts s) (m_proxy s) (m_protocol s)
    (m_url s) (m_status_code s) (m_content_type s) l (m_jar s) (m_body s).
Definition set_jar (j : cookies) (s : http_stream) : http_stream :=
  HttpStream _ _ (m_request_opts s) (m_request_opts_priv s) (m_response_opts s) (m_proxy s) (m_protocol s)
    (m_url s) (m_status_code s) (m_content_type s) (m_location s) j (m_body s).

Definition set_flags (keep chunked : bool) (b : body) : body :=
  Body _ keep chunked (m_skip_crlf b) (m_is_chunked_end b) (m_chunked_size b)
    (m_content_length b) (m_body_size b) (m_response b) (m_sock b).
Definition set_content_length (n : Z) (b : body) : body :=
  Body _ (m_keep_alive b) (m_is_chunked b) (m_skip_crlf b) (m_is_chunked_end b) (m_chunked_size b)
    n (m_body_size b) (m_response b) (m_sock b).

Definition stream_assert (c : bool) : H () := if Cookie.asserts && negb c then st_fail AssertFailed else mret ().

(** ** Response headers *)

(** [read_until(m_sock, m_response, CRLF, ec)]. *)
Definition read_line : H (nat * error_code) :=
  s ← st_get;
  let '(n, ec, buf, k) := read_until_crlf (m_response (m_body s)) (m_sock (m_body s)) in
  st_modify (set_body (set_sock k (set_response buf (m_body s)))) ;;
  mret (n, ec).

(** [m_response.consume(n)]. *)
Definition consume (n : nat) : H () :=
  st_modify (fun s => set_body (set_response (drop n (m_response (m_body s))) (m_body s)) s).

(** The line break behind "100 Continue": what is left of the copy, [None] for
    a malformed status line. *)
Definition continue_crlf (temp : cstring) : H (option cstring) :=
  match temp with
  | a :: b :: temp' =>
      stream_assert ((a =c CR) && (b =c LF)) ;;
      mret (if (a =c CR) && (b =c LF) then Some temp' else None)
  | _ => stream_assert false ;; mret None
  end.

Definition skip_continue (status : Z) (temp : cstring) : H (option cstring) :=
  if status =? continue_request then
    t ← continue_crlf temp;
    match t with
    | Some temp' => consume 2 ;; mret (Some temp')
    | None => mret None
    end
  else mret (Some temp).

(** The loop over status lines: [inl] for a [return]. *)
Fixpoint status_loop (fuel : nat) : H (error_code + error_code) :=
  match fuel with
  | O => st_fail Hang
  | S f =>
      '(_, ec) ← read_line;
      match ec with
      | Some _ => mret (inl ec)
      | None =>
          s ← st_get;
          let text := m_response (m_body s) in
          let '(good, d) := parse_http_status_line text 0 0 0 in
          st_modify (set_status (StatusLine.status d)) ;;
          if negb good then mret (inl (Some malformed_status_line))
          else
            let status := StatusLine.status d in
            r ← skip_continue status (unread StatusLine.http_version_h (StatusLine.Data 0 0 0 []) text);
            match r with
            | None => mret (inl (Some malformed_status_line))
            | Some temp =>
                consume (length text - length temp) ;;
                let ec := if negb (status =? ok) && negb (status =? partial_content)
                          then make_error_code status else None in
                if negb (status =? continue_request)
                   || str_eqb (find_or_empty http_options.request_method (m_request_opts_priv s)) ($"POST")
                then mret (inr ec)
                else status_loop f
            end
      end
  end.

(** The loop over header lines; [inl] is the error. *)
Fixpoint header_loop (fuel : nat) (header_string : cstring) : H (error + cstring) :=
  match fuel with
  | O => st_fail Hang
  | S f =>
      '(n, read_err) ← read_line;
      match read_err with
      | Some eof => mret (inl malformed_response_headers)
      | Some e => mret (inl e)
      | None =>
          s ← st_get;
          let temp := take n (m_response (m_body s)) in
          consume n ;;
          if str_eqb temp crlf then mret (inr (header_string ++ temp))
          else header_loop f (header_string ++ temp)
      end
  end.

(** A location without a scheme is taken relative to the host. *)
Definition fix_location (u : url) (location : cstring) : cstring :=
  match location with
  | [] => []
  | _ =>
      match find_str ($"://") location with
      | Some _ => location
      | None =>
          to_string (Z.lor (Z.lor protocol_component host_component) port_component) u ++ $"/" ++ location
      end
  end.

(** [m_cookies(value)] for every Set-Cookie header. *)
Fixpoint add_cookies (l : option_item_list) (j : cookies) : result fault cookies :=
  match l with
  | [] => Ok j
  | (k, v) :: l' =>
      if str_eqb (to_lower k) ($"set-cookie") then
        match Cookie.add_string v j with
        | Ok j' => add_cookies l' j'
        | Err f => Err (CookieFault f)
        end
      else add_cookies l' j
  end.

(** After the header block: location, transfer coding, connection, cookies. *)
Definition apply_headers : H () :=
  s ← st_get;
  st_modify (set_location (fix_location (m_url s) (m_location s))) ;;
  let chunked := m_is_chunked (m_body s)
                 || str_eqb (find_or_empty http_options.transfer_encoding (m_response_opts s)) ($"chunked") in
  let keep := m_keep_alive (m_body s)
              && negb (str_eqb (find_or_empty http_options.connection (m_request_opts s)) ($"close"))
              && negb (str_eqb (find_or_empty http_options.connection (m_response_opts s)) ($"close")) in
  st_modify (fun s => set_body (set_flags keep chunked (m_body s)) s) ;;
  j ← st_lift (add_cookies (m_opts (m_response_opts s)) (m_jar s));
  st_modify (set_jar j).

(** [parse_http_headers] of the whole block into the members. *)
Definition parse_block (text : cstring) : H bool :=
  s ← st_get;
  let '(good, info, hs) :=
    parse_http_headers_list text (HeaderInfo (m_content_type s) (m_content_length (m_body s)) (m_location s))
      (m_opts (m_response_opts s)) in
  st_modify (set_content_type (content_type info)) ;;
  st_modify (fun s => set_body (set_content_length (content_length info) (m_body s)) s) ;;
  st_modify (set_location (location info)) ;;
  st_modify (fun s => set_response_opts (Opts hs (m_fake_continue (m_response_opts s))) s) ;;
  mret good.

(** [receive_header(ec)], with the error code it leaves. *)
Definition receive_header (fuel : nat) : H error_code :=
  st_modify (fun s => set_body (set_response [] (m_body s)) s) ;;
  r ← status_loop fuel;
  match r with
  | inl ec => mret ec
  | inr ec =>
      s ← st_get;
      st_modify (set_response_opts
        (Settings.insert ($"_status_code") (itoa (m_status_code s)) (Settings.clear (m_response_opts s)))) ;;
      if m_status_code s =? continue_request then mret (make_error_code (m_status_code s))
      else
        h ← header_loop fuel [];
        match h with
        | inl e => mret (Some e)
        | inr text =>
            good ← parse_block text;
            if negb good then mret (Some malformed_response_headers)
            else apply_headers ;; mret ec
        end
  end.
(** ** The request *)

(** [if (opts.find(key, v)) opts.remove(key); m_request_opts.insert(key, v);]
    with the default value of [v]: the value, [opts] and [m_request_opts]. *)
Definition use_option (key default : cstring) (o ro : opts) : cstring * opts * opts :=
  match Settings.find key o with
  | Some v => (v, Settings.remove key o, Settings.insert key v ro)
  | None => (default, o, Settings.insert key default ro)
  end.

(** The test for a plain HTTP proxy. *)
Definition via_http_proxy (s : http_stream) : bool :=
  (match type (m_proxy s) with http_pw | http => true | _ => false end)
  && negb (str_eqb (m_protocol s) ($"https")).

(** The value of Proxy-Authorization, empty for none. *)
Definition proxy_auth (s : http_stream) : cstring :=
  if via_http_proxy s then
    match type (m_proxy s) with
    | http_pw => $"Basic " ++ encode_base64 base64_text (username (m_proxy s) ++ $":" ++ password (m_proxy s))
    | _ => match user_info_ (m_url s) with
           | [] => []
           | ui => $"Basic " ++ encode_base64 base64_text ui
           end
    end
  else [].

(** The options that are not sent as headers. *)
Definition internal_option (key : cstring) : bool :=
  existsb (str_eqb key)
    [http_options.path; http_options.url; http_options.request_method; http_options.http_version;
     http_options.request_body; http_options.status_code].

(** [m_url = new_url], which throws for a text that is no URL. *)
Definition change_url (new_url : cstring) (s : http_stream) : result fault url :=
  match new_url with
  | [] => Ok (m_url s)
  | _ =>
      match Url.from_string new_url with
      | Err _ => Err BadUrl
      | Ok u =>
          if Cookie.asserts && negb (str_eqb (host_ u) (host_ (m_url s))) then Err AssertFailed else Ok u
      end
  end.

Definition crlf_line (k v : cstring) : cstring := k ++ $": " ++ v ++ crlf.

(** The request for the options [o]: the new [m_url] and [m_request_opts], the
    value of the connection header, and the text that is sent.  The two versions
    of the function differ in the place of Proxy-Authorization: after Accept in
    the asynchronous one ([async]), after the connection header in the other. *)
Definition build_request_text (async : bool) (o : opts) (s : http_stream) : result fault (url * opts * cstring * cstring) :=
  let ro := Settings.clear (m_request_opts s) in
  let '(new_url, o) := match Settings.find http_options.url o with
                       | Some v => (v, Settings.remove http_options.url o)
                       | None => ([], o)
                       end in
  u ← change_url new_url s;
  let ro := if str_eqb new_url [] then ro else Settings.insert http_options.url new_url ro in
  let s := set_request ro u s in
  let '(request_method, o, ro) := use_option http_options.request_method ($"GET") o ro in
  let '(http_version, o, ro) := use_option http_options.http_version ($"HTTP/1.1") o ro in
  let '(host, o, ro) :=
    use_option http_options.host (to_string (Z.lor host_component port_component) u) o ro in
  let '(accept, o, ro) :=
    use_option http_options.accept ($"text/html, application/xhtml+xml, */*") o ro in
  let '(user_agent, o, ro) := use_option http_options.user_agent AVHTTP_VERSION_MIME o ro in
  let cookie := get_cookie_line (str_eqb (m_protocol s) ($"https")) [] [] (m_jar s) in
  let auth := proxy_auth s in
  let ro := if str_eqb auth [] then ro else Settings.insert ($"Proxy-Authorization") auth ro in
  let auth_line := if str_eqb auth [] then [] else crlf_line ($"Proxy-Authorization") auth in
  let connection_key := if via_http_proxy s then http_options.proxy_connection else http_options.connection in
  let '(connection, o, ro) := use_option connection_key ($"close") o ro in
  let '(request_body, o, ro) := use_option http_options.request_body [] o ro in
  let others := List.filter (fun kv => negb (internal_option (fst kv))) (m_opts o) in
  let ro := fold_left (fun ro kv => Settings.insert (fst kv) (snd kv) ro) others ro in
  let target := if via_http_proxy s then to_string all_components u
                else to_string (Z.lor (Z.lor path_component query_component) fragment_component) u in
  let ro := Settings.insert http_options.path target ro in
  Ok (u, ro, connection,
      request_method ++ $" " ++ target ++ $" " ++ http_version ++ crlf
      ++ crlf_line ($"Host") host ++ crlf_line ($"Accept") accept ++ (if async then auth_line else [])
      ++ crlf_line ($"User-Agent") user_agent
      ++ (if str_eqb cookie [] then [] else crlf_line ($"Cookie") cookie)
      ++ crlf_line (if via_http_proxy s then $"Proxy-Connection" else $"Connection") connection
      ++ (if async then [] else auth_line)
      ++ concat (map (fun kv => crlf_line (fst kv) (snd kv)) others) ++ crlf
      ++ request_body).

Definition build_request (o : opts) (s : http_stream) : result fault (url * opts * cstring) :=
  '(u, ro, _, text) ← build_request_text false o s; Ok (u, ro, text).

(** What [request] clears first. *)
Definition reset_body (b : body) : body :=
  Body _ true false true false (m_chunked_size b) (m_content_length b) 0 (m_response b) (m_sock b).

(** [request(opt, ec)]. *)
Definition request (fuel : nat) (opt : opts) : H error_code :=
  s ← st_get;
  if negb (sock_is_open (m_sock (m_body s))) then mret (Some network_reset)
  else
    st_modify (fun s => set_body (reset_body (m_body s)) s) ;;
    '(u, ro, text) ← st_lift (build_request opt s);
    st_modify (set_request ro u) ;;
    let '(ec, k) := sock_write text (m_sock (m_body s)) in
    st_modify (fun s => set_body (set_sock k (m_body s)) s) ;;
    match ec with
    | Some _ => mret ec
    | None =>
        if m_fake_continue (m_request_opts_priv s) then mret (Some fake_continue)
        else receive_header fuel
    end.
End Stream.

(** ** Lemmas: lines *)

Lemma crlf_end_line line rest :
  free_of [LF] line -> crlf_end (line ++ crlf ++ rest) = Some (length line + 2)%nat.
Proof.
  induction 1 as [|c line Hc Hl IH]; [cbn [app crlf crlf_end]; now rewrite is_prefix_crlf|].
  cbn [app crlf_end]. rewrite IH.
  assert (is_prefix crlf (c :: line ++ crlf ++ rest) = false) as ->; [|cbn [length]; reflexivity].
  destruct Hl as [|c' line Hc' _]; cbn [app crlf]; rewrite is_prefix_crlf; [apply andb_false_r|].
  apply andb_false_iff. right. apply Ascii.eqb_neq. intros <-. discriminate.
Qed.

Lemma app_split {A} (r i a b : list A) :
  r ++ i = a ++ b -> (length a <= length r)%nat -> exists more, r = a ++ more /\ more ++ i = b.
Proof.
  revert r. induction a as [|x a IH]; intros r E Hl; [now exists r|].
  destruct r as [|y r]; [cbn in Hl; lia|]. injection E as -> E. cbn [length] in Hl.
  destruct (IH r E ltac:(lia)) as (more & -> & H). now exists more.
Qed.

(** The status line is consumed up to its line feed. *)
Lemma unread_rest s : forall st d d' pre rest,
  StatusLine.loop st d s = (true, d') -> s = pre ++ LF :: rest -> free_of [LF] pre -> unread st d s = rest.
Proof.
  induction s as [|c s IH]; intros st d d' pre rest HL E Hf; [destruct pre; discriminate|].
  assert (c = LF -> pre = []) as Hpre.
  { intros ->. destruct pre as [|x pre]; [reflexivity|]. injection E as <- _. now inversion Hf. }
  destruct pre as [|x pre].
  - injection E as -> ->. assert (StatusLine.step st LF d = (StatusLine.fail, d)) as ES by now destruct st.
    destruct st; cbn [StatusLine.loop unread] in *; try reflexivity; try discriminate;
      rewrite ES, StatusLineFacts.loop_fail in HL; discriminate.
  - injection E as <- E. inversion_clear Hf as [|? ? Hc Hf'].
    destruct st; cbn [StatusLine.loop unread] in *; try discriminate;
      try (destruct (StatusLine.step _ c d) as [st' d1]; now apply (IH st' d1 d' pre rest)).
    injection HL as HL _. apply Ascii.eqb_eq in HL as ->. specialize (Hpre eq_refl). discriminate.
Qed.

Section Receive.
Context `{P : Platform} `{L : NetworkLaws}.

(** The stream after reading: only the buffer and the socket have changed. *)
Definition after_read (r : cstring) (k : sock) (s : http_stream) : http_stream :=
  set_body (set_input r k (m_body s)) s.

Definition stream_input (s : http_stream) : cstring := input (m_body s).

Lemma read_line_ok s line rest :
  free_of [LF] line -> stream_input s = line ++ crlf ++ rest ->
  exists r k, read_line s = Ok (((length line + 2)%nat, None), after_read (line ++ crlf ++ r) k s)
    /\ r ++ incoming k = rest.
Proof.
  intros Hl Hi. pose proof (crlf_end_line line rest Hl) as E. rewrite <- Hi in E.
  destruct (read_until_found _ _ _ E) as (buf & k & R & Hb & Hn). unfold stream_input, input in *. rewrite Hi in Hb.
  rewrite app_assoc in Hb. destruct (app_split buf (incoming k) (line ++ crlf) rest Hb) as (r & -> & Hr).
  { rewrite length_app. cbn [crlf length]. lia. }
  exists r, k. split; [|exact Hr]. unfold read_line. run. rewrite R. now rewrite <- app_assoc.
Qed.

Lemma ctl_free_lf s : Forall (fun c => is_ctl c = false) s -> free_of [LF] s.
Proof.
  intros Hs. eapply Forall_impl; [exact Hs|]. intros c Hc. apply HeadersFacts.not_ctl_facts in Hc as [_ Hc].
  unfold mem_char. cbn [existsb]. now rewrite Hc.
Qed.

Lemma digits_free_lf s : StatusLineFacts.digits s -> free_of [LF] s.
Proof.
  intros Hs. eapply Forall_impl; [exact Hs|]. cbv beta. intros c Hc. unfold mem_char. cbn [existsb].
  rewrite orb_false_r. apply Ascii.eqb_neq. intros ->. discriminate.
Qed.

Lemma name_char_ctl c : HeadersFacts.name_char c = true -> is_ctl c = false.
Proof.
  unfold HeadersFacts.name_char, Headers.bad_name_char.
  destruct (is_ctl c); [|reflexivity]. now rewrite orb_true_r.
Qed.

Lemma header_loop_ok hs : forall fuel acc s rest,
  Forall HeadersFacts.wf_header hs -> (length hs < fuel)%nat -> stream_input s = header_lines hs ++ crlf ++ rest ->
  exists r k, header_loop fuel acc s = Ok (inr (acc ++ header_lines hs ++ crlf), after_read r k s)
    /\ r ++ incoming k = rest.
Proof.
  induction hs as [|[n v] hs IH]; intros fuel acc s rest Hh Hf Hi; destruct fuel as [|fuel]; try (cbn in Hf; lia);
    cbn [header_loop header_lines app] in *; run.
  - destruct (read_line_ok s [] rest) as (r & k & -> & Hr); [constructor|exact Hi|]. cbn [app length] in *.
    exists r, k. split; [reflexivity|exact Hr].
  - inversion Hh as [|? ? Hw Hhs]; subst. destruct Hw as (Hne & Hn & Hs & Hv & _). cbn [fst snd] in *.
    apply str_eqb_neq in Hs. rewrite Hs in *. cbn [negb] in *. rewrite <- !app_assoc in Hi.
    destruct (read_line_ok s (n ++ $": " ++ v) (header_lines hs ++ crlf ++ rest)) as (r & k & -> & Hr).
    { rewrite !free_of_app. repeat split; [|repeat constructor|]; apply ctl_free_lf; [|exact Hv].
      eapply Forall_impl; [exact Hn|]. apply name_char_ctl. }
    { rewrite Hi. now rewrite <- !app_assoc. }
    rewrite (app_assoc _ crlf r). set (line := (n ++ $": " ++ v) ++ crlf).
    assert (length (n ++ $": " ++ v) + 2 = length line)%nat as -> by (subst line; rewrite (length_app _ crlf); reflexivity).
    unfold after_read, consume. run. cbn [m_body set_body m_response set_input set_sock set_response].
    rewrite take_app_length, drop_app_length.
    assert (str_eqb line crlf = false) as ->.
    { apply str_eqb_neq. subst line. destruct n as [|c n]; [congruence|]. inversion_clear Hn as [|? ? Hc _].
      apply name_char_ctl in Hc. intros E. injection E as -> _. discriminate. }
    destruct (IH fuel (acc ++ line) (after_read r k s) rest Hhs) as (r' & k' & R & Hr');
      [cbn [length] in Hf; lia|exact Hr|].
    exists r', k'. split; [|exact Hr'].
    replace (acc ++ ((n ++ $": " ++ v ++ crlf) ++ header_lines hs) ++ crlf)
      with ((acc ++ line) ++ header_lines hs ++ crlf) by (subst line; now rewrite <- !app_assoc).
    exact R.
Qed.

(** A status line is read, parsed and consumed up to its end. *)
Lemma status_line_read s a b c r rest :
  a <> [] -> b <> [] -> c <> [] ->
  StatusLineFacts.digits a -> StatusLineFacts.digits b -> StatusLineFacts.digits c ->
  Forall (fun x => is_ctl x = false) r ->
  stream_input s = $"HTTP/" ++ a ++ $"." ++ b ++ $" " ++ c ++ $" " ++ r ++ crlf ++ rest ->
  exists line t k d n, read_line s = Ok ((n, None), after_read (line ++ crlf ++ t) k s) /\ t ++ incoming k = rest
    /\ parse_http_status_line (line ++ crlf ++ t) 0 0 0 = (true, d) /\ StatusLine.status d = int32 (dec_value c)
    /\ unread StatusLine.http_version_h (StatusLine.Data 0 0 0 []) (line ++ crlf ++ t) = t.
Proof.
  intros Ha Hb Hc Da Db Dc Hr Hi. set (line := $"HTTP/" ++ a ++ $"." ++ b ++ $" " ++ c ++ $" " ++ r).
  assert (free_of [LF] line) as Hl.
  { subst line. rewrite !free_of_app. repeat split; try (repeat constructor); auto using digits_free_lf, ctl_free_lf. }
  destruct (read_line_ok s line rest Hl) as (t & k & R & Ht); [rewrite Hi; subst line; now rewrite <- !app_assoc|].
  assert (line ++ crlf ++ t = $"HTTP/" ++ a ++ $"." ++ b ++ $" " ++ c ++ $" " ++ r ++ CR :: LF :: t) as El
    by (subst line; now rewrite <- !app_assoc).
  pose proof (StatusLineFacts.line_parses a b c r t Ha Hb Hc Da Db Dc Hr) as EP. rewrite <- El in EP.
  exists line, t, k. eexists _, _. split; [exact R|]. split; [exact Ht|]. split; [exact EP|]. split; [reflexivity|].
  eapply unread_rest; [exact EP| |].
  - change (crlf ++ t) with ([CR] ++ LF :: t). rewrite app_assoc. reflexivity.
  - rewrite free_of_app. split; [exact Hl|repeat constructor].
Qed.

(** A status line that is not "100 Continue". *)
Lemma status_loop_ok fuel s a b c r rest :
  a <> [] -> b <> [] -> c <> [] ->
  StatusLineFacts.digits a -> StatusLineFacts.digits b -> StatusLineFacts.digits c ->
  Forall (fun x => is_ctl x = false) r ->
  let status := int32 (dec_value c) in
  status <> continue_request -> (0 < fuel)%nat ->
  stream_input s = $"HTTP/" ++ a ++ $"." ++ b ++ $" " ++ c ++ $" " ++ r ++ crlf ++ rest ->
  exists t k, status_loop fuel s
      = Ok (inr (if (status =? ok) || (status =? partial_content) then None else make_error_code status),
            set_status status (after_read t k s))
    /\ t ++ incoming k = rest.
Proof.
  intros Ha Hb Hc Da Db Dc Hr status Hs Hf Hi. destruct fuel as [|fuel]; [lia|].
  destruct (status_line_read s a b c r rest Ha Hb Hc Da Db Dc Hr Hi) as (line & t & k & d & n & R & Ht & EP & Ed & EU).
  fold status in Ed. cbn [status_loop]. run. rewrite R. cbn [m_body after_read set_body m_response set_input set_sock set_response].
  rewrite EP. cbn [negb]. rewrite Ed, EU. unfold skip_continue.
  replace (status =? continue_request) with false by lia. cbn [negb orb].
  exists t, k. split; [|exact Ht]. unfold consume. run.
  cbn [m_body after_read set_body m_response set_input set_sock set_response set_status].
  replace (length (line ++ crlf ++ t) - length t)%nat with (length (line ++ crlf)) by (rewrite !length_app; lia).
  rewrite (app_assoc line crlf t), drop_app_length.
  destruct (status =? ok), (status =? partial_content); reflexivity.
Qed.

(** A response as a server sends it. *)
Definition response_text (a b c r : cstring) (hs : option_item_list) (rest : cstring) : cstring :=
  $"HTTP/" ++ a ++ $"." ++ b ++ $" " ++ c ++ $" " ++ r ++ crlf ++ header_lines hs ++ crlf ++ rest.

Record wf_response (a b c r : cstring) (hs : option_item_list) : Prop := {
  wf_nonempty : a <> [] /\ b <> [] /\ c <> [];
  wf_digits : StatusLineFacts.digits a /\ StatusLineFacts.digits b /\ StatusLineFacts.digits c;
  wf_reason : Forall (fun x => is_ctl x = false) r;
  wf_headers : Forall HeadersFacts.wf_header hs;
  wf_status : int32 (dec_value c) <> continue_request
}.

(** The options of a response. *)
Definition response_items (status : Z) (hs : option_item_list) : option_item_list :=
  ($"_status_code", itoa status) :: hs.

(** What a response leaves in the stream. *)
Record received (s s' : http_stream) (status : Z) (hs : option_item_list) (j : cookies) (rest : cstring) : Prop := {
  got_status : m_status_code s' = status;
  got_options : m_opts (m_response_opts s') = response_items status hs;
  got_info :
    let info := fold_left (fun h '(k, v) => check_header k v h) hs
                  (HeaderInfo (m_content_type s) (m_content_length (m_body s)) (m_location s)) in
    m_content_type s' = content_type info /\ m_content_length (m_body s') = content_length info
    /\ m_location s' = fix_location (m_url s) (location info);
  got_chunked : m_is_chunked (m_body s') = m_is_chunked (m_body s)
    || str_eqb (find_or_empty http_options.transfer_encoding (m_response_opts s')) ($"chunked");
  got_keep : m_keep_alive (m_body s') = m_keep_alive (m_body s)
    && negb (str_eqb (find_or_empty http_options.connection (m_request_opts s)) ($"close"))
    && negb (str_eqb (find_or_empty http_options.connection (m_response_opts s')) ($"close"));
  got_cookies : m_jar s' = j;
  got_input : stream_input s' = rest;
  kept_chunk : m_skip_crlf (m_body s') = m_skip_crlf (m_body s)
    /\ m_is_chunked_end (m_body s') = m_is_chunked_end (m_body s)
    /\ m_chunked_size (m_body s') = m_chunked_size (m_body s) /\ m_body_size (m_body s') = m_body_size (m_body s);
  kept_request : m_url s' = m_url s /\ m_proxy s' = m_proxy s /\ m_protocol s' = m_protocol s
    /\ m_request_opts_priv s' = m_request_opts_priv s
}.

(** The error code of a status. *)
Definition status_code_error (status : Z) : error_code :=
  if (status =? ok) || (status =? partial_content) then None else make_error_code status.

Lemma receive_header_run fuel s a b c r hs rest j :
  wf_response a b c r hs -> (length hs < fuel)%nat ->
  incoming (m_sock (m_body s)) = response_text a b c r hs rest ->
  let status := int32 (dec_value c) in
  add_cookies (response_items status hs) (m_jar s) = Ok j ->
  exists s', receive_header fuel s = Ok (status_code_error status, s') /\ received s s' status hs j rest.
Proof.
  intros [(Ha & Hb & Hc) (Da & Db & Dc) Hr Hh Hs] Hf Hi status Hj.
  unfold receive_header. run. set (s0 := set_body (set_response [] (m_body s)) s).
  destruct (status_loop_ok fuel s0 a b c r (header_lines hs ++ crlf ++ rest)) as (t & k & R & Ht); auto; [lia|].
  rewrite R. fold status. set (s1 := set_status status (after_read t k s0)).
  change (m_status_code s1) with status. replace (status =? continue_request) with false by lia.
  match goal with |- context [header_loop fuel [] ?x] => set (s2 := x) end.
  destruct (header_loop_ok hs fuel [] s2 rest Hh Hf Ht) as (r' & k' & -> & Hr').
  cbn [app]. unfold parse_block. run.
  rewrite <- (app_nil_r (header_lines hs ++ crlf)), <- app_assoc, HeadersFacts.lines_parse by exact Hh.
  change (m_opts (m_response_opts (after_read r' k' s2))) with [($"_status_code", itoa status)].
  cbn [app negb]. unfold apply_headers. run.
  cbn [m_jar m_response_opts after_read set_location set_response_opts set_body set_content_type m_opts].
  change (m_jar s2) with (m_jar s). fold (response_items status hs). rewrite Hj.
  eexists. split; [reflexivity|]. constructor; try reflexivity; auto.
Qed.
End Receive.

(** ** Lemmas: requests *)

Lemma find_item_remove_other key key' l :
  to_lower key' <> key -> find_item key (remove_item key' l) = find_item key l.
Proof.
  intros Hne. induction l as [|[k v] l IH]; [reflexivity|]. cbn [remove_item find_item].
  destruct (str_eqb_spec k key') as [->|Hk].
  - apply str_eqb_neq in Hne. now rewrite Hne.
  - cbn [find_item]. now rewrite IH.
Qed.

Lemma find_remove_other key key' o :
  strcaseeq key' key = false -> Settings.find key (Settings.remove key' o) = Settings.find key o.
Proof.
  unfold strcaseeq. intros E. apply find_item_remove_other. now apply str_eqb_neq.
Qed.

Lemma remove_absent key o : Settings.find key o = None -> Settings.remove key o = o.
Proof.
  unfold Settings.find, Settings.remove. intros E. destruct o as [l f]. cbn [m_opts m_fake_continue] in *. f_equal.
  induction l as [|[k v] l IH]; [reflexivity|]. cbn [remove_item find_item] in *.
  destruct (str_eqb_spec k key) as [->|Hk]; [now rewrite str_eqb_refl in E|].
  destruct (str_eqb _ _); [discriminate|]. now rewrite IH.
Qed.

(** The value of an option, with a default. *)
Definition option_value (key d : cstring) (o : opts) : cstring := default d (Settings.find key o).

Lemma use_option_value key d o ro :
  use_option key d o ro
  = (option_value key d o, Settings.remove key o, Settings.insert key (option_value key d o) ro).
Proof.
  unfold use_option, option_value. destruct (Settings.find key o) eqn:E; [reflexivity|].
  cbn. now rewrite remove_absent.
Qed.

Lemma option_value_other key key' d o :
  strcaseeq key' key = false -> option_value key d (Settings.remove key' o) = option_value key d o.
Proof. intros E. unfold option_value. now rewrite find_remove_other. Qed.

(** The options that [request] uses, in its order. *)
Definition used_options : list cstring :=
  [http_options.request_method; http_options.http_version; http_options.host; http_options.accept;
   http_options.user_agent; http_options.connection; http_options.request_body].

(** The further options, sent as they are. *)
Definition other_options (o : opts) : option_item_list :=
  List.filter (fun kv => negb (internal_option (fst kv)))
    (m_opts (fold_left (fun o k => Settings.remove k o) used_options o)).

Lemma header_lines_app a b : header_lines (a ++ b) = header_lines a ++ header_lines b.
Proof. induction a as [|[k v] a IH]; [reflexivity|]. cbn [app header_lines]. now rewrite IH, app_assoc. Qed.

Lemma header_lines_others (l : option_item_list) :
  header_lines (List.filter (fun kv => negb (internal_option (fst kv))) l)
  = concat (map (fun kv => crlf_line (fst kv) (snd kv)) (List.filter (fun kv => negb (internal_option (fst kv))) l)).
Proof.
  induction l as [|[k v] l IH]; [reflexivity|]. cbn [List.filter fst]. destruct (internal_option k) eqn:E; [exact IH|].
  cbn [negb header_lines map concat fst snd]. rewrite IH.
  assert (str_eqb k http_options.status_code = false) as ->; [|reflexivity].
  unfold internal_option in E. cbn [existsb] in E. rewrite !orb_false_iff in E. tauto.
Qed.

(** An option that is found stays found. *)
Lemma find_insert_keeps key k v o w :
  Settings.find key o = Some w -> Settings.find key (Settings.insert k v o) = Some w.
Proof. unfold Settings.find, Settings.insert. cbn [m_opts]. intros E. rewrite find_item_app, E. reflexivity. Qed.

Lemma find_inserts_keeps key l w : forall o,
  Settings.find key o = Some w ->
  Settings.find key (fold_left (fun ro kv => Settings.insert (fst kv) (snd kv) ro) l o) = Some w.
Proof. induction l as [|kv l IH]; intros o E; [exact E|]. cbn [fold_left]. now apply IH, find_insert_keeps. Qed.

Section Requests.
Context `{P : Platform} `{N : Network}.
Variable base64_text : cstring -> cstring.

(** The headers of a request without a proxy. *)
Definition request_headers (o : opts) (s : http_stream) : option_item_list :=
  let cookie := get_cookie_line (str_eqb (m_protocol s) ($"https")) [] [] (m_jar s) in
  [($"Host", option_value http_options.host (to_string (Z.lor host_component port_component) (m_url s)) o);
   ($"Accept", option_value http_options.accept ($"text/html, application/xhtml+xml, */*") o);
   ($"User-Agent", option_value http_options.user_agent AVHTTP_VERSION_MIME o)]
  ++ (if str_eqb cookie [] then [] else [($"Cookie", cookie)])
  ++ [($"Connection", option_value http_options.connection ($"close") o)]
  ++ other_options o.

Definition request_line (o : opts) (s : http_stream) : cstring :=
  option_value http_options.request_method ($"GET") o ++ $" "
  ++ to_string (Z.lor (Z.lor path_component query_component) fragment_component) (m_url s) ++ $" "
  ++ option_value http_options.http_version ($"HTTP/1.1") o.

(** What is sent. *)
Definition request_text (o : opts) (s : http_stream) : cstring :=
  request_line o s ++ crlf ++ header_lines (request_headers o s) ++ crlf
  ++ option_value http_options.request_body [] o.

Lemma build_request_text_run async o s :
  via_http_proxy s = false -> Settings.find http_options.url o = None ->
  exists ro, build_request_text base64_text async o s
      = Ok (m_url s, ro, option_value http_options.connection ($"close") o, request_text o s)
    /\ find_or_empty http_options.connection ro = option_value http_options.connection ($"close") o.
Proof.
  intros Hp Hu. unfold build_request_text. rewrite Hu. cbn [change_url str_eqb mbind result_bind].
  set (s1 := set_request _ _ s). assert (via_http_proxy s1 = false) as -> by exact Hp.
  assert (proxy_auth base64_text s1 = []) as -> by (unfold proxy_auth; now rewrite (Hp : via_http_proxy s1 = false)).
  cbn [str_eqb]. rewrite !use_option_value. cbv iota beta.
  rewrite !option_value_other by reflexivity. eexists. split; [f_equal; f_equal|].
  - unfold request_text, request_line, request_headers. rewrite !header_lines_app. unfold other_options.
    rewrite header_lines_others. cbn [fold_left used_options].
    change (m_jar s1) with (m_jar s). change (m_protocol s1) with (m_protocol s).
    destruct async, (str_eqb (get_cookie_line _ _ _ _) []); unfold crlf_line; cbn [header_lines];
      change (str_eqb _ http_options.status_code) with false; cbn [negb]; rewrite <- ?app_assoc; cbn [app]; reflexivity.
  - unfold find_or_empty. erewrite find_insert_keeps; [reflexivity|]. apply find_inserts_keeps, find_insert_keeps.
    reflexivity.
Qed.

Lemma build_request_run o s :
  via_http_proxy s = false -> Settings.find http_options.url o = None ->
  exists ro, build_request base64_text o s = Ok (m_url s, ro, request_text o s)
    /\ find_or_empty http_options.connection ro = option_value http_options.connection ($"close") o.
Proof.
  intros Hp Hu. destruct (build_request_text_run false o s Hp Hu) as (ro & E & H). exists ro. split; [|exact H].
  unfold build_request. now rewrite E.
Qed.
End Requests.

Section Exchange.
Context `{P : Platform} `{L : NetworkLaws}.
Variable base64_text : cstring -> cstring.

(** The request goes out on an open connection, and [k] is the connection then. *)
Record sends_request (o : opts) (s : http_stream) (k : sock) : Prop := {
  is_open : sock_is_open (m_sock (m_body s)) = true;
  no_proxy : via_http_proxy s = false;
  same_url : Settings.find http_options.url o = None;
  no_fake : m_fake_continue (m_request_opts_priv s) = false;
  written : sock_write (request_text o s) (m_sock (m_body s)) = (None, k)
}.

(** The stream when the response is awaited. *)
Definition awaiting (ro : opts) (k : sock) (s : http_stream) : http_stream :=
  set_body (set_sock k (reset_body (m_body s))) (set_request ro (m_url s) s).

Lemma request_run fuel o s k :
  sends_request o s k ->
  exists ro, request base64_text fuel o s = receive_header fuel (awaiting ro k s)
    /\ find_or_empty http_options.connection ro = option_value http_options.connection ($"close") o.
Proof.
  intros [Ho Hp Hu Hf Hw]. destruct (build_request_run base64_text o s Hp Hu) as (ro & E & Hc).
  exists ro. split; [|exact Hc]. unfold request. run. rewrite Ho, E. cbn [negb]. rewrite Hw, Hf. reflexivity.
Qed.

(** Whether the connection is kept after the response. *)
Definition keeps (o : opts) (hs : option_item_list) : bool :=
  negb (str_eqb (option_value http_options.connection ($"close") o) ($"close"))
  && negb (str_eqb (find_or_empty http_options.connection (Opts hs false)) ($"close")).

(** The option that holds the status hides no header. *)
Lemma find_response_item key status hs f :
  strcaseeq ($"_status_code") key = false ->
  find_or_empty key (Opts (response_items status hs) f) = find_or_empty key (Opts hs false).
Proof.
  unfold strcaseeq, find_or_empty, Settings.find, response_items. cbn [m_opts find_item]. intros ->. reflexivity.
Qed.

Lemma exchange_run fuel o s k a b c r hs rest j :
  sends_request o s k -> wf_response a b c r hs -> (length hs < fuel)%nat ->
  incoming k = response_text a b c r hs rest ->
  let status := int32 (dec_value c) in
  add_cookies (response_items status hs) (m_jar s) = Ok j ->
  exists ro s', request base64_text fuel o s = Ok (status_code_error status, s')
    /\ received (awaiting ro k s) s' status hs j rest
    /\ m_keep_alive (m_body s') = keeps o hs
    /\ m_is_chunked (m_body s') = str_eqb (find_or_empty http_options.transfer_encoding (Opts hs false)) ($"chunked").
Proof.
  intros Hs Hw Hf Hi status Hj. destruct (request_run fuel o s k Hs) as (ro & E & Hc).
  destruct (receive_header_run fuel (awaiting ro k s) a b c r hs rest j Hw Hf Hi Hj) as (s' & E' & R).
  exists ro, s'. rewrite E. split; [exact E'|]. split; [exact R|]. destruct R as [_ Ho _ Hch Hk _ _ _].
  destruct (m_response_opts s') as [l f]. cbn [m_opts] in Ho. subst l.
  rewrite find_response_item in Hk, Hch by reflexivity. rewrite Hk, Hch. split; [|reflexivity].
  cbn [awaiting m_request_opts set_body set_request m_body m_keep_alive set_sock reset_body andb].
  now rewrite Hc.
Qed.
End Exchange.

(** ** Properties *)

(** C1: a whole exchange: on an open connection [request] sends the request
    text, and whatever well-formed chunked response the server then sends,
    split in packets in any way, [request] returns the code of its status, the
    stream holds its status, headers and cookies, reading returns exactly the
    data of the chunks, and the next response on the connection is left for the
    next request. *)
Theorem exchange_chunked `{P : Platform} `{L : NetworkLaws} (base64_text : cstring -> cstring)
    (fuel n calls : nat) (o : opts) (s : http_stream) (k : sock) (a b c r : cstring) (hs : option_item_list)
    (cs : list chunk) (last rest : cstring) (j : cookies) :
  sends_request o s k -> m_chunked_size (m_body s) = 0 ->
  wf_response a b c r hs -> (length hs < fuel)%nat -> Forall (wf_chunk fuel) cs -> wf_last fuel last ->
  incoming k = response_text a b c r hs (chunked cs last ++ crlf ++ rest) ->
  find_or_empty http_options.transfer_encoding (Opts hs false) = $"chunked" ->
  let status := int32 (dec_value c) in
  add_cookies (response_items status hs) (m_jar s) = Ok j ->
  (0 < n)%nat -> (length (chunks_text cs) < calls)%nat ->
  let ec := if keeps o hs then None else Some eof in
  exists s' b1 b2, request base64_text fuel o s = Ok (status_code_error status, s')
    /\ m_status_code s' = status /\ m_opts (m_response_opts s') = response_items status hs /\ m_jar s' = j
    /\ read_all Cookie.asserts calls fuel n (m_body s') = Ok ((chunks_text cs, ec), b1)
    /\ read_some Cookie.asserts fuel n None b1 = Ok ((O, [], ec), b2) /\ input b2 = rest.
Proof.
  intros Hs Hz Hw Hf Hcs Hl Hi Ht status Hj Hn Hcalls ec.
  destruct (exchange_run base64_text fuel o s k a b c r hs _ j Hs Hw Hf Hi Hj) as (ro & s' & E & R & Hk & Hch).
  rewrite Ht in Hch. destruct R as [R1 R2 _ _ _ R3 R4 (R5 & R6 & R7 & _)].
  destruct (read_all_serves Cookie.asserts fuel n Hn calls (keeps o hs) (m_body s') (chunks_text cs) (crlf ++ rest) Hcalls)
    as (b1 & A & Hc1 & He1 & Hz1 & Hs1 & Hk1 & Hi1).
  - split; [exact Hch|]. split; [exact R6|]. split; [exact Hk|]. exists cs, last, []. rewrite R5.
    split; [exact Hcs|]. split; [exact Hl|]. cbn [app length]. rewrite R7. change (Z.of_nat 0) with 0. auto with lia.
  - destruct (read_after_end Cookie.asserts fuel n b1 rest) as (b2 & A2 & Hi2); auto.
    { destruct Hl as (_ & ? & _). lia. }
    exists s', b1, b2. rewrite Hk1 in A2. auto 10.
Qed.

Definition example_url2 : url := Url ($"http") [] ($"example.com") [] ($"/a") ($"q=1") [] false.

(** A stream on a connection that delivers these packets. *)
Definition example_stream (size : Z) (packets : list cstring) : http_stream (H := example_platform) (H0 := packet_network) :=
  HttpStream example_platform packet_network (Opts [] false) (Opts [] false) (Opts [] false)
    (Proxy [] 0 [] [] none) ($"http") example_url2 0 [] [] new_cookies
    (Body packet_network true false true false size (-1) 0 [] (concat (map example_packet packets))).

Definition example_stream_length (n : Z) (packets : list cstring) : http_stream (H := example_platform) (H0 := packet_network) :=
  set_body (set_content_length n (m_body (example_stream 0 packets))) (example_stream 0 packets).

Definition example_response_headers : option_item_list :=
  [($"Transfer-Encoding", $"chunked"); ($"Set-Cookie", $"a=b")].

Lemma exchange_chunked_witness :
  exists s' b1 b2,
    request (fun s => s) 20 (Opts [($"Connection", $"keep-alive")] false)
      (example_stream 0 [$"HTTP/1.1 200 O"; $"K" ++ crlf ++ $"Transfer-Encoding: chunked" ++ [CR];
                         [LF] ++ $"Set-Cookie: a=b" ++ crlf ++ crlf ++ $"5" ++ crlf ++ $"He";
                         $"llo" ++ crlf ++ $"7;name=v" ++ crlf ++ $", world" ++ crlf ++ $"0" ++ crlf ++ crlf ++ $"HTTP"])
      = Ok (None, s')
    /\ m_status_code s' = 200 /\ m_opts (m_response_opts s') = response_items 200 example_response_headers
    /\ m_jar s' = Cookies example_platform [Cookie example_platform ($"a") ($"b") [] [] None false false] []
    /\ read_all true 13 20 4 (m_body s') = Ok (($"Hello, world", None), b1)
    /\ read_some true 20 4 None b1 = Ok ((O, [], None), b2) /\ input b2 = $"HTTP".
Proof.
  assert (Forall (wf_chunk 20) example_chunks /\ wf_last 20 ($"0")) as [Hc Hl].
  { repeat constructor; cbn; try lia; discriminate. }
  eapply (exchange_chunked (P := example_platform) (L := packet_network_laws) (fun s => s) 20 4 13
            (Opts [($"Connection", $"keep-alive")] false) _ _ ($"1") ($"1") ($"200") ($"OK") example_response_headers
            example_chunks ($"0") ($"HTTP")); try exact Hc; try exact Hl; try reflexivity; try (cbn; lia).
  - constructor; reflexivity.
  - constructor; repeat split; try discriminate; repeat constructor; discriminate.
  - reflexivity.
Defined.

(** No header injection on the way out: without a proxy the request is
    the request line, the headers that [request_headers] lists, an empty line
    and the body; when these headers are well formed, the header parser of the
    library reads back exactly them, in order, whatever the body is. *)
Theorem request_parses `{P : Platform} `{N : Network} (base64_text : cstring -> cstring)
    (o : opts) (s : http_stream) (h : header_info) :
  via_http_proxy s = false -> Settings.find http_options.url o = None ->
  Forall HeadersFacts.wf_header (request_headers o s) ->
  exists ro block, build_request base64_text o s = Ok (m_url s, ro, request_line o s ++ crlf ++ block)
    /\ parse_http_headers_list block h []
       = (true, fold_left (fun h '(k, v) => check_header k v h) (request_headers o s) h, request_headers o s).
Proof.
  intros Hp Hu Hw. destruct (build_request_run base64_text o s Hp Hu) as (ro & E & _).
  exists ro. eexists. split; [exact E|]. now rewrite HeadersFacts.lines_parse.
Qed.

Lemma request_parses_witness :
  exists ro block,
    build_request (fun s => s) (Opts [($"Referer", $"x"); ($"Accept", $"text/plain")] false) (example_stream 0 [])
      = Ok (example_url2, ro, $"GET /a?q=1 HTTP/1.1" ++ crlf ++ block)
    /\ parse_http_headers_list block (HeaderInfo [] 0 []) []
       = (true, HeaderInfo [] 0 [],
          [($"Host", $"example.com"); ($"Accept", $"text/plain"); ($"User-Agent", $"avhttp/2.9.9");
           ($"Connection", $"close"); ($"Referer", $"x")]).
Proof.
  apply (request_parses (fun s => s) (Opts [($"Referer", $"x"); ($"Accept", $"text/plain")] false) (example_stream 0 [])
           (HeaderInfo [] 0 [])); try reflexivity.
  repeat (constructor; [repeat split; try discriminate; repeat constructor|]). constructor.
Defined.

(** An option whose name is written in another case than the library's
    is found, but not removed: it is sent twice, once under the library's name
    and once as it was given. *)
Theorem option_sent_twice `{P : Platform} `{N : Network} (base64_text : cstring -> cstring)
    (v : cstring) (s : http_stream) :
  via_http_proxy s = false ->
  let o := Opts [($"host", v)] false in
  In ($"Host", v) (request_headers o s) /\ In ($"host", v) (request_headers o s)
  /\ exists ro, build_request base64_text o s = Ok (m_url s, ro, request_text o s).
Proof.
  intros Hp o. split; [now left|]. split.
  - unfold request_headers. apply in_or_app. right. apply in_or_app. right. right. now left.
  - destruct (build_request_run base64_text o s Hp eq_refl) as (ro & E & _). eauto.
Qed.

Lemma option_sent_twice_witness :
  exists ro, build_request (fun s => s) (Opts [($"host", $"h")] false) (example_stream 0 [])
    = Ok (example_url2, ro, request_text (Opts [($"host", $"h")] false) (example_stream 0 [])).
Proof. apply (option_sent_twice (fun s => s) ($"h") (example_stream 0 [])). reflexivity. Defined.

(** The size of the current chunk survives [request]: on a stream that was
    left inside a chunk, the first read of the next chunked response hands out
    the text of the coding, with its size lines, as if it were data. *)
Theorem stale_chunk_size `{P : Platform} `{L : NetworkLaws} (base64_text : cstring -> cstring)
    (fuel n : nat) (o : opts) (s : http_stream) (k : sock) (a b c r : cstring) (hs : option_item_list)
    (text : cstring) (j : cookies) :
  sends_request o s k -> 0 < m_chunked_size (m_body s) ->
  wf_response a b c r hs -> (length hs < fuel)%nat ->
  incoming k = response_text a b c r hs text -> text <> [] ->
  find_or_empty http_options.transfer_encoding (Opts hs false) = $"chunked" ->
  let status := int32 (dec_value c) in
  add_cookies (response_items status hs) (m_jar s) = Ok j -> (0 < n)%nat ->
  exists s' d b1, request base64_text fuel o s = Ok (status_code_error status, s')
    /\ read_some Cookie.asserts fuel n None (m_body s') = Ok ((length d, d, None), b1)
    /\ d <> [] /\ exists t, text = d ++ t.
Proof.
  intros Hs Hz Hw Hf Hi Hne Ht status Hj Hn.
  destruct (exchange_run base64_text fuel o s k a b c r hs _ j Hs Hw Hf Hi Hj) as (ro & s' & E & R & _ & Hch).
  rewrite Ht in Hch. destruct R as [_ _ _ _ _ _ R4 (_ & _ & R7 & _)].
  change (m_chunked_size (m_body s') = m_chunked_size (m_body s)) in R7.
  exists s'. unfold read_some, read_some_chunked. run.
  change (str_eqb ($"chunked") ($"chunked")) with true in Hch. rewrite Hch, R7.
  assert ((m_chunked_size (m_body s) =? 0) = false) as Ez by lia. rewrite Ez, R7, Ez. cbn [negb].
  destruct (read_some_impl_data (Z.to_nat (Z.min (Z.of_nat n) (m_chunked_size (m_body s)))) (m_body s'))
    as (d & t & k' & -> & Hd & _ & Ed); [lia|unfold stream_input in R4; now rewrite R4|].
  exists d. eexists. split; [exact E|]. split; [reflexivity|]. split; [exact Hd|]. exists (t ++ incoming k').
  unfold stream_input in R4. now rewrite <- R4.
Qed.

Lemma stale_chunk_size_witness :
  exists s' d b1,
    request (fun s => s) 20 (Opts [] false)
      (example_stream 3 [response_text ($"1") ($"1") ($"200") ($"OK") example_response_headers
                           ($"5" ++ crlf ++ $"Hello" ++ crlf ++ $"0" ++ crlf ++ crlf)]) = Ok (None, s')
    /\ read_some true 20 10 None (m_body s') = Ok ((length d, d, None), b1)
    /\ d <> [] /\ exists t, $"5" ++ crlf ++ $"Hello" ++ crlf ++ $"0" ++ crlf ++ crlf = d ++ t.
Proof.
  eapply (stale_chunk_size (P := example_platform) (L := packet_network_laws) (fun s => s) 20 10 (Opts [] false) _ _
            ($"1") ($"1") ($"200") ($"OK") example_response_headers); try reflexivity; try (cbn; lia); try discriminate.
  - constructor; reflexivity.
  - constructor; repeat split; try discriminate; repeat constructor; discriminate.
  - reflexivity.
Defined.

(** [request] does not reset the length of the body either, and the parser of
    headers keeps the greatest length: after a longer response on the same
    connection a shorter one is taken to be as long as that. *)
Theorem stale_content_length `{P : Platform} `{L : NetworkLaws} (base64_text : cstring -> cstring)
    (fuel : nat) (o : opts) (s : http_stream) (k : sock) (n : Z) (rest : cstring) :
  sends_request o s k -> (1 < fuel)%nat -> 0 <= n <= INT64_MAX -> n <= m_content_length (m_body s) ->
  incoming k = response_text ($"1") ($"1") ($"200") ($"OK") [($"Content-Length", itoa n)] rest ->
  exists s', request base64_text fuel o s = Ok (None, s') /\ m_content_length (m_body s') = m_content_length (m_body s).
Proof.
  intros Hs Hf Hn Hm Hi.
  destruct (exchange_run base64_text fuel o s k ($"1") ($"1") ($"200") ($"OK") [($"Content-Length", itoa n)] rest (m_jar s) Hs)
    as (ro & s' & E & R & _); [|exact Hf|exact Hi|reflexivity|].
  - constructor; [repeat split; discriminate|repeat split; repeat constructor|repeat constructor| |vm_compute; discriminate].
    constructor; [|apply List.Forall_nil]. split; [discriminate|]. split; [repeat constructor|]. split; [discriminate|].
    apply HeadersFacts.number_value. lia.
  - exists s'. split; [exact E|]. destruct (got_info _ _ _ _ _ _ R) as (_ & H & _). rewrite H.
    cbn [fold_left]. unfold check_header. change (headers_equal _ ($"Content-Type")) with false.
    change (headers_equal _ ($"Content-Length")) with true. cbv iota. cbn [content_length].
    rewrite strtoll_c_str_itoa by (unfold INT64_MIN; lia). apply Z.max_r. exact Hm.
Qed.

Lemma stale_content_length_witness :
  exists s', request (fun s => s) 20 (Opts [] false)
    (example_stream_length 100 [$"HTTP/1.1 200 OK" ++ crlf ++ $"Content-Length: 2" ++ crlf ++ crlf ++ $"ok"]) = Ok (None, s')
    /\ m_content_length (m_body s') = 100.
Proof.
  apply (stale_content_length (P := example_platform) (fun s => s) 20 (Opts [] false)
           (example_stream_length 100 [$"HTTP/1.1 200 OK" ++ crlf ++ $"Content-Length: 2" ++ crlf ++ crlf ++ $"ok"])
           (m_sock (m_body (example_stream_length 100 [$"HTTP/1.1 200 OK" ++ crlf ++ $"Content-Length: 2" ++ crlf ++ crlf ++ $"ok"])))
           2 ($"ok")).
  - constructor; reflexivity.
  - lia.
  - unfold INT64_MAX. lia.
  - cbn. lia.
  - vm_compute. reflexivity.
Defined.

Definition continue_text : cstring := $"HTTP/1.1 100 Continue" ++ crlf.

(** A "100 Continue" that arrives in one packet with the final response
    makes [receive_header] fail: it consumes the line break behind the
    continuation twice, so that the final status line loses its first two
    characters and is rejected as malformed. *)
Theorem continue_in_one_packet `{P : Platform} (fuel n : nat) (rest : cstring) (more : packets)
    (s : http_stream (H0 := packet_network)) :
  m_sock (m_body s) = example_packet (continue_text ++ crlf ++ $"HTTP/" ++ rest) ++ more ->
  crlf_end rest = Some n ->
  find_or_empty http_options.request_method (m_request_opts_priv s) <> $"POST" ->
  exists s', receive_header (S (S fuel)) s = Ok (Some malformed_status_line, s').
Proof.
  intros Hk Hn Hm. unfold receive_header. run. cbn [status_loop]. run. unfold read_line at 1. run.
  cbn [m_body set_body m_sock set_response m_response read_until_crlf packet_network]. rewrite Hk.
  set (text := continue_text ++ crlf ++ $"HTTP/" ++ rest).
  assert (crlf_end text = Some 23%nat) as E1.
  { apply (crlf_end_line ($"HTTP/1.1 100 Continue") (crlf ++ $"HTTP/" ++ rest)). repeat constructor. }
  assert (packets_until [] (example_packet text ++ more) = (23%nat, None, text, more)) as ->.
  { subst text. cbn [example_packet continue_text app list_ascii_of_string packets_until crlf_end]. 
    change (packets_until (continue_text ++ crlf ++ $"HTTP/" ++ rest) more = (23%nat, None, continue_text ++ crlf ++ $"HTTP/" ++ rest, more)).
    destruct more; cbn [packets_until]; now rewrite E1. }
  assert (parse_http_status_line text 0 0 0 = (true, StatusLine.Data 1 1 100 ($"Continue"))) as E2.
  { apply (StatusLineFacts.line_parses ($"1") ($"1") ($"100") ($"Continue") (crlf ++ $"HTTP/" ++ rest));
      try discriminate; repeat constructor. }
  assert (unread StatusLine.http_version_h (StatusLine.Data 0 0 0 []) text = crlf ++ $"HTTP/" ++ rest) as E3.
  { eapply (unread_rest text _ _ _ ($"HTTP/1.1 100 Continue" ++ [CR])); [exact E2|reflexivity|repeat constructor]. }
  cbn [m_body set_body m_sock set_response set_sock m_response]. rewrite E2. cbn [negb StatusLine.status].
  rewrite E3. unfold skip_continue. change (100 =? continue_request) with true. cbv iota. cbn [app crlf continue_crlf]. run.
  change ((CR =c CR) && (LF =c LF)) with true. unfold stream_assert. rewrite andb_false_r. run.
  unfold consume. run. cbn [m_body set_body m_sock set_response set_sock m_response set_status m_request_opts_priv].
  apply str_eqb_neq in Hm. rewrite Hm. cbn [negb orb]. unfold read_line. run.
  assert (length text - length ($"HTTP/" ++ rest) = 25)%nat as ->.
  { subst text. rewrite (app_assoc continue_text), (length_app (continue_text ++ crlf)).
    change (length (continue_text ++ crlf)) with 25%nat. lia. }
  change (drop 25 (drop 2 text)) with ($"TP/" ++ rest).
  cbn [m_body set_body m_sock set_response set_sock m_response read_until_crlf packet_network].
  assert (crlf_end ($"TP/" ++ rest) = Some (S (S (S n)))) as E4.
  { change (S <$> (S <$> (S <$> crlf_end rest)) = Some (S (S (S n)))). now rewrite Hn. }
  assert (packets_until ($"TP/" ++ rest) more = (S (S (S n)), None, $"TP/" ++ rest, more)) as ->
    by (destruct more; cbn [packets_until]; now rewrite E4).
  change (parse_http_status_line ($"TP/" ++ rest) 0 0 0) with (false, StatusLine.Data 0 0 0 []).
  cbn [negb]. eauto.
Qed.

Lemma continue_in_one_packet_witness :
  exists s', receive_header 5
    (example_stream 0 [continue_text ++ crlf ++ $"HTTP/1.1 200 OK" ++ crlf ++ $"Connection: close" ++ crlf ++ crlf])
    = Ok (Some malformed_status_line, s').
Proof.
  apply (continue_in_one_packet (P := example_platform) 3 12 ($"1.1 200 OK" ++ crlf ++ $"Connection: close" ++ crlf ++ crlf) []);
    [reflexivity|reflexivity|discriminate].
Defined.

(** The same two responses in two packets are accepted. *)
Example continue_in_two_packets :
  match receive_header 5
    (example_stream 0 [continue_text ++ crlf; $"HTTP/1.1 200 OK" ++ crlf ++ $"Connection: close" ++ crlf ++ crlf])
  with Ok (ec, s) => (ec, m_status_code s) | Err _ => (Some eof, 0) end = (None, 200).
Proof. reflexivity. Qed.

(** A Location header without a scheme is put behind the host and a slash:
    a path that begins with a slash, the usual form, gets two of them. *)
Theorem relative_location_slashes (u : url) (path : cstring) :
  find_str ($"://") ($"/" ++ path) = None ->
  fix_location u ($"/" ++ path)
  = to_string (Z.lor (Z.lor protocol_component host_component) port_component) u ++ $"//" ++ path.
Proof. intros E. unfold fix_location. cbn [app list_ascii_of_string] in *. now rewrite E. Qed.
