(* ===== verification/Transport.v ===== *)
(** Connections: what avhttp/impl/http_stream.ipp asks of the resolver and of
    sockets (the class [Transport]), the connect loops, and the integers of
    avhttp/detail/io.hpp.

    A socket of the class [Network] stands for a TCP socket or for a TLS stream
    over one: [ssl_handshake] negotiates TLS on it, [next_layer] is the TCP
    socket below, with TLS forgotten.  The name service is a function of host
    and port. *)

From S2P Require Import Prelude CLib EscapeString Settings HttpBody HttpStream.

Class Transport (N : Network) := {
  endpoint : Type;
  (** [resolver.resolve(query(host, port), ec)]. *)
  resolve : cstring -> cstring -> result error (list endpoint);
  (** [address().to_v4().to_ulong()]; [to_v4] throws for other addresses. *)
  address_v4 : endpoint -> option Z;
  (** [tcp::socket(io)]. *)
  new_socket : sock;
  next_layer : sock -> sock;
  tcp_connect : endpoint -> sock -> error_code * sock;
  ssl_handshake : sock -> error_code * sock;
  sock_close : sock -> error_code * sock;
  (** [set_option(tcp::no_delay(true), ec)]. *)
  set_no_delay : sock -> error_code * sock;
  (** [read(sock, streambuf, transfer_exactly(n), ec)]: what is appended. *)
  read_exactly : Z -> sock -> cstring * error_code * sock;
  (** [read_until(sock, streambuf, CRLF CRLF, ec)]. *)
  read_until_blank : cstring -> sock -> nat * error_code * cstring * sock;
  (** The three steps that set up the verification of certificates. *)
  add_verify_path : cstring -> error_code;
  load_verify_file : cstring -> error_code;
  set_verify_callback : cstring -> error_code
}.

(** The position after the first empty line. *)
Fixpoint blank_end (s : cstring) : option nat :=
  match s with
  | [] => None
  | c :: s' => if is_prefix (crlf ++ crlf) s then Some 4%nat else S <$> blank_end s'
  end.

(** What Boost.Asio documents of these, for a socket that is connected. *)
Class TransportLaws {N : Network} (T : Transport N) (L : NetworkLaws N) := {
  (** Everything that was written. *)
  sent : sock -> cstring;
  new_socket_closed : sock_is_open new_socket = false;
  write_sent : forall text k k', sock_write text k = (None, k') ->
    sent k' = sent k ++ text /\ incoming k' = incoming k;
  read_exactly_data : forall d rest k, incoming k = d ++ rest ->
    exists k', read_exactly (Z.of_nat (length d)) k = (d, None, k') /\ incoming k' = rest /\ sent k' = sent k;
  read_exactly_eof : forall n k, Z.of_nat (length (incoming k)) < n ->
    exists k', read_exactly n k = (incoming k, Some eof, k');
  read_blank_found : forall n buf k, blank_end (buf ++ incoming k) = Some n ->
    exists buf' k', read_until_blank buf k = (n, None, buf', k')
      /\ buf' ++ incoming k' = buf ++ incoming k /\ (n <= length buf')%nat;
  read_blank_eof : forall buf k, blank_end (buf ++ incoming k) = None ->
    exists n buf' k', read_until_blank buf k = (n, Some eof, buf', k')
}.

(** ** Integers in network byte order *)

(** [write_impl(val, start)], for a type of [n] bytes. *)
Fixpoint write_impl (n : nat) (val : Z) : cstring :=
  match n with
  | O => []
  | S i => chr (Z.land (Z.shiftr val (Z.of_nat i * 8)) 255) :: write_impl i val
  end.

Definition write_uint8 (val : Z) : cstring := write_impl 1 (wrapu 8 val).
Definition write_uint16 (val : Z) : cstring := write_impl 2 (wrapu 16 val).
Definition write_uint32 (val : Z) : cstring := write_impl 4 (wrapu 32 val).

(** [read_impl(start, type<T>())] for an unsigned type of [n] bytes: the value
    and what is left; [None] when the buffer ends before. *)
Fixpoint read_bytes (n : nat) (ret : Z) (start : cstring) : option (Z * cstring) :=
  match n with
  | O => Some (ret, start)
  | S n' =>
      match start with
      | [] => None
      | c :: start' => read_bytes n' (Z.lor (Z.shiftl ret 8) (uchar c)) start'
      end
  end.

Definition read_impl (n : nat) (start : cstring) : option (Z * cstring) := read_bytes n 0 start.

(** ** Connecting *)

Section Connect.
Context `{T : Transport}.

(** [ssl_stream::connect]: TCP, then the handshake. *)
Definition ssl_connect (e : endpoint) (k : sock) : error_code * sock :=
  match tcp_connect e k with
  | (None, k') => ssl_handshake k'
  | r => r
  end.

(** [while (ec && endpoint_iterator != end) { close; connect; }]. *)
Fixpoint connect_loop (connect : endpoint -> sock -> error_code * sock) (l : list endpoint)
    (ec : error_code) (k : sock) : error_code * sock :=
  match ec, l with
  | Some _, e :: l' =>
      let '(ec, k) := connect e (snd (sock_close k)) in connect_loop connect l' ec k
  | _, _ => (ec, k)
  end.

(** Resolving a host and connecting to the first address that answers. *)
Definition resolve_connect (connect : endpoint -> sock -> error_code * sock) (host : cstring) (port : Z)
    (k : sock) : error_code * sock :=
  match resolve host (itoa port) with
  | Err e => (Some e, k)
  | Ok l => connect_loop connect l (Some host_not_found) k
  end.
End Connect.

(** ** Lemmas *)

Lemma land_255 v : Z.land v 255 = v mod 256.
Proof. exact (Z.land_ones v 8 ltac:(lia)). Qed.

Lemma lor_shift r c : 0 <= c < 256 -> Z.lor (r * 256) c = r * 256 + c.
Proof.
  intros Hc. assert (Z.land (r * 256) c = 0) as E.
  { rewrite <- (Z.mod_small c (2 ^ 8)), <- Z.land_ones by lia. rewrite Z.land_assoc, (Z.land_comm _ c), <- Z.land_assoc.
    rewrite Z.land_ones by lia. change (2 ^ 8) with 256. now rewrite Z.mod_mul, Z.land_0_r by lia. }
  rewrite Z.add_nocarry_lxor, Z.lxor_lor by exact E. reflexivity.
Qed.

Lemma write_impl_length n v : length (write_impl n v) = n.
Proof. induction n as [|n IH]; cbn [write_impl length]; [reflexivity|now rewrite IH]. Qed.

Lemma read_bytes_write n : forall r v rest,
  0 <= r -> read_bytes n r (write_impl n v ++ rest) = Some (r * 256 ^ Z.of_nat n + v mod 256 ^ Z.of_nat n, rest).
Proof.
  induction n as [|n IH]; intros r v rest Hr; cbn [read_bytes write_impl app].
  - change (256 ^ Z.of_nat 0) with 1. rewrite Z.mod_1_r. do 2 f_equal. lia.
  - rewrite land_255, uchar_chr. rewrite Z.shiftl_mul_pow2, Z.shiftr_div_pow2 by lia.
    change (2 ^ 8) with 256. set (p := 256 ^ Z.of_nat n).
    assert (0 < p) as Hp by (apply Z.pow_pos_nonneg; lia).
    replace (2 ^ (Z.of_nat n * 8)) with p by (rewrite Z.mul_comm, Z.pow_mul_r by lia; reflexivity).
    set (c := (v / p) mod 256). assert (0 <= c < 256) as Hc by (apply Z.mod_pos_bound; lia).
    rewrite Z.mod_small, lor_shift by lia.
    rewrite IH by lia. do 2 f_equal. rewrite Nat2Z.inj_succ, Z.pow_succ_r by lia. fold p.
    rewrite Z.mul_comm with (n := 256), Z.rem_mul_r by lia. subst c. ring.
Qed.

(** Integers are read back as they were written, modulo the width of the type. *)
Lemma read_write_impl n v rest : read_impl n (write_impl n v ++ rest) = Some (v mod 256 ^ Z.of_nat n, rest).
Proof. unfold read_impl. now rewrite read_bytes_write by lia. Qed.

(** ** A transport for examples

    A host is a list of addresses, each with the packets its server sends, or
    [None] when it refuses connections.  Sockets keep what was written. *)

Record script_sock : Type := ScriptSock { script_open : bool; script_sent : cstring; script_todo : packets }.

#[refine] Instance script_network : Network := {
  sock := script_sock;
  sock_is_open := script_open;
  sock_read_some := fun n k =>
    let '(d, ec, s) := sock_read_some (Network := packet_network) n (script_todo k) in
    (d, ec, ScriptSock (script_open k) (script_sent k) s);
  read_until_crlf := fun buf k =>
    let '(n, ec, buf, s) := packets_until buf (script_todo k) in
    (n, ec, buf, ScriptSock (script_open k) (script_sent k) s);
  sock_write := fun text k => (None, ScriptSock (script_open k) (script_sent k ++ text) (script_todo k))
}.
Proof. Defined.

#[refine] Instance script_network_laws : NetworkLaws script_network := { incoming := fun k => packets_text (script_todo k) }.
Proof.
  - intros n [o w s] Hn Hi. destruct (read_some_data (NetworkLaws := packet_network_laws) n s Hn Hi) as (d & s' & E & H1 & H2 & H3).
    exists d, (ScriptSock o w s'). cbn [sock_read_some script_network script_todo]. rewrite E. auto.
  - intros n [o w s] Hn Hi. destruct (read_some_eof (NetworkLaws := packet_network_laws) n s Hn Hi) as (s' & E & H).
    exists (ScriptSock o w s'). cbn [sock_read_some script_network script_todo]. rewrite E. auto.
  - intros n buf [o w s] Hc. destruct (read_until_found (NetworkLaws := packet_network_laws) n buf s Hc) as (b & s' & E & H1 & H2).
    exists b, (ScriptSock o w s'). cbn [read_until_crlf script_network script_todo]. change packets_until with
      (read_until_crlf (Network := packet_network)). rewrite E. auto.
  - intros buf [o w s] Hc. destruct (read_until_eof (NetworkLaws := packet_network_laws) buf s Hc) as (n & b & s' & E).
    exists n, b, (ScriptSock o w s'). cbn [read_until_crlf script_network script_todo]. change packets_until with
      (read_until_crlf (Network := packet_network)). now rewrite E.
Defined.

(** Text as a single packet. *)
Definition one_packet (s : cstring) : packets := match s with [] => [] | c :: s' => [(c, s')] end.

Definition script_address : Type := Z * option packets.

#[refine] Instance script_transport (hosts : list (cstring * list script_address)) : Transport script_network := {
  endpoint := script_address;
  resolve := fun host _ =>
    match List.find (fun h => str_eqb (fst h) host) hosts with Some h => Ok (snd h) | None => Err host_not_found end;
  address_v4 := fun e => Some (fst e);
  new_socket := ScriptSock false [] [];
  next_layer := fun k => k;
  tcp_connect := fun e _ =>
    match snd e with
    | Some s => (None, ScriptSock true [] s)
    | None => (Some connection_refused, ScriptSock false [] [])
    end;
  ssl_handshake := fun k => (None, k);
  sock_close := fun k => (None, ScriptSock false (script_sent k) []);
  set_no_delay := fun k => (None, k);
  read_exactly := fun n k =>
    let text := packets_text (script_todo k) in
    if Z.of_nat (length text) <? n then (text, Some eof, ScriptSock (script_open k) (script_sent k) [])
    else (take (Z.to_nat n) text, None,
          ScriptSock (script_open k) (script_sent k) (one_packet (drop (Z.to_nat n) text)));
  read_until_blank := fun buf k =>
    let text := buf ++ packets_text (script_todo k) in
    match blank_end text with
    | Some n => (n, None, text, ScriptSock (script_open k) (script_sent k) [])
    | None => (O, Some eof, text, ScriptSock (script_open k) (script_sent k) [])
    end;
  add_verify_path := fun _ => None;
  load_verify_file := fun _ => None;
  set_verify_callback := fun _ => None
}.
Proof. Defined.

Lemma is_prefix_length p s : is_prefix p s = true -> (length p <= length s)%nat.
Proof.
  revert s. induction p as [|c p IH]; intros [|x s] H; cbn in *; try lia; try discriminate.
  apply andb_true_iff in H as [_ H]. specialize (IH s H). lia.
Qed.

Lemma blank_end_le s : forall n, blank_end s = Some n -> (n <= length s)%nat.
Proof.
  induction s as [|c s IH]; intros n H; [discriminate|]. cbn [blank_end] in H. destruct (is_prefix _ _) eqn:E.
  - injection H as <-. now apply is_prefix_length in E.
  - destruct (blank_end s) as [m|]; [|discriminate]. injection H as <-. specialize (IH m eq_refl). cbn [length]. lia.
Qed.

Lemma one_packet_text s : packets_text (one_packet s) = s.
Proof. destruct s; [reflexivity|]. unfold packets_text. cbn. now rewrite app_nil_r. Qed.

#[refine] Instance script_transport_laws hosts : TransportLaws (script_transport hosts) script_network_laws :=
  { sent := script_sent }.
Proof.
  - reflexivity.
  - intros text k k' [= <-]. auto.
  - intros d rest [o w s] Hi. cbn [incoming script_network_laws script_todo] in Hi.
    exists (ScriptSock o w (one_packet rest)). cbn [read_exactly script_transport script_todo script_open script_sent].
    rewrite Hi, length_app, (proj2 (Z.ltb_ge _ _)) by lia. rewrite Nat2Z.id, take_app_length, drop_app_length.
    cbn [incoming script_network_laws script_todo sent]. rewrite one_packet_text. auto.
  - intros n [o w s] Hl. exists (ScriptSock o w []). cbn [read_exactly script_transport script_todo].
    cbn [incoming script_network_laws script_todo] in *. now rewrite (proj2 (Z.ltb_lt _ _)) by exact Hl.
  - intros n buf [o w s] Hb. cbn [incoming script_network_laws script_todo] in Hb.
    eexists _, (ScriptSock o w []). cbn [read_until_blank script_transport script_todo]. rewrite Hb.
    split; [reflexivity|]. cbn [incoming script_network_laws script_todo]. split; [apply app_nil_r|].
    exact (blank_end_le _ _ Hb).
  - intros buf [o w s] Hb. cbn [incoming script_network_laws script_todo] in Hb.
    eexists _, _, _. cbn [read_until_blank script_transport script_todo]. now rewrite Hb.
Defined.
