(* ===== verification/Socks.v ===== *)
(** SOCKS proxies: [socks_proxy_connect] and [socks_proxy_handshake] of
    avhttp/impl/http_stream.ipp, and the asynchronous state machine
    [handle_socks_process] with the functions around it.

    Both work on the receive buffer and the socket, the record [body], with the
    settings of the proxy and the URL as variables; the state machine also
    keeps [m_proxy_status] and [m_remote_endp].  An asynchronous operation that
    a handler starts is a value of [socks_action]; [run_socks] performs it and
    calls the handler that was bound to it. *)

From S2P Require Import Prelude CLib EscapeString Url Settings HttpBody HttpStream Transport.

(** ** Messages *)

Definition is_socks5 (s : proxy_settings) : bool :=
  match type s with socks5 | socks5_pw => true | _ => false end.

Definition size (s : cstring) : Z := Z.of_nat (length s).

(** The authentication methods that the client offers. *)
Definition version_message (s : proxy_settings) : cstring :=
  write_uint8 5 ++ (if negb (nonempty (username s)) then write_uint8 1 ++ write_uint8 0
                    else write_uint8 2 ++ write_uint8 0 ++ write_uint8 2).

Definition userinfo_message (s : proxy_settings) : cstring :=
  write_uint8 1 ++ write_uint8 (size (username s)) ++ username s
  ++ write_uint8 (size (password s)) ++ password s.

Definition socks5_message (u : url) : cstring :=
  write_uint8 5 ++ write_uint8 1 ++ write_uint8 0 ++ write_uint8 3
  ++ write_uint8 (size (host_ u)) ++ host_ u ++ write_uint16 (port u).

Definition socks4_message (s : proxy_settings) (port ip : Z) : cstring :=
  write_uint8 4 ++ write_uint8 1 ++ write_uint16 port ++ write_uint32 ip ++ username s ++ write_uint8 0.

(** The errors behind the reply codes of both versions. *)
Definition socks5_reply_error (response : Z) : error :=
  if response =? 2 then no_permission
  else if response =? 3 then network_unreachable
  else if response =? 4 then host_unreachable
  else if response =? 5 then connection_refused
  else if response =? 6 then timed_out
  else if response =? 7 then socks_command_not_supported
  else if response =? 8 then address_family_not_supported
  else socks_general_failure.

Definition socks4_reply_error (response : Z) : error :=
  if response =? 91 then socks_authentication_error
  else if response =? 92 then socks_no_identd
  else if response =? 93 then socks_identd_error
  else socks_general_failure.

Section Socks.
Context {N : Network} {T : Transport N}.
(** Whether [BOOST_ASSERT] is active, [m_proxy] and [m_url]. *)
Variables (asserts : bool) (s : proxy_settings) (u : url).

Abbreviation B := (st body fault).

(** [write(sock, m_request, transfer_exactly(...), ec)]. *)
Definition send (text : cstring) : B error_code :=
  b ← st_get;
  let '(ec, k) := sock_write text (m_sock b) in
  st_modify (set_sock k) ;; mret ec.

(** [m_response.consume(m_response.size()); read(sock, m_response, transfer_exactly(n), ec)]. *)
Definition receive (n : Z) : B error_code :=
  b ← st_get;
  let '(d, ec, k) := read_exactly n (m_sock b) in
  st_modify (fun b => set_sock k (set_response d b)) ;; mret ec.

(** The byte [i] of [m_response], as [read_uint8] reads it. *)
Definition response_byte (i : nat) : B Z :=
  b ← st_get;
  match m_response b !! i with Some c => mret (uchar c) | None => st_fail ReadPastEnd end.

(** The address for a SOCKS 4 request. *)
Definition first_v4 (l : list endpoint) : result fault Z :=
  match l with
  | [] => Err ReadPastEnd
  | e :: _ => match address_v4 e with Some ip => Ok ip | None => Err Thrown end
  end.

(** ** The synchronous handshake *)

(** The request: [inl] for an error. *)
Definition connect_request : B (error + cstring) :=
  if is_socks5 s then
    boost_assert asserts (size (host_ u) <=? 255) ;; mret (inr (socks5_message u))
  else
    match type s with
    | socks4 =>
        match resolve (c_str (host_ u)) (itoa (port u)) with
        | Err e => mret (inl e)
        | Ok l => ip ← st_lift (first_v4 l); mret (inr (socks4_message s (port u) ip))
        end
    | _ => mret (inl socks_unsupported_version)
    end.

(** The reply of a SOCKS 5 server, after version and response. *)
Definition socks5_reply_tail : B error_code :=
  atyp ← response_byte 3;
  if atyp =? 1 then st_modify (set_response []) ;; mret None
  else if atyp =? 3 then
    len ← response_byte 4;
    let bytes_to_read := wrapu 64 (len - 3) in
    if 2 ^ 63 <=? bytes_to_read then st_fail Thrown
    else
      b ← st_get;
      let '(d, _, k) := read_exactly bytes_to_read (m_sock b) in
      st_modify (fun b => set_sock k (set_response [] b)) ;; mret None
  else mret (Some address_family_not_supported).

Definition socks_proxy_handshake : B error_code :=
  m ← connect_request;
  match m with
  | inl e => mret (Some e)
  | inr text =>
      ec ← send text;
      match ec with
      | Some _ => mret ec
      | None =>
          let bytes_to_read := if is_socks5 s then 10 else match type s with socks4 => 8 | _ => 0 end in
          boost_assert asserts (bytes_to_read =? 0) ;;
          _ ← receive bytes_to_read;
          version ← response_byte 0;
          response ← response_byte 1;
          if version =? 5 then
            if negb (is_socks5 s) then mret (Some socks_unsupported_version)
            else if negb (response =? 0) then mret (Some (socks5_reply_error response))
            else socks5_reply_tail
          else if version =? 4 then
            if response =? 90 then st_modify (set_response []) ;; mret None
            else mret (Some (socks4_reply_error response))
          else mret (Some socks_general_failure)
      end
  end.

(** The answer to the user name and password. *)
Definition auth_status : B error_code :=
  version ← response_byte 0;
  status ← response_byte 1;
  if negb (version =? 1) then mret (Some socks_unsupported_authentication_version)
  else if negb (status =? 0) then mret (Some socks_authentication_error)
  else socks_proxy_handshake.

(** After the version message was sent. *)
Definition negotiate : B error_code :=
  ec ← receive 2;
  match ec with
  | Some _ => mret ec
  | None =>
      version ← response_byte 0;
      method ← response_byte 1;
      if negb (version =? 5) then mret (Some socks_unsupported_version)
      else if method =? 2 then
        if negb (nonempty (username s)) then mret (Some socks_username_required)
        else
          ec ← send (userinfo_message s);
          match ec with
          | Some _ => mret ec
          | None =>
              ec ← receive 2;
              match ec with Some _ => mret ec | None => auth_status end
          end
      else if method =? 0 then socks_proxy_handshake
      else auth_status
  end.

Definition socks_proxy_connect : B error_code :=
  b ← st_get;
  let '(ec, k) := resolve_connect tcp_connect (c_str (hostname s)) (proxy_port s) (m_sock b) in
  st_modify (set_sock k) ;;
  match ec with
  | Some _ => mret ec
  | None =>
      if is_socks5 s then
        ec ← send (version_message s);
        match ec with Some _ => mret ec | None => negotiate end
      else match type s with socks4 => socks_proxy_handshake | _ => mret None end
  end.
End Socks.

(** ** The asynchronous state machine *)

Inductive socks_status : Type :=
| socks_proxy_resolve | socks_connect_proxy | socks_send_version | socks4_resolve_host | socks4_response
| socks5_response_version | socks5_send_userinfo | socks5_connect_request | socks5_connect_response
| socks5_auth_status | socks5_result | socks5_read_domainname | tls_handshake.

Record socks_state {N : Network} {T : Transport N} : Type := SocksState {
  s_body : body;
  m_proxy_status : socks_status;
  m_remote_endp : option endpoint
}.

(** What a handler does last: it starts an operation, whose handler is known
    ([async_socks_proxy_resolve], [handle_connect_socks] with its iterator,
    [handle_socks_process]), it calls [async_request] ([Connected]), it calls
    the handler of the user, or none of these. *)
Inductive socks_action {N : Network} {T : Transport N} : Type :=
| WaitResolve (host port : cstring)
| WaitConnect (l : list endpoint)
| WaitWrite (text : cstring)
| WaitRead (n : Z)
| WaitHandshake
| Connected
| Called (e : error)
| Silent.

Section AsyncSocks.
Context {N : Network} {T : Transport N}.
(** As above, and whether the URL is one of [https]. *)
Variables (asserts : bool) (s : proxy_settings) (u : url) (https : bool).

Abbreviation A := (st socks_state fault).

Definition set_socks_body (b : body) (x : socks_state) : socks_state :=
  SocksState _ _ b (m_proxy_status x) (m_remote_endp x).
Definition set_proxy_status (p : socks_status) (x : socks_state) : socks_state :=
  SocksState _ _ (s_body x) p (m_remote_endp x).
Definition set_remote (e : endpoint) (x : socks_state) : socks_state :=
  SocksState _ _ (s_body x) (m_proxy_status x) (Some e).

(** An operation on the buffer and the socket. *)
Definition on_body {R} (m : st body fault R) : A R := fun x =>
  match m (s_body x) with
  | Ok (r, b) => Ok (r, set_socks_body b x)
  | Err f => Err f
  end.

Definition clear_response : A () := on_body (st_modify (set_response [])).

(** The tunnel stands: TLS first for [https]. *)
Definition tunnel_ready : A socks_action :=
  clear_response ;;
  if https then st_modify (set_proxy_status tls_handshake) ;; mret WaitHandshake else mret Connected.

(** [case socks5_connect_request]. *)
Definition send_connect_request : A socks_action :=
  st_modify (set_proxy_status socks5_connect_response) ;;
  on_body (boost_assert asserts (size (host_ u) <=? 255)) ;;
  mret (WaitWrite (socks5_message u)).

(** [handle_socks_process(sock, handler, bytes_transferred, err)]. *)
Definition handle_socks_process (err : error_code) : A socks_action :=
  match err with
  | Some e => mret (Called e)
  | None =>
      x ← st_get;
      match m_proxy_status x with
      | socks_send_version =>
          match type s with
          | socks4 => st_modify (set_proxy_status socks4_response) ;; clear_response ;; mret (WaitRead 8)
          | socks5 | socks5_pw =>
              st_modify (set_proxy_status socks5_response_version) ;; clear_response ;; mret (WaitRead 2)
          | _ => mret Silent
          end
      | socks4_resolve_host =>
          st_modify (set_proxy_status socks_send_version) ;;
          ip ← st_lift (first_v4 (match m_remote_endp x with Some e => [e] | None => [] end));
          mret (WaitWrite (socks4_message s (port u) ip))
      | socks5_send_userinfo =>
          st_modify (set_proxy_status socks5_auth_status) ;; clear_response ;; mret (WaitRead 2)
      | socks5_connect_request => send_connect_request
      | socks5_connect_response =>
          st_modify (set_proxy_status socks5_result) ;; clear_response ;; mret (WaitRead 10)
      | socks4_response =>
          _ ← on_body (response_byte 0);
          response ← on_body (response_byte 1);
          if response =? 90 then tunnel_ready else mret (Called (socks4_reply_error response))
      | tls_handshake => mret Connected
      | socks5_response_version =>
          version ← on_body (response_byte 0);
          method ← on_body (response_byte 1);
          if negb (version =? 5) then mret (Called socks_unsupported_version)
          else if method =? 2 then
            if negb (nonempty (username s)) then mret (Called socks_username_required)
            else
              st_modify (set_proxy_status socks5_send_userinfo) ;; mret (WaitWrite (userinfo_message s))
          else if method =? 0 then
            st_modify (set_proxy_status socks5_connect_request) ;; send_connect_request
          else mret Silent
      | socks5_auth_status =>
          version ← on_body (response_byte 0);
          status ← on_body (response_byte 1);
          if negb (version =? 1) then mret (Called socks_unsupported_authentication_version)
          else if negb (status =? 0) then mret (Called socks_authentication_error)
          else st_modify (set_proxy_status socks5_connect_request) ;; send_connect_request
      | socks5_result =>
          version ← on_body (response_byte 0);
          response ← on_body (response_byte 1);
          if negb (version =? 5) then mret (Called socks_general_failure)
          else if negb (response =? 0) then mret (Called (socks5_reply_error response))
          else
            atyp ← on_body (response_byte 3);
            if atyp =? 1 then tunnel_ready
            else if atyp =? 3 then
              len ← on_body (response_byte 4);
              st_modify (set_proxy_status socks5_read_domainname) ;; clear_response ;;
              mret (WaitRead (wrapu 64 (len - 3)))
            else mret (Called address_family_not_supported)
      | socks5_read_domainname => tunnel_ready
      | socks_proxy_resolve | socks_connect_proxy => mret Silent
      end
  end.

(** [async_socks_proxy_resolve(err, iterator, sock, handler)]. *)
Definition async_socks_proxy_resolve (r : result error (list endpoint)) : A socks_action :=
  match r with
  | Err e => mret (Called e)
  | Ok l =>
      x ← st_get;
      match m_proxy_status x with
      | socks_proxy_resolve => st_modify (set_proxy_status socks_connect_proxy) ;; mret (WaitConnect l)
      | socks4_resolve_host =>
          match l with
          | [] => st_fail ReadPastEnd
          | e :: _ => st_modify (set_remote e) ;; handle_socks_process None
          end
      | _ => mret Silent
      end
  end.

(** [handle_connect_socks(sock, handler, iterator, err)]. *)
Definition handle_connect_socks (l : list endpoint) (err : error_code) : A socks_action :=
  match err with
  | Some e => match l with [] => mret (Called e) | _ :: l' => mret (WaitConnect l') end
  | None =>
      if is_socks5 s then
        st_modify (set_proxy_status socks_send_version) ;; mret (WaitWrite (version_message s))
      else
        match type s with
        | socks4 =>
            st_modify (set_proxy_status socks4_resolve_host) ;; mret (WaitResolve (host_ u) (itoa (port u)))
        | _ => mret Silent
        end
  end.

(** [async_socks_proxy_connect(sock, handler)]. *)
Definition async_socks_proxy_connect : A socks_action :=
  st_modify (set_proxy_status socks_proxy_resolve) ;; mret (WaitResolve (hostname s) (itoa (proxy_port s))).

(** One operation and the handler that it ends with; [async_connect] tries the
    addresses in turn, with [not_found] when there are none. *)
Definition socks_step (a : socks_action) : A socks_action :=
  match a with
  | WaitResolve host port => async_socks_proxy_resolve (resolve host port)
  | WaitConnect l =>
      ec ← on_body (b ← st_get;
                    let '(ec, k) := connect_loop tcp_connect l (Some not_found) (m_sock b) in
                    st_modify (set_sock k) ;; mret ec);
      handle_connect_socks l ec
  | WaitWrite text => ec ← on_body (send text); handle_socks_process ec
  | WaitRead n => ec ← on_body (receive n); handle_socks_process ec
  | WaitHandshake =>
      ec ← on_body (b ← st_get;
                    let '(ec, k) := ssl_handshake (m_sock b) in st_modify (set_sock k) ;; mret ec);
      handle_socks_process ec
  | Connected | Called _ | Silent => mret a
  end.

(** Whether an operation is pending. *)
Definition waiting (a : socks_action) : bool :=
  match a with Connected | Called _ | Silent => false | _ => true end.

Fixpoint run_socks (fuel : nat) (a : socks_action) : A socks_action :=
  if negb (waiting a) then mret a
  else match fuel with
       | O => st_fail Hang
       | S f => a' ← socks_step a; run_socks f a'
       end.
End AsyncSocks.

(** ** Specification: the side of the proxy (RFC 1928, RFC 1929) *)

(** A CONNECT request for a domain name: the name, the port, and what follows. *)
Definition server_request (m : cstring) : option (cstring * Z * cstring) :=
  match m with
  | v :: c :: r :: a :: l :: m' =>
      if (uchar v =? 5) && (uchar c =? 1) && (uchar r =? 0) && (uchar a =? 3)
         && (uchar l <=? size m')
      then
        let name := take (Z.to_nat (uchar l)) m' in
        match read_impl 2 (drop (Z.to_nat (uchar l)) m') with
        | Some (p, rest) => Some (name, p, rest)
        | None => None
        end
      else None
  | _ => None
  end.

(** The reply that grants a request: with an IPv4 address, or with a name. *)
Inductive granted : cstring -> Prop :=
| granted_v4 rsv (a : cstring) :
    length a = 6%nat -> granted (chr 5 :: chr 0 :: rsv :: chr 1 :: a)
| granted_name rsv (name p : cstring) :
    (3 <= length name <= 255)%nat -> length p = 2%nat ->
    granted (chr 5 :: chr 0 :: rsv :: chr 3 :: chr (size name) :: name ++ p).

(** The replies before it, without and with a password. *)
Definition method_replies (auth : bool) : cstring :=
  if auth then [chr 5; chr 2; chr 1; chr 0] else [chr 5; chr 0].

(** What the client sends in the whole handshake. *)
Definition socks5_sends (auth : bool) (s : proxy_settings) (u : url) : cstring :=
  version_message s ++ (if auth then userinfo_message s else []) ++ socks5_message u.

(** ** Lemmas *)

Lemma write_uint8_chr v : write_uint8 v = [chr v].
Proof.
  unfold write_uint8. cbn [write_impl]. change (Z.of_nat 0 * 8) with 0. rewrite Z.shiftr_0_r, land_255.
  unfold wrapu, chr. rewrite Z.mod_mod by lia. now rewrite Z.mod_mod by lia.
Qed.

Lemma server_request_message u rest :
  size (host_ u) <= 255 -> server_request (socks5_message u ++ rest) = Some (host_ u, port u mod 65536, rest).
Proof.
  intros Hh. unfold socks5_message. rewrite !write_uint8_chr. cbn [app server_request].
  assert (0 <= size (host_ u)) by (unfold size; lia). rewrite (uchar_chr (size (host_ u))), Z.mod_small by lia.
  change (uchar (chr 5) =? 5) with true. change (uchar (chr 1) =? 1) with true.
  change (uchar (chr 0) =? 0) with true. change (uchar (chr 3) =? 3) with true. cbn [andb].
  rewrite <- !app_assoc.
  assert ((size (host_ u) <=? size (host_ u ++ write_uint16 (port u) ++ rest)) = true) as ->
    by (apply Z.leb_le; unfold size; rewrite length_app; lia).
  unfold size at 1 2. rewrite Nat2Z.id, take_app_length, drop_app_length.
  unfold write_uint16. rewrite read_write_impl. change (256 ^ Z.of_nat 2) with 65536.
  unfold wrapu. change (2 ^ 16) with 65536. now rewrite Z.mod_mod by lia.
Qed.

Lemma connect_loop_first {N : Network} {T : Transport N} c l e e' k :
  fst (connect_loop c l (Some e) k) = None -> connect_loop c l (Some e') k = connect_loop c l (Some e) k.
Proof. destruct l; [discriminate|reflexivity]. Qed.

(** The first ten bytes of a granting reply, and the rest, which only a name
    can have. *)
Definition reply_rest (d d' : cstring) : Prop :=
  (d !! 3%nat = Some (chr 1) /\ d' = [])
  \/ exists len, d !! 3%nat = Some (chr 3) /\ d !! 4%nat = Some (chr len) /\ 3 <= len <= 255 /\ size d' = len - 3.

Lemma granted_split r : granted r ->
  exists d d', r = d ++ d' /\ size d = 10 /\ d !! 0%nat = Some (chr 5) /\ d !! 1%nat = Some (chr 0) /\ reply_rest d d'.
Proof.
  intros G. exists (take 10 r), (drop 10 r). rewrite take_drop. unfold size. rewrite length_take. split; [reflexivity|].
  inversion G as [rsv a Ha|rsv name p Hn Hp]; cbn [length]; rewrite ?length_app; (split; [lia|]);
    (split; [reflexivity|]); (split; [reflexivity|]).
  - left. split; [reflexivity|]. apply drop_ge. cbn [length]. lia.
  - right. exists (size name). unfold size. repeat split; try reflexivity; try lia.
    rewrite length_drop. cbn [length]. rewrite length_app. lia.
Qed.

Section Facts.
Context {N : Network} {T : Transport N} {L : NetworkLaws N} {TL : TransportLaws T L}.
(** The proxy keeps the connection, so that writes succeed. *)
Hypothesis writes : forall text k, fst (sock_write text k) = None.

Lemma send_ok text b : exists k, send text b = Ok (None, set_sock k b)
  /\ sent k = sent (m_sock b) ++ text /\ incoming k = incoming (m_sock b).
Proof.
  unfold send. run. pose proof (writes text (m_sock b)) as W. destruct (sock_write text (m_sock b)) as [ec k] eqn:E.
  cbn [fst] in W. subst ec. exists k. split; [reflexivity|]. now apply write_sent.
Qed.

Lemma receive_ok d rest b : incoming (m_sock b) = d ++ rest ->
  exists k, receive (size d) b = Ok (None, set_sock k (set_response d b))
  /\ incoming k = rest /\ sent k = sent (m_sock b).
Proof.
  intros Hi. destruct (read_exactly_data d rest _ Hi) as (k & E & H). exists k. split; [|exact H].
  unfold receive, size. run. now rewrite E.
Qed.

Lemma response_byte_ok b i c : m_response b !! i = Some c -> response_byte i b = Ok (uchar c, b).
Proof. intros E. unfold response_byte. run. now rewrite E. Qed.

(** The reply to the CONNECT request, after ten bytes were read. *)
Lemma reply_tail_ok d d' rest b :
  reply_rest d d' -> m_response b = d -> incoming (m_sock b) = d' ++ rest ->
  exists k, socks5_reply_tail b = Ok (None, set_sock k (set_response [] b))
    /\ incoming k = rest /\ sent k = sent (m_sock b).
Proof.
  intros [[D3 ->]|(len & D3 & D4 & Hl & Hs)] Hr Hi; unfold socks5_reply_tail; rewrite <- Hr in *;
    rewrite (bind_ok _ _ _ _ _ (response_byte_ok _ _ _ D3)).
  - change (uchar (chr 1) =? 1) with true. cbv iota. exists (m_sock b). split; [destruct b; reflexivity|auto].
  - change (uchar (chr 3) =? 1) with false. change (uchar (chr 3) =? 3) with true. cbv iota.
    rewrite (bind_ok _ _ _ _ _ (response_byte_ok _ _ _ D4)), uchar_chr, (Z.mod_small len), wrapu_id by lia.
    rewrite (proj2 (Z.leb_gt _ _)) by lia. rewrite (bind_ok _ _ b b b) by reflexivity. rewrite <- Hs.
    destruct (read_exactly_data d' rest _ Hi) as (k & E & H). unfold size. rewrite E. exists k. split; [reflexivity|exact H].
Qed.

Lemma handshake_ok s u b r rest :
  is_socks5 s = true -> granted r -> incoming (m_sock b) = r ++ rest ->
  exists k, socks_proxy_handshake false s u b = Ok (None, set_sock k (set_response [] b))
    /\ incoming k = rest /\ sent k = sent (m_sock b) ++ socks5_message u.
Proof.
  intros H5 G Hi. unfold socks_proxy_handshake, connect_request. rewrite H5.
  rewrite (bind_ok _ _ b (inr (socks5_message u)) b) by reflexivity.
  destruct (send_ok (socks5_message u) b) as (k1 & E1 & S1 & I1). rewrite (bind_ok _ _ _ _ _ E1).
  cbn [andb]. rewrite (bind_ok _ _ (set_sock k1 b) () (set_sock k1 b)) by reflexivity.
  destruct (granted_split r G) as (d & d' & -> & Ld & D0 & D1 & Hd). rewrite <- app_assoc in Hi.
  destruct (receive_ok d (d' ++ rest) (set_sock k1 b)) as (k2 & E2 & I2 & S2); [now rewrite <- Hi|].
  rewrite <- Ld, (bind_ok _ _ _ _ _ E2).
  erewrite bind_ok by (apply response_byte_ok; exact D0). erewrite bind_ok by (apply response_byte_ok; exact D1).
  change (uchar (chr 5) =? 5) with true. change (uchar (chr 0) =? 0) with true. cbn [negb].
  destruct (reply_tail_ok d d' rest (set_sock k2 (set_response d (set_sock k1 b))) Hd eq_refl I2) as (k & E & I3 & S3).
  exists k. rewrite E. split; [reflexivity|]. split; [exact I3|]. rewrite S3. cbn [m_sock set_sock]. rewrite S2.
  cbn [m_sock set_sock]. exact S1.
Qed.

Lemma negotiate_ok s u b auth r rest :
  is_socks5 s = true -> granted r -> (auth = true -> username s <> []) ->
  incoming (m_sock b) = method_replies auth ++ r ++ rest ->
  exists k, negotiate false s u b = Ok (None, set_sock k (set_response [] b))
    /\ incoming k = rest
    /\ sent k = sent (m_sock b) ++ (if auth then userinfo_message s else []) ++ socks5_message u.
Proof.
  intros H5 G Hu Hi. unfold negotiate. destruct auth; cbn [method_replies app] in Hi.
  - destruct (receive_ok [chr 5; chr 2] (chr 1 :: chr 0 :: r ++ rest) b Hi) as (k1 & E1 & I1 & S1).
    change (size [chr 5; chr 2]) with 2 in E1. rewrite (bind_ok _ _ _ _ _ E1).
    do 2 (erewrite bind_ok by (apply response_byte_ok; reflexivity)).
    change (uchar (chr 5) =? 5) with true. change (uchar (chr 2) =? 2) with true. cbn [negb].
    assert (nonempty (username s) = true) as -> by (destruct (username s); [now contradiction Hu|reflexivity]). cbn [negb].
    destruct (send_ok (userinfo_message s) (set_sock k1 (set_response [chr 5; chr 2] b))) as (k2 & E2 & S2 & I2).
    rewrite (bind_ok _ _ _ _ _ E2). cbn [m_sock set_sock] in S2, I2. rewrite I1 in I2.
    destruct (receive_ok [chr 1; chr 0] (r ++ rest) (set_sock k2 (set_sock k1 (set_response [chr 5; chr 2] b))) I2)
      as (k3 & E3 & I3 & S3). change (size [chr 1; chr 0]) with 2 in E3. rewrite (bind_ok _ _ _ _ _ E3).
    unfold auth_status. do 2 (erewrite bind_ok by (apply response_byte_ok; reflexivity)).
    change (uchar (chr 1) =? 1) with true. change (uchar (chr 0) =? 0) with true. cbn [negb].
    match goal with |- context [socks_proxy_handshake false s u ?b0] =>
      destruct (handshake_ok s u b0 r rest H5 G I3) as (k & E & I & S) end.
    exists k. rewrite E. split; [reflexivity|]. split; [exact I|]. rewrite S. cbn [m_sock set_sock]. rewrite S3.
    cbn [m_sock set_sock]. rewrite S2, S1. now rewrite <- app_assoc.
  - destruct (receive_ok [chr 5; chr 0] (r ++ rest) b Hi) as (k1 & E1 & I1 & S1).
    change (size [chr 5; chr 0]) with 2 in E1. rewrite (bind_ok _ _ _ _ _ E1).
    do 2 (erewrite bind_ok by (apply response_byte_ok; reflexivity)).
    change (uchar (chr 5) =? 5) with true. change (uchar (chr 0) =? 2) with false.
    change (uchar (chr 0) =? 0) with true. cbn [negb].
    match goal with |- context [socks_proxy_handshake false s u ?b0] =>
      destruct (handshake_ok s u b0 r rest H5 G I1) as (k & E & I & S) end.
    exists k. rewrite E. split; [reflexivity|]. split; [exact I|]. rewrite S. cbn [m_sock set_sock app]. now rewrite S1.
Qed.
End Facts.

(** The version message was sent. *)
Lemma version_sent {N : Network} {T : Transport N} asserts s u https b e : is_socks5 s = true ->
  handle_socks_process asserts s u https None (SocksState _ _ b socks_send_version e)
  = Ok (WaitRead 2, SocksState _ _ (set_response [] b) socks5_response_version e).
Proof. unfold is_socks5. cbn [handle_socks_process m_proxy_status]. run. now destruct (type s). Qed.

Section AsyncFacts.
Context {N : Network} {T : Transport N} {L : NetworkLaws N} {TL : TransportLaws T L}.
Hypothesis writes : forall text k, fst (sock_write text k) = None.
Variables (asserts : bool) (s : proxy_settings) (u : url).
Hypothesis host_fits : size (host_ u) <= 255.

Abbreviation proceed := (handle_socks_process asserts s u false).
Abbreviation step := (socks_step asserts s u false).
Abbreviation go := (run_socks asserts s u false).

Lemma assert_host : boost_assert asserts (size (host_ u) <=? 255) = mret ().
Proof using host_fits. unfold boost_assert. rewrite (proj2 (Z.leb_le _ _) host_fits). cbn [negb]. now rewrite andb_false_r. Qed.

Lemma on_body_ok {R} (m : st body fault R) x r b : m (s_body x) = Ok (r, b) -> on_body m x = Ok (r, set_socks_body b x).
Proof. intros E. unfold on_body. now rewrite E. Qed.

(** The state machine goes on with what a handler returns. *)
Definition continue (f : nat) (r : result fault (socks_action * socks_state)) : result fault (socks_action * socks_state) :=
  match r with Ok (a, x) => go f a x | Err e => Err e end.

Lemma go_done f a x : waiting a = false -> go f a x = Ok (a, x).
Proof. intros W. destruct f; cbn [run_socks]; now rewrite W. Qed.

Lemma go_write f text b p e : exists k,
  go (S f) (WaitWrite text) (SocksState _ _ b p e) = continue f (proceed None (SocksState _ _ (set_sock k b) p e))
  /\ sent k = sent (m_sock b) ++ text /\ incoming k = incoming (m_sock b).
Proof.
  destruct (send_ok writes text b) as (k & E & H). exists k. split; [|exact H]. cbn [run_socks waiting negb socks_step].
  unfold mbind at 1, st_bind. now rewrite (bind_ok _ _ _ _ _ (on_body_ok _ (SocksState _ _ b p e) _ _ E)).
Qed.

Lemma go_read f n d rest b p e : incoming (m_sock b) = d ++ rest -> n = size d -> exists k,
  go (S f) (WaitRead n) (SocksState _ _ b p e)
    = continue f (proceed None (SocksState _ _ (set_sock k (set_response d b)) p e))
  /\ incoming k = rest /\ sent k = sent (m_sock b).
Proof.
  intros Hi ->. destruct (receive_ok d rest b Hi) as (k & E & H). exists k. split; [|exact H].
  cbn [run_socks waiting negb socks_step].
  unfold mbind at 1, st_bind. now rewrite (bind_ok _ _ _ _ _ (on_body_ok _ (SocksState _ _ b p e) _ _ E)).
Qed.

Lemma response_set k d (b : body) : m_response (set_sock k (set_response d b)) = d.
Proof. reflexivity. Qed.

(** A handler, run on a state whose status is known. *)
Ltac handler :=
  cbn [handle_socks_process m_proxy_status]; unfold send_connect_request, tunnel_ready, clear_response, on_body, response_byte;
  rewrite ?assert_host; run;
  cbv beta iota delta [continue set_socks_body s_body set_proxy_status m_proxy_status m_remote_endp negb];
  rewrite ?response_set.

(** The next byte of the reply. *)
Ltac byte D := rewrite ?response_set; rewrite D; cbv beta iota; rewrite ?response_set.

(** The tunnel stands on the body [b'], with nothing left of the handshake. *)
Definition tunnel (b b' : body) (rest text : cstring) : Prop :=
  exists k, b' = set_sock k (set_response [] b) /\ incoming k = rest /\ sent k = sent (m_sock b) ++ text.

(** From the CONNECT request on. *)
Lemma async_request_ok f b e r rest :
  granted r -> incoming (m_sock b) = r ++ rest ->
  exists b' p, go (3 + f) (WaitWrite (socks5_message u)) (SocksState _ _ b socks5_connect_response e)
      = Ok (Connected, SocksState _ _ b' p e) /\ tunnel b b' rest (socks5_message u).
Proof.
  intros G Hi. destruct (go_write (2 + f) (socks5_message u) b socks5_connect_response e) as (k1 & E1 & S1 & I1).
  cbn [Nat.add] in *. rewrite E1. clear E1. handler. rewrite Hi in I1.
  destruct (granted_split r G) as (d & d' & -> & Ld & D0 & D1 & Hd). rewrite <- app_assoc in I1.
  destruct (go_read (S f) 10 d (d' ++ rest) (set_response [] (set_sock k1 b)) socks5_result e I1 (eq_sym Ld))
    as (k2 & E2 & I2 & S2).
  rewrite E2. clear E2.
  handler. byte D0. byte D1. change (uchar (chr 5) =? 5) with true. change (uchar (chr 0) =? 0) with true. cbv beta iota.
  destruct Hd as [[D3 ->]|(len & D3 & D4 & Hl & Hs)]; rewrite ?response_set; byte D3.
  - change (uchar (chr 1) =? 1) with true. cbv beta iota. rewrite go_done by reflexivity.
    do 2 eexists. split; [reflexivity|]. exists k2. cbn [app] in I2. rewrite S2. auto.
  - change (uchar (chr 3) =? 1) with false. change (uchar (chr 3) =? 3) with true. cbv beta iota. byte D4.
    rewrite uchar_chr, (Z.mod_small len), wrapu_id by lia.
    match goal with |- context [go _ (WaitRead _) (SocksState _ _ ?b0 _ _)] =>
      destruct (go_read f (len - 3) d' rest b0 socks5_read_domainname e I2 (eq_sym Hs)) as (k3 & E3 & I3 & S3) end.
    rewrite E3. handler. rewrite go_done by reflexivity. do 2 eexists. split; [reflexivity|]. exists k3.
    rewrite S3. cbn [m_sock set_sock set_response]. rewrite S2. auto.
Qed.

(** The server has chosen a method. *)
Lemma method_chosen f b e auth rest :
  (auth = true -> username s <> []) -> incoming (m_sock b) = method_replies auth ++ rest ->
  exists k d g, go (3 + f) (WaitRead 2) (SocksState _ _ b socks5_response_version e)
      = go (g + f) (WaitWrite (socks5_message u)) (SocksState _ _ (set_sock k (set_response d b)) socks5_connect_response e)
    /\ incoming k = rest /\ sent k = sent (m_sock b) ++ (if auth then userinfo_message s else []).
Proof.
  intros Hu Hi. destruct auth; cbn [method_replies app] in Hi.
  - destruct (go_read (2 + f) 2 [chr 5; chr 2] (chr 1 :: chr 0 :: rest) b socks5_response_version e Hi eq_refl)
      as (k1 & E1 & I1 & S1). cbn [Nat.add] in *. rewrite E1. handler.
    byte (eq_refl : [chr 5; chr 2] !! 0%nat = Some (chr 5)). byte (eq_refl : [chr 5; chr 2] !! 1%nat = Some (chr 2)).
    change (uchar (chr 5) =? 5) with true. change (uchar (chr 2) =? 2) with true. cbv beta iota.
    assert (nonempty (username s) = true) as -> by (destruct (username s); [now contradiction Hu|reflexivity]).
    cbv beta iota.
    destruct (go_write (S f) (userinfo_message s) (set_sock k1 (set_response [chr 5; chr 2] b)) socks5_send_userinfo e)
      as (k2 & E2 & S2 & I2). rewrite E2. handler. cbn [m_sock set_sock] in S2, I2. rewrite I1 in I2. rewrite S1 in S2.
    match goal with |- context [go _ (WaitRead 2) (SocksState _ _ ?b0 _ _)] =>
      destruct (go_read f 2 [chr 1; chr 0] rest b0 socks5_auth_status e I2 eq_refl) as (k3 & E3 & I3 & S3) end.
    rewrite E3. handler.
    byte (eq_refl : [chr 1; chr 0] !! 0%nat = Some (chr 1)). byte (eq_refl : [chr 1; chr 0] !! 1%nat = Some (chr 0)).
    change (uchar (chr 1) =? 1) with true. change (uchar (chr 0) =? 0) with true. cbv beta iota.
    exists k3, [chr 1; chr 0], 0%nat. split; [reflexivity|]. split; [exact I3|]. rewrite S3. exact S2.
  - destruct (go_read (2 + f) 2 [chr 5; chr 0] rest b socks5_response_version e Hi eq_refl)
      as (k1 & E1 & I1 & S1). cbn [Nat.add] in *. rewrite E1. handler.
    byte (eq_refl : [chr 5; chr 0] !! 0%nat = Some (chr 5)). byte (eq_refl : [chr 5; chr 0] !! 1%nat = Some (chr 0)).
    change (uchar (chr 5) =? 5) with true. change (uchar (chr 0) =? 2) with false.
    change (uchar (chr 0) =? 0) with true. cbv beta iota.
    exists k1, [chr 5; chr 0], 2%nat. rewrite app_nil_r. auto.
Qed.

(** From the version message on. *)
Lemma async_negotiate_ok f b e auth r rest :
  is_socks5 s = true -> granted r -> (auth = true -> username s <> []) ->
  incoming (m_sock b) = method_replies auth ++ r ++ rest ->
  exists b' p, go (7 + f) (WaitWrite (version_message s)) (SocksState _ _ b socks_send_version e)
      = Ok (Connected, SocksState _ _ b' p e) /\ tunnel b b' rest (socks5_sends auth s u).
Proof.
  intros H5 G Hu Hi.
  destruct (go_write (6 + f) (version_message s) b socks_send_version e) as (k1 & E1 & S1 & I1).
  rewrite Hi in I1. cbn [Nat.add] in *. rewrite E1, version_sent by exact H5. cbn [continue].
  destruct (method_chosen (3 + f) (set_response [] (set_sock k1 b)) e auth (r ++ rest) Hu I1) as (k2 & d & g & E2 & I2 & S2).
  cbn [Nat.add] in E2. rewrite E2. replace (g + S (S (S f)))%nat with (3 + (g + f))%nat by lia.
  match goal with |- context [go _ _ (SocksState _ _ ?b0 _ _)] =>
    destruct (async_request_ok (g + f) b0 e r rest G I2) as (b' & p & E & k & -> & I & S) end.
  rewrite E. do 2 eexists. split; [reflexivity|]. exists k. split; [reflexivity|]. split; [exact I|].
  rewrite S. cbn [m_sock set_sock]. rewrite S2. cbn [m_sock set_sock set_response]. rewrite S1.
  unfold socks5_sends. now rewrite <- !app_assoc.
Qed.
End AsyncFacts.

(** ** Termination of the state machine *)

Section Rank.
Context {N : Network} {T : Transport N}.
Variables (asserts : bool) (s : proxy_settings) (u : url) (https : bool).

(** How many operations can still be started. *)
Definition status_rank (p : socks_status) : nat :=
  match p with
  | socks_proxy_resolve | socks_connect_proxy => 0
  | tls_handshake => 1
  | socks5_read_domainname | socks4_response => 2
  | socks5_result => 3
  | socks5_connect_response => 4
  | socks5_connect_request | socks5_auth_status => 5
  | socks5_send_userinfo => 6
  | socks5_response_version => 7
  | socks_send_version => 8
  | socks4_resolve_host => 9
  end.

Definition addresses (host port : cstring) : nat :=
  match resolve host port with Ok l => length l | Err _ => 0 end.

Definition rank (a : socks_action) (x : socks_state) : nat :=
  match a with
  | Connected | Called _ | Silent => 0
  | WaitConnect l => 11 + length l
  | WaitResolve host port =>
      match m_proxy_status x with socks_proxy_resolve => 12 + addresses host port | _ => 10 end
  | _ => S (status_rank (m_proxy_status x))
  end.

(** A handler does not hang, and what it starts is closer to the end. *)
Definition advances (n : nat) (r : result fault (socks_action * socks_state)) : Prop :=
  match r with
  | Ok (a, x) => (rank a x <= n)%nat
  | Err f => f <> Hang
  end.

Lemma advances_mono n m r : advances n r -> (n <= m)%nat -> advances m r.
Proof. destruct r as [[a x]|f]; cbn; [lia|auto]. Qed.

Lemma advances_bind {R} (m : st socks_state fault R) k n x :
  (match m x with Ok (r, x') => advances n (k r x') | Err f => f <> Hang end) -> advances n ((m ≫= k) x).
Proof. unfold mbind, st_bind. now destruct (m x) as [[r x']|f]. Qed.

Lemma advances_byte i k n x :
  (forall v, advances n (k v x)) -> advances n ((on_body (response_byte i) ≫= k) x).
Proof.
  intros H. apply advances_bind. unfold on_body, response_byte. run.
  destruct (m_response (s_body x) !! i); [|discriminate]. destruct x. apply H.
Qed.

Lemma process_advances err x :
  advances (status_rank (m_proxy_status x)) (handle_socks_process asserts s u https err x).
Proof.
  destruct err as [e|]; [cbn; lia|]. destruct x as [b p e]. unfold handle_socks_process.
  apply advances_bind. cbn [st_get m_proxy_status].
  destruct p; unfold send_connect_request, tunnel_ready, clear_response;
    repeat first
      [ apply advances_byte; intros ?
      | progress cbn [m_proxy_status m_remote_endp negb]
      | match goal with |- advances _ ((if ?c then _ else _) _) => destruct c end
      | match goal with |- advances _ ((match ?c with _ => _ end) _) => destruct c end
      | apply advances_bind; unfold on_body; cbn; unfold boost_assert, first_v4; run;
        repeat match goal with |- context [if ?c then _ else _] => destruct c
                             | |- context [match address_v4 ?c with _ => _ end] => destruct (address_v4 c) end ];
    cbn; try discriminate; try lia.
  destruct e as [e|]; [destruct (address_v4 e)|]; cbn; first [lia|discriminate].
Qed.

Ltac handled :=
  match goal with |- advances _ (handle_socks_process _ _ _ _ ?e ?y) => exact (process_advances e y) end.

Lemma step_advances a x : waiting a = true -> advances (pred (rank a x)) (socks_step asserts s u https a x).
Proof.
  intros W. destruct a; try discriminate W; cbn [socks_step rank pred].
  - unfold async_socks_proxy_resolve, addresses. destruct (resolve host port) as [l|e]; [|destruct (m_proxy_status x); cbn; lia].
    apply advances_bind. cbn [st_get]. destruct (m_proxy_status x) eqn:E; try (cbn; lia); [run; cbn; lia|].
    destruct l as [|e l]; [run; cbn; discriminate|]. apply advances_bind. cbn [st_modify].
    eapply advances_mono; [apply process_advances|]. cbn. rewrite E. cbn. lia.
  - apply advances_bind. unfold on_body. run. destruct (connect_loop _ _ _ _) as [ec k]. unfold handle_connect_socks.
    destruct ec as [e|]; [destruct l; run; cbn; lia|]. destruct (is_socks5 s); [run; cbn; lia|]. destruct (type s); run; cbn; lia.
  - apply advances_bind. unfold on_body, send. run. destruct (sock_write _ _) as [ec k]. handled.
  - apply advances_bind. unfold on_body, receive. run. destruct (read_exactly _ _) as [[d ec] k]. handled.
  - apply advances_bind. unfold on_body. run. destruct (ssl_handshake _) as [ec k]. handled.
Qed.

Lemma run_advances fuel : forall a x, (rank a x <= fuel)%nat -> run_socks asserts s u https fuel a x <> Err Hang.
Proof.
  induction fuel as [|f IH]; intros a x Hr.
  - destruct a; cbn in Hr; try lia; try discriminate. destruct (m_proxy_status x); lia.
  - cbn [run_socks]. destruct (waiting a) eqn:W; [|discriminate]. cbn [negb].
    pose proof (step_advances a x W) as A. unfold mbind, st_bind.
    destruct (socks_step asserts s u https a x) as [[a' x']|e]; cbn in A; [apply IH; lia|congruence].
Qed.
End Rank.

(** ** Properties *)

(** The asynchronous connection from its start. *)
Definition async_socks {N : Network} {T : Transport N} (asserts : bool) (s : proxy_settings) (u : url)
    (https : bool) (fuel : nat) (b : body) : result fault (socks_action * socks_state) :=
  (async_socks_proxy_connect s ≫= run_socks asserts s u https fuel) (SocksState _ _ b socks_proxy_resolve None).

(** Connecting to the proxy, synchronously and asynchronously. *)
Lemma async_connect {N : Network} {T : Transport N} asserts s u https f b k :
  c_str (hostname s) = hostname s ->
  resolve_connect tcp_connect (c_str (hostname s)) (proxy_port s) (m_sock b) = (None, k) ->
  async_socks asserts s u https (2 + f) b
  = (handle_connect_socks s u (match resolve (hostname s) (itoa (proxy_port s)) with Ok l => l | Err _ => [] end) None
     ≫= run_socks asserts s u https f) (SocksState _ _ (set_sock k b) socks_connect_proxy None).
Proof.
  intros Hn Hc. rewrite Hn in Hc. unfold resolve_connect in Hc. unfold async_socks, async_socks_proxy_connect.
  rewrite (bind_ok _ _ _ (WaitResolve (hostname s) (itoa (proxy_port s))) (SocksState _ _ b socks_proxy_resolve None))
    by reflexivity. cbn [Nat.add run_socks waiting negb socks_step].
  destruct (resolve _ _) as [l|e]; [|discriminate].
  rewrite (bind_ok _ _ _ (WaitConnect l) (SocksState _ _ b socks_connect_proxy None)) by reflexivity.
  cbn [run_socks waiting negb socks_step].
  assert (connect_loop tcp_connect l (Some not_found) (m_sock b) = (None, k)) as Hc'.
  { rewrite <- Hc. apply connect_loop_first. now rewrite Hc. }
  unfold mbind at 1, st_bind at 1. rewrite (bind_ok _ _ _ None (SocksState _ _ (set_sock k b) socks_connect_proxy None)).
  2:{ apply on_body_ok. run. cbn [s_body]. now rewrite Hc'. }
  reflexivity.
Qed.

(** With assertions on, the synchronous handshake never gets past its request:
    [BOOST_ASSERT(bytes_to_read == 0)] is evaluated when the count is 10. *)
Lemma handshake_asserts {N : Network} {T : Transport N} (s : proxy_settings) (u : url) (b : body) :
  is_socks5 s = true -> (forall text k, fst (sock_write text k) = None) -> socks_proxy_handshake true s u b = Err AssertFailed.
Proof.
  intros H5 W. unfold socks_proxy_handshake, connect_request. rewrite H5. unfold boost_assert.
  destruct (size (host_ u) <=? 255); cbn [andb negb]; [|reflexivity].
  rewrite (bind_ok _ _ b (inr (socks5_message u)) b) by reflexivity.
  unfold send. run. pose proof (W (socks5_message u) (m_sock b)) as Hw. destruct (sock_write _ _) as [ec k]. cbn [fst] in Hw. now subst ec.
Qed.

(** The synchronous negotiation with assertions on. *)
Lemma negotiate_asserts {N : Network} {T : Transport N} {L : NetworkLaws N} {TL : TransportLaws T L}
    (s : proxy_settings) (u : url) (b : body) (auth : bool) (rest : cstring) :
  (forall text k, fst (sock_write text k) = None) -> is_socks5 s = true -> (auth = true -> username s <> []) ->
  incoming (m_sock b) = method_replies auth ++ rest -> negotiate true s u b = Err AssertFailed.
Proof.
  intros W H5 Hu Hi. unfold negotiate. destruct auth; cbn [method_replies app] in Hi.
  - destruct (receive_ok [chr 5; chr 2] (chr 1 :: chr 0 :: rest) b Hi) as (k1 & E1 & I1 & _).
    change (size [chr 5; chr 2]) with 2 in E1. rewrite (bind_ok _ _ _ _ _ E1).
    do 2 (erewrite bind_ok by (apply response_byte_ok; reflexivity)).
    change (uchar (chr 5) =? 5) with true. change (uchar (chr 2) =? 2) with true. cbn [negb].
    assert (nonempty (username s) = true) as -> by (destruct (username s); [now contradiction Hu|reflexivity]). cbn [negb].
    destruct (send_ok W (userinfo_message s) (set_sock k1 (set_response [chr 5; chr 2] b))) as (k2 & E2 & _ & I2).
    rewrite (bind_ok _ _ _ _ _ E2). cbn [m_sock set_sock] in I2. rewrite I1 in I2.
    destruct (receive_ok [chr 1; chr 0] rest (set_sock k2 (set_sock k1 (set_response [chr 5; chr 2] b))) I2) as (k3 & E3 & _).
    change (size [chr 1; chr 0]) with 2 in E3. rewrite (bind_ok _ _ _ _ _ E3).
    unfold auth_status. do 2 (erewrite bind_ok by (apply response_byte_ok; reflexivity)).
    change (uchar (chr 1) =? 1) with true. change (uchar (chr 0) =? 0) with true. cbn [negb]. now apply handshake_asserts.
  - destruct (receive_ok [chr 5; chr 0] rest b Hi) as (k1 & E1 & _).
    change (size [chr 5; chr 0]) with 2 in E1. rewrite (bind_ok _ _ _ _ _ E1).
    do 2 (erewrite bind_ok by (apply response_byte_ok; reflexivity)).
    change (uchar (chr 5) =? 5) with true. change (uchar (chr 0) =? 2) with false.
    change (uchar (chr 0) =? 0) with true. cbn [negb]. now apply handshake_asserts.
Qed.

(** C21: a SOCKS 5 proxy that answers as RFC 1928 and RFC 1929 say, with or
    without a password and with an IPv4 address or a name in its reply.  The state
    machine of the asynchronous code reports success, has sent exactly the messages
    of the protocol and has read exactly the replies, so that what follows on the
    connection is left for the HTTP exchange; the server reads back from the request
    the host and the port of the URL.  The synchronous code does the same when
    assertions are off ([NDEBUG]); when they are on it always stops at the wrong
    [BOOST_ASSERT(bytes_to_read == 0)] behind its request. *)
Theorem socks5_connect_correct {N : Network} {T : Transport N} {L : NetworkLaws N} {TL : TransportLaws T L}
    (s : proxy_settings) (u : url) (auth : bool) (r rest : cstring) (b : body) (k : sock) (fuel : nat) :
  (forall text k, fst (sock_write text k) = None) ->
  is_socks5 s = true -> c_str (hostname s) = hostname s -> (auth = true -> username s <> []) ->
  size (host_ u) <= 255 -> granted r -> (9 <= fuel)%nat ->
  resolve_connect tcp_connect (c_str (hostname s)) (proxy_port s) (m_sock b) = (None, k) ->
  incoming k = method_replies auth ++ r ++ rest ->
  (exists b', socks_proxy_connect false s u b = Ok (None, b')
     /\ tunnel (set_sock k b) b' rest (socks5_sends auth s u))
  /\ socks_proxy_connect true s u b = Err AssertFailed
  /\ (forall asserts, exists b' p, async_socks asserts s u false fuel b = Ok (Connected, SocksState _ _ b' p None)
     /\ tunnel (set_sock k b) b' rest (socks5_sends auth s u))
  /\ server_request (socks5_message u) = Some (host_ u, port u mod 65536, []).
Proof.
  intros W H5 Hn Hu Hh G Hf Hc Hi. split; [|split; [|split; [intros asserts|]]].
  - unfold socks_proxy_connect. rewrite (bind_ok _ _ b b b) by reflexivity. rewrite Hc, H5.
    rewrite (bind_ok _ _ b () (set_sock k b)) by reflexivity.
    destruct (send_ok W (version_message s) (set_sock k b)) as (k1 & E1 & S1 & I1). rewrite (bind_ok _ _ _ _ _ E1).
    cbn [m_sock set_sock] in S1, I1. rewrite Hi in I1.
    destruct (negotiate_ok W s u (set_sock k1 (set_sock k b)) auth r rest H5 G Hu I1) as (k2 & E2 & I2 & S2).
    eexists. split; [exact E2|]. exists k2. split; [reflexivity|]. split; [exact I2|].
    rewrite S2. cbn [m_sock set_sock]. rewrite S1. unfold socks5_sends. now rewrite <- !app_assoc.
  - unfold socks_proxy_connect. rewrite (bind_ok _ _ b b b) by reflexivity. rewrite Hc, H5.
    rewrite (bind_ok _ _ b () (set_sock k b)) by reflexivity.
    destruct (send_ok W (version_message s) (set_sock k b)) as (k1 & E1 & _ & I1). rewrite (bind_ok _ _ _ _ _ E1).
    cbn [m_sock set_sock] in I1. rewrite Hi in I1. now apply (negotiate_asserts s u _ auth (r ++ rest)).
  - replace fuel with (2 + (7 + (fuel - 9)))%nat by lia. rewrite (async_connect asserts s u false _ b k Hn Hc).
    unfold handle_connect_socks. rewrite H5.
    rewrite (bind_ok _ _ _ (WaitWrite (version_message s)) (SocksState _ _ (set_sock k b) socks_send_version None))
      by reflexivity.
    exact (async_negotiate_ok W asserts s u Hh (fuel - 9) (set_sock k b) None auth r rest H5 G Hu Hi).
  - rewrite <- (app_nil_r (socks5_message u)). now apply server_request_message.
Qed.

(** A proxy that wants a password and replies with a name. *)
Definition example_proxy : proxy_settings := Proxy ($"proxy") 1080 ($"me") ($"pw") socks5_pw.
Definition example_target : url := Url ($"http") [] ($"example.com") [] ($"/") [] [] false.
Definition example_grant : cstring := chr 5 :: chr 0 :: chr 0 :: chr 3 :: chr 4 :: $"host" ++ $"ab".
Definition example_hosts (text : cstring) : list (cstring * list script_address) :=
  [($"proxy", [(1, None); (2, Some (one_packet text))])].
Definition example_closed : body (H := script_network) :=
  Body script_network true false true false 0 (-1) 0 [] (ScriptSock false [] []).

Definition example_replies : cstring := method_replies true ++ example_grant ++ $"HTTP".

Lemma socks5_connect_correct_witness :
  (exists b', socks_proxy_connect (T := script_transport (example_hosts example_replies))
      false example_proxy example_target example_closed = Ok (None, b')
     /\ tunnel (TL := script_transport_laws (example_hosts example_replies))
          (set_sock (ScriptSock true [] (one_packet example_replies)) example_closed) b'
          ($"HTTP") (socks5_sends true example_proxy example_target))
  /\ socks_proxy_connect (T := script_transport (example_hosts example_replies)) true example_proxy example_target example_closed
     = Err AssertFailed
  /\ (forall asserts, exists b' p, async_socks (T := script_transport (example_hosts example_replies))
      asserts example_proxy example_target false 9 example_closed = Ok (Connected, SocksState _ _ b' p None)
     /\ tunnel (TL := script_transport_laws (example_hosts example_replies))
          (set_sock (ScriptSock true [] (one_packet example_replies)) example_closed) b'
          ($"HTTP") (socks5_sends true example_proxy example_target))
  /\ server_request (socks5_message example_target) = Some ($"example.com", 80, []).
Proof.
  apply (socks5_connect_correct (T := script_transport (example_hosts example_replies))
           (TL := script_transport_laws (example_hosts example_replies))
           example_proxy example_target true example_grant ($"HTTP") example_closed
           (ScriptSock true [] (one_packet example_replies)) 9).
  - reflexivity.
  - reflexivity.
  - reflexivity.
  - intros _. discriminate.
  - vm_compute. discriminate.
  - apply (granted_name (chr 0) ($"host") ($"ab")); cbn; lia.
  - lia.
  - vm_compute. reflexivity.
  - vm_compute. reflexivity.
Defined.

(** The state machine always ends.  Whatever the proxy and the network
    do, and however each operation ends, after at most twelve operations and
    one more for each address of the proxy nothing is pending: the request was
    started, the handler was called, or neither.  It never loops. *)
Theorem async_socks_terminates {N : Network} {T : Transport N} (asserts : bool) (s : proxy_settings) (u : url)
    (https : bool) (b : body) (fuel : nat) :
  (12 + addresses (hostname s) (itoa (proxy_port s)) <= fuel)%nat ->
  async_socks asserts s u https fuel b <> Err Hang.
Proof.
  intros Hf. unfold async_socks, async_socks_proxy_connect.
  rewrite (bind_ok _ _ _ (WaitResolve (hostname s) (itoa (proxy_port s))) (SocksState _ _ b socks_proxy_resolve None))
    by reflexivity.
  apply run_advances. exact Hf.
Qed.

Lemma async_socks_terminates_witness :
  async_socks (T := script_transport (example_hosts [])) true example_proxy example_target false 14 example_closed <> Err Hang.
Proof. apply async_socks_terminates. cbn. lia. Defined.

(** When the proxy accepts none of the methods the asynchronous operation
    is lost: the state machine ends without calling the handler of the user.
    The synchronous function takes the same two bytes for the answer to a
    password that it never sent, and reports an unsupported version of the
    authentication. *)
Theorem socks5_methods_refused {N : Network} {T : Transport N} {L : NetworkLaws N} {TL : TransportLaws T L}
    (s : proxy_settings) (u : url) (https : bool) (m : Z) (rest : cstring) (b : body) (k : sock) (fuel : nat) :
  (forall text k, fst (sock_write text k) = None) ->
  is_socks5 s = true -> c_str (hostname s) = hostname s -> 0 < m < 256 -> m <> 2 -> (4 <= fuel)%nat ->
  resolve_connect tcp_connect (c_str (hostname s)) (proxy_port s) (m_sock b) = (None, k) ->
  incoming k = chr 5 :: chr m :: rest ->
  (exists x, async_socks false s u https fuel b = Ok (Silent, x))
  /\ (exists b', socks_proxy_connect false s u b = Ok (Some socks_unsupported_authentication_version, b')).
Proof.
  intros W H5 Hn Hm Hm2 Hf Hc Hi.
  destruct (send_ok W (version_message s) (set_sock k b)) as (k1 & E1 & S1 & I1).
  cbn [m_sock set_sock] in I1. rewrite Hi in I1.
  assert (uchar (chr m) = m) as Um by (rewrite uchar_chr; apply Z.mod_small; lia). split.
  - replace fuel with (2 + (2 + (fuel - 4)))%nat by lia. rewrite (async_connect false s u https _ b k Hn Hc).
    unfold handle_connect_socks. rewrite H5.
    rewrite (bind_ok _ _ _ (WaitWrite (version_message s)) (SocksState _ _ (set_sock k b) socks_send_version None))
      by reflexivity. cbn [Nat.add run_socks waiting negb socks_step]. unfold mbind at 1, st_bind at 1.
    rewrite (bind_ok _ _ _ _ _ (on_body_ok _ (SocksState _ _ (set_sock k b) socks_send_version None) _ _ E1)).
    unfold set_socks_body at 1. cbn [m_proxy_status m_remote_endp]. rewrite version_sent by exact H5. cbn [run_socks waiting negb socks_step].
    destruct (receive_ok [chr 5; chr m] rest (set_response [] (set_sock k1 (set_sock k b))) I1) as (k2 & E2 & _).
    change (size [chr 5; chr m]) with 2 in E2. unfold mbind at 1, st_bind at 1.
    rewrite (bind_ok _ _ _ _ _ (on_body_ok _ (SocksState _ _ _ socks5_response_version None) _ _ E2)).
    cbn [handle_socks_process set_socks_body m_proxy_status m_remote_endp]. unfold on_body, response_byte. run.
    cbn [s_body set_socks_body m_proxy_status m_remote_endp]. rewrite !response_set.
    cbn [lookup list_lookup set_socks_body s_body]. rewrite response_set. cbn [lookup list_lookup]. rewrite Um.
    change (uchar (chr 5) =? 5) with true. cbn [negb]. replace (m =? 2) with false by lia.
    replace (m =? 0) with false by lia. destruct (fuel - 4)%nat; cbn [run_socks waiting negb]; eexists; reflexivity.
  - unfold socks_proxy_connect. rewrite (bind_ok _ _ b b b) by reflexivity. rewrite Hc, H5.
    rewrite (bind_ok _ _ b () (set_sock k b)) by reflexivity. rewrite (bind_ok _ _ _ _ _ E1). unfold negotiate.
    destruct (receive_ok [chr 5; chr m] rest (set_sock k1 (set_sock k b)) I1) as (k2 & E2 & _).
    change (size [chr 5; chr m]) with 2 in E2. rewrite (bind_ok _ _ _ _ _ E2).
    do 2 (erewrite bind_ok by (apply response_byte_ok; reflexivity)). rewrite Um.
    change (uchar (chr 5) =? 5) with true. cbn [negb]. replace (m =? 2) with false by lia.
    replace (m =? 0) with false by lia. unfold auth_status.
    do 2 (erewrite bind_ok by (apply response_byte_ok; reflexivity)). change (uchar (chr 5) =? 1) with false.
    eexists. reflexivity.
Qed.

Lemma socks5_methods_refused_witness :
  (exists x, async_socks (T := script_transport (example_hosts [chr 5; chr 255])) false example_proxy example_target false 4
     example_closed = Ok (Silent, x))
  /\ (exists b', socks_proxy_connect (T := script_transport (example_hosts [chr 5; chr 255])) false example_proxy
     example_target example_closed = Ok (Some socks_unsupported_authentication_version, b')).
Proof.
  apply (socks5_methods_refused (T := script_transport (example_hosts [chr 5; chr 255]))
           (TL := script_transport_laws (example_hosts [chr 5; chr 255]))
           example_proxy example_target false 255 [] example_closed (ScriptSock true [] (one_packet [chr 5; chr 255])) 4);
    try reflexivity; lia.
Defined.

(** SOCKS 4 works asynchronously only.  The first byte of the reply is 0
    in the protocol; the synchronous handshake compares it with 4 and refuses
    every proxy that grants the request as it should, the asynchronous one
    ignores it. *)
Theorem socks4_reply_version {N : Network} {T : Transport N} {L : NetworkLaws N} {TL : TransportLaws T L}
    (s : proxy_settings) (u : url) (b : body) (v ip : Z) (tail rest : cstring) (e : endpoint) (l : list endpoint)
    (fuel : nat) :
  (forall text k, fst (sock_write text k) = None) ->
  type s = socks4 -> resolve (c_str (host_ u)) (itoa (port u)) = Ok (e :: l) -> address_v4 e = Some ip ->
  0 <= v < 256 -> length tail = 6%nat -> (2 <= fuel)%nat ->
  incoming (m_sock b) = chr v :: chr 90 :: tail ++ rest ->
  (exists b', socks_proxy_handshake false s u b
     = Ok (if v =? 4 then None else Some (if v =? 5 then socks_unsupported_version else socks_general_failure), b'))
  /\ (exists b' p, run_socks false s u false fuel (WaitWrite (socks4_message s (port u) ip))
        (SocksState _ _ b socks_send_version (Some e)) = Ok (Connected, SocksState _ _ b' p (Some e))
      /\ tunnel b b' rest (socks4_message s (port u) ip)).
Proof.
  intros W H4 Hr Ha Hv Ht Hf Hi.
  destruct (send_ok W (socks4_message s (port u) ip) b) as (k1 & E1 & S1 & I1). rewrite Hi in I1.
  assert (size (chr v :: chr 90 :: tail) = 8) as Sz by (unfold size; cbn [length]; lia). split.
  - unfold socks_proxy_handshake, connect_request, is_socks5. rewrite H4, Hr.
    rewrite (bind_ok _ _ b (inr (socks4_message s (port u) ip)) b) by (run; cbn [first_v4]; now rewrite Ha).
    rewrite (bind_ok _ _ _ _ _ E1). cbn [andb boost_assert]. rewrite (bind_ok _ _ _ () (set_sock k1 b)) by reflexivity.
    destruct (receive_ok (chr v :: chr 90 :: tail) rest (set_sock k1 b) I1) as (k2 & E2 & _). rewrite Sz in E2.
    rewrite (bind_ok _ _ _ _ _ E2). do 2 (erewrite bind_ok by (apply response_byte_ok; reflexivity)).
    rewrite uchar_chr, (Z.mod_small v) by lia. change (uchar (chr 90) =? 90) with true.
    destruct (v =? 5) eqn:E5; [replace (v =? 4) with false by lia; eexists; reflexivity|].
    destruct (v =? 4); eexists; reflexivity.
  - replace fuel with (S (S (fuel - 2))) by lia.
    destruct (go_write W false s u (S (fuel - 2)) (socks4_message s (port u) ip) b socks_send_version (Some e))
      as (k2 & -> & S2 & I2). cbn [handle_socks_process m_proxy_status]. rewrite H4. run.
    cbn [continue]. rewrite Hi in I2. unfold clear_response, on_body. run.
    cbv beta iota delta [continue set_socks_body s_body set_proxy_status m_proxy_status m_remote_endp].
    destruct (go_read false s u (fuel - 2) 8 (chr v :: chr 90 :: tail) rest (set_response [] (set_sock k2 b)) socks4_response (Some e)
                I2 (eq_sym Sz)) as (k3 & -> & I3 & S3).
    cbn [handle_socks_process m_proxy_status]. unfold tunnel_ready, clear_response, on_body, response_byte. run.
    cbv beta iota delta [continue set_socks_body s_body set_proxy_status m_proxy_status m_remote_endp].
    do 2 (rewrite ?response_set; cbn [lookup list_lookup]).
    change (uchar (chr 90) =? 90) with true. cbv beta iota. rewrite go_done by reflexivity.
    do 2 eexists. split; [reflexivity|]. exists k3. split; [reflexivity|]. split; [exact I3|]. rewrite S3. exact S2.
Qed.

Definition example_proxy4 : proxy_settings := Proxy ($"proxy") 1080 ($"me") [] socks4.
Definition example_hosts4 : list (cstring * list script_address) := [($"example.com", [(16909060, None)])].
Definition example_open (text : cstring) : body (H := script_network) :=
  Body script_network true false true false 0 (-1) 0 [] (ScriptSock true [] (one_packet text)).

Lemma socks4_reply_version_witness :
  (exists b', socks_proxy_handshake (T := script_transport example_hosts4) false example_proxy4 example_target
     (example_open (chr 0 :: chr 90 :: $"portip")) = Ok (Some socks_general_failure, b'))
  /\ (exists b' p, run_socks (T := script_transport example_hosts4) false example_proxy4 example_target false 2
        (WaitWrite (socks4_message example_proxy4 80 16909060))
        (SocksState script_network (script_transport example_hosts4) (example_open (chr 0 :: chr 90 :: $"portip")) socks_send_version (Some (16909060, None)))
        = Ok (Connected, SocksState script_network (script_transport example_hosts4) b' p (Some (16909060, None)))
      /\ tunnel (TL := script_transport_laws example_hosts4) (example_open (chr 0 :: chr 90 :: $"portip")) b' []
           (socks4_message example_proxy4 80 16909060)).
Proof.
  apply (socks4_reply_version (T := script_transport example_hosts4) (TL := script_transport_laws example_hosts4)
    example_proxy4 example_target (example_open (chr 0 :: chr 90 :: $"portip")) 0 16909060 ($"portip") [] (16909060, None) [] 2);
    try reflexivity; lia.
Defined.

(** The synchronous handshake does not look at the error of the read that
    gets the reply: a proxy that closes the connection after four bytes of a
    granting reply is taken for a tunnel. *)
Theorem socks_truncated_reply {N : Network} {T : Transport N} {L : NetworkLaws N} {TL : TransportLaws T L}
    (s : proxy_settings) (u : url) (rsv : ascii) (b : body) :
  (forall text k, fst (sock_write text k) = None) -> is_socks5 s = true ->
  incoming (m_sock b) = [chr 5; chr 0; rsv; chr 1] ->
  exists b', socks_proxy_handshake false s u b = Ok (None, b').
Proof.
  intros W H5 Hi. unfold socks_proxy_handshake, connect_request. rewrite H5.
  rewrite (bind_ok _ _ b (inr (socks5_message u)) b) by reflexivity.
  destruct (send_ok W (socks5_message u) b) as (k1 & E1 & S1 & I1). rewrite (bind_ok _ _ _ _ _ E1).
  cbn [andb]. rewrite (bind_ok _ _ (set_sock k1 b) () (set_sock k1 b)) by reflexivity. rewrite Hi in I1.
  destruct (read_exactly_eof 10 k1) as (k2 & E2); [rewrite I1; cbn; lia|].
  assert (receive 10 (set_sock k1 b) = Ok (Some eof, set_sock k2 (set_response (incoming k1) (set_sock k1 b)))) as E3
    by (unfold receive; run; cbn [m_sock set_sock]; now rewrite E2).
  rewrite (bind_ok _ _ _ _ _ E3), I1. do 2 (erewrite bind_ok by (apply response_byte_ok; reflexivity)).
  change (uchar (chr 5) =? 5) with true. change (uchar (chr 0) =? 0) with true. cbn [negb]. unfold socks5_reply_tail.
  erewrite bind_ok by (apply response_byte_ok; reflexivity). change (uchar (chr 1) =? 1) with true. eexists. reflexivity.
Qed.

Lemma socks_truncated_reply_witness :
  exists b', socks_proxy_handshake (T := script_transport []) false example_proxy example_target
    (example_open [chr 5; chr 0; chr 0; chr 1]) = Ok (None, b').
Proof. apply (socks_truncated_reply (TL := script_transport_laws [])  _ _ (chr 0)); reflexivity. Defined.
