(* ===== verification/HttpOpen.v ===== *)
(** Opening a connection: [open] of avhttp/impl/http_stream.ipp with its
    redirections, [https_proxy_connect] and [close].

    [connection] adds to [http_stream] the members that only these functions
    use.  [m_sock] is a variant: empty, a TCP socket, or a TLS stream over
    [m_nossl_socket].  Here [m_sock] of the stream is the active one, and
    [m_nossl_socket] holds the state of that member while it is not below
    [m_sock].  [open] calls itself for a redirection; its depth is fuel, and
    [open_depth] shows how much is enough. *)

From S2P Require Import Prelude CLib EscapeString Url Settings Cookie HttpParsers HttpBody HttpStream Transport Socks.

Definition moved_permanently : Z := 301.
Definition found : Z := 302.

Inductive variant : Type := blank | nossl | ssl.

Record connection {P : Platform} {N : Network} {T : Transport N} : Type := Connection {
  m_stream : http_stream;
  m_variant : variant;
  m_nossl_socket : sock;
  m_check_certificate : bool;
  m_ca_directory : cstring;
  m_ca_cert : cstring;
  m_entry_url : url;
  m_redirects : Z;
  m_max_redirects : Z
}.

Section Open.
Context {P : Platform} {N : Network} {T : Transport N}.
Variable base64_text : cstring -> cstring.

Abbreviation H := (st http_stream fault).
Abbreviation C := (st connection fault).

Definition set_stream (s : http_stream) (c : connection) : connection :=
  Connection _ _ _ s (m_variant c) (m_nossl_socket c) (m_check_certificate c) (m_ca_directory c) (m_ca_cert c)
    (m_entry_url c) (m_redirects c) (m_max_redirects c).
Definition set_variant (v : variant) (k : sock) (c : connection) : connection :=
  Connection _ _ _ (m_stream c) v k (m_check_certificate c) (m_ca_directory c) (m_ca_cert c)
    (m_entry_url c) (m_redirects c) (m_max_redirects c).
Definition set_entry_url (u : url) (c : connection) : connection :=
  Connection _ _ _ (m_stream c) (m_variant c) (m_nossl_socket c) (m_check_certificate c) (m_ca_directory c) (m_ca_cert c)
    u (m_redirects c) (m_max_redirects c).
Definition set_redirects (n : Z) (c : connection) : connection :=
  Connection _ _ _ (m_stream c) (m_variant c) (m_nossl_socket c) (m_check_certificate c) (m_ca_directory c) (m_ca_cert c)
    (m_entry_url c) n (m_max_redirects c).

Definition stream_sock (c : connection) : sock := m_sock (m_body (m_stream c)).
Definition set_stream_sock (k : sock) (s : http_stream) : http_stream := set_body (set_sock k (m_body s)) s.

(** Functions on the stream, and functions on its buffer and socket. *)
Definition on_stream {R} (m : H R) : C R := fun c =>
  match m (m_stream c) with Ok (r, s) => Ok (r, set_stream s c) | Err f => Err f end.
Definition on_stream_body {R} (m : st body fault R) : H R := fun s =>
  match m (m_body s) with Ok (r, b) => Ok (r, set_body b s) | Err f => Err f end.

(** A function that changes the socket and returns an error. *)
Definition on_sock (f : sock -> error_code * sock) : H error_code :=
  s ← st_get;
  let '(ec, k) := f (m_sock (m_body s)) in
  st_modify (set_stream_sock k) ;; mret ec.

(** Stop at the first error. *)
Definition and_then (m k : H error_code) : H error_code :=
  ec ← m; match ec with Some _ => mret ec | None => k end.

(** ** CONNECT, for https over an HTTP proxy *)

(** [if (opts.find(key, v)) opts.remove(key);]. *)
Definition take_option (key default : cstring) (o : opts) : cstring * opts :=
  match Settings.find key o with
  | Some v => (v, Settings.remove key o)
  | None => (default, o)
  end.

(** The request; [auth] is the line of the asynchronous version. *)
Definition connect_text (auth : cstring) (s : http_stream) : cstring :=
  let o := m_request_opts s in
  let '(user_agent, o) := take_option http_options.user_agent AVHTTP_VERSION_MIME o in
  let '(accept, o) := take_option http_options.accept ($"text/html, application/xhtml+xml, */*") o in
  let '(host, o) := take_option http_options.host (to_string (Z.lor host_component port_component) (m_url s)) o in
  $"CONNECT" ++ $" " ++ host_ (m_url s) ++ $":" ++ itoa (port (m_url s)) ++ $" " ++ $"HTTP/1.1" ++ crlf
  ++ crlf_line ($"Host") host ++ (if nonempty auth then auth ++ crlf else [])
  ++ crlf_line ($"Accept") accept ++ $"User-Agent: " ++ user_agent ++ crlf ++ crlf.

(** The status line, parsed in the buffer itself; [inl] for a [return]. *)
Fixpoint proxy_status_loop (fuel : nat) : H (error_code + error_code) :=
  match fuel with
  | O => st_fail Hang
  | S f =>
      '(_, ec) ← read_line;
      match ec with
      | Some _ => mret (inl ec)
      | None =>
          s ← st_get;
          let text := m_response (m_body s) in
          let '(good, d) := parse_http_status_line text 0 0 0 in
          let status := StatusLine.status d in
          st_modify (fun s => set_body (set_response (unread StatusLine.http_version_h (StatusLine.Data 0 0 0 []) text)
                                          (m_body s)) s) ;;
          st_modify (set_status status) ;;
          if negb good then mret (inl (Some malformed_status_line))
          else
            let ec := if negb (status =? ok) then make_error_code status else None in
            if negb (status =? continue_request) then mret (inr ec) else proxy_status_loop f
      end
  end.

(** [m_response_opts.clear(); insert("_status_code", ...)]. *)
Definition record_status : H () :=
  s ← st_get;
  st_modify (set_response_opts
    (Settings.insert ($"_status_code") (itoa (m_status_code s)) (Settings.clear (m_response_opts s)))).

(** [sgetn]: [n] characters of the buffer. *)
Definition take_line (n : nat) : H cstring :=
  s ← st_get; consume n ;; mret (take n (m_response (m_body s))).

Definition take_headers (n : nat) : H bool := text ← take_line n; parse_block text.

(** [read_until(sock, m_response, CRLF CRLF, ec)]. *)
Definition read_block : H (nat * error_code) :=
  s ← st_get;
  let '(n, ec, buf, k) := read_until_blank (m_response (m_body s)) (m_sock (m_body s)) in
  st_modify (set_body (set_sock k (set_response buf (m_body s)))) ;;
  mret (n, ec).

(** After the request was sent. *)
Definition connect_response (fuel : nat) : H error_code :=
  r ← proxy_status_loop fuel;
  match r with
  | inl ec => mret ec
  | inr ec =>
      record_status ;;
      '(n, read_err) ← read_block;
      match read_err with
      | Some eof => mret (Some malformed_response_headers)
      | Some e => mret (Some e)
      | None =>
          good ← take_headers n;
          if negb good then mret (Some malformed_response_headers)
          else st_modify (fun s => set_body (set_response [] (m_body s)) s) ;; mret ec
      end
  end.

Definition https_proxy_connect (fuel : nat) : H error_code :=
  s ← st_get;
  and_then (on_sock (resolve_connect tcp_connect (hostname (m_proxy s)) (proxy_port (m_proxy s))))
   (and_then (on_sock (sock_write (connect_text [] s)))
     (connect_response fuel)).

(** ** Opening *)

(** What [open] stores and clears first. *)
Definition begin_open (u : url) (c : connection) : connection :=
  let s := m_stream c in
  let c := if str_eqb (to_string all_components (m_url s)) [] then set_entry_url u c else c in
  let b := m_body s in
  set_stream
    (HttpStream _ _ (m_request_opts s) (m_request_opts_priv s) (m_response_opts s) (m_proxy s) (protocol_ u)
       u 0 [] (m_location s) (m_jar s)
       (Body _ (m_keep_alive b) false true (m_is_chunked_end b) (m_chunked_size b) (-1) 0 [] (m_sock b))) c.

(** [m_sock.instantiate<...>(...)]: a new TCP socket, or a TLS stream over
    [m_nossl_socket]. *)
Definition lower_socket (c : connection) : sock :=
  match m_variant c with ssl => next_layer (stream_sock c) | _ => m_nossl_socket c end.

Definition instantiate (https : bool) (c : connection) : connection :=
  let lower := lower_socket c in
  if https then set_stream (set_stream_sock lower (m_stream c)) (set_variant ssl lower c)
  else set_stream (set_stream_sock new_socket (m_stream c)) (set_variant nossl lower c).

(** The certificates of a TLS stream. *)
Definition certificates (c : connection) : error_code :=
  match (if nonempty (m_ca_directory c) then add_verify_path (m_ca_directory c) else None) with
  | Some e => Some e
  | None =>
      match (if nonempty (m_ca_cert c) then load_verify_file (m_ca_cert c) else None) with
      | Some e => Some e
      | None => if m_check_certificate c then set_verify_callback (host_ (m_url (m_stream c))) else None
      end
  end.

(** The connection to the server or to the proxy. *)
Definition establish (fuel : nat) : H error_code :=
  s ← st_get;
  let https := str_eqb (m_protocol s) ($"https") in
  match type (m_proxy s) with
  | none =>
      on_sock (resolve_connect (if https then ssl_connect else tcp_connect) (host_ (m_url s)) (port (m_url s)))
  | socks4 | socks5 | socks5_pw =>
      and_then (on_stream_body (socks_proxy_connect Cookie.asserts (m_proxy s) (m_url s)))
        (if https then on_sock ssl_handshake else mret None)
  | http | http_pw =>
      if https then and_then (https_proxy_connect fuel) (on_sock ssl_handshake)
      else on_sock (resolve_connect tcp_connect (hostname (m_proxy s)) (proxy_port (m_proxy s)))
  end.

Definition connect_stage (fuel : nat) : C error_code :=
  c ← st_get;
  if sock_is_open (stream_sock c) then mret (Some already_open)
  else on_stream (and_then (establish fuel) (on_sock set_no_delay)).

(** [open(u, ec)] up to the response: [inl] for a [return], [inr] for
    [http_code]. *)
Definition exchange (fuel : nat) (u : url) : C (error_code + error_code) :=
  st_modify (begin_open u) ;;
  let https := str_eqb (protocol_ u) ($"https") in
  if negb (str_eqb (protocol_ u) ($"http")) && negb https then mret (inl (Some operation_not_supported))
  else
    st_modify (instantiate https) ;;
    c ← st_get;
    match (if https then certificates c else None) with
    | Some e => mret (inl (Some e))
    | None =>
        ec ← connect_stage fuel;
        match ec with
        | Some _ => mret (inl ec)
        | None =>
            c ← st_get;
            http_code ← on_stream (request base64_text fuel (m_request_opts_priv (m_stream c)));
            mret (inr http_code)
        end
    end.

Definition is_redirect (http_code : error_code) : bool :=
  match http_code with
  | Some (http_status n) => (n =? moved_permanently) || (n =? found)
  | _ => false
  end.

(** [open(u, ec)]. *)
Fixpoint open (depth fuel : nat) (u : url) : C error_code :=
  match depth with
  | O => st_fail Hang
  | S depth' =>
      r ← exchange fuel u;
      match r with
      | inl ec => mret ec
      | inr http_code =>
          let finish := st_modify (set_redirects 0) ;; mret http_code in
          if is_redirect http_code then
            _ ← on_stream (on_sock sock_close);
            st_modify (fun c => set_redirects (wrapu 64 (m_redirects c + 1)) c) ;;
            c ← st_get;
            if m_redirects c <=? m_max_redirects c then
              match Url.from_string (m_location (m_stream c)) with
              | Ok u' => open depth' fuel u'
              | Err _ => st_fail Thrown
              end
            else finish
          else finish
      end
  end.

(** [close(ec)]: the socket, the buffers and some members. *)
Definition close : C error_code :=
  c ← st_get;
  if sock_is_open (stream_sock c) then
    ec ← on_stream (on_sock sock_close);
    st_modify (fun c =>
      let s := m_stream c in
      set_stream (HttpStream _ _ (m_request_opts s) (m_request_opts_priv s) (m_response_opts s) (m_proxy s) []
        (m_url s) (m_status_code s) [] [] (m_jar s) (set_response [] (m_body s))) c) ;;
    mret ec
  else mret None.
End Open.

(** ** Lemmas *)

Section Facts.
Context {P : Platform} {N : Network} {T : Transport N}.
Variable base64_text : cstring -> cstring.

(** The counters of redirections, which only [open] itself changes. *)
Definition counters (c : connection) : Z * Z := (m_redirects c, m_max_redirects c).

Lemma on_stream_counters {R} (m : st http_stream fault R) c r c' :
  on_stream m c = Ok (r, c') -> counters c' = counters c.
Proof. unfold on_stream. destruct (m (m_stream c)) as [[r0 s]|f]; [|discriminate]. now intros [= <- <-]. Qed.

Lemma on_stream_ok {R} (m : st http_stream fault R) c r s :
  m (m_stream c) = Ok (r, s) -> on_stream m c = Ok (r, set_stream s c).
Proof. intros E. unfold on_stream. now rewrite E. Qed.

Lemma close_run c : exists ec k,
  on_stream (on_sock sock_close) c = Ok (ec, set_stream (set_stream_sock k (m_stream c)) c).
Proof.
  destruct (sock_close (m_sock (m_body (m_stream c)))) as [ec k] eqn:E. exists ec, k. apply on_stream_ok.
  unfold on_sock. run. now rewrite E.
Qed.

Lemma connect_stage_counters fuel c r c' : connect_stage fuel c = Ok (r, c') -> counters c' = counters c.
Proof.
  unfold connect_stage. rewrite (bind_ok _ _ c c c) by reflexivity. destruct (sock_is_open _); [now intros [= <- <-]|].
  apply on_stream_counters.
Qed.

Lemma instantiate_counters https c : counters (instantiate https c) = counters c.
Proof. now destruct https. Qed.

Lemma begin_open_counters u c : counters (begin_open u c) = counters c.
Proof. unfold begin_open. cbv zeta. now destruct (str_eqb _ _). Qed.

Lemma exchange_counters fuel u c r c' : exchange base64_text fuel u c = Ok (r, c') -> counters c' = counters c.
Proof.
  unfold exchange. rewrite (bind_ok _ _ c () (begin_open u c)) by reflexivity.
  destruct (negb _ && negb _); [intros [= _ <-]; apply begin_open_counters|].
  set (c0 := instantiate (str_eqb (protocol_ u) ($"https")) (begin_open u c)).
  assert (counters c0 = counters c) as K0 by (unfold c0; now rewrite instantiate_counters, begin_open_counters).
  rewrite (bind_ok _ _ (begin_open u c) () c0), (bind_ok _ _ c0 c0 c0) by reflexivity.
  destruct (if str_eqb _ _ then _ else _); [intros [= _ <-]; exact K0|]. unfold mbind, st_bind.
  destruct (connect_stage fuel c0) as [[[e|] c1]|f] eqn:E1; [| |discriminate]; apply connect_stage_counters in E1.
  - intros [= _ <-]. congruence.
  - cbn [st_get]. destruct (on_stream _ c1) as [[code c2]|f] eqn:E2; [|discriminate]. apply on_stream_counters in E2.
    intros [= _ <-]. congruence.
Qed.

(** The call of [open] for a redirection, the only place where depth is used. *)
Lemma open_next d d' fuel u c :
  (forall u' c', m_redirects c' = wrapu 64 (m_redirects c + 1) -> m_max_redirects c' = m_max_redirects c ->
     m_redirects c' <= m_max_redirects c' -> open base64_text d fuel u' c' = open base64_text d' fuel u' c') ->
  open base64_text (S d) fuel u c = open base64_text (S d') fuel u c.
Proof.
  intros Hn. cbn [open]. apply bind_ext. intros [ec|code] c2 E2; [reflexivity|]. apply exchange_counters in E2.
  destruct (is_redirect code); [|reflexivity].
  apply bind_ext. intros ec c3 E3. apply on_stream_counters in E3. apply bind_ext. intros [] c4 [= <-].
  apply bind_ext. intros c4 ? [= <- <-]. set (c4 := set_redirects _ c3).
  assert (counters c3 = counters c) as K3 by congruence. unfold counters in K3. injection K3 as K3 K3'.
  destruct (m_redirects c4 <=? m_max_redirects c4) eqn:L; [|reflexivity].
  destruct (Url.from_string _); [|reflexivity]. apply Hn; [unfold c4; cbn; now rewrite K3|exact K3'|now apply Z.leb_le].
Qed.

Lemma open_depth_enough fuel d : forall d' u c,
  0 <= m_redirects c <= m_max_redirects c -> m_max_redirects c < 2 ^ 64 - 1 ->
  (Z.to_nat (m_max_redirects c - m_redirects c) < d)%nat -> (d <= d')%nat ->
  open base64_text d fuel u c = open base64_text d' fuel u c.
Proof.
  induction d as [|d IH]; intros d' u c Hr Hm Hd Hle; [lia|]. destruct d' as [|d']; [lia|].
  apply open_next. intros u' c' R1 R2 R3. rewrite wrapu_id in R1 by lia. apply IH; lia.
Qed.
End Facts.

(** ** The answer to CONNECT *)

Section Proxy.
Context {P : Platform} {N : Network} {T : Transport N} {L : NetworkLaws N} {TL : TransportLaws T L}.

(** The status line of the proxy. *)
Lemma proxy_status_ok fuel s a b c r hs rest :
  wf_response a b c r hs -> (0 < fuel)%nat -> stream_input s = response_text a b c r hs rest ->
  exists t k, proxy_status_loop fuel s
      = Ok (inr (if int32 (dec_value c) =? ok then None else make_error_code (int32 (dec_value c))),
            set_status (int32 (dec_value c)) (after_read t k s))
    /\ t ++ incoming k = header_lines hs ++ crlf ++ rest.
Proof.
  intros [(Ha & Hb & Hc) (Da & Db & Dc) Hr Hh Hs] Hf Hi. destruct fuel as [|fuel]; [lia|].
  destruct (status_line_read s a b c r _ Ha Hb Hc Da Db Dc Hr Hi) as (line & t & k & d & n & R & Ht & EP & Ed & EU).
  cbn [proxy_status_loop]. run. rewrite R. cbn [m_body after_read set_body m_response set_input set_sock set_response].
  rewrite EP, EU, Ed. cbn [negb]. replace (_ =? continue_request) with false by lia. cbn [negb].
  exists t, k. split; [|exact Ht]. destruct (_ =? ok); reflexivity.
Qed.

Lemma blank_end_line line rest : Forall (fun c => is_ctl c = false) line ->
  blank_end (line ++ crlf ++ rest)
  = if is_prefix crlf rest then Some (length line + 4)%nat else Nat.add (length line + 2) <$> blank_end rest.
Proof.
  induction 1 as [|c line Hc Hl IH].
  - change (blank_end ([] ++ crlf ++ rest)) with (if is_prefix crlf rest then Some 4%nat else S <$> (S <$> blank_end rest)).
    destruct (is_prefix crlf rest); [reflexivity|]. now destruct (blank_end rest).
  - apply HeadersFacts.not_ctl_facts in Hc as [Hc _]. cbn [app blank_end].
    assert (is_prefix (crlf ++ crlf) (c :: line ++ crlf ++ rest) = false) as ->.
    { cbn [crlf app is_prefix]. rewrite Ascii.eqb_sym, Hc. reflexivity. }
    rewrite IH. destruct (is_prefix crlf rest); [reflexivity|]. now destruct (blank_end rest).
Qed.

(** The first empty line is the one after the headers, when there are any. *)
Lemma blank_end_block hs rest : Forall HeadersFacts.wf_header hs -> hs <> [] ->
  blank_end (header_lines hs ++ crlf ++ rest) = Some (length (header_lines hs) + 2)%nat.
Proof.
  induction 1 as [|[n v] hs (Hne & Hn & Hs & Hv & _) Hh IH]; [congruence|intros _]. cbn [fst snd] in *.
  apply str_eqb_neq in Hs. cbn [header_lines]. rewrite Hs. cbn [negb]. set (line := n ++ $": " ++ v).
  assert (Forall (fun c => is_ctl c = false) line) as Hl.
  { subst line. rewrite !Forall_app. repeat split; [|repeat constructor|exact Hv].
    eapply Forall_impl; [exact Hn|]. apply name_char_ctl. }
  replace (((n ++ $": " ++ v ++ crlf) ++ header_lines hs) ++ crlf ++ rest)
    with (line ++ crlf ++ header_lines hs ++ crlf ++ rest) by (subst line; now rewrite <- !app_assoc).
  replace (length ((n ++ $": " ++ v ++ crlf) ++ header_lines hs)) with (length line + 2 + length (header_lines hs))%nat
    by (subst line; rewrite !length_app; cbn [crlf length]; lia).
  rewrite blank_end_line by exact Hl. destruct hs as [|[n' v'] hs'].
  - cbn [header_lines app length]. change (is_prefix crlf (crlf ++ rest)) with true. f_equal. lia.
  - rewrite IH by discriminate. inversion_clear Hh as [|? ? (Hne' & Hn' & Hs' & _) _]. cbn [fst snd] in *.
    assert (is_prefix crlf (header_lines ((n', v') :: hs') ++ crlf ++ rest) = false) as ->.
    { apply str_eqb_neq in Hs'. cbn [header_lines]. rewrite Hs'. destruct n' as [|c n']; [congruence|].
      inversion_clear Hn' as [|? ? Hc _]. apply name_char_ctl, HeadersFacts.not_ctl_facts in Hc as [Hc _].
      cbn [negb app crlf is_prefix]. now rewrite Ascii.eqb_sym, Hc. }
    cbn [fmap option_fmap option_map]. f_equal. lia.
Qed.

(** The answer of the proxy, with and without headers. *)
Lemma connect_response_ok fuel s a b c r hs rest :
  wf_response a b c r hs -> (0 < fuel)%nat -> stream_input s = response_text a b c r hs rest ->
  match hs with
  | [] => rest = [] -> exists s', connect_response fuel s = Ok (Some malformed_response_headers, s')
  | _ => exists s', connect_response fuel s
           = Ok (if int32 (dec_value c) =? ok then None else make_error_code (int32 (dec_value c)), s')
         /\ m_response (m_body s') = []
  end.
Proof.
  intros Wf Hf Hi. destruct (proxy_status_ok fuel s a b c r hs rest Wf Hf Hi) as (t & k & E & Ht).
  unfold connect_response. rewrite (bind_ok _ _ _ _ _ E). clear E.
  set (s1 := set_status _ _). unfold record_status, read_block. run.
  match goal with |- context [set_response_opts ?o s1] => set (s2 := set_response_opts o s1) end.
  destruct hs as [|h hs].
  - intros ->. cbn [header_lines app] in Ht. rewrite app_nil_r in Ht.
    destruct (read_blank_eof t k) as (n & buf & k' & E2); [now rewrite Ht|].
    change (m_response (m_body s2)) with t. change (m_sock (m_body s2)) with k.
    rewrite E2. eexists. reflexivity.
  - pose proof (blank_end_block (h :: hs) rest (wf_headers _ _ _ _ _ Wf) ltac:(discriminate)) as Eb. rewrite <- Ht in Eb.
    destruct (read_blank_found _ t k Eb) as (buf & k' & E2 & Hb & Hn). rewrite Ht in Hb.
    change (m_response (m_body s2)) with t. change (m_sock (m_body s2)) with k.
    rewrite E2. unfold take_headers, take_line, parse_block, consume. run. cbn [m_body m_response set_body set_response set_sock].
    assert (take (length (header_lines (h :: hs)) + 2) buf = header_lines (h :: hs) ++ crlf ++ []) as ->.
    { rewrite <- (take_app_le buf (incoming k')), Hb by exact Hn. clear. generalize (header_lines (h :: hs)). intros hl.
      rewrite app_assoc, app_nil_r, take_app_le, take_ge; [reflexivity|rewrite length_app; cbn [crlf length]; lia..]. }
    rewrite HeadersFacts.lines_parse by exact (wf_headers _ _ _ _ _ Wf). cbn [negb]. eexists. split; reflexivity.
Qed.
End Proxy.

(** ** Following redirections *)

Section Redirects.
Context {P : Platform} {N : Network} {T : Transport N} {L : NetworkLaws N} {TL : TransportLaws T L}.
Variable base64_text : cstring -> cstring.
Variable fuel : nat.

(** The server of [u] can be reached, and answers whatever request with this
    response; the cookies in it can be parsed. *)
Record answers (u : url) (a b c r : cstring) (hs : option_item_list) (rest : cstring) : Prop := {
  an_http : protocol_ u = $"http";
  an_reached : exists k k', resolve_connect tcp_connect (host_ u) (port u) new_socket = (None, k)
    /\ set_no_delay k = (None, k') /\ sock_is_open k' = true
    /\ forall text, exists k'', sock_write text k' = (None, k'') /\ incoming k'' = response_text a b c r hs rest;
  an_wf : wf_response a b c r hs;
  an_fuel : (length hs < fuel)%nat;
  an_cookies : forall j, exists j', add_cookies (response_items (int32 (dec_value c)) hs) j = Ok j'
}.

(** What a client has set: no proxy, no option that changes the exchange. *)
Definition plain (s : http_stream) : Prop :=
  type (m_proxy s) = none /\ Settings.find http_options.url (m_request_opts_priv s) = None
  /\ m_fake_continue (m_request_opts_priv s) = false.

(** The Location that a header block sets. *)
Definition sets_location (hs : option_item_list) (l : cstring) : Prop :=
  forall h, location (fold_left (fun h '(k, v) => check_header k v h) hs h) = l.

(** [leads n u v]: [n] redirections lead from [u] to [v]. *)
Inductive leads : nat -> url -> url -> Prop :=
| leads_here u : leads 0 u u
| leads_on n u u' v a b c r hs rest l :
    answers u a b c r hs rest ->
    int32 (dec_value c) = moved_permanently \/ int32 (dec_value c) = found ->
    sets_location hs l -> Url.from_string (fix_location u l) = Ok u' ->
    leads n u' v -> leads (S n) u v.

(** What the exchange with a server leaves. *)
Record exchanged (u : url) (status : Z) (hs : option_item_list) (rest : cstring) (c c' : connection) : Prop := {
  ex_url : m_url (m_stream c') = u;
  ex_plain : plain (m_stream c');
  ex_status : m_status_code (m_stream c') = status;
  ex_options : m_opts (m_response_opts (m_stream c')) = response_items status hs;
  ex_input : stream_input (m_stream c') = rest;
  ex_location : forall l, sets_location hs l -> m_location (m_stream c') = fix_location u l;
  ex_entry : m_entry_url c'
    = if str_eqb (to_string all_components (m_url (m_stream c))) [] then u else m_entry_url c
}.

(** The stream of [x] when the request for [u] is sent on the connection [k]. *)
Definition ready (u : url) (k : sock) (x : connection) : connection :=
  let x0 := instantiate false (begin_open u x) in set_stream (set_stream_sock k (m_stream x0)) x0.

(** Without a proxy, [open] connects to the host of the URL and sends the
    request. *)
Lemma exchange_request u k k' x :
  protocol_ u = $"http" -> type (m_proxy (m_stream x)) = none ->
  resolve_connect tcp_connect (host_ u) (port u) new_socket = (None, k) -> set_no_delay k = (None, k') ->
  exchange base64_text fuel u x
  = (http_code ← on_stream (request base64_text fuel (m_request_opts_priv (m_stream x))); mret (inr http_code)) (ready u k' x).
Proof.
  intros Hh Pn Hc Hd. unfold exchange. rewrite Hh.
  rewrite (bind_ok _ _ x () (begin_open u x)) by reflexivity.
  change (negb (str_eqb ($"http") ($"http")) && _) with false. change (str_eqb ($"http") ($"https")) with false. cbv iota.
  set (x0 := instantiate false (begin_open u x)). rewrite (bind_ok _ _ (begin_open u x) () x0) by reflexivity.
  rewrite (bind_ok _ _ x0 x0 x0) by reflexivity. unfold connect_stage at 1.
  rewrite (bind_ok _ _ x0 None (ready u k' x)).
  2:{ rewrite (bind_ok _ _ x0 x0 x0) by reflexivity. change (stream_sock x0) with new_socket. rewrite new_socket_closed.
      apply on_stream_ok. unfold and_then, establish. rewrite (bind_ok _ _ (m_stream x0) None (set_stream_sock k (m_stream x0))).
      - unfold on_sock. run. change (m_sock (m_body (set_stream_sock k (m_stream x0)))) with k. now rewrite Hd.
      - run. replace (type (m_proxy (m_stream x0))) with none by (symmetry; exact Pn).
        change (m_protocol (m_stream x0)) with (protocol_ u). rewrite Hh.
        change (str_eqb ($"http") ($"https")) with false. unfold on_sock. run.
        change (m_sock (m_body (m_stream x0))) with new_socket. change (m_url (m_stream x0)) with u. now rewrite Hc. }
  rewrite (bind_ok _ _ (ready u k' x) (ready u k' x) (ready u k' x)) by reflexivity. reflexivity.
Qed.

Lemma exchange_ok u a b c r hs rest x :
  answers u a b c r hs rest -> plain (m_stream x) ->
  exists x', exchange base64_text fuel u x = Ok (inr (status_code_error (int32 (dec_value c))), x')
    /\ exchanged u (int32 (dec_value c)) hs rest x x'.
Proof.
  intros [Hh (k & k' & Hc & Hd & Ho & Hw) Wf Hf Hj] (Pn & Pu & Pf). rewrite (exchange_request u k k' x Hh Pn Hc Hd).
  set (o := m_request_opts_priv (m_stream x)). set (s1 := m_stream (ready u k' x)).
  destruct (Hw (request_text o s1)) as (k2 & W2 & I2).
  assert (sends_request o s1 k2) as Sr.
  { constructor; [exact Ho| |exact Pu|exact Pf|exact W2]. unfold via_http_proxy.
    change (m_proxy s1) with (m_proxy (m_stream x)). now rewrite Pn. }
  destruct (Hj (m_jar s1)) as [j Ej].
  destruct (exchange_run base64_text fuel o s1 k2 a b c r hs rest j Sr Wf Hf I2 Ej) as (ro & s' & E & R & _).
  rewrite (bind_ok _ _ (ready u k' x) _ _ (on_stream_ok _ (ready u k' x) _ s' E)).
  eexists. split; [reflexivity|]. destruct R as [R1 R2 (_ & _ & R3) _ _ _ R4 _ (R5 & R6 & R7 & R8)].
  constructor; cbn [m_stream set_stream m_entry_url]; auto.
  - unfold plain. rewrite R6, R8. repeat split; [exact Pn|exact Pu|exact Pf].
  - intros l Hl. rewrite R3, Hl. reflexivity.
  - unfold ready, begin_open, instantiate. cbv zeta. now destruct (str_eqb _ _).
Qed.

Lemma redirect_code status : status = moved_permanently \/ status = found ->
  status_code_error status = Some (http_status status) /\ is_redirect (Some (http_status status)) = true.
Proof. intros [-> | ->]; split; reflexivity. Qed.

(** One redirection. *)
Lemma open_hop d u u' a b c r hs rest l x :
  answers u a b c r hs rest -> int32 (dec_value c) = moved_permanently \/ int32 (dec_value c) = found ->
  sets_location hs l -> Url.from_string (fix_location u l) = Ok u' ->
  plain (m_stream x) -> 0 <= m_redirects x < m_max_redirects x -> m_max_redirects x < 2 ^ 64 - 1 ->
  exists x', open base64_text (S d) fuel u x = open base64_text d fuel u' x'
    /\ plain (m_stream x') /\ m_url (m_stream x') = u /\ counters x' = (m_redirects x + 1, m_max_redirects x)
    /\ m_entry_url x' = if str_eqb (to_string all_components (m_url (m_stream x))) [] then u else m_entry_url x.
Proof.
  intros An Hs Hl Hu Hp Hr Hm. destruct (exchange_ok u a b c r hs rest x An Hp) as (x1 & E1 & X1).
  pose proof (exchange_counters base64_text fuel u x _ _ E1) as K1. unfold counters in K1. injection K1 as K1 K1'.
  destruct (redirect_code _ Hs) as [Hc Hred]. rewrite Hc in E1. cbn [open]. rewrite (bind_ok _ _ _ _ _ E1), Hred.
  destruct (close_run x1) as (ec & k & E2). rewrite (bind_ok _ _ _ _ _ E2). clear E2. run.
  set (x2 := set_redirects _ _).
  assert (m_redirects x2 = m_redirects x + 1) as R2 by (unfold x2; cbn; rewrite K1; apply wrapu_id; lia).
  assert (m_max_redirects x2 = m_max_redirects x) as R2' by exact K1'.
  rewrite R2, R2'. replace (_ <=? _) with true by lia.
  change (m_location (m_stream x2)) with (m_location (m_stream x1)). rewrite (ex_location _ _ _ _ _ _ X1 l Hl), Hu.
  exists x2. split; [reflexivity|]. split; [exact (ex_plain _ _ _ _ _ _ X1)|].
  split; [exact (ex_url _ _ _ _ _ _ X1)|]. split; [unfold counters; congruence|]. exact (ex_entry _ _ _ _ _ _ X1).
Qed.

Lemma http_to_string u : protocol_ u = $"http" -> str_eqb (to_string all_components u) [] = false.
Proof. intros Hh. unfold to_string. now rewrite Hh. Qed.

(** The state in which the last page of a chain is opened. *)
Lemma open_chain n u v : leads n u v -> forall d x,
  plain (m_stream x) -> 0 <= m_redirects x -> m_redirects x + Z.of_nat n <= m_max_redirects x ->
  m_max_redirects x < 2 ^ 64 - 1 -> (n < d)%nat ->
  exists x', open base64_text d fuel u x = open base64_text (d - n) fuel v x'
    /\ plain (m_stream x') /\ counters x' = (m_redirects x + Z.of_nat n, m_max_redirects x)
    /\ (if str_eqb (to_string all_components (m_url (m_stream x'))) [] then v else m_entry_url x')
       = (if str_eqb (to_string all_components (m_url (m_stream x))) [] then u else m_entry_url x).
Proof.
  induction 1 as [u|n u u' v a b c r hs rest l An Hs Hl Hu Hld IH]; intros d x Hp Hr Hn Hm Hd.
  - exists x. rewrite Nat.sub_0_r, Z.add_0_r. auto.
  - destruct d as [|d]; [lia|].
    destruct (open_hop d u u' a b c r hs rest l x An Hs Hl Hu Hp) as (x1 & E1 & P1 & U1 & K1 & T1); [lia|lia|].
    unfold counters in K1. injection K1 as K1 K1'.
    destruct (IH d x1 P1) as (x2 & E2 & P2 & K2 & T2); [lia..|].
    exists x2. rewrite E1. split; [exact E2|]. split; [exact P2|]. split; [rewrite K2, K1, K1'; f_equal; lia|].
    rewrite T2, U1, http_to_string by exact (an_http _ _ _ _ _ _ _ An). exact T1.
Qed.
End Redirects.

(** ** Properties *)

(** Opening a URL does not go on forever.  A call of [open] calls itself
    at most once for each redirection that [m_max_redirects] still allows, so
    any depth above that gives the same result, whatever the servers answer;
    the bound itself is at most [m_max_redirects + 1] requests. *)
Theorem open_depth {P : Platform} {N : Network} {T : Transport N} (base64_text : cstring -> cstring)
    (fuel d : nat) (u : url) (c : connection) :
  0 <= m_redirects c <= m_max_redirects c -> m_max_redirects c < 2 ^ 64 - 1 ->
  (Z.to_nat (m_max_redirects c - m_redirects c) < d)%nat ->
  open base64_text d fuel u c = open base64_text (S (Z.to_nat (m_max_redirects c - m_redirects c))) fuel u c.
Proof. intros Hr Hm Hd. symmetry. apply open_depth_enough; lia. Qed.

(** C22: [open] follows redirections.  When [n] redirections, not more than
    are allowed, lead from [u] to [v], and the server of [v] answers with a
    response that is none, [open] of [u] returns the code of that response, and
    the stream has the URL, the status, the headers and the body of [v]; the
    count of redirections starts again, and the entry URL is the one that was
    opened first. *)
Theorem open_follows_redirects {P : Platform} {N : Network} {T : Transport N} {L : NetworkLaws N} {TL : TransportLaws T L}
    (base64_text : cstring -> cstring) (fuel d n : nat) (u v : url) (a b c r : cstring) (hs : option_item_list)
    (rest : cstring) (x : connection) :
  leads fuel n u v -> answers fuel v a b c r hs rest ->
  let status := int32 (dec_value c) in
  status <> moved_permanently -> status <> found ->
  plain (m_stream x) -> 0 <= m_redirects x -> m_redirects x + Z.of_nat n <= m_max_redirects x ->
  m_max_redirects x < 2 ^ 64 - 1 -> (n < d)%nat ->
  exists x', open base64_text d fuel u x = Ok (status_code_error status, x')
    /\ m_url (m_stream x') = v /\ m_status_code (m_stream x') = status
    /\ m_opts (m_response_opts (m_stream x')) = response_items status hs
    /\ stream_input (m_stream x') = rest /\ m_redirects x' = 0
    /\ m_entry_url x' = if str_eqb (to_string all_components (m_url (m_stream x))) [] then u else m_entry_url x.
Proof.
  intros Hld An status H1 H2 Hp Hr Hn Hm Hd.
  destruct (open_chain base64_text fuel n u v Hld d x Hp Hr Hn Hm Hd) as (x1 & -> & P1 & _ & T1).
  destruct (exchange_ok base64_text fuel v a b c r hs rest x1 An P1) as (x2 & E2 & X2).
  destruct (d - n)%nat as [|d'] eqn:Ed; [lia|]. cbn [open]. rewrite (bind_ok _ _ _ _ _ E2). fold status.
  assert (is_redirect (status_code_error status) = false) as ->.
  { unfold status_code_error, make_error_code, is_redirect. destruct (_ || _); [reflexivity|].
    destruct (status =? 0); [reflexivity|]. lia. }
  run. eexists. split; [reflexivity|]. destruct X2 as [X2 _ X3 X4 X5 _ X6]. repeat split; try assumption.
  cbn. rewrite X6. exact T1.
Qed.

(** The limit on redirections: the redirection after the last allowed one
    is not followed, its status is the error that [open] returns, and the
    count of redirections starts again. *)
Theorem open_redirect_limit {P : Platform} {N : Network} {T : Transport N} {L : NetworkLaws N} {TL : TransportLaws T L}
    (base64_text : cstring -> cstring) (fuel d n : nat) (u v : url) (a b c r : cstring) (hs : option_item_list)
    (rest : cstring) (x : connection) :
  leads fuel n u v -> answers fuel v a b c r hs rest ->
  let status := int32 (dec_value c) in
  status = moved_permanently \/ status = found ->
  plain (m_stream x) -> 0 <= m_redirects x -> m_redirects x + Z.of_nat n = m_max_redirects x ->
  m_max_redirects x < 2 ^ 64 - 1 -> (n < d)%nat ->
  exists x', open base64_text d fuel u x = Ok (Some (http_status status), x')
    /\ m_url (m_stream x') = v /\ m_redirects x' = 0.
Proof.
  intros Hld An status Hs Hp Hr Hn Hm Hd.
  destruct (open_chain base64_text fuel n u v Hld d x Hp Hr) as (x1 & -> & P1 & K1 & _); [lia..|].
  injection K1 as K1 K1'. destruct (exchange_ok base64_text fuel v a b c r hs rest x1 An P1) as (x2 & E2 & X2).
  pose proof (exchange_counters base64_text fuel v x1 _ _ E2) as K2. injection K2 as K2 K2'.
  destruct (redirect_code _ Hs) as [Hc Hred]. fold status in E2. rewrite Hc in E2.
  destruct (d - n)%nat as [|d'] eqn:Ed; [lia|]. cbn [open]. rewrite (bind_ok _ _ _ _ _ E2), Hred.
  destruct (close_run x2) as (ec & k & E3). rewrite (bind_ok _ _ _ _ _ E3). run. set (x3 := set_redirects _ (set_stream _ _)).
  assert (m_redirects x3 = m_max_redirects x + 1) as R3 by (unfold x3; cbn; rewrite wrapu_id; lia).
  assert (m_max_redirects x3 = m_max_redirects x) as R3' by (unfold x3; cbn; congruence).
  rewrite R3, R3'. replace (_ <=? _) with false by lia. eexists. split; [reflexivity|].
  split; [exact (ex_url _ _ _ _ _ _ X2)|reflexivity].
Qed.

(** A site that redirects to another one. *)
Definition example_page : cstring := response_text ($"1") ($"1") ($"200") ($"OK") [($"Server", $"x")] ($"Hello").
Definition example_moved : cstring :=
  response_text ($"1") ($"1") ($"302") ($"Found") [($"Location", $"http://b.com/p?q")] [].
Definition example_web : list (cstring * list script_address) :=
  [($"a.com", [(1, None); (2, Some (one_packet example_moved))]); ($"b.com", [(3, Some (one_packet example_page))])].
Definition example_url_a : url := Url ($"http") [] ($"a.com") [] ($"/") [] [] false.
Definition example_url_b : url := Url ($"http") [] ($"b.com") [] ($"/p") ($"q") [] false.
Definition example_connection (max : Z) : connection (P := example_platform) (T := script_transport example_web) :=
  Connection _ _ _
    (HttpStream example_platform script_network (Opts [] false) (Opts [] false) (Opts [] false)
       (Proxy [] 0 [] [] none) [] empty_url 0 [] [] new_cookies example_closed)
    blank (ScriptSock false [] []) true [] [] empty_url 0 max.

Lemma example_answers_b :
  answers (P := example_platform) (T := script_transport example_web) (L := script_network_laws) 20 example_url_b ($"1") ($"1") ($"200") ($"OK")
    [($"Server", $"x")] ($"Hello").
Proof.
  constructor; [reflexivity| | |cbn; lia|].
  - exists (ScriptSock true [] (one_packet example_page)), (ScriptSock true [] (one_packet example_page)).
    repeat split. intros text. eexists. split; [reflexivity|vm_compute; reflexivity].
  - constructor; repeat split; try discriminate; repeat constructor; discriminate.
  - intros j. exists j. reflexivity.
Qed.

Lemma example_answers_a :
  answers (P := example_platform) (T := script_transport example_web) (L := script_network_laws) 20 example_url_a ($"1") ($"1") ($"302") ($"Found")
    [($"Location", $"http://b.com/p?q")] [].
Proof.
  constructor; [reflexivity| | |cbn; lia|].
  - exists (ScriptSock true [] (one_packet example_moved)), (ScriptSock true [] (one_packet example_moved)).
    repeat split. intros text. eexists. split; [reflexivity|vm_compute; reflexivity].
  - constructor; repeat split; try discriminate; repeat constructor; discriminate.
  - intros j. exists j. reflexivity.
Qed.

Lemma example_leads :
  leads (P := example_platform) (T := script_transport example_web) (L := script_network_laws) 20 1 example_url_a example_url_b.
Proof.
  apply (leads_on _ 0 _ example_url_b _ _ _ _ _ _ _ ($"http://b.com/p?q") example_answers_a);
    [right; reflexivity| |vm_compute; reflexivity|apply leads_here].
  intros h. reflexivity.
Qed.

Lemma open_depth_witness :
  open (fun s => s) 9 20 example_url_a (example_connection 5) = open (fun s => s) 6 20 example_url_a (example_connection 5).
Proof. apply (open_depth (fun s => s) 20 9 example_url_a (example_connection 5)); cbn; lia. Defined.

Lemma open_follows_redirects_witness :
  exists x', open (fun s => s) 2 20 example_url_a (example_connection 5) = Ok (None, x')
    /\ m_url (m_stream x') = example_url_b /\ m_status_code (m_stream x') = 200
    /\ m_opts (m_response_opts (m_stream x')) = response_items 200 [($"Server", $"x")]
    /\ stream_input (L := script_network_laws) (m_stream x') = $"Hello" /\ m_redirects x' = 0
    /\ m_entry_url x' = example_url_a.
Proof.
  apply (open_follows_redirects (TL := script_transport_laws example_web) (fun s => s) 20 2 1 example_url_a example_url_b
    ($"1") ($"1") ($"200") ($"OK") [($"Server", $"x")] ($"Hello") (example_connection 5) example_leads example_answers_b);
    solve [discriminate | repeat split | cbn; lia].
Defined.

Lemma open_redirect_limit_witness :
  exists x', open (fun s => s) 1 20 example_url_a (example_connection 0) = Ok (Some (http_status 302), x')
    /\ m_url (m_stream x') = example_url_a /\ m_redirects x' = 0.
Proof.
  apply (open_redirect_limit (TL := script_transport_laws example_web) (fun s => s) 20 1 0 example_url_a example_url_a
    ($"1") ($"1") ($"302") ($"Found") [($"Location", $"http://b.com/p?q")] [] (example_connection 0)
    (leads_here _ _) example_answers_a); solve [right; reflexivity | repeat split | cbn; lia].
Defined.

(** The answer of an HTTP proxy to CONNECT.  With at least one header the
    tunnel is taken exactly for the status 200, and nothing of the answer stays
    in the buffer; an answer without headers, which is the shortest one a proxy
    can give, is refused as malformed, because the line break of the status
    line was consumed before the empty line is searched. *)
Theorem connect_response_headers {P : Platform} {N : Network} {T : Transport N} {L : NetworkLaws N} {TL : TransportLaws T L}
    (fuel : nat) (s : http_stream) (a b c r : cstring) (h : option_item) (hs : option_item_list) (rest : cstring) :
  wf_response a b c r (h :: hs) -> (0 < fuel)%nat ->
  (stream_input s = response_text a b c r (h :: hs) rest ->
   exists s', connect_response fuel s
       = Ok (if int32 (dec_value c) =? ok then None else make_error_code (int32 (dec_value c)), s')
     /\ m_response (m_body s') = [])
  /\ (stream_input s = response_text a b c r [] [] ->
      exists s', connect_response fuel s = Ok (Some malformed_response_headers, s')).
Proof.
  intros Wf Hf. split; intros Hi; [exact (connect_response_ok fuel s a b c r (h :: hs) rest Wf Hf Hi)|].
  refine (connect_response_ok fuel s a b c r [] [] _ Hf Hi eq_refl). destruct Wf as [W1 W2 W3 W4 W5].
  constructor; auto.
Qed.

Definition example_tunnel (text : cstring) : http_stream (H := example_platform) (H0 := script_network) :=
  set_body (example_open text) (m_stream (example_connection 0)).

Lemma connect_response_headers_witness :
  (exists s', connect_response (T := script_transport []) 1
      (example_tunnel (response_text ($"1") ($"1") ($"200") ($"OK") [($"Via", $"x")] [])) = Ok (None, s')
    /\ m_response (m_body s') = [])
  /\ (exists s', connect_response (T := script_transport []) 1
      (example_tunnel (response_text ($"1") ($"0") ($"200") ($"Connection established") [] []))
      = Ok (Some malformed_response_headers, s')).
Proof.
  split;
    [ apply (connect_response_headers (TL := script_transport_laws []) 1 _ ($"1") ($"1") ($"200") ($"OK") ($"Via", $"x") [] [])
    | apply (connect_response_headers (TL := script_transport_laws []) 1 _ ($"1") ($"0") ($"200") ($"Connection established")
               ($"Via", $"x") [] []) ];
    solve [ constructor; repeat split; try discriminate; repeat constructor; discriminate | lia | vm_compute; reflexivity ].
Defined.

(** A redirection to a text that is no URL, or one without a Location,
    leaves [open] with an exception, also in the overload that reports errors
    in an [error_code]. *)
Theorem open_bad_location {P : Platform} {N : Network} {T : Transport N} {L : NetworkLaws N} {TL : TransportLaws T L}
    (base64_text : cstring -> cstring) (fuel d : nat) (u : url) (a b c r : cstring) (hs : option_item_list)
    (rest l : cstring) (e : Url.errc) (x : connection) :
  answers fuel u a b c r hs rest ->
  int32 (dec_value c) = moved_permanently \/ int32 (dec_value c) = found ->
  sets_location hs l -> Url.from_string (fix_location u l) = Err e ->
  plain (m_stream x) -> 0 <= m_redirects x < m_max_redirects x -> m_max_redirects x < 2 ^ 64 - 1 ->
  open base64_text (S d) fuel u x = Err Thrown.
Proof.
  intros An Hs Hl Hu Hp Hr Hm. destruct (exchange_ok base64_text fuel u a b c r hs rest x An Hp) as (x1 & E1 & X1).
  pose proof (exchange_counters base64_text fuel u x _ _ E1) as K1. injection K1 as K1 K1'.
  destruct (redirect_code _ Hs) as [Hc Hred]. rewrite Hc in E1. cbn [open]. rewrite (bind_ok _ _ _ _ _ E1), Hred.
  destruct (close_run x1) as (ec & k & E2). rewrite (bind_ok _ _ _ _ _ E2). run. set (x2 := set_redirects _ _).
  assert (m_redirects x2 = m_redirects x + 1) as R2 by (unfold x2; cbn; rewrite K1; apply wrapu_id; lia).
  assert (m_max_redirects x2 = m_max_redirects x) as R2' by exact K1'.
  rewrite R2, R2'. replace (_ <=? _) with true by lia.
  change (m_location (m_stream x2)) with (m_location (m_stream x1)).
  now rewrite (ex_location _ _ _ _ _ _ X1 l Hl), Hu.
Qed.

Definition example_bad : cstring :=
  response_text ($"1") ($"1") ($"301") ($"Moved") [($"Location", $"http://[::1/x")] [].
Definition example_web_bad : list (cstring * list script_address) := [($"a.com", [(2, Some (one_packet example_bad))])].
Definition example_connection_bad : connection (P := example_platform) (T := script_transport example_web_bad) :=
  Connection _ _ _ (m_stream (example_connection 0)) blank (ScriptSock false [] []) true [] [] empty_url 0 5.

Lemma open_bad_location_witness : open (fun s => s) 1 20 example_url_a example_connection_bad = Err Thrown.
Proof.
  apply (open_bad_location (TL := script_transport_laws example_web_bad) (fun s => s) 20 0 example_url_a ($"1") ($"1")
    ($"301") ($"Moved") [($"Location", $"http://[::1/x")] [] ($"http://[::1/x") Url.invalid_argument).
  - constructor; [reflexivity| | |cbn; lia|].
    + exists (ScriptSock true [] (one_packet example_bad)), (ScriptSock true [] (one_packet example_bad)).
      repeat split. intros text. eexists. split; [reflexivity|vm_compute; reflexivity].
    + constructor; repeat split; try discriminate; repeat constructor; discriminate.
    + intros j. exists j. reflexivity.
  - left. reflexivity.
  - intros h. reflexivity.
  - vm_compute. reflexivity.
  - repeat split.
  - cbn. lia.
  - cbn. lia.
Defined.
