(* ===== verification/HttpAsync.v ===== *)
(** The asynchronous half of avhttp/impl/http_stream.ipp: [async_open],
    [async_request], [async_receive_header] and their handlers.

    A handler ends by starting an operation with the next handler bound to it,
    or by calling the handler of the user: this is a value of [action].  [step]
    performs an operation, with the functions of the classes [Network] and
    [Transport] that the synchronous code uses too, and calls the handler; [run]
    repeats that on fuel. *)

From S2P Require Import Prelude CLib EscapeString Url Settings Cookie HttpParsers HttpBody HttpStream Transport Socks HttpOpen.

(** The stream, with the members of the SOCKS state machine. *)
Record async_stream {P : Platform} {N : Network} {T : Transport N} : Type := AsyncStream {
  a_conn : connection;
  a_proxy_status : socks_status;
  a_remote_endp : option endpoint
}.

(** The handler that is bound to an operation. *)
Inductive write_handler : Type := KRequest | KProxyRequest.
Inductive line_handler : Type := KStatus | KHeader (header_string : cstring) | KProxyStatus.
Inductive resolve_handler : Type := KResolve | KProxyResolve.

(** [Socks a] is an operation of the SOCKS state machine, [Handler ec] the call
    of the user's handler; [Lost] is neither. *)
Inductive action {P : Platform} {N : Network} {T : Transport N} : Type :=
| Resolve (k : resolve_handler) (host port : cstring)
| Connect (e : endpoint) (l : list endpoint)
| ConnectProxy (l : list endpoint)
| Write (k : write_handler) (text : cstring)
| ReadLine (k : line_handler)
| ReadBlock
| Handshake
| Socks (a : socks_action)
| Handler (ec : error_code)
| Lost.

Section Async.
Context {P : Platform} {N : Network} {T : Transport N}.
Variable base64_text : cstring -> cstring.

Abbreviation H := (st http_stream fault).
Abbreviation C := (st connection fault).
Abbreviation A := (st async_stream fault).

(** Functions on the connection. *)
Definition on_conn {R} (m : C R) : A R := fun x =>
  match m (a_conn x) with
  | Ok (r, c) => Ok (r, AsyncStream _ _ _ c (a_proxy_status x) (a_remote_endp x))
  | Err f => Err f
  end.

(** ** Requests and responses *)

(** What [async_request] clears, and whether a proxy closes the connection. *)
Definition reset_async (keep : bool) (b : body) : body :=
  Body _ keep false true false (m_chunked_size b) (m_content_length b) 0 (m_response b) (m_sock b).

Definition async_request (opt : opts) : H action :=
  s ← st_get;
  if negb (sock_is_open (m_sock (m_body s))) then mret (Handler (Some network_reset))
  else
    '(u, ro, connection, text) ← st_lift (build_request_text base64_text true opt s);
    st_modify (fun s => set_body (reset_async (negb (via_http_proxy s && str_eqb connection ($"close"))) (m_body s)) s) ;;
    st_modify (set_request ro u) ;;
    mret (Write KRequest text).

Definition handle_request (err : error_code) : H action :=
  match err with
  | Some _ => mret (Handler err)
  | None =>
      s ← st_get;
      if m_fake_continue (m_request_opts_priv s) then mret (Handler (Some fake_continue))
      else
        st_modify (fun s => set_body (set_response [] (m_body s)) s) ;;
        mret (ReadLine KStatus)
  end.

Definition async_receive_header : H action := mret (ReadLine KStatus).

Definition handle_status (err : error_code) : H action :=
  match err with
  | Some _ => mret (Handler err)
  | None =>
      s ← st_get;
      let text := m_response (m_body s) in
      let '(good, d) := parse_http_status_line text 0 0 0 in
      let status := StatusLine.status d in
      st_modify (set_status status) ;;
      if negb good then mret (Handler (Some malformed_status_line))
      else
        r ← skip_continue status (unread StatusLine.http_version_h (StatusLine.Data 0 0 0 []) text);
        match r with
        | None => mret (Handler (Some malformed_status_line))
        | Some temp =>
            consume (length text - length temp) ;;
            if (status =? continue_request)
               && negb (str_eqb (find_or_empty http_options.request_method (m_request_opts_priv s)) ($"POST"))
            then mret (ReadLine KStatus)
            else
              record_status ;;
              if status =? continue_request then mret (Handler (make_error_code status))
              else mret (ReadLine (KHeader []))
        end
  end.

(** ** Opening *)

(** [async_open(u, handler)]: a socket error is posted to the handler. *)
Definition async_open (u : url) : A action :=
  on_conn (st_modify (begin_open u)) ;;
  let https := str_eqb (protocol_ u) ($"https") in
  if negb (str_eqb (protocol_ u) ($"http")) && negb https then mret (Handler (Some operation_not_supported))
  else
    on_conn (st_modify (instantiate https)) ;;
    c ← on_conn st_get;
    match (if https then certificates c else None) with
    | Some e => mret (Handler (Some e))
    | None =>
        if sock_is_open (stream_sock c) then mret (Handler (Some already_open))
        else
          let s := m_stream c in
          match type (m_proxy s) with
          | socks4 | socks5 | socks5_pw =>
              st_modify (fun x => AsyncStream _ _ _ (a_conn x) socks_proxy_resolve (a_remote_endp x)) ;;
              mret (Socks (WaitResolve (hostname (m_proxy s)) (itoa (proxy_port (m_proxy s)))))
          | http | http_pw =>
              mret (Resolve (if https then KProxyResolve else KResolve)
                      (hostname (m_proxy s)) (itoa (proxy_port (m_proxy s))))
          | none => mret (Resolve KResolve (host_ (m_url s)) (itoa (port (m_url s))))
          end
    end.

(** Transfer coding, connection and cookies, for a response that is not
    followed. *)
Definition finish_headers : H error_code :=
  s ← st_get;
  let ec := if negb (m_status_code s =? ok) && negb (m_status_code s =? partial_content)
            then make_error_code (m_status_code s) else None in
  let chunked := m_is_chunked (m_body s)
                 || str_eqb (find_or_empty http_options.transfer_encoding (m_response_opts s)) ($"chunked") in
  let keep := m_keep_alive (m_body s)
              && negb (str_eqb (find_or_empty http_options.connection (m_request_opts s)) ($"close"))
              && negb (str_eqb (find_or_empty http_options.connection (m_response_opts s)) ($"close")) in
  st_modify (fun s => set_body (set_flags keep chunked (m_body s)) s) ;;
  j ← st_lift (add_cookies (m_opts (m_response_opts s)) (m_jar s));
  st_modify (set_jar j) ;;
  mret ec.

Definition finish_response : A action :=
  on_conn (st_modify (set_redirects 0)) ;;
  ec ← on_conn (on_stream finish_headers);
  mret (Handler ec).

(** [handle_header(handler, header_string, bytes_transferred, err)]. *)
Definition handle_header (header_string : cstring) (n : nat) (err : error_code) : A action :=
  match err with
  | Some _ => mret (Handler err)
  | None =>
      temp ← on_conn (on_stream (take_line n));
      let header_string := header_string ++ temp in
      if negb (str_eqb temp crlf) then mret (ReadLine (KHeader header_string))
      else
        good ← on_conn (on_stream (parse_block header_string));
        if negb good then mret (Handler (Some malformed_response_headers))
        else
          on_conn (on_stream (st_modify (fun s => set_location (fix_location (m_url s) (m_location s)) s))) ;;
          c ← on_conn st_get;
          let status := m_status_code (m_stream c) in
          if (status =? moved_permanently) || (status =? found) then
            _ ← on_conn (on_stream (on_sock sock_close));
            on_conn (st_modify (fun c => set_redirects (wrapu 64 (m_redirects c + 1)) c)) ;;
            c ← on_conn st_get;
            if m_redirects c <=? m_max_redirects c then
              match Url.from_string (m_location (m_stream c)) with
              | Ok u' => async_open u'
              | Err _ => mret (Handler (Some invalid_redirect))
              end
            else finish_response
          else finish_response
  end.

(** ** Connecting *)

Definition handle_resolve (r : result error (list endpoint)) : H action :=
  match r with
  | Err e => mret (Handler (Some e))
  | Ok [] => st_fail ReadPastEnd
  | Ok (e :: l) => mret (Connect e l)
  end.

Definition handle_connect (l : list endpoint) (err : error_code) : H action :=
  match err with
  | None => s ← st_get; async_request (m_request_opts_priv s)
  | Some _ => match l with [] => mret (Handler err) | e :: l' => mret (Connect e l') end
  end.

(** ** CONNECT, for https over an HTTP proxy *)

Definition proxy_auth_line (s : http_stream) : cstring :=
  match type (m_proxy s) with
  | http_pw =>
      $"Proxy-Authorization:" ++ $"Basic " ++ encode_base64 base64_text (username (m_proxy s) ++ $":" ++ password (m_proxy s))
  | _ => match user_info_ (m_url s) with
         | [] => []
         | ui => $"Proxy-Authorization:" ++ $"Basic " ++ encode_base64 base64_text ui
         end
  end.

Definition async_https_proxy_resolve (r : result error (list endpoint)) : H action :=
  match r with
  | Err e => mret (Handler (Some e))
  | Ok l => mret (ConnectProxy l)
  end.

Definition handle_connect_https_proxy (l : list endpoint) (err : error_code) : H action :=
  match err with
  | Some _ => match l with [] => mret (Handler err) | _ :: l' => mret (ConnectProxy l') end
  | None => s ← st_get; mret (Write KProxyRequest (connect_text (proxy_auth_line s) s))
  end.

Definition handle_https_proxy_request (err : error_code) : H action :=
  match err with Some _ => mret (Handler err) | None => mret (ReadLine KProxyStatus) end.

Definition handle_https_proxy_status (err : error_code) : H action :=
  match err with
  | Some _ => mret (Handler err)
  | None =>
      s ← st_get;
      let text := m_response (m_body s) in
      let '(good, d) := parse_http_status_line text 0 0 0 in
      st_modify (fun s => set_body (set_response (unread StatusLine.http_version_h (StatusLine.Data 0 0 0 []) text)
                                      (m_body s)) s) ;;
      st_modify (set_status (StatusLine.status d)) ;;
      if negb good then mret (Handler (Some malformed_status_line))
      else if StatusLine.status d =? continue_request then mret (ReadLine KProxyStatus)
      else record_status ;; mret ReadBlock
  end.

Definition handle_https_proxy_header (n : nat) (err : error_code) : H action :=
  match err with
  | Some _ => mret (Handler err)
  | None =>
      good ← take_headers n;
      s ← st_get;
      if negb good then mret (Handler (Some malformed_response_headers))
      else if negb (m_status_code s =? ok) then mret (Handler (make_error_code (m_status_code s)))
      else mret Handshake
  end.

Definition handle_https_proxy_handshake (err : error_code) : H action :=
  match err with
  | Some _ => mret (Handler err)
  | None =>
      st_modify (fun s => set_body (set_response [] (m_body s)) s) ;;
      s ← st_get; async_request (m_request_opts_priv s)
  end.

(** ** Running *)

(** The SOCKS state machine, on its part of the stream. *)
Definition on_socks {R} (m : st socks_state fault R) : A R := fun x =>
  let s := m_stream (a_conn x) in
  match m (SocksState _ _ (m_body s) (a_proxy_status x) (a_remote_endp x)) with
  | Ok (r, y) =>
      Ok (r, AsyncStream _ _ _ (set_stream (set_body (s_body y) s) (a_conn x)) (m_proxy_status y) (m_remote_endp y))
  | Err f => Err f
  end.

(** What follows the state machine. *)
Definition after_socks (a : socks_action) : A action :=
  match a with
  | Connected => s ← on_conn (on_stream st_get); on_conn (on_stream (async_request (m_request_opts_priv s)))
  | Called e => mret (Handler (Some e))
  | Silent => mret Lost
  | _ => mret (Socks a)
  end.

Definition step (a : action) : A action :=
  match a with
  | Resolve k host port =>
      on_conn (on_stream (match k with
                          | KResolve => handle_resolve (resolve host port)
                          | KProxyResolve => async_https_proxy_resolve (resolve host port)
                          end))
  | Connect e l =>
      c ← on_conn st_get;
      ec ← on_conn (on_stream (on_sock (match m_variant c with ssl => ssl_connect e | _ => tcp_connect e end)));
      on_conn (on_stream (handle_connect l ec))
  | ConnectProxy l =>
      ec ← on_conn (on_stream (on_sock (connect_loop tcp_connect l (Some not_found))));
      on_conn (on_stream (handle_connect_https_proxy l ec))
  | Write k text =>
      ec ← on_conn (on_stream (on_sock (sock_write text)));
      on_conn (on_stream (match k with
                          | KRequest => handle_request ec
                          | KProxyRequest => handle_https_proxy_request ec
                          end))
  | ReadLine k =>
      '(n, ec) ← on_conn (on_stream read_line);
      match k with
      | KStatus => on_conn (on_stream (handle_status ec))
      | KHeader header_string => handle_header header_string n ec
      | KProxyStatus => on_conn (on_stream (handle_https_proxy_status ec))
      end
  | ReadBlock =>
      '(n, ec) ← on_conn (on_stream read_block);
      on_conn (on_stream (handle_https_proxy_header n ec))
  | Handshake =>
      ec ← on_conn (on_stream (on_sock ssl_handshake));
      on_conn (on_stream (handle_https_proxy_handshake ec))
  | Socks a =>
      x ← st_get;
      let s := m_stream (a_conn x) in
      a' ← on_socks (socks_step Cookie.asserts (m_proxy s) (m_url s) (str_eqb (m_protocol s) ($"https")) a);
      after_socks a'
  | Handler _ | Lost => mret a
  end.

Definition ended (a : action) : bool := match a with Handler _ | Lost => true | _ => false end.

Fixpoint run (fuel : nat) (a : action) : A action :=
  if ended a then mret a
  else match fuel with
       | O => st_fail Hang
       | S f => a' ← step a; run f a'
       end.
End Async.

(** ** Lemmas *)

Section Facts.
Context {P : Platform} {N : Network} {T : Transport N}.
Variable base64_text : cstring -> cstring.

Definition with_stream (s : http_stream) (x : async_stream) : async_stream :=
  AsyncStream _ _ _ (set_stream s (a_conn x)) (a_proxy_status x) (a_remote_endp x).

Lemma on_conn_ok {R} (m : st connection fault R) x r c :
  m (a_conn x) = Ok (r, c) -> on_conn m x = Ok (r, AsyncStream _ _ _ c (a_proxy_status x) (a_remote_endp x)).
Proof. intros E. unfold on_conn. now rewrite E. Qed.

Lemma on_conn_stream {R} (m : st http_stream fault R) s x r s' :
  m s = Ok (r, s') -> on_conn (on_stream m) (with_stream s x) = Ok (r, with_stream s' x).
Proof. intros E. exact (on_conn_ok _ (with_stream s x) r _ (on_stream_ok m (set_stream s (a_conn x)) r s' E)). Qed.

(** From [a] and [x] the machine gets to [a'] and [x'], whatever fuel is left. *)
Definition steps (a : action) (x : async_stream) (a' : action) (x' : async_stream) : Prop :=
  exists n, forall g, run base64_text (n + g) a x = run base64_text g a' x'.

Lemma steps_refl a x : steps a x a x.
Proof. now exists O. Qed.

Lemma steps_trans a x a1 x1 a2 x2 : steps a x a1 x1 -> steps a1 x1 a2 x2 -> steps a x a2 x2.
Proof. intros [n E] [m F]. exists (n + m)%nat. intros g. now rewrite <- Nat.add_assoc, E, F. Qed.

Lemma steps_one a x a' x' : ended a = false -> step base64_text a x = Ok (a', x') -> steps a x a' x'.
Proof.
  intros Ha E. exists 1%nat. intros g. cbn [Nat.add run]. rewrite Ha. now rewrite (bind_ok _ _ _ _ _ E).
Qed.

Lemma read_line_total s : exists n ec s', read_line s = Ok ((n, ec), s').
Proof. unfold read_line. run. destruct (read_until_crlf _ _) as [[[n ec] buf] k]. eauto. Qed.

Lemma step_line k s n ec s' x :
  read_line s = Ok ((n, ec), s') ->
  step base64_text (ReadLine k) (with_stream s x)
  = match k with
    | KStatus => on_conn (on_stream (handle_status ec))
    | KHeader header_string => handle_header header_string n ec
    | KProxyStatus => on_conn (on_stream (handle_https_proxy_status ec))
    end (with_stream s' x).
Proof. intros E. cbn [step]. now rewrite (bind_ok _ _ _ _ _ (on_conn_stream _ _ _ _ _ E)). Qed.

Lemma skip_continue_status status temp s r s' :
  skip_continue status temp s = Ok (r, s') -> m_status_code s' = m_status_code s.
Proof.
  unfold skip_continue. destruct (status =? continue_request); [|now intros [= _ <-]].
  unfold continue_crlf, stream_assert, consume. destruct temp as [|c1 [|c2 temp]]; run;
    repeat match goal with |- context [if ?c then _ else _] => destruct c end; try discriminate; intros [= _ <-]; reflexivity.
Qed.

(** What the handler of the status line does, in the terms of the loop. *)
Lemma status_line_cases f s n s0 r s1 :
  read_line s = Ok ((n, None), s0) -> status_loop (S f) s = Ok (r, s1) ->
  exists a s2, handle_status None s0 = Ok (a, s2)
  /\ ((exists ec, r = inl ec /\ a = Handler ec /\ s2 = s1)
      \/ (a = ReadLine KStatus /\ status_loop f s2 = Ok (r, s1))
      \/ (r = inr (status_code_error (m_status_code s1)) /\ record_status s1 = Ok ((), s2)
          /\ a = if m_status_code s1 =? continue_request then Handler (make_error_code (m_status_code s1))
                 else ReadLine (KHeader []))).
Proof.
  intros E HL. cbn [status_loop] in HL. rewrite (bind_ok _ _ _ _ _ E) in HL. cbv beta iota in HL.
  rewrite (bind_ok _ _ s0 s0 s0) in HL by reflexivity. unfold handle_status. rewrite (bind_ok _ _ s0 s0 s0) by reflexivity.
  cbv zeta in *. destruct (parse_http_status_line (m_response (m_body s0)) 0 0 0) as [good d].
  rewrite (bind_ok _ _ s0 () (set_status (StatusLine.status d) s0)) in HL by reflexivity.
  rewrite (bind_ok _ _ s0 () (set_status (StatusLine.status d) s0)) by reflexivity.
  set (status := StatusLine.status d) in *. set (s2 := set_status status s0) in *.
  destruct good; cbn [negb] in *; [|injection HL as <- <-; do 2 eexists; split; [reflexivity|left; eauto]].
  set (text := m_response (m_body s0)) in *. set (temp := unread _ _ text) in *.
  destruct (skip_continue status temp s2) as [[t s3]|] eqn:Es; [|unfold mbind, st_bind in HL; rewrite Es in HL; discriminate].
  rewrite (bind_ok _ _ _ _ _ Es) in HL. rewrite (bind_ok _ _ _ _ _ Es). apply skip_continue_status in Es.
  destruct t as [temp'|]; [|injection HL as <- <-; do 2 eexists; split; [reflexivity|left; eauto]].
  set (s4 := set_body (set_response (drop (length text - length temp') (m_response (m_body s3))) (m_body s3)) s3).
  rewrite (bind_ok _ _ s3 () s4) in HL by reflexivity. rewrite (bind_ok _ _ s3 () s4) by reflexivity.
  assert (m_status_code s4 = status) as S4 by exact Es.
  assert (negb (status =? continue_request)
          || str_eqb (find_or_empty http_options.request_method (m_request_opts_priv s0)) ($"POST")
          = negb ((status =? continue_request)
                  && negb (str_eqb (find_or_empty http_options.request_method (m_request_opts_priv s0)) ($"POST")))) as Ec.
  { destruct (status =? continue_request), (str_eqb _ _); reflexivity. }
  rewrite Ec in HL. destruct ((status =? continue_request) && _); cbn [negb] in HL.
  - do 2 eexists. split; [reflexivity|]. right. left. split; [reflexivity|exact HL].
  - injection HL as <- <-. rewrite S4.
    rewrite (bind_ok _ _ s4 () (set_response_opts
      (Settings.insert ($"_status_code") (itoa (m_status_code s4)) (Settings.clear (m_response_opts s4))) s4)) by reflexivity.
    destruct (status =? continue_request); do 2 eexists; (split; [reflexivity|]); right; right;
      (split; [|split; reflexivity]); unfold status_code_error; destruct (status =? ok), (status =? partial_content); reflexivity.
Qed.

(** The loop over status lines and the chain of its handlers. *)
Lemma status_steps f : forall s r s1 x, status_loop f s = Ok (r, s1) ->
  match r with
  | inl ec => steps (ReadLine KStatus) (with_stream s x) (Handler ec) (with_stream s1 x)
  | inr ec => ec = status_code_error (m_status_code s1) /\ exists s2, record_status s1 = Ok ((), s2)
      /\ steps (ReadLine KStatus) (with_stream s x)
           (if m_status_code s1 =? continue_request then Handler (make_error_code (m_status_code s1))
            else ReadLine (KHeader [])) (with_stream s2 x)
  end.
Proof.
  induction f as [|f IH]; intros s r s1 x HL; [discriminate|].
  destruct (read_line_total s) as (n & ec & s0 & E). pose proof (step_line KStatus s n ec s0 x E) as St.
  destruct ec as [e|].
  - cbn [status_loop] in HL. rewrite (bind_ok _ _ _ _ _ E) in HL. injection HL as <- <-.
    apply steps_one; [reflexivity|]. rewrite St. now apply on_conn_stream.
  - destruct (status_line_cases f s n s0 r s1 E HL) as (a & s2 & Ea & Hc).
    assert (steps (ReadLine KStatus) (with_stream s x) a (with_stream s2 x)) as S1.
    { apply steps_one; [reflexivity|]. rewrite St. now apply on_conn_stream. }
    destruct Hc as [(ec & -> & -> & ->)|[(-> & HL')|(-> & Er & ->)]]; [exact S1| |eauto].
    specialize (IH s2 r s1 x HL'). destruct r as [ec|ec]; [exact (steps_trans _ _ _ _ _ _ S1 IH)|].
    destruct IH as (Hec & s3 & Er & S2). split; [exact Hec|]. exists s3. split; [exact Er|].
    exact (steps_trans _ _ _ _ _ _ S1 S2).
Qed.

(** The error of the asynchronous version: where the header ends early the
    synchronous one reports malformed headers instead of the end of the file. *)
Definition same_error (sync async : error_code) : Prop :=
  async = sync \/ (sync = Some malformed_response_headers /\ async = Some eof).

(** The loop over header lines: up to an error, or up to the empty line. *)
Lemma header_steps f : forall acc s r s1 x, header_loop f acc s = Ok (r, s1) ->
  match r with
  | inl e => exists e', same_error (Some e) (Some e')
      /\ steps (ReadLine (KHeader acc)) (with_stream s x) (Handler (Some e')) (with_stream s1 x)
  | inr text => exists acc' s0 n s2, text = acc' ++ crlf
      /\ steps (ReadLine (KHeader acc)) (with_stream s x) (ReadLine (KHeader acc')) (with_stream s0 x)
      /\ read_line s0 = Ok ((n, None), s2) /\ take_line n s2 = Ok (crlf, s1)
  end.
Proof.
  induction f as [|f IH]; intros acc s r s1 x HL; [discriminate|].
  destruct (read_line_total s) as (n & ec & s0 & E). pose proof (step_line (KHeader acc) s n ec s0 x E) as St.
  cbn [header_loop] in HL. rewrite (bind_ok _ _ _ _ _ E) in HL. cbv beta iota in HL. destruct ec as [e|].
  - assert (steps (ReadLine (KHeader acc)) (with_stream s x) (Handler (Some e)) (with_stream s0 x)) as S1
      by (apply steps_one; [reflexivity|rewrite St; reflexivity]).
    destruct e; injection HL as <- <-; (eexists; split; [|exact S1]); first [left; reflexivity|right; split; reflexivity].
  - rewrite (bind_ok _ _ s0 s0 s0) in HL by reflexivity. cbv zeta in HL.
    set (line := take n (m_response (m_body s0))) in *.
    set (s2 := set_body (set_response (drop n (m_response (m_body s0))) (m_body s0)) s0).
    rewrite (bind_ok _ _ s0 () s2) in HL by reflexivity.
    assert (take_line n s0 = Ok (line, s2)) as El by reflexivity.
    destruct (str_eqb line crlf) eqn:Ee.
    + injection HL as <- <-. apply str_eqb_eq in Ee. rewrite Ee in El |- *. exists acc, s, n, s0.
      split; [reflexivity|]. split; [apply steps_refl|]. split; [exact E|exact El].
    + assert (steps (ReadLine (KHeader acc)) (with_stream s x) (ReadLine (KHeader (acc ++ line))) (with_stream s2 x)) as S1.
      { apply steps_one; [reflexivity|]. rewrite St. cbn [handle_header].
        rewrite (bind_ok _ _ _ _ _ (on_conn_stream _ _ x _ _ El)). now rewrite Ee. }
      specialize (IH (acc ++ line) s2 r s1 x HL). destruct r as [e|text].
      * destruct IH as (e' & He & S2). exists e'. split; [exact He|exact (steps_trans _ _ _ _ _ _ S1 S2)].
      * destruct IH as (acc' & s3 & n' & s4 & Ht & S2 & H). exists acc', s3, n', s4.
        split; [exact Ht|]. split; [exact (steps_trans _ _ _ _ _ _ S1 S2)|exact H].
Qed.

(** After the empty line, for a response that is not followed. *)
Definition done_with (s : http_stream) (x : async_stream) : async_stream :=
  AsyncStream _ _ _ (set_stream s (set_redirects 0 (a_conn x))) (a_proxy_status x) (a_remote_endp x).

Lemma last_line_step acc s0 n s2 s3 x good s4 :
  read_line s0 = Ok ((n, None), s2) -> take_line n s2 = Ok (crlf, s3) ->
  parse_block (acc ++ crlf) s3 = Ok (good, s4) ->
  if good then
    forall s5, apply_headers s4 = Ok ((), s5) -> m_status_code s4 <> moved_permanently -> m_status_code s4 <> found ->
    steps (ReadLine (KHeader acc)) (with_stream s0 x)
      (Handler (status_code_error (m_status_code s4))) (done_with s5 x)
  else steps (ReadLine (KHeader acc)) (with_stream s0 x) (Handler (Some malformed_response_headers)) (with_stream s4 x).
Proof.
  intros E El Ep. pose proof (step_line (KHeader acc) s0 n None s2 x E) as St. cbn [handle_header] in St.
  rewrite (bind_ok _ _ _ _ _ (on_conn_stream _ _ x _ _ El)) in St. change (str_eqb crlf crlf) with true in St. cbn [negb] in St.
  rewrite (bind_ok _ _ _ _ _ (on_conn_stream _ _ x _ _ Ep)) in St. destruct good; cbn [negb] in St.
  2:{ apply steps_one; [reflexivity|exact St]. }
  intros s5 Ea H1 H2. apply steps_one; [reflexivity|]. rewrite St. clear St.
  set (s6 := set_location (fix_location (m_url s4) (m_location s4)) s4).
  rewrite (bind_ok _ _ _ () (with_stream s6 x)) by (now apply on_conn_stream).
  rewrite (bind_ok _ _ (with_stream s6 x) (set_stream s6 (a_conn x)) (with_stream s6 x)) by reflexivity.
  change (m_status_code (m_stream (set_stream s6 (a_conn x)))) with (m_status_code s4).
  apply Z.eqb_neq in H1, H2. rewrite H1, H2. cbn [orb]. unfold finish_response.
  rewrite (bind_ok _ _ _ () (done_with s6 x)) by reflexivity.
  unfold apply_headers in Ea. revert Ea. run. fold s6. change (m_response_opts s4) with (m_response_opts s6).
  change (m_jar s4) with (m_jar s6).
  destruct (add_cookies (m_opts (m_response_opts s6)) (m_jar s6)) as [j|e] eqn:Ej; [|discriminate]. intros [= <-].
  unfold on_conn, on_stream, finish_headers. run. cbn [a_conn done_with m_stream set_stream]. rewrite Ej.
  f_equal. f_equal. f_equal. unfold status_code_error. change (m_status_code s6) with (m_status_code s4).
  destruct (m_status_code s4 =? ok), (m_status_code s4 =? partial_content); reflexivity.
Qed.

Lemma apply_headers_status s s' : apply_headers s = Ok ((), s') -> m_status_code s' = m_status_code s.
Proof. unfold apply_headers. run. destruct (add_cookies _ _); [|discriminate]. now intros [= <-]. Qed.

Lemma header_loop_status f : forall acc s r s', header_loop f acc s = Ok (r, s') -> m_status_code s' = m_status_code s.
Proof.
  induction f as [|f IH]; intros acc s r s' HL; [discriminate|]. cbn [header_loop] in HL.
  destruct (read_line_total s) as (n & ec & s0 & E). rewrite (bind_ok _ _ _ _ _ E) in HL. cbv beta iota in HL.
  assert (m_status_code s0 = m_status_code s) as K0.
  { unfold read_line in E. revert E. run. destruct (read_until_crlf _ _) as [[[? ?] ?] ?]. now intros [= _ _ <-]. }
  destruct ec as [e|]; [destruct e; injection HL as _ <-; exact K0|]. revert HL. unfold consume. run.
  destruct (str_eqb _ _); [intros [= _ <-]; exact K0|]. intros HL. apply IH in HL. rewrite HL. exact K0.
Qed.

Lemma parse_block_status text s r s' : parse_block text s = Ok (r, s') -> m_status_code s' = m_status_code s.
Proof. unfold parse_block. run. destruct (parse_http_headers_list _ _ _) as [[? ?] ?]. now intros [= _ <-]. Qed.

(** How the asynchronous reception of a response ends, when the synchronous one
    returns [ec] and the stream [s']. *)
Definition ends_alike (ec : error_code) (s' : http_stream) (x : async_stream) (a : action) (y : async_stream) : Prop :=
  exists ec', same_error ec ec' /\ steps a x (Handler ec') y
  /\ m_stream (a_conn y) = s' /\ a_proxy_status y = a_proxy_status x /\ a_remote_endp y = a_remote_endp x.

Lemma receive_steps fuel s ec s' x :
  receive_header fuel s = Ok (ec, s') -> m_status_code s' <> moved_permanently -> m_status_code s' <> found ->
  exists y, ends_alike ec s' (with_stream (set_body (set_response [] (m_body s)) s) x) (ReadLine KStatus) y.
Proof.
  intros HR H1 H2. unfold receive_header in HR.
  rewrite (bind_ok _ _ s () (set_body (set_response [] (m_body s)) s)) in HR by reflexivity.
  set (s0 := set_body (set_response [] (m_body s)) s) in *.
  destruct (status_loop fuel s0) as [[r s1]|] eqn:E1; [|unfold mbind, st_bind in HR; rewrite E1 in HR; discriminate].
  rewrite (bind_ok _ _ _ _ _ E1) in HR. pose proof (status_steps fuel s0 r s1 x E1) as S1. destruct r as [ec0|ec0].
  { injection HR as <- <-. exists (with_stream s1 x), ec0. split; [now left|]. split; [exact S1|]. repeat split. }
  destruct S1 as (-> & s2 & E2 & S1). rewrite (bind_ok _ _ s1 s1 s1) in HR by reflexivity.
  assert (m_status_code s2 = m_status_code s1) as K2 by (injection E2 as <-; reflexivity).
  change (st_modify (set_response_opts (Settings.insert ($"_status_code") (itoa (m_status_code s1))
    (Settings.clear (m_response_opts s1)))) s1) with (record_status s1) in HR.
  rewrite (bind_ok _ _ s1 () s2) in HR by exact E2.
  destruct (m_status_code s1 =? continue_request).
  { injection HR as <- <-. exists (with_stream s2 x), (make_error_code (m_status_code s1)).
    split; [now left|]. split; [exact S1|]. repeat split. }
  destruct (header_loop fuel [] s2) as [[h s3]|] eqn:E3; [|unfold mbind, st_bind in HR; rewrite E3 in HR; discriminate].
  rewrite (bind_ok _ _ _ _ _ E3) in HR. pose proof (header_steps fuel [] s2 h s3 x E3) as S2. destruct h as [e|text].
  { injection HR as <- <-. destruct S2 as (e' & He & S2). exists (with_stream s3 x), (Some e').
    split; [exact He|]. split; [exact (steps_trans _ _ _ _ _ _ S1 S2)|]. repeat split. }
  destruct S2 as (acc & s4 & n & s5 & Ht & S2 & El & Et). subst text. pose proof (steps_trans _ _ _ _ _ _ S1 S2) as S3.
  destruct (parse_block (acc ++ crlf) s3) as [[good s6]|] eqn:E4;
    [|unfold mbind, st_bind in HR; rewrite E4 in HR; discriminate].
  rewrite (bind_ok _ _ _ _ _ E4) in HR. pose proof (last_line_step acc s4 n s5 s3 x good s6 El Et E4) as S4.
  destruct good; cbn [negb] in HR.
  - destruct (apply_headers s6) as [[[] s7]|] eqn:E5; [|unfold mbind, st_bind in HR; rewrite E5 in HR; discriminate].
    rewrite (bind_ok _ _ _ _ _ E5) in HR. injection HR as <- <-.
    assert (m_status_code s6 = m_status_code s1) as K6.
    { rewrite (parse_block_status _ _ _ _ E4), (header_loop_status _ _ _ _ _ E3). exact K2. }
    pose proof (apply_headers_status _ _ E5) as K7. rewrite K7 in H1, H2. specialize (S4 s7 eq_refl H1 H2). rewrite K6 in S4.
    exists (done_with s7 x). eexists. split; [left; reflexivity|]. split; [exact (steps_trans _ _ _ _ _ _ S3 S4)|]. repeat split.
  - injection HR as <- <-. exists (with_stream s6 x), (Some malformed_response_headers). split; [now left|].
    split; [exact (steps_trans _ _ _ _ _ _ S3 S4)|]. repeat split.
Qed.

(** The handler of the write, and what follows it. *)
Lemma written_steps fuel wec s ec s' x a x1 :
  match wec with
  | Some _ => mret wec
  | None => if m_fake_continue (m_request_opts_priv s) then mret (Some fake_continue) else receive_header fuel
  end s = Ok (ec, s') ->
  m_status_code s' <> moved_permanently -> m_status_code s' <> found ->
  (forall a' s3, handle_request wec s = Ok (a', s3) -> steps a x1 a' (with_stream s3 x)) ->
  a_proxy_status x = a_proxy_status x1 -> a_remote_endp x = a_remote_endp x1 ->
  exists y, ends_alike ec s' x1 a y.
Proof.
  intros HR H1 H2 Sw Hx1 Hx2. destruct wec as [e|].
  { injection HR as <- <-. exists (with_stream s x), (Some e). split; [now left|].
    split; [now apply Sw|]. now repeat split. }
  unfold handle_request in Sw. revert Sw. run. intros Sw. destruct (m_fake_continue _).
  { injection HR as <- <-. exists (with_stream s x), (Some fake_continue). split; [now left|].
    split; [now apply Sw|]. now repeat split. }
  destruct (receive_steps fuel s ec s' x HR H1 H2) as (y & ec' & He & S & Hs & Hy1 & Hy2).
  exists y, ec'. split; [exact He|]. split; [exact (steps_trans _ _ _ _ _ _ (Sw _ _ eq_refl) S)|].
  split; [exact Hs|]. split; [rewrite Hy1; exact Hx1|rewrite Hy2; exact Hx2].
Qed.

Lemma build_request_same o s : via_http_proxy s = false ->
  build_request_text base64_text true o s = build_request_text base64_text false o s.
Proof.
  intros Hp. unfold build_request_text. destruct (Settings.find http_options.url o);
    (destruct (change_url _ s) as [u|]; [|reflexivity]); cbn [mbind result_bind];
    set (s1 := set_request _ u s);
    (assert (proxy_auth base64_text s1 = []) as ->
       by (unfold proxy_auth; change (via_http_proxy s1) with (via_http_proxy s); now rewrite Hp));
    cbn [str_eqb]; repeat (match goal with |- context [use_option ?k ?d ?o ?r] => destruct (use_option k d o r) as [[? ?] ?] end);
    reflexivity.
Qed.

(** An asynchronous exchange, from the call of [async_request]. *)
Definition async_exchange (fuel : nat) (opt : opts) (x : async_stream) : result fault (action * async_stream) :=
  (on_conn (on_stream (async_request base64_text opt)) ≫= run base64_text fuel) x.

Lemma exchange_steps opt x a x1 y ec s' :
  on_conn (on_stream (async_request base64_text opt)) x = Ok (a, x1) -> ends_alike ec s' x1 a y ->
  exists ec' n, same_error ec ec' /\ m_stream (a_conn y) = s'
  /\ forall fuel, (n <= fuel)%nat -> async_exchange fuel opt x = Ok (Handler ec', y).
Proof.
  intros E (ec' & He & (n & S) & Hs & _). exists ec', n. split; [exact He|]. split; [exact Hs|].
  intros fuel Hf. unfold async_exchange. rewrite (bind_ok _ _ _ _ _ E). replace fuel with (n + (fuel - n))%nat by lia.
  rewrite S. now destruct (fuel - n)%nat.
Qed.
End Facts.

(** ** Properties *)

(** C2: the asynchronous exchange is equivalent to the synchronous one, but for
    one error code.  On every network, when [request] returns an error code and the
    stream, then [async_request] and its chain of handlers end after finitely many
    operations, call the handler of the user once, and leave the same stream; the
    code given to the handler is the one that [request] returned, or it is [eof] where
    [request] returned [malformed_response_headers].  (Without an HTTP proxy, whose requests differ in the order of
    headers, and for a response that is no redirection, which only the
    asynchronous function follows itself.) *)
Theorem async_request_equivalent {P : Platform} {N : Network} {T : Transport N} (base64_text : cstring -> cstring)
    (fuel : nat) (opt : opts) (x : async_stream) (ec : error_code) (s' : http_stream) :
  via_http_proxy (m_stream (a_conn x)) = false ->
  request base64_text fuel opt (m_stream (a_conn x)) = Ok (ec, s') ->
  m_status_code s' <> moved_permanently -> m_status_code s' <> found ->
  exists ec' n y, same_error ec ec' /\ m_stream (a_conn y) = s'
  /\ forall fuel', (n <= fuel')%nat -> async_exchange base64_text fuel' opt x = Ok (Handler ec', y).
Proof.
  intros Hp HR H1 H2. destruct x as [c p e]. destruct c as [s v k cc cd cr eu rd mx]. cbn [a_conn m_stream] in *.
  set (x := AsyncStream _ _ _ (Connection _ _ _ s v k cc cd cr eu rd mx) p e).
  assert (forall (m : st http_stream fault action) a s2, m s = Ok (a, s2) -> on_conn (on_stream m) x = Ok (a, with_stream s2 x)) as Ons
    by (intros m a s2 E; exact (on_conn_stream m s x a s2 E)).
  unfold request in HR. rewrite (bind_ok _ _ s s s) in HR by reflexivity.
  destruct (sock_is_open (m_sock (m_body s))) eqn:Eo; cbn [negb] in HR.
  2:{ injection HR as <- <-. destruct (exchange_steps base64_text opt x (Handler (Some network_reset)) (with_stream s x)
        (with_stream s x) (Some network_reset) s) as (ec' & n & H).
      - apply Ons. unfold async_request. run. now rewrite Eo.
      - exists (Some network_reset). split; [now left|]. split; [apply steps_refl|]. repeat split.
      - exists ec', n, (with_stream s x). exact H. }
  rewrite (bind_ok _ _ s () (set_body (reset_body (m_body s)) s)) in HR by reflexivity. unfold build_request in HR.
  destruct (build_request_text base64_text false opt s) as [[[[u ro] conn] text]|f] eqn:Eb;
    [|discriminate HR]. cbn [mbind result_bind] in HR.
  set (s1 := set_request ro u (set_body (reset_body (m_body s)) s)).
  assert (async_request base64_text opt s = Ok (Write KRequest text, s1)) as E1.
  { unfold async_request. run. rewrite Eo, build_request_same, Eb by exact Hp. cbn [negb]. now rewrite Hp. }
  destruct (sock_write text (m_sock (m_body s))) as [wec wk] eqn:Ew.
  set (s2 := set_stream_sock wk s1).
  assert (forall a s3, handle_request wec s2 = Ok (a, s3) ->
            steps base64_text (Write KRequest text) (with_stream s1 x) a (with_stream s3 x)) as Sw.
  { intros a s3 Eh. apply steps_one; [reflexivity|]. cbn [step].
    rewrite (bind_ok _ _ _ wec (with_stream s2 x)); [now apply on_conn_stream|]. apply on_conn_stream.
    unfold on_sock. run. change (m_sock (m_body s1)) with (m_sock (m_body s)). now rewrite Ew. }
  revert HR. run. rewrite Ew. intros HR.
  destruct (written_steps base64_text fuel wec s2 ec s' x (Write KRequest text) (with_stream s1 x)) as (y & Hy);
    [destruct wec; exact HR|exact H1|exact H2|exact Sw|reflexivity|reflexivity|].
  destruct (exchange_steps base64_text opt x _ _ y ec s' (Ons _ _ _ E1) Hy) as (ec' & n & H). now exists ec', n, y.
Qed.

(** A stream on an open connection with this answer under way. *)
Definition example_async (answer : cstring) : async_stream (P := example_platform) (T := script_transport example_web) :=
  AsyncStream _ _ _
    (Connection _ _ _
       (HttpStream example_platform script_network (Opts [] false) (Opts [] false) (Opts [] false)
          (Proxy [] 0 [] [] none) ($"http") example_url_a 0 [] [] new_cookies
          (Body script_network true false true false 0 (-1) 0 [] (ScriptSock true [] (one_packet answer))))
       nossl (ScriptSock false [] []) true [] [] example_url_a 0 5) socks_proxy_resolve None.

Definition stream_after {P : Platform} {N : Network} (r : result fault (error_code * http_stream)) (s : http_stream) : http_stream :=
  match r with Ok (_, s') => s' | Err _ => s end.

Lemma async_request_equivalent_witness :
  let x := example_async example_page in
  exists ec' n y, same_error None ec'
  /\ m_stream (a_conn y) = stream_after (request (fun s => s) 20 (Opts [] false) (m_stream (a_conn x))) (m_stream (a_conn x))
  /\ forall fuel', (n <= fuel')%nat -> async_exchange (fun s => s) fuel' (Opts [] false) x = Ok (Handler ec', y).
Proof.
  apply (async_request_equivalent (fun s => s) 20 (Opts [] false) (example_async example_page) None).
  - reflexivity.
  - vm_compute. reflexivity.
  - vm_compute. discriminate.
  - vm_compute. discriminate.
Defined.

(** The asynchronous function follows a redirection before it looks at the
    cookies of the response: the jar of the stream stays as it was. *)
Lemma async_open_jar {P : Platform} {N : Network} {T : Transport N} u x a y :
  async_open u x = Ok (a, y) -> m_jar (m_stream (a_conn y)) = m_jar (m_stream (a_conn x)).
Proof.
  unfold async_open, on_conn. run. destruct x as [c p e], c as [s v k cc cd cr eu rd mx]. cbn [a_conn m_stream].
  assert (forall c', m_jar (m_stream (instantiate (str_eqb (protocol_ u) ($"https")) (begin_open u c'))) = m_jar (m_stream c')) as Hj
    by (intros c'; unfold instantiate, begin_open; destruct (str_eqb (to_string _ _) []), (str_eqb (protocol_ u) _); reflexivity).
  assert (forall c', m_jar (m_stream (begin_open u c')) = m_jar (m_stream c')) as Hb
    by (intros c'; unfold begin_open; destruct (str_eqb (to_string _ _) []); reflexivity).
  destruct (negb _ && negb _); [intros [= _ <-]; apply Hb|]. cbn [a_conn a_proxy_status a_remote_endp].
  destruct (if str_eqb _ _ then _ else _); [intros [= _ <-]; apply Hj|].
  destruct (sock_is_open _); [intros [= _ <-]; apply Hj|].
  destruct (type _); intros [= _ <-]; apply Hj.
Qed.

Theorem async_redirect_drops_cookies {P : Platform} {N : Network} {T : Transport N}
    (header_string : cstring) (n : nat) (x : async_stream) (a : action) (y : async_stream) :
  m_status_code (m_stream (a_conn x)) = moved_permanently \/ m_status_code (m_stream (a_conn x)) = found ->
  0 <= m_redirects (a_conn x) < m_max_redirects (a_conn x) -> m_max_redirects (a_conn x) < 2 ^ 64 ->
  handle_header header_string n None x = Ok (a, y) ->
  m_jar (m_stream (a_conn y)) = m_jar (m_stream (a_conn x)).
Proof.
  intros Hs Hr Hm. destruct x as [c p e], c as [s v k cc cd cr eu rd mx]. cbn [a_conn m_stream m_redirects m_max_redirects] in *.
  unfold handle_header, on_conn, on_stream, take_line, parse_block, on_sock, consume. run. cbn [a_conn m_stream].
  destruct (negb (str_eqb _ _)); [now intros [= _ <-]|].
  destruct (parse_http_headers_list _ _ _) as [[good info] hs]. destruct good; cbn [negb]; [|now intros [= _ <-]].
  cbn [a_conn m_stream set_stream]. match goal with |- context [if ?b then _ else _] => replace b with true end.
  2:{ symmetry. apply orb_true_iff. destruct Hs as [H|H]; [left|right]; apply Z.eqb_eq; exact H. }
  destruct (sock_close _) as [ec k']. cbn [a_conn m_stream set_stream set_redirects m_redirects m_max_redirects].
  rewrite wrapu_id by lia. rewrite (proj2 (Z.leb_le _ _)) by lia.
  destruct (Url.from_string _) as [u'|]; [|now intros [= _ <-]]. intros Ha. apply async_open_jar in Ha. now rewrite Ha.
Qed.
