(* ===== verification/HttpAsyncBody.v ===== *)
(** The asynchronous reading of a body in avhttp/impl/http_stream.ipp:
    [async_read_some] and its handlers, in the configuration without zlib.

    As in HttpAsync.v a handler ends by starting an operation, or by calling the
    handler of the user ([Report]); [step] performs the operation on the
    [Network] and calls the bound handler.  A read of size zero ends at once and
    without an error, as Boost.Asio requires of asynchronous streams. *)

From S2P Require Import Prelude CLib EscapeString Settings Cookie HttpParsers HttpBody HttpStream.

(** [ReadCrlf got]: [async_read_some] behind what the array [crlf] has, with
    [handle_skip_crlf]; [ReadSize]: [async_read_until], with
    [handle_chunked_size]; [ReadChunk] and [ReadPlain]: [async_read_some] of so
    many characters, with [handle_async_read] and [handle_read].  [Report] is the
    call of the handler: the count it is given, what is in the buffers of the
    user, the error code. *)
Inductive read_action : Type :=
| ReadCrlf (got : cstring)
| ReadSize
| ReadChunk (max_length : nat)
| ReadPlain (max_length : nat)
| Report (n : nat) (data : cstring) (ec : error_code).

Section AsyncBody.
Context `{N : Network}.
Variable asserts : bool.
(** The total size of the user's buffers. *)
Variable n : nat.

Abbreviation B := (st body fault).

(** How much is read into [m_response]: nothing while it has data. *)
Definition chunk_length (b : body) : nat :=
  if negb (length (m_response b) =? 0)%nat then O
  else Z.to_nat (Z.min (Z.of_nat n) (m_chunked_size b)).

(** The end of a chunked body, on a connection that is closed or kept. *)
Definition end_error (b : body) : error_code := if negb (m_keep_alive b) then Some eof else None.

Definition async_read_chunked : B read_action :=
  b ← st_get;
  if m_chunked_size b =? 0 then
    if negb (m_skip_crlf b) then
      if (0 <? length (m_response b))%nat then
        let got := take 2 (m_response b) in
        st_modify (set_response (drop 2 (m_response b))) ;;
        if (length got =? 1)%nat then mret (ReadCrlf got)
        else if m_is_chunked_end b then mret (Report 0 [] (end_error b))
        else
          boost_assert asserts (length got =? 2)%nat ;;
          boost_assert asserts (str_eqb got crlf) ;;
          if negb (str_eqb got crlf) then mret (Report 0 [] (Some invalid_chunked_encoding))
          else mret ReadSize
      else mret (ReadCrlf [])
    else mret ReadSize
  else mret (ReadChunk (chunk_length b)).

(** [async_read_some(buffers, handler)].  A negative length makes
    [m_response.prepare] throw. *)
Definition async_read_some : B read_action :=
  b ← st_get;
  if m_is_chunked b then async_read_chunked
  else if (0 <? length (m_response b))%nat then
    '(k, d, ec) ← read_some asserts 0 n None;
    mret (Report k d ec)
  else if m_keep_alive b
          && negb (m_content_length b =? -1) && (m_body_size b =? wrapu 64 (m_content_length b))
  then mret (Report 0 [] None)
  else
    let max_length := Z.min (Z.of_nat n) (if m_content_length b =? -1 then 1024 else m_content_length b) in
    if max_length <? 0 then st_fail Thrown else mret (ReadPlain (Z.to_nat max_length)).

(** [m_response.commit], of what the operation read. *)
Definition commit (d : cstring) : B () := st_modify (fun b => set_response (m_response b ++ d) b).

Definition handle_read (d : cstring) (ec : error_code) : B read_action :=
  b ← st_get;
  if bool_decide (ec = None) || (0 <? length (m_response b))%nat then
    commit d ;;
    b ← st_get;
    if (length d =? 0)%nat && (length (m_response b) =? 0)%nat then mret (Report (length d) [] ec)
    else
      '(x, err) ← read_some_impl n;
      boost_assert asserts (bool_decide (err = None)) ;;
      st_modify (fun b => set_body_size (wrapu 64 (m_body_size b + Z.of_nat (length x))) b) ;;
      mret (Report (length x) x ec)
  else mret (Report (length d) [] ec).

(** [crlf] is what the array of two characters, cleared before, has now. *)
Definition handle_skip_crlf (got : cstring) (ec : error_code) (bytes_transferred : nat) : B read_action :=
  match ec with
  | Some _ => mret (Report bytes_transferred [] ec)
  | None =>
      b ← st_get;
      if m_is_chunked_end b then mret (Report bytes_transferred [] (end_error b))
      else
        let array := take 2 (got ++ [NUL; NUL]) in
        boost_assert asserts (str_eqb array crlf) ;;
        if negb (str_eqb array crlf) then mret (Report bytes_transferred [] (Some invalid_chunked_encoding))
        else mret ReadSize
  end.

Definition handle_async_read (d : cstring) (ec : error_code) : B read_action :=
  b ← st_get;
  if bool_decide (ec = None) || (0 <? length (m_response b))%nat then
    commit d ;;
    b ← st_get;
    '(x, err) ← read_some_impl (Z.to_nat (Z.min (Z.of_nat n) (m_chunked_size b)));
    st_modify (fun b => set_chunked_size (wrapu 64 (m_chunked_size b - Z.of_nat (length x))) b) ;;
    mret (Report (length x) x err)
  else mret (Report (length d) [] ec).

(** [while (!err && m_response.size() > 0)]. *)
Fixpoint size_loop (fuel : nat) (line : cstring) (err : error_code) : B (cstring * error_code) :=
  match fuel with
  | O => st_fail Hang
  | S f =>
      b ← st_get;
      if bool_decide (err = None) && (0 <? length (m_response b))%nat then
        '(d, err) ← read_some_impl 1;
        if (length d =? 1)%nat then
          if ends_with_crlf (line ++ d) then mret (line ++ d, err) else size_loop f (line ++ d) err
        else size_loop f line err
      else mret (line, err)
  end.

Definition handle_chunked_size (ec : error_code) : B read_action :=
  match ec with
  | Some _ => mret (Report 0 [] ec)
  | None =>
      b ← st_get;
      '(line, err) ← size_loop (S (length (m_response b))) [] None;
      boost_assert asserts (bool_decide (err = None)) ;;
      st_modify (set_chunked_size (extract_hex line)) ;;
      st_modify (set_skip_crlf false) ;;
      b ← st_get;
      if negb (m_chunked_size b =? 0) then mret (ReadChunk (chunk_length b))
      else st_modify (set_chunked_end true) ;; mret (Report 0 [] (end_error b))
  end.

(** ** Running *)

(** [m_sock.async_read_some] with a buffer of this size. *)
Definition read_op (m : nat) : B (cstring * error_code) :=
  if (m =? 0)%nat then mret ([], None)
  else
    b ← st_get;
    let '(d, ec, s) := sock_read_some m (m_sock b) in
    st_modify (set_sock s) ;; mret (d, ec).

Definition read_until_op : B error_code :=
  b ← st_get;
  let '(_, ec, buf, s) := read_until_crlf (m_response b) (m_sock b) in
  st_modify (fun b => set_sock s (set_response buf b)) ;; mret ec.

Definition read_step (a : read_action) : B read_action :=
  match a with
  | ReadCrlf got => '(d, ec) ← read_op (2 - length got); handle_skip_crlf (got ++ d) ec (length d)
  | ReadSize => ec ← read_until_op; handle_chunked_size ec
  | ReadChunk m => '(d, ec) ← read_op m; handle_async_read d ec
  | ReadPlain m => '(d, ec) ← read_op m; handle_read d ec
  | Report _ _ _ => mret a
  end.

Fixpoint run_read (fuel : nat) (a : read_action) : B (nat * cstring * error_code) :=
  match a with
  | Report k d ec => mret (k, d, ec)
  | _ => match fuel with O => st_fail Hang | S f => a' ← read_step a; run_read f a' end
  end.

(** A call has at most three operations: the line break, the size, the data. *)
Definition async_read : B (nat * cstring * error_code) := a ← async_read_some; run_read 3 a.
End AsyncBody.

(** The loop of a client, as [read_all]. *)
Fixpoint async_read_all `{Network} (asserts : bool) (calls n : nat) : st body fault (cstring * error_code) :=
  match calls with
  | O => st_fail Hang
  | S k =>
      '(m, d, ec) ← async_read asserts n;
      if (m =? 0)%nat || bool_decide (ec <> None) then mret (d, ec)
      else '(t, ec) ← async_read_all asserts k n; mret (d ++ t, ec)
  end.

(** ** Lemmas *)

Section Facts.
Context `{L : NetworkLaws}.
Variable asserts : bool.
Variable fuel n : nat.
Hypothesis n_pos : (0 < n)%nat.

(** The network gives the first half of a line break only. *)
Definition splits_crlf : Prop :=
  exists s s' rest, incoming s = crlf ++ rest /\ sock_read_some 2 s = ([CR], None, s').

Lemma size_loop_ok line : forall f pre b more,
  (S (S (length line)) <= f)%nat -> free_of [LF] line -> m_response b = line ++ crlf ++ more ->
  size_loop f pre None b = Ok ((pre ++ line ++ crlf, None), set_response more b).
Proof.
  assert (forall b c r, m_response b = c :: r ->
            read_some_impl 1 b = Ok (([c], None), set_response r b)) as Hone
    by (intros b c r E; unfold read_some_impl; run; rewrite E; reflexivity).
  induction line as [|c line IH]; intros f pre b more Hf Hl Hr; destruct f as [|f]; try (cbn in Hf; lia).
  - destruct f as [|f]; [cbn in Hf; lia|]. cbn [size_loop]. run. rewrite Hr. cbn [app crlf length Nat.ltb Nat.leb].
    rewrite bool_decide_eq_true_2 by reflexivity. cbn [andb]. rewrite (Hone b CR (LF :: more)) by exact Hr.
    cbn [length Nat.eqb]. rewrite ends_with_crlf_lf by reflexivity. run. cbn [m_response set_response length Nat.ltb Nat.leb andb].
    rewrite bool_decide_eq_true_2 by reflexivity. cbn [andb]. rewrite (Hone _ LF more) by reflexivity. cbn [length Nat.eqb]. rewrite <- app_assoc.
    change ([CR] ++ [LF]) with crlf. rewrite ends_with_crlf_end. reflexivity.
  - inversion_clear Hl as [|? ? Hc Hl']. cbn [app] in Hr. cbn [size_loop]. run. rewrite Hr. cbn [length Nat.ltb Nat.leb].
    rewrite bool_decide_eq_true_2 by reflexivity. cbn [andb]. rewrite (Hone b c (line ++ crlf ++ more)) by exact Hr.
    cbn [length Nat.eqb].
    rewrite ends_with_crlf_lf by (unfold mem_char in Hc; cbn [existsb] in Hc; now rewrite orb_false_r in Hc).
    rewrite (IH f (pre ++ [c]) (set_response (line ++ crlf ++ more) b) more); [|cbn in Hf; lia|exact Hl'|reflexivity].
    now rewrite <- app_assoc.
Qed.

(** The line with the size. *)
Lemma size_step b line rest f :
  free_of [LF] line -> input b = line ++ crlf ++ rest ->
  exists r s, r ++ incoming s = rest
  /\ run_read asserts n (S f) ReadSize b
     = (b ← st_get;
        if negb (m_chunked_size b =? 0) then run_read asserts n f (ReadChunk (chunk_length n b))
        else st_modify (set_chunked_end true) ;; mret (O, [], end_error b))
         (set_skip_crlf false (set_chunked_size (extract_hex (line ++ crlf)) (set_input r s b))).
Proof.
  intros Hl Hi. pose proof (crlf_end_line line rest Hl) as He. unfold input in Hi. rewrite <- Hi in He.
  destruct (read_until_found _ _ _ He) as (buf & s & E & Hb & Hn). rewrite Hi in Hb.
  rewrite app_assoc in Hb. destruct (app_split buf (incoming s) (line ++ crlf) rest Hb) as (more & -> & Hm);
    [rewrite length_app; cbn; lia|].
  exists more, s. split; [exact Hm|]. cbn [run_read read_step]. unfold read_until_op. run. rewrite E.
  unfold handle_chunked_size. run.
  rewrite <- app_assoc. rewrite (size_loop_ok line _ _ _ more); [|cbn; rewrite !length_app; cbn; lia|exact Hl|reflexivity].
  cbn [app]. rewrite bool_decide_eq_true_2 by reflexivity. unfold boost_assert. rewrite andb_false_r. run.
  change (set_response more (set_sock s (set_response (line ++ crlf ++ more) b))) with (set_input more s b).
  destruct (m_chunked_size _ =? 0) eqn:Ez; cbn [negb]; [|reflexivity]. now destruct f.
Qed.

(** The data of a chunk. *)
Lemma handle_async_read_chunk d b :
  m_chunked_size b <> 0 ->
  handle_async_read n d None b
  = match read_some_chunked asserts fuel n None (set_response (m_response b ++ d) b) with
    | Ok ((k, x, ec), b') => Ok (Report k x ec, b')
    | Err e => Err e
    end.
Proof.
  intros Hz. set (b1 := set_response (m_response b ++ d) b). assert ((m_chunked_size b1 =? 0) = false) as Hz1 by now apply Z.eqb_neq.
  unfold handle_async_read, commit, read_some_chunked. run. fold b1.
  rewrite bool_decide_eq_true_2 by reflexivity. cbn [orb]. rewrite Hz1. rewrite Hz1. cbn [negb].
  now destruct (read_some_impl _ _) as [[[x err] b']|].
Qed.

Lemma serves_input k b t rest r s :
  serves fuel k b t rest -> r ++ incoming s = input b -> serves fuel k (set_input r s b) t rest.
Proof.
  intros (Hc & He & Hk & cs & last & d & H1 & H2 & H3 & H4 & H5 & H6 & Hi) E. do 3 (split; [assumption|]).
  exists cs, last, d. do 6 (split; [assumption|]). exact (eq_trans E Hi).
Qed.

Lemma chunk_step k b t rest f :
  serves fuel k b t rest -> m_chunked_size b <> 0 ->
  exists d b', run_read asserts n (S f) (ReadChunk (chunk_length n b)) b = Ok ((length d, d, None), b')
    /\ d <> [] /\ (length d <= n)%nat /\ exists t', t = d ++ t' /\ serves fuel k b' t' rest.
Proof.
  intros HS Hz.
  assert (exists d0 b0, read_op (chunk_length n b) b = Ok ((d0, None), b0) /\ m_chunked_size b0 <> 0
          /\ serves fuel k (set_response (m_response b0 ++ d0) b0) t rest) as (d0 & b0 & E & Hz0 & HS0).
  { unfold read_op, chunk_length. destruct (m_response b) as [|c r] eqn:Er; cbn [length Nat.eqb negb].
    - assert (0 < m_chunked_size b) as Hp by (destruct HS as (_ & _ & _ & ? & ? & ? & _ & _ & _ & ? & _); lia).
      destruct (read_some_data (Z.to_nat (Z.min (Z.of_nat n) (m_chunked_size b))) (m_sock b)) as (d & s & E & _ & _ & Hs);
        [lia| |].
      + destruct HS as (_ & _ & _ & cs & last & d & _ & _ & _ & Hd & _ & _ & Hi). unfold input in Hi. rewrite Er in Hi.
        cbn [app] in Hi. rewrite Hi. destruct d; [cbn in Hd; lia|discriminate].
      + rewrite (proj2 (Nat.eqb_neq _ _)) by lia. run. rewrite E. exists d, (set_sock s b). split; [reflexivity|].
        split; [exact Hz|]. cbn [m_response set_sock]. rewrite Er. cbn [app].
        replace (set_response d (set_sock s b)) with (set_input d s b) by reflexivity.
        apply serves_input; [exact HS|]. unfold input. now rewrite Er, Hs.
    - exists [], b. split; [reflexivity|]. split; [exact Hz|]. rewrite app_nil_r.
      replace (set_response (m_response b) b) with b by now destruct b. exact HS. }
  cbn [run_read read_step]. run. rewrite E. rewrite handle_async_read_chunk by exact Hz0.
  destruct (read_in_chunk asserts fuel k _ t rest n HS0 Hz0 n_pos) as (d & b' & -> & H). exists d, b'.
  split; [now destruct f|exact H].
Qed.

(** What a call does when the network splits a line break. *)
Definition fails (b : body) : Prop :=
  if asserts then async_read asserts n b = Err AssertFailed
  else exists b', async_read asserts n b = Ok ((1%nat, [], Some invalid_chunked_encoding), b').

(** The line break behind the data of a chunk. *)
Lemma skip_step b rest :
  m_is_chunked b = true -> m_is_chunked_end b = false -> m_chunked_size b = 0 -> m_skip_crlf b = false ->
  input b = crlf ++ rest ->
  (exists r s f, r ++ incoming s = rest /\ async_read asserts n b = run_read asserts n (S (S f)) ReadSize (set_input r s b))
  \/ (splits_crlf /\ fails b).
Proof.
  intros Hc He Hz Hs Hi. unfold input in Hi.
  destruct (m_response b) as [|x [|y r]] eqn:Er; cbn [app] in Hi.
  - destruct (read_some_data 2 (m_sock b)) as (d & s & E & Hd & Hl & Hr); [lia|now rewrite Hi|]. rewrite Hi in Hr.
    assert (async_read asserts n b = (a ← handle_skip_crlf asserts d None (length d); run_read asserts n 2 a) (set_sock s b)) as Ea.
    { unfold async_read, async_read_some, async_read_chunked. run. rewrite Hc, Hz, Hs, Er. cbn [Z.eqb negb length Nat.ltb Nat.leb].
      cbn [run_read read_step length Nat.sub]. unfold read_op. cbn [Nat.eqb]. run. now rewrite E. }
    unfold handle_skip_crlf in Ea. revert Ea. run. cbn [m_is_chunked_end set_sock]. change (m_is_chunked_end (set_sock s b)) with (m_is_chunked_end b).
    rewrite He. destruct d as [|a [|a' [|]]]; cbn [length] in Hl; [congruence| | |lia]; intros Ea.
    + right. injection Hr as <- Hr. split; [now exists (m_sock b), s, rest|]. unfold fails. rewrite Ea.
      unfold boost_assert. destruct asserts; [reflexivity|]. eexists. reflexivity.
    + left. injection Hr as <- <- Hr. exists [], s, O. split; [now symmetry|]. rewrite Ea.
      unfold boost_assert. change (str_eqb _ _) with true. rewrite andb_false_r. cbn [negb]. run.
      replace (set_input [] s b) with (set_sock s b); [reflexivity|]. unfold set_input. destruct b; cbn in *; now subst.
  - injection Hi as -> Hi. destruct (read_some_data 1 (m_sock b)) as (d & s & E & Hd & Hl & Hr); [lia|now rewrite Hi|].
    rewrite Hi in Hr. destruct d as [|a [|]]; cbn [length] in Hl; [congruence| |lia]. injection Hr as <- Hr.
    left. exists [], s, O. split; [now symmetry|].
    unfold async_read, async_read_some, async_read_chunked. run. rewrite Hc, Hz, Hs, Er.
    cbn [Z.eqb negb length Nat.ltb Nat.leb take drop Nat.eqb run_read read_step length Nat.sub]. unfold read_op. cbn [Nat.eqb]. run.
    change (m_sock (set_response [] b)) with (m_sock b). rewrite E. unfold handle_skip_crlf. run.
    change (m_is_chunked_end _) with (m_is_chunked_end b). rewrite He. unfold boost_assert.
    change (str_eqb _ _) with true. rewrite andb_false_r. cbn [negb]. reflexivity.
  - injection Hi as -> -> Hi. left. exists r, (m_sock b), 1%nat. split; [exact Hi|].
    unfold async_read, async_read_some, async_read_chunked. run. rewrite Hc, Hz, Hs, Er, He.
    cbn [Z.eqb negb length Nat.ltb Nat.leb take drop firstn skipn Nat.eqb]. unfold boost_assert.
    rewrite andb_false_r. change (str_eqb _ _) with true. rewrite andb_false_r. cbn [negb]. reflexivity.
Qed.

(** The head of a chunk, with what the call does behind it. *)
Lemma head_step k b t rest :
  serves fuel k b t rest -> m_chunked_size b = 0 ->
  (exists b' f, behind_head fuel k b' t rest
     /\ async_read asserts n b
        = (b ← st_get;
           if negb (m_chunked_size b =? 0) then run_read asserts n (S f) (ReadChunk (chunk_length n b))
           else st_modify (set_chunked_end true) ;; mret (O, [], end_error b)) b')
  \/ (splits_crlf /\ fails b).
Proof.
  intros HS Hz. destruct (next_head fuel k b t rest HS Hz) as (line & rest' & Hi & Hl & _ & H).
  destruct HS as (Hc & He & _). destruct (m_skip_crlf b) eqn:Hs.
  - left. destruct (size_step b line rest' 2 Hl Hi) as (r & s & Hr & E).
    eexists _, 1%nat. split; [exact (H r s Hr)|]. rewrite <- E.
    unfold async_read, async_read_some, async_read_chunked. run. now rewrite Hc, Hz, Hs.
  - destruct (skip_step b (line ++ crlf ++ rest') Hc He Hz Hs Hi) as [(r & s & f & Hr & E)|]; [left|now right].
    destruct (size_step (set_input r s b) line rest' (S f) Hl) as (r' & s' & Hr' & E'); [exact Hr|].
    eexists _, f. split; [exact (H r' s' Hr')|]. now rewrite E, E', set_input_input.
Qed.

(** A call inside the body. *)
Lemma async_call k b t rest :
  serves fuel k b t rest -> t <> [] ->
  (exists d b', async_read asserts n b = Ok ((length d, d, None), b') /\ d <> []
     /\ exists t', t = d ++ t' /\ serves fuel k b' t' rest)
  \/ (splits_crlf /\ fails b).
Proof.
  intros HS Ht. destruct (Z.eq_dec (m_chunked_size b) 0) as [Hz|Hz].
  - destruct (head_step k b t rest HS Hz) as [(b1 & f & [_ H] & E)|]; [left|now right].
    rewrite bool_decide_eq_false_2 in H by exact Ht. destruct H as [Hz1 HS1].
    destruct (chunk_step k b1 t rest f HS1 Hz1) as (d & b' & E' & Hd & _ & Hr). exists d, b'.
    split; [|auto]. rewrite E. run. now rewrite (proj2 (Z.eqb_neq _ _) Hz1).
  - left. destruct (chunk_step k b t rest 2 HS Hz) as (d & b' & E & Hd & _ & Hr). exists d, b'. split; [|auto].
    destruct HS as (Hc & _). unfold async_read, async_read_some, async_read_chunked. run.
    now rewrite Hc, (proj2 (Z.eqb_neq _ _) Hz).
Qed.

(** The call that finds the end. *)
Lemma async_end k b rest :
  serves fuel k b [] rest ->
  (exists b', async_read asserts n b = Ok ((O, [], if k then None else Some eof), b')
     /\ m_is_chunked b' = true /\ m_is_chunked_end b' = true /\ m_chunked_size b' = 0
     /\ m_skip_crlf b' = false /\ m_keep_alive b' = k /\ input b' = rest)
  \/ (splits_crlf /\ fails b).
Proof.
  intros HS. assert (m_chunked_size b = 0) as Hz.
  { destruct HS as (_ & _ & _ & cs & last & d & _ & _ & Ht & Hs & _). symmetry in Ht. now apply app_eq_nil in Ht as [-> _]. }
  destruct (head_step k b [] rest HS Hz) as [(b1 & f & [Hs H] & E)|]; [left|now right].
  rewrite bool_decide_eq_true_2 in H by reflexivity. destruct H as (Hz1 & Hc1 & Hk1 & Hi1).
  rewrite E. run. rewrite Hz1. cbn [Z.eqb negb]. unfold end_error. rewrite Hk1.
  eexists. split; [now destruct k|]. repeat split; auto.
Qed.
(** What all calls together do then. *)
Definition all_fail (calls : nat) (b : body) (t : cstring) : Prop :=
  if asserts then async_read_all asserts calls n b = Err AssertFailed
  else exists p t' b', t = p ++ t' /\ async_read_all asserts calls n b = Ok ((p, Some invalid_chunked_encoding), b').

Lemma all_fail_first calls b t : fails b -> all_fail (S calls) b t.
Proof.
  unfold fails, all_fail. cbn [async_read_all]. run. destruct asserts; [now intros ->|].
  intros (b' & ->). exists [], t, b'. split; [reflexivity|]. now destruct (1 =? 0)%nat.
Qed.

Lemma async_read_all_step calls b d b' :
  async_read asserts n b = Ok ((length d, d, None), b') -> d <> [] ->
  async_read_all asserts (S calls) n b
  = match async_read_all asserts calls n b' with Ok ((t, ec), b2) => Ok ((d ++ t, ec), b2) | Err e => Err e end.
Proof.
  intros E Hd. cbn [async_read_all]. run. rewrite E.
  assert (length d <> 0)%nat as Hne by (destruct d; [congruence|discriminate]).
  rewrite (proj2 (Nat.eqb_neq _ _) Hne), bool_decide_eq_false_2 by tauto. cbn [orb].
  now destruct (async_read_all _ _ _ _) as [[[t ec] b2]|].
Qed.

Lemma async_all_serves calls : forall k b t rest,
  (length t < calls)%nat -> serves fuel k b t rest ->
  (exists b', async_read_all asserts calls n b = Ok ((t, if k then None else Some eof), b')
     /\ m_is_chunked_end b' = true /\ input b' = rest)
  \/ (splits_crlf /\ all_fail calls b t).
Proof.
  induction calls as [|calls IH]; intros k b t rest Hlen HS; [lia|]. destruct t as [|c t].
  - destruct (async_end k b rest HS) as [(b' & E & _ & He & _ & _ & _ & Hi)|[Hsp Hf]];
      [left|right; split; [exact Hsp|now apply all_fail_first]].
    exists b'. cbn [async_read_all]. run. now rewrite E.
  - destruct (async_call k b (c :: t) rest HS) as [(d & b' & E & Hd & t' & Ht & HS')|[Hsp Hf]];
      [discriminate| |right; split; [exact Hsp|now apply all_fail_first]].
    pose proof (async_read_all_step calls b d b' E Hd) as Es.
    destruct (IH k b' t' rest) as [(b2 & E2 & H2)|[Hsp H2]]; [|exact HS'| |].
    + apply (f_equal length) in Ht. rewrite length_app in Ht. destruct d; [congruence|]. cbn [length] in *. lia.
    + left. exists b2. now rewrite Es, E2, Ht.
    + right. split; [exact Hsp|]. revert H2. unfold all_fail. rewrite Es. destruct asserts; [now intros ->|].
      intros (p & t2 & b2 & -> & ->). exists (d ++ p), t2, b2. split; [now rewrite Ht, app_assoc|reflexivity].
Qed.
End Facts.

(** ** Properties *)

(** A chunked body that is read asynchronously.  On every network, the
    calls deliver a prefix of the data of the chunks, and nothing else.  They
    deliver all of it, with the same code at the end as the synchronous
    functions, unless the network splits the line break behind a chunk: then
    the body is rejected as wrongly encoded, or an assertion fails. *)
Theorem async_chunked_body `{L : NetworkLaws} (asserts : bool) (fuel n calls : nat)
    (cs : list chunk) (last rest : cstring) (b : body) :
  (0 < n)%nat -> (length (chunks_text cs) < calls)%nat ->
  Forall (wf_chunk fuel) cs -> wf_last fuel last ->
  m_is_chunked b = true -> m_skip_crlf b = true -> m_is_chunked_end b = false -> m_chunked_size b = 0 ->
  input b = chunked cs last ++ rest ->
  (exists b', async_read_all asserts calls n b = Ok ((chunks_text cs, if m_keep_alive b then None else Some eof), b')
     /\ m_is_chunked_end b' = true /\ input b' = rest)
  \/ (splits_crlf
      /\ if asserts then async_read_all asserts calls n b = Err AssertFailed
         else exists p t b', chunks_text cs = p ++ t
              /\ async_read_all asserts calls n b = Ok ((p, Some invalid_chunked_encoding), b')).
Proof.
  intros Hn Hcalls Hcs Hl Hc Hs He Hz Hi. apply (async_all_serves asserts fuel n Hn); [exact Hcalls|].
  split; [exact Hc|]. split; [exact He|]. split; [reflexivity|]. exists cs, last, []. rewrite Hs.
  split; [exact Hcs|]. split; [exact Hl|]. cbn [app length]. change (Z.of_nat 0) with 0. auto with lia.
Qed.

(** The body of [example_body], in packets that keep the line breaks. *)
Definition example_async_body : body (H := packet_network) :=
  Body packet_network true true true false 0 (-1) 0 ($"5" ++ crlf ++ $"He")
    (example_packet ($"llo" ++ crlf ++ $"7;name=v" ++ crlf ++ $", wor")
     ++ example_packet ($"ld" ++ crlf) ++ example_packet ($"0" ++ crlf ++ crlf)).

Lemma async_chunked_body_witness :
  (exists b', async_read_all true 13 7 example_async_body = Ok (($"Hello, world", None), b')
     /\ m_is_chunked_end b' = true /\ input b' = crlf)
  \/ (splits_crlf (L := packet_network_laws) /\ async_read_all true 13 7 example_async_body = Err AssertFailed).
Proof.
  assert (Forall (wf_chunk 20) example_chunks /\ wf_last 20 ($"0")) as [Hc Hl].
  { repeat constructor; cbn; try lia; discriminate. }
  apply (async_chunked_body true 20 7 13 example_chunks ($"0") crlf example_async_body
           ltac:(lia) ltac:(cbn; lia) Hc Hl); reflexivity.
Defined.

(** A line break that the network splits: the synchronous function reads the
    second half, the asynchronous one rejects the body.  Here [crlf] is what
    follows the data of a chunk, and its halves come in two packets. *)
Theorem async_split_rejected `{L : NetworkLaws} (asserts : bool) (fuel n : nat) (s : sock) (line rest : cstring) (b : body) :
  m_is_chunked b = true -> m_is_chunked_end b = false -> m_chunked_size b = 0 -> m_skip_crlf b = false ->
  m_response b = [] -> sock_read_some 2 (m_sock b) = ([CR], None, s) ->
  incoming (m_sock b) = crlf ++ line ++ crlf ++ rest -> free_of [LF] line -> (S (S (length line)) <= fuel)%nat ->
  fails asserts n b
  /\ exists b', chunk_header asserts fuel None b = Ok (inr None, b') /\ m_chunked_size b' = extract_hex (line ++ crlf).
Proof.
  intros Hc He Hz Hs Hr Es Hi Hl Hf. split.
  - assert (async_read asserts n b = (a ← handle_skip_crlf asserts [CR] None 1; run_read asserts n 2 a) (set_sock s b)) as Ea.
    { unfold async_read, async_read_some, async_read_chunked. run. rewrite Hc, Hz, Hs, Hr. cbn [Z.eqb negb length Nat.ltb Nat.leb].
      cbn [run_read read_step length Nat.sub]. unfold read_op. cbn [Nat.eqb]. run. now rewrite Es. }
    unfold fails. rewrite Ea. unfold handle_skip_crlf, boost_assert. run.
    change (m_is_chunked_end (set_sock s b)) with (m_is_chunked_end b). rewrite He. destruct asserts; [reflexivity|]. eexists. reflexivity.
  - destruct (chunk_header_ok asserts fuel b line rest Hf Hl He) as (r & s' & E & _).
    + unfold input. now rewrite Hr, Hs, Hi.
    + eexists. split; [exact E|reflexivity].
Qed.

Lemma async_split_rejected_witness :
  let b := Body packet_network true true false false 0 (-1) 0 [] (example_packet [CR] ++ example_packet ([LF] ++ $"3" ++ crlf)) in
  fails false 7 b
  /\ exists b', chunk_header false 20 None b = Ok (inr None, b') /\ m_chunked_size b' = 3.
Proof.
  apply (async_split_rejected (L := packet_network_laws) false 20 7 (example_packet ([LF] ++ $"3" ++ crlf)) ($"3") []);
    solve [reflexivity | repeat constructor | cbn; lia].
Defined.

(** After the end of a chunked body, with nothing in the buffer, a call
    reports the characters of the line break it skipped, although no data was
    stored in the buffers of the user; the synchronous function reports none. *)
Theorem async_after_end `{L : NetworkLaws} (asserts : bool) (fuel n : nat) (rest : cstring) (b : body) :
  m_is_chunked b = true -> m_is_chunked_end b = true -> m_chunked_size b = 0 -> m_skip_crlf b = false ->
  m_response b = [] -> incoming (m_sock b) = crlf ++ rest -> (2 <= fuel)%nat ->
  (exists k b', async_read asserts n b = Ok ((k, [], end_error b), b') /\ (1 <= k <= 2)%nat)
  /\ exists b', read_some asserts fuel n None b = Ok ((O, [], end_error b), b').
Proof.
  intros Hc He Hz Hs Hr Hi Hf. split.
  - destruct (read_some_data 2 (m_sock b)) as (d & s & E & Hd & Hl & _); [lia|now rewrite Hi|].
    exists (length d), (set_sock s b). split; [|destruct d; [congruence|cbn [length] in *; lia]].
    unfold async_read, async_read_some, async_read_chunked. run. rewrite Hc, Hz, Hs, Hr. cbn [Z.eqb negb length Nat.ltb Nat.leb].
    cbn [run_read read_step length Nat.sub]. unfold read_op. cbn [Nat.eqb]. run. rewrite E. unfold handle_skip_crlf. run.
    change (m_is_chunked_end (set_sock s b)) with (m_is_chunked_end b). now rewrite He.
  - destruct (read_after_end asserts fuel n b rest Hf Hc He Hz Hs) as (b' & E & _); [unfold input; now rewrite Hr|].
    exists b'. rewrite E. unfold end_error. now destruct (m_keep_alive b).
Qed.

Lemma async_after_end_witness :
  let b := Body packet_network true true false true 0 (-1) 0 [] (example_packet (crlf ++ $"HTTP")) in
  (exists k b', async_read true 7 b = Ok ((k, [], None), b') /\ (1 <= k <= 2)%nat)
  /\ exists b', read_some true 20 7 None b = Ok ((O, [], None), b').
Proof.
  apply (async_after_end (L := packet_network_laws) true 20 7 ($"HTTP")); solve [reflexivity | lia].
Defined.

(** ** Bodies that are not chunked *)

Lemma async_plain_step `{L : NetworkLaws} asserts n b :
  (0 < n)%nat -> m_is_chunked b = false -> m_keep_alive b = false -> m_content_length b = -1 \/ 0 < m_content_length b ->
  exists d b', async_read asserts n b = Ok ((length d, d, if bool_decide (input b = []) then Some eof else None), b')
    /\ (d = [] <-> input b = []) /\ input b = d ++ input b'
    /\ m_is_chunked b' = false /\ m_keep_alive b' = false /\ m_content_length b' = m_content_length b.
Proof.
  intros Hn Hc Hk Hl. destruct (m_response b) as [|c r] eqn:Er.
  2:{ destruct (read_plain_step asserts 0 n b Hn Hc Hk) as (d & r' & s & E & Hd & Hi).
      exists d, (set_body_size (wrapu 64 (m_body_size b + Z.of_nat (length d))) (set_input r' s b)).
      split; [|split; [exact Hd|split; [exact Hi|]]].
      - unfold async_read, async_read_some. run. rewrite Hc, Er. cbn [length Nat.ltb Nat.leb]. rewrite E. reflexivity.
      - now repeat split. }
  set (max_length := Z.min (Z.of_nat n) (if m_content_length b =? -1 then 1024 else m_content_length b)).
  assert (0 < max_length <= Z.of_nat n) as Hm by (subst max_length; destruct (m_content_length b =? -1) eqn:E; zbool).
  assert (async_read asserts n b = (a ← read_step asserts n (ReadPlain (Z.to_nat max_length)); run_read asserts n 2 a) b) as ->.
  { unfold async_read, async_read_some. run. rewrite Hc, Er, Hk. cbn [length Nat.ltb Nat.leb andb]. fold max_length.
    now replace (max_length <? 0) with false by lia. }
  assert (input b = incoming (m_sock b)) as Hi by (unfold input; now rewrite Er).
  rewrite Hi. cbn [read_step]. unfold read_op. replace (Z.to_nat max_length =? 0)%nat with false by (symmetry; apply Nat.eqb_neq; lia).
  run. destruct (decide (incoming (m_sock b) = [])) as [E|E].
  - destruct (read_some_eof (Z.to_nat max_length) (m_sock b)) as (s & Es & Hs); [lia|exact E|]. rewrite Es.
    unfold handle_read. run. rewrite bool_decide_eq_false_2 by discriminate.
    change (m_response (set_sock s b)) with (m_response b). rewrite Er. cbn [length Nat.ltb Nat.leb orb].
    rewrite bool_decide_eq_true_2 by exact E. exists [], (set_sock s b). split; [reflexivity|].
    split; [tauto|]. split; [unfold input; cbn; now rewrite Er, Hs, E|now repeat split].
  - destruct (read_some_data (Z.to_nat max_length) (m_sock b)) as (d & s & Es & Hd & Hdl & Hs); [lia|exact E|]. rewrite Es.
    assert (length d <> 0)%nat as Hne by (destruct d; [congruence|discriminate]).
    set (b1 := set_response (m_response (set_sock s b) ++ d) (set_sock s b)).
    assert (m_response b1 = d) as R1 by (unfold b1; cbn; now rewrite Er).
    assert (read_some_impl n b1 = Ok ((d, None), set_response [] b1)) as E1.
    { unfold read_some_impl. run. rewrite R1, (proj2 (Nat.ltb_lt 0 (length d))) by lia.
      now rewrite take_ge, drop_ge by lia. }
    unfold handle_read, commit, boost_assert. run. rewrite bool_decide_eq_true_2 by reflexivity. cbn [orb]. fold b1.
    rewrite R1, (proj2 (Nat.eqb_neq _ _) Hne). cbn [andb]. rewrite E1, bool_decide_eq_true_2 by reflexivity.
    rewrite andb_false_r, bool_decide_eq_false_2 by exact E. exists d. eexists. split; [reflexivity|]. split; [tauto|].
    split; [exact Hs|now repeat split].
Qed.

(** Read asynchronously, a body without chunks on a connection that is closed
    is delivered exactly, with [eof] at its end, as by the synchronous
    functions; its length must not be announced as zero. *)
Theorem async_plain_body `{L : NetworkLaws} (asserts : bool) (fuel n calls : nat) (b : body) :
  (0 < n)%nat -> (length (input b) < calls)%nat -> m_is_chunked b = false -> m_keep_alive b = false ->
  m_content_length b = -1 \/ 0 < m_content_length b ->
  exists b' b2, async_read_all asserts calls n b = Ok ((input b, Some eof), b')
    /\ read_all asserts calls fuel n b = Ok ((input b, Some eof), b2).
Proof.
  intros Hn Hlen Hc Hk Hl. destruct (read_plain_body asserts fuel n calls b Hn Hlen Hc Hk) as (b2 & R).
  assert (exists b', async_read_all asserts calls n b = Ok ((input b, Some eof), b')) as (b' & A); [|eauto].
  clear R b2. revert b Hlen Hc Hk Hl. induction calls as [|calls IH]; intros b Hlen Hc Hk Hl; [lia|].
  destruct (async_plain_step asserts n b Hn Hc Hk Hl) as (d & b' & E & Hd & Hi & Hc' & Hk' & Hl').
  destruct (decide (input b = [])) as [Ei|Ei].
  - rewrite bool_decide_eq_true_2 in E by exact Ei. rewrite Ei in *. assert (d = []) as -> by tauto.
    exists b'. cbn [async_read_all]. run. now rewrite E.
  - rewrite bool_decide_eq_false_2 in E by exact Ei. assert (d <> []) as Hne by tauto.
    rewrite (async_read_all_step asserts n calls b d b' E Hne).
    destruct (IH b') as (b2 & ->); [|exact Hc'|exact Hk'|now rewrite Hl'|].
    + rewrite Hi, length_app in Hlen. destruct d; [congruence|]. cbn [length] in *. lia.
    + exists b2. now rewrite <- Hi.
Qed.

Lemma async_plain_body_witness :
  exists b' b2, async_read_all true 13 4 example_plain = Ok (($"Hello, world", Some eof), b')
    /\ read_all true 13 0 4 example_plain = Ok (($"Hello, world", Some eof), b2).
Proof.
  change ($"Hello, world") with (input example_plain).
  apply (async_plain_body true 0 4 13 example_plain); solve [reflexivity | cbn; lia].
Defined.

(** A response that announces a negative length: the first asynchronous read
    throws, instead of reporting an error. *)
Theorem async_negative_length `{Network} (asserts : bool) (n : nat) (b : body) :
  m_is_chunked b = false -> m_keep_alive b = false -> m_response b = [] -> m_content_length b < -1 ->
  async_read asserts n b = Err Thrown.
Proof.
  intros Hc Hk Hr Hl. unfold async_read, async_read_some. run. rewrite Hc, Hr, Hk. cbn [length Nat.ltb Nat.leb andb].
  rewrite (proj2 (Z.eqb_neq _ _)) by lia. now replace (_ <? 0) with true by lia.
Qed.

Lemma async_negative_length_witness :
  async_read true 7 (Body packet_network false false true false 0 (-5) 0 [] (example_packet ($"x"))) = Err Thrown.
Proof. apply async_negative_length; reflexivity. Defined.
