(* ===== verification/DownloadRange.v ===== *)
(** How multi_download shares a file among its connections: [allocate_range]
    and [default_piece_size] of avhttp/impl/multi_download.ipp.

    A connection asks for a range; [allocate_range] takes it from the gaps of
    [m_rangefield] and marks it there.  The loop of [allocate_range] has no
    bound in the source: it runs on fuel, and [Endless] is the outcome of a
    run that is still going when the fuel is used up. *)

From S2P Require Import Prelude OrdMap Bitfield Rangefield.

(** ** Operations *)

(** [default_piece_size(file_size)]: the loop doubles [i]. *)
Fixpoint piece_size_loop (fuel : nat) (piece_size i : Z) : Z :=
  match fuel with
  | O => i
  | S fuel' =>
      if i <? 16 * 1024 * 1024 then
        if i <? piece_size then piece_size_loop fuel' piece_size (wrapu 64 (i * 2)) else i
      else i
  end.

Definition default_piece_size (file_size : Z) : Z :=
  let target_size := 40 * 1024 in
  let piece_size := wrapu 64 (Z.quot file_size (Z.quot target_size 20)) in
  piece_size_loop 11 piece_size (16 * 1024).

Inductive alloc_fault : Type := FieldFault (f : fault) | Endless.

Abbreviation AL := (st rangefield alloc_fault).

(** A call on [m_rangefield]. *)
Definition on_field {A} (m : RF A) : AL A :=
  fun s => match m s with Ok x => Ok x | Err f => Err (FieldFault f) end.

Section Allocate.
Variable asserts : bool.
Variables (request_piece_num piece_size download_point : Z) (abort : bool).

(** The product of two [int]s, stored in a [boost::int64_t]. *)
Definition max_request_bytes : Z := int32 (request_piece_num * piece_size).

(** [if (temp.size() > max_request_bytes) temp.right = temp.left + max_request_bytes]. *)
Definition cut_range (temp : range) : range :=
  if max_request_bytes <? range_length temp
  then Range (left temp) (int64 (left temp + max_request_bytes)) else temp.

(** The [do] loop: [None] for [return false], else the value of [r]. *)
Fixpoint allocate_loop (fuel : nat) (r : range) : AL (option range) :=
  match fuel with
  | O => st_fail Endless
  | S fuel' =>
      o ← on_field (out_space_from download_point);
      match o with
      | None => mret None
      | Some temp =>
          on_field (boost_assert asserts (range_neqb temp r)) ;;
          on_field (boost_assert asserts (0 <=? range_length temp)) ;;
          let temp := cut_range temp in
          b ← on_field (update asserts (left temp) (right temp));
          if (b : bool) then mret (Some temp)
          else if negb abort then allocate_loop fuel' temp else mret (Some temp)
      end
  end.

(** [allocate_range(r)]: the result and the new value of [r]. *)
Definition allocate_range (fuel : nat) (r : range) : AL (bool * range) :=
  o ← allocate_loop fuel r;
  match o with
  | None => mret (false, r)
  | Some t =>
      let t := Range (left t) (int64 (right t - 1)) in
      mret (negb (right t <? left t), t)
  end.
End Allocate.

(** ** Specification *)

(** The positions of a request: both bounds belong to it. *)
Definition in_request (r : range) (x : Z) : bool := (left r <=? x) && (x <=? right r).

(** The range of a connection before it asks for another: never used, or
    allocated before, so that its first position is no longer free. *)
Definition old_range (s : rangefield) (r : range) : Prop :=
  left r = right r \/ covered (m_ranges s) (left r) = true.

(** A range that [allocate_range] may hand out for [point]. *)
Record allocated (point max : Z) (s : rangefield) (r : range) (s' : rangefield) : Prop := {
  al_bounds : 0 <= left r <= right r /\ right r < m_size s;
  al_max : right r - left r + 1 <= max;
  al_fresh : forall x, in_request r x = true -> covered (m_ranges s) x = false;
  al_first : point <= left r /\ (forall x, point <= x < left r -> covered (m_ranges s) x = true)
             \/ (forall x, point <= x < m_size s -> covered (m_ranges s) x = true)
                /\ (forall x, 0 <= x < left r -> covered (m_ranges s) x = true);
  al_wf : wf_rangefield s';
  al_size : m_size s' = m_size s;
  al_covered : forall x, covered (m_ranges s') x = in_request r x || covered (m_ranges s) x
}.

(** ** Lemmas *)

(** Assigning a free left bound adds the interval and forgets nothing. *)
Lemma covered_assign_free l r s x :
  wf_rangefield s -> covered (m_ranges s) l = false ->
  covered (insert_or_assign l r (m_ranges s)) x = covers (l, r) x || covered (m_ranges s) x.
Proof.
  intros W Hl. rewrite covered_assign by apply (wf_sorted _ W). f_equal.
  pose proof (wf_valid _ W) as V. revert Hl. induction V as [|p m Vp V IH]; [reflexivity|].
  unfold covered. cbn [existsb List.filter]. fold (covered m). intros Hl.
  change (existsb (fun p => covers p l) m) with (covered m l) in Hl.
  apply orb_false_iff in Hl as [Hp Hm]. destruct (fst p =? l) eqn:E; cbn [negb existsb].
  - assert (covers p x = false) as ->; [|now apply IH].
    destruct Vp as [Vp|Vp]; unfold covers in *; [lia|subst p; cbn [fst snd] in *; lia].
  - f_equal. now apply IH.
Qed.

Section AllocateFacts.
Variable asserts : bool.
Variables (request_piece_num piece_size point : Z) (abort : bool).
Let max := max_request_bytes request_piece_num piece_size.
Hypothesis max_pos : 0 < max.

(** The gap after it was cut. *)
Lemma cut_range_spec g size :
  0 <= left g < right g -> right g <= size -> size < 2 ^ 62 ->
  exists r', cut_range request_piece_num piece_size g = Range (left g) r'
  /\ left g < r' <= right g /\ r' - left g <= max.
Proof.
  intros Hg Hr Hs. unfold cut_range, range_length. fold max.
  assert (max < 2 ^ 31) as Hm by (apply (wraps_range 32); lia).
  rewrite !int64_id by lia. destruct (max <? _) eqn:E; zbool.
  - eexists. split; [reflexivity|]. lia.
  - exists (right g). destruct g as [a b]; cbn [left right] in *. split; [reflexivity|]. lia.
Qed.

Lemma allocate_loop_run fuel r s :
  wf_rangefield s -> 0 < m_size s < 2 ^ 62 -> 0 <= point -> (asserts = true -> old_range s r) ->
  exists o s', allocate_loop asserts request_piece_num piece_size point abort (S fuel) r s = Ok (o, s')
  /\ match o with
     | None => s' = normalise s /\ forall x, 0 <= x < m_size s -> covered (m_ranges s) x = true
     | Some t => allocated point max s (Range (left t) (right t - 1)) s'
     end.
Proof.
  intros W Hs Hp Hold. destruct (normalise_wf s W) as (N & _ & Sz & _ & C).
  cbn [allocate_loop]. run. unfold on_field at 1. rewrite out_space_from_run by exact W.
  pose proof (out_space_gap point s W ltac:(lia) Hp) as G.
  destruct (pick_gap _ _) as [g|]; [|exists None, (normalise s); auto]. destruct G as (G1 & G2 & G3 & G4 & G5).
  unfold on_field, boost_assert.
  assert (asserts && negb (range_neqb g r) = false) as ->.
  { destruct asserts; [|reflexivity]. unfold range_neqb. cbn [andb].
    destruct ((left g =? left r) && (right g =? right r)) eqn:E; [|reflexivity]. exfalso.
    destruct (Hold eq_refl) as [Ho|Ho]; [lia|]. rewrite <- (proj1 (Z.eqb_eq (left g) (left r))) in Ho by lia.
    rewrite G3 in Ho by lia. discriminate. }
  run. unfold range_length. rewrite int64_id by lia.
  replace (0 <=? _) with true by lia. cbn [negb]. rewrite andb_false_r. run.
  destruct (cut_range_spec g (m_size s) G1 G2 ltac:(lia)) as (r' & -> & R1 & R2). cbn [left right].
  rewrite update_run by apply (wf_unlocked _ N). rewrite Sz.
  replace ((0 <=? left g) && _ && _) with true by lia.
  do 2 eexists. split; [reflexivity|]. cbn [left right].
  assert (forall x, in_request (Range (left g) (r' - 1)) x = covers (left g, r') x) as IR
    by (intros x; unfold in_request, covers; cbn [left right fst snd]; lia).
  constructor; cbn [left right]; try lia; auto.
  - intros x Hx. rewrite IR in Hx. apply G3. unfold covers in Hx. cbn [fst snd] in Hx. lia.
  - rewrite <- Sz. apply wf_assign; auto; lia.
  - intros x. rewrite IR. cbn [m_ranges]. rewrite covered_assign_free; auto; rewrite C; [reflexivity|].
    apply G3. lia.
Qed.
End AllocateFacts.

(** [allocate_range] on a file that is not empty. *)
Lemma allocate_range_run asserts n p point abort fuel r s :
  0 < max_request_bytes n p -> wf_rangefield s -> 0 < m_size s < 2 ^ 62 -> 0 <= point ->
  (asserts = true -> old_range s r) ->
  exists b r' s', allocate_range asserts n p point abort (S fuel) r s = Ok ((b, r'), s')
  /\ if b then allocated point (max_request_bytes n p) s r' s'
     else r' = r /\ s' = normalise s /\ forall x, 0 <= x < m_size s -> covered (m_ranges s) x = true.
Proof.
  intros Hm W Hs Hp Hold.
  destruct (allocate_loop_run asserts n p point abort Hm fuel r s W Hs Hp Hold) as (o & s' & E & Ho).
  unfold allocate_range. run. rewrite E. destruct o as [t|].
  - destruct (al_bounds _ _ _ _ _ Ho) as [B1 B2]. cbn [left right] in *. rewrite int64_id by lia.
    do 3 eexists. split; [reflexivity|]. replace (right t - 1 <? left t) with false by lia. exact Ho.
  - destruct Ho as [-> Hf]. exists false, r, (normalise s). auto.
Qed.

(** Repeated allocation, one call per download point, until a call fails. *)
Fixpoint allocate_many (asserts : bool) (n p : Z) (points : list Z) (r : range) (s : rangefield)
  : result alloc_fault (list range * rangefield) :=
  match points with
  | [] => Ok ([], s)
  | point :: points' =>
      match allocate_range asserts n p point false 1 r s with
      | Err f => Err f
      | Ok ((false, _), s') => Ok ([], s')
      | Ok ((true, r'), s') =>
          match allocate_many asserts n p points' r' s' with
          | Ok (rs, s'') => Ok (r' :: rs, s'')
          | Err f => Err f
          end
      end
  end.

(** How many of the ranges contain a position. *)
Definition requests_of (x : Z) (rs : list range) : nat :=
  length (List.filter (fun r => in_request r x) rs).

(** The free positions below [k]. *)
Fixpoint free_count (cov : Z -> bool) (k : nat) : nat :=
  match k with
  | O => O
  | S k' => (if cov (Z.of_nat k') then 0 else 1) + free_count cov k'
  end.

Lemma free_count_le cov k : (free_count cov k <= k)%nat.
Proof. induction k; cbn; [lia|]. destruct (cov _); lia. Qed.

Lemma free_count_mono cov cov' k :
  (forall x, cov x = true -> cov' x = true) -> (free_count cov' k <= free_count cov k)%nat.
Proof.
  intros H. induction k; cbn; [lia|]. specialize (H (Z.of_nat k)).
  destruct (cov (Z.of_nat k)); [rewrite H by reflexivity|destruct (cov' (Z.of_nat k))]; lia.
Qed.

Lemma free_count_drop cov cov' k y :
  (forall x, cov x = true -> cov' x = true) -> 0 <= y < Z.of_nat k -> cov y = false -> cov' y = true ->
  (free_count cov' k < free_count cov k)%nat.
Proof.
  intros H Hy Hc Hc'. induction k as [|k IH]; [lia|]. cbn.
  destruct (Z.eq_dec y (Z.of_nat k)) as [->|Ne].
  - rewrite Hc, Hc'. pose proof (free_count_mono cov cov' k H). lia.
  - specialize (IH ltac:(lia)). pose proof (H (Z.of_nat k)) as Hk.
    destruct (cov (Z.of_nat k)); [rewrite Hk by reflexivity|destruct (cov' (Z.of_nat k))]; lia.
Qed.

Lemma allocate_many_run asserts n p points : forall r s,
  0 < max_request_bytes n p -> wf_rangefield s -> 0 < m_size s < 2 ^ 62 ->
  Forall (fun q => 0 <= q) points -> old_range s r ->
  exists rs s', allocate_many asserts n p points r s = Ok (rs, s')
  /\ wf_rangefield s' /\ m_size s' = m_size s
  /\ Forall (fun r => 0 <= left r <= right r /\ right r < m_size s
                      /\ right r - left r + 1 <= max_request_bytes n p) rs
  /\ (forall x, 0 <= x < m_size s ->
        requests_of x rs = if covered (m_ranges s') x && negb (covered (m_ranges s) x) then 1%nat else 0%nat)
  /\ (forall x, covered (m_ranges s) x = true -> covered (m_ranges s') x = true)
  /\ ((free_count (covered (m_ranges s)) (Z.to_nat (m_size s)) < length points)%nat ->
      forall x, 0 <= x < m_size s -> covered (m_ranges s') x = true).
Proof.
  induction points as [|q points IH]; intros r s Hm W Hs Hq Hold; cbn [allocate_many].
  - exists [], s. do 4 (split; [auto|]). split; [|split; [auto|cbn [length]; lia]].
    intros x _. now destruct (covered _ x).
  - inversion Hq as [|? ? Q1 Q2]; subst.
    destruct (allocate_range_run asserts n p q false 0 r s Hm W Hs Q1 (fun _ => Hold)) as (b & r' & s1 & E & Hb).
    rewrite E. destruct b.
    + destruct Hb as [B1 B2 B3 B4 B5 B6 B7].
      destruct (IH r' s1) as (rs & s2 & E2 & W2 & S2 & F2 & C2 & M2 & L2); auto; [lia| |].
      { right. rewrite B7. unfold in_request. lia. }
      rewrite E2. exists (r' :: rs), s2. rewrite B6 in *.
      assert (forall x, covered (m_ranges s) x = true -> covered (m_ranges s1) x = true) as M1
        by (intros x Hx; rewrite B7, Hx; apply orb_true_r).
      split; [reflexivity|]. split; [exact W2|]. split; [lia|]. split; [constructor; [lia|exact F2]|].
      split; [|split; [auto|]].
      * intros x Hx. unfold requests_of in *. cbn [List.filter]. specialize (C2 x Hx).
        rewrite B7 in C2. specialize (M2 x). rewrite B7 in M2. specialize (B3 x).
        destruct (in_request r' x); cbn [length orb] in *.
        -- rewrite C2, B3, M2 by reflexivity. reflexivity.
        -- rewrite C2. reflexivity.
      * intros Hl. apply L2. cbn [length] in Hl.
        enough (free_count (covered (m_ranges s1)) (Z.to_nat (m_size s))
                < free_count (covered (m_ranges s)) (Z.to_nat (m_size s)))%nat by lia.
        apply (free_count_drop _ _ _ (left r')); [auto|lia|apply B3|rewrite B7]; unfold in_request; lia.
    + destruct Hb as (-> & -> & Hf). destruct (normalise_wf s W) as (N & _ & Sz & _ & C).
      exists [], (normalise s). do 4 (split; [auto|]).
      split; [|split; [|intros _]]; intros x Hx; rewrite C; auto. now destruct (covered _ x).
Qed.

(** ** Properties *)

(** [allocate_range] returns, with assertions on or off.  It fails exactly
    when the file is completely allocated, and then changes nothing that can be
    observed; otherwise the range it hands out lies in the file, was free, is
    not longer than [max_request_bytes], starts at the first free position from
    the download point on (or of all, when there is none after it), and is
    from then on allocated, with every other position as before. *)
Theorem allocate_range_correct asserts n p point abort fuel r s :
  0 < max_request_bytes n p -> wf_rangefield s -> 0 < m_size s < 2 ^ 62 -> 0 <= point ->
  (asserts = true -> old_range s r) ->
  exists b r' s', allocate_range asserts n p point abort (S fuel) r s = Ok ((b, r'), s')
  /\ if b then allocated point (max_request_bytes n p) s r' s'
     else r' = r /\ s' = normalise s /\ forall x, 0 <= x < m_size s -> covered (m_ranges s) x = true.
Proof. apply allocate_range_run. Qed.

Lemma allocate_range_correct_witness :
  exists b r' s', allocate_range true 2 16 40 false 1 range_default (rangefield_new 100) = Ok ((b, r'), s')
  /\ b = true /\ r' = Range 40 71 /\ m_ranges s' = [(40, 72)].
Proof.
  destruct (allocate_range_correct true 2 16 40 false 0 range_default (rangefield_new 100))
    as (b & r' & s' & E & _);
    [vm_compute; reflexivity|apply rangefield_new_wf; lia|cbn; lia|lia|left; reflexivity|].
  exists b, r', s'. split; [exact E|]. vm_compute in E. injection E as <- <- <-. auto.
Defined.

(** Every byte of the file is requested, and only once.  However the
    download point moves, as soon as more ranges were asked for than the file
    has free bytes, the whole file is allocated; each free position belongs to
    exactly one of the ranges handed out and the positions allocated before to
    none. *)
Theorem allocate_many_partition asserts n p points s :
  0 < max_request_bytes n p -> wf_rangefield s -> 0 < m_size s < 2 ^ 62 ->
  Forall (fun q => 0 <= q) points -> m_size s < Z.of_nat (length points) ->
  exists rs s', allocate_many asserts n p points range_default s = Ok (rs, s')
  /\ (forall x, 0 <= x < m_size s ->
        covered (m_ranges s') x = true
        /\ requests_of x rs = if covered (m_ranges s) x then 0%nat else 1%nat)
  /\ Forall (fun r => 0 <= left r <= right r /\ right r < m_size s
                      /\ right r - left r + 1 <= max_request_bytes n p) rs.
Proof.
  intros Hm W Hs Hq Hl.
  destruct (allocate_many_run asserts n p points range_default s Hm W Hs Hq) as
    (rs & s' & E & _ & _ & F & C & _ & L); [now left|].
  exists rs, s'. split; [exact E|]. split; [|exact F]. intros x Hx.
  assert (covered (m_ranges s') x = true) as Hc.
  { apply L; [|exact Hx]. pose proof (free_count_le (covered (m_ranges s)) (Z.to_nat (m_size s))). lia. }
  split; [exact Hc|]. rewrite C, Hc by exact Hx. now destruct (covered (m_ranges s) x).
Qed.

Lemma allocate_many_partition_witness :
  exists rs s', allocate_many true 1 4 [7; 7; 0; 3; 9; 0; 0; 0; 0; 0; 0] range_default
                  (Rangefield true 10 [(2, 5)] false) = Ok (rs, s')
  /\ rs = [Range 7 9; Range 0 1; Range 5 6].
Proof.
  destruct (allocate_many_partition true 1 4 [7; 7; 0; 3; 9; 0; 0; 0; 0; 0; 0]
    (Rangefield true 10 [(2, 5)] false)) as (rs & s' & E & _);
    [vm_compute; reflexivity|solve_wf|cbn; lia
    |repeat first [apply List.Forall_cons; [lia|]|apply List.Forall_nil]|cbn; lia|].
  exists rs, s'. split; [exact E|]. vm_compute in E. injection E as <- <-. reflexivity.
Defined.

(** On an empty file the only gap is [0, 0), which [update] refuses: with
    assertions the first one fails, without them the loop never ends until
    [stop] is called. *)
Theorem allocate_range_empty_file n p point fuel :
  0 < max_request_bytes n p -> 0 <= point ->
  allocate_range true n p point false (S fuel) range_default (rangefield_new 0)
    = Err (FieldFault AssertFailed)
  /\ allocate_range false n p point false fuel range_default (rangefield_new 0) = Err Endless
  /\ allocate_range false n p point true (S fuel) range_default (rangefield_new 0)
     = Ok ((false, Range 0 (-1)), rangefield_new 0).
Proof.
  intros Hm Hp.
  assert (out_space_from point (rangefield_new 0) = Ok (Some (Range 0 0), rangefield_new 0)) as O.
  { rewrite out_space_from_run by (apply rangefield_new_wf; lia).
    change (inverse_ranges _ _) with [(0, 0)]. cbn [pick_gap out_space_loop fst snd].
    destruct (0 <=? point) eqn:E1; [|lia]. destruct (point <? 0) eqn:E2; [lia|reflexivity]. }
  assert (cut_range n p (Range 0 0) = Range 0 0) as Cu.
  { unfold cut_range. replace (_ <? _) with false by (change (range_length _) with 1; lia). reflexivity. }
  unfold allocate_range. run. split; [|split].
  - cbn [allocate_loop]. run. unfold on_field. rewrite O. reflexivity.
  - enough (forall r, allocate_loop false n p point false fuel r (rangefield_new 0) = Err Endless) as -> by reflexivity.
    induction fuel as [|fuel IH]; intros r; [reflexivity|].
    cbn [allocate_loop]. run. unfold on_field. rewrite O, Cu. apply IH.
  - cbn [allocate_loop]. run. unfold on_field. rewrite O, Cu. reflexivity.
Qed.

Lemma allocate_range_empty_file_witness :
  allocate_range false 10 16384 0 false 500 range_default (rangefield_new 0) = Err Endless.
Proof. apply (allocate_range_empty_file 10 16384 0 500); [vm_compute; reflexivity|lia]. Defined.

(** The result of doubling from [i]. *)
Lemma piece_size_loop_spec fuel : forall p i,
  0 < i -> i * 2 ^ Z.of_nat fuel < 2 ^ 63 -> 16 * 1024 * 1024 < i * 2 ^ Z.of_nat fuel ->
  exists k, (k <= fuel)%nat /\ piece_size_loop fuel p i = i * 2 ^ Z.of_nat k
  /\ (k = O \/ i * 2 ^ Z.of_nat k < p * 2 /\ i * 2 ^ Z.of_nat k < 32 * 1024 * 1024)
  /\ (p <= piece_size_loop fuel p i \/ 16 * 1024 * 1024 <= piece_size_loop fuel p i).
Proof.
  induction fuel as [|fuel IH]; intros p i Hi Hu Hb.
  - exists O. cbn in *. split; [lia|]. split; [lia|]. split; [now left|]. lia.
  - rewrite Nat2Z.inj_succ, Z.pow_succ_r in Hu, Hb by lia. cbn [piece_size_loop].
    destruct (i <? 16 * 1024 * 1024) eqn:E1; [destruct (i <? p) eqn:E2|]; zbool;
      try (exists O; split; [lia|]; split; [cbn; lia|]; split; [now left|lia]).
    rewrite wrapu_id by lia.
    destruct (IH p (i * 2)) as (k & K1 & K2 & K3 & K4); [lia|lia|lia|].
    exists (S k). rewrite Nat2Z.inj_succ, Z.pow_succ_r by lia.
    split; [lia|]. split; [lia|]. split; [right|exact K4].
    destruct K3 as [->|K3]; [cbn|]; lia.
Qed.

(** The default piece size is a power of two between 16 KiB and 16 MiB,
    the smallest one for which the file has at most about two thousand pieces;
    only a file of more than 32 GiB has more. *)
Theorem default_piece_size_correct file_size :
  0 <= file_size < 2 ^ 63 ->
  let p := default_piece_size file_size in
  (exists k, 0 <= k <= 10 /\ p = 16 * 1024 * 2 ^ k)
  /\ (p = 16 * 1024 \/ p < 2 * (file_size / 2048))
  /\ (file_size / 2048 <= p \/ p = 16 * 1024 * 1024).
Proof.
  intros Hf. unfold default_piece_size. cbv zeta. change (Z.quot (40 * 1024) 20) with 2048.
  rewrite Z.quot_div_nonneg, wrapu_id by zdiv.
  destruct (piece_size_loop_spec 11 (file_size / 2048) (16 * 1024)) as (k & K1 & K2 & K3 & K4);
    [lia|lia|lia|].
  rewrite K2 in *. assert (0 <= Z.of_nat k <= 10) as Hk.
  { split; [lia|]. destruct K3 as [->|[_ K3]]; [lia|].
    destruct (Z.le_gt_cases (Z.of_nat k) 10); [lia|].
    pose proof (Z.pow_le_mono_r 2 11 (Z.of_nat k) ltac:(lia) ltac:(lia)). lia. }
  pose proof (Z.pow_le_mono_r 2 (Z.of_nat k) 10 ltac:(lia) ltac:(lia)).
  split; [exists (Z.of_nat k); lia|]. split; [|lia].
  destruct K3 as [->|K3]; [left; reflexivity|lia].
Qed.

Lemma default_piece_size_correct_witness : default_piece_size (700 * 1024 * 1024) = 512 * 1024.
Proof.
  destruct (default_piece_size_correct (700 * 1024 * 1024) ltac:(lia)) as [(k & Hk & E) _].
  reflexivity.
Defined.
