(* ===== verification/DownloadState.v ===== *)
(** The state of multi_download: the settings, the connections and the members
    of class multi_download (avhttp/multi_download.hpp, avhttp/settings.hpp and
    the nested structures of avhttp/impl/multi_download.ipp).

    The connections are [boost::shared_ptr]s that [m_streams] and the handlers
    of pending operations share: they live in the store [objects], and a
    pointer is an index into it.  The work that the [io_service] still has to
    do is the list [pending]; the files on disk are the function [disk].  The
    handlers run one at a time. *)

From S2P Require Import Prelude CLib OrdMap Url Settings HttpBody HttpStream Bitfield Entry Bencode.
From S2P Require Import Rangefield DownloadRange.

(** ** Settings *)

Definition default_request_piece_num : Z := 10.
Definition default_time_out : Z := 11.
Definition default_connections_limit : Z := 5.
Definition default_buffer_size : Z := 1024.

Record settings : Type := MkSettings {
  download_rate_limit : Z;
  connections_limit : Z;
  piece_size : Z;
  time_out : Z;
  request_piece_num : Z;
  meta_file : cstring;
  allow_use_meta_url : bool;
  disable_multi_download : bool;
  save_path : cstring;
  check_certificate : bool;
  options : opts;
  proxy : proxy_settings
}.

(** The port of a default [proxy_settings] is not initialised, and not read
    while the type is [none]. *)
Definition proxy_default : proxy_settings := Proxy [] 0 [] [] none.

Definition settings_default : settings :=
  MkSettings (-1) default_connections_limit (-1) default_time_out default_request_piece_num
    [] true false [] true new_option proxy_default.

Definition set_download_rate_limit (v : Z) (s : settings) : settings :=
  MkSettings v (connections_limit s) (piece_size s) (time_out s) (request_piece_num s) (meta_file s)
    (allow_use_meta_url s) (disable_multi_download s) (save_path s) (check_certificate s) (options s) (proxy
    s).
Definition set_connections_limit (v : Z) (s : settings) : settings :=
  MkSettings (download_rate_limit s) v (piece_size s) (time_out s) (request_piece_num s) (meta_file s)
    (allow_use_meta_url s) (disable_multi_download s) (save_path s) (check_certificate s) (options s) (proxy
    s).
Definition set_piece_size (v : Z) (s : settings) : settings :=
  MkSettings (download_rate_limit s) (connections_limit s) v (time_out s) (request_piece_num s) (meta_file s)
    (allow_use_meta_url s) (disable_multi_download s) (save_path s) (check_certificate s) (options s) (proxy
    s).
Definition set_meta_file (v : cstring) (s : settings) : settings :=
  MkSettings (download_rate_limit s) (connections_limit s) (piece_size s) (time_out s) (request_piece_num s) v
    (allow_use_meta_url s) (disable_multi_download s) (save_path s) (check_certificate s) (options s) (proxy
    s).
Definition set_check_certificate (v : bool) (s : settings) : settings :=
  MkSettings (download_rate_limit s) (connections_limit s) (piece_size s) (time_out s) (request_piece_num s)
    (meta_file s) (allow_use_meta_url s) (disable_multi_download s) (save_path s) v (options s) (proxy s).

(** ** Connections *)

(** What multi_download uses of an [http_stream]: its configuration and whether
    it was closed.  [next_byte] is the position in the file of the next byte
    that the server sends on it. *)
Record stream : Type := Stream {
  s_proxy : proxy_settings;
  s_request_options : opts;
  s_check_certificate : bool;
  s_max_redirects : Z;
  s_closed : bool;
  next_byte : Z
}.

(** [AVHTTP_MAX_REDIRECTS] is 5. *)
Definition stream_new : stream := Stream proxy_default new_option true 5 false 0.

(** [h.proxy(p); h.request_options(o); h.check_certificate(c)]. *)
Definition configure (s : settings) (o : opts) (h : stream) : stream :=
  Stream (proxy s) o (check_certificate s) (s_max_redirects h) (s_closed h) (next_byte h).
Definition set_max_redirects (n : Z) (h : stream) : stream :=
  Stream (s_proxy h) (s_request_options h) (s_check_certificate h) n (s_closed h) (next_byte h).
Definition close (h : stream) : stream :=
  Stream (s_proxy h) (s_request_options h) (s_check_certificate h) (s_max_redirects h) true (next_byte h).
Definition set_next_byte (n : Z) (h : stream) : stream :=
  Stream (s_proxy h) (s_request_options h) (s_check_certificate h) (s_max_redirects h) (s_closed h) n.

(** [struct http_stream_object]; a [ptime] that was never set is [None]. *)
Record http_stream_object : Type := Obj {
  stream_of : stream;
  request_range : range;
  bytes_transferred : Z;
  bytes_downloaded : Z;
  request_count : Z;
  last_request_time : option Z;
  ec : error_code;
  done : bool;
  direct_reconnect : bool
}.

Definition http_stream_object_new (h : stream) : http_stream_object :=
  Obj h range_default 0 0 0 None None false false.

Definition set_stream_of (v : stream) (s : http_stream_object) : http_stream_object :=
  Obj v (request_range s) (bytes_transferred s) (bytes_downloaded s) (request_count s) (last_request_time s)
    (ec s) (done s) (direct_reconnect s).
Definition set_request_range (v : range) (s : http_stream_object) : http_stream_object :=
  Obj (stream_of s) v (bytes_transferred s) (bytes_downloaded s) (request_count s) (last_request_time s) (ec
    s) (done s) (direct_reconnect s).
Definition set_bytes_transferred (v : Z) (s : http_stream_object) : http_stream_object :=
  Obj (stream_of s) (request_range s) v (bytes_downloaded s) (request_count s) (last_request_time s) (ec s)
    (done s) (direct_reconnect s).
Definition set_bytes_downloaded (v : Z) (s : http_stream_object) : http_stream_object :=
  Obj (stream_of s) (request_range s) (bytes_transferred s) v (request_count s) (last_request_time s) (ec s)
    (done s) (direct_reconnect s).
Definition set_request_count (v : Z) (s : http_stream_object) : http_stream_object :=
  Obj (stream_of s) (request_range s) (bytes_transferred s) (bytes_downloaded s) v (last_request_time s) (ec
    s) (done s) (direct_reconnect s).
Definition set_last_request_time (v : option Z) (s : http_stream_object) : http_stream_object :=
  Obj (stream_of s) (request_range s) (bytes_transferred s) (bytes_downloaded s) (request_count s) v (ec s)
    (done s) (direct_reconnect s).
Definition set_ec (v : error_code) (s : http_stream_object) : http_stream_object :=
  Obj (stream_of s) (request_range s) (bytes_transferred s) (bytes_downloaded s) (request_count s)
    (last_request_time s) v (done s) (direct_reconnect s).
Definition set_done (v : bool) (s : http_stream_object) : http_stream_object :=
  Obj (stream_of s) (request_range s) (bytes_transferred s) (bytes_downloaded s) (request_count s)
    (last_request_time s) (ec s) v (direct_reconnect s).
Definition set_direct_reconnect (v : bool) (s : http_stream_object) : http_stream_object :=
  Obj (stream_of s) (request_range s) (bytes_transferred s) (bytes_downloaded s) (request_count s)
    (last_request_time s) (ec s) (done s) v.

(** [struct byte_rate]. *)
Record byte_rate : Type := ByteRate {
  last_byte_rate : list Z;
  index : Z;
  current_byte_rate : Z
}.

Definition seconds : Z := 5.
Definition byte_rate_new : byte_rate := ByteRate (replicate 5 0) 0 0.

(** ** The object *)

(** The operations that were started and have not called their handler:
    [async_open], [async_read_some] with the size of its buffer and
    [async_request] of the connection with this index and pointer, and the wait
    of the timer, with whether it was cancelled. *)
Inductive operation : Type :=
| Open (i p : nat)
| Read (i p : nat) (available_bytes : Z)
| Request (i p : nat)
| Wait (cancelled : bool).

Record multi_download : Type := MD {
  m_streams : list nat;
  m_final_url : url;
  m_accept_multi : bool;
  m_keep_alive : bool;
  m_file_size : Z;
  m_file_name : cstring;
  m_settings : settings;
  m_byte_rate : byte_rate;
  m_number_of_connections : Z;
  m_time_total : Z;
  m_storage : option cstring;
  m_file_meta : option cstring;
  m_download_point : Z;
  m_rangefield : rangefield;
  m_downlaoded_field : rangefield;
  m_drop_size : Z;
  m_outstanding : Z;
  m_abort : bool;
  objects : list http_stream_object;
  pending : list operation;
  disk : cstring -> option cstring
}.

Definition set_streams (v : list nat) (s : multi_download) : multi_download :=
  MD v (m_final_url s) (m_accept_multi s) (m_keep_alive s) (m_file_size s) (m_file_name s) (m_settings s)
    (m_byte_rate s) (m_number_of_connections s) (m_time_total s) (m_storage s) (m_file_meta s)
    (m_download_point s) (m_rangefield s) (m_downlaoded_field s) (m_drop_size s) (m_outstanding s) (m_abort s)
    (objects s) (pending s) (disk s).
Definition set_final_url (v : url) (s : multi_download) : multi_download :=
  MD (m_streams s) v (m_accept_multi s) (m_keep_alive s) (m_file_size s) (m_file_name s) (m_settings s)
    (m_byte_rate s) (m_number_of_connections s) (m_time_total s) (m_storage s) (m_file_meta s)
    (m_download_point s) (m_rangefield s) (m_downlaoded_field s) (m_drop_size s) (m_outstanding s) (m_abort s)
    (objects s) (pending s) (disk s).
Definition set_accept_multi (v : bool) (s : multi_download) : multi_download :=
  MD (m_streams s) (m_final_url s) v (m_keep_alive s) (m_file_size s) (m_file_name s) (m_settings s)
    (m_byte_rate s) (m_number_of_connections s) (m_time_total s) (m_storage s) (m_file_meta s)
    (m_download_point s) (m_rangefield s) (m_downlaoded_field s) (m_drop_size s) (m_outstanding s) (m_abort s)
    (objects s) (pending s) (disk s).
Definition set_keep_alive (v : bool) (s : multi_download) : multi_download :=
  MD (m_streams s) (m_final_url s) (m_accept_multi s) v (m_file_size s) (m_file_name s) (m_settings s)
    (m_byte_rate s) (m_number_of_connections s) (m_time_total s) (m_storage s) (m_file_meta s)
    (m_download_point s) (m_rangefield s) (m_downlaoded_field s) (m_drop_size s) (m_outstanding s) (m_abort s)
    (objects s) (pending s) (disk s).
Definition set_file_size (v : Z) (s : multi_download) : multi_download :=
  MD (m_streams s) (m_final_url s) (m_accept_multi s) (m_keep_alive s) v (m_file_name s) (m_settings s)
    (m_byte_rate s) (m_number_of_connections s) (m_time_total s) (m_storage s) (m_file_meta s)
    (m_download_point s) (m_rangefield s) (m_downlaoded_field s) (m_drop_size s) (m_outstanding s) (m_abort s)
    (objects s) (pending s) (disk s).
Definition set_file_name (v : cstring) (s : multi_download) : multi_download :=
  MD (m_streams s) (m_final_url s) (m_accept_multi s) (m_keep_alive s) (m_file_size s) v (m_settings s)
    (m_byte_rate s) (m_number_of_connections s) (m_time_total s) (m_storage s) (m_file_meta s)
    (m_download_point s) (m_rangefield s) (m_downlaoded_field s) (m_drop_size s) (m_outstanding s) (m_abort s)
    (objects s) (pending s) (disk s).
Definition set_settings (v : settings) (s : multi_download) : multi_download :=
  MD (m_streams s) (m_final_url s) (m_accept_multi s) (m_keep_alive s) (m_file_size s) (m_file_name s) v
    (m_byte_rate s) (m_number_of_connections s) (m_time_total s) (m_storage s) (m_file_meta s)
    (m_download_point s) (m_rangefield s) (m_downlaoded_field s) (m_drop_size s) (m_outstanding s) (m_abort s)
    (objects s) (pending s) (disk s).
Definition set_byte_rate (v : byte_rate) (s : multi_download) : multi_download :=
  MD (m_streams s) (m_final_url s) (m_accept_multi s) (m_keep_alive s) (m_file_size s) (m_file_name s)
    (m_settings s) v (m_number_of_connections s) (m_time_total s) (m_storage s) (m_file_meta s)
    (m_download_point s) (m_rangefield s) (m_downlaoded_field s) (m_drop_size s) (m_outstanding s) (m_abort s)
    (objects s) (pending s) (disk s).
Definition set_number_of_connections (v : Z) (s : multi_download) : multi_download :=
  MD (m_streams s) (m_final_url s) (m_accept_multi s) (m_keep_alive s) (m_file_size s) (m_file_name s)
    (m_settings s) (m_byte_rate s) v (m_time_total s) (m_storage s) (m_file_meta s) (m_download_point s)
    (m_rangefield s) (m_downlaoded_field s) (m_drop_size s) (m_outstanding s) (m_abort s) (objects s) (pending
    s) (disk s).
Definition set_time_total (v : Z) (s : multi_download) : multi_download :=
  MD (m_streams s) (m_final_url s) (m_accept_multi s) (m_keep_alive s) (m_file_size s) (m_file_name s)
    (m_settings s) (m_byte_rate s) (m_number_of_connections s) v (m_storage s) (m_file_meta s)
    (m_download_point s) (m_rangefield s) (m_downlaoded_field s) (m_drop_size s) (m_outstanding s) (m_abort s)
    (objects s) (pending s) (disk s).
Definition set_storage (v : option cstring) (s : multi_download) : multi_download :=
  MD (m_streams s) (m_final_url s) (m_accept_multi s) (m_keep_alive s) (m_file_size s) (m_file_name s)
    (m_settings s) (m_byte_rate s) (m_number_of_connections s) (m_time_total s) v (m_file_meta s)
    (m_download_point s) (m_rangefield s) (m_downlaoded_field s) (m_drop_size s) (m_outstanding s) (m_abort s)
    (objects s) (pending s) (disk s).
Definition set_file_meta (v : option cstring) (s : multi_download) : multi_download :=
  MD (m_streams s) (m_final_url s) (m_accept_multi s) (m_keep_alive s) (m_file_size s) (m_file_name s)
    (m_settings s) (m_byte_rate s) (m_number_of_connections s) (m_time_total s) (m_storage s) v
    (m_download_point s) (m_rangefield s) (m_downlaoded_field s) (m_drop_size s) (m_outstanding s) (m_abort s)
    (objects s) (pending s) (disk s).
Definition set_download_point (v : Z) (s : multi_download) : multi_download :=
  MD (m_streams s) (m_final_url s) (m_accept_multi s) (m_keep_alive s) (m_file_size s) (m_file_name s)
    (m_settings s) (m_byte_rate s) (m_number_of_connections s) (m_time_total s) (m_storage s) (m_file_meta s)
    v (m_rangefield s) (m_downlaoded_field s) (m_drop_size s) (m_outstanding s) (m_abort s) (objects s)
    (pending s) (disk s).
Definition set_rangefield (v : rangefield) (s : multi_download) : multi_download :=
  MD (m_streams s) (m_final_url s) (m_accept_multi s) (m_keep_alive s) (m_file_size s) (m_file_name s)
    (m_settings s) (m_byte_rate s) (m_number_of_connections s) (m_time_total s) (m_storage s) (m_file_meta s)
    (m_download_point s) v (m_downlaoded_field s) (m_drop_size s) (m_outstanding s) (m_abort s) (objects s)
    (pending s) (disk s).
Definition set_downlaoded_field (v : rangefield) (s : multi_download) : multi_download :=
  MD (m_streams s) (m_final_url s) (m_accept_multi s) (m_keep_alive s) (m_file_size s) (m_file_name s)
    (m_settings s) (m_byte_rate s) (m_number_of_connections s) (m_time_total s) (m_storage s) (m_file_meta s)
    (m_download_point s) (m_rangefield s) v (m_drop_size s) (m_outstanding s) (m_abort s) (objects s) (pending
    s) (disk s).
Definition set_drop_size (v : Z) (s : multi_download) : multi_download :=
  MD (m_streams s) (m_final_url s) (m_accept_multi s) (m_keep_alive s) (m_file_size s) (m_file_name s)
    (m_settings s) (m_byte_rate s) (m_number_of_connections s) (m_time_total s) (m_storage s) (m_file_meta s)
    (m_download_point s) (m_rangefield s) (m_downlaoded_field s) v (m_outstanding s) (m_abort s) (objects s)
    (pending s) (disk s).
Definition set_outstanding (v : Z) (s : multi_download) : multi_download :=
  MD (m_streams s) (m_final_url s) (m_accept_multi s) (m_keep_alive s) (m_file_size s) (m_file_name s)
    (m_settings s) (m_byte_rate s) (m_number_of_connections s) (m_time_total s) (m_storage s) (m_file_meta s)
    (m_download_point s) (m_rangefield s) (m_downlaoded_field s) (m_drop_size s) v (m_abort s) (objects s)
    (pending s) (disk s).
Definition set_abort (v : bool) (s : multi_download) : multi_download :=
  MD (m_streams s) (m_final_url s) (m_accept_multi s) (m_keep_alive s) (m_file_size s) (m_file_name s)
    (m_settings s) (m_byte_rate s) (m_number_of_connections s) (m_time_total s) (m_storage s) (m_file_meta s)
    (m_download_point s) (m_rangefield s) (m_downlaoded_field s) (m_drop_size s) (m_outstanding s) v (objects
    s) (pending s) (disk s).
Definition set_objects (v : list http_stream_object) (s : multi_download) : multi_download :=
  MD (m_streams s) (m_final_url s) (m_accept_multi s) (m_keep_alive s) (m_file_size s) (m_file_name s)
    (m_settings s) (m_byte_rate s) (m_number_of_connections s) (m_time_total s) (m_storage s) (m_file_meta s)
    (m_download_point s) (m_rangefield s) (m_downlaoded_field s) (m_drop_size s) (m_outstanding s) (m_abort s)
    v (pending s) (disk s).
Definition set_pending (v : list operation) (s : multi_download) : multi_download :=
  MD (m_streams s) (m_final_url s) (m_accept_multi s) (m_keep_alive s) (m_file_size s) (m_file_name s)
    (m_settings s) (m_byte_rate s) (m_number_of_connections s) (m_time_total s) (m_storage s) (m_file_meta s)
    (m_download_point s) (m_rangefield s) (m_downlaoded_field s) (m_drop_size s) (m_outstanding s) (m_abort s)
    (objects s) v (disk s).
Definition set_disk (v : cstring -> option cstring) (s : multi_download) : multi_download :=
  MD (m_streams s) (m_final_url s) (m_accept_multi s) (m_keep_alive s) (m_file_size s) (m_file_name s)
    (m_settings s) (m_byte_rate s) (m_number_of_connections s) (m_time_total s) (m_storage s) (m_file_meta s)
    (m_download_point s) (m_rangefield s) (m_downlaoded_field s) (m_drop_size s) (m_outstanding s) (m_abort s)
    (objects s) (pending s) v.

(** The constructor. *)
Definition multi_download_new (files : cstring -> option cstring) : multi_download :=
  MD [] empty_url false false (-1) [] settings_default byte_rate_new 0 0 None None 0
    (rangefield_new 0) (rangefield_new 0) (-1) 0 true [] [] files.

(** What ends a run: a fault of a range field or an endless allocation, an
    exception of [entry], a fault of [bdecode], a URL that cannot be parsed, a
    copy past the end of the bitmap text, a failed assertion, a null pointer. *)
Inductive dl_fault : Type :=
| AllocFault (f : alloc_fault)
| EntryFault (e : entry_error)
| DecodeFault (f : Bencode.fault)
| BadFinalUrl
| MetaOverread
| DownloadAssert
| NoObject.

Abbreviation DL := (st multi_download dl_fault).

(** ** Basic steps *)

(** Calls on the two range fields. *)
Definition on_rangefield {A} (m : AL A) : DL A :=
  s ← st_get;
  match m (m_rangefield s) with
  | Ok (a, f) => st_modify (set_rangefield f) ;; mret a
  | Err e => st_fail (AllocFault e)
  end.
Definition on_downloaded {A} (m : RF A) : DL A :=
  s ← st_get;
  match m (m_downlaoded_field s) with
  | Ok (a, f) => st_modify (set_downlaoded_field f) ;; mret a
  | Err e => st_fail (AllocFault (FieldFault e))
  end.

(** [change_outstranding(addref)]. *)
Definition change_outstranding (addref : bool) : DL () :=
  st_modify (fun s => set_outstanding
    (if addref then int32 (m_outstanding s + 1) else int32 (m_outstanding s - 1)) s).

(** [auto_outstanding ao]: one more while the body runs, on every way out. *)
Definition auto_outstanding {A} (body : DL A) : DL A :=
  change_outstranding true ;; a ← body; change_outstranding false ;; mret a.

(** Reading and writing a connection through its pointer. *)
Definition deref_object (p : nat) : DL http_stream_object :=
  s ← st_get;
  match objects s !! p with Some o => mret o | None => st_fail NoObject end.
Definition modify_object (p : nat) (f : http_stream_object -> http_stream_object) : DL () :=
  st_modify (fun s => set_objects (alter f p (objects s)) s).

(** [boost::make_shared]: the new pointer. *)
Definition make_shared (o : http_stream_object) : DL nat :=
  s ← st_get;
  st_modify (fun s => set_objects (objects s ++ [o]) s) ;;
  mret (length (objects s)).

(** Starting an operation. *)
Definition async (op : operation) : DL () :=
  st_modify (fun s => set_pending (pending s ++ [op]) s).

(** [m_timer.cancel(ignore)]. *)
Definition cancel_wait (op : operation) : operation :=
  match op with Wait _ => Wait true | _ => op end.
Definition cancel_timer : DL () :=
  st_modify (fun s => set_pending (map cancel_wait (pending s)) s).

(** [m_timer.expires_from_now(seconds(1)); m_timer.async_wait(on_tick)]: setting
    the expiry cancels the waits that are pending. *)
Definition restart_timer : DL () := cancel_timer ;; async (Wait false).

(** Storage and files: [write(offset, buf, size)] extends the file as needed. *)
Definition write_at (offset : Z) (data old : cstring) : cstring :=
  match data with
  | [] => old
  | _ =>
      let o := Z.to_nat offset in
      take o old ++ replicate (o - length old) NUL ++ data ++ drop (o + length data) old
  end.

(** [boost::format] with [bytes=%lld-%lld]. *)
Definition range_text (l r : Z) : cstring := $"bytes=" ++ itoa l ++ $"-" ++ itoa r.

(** Projections of updated records. *)
Ltac md_simpl_in H := cbn [
    m_streams m_final_url m_accept_multi m_keep_alive m_file_size m_file_name m_settings m_byte_rate
    m_number_of_connections m_time_total m_storage m_file_meta m_download_point m_rangefield
    m_downlaoded_field m_drop_size m_outstanding m_abort objects pending disk set_streams
    set_final_url set_accept_multi set_keep_alive set_file_size set_file_name set_settings
    set_byte_rate set_number_of_connections set_time_total set_storage set_file_meta
    set_download_point set_rangefield set_downlaoded_field set_drop_size set_outstanding set_abort
    set_objects set_pending set_disk stream_of request_range bytes_transferred bytes_downloaded
    request_count last_request_time ec done direct_reconnect set_stream_of set_request_range
    set_bytes_transferred set_bytes_downloaded set_request_count set_last_request_time set_ec
    set_done set_direct_reconnect] in H.
Ltac md_simpl := cbn [
    m_streams m_final_url m_accept_multi m_keep_alive m_file_size m_file_name m_settings m_byte_rate
    m_number_of_connections m_time_total m_storage m_file_meta m_download_point m_rangefield
    m_downlaoded_field m_drop_size m_outstanding m_abort objects pending disk set_streams
    set_final_url set_accept_multi set_keep_alive set_file_size set_file_name set_settings
    set_byte_rate set_number_of_connections set_time_total set_storage set_file_meta
    set_download_point set_rangefield set_downlaoded_field set_drop_size set_outstanding set_abort
    set_objects set_pending set_disk stream_of request_range bytes_transferred bytes_downloaded
    request_count last_request_time ec done direct_reconnect set_stream_of set_request_range
    set_bytes_transferred set_bytes_downloaded set_request_count set_last_request_time set_ec
    set_done set_direct_reconnect].
