(* ===== verification/DownloadMeta.v ===== *)
(** The meta file of a download: [update_meta] and [open_meta] of
    avhttp/impl/multi_download.ipp.

    The file holds a bencoded dictionary with the final URL, the sizes and the
    bitmap of the complete pieces.  [can_open] tells which files can be opened
    (the mode creates a missing file); [junk] and [junk_int] are the values of
    uninitialised memory. *)

From S2P Require Import Prelude CLib OrdMap Url Settings HttpBody HttpStream Bitfield Entry Bencode.
From S2P Require Import Rangefield DownloadRange DownloadState.

Definition key_final_url : cstring := $"final_url".
Definition key_file_size : cstring := $"file_size".
Definition key_piece_size : cstring := $"piece_size".
Definition key_piece_num : cstring := $"piece_num".
Definition key_bitfield : cstring := $"bitfield".

Definition lift_entry {A} (r : result entry_error A) : DL A :=
  match r with Ok a => mret a | Err e => st_fail (EntryFault e) end.

Section Meta.
Variable asserts : bool.
Variable junk : nat -> Z.
Hypothesis junk_byte : forall n, 0 <= junk n < 256.
Variable junk_int : Z.
Variable can_open : cstring -> bool.

(** [m_file_meta.open(path, file::read_write, ec)]: whether it succeeded. *)
Definition open_file (path : cstring) : DL bool :=
  if can_open path then
    st_modify (fun s => set_file_meta (Some path)
      (set_disk (fun p => if str_eqb p path then Some (default [] (disk s path)) else disk s p) s)) ;;
    mret true
  else mret false.
Definition close_file : DL () := st_modify (set_file_meta None).

(** [e[key].string()] and [e[key].integer()] on an [entry] that is not
    constant: a missing element is inserted and gets the type. *)
Definition field_string (key : cstring) (e : entry) : result entry_error (cstring * entry) :=
  r ← at_key junk_int key e;
  let '(v, e) := r in
  w ← string_mut junk_int v;
  m ← dict e;
  mret (fst w, dictionary_t (insert_or_assign key (snd w) m)).
Definition field_integer (key : cstring) (e : entry) : result entry_error (Z * entry) :=
  r ← at_key junk_int key e;
  let '(v, e) := r in
  w ← integer_mut junk_int v;
  m ← dict e;
  mret (fst w, dictionary_t (insert_or_assign key (snd w) m)).

(** [m_final_url = url]: the assignment parses, and throws on a bad URL. *)
Definition assign_final_url (u : cstring) : DL () :=
  match from_string u with
  | Ok v => st_modify (set_final_url v)
  | Err _ => st_fail BadFinalUrl
  end.

(** [m_file_size = n] with both fields reset. *)
Definition reset_fields (n : Z) : DL () :=
  st_modify (set_file_size n) ;;
  on_rangefield (on_field (reset n)) ;;
  on_downloaded (reset n).

(** [bitfield bf(bitfield_data.c_str(), piece_num)] reads the terminating NUL at most. *)
Definition load_bitfield (data : cstring) (n : Z) : DL bitfield :=
  if (n <? 0) || (Z.of_nat (length data) + 1 <? (n + 7) / 8) then st_fail MetaOverread
  else mret (assign junk (map uchar data ++ [0]) n bitfield_new).

(** The part of [open_meta] that uses the decoded entry. *)
Definition load_meta (e : entry) : DL () :=
  s ← st_get;
  e ← (if allow_use_meta_url (m_settings s) then
         r ← lift_entry (field_string key_final_url e);
         (if nonempty (fst r) then assign_final_url (fst r) else mret ()) ;;
         mret (snd r)
       else mret e);
  r ← lift_entry (field_integer key_file_size e);
  reset_fields (fst r) ;;
  r ← lift_entry (field_integer key_piece_size (snd r));
  st_modify (fun s => set_settings (set_piece_size (int32 (fst r)) (m_settings s)) s) ;;
  r ← lift_entry (field_integer key_piece_num (snd r));
  let piece_num := int32 (fst r) in
  r ← lift_entry (field_string key_bitfield (snd r));
  bf ← load_bitfield (fst r) piece_num;
  s ← st_get;
  on_rangefield (on_field (bitfield_to_range asserts (H := bitfield_BitMap junk junk_byte) bf (piece_size (m_settings s)))) ;;
  on_downloaded (bitfield_to_range asserts (H := bitfield_BitMap junk junk_byte) bf (piece_size (m_settings s))).

Definition open_meta (file_path : cstring) : DL bool :=
  s ← st_get;
  let size := Z.of_nat (length (default [] (disk s file_path))) in
  close_file ;;
  ok ← open_file file_path;
  if negb ok then mret false
  else if size =? 0 then mret true
  else
    s ← st_get;
    e ← (match bdecode asserts (default [] (disk s file_path)) with
         | Ok e => mret e
         | Err f => st_fail (DecodeFault f)
         end : DL entry);
    load_meta e ;;
    mret true.

(** The dictionary that [update_meta] writes. *)
Definition meta_entry (url_text : cstring) (file_size piece_size : Z) (bf : bitfield) : result entry_error entry :=
  e ← assign_key junk_int key_final_url (string_t url_text) undefined_t;
  e ← assign_key junk_int key_file_size (int_t file_size) e;
  e ← assign_key junk_int key_piece_size (int_t piece_size) e;
  e ← assign_key junk_int key_piece_num
        (int_t (int64 (Z.quot file_size piece_size + (if Z.rem file_size piece_size =? 0 then 0 else 1)))) e;
  assign_key junk_int key_bitfield (string_t (map chr (take (Z.to_nat (bytes_size bf)) (buf bf)))) e.

(** [m_file_meta.write(0, &buffer[0], buffer.size())]. *)
Definition write_meta (data : cstring) : DL () :=
  st_modify (fun s =>
    match m_file_meta s with
    | Some path => set_disk (fun p => if str_eqb p path then Some (write_at 0 data (default [] (disk s path)))
                                      else disk s p) s
    | None => s
    end).

Definition update_meta : DL () :=
  s ← st_get;
  is_open ← (match m_file_meta s with Some _ => mret true | None => open_file (meta_file (m_settings s)) end : DL bool);
  if negb is_open then mret ()
  else if piece_size (m_settings s) =? 0 then st_fail (AllocFault (FieldFault DivideByZero))
  else
    bf ← on_downloaded (range_to_bitfield (H := bitfield_BitMap junk junk_byte) bitfield_new (piece_size (m_settings s)));
    e ← lift_entry (meta_entry (to_string all_components (m_final_url s)) (m_file_size s) (piece_size (m_settings s)) bf);
    write_meta (fst (bencode e)).
End Meta.

(** ** Lemmas *)

(** The dictionary, with its keys in order. *)
Definition meta_dict (url_text : cstring) (file_size piece_size piece_num : Z) (data : cstring) : entry :=
  dictionary_t [(key_bitfield, string_t data); (key_file_size, int_t file_size);
                (key_final_url, string_t url_text); (key_piece_num, int_t piece_num);
                (key_piece_size, int_t piece_size)].

Lemma meta_dict_encodable u f p n data :
  Z.of_nat (length u) < 2 ^ 31 -> Z.of_nat (length data) < 2 ^ 31 ->
  INT64_MIN < f <= INT64_MAX -> INT64_MIN < p <= INT64_MAX -> INT64_MIN < n <= INT64_MAX ->
  encodable 0 (meta_dict u f p n data).
Proof.
  intros Hu Hd Hf Hp Hn. constructor; [lia|repeat constructor|].
  repeat first [apply List.Forall_cons | apply List.Forall_nil];
    (split; constructor; cbn [fst snd]; auto; try lia; vm_compute; reflexivity).
Qed.

(** The bytes of a bitmap as text. *)
Definition bitmap_text (bf : bitfield) : cstring := map chr (take (Z.to_nat (bytes_size bf)) (buf bf)).

Lemma bytes_size_eq bf : wf_bitfield bf -> bytes_size bf = (Bitfield.m_size bf + 7) / 8.
Proof.
  intros W. pose proof (wf_size _ W). unfold bytes_size.
  destruct (Bitfield.m_size bf mod 8 =? 0) eqn:E; zdiv.
Qed.

Lemma uchar_bytes l : Forall (fun x => 0 <= x < 256) l -> map uchar (map chr l) = l.
Proof.
  induction 1 as [|x l Hx Hl IH]; [reflexivity|]. cbn [map]. rewrite uchar_chr, Z.mod_small by lia.
  now rewrite IH.
Qed.

Lemma bitmap_text_length bf :
  wf_bitfield bf -> Bitfield.m_size bf < 2 ^ 30 -> Z.of_nat (length (bitmap_text bf)) < 2 ^ 31.
Proof.
  intros W Hb. pose proof (wf_size _ W). unfold bitmap_text. rewrite length_map, length_take, bytes_size_eq by exact W.
  assert ((Bitfield.m_size bf + 7) / 8 < 2 ^ 31) by zdiv. lia.
Qed.

Section MetaFacts.
Variable asserts : bool.
Variable junk : nat -> Z.
Hypothesis junk_byte : forall n, 0 <= junk n < 256.
Variable junk_int : Z.
Variable can_open : cstring -> bool.

(** A bitmap survives the text. *)
Lemma load_bitfield_text bf (s : multi_download) :
  wf_bitfield bf -> Bitfield.m_size bf < 2 ^ 30 ->
  exists bf', load_bitfield junk (bitmap_text bf) (Bitfield.m_size bf) s = Ok (bf', s)
  /\ wf_bitfield bf' /\ bits bf' = bits bf.
Proof.
  intros W Hb. pose proof (wf_size _ W) as Hs. pose proof (wf_length _ W) as Hl.
  pose proof (wf_bytes _ W) as Wb.
  unfold load_bitfield, bitmap_text. rewrite bytes_size_eq, length_map, length_take by exact W.
  assert (0 <= (Bitfield.m_size bf + 7) / 8) as H0 by (apply Z.div_pos; lia).
  rewrite Nat.min_l, Z2Nat.id by lia. replace (_ || _) with false by lia. eexists. split; [reflexivity|].
  rewrite uchar_bytes by now apply Forall_take. now apply assign_bits.
Qed.

(** The object after its meta file was opened, or was open before. *)
Definition meta_opened (s : multi_download) (path : cstring) : Prop :=
  m_file_meta s = Some path \/ m_file_meta s = None /\ meta_file (m_settings s) = path /\ can_open path = true.

(** What [update_meta] writes. *)
Definition meta_text (s : multi_download) (bf : bitfield) : cstring :=
  text (meta_dict (to_string all_components (m_final_url s)) (m_file_size s) (piece_size (m_settings s))
          (piece_num (m_file_size s) (piece_size (m_settings s))) (bitmap_text bf)).

Lemma write_at_start data old : data <> [] -> write_at 0 data old = data ++ drop (length data) old.
Proof. intros H. unfold write_at. destruct data; [congruence|]. reflexivity. Qed.

Lemma text_dict_nonnil m : text (dictionary_t m) <> [].
Proof. rewrite text_dict. discriminate. Qed.

(** [update_meta] changes the disk, the file handle and merges the field. *)
Definition meta_written (f : rangefield) (path : option cstring) (d : cstring -> option cstring)
  (s : multi_download) : multi_download := set_disk d (set_file_meta path (set_downlaoded_field f s)).

Lemma update_meta_run path s :
  wf_rangefield (m_downlaoded_field s) -> m_size (m_downlaoded_field s) = m_file_size s ->
  piece_bounds (m_file_size s) (piece_size (m_settings s)) -> meta_opened s path ->
  exists d bf, update_meta junk junk_byte junk_int can_open s
               = Ok ((), meta_written (normalise (m_downlaoded_field s)) (Some path) d s)
  /\ wf_bitfield bf /\ bits bf = complete_pieces (piece_size (m_settings s)) (m_downlaoded_field s)
  /\ d path = Some (meta_text s bf ++ drop (length (meta_text s bf)) (default [] (disk s path))).
Proof.
  intros W Sz B O. pose proof B as (B1 & B2 & B3 & B4).
  destruct (range_to_bitfield_run (H := bitfield_BitMap junk junk_byte) (m_file_size s) (piece_size (m_settings s))
              B1 B2 B3 bitfield_new (m_downlaoded_field s) W Sz bitfield_new_wf eq_refl B4) as (bf & R & Wf & Eb).
  assert (meta_entry junk_int (to_string all_components (m_final_url s)) (m_file_size s) (piece_size (m_settings s)) bf
          = Ok (meta_dict (to_string all_components (m_final_url s)) (m_file_size s) (piece_size (m_settings s))
                  (piece_num (m_file_size s) (piece_size (m_settings s))) (bitmap_text bf))) as M.
  { assert (0 <= Z.quot (m_file_size s) (piece_size (m_settings s)) <= m_file_size s) as Q.
    { rewrite Z.quot_div_nonneg by lia. split; [apply Z.div_pos; lia|]. apply Z.div_le_upper_bound; nia. }
    unfold meta_entry, piece_num.
    rewrite (int64_id (_ + _)), (int32_id (_ + _)) by (destruct (_ =? 0); lia). reflexivity. }
  assert (exists d1, (match m_file_meta s with Some _ => mret true | None => open_file can_open (meta_file (m_settings s)) end : DL bool) s
          = Ok (true, set_disk d1 (set_file_meta (Some path) s)) /\ default [] (d1 path) = default [] (disk s path))
    as (d1 & E1 & F1).
  { destruct O as [O|(O & <- & C)]; rewrite O.
    - exists (disk s). split; [|reflexivity]. rewrite <- O. destruct s; reflexivity.
    - exists (fun p => if str_eqb p (meta_file (m_settings s)) then Some (default [] (disk s (meta_file (m_settings s))))
                       else disk s p).
      unfold open_file. rewrite C, str_eqb_refl. split; reflexivity. }
  unfold update_meta. run. setoid_rewrite E1. clear E1. cbn [negb]. replace (_ =? 0) with false by lia.
  unfold on_downloaded. run. md_simpl. rewrite R. run. rewrite M. unfold lift_entry, write_meta. run. md_simpl.
  exists (fun p => if str_eqb p path then Some (write_at 0 (fst (bencode
      (meta_dict (to_string all_components (m_final_url s)) (m_file_size s) (piece_size (m_settings s))
         (piece_num (m_file_size s) (piece_size (m_settings s))) (bitmap_text bf)))) (default [] (d1 path)))
    else d1 p), bf.
  split; [reflexivity|]. split; [exact Wf|].
  split; [etransitivity; [exact Eb|]; unfold complete_pieces; now rewrite Sz|].
  cbv beta. rewrite str_eqb_refl, F1, write_at_start by apply text_dict_nonnil. reflexivity.
Qed.

(** Without conditions on the file. *)
Lemma update_meta_frame s :
  wf_rangefield (m_downlaoded_field s) -> m_size (m_downlaoded_field s) = m_file_size s ->
  piece_bounds (m_file_size s) (piece_size (m_settings s)) ->
  exists f path d, update_meta junk junk_byte junk_int can_open s = Ok ((), meta_written f path d s)
  /\ wf_rangefield f /\ m_size f = m_file_size s
  /\ forall x, covered (m_ranges f) x = covered (m_ranges (m_downlaoded_field s)) x.
Proof.
  intros W Sz B. destruct (normalise_wf _ W) as (N & _ & S' & _ & C).
  assert (forall path, meta_opened s path -> exists f path d,
    update_meta junk junk_byte junk_int can_open s = Ok ((), meta_written f path d s)
    /\ wf_rangefield f /\ m_size f = m_file_size s
    /\ forall x, covered (m_ranges f) x = covered (m_ranges (m_downlaoded_field s)) x) as K.
  { intros path O. destruct (update_meta_run path s W Sz B O) as (d & bf & E & _).
    do 3 eexists. split; [exact E|]. split; [exact N|]. split; [congruence|exact C]. }
  destruct (m_file_meta s) as [path|] eqn:M; [apply (K path); now left|].
  destruct (can_open (meta_file (m_settings s))) eqn:O; [apply (K (meta_file (m_settings s))); right; auto|].
  exists (m_downlaoded_field s), None, (disk s). split; [|auto].
  unfold update_meta. run. rewrite M. unfold open_file. rewrite O. cbn [negb]. run.
  rewrite <- M. destruct s; reflexivity.
Qed.

Lemma reset_run n f : m_locked f = false -> reset n f = Ok ((), rangefield_new n).
Proof. intros U. unfold reset. rewrite scoped_lock_run by exact U. reflexivity. Qed.

(** Loading what [update_meta] wrote. *)
Lemma load_meta_run f p u txt bf t :
  piece_bounds f p -> wf_url u -> txt = to_string all_components u -> printable_url u ->
  wf_bitfield bf -> Bitfield.m_size bf = piece_num f p ->
  m_locked (m_rangefield t) = false -> m_locked (m_downlaoded_field t) = false ->
  exists t', load_meta asserts junk junk_byte junk_int (meta_dict txt f p (piece_num f p) (bitmap_text bf)) t = Ok ((), t')
  /\ m_file_size t' = f /\ piece_size (m_settings t') = p
  /\ m_final_url t' = (if allow_use_meta_url (m_settings t) then u else m_final_url t)
  /\ wf_rangefield (m_rangefield t') /\ m_size (m_rangefield t') = f
  /\ wf_rangefield (m_downlaoded_field t') /\ m_size (m_downlaoded_field t') = f
  /\ (forall x, covered (m_ranges (m_rangefield t')) x = bits_cover f p 0 (bits bf) x)
  /\ (forall x, covered (m_ranges (m_downlaoded_field t')) x = bits_cover f p 0 (bits bf) x).
Proof.
  intros B Wu -> Pu Wb Sb U1 U2. pose proof B as (B1 & B2 & B3 & B4).
  unfold load_meta.
  set (e := meta_dict (to_string all_components u) f p (piece_num f p) (bitmap_text bf)).
  set (t1 := if allow_use_meta_url (m_settings t) then set_final_url u t else t).
  rewrite (bind_ok _ _ t t t) by reflexivity.
  rewrite (bind_ok _ _ t e t1); cycle 1.
  { unfold t1. destruct (allow_use_meta_url (m_settings t)); [|reflexivity].
    rewrite (bind_ok _ _ t (to_string all_components u, e) t) by reflexivity. cbn [fst snd]. run.
    replace (nonempty (to_string all_components u)) with true
      by (rewrite to_string_all by (first [apply Pu | destruct (wf_path _ Wu) as (q & -> & _); discriminate]);
          destruct Pu as [Pu _]; destruct (protocol_ u); [congruence|reflexivity]).
    unfold assign_final_url. now rewrite from_string_printed. }
  assert (m_locked (m_rangefield t1) = false /\ m_locked (m_downlaoded_field t1) = false
          /\ m_final_url t1 = (if allow_use_meta_url (m_settings t) then u else m_final_url t)) as (V1 & V2 & V3).
  { unfold t1. destruct t; cbn in *. destruct (allow_use_meta_url _); auto. }
  clearbody t1. rewrite <- V3. clear V3.
  rewrite (bind_ok _ _ t1 (f, e) t1) by reflexivity. cbn [fst snd].
  set (t2 := set_downlaoded_field (rangefield_new f) (set_rangefield (rangefield_new f) (set_file_size f t1))).
  rewrite (bind_ok _ _ t1 () t2); cycle 1.
  { unfold reset_fields, on_rangefield, on_downloaded, on_field. run.
    destruct t1; cbn in V1, V2 |- *. rewrite !reset_run by assumption. reflexivity. }
  rewrite (bind_ok _ _ t2 (p, e) t2) by reflexivity. cbn [fst snd]. rewrite (int32_id p) by lia.
  set (t3 := set_settings (set_piece_size p (m_settings t2)) t2).
  rewrite (bind_ok _ _ t2 () t3) by reflexivity.
  rewrite (bind_ok _ _ t3 (piece_num f p, e) t3) by reflexivity. cbn [fst snd].
  assert (int32 (piece_num f p) = piece_num f p) as ->
    by (rewrite piece_num_eq in * by lia; apply int32_id; split; [|lia]; apply (Z.le_trans _ 0); [lia|apply Z.div_pos; lia]).
  rewrite (bind_ok _ _ t3 (bitmap_text bf, e) t3) by reflexivity. cbn [fst snd].
  destruct (load_bitfield_text bf t3 Wb ltac:(lia)) as (bf' & L & Wb' & Bb).
  rewrite <- Sb, (bind_ok _ _ t3 bf' t3 L). rewrite (bind_ok _ _ t3 t3 t3) by reflexivity.
  assert (piece_size (m_settings t3) = p) as P3 by (unfold t3, t2; destruct t1 as [? ? ? ? ? ? [] ? ? ? ? ? ? ? ? ? ? ? ? ? ?]; reflexivity).
  rewrite P3.
  assert (Z.of_nat (length (bm_bits (BitMap := bitfield_BitMap junk junk_byte) bf')) = piece_num f p) as Lb.
  { change (Z.of_nat (length (bits bf')) = piece_num f p). rewrite Bb, length_bits. pose proof (wf_size _ Wb). lia. }
  destruct (bitfield_to_range_run (H := bitfield_BitMap junk junk_byte) f p B1 B2 B3 asserts bf' (rangefield_new f) (rangefield_new_wf f ltac:(lia)) eq_refl Wb' Lb)
    as (g & G1 & G2 & G3 & G4).
  change (bm_bits bf') with (bits bf') in G4. rewrite Bb in G4.
  exists (set_downlaoded_field g (set_rangefield g t3)).
  unfold on_rangefield, on_downloaded, on_field. run. unfold t3, t2 in *.
  destruct t1 as [? ? ? ? ? ? [] ? ? ? ? ? ? ? ? ? ? ? ? ? ?]; cbn in G1 |- *. rewrite G1. cbn. rewrite G1. cbn.
  repeat (split; [solve [auto]|]). auto.
Qed.
End MetaFacts.

(** A position of a complete piece is covered. *)
Lemma complete_cover_sound p f x :
  wf_rangefield f -> piece_bounds (m_size f) p ->
  bits_cover (m_size f) p 0 (complete_pieces p f) x = true -> covered (m_ranges f) x = true.
Proof.
  intros W B H. pose proof B as (B1 & B2 & _ & _). unfold bits_cover in H. rewrite Z.sub_0_r in H.
  apply andb_true_iff in H as [Hx Hb]. assert (0 <= x < m_size f) as Hr by lia.
  destruct (complete_pieces p f !! Z.to_nat (x / p)) as [[]|] eqn:E; try discriminate Hb.
  apply (complete_pieces_sound p f (Z.to_nat (x / p))); auto.
  rewrite Z2Nat.id by (apply Z.div_pos; lia).
  pose proof (Z.div_mod x p ltac:(lia)). pose proof (Z.mod_pos_bound x p ltac:(lia)). nia.
Qed.

(** When whole pieces are covered and nothing else, they are the complete pieces. *)
Lemma complete_pieces_exact p f bs :
  wf_rangefield f -> piece_bounds (m_size f) p -> Z.of_nat (length bs) = piece_num (m_size f) p ->
  (forall x, covered (m_ranges f) x = bits_cover (m_size f) p 0 bs x) -> complete_pieces p f = bs.
Proof.
  intros W (B1 & B2 & B3 & B4) Hn C. destruct (normalise_wf f W) as (N & _ & Sz & M & C').
  unfold complete_pieces. rewrite <- Hn, Nat2Z.id. apply flags_of_bits; auto.
  - pose proof (wf_valid _ N) as V. now rewrite Sz in V.
  - intros x. now rewrite C'.
Qed.

(** [open_meta] on a file that can be decoded. *)
Lemma open_meta_decoded asserts junk (Hj : forall n, 0 <= junk n < 256) junk_int can_open path e data t :
  can_open path = true -> bdecode asserts data = Ok e -> data <> [] -> disk t path = Some data ->
  exists t1, open_meta asserts junk Hj junk_int can_open path t
             = (load_meta asserts junk Hj junk_int e ;; mret true) t1
  /\ m_settings t1 = m_settings t /\ m_final_url t1 = m_final_url t
  /\ m_rangefield t1 = m_rangefield t /\ m_downlaoded_field t1 = m_downlaoded_field t.
Proof.
  intros Co Dec Ne D. unfold open_meta. rewrite (bind_ok _ _ t t t) by reflexivity.
  rewrite (bind_ok _ _ t () (set_file_meta None t)) by reflexivity.
  set (t1 := set_file_meta (Some path) (set_disk (fun p =>
               if str_eqb p path then Some (default [] (disk t path)) else disk t p) (set_file_meta None t))).
  rewrite (bind_ok _ _ (set_file_meta None t) true t1); cycle 1.
  { unfold open_file. rewrite Co. destruct t; reflexivity. }
  rewrite D. cbn [default negb id from_option].
  destruct (Z.of_nat (length data) =? 0) eqn:L0; [destruct data; [congruence|cbn [length] in L0; zbool]|].
  rewrite (bind_ok _ _ t1 t1 t1) by reflexivity.
  assert (disk t1 path = Some data) as D1
    by (rewrite <- D; unfold t1; destruct t; cbn in *; rewrite str_eqb_refl, D; reflexivity).
  rewrite (bind_ok _ _ t1 e t1) by (rewrite D1; cbn [default id from_option]; now rewrite Dec).
  exists t1. split; [reflexivity|]. unfold t1. destruct t; auto.
Qed.

(** ** Properties *)

(** C23: resuming a download.  [update_meta] writes a file from which
    [open_meta], on any other object, restores the final URL (when the settings
    allow it), the file size and the piece size; the range field and the field
    of downloaded data then cover the same positions, and only positions that
    were downloaded when the file was written.  Nothing is lost when the
    downloaded data consists of whole pieces. *)
Theorem meta_roundtrip asserts junk (Hj : forall n, 0 <= junk n < 256) junk_int can_open path s :
  wf_rangefield (m_downlaoded_field s) -> m_size (m_downlaoded_field s) = m_file_size s ->
  piece_bounds (m_file_size s) (piece_size (m_settings s)) ->
  meta_opened can_open s path -> can_open path = true ->
  wf_url (m_final_url s) -> printable_url (m_final_url s) ->
  Z.of_nat (length (to_string all_components (m_final_url s))) < 2 ^ 31 ->
  exists s', update_meta junk Hj junk_int can_open s = Ok ((), s')
  /\ (forall x, covered (m_ranges (m_downlaoded_field s')) x = covered (m_ranges (m_downlaoded_field s)) x)
  /\ forall t, disk t path = disk s' path ->
       m_locked (m_rangefield t) = false -> m_locked (m_downlaoded_field t) = false ->
       exists t', open_meta asserts junk Hj junk_int can_open path t = Ok (true, t')
       /\ m_file_size t' = m_file_size s /\ piece_size (m_settings t') = piece_size (m_settings s)
       /\ m_final_url t' = (if allow_use_meta_url (m_settings t) then m_final_url s else m_final_url t)
       /\ wf_rangefield (m_rangefield t') /\ wf_rangefield (m_downlaoded_field t')
       /\ (forall x, covered (m_ranges (m_rangefield t')) x = covered (m_ranges (m_downlaoded_field t')) x)
       /\ (forall x, covered (m_ranges (m_downlaoded_field t')) x = true ->
                      covered (m_ranges (m_downlaoded_field s)) x = true)
       /\ forall bs, Z.of_nat (length bs) = piece_num (m_file_size s) (piece_size (m_settings s)) ->
            (forall x, covered (m_ranges (m_downlaoded_field s)) x =
                       bits_cover (m_file_size s) (piece_size (m_settings s)) 0 bs x) ->
            forall x, covered (m_ranges (m_downlaoded_field t')) x = covered (m_ranges (m_downlaoded_field s)) x.
Proof.
  intros W Sz B O Co Wu Pu Lu.
  destruct (update_meta_run junk Hj junk_int can_open path s W Sz B O) as (d & bf & E & Wb & Eb & D).
  eexists. split; [exact E|]. split; [intros x; now apply normalise_wf|].
  intros t Ht U1 U2. unfold meta_written in Ht. md_simpl_in Ht. rewrite D in Ht.
  assert (Z.of_nat (length (bits bf)) = piece_num (m_file_size s) (piece_size (m_settings s))) as Lb
    by (rewrite Eb, <- Sz; apply complete_pieces_length; now rewrite Sz).
  rewrite length_bits in Lb. pose proof (wf_size _ Wb) as Sb. pose proof B as (B1 & B2 & B3 & B4).
  edestruct (open_meta_decoded asserts junk Hj junk_int can_open path) as (t1 & -> & T1 & T2 & T3 & T4);
    [exact Co| | |exact Ht|].
  { apply bdecode_text, meta_dict_encodable; unfold INT64_MIN, INT64_MAX; try lia.
    apply bitmap_text_length; [exact Wb|lia]. }
  { intros N. apply app_eq_nil in N as [N _]. revert N. apply text_dict_nonnil. }
  destruct (load_meta_run asserts junk Hj junk_int (m_file_size s) (piece_size (m_settings s)) (m_final_url s) _ bf t1
    B Wu eq_refl Pu Wb ltac:(lia) ltac:(congruence) ltac:(congruence))
    as (t' & E' & R1 & R2 & R3 & R4 & _ & R6 & _ & R8 & R9).
  exists t'. rewrite (bind_ok _ _ t1 () t' E'). split; [reflexivity|].
  rewrite T1, T2 in R3. rewrite Eb, <- Sz in R8, R9. do 5 (split; [assumption|]). split; [|split].
  - intros x. now rewrite R8, R9.
  - intros x Hx. rewrite R9 in Hx. apply complete_cover_sound in Hx; auto. now rewrite Sz.
  - intros bs Hn C x. rewrite R9, C. rewrite <- Sz in *. now rewrite (complete_pieces_exact _ _ bs).
Qed.

(** A download of two pieces, the first complete, with its meta file closed. *)
Definition example_download : multi_download :=
  set_settings (set_meta_file ($"m") (set_piece_size 16 settings_default))
    (set_final_url example_url (set_file_size 25
      (set_downlaoded_field (Rangefield true 25 [(0, 16); (20, 23)] false) (multi_download_new (fun _ => None))))).

Lemma meta_roundtrip_witness :
  exists s', update_meta (fun _ => 170) ltac:(lia) 7 (fun _ => true) example_download = Ok ((), s')
  /\ exists t', open_meta true (fun _ => 170) ltac:(lia) 7 (fun _ => true) ($"m")
                   (multi_download_new (disk s')) = Ok (true, t')
     /\ m_ranges (m_downlaoded_field t') = [(0, 16)] /\ m_file_size t' = 25.
Proof.
  destruct (meta_roundtrip true (fun _ => 170) ltac:(lia) 7 (fun _ => true) ($"m") example_download)
    as (s' & E & _ & T); [solve_wf|reflexivity|repeat split|right; auto|reflexivity|apply example_url_wf
    |split; [discriminate|repeat constructor]|vm_compute; reflexivity|].
  exists s'. split; [exact E|].
  destruct (T (multi_download_new (disk s')) eq_refl eq_refl eq_refl) as (t' & E' & F & _).
  exists t'. split; [exact E'|]. split; [|exact F]. vm_compute in E. injection E as <-. vm_compute in E'.
  injection E' as <-. reflexivity.
Defined.

(** A meta file that cannot be decoded is not refused: [bdecode] gives an
    undefined entry, the missing fields are created on access, and the number
    of pieces is an integer that was never initialised.  Unless it happens to
    be small, the bitmap is then copied from past the end of an empty text. *)
Theorem open_meta_undecodable asserts junk (Hj : forall n, 0 <= junk n < 256) junk_int can_open path data t :
  can_open path = true -> disk t path = Some data -> data <> [] -> bdecode asserts data = Ok undefined_t ->
  m_locked (m_rangefield t) = false -> m_locked (m_downlaoded_field t) = false -> 8 < int32 junk_int ->
  open_meta asserts junk Hj junk_int can_open path t = Err MetaOverread.
Proof.
  intros Co D Ne Dec U1 U2 Hn.
  destruct (open_meta_decoded asserts junk Hj junk_int can_open path undefined_t data t Co Dec Ne D)
    as (t1 & -> & T1 & T2 & T3 & T4).
  assert (load_bitfield junk [] (int32 junk_int) = st_fail MetaOverread) as L.
  { unfold load_bitfield. cbn [length]. change (Z.of_nat 0) with 0.
    assert (2 <= (int32 junk_int + 7) / 8) by (apply Z.div_le_lower_bound; lia).
    replace (_ || _) with true by lia. reflexivity. }
  assert (forall t2, m_locked (m_rangefield t2) = false -> m_locked (m_downlaoded_field t2) = false ->
    exists t3, reset_fields junk_int t2 = Ok ((), t3)) as R.
  { intros t2 V1 V2. unfold reset_fields, on_rangefield, on_downloaded, on_field. run.
    destruct t2; cbn in V1, V2 |- *. rewrite !reset_run by assumption. eauto. }
  destruct (R t1) as (t3 & E3); [congruence|congruence|].
  unfold load_meta, mbind at 1, st_bind at 1.
  rewrite (bind_ok _ _ t1 t1 t1) by reflexivity.
  destruct (allow_use_meta_url (m_settings t1));
    (erewrite bind_ok by reflexivity; erewrite bind_ok by reflexivity; cbn [fst snd];
     rewrite (bind_ok _ _ t1 () t3 E3); erewrite bind_ok by reflexivity; cbn [fst snd];
     erewrite bind_ok by reflexivity; erewrite bind_ok by reflexivity; cbn [fst snd];
     erewrite bind_ok by reflexivity; cbn [fst snd]; unfold mbind, st_bind; rewrite L; reflexivity).
Qed.

Lemma open_meta_undecodable_witness :
  open_meta true (fun _ => 0) ltac:(lia) 100 (fun _ => true) ($"m")
    (multi_download_new (fun _ => Some ($"garbage"))) = Err MetaOverread.
Proof.
  apply (open_meta_undecodable true (fun _ => 0) ltac:(lia) 100 (fun _ => true) ($"m") ($"garbage"));
    solve [reflexivity | discriminate | vm_compute; reflexivity].
Defined.
