(* ===== verification/MultiDownload.v ===== *)
(** The downloader: class multi_download of avhttp/impl/multi_download.ipp.

    Each handler of an asynchronous operation is one definition; it takes what
    the operation delivers (the error, the data) and the clock.  [start] and
    [handle_start] take what opening the first connection gave.  Code outside
    the sources or of the platform is a variable: [can_open] and
    [open_storage] for files, [is_directory], [crc32], [ansi_utf8] and
    [utf8_ansi]; [fuel] bounds the loop of [allocate_range]. *)

From S2P Require Import Prelude CLib EscapeString OrdMap Url Settings HttpParsers HttpBody HttpStream Bitfield Entry.
From S2P Require Import Bencode Rangefield DownloadRange DownloadState DownloadMeta.

(** ** Library functions *)

(** [boost::lexical_cast<boost::int64_t>]: [None] for [bad_lexical_cast]. *)
Definition lexical_cast (s : cstring) : option Z :=
  let '(neg, ds) := match s with
                    | c :: s' => if c =c "-" then (true, s') else if c =c "+" then (false, s') else (false, s)
                    | [] => (false, [])
                    end in
  if nonempty ds && forallb isdigit ds then
    let v := if neg : bool then - dec_value ds else dec_value ds in
    if (INT64_MIN <=? v) && (v <=? INT64_MAX) then Some v else None
  else None.

(** [boost::filesystem::path::leaf]: the last component. *)
Definition leaf (p : cstring) : cstring :=
  match rev p with
  | [] => []
  | c :: r =>
      if c =c "/" then if forallb (fun c => c =c "/") r then ($"/") else ($".")
      else rev (fst (span (fun c => negb (c =c "/")) (rev p)))
  end.

(** [operator/] on paths. *)
Definition path_append (a b : cstring) : cstring :=
  match rev a with
  | [] => b
  | c :: _ => if (c =c "/") || match b with d :: _ => d =c "/" | [] => true end then a ++ b else a ++ ($"/") ++ b
  end.

(** The digits of [std::hex], without leading zeros. *)
Fixpoint hex_digits (fuel : nat) (n : Z) (acc : cstring) : cstring :=
  match fuel with
  | O => acc
  | S fuel' =>
      let d := n mod 16 in
      let acc := chr (if d <? 10 then 48 + d else 87 + d) :: acc in
      if n <? 16 then acc else hex_digits fuel' (n / 16) acc
  end.

(** What opening the first connection gave. *)
Record opened : Type := Opened {
  o_ec : error_code;
  o_location : cstring;
  o_response : opts
}.

Section Download.
Variable asserts : bool.
Variable junk : nat -> Z.
Hypothesis junk_byte : forall n, 0 <= junk n < 256.
Variable junk_int : Z.
Variable can_open : cstring -> bool.
Variable open_storage : cstring -> result error cstring.
Variable is_directory : cstring -> bool.
Variable crc32 : cstring -> Z.
Variables ansi_utf8 utf8_ansi : cstring -> cstring.
Variable fuel : nat.

(** ** Helpers of the handlers *)

(** [allocate_range(r)] with the settings of the object. *)
Definition allocate (r : range) : DL (bool * range) :=
  s ← st_get;
  on_rangefield (allocate_range asserts (request_piece_num (m_settings s)) (piece_size (m_settings s))
                   (m_download_point s) (m_abort s) fuel r).

(** The size of the next read, under the rate limit. *)
Definition available_bytes : DL Z :=
  s ← st_get;
  if negb (m_drop_size s =? -1) then
    let n := Z.min (m_drop_size s) default_buffer_size in
    st_modify (set_drop_size (int32 (m_drop_size s - n))) ;;
    mret n
  else mret default_buffer_size.

(** [change_outstranding(true)] and the start of an operation. *)
Definition start_operation (op : operation) : DL () := change_outstranding true ;; async op.

(** The next read: the time of the request, the size, [async_read_some]. *)
Definition continue_reading (i p : nat) (now : Z) : DL () :=
  modify_object p (set_last_request_time (Some now)) ;;
  n ← available_bytes;
  start_operation (Read i p n).

(** Single connection mode: the download stops. *)
Definition abort_single : DL () :=
  s ← st_get;
  if negb (m_accept_multi s) then st_modify (set_abort true) ;; cancel_timer else mret ().

(** The request options with the keep-alive header, for a new request. *)
Definition request_options (s : multi_download) : opts :=
  if m_keep_alive s then Settings.insert http_options.connection ($"keep-alive") (options (m_settings s))
  else options (m_settings s).

(** ** Handlers *)

Definition handle_open (i p : nat) (e : error_code) (content_length now : Z) : DL () :=
  auto_outstanding
    (change_outstranding false ;;
     s ← st_get;
     if (match e with Some _ => true | None => false end) || m_abort s then
       modify_object p (set_ec e) ;;
       abort_single
     else
       (if negb (m_accept_multi s) && (negb (content_length =? -1) && negb (content_length =? m_file_size s))
        then reset_fields content_length else mret ()) ;;
       continue_reading i p now).

(** [m_storage->write(buffer, offset, size)]. *)
Definition write_storage (offset : Z) (data : cstring) : DL () :=
  st_modify (fun s => set_storage (write_at offset data <$> m_storage s) s).

(** The first part of [handle_read]: data is kept when there was no error or
    the connection was closed after it. *)
Definition save_data (p : nat) (data : cstring) (e : error_code) : DL () :=
  o ← deref_object p;
  s ← st_get;
  let n := Z.of_nat (length data) in
  if (match m_storage s with Some _ => true | None => false end)
     && negb (n =? 0) && (match e with None => true | Some eof => true | _ => false end)
  then
    let offset := int64 (left (request_range o) + bytes_transferred o) in
    (if negb (m_file_size s =? -1)
     then b ← on_downloaded (update asserts offset (int64 (offset + n))); mret ()
     else mret ()) ;;
    write_storage offset data
  else mret ().

(** [object.bytes_transferred += n; object.bytes_downloaded += n]. *)
Definition count_bytes (n : Z) (o : http_stream_object) : http_stream_object :=
  set_bytes_downloaded (int64 (bytes_downloaded o + n)) (set_bytes_transferred (int64 (bytes_transferred o + n)) o).

(** [last_byte_rate[index] += n]. *)
Definition count_rate (n : Z) (r : byte_rate) : byte_rate :=
  ByteRate (alter (fun x => int32 (x + n)) (Z.to_nat (index r)) (last_byte_rate r)) (index r) (current_byte_rate r).

(** A new request on the same connection: [stream.async_request(req_opt, ...)]
    or, without keep-alive, [stream.async_open(...)]. *)
Definition request_next (i p : nat) (now : Z) : DL () :=
  o ← deref_object p;
  r ← allocate (request_range o);
  modify_object p (set_request_range (snd r)) ;;
  if negb (fst r) then modify_object p (set_direct_reconnect true)
  else
    modify_object p (set_bytes_transferred 0) ;;
    s ← st_get;
    let req_opt := Settings.insert http_options.range (range_text (left (snd r)) (right (snd r))) (request_options s) in
    modify_object p (fun o => set_stream_of (set_max_redirects 0 (configure (m_settings s) req_opt (stream_of o))) o) ;;
    modify_object p (set_last_request_time (Some now)) ;;
    start_operation (if negb (m_keep_alive s) then Open i p else Request i p).

Definition handle_read (i p : nat) (data : cstring) (e : error_code) (now : Z) : DL () :=
  auto_outstanding
    (change_outstranding false ;;
     let n := Z.of_nat (length data) in
     save_data p data e ;;
     modify_object p (count_bytes n) ;;
     s ← st_get;
     if (match e with Some _ => true | None => false end) || m_abort s then abort_single
     else
       st_modify (fun s => set_byte_rate (count_rate n (m_byte_rate s)) s) ;;
       o ← deref_object p;
       if m_accept_multi s && (range_length (request_range o) <=? bytes_transferred o) then
         if negb (m_keep_alive s) || ((left (request_range o) =? 0) && (i =? 0)%nat)
         then modify_object p (set_direct_reconnect true)
         else request_next i p now
       else if negb (m_accept_multi s)
               && (negb (m_file_size s =? -1) && (bytes_downloaded o =? m_file_size s)) then
         st_modify (set_abort true) ;; cancel_timer
       else
         continue_reading i p now).

Definition handle_request (i p : nat) (e : error_code) (now : Z) : DL () :=
  auto_outstanding
    (change_outstranding false ;;
     modify_object p (fun o => set_request_count (int32 (request_count o + 1)) o) ;;
     s ← st_get;
     if (match e with Some _ => true | None => false end) || m_abort s then
       modify_object p (set_ec e) ;;
       abort_single
     else
       continue_reading i p now).

(** *** The timer *)

(** The rate over the last seconds, and the next slot. *)
Definition tick_rate (r : byte_rate) : byte_rate :=
  let bytes_count := fold_left (fun n x => int32 (n + x)) (last_byte_rate r) 0 in
  let i := if seconds <=? index r + 1 then 0 else index r + 1 in
  ByteRate (<[Z.to_nat i := 0]> (last_byte_rate r)) i (Z.quot bytes_count seconds).

(** [duration > seconds(time_out)]; a time that was never set never expires. *)
Definition expired (s : multi_download) (o : http_stream_object) (now : Z) : bool :=
  match last_request_time o with
  | Some t => time_out (m_settings s) * 1000000 <? now - t
  | None => false
  end.

(** The errors after which a connection is given up: 403, 404 and 405. *)
Definition hopeless (e : error_code) : bool :=
  match e with
  | Some (http_status c) => (c =? 403) || (c =? 404) || (c =? 405)
  | _ => false
  end.

(** The range of the next request of a connection that is opened again: the
    rest of its range, or a new one; [None] when there is none left. *)
Definition resume_range (p : nat) : DL (option (Z * Z)) :=
  o ← deref_object p;
  let l := int64 (left (request_range o) + bytes_transferred o) in
  let r := right (request_range o) in
  if int64 (r - l) <=? 0 then
    x ← allocate (request_range o);
    modify_object p (set_request_range (snd x)) ;;
    if negb (fst x) then
      modify_object p (set_done true) ;;
      st_modify (fun s => set_number_of_connections (int32 (m_number_of_connections s - 1)) s) ;;
      mret None
    else
      modify_object p (set_bytes_transferred 0) ;;
      mret (Some (left (snd x), right (snd x)))
  else mret (Some (l, r)).

(** A connection that expired or asked for it is replaced by a copy with a new
    stream; handlers of the old one keep the old object. *)
Definition reconnect (i p : nat) (now : Z) : DL () :=
  modify_object p (set_direct_reconnect false) ;;
  o ← deref_object p;
  q ← make_shared o;
  st_modify (fun s => set_streams (<[i := q]> (m_streams s)) s) ;;
  modify_object q (set_stream_of stream_new) ;;
  r ← resume_range q;
  match r with
  | None => mret ()
  | Some (l, r) =>
      s ← st_get;
      let req_opt := Settings.insert http_options.range (range_text l r) (request_options s) in
      modify_object q (fun o => set_stream_of (set_max_redirects 0 (configure (m_settings s) req_opt (stream_of o))) o) ;;
      modify_object q (set_last_request_time (Some now)) ;;
      start_operation (Open i q)
  end.

(** One turn of the loop over the connections; the clock is read twice. *)
Definition check_connection (i : nat) (now now' : Z) : DL () :=
  s ← st_get;
  match m_streams s !! i with
  | None => st_fail NoObject
  | Some p =>
      o ← deref_object p;
      if negb (done o) && (expired s o now || direct_reconnect o) then
        modify_object p (fun o => set_stream_of (close (stream_of o)) o) ;;
        if hopeless (ec o) then modify_object p (set_done true)
        else if negb (m_accept_multi s) then
          st_modify (set_abort true) ;;
          modify_object p (set_done true) ;;
          st_modify (fun s => set_number_of_connections (int32 (m_number_of_connections s - 1)) s)
        else reconnect i p now'
      else mret ()
  end.

Fixpoint check_connections (n i : nat) (clock : nat -> Z) : DL () :=
  match n with
  | O => mret ()
  | S n' => check_connection i (clock (2 * i)%nat) (clock (2 * i + 1)%nat) ;; check_connections n' (S i) clock
  end.

(** The number of connections that are done. *)
Definition count_done (s : multi_download) : nat :=
  length (List.filter (fun p => match objects s !! p with Some o => done o | None => false end) (m_streams s)).

Definition on_tick (e : error_code) (clock : nat -> Z) : DL () :=
  auto_outstanding
    (change_outstranding false ;;
     st_modify (fun s => set_time_total (int32 (m_time_total s + 1)) s) ;;
     s ← st_get;
     (if m_accept_multi s then update_meta junk junk_byte junk_int can_open else mret ()) ;;
     if negb (m_abort s) && (match e with None => true | Some _ => false end) then
       change_outstranding true ;;
       restart_timer ;;
       st_modify (fun s => set_byte_rate (tick_rate (m_byte_rate s)) s) ;;
       st_modify (fun s => set_drop_size (download_rate_limit (m_settings s)) s) ;;
       s ← st_get;
       check_connections (length (m_streams s)) 0 clock ;;
       s ← st_get;
       if (count_done s =? length (m_streams s))%nat then st_modify (set_abort true) ;; cancel_timer
       else mret ()
     else mret ()).

(** ** Starting *)

(** Whether the server supports ranges, and the file size; the second lookup of
    the length is for the key [key]. *)
Definition response_size (key : cstring) (resp : opts) : DL Z :=
  s ← st_get;
  st_modify (set_accept_multi
    (str_eqb (find_or_empty http_options.status_code resp) ($"206")
     && negb (disable_multi_download (m_settings s)))) ;;
  let length := find_or_empty http_options.content_length resp in
  length ← (if nonempty length then mret length
            else
              let l := find_or_empty key resp in
              let l := match find_char "/" l with Some f => drop (S f) l | None => [] end in
              (if nonempty l then mret () else st_modify (set_accept_multi false)) ;;
              mret l);
  if nonempty length then
    match lexical_cast length with
    | Some n => mret n
    | None => st_modify (set_accept_multi false) ;; mret (-1)
    end
  else mret (-1).

(** [meta_name(url)]. *)
Definition meta_name (u : cstring) : cstring := hex_digits 8 (crc32 u) [] ++ ($".meta").

(** The meta file, when ranges are supported. *)
Definition use_meta (resp : opts) : DL () :=
  s ← st_get;
  if m_accept_multi s then
    st_modify (set_keep_alive (str_eqb (to_lower (find_or_empty http_options.connection resp)) ($"keep-alive"))) ;;
    st_modify (fun s => if nonempty (meta_file (m_settings s)) then s
      else set_settings (set_meta_file (meta_name (to_string all_components (m_final_url s))) (m_settings s)) s) ;;
    s ← st_get;
    b ← open_meta asserts junk junk_byte junk_int can_open (meta_file (m_settings s));
    if b : bool then mret ()
    else
      close_file ;;
      st_modify (fun s => set_disk (fun p => if str_eqb p (meta_file (m_settings s)) then None else disk s p) s)
  else mret ().

(** The part of [start] and [handle_start] that uses the response. *)
Definition use_response (key : cstring) (h : opened) : DL () :=
  (if nonempty (o_location h) then assign_final_url (o_location h) else mret ()) ;;
  file_size ← response_size key (o_response h);
  s ← st_get;
  (if negb (file_size =? -1) && negb (file_size =? m_file_size s) then reset_fields file_size else mret ()) ;;
  let filename := find_or_empty ($"Content-Disposition") (o_response h) in
  let value := snd (content_disposition_filename filename []) in
  (if nonempty filename && nonempty value then st_modify (set_file_name value) else mret ()) ;;
  use_meta (o_response h).

(** [file_name()]; [m_file_name] is [mutable]. *)
Definition file_name : DL cstring :=
  s ← st_get;
  if nonempty (m_file_name s) then mret (m_file_name s)
  else
    let n := leaf (utf8_ansi (path (m_final_url s))) in
    let n := if str_eqb n ($"/") || negb (nonempty n) then leaf (query_ (m_final_url s)) else n in
    let n := if str_eqb n ($"/") || negb (nonempty n) || str_eqb n ($".") then ($"index.html") else n in
    let sp := save_path (m_settings s) in
    let n := if nonempty sp then if is_directory sp then path_append sp n else sp else n in
    st_modify (set_file_name n) ;;
    mret n.

(** The storage is created and opened; the error, if any. *)
Definition create_storage : DL error_code :=
  name ← file_name;
  match open_storage name with
  | Ok content => st_modify (set_storage (Some content)) ;; mret None
  | Err e => st_modify (set_storage (Some [])) ;; mret (Some e)
  end.

(** The default values of the settings. *)
Definition with_defaults (file_size : Z) (c : settings) : settings :=
  let c := if connections_limit c =? -1 then set_connections_limit default_connections_limit c else c in
  if (piece_size c =? -1) && negb (file_size =? -1)
  then set_piece_size (int32 (default_piece_size file_size)) c else c.
Definition default_settings : DL () :=
  st_modify (fun s => set_settings (with_defaults (m_file_size s) (m_settings s)) s).

(** The options for the first requests. *)
Definition start_options (s : multi_download) : opts :=
  Settings.insert http_options.connection (if m_keep_alive s then ($"keep-alive") else ($"close")) (options (m_settings s)).

Definition range_options (r : range) (o : opts) : opts :=
  Settings.insert http_options.range (range_text (left r) (right r)) (Settings.remove http_options.range o).

(** The first connection; the error of [h.close(ec)], if it fails. *)
Definition start_first (p : nat) (req_opt : opts) (close_ec : error_code) (now : Z) : DL (error_code * opts) :=
  s ← st_get;
  if m_accept_multi s then
    r ← allocate range_default;
    if negb (fst r) then modify_object p (set_done true) ;; mret (None, req_opt)
    else
      let req_opt := range_options (snd r) req_opt in
      modify_object p (set_request_range (snd r)) ;;
      modify_object p (set_last_request_time (Some now)) ;;
      modify_object p (fun o => set_stream_of (set_max_redirects 0 (configure (m_settings s) req_opt (stream_of o))) o) ;;
      if negb (left (snd r) =? 0) then
        modify_object p (fun o => set_stream_of (close (stream_of o)) o) ;;
        match close_ec with
        | Some e => mret (Some e, req_opt)
        | None => start_operation (Open 0 p) ;; mret (None, req_opt)
        end
      else start_operation (Read 0 p default_buffer_size) ;; mret (None, req_opt)
  else start_operation (Read 0 p default_buffer_size) ;; mret (None, req_opt).

(** The other connections, [n] of them from index [i] on. *)
Fixpoint start_others (n i : nat) (req_opt : opts) (clock : nat -> Z) : DL () :=
  match n with
  | O => mret ()
  | S n' =>
      p ← make_shared (http_stream_object_new stream_new);
      r ← allocate range_default;
      if negb (fst r) then modify_object p (set_done true) ;; start_others n' (S i) req_opt clock
      else
        let req_opt := range_options (snd r) req_opt in
        s ← st_get;
        modify_object p (set_request_range (snd r)) ;;
        modify_object p (fun o => set_stream_of (set_max_redirects 0 (configure (m_settings s) req_opt (stream_of o))) o) ;;
        st_modify (fun s => set_streams (m_streams s ++ [p]) s) ;;
        modify_object p (set_last_request_time (Some (clock i))) ;;
        st_modify (fun s => set_number_of_connections (int32 (m_number_of_connections s + 1)) s) ;;
        start_operation (Open i p) ;;
        start_others n' (S i) req_opt clock
  end.

(** What [start] and [handle_start] do with an open connection: the error for
    the caller.  [limit] is the new value of [m_drop_size], if it is set. *)
Definition start_download (key : cstring) (limit : option Z) (p : nat) (h : opened) (close_ec : error_code)
  (clock : nat -> Z) : DL error_code :=
  use_response key h ;;
  full ← on_downloaded is_full;
  if full : bool then mret None
  else
    e ← create_storage;
    match e with
    | Some e => mret (Some e)
    | None =>
        st_modify (fun s => match limit with Some n => set_drop_size n s | None => s end) ;;
        default_settings ;;
        st_modify (set_abort false) ;;
        st_modify (set_number_of_connections 1) ;;
        st_modify (fun s => set_streams (m_streams s ++ [p]) s) ;;
        s ← st_get;
        x ← start_first p (start_options s) close_ec (clock 0%nat);
        match fst x with
        | Some e => mret (Some e)
        | None =>
            s ← st_get;
            (if m_accept_multi s
             then start_others (Z.to_nat (connections_limit (m_settings s) - 1)) 1 (snd x) clock else mret ()) ;;
            change_outstranding true ;;
            restart_timer ;;
            mret None
        end
    end.

(** The object of the first connection: opened with [Range: bytes=0-]. *)
Definition first_object (s : settings) : http_stream_object :=
  http_stream_object_new
    (configure s (Settings.insert http_options.connection ($"keep-alive")
       (Settings.insert http_options.range ($"bytes=0-") (options s))) stream_new).

(** The common beginning of [start] and [async_start]. *)
Definition prepare (u : cstring) (c : settings) : DL () :=
  st_modify (set_streams []) ;;
  st_modify (set_file_size (-1)) ;;
  st_modify (set_settings c) ;;
  assign_final_url (escape_path (ansi_utf8 u)) ;;
  st_modify (set_file_name []).

(** [start(u, s, ec)]. *)
Definition start (u : cstring) (c : settings) (h : opened) (close_ec : error_code) (clock : nat -> Z) : DL error_code :=
  auto_outstanding
    (prepare u c ;;
     p ← make_shared (first_object c);
     match o_ec h with
     | Some e => mret (Some e)
     | None => start_download http_options.content_length (Some (download_rate_limit c)) p h close_ec clock
     end).

(** [async_start(u, s, handler)]: the pointer of the first connection, whose
    [async_open] is left to the handler [handle_start]. *)
Definition async_start (u : cstring) (c : settings) : DL nat :=
  prepare u c ;;
  st_modify (set_abort false) ;;
  p ← make_shared (first_object c);
  change_outstranding true ;;
  mret p.

(** [handle_start(handler, object_ptr, ec)]: the argument of [handler]. *)
Definition handle_start (p : nat) (h : opened) (close_ec : error_code) (clock : nat -> Z) : DL error_code :=
  auto_outstanding
    (change_outstranding false ;;
     match o_ec h with
     | Some e => mret (Some e)
     | None => start_download http_options.content_range None p h close_ec clock
     end).

(** ** Control and queries *)

(** [stop()]: the timer is cancelled and every connection closed. *)
Definition stop : DL () :=
  st_modify (set_abort true) ;;
  cancel_timer ;;
  st_modify (fun s => set_objects
    (foldr (fun p l => alter (fun o => set_stream_of (close (stream_of o)) o) p l) (objects s) (m_streams s)) s).

Definition stopped (s : multi_download) : bool := m_abort s && (m_outstanding s =? 0).

Definition bytes_download : DL Z :=
  s ← st_get;
  if negb (m_file_size s =? -1) then on_downloaded range_size
  else mret (fold_left (fun n p => match objects s !! p with
                                   | Some o => int64 (n + bytes_downloaded o)
                                   | None => n
                                   end) (m_streams s) 0).

(** The result of [wait_for_complete()], once the download has stopped. *)
Definition wait_result : DL bool :=
  s ← st_get;
  if negb (m_file_size s =? -1) then n ← bytes_download; mret (m_file_size s =? n)
  else mret true.

Definition file_size (s : multi_download) : Z := m_file_size s.
Definition download_rate (s : multi_download) : Z := current_byte_rate (m_byte_rate s).
Definition limit_download_rate (rate : Z) : DL () :=
  st_modify (fun s => set_settings (set_download_rate_limit rate (m_settings s)) s).
Definition check_certificates (check : bool) : DL () :=
  st_modify (fun s => set_settings (set_check_certificate check (m_settings s)) s).

(** [m_storage->read(buf, offset, size)]: the bytes it reads. *)
Definition read_storage (content : cstring) (offset size : Z) : cstring :=
  take (Z.to_nat size) (drop (Z.to_nat offset) content).

(** The largest of the halves of [n] that [check_range] accepts; 64 halvings of
    a [size_t] give zero. *)
Fixpoint halve (k : nat) (offset n : Z) : DL Z :=
  match k with
  | O => mret 0
  | S k' =>
      if n =? 0 then mret 0
      else
        b ← on_downloaded (check_range asserts offset n);
        if b : bool then mret n else halve k' offset (n / 2)
  end.

(** Filling the buffers, whose sizes are [buffers], with [available] bytes. *)
Fixpoint fill_buffers (content : cstring) (offset available : Z) (buffers : list Z) : DL (list cstring) :=
  match buffers with
  | [] => mret []
  | b :: buffers' =>
      let size := if available - b <? 0 then available else b in
      let data := read_storage content offset size in
      let n := Z.of_nat (length data) in
      if asserts && negb (n =? size) then st_fail DownloadAssert
      else if available - n =? 0 then mret [data]
      else rest ← fill_buffers content (offset + n) (available - n) buffers'; mret (data :: rest)
  end.

(** [fetch_data(buffers, offset)]: what the buffers got; the result is the sum
    of the lengths. *)
Definition fetch_data (buffers : list Z) (offset : Z) : DL (list cstring) :=
  s ← st_get;
  match m_storage s with
  | None => mret []
  | Some content =>
      st_modify (set_download_point offset) ;;
      n ← halve 65 offset (fold_left Z.add buffers 0);
      if n =? 0 then mret [] else fill_buffers content offset n buffers
  end.
End Download.
