(* ===== verification/DownloadSystem.v ===== *)
(** The downloader together with the network: what the [io_service] can do next
    and the invariant of every reachable state, for a server that supports
    ranges.

    The server has the file [content].  A connection that was opened with
    [Range: bytes=a-b] gets the bytes from position [a] on; every read gives
    the next of them, as many as it likes, and may also report an error.
    Operations end in any order, the clock is arbitrary, and [stop],
    [fetch_data] (with assertions off) and a new rate limit can come at any time. *)

From S2P Require Import Prelude CLib EscapeString OrdMap Url Settings HttpBody HttpStream Bitfield Entry Bencode.
From S2P Require Import Rangefield DownloadRange DownloadState DownloadMeta MultiDownload.

(** ** The server *)

(** The first position that the request options ask for. *)
Definition requested (o : opts) : Z :=
  match Settings.find http_options.range o with
  | Some v => fst (strtoll (drop 6 v))
  | None => 0
  end.

(** Opening a connection: the server will send from there. *)
Definition connect (o : http_stream_object) : http_stream_object :=
  set_stream_of (set_next_byte (requested (s_request_options (stream_of o))) (stream_of o)) o.

(** Receiving [n] bytes. *)
Definition receive (n : Z) (o : http_stream_object) : http_stream_object :=
  set_stream_of (set_next_byte (next_byte (stream_of o) + n) (stream_of o)) o.

(** What a read of at most [n] bytes may deliver. *)
Definition serves (content : cstring) (o : http_stream_object) (n : Z) (data : cstring) : Prop :=
  data = take (length data) (drop (Z.to_nat (next_byte (stream_of o))) content) /\ Z.of_nat (length data) <= Z.max 0 n.

(** ** Steps *)

Definition finish (k : nat) (s : multi_download) : multi_download := set_pending (delete k (pending s)) s.

Section System.
Variable asserts : bool.
Variable junk : nat -> Z.
Hypothesis junk_byte : forall n, 0 <= junk n < 256.
Variable junk_int : Z.
Variable can_open : cstring -> bool.
Variable fuel : nat.
Variable content : cstring.

(** The events: an operation ends, or the user calls the object. *)
Inductive event : Type :=
| Opens (k : nat) (e : error_code) (content_length now : Z)
| Reads (k : nat) (data : cstring) (e : error_code) (now : Z)
| Requested (k : nat) (e : error_code) (now : Z)
| Ticks (k : nat) (e : error_code) (clock : nat -> Z)
| Stops
| Fetches (buffers : list Z) (offset : Z)
| Limits (rate : Z).

(** When an event can happen. *)
Definition enabled (s : multi_download) (ev : event) : Prop :=
  match ev with
  | Opens k _ _ _ => exists i p, pending s !! k = Some (Open i p)
  | Reads k data _ _ => exists i p n o, pending s !! k = Some (Read i p n) /\ objects s !! p = Some o
                        /\ serves content o n data
  | Requested k _ _ => exists i p, pending s !! k = Some (Request i p)
  | Ticks k e _ => exists c, pending s !! k = Some (Wait c) /\ (e = None \/ c = true)
  | Fetches _ offset => 0 <= offset /\ asserts = false
  | Stops | Limits _ => True
  end.

(** What it does. *)
Definition run_event (ev : event) (s : multi_download) : result dl_fault (() * multi_download) :=
  match ev with
  | Opens k e n now =>
      match pending s !! k with
      | Some (Open i p) =>
          handle_open i p e n now
            (let s := finish k s in
             if e is None then set_objects (alter connect p (objects s)) s else s)
      | _ => Ok ((), s)
      end
  | Reads k data e now =>
      match pending s !! k with
      | Some (Read i p _) =>
          handle_read asserts fuel i p data e now
            (let s := finish k s in
             set_objects (alter (receive (Z.of_nat (length data))) p (objects s)) s)
      | _ => Ok ((), s)
      end
  | Requested k e now =>
      match pending s !! k with
      | Some (Request i p) =>
          handle_request i p e now
            (let s := finish k s in
             if e is None then set_objects (alter connect p (objects s)) s else s)
      | _ => Ok ((), s)
      end
  | Ticks k e clock => on_tick asserts junk junk_byte junk_int can_open fuel e clock (finish k s)
  | Stops => stop s
  | Fetches buffers offset => (fetch_data asserts buffers offset ≫= fun _ => mret ()) s
  | Limits rate => limit_download_rate rate s
  end.

(** One step; a run of events. *)
Definition step (s s' : multi_download) : Prop := exists ev, enabled s ev /\ run_event ev s = Ok ((), s').

(** ** The invariant *)

(** The size of the file. *)
Definition F : Z := Z.of_nat (length content).

(** The position of a connection in the file. *)
Definition position (o : http_stream_object) : Z := left (request_range o) + bytes_transferred o.

Record good_object (f : rangefield) (o : http_stream_object) : Prop := {
  go_left : 0 <= left (request_range o);
  go_right : 0 <= right (request_range o) < F;
  go_bytes : 0 <= bytes_transferred o;
  go_position : position o <= F;
  go_old : old_range f (request_range o)
}.

(** The connection of an operation. *)
Definition pointer (op : operation) : option nat :=
  match op with Open _ p | Read _ p _ | Request _ p => Some p | Wait _ => None end.
Definition pointers (l : list operation) : list nat := omap pointer l.

(** What an operation finds: the server continues where the object is. *)
Definition good_op (objs : list http_stream_object) (op : operation) : Prop :=
  match op with
  | Open _ p | Request _ p => exists o, objs !! p = Some o /\ requested (s_request_options (stream_of o)) = position o
  | Read _ p _ => exists o, objs !! p = Some o /\ next_byte (stream_of o) = position o
  | Wait _ => True
  end.

(** The settings of a download with ranges. *)
Record good_settings (c : settings) : Prop := {
  gs_bounds : piece_bounds F (piece_size c);
  gs_max : 0 < max_request_bytes (request_piece_num c) (piece_size c);
  gs_options : Settings.find http_options.range (options c) = None
}.

(** [d] is the number of operations that are counted but not pending. *)
Record inv (d : Z) (s : multi_download) : Prop := {
  i_multi : m_accept_multi s = true;
  i_size : m_file_size s = F;
  i_settings : good_settings (m_settings s);
  i_point : 0 <= m_download_point s;
  i_range : wf_rangefield (m_rangefield s) /\ m_size (m_rangefield s) = F;
  i_downloaded : wf_rangefield (m_downlaoded_field s) /\ m_size (m_downlaoded_field s) = F;
  i_data : exists st, m_storage s = Some st
           /\ forall x, covered (m_ranges (m_downlaoded_field s)) x = true ->
                st !! Z.to_nat x = content !! Z.to_nat x;
  i_outstanding : m_outstanding s = int32 (Z.of_nat (length (pending s)) + d);
  i_streams : Forall (fun p => (p < length (objects s))%nat) (m_streams s);
  i_objects : Forall (good_object (m_rangefield s)) (objects s);
  i_pending : Forall (good_op (objects s)) (pending s);
  i_once : NoDup (pointers (pending s))
}.

(** No operation of this connection is pending. *)
Definition idle (p : nat) (s : multi_download) : Prop := p ∉ pointers (pending s).

(** While the download runs, the timer does too. *)
Definition armed (s : multi_download) : Prop := m_abort s = false -> In (Wait false) (pending s).

(** ** The invariant under the basic steps *)

(** A change of members that the invariant does not mention. *)
Ltac inv_frame H := destruct H; constructor; unfold idle, armed in *; md_simpl; auto.

Lemma int32_shift a k : int32 (int32 a + k) = int32 (a + k).
Proof. rewrite <- (Z.mul_1_r (int32 a)), wraps_wraps_linear by lia. f_equal. lia. Qed.

Lemma inv_outstanding d k s : inv d s -> inv (d + k) (set_outstanding (int32 (m_outstanding s + k)) s).
Proof.
  intros H. destruct H; constructor; md_simpl; auto. rewrite i_outstanding0, int32_shift. f_equal. lia.
Qed.

Lemma pointers_app a b : pointers (a ++ b) = pointers a ++ pointers b.
Proof. apply omap_app. Qed.

Lemma pointers_In p l : p ∈ pointers l <-> exists op, op ∈ l /\ pointer op = Some p.
Proof. apply list_elem_of_omap. Qed.

Lemma pointers_cancel l : pointers (map cancel_wait l) = pointers l.
Proof.
  unfold pointers. induction l as [|op l IH]; [reflexivity|].
  destruct op; cbn [map cancel_wait omap list_omap pointer]; rewrite IH; reflexivity.
Qed.

(** Operations on other connections do not see a change. *)
Lemma good_op_alter f p objs op :
  pointer op <> Some p -> good_op objs op -> good_op (alter f p objs) op.
Proof.
  intros Hp. destruct op as [i q|i q n|i q|c]; cbn in *; auto; intros (o & Ho & E); exists o;
    (split; [|exact E]); rewrite list_lookup_alter_ne by congruence; exact Ho.
Qed.

Lemma Forall_alter_at {A} (P : A -> Prop) f p (l : list A) :
  Forall P l -> (forall x, l !! p = Some x -> P x -> P (f x)) -> Forall P (alter f p l).
Proof.
  intros H Hf. apply Forall_lookup. intros i x Hi. rewrite Forall_lookup in H.
  destruct (decide (i = p)) as [->|Ne].
  - rewrite list_lookup_alter_eq in Hi. destruct (l !! p) eqn:E; [|discriminate]. injection Hi as <-. eauto.
  - rewrite list_lookup_alter_ne in Hi by congruence. eauto.
Qed.

Lemma inv_modify d s p f :
  inv d s -> idle p s ->
  (forall o, objects s !! p = Some o -> good_object (m_rangefield s) o -> good_object (m_rangefield s) (f o)) ->
  inv d (set_objects (alter f p (objects s)) s).
Proof.
  intros H Hp Hf. destruct H; constructor; md_simpl; auto.
  - now rewrite length_alter.
  - now apply Forall_alter_at.
  - apply Forall_forall. intros op Hop. rewrite Forall_forall in i_pending0.
    apply good_op_alter; [|auto]. intros E. apply Hp. apply pointers_In. eauto.
Qed.

(** A change that keeps the range, the position and the stream's request. *)
Definition keeps_position (f : http_stream_object -> http_stream_object) : Prop :=
  forall o, request_range (f o) = request_range o /\ bytes_transferred (f o) = bytes_transferred o
            /\ next_byte (stream_of (f o)) = next_byte (stream_of o)
            /\ s_request_options (stream_of (f o)) = s_request_options (stream_of o).

Lemma good_op_keeps f p objs op : keeps_position f -> good_op objs op -> good_op (alter f p objs) op.
Proof.
  intros Hf. destruct (decide (pointer op = Some p)) as [E|E]; [|now apply good_op_alter].
  destruct op as [i q|i q n|i q|c]; cbn in *; try discriminate; injection E as ->; intros (o & Ho & P);
    exists (f o); rewrite list_lookup_alter_eq, Ho; (split; [reflexivity|]); unfold position in *;
    destruct (Hf o) as (-> & -> & E1 & E2); congruence.
Qed.

Lemma good_object_keeps f r o : keeps_position f -> good_object r o -> good_object r (f o).
Proof.
  intros Hf []. destruct (Hf o) as (E1 & E2 & _ & _). constructor; unfold position in *; rewrite ?E1, ?E2; auto.
Qed.

Lemma inv_modify_keeps d s p f : keeps_position f -> inv d s -> inv d (set_objects (alter f p (objects s)) s).
Proof.
  intros Hf H. destruct H; constructor; md_simpl; auto.
  - now rewrite length_alter.
  - apply Forall_alter_at; [exact i_objects0|]. intros. now apply good_object_keeps.
  - eapply List.Forall_impl; [|exact i_pending0]. intros op. now apply good_op_keeps.
Qed.

(** A new operation of an idle connection. *)
Lemma inv_operation d s p op :
  inv d s -> idle p s -> pointer op = Some p -> good_op (objects s) op ->
  wp (start_operation op) (fun _ s' => inv d s' /\ pending s' = pending s ++ [op] /\ m_abort s' = m_abort s
    /\ m_streams s' = m_streams s) s.
Proof.
  intros H Hp E G. unfold start_operation, change_outstranding, async. apply wp_bind, wp_modify, wp_modify. md_simpl.
  split; [|auto]. destruct H; constructor; md_simpl; auto.
  - rewrite i_outstanding0, int32_shift, length_app. cbn [length]. f_equal. lia.
  - apply Forall_app. auto.
  - rewrite pointers_app. replace (pointers [op]) with [p] by (cbn; now rewrite E).
    apply NoDup_app. split; [exact i_once0|]. split; [|apply NoDup_singleton].
    intros q Hq Hq'. apply list_elem_of_singleton in Hq' as ->. now apply Hp.
Qed.

(** Counting down at the end of a handler. *)
Lemma armed_app s op s' : armed s -> m_abort s' = m_abort s -> pending s' = pending s ++ [op] -> armed s'.
Proof. unfold armed. intros H -> ->. rewrite in_app_iff. auto. Qed.

Lemma inv_cancel d s : inv d s -> inv d (set_pending (map cancel_wait (pending s)) s).
Proof.
  intros H. destruct H; constructor; md_simpl; auto.
  - now rewrite length_map.
  - apply List.Forall_map. eapply List.Forall_impl; [|exact i_pending0]. intros [] G; exact G.
  - now rewrite pointers_cancel.
Qed.

Lemma inv_abort d s : inv d s -> inv d (set_abort true s).
Proof. intros H. inv_frame H. Qed.

(** [m_abort = true; m_timer.cancel()]. *)
Lemma inv_stop_timer d s :
  inv d s -> wp (st_modify (set_abort true) ;; cancel_timer) (fun _ s' => inv d s' /\ armed s') s.
Proof.
  intros H. apply wp_bind, wp_modify. unfold cancel_timer. apply wp_modify. split.
  - now apply inv_cancel, inv_abort.
  - unfold armed. md_simpl. discriminate.
Qed.

(** A new wait. *)
Lemma inv_timer d s :
  inv d s ->
  wp (change_outstranding true) (fun _ => wp restart_timer (fun _ s' =>
    inv d s' /\ In (Wait false) (pending s') /\ m_abort s' = m_abort s /\ m_streams s' = m_streams s)) s.
Proof.
  intros H. unfold change_outstranding. apply wp_modify.
  unfold restart_timer, cancel_timer, async. apply wp_bind, wp_modify, wp_modify. md_simpl.
  split; [|split; [apply in_app_iff; right; now left|auto]].
  destruct H; constructor; md_simpl; auto.
  - rewrite i_outstanding0, int32_shift, length_app, length_map. cbn [length]. f_equal. lia.
  - apply Forall_app. split; [|repeat constructor]. apply List.Forall_map.
    eapply List.Forall_impl; [|exact i_pending0]. intros [] G; exact G.
  - rewrite pointers_app, pointers_cancel, app_nil_r. exact i_once0.
Qed.

(** Allocation: the range field grows. *)
Lemma old_range_mono f f' r :
  (forall x, covered (m_ranges f) x = true -> covered (m_ranges f') x = true) -> old_range f r -> old_range f' r.
Proof. intros H [E|E]; [now left|right; auto]. Qed.

Hypothesis fuel_pos : (0 < fuel)%nat.

Lemma inv_allocate d s r :
  inv d s -> old_range (m_rangefield s) r ->
  exists b r' f, allocate asserts fuel r s = Ok ((b, r'), set_rangefield f s) /\ inv d (set_rangefield f s)
  /\ if b then 0 <= left r' <= right r' /\ right r' < F /\ old_range f r' else r' = r.
Proof.
  intros H Hr. destruct H. destruct i_range0 as [W Sz]. destruct i_settings0 as [(B1 & B2 & B3 & B4) M O].
  destruct fuel as [|n] eqn:Ef; [lia|].
  destruct (allocate_range_run asserts (request_piece_num (m_settings s)) (piece_size (m_settings s))
    (m_download_point s) (m_abort s) n r (m_rangefield s) M W ltac:(lia) i_point0 (fun _ => Hr)) as (b & r' & f & E & Hb).
  assert (allocate asserts (S n) r s = Ok ((b, r'), set_rangefield f s)) as EA.
  { unfold allocate, on_rangefield. run. rewrite E. reflexivity. }
  exists b, r', f. split; [exact EA|].
  assert (wf_rangefield f /\ m_size f = F
          /\ forall x, covered (m_ranges (m_rangefield s)) x = true -> covered (m_ranges f) x = true) as (W' & Sz' & Mono).
  { destruct b.
    - destruct Hb. split; [assumption|]. split; [congruence|]. intros x Hx. rewrite al_covered, Hx. apply orb_true_r.
    - destruct Hb as (_ & -> & _). destruct (normalise_wf _ W) as (N & _ & S' & _ & C).
      split; [exact N|]. split; [congruence|]. intros x Hx. now rewrite C. }
  split.
  - constructor; md_simpl; auto; [constructor; auto; repeat split; assumption|].
    eapply List.Forall_impl; [|exact i_objects0]. intros o []. constructor; auto. eapply old_range_mono; eauto.
  - destruct b; [|apply Hb]. destruct Hb as [[L1 L2] _ _ _ _ _ C]. rewrite Sz in L2. split; [lia|]. split; [lia|].
    right. rewrite C. unfold in_request. replace (_ && _) with true by lia. reflexivity.
Qed.

(** *** The range header *)

Lemma find_insert_absent_key k v o : Settings.find k o = None -> Settings.find k (Settings.insert k v o) = Some v.
Proof.
  unfold Settings.find, Settings.insert. cbn [m_opts]. induction (m_opts o) as [|[a b] l IH]; cbn.
  - now rewrite str_eqb_refl.
  - destruct (str_eqb _ _); [discriminate|exact IH].
Qed.

Lemma find_insert_other_key k k' v o :
  to_lower k' <> to_lower k -> Settings.find k (Settings.insert k' v o) = Settings.find k o.
Proof.
  intros Ne. unfold Settings.find, Settings.insert. cbn [m_opts]. induction (m_opts o) as [|[a b] l IH]; cbn.
  - destruct (str_eqb_spec (to_lower k') (to_lower k)); [contradiction|reflexivity].
  - destruct (str_eqb _ _); [reflexivity|exact IH].
Qed.

Lemma request_options_range s :
  good_settings (m_settings s) -> Settings.find http_options.range (request_options s) = None.
Proof.
  intros [_ _ O]. unfold request_options. destruct (m_keep_alive s); [|exact O].
  rewrite find_insert_other_key; [exact O|discriminate].
Qed.

Lemma requested_range l r o :
  0 <= l < 2 ^ 62 -> Settings.find http_options.range o = None ->
  requested (Settings.insert http_options.range (range_text l r) o) = l.
Proof.
  intros Hl Ho. unfold requested. rewrite find_insert_absent_key by exact Ho.
  change (drop 6 (range_text l r)) with (itoa l ++ $"-" ++ itoa r). rewrite strtoll_itoa; [reflexivity| |reflexivity].
  unfold INT64_MIN, INT64_MAX. lia.
Qed.

(** *** Storage *)

Lemma write_at_in o data old x :
  0 <= o -> o <= Z.of_nat x < o + Z.of_nat (length data) ->
  write_at o data old !! x = data !! (x - Z.to_nat o)%nat.
Proof.
  intros Ho Hx. unfold write_at. destruct data as [|c data']; [cbn [length] in Hx; lia|].
  set (data := c :: data') in *.
  assert (length (take (Z.to_nat o) old ++ replicate (Z.to_nat o - length old) NUL) = Z.to_nat o) as L
    by (rewrite length_app, length_take, length_replicate; lia).
  rewrite app_assoc, lookup_app_r by lia. rewrite L, lookup_app_l by lia. reflexivity.
Qed.

Lemma write_at_out o data old x :
  0 <= o -> (x < length old)%nat -> ~ (o <= Z.of_nat x < o + Z.of_nat (length data)) ->
  write_at o data old !! x = old !! x.
Proof.
  intros Ho Hl Hx. unfold write_at. destruct data as [|c data']; [reflexivity|].
  set (data := c :: data') in *. destruct (decide (x < Z.to_nat o)%nat) as [E|E].
  - rewrite lookup_app_l by (rewrite length_take; lia). now rewrite lookup_take_lt.
  - assert (length (take (Z.to_nat o) old ++ replicate (Z.to_nat o - length old) NUL) = Z.to_nat o) as L
      by (rewrite length_app, length_take, length_replicate; lia).
    rewrite app_assoc, lookup_app_r by lia. rewrite L, lookup_app_r by lia. rewrite lookup_drop. f_equal. lia.
Qed.

(** *** Handlers *)

(** The frame of a handler. *)
Lemma wp_handler (body : DL ()) s :
  inv 1 s ->
  (forall v, inv 1 (set_outstanding v s) -> wp body (fun _ s' => inv 1 s' /\ armed s') (set_outstanding v s)) ->
  wp (auto_outstanding (change_outstranding false ;; body)) (fun _ s' => inv 0 s' /\ armed s') s.
Proof.
  intros H Hb. unfold auto_outstanding, change_outstranding. apply wp_bind, wp_modify, wp_bind, wp_bind, wp_modify.
  eapply wp_mono; [apply Hb|].
  - pose proof (inv_outstanding 1 1 s H) as H1. apply (inv_outstanding _ (-1)) in H1. exact H1.
  - intros a s' [Hi Ha]. apply wp_bind, wp_modify, wp_ret. split; [|exact Ha].
    apply (inv_outstanding _ (-1)) in Hi. exact Hi.
Qed.

Lemma inv_objects_lookup d s p o : inv d s -> objects s !! p = Some o -> good_object (m_rangefield s) o.
Proof. intros H Hp. destruct H. rewrite Forall_lookup in i_objects0. eauto. Qed.

Lemma inv_continue d s i p now o :
  inv d s -> armed s -> idle p s -> objects s !! p = Some o -> next_byte (stream_of o) = position o ->
  wp (continue_reading i p now) (fun _ s' => inv d s' /\ armed s') s.
Proof.
  intros H A I Ho Hn. unfold continue_reading, modify_object, available_bytes.
  apply wp_bind, wp_modify, wp_bind.
  set (s1 := set_objects (alter (set_last_request_time (Some now)) p (objects s)) s).
  assert (inv d s1) as H1 by (apply inv_modify_keeps; [intros ?; auto|exact H]).
  assert (objects s1 !! p = Some (set_last_request_time (Some now) o)) as Ho1
    by (unfold s1; md_simpl; now rewrite list_lookup_alter_eq, Ho).
  assert (forall n s2, inv d s2 -> objects s2 = objects s1 -> pending s2 = pending s1 -> m_abort s2 = m_abort s1 ->
    wp (start_operation (Read i p n)) (fun _ s' => inv d s' /\ armed s') s2) as K.
  { intros n s2 H2 E1 E2 E3. eapply wp_mono; [apply (inv_operation d s2 p); auto|].
    - unfold idle. rewrite E2. exact I.
    - cbn. rewrite E1. eauto.
    - intros _ s' (J & P & M & _). split; [exact J|]. eapply (armed_app s2); eauto. unfold armed. rewrite E2, E3. exact A. }
  apply wp_bind, wp_get. destruct (negb _).
  - apply wp_bind, wp_modify, wp_ret. apply K; auto. inv_frame H1.
  - apply wp_ret, K; auto.
Qed.

Lemma inv_abort_single d s : inv d s -> armed s -> wp abort_single (fun _ s' => inv d s' /\ armed s') s.
Proof.
  intros H A. unfold abort_single. apply wp_bind, wp_get. rewrite (i_multi _ _ H). now apply wp_ret.
Qed.

Lemma inv_handle_open s i p e n now o :
  inv 1 s -> armed s -> idle p s -> objects s !! p = Some o -> (e = None -> next_byte (stream_of o) = position o) ->
  wp (handle_open i p e n now) (fun _ s' => inv 0 s' /\ armed s') s.
Proof.
  intros H A I Ho Hn. apply wp_handler; [exact H|]. intros v Hv. set (s1 := set_outstanding v s) in *.
  apply wp_bind, wp_get. rewrite (i_multi _ _ Hv). cbn [negb andb].
  destruct e as [e|]; cbn [orb]; [|destruct (m_abort s1)].
  1,2: apply wp_bind; unfold modify_object at 1; apply wp_modify;
       apply inv_abort_single; [apply inv_modify_keeps; [intros ?; auto|exact Hv]|exact A].
  apply wp_bind, wp_ret. now apply (inv_continue 1 s1 i p now o); auto.
Qed.

Lemma inv_handle_request s i p e now o :
  inv 1 s -> armed s -> idle p s -> objects s !! p = Some o -> (e = None -> next_byte (stream_of o) = position o) ->
  wp (handle_request i p e now) (fun _ s' => inv 0 s' /\ armed s') s.
Proof.
  intros H A I Ho Hn. apply wp_handler; [exact H|]. intros v Hv. apply wp_bind. unfold modify_object at 1.
  apply wp_modify. md_simpl.
  set (f := fun o => set_request_count _ o). set (s1 := set_objects (alter f p (objects s)) (set_outstanding v s)).
  assert (inv 1 s1) as H1 by (apply (inv_modify_keeps 1 (set_outstanding v s)); [intros ?; auto|exact Hv]).
  assert (objects s1 !! p = Some (f o)) as Ho1 by (unfold s1; md_simpl; now rewrite list_lookup_alter_eq, Ho).
  apply wp_bind, wp_get.
  destruct e as [e|]; cbn [orb]; [|destruct (m_abort s1)].
  1,2: apply wp_bind; unfold modify_object at 1; apply wp_modify;
       apply inv_abort_single; [apply inv_modify_keeps; [intros ?; auto|exact H1]|exact A].
  now apply (inv_continue 1 s1 i p now (f o)); auto.
Qed.

(** Data that arrives at position [l] of the file. *)
Lemma served_slice l data :
  0 <= l -> data = take (length data) (drop (Z.to_nat l) content) -> data <> [] ->
  l + Z.of_nat (length data) <= F
  /\ forall x, l <= Z.of_nat x < l + Z.of_nat (length data) -> data !! (x - Z.to_nat l)%nat = content !! x.
Proof.
  intros Hl E Ne. assert (length data <= length content - Z.to_nat l)%nat as L
    by (rewrite E at 1; rewrite length_take, length_drop; lia).
  assert (0 < length data)%nat by (destruct data; [congruence|cbn; lia]).
  split; [unfold F; lia|]. intros x Hx. rewrite E, lookup_take_lt, lookup_drop by lia. f_equal. lia.
Qed.

(** Storing the data and updating the field keeps the data right. *)
Lemma inv_save d s p o data e :
  inv d s -> objects s !! p = Some o -> data = take (length data) (drop (Z.to_nat (position o)) content) ->
  exists f st, save_data asserts p data e s = Ok ((), set_storage st (set_downlaoded_field f s))
  /\ inv d (set_storage st (set_downlaoded_field f s)).
Proof.
  intros H Ho E. pose proof (inv_objects_lookup _ _ _ _ H Ho) as G. destruct H, G.
  assert (exists f st, Ok ((), s) = Ok ((), set_storage st (set_downlaoded_field f s)) :> result dl_fault _
    /\ inv d (set_storage st (set_downlaoded_field f s))) as Id.
  { exists (m_downlaoded_field s), (m_storage s). destruct s; split; [reflexivity|]. constructor; auto. }
  unfold save_data. rewrite (bind_ok _ _ s o s) by (unfold deref_object; run; now rewrite Ho).
  rewrite (bind_ok _ _ s s s) by reflexivity. destruct i_data0 as (st & Es & D). rewrite Es. cbn [andb].
  destruct (Z.of_nat (length data) =? 0) eqn:En; [exact Id|]. cbn [negb andb].
  destruct (match e with None => true | Some eof => true | _ => false end); [|exact Id]. clear Id.
  assert (data <> []) as Ne by (intros ->; discriminate En).
  destruct (served_slice (position o) data) as [L S]; [unfold position; lia|exact E|exact Ne|].
  destruct i_settings0 as [B M O]. destruct B as (B1 & B2 & B3 & B4).
  assert (0 < Z.of_nat (length data)) by lia. fold (position o).
  rewrite (int64_id (position o)) by (unfold position in *; lia).
  rewrite int64_id by (unfold position in *; lia). rewrite i_size0. replace (F =? -1) with false by lia. cbn [negb].
  destruct i_downloaded0 as [W Sz].
  set (f := Rangefield true F (insert_or_assign (position o) (position o + Z.of_nat (length data))
              (m_ranges (m_downlaoded_field s))) false).
  rewrite (bind_ok _ _ s () (set_downlaoded_field f s)); cycle 1.
  { unfold on_downloaded. run. rewrite update_run by apply (wf_unlocked _ W). rewrite Sz.
    replace ((0 <=? position o) && _ && _) with true by (unfold position in *; lia). reflexivity. }
  exists f, (Some (write_at (position o) data st)).
  split; [unfold write_storage; run; md_simpl; now rewrite Es|].
  assert (wf_rangefield f) as Wf.
  { unfold f. rewrite <- Sz. apply wf_assign; auto; unfold position in *; lia. }
  constructor; md_simpl; auto; [constructor; auto; repeat split; assumption|].
  exists (write_at (position o) data st). split; [reflexivity|]. intros x Hx.
  assert (0 <= x) as X0.
  { apply covered_true in Hx as (q & Hq & Hx). pose proof (proj1 (List.Forall_forall _ _) (wf_valid _ Wf) q Hq) as [V|V];
      subst; cbn in *; lia. }
  destruct (decide (position o <= x < position o + Z.of_nat (length data))) as [In|Out].
  - rewrite write_at_in by (unfold position in *; lia). apply S. lia.
  - unfold f in Hx. cbn [m_ranges] in Hx. rewrite covered_assign in Hx by apply (wf_sorted _ W).
    apply orb_true_iff in Hx as [Hx|Hx]; [unfold covers in Hx; cbn [fst snd] in Hx; lia|].
    assert (covered (m_ranges (m_downlaoded_field s)) x = true) as Hc.
    { apply covered_true in Hx as (q & Hq & Hx). apply filter_In in Hq as [Hq _]. apply covered_true. eauto. }
    pose proof (D x Hc) as Dx. rewrite write_at_out; [exact Dx|unfold position in *; lia| |lia].
    apply lookup_lt_is_Some. rewrite Dx. apply lookup_lt_is_Some.
    apply covered_true in Hc as (q & Hq & Hc). pose proof (proj1 (List.Forall_forall _ _) (wf_valid _ W) q Hq) as [V|V];
      [rewrite Sz in V; unfold F in V; lia|subst q; cbn in Hc; lia].
Qed.

(** Several changes of one object. *)
Definition with_object (p : nat) (f : http_stream_object -> http_stream_object) (s : multi_download) : multi_download :=
  set_objects (alter f p (objects s)) s.

Lemma with_object_twice p f g s : with_object p f (with_object p g s) = with_object p (fun o => f (g o)) s.
Proof.
  unfold with_object. md_simpl. assert (alter f p (alter g p (objects s)) = alter (fun o => f (g o)) p (objects s)) as ->; [|reflexivity].
  apply list_eq. intros i. destruct (decide (i = p)) as [->|Ne].
  - rewrite !list_lookup_alter_eq. now destruct (objects s !! p).
  - now rewrite !list_lookup_alter_ne by congruence.
Qed.

Lemma with_object_lookup p f s o : objects s !! p = Some o -> objects (with_object p f s) !! p = Some (f o).
Proof. intros H. unfold with_object. md_simpl. now rewrite list_lookup_alter_eq, H. Qed.

Lemma wp_modify_object p f Q s : Q () (with_object p f s) -> wp (modify_object p f) Q s.
Proof. apply wp_modify. Qed.

(** The object when a new range was given to it. *)
Definition reassigned (c : settings) (req_opt : opts) (r : range) (now : Z) (o : http_stream_object) : http_stream_object :=
  set_last_request_time (Some now)
    (set_stream_of (set_max_redirects 0 (configure c req_opt (stream_of o)))
       (set_bytes_transferred 0 (set_request_range r o))).

Lemma inv_request_next d s i p now o :
  inv d s -> armed s -> idle p s -> objects s !! p = Some o ->
  wp (request_next asserts fuel i p now) (fun _ s' => inv d s' /\ armed s') s.
Proof.
  intros H A I Ho. pose proof (inv_objects_lookup _ _ _ _ H Ho) as G.
  unfold request_next. apply wp_bind. apply (wp_ok _ _ _ o s); [unfold deref_object; run; now rewrite Ho|].
  destruct (inv_allocate d s (request_range o) H (go_old _ _ G)) as (b & r & f & E & H1 & Hb).
  apply wp_bind, (wp_ok _ _ _ _ _ E), wp_bind, wp_modify_object. cbn [fst snd].
  set (s1 := set_rangefield f s) in *. assert (objects s1 !! p = Some o) as Ho1 by exact Ho.
  pose proof (inv_objects_lookup _ _ _ _ H1 Ho1) as G1.
  destruct b; cbn [negb].
  - do 4 (apply wp_bind; first [apply wp_get | apply wp_modify_object]).
    rewrite !with_object_twice. md_simpl.
    set (opt := Settings.insert http_options.range _ _).
    change (wp (start_operation (if negb (m_keep_alive s1) then Open i p else Request i p))
      (fun _ s' => inv d s' /\ armed s') (with_object p (reassigned (m_settings s1) opt r now) s1)).
    destruct Hb as (R1 & R2 & R3). pose proof (i_settings _ _ H1) as GS.
    assert (requested opt = left r) as Rq.
    { apply requested_range; [destruct GS as [[] _ _]; lia|]. now apply request_options_range. }
    eapply wp_mono; [apply (inv_operation d _ p)|].
    + apply inv_modify; [exact H1|exact I|]. intros o' _ _. constructor; unfold position; cbn; try lia. exact R3.
    + exact I.
    + destruct (negb _); reflexivity.
    + assert (objects (with_object p (reassigned (m_settings s1) opt r now) s1) !! p
              = Some (reassigned (m_settings s1) opt r now o)) as L by now apply with_object_lookup.
      destruct (negb _); cbn [good_op]; eexists; (split; [exact L|]); unfold position; cbn; lia.
    + intros _ s' (J & P & M & _). split; [exact J|]. eapply armed_app; [|exact M|exact P]. exact A.
  - apply wp_modify_object. rewrite with_object_twice. split; [|exact A]. subst r.
    apply inv_modify; [exact H1|exact I|]. intros o' Ho' _. rewrite Ho1 in Ho'. injection Ho' as <-.
    destruct G1. constructor; auto.
Qed.

(** The object after a read: [n] bytes arrived and were counted. *)
Lemma inv_count d s p o data :
  inv d s -> idle p s -> objects s !! p = Some o ->
  data = take (length data) (drop (Z.to_nat (position o)) content) ->
  next_byte (stream_of o) = position o + Z.of_nat (length data) ->
  let o' := count_bytes (Z.of_nat (length data)) o in
  inv d (with_object p (count_bytes (Z.of_nat (length data))) s) /\ next_byte (stream_of o') = position o'.
Proof.
  intros H I Ho E Hn. pose proof (inv_objects_lookup _ _ _ _ H Ho) as G. pose proof (i_settings _ _ H) as [B _ _].
  destruct B as (B1 & B2 & B3 & B4). destruct G.
  assert (position o + Z.of_nat (length data) <= F) as L.
  { destruct data as [|c data']; [cbn [length]; lia|].
    apply (served_slice (position o) (c :: data')); [unfold position; lia|exact E|discriminate]. }
  assert (int64 (bytes_transferred o + Z.of_nat (length data)) = bytes_transferred o + Z.of_nat (length data)) as E1
    by (apply int64_id; unfold position in *; lia).
  cbv zeta. split.
  - apply inv_modify; [exact H|exact I|]. intros o' Ho' _. rewrite Ho in Ho'. injection Ho' as <-.
    constructor; unfold position in *; cbn; rewrite ?E1; auto; lia.
  - unfold position in *. cbn. rewrite E1. lia.
Qed.

Lemma inv_handle_read s i p data e now o :
  inv 1 s -> armed s -> idle p s -> objects s !! p = Some o ->
  data = take (length data) (drop (Z.to_nat (position o)) content) ->
  next_byte (stream_of o) = position o + Z.of_nat (length data) ->
  wp (handle_read asserts fuel i p data e now) (fun _ s' => inv 0 s' /\ armed s') s.
Proof.
  intros H A I Ho E Hn. apply wp_handler; [exact H|]. intros v Hv.
  destruct (inv_save 1 (set_outstanding v s) p o data e Hv Ho E) as (f & st & Es & H1).
  apply wp_bind, (wp_ok _ _ _ _ _ Es), wp_bind, wp_modify_object.
  set (s1 := set_storage st (set_downlaoded_field f (set_outstanding v s))) in *.
  destruct (inv_count 1 s1 p o data H1 I Ho E Hn) as [H2 Hn2].
  set (o2 := count_bytes (Z.of_nat (length data)) o) in *.
  set (s2 := with_object p (count_bytes (Z.of_nat (length data))) s1) in *.
  assert (objects s2 !! p = Some o2) as Ho2 by now apply with_object_lookup.
  assert (armed s2) as A2 by exact A. assert (idle p s2) as I2 by exact I. clearbody s1.
  apply wp_bind, wp_get.
  destruct ((match e with Some _ => true | None => false end) || m_abort s2); [now apply inv_abort_single|].
  apply wp_bind, wp_modify. set (s3 := set_byte_rate _ s2).
  assert (inv 1 s3) as H3 by (inv_frame H2).
  apply wp_bind, (wp_ok _ _ _ o2 s3); [unfold deref_object; run; unfold s3; md_simpl; now rewrite Ho2|].
  rewrite (i_multi _ _ H2). cbn [andb negb]. destruct (range_length _ <=? _).
  - destruct (negb (m_keep_alive s2) || _).
    + apply wp_modify_object. split; [apply inv_modify_keeps; [intros ?; auto|exact H3]|exact A2].
    + now apply (inv_request_next 1 s3 i p now o2).
  - now apply (inv_continue 1 s3 i p now o2).
Qed.

(** *** The timer *)

(** A fresh copy of a connection. *)
Lemma inv_new_object d s o :
  inv d s -> good_object (m_rangefield s) o ->
  inv d (set_objects (objects s ++ [o]) s) /\ idle (length (objects s)) (set_objects (objects s ++ [o]) s).
Proof.
  intros H G. split.
  - destruct H; constructor; md_simpl; auto.
    + eapply List.Forall_impl; [|exact i_streams0]. intros q Hq. cbv beta in *. rewrite length_app. lia.
    + apply Forall_app. auto.
    + eapply List.Forall_impl; [|exact i_pending0]. intros [] Hop; cbn in *; auto;
        destruct Hop as (o' & Ho' & P); exists o'; (split; [now apply lookup_app_l_Some|exact P]).
  - unfold idle. md_simpl. intros Hin. apply pointers_In in Hin as (op & Hop & E). destruct H.
    rewrite Forall_forall in i_pending0. apply i_pending0 in Hop.
    destruct op; cbn in *; try discriminate; injection E as ->; destruct Hop as (o' & Ho' & _);
      apply lookup_lt_Some in Ho'; lia.
Qed.

Lemma inv_streams_insert d s i q :
  inv d s -> (q < length (objects s))%nat -> inv d (set_streams (<[i := q]> (m_streams s)) s).
Proof.
  intros H Hq. destruct H; constructor; md_simpl; auto. now apply Forall_insert.
Qed.

(** What a run of the timer's loop keeps besides the invariant. *)
Definition running (s s' : multi_download) : Prop :=
  (m_abort s' = m_abort s \/ m_abort s' = true) /\ (forall c, In (Wait c) (pending s) -> In (Wait c) (pending s'))
  /\ length (m_streams s') = length (m_streams s).

Lemma running_refl s : running s s.
Proof. repeat split; auto. Qed.
Lemma running_trans a b c : running a b -> running b c -> running a c.
Proof.
  intros (A1 & A2 & A3) (B1 & B2 & B3). split; [|split; [auto|congruence]].
  destruct B1 as [-> | ->]; auto.
Qed.

Lemma inv_resume_range d s p o :
  inv d s -> idle p s -> objects s !! p = Some o ->
  wp (resume_range asserts fuel p)
    (fun r s' => inv d s' /\ idle p s' /\ running s s' /\ m_settings s' = m_settings s
       /\ match r with
          | None => True
          | Some (l, _) => exists o', objects s' !! p = Some o' /\ position o' = l
          end) s.
Proof.
  intros H I Ho. pose proof (inv_objects_lookup _ _ _ _ H Ho) as G. pose proof (i_settings _ _ H) as [B _ _].
  destruct B as (B1 & B2 & B3 & B4). pose proof G as [G1 G2 G3 G4 G5]. fold (position o).
  unfold resume_range. apply wp_bind, (wp_ok _ _ _ o s); [unfold deref_object; run; now rewrite Ho|].
  fold (position o). rewrite (int64_id (position o)) by (unfold position in *; lia).
  destruct (int64 _ <=? 0).
  - destruct (inv_allocate d s (request_range o) H G5) as (b & r & f & E & H1 & Hb).
    apply wp_bind, (wp_ok _ _ _ _ _ E), wp_bind, wp_modify_object. cbn [fst snd].
    set (s1 := set_rangefield f s) in *. assert (objects s1 !! p = Some o) as Ho1 by exact Ho.
    pose proof (inv_objects_lookup _ _ _ _ H1 Ho1) as O1.
    destruct b; cbn [negb].
    + apply wp_bind, wp_modify_object, wp_ret. rewrite with_object_twice. destruct Hb as (R1 & R2 & R3).
      split; [|split; [exact I|split; [repeat split; auto|split; [reflexivity|]]]].
      * apply inv_modify; [exact H1|exact I|]. intros o' _ _. constructor; unfold position; cbn; try lia. exact R3.
      * eexists. split; [apply with_object_lookup; exact Ho1|]. unfold position. cbn. lia.
    + apply wp_bind, wp_modify_object, wp_bind, wp_modify, wp_ret. rewrite with_object_twice. subst r.
      split; [|split; [exact I|split; [repeat split; auto|auto]]].
      assert (inv d (with_object p (fun o0 => set_done true (set_request_range (request_range o) o0)) s1)) as J.
      { apply inv_modify; [exact H1|exact I|]. intros o' Ho' _. rewrite Ho1 in Ho'. injection Ho' as <-.
        destruct O1. constructor; auto. }
      inv_frame J.
  - apply wp_ret. split; [exact H|]. split; [exact I|]. split; [apply running_refl|]. split; [reflexivity|]. eauto.
Qed.

Lemma inv_reconnect d s i p now o :
  inv d s -> objects s !! p = Some o ->
  wp (reconnect asserts fuel i p now) (fun _ s' => inv d s' /\ running s s') s.
Proof.
  intros H Ho. unfold reconnect. apply wp_bind, wp_modify_object.
  set (o1 := set_direct_reconnect false o). set (s1 := with_object p (set_direct_reconnect false) s).
  assert (inv d s1) as H1 by (apply inv_modify_keeps; [intros ?; auto|exact H]).
  assert (objects s1 !! p = Some o1) as Ho1 by now apply with_object_lookup.
  apply wp_bind, (wp_ok _ _ _ o1 s1); [unfold deref_object; run; now rewrite Ho1|].
  unfold make_shared. apply wp_bind, wp_bind, wp_get, wp_bind, wp_modify, wp_ret.
  destruct (inv_new_object d s1 o1 H1 (inv_objects_lookup _ _ _ _ H1 Ho1)) as [H2 I2].
  set (q := length (objects s1)) in *. set (s2 := set_objects (objects s1 ++ [o1]) s1) in *.
  assert (objects s2 !! q = Some o1) as Ho2 by (unfold s2; md_simpl; now rewrite lookup_app_r, Nat.sub_diag by lia).
  apply wp_bind, wp_modify. set (s3 := set_streams _ s2).
  assert (inv d s3) as H3 by (apply inv_streams_insert; [exact H2|apply lookup_lt_Some in Ho2; exact Ho2]).
  apply wp_bind, wp_modify_object. set (s4 := with_object q (set_stream_of stream_new) s3).
  assert (inv d s4) as H4.
  { apply inv_modify; [exact H3|exact I2|]. intros o' Ho' []. constructor; auto. }
  assert (objects s4 !! q = Some (set_stream_of stream_new o1)) as Ho4 by now apply with_object_lookup.
  assert (running s s4) as R4.
  { repeat split; auto. unfold s4, s3, with_object. md_simpl. now rewrite length_insert. }
  apply wp_bind. eapply wp_mono; [apply (inv_resume_range d s4 q _ H4 I2 Ho4)|].
  intros r s5 (H5 & I5 & R5 & S5 & Hr). apply (running_trans _ _ _ R4) in R5.
  destruct r as [[l r]|]; [|now apply wp_ret].
  destruct Hr as (o5 & Ho5 & P5). pose proof (inv_objects_lookup _ _ _ _ H5 Ho5) as G5. pose proof G5 as [].
  apply wp_bind, wp_get, wp_bind, wp_modify_object, wp_bind, wp_modify_object. rewrite with_object_twice.
  set (opt := Settings.insert http_options.range _ _). set (g := fun o => set_last_request_time _ _).
  assert (requested opt = l) as Rq.
  { pose proof (i_settings _ _ H5) as GS. apply requested_range; [|now apply request_options_range].
    destruct GS as [[] _ _]. unfold position in *. lia. }
  eapply wp_mono; [apply (inv_operation d (with_object q g s5) q)|].
  - apply inv_modify; [exact H5|exact I5|]. intros o' _ []. constructor; auto.
  - exact I5.
  - reflexivity.
  - exists (g o5). split; [now apply with_object_lookup|]. unfold position in *. cbn. lia.
  - intros _ s' (J & P & M & T). split; [exact J|]. eapply running_trans; [exact R5|].
    split; [left; exact M|]. split; [|now rewrite T]. intros c Hc. rewrite P. apply in_app_iff. now left.
Qed.

Lemma inv_check_connection d s i now now' :
  inv d s -> (i < length (m_streams s))%nat ->
  wp (check_connection asserts fuel i now now') (fun _ s' => inv d s' /\ running s s') s.
Proof.
  intros H Hi. unfold check_connection. apply wp_bind, wp_get.
  destruct (lookup_lt_is_Some_2 _ _ Hi) as [p Hp]. rewrite Hp.
  assert (p < length (objects s))%nat as Lp.
  { destruct H. rewrite Forall_lookup in i_streams0. eapply i_streams0, Hp. }
  destruct (lookup_lt_is_Some_2 _ _ Lp) as [o Ho].
  apply wp_bind, (wp_ok _ _ _ o s); [unfold deref_object; run; now rewrite Ho|].
  destruct (_ && _); [|apply wp_ret; split; [exact H|apply running_refl]].
  apply wp_bind, wp_modify_object. set (g := fun o => set_stream_of _ o).
  assert (inv d (with_object p g s)) as H1 by (apply inv_modify_keeps; [intros ?; auto|exact H]).
  assert (running s (with_object p g s)) as R1 by (repeat split; auto).
  destruct (hopeless (ec o)).
  - apply wp_modify_object. split; [apply inv_modify_keeps; [intros ?; auto|exact H1]|repeat split; auto].
  - rewrite (i_multi _ _ H). cbn [negb]. eapply wp_mono; [apply (inv_reconnect d _ i p now' (g o)); [exact H1|]|].
    + now apply with_object_lookup.
    + intros _ s' [J R]. split; [exact J|]. now apply (running_trans _ _ _ R1).
Qed.

Lemma inv_check_connections d clock n : forall s i,
  inv d s -> (i + n <= length (m_streams s))%nat ->
  wp (check_connections asserts fuel n i clock) (fun _ s' => inv d s' /\ running s s') s.
Proof.
  induction n as [|n IH]; intros s i H Hi; cbn [check_connections].
  - apply wp_ret. split; [exact H|apply running_refl].
  - apply wp_bind. eapply wp_mono; [apply (inv_check_connection d s i); [exact H|lia]|].
    intros _ s1 [H1 R1]. eapply wp_mono; [apply (IH s1 (S i) H1); destruct R1 as (_ & _ & ->); lia|].
    intros _ s2 [H2 R2]. split; [exact H2|]. eapply running_trans; eauto.
Qed.

Lemma inv_meta_written d s f path t :
  inv d s -> wf_rangefield f -> m_size f = m_file_size s ->
  (forall x, covered (m_ranges f) x = covered (m_ranges (m_downlaoded_field s)) x) ->
  inv d (meta_written f path t s).
Proof.
  intros H W Sz C. unfold meta_written. destruct H; constructor; md_simpl; auto; [split; congruence|].
  destruct i_data0 as (st & E & D). exists st. split; [exact E|]. intros x. rewrite C. apply D.
Qed.

(** A tick of the timer: the wait that ended was the one that is armed, or
    another one still is. *)
Lemma inv_on_tick s e clock :
  inv 1 s -> (e = None \/ armed s) ->
  wp (on_tick asserts junk junk_byte junk_int can_open fuel e clock) (fun _ s' => inv 0 s' /\ armed s') s.
Proof.
  intros H A. apply wp_handler; [exact H|]. intros v Hv. apply wp_bind, wp_modify. set (s1 := set_time_total _ _).
  assert (inv 1 s1) as H1 by (inv_frame Hv). assert (e = None \/ armed s1) as A1 by exact A.
  apply wp_bind, wp_get. rewrite (i_multi _ _ H1).
  destruct (update_meta_frame junk junk_byte junk_int can_open s1) as (f & path & t & E & W & Sz & C);
    [apply (i_downloaded _ _ H1)|rewrite (i_size _ _ H1); apply (i_downloaded _ _ H1)
    |rewrite (i_size _ _ H1); apply (i_settings _ _ H1)|].
  apply wp_bind, (wp_ok _ _ _ _ _ E). set (s2 := meta_written f path t s1).
  assert (inv 1 s2) as H2 by now apply inv_meta_written.
  destruct (negb (m_abort s1) && _) eqn:Ab.
  - apply wp_bind. eapply wp_mono; [apply (inv_timer 1 s2 H2)|]. intros [] s0 H0. apply wp_bind.
    eapply wp_mono; [exact H0|]. clear H0. intros _ s3 (H3 & W3 & M3 & T3).
    apply wp_bind, wp_modify, wp_bind, wp_modify, wp_bind, wp_get, wp_bind. md_simpl.
    set (s4 := set_drop_size _ _). assert (inv 1 s4) as H4 by (inv_frame H3).
    eapply wp_mono; [apply (inv_check_connections 1 clock (length (m_streams s3)) s4 0 H4); reflexivity|].
    intros _ s5 [H5 (R5 & R6 & _)]. apply wp_bind, wp_get.
    destruct (_ =? _)%nat; [now apply inv_stop_timer|]. apply wp_ret. split; [exact H5|].
    intros _. apply R6. exact W3.
  - apply wp_ret. split; [exact H2|]. destruct A1 as [->|A1]; [|exact A1].
    unfold armed. change (m_abort s2) with (m_abort s1). rewrite andb_true_r in Ab.
    destruct (m_abort s1); discriminate.
Qed.

(** ** Every event keeps the invariant *)

Lemma inv_finish d s k op :
  inv d s -> pending s !! k = Some op ->
  inv (d + 1) (finish k s) /\ good_op (objects (finish k s)) op
  /\ (forall p, pointer op = Some p -> idle p (finish k s)).
Proof.
  intros H Hk. pose proof (delete_Permutation _ _ _ Hk) as P. destruct H.
  assert (pointers (pending s) ≡ₚ pointers (op :: delete k (pending s))) as P' by (unfold pointers; now rewrite P at 1).
  split; [|split].
  - constructor; unfold finish; md_simpl; auto.
    + rewrite i_outstanding0. f_equal. apply Permutation_length in P. cbn [length] in P. lia.
    + rewrite P in i_pending0. now inversion i_pending0.
    + rewrite P' in i_once0. destruct op; cbn in i_once0; now inversion i_once0.
  - rewrite Forall_lookup in i_pending0. eapply i_pending0, Hk.
  - intros p Hp. unfold idle, finish. md_simpl. rewrite P' in i_once0. unfold pointers in i_once0. cbn in i_once0.
    rewrite Hp in i_once0. now inversion i_once0.
Qed.

(** The calls of the user. *)
Lemma inv_stop d s : inv d s -> wp stop (fun _ s' => inv d s' /\ armed s') s.
Proof.
  intros H. unfold stop. apply wp_bind, wp_modify, wp_bind. unfold cancel_timer. apply wp_modify, wp_modify.
  set (s1 := set_pending _ _). assert (inv d s1) as H1 by (apply inv_cancel, inv_abort; exact H).
  split; [|unfold armed; md_simpl; discriminate]. clearbody s1. induction (m_streams s1) as [|p l IH].
  - destruct s1. exact H1.
  - cbn [foldr]. apply (inv_modify_keeps d _ p (fun o => set_stream_of (close (stream_of o)) o)) in IH;
      [|intros ?; auto]. exact IH.
Qed.

Lemma check_range_run l r f :
  wf_rangefield f ->
  check_range false l r f =
  Ok (existsb (fun i => (fst i <=? l) && (r <=? snd i)) (m_ranges (normalise f)), normalise f).
Proof.
  intros W. unfold check_range. run. rewrite assert_range_run. cbn [andb].
  exact (query_run (fun s => existsb (fun i => (fst i <=? l) && (r <=? snd i)) (m_ranges s)) f W).
Qed.

Lemma inv_halve d k : forall s offset n,
  asserts = false -> inv d s -> armed s -> wp (halve asserts k offset n) (fun _ s' => inv d s' /\ armed s') s.
Proof.
  induction k as [|k IH]; intros s offset n As H A; cbn [halve]; [now apply wp_ret|].
  destruct (n =? 0); [now apply wp_ret|]. apply wp_bind. pose proof (i_downloaded _ _ H) as [W Sz].
  destruct (normalise_wf _ W) as (N & _ & S' & _ & C).
  set (s1 := set_downlaoded_field (normalise (m_downlaoded_field s)) s).
  assert (inv d s1) as H1.
  { assert (inv d (meta_written (normalise (m_downlaoded_field s)) (m_file_meta s) (disk s) s)) as K.
    { apply inv_meta_written; auto. rewrite (i_size _ _ H). congruence. }
    inv_frame K. }
  eapply wp_ok; [unfold on_downloaded; run; rewrite As, check_range_run by exact W; reflexivity|].
  destruct (existsb _ _); [now apply wp_ret|]. apply IH; auto.
Qed.

Lemma inv_fill d content' buffers : forall offset n s,
  asserts = false -> inv d s -> armed s ->
  wp (fill_buffers asserts content' offset n buffers) (fun _ s' => inv d s' /\ armed s') s.
Proof.
  induction buffers as [|b buffers IH]; intros offset n s As H A; cbn [fill_buffers]; [now apply wp_ret|].
  rewrite As. cbn [andb]. destruct (_ =? 0); [now apply wp_ret|]. apply wp_bind.
  eapply wp_mono; [rewrite <- As; now apply IH|]. intros a s' K. now apply wp_ret.
Qed.

Lemma inv_fetch d s buffers offset :
  asserts = false -> 0 <= offset -> inv d s -> armed s ->
  wp (fetch_data asserts buffers offset ≫= fun _ => mret ()) (fun _ s' => inv d s' /\ armed s') s.
Proof.
  intros As Ho H A. apply wp_bind. unfold fetch_data. apply wp_bind, wp_get.
  destruct (i_data _ _ H) as (st & -> & _). apply wp_bind, wp_modify, wp_bind.
  eapply wp_mono; [apply (inv_halve d 65 (set_download_point offset s)); auto; inv_frame H|].
  intros n s' [H' A']. destruct (n =? 0); [now apply wp_ret|].
  eapply wp_mono; [apply (inv_fill d st buffers offset n s' As H' A')|]. intros a s'' K. now apply wp_ret.
Qed.

(** The timer when another operation ends. *)
Lemma armed_finish s k op : armed s -> pending s !! k = Some op -> op <> Wait false -> armed (finish k s).
Proof.
  unfold armed, finish. md_simpl. intros A Hk Ne M. specialize (A M). apply list_elem_of_In in A. apply list_elem_of_In.
  rewrite (delete_Permutation _ _ _ Hk) in A. apply elem_of_cons in A as [<-|A]; [congruence|exact A].
Qed.

Lemma inv_connect d s p o (e : error_code) :
  inv d s -> idle p s -> objects s !! p = Some o -> requested (s_request_options (stream_of o)) = position o ->
  exists o', inv d (if e is None then with_object p connect s else s)
  /\ objects (if e is None then with_object p connect s else s) !! p = Some o'
  /\ (e = None -> next_byte (stream_of o') = position o').
Proof.
  intros H I Ho P. destruct e as [e|].
  - exists o. split; [exact H|]. split; [exact Ho|discriminate].
  - exists (connect o). split; [|split; [now apply with_object_lookup|]].
    + apply inv_modify; [exact H|exact I|]. intros o' _ []. constructor; auto.
    + intros _. exact P.
Qed.

(** Every event that can happen runs to its end and keeps the invariant. *)
Lemma inv_event s ev :
  inv 0 s -> armed s -> enabled s ev -> wp (run_event ev) (fun _ s' => inv 0 s' /\ armed s') s.
Proof.
  intros H A E. destruct ev as [k e n now|k data e now|k e now|k e clock| |buffers offset|rate]; cbn in E.
  - destruct E as (i & p & Hk). unfold wp, run_event. rewrite Hk.
    destruct (inv_finish 0 s k _ H Hk) as (H1 & (o & Ho & P) & I). specialize (I p eq_refl).
    pose proof (armed_finish _ _ _ A Hk ltac:(discriminate)) as A1.
    destruct (inv_connect 1 (finish k s) p o e H1 I Ho P) as (o' & H2 & Ho2 & P2).
    apply (inv_handle_open _ i p e n now o' H2); auto; destruct e; assumption.
  - destruct E as (i & p & n & o & Hk & Ho & Sv & Ln). unfold wp, run_event. rewrite Hk.
    destruct (inv_finish 0 s k _ H Hk) as (H1 & (o' & Ho' & P) & I). specialize (I p eq_refl).
    pose proof (armed_finish _ _ _ A Hk ltac:(discriminate)) as A1.
    change (objects (finish k s)) with (objects s) in Ho'. rewrite Ho in Ho'. injection Ho' as <-. rewrite P in Sv.
    apply (inv_handle_read (with_object p (receive (Z.of_nat (length data))) (finish k s)) i p data e now
             (receive (Z.of_nat (length data)) o)); auto.
    + apply inv_modify; [exact H1|exact I|]. intros o' _ []. constructor; auto.
    + now apply with_object_lookup.
    + unfold position in *. cbn. lia.
  - destruct E as (i & p & Hk). unfold wp, run_event. rewrite Hk.
    destruct (inv_finish 0 s k _ H Hk) as (H1 & (o & Ho & P) & I). specialize (I p eq_refl).
    pose proof (armed_finish _ _ _ A Hk ltac:(discriminate)) as A1.
    destruct (inv_connect 1 (finish k s) p o e H1 I Ho P) as (o' & H2 & Ho2 & P2).
    apply (inv_handle_request _ i p e now o' H2); auto; destruct e; assumption.
  - destruct E as (c & Hk & Hc). destruct (inv_finish 0 s k _ H Hk) as (H1 & _ & _).
    apply (inv_on_tick (finish k s) e clock H1). destruct Hc as [Hc|Hc]; [now left|right].
    apply (armed_finish _ _ _ A Hk). congruence.
  - now apply inv_stop.
  - destruct E as [E As]. now apply inv_fetch.
  - unfold run_event, limit_download_rate. apply wp_modify. split; [|exact A].
    destruct H; constructor; md_simpl; auto. destruct i_settings0. constructor; auto.
Qed.

(** ** Starting a download *)

(** Removing the range header leaves none. *)
Definition removable (o : opts) : Prop :=
  Settings.find http_options.range (Settings.remove http_options.range o) = None.

Lemma remove_insert_absent k v o : Settings.find k o = None -> Settings.remove k (Settings.insert k v o) = o.
Proof.
  unfold Settings.find, Settings.remove, Settings.insert. destruct o as [l fc]. cbn [m_opts m_fake_continue]. intros H. f_equal.
  induction l as [|[a b] l IH]; cbn in *; [now rewrite str_eqb_refl|].
  destruct (str_eqb_spec (to_lower a) (to_lower k)) as [E|E]; [discriminate|].
  destruct (str_eqb_spec a k) as [->|_]; [congruence|]. now rewrite IH.
Qed.

Lemma removable_absent o : Settings.find http_options.range o = None -> removable o.
Proof. intros H. unfold removable. now rewrite remove_absent. Qed.

Lemma removable_range r o : removable o -> removable (range_options r o).
Proof. intros H. unfold removable, range_options. now rewrite remove_insert_absent. Qed.

Lemma requested_options r o : removable o -> 0 <= left r < 2 ^ 62 -> requested (range_options r o) = left r.
Proof. intros H Hr. now apply requested_range. Qed.

Lemma inv_start_first d s p opt close_ec now o :
  inv d s -> idle p s -> objects s !! p = Some o -> request_range o = range_default -> bytes_transferred o = 0 ->
  next_byte (stream_of o) = 0 -> removable opt ->
  wp (start_first asserts fuel p opt close_ec now) (fun x s' => inv d s' /\ removable (snd x)) s.
Proof.
  intros H I Ho Hr Hb Hn Ro. unfold start_first. apply wp_bind, wp_get. rewrite (i_multi _ _ H).
  destruct (inv_allocate d s range_default H ltac:(now left)) as (b & r & f & E & H1 & Hb').
  apply wp_bind, (wp_ok _ _ _ _ _ E). cbn [fst snd]. set (s1 := set_rangefield f s) in *.
  destruct b; cbn [negb].
  2:{ apply wp_bind, wp_modify_object, wp_ret. split; [|exact Ro]. apply inv_modify_keeps; [intros ?; auto|exact H1]. }
  destruct Hb' as (R1 & R2 & R3). pose proof (i_settings _ _ H1) as [(P1 & P2 & P3 & P4) _ _].
  do 3 (apply wp_bind, wp_modify_object). rewrite !with_object_twice.
  set (opt' := range_options r opt). set (g := fun o => set_stream_of (set_max_redirects _ _) _).
  assert (inv d (with_object p g s1)) as H2.
  { apply inv_modify; [exact H1|exact I|]. intros o' Ho' _. change (objects s1) with (objects s) in Ho'.
    rewrite Ho in Ho'. injection Ho' as <-. constructor; unfold position; cbn; rewrite ?Hb; try lia. exact R3. }
  assert (objects (with_object p g s1) !! p = Some (g o)) as Ho2 by now apply with_object_lookup.
  assert (removable opt') as Ro' by now apply removable_range.
  destruct (left r =? 0) eqn:El; cbn [negb].
  - apply wp_bind. eapply wp_mono; [apply (inv_operation d _ p); [exact H2|exact I|reflexivity|]|].
    + exists (g o). split; [exact Ho2|]. unfold position. cbn. rewrite Hb, Hn. lia.
    + intros _ s' (J & _). now apply wp_ret.
  - apply wp_bind, wp_modify_object.
    assert (inv d (with_object p (fun o => set_stream_of (close (stream_of o)) o) (with_object p g s1))) as H3
      by (apply inv_modify_keeps; [intros ?; auto|exact H2]).
    destruct close_ec as [e|]; [now apply wp_ret|]. apply wp_bind.
    eapply wp_mono; [apply (inv_operation d _ p); [exact H3|exact I|reflexivity|]|].
    + eexists. split; [apply with_object_lookup; exact Ho2|]. unfold position. cbn. rewrite Hb.
      unfold opt'. rewrite requested_options; [lia|exact Ro|lia].
    + intros _ s' (J & _). now apply wp_ret.
Qed.

Lemma inv_start_others d clock n : forall i opt s,
  inv d s -> removable opt -> wp (start_others asserts fuel n i opt clock) (fun _ s' => inv d s') s.
Proof.
  induction n as [|n IH]; intros i opt s H Ro; cbn [start_others]; [now apply wp_ret|].
  unfold make_shared. apply wp_bind, wp_bind, wp_get, wp_bind, wp_modify, wp_ret.
  set (o := http_stream_object_new stream_new). pose proof (i_settings _ _ H) as [(P1 & P2 & P3 & P4) _ _].
  destruct (inv_new_object d s o H) as [H1 I1]; [constructor; unfold position; cbn; try lia; now left|].
  set (p := length (objects s)) in *. set (s1 := set_objects (objects s ++ [o]) s) in *.
  assert (objects s1 !! p = Some o) as Ho1 by (unfold s1; md_simpl; now rewrite lookup_app_r, Nat.sub_diag by lia).
  destruct (inv_allocate d s1 range_default H1 ltac:(now left)) as (b & r & f & E & H2 & Hb).
  apply wp_bind, (wp_ok _ _ _ _ _ E). cbn [fst snd]. set (s2 := set_rangefield f s1) in *.
  destruct b; cbn [negb].
  2:{ apply wp_bind, wp_modify_object, IH; [|exact Ro]. apply inv_modify_keeps; [intros ?; auto|exact H2]. }
  destruct Hb as (R1 & R2 & R3). apply wp_bind, wp_get, wp_bind, wp_modify_object, wp_bind, wp_modify_object.
  rewrite with_object_twice. set (g := fun o => set_stream_of _ _). set (opt' := range_options r opt).
  set (s3 := with_object p g s2).
  assert (inv d s3) as H3.
  { apply inv_modify; [exact H2|exact I1|]. intros o' Ho' _. change (objects s2) with (objects s1) in Ho'.
    rewrite Ho1 in Ho'. injection Ho' as <-. constructor; unfold position; cbn; try lia. exact R3. }
  apply wp_bind, wp_modify. set (s4 := set_streams _ s3).
  assert (inv d s4) as H4.
  { destruct H3; constructor; md_simpl; auto. apply Forall_app. split; [exact i_streams0|]. constructor; [|constructor].
    change (objects s4) with (objects s3). assert (length (objects s3) = length (objects s1)) as -> by apply length_alter.
    apply lookup_lt_Some in Ho1. exact Ho1. }
  apply wp_bind, wp_modify_object. set (s5 := with_object p _ s4).
  assert (inv d s5) as H5 by (apply inv_modify_keeps; [intros ?; auto|exact H4]).
  apply wp_bind, wp_modify. set (s6 := set_number_of_connections _ s5). assert (inv d s6) as H6 by (inv_frame H5).
  apply wp_bind. eapply wp_mono; [apply (inv_operation d s6 p); [exact H6|exact I1|reflexivity|]|].
  - exists (set_last_request_time (Some (clock i)) (g o)). split.
    + change (objects s6) with (objects s5). apply with_object_lookup. change (objects s4) with (objects s3).
      now apply with_object_lookup.
    + unfold position. cbn. unfold opt'. rewrite requested_options; [lia|exact Ro|lia].
  - intros _ s' (J & _). apply IH; [exact J|]. now apply removable_range.
Qed.

Section Start.
Variable open_storage : cstring -> result error cstring.
Variable is_directory : cstring -> bool.
Variable crc32 : cstring -> Z.
Variables ansi_utf8 utf8_ansi : cstring -> cstring.

Lemma file_name_run s : exists n, file_name is_directory utf8_ansi s = Ok (n, set_file_name n s).
Proof.
  unfold file_name. run. destruct (nonempty (m_file_name s)); [|eauto].
  exists (m_file_name s). destruct s; reflexivity.
Qed.

(** The object when the response has been used: with the storage opened and
    the default settings, the invariant holds. *)
Definition ready (st : cstring) (s : multi_download) : Prop :=
  inv 1 (set_settings (with_defaults (m_file_size s) (m_settings s)) (set_storage (Some st) s)).

Lemma inv_start_download key limit p h close_ec clock s s1 st o :
  use_response asserts junk junk_byte junk_int can_open crc32 key h s = Ok ((), s1) ->
  ready st s1 -> (forall n, open_storage n = Ok st) ->
  (exists x, 0 <= x < F /\ covered (m_ranges (m_downlaoded_field s1)) x = false) ->
  objects s1 !! p = Some o -> idle p s1 -> request_range o = range_default -> bytes_transferred o = 0 ->
  next_byte (stream_of o) = 0 ->
  wp (start_download asserts junk junk_byte junk_int can_open open_storage is_directory crc32 utf8_ansi fuel
        key limit p h close_ec clock)
     (fun e s' => inv 1 s' /\ (e = None -> armed s')) s.
Proof.
  intros E R St (x & Hx & Nx) Ho I Hr Hb Hn. unfold start_download. apply wp_bind, (wp_ok _ _ _ _ _ E), wp_bind.
  pose proof (i_downloaded _ _ R) as [W Sz]. md_simpl_in W. md_simpl_in Sz.
  destruct (is_full_run (m_downlaoded_field s1) W ltac:(lia)) as (full & Ef & Hf).
  destruct full.
  { rewrite Sz in Hf. rewrite (proj1 Hf eq_refl x Hx) in Nx. discriminate. }
  destruct (normalise_wf _ W) as (N & _ & S' & M & C).
  set (s2 := set_downlaoded_field (normalise (m_downlaoded_field s1)) s1).
  apply (wp_ok _ _ _ false s2); [unfold on_downloaded; run; now rewrite Ef|].
  unfold create_storage. apply wp_bind, wp_bind. destruct (file_name_run s2) as (n & En).
  apply (wp_ok _ _ _ _ _ En). rewrite St. apply wp_bind, wp_modify, wp_ret.
  apply wp_bind, wp_modify, wp_bind, wp_modify, wp_bind, wp_modify, wp_bind, wp_modify, wp_bind, wp_modify.
  set (s3 := set_streams _ _).
  assert (inv 1 s3) as H3.
  { assert (inv 1 (meta_written (normalise (m_downlaoded_field s1)) (m_file_meta s1) (disk s1)
      (set_settings (with_defaults (m_file_size s1) (m_settings s1)) (set_storage (Some st) s1)))) as K
      by (apply inv_meta_written; [exact R|exact N| |exact C]; rewrite S', Sz; symmetry; apply (i_size _ _ R)).
    destruct K. unfold s3, s2. assert (p < length (objects s1))%nat as Lp by (apply lookup_lt_Some in Ho; exact Ho).
    destruct limit; constructor; md_simpl; auto; (apply Forall_app; split; [exact i_streams0|]; constructor; [exact Lp|constructor]). }
  assert (objects s3 !! p = Some o) as Ho3 by (unfold s3, s2; destruct limit; exact Ho).
  assert (idle p s3) as I3 by (unfold s3, s2; destruct limit; exact I).
  apply wp_bind, wp_get, wp_bind.
  eapply wp_mono; [apply (inv_start_first 1 s3 p _ close_ec (clock 0%nat) o H3 I3 Ho3 Hr Hb Hn)|].
  { apply removable_absent. unfold start_options. rewrite find_insert_other_key; [|discriminate].
    apply (i_settings _ _ H3). }
  intros [[e|] opt] s4 [H4 Ro]; cbn [fst snd] in *; [apply wp_ret; split; [exact H4|discriminate]|].
  apply wp_bind, wp_get. rewrite (i_multi _ _ H4). apply wp_bind.
  eapply wp_mono; [apply (inv_start_others 1 clock _ 1 opt s4 H4 Ro)|]. intros [] s5 H5. apply wp_bind.
  eapply wp_mono; [apply (inv_timer 1 s5 H5)|]. intros [] s6 H6. apply wp_bind.
  eapply wp_mono; [exact H6|]. clear H6. intros _ s7 (H7 & A7 & _). apply wp_ret. split; [exact H7|]. intros _ _. exact A7.
Qed.

(** *** A fresh download *)

(** What the response of a server with ranges holds. *)
Record ranged (h : opened) : Prop := {
  rg_ec : o_ec h = None;
  rg_location : o_location h = [] \/ exists u, from_string (o_location h) = Ok u;
  rg_status : find_or_empty http_options.status_code (o_response h) = $"206";
  rg_length : lexical_cast (find_or_empty http_options.content_length (o_response h)) = Some F
}.

(** What is left of an object that was never used. *)
Record fresh (objs : list http_stream_object) (c : settings) (s : multi_download) : Prop := {
  fr_file : forall p, default [] (disk s p) = [];
  fr_range : m_locked (m_rangefield s) = false;
  fr_downloaded : m_locked (m_downlaoded_field s) = false;
  fr_size : m_file_size s = -1;
  fr_point : m_download_point s = 0;
  fr_streams : m_streams s = [];
  fr_objects : objects s = objs;
  fr_pending : pending s = [];
  fr_outstanding : m_outstanding s = 1;
  fr_settings : m_settings s = c
}.

(** The object after the response: only the name of the meta file is new. *)
Record responded (objs : list http_stream_object) (c : settings) (s : multi_download) : Prop := {
  re_multi : m_accept_multi s = true;
  re_range : m_rangefield s = rangefield_new F;
  re_downloaded : m_downlaoded_field s = rangefield_new F;
  re_size : m_file_size s = F;
  re_point : m_download_point s = 0;
  re_streams : m_streams s = [];
  re_objects : objects s = objs;
  re_pending : pending s = [];
  re_outstanding : m_outstanding s = 1;
  re_settings : exists m, m_settings s = set_meta_file m c
}.

Lemma wp_reset_fields n Q s :
  m_locked (m_rangefield s) = false -> m_locked (m_downlaoded_field s) = false ->
  Q () (set_downlaoded_field (rangefield_new n) (set_rangefield (rangefield_new n) (set_file_size n s))) ->
  wp (reset_fields n) Q s.
Proof.
  intros U1 U2 HQ. unfold reset_fields, on_rangefield, on_downloaded, on_field. eapply wp_ok; [|exact HQ].
  run. md_simpl. rewrite !reset_run by assumption. reflexivity.
Qed.

Lemma responded_use_meta objs c s resp :
  responded objs c s -> (forall p, default [] (disk s p) = []) ->
  wp (use_meta asserts junk junk_byte junk_int can_open crc32 resp) (fun _ s' => responded objs c s') s.
Proof.
  intros R D. unfold use_meta. apply wp_bind, wp_get. rewrite (re_multi _ _ _ R).
  apply wp_bind, wp_modify, wp_bind, wp_modify. md_simpl.
  set (s1 := if nonempty _ then _ else _).
  assert (responded objs c s1 /\ forall p, default [] (disk s1 p) = []) as [R1 D1].
  { unfold s1. destruct (nonempty _); (split; [|exact D]); destruct R; constructor; md_simpl; auto.
    destruct re_settings0 as (m & ->). eexists. reflexivity. }
  clearbody s1. apply wp_bind, wp_get, wp_bind.
  set (path := meta_file (m_settings s1)). unfold open_meta. apply wp_bind, wp_get, wp_bind. unfold close_file at 1. apply wp_modify.
  apply wp_bind. unfold open_file. md_simpl. rewrite D1. cbn [length]. change (Z.of_nat 0 =? 0) with true.
  destruct (can_open path).
  - apply wp_bind, wp_modify, wp_ret. cbn [negb]. apply wp_ret, wp_ret. destruct R1; constructor; auto.
  - apply wp_ret. cbn [negb]. apply wp_ret, wp_bind. unfold close_file. apply wp_modify, wp_modify.
    destruct R1; constructor; auto.
Qed.

Lemma responded_use_response key h objs c s :
  ranged h -> disable_multi_download c = false -> fresh objs c s -> 0 < F ->
  wp (use_response asserts junk junk_byte junk_int can_open crc32 key h) (fun _ s' => responded objs c s') s.
Proof.
  intros [_ L S Le] Dm Fr F0. unfold use_response. apply wp_bind.
  assert (wp (if nonempty (o_location h) then assign_final_url (o_location h) else mret ())
    (fun _ s' => fresh objs c s') s) as Hl.
  { destruct L as [->|(u & E)]; [now apply wp_ret|]. destruct (nonempty _); [|now apply wp_ret].
    unfold assign_final_url. rewrite E. apply wp_modify. destruct Fr; constructor; auto. }
  eapply wp_mono; [exact Hl|]. clear Fr Hl. intros [] s0 Fr. apply wp_bind. unfold response_size.
  apply wp_bind, wp_get, wp_bind, wp_modify. rewrite S, (fr_settings _ _ _ Fr), Dm. cbn [negb andb].
  change (str_eqb ($"206") ($"206")) with true. cbn [andb].
  assert (nonempty (find_or_empty http_options.content_length (o_response h)) = true) as Ne.
  { revert Le. destruct (find_or_empty http_options.content_length _); [discriminate|reflexivity]. }
  rewrite Ne. apply wp_bind, wp_ret. rewrite Ne, Le. apply wp_ret, wp_bind, wp_get. md_simpl.
  rewrite (fr_size _ _ _ Fr). assert ((F =? -1) = false) as -> by lia. cbn [negb andb].
  apply wp_bind, wp_reset_fields; [apply Fr|apply Fr|]. set (s1 := set_downlaoded_field _ _).
  assert (responded objs c s1) as R1.
  { destruct Fr; constructor; unfold s1; md_simpl; auto. exists (meta_file c). rewrite fr_settings0. destruct c; reflexivity. }
  assert (forall p, default [] (disk s1 p) = []) as D1 by apply Fr. apply wp_bind. destruct (_ && _).
  - apply wp_modify, responded_use_meta; [destruct R1; constructor; auto|exact D1].
  - apply wp_ret. now apply responded_use_meta.
Qed.

(** The settings with which a fresh download starts. *)
Lemma responded_ready st p o c s :
  responded [o] c s -> good_settings (with_defaults F c) -> p = O ->
  request_range o = range_default -> bytes_transferred o = 0 -> ready st s.
Proof.
  intros R G -> Hr Hb. unfold ready. destruct R. pose proof G as [(P1 & P2 & P3 & P4) _ _].
  pose proof (rangefield_new_wf F ltac:(lia)) as W.
  constructor; md_simpl; auto.
  - destruct re_settings0 as (m & ->). rewrite re_size0.
    assert (with_defaults F (set_meta_file m c) = set_meta_file m (with_defaults F c)) as ->.
    { unfold with_defaults. cbn [connections_limit piece_size set_meta_file].
      destruct (connections_limit c =? -1); cbn [piece_size set_connections_limit set_meta_file];
        destruct ((piece_size c =? -1) && negb (F =? -1)); reflexivity. }
    destruct G. constructor; auto.
  - lia.
  - rewrite re_range0. split; [exact W|reflexivity].
  - rewrite re_downloaded0. split; [exact W|reflexivity].
  - exists st. split; [reflexivity|]. rewrite re_downloaded0. discriminate.
  - rewrite re_outstanding0, re_pending0. reflexivity.
  - rewrite re_streams0. constructor.
  - rewrite re_objects0. constructor; [|constructor]. constructor; unfold position; rewrite ?Hr, ?Hb; cbn; try lia. now left.
  - rewrite re_pending0. constructor.
  - rewrite re_pending0. constructor.
Qed.

Lemma prepare_fresh u c v files :
  from_string (escape_path (ansi_utf8 u)) = Ok v -> (forall p, default [] (files p) = []) ->
  wp (prepare ansi_utf8 u c) (fun _ s' => fresh [] c s')
    (set_outstanding 1 (multi_download_new files)).
Proof.
  intros E D. unfold prepare. apply wp_bind, wp_modify, wp_bind, wp_modify, wp_bind, wp_modify, wp_bind.
  unfold assign_final_url. rewrite E. apply wp_modify, wp_modify. constructor; auto.
Qed.

(** [start] on a new object, without a meta file from an earlier run. *)
Lemma inv_start u c v files h close_ec clock st :
  from_string (escape_path (ansi_utf8 u)) = Ok v -> (forall p, default [] (files p) = []) ->
  ranged h -> disable_multi_download c = false -> good_settings (with_defaults F c) ->
  (forall n, open_storage n = Ok st) ->
  wp (start asserts junk junk_byte junk_int can_open open_storage is_directory crc32 ansi_utf8 utf8_ansi fuel
        u c h close_ec clock)
     (fun e s' => inv 0 s' /\ (e = None -> armed s')) (multi_download_new files).
Proof.
  intros E D R Dm G St. unfold start, auto_outstanding. apply wp_bind. unfold change_outstranding at 1. apply wp_modify.
  apply wp_bind, wp_bind. eapply wp_mono; [apply (prepare_fresh u c v files E D)|]. intros [] s1 F1.
  unfold make_shared. apply wp_bind, wp_bind, wp_get, wp_bind, wp_modify, wp_ret.
  rewrite (rg_ec _ R). pose proof G as [(P1 & _) _ _]. set (s2 := set_objects _ s1).
  assert (fresh [first_object c] c s2) as F2.
  { destruct F1. constructor; unfold s2; md_simpl; auto. now rewrite fr_objects0. }
  pose proof (responded_use_response http_options.content_length h _ _ _ R Dm F2 P1) as K.
  apply wp_run in K as ([] & s3 & E3 & R3). rewrite (fr_objects _ _ _ F1). cbn [length].
  assert (ready st s3) as Rd by (eapply responded_ready; eauto).
  eapply wp_mono; [apply (inv_start_download _ _ 0%nat h close_ec clock s2 s3 st (first_object c)); auto|].
  - exists 0. rewrite (re_downloaded _ _ _ R3). split; [lia|reflexivity].
  - now rewrite (re_objects _ _ _ R3).
  - unfold idle. rewrite (re_pending _ _ _ R3). intros N. inversion N.
  - intros e s4 [H4 A4]. apply wp_bind. unfold change_outstranding. apply wp_modify, wp_ret.
    split; [apply (inv_outstanding 1 (-1) s4 H4)|exact A4].
Qed.
End Start.
End System.
