(* ===== verification/DownloadSafety.v ===== *)
(** What the downloader guarantees: theorems about multi_download over every
    run of the system of DownloadSystem.v, and about its single operations. *)

From stdpp Require Import relations.
From S2P Require Import Prelude CLib EscapeString OrdMap Url Settings HttpBody HttpStream Bitfield Entry Bencode.
From S2P Require Import Rangefield DownloadRange DownloadState DownloadMeta MultiDownload DownloadSystem.

(** ** Runs *)

Section Runs.
Variable asserts : bool.
Variable junk : nat -> Z.
Hypothesis junk_byte : forall n, 0 <= junk n < 256.
Variable junk_int : Z.
Variable can_open : cstring -> bool.
Variable fuel : nat.
Variable content : cstring.

Abbreviation Step := (step asserts junk junk_byte junk_int can_open fuel content).
Abbreviation Run := (run_event asserts junk junk_byte junk_int can_open fuel).
Abbreviation Enabled := (enabled asserts content).
Abbreviation Inv := (inv content 0).

(** The states that a fresh download goes through. *)
Inductive reachable : multi_download -> Prop :=
| reach_start open_storage is_directory crc32 ansi_utf8 utf8_ansi u c v files h close_ec clock st s :
    from_string (escape_path (ansi_utf8 u)) = Ok v -> (forall p, default [] (files p) = []) ->
    ranged content h -> disable_multi_download c = false -> good_settings content (with_defaults (F content) c) ->
    (forall n, open_storage n = Ok st) ->
    start asserts junk junk_byte junk_int can_open open_storage is_directory crc32 ansi_utf8 utf8_ansi fuel
      u c h close_ec clock (multi_download_new files) = Ok (None, s) ->
    reachable s
| reach_step s s' : reachable s -> Step s s' -> reachable s'.

Hypothesis fuel_pos : (0 < fuel)%nat.

Lemma reachable_inv s : reachable s -> Inv s /\ armed s.
Proof.
  induction 1 as [? ? ? ? ? u c v files h ce clock st s E D R Dm G St Eq|s s' _ [H A] (ev & En & Eq)].
  - pose proof (inv_start asserts junk junk_byte junk_int can_open fuel content fuel_pos open_storage is_directory crc32
      ansi_utf8 utf8_ansi u c v files h ce clock st E D R Dm G St) as K.
    unfold wp in K. rewrite Eq in K. destruct K as [K1 K2]. auto.
  - pose proof (inv_event asserts junk junk_byte junk_int can_open fuel content fuel_pos s ev H A En) as K.
    unfold wp in K. now rewrite Eq in K.
Qed.

(** *** After the end was asked for *)

(** An operation ends, with or without success. *)
Definition completion (ev : event) : Prop :=
  match ev with Opens _ _ _ _ | Reads _ _ _ _ | Requested _ _ _ | Ticks _ _ _ => True | _ => False end.

Lemma wp_handler_frame (body : DL ()) (P : multi_download -> Prop) s :
  (forall v s', P s' -> P (set_outstanding v s')) ->
  (forall v, v = int32 (int32 (m_outstanding s + 1) - 1) -> wp body (fun _ s' => P s') (set_outstanding v s)) ->
  wp (auto_outstanding (change_outstranding false ;; body)) (fun _ s' => P s') s.
Proof.
  intros Hp Hb. unfold auto_outstanding, change_outstranding. apply wp_bind, wp_modify, wp_bind, wp_bind, wp_modify.
  eapply wp_mono; [apply Hb; reflexivity|]. intros [] s' Ps. apply wp_bind, wp_modify, wp_ret. now apply Hp.
Qed.

Lemma delete_length s k op : pending s !! k = Some op -> S (length (delete k (pending s))) = length (pending s).
Proof. intros Hk. apply delete_Permutation, Permutation_length in Hk. now rewrite Hk. Qed.

(** What is left to show when an operation ended after [stop]. *)
Definition one_less (s s' : multi_download) : Prop :=
  m_abort s' = true /\ S (length (pending s')) = length (pending s).

Lemma one_less_abort_single s s1 :
  m_accept_multi s1 = true -> one_less s s1 -> wp abort_single (fun _ s' => one_less s s') s1.
Proof. intros M H. unfold abort_single. apply wp_bind, wp_get. rewrite M. now apply wp_ret. Qed.

Lemma open_aborted s s1 i p e n now :
  m_accept_multi s1 = true -> one_less s s1 -> wp (handle_open i p e n now) (fun _ s' => one_less s s') s1.
Proof.
  intros M H. apply wp_handler_frame; [auto|]. intros v _. apply wp_bind, wp_get. md_simpl.
  rewrite (proj1 H), orb_true_r. apply wp_bind, wp_modify_object. now apply one_less_abort_single.
Qed.

Lemma request_aborted s s1 i p e now :
  m_accept_multi s1 = true -> one_less s s1 -> wp (handle_request i p e now) (fun _ s' => one_less s s') s1.
Proof.
  intros M H. apply wp_handler_frame; [auto|]. intros v _. apply wp_bind, wp_modify_object, wp_bind, wp_get.
  unfold with_object. md_simpl. rewrite (proj1 H), orb_true_r. apply wp_bind, wp_modify_object.
  now apply one_less_abort_single.
Qed.

Lemma read_aborted s s1 i p data e now o :
  inv content 1 s1 -> one_less s s1 -> objects s1 !! p = Some o ->
  data = take (length data) (drop (Z.to_nat (position o)) content) ->
  wp (handle_read asserts fuel i p data e now) (fun _ s' => one_less s s') s1.
Proof.
  intros H1 H Ho E. apply wp_handler_frame; [auto|]. intros v ->. apply wp_bind.
  pose proof (inv_outstanding _ _ _ _ (inv_outstanding content 1 1 s1 H1) : inv content (1 + 1 + -1) _) as Hv.
  destruct (inv_save asserts fuel content fuel_pos 1 _ p o data e Hv Ho E) as (f & st & Es & H2).
  apply (wp_ok _ _ _ _ _ Es), wp_bind, wp_modify_object, wp_bind, wp_get. unfold with_object. md_simpl.
  rewrite (proj1 H), orb_true_r. apply one_less_abort_single; [apply (i_multi _ _ _ H1)|exact H].
Qed.

Lemma tick_aborted s s1 e clock :
  inv content 1 s1 -> one_less s s1 ->
  wp (on_tick asserts junk junk_byte junk_int can_open fuel e clock) (fun _ s' => one_less s s') s1.
Proof.
  intros H1 H. apply wp_handler_frame; [auto|]. intros v ->. apply wp_bind, wp_modify, wp_bind, wp_get. md_simpl.
  rewrite (i_multi _ _ _ H1). set (s2 := set_time_total _ _).
  destruct (update_meta_frame junk junk_byte junk_int can_open s2) as (f & path & t & E & _);
    [apply (i_downloaded _ _ _ H1)|transitivity (F content); [apply (i_downloaded _ _ _ H1)|symmetry; apply (i_size _ _ _ H1)]
    |change (m_file_size s2) with (m_file_size s1); rewrite (i_size _ _ _ H1); apply (i_settings _ _ _ H1)|].
  apply wp_bind, (wp_ok _ _ _ _ _ E). rewrite (proj1 H). apply wp_ret. exact H.
Qed.

(** After [stop] every operation that ends leaves one less. *)
Lemma completion_aborted s ev :
  Inv s -> m_abort s = true -> Enabled s ev -> completion ev -> wp (Run ev) (fun _ s' => one_less s s') s.
Proof.
  intros H Ab En Co. destruct ev as [k e n now|k data e now|k e now|k e clock| |buffers offset|rate];
    try contradiction; cbn in En.
  - destruct En as (i & p & Hk). unfold wp, run_event. rewrite Hk.
    apply open_aborted; destruct e; first [apply (i_multi _ _ _ H)|split; [exact Ab|now apply (delete_length _ _ (Open i p))]].
  - destruct En as (i & p & n & o & Hk & Ho & Sv & _). unfold wp, run_event. rewrite Hk.
    destruct (inv_finish fuel content fuel_pos 0 s k _ H Hk) as (H1 & (o' & Ho' & P) & I). specialize (I p eq_refl).
    change (objects (finish k s)) with (objects s) in Ho'. rewrite Ho in Ho'. injection Ho' as <-. rewrite P in Sv.
    apply (read_aborted s _ i p data e now (receive (Z.of_nat (length data)) o)).
    + apply inv_modify; [exact H1|exact I|]. intros o' _ []. constructor; auto.
    + split; [exact Ab|now apply (delete_length _ _ (Read i p n))].
    + now apply with_object_lookup.
    + exact Sv.
  - destruct En as (i & p & Hk). unfold wp, run_event. rewrite Hk.
    apply request_aborted; destruct e; first [apply (i_multi _ _ _ H)|split; [exact Ab|now apply (delete_length _ _ (Request i p))]].
  - destruct En as (c & Hk & _). destruct (inv_finish fuel content fuel_pos 0 s k _ H Hk) as (H1 & _).
    apply (tick_aborted s (finish k s) e clock H1). split; [exact Ab|now apply (delete_length _ _ (Wait c))].
Qed.

(** A pending operation can end. *)
Lemma completion_enabled s op l :
  Inv s -> pending s = op :: l -> exists ev, Enabled s ev /\ completion ev.
Proof.
  intros H E. assert (pending s !! 0%nat = Some op) as Hk by now rewrite E.
  destruct (inv_finish fuel content fuel_pos 0 s 0 op H Hk) as (_ & G & _). destruct op as [i p|i p n|i p|c].
  - exists (Opens 0 None 0 0). split; [|exact I]. cbn. eauto.
  - destruct G as (o & Ho & P). exists (Reads 0 [] None 0). split; [|exact I]. exists i, p, n, o.
    split; [exact Hk|]. split; [exact Ho|]. split; [reflexivity|cbn; lia].
  - exists (Requested 0 None 0). split; [|exact I]. cbn. eauto.
  - exists (Ticks 0 None (fun _ => 0)). split; [|exact I]. cbn. eauto.
Qed.
End Runs.

(** ** An example: forty bytes in pieces of sixteen, two connections *)

Definition example_content : cstring := $"0123456789abcdefghijklmnopqrstuvwxyzABCD".
Definition example_settings : settings := set_connections_limit 2 (set_piece_size 16
  (MkSettings (-1) 5 (-1) 11 1 [] true false [] true new_option proxy_default)).
Definition example_opened : opened :=
  Opened None [] (Opts [($"_status_code", $"206"); ($"Content-Length", $"40"); ($"Connection", $"keep-alive")] false).
Definition example_byte : nat -> Z := fun _ => 170.
Lemma example_byte_ok n : 0 <= example_byte n < 256.
Proof. unfold example_byte. lia. Qed.

Definition example_started (asserts : bool) : result dl_fault (error_code * multi_download) :=
  start asserts example_byte example_byte_ok 7 (fun _ => true) (fun _ => Ok []) (fun _ => false) (fun _ => 123456)
    (fun s => s) (fun s => s) 1 ($"http://host/file") example_settings example_opened None (fun _ => 0)
    (multi_download_new (fun _ => None)).
Definition example_state_of (asserts : bool) : multi_download :=
  match example_started asserts with Ok (_, s) => s | Err _ => multi_download_new (fun _ => None) end.
Definition example_state : multi_download := example_state_of true.

Lemma example_good : good_settings example_content (with_defaults (F example_content) example_settings).
Proof. constructor; [repeat split|vm_compute; reflexivity|reflexivity]. Qed.

Abbreviation example_reachable_in := (reachable true example_byte example_byte_ok 7 (fun _ => true) 1 example_content).

Lemma example_reachable_of asserts :
  reachable asserts example_byte example_byte_ok 7 (fun _ => true) 1 example_content (example_state_of asserts).
Proof.
  apply reach_start with (open_storage := fun _ => Ok []) (is_directory := fun _ => false) (crc32 := fun _ => 123456)
    (ansi_utf8 := fun s => s) (utf8_ansi := fun s => s) (u := $"http://host/file") (c := example_settings)
    (v := Url ($"http") [] ($"host") [] ($"/file") [] [] false) (files := fun _ => None) (h := example_opened)
    (close_ec := None) (clock := fun _ => 0) (st := []).
  - reflexivity.
  - reflexivity.
  - constructor; [reflexivity|now left|reflexivity|reflexivity].
  - reflexivity.
  - apply example_good.
  - reflexivity.
  - destruct asserts; vm_compute; reflexivity.
Qed.

Lemma example_reachable : example_reachable_in example_state.
Proof. apply example_reachable_of. Qed.

(** The first connection receives ten bytes. *)
Definition example_read : event := Reads 0 ($"0123456789") None 5.
Definition example_state1 : multi_download :=
  match run_event true example_byte example_byte_ok 7 (fun _ => true) 1 example_read example_state with
  | Ok (_, s) => s
  | Err _ => example_state
  end.

Lemma example_enabled : enabled true example_content example_state example_read.
Proof.
  exists 0%nat, 0%nat, 1024. eexists. split; [reflexivity|]. split; [vm_compute; reflexivity|].
  split; [vm_compute; reflexivity|vm_compute; discriminate].
Qed.

Lemma example_reachable1 : example_reachable_in example_state1.
Proof.
  apply (reach_step _ _ _ _ _ _ _ example_state); [apply example_reachable|].
  exists example_read. split; [apply example_enabled|vm_compute; reflexivity].
Qed.

(** ** Properties *)

(** C16: downloaded data is right.  In every state that a download can reach,
    with any number of connections, any order in which operations end, any
    errors, timeouts and reconnections, a position that [m_downlaoded_field]
    covers holds in the storage the byte that the server has there; when
    everything is covered the storage starts with the whole file. *)
Theorem download_data_correct asserts junk (Hj : forall n, 0 <= junk n < 256) junk_int can_open fuel content s :
  (0 < fuel)%nat -> reachable asserts junk Hj junk_int can_open fuel content s ->
  exists st, m_storage s = Some st
  /\ (forall x, covered (m_ranges (m_downlaoded_field s)) x = true -> st !! Z.to_nat x = content !! Z.to_nat x)
  /\ ((forall x, 0 <= x < F content -> covered (m_ranges (m_downlaoded_field s)) x = true) ->
      take (length content) st = content).
Proof.
  intros Hf R. destruct (reachable_inv _ _ _ _ _ _ _ Hf s R) as [H _].
  destruct (i_data _ _ _ H) as (st & E & D). exists st. split; [exact E|]. split; [exact D|]. intros Full.
  apply list_eq. intros i. destruct (decide (i < length content)%nat) as [L|L].
  - rewrite lookup_take_lt by exact L. specialize (D (Z.of_nat i)). rewrite Nat2Z.id in D. apply D, Full. unfold F. lia.
  - rewrite lookup_take_ge by lia. symmetry. apply lookup_ge_None. lia.
Qed.

Lemma download_data_correct_witness :
  exists st, m_storage example_state1 = Some st /\ st = $"0123456789"
  /\ covered (m_ranges (m_downlaoded_field example_state1)) 9 = true /\ st !! 9%nat = example_content !! 9%nat.
Proof.
  destruct (download_data_correct true example_byte example_byte_ok 7 (fun _ => true) 1 example_content example_state1
    ltac:(lia) example_reachable1) as (st & E & D & _).
  exists st. split; [exact E|]. split; [vm_compute in E; now injection E as <-|]. split; [reflexivity|].
  apply (D 9). reflexivity.
Defined.

(** C17: no event of a download fails: in every reachable state, whatever
    operation ends next and however, its handler returns; no assertion fails,
    no mutex is locked twice, the allocation of ranges ends, no connection is
    missing. *)
Theorem download_never_faults asserts junk (Hj : forall n, 0 <= junk n < 256) junk_int can_open fuel content s ev :
  (0 < fuel)%nat -> reachable asserts junk Hj junk_int can_open fuel content s -> enabled asserts content s ev ->
  exists s', run_event asserts junk Hj junk_int can_open fuel ev s = Ok ((), s').
Proof.
  intros Hf R En. destruct (reachable_inv _ _ _ _ _ _ _ Hf s R) as [H A].
  pose proof (inv_event asserts junk Hj junk_int can_open fuel content Hf s ev H A En) as K.
  apply wp_run in K as ([] & s' & E & _). eauto.
Qed.

Lemma download_never_faults_witness :
  exists s', run_event true example_byte example_byte_ok 7 (fun _ => true) 1 example_read example_state = Ok ((), s')
  /\ m_ranges (m_downlaoded_field s') = [(0, 10)] /\ pending s' = [Open 1 1; Wait false; Read 0 0 1024].
Proof.
  destruct (download_never_faults true example_byte example_byte_ok 7 (fun _ => true) 1 example_content example_state
    example_read ltac:(lia) example_reachable example_enabled) as (s' & E).
  exists s'. split; [exact E|]. vm_compute in E. injection E as <-. auto.
Defined.

(** The count of outstanding work is right: it is the number of operations
    whose handler has not run, so that [stopped] tells exactly that the download
    was ended and nothing will call the object again; and as long as the
    download was not ended, the timer is armed. *)
Theorem outstanding_correct asserts junk (Hj : forall n, 0 <= junk n < 256) junk_int can_open fuel content s :
  (0 < fuel)%nat -> reachable asserts junk Hj junk_int can_open fuel content s ->
  Z.of_nat (length (pending s)) < 2 ^ 31 ->
  m_outstanding s = Z.of_nat (length (pending s))
  /\ (stopped s = true <-> m_abort s = true /\ pending s = [])
  /\ (m_abort s = false -> In (Wait false) (pending s)).
Proof.
  intros Hf R L. destruct (reachable_inv _ _ _ _ _ _ _ Hf s R) as [H A].
  assert (m_outstanding s = Z.of_nat (length (pending s))) as E.
  { rewrite (i_outstanding _ _ _ H), Z.add_0_r. apply int32_id. lia. }
  split; [exact E|]. split; [|exact A]. unfold stopped. rewrite E, andb_true_iff, Z.eqb_eq.
  split; intros [H1 H2]; (split; [exact H1|]).
  - destruct (pending s); [reflexivity|cbn [length] in H2; lia].
  - now rewrite H2.
Qed.

Lemma outstanding_correct_witness : m_outstanding example_state1 = 3 /\ stopped example_state1 = false.
Proof.
  destruct (outstanding_correct true example_byte example_byte_ok 7 (fun _ => true) 1 example_content example_state1)
    as (E & _ & _); [lia|apply example_reachable1|vm_compute; reflexivity|].
  split; [exact E|vm_compute; reflexivity].
Defined.

(** [stop] ends a download: from then on no handler starts anything new,
    so the download is stopped when the operations that were pending have
    ended: each one that ends leaves one less, there is always one that can
    end as long as there are any, and after the last [stopped] holds. *)
Theorem stop_terminates asserts junk (Hj : forall n, 0 <= junk n < 256) junk_int can_open fuel content s :
  (0 < fuel)%nat -> reachable asserts junk Hj junk_int can_open fuel content s ->
  Z.of_nat (length (pending s)) < 2 ^ 31 ->
  exists s0, stop s = Ok ((), s0) /\ length (pending s0) = length (pending s)
  /\ forall n s', nsteps (fun a b => exists ev, enabled asserts content a ev /\ completion ev
                        /\ run_event asserts junk Hj junk_int can_open fuel ev a = Ok ((), b)) n s0 s' ->
       (n <= length (pending s))%nat
       /\ (n = length (pending s) -> stopped s' = true)
       /\ ((n < length (pending s))%nat -> exists ev s'', enabled asserts content s' ev /\ completion ev
              /\ run_event asserts junk Hj junk_int can_open fuel ev s' = Ok ((), s'')).
Proof.
  intros Hf R L. destruct (reachable_inv _ _ _ _ _ _ _ Hf s R) as [H A].
  eexists. split; [reflexivity|]. set (s0 := set_objects _ _).
  assert (pending s0 = map cancel_wait (pending s) /\ m_abort s0 = true) as [P0 A0] by (split; reflexivity).
  assert (length (pending s0) = length (pending s)) as L0 by now rewrite P0, length_map.
  split; [exact L0|].
  assert (inv content 0 s0) as H0.
  { pose proof (inv_stop content 0 s H) as K. apply wp_run in K as ([] & s1 & E1 & K1 & _).
    injection E1 as <-. exact K1. }
  intros n s' N. rewrite <- L0 in *. clearbody s0. clear s H A R P0 L0.
  assert (inv content 0 s' /\ m_abort s' = true /\ (n + length (pending s') = length (pending s0))%nat) as (H' & A' & L').
  { revert A0 H0 L. induction N as [s0|n s0 s1 s2 (ev & En & Co & Eq) N IH]; intros A0 H0 L; [auto|].
    pose proof (completion_aborted asserts junk Hj junk_int can_open fuel content Hf s0 ev H0 A0 En Co) as K1.
    unfold wp in K1. rewrite Eq in K1. destruct K1 as [A1 L1].
    pose proof (inv_event asserts junk Hj junk_int can_open fuel content Hf s0 ev H0 ltac:(intros X; congruence) En) as K2.
    unfold wp in K2. rewrite Eq in K2. destruct K2 as [H1 _].
    destruct (IH A1 H1 ltac:(lia)) as (H2 & A2 & L2). split; [exact H2|]. split; [exact A2|]. lia. }
  split; [lia|]. split.
  - intros ->. unfold stopped. rewrite A', (i_outstanding _ _ _ H').
    replace (length (pending s')) with 0%nat by lia. reflexivity.
  - intros Hn. destruct (pending s') as [|op l] eqn:Ep; [cbn [length] in L'; lia|].
    destruct (completion_enabled asserts fuel content Hf s' op l H' Ep) as (ev & En & Co).
    pose proof (inv_event asserts junk Hj junk_int can_open fuel content Hf s' ev H' ltac:(intros X; congruence) En) as K.
    apply wp_run in K as ([] & s'' & E & _). eauto 6.
Qed.

Lemma stop_terminates_witness :
  exists s0, stop example_state1 = Ok ((), s0) /\ pending s0 = [Open 1 1; Wait true; Read 0 0 1024].
Proof.
  destruct (stop_terminates true example_byte example_byte_ok 7 (fun _ => true) 1 example_content example_state1)
    as (s0 & E & _); [lia|apply example_reachable1|vm_compute; reflexivity|].
  exists s0. split; [exact E|]. vm_compute in E. now injection E as <-.
Defined.

(** Running a list of events. *)
Fixpoint run_events asserts junk (Hj : forall n, 0 <= junk n < 256) junk_int can_open fuel (evs : list event)
  (s : multi_download) : result dl_fault multi_download :=
  match evs with
  | [] => Ok s
  | ev :: evs' =>
      match run_event asserts junk Hj junk_int can_open fuel ev s with
      | Ok (_, s') => run_events asserts junk Hj junk_int can_open fuel evs' s'
      | Err f => Err f
      end
  end.

(** The first connection, which the server sends the whole file, reads past its
    range into that of the second, which opens; then [stop], the end of the
    timer, and a last read of ten bytes. *)
Definition overlap_events : list event :=
  [Reads 0 (take 30 example_content) None 1; Opens 0 None 16 1; Stops; Ticks 0 None (fun _ => 2);
   Reads 0 (take 10 (drop 16 example_content)) None 3].
Definition overlap_state : multi_download :=
  match run_events true example_byte example_byte_ok 7 (fun _ => true) 1 overlap_events example_state with
  | Ok s => s
  | Err _ => example_state
  end.

(** Whether a list of events can happen, as a computation. *)
Definition enabledb (asserts : bool) (content : cstring) (s : multi_download) (ev : event) : bool :=
  match ev with
  | Opens k _ _ _ => match pending s !! k with Some (Open _ _) => true | _ => false end
  | Reads k data _ _ =>
      match pending s !! k with
      | Some (Read _ p n) =>
          match objects s !! p with
          | Some o => str_eqb data (take (length data) (drop (Z.to_nat (next_byte (stream_of o))) content))
                      && (Z.of_nat (length data) <=? Z.max 0 n)
          | None => false
          end
      | _ => false
      end
  | Requested k _ _ => match pending s !! k with Some (Request _ _) => true | _ => false end
  | Ticks k e _ =>
      match pending s !! k with
      | Some (Wait c) => c || match e with None => true | Some _ => false end
      | _ => false
      end
  | Fetches _ offset => (0 <=? offset) && negb asserts
  | Stops | Limits _ => true
  end.

Lemma enabledb_sound asserts content s ev : enabledb asserts content s ev = true -> enabled asserts content s ev.
Proof.
  destruct ev as [k e n now|k data e now|k e now|k e clock| |buffers offset|rate]; cbn; auto.
  - destruct (pending s !! k) as [[]|]; try discriminate. eauto.
  - destruct (pending s !! k) as [[i p|i p n|i p|c]|]; try discriminate.
    destruct (objects s !! p) as [o|] eqn:Ho; [|discriminate]. intros H. apply andb_true_iff in H as [H1 H2].
    apply str_eqb_eq in H1. exists i, p, n, o. split; [reflexivity|]. split; [exact Ho|]. split; [exact H1|lia].
  - destruct (pending s !! k) as [[]|]; try discriminate. eauto.
  - destruct (pending s !! k) as [[i p|i p n|i p|c]|]; try discriminate. exists c. split; [reflexivity|].
    destruct c, e; auto; discriminate.
  - intros H. split; [lia|]. destruct asserts; [rewrite andb_false_r in H; discriminate|reflexivity].
Qed.

Fixpoint all_enabled asserts junk (Hj : forall n, 0 <= junk n < 256) junk_int can_open fuel content
  (evs : list event) (s : multi_download) : bool :=
  match evs with
  | [] => true
  | ev :: evs' =>
      enabledb asserts content s ev
      && match run_event asserts junk Hj junk_int can_open fuel ev s with
         | Ok (_, s') => all_enabled asserts junk Hj junk_int can_open fuel content evs' s'
         | Err _ => true
         end
  end.

Lemma run_events_reachable asserts junk (Hj : forall n, 0 <= junk n < 256) junk_int can_open fuel content evs : forall s s',
  reachable asserts junk Hj junk_int can_open fuel content s ->
  all_enabled asserts junk Hj junk_int can_open fuel content evs s = true ->
  run_events asserts junk Hj junk_int can_open fuel evs s = Ok s' ->
  reachable asserts junk Hj junk_int can_open fuel content s'.
Proof.
  induction evs as [|ev evs IH]; intros s s' R En E; cbn in *; [now injection E as <-|].
  apply andb_true_iff in En as [En1 En2]. destruct (run_event _ _ _ _ _ _ ev s) as [[[] s1]|] eqn:E1; [|discriminate].
  apply (IH s1 s'); auto. eapply reach_step; [exact R|]. exists ev. split; [now apply enabledb_sound|exact E1].
Qed.

(** [wait_for_complete] can report success for a download that is not
    complete: [bytes_download] adds up ranges that were not merged and may
    overlap, since the first connection can read past its range.  Such a state
    is reached here, with ten bytes missing. *)
Theorem wait_for_complete_overcounts :
  example_reachable_in overlap_state /\ stopped overlap_state = true
  /\ (exists s', wait_result overlap_state = Ok (true, s'))
  /\ covered (m_ranges (m_downlaoded_field overlap_state)) 35 = false
  /\ m_file_size overlap_state = 40.
Proof.
  split; [|split; [vm_compute; reflexivity|split; [|split; vm_compute; reflexivity]]].
  - apply (run_events_reachable _ _ _ _ _ _ _ overlap_events example_state); [apply example_reachable| |];
      vm_compute; reflexivity.
  - eexists. vm_compute. reflexivity.
Qed.

(** The second connection opens and breaks with the last byte of its range
    [16, 31] missing. *)
Definition broken_events : list event :=
  [Opens 1 None 16 1; Reads 2 (take 15 (drop 16 example_content)) (Some eof) 2].
Definition broken_state : multi_download :=
  match run_events true example_byte example_byte_ok 7 (fun _ => true) 1 broken_events example_state with
  | Ok s => s
  | Err _ => example_state
  end.

(** A connection that broke with only the last byte of its range missing
    is not resumed there: the test [end - begin <= 0] takes the range, whose
    bounds are inclusive, for complete.  The connection gets another range or
    is done, and the byte stays marked as allocated, so it is never asked for
    again. *)
Theorem resume_skips_last_byte asserts junk (Hj : forall n, 0 <= junk n < 256) junk_int can_open fuel content s p o :
  (0 < fuel)%nat -> reachable asserts junk Hj junk_int can_open fuel content s ->
  objects s !! p = Some o -> position o = right (request_range o) ->
  covered (m_ranges (m_rangefield s)) (position o) = true ->
  exists r s', resume_range asserts fuel p s = Ok (r, s')
  /\ covered (m_ranges (m_rangefield s')) (position o) = true
  /\ match r with None => True | Some (l, r') => ~ (l <= position o <= r') end.
Proof.
  intros Hf R Ho Hp Hc. destruct (reachable_inv _ _ _ _ _ _ _ Hf s R) as [H _].
  pose proof (inv_objects_lookup _ _ _ _ _ H Ho) as [G1 G2 G3 G4 G5].
  destruct (i_range _ _ _ H) as [W Sz]. destruct (i_settings _ _ _ H) as [(B1 & B2 & B3 & B4) M _].
  destruct fuel as [|k]; [lia|].
  destruct (allocate_range_run asserts (request_piece_num (m_settings s)) (piece_size (m_settings s)) (m_download_point s)
    (m_abort s) k (request_range o) (m_rangefield s) M W ltac:(lia) (i_point _ _ _ H) (fun _ => G5)) as (b & r & f & E & Hb).
  unfold resume_range. rewrite (bind_ok _ _ s o s) by (unfold deref_object; run; now rewrite Ho).
  fold (position o). rewrite (int64_id (position o)) by (unfold position in *; lia).
  cbv zeta. replace (int64 (right (request_range o) - position o)) with 0 by (rewrite Hp, Z.sub_diag; reflexivity).
  change (0 <=? 0) with true. cbv iota.
  rewrite (bind_ok _ _ s (b, r) (set_rangefield f s)); cycle 1.
  { unfold allocate, on_rangefield. run. now rewrite E. }
  destruct b; do 2 eexists; (split; [reflexivity|]).
  - destruct Hb. split; [unfold with_object; md_simpl; rewrite al_covered, Hc; apply orb_true_r|].
    cbn [fst snd]. intros Hin. specialize (al_fresh (position o)). unfold in_request in al_fresh.
    rewrite al_fresh in Hc by lia. discriminate.
  - destruct Hb as (_ & -> & _). split; [|exact I]. destruct (normalise_wf _ W) as (_ & _ & _ & _ & C).
    md_simpl. now rewrite C.
Qed.

Lemma resume_skips_last_byte_witness :
  exists r s', resume_range true 1 1 broken_state = Ok (r, s') /\ r = Some (32, 39).
Proof.
  destruct (resume_skips_last_byte true example_byte example_byte_ok 7 (fun _ => true) 1 example_content broken_state 1
    (nth 1 (objects broken_state) (http_stream_object_new stream_new))) as (r & s' & E & _);
    [lia| |vm_compute; reflexivity|vm_compute; reflexivity|vm_compute; reflexivity|].
  - apply (run_events_reachable _ _ _ _ _ _ _ broken_events example_state); [apply example_reachable| |];
      vm_compute; reflexivity.
  - exists r, s'. split; [exact E|]. vm_compute in E. now injection E as <- <-.
Defined.

(** *** Reading while the download runs *)

(** The outcome of the halving: nothing, or a length that was checked. *)
Lemma halve_run k : forall s offset n,
  wf_rangefield (m_downlaoded_field s) -> 0 <= n ->
  exists m f, halve false k offset n s = Ok (m, set_downlaoded_field f s) /\ 0 <= m <= n
  /\ (m = 0 \/ existsb (fun i => (fst i <=? offset) && (m <=? snd i)) (m_ranges (normalise (m_downlaoded_field s))) = true).
Proof.
  assert (forall f, wf_rangefield f -> normalise (normalise f) = normalise f) as Nn.
  { intros f W. destruct (normalise_wf f W) as (_ & Nm & _). unfold normalise at 1. now rewrite Nm. }
  induction k as [|k IH]; intros s offset n W Hn; cbn [halve].
  - exists 0, (m_downlaoded_field s). split; [destruct s; reflexivity|]. lia.
  - destruct (n =? 0) eqn:E0; [exists 0, (m_downlaoded_field s); split; [destruct s; reflexivity|lia]|].
    destruct (normalise_wf _ W) as (N & _).
    set (s1 := set_downlaoded_field (normalise (m_downlaoded_field s)) s).
    rewrite (bind_ok _ _ s (existsb (fun i => (fst i <=? offset) && (n <=? snd i))
      (m_ranges (normalise (m_downlaoded_field s)))) s1);
      [|unfold on_downloaded; run; now rewrite check_range_run].
    destruct (existsb _ _) eqn:Ex.
    + exists n, (normalise (m_downlaoded_field s)). split; [reflexivity|]. split; [lia|]. now right.
    + destruct (IH s1 offset (n / 2) N) as (m & f & E & B & C); [apply Z.div_pos; lia|].
      exists m, f. split; [exact E|]. split; [zdiv|]. unfold s1 in C. md_simpl_in C. now rewrite Nn in C.
Qed.

(** From the start of the file, [fetch_data] with one buffer returns bytes
    of the file, never more than the buffer holds, and only bytes that were
    downloaded. *)
Theorem fetch_data_start junk (Hj : forall n, 0 <= junk n < 256) junk_int can_open fuel content s n :
  (0 < fuel)%nat -> reachable false junk Hj junk_int can_open fuel content s -> 0 <= n ->
  exists out s', fetch_data false [n] 0 s = Ok (out, s')
  /\ exists k, concat out = take k content /\ Z.of_nat k <= n
     /\ forall x, 0 <= x < Z.of_nat k -> covered (m_ranges (m_downlaoded_field s)) x = true.
Proof.
  intros Hf R Hn. destruct (reachable_inv _ _ _ _ _ _ _ Hf s R) as [H _].
  destruct (i_data _ _ _ H) as (st & Es & D). destruct (i_downloaded _ _ _ H) as [W Sz].
  destruct (normalise_wf _ W) as (N & _ & _ & M & C).
  unfold fetch_data. rewrite (bind_ok _ _ s s s) by reflexivity. rewrite Es.
  rewrite (bind_ok _ _ s () (set_download_point 0 s)) by reflexivity. change (fold_left Z.add [n] 0) with n.
  destruct (halve_run 65 (set_download_point 0 s) 0 n W Hn) as (m & f & E & B & Hm).
  rewrite (bind_ok _ _ _ _ _ E). md_simpl_in Hm. destruct (m =? 0) eqn:E0.
  { do 2 eexists. split; [reflexivity|]. exists 0%nat. split; [reflexivity|]. split; [lia|]. lia. }
  destruct Hm as [->|Hm]; [discriminate|]. pose proof (proj1 (merged_interval _ 0 m M ltac:(lia)) Hm) as Hc.
  assert (forall x, 0 <= x < m -> covered (m_ranges (m_downlaoded_field s)) x = true) as Cv
    by (intros x Hx; rewrite <- C; now apply Hc).
  assert (take (Z.to_nat m) st = take (Z.to_nat m) content) as T.
  { apply list_eq. intros i. destruct (decide (i < Z.to_nat m)%nat) as [L|L].
    - rewrite !lookup_take_lt by exact L. specialize (D (Z.of_nat i)). rewrite Nat2Z.id in D. apply D, Cv. lia.
    - now rewrite !lookup_take_ge by lia. }
  exists [take (Z.to_nat m) content]. eexists. split.
  { cbn [fill_buffers andb]. unfold read_storage. change (drop (Z.to_nat 0) st) with st.
    assert ((if m - n <? 0 then m else n) = m) as -> by (destruct (m - n <? 0) eqn:E1; zbool).
    rewrite T. destruct (m - Z.of_nat (length (take (Z.to_nat m) content)) =? 0); reflexivity. }
  exists (Z.to_nat m). cbn [concat]. rewrite app_nil_r. split; [reflexivity|]. split; [lia|]. intros x Hx. apply Cv. lia.
Qed.

(** The example with assertions off, after the first read. *)
Definition example_state2 : multi_download :=
  match run_events false example_byte example_byte_ok 7 (fun _ => true) 1 [example_read] (example_state_of false) with
  | Ok s => s
  | Err _ => example_state
  end.

Lemma fetch_data_start_witness :
  exists out s', fetch_data false [8] 0 example_state2 = Ok (out, s') /\ out = [$"01234567"].
Proof.
  destruct (fetch_data_start example_byte example_byte_ok 7 (fun _ => true) 1 example_content example_state2 8)
    as (out & s' & E & _); [lia| |lia|].
  - apply (run_events_reachable _ _ _ _ _ _ _ [example_read] (example_state_of false)); [apply example_reachable_of| |];
      vm_compute; reflexivity.
  - exists out, s'. split; [exact E|]. vm_compute in E. now injection E as <- <-.
Defined.

(** A download of [size] bytes of which exactly [0, r) was recorded, with the
    storage [st]. *)
Definition downloaded_prefix (size r : Z) (st : cstring) (s : multi_download) : Prop :=
  m_storage s = Some st /\ m_downlaoded_field s = Rangefield false size [(0, r)] false.

(** At other offsets [fetch_data] checks the wrong interval: it asks for
    [offset, length) instead of [offset, offset + length).  With [0, r)
    downloaded and a buffer of at most [r] bytes it returns whatever the
    storage holds at any offset, also behind [r]; with assertions on it fails
    as soon as the offset is not smaller than the length. *)
Theorem fetch_data_unchecked size r offset n st s :
  downloaded_prefix size r st s ->
  0 < n <= r -> r <= size -> 0 <= offset -> offset + n <= Z.of_nat (length st) ->
  (exists s', fetch_data false [n] offset s = Ok ([take (Z.to_nat n) (drop (Z.to_nat offset) st)], s'))
  /\ (n <= offset -> fetch_data true [n] offset s = Err (AllocFault (FieldFault AssertFailed))).
Proof.
  intros [Es Ef] Hn Hr Ho Hl. unfold fetch_data. rewrite !(bind_ok _ _ s s s) by reflexivity. rewrite Es.
  rewrite !(bind_ok _ _ s () (set_download_point offset s)) by reflexivity. change (fold_left Z.add [n] 0) with n.
  cbn [halve]. replace (n =? 0) with false by lia. set (s1 := set_download_point offset s).
  assert (m_downlaoded_field s1 = Rangefield false size [(0, r)] false) as Ef1 by exact Ef. split.
  - assert (on_downloaded (check_range false offset n) s1 = Ok (true, set_downlaoded_field (m_downlaoded_field s1) s1)) as Ec.
    { unfold on_downloaded. run. rewrite Ef1, check_range_run by solve_wf.
      change (m_ranges (normalise _)) with [(0, r)]. cbn [existsb fst snd].
      assert ((0 <=? offset) = true) as -> by lia. assert ((n <=? r) = true) as -> by lia. reflexivity. }
    assert (length (read_storage st offset n) = Z.to_nat n) as Ln
      by (unfold read_storage; rewrite length_take, length_drop; lia).
    eexists. erewrite bind_ok; [|rewrite (bind_ok _ _ _ _ _ Ec); reflexivity]. replace (n =? 0) with false by lia.
    cbn [fill_buffers andb]. replace (n - n <? 0) with false by lia. rewrite Ln.
    replace (n - Z.of_nat (Z.to_nat n) =? 0) with true by (rewrite Z2Nat.id by lia; lia). reflexivity.
  - intros Hno. assert (on_downloaded (check_range true offset n) s1 = Err (AllocFault (FieldFault AssertFailed))) as Ec.
    { unfold on_downloaded, check_range. run. rewrite Ef1, assert_range_run. cbn [andb m_size].
      replace ((0 <=? offset) && _ && _) with false by lia. reflexivity. }
    unfold mbind, st_bind. now rewrite Ec.
Qed.

Lemma fetch_data_unchecked_witness :
  exists s', fetch_data false [4] 20 (set_storage (Some example_content)
      (set_downlaoded_field (Rangefield false 40 [(0, 10)] false) example_state)) = Ok ([$"klmn"], s').
Proof.
  apply (fetch_data_unchecked 40 10 20 4 example_content (set_storage (Some example_content)
      (set_downlaoded_field (Rangefield false 40 [(0, 10)] false) example_state)));
    solve [split; reflexivity | lia | vm_compute; discriminate].
Defined.

(** The size of the file when the response has no Content-Length: the
    asynchronous start takes it from the Content-Range header, the synchronous
    one looks the same header up again, gets nothing and gives up ranges. *)
Theorem response_size_overloads resp a b n s :
  find_or_empty http_options.content_length resp = [] ->
  find_or_empty http_options.status_code resp = $"206" -> disable_multi_download (m_settings s) = false ->
  find_or_empty http_options.content_range resp = a ++ "/"%char :: b -> free_of ["/"%char] a -> lexical_cast b = Some n ->
  (exists s', response_size http_options.content_range resp s = Ok (n, s') /\ m_accept_multi s' = true)
  /\ (exists s', response_size http_options.content_length resp s = Ok (-1, s') /\ m_accept_multi s' = false).
Proof.
  intros Hl Hs Hd Hr Ha Hb. unfold response_size. rewrite Hl, Hs, Hr. cbn [nonempty].
  assert (find_char "/" (a ++ "/"%char :: b) = Some (length a)) as Fc.
  { clear - Ha. induction Ha as [|c a Hc Ha IH]; cbn; [reflexivity|].
    unfold mem_char in Hc. cbn [existsb] in Hc. rewrite orb_false_r in Hc. now rewrite Hc, IH. }
  assert (nonempty b = true) as Nb by (destruct b; [discriminate Hb|reflexivity]).
  split; eexists; (split; [|]).
  - unfold mbind, st_bind, st_get, st_modify. rewrite Hd, Fc.
    replace (drop (S (length a)) (a ++ "/"%char :: b)) with b
      by (symmetry; change ("/"%char :: b) with (["/"%char] ++ b); rewrite app_assoc; apply drop_app_length'; rewrite length_app; cbn; lia).
    rewrite Nb. cbn. rewrite Nb, Hb. reflexivity.
  - reflexivity.
  - unfold mbind, st_bind, st_get, st_modify. cbn. reflexivity.
  - reflexivity.
Qed.

Lemma response_size_overloads_witness :
  let resp := Opts [($"_status_code", $"206"); ($"Content-Range", $"bytes 0-39/40")] false in
  (exists s', response_size http_options.content_range resp example_state = Ok (40, s') /\ m_accept_multi s' = true)
  /\ (exists s', response_size http_options.content_length resp example_state = Ok (-1, s') /\ m_accept_multi s' = false).
Proof.
  apply (response_size_overloads _ ($"bytes 0-39") ($"40")); solve [reflexivity | repeat constructor].
Defined.
