(* ===== verification/CoroQueue.v ===== *)
(** The queue between coroutines, [async_coro_queue] of
    avboost/include/boost/async_coro_queue.hpp.

    The container that holds the values is a template parameter: the class
    [Container], with what its documentation says as [ContainerLaws].  Handlers
    are identified by values of any type.  A member function returns the calls
    that it posts to the [io_service], in order. *)

From S2P Require Import Prelude.

(** ** The container *)

Class Container (V : Type) := {
  list_t : Type;
  new_list : list_t;
  is_empty : list_t -> bool;
  front : list_t -> option V;
  pop_front : list_t -> list_t;
  push_back : V -> list_t -> list_t;
  clear_list : list_t -> list_t
}.

(** At its capacity a circular buffer drops the first element for a new one; a
    list or deque has none. *)
Class ContainerLaws {V} (C : Container V) := {
  contents : list_t -> list V;
  new_list_contents : contents new_list = [];
  capacity : option nat;
  is_empty_contents : forall l, is_empty l = match contents l with [] => true | _ => false end;
  front_contents : forall l, front l = head (contents l);
  pop_front_contents : forall l, contents (pop_front l) = tail (contents l);
  push_back_contents : forall v l, contents (push_back v l)
    = match capacity with
      | Some c => if (c <=? length (contents l))%nat then tail (contents l ++ [v]) else contents l ++ [v]
      | None => contents l ++ [v]
      end;
  clear_contents : forall l, contents (clear_list l) = []
}.

Inductive queue_error : Type := operation_canceled | pop_timed_out.
Inductive queue_fault : Type := QueueAssert | FrontOfEmpty.

(** A call posted to the [io_service]. *)
Inductive post (V H W : Type) : Type :=
| PopCall (h : H) (ec : option queue_error) (value : V)
| WaitCall (w : W) (ec : option queue_error).
Arguments PopCall {V H W}.
Arguments WaitCall {V H W}.

(** A handler in [async_pop] has a flag that its timer sets. *)
Record coro_queue {V : Type} {C : Container V} {H W : Type} : Type := CoroQueue {
  m_list : list_t;
  m_handlers : list (bool * H);
  m_wait_handlers : list W
}.
#[global] Arguments coro_queue V {C} H W.
#[global] Arguments CoroQueue {V C H W}.

Section Queue.
Context {V : Type} {C : Container V} {H W : Type}.
(** [value_type()], and whether [BOOST_ASSERT] is active. *)
Variable no_value : V.
Variable asserts : bool.

Abbreviation Q := (st (coro_queue V H W) queue_fault).
Abbreviation call := (post V H W).

Definition set_list (l : list_t) (q : coro_queue V H W) : coro_queue V H W :=
  CoroQueue l (m_handlers q) (m_wait_handlers q).
Definition set_handlers (hs : list (bool * H)) (q : coro_queue V H W) : coro_queue V H W :=
  CoroQueue (m_list q) hs (m_wait_handlers q).
Definition set_wait_handlers (ws : list W) (q : coro_queue V H W) : coro_queue V H W :=
  CoroQueue (m_list q) (m_handlers q) ws.

(** The constructor. *)
Definition new_queue : coro_queue V H W := CoroQueue new_list [] [].

Definition queue_assert (c : bool) : Q () := if asserts && negb c then st_fail QueueAssert else mret ().

(** [async_pop(handler)]; the overload with a time limit pushes the same pair,
    with a flag that is shared with a timer. *)
Definition async_pop (h : H) : Q (list call) :=
  q ← st_get;
  if is_empty (m_list q) then st_modify (set_handlers (m_handlers q ++ [(false, h)])) ;; mret []
  else
    match front (m_list q) with
    | Some v => st_modify (set_list (pop_front (m_list q))) ;; mret [PopCall h None v]
    | None => st_fail FrontOfEmpty
    end.

(** The timer of a waiting handler: the flag is set and the handler called. *)
Definition pop_time_out (i : nat) : Q (list call) :=
  q ← st_get;
  match m_handlers q !! i with
  | Some (false, h) =>
      st_modify (set_handlers (<[i := (true, h)]> (m_handlers q))) ;;
      mret [PopCall h (Some pop_timed_out) no_value]
  | _ => mret []
  end.

Definition async_wait (w : W) : Q (list call) :=
  q ← st_get;
  if is_empty (m_list q) then st_modify (set_wait_handlers (m_wait_handlers q ++ [w])) ;; mret []
  else mret [WaitCall w None].

(** The part of [push] on [m_handlers]; [push] calls itself behind a handler
    that has timed out. *)
Fixpoint push_handlers (value : V) (hs : list (bool * H)) : Q (list call) :=
  match hs with
  | [] => q ← st_get; st_modify (set_list (push_back value (m_list q))) ;; mret []
  | (timed_outed, h) :: hs' =>
      q ← st_get;
      queue_assert (is_empty (m_list q)) ;;
      st_modify (set_handlers hs') ;;
      if negb timed_outed then mret [PopCall h None value] else push_handlers value hs'
  end.

(** Its part on [m_wait_handlers]. *)
Definition push_waiters : Q (list call) :=
  q ← st_get;
  match m_wait_handlers q with
  | [] => mret []
  | ws => queue_assert (is_empty (m_list q)) ;;
          st_modify (set_wait_handlers []) ;;
          mret (map (fun w => WaitCall w None) ws)
  end.

Definition push (value : V) : Q (list call) :=
  woken ← push_waiters;
  q ← st_get;
  calls ← push_handlers value (m_handlers q);
  mret (woken ++ calls).

(** [cancele()]: the handlers in [async_wait] are only looked at when there is
    a handler in [async_pop]. *)
Definition cancel_calls (hs : list (bool * H)) : list call :=
  flat_map (fun p : bool * H => if negb (fst p) then [PopCall (snd p) (Some operation_canceled) no_value] else []) hs.

Definition cancele : Q (list call) :=
  q ← st_get;
  woken ← (match m_handlers q with
           | [] => mret []
           | _ => st_modify (set_wait_handlers []) ;;
                  mret (map (fun w => WaitCall w (Some operation_canceled)) (m_wait_handlers q))
           end);
  st_modify (set_handlers []) ;;
  mret (woken ++ cancel_calls (m_handlers q)).

Definition clear : Q (list call) :=
  calls ← cancele;
  q ← st_get;
  st_modify (set_list (clear_list (m_list q))) ;;
  mret calls.

Definition empty (q : coro_queue V H W) : bool := is_empty (m_list q).

(** ** Sequences of operations *)

Inductive queue_op : Type :=
| OpPop (h : H) | OpTimeOut (i : nat) | OpWait (w : W) | OpPush (v : V) | OpCancel | OpClear.

Definition queue_step (o : queue_op) : Q (list call) :=
  match o with
  | OpPop h => async_pop h
  | OpTimeOut i => pop_time_out i
  | OpWait w => async_wait w
  | OpPush v => push v
  | OpCancel => cancele
  | OpClear => clear
  end.

Fixpoint queue_run (os : list queue_op) : Q (list call) :=
  match os with
  | [] => mret []
  | o :: os' => calls ← queue_step o; rest ← queue_run os'; mret (calls ++ rest)
  end.
End Queue.

(** ** Instances *)

(** [std::list] and [std::deque]. *)
#[refine] Instance unbounded (V : Type) : Container V := {
  list_t := list V;
  new_list := [];
  is_empty := fun l => match l with [] => true | _ => false end;
  front := head;
  pop_front := tail;
  push_back := fun v l => l ++ [v];
  clear_list := fun _ => []
}.
Proof. Defined.

#[refine] Instance unbounded_laws (V : Type) : ContainerLaws (unbounded V) := {
  contents := fun l => l;
  capacity := None
}.
Proof. all: reflexivity. Defined.

(** [boost::circular_buffer] with this capacity. *)
#[refine] Instance circular_buffer (V : Type) (n : nat) : Container V := {
  list_t := list V;
  new_list := [];
  is_empty := fun l => match l with [] => true | _ => false end;
  front := head;
  pop_front := tail;
  push_back := fun v l => if (n <=? length l)%nat then tail (l ++ [v]) else l ++ [v];
  clear_list := fun _ => []
}.
Proof. Defined.

#[refine] Instance circular_buffer_laws (V : Type) (n : nat) : ContainerLaws (circular_buffer V n) := {
  contents := fun l => l;
  capacity := Some n
}.
Proof. all: reflexivity. Defined.

(** ** Specification *)

Section Spec.
Context {V : Type} {C : Container V} {L : ContainerLaws C} {H W : Type}.
Abbreviation call := (post V H W).
Abbreviation queue := (coro_queue V H W).

(** The values that the calls deliver, and the handlers of [async_pop] that
    they call. *)
Definition delivered (calls : list call) : list V :=
  flat_map (fun c => match c with PopCall _ None v => [v] | _ => [] end) calls.
Definition called (calls : list call) : list H :=
  flat_map (fun c => match c with PopCall h _ _ => [h] | _ => [] end) calls.

Definition pushed (os : list (queue_op (V := V) (H := H) (W := W))) : list V :=
  flat_map (fun o => match o with OpPush v => [v] | _ => [] end) os.
Definition popped (os : list (queue_op (V := V) (H := H) (W := W))) : list H :=
  flat_map (fun o => match o with OpPop h => [h] | _ => [] end) os.
Definition clears (os : list (queue_op (V := V) (H := H) (W := W))) : bool :=
  existsb (fun o => match o with OpClear => true | _ => false end) os.

(** The handlers that still wait for a value. *)
Definition live (hs : list (bool * H)) : list H :=
  flat_map (fun p : bool * H => if negb (fst p) then [snd p] else []) hs.

(** Nobody waits while there is a value. *)
Definition queue_wf (q : queue) : Prop :=
  m_handlers q <> [] \/ m_wait_handlers q <> [] -> contents (m_list q) = [].

Definition fits (l : list V) : Prop := match capacity with Some c => (length l <= c)%nat | None => True end.

(** What an operation (or several) from [q] to [q'] does to values and
    handlers. *)
Record effect (q q' : queue) (os : list queue_op) (calls : list call) : Prop := {
  eff_wf : queue_wf q';
  eff_values : sublist (delivered calls ++ contents (m_list q')) (contents (m_list q) ++ pushed os);
  eff_exact : clears os = false -> fits (contents (m_list q) ++ pushed os) ->
    delivered calls ++ contents (m_list q') = contents (m_list q) ++ pushed os;
  eff_handlers : called calls ++ live (m_handlers q') ≡ₚ live (m_handlers q) ++ popped os
}.

Lemma push_back_fits v l : fits (contents l ++ [v]) -> contents (push_back v l) = contents l ++ [v].
Proof.
  unfold fits. rewrite push_back_contents. destruct capacity as [c|]; [|reflexivity]. rewrite length_app. cbn [length].
  intros Hc. rewrite (proj2 (Nat.leb_gt _ _)); [reflexivity|lia].
Qed.

Lemma push_back_sublist v l : sublist (contents (push_back v l)) (contents l ++ [v]).
Proof.
  rewrite push_back_contents. destruct capacity as [c|]; [|reflexivity].
  destruct (c <=? _)%nat; [|reflexivity]. destruct (contents l ++ [v]); [constructor|now apply sublist_cons].
Qed.

Lemma live_app hs hs' : live (hs ++ hs') = live hs ++ live hs'.
Proof. apply flat_map_app. Qed.

Lemma push_handlers_effect asserts v hs : forall q,
  m_handlers q = hs -> m_wait_handlers q = [] -> queue_wf q ->
  exists calls q', push_handlers asserts v hs q = Ok (calls, q') /\ m_wait_handlers q' = []
    /\ effect q q' [OpPush v] calls.
Proof.
  induction hs as [|[timed h] hs IH]; intros q Hh Hw Hwf; cbn [push_handlers].
  - run. do 2 eexists. split; [reflexivity|]. split; [exact Hw|]. constructor.
    + intros [E|E]; [now rewrite <- Hh in E|now rewrite <- Hw in E].
    + cbn. apply push_back_sublist.
    + intros _ Hf. cbn in *. now apply push_back_fits.
    + cbn. now rewrite Hh.
  - assert (contents (m_list q) = []) as Hl by (apply Hwf; left; now rewrite Hh).
    unfold queue_assert. run. rewrite is_empty_contents, Hl. rewrite andb_false_r.
    destruct timed; cbn [negb].
    + destruct (IH (set_handlers hs q)) as (calls & q' & E & Hw' & F); [reflexivity|exact Hw|now intros _|].
      exists calls, q'. split; [exact E|]. split; [exact Hw'|]. destruct F as [F1 F2 F3 F4].
      constructor; [exact F1|exact F2|exact F3|]. rewrite F4, Hh. reflexivity.
    + do 2 eexists. split; [reflexivity|]. split; [exact Hw|]. constructor.
      * now intros _.
      * cbn. now rewrite Hl.
      * intros _ _. cbn. now rewrite Hl.
      * cbn. rewrite Hh. cbn. rewrite app_nil_r. reflexivity.
Qed.

Lemma effect_wakes q q' os calls ws ec :
  effect q q' os calls -> effect q q' os (map (fun w => WaitCall w ec) ws ++ calls).
Proof.
  assert (delivered (map (fun w => WaitCall w ec) ws ++ calls) = delivered calls
          /\ called (map (fun w => WaitCall w ec) ws ++ calls) = called calls) as [E1 E2]
    by (induction ws; [now split|exact IHws]).
  intros [F1 F2 F3 F4]. constructor; rewrite ?E1, ?E2; assumption.
Qed.

Lemma live_time_out hs i h :
  hs !! i = Some (false, h) -> h :: live (<[i := (true, h)]> hs) ≡ₚ live hs.
Proof.
  revert i. induction hs as [|[t h'] hs IH]; intros [|i] E; try discriminate.
  - injection E as -> ->. reflexivity.
  - cbn. rewrite <- (IH i E). destruct t; cbn; [reflexivity|apply Permutation_swap].
Qed.

Lemma cancel_calls_called no_value hs : called (cancel_calls (V := V) (W := W) no_value hs) = live hs.
Proof. unfold called, cancel_calls, live. induction hs as [|[[] h] hs IH]; [reflexivity|exact IH|]. cbn. now rewrite IH. Qed.

Lemma cancel_calls_delivered no_value hs : delivered (cancel_calls (V := V) (W := W) no_value hs) = [].
Proof. unfold delivered, cancel_calls. induction hs as [|[[] h] hs IH]; [reflexivity|exact IH|exact IH]. Qed.

Lemma cancele_effect no_value q :
  queue_wf q ->
  exists calls q', cancele no_value q = Ok (calls, q') /\ m_handlers q' = [] /\ m_list q' = m_list q
    /\ effect q q' [OpCancel] calls.
Proof.
  intros Hwf.
  assert (effect q (set_handlers [] q) [OpCancel] (cancel_calls no_value (m_handlers q))) as F.
  { constructor.
    - intros [E|E]; [now cbn in E|]. apply Hwf. now right.
    - rewrite cancel_calls_delivered. cbn. now rewrite app_nil_r.
    - intros _ _. rewrite cancel_calls_delivered. cbn. now rewrite app_nil_r.
    - rewrite cancel_calls_called. cbn. now rewrite !app_nil_r. }
  unfold cancele. run. destruct (m_handlers q) as [|p hs] eqn:Eh.
  - do 2 eexists. split; [reflexivity|]. split; [reflexivity|]. split; [reflexivity|]. exact F.
  - do 2 eexists. split; [reflexivity|]. split; [reflexivity|]. split; [reflexivity|]. apply effect_wakes.
    destruct F as [F1 F2 F3 F4]. constructor; [|exact F2|exact F3|exact F4]. intros [E|E]; now cbn in E.
Qed.

(** Every operation succeeds, and has its effect. *)
Lemma queue_step_effect no_value asserts o q :
  queue_wf q -> exists calls q', queue_step no_value asserts o q = Ok (calls, q') /\ effect q q' [o] calls.
Proof.
  intros Hwf. destruct o as [h|i|w|v| |]; cbn [queue_step].
  - unfold async_pop. run. rewrite is_empty_contents. destruct (contents (m_list q)) as [|x l] eqn:El.
    + do 2 eexists. split; [reflexivity|]. constructor.
      * now intros _.
      * cbn. now rewrite El.
      * intros _ _. cbn. now rewrite El.
      * cbn. now rewrite live_app.
    + rewrite front_contents, El. do 2 eexists. split; [reflexivity|]. constructor.
      * intros E. apply Hwf in E. rewrite El in E. discriminate.
      * cbn. rewrite pop_front_contents, El, app_nil_r. reflexivity.
      * intros _ _. cbn. now rewrite pop_front_contents, El, app_nil_r.
      * cbn. now rewrite Permutation_app_comm.
  - unfold pop_time_out. run. destruct (m_handlers q !! i) as [[[] h]|] eqn:Ei.
    2:{ do 2 eexists. split; [reflexivity|]. constructor.
        - intros E. apply Hwf. destruct E as [E|E]; [left|now right]. intros Eh. now rewrite Eh in Ei.
        - cbn. now rewrite app_nil_r.
        - intros _ _. cbn. now rewrite app_nil_r.
        - cbn. rewrite app_nil_r. now apply live_time_out. }
    all: do 2 eexists; (split; [reflexivity|]); constructor; [exact Hwf| | |]; cbn; now rewrite app_nil_r.
  - unfold async_wait. run. rewrite is_empty_contents. destruct (contents (m_list q)) as [|x l] eqn:El.
    + do 2 eexists. split; [reflexivity|]. constructor; [now intros _| | |]; cbn; now rewrite ?El, ?app_nil_r.
    + do 2 eexists. split; [reflexivity|]. constructor; [exact Hwf| | |]; cbn; now rewrite app_nil_r.
  - unfold push, push_waiters. run. destruct (m_wait_handlers q) as [|w ws] eqn:Ew.
    + destruct (push_handlers_effect asserts v (m_handlers q) q eq_refl Ew Hwf) as (calls & q' & -> & _ & F). eauto.
    + assert (contents (m_list q) = []) as El by (apply Hwf; right; now rewrite Ew).
      unfold queue_assert. run. rewrite is_empty_contents, El, andb_false_r.
      change (m_handlers (set_wait_handlers [] q)) with (m_handlers q).
      destruct (push_handlers_effect asserts v (m_handlers q) (set_wait_handlers [] q) eq_refl eq_refl)
        as (calls & q' & -> & _ & F); [now intros _|].
      do 2 eexists. split; [reflexivity|]. apply effect_wakes. destruct F as [F1 F2 F3 F4]. now constructor.
  - destruct (cancele_effect no_value q Hwf) as (calls & q' & E & _ & _ & F). eauto.
  - unfold clear. destruct (cancele_effect no_value q Hwf) as (calls & q' & E & Eh & El & F). run. rewrite E.
    do 2 eexists. split; [reflexivity|]. destruct F as [F1 F2 _ F4]. constructor.
    + intros _. cbn. apply clear_contents.
    + cbn. rewrite clear_contents, app_nil_r. etransitivity; [|exact F2]. apply sublist_inserts_r. reflexivity.
    + discriminate.
    + exact F4.
Qed.

Lemma effect_trans q1 q2 q3 o os calls calls' :
  effect q1 q2 [o] calls -> effect q2 q3 os calls' -> effect q1 q3 (o :: os) (calls ++ calls').
Proof.
  intros [F1 F2 F3 F4] [G1 G2 G3 G4].
  assert (pushed (o :: os) = pushed [o] ++ pushed os) as Ep by (cbn; now rewrite app_nil_r).
  assert (popped (o :: os) = popped [o] ++ popped os) as Eq by (cbn; now rewrite app_nil_r).
  assert (delivered (calls ++ calls') = delivered calls ++ delivered calls') as Ed by apply flat_map_app.
  assert (called (calls ++ calls') = called calls ++ called calls') as Ec by apply flat_map_app.
  constructor; rewrite ?Ed, ?Ec.
  - exact G1.
  - rewrite <- app_assoc, Ep. etransitivity; [exact (sublist_app _ _ _ _ (reflexivity (delivered calls)) G2)|].
    rewrite !app_assoc. apply sublist_app; [exact F2|reflexivity].
  - intros Hc Hf. assert (clears [o] = false /\ clears os = false) as [Hc1 Hc2] by (destruct o; now split).
    rewrite Ep, app_assoc in Hf.
    assert (fits (contents (m_list q1) ++ pushed [o])) as Hf1.
    { unfold fits in *. destruct capacity; [|exact I]. rewrite length_app in Hf. lia. }
    rewrite <- app_assoc, G3, app_assoc, F3, Ep, app_assoc; auto.
    rewrite <- (F3 Hc1 Hf1), <- app_assoc in Hf. unfold fits in *. destruct capacity; [|exact I]. rewrite length_app in Hf. lia.
  - rewrite <- app_assoc, G4, app_assoc, F4, Eq. now rewrite app_assoc.
Qed.

Lemma queue_run_effect no_value asserts os : forall q,
  queue_wf q -> exists calls q', queue_run no_value asserts os q = Ok (calls, q') /\ effect q q' os calls.
Proof.
  induction os as [|o os IH]; intros q Hwf; cbn [queue_run].
  - do 2 eexists. split; [reflexivity|]. constructor; [exact Hwf| | |]; cbn; now rewrite app_nil_r.
  - destruct (queue_step_effect no_value asserts o q Hwf) as (calls & q1 & E & F).
    destruct (IH q1 (eff_wf _ _ _ _ F)) as (calls' & q2 & E' & F'). run. rewrite E, E'.
    do 2 eexists. split; [reflexivity|]. now apply effect_trans with q1.
Qed.
End Spec.

(** ** The bounded queue

    What a caller sees of the queue, with the values as a list: a value goes to
    the handler that has waited longest, else it is the newest value and, when
    the buffer is full, the oldest is forgotten. *)

Section Bounded.
Context {V : Type} {C : Container V} {L : ContainerLaws C} {H W : Type}.
Variable no_value : V.
Abbreviation call := (post V H W).
Abbreviation queue := (coro_queue V H W).

Record bounded_queue : Type := BoundedQueue { values : list V; slots : list (bool * H); sleepers : list W }.

Definition keep_newest (l : list V) : list V :=
  match capacity with Some c => drop (length l - c) l | None => l end.

Fixpoint first_waiting (hs : list (bool * H)) : option (H * list (bool * H)) :=
  match hs with
  | [] => None
  | (false, h) :: hs' => Some (h, hs')
  | (true, _) :: hs' => first_waiting hs'
  end.

Definition bounded_cancel (b : bounded_queue) : list call * bounded_queue :=
  let waiting := map (fun h => PopCall h (Some operation_canceled) no_value) (live (slots b)) in
  match slots b with
  | [] => ([], b)
  | _ => (map (fun w => WaitCall w (Some operation_canceled)) (sleepers b) ++ waiting, BoundedQueue (values b) [] [])
  end.

Definition bounded_step (o : queue_op (V := V) (H := H) (W := W)) (b : bounded_queue) : list call * bounded_queue :=
  match o with
  | OpPop h =>
      match values b with
      | v :: vs => ([PopCall h None v], BoundedQueue vs (slots b) (sleepers b))
      | [] => ([], BoundedQueue [] (slots b ++ [(false, h)]) (sleepers b))
      end
  | OpTimeOut i =>
      match slots b !! i with
      | Some (false, h) =>
          ([PopCall h (Some pop_timed_out) no_value], BoundedQueue (values b) (<[i := (true, h)]> (slots b)) (sleepers b))
      | _ => ([], b)
      end
  | OpWait w =>
      match values b with
      | [] => ([], BoundedQueue [] (slots b) (sleepers b ++ [w]))
      | _ => ([WaitCall w None], b)
      end
  | OpPush v =>
      let woken := map (fun w => WaitCall w None) (sleepers b) in
      match first_waiting (slots b) with
      | Some (h, hs) => (woken ++ [PopCall h None v], BoundedQueue (values b) hs [])
      | None => (woken, BoundedQueue (keep_newest (values b ++ [v])) [] [])
      end
  | OpCancel => bounded_cancel b
  | OpClear => let (calls, b') := bounded_cancel b in (calls, BoundedQueue [] (slots b') (sleepers b'))
  end.

Fixpoint bounded_run (os : list queue_op) (b : bounded_queue) : list call * bounded_queue :=
  match os with
  | [] => ([], b)
  | o :: os' =>
      let (calls, b1) := bounded_step o b in
      let (rest, b2) := bounded_run os' b1 in
      (calls ++ rest, b2)
  end.

Definition seen (q : queue) : bounded_queue :=
  BoundedQueue (contents (m_list q)) (m_handlers q) (m_wait_handlers q).

Lemma push_back_newest v l :
  fits (contents l) -> contents (push_back v l) = keep_newest (contents l ++ [v]) /\ fits (contents (push_back v l)).
Proof.
  unfold fits, keep_newest. rewrite push_back_contents. destruct capacity as [c|]; [|now split].
  rewrite length_app. cbn [length]. intros Hc. destruct (Nat.leb_spec c (length (contents l))).
  - replace (length (contents l) + 1 - c)%nat with 1%nat by lia. rewrite length_tl, length_app. cbn [length].
    split; [now destruct (contents l ++ [v])|lia].
  - replace (length (contents l) + 1 - c)%nat with 0%nat by lia. rewrite length_app. cbn [length]. split; [reflexivity|lia].
Qed.

Lemma push_handlers_bounded asserts v hs : forall (q : queue) calls q',
  m_handlers q = hs -> fits (contents (m_list q)) -> push_handlers asserts v hs q = Ok (calls, q') ->
  fits (contents (m_list q')) /\ m_wait_handlers q' = m_wait_handlers q
  /\ match first_waiting hs with
     | Some (h, hs') => calls = [PopCall h None v] /\ m_list q' = m_list q /\ m_handlers q' = hs'
     | None => calls = [] /\ contents (m_list q') = keep_newest (contents (m_list q) ++ [v]) /\ m_handlers q' = []
     end.
Proof.
  induction hs as [|[timed h] hs IH]; intros q calls q' Hh Hf; cbn [push_handlers first_waiting]; unfold queue_assert; run.
  - destruct (push_back_newest v (m_list q) Hf) as [E F]. intros [= <- <-]. cbn. auto.
  - destruct (asserts && _); [discriminate|]. destruct timed; cbn [negb].
    + intros E. exact (IH (set_handlers hs q) calls q' eq_refl Hf E).
    + intros [= <- <-]. cbn. auto.
Qed.

Lemma cancel_calls_map (hs : list (bool * H)) : cancel_calls (W := W) no_value hs
  = map (fun h => PopCall (W := W) h (Some operation_canceled) no_value) (live hs).
Proof. unfold cancel_calls, live. induction hs as [|[[] h] hs IH]; [reflexivity|exact IH|]. cbn. now rewrite IH. Qed.

Lemma cancele_bounded (q : queue) calls q' :
  cancele no_value q = Ok (calls, q') -> bounded_cancel (seen q) = (calls, seen q') /\ m_list q' = m_list q.
Proof.
  unfold cancele, bounded_cancel, seen. run. cbn [slots values sleepers]. destruct q as [l hs ws]. cbn [m_handlers m_list].
  rewrite <- cancel_calls_map. destruct hs as [|p hs]; intros [= <- <-]; now split.
Qed.

Lemma push_woken asserts v woken (q q1 : queue) calls q' :
  m_list q1 = m_list q -> m_handlers q1 = m_handlers q -> m_wait_handlers q1 = [] -> fits (contents (m_list q)) ->
  match push_handlers asserts v (m_handlers q1) q1 with
  | Ok (a, s') => Ok (woken ++ a, s')
  | Err e => Err e
  end = Ok (calls, q') ->
  match first_waiting (m_handlers q) with
  | Some (h, hs) => (woken ++ [PopCall h None v], BoundedQueue (contents (m_list q)) hs [])
  | None => (woken, BoundedQueue (keep_newest (contents (m_list q) ++ [v])) [] [])
  end = (calls, seen q') /\ fits (contents (m_list q')).
Proof.
  intros El Eh Ew Hf. destruct (push_handlers _ _ _ _) as [[calls1 q2]|] eqn:E2; [|discriminate]. intros [= <- <-].
  rewrite <- El in Hf |- *. rewrite <- Eh.
  destruct (push_handlers_bounded asserts v _ _ _ _ eq_refl Hf E2) as (F & Ew' & Hc). split; [|exact F].
  unfold seen. rewrite Ew', Ew.
  destruct (first_waiting _) as [[h hs]|]; destruct Hc as (-> & -> & ->); now rewrite ?app_nil_r.
Qed.

(** Every operation does what the bounded queue does. *)
Lemma queue_step_bounded asserts o (q : queue) calls q' :
  fits (contents (m_list q)) -> queue_step no_value asserts o q = Ok (calls, q') ->
  bounded_step o (seen q) = (calls, seen q') /\ fits (contents (m_list q')).
Proof.
  intros Hf. destruct o as [h|i|w|v| |]; cbn [queue_step bounded_step seen values slots sleepers].
  - unfold async_pop. run. rewrite is_empty_contents, front_contents. destruct (contents (m_list q)) as [|x l] eqn:El.
    + intros [= <- <-]. cbn. unfold seen. cbn. now rewrite El.
    + intros [= <- <-]. unfold seen. cbn. rewrite pop_front_contents, El. split; [reflexivity|].
      unfold fits in *. destruct capacity; [cbn in *; lia|exact I].
  - unfold pop_time_out. run. destruct (m_handlers q !! i) as [[[] h]|]; intros [= <- <-]; now split.
  - unfold async_wait. run. rewrite is_empty_contents. destruct (contents (m_list q)) as [|x l] eqn:El; intros [= <- <-];
      unfold seen; cbn; now rewrite El.
  - unfold push, push_waiters, queue_assert. run.
    destruct (m_wait_handlers q) as [|w ws] eqn:Ew; run; [|destruct (asserts && _); [discriminate|]];
      now apply push_woken.
  - intros E. apply cancele_bounded in E as [E ->]. now split.
  - unfold clear. run. destruct (cancele no_value q) as [[calls1 q1]|] eqn:E; [|discriminate]. intros [= <- <-].
    apply cancele_bounded in E as [E _]. cbn [seen] in E. rewrite E. unfold seen. cbn. rewrite clear_contents.
    split; [reflexivity|]. unfold fits. destruct capacity; [cbn; lia|exact I].
Qed.

Lemma queue_run_bounded asserts os : forall (q : queue) calls q',
  fits (contents (m_list q)) -> queue_run no_value asserts os q = Ok (calls, q') ->
  bounded_run os (seen q) = (calls, seen q') /\ fits (contents (m_list q')).
Proof.
  induction os as [|o os IH]; intros q calls q' Hf; cbn [queue_run bounded_run].
  - intros [= <- <-]. now split.
  - run. destruct (queue_step no_value asserts o q) as [[calls1 q1]|] eqn:E1; [|discriminate].
    destruct (queue_run no_value asserts os q1) as [[calls2 q2]|] eqn:E2; [|discriminate]. intros [= <- <-].
    destruct (queue_step_bounded asserts o q calls1 q1 Hf E1) as [-> F1].
    destruct (IH q1 calls2 q2 F1 E2) as [-> F2]. now split.
Qed.
End Bounded.
#[global] Arguments bounded_queue V H W : clear implicits.
#[global] Arguments BoundedQueue {V H W}.

(** A property of all values in the queue holds for those that are delivered;
    without timers a handler gets a value or is cancelled. *)
Lemma push_handlers_calls {V} {C : Container V} {H W : Type} asserts v hs : forall (q : coro_queue V H W) calls q',
  push_handlers asserts v hs q = Ok (calls, q') -> calls = [] \/ exists h, calls = [PopCall h None v].
Proof.
  induction hs as [|[timed h] hs IH]; intros q calls q'; cbn [push_handlers]; unfold queue_assert; run.
  - intros [= <- _]. now left.
  - destruct (asserts && _); [discriminate|]. destruct timed; cbn [negb]; [apply IH|]. intros [= <- _]. eauto.
Qed.

Definition call_keeps {V H W} (P : V -> Prop) (c : post V H W) : Prop :=
  match c with
  | PopCall _ None v => P v
  | PopCall _ (Some e) _ => e = operation_canceled
  | WaitCall _ _ => True
  end.

Lemma queue_step_calls {V} {C : Container V} {L : ContainerLaws C} {H W : Type} (P : V -> Prop) no_value asserts o
    (q : coro_queue V H W) calls q' :
  queue_step no_value asserts o q = Ok (calls, q') -> Forall P (contents (m_list q)) ->
  match o with OpPush v => P v | OpTimeOut _ => False | _ => True end -> Forall (call_keeps P) calls.
Proof.
  assert (forall ws ec, Forall (call_keeps P) (map (fun w : W => WaitCall (H := H) w ec) ws)) as Hw
    by (intros ws ec; induction ws; [constructor|constructor; [exact I|assumption]]).
  assert (forall hs : list (bool * H), Forall (call_keeps P) (cancel_calls (W := W) no_value hs)) as Hc.
  { intros hs. unfold cancel_calls. induction hs as [|[[] h] hs IH]; cbn; [constructor|exact IH|]. now constructor. }
  intros E HP Ho. destruct o as [h|i|w|v| |]; cbn [queue_step] in E; [| |unfold async_wait in E| | |]; revert E.
  - unfold async_pop. run. destruct (is_empty _); [intros [= <- _]; constructor|]. rewrite front_contents.
    destruct (contents (m_list q)) as [|x l]; [discriminate|]. intros [= <- _]. inversion_clear HP. now repeat constructor.
  - contradiction.
  - run. destruct (is_empty _); intros [= <- _]; repeat constructor.
  - unfold push. run. destruct (push_waiters asserts q) as [[woken q1]|] eqn:E1; [|discriminate].
    assert (Forall (call_keeps P) woken) as H1.
    { revert E1. unfold push_waiters, queue_assert. run. destruct (m_wait_handlers q) as [|w ws]; [intros [= <- _]; constructor|].
      run. destruct (asserts && _); [discriminate|]. intros [= <- _]. apply (Hw (w :: ws)). }
    destruct (push_handlers asserts v (m_handlers q1) q1) as [[calls1 q2]|] eqn:E2; [|discriminate]. intros [= <- _].
    apply Forall_app_2; [exact H1|].
    destruct (push_handlers_calls _ _ _ _ _ _ E2) as [->|(h & ->)]; now repeat constructor.
  - unfold cancele. run. destruct (m_handlers q) as [|p hs]; intros [= <- _]; [constructor|]. apply Forall_app_2; [apply Hw|apply (Hc (p :: hs))].
  - unfold clear, cancele. run. destruct (m_handlers q) as [|p hs]; intros [= <- _]; [constructor|]. apply Forall_app_2; [apply Hw|apply (Hc (p :: hs))].
Qed.

Lemma sublist_forall {A} (P : A -> Prop) l k : sublist l k -> Forall P k -> Forall P l.
Proof.
  induction 1 as [|x l k _ IH|x l k _ IH]; intros H; [constructor| |]; inversion_clear H; [constructor|]; auto.
Qed.

Lemma queue_keeps {V} {C : Container V} {L : ContainerLaws C} {H W : Type} (P : V -> Prop) no_value asserts o
    (q : coro_queue V H W) :
  queue_wf q -> Forall P (contents (m_list q)) ->
  match o with OpPush v => P v | OpTimeOut _ => False | _ => True end ->
  exists calls q', queue_step no_value asserts o q = Ok (calls, q') /\ queue_wf q'
    /\ Forall P (contents (m_list q')) /\ Forall (call_keeps P) calls.
Proof.
  intros Hwf HP Ho. destruct (queue_step_effect no_value asserts o q Hwf) as (calls & q' & E & [F1 F2 _ _]).
  exists calls, q'. split; [exact E|]. split; [exact F1|]. split; [|exact (queue_step_calls P no_value asserts o q calls q' E HP Ho)].
  assert (Forall P (contents (m_list q) ++ pushed [o])) as HA.
  { apply Forall_app_2; [exact HP|]. destruct o; repeat constructor; assumption. }
  pose proof (sublist_forall P _ _ F2 HA) as HF. now apply Forall_app in HF as [_ ?].
Qed.

(** ** Properties *)

(** C29: the queue is a bounded queue.  From a queue whose values fit its
    capacity and where nobody waits while there is a value, every sequence of
    operations succeeds (no assertion fails), leads to such a queue again, and
    makes in order exactly the calls of the bounded queue [bounded_run], whose
    values, waiting handlers and sleepers it has at the end: a pushed value goes to
    the handler that has waited longest and has not timed out, else behind the
    values, of which a full buffer forgets the oldest and keeps the newest.  So the
    values that are delivered, followed by those still in the container, are those
    that were there and were pushed, in that order, without those that a full
    buffer or [clear] dropped; when the values fit and [clear] is not called, none
    is lost.  Every handler passed to [async_pop] is called exactly once, or still
    waits. *)
Theorem queue_correct {V} {C : Container V} {L : ContainerLaws C} {H W : Type} (no_value : V) (asserts : bool)
    (os : list queue_op) (q : coro_queue V H W) :
  queue_wf q -> fits (contents (m_list q)) ->
  exists calls q', queue_run no_value asserts os q = Ok (calls, q') /\ queue_wf q' /\ fits (contents (m_list q'))
  /\ bounded_run no_value os (seen q) = (calls, seen q')
  /\ sublist (delivered calls ++ contents (m_list q')) (contents (m_list q) ++ pushed os)
  /\ (clears os = false -> fits (contents (m_list q) ++ pushed os) ->
      delivered calls ++ contents (m_list q') = contents (m_list q) ++ pushed os)
  /\ called calls ++ live (m_handlers q') ≡ₚ live (m_handlers q) ++ popped os.
Proof.
  intros Hwf Hf. destruct (queue_run_effect no_value asserts os q Hwf) as (calls & q' & E & [F1 F2 F3 F4]).
  destruct (queue_run_bounded no_value asserts os q calls q' Hf E). exists calls, q'. auto 10.
Qed.

(** Operations on a buffer of two: a value overtakes nothing, the third value
    drops the first, the timed out handler is not called again. *)
Definition example_ops : list (queue_op (V := nat) (H := nat) (W := nat)) :=
  [OpPop 1; OpPop 2; OpTimeOut 0; OpPush 10; OpPush 11; OpPush 12; OpPush 13; OpPop 3]%nat.

Lemma queue_correct_witness :
  exists calls q', queue_run 0%nat true example_ops (new_queue (C := circular_buffer nat 2)) = Ok (calls, q')
  /\ queue_wf (L := circular_buffer_laws nat 2) q'
  /\ fits (L := circular_buffer_laws nat 2) (contents (m_list q'))
  /\ bounded_run (L := circular_buffer_laws nat 2) 0%nat example_ops (BoundedQueue [] [] []) = (calls, seen q')
  /\ sublist (delivered calls ++ contents (m_list q')) [10; 11; 12; 13]%nat
  /\ (false = false -> fits (L := circular_buffer_laws nat 2) [10; 11; 12; 13]%nat ->
      delivered calls ++ contents (m_list q') = [10; 11; 12; 13]%nat)
  /\ called calls ++ live (m_handlers q') ≡ₚ [1; 2; 3]%nat.
Proof.
  apply (queue_correct (L := circular_buffer_laws nat 2) 0%nat true example_ops new_queue).
  - intros _. reflexivity.
  - cbn. lia.
Defined.

Example example_ops_calls :
  match queue_run 0%nat true example_ops (new_queue (C := circular_buffer nat 2)) with
  | Ok (calls, _) => Some calls
  | Err _ => None
  end
  = Some [PopCall 1 (Some pop_timed_out) 0; PopCall 2 None 10; PopCall 3 None 12]%nat.
Proof. vm_compute. reflexivity. Qed.

(** [cancele] is documented to cancel all operations; a handler in
    [async_wait] is left waiting, and not called, when none is in [async_pop]. *)
Theorem cancele_forgets_waiters {V} {C : Container V} {H W : Type} (no_value : V) (q : coro_queue V H W) :
  m_handlers q = [] -> cancele no_value q = Ok ([], q).
Proof. intros E. unfold cancele. run. rewrite E. unfold set_handlers. destruct q; cbn in *. now subst. Qed.
