(* ===== verification/Regex.v ===== *)
(** Regular expressions, as far as the program uses them.

    [boost::regex_match] is a library function: the class [RegexEngine], with
    the documented rule of Perl regular expressions as its law: alternatives
    are tried in order, a quantifier takes as much as the rest of the expression
    allows, or as little when it is lazy.  [perl_match] is that rule as a function;
    [parses] is the language of an expression, with the texts of its groups, and
    [perl_match] finds a parse exactly when there is one.  [boost::regex_search]
    looks for the first place where the expression matches: [perl_search]. *)

From S2P Require Import Prelude.

Inductive regex : Type :=
| Chr (p : ascii -> bool)
| Star (p : ascii -> bool)
| Lazy (p : ascii -> bool)
| Seq (a b : regex)
| Opt (a : regex)
| Group (a : regex).

Definition Plus (p : ascii -> bool) : regex := Seq (Chr p) (Star p).
Fixpoint lit (s : cstring) (r : regex) : regex :=
  match s with [] => r | c :: s' => Seq (Chr (fun x => x =c c)) (lit s' r) end.

(** Sets of characters. *)
Definition not_char (c : ascii) : ascii -> bool := fun x => negb (x =c c).
Definition any_char : ascii -> bool := fun _ => true.

(** The texts of the groups, in the order of their parentheses. *)
Abbreviation captures := (list (option cstring)).

(** [what[i]] as a string; the groups are counted from 0. *)
Definition sub_match (c : captures) (i : nat) : cstring :=
  match c !! i with Some (Some s) => s | _ => [] end.

Fixpoint groups (r : regex) : nat :=
  match r with
  | Chr _ | Star _ | Lazy _ => 0
  | Seq a b => groups a + groups b
  | Opt a => groups a
  | Group a => S (groups a)
  end.

(** ** The language *)

Inductive parses : regex -> cstring -> captures -> Prop :=
| parses_chr p c : p c = true -> parses (Chr p) [c] []
| parses_star p s : Forall (fun c => p c = true) s -> parses (Star p) s []
| parses_lazy p s : Forall (fun c => p c = true) s -> parses (Lazy p) s []
| parses_seq a b s1 s2 c1 c2 : parses a s1 c1 -> parses b s2 c2 -> parses (Seq a b) (s1 ++ s2) (c1 ++ c2)
| parses_opt a s c : parses a s c -> parses (Opt a) s c
| parses_none a : parses (Opt a) [] (replicate (groups a) None)
| parses_group a s c : parses a s c -> parses (Group a) s (Some s :: c).

(** ** Matching with backtracking *)

(** [k] is the rest of the expression: it gets the text that was taken, the
    groups and the text behind it. *)
Fixpoint star_at {R} (p : ascii -> bool) (acc s : cstring) (k : cstring -> cstring -> option R) : option R :=
  match s with
  | c :: s' => if p c then match star_at p (acc ++ [c]) s' k with Some x => Some x | None => k acc s end else k acc s
  | [] => k acc []
  end.

Fixpoint lazy_at {R} (p : ascii -> bool) (acc s : cstring) (k : cstring -> cstring -> option R) : option R :=
  match k acc s with
  | Some x => Some x
  | None => match s with c :: s' => if p c then lazy_at p (acc ++ [c]) s' k else None | [] => None end
  end.

Fixpoint match_at {R} (r : regex) (s : cstring) (k : cstring -> captures -> cstring -> option R) : option R :=
  match r with
  | Chr p => match s with c :: s' => if p c then k [c] [] s' else None | [] => None end
  | Star p => star_at p [] s (fun t rest => k t [] rest)
  | Lazy p => lazy_at p [] s (fun t rest => k t [] rest)
  | Seq a b => match_at a s (fun t1 c1 s1 => match_at b s1 (fun t2 c2 s2 => k (t1 ++ t2) (c1 ++ c2) s2))
  | Opt a => match match_at a s k with Some x => Some x | None => k [] (replicate (groups a) None) s end
  | Group a => match_at a s (fun t c s1 => k t (Some t :: c) s1)
  end.

Definition perl_match (r : regex) (s : cstring) : option captures :=
  match_at r s (fun _ c rest => match rest with [] => Some c | _ => None end).

(** The first match: the text before it, the text that matches, the groups. *)
Fixpoint search_from (r : regex) (before s : cstring) : option (cstring * cstring * captures) :=
  match match_at r s (fun t c _ => Some (before, t, c)) with
  | Some x => Some x
  | None => match s with [] => None | c :: s' => search_from r (before ++ [c]) s' end
  end.
Definition perl_search (r : regex) (s : cstring) : option (cstring * cstring * captures) := search_from r [] s.

Class RegexEngine := {
  regex_match : regex -> cstring -> option captures;
  regex_search : regex -> cstring -> option (cstring * cstring * captures)
}.
Class RegexLaws (E : RegexEngine) := {
  regex_match_perl : forall r s, regex_match r s = perl_match r s;
  regex_search_perl : forall r s, regex_search r s = perl_search r s
}.

#[refine] Instance perl_engine : RegexEngine := { regex_match := perl_match; regex_search := perl_search }.
Proof. Defined.
#[refine] Instance perl_engine_laws : RegexLaws perl_engine := {}.
Proof. all: reflexivity. Defined.

(** ** Lemmas *)

Lemma star_at_sound {R} p s : forall acc (k : cstring -> cstring -> option R) x,
  star_at p acc s k = Some x ->
  exists t rest, s = t ++ rest /\ Forall (fun c => p c = true) t /\ k (acc ++ t) rest = Some x.
Proof.
  induction s as [|c s IH]; intros acc k x; cbn [star_at].
  - intros E. exists [], []. rewrite (app_nil_r acc). split; [reflexivity|split; [apply List.Forall_nil|exact E]].
  - assert (k acc (c :: s) = Some x -> exists t rest, c :: s = t ++ rest
              /\ Forall (fun c => p c = true) t /\ k (acc ++ t) rest = Some x) as Hstop
      by (intros E; exists [], (c :: s); rewrite (app_nil_r acc); split; [reflexivity|split; [apply List.Forall_nil|exact E]]).
    destruct (p c) eqn:Ep; [|exact Hstop]. destruct (star_at p (acc ++ [c]) s k) eqn:E; [|exact Hstop].
    intros [= <-]. destruct (IH _ _ _ E) as (t & rest & -> & Ht & Ek). exists (c :: t), rest.
    rewrite <- app_assoc in Ek. split; [reflexivity|]. split; [now constructor|exact Ek].
Qed.

Lemma star_at_complete {R} p t : forall acc (k : cstring -> cstring -> option R) rest,
  Forall (fun c => p c = true) t -> k (acc ++ t) rest <> None -> star_at p acc (t ++ rest) k <> None.
Proof.
  induction t as [|c t IH]; intros acc k rest Ht Hk; cbn [app star_at].
  - rewrite app_nil_r in Hk. destruct rest as [|c rest]; cbn [star_at]; [exact Hk|].
    destruct (p c); [|exact Hk]. destruct (star_at _ _ _ _); [discriminate|exact Hk].
  - inversion_clear Ht as [|? ? Hc Ht']. rewrite Hc.
    specialize (IH (acc ++ [c]) k rest Ht'). rewrite <- app_assoc in IH. specialize (IH Hk).
    destruct (star_at _ _ _ _); [discriminate|congruence].
Qed.

(** The quantifier takes all it can, when the rest accepts that. *)
Lemma star_at_greedy {R} p t : forall acc (k : cstring -> cstring -> option R) rest x,
  Forall (fun c => p c = true) t -> match rest with [] => True | c :: _ => p c = false end ->
  k (acc ++ t) rest = Some x -> star_at p acc (t ++ rest) k = Some x.
Proof.
  induction t as [|c t IH]; intros acc k rest x Ht Hr Hk; cbn [app star_at].
  - rewrite app_nil_r in Hk. destruct rest as [|c rest]; cbn [star_at]; [exact Hk|now rewrite Hr].
  - inversion_clear Ht as [|? ? Hc Ht']. rewrite Hc, (IH _ k rest x); auto. now rewrite <- app_assoc.
Qed.

Lemma lazy_at_sound {R} p s : forall acc (k : cstring -> cstring -> option R) x,
  lazy_at p acc s k = Some x ->
  exists t rest, s = t ++ rest /\ Forall (fun c => p c = true) t /\ k (acc ++ t) rest = Some x.
Proof.
  induction s as [|c s IH]; intros acc k x; cbn [lazy_at]; destruct (k acc _) as [y|] eqn:E; try discriminate.
  1, 2: intros [= <-]; exists []; eexists; rewrite (app_nil_r acc); split; [reflexivity|split; [apply List.Forall_nil|exact E]].
  destruct (p c) eqn:Ep; [|discriminate]. intros E'. destruct (IH _ _ _ E') as (t & rest & -> & Ht & Ek). exists (c :: t), rest.
  rewrite <- app_assoc in Ek. split; [reflexivity|]. split; [now constructor|exact Ek].
Qed.

Lemma lazy_at_complete {R} p t : forall acc (k : cstring -> cstring -> option R) rest,
  Forall (fun c => p c = true) t -> k (acc ++ t) rest <> None -> lazy_at p acc (t ++ rest) k <> None.
Proof.
  induction t as [|c t IH]; intros acc k rest Ht Hk; cbn [app].
  - rewrite app_nil_r in Hk. destruct rest; cbn [lazy_at]; destruct (k acc _); (discriminate || contradiction).
  - inversion_clear Ht as [|? ? Hc Ht']. cbn [lazy_at]. destruct (k acc _); [discriminate|]. rewrite Hc.
    apply IH; [exact Ht'|]. now rewrite <- app_assoc.
Qed.

Lemma match_at_sound {R} r : forall s (k : cstring -> captures -> cstring -> option R) x,
  match_at r s k = Some x -> exists t c rest, s = t ++ rest /\ parses r t c /\ k t c rest = Some x.
Proof.
  induction r as [p|p|p|a IHa b IHb|a IHa|a IHa]; intros s k x; cbn [match_at].
  - destruct s as [|c s]; [discriminate|]. destruct (p c) eqn:Ep; [|discriminate]. intros E.
    exists [c], [], s. repeat split; [now constructor|exact E].
  - intros E. apply star_at_sound in E as (t & rest & -> & Ht & E). exists t, [], rest. repeat split; [now constructor|exact E].
  - intros E. apply lazy_at_sound in E as (t & rest & -> & Ht & E). exists t, [], rest. repeat split; [now constructor|exact E].
  - intros E. apply IHa in E as (t1 & c1 & s1 & -> & P1 & E). apply IHb in E as (t2 & c2 & s2 & -> & P2 & E).
    exists (t1 ++ t2), (c1 ++ c2), s2. repeat split; [now rewrite app_assoc|now constructor|exact E].
  - destruct (match_at a s k) as [y|] eqn:E.
    + intros [= <-]. apply IHa in E as (t & c & rest & -> & P & E). exists t, c, rest. repeat split; [now constructor|exact E].
    + intros Ek. exists [], (replicate (groups a) None), s. repeat split; [apply parses_none|exact Ek].
  - intros E. apply IHa in E as (t & c & rest & -> & P & E). exists t, (Some t :: c), rest. repeat split; [now constructor|exact E].
Qed.

Lemma match_at_complete {R} r t c : parses r t c -> forall (k : cstring -> captures -> cstring -> option R) rest,
  k t c rest <> None -> match_at r (t ++ rest) k <> None.
Proof.
  induction 1 as [p c Hc|p s Hs|p s Hs|a b s1 s2 c1 c2 _ IH1 _ IH2|a s c _ IH|a|a s c _ IH]; intros k rest Hk; cbn [match_at app].
  - now rewrite Hc.
  - now apply star_at_complete.
  - now apply lazy_at_complete.
  - rewrite <- app_assoc. apply IH1. now apply IH2.
  - specialize (IH k rest Hk). destruct (match_at a (s ++ rest) k); congruence.
  - destruct (match_at a rest k); [discriminate|exact Hk].
  - now apply IH.
Qed.

(** Literal text at the front of the expression. *)
Lemma match_at_lit {R} s r : forall rest (k : cstring -> captures -> cstring -> option R),
  match_at (lit s r) (s ++ rest) k = match_at r rest (fun t c rest' => k (s ++ t) c rest').
Proof.
  induction s as [|c s IH]; intros rest k; cbn [lit app match_at]; [reflexivity|].
  rewrite Ascii.eqb_refl. rewrite IH. reflexivity.
Qed.

Lemma match_at_seq {R} a b s (k : cstring -> captures -> cstring -> option R) :
  match_at (Seq a b) s k = match_at a s (fun t1 c1 s1 => match_at b s1 (fun t2 c2 s2 => k (t1 ++ t2) (c1 ++ c2) s2)).
Proof. reflexivity. Qed.

(** Quantifiers that take the longest text. *)
Definition stops (p : ascii -> bool) (rest : cstring) : Prop := match rest with [] => True | c :: _ => p c = false end.

Lemma match_star {R} p t rest (k : cstring -> captures -> cstring -> option R) x :
  Forall (fun c => p c = true) t -> stops p rest -> k t [] rest = Some x -> match_at (Star p) (t ++ rest) k = Some x.
Proof. intros Ht Hr Hk. cbn [match_at]. now apply (star_at_greedy p t []). Qed.

Lemma match_plus {R} p t rest (k : cstring -> captures -> cstring -> option R) x :
  Forall (fun c => p c = true) t -> t <> [] -> stops p rest -> k t [] rest = Some x ->
  match_at (Plus p) (t ++ rest) k = Some x.
Proof.
  intros Ht Hne Hr Hk. destruct t as [|c t]; [congruence|]. inversion_clear Ht as [|? ? Hc Ht'].
  cbn [match_at Plus app]. rewrite Hc. now apply (star_at_greedy p t []).
Qed.

Lemma match_group {R} a s (k : cstring -> captures -> cstring -> option R) :
  match_at (Group a) s k = match_at a s (fun t c s1 => k t (Some t :: c) s1).
Proof. reflexivity. Qed.

Lemma match_opt {R} a s (k : cstring -> captures -> cstring -> option R) x :
  match_at a s k = Some x -> match_at (Opt a) s k = Some x.
Proof. intros H. cbn [match_at]. now rewrite H. Qed.

(** The rest of a text. *)
Lemma match_all {R} s (k : cstring -> captures -> cstring -> option R) x :
  k s [] [] = Some x -> match_at (Star any_char) s k = Some x.
Proof.
  intros H. rewrite <- (app_nil_r s) at 1. apply match_star; [|exact I|exact H]. apply List.Forall_forall. reflexivity.
Qed.

Lemma match_group_plus {R} p t rest (k : cstring -> captures -> cstring -> option R) x :
  Forall (fun c => p c = true) t -> t <> [] -> match rest with [] => True | c :: _ => p c = false end ->
  k t [Some t] rest = Some x -> match_at (Group (Plus p)) (t ++ rest) k = Some x.
Proof.
  intros Ht Hne Hr Hk. rewrite match_group. now apply match_plus.
Qed.

Lemma any_all s : Forall (fun c => any_char c = true) s.
Proof. apply List.Forall_forall. reflexivity. Qed.

(** Parses of literal text and of a sequence. *)
Lemma parses_lit s r t c : parses (lit s r) t c -> exists t', t = s ++ t' /\ parses r t' c.
Proof.
  revert t c. induction s as [|x s IH]; intros t c H; cbn [lit] in H; [now exists t|].
  inversion H as [| | |a b s1 s2 c1 c2 H1 H2| | |]; subst. inversion H1 as [p y Hy| | | | | |]; subst.
  apply Ascii.eqb_eq in Hy as ->. destruct (IH _ _ H2) as (t' & -> & P). now exists t'.
Qed.

Lemma parses_lit_text s r t c : parses r t c -> parses (lit s r) (s ++ t) c.
Proof.
  intros H. induction s as [|x s IH]; [exact H|]. cbn [lit app]. change (x :: s ++ t) with ([x] ++ (s ++ t)). change c with ([] ++ c).
  constructor; [constructor; apply Ascii.eqb_refl|exact IH].
Qed.

Lemma parses_seq_inv a b t c : parses (Seq a b) t c ->
  exists t1 t2 c1 c2, t = t1 ++ t2 /\ c = c1 ++ c2 /\ parses a t1 c1 /\ parses b t2 c2.
Proof. intros H. inversion H; subst. eauto 10. Qed.

(** ** Properties *)

(** Matching is correct.  [perl_match] succeeds exactly for the texts of
    the language of the expression, and the groups it returns are those of a
    parse. *)
Theorem perl_match_correct (r : regex) (s : cstring) :
  (forall c, perl_match r s = Some c -> parses r s c)
  /\ (perl_match r s = None <-> forall c, ~ parses r s c).
Proof.
  assert (forall c, perl_match r s = Some c -> parses r s c) as Hs.
  { intros c E. apply match_at_sound in E as (t & c' & rest & -> & P & E). destruct rest; [|discriminate].
    injection E as ->. now rewrite app_nil_r. }
  split; [exact Hs|]. split.
  - intros E c P. pose proof (match_at_complete r s c P (fun _ c rest => match rest with [] => Some c | _ => None end) []) as H.
    rewrite app_nil_r in H. unfold perl_match in E. rewrite E in H. now apply H.
  - intros H. destruct (perl_match r s) as [c|]; [|reflexivity]. now destruct (H c (Hs c eq_refl)).
Qed.

(** Searching is correct: what is found is a part of the text in the language of
    the expression, no part that begins earlier is, and nothing is found only when
    no part is. *)
Theorem perl_search_correct (r : regex) (s : cstring) :
  match perl_search r s with
  | Some (b, t, c) =>
      (exists rest, s = b ++ t ++ rest) /\ parses r t c
      /\ forall b' t' c' rest', s = b' ++ t' ++ rest' -> parses r t' c' -> (length b <= length b')%nat
  | None => forall b' t' c' rest', s = b' ++ t' ++ rest' -> ~ parses r t' c'
  end.
Proof.
  unfold perl_search. set (before := [] : cstring).
  assert (match search_from r before s with
          | Some (b, t, c) => (exists pre rest, b = before ++ pre /\ s = pre ++ t ++ rest) /\ parses r t c
              /\ forall b' t' c' rest', s = b' ++ t' ++ rest' -> parses r t' c' -> (length b <= length before + length b')%nat
          | None => forall b' t' c' rest', s = b' ++ t' ++ rest' -> ~ parses r t' c'
          end) as H.
  { generalize before. clear before. induction s as [|x s IH]; intros before; cbn [search_from];
      (destruct (match_at r _ _) as [[[b t] c]|] eqn:E;
       [apply match_at_sound in E as (t' & c' & rest & Es & P & [= <- <- <-]); split; [exists [], rest; now rewrite app_nil_r|split; [exact P|intros; lia]]|]).
    - intros b' t' c' rest' Es P. symmetry in Es. apply app_eq_nil in Es as [-> Es]. apply app_eq_nil in Es as [-> ->].
      now apply (match_at_complete r [] c' P (fun t c _ => Some (before, t, c)) []).
    - assert (forall b' t' c' rest', x :: s = b' ++ t' ++ rest' -> parses r t' c' -> exists b'', b' = x :: b'' /\ s = b'' ++ t' ++ rest') as Hb.
      { intros [|y b'] t' c' rest' Es P; [|injection Es as <- ->; now exists b']. exfalso. cbn [app] in Es. rewrite Es in E.
        now apply (match_at_complete r t' c' P (fun t c _ => Some (before, t, c)) rest'). }
      specialize (IH (before ++ [x])). destruct (search_from r (before ++ [x]) s) as [[[b t] c]|].
      + destruct IH as ((pre & rest & -> & ->) & P & Hl). split; [exists (x :: pre), rest; now rewrite <- app_assoc|]. split; [exact P|].
        intros b' t' c' rest' Es P'. destruct (Hb _ _ _ _ Es P') as (b'' & -> & Es'). specialize (Hl _ _ _ _ Es' P').
        rewrite !length_app in *. cbn [length] in *. lia.
      + intros b' t' c' rest' Es P'. destruct (Hb _ _ _ _ Es P') as (b'' & -> & Es'). now apply (IH b'' t' c' rest' Es'). }
  destruct (search_from r before s) as [[[b t] c]|]; [|exact H]. destruct H as ((pre & rest & -> & ->) & P & Hl).
  split; [now exists rest|]. split; [exact P|]. intros. cbn [before length Nat.add] in Hl. eapply Hl; eauto.
Qed.
