(* ===== verification/Irc.v ===== *)
(** The IRC client, libirc/irc.cpp: [client_impl] with its member functions and
    the coroutines [irc_main_loop], [msg_sender_loop] and [msg_reader_loop].

    A coroutine is suspended at one of the places marked
    [BOOST_ASIO_CORO_YIELD]; the operations that will resume one are the list
    [todo] of the state, unless it waits in a queue.  [handle] is what happens
    when one of them ends with a given outcome, or when the program calls a
    member function.  Queues are those of CoroQueue.v, [boost::regex_match] is the
    class of Regex.v. *)

From S2P Require Import Prelude CLib Settings Cookie HttpParsers HttpBody Regex CoroQueue.

Record irc_msg : Type := IrcMsg { whom : cstring; from : cstring; locate : cstring; msg : cstring }.

(** Where [irc_main_loop] waits for a timer. *)
Inductive main_point : Type :=
| Retry            (* 15 s after a failed connection *)
| LoginSent        (* 2 s after NICK and USER *)
| LoginWait        (* 5 s more *)
| Joined (i : nat) (* 2 s after the i-th JOIN *)
| MessageSent      (* 488 ms after a message *)
| Restart.         (* 20 s after the connection was lost *)

(** An operation that is under way: a posted call of the main loop; its
    connection; a timer; posted calls of the handlers in the queues; the write,
    and the timer behind it, of a sender; the read of a reader. *)
Inductive pending : Type :=
| Start
| Connecting (server port : cstring)
| MainTimer (p : main_point)
| MainPopped (ec : option queue_error) (message : cstring)
| SenderPopped (ec : option queue_error) (value : cstring)
| Writing (value : cstring)
| SenderTimer
| Reading.

Inductive irc_fault : Type := BadServerName | BadLength | QueueFault (f : queue_fault).

Record client {C1 C2 : Container cstring} : Type := Client {
  user_ : cstring;
  pwd_ : cstring;
  server_ : cstring;
  response_ : cstring;
  join_queue_ : list cstring;
  retry_count_ : Z;
  c_retry_cuont : Z;
  quitting_ : bool;
  irc_command_send_queue_ : coro_queue cstring (C := C1) unit unit;
  messages_send_queue_ : coro_queue cstring (C := C2) unit unit
}.
#[global] Arguments client C1 C2 : clear implicits.
#[global] Arguments Client {C1 C2}.

(** The client with its socket ([socket_sent] is what was written since it was
    connected), the messages given to the callback, and the operations under
    way. *)
Record irc {C1 C2 : Container cstring} : Type := Irc {
  cl : client C1 C2;
  socket_open : bool;
  socket_sent : cstring;
  cb_calls : list irc_msg;
  todo : list pending
}.
#[global] Arguments irc C1 C2 : clear implicits.
#[global] Arguments Irc {C1 C2}.

(** ** Regular expressions of the source *)

Definition line_char : ascii -> bool := fun x => (x =c CR) || (x =c LF).

Definition ping_re : regex := lit ($"PING ") (Seq (Group (Plus (not_char " "))) (Star any_char)).

Definition privmsg_re : regex :=
  lit ($":") (Seq (Group (Plus (not_char "!"))) (lit ($"!") (Seq (Group (Plus (not_char " ")))
    (lit ($" PRIVMSG ") (Seq (Group (Plus (not_char " "))) (lit ($" :") (Seq (Group (Star any_char)) (Star line_char)))))))).

Definition server_re : regex :=
  Seq (Group (Plus (fun c => isalnum c || (c =c "."))))
      (Opt (Group (lit ($":") (Group (Plus isdigit))))).

(** [boost::split(msgs, msg, is_any_of("\r\n"))]. *)
Fixpoint split_lines (s : cstring) : list cstring :=
  match s with
  | [] => [[]]
  | c :: s' =>
      if line_char c then [] :: split_lines s'
      else match split_lines s' with l :: ls => (c :: l) :: ls | [] => [[c]] end
  end.

Section Irc.
Context {C1 C2 : Container cstring} {E : RegexEngine}.
Variable asserts : bool.

Abbreviation A := (st (irc C1 C2) irc_fault).

Definition set_cl (c : client C1 C2) (s : irc C1 C2) : irc C1 C2 :=
  Irc c (socket_open s) (socket_sent s) (cb_calls s) (todo s).
Definition set_socket (o : bool) (w : cstring) (s : irc C1 C2) : irc C1 C2 :=
  Irc (cl s) o w (cb_calls s) (todo s).
Definition set_todo (l : list pending) (s : irc C1 C2) : irc C1 C2 :=
  Irc (cl s) (socket_open s) (socket_sent s) (cb_calls s) l.
Definition call_back (m : irc_msg) (s : irc C1 C2) : irc C1 C2 :=
  Irc (cl s) (socket_open s) (socket_sent s) (cb_calls s ++ [m]) (todo s).

Definition set_user (u : cstring) (c : client C1 C2) : client C1 C2 :=
  Client u (pwd_ c) (server_ c) (response_ c) (join_queue_ c) (retry_count_ c) (c_retry_cuont c) (quitting_ c)
    (irc_command_send_queue_ c) (messages_send_queue_ c).
Definition set_irc_response (r : cstring) (c : client C1 C2) : client C1 C2 :=
  Client (user_ c) (pwd_ c) (server_ c) r (join_queue_ c) (retry_count_ c) (c_retry_cuont c) (quitting_ c)
    (irc_command_send_queue_ c) (messages_send_queue_ c).
Definition set_joins (l : list cstring) (c : client C1 C2) : client C1 C2 :=
  Client (user_ c) (pwd_ c) (server_ c) (response_ c) l (retry_count_ c) (c_retry_cuont c) (quitting_ c)
    (irc_command_send_queue_ c) (messages_send_queue_ c).
Definition set_retry (n : Z) (c : client C1 C2) : client C1 C2 :=
  Client (user_ c) (pwd_ c) (server_ c) (response_ c) (join_queue_ c) (retry_count_ c) n (quitting_ c)
    (irc_command_send_queue_ c) (messages_send_queue_ c).
Definition set_quitting (c : client C1 C2) : client C1 C2 :=
  Client (user_ c) (pwd_ c) (server_ c) (response_ c) (join_queue_ c) (retry_count_ c) (c_retry_cuont c) true
    (irc_command_send_queue_ c) (messages_send_queue_ c).
Definition set_commands (q : coro_queue cstring (C := C1) unit unit) (c : client C1 C2) : client C1 C2 :=
  Client (user_ c) (pwd_ c) (server_ c) (response_ c) (join_queue_ c) (retry_count_ c) (c_retry_cuont c) (quitting_ c)
    q (messages_send_queue_ c).
Definition set_messages (q : coro_queue cstring (C := C2) unit unit) (c : client C1 C2) : client C1 C2 :=
  Client (user_ c) (pwd_ c) (server_ c) (response_ c) (join_queue_ c) (retry_count_ c) (c_retry_cuont c) (quitting_ c)
    (irc_command_send_queue_ c) q.

Definition modify_cl (f : client C1 C2 -> client C1 C2) : A () := st_modify (fun s => set_cl (f (cl s)) s).
Definition start (p : pending) : A () := st_modify (fun s => set_todo (todo s ++ [p]) s).

(** Operations on the queues: what they post is under way. *)
Definition sender_call (c : post cstring unit unit) : list pending :=
  match c with PopCall _ ec v => [SenderPopped ec v] | WaitCall _ _ => [] end.
Definition main_call (c : post cstring unit unit) : list pending :=
  match c with PopCall _ ec v => [MainPopped ec v] | WaitCall _ _ => [] end.

Definition on_commands (o : queue_op) : A () :=
  s ← st_get;
  match queue_step [] asserts o (irc_command_send_queue_ (cl s)) with
  | Ok (calls, q) => modify_cl (set_commands q) ;; st_modify (fun s => set_todo (todo s ++ flat_map sender_call calls) s)
  | Err f => st_fail (QueueFault f)
  end.
Definition on_messages (o : queue_op) : A () :=
  s ← st_get;
  match queue_step [] asserts o (messages_send_queue_ (cl s)) with
  | Ok (calls, q) => modify_cl (set_messages q) ;; st_modify (fun s => set_todo (todo s ++ flat_map main_call calls) s)
  | Err f => st_fail (QueueFault f)
  end.

(** ** Member functions of [client_impl] *)

Definition send_command (cmd : cstring) : A () := on_commands (OpPush (cmd ++ crlf)).

(** Not offered by the public class, so no event below calls it. *)
Definition oper (user pwd : cstring) : A () := send_command ($"OPER " ++ user ++ $" " ++ pwd).

Definition join (ch pwd : cstring) : A () :=
  modify_cl (fun c => set_joins (join_queue_ c ++ [match pwd with [] => $"JOIN " ++ ch | _ => $"JOIN " ++ ch ++ $" " ++ pwd end]) c).

Fixpoint push_lines (whom : cstring) (msgs : list cstring) : A () :=
  match msgs with
  | [] => mret ()
  | m :: msgs' =>
      (if (0 <? length m)%nat then on_messages (OpPush ($"PRIVMSG " ++ whom ++ $" :" ++ m)) else mret ()) ;;
      push_lines whom msgs'
  end.
Definition chat (whom msg : cstring) : A () := push_lines whom (split_lines msg).

Definition close_socket : A () := st_modify (fun s => set_socket false (socket_sent s) s).

Definition stop : A () := modify_cl set_quitting ;; close_socket.

Fixpoint send_commands (l : list cstring) : A () :=
  match l with [] => mret () | c :: l' => send_command c ;; send_commands l' end.

Definition nick_in_use : cstring := $"Nickname is already in use.".
Definition login_commands (user : cstring) : list cstring :=
  [$"NICK " ++ user; $"USER " ++ user ++ $" 0 * " ++ user].

Definition process_request (bytes_transferred : nat) : A () :=
  s ← st_get;
  let text := take bytes_transferred (response_ (cl s)) in
  modify_cl (set_irc_response (drop bytes_transferred (response_ (cl s)))) ;;
  if (bytes_transferred <? 2)%nat then st_fail BadLength
  else
    let req := take (bytes_transferred - 2) text in
    match find_str nick_in_use req with
    | Some _ =>
        modify_cl (fun c => set_user (user_ c ++ $"_") c) ;;
        s ← st_get;
        send_commands (login_commands (user_ (cl s))) ;;
        send_commands (join_queue_ (cl s))
    | None =>
        match regex_match ping_re req with
        | Some what => send_command ($"PONG " ++ sub_match what 0)
        | None =>
            match regex_match privmsg_re req with
            | Some what =>
                st_modify (call_back (IrcMsg (sub_match what 0) (sub_match what 2) (sub_match what 1) (sub_match what 3))) ;;
                modify_cl (set_retry 0)
            | None => mret ()
            end
        end
    end.

(** ** [msg_sender_loop] *)

(** The head of its loop. *)
Definition sender_popped (ec : option queue_error) (value : cstring) : A () :=
  s ← st_get;
  match ec with
  | Some operation_canceled => mret ()
  | _ => if negb (quitting_ (cl s)) then start (Writing value) else mret ()
  end.

Definition sender_written (ok : bool) : A () := if ok then start SenderTimer else close_socket.
Definition sender_waited : A () := on_commands (OpPop ()).

(** ** [msg_reader_loop] *)

Definition reader (r : option nat) : A () :=
  match r with
  | None => close_socket ;; on_messages OpCancel
  | Some bytes_transferred => process_request bytes_transferred ;; start Reading
  end.

(** ** [irc_main_loop] *)

Definition async_connect_irc : A () :=
  s ← st_get;
  match regex_match server_re (server_ (cl s)) with
  | None => st_fail BadServerName
  | Some what =>
      let port := match what !! 1%nat with Some (Some p) => drop 1 p | _ => $"6667" end in
      start (Connecting (sub_match what 0) port)
  end.

(** The head of the loop of connections. *)
Definition connect : A () :=
  s ← st_get;
  if retry_count_ (cl s) <? c_retry_cuont (cl s) then mret () else async_connect_irc.

Definition login : A () :=
  modify_cl (set_irc_response []) ;;
  on_commands OpClear ;;
  start Reading ;;
  on_commands (OpPop ()) ;;
  s ← st_get;
  (match pwd_ (cl s) with [] => mret () | p => send_command ($"PASS " ++ p) end) ;;
  send_commands (login_commands (user_ (cl s))) ;;
  start (MainTimer LoginSent).

Definition connected (ok : bool) : A () :=
  if ok then login
  else modify_cl (fun c => set_retry (wrapu 32 (c_retry_cuont c + 1)) c) ;; start (MainTimer Retry).

(** The loop of messages. *)
Definition wait_message : A () := on_messages (OpPop ()).

Definition join_channels (i : nat) : A () :=
  s ← st_get;
  match join_queue_ (cl s) !! i with
  | Some c => send_command c ;; start (MainTimer (Joined i))
  | None => wait_message
  end.

Definition main_popped (ec : option queue_error) (message : cstring) : A () :=
  match ec with
  | None => send_command message ;; start (MainTimer MessageSent)
  | Some operation_canceled => on_commands OpCancel ;; start (MainTimer Restart)
  | Some _ => wait_message
  end.

Definition main_timer (p : main_point) : A () :=
  match p with
  | Retry => connect
  | LoginSent => start (MainTimer LoginWait)
  | LoginWait => join_channels 0
  | Joined i => join_channels (S i)
  | MessageSent => wait_message
  | Restart => start Start
  end.

(** [operator()] of the main loop does nothing after [stop]. *)
Definition unless_quitting (m : A ()) : A () :=
  s ← st_get; if quitting_ (cl s) then mret () else m.

(** ** Events *)

(** How an operation ends: well, with so many characters written before an
    error, or with this text received. *)
Inductive outcome : Type := Success | Failure (written : nat) | Received (data : cstring).

Inductive irc_event : Type :=
| Done (i : nat) (o : outcome)
| Chat (whom msg : cstring)
| Join (ch pwd : cstring)
| Stop.

Definition resume (p : pending) (o : outcome) : A () :=
  match p, o with
  | Start, _ => unless_quitting connect
  | Connecting _ _, Success => st_modify (set_socket true []) ;; unless_quitting (connected true)
  | Connecting _ _, _ => unless_quitting (connected false)
  | MainTimer q, _ => unless_quitting (main_timer q)
  | MainPopped ec m, _ => unless_quitting (main_popped ec m)
  | SenderPopped ec v, _ => sender_popped ec v
  | Writing v, Failure n =>
      st_modify (fun s => set_socket (socket_open s) (socket_sent s ++ take n v) s) ;; sender_written false
  | Writing v, _ =>
      st_modify (fun s => set_socket (socket_open s) (socket_sent s ++ v) s) ;; sender_written true
  | SenderTimer, _ => sender_waited
  | Reading, Received data =>
      modify_cl (fun c => set_irc_response (response_ c ++ data) c) ;;
      s ← st_get;
      reader (crlf_end (response_ (cl s)))
  | Reading, _ => reader None
  end.

Definition handle (e : irc_event) : A () :=
  match e with
  | Done i o =>
      s ← st_get;
      match todo s !! i with
      | Some p => st_modify (set_todo (delete i (todo s))) ;; resume p o
      | None => mret ()
      end
  | Chat w m => chat w m
  | Join ch pwd => join ch pwd
  | Stop => stop
  end.

(** What can happen: a closed socket fails; a read ends with a whole line. *)
Definition possible (e : irc_event) (s : irc C1 C2) : bool :=
  match e with
  | Done i o =>
      match todo s !! i, o with
      | Some (Writing _), Success => socket_open s
      | Some (Writing _), Failure _ => true
      | Some Reading, Received data =>
          socket_open s && match crlf_end (response_ (cl s) ++ data) with Some _ => true | None => false end
      | Some Reading, Failure _ => true
      | Some (Connecting _ _), Received _ => false
      | Some (Connecting _ _), _ => true
      | Some _, Success => true
      | _, _ => false
      end
  | _ => true
  end.

Fixpoint irc_run (es : list irc_event) : A () :=
  match es with [] => mret () | e :: es' => handle e ;; irc_run es' end.

(** The client after its constructor and [start()]. *)
Definition irc_init (user pwd server : cstring) (max_retry_count : Z) : irc C1 C2 :=
  Irc (Client user pwd server [] [] max_retry_count 0 false new_queue new_queue) false [] [] [Start].

(** The states of all sequences of events. *)
Inductive irc_steps (ok : irc_event -> irc C1 C2 -> Prop) (s : irc C1 C2) : irc C1 C2 -> Prop :=
| steps_none : irc_steps ok s s
| steps_more s1 e s2 : irc_steps ok s s1 -> possible e s1 = true -> ok e s1 -> handle e s1 = Ok ((), s2) -> irc_steps ok s s2.
End Irc.
