(* ===== verification/IrcSafety.v ===== *)
(** Theorems on the IRC client of Irc.v: what it does with a line from the
    server, what it sends over all interleavings of its coroutines, when it
    gives up and when it never connects again. *)

From S2P Require Import Prelude CLib Settings Cookie HttpParsers HttpBody HttpStream Regex CoroQueue Irc.

(** ** Lines *)

(** Text without line breaks, and a command as it is sent. *)
Definition clean (s : cstring) : Prop := Forall (fun c => line_char c = false) s.
Definition command (v : cstring) : Prop := exists l, v = l ++ crlf /\ clean l.

Lemma clean_app a b : clean (a ++ b) <-> clean a /\ clean b.
Proof. apply Forall_app. Qed.

Lemma clean_text s : forallb (fun c => negb (line_char c)) s = true -> clean s.
Proof.
  intros H. apply List.Forall_forall. intros c Hc. rewrite forallb_forall in H. specialize (H c Hc).
  now apply negb_true_iff in H.
Qed.

(** Literals. *)
#[export] Hint Extern 2 (clean _) => (apply clean_text; reflexivity) : avbot.
#[export] Hint Resolve <- clean_app : avbot.

Lemma command_of l : clean l -> command (l ++ crlf).
Proof. intros H. now exists l. Qed.

Lemma split_lines_clean s : Forall clean (split_lines s).
Proof.
  induction s as [|c s IH]; cbn [split_lines]; [repeat constructor|].
  destruct (line_char c) eqn:Ec; [constructor; [constructor|exact IH]|].
  destruct (split_lines s) as [|l ls]; [now repeat constructor|]. inversion_clear IH. now repeat constructor.
Qed.

(** ** The invariant *)

Section Invariant.
Context {C1 C2 : Container cstring} {L1 : ContainerLaws C1} {L2 : ContainerLaws C2} {E : RegexEngine} {EL : RegexLaws E}.
Variable asserts : bool.
Abbreviation A := (st (irc C1 C2) irc_fault).

Definition pending_ok (p : pending) : Prop :=
  match p with
  | SenderPopped (Some operation_canceled) _ => True
  | SenderPopped _ v | Writing v => command v
  | MainPopped None m => clean m
  | _ => True
  end.

(** Both queues are well formed and hold lines, the operations under way carry
    lines, and what was sent on an open connection is a sequence of commands. *)
Record irc_inv (s : irc C1 C2) : Prop := {
  inv_user : clean (user_ (cl s));
  inv_pwd : clean (pwd_ (cl s));
  inv_server : regex_match server_re (server_ (cl s)) <> None;
  inv_joins : Forall clean (join_queue_ (cl s));
  inv_cwf : queue_wf (irc_command_send_queue_ (cl s));
  inv_commands : Forall command (contents (m_list (irc_command_send_queue_ (cl s))));
  inv_mwf : queue_wf (messages_send_queue_ (cl s));
  inv_messages : Forall clean (contents (m_list (messages_send_queue_ (cl s))));
  inv_todo : Forall pending_ok (todo s);
  inv_sent : socket_open s = true -> exists ls, socket_sent s = concat ls /\ Forall command ls
}.

Definition keeps (m : A ()) : Prop := forall s, irc_inv s -> wp m (fun _ s' => irc_inv s') s.

Lemma keeps_ret : keeps (mret ()).
Proof. intros s H. now apply wp_ret. Qed.

Lemma keeps_bind (m : A ()) (k : () -> A ()) : keeps m -> keeps (k ()) -> keeps (m ≫= k).
Proof. intros Hm Hk s H. apply wp_bind. eapply wp_mono; [now apply Hm|]. intros [] s' H'. now apply Hk. Qed.

Lemma keeps_get (k : irc C1 C2 -> A ()) :
  (forall s, irc_inv s -> wp (k s) (fun _ s' => irc_inv s') s) -> keeps (st_get ≫= k).
Proof. intros Hk s H. apply wp_bind, wp_get. now apply Hk. Qed.

Lemma keeps_start p : pending_ok p -> keeps (start p).
Proof.
  intros Hp s []. apply wp_modify. split; try assumption. cbn. apply Forall_app_2; [assumption|now repeat constructor].
Qed.

Definition op_ok (P : cstring -> Prop) (o : queue_op (V := cstring) (H := unit) (W := unit)) : Prop :=
  match o with OpPush v => P v | OpTimeOut _ => False | _ => True end.

Lemma keeps_commands o : op_ok command o -> keeps (on_commands asserts o).
Proof.
  intros Ho s H. unfold on_commands. apply wp_bind, wp_get. destruct H.
  destruct (queue_keeps command [] asserts o (irc_command_send_queue_ (cl s)) inv_cwf0 inv_commands0 Ho)
    as (calls & q & -> & Hwf & HP & Hc).
  unfold modify_cl. apply wp_bind, wp_modify, wp_modify. split; try assumption. cbn. apply Forall_app_2; [assumption|].
  clear -Hc. induction Hc as [|c calls Hx _ IH]; [constructor|]. cbn. apply Forall_app_2; [|exact IH].
  destruct c as [h [e|] v|]; cbn in *; subst; now repeat constructor.
Qed.

Lemma keeps_messages o : op_ok clean o -> keeps (on_messages asserts o).
Proof.
  intros Ho s H. unfold on_messages. apply wp_bind, wp_get. destruct H.
  destruct (queue_keeps clean [] asserts o (messages_send_queue_ (cl s)) inv_mwf0 inv_messages0 Ho)
    as (calls & q & -> & Hwf & HP & Hc).
  unfold modify_cl. apply wp_bind, wp_modify, wp_modify. split; try assumption. cbn. apply Forall_app_2; [assumption|].
  clear -Hc. induction Hc as [|c calls Hx _ IH]; [constructor|]. cbn. apply Forall_app_2; [|exact IH].
  destruct c as [h [e|] v|]; cbn in *; subst; now repeat constructor.
Qed.

Lemma keeps_send cmd : clean cmd -> keeps (send_command asserts cmd).
Proof. intros H. apply keeps_commands. now apply command_of. Qed.

Lemma keeps_sends l : Forall clean l -> keeps (send_commands asserts l).
Proof. induction 1; cbn [send_commands]; [apply keeps_ret|]. apply keeps_bind; [now apply keeps_send|assumption]. Qed.

Lemma keeps_modify_cl f : (forall s, irc_inv s -> irc_inv (set_cl (f (cl s)) s)) -> keeps (modify_cl f).
Proof. intros Hf s H. apply wp_modify. now apply Hf. Qed.

Lemma keeps_close : keeps close_socket.
Proof. intros s []. apply wp_modify. split; try assumption. discriminate. Qed.

Ltac keep := first
  [ apply keeps_ret | apply keeps_bind | apply keeps_start; exact I | apply keeps_close
  | apply keeps_commands; exact I | apply keeps_messages; exact I ].

Lemma login_clean u : clean u -> Forall clean (login_commands u).
Proof. intros H. repeat constructor; repeat (apply clean_app; split); auto with avbot. Qed.

(** The groups of an expression are parts of the text. *)
Lemma parses_clean r s c : parses r s c -> clean s -> Forall (fun o => match o with Some t => clean t | None => True end) c.
Proof.
  induction 1 as [| | |a b s1 s2 c1 c2 _ IH1 _ IH2|a s c _ IH|a|a s c _ IH]; intros Hs; try constructor; auto.
  - apply clean_app in Hs as [? ?]. apply Forall_app_2; auto.
  - clear. induction (groups a); now constructor.
Qed.

Lemma sub_match_clean r s c i : regex_match r s = Some c -> clean s -> clean (sub_match c i).
Proof.
  rewrite regex_match_perl. intros Hm Hs. apply perl_match_correct in Hm. pose proof (parses_clean r s c Hm Hs) as HF.
  unfold sub_match. destruct (c !! i) as [[t|]|] eqn:Ei; [|constructor|constructor].
  exact (Forall_lookup_1 _ _ _ _ HF Ei).
Qed.

Lemma inv_process n s :
  irc_inv s -> (2 <= n)%nat -> clean (take (n - 2) (take n (response_ (cl s)))) ->
  wp (process_request asserts n) (fun _ s' => irc_inv s') s.
Proof.
  intros H Hn Hc. unfold process_request. apply wp_bind, wp_get, wp_bind, wp_modify.
  rewrite (proj2 (Nat.ltb_ge n 2)) by lia. set (req := take (n - 2) _) in *.
  assert (irc_inv (set_cl (set_irc_response (drop n (response_ (cl s))) (cl s)) s)) as H1 by (destruct H; now split).
  revert H1. generalize (set_cl (set_irc_response (drop n (response_ (cl s))) (cl s)) s). clear H. intros s1 H.
  destruct (find_str nick_in_use req).
  - apply wp_bind. unfold modify_cl. apply wp_modify.
    assert (irc_inv (set_cl (set_user (user_ (cl s1) ++ $"_") (cl s1)) s1)) as H1.
    { destruct H. split; try assumption. apply clean_app. auto with avbot. }
    apply wp_bind, wp_get. apply keeps_bind; [| |exact H1].
    + apply keeps_sends, login_clean, (inv_user _ H1).
    + apply keeps_sends, (inv_joins _ H1).
  - destruct (regex_match ping_re req) as [what|] eqn:Em.
    + apply keeps_send; [|exact H]. apply clean_app. split; [auto with avbot|]. now apply (sub_match_clean ping_re req).
    + destruct (regex_match privmsg_re req) as [what|]; [|now apply keeps_ret].
      apply wp_bind, wp_modify. unfold modify_cl. apply wp_modify. destruct H. now split.
Qed.

Lemma keeps_reader r :
  forall s, irc_inv s ->
  match r with Some n => (2 <= n)%nat /\ clean (take (n - 2) (take n (response_ (cl s)))) | None => True end ->
  wp (reader asserts r) (fun _ s' => irc_inv s') s.
Proof.
  intros s H Hr. destruct r as [n|]; cbn [reader].
  - apply wp_bind. eapply wp_mono; [now apply inv_process|]. intros [] s' H'. now apply keeps_start.
  - revert s H Hr. intros s H _. revert s H. repeat keep.
Qed.

Lemma keeps_connect : keeps connect.
Proof.
  apply keeps_get. intros s H. destruct (retry_count_ (cl s) <? _); [now apply keeps_ret|].
  unfold async_connect_irc. apply wp_bind, wp_get. pose proof (inv_server _ H). destruct (regex_match _ _); [|congruence].
  now apply keeps_start.
Qed.

Lemma keeps_login : keeps (login asserts).
Proof.
  unfold login. apply keeps_bind; [apply keeps_modify_cl; intros s H; destruct H; now split|]. repeat (keep; [keep|]).
  apply keeps_get. intros s H. apply keeps_bind; [| |exact H].
  - destruct (pwd_ (cl s)) eqn:Ep; [keep|]. apply keeps_send. rewrite <- Ep. apply clean_app. pose proof (inv_pwd _ H). auto with avbot.
  - keep; [apply keeps_sends, login_clean, (inv_user _ H)|keep].
Qed.

Lemma keeps_join_channels i : keeps (join_channels asserts i).
Proof.
  apply keeps_get. intros s H. destruct (join_queue_ (cl s) !! i) as [c|] eqn:Ei; [|now apply keeps_messages].
  apply keeps_bind; [|keep|exact H]. apply keeps_send. exact (Forall_lookup_1 _ _ _ _ (inv_joins _ H) Ei).
Qed.

Lemma keeps_main_popped ec m : pending_ok (MainPopped ec m) -> keeps (main_popped asserts ec m).
Proof.
  intros Hm. destruct ec as [[]|]; cbn [main_popped]; [keep; keep|keep|]. keep; [now apply keeps_send|keep].
Qed.

Lemma keeps_main_timer p : keeps (main_timer asserts p).
Proof. destruct p; cbn [main_timer]; [apply keeps_connect|keep|apply keeps_join_channels..|keep|keep]. Qed.

Lemma keeps_unless m : keeps m -> keeps (unless_quitting m).
Proof. intros Hm. apply keeps_get. intros s H. destruct (quitting_ (cl s)); [now apply keeps_ret|now apply Hm]. Qed.

Lemma keeps_connected ok : keeps (connected asserts ok).
Proof.
  destruct ok; cbn [connected]; [apply keeps_login|]. keep; [|keep].
  apply keeps_modify_cl. intros s H. destruct H. now split.
Qed.

Lemma keeps_sender_popped ec v : pending_ok (SenderPopped ec v) -> keeps (sender_popped ec v).
Proof.
  intros Hv. apply keeps_get. intros s H. destruct ec as [[]|]; [now apply keeps_ret| |];
    (destruct (negb _); [now apply keeps_start|now apply keeps_ret]).
Qed.

Lemma keeps_chat w m : clean w -> keeps (chat asserts w m).
Proof.
  intros Hw. unfold chat. pose proof (split_lines_clean m) as Hl. induction Hl as [|l ls Hl _ IH]; cbn [push_lines]; [keep|].
  keep; [|exact IH]. destruct (0 <? length l)%nat; [|keep]. apply keeps_messages. cbn [op_ok].
  repeat (apply clean_app; split); auto with avbot.
Qed.

Lemma keeps_join ch p : clean ch -> clean p -> keeps (join ch p).
Proof.
  intros Hc Hp. apply keeps_modify_cl. intros s H. destruct H. split; try assumption.
  apply (Forall_app_2 _ (join_queue_ (cl s))); [assumption|]. constructor; [|constructor]. destruct p; repeat (apply clean_app; split); auto with avbot.
Qed.

Lemma keeps_stop : keeps stop.
Proof. apply keeps_bind; [apply keeps_modify_cl; intros s H; destruct H; now split|keep]. Qed.

Lemma crlf_end_two s n : crlf_end s = Some n -> (2 <= n)%nat.
Proof.
  revert n. induction s as [|c s IH]; intros n; cbn [crlf_end]; [discriminate|].
  destruct (is_prefix crlf (c :: s)); [intros [= <-]; lia|]. destruct (crlf_end s) as [m|]; [|discriminate].
  intros [= <-]. specialize (IH m eq_refl). lia.
Qed.

(** What the program and the server may do: names without line breaks, lines of
    the server without stray ones. *)
Definition allowed (e : irc_event) (s : irc C1 C2) : Prop :=
  match e with
  | Chat w _ => clean w
  | Join ch pwd => clean ch /\ clean pwd
  | Done _ (Received data) =>
      match crlf_end (response_ (cl s) ++ data) with
      | Some n => clean (take (n - 2) (response_ (cl s) ++ data))
      | None => True
      end
  | _ => True
  end.

Lemma inv_resume p o s :
  irc_inv s -> pending_ok p ->
  match o with
  | Received data =>
      match crlf_end (response_ (cl s) ++ data) with
      | Some n => clean (take (n - 2) (response_ (cl s) ++ data))
      | None => True
      end
  | _ => True
  end ->
  match p, o with Writing _, Received _ => False | Writing _, Success => socket_open s = true | _, _ => True end ->
  wp (resume asserts p o) (fun _ s' => irc_inv s') s.
Proof.
  intros H Hp Ho Hw.
  destruct p as [|sv pt|q|ec m|ec v|v| |]; cbn [resume]; try (destruct o as [|k|data]; cbn [resume]);
    try (apply keeps_unless; [|exact H]; solve [apply keeps_connect|apply keeps_connected|apply keeps_main_timer|now apply keeps_main_popped]);
    try (now apply keeps_sender_popped); try (now apply keeps_commands); try contradiction.
  - apply wp_bind, wp_modify, keeps_unless; [apply keeps_connected|]. destruct H. split; try assumption.
    intros _. now exists [].
  - apply wp_bind, wp_modify, (keeps_start SenderTimer I). pose proof (inv_sent _ H Hw) as (ls & El & Hl).
    destruct H. split; try assumption. intros _. exists (ls ++ [v]). cbn. rewrite El, concat_app. cbn. rewrite app_nil_r.
    split; [reflexivity|]. apply Forall_app_2; [exact Hl|now repeat constructor].
  - apply wp_bind, wp_modify. unfold sender_written, close_socket. apply wp_modify. destruct H. split; try assumption. discriminate.
  - now apply (keeps_reader None).
  - now apply (keeps_reader None).
  - apply wp_bind. unfold modify_cl. apply wp_modify, wp_bind, wp_get. apply keeps_reader.
    + destruct H. now split.
    + change (response_ (cl (set_cl _ _))) with (response_ (cl s) ++ data).
      destruct (crlf_end _) as [n|] eqn:En; [|exact I]. split; [now apply crlf_end_two in En|].
      rewrite take_take, Nat.min_l by lia. exact Ho.
Qed.

(** Every event that can happen is handled, and keeps the invariant. *)
Lemma inv_handle e s :
  irc_inv s -> possible e s = true -> allowed e s -> wp (handle asserts e) (fun _ s' => irc_inv s') s.
Proof.
  intros H Hp Ha. destruct e as [i o|w m|ch pw|]; cbn [handle].
  2:{ now apply keeps_chat. }
  2:{ apply keeps_join; [apply Ha|apply Ha|exact H]. }
  2:{ now apply keeps_stop. }
  apply wp_bind, wp_get. cbn [possible] in Hp. destruct (todo s !! i) as [p|] eqn:Ei; [|discriminate].
  apply wp_bind, wp_modify. apply inv_resume.
  - destruct H. split; try assumption. cbn. now apply Forall_delete.
  - exact (Forall_lookup_1 _ _ _ _ (inv_todo _ H) Ei).
  - exact Ha.
  - destruct p, o; try exact I; try discriminate; exact Hp.
Qed.

Lemma inv_steps s s' : irc_inv s -> irc_steps asserts allowed s s' -> irc_inv s'.
Proof.
  intros H HS. induction HS as [|s1 e s2 HS IH Hp Ha Eh]; [exact H|]. specialize (inv_handle e s1 IH Hp Ha).
  unfold wp. now rewrite Eh.
Qed.

Lemma inv_init user pwd server n :
  clean user -> clean pwd -> regex_match server_re server <> None -> irc_inv (irc_init user pwd server n).
Proof.
  intros Hu Hw Hs. assert (forall C (L : ContainerLaws C), queue_wf (new_queue (V := cstring) (H := unit) (W := unit))) as Hq
    by (intros C L _; apply new_list_contents).
  split; cbn; try assumption; try discriminate; try constructor; try apply Hq; try exact I; try rewrite new_list_contents; constructor.
Qed.
End Invariant.

(** ** What a line of the server does *)

Section Lines.
Context {E : RegexEngine} {EL : RegexLaws E}.

(** The text that [chat] sends for a line. *)
Definition privmsg (whom line : cstring) : cstring := $"PRIVMSG " ++ whom ++ $" :" ++ line.

Lemma privmsg_match nick loc target text :
  Forall (fun c => not_char "!" c = true) nick -> nick <> [] ->
  Forall (fun c => not_char " " c = true) loc -> loc <> [] ->
  Forall (fun c => not_char " " c = true) target -> target <> [] ->
  regex_match privmsg_re ($":" ++ nick ++ $"!" ++ loc ++ $" " ++ privmsg target text)
  = Some [Some nick; Some loc; Some target; Some text].
Proof.
  intros Hn Hn' Hl Hl' Ht Ht'. rewrite regex_match_perl. unfold perl_match, privmsg_re. rewrite match_at_lit.
  rewrite match_at_seq. apply match_group_plus; [exact Hn|exact Hn'|reflexivity|]. rewrite match_at_lit.
  rewrite match_at_seq. apply match_group_plus; [exact Hl|exact Hl'|reflexivity|].
  change ($" " ++ privmsg target text) with ($" PRIVMSG " ++ target ++ $" :" ++ text). rewrite match_at_lit.
  rewrite match_at_seq. apply match_group_plus; [exact Ht|exact Ht'|reflexivity|]. rewrite match_at_lit.
  rewrite match_at_seq. cbn [match_at]. rewrite <- (app_nil_r text) at 1. apply star_at_greedy; [apply any_all|exact I|reflexivity].
Qed.

Lemma ping_match a rest :
  Forall (fun c => not_char " " c = true) a -> a <> [] -> match rest with [] => True | c :: _ => c = " "%char end ->
  regex_match ping_re ($"PING " ++ a ++ rest) = Some [Some a].
Proof.
  intros Ha Ha' Hr. rewrite regex_match_perl. unfold perl_match, ping_re. rewrite match_at_lit.
  rewrite match_at_seq. apply match_group_plus; [exact Ha|exact Ha'|destruct rest; [exact I|now subst]|].
  rewrite <- (app_nil_r rest) at 1. apply star_at_greedy; [apply any_all|exact I|reflexivity].
Qed.

Lemma not_ping s : regex_match ping_re (":"%char :: s) = None.
Proof. rewrite regex_match_perl. reflexivity. Qed.
End Lines.

Section Requests.
Context {C1 C2 : Container cstring} {L1 : ContainerLaws C1} {L2 : ContainerLaws C2} {E : RegexEngine} {EL : RegexLaws E}.
Variable asserts : bool.

(** The line in the buffer. *)
Lemma request_line (s : irc C1 C2) line more :
  response_ (cl s) = line ++ crlf ++ more ->
  take (length line + 2 - 2) (take (length line + 2) (response_ (cl s))) = line
  /\ drop (length line + 2) (response_ (cl s)) = more.
Proof.
  intros ->. rewrite take_take, Nat.min_l by lia. replace (length line + 2 - 2)%nat with (length line) by lia.
  split; [apply take_app_length|]. rewrite app_assoc. apply drop_app_length'. rewrite length_app. reflexivity.
Qed.

(** What [process_request] does with a line. *)
Lemma process_line (s : irc C1 C2) line more :
  response_ (cl s) = line ++ crlf ++ more ->
  process_request asserts (length line + 2) s
  = match find_str nick_in_use line with
    | Some _ =>
        modify_cl (fun c => set_user (user_ c ++ $"_") c) ;;
        s ← st_get;
        send_commands asserts (login_commands (user_ (cl s))) ;;
        send_commands asserts (join_queue_ (cl s))
    | None =>
        match regex_match ping_re line with
        | Some what => send_command asserts ($"PONG " ++ sub_match what 0)
        | None =>
            match regex_match privmsg_re line with
            | Some what =>
                st_modify (call_back (IrcMsg (sub_match what 0) (sub_match what 2) (sub_match what 1) (sub_match what 3))) ;;
                modify_cl (set_retry 0)
            | None => mret ()
            end
        end
    end (set_cl (set_irc_response more (cl s)) s).
Proof.
  intros Hr. destruct (request_line s line more Hr) as [E1 E2]. unfold process_request.
  rewrite (bind_ok _ _ s s s) by reflexivity. cbv zeta. rewrite E1, E2.
  rewrite (bind_ok _ _ s () (set_cl (set_irc_response more (cl s)) s)) by reflexivity.
  now rewrite (proj2 (Nat.ltb_ge (length line + 2) 2)) by lia.
Qed.
End Requests.

(** ** Runs *)

Section Runs.
Context {C1 C2 : Container cstring} {E : RegexEngine}.
Variable asserts : bool.

(** A run of events that can happen. *)
Fixpoint run_possible (es : list irc_event) (s : irc C1 C2) : option (irc C1 C2) :=
  match es with
  | [] => Some s
  | e :: es' =>
      if possible e s then match handle asserts e s with Ok (_, s') => run_possible es' s' | Err _ => None end
      else None
  end.

Lemma irc_steps_trans ok (s1 s2 s3 : irc C1 C2) :
  irc_steps asserts ok s1 s2 -> irc_steps asserts ok s2 s3 -> irc_steps asserts ok s1 s3.
Proof. intros H1. induction 1 as [|s3 e s4 _ IH Hp Ha Eh]; [exact H1|]. now apply steps_more with s3 e. Qed.

Lemma run_possible_steps (ok : irc_event -> irc C1 C2 -> Prop) es : forall s s',
  run_possible es s = Some s' -> Forall (fun e => forall s, ok e s) es -> irc_steps asserts ok s s'.
Proof.
  induction es as [|e es IH]; intros s s' Hr Hok; cbn [run_possible] in Hr; [injection Hr as <-; constructor|].
  inversion_clear Hok as [|? ? He Hes]. destruct (possible e s) eqn:Ep; [|discriminate].
  destruct (handle asserts e s) as [[[] s1]|] eqn:Eh; [|discriminate].
  apply irc_steps_trans with s1; [|now apply IH]. apply steps_more with s e; [constructor|exact Ep|apply He|exact Eh].
Qed.
End Runs.

(** ** Properties *)

(** A private message arrives as it was sent.  When the server relays a
    line of [chat] with its prefix, the client takes it from the buffer and
    calls back once, with sender, place and target of the prefix and exactly
    the text of the line; nothing else of its state changes but the count of
    failed connections, which starts again. *)
Theorem privmsg_received {C1 C2 : Container cstring} {E : RegexEngine} {EL : RegexLaws E} (asserts : bool)
    (nick loc target text more : cstring) (s : irc C1 C2) :
  Forall (fun c => not_char "!" c = true) nick -> nick <> [] ->
  Forall (fun c => not_char " " c = true) loc -> loc <> [] ->
  Forall (fun c => not_char " " c = true) target -> target <> [] ->
  let line := $":" ++ nick ++ $"!" ++ loc ++ $" " ++ privmsg target text in
  find_str nick_in_use line = None -> response_ (cl s) = line ++ crlf ++ more ->
  process_request asserts (length line + 2) s
  = Ok ((), call_back (IrcMsg nick target loc text) (set_cl (set_retry 0 (set_irc_response more (cl s))) s)).
Proof.
  intros Hn Hn' Hl Hl' Ht Ht' line Hf Hr. rewrite (process_line asserts s line more Hr), Hf.
  unfold line. cbn [list_ascii_of_string app]. rewrite not_ping.
  change (":"%char :: nick ++ "!"%char :: loc ++ " "%char :: privmsg target text)
    with ($":" ++ nick ++ $"!" ++ loc ++ $" " ++ privmsg target text).
  rewrite privmsg_match by assumption. reflexivity.
Qed.

(** A PING is answered with the text behind it. *)
Theorem ping_answered {C1 C2 : Container cstring} {E : RegexEngine} {EL : RegexLaws E} (asserts : bool)
    (a rest more : cstring) (s : irc C1 C2) :
  Forall (fun c => not_char " " c = true) a -> a <> [] -> match rest with [] => True | c :: _ => c = " "%char end ->
  let line := $"PING " ++ a ++ rest in
  find_str nick_in_use line = None -> response_ (cl s) = line ++ crlf ++ more ->
  process_request asserts (length line + 2) s
  = send_command asserts ($"PONG " ++ a) (set_cl (set_irc_response more (cl s)) s).
Proof.
  intros Ha Ha' Hrest line Hf Hr. rewrite (process_line asserts s line more Hr), Hf. unfold line.
  now rewrite ping_match by assumption.
Qed.

(** Commands do not change the name, the channels or the messages. *)
Definition same_names {C1 C2 : Container cstring} (s s' : irc C1 C2) : Prop :=
  user_ (cl s') = user_ (cl s) /\ join_queue_ (cl s') = join_queue_ (cl s) /\ cb_calls s' = cb_calls s.

Lemma send_commands_names {C1 C2 : Container cstring} {L1 : ContainerLaws C1} asserts l : forall s : irc C1 C2,
  queue_wf (irc_command_send_queue_ (cl s)) ->
  exists s', send_commands asserts l s = Ok ((), s') /\ same_names s s' /\ queue_wf (irc_command_send_queue_ (cl s')).
Proof.
  induction l as [|c l IH]; intros s Hwf; cbn [send_commands]; [exists s; now repeat split|].
  assert (exists s1, send_command asserts c s = Ok ((), s1) /\ same_names s s1 /\ queue_wf (irc_command_send_queue_ (cl s1)))
    as (s1 & E1 & N1 & W1).
  { unfold send_command, on_commands. run.
    destruct (queue_step_effect [] asserts (OpPush (c ++ crlf)) _ Hwf) as (calls & q & -> & [F _ _ _]).
    eexists. split; [reflexivity|]. now repeat split. }
  destruct (IH s1 W1) as (s2 & E2 & N2 & W2). exists s2. rewrite (bind_ok _ _ _ _ _ E1). split; [exact E2|].
  split; [|exact W2]. destruct N1 as (? & ? & ?), N2 as (? & ? & ?). repeat split; congruence.
Qed.

Lemma find_str_app pat a b s : find_str pat (a ++ pat ++ b ++ s) <> None.
Proof.
  assert (forall t, is_prefix pat t = true -> find_str pat t <> None) as Hp
    by (intros [|c t] H; cbn [find_str]; rewrite H; discriminate).
  induction a as [|c a IH]; cbn [app]; [apply Hp, is_prefix_spec; now exists (b ++ s)|].
  cbn [find_str]. destruct (is_prefix _ _); [discriminate|]. destruct (find_str pat _); [discriminate|congruence].
Qed.

(** The name of the client can be changed by anybody.  The notice that a
    nickname is in use is looked for in the whole line: a private message that
    contains these words makes the client append a mark to its name and log in
    again under it, and the message is not delivered. *)
Theorem nick_spoofed {C1 C2 : Container cstring} {L1 : ContainerLaws C1} {E : RegexEngine} (asserts : bool)
    (nick loc target before after more : cstring) (s : irc C1 C2) :
  queue_wf (irc_command_send_queue_ (cl s)) ->
  let line := $":" ++ nick ++ $"!" ++ loc ++ $" " ++ privmsg target (before ++ nick_in_use ++ after) in
  response_ (cl s) = line ++ crlf ++ more ->
  exists s', process_request asserts (length line + 2) s = Ok ((), s')
    /\ user_ (cl s') = user_ (cl s) ++ $"_" /\ cb_calls s' = cb_calls s.
Proof.
  intros Hwf line Hr. rewrite (process_line asserts s line more Hr).
  assert (find_str nick_in_use line <> None) as Hf.
  { unfold line, privmsg. pose proof (find_str_app nick_in_use
      ($":" ++ nick ++ $"!" ++ loc ++ $" " ++ $"PRIVMSG " ++ target ++ $" :" ++ before) after []) as H.
    rewrite app_nil_r, <- !app_assoc in H. exact H. }
  destruct (find_str nick_in_use line); [|congruence]. set (s1 := set_cl _ s).
  rewrite (bind_ok _ _ s1 () (set_cl (set_user (user_ (cl s1) ++ $"_") (cl s1)) s1)) by reflexivity.
  set (s2 := set_cl _ s1). rewrite (bind_ok _ _ s2 s2 s2) by reflexivity.
  destruct (send_commands_names asserts (login_commands (user_ (cl s2))) s2 Hwf) as (s3 & E3 & (N1 & _ & N2) & W3).
  rewrite (bind_ok _ _ _ _ _ E3).
  destruct (send_commands_names asserts (join_queue_ (cl s2)) s3 W3) as (s4 & E4 & (N3 & _ & N4) & _).
  exists s4. split; [exact E4|]. split; [now rewrite N3, N1|now rewrite N4, N2].
Qed.

(** What the client sends.  With names and a password without line
    breaks, and a server that ends its lines properly, after any sequence of
    events (connections, losses, timers, messages with any text): what was sent
    on an open connection is a sequence of commands, each one line; no message
    can smuggle in a command.  And every event that can happen is handled: no
    assertion of the queues fails. *)
Theorem irc_sends_lines {C1 C2 : Container cstring} {L1 : ContainerLaws C1} {L2 : ContainerLaws C2}
    {E : RegexEngine} {EL : RegexLaws E} (asserts : bool) (user pwd server : cstring) (n : Z) (s : irc C1 C2) :
  clean user -> clean pwd -> regex_match server_re server <> None ->
  irc_steps asserts allowed (irc_init user pwd server n) s ->
  (socket_open s = true -> exists ls, socket_sent s = concat ls /\ Forall command ls)
  /\ forall e, possible e s = true -> allowed e s -> exists s', handle asserts e s = Ok ((), s').
Proof.
  intros Hu Hw Hs HS. pose proof (inv_steps asserts _ _ (inv_init user pwd server n Hu Hw Hs) HS) as H.
  split; [exact (inv_sent _ H)|]. intros e Hp Ha.
  pose proof (inv_handle asserts e s H Hp Ha) as Hw'. apply wp_run in Hw' as ([] & s' & Eh & _). now exists s'.
Qed.

(** The client as the program makes it: buffers of 200 commands and 50
    messages. *)
Abbreviation commands_buffer := (circular_buffer cstring 200).
Abbreviation messages_buffer := (circular_buffer cstring 50).

Definition example_irc : irc commands_buffer messages_buffer := irc_init ($"bot") ($"pw") ($"irc.freenode.net") 1000.

(** The run of the witness: a login, and a message with a line break in it. *)
Definition example_events : list irc_event :=
  [Done 0 Success; Done 0 Success; Chat ($"#c") ($"hi" ++ crlf ++ $"QUIT"); Done 1 Success; Done 2 Success].

Lemma irc_sends_lines_witness :
  let s := default example_irc (run_possible true example_events example_irc) in
  socket_sent s = $"PASS pw" ++ crlf
  /\ (socket_open s = true -> exists ls, socket_sent s = concat ls /\ Forall command ls)
  /\ forall e, possible e s = true -> allowed e s -> exists s', handle true e s = Ok ((), s').
Proof.
  split; [vm_compute; reflexivity|].
  apply (irc_sends_lines (L1 := circular_buffer_laws cstring 200) (L2 := circular_buffer_laws cstring 50) true
           ($"bot") ($"pw") ($"irc.freenode.net") 1000).
  - apply clean_text. reflexivity.
  - apply clean_text. reflexivity.
  - vm_compute. discriminate.
  - apply (run_possible_steps true allowed example_events example_irc).
    + vm_compute. reflexivity.
    + repeat constructor; apply clean_text; reflexivity.
Defined.

Lemma privmsg_received_witness :
  let line := $":nick!user@host PRIVMSG #c :hello there" in
  let s := set_cl (set_irc_response (line ++ crlf) (cl example_irc)) example_irc in
  process_request true (length line + 2) s
  = Ok ((), call_back (IrcMsg ($"nick") ($"#c") ($"user@host") ($"hello there"))
              (set_cl (set_retry 0 (set_irc_response [] (cl s))) s)).
Proof.
  apply (privmsg_received true ($"nick") ($"user@host") ($"#c") ($"hello there") []);
    solve [discriminate | reflexivity | repeat constructor].
Defined.

Lemma nick_spoofed_witness :
  let line := $":x!y PRIVMSG #c :Nickname is already in use. (joke)" in
  let s := set_cl (set_irc_response (line ++ crlf) (cl example_irc)) example_irc in
  exists s', process_request true (length line + 2) s = Ok ((), s')
    /\ user_ (cl s') = $"bot_" /\ cb_calls s' = [].
Proof.
  apply (nick_spoofed (L1 := circular_buffer_laws cstring 200) true ($"x") ($"y") ($"#c") [] ($" (joke)") []
           (set_cl (set_irc_response (($":x!y PRIVMSG #c :Nickname is already in use. (joke)") ++ crlf) (cl example_irc)) example_irc)).
  - intros _. reflexivity.
  - reflexivity.
Defined.

Lemma ping_answered_witness :
  let s := set_cl (set_irc_response ($"PING :5211858A" ++ crlf) (cl example_irc)) example_irc in
  process_request true 16 s = send_command true ($"PONG :5211858A") (set_cl (set_irc_response [] (cl s)) s).
Proof.
  apply (ping_answered true ($":5211858A") [] []); solve [discriminate | reflexivity | exact I | repeat constructor].
Defined.

(** ** Losing the connection *)

(** Nothing under way leads to a new connection. *)
Definition no_way_back (p : pending) : Prop :=
  match p with
  | Start | Connecting _ _ | Reading | MainTimer Retry | MainTimer Restart | MainPopped (Some _) _ => False
  | _ => True
  end.

Definition lost {C1 C2 : Container cstring} (s : irc C1 C2) : Prop :=
  socket_open s = false /\ Forall no_way_back (todo s).

Section Lost.
Context {C1 C2 : Container cstring} {E : RegexEngine}.
Variable asserts : bool.
Abbreviation A := (st (irc C1 C2) irc_fault).

(** If it returns, the connection is still lost. *)
Definition loses (m : A ()) : Prop := forall s s', lost s -> m s = Ok ((), s') -> lost s'.

Lemma loses_ret : loses (mret ()).
Proof. now intros s s' H [= <-]. Qed.

Lemma loses_bind (m : A ()) (k : () -> A ()) : loses m -> loses (k ()) -> loses (m ≫= k).
Proof.
  intros Hm Hk s s' H. unfold mbind, st_bind. destruct (m s) as [[[] s1]|] eqn:E1; [|discriminate].
  apply Hk. now apply (Hm s).
Qed.

Lemma loses_get (k : irc C1 C2 -> A ()) : (forall s, loses (k s)) -> loses (st_get ≫= k).
Proof. intros Hk s s' H. apply Hk. exact H. Qed.

Lemma loses_modify f : (forall s, lost s -> lost (f s)) -> loses (st_modify f).
Proof. intros Hf s s' H [= <-]. auto. Qed.

Lemma loses_start p : no_way_back p -> loses (start p).
Proof. intros Hp. apply loses_modify. intros s [H1 H2]. split; [exact H1|]. apply Forall_app_2; [exact H2|now repeat constructor]. Qed.

Lemma loses_commands o : loses (on_commands asserts o).
Proof.
  apply loses_get. intros s0. destruct (queue_step _ _ _ _) as [[calls q]|]; [|intros s s' _ [=]].
  apply loses_bind; apply loses_modify; intros s [H1 H2]; (split; [exact H1|]); [exact H2|].
  apply Forall_app_2; [exact H2|]. induction calls as [|[]]; cbn; repeat constructor; assumption.
Qed.

Lemma loses_messages o : match o with OpPop _ | OpPush _ => True | _ => False end -> loses (on_messages asserts o).
Proof.
  intros Ho. apply loses_get. intros s0. destruct (queue_step _ _ _ _) as [[calls q]|] eqn:Eq; [|intros s s' _ [=]].
  assert (Forall (fun c => match c with PopCall _ (Some _) _ => False | _ => True end) calls) as Hc.
  { destruct o as [h|i|w|v| |]; try contradiction; cbn [queue_step] in Eq; revert Eq.
    - unfold async_pop. run. destruct (is_empty _); [intros [= <- _]; constructor|].
      destruct (front _); [|discriminate]. intros [= <- _]. repeat constructor.
    - unfold push, push_waiters, queue_assert. run. destruct (m_wait_handlers _) as [|w ws].
      + destruct (push_handlers _ _ _ _) as [[c1 q1]|] eqn:E1; [|discriminate]. intros [= <- _].
        destruct (push_handlers_calls _ _ _ _ _ _ E1) as [->|(h & ->)]; repeat constructor.
      + destruct (asserts && _); [discriminate|]. destruct (push_handlers _ _ _ _) as [[c1 q1]|] eqn:E1; [|discriminate].
        intros [= <- _]. constructor; [exact I|]. apply Forall_app_2.
        * clear. induction ws; cbn [map]; constructor; [exact I|assumption].
        * destruct (push_handlers_calls _ _ _ _ _ _ E1) as [->|(h & ->)]; repeat constructor. }
  apply loses_bind; apply loses_modify; intros s [H1 H2]; (split; [exact H1|]); [exact H2|].
  apply Forall_app_2; [exact H2|]. clear -Hc. induction Hc as [|[h [e|] v|w ec] calls Hx _ IH]; cbn [flat_map main_call app].
  - apply List.Forall_nil.
  - contradiction.
  - apply List.Forall_cons; [exact I|exact IH].
  - exact IH.
Qed.

Lemma loses_close : loses close_socket.
Proof. apply loses_modify. intros s [_ H]. now split. Qed.

Ltac lose := first
  [ apply loses_ret | apply loses_start; exact I | apply loses_close | apply loses_commands | apply loses_messages; exact I
  | apply loses_bind | apply loses_get; intros ? ].

Lemma loses_join_channels i : loses (join_channels asserts i).
Proof. lose. destruct (_ !! i); repeat lose. Qed.

Lemma loses_unless m : loses m -> loses (unless_quitting m).
Proof. intros Hm. lose. destruct (quitting_ _); [lose|exact Hm]. Qed.

(** No event brings the connection back. *)
Lemma lost_resume p o : no_way_back p -> loses (resume asserts p o).
Proof.
  intros Hp. destruct p as [|sv pt|q|ec m|ec v|v| |]; try contradiction; cbn [resume].
  - apply loses_unless. destruct q; try contradiction; cbn [main_timer]; try apply loses_join_channels; repeat lose.
  - apply loses_unless. destruct ec; [contradiction|]. cbn [main_popped]. repeat lose.
  - lose. destruct ec as [[]|]; [lose| |]; destruct (negb _); lose.
  - destruct o; cbn [resume]; (lose; [apply loses_modify; intros s [H1 H2]; now split|]); cbn [sender_written]; lose.
  - lose.
Qed.

Lemma lost_handle e (s s' : irc C1 C2) : lost s -> handle asserts e s = Ok ((), s') -> lost s'.
Proof.
  intros H. destruct e as [i o|w m|ch pw|]; cbn [handle].
  - run. destruct (todo s !! i) as [p|] eqn:Ei; [|intros [= <-]; exact H].
    apply (lost_resume p o (Forall_lookup_1 _ _ _ _ (proj2 H) Ei)). destruct H as [H1 H2]. split; [exact H1|]. now apply Forall_delete.
  - assert (loses (chat asserts w m)) as HL; [|now apply HL]. unfold chat. generalize (split_lines m). intros ls.
    induction ls as [|l ls IH]; cbn [push_lines]; [lose|]. lose; [|exact IH]. destruct (0 <? _)%nat; lose.
  - assert (loses (join ch pw)) as HL; [|now apply HL]. apply loses_modify. intros s0 [H1 H2]. now split.
  - assert (loses stop) as HL; [|now apply HL]. lose; [|lose]. apply loses_modify. intros s0 [H1 H2]. now split.
Qed.

Lemma lost_steps ok (s s' : irc C1 C2) : lost s -> irc_steps asserts ok s s' -> lost s'.
Proof. intros H. induction 1 as [|s1 e s2 _ IH _ _ Eh]; [exact H|]. now apply (lost_handle e s1). Qed.

(** The reader finds the connection closed while the main loop waits for a
    timer: nobody is in the queue that it cancels. *)
Lemma reader_loses (s : irc C1 C2) :
  m_handlers (messages_send_queue_ (cl s)) = [] -> Forall no_way_back (todo s) ->
  exists s', reader asserts None s = Ok ((), s') /\ lost s'.
Proof.
  intros Hq Ht. unfold reader, close_socket, on_messages. run. cbn [queue_step]. unfold cancele. run.
  change (messages_send_queue_ _) with (messages_send_queue_ (cl s)). rewrite Hq.
  eexists. split; [reflexivity|]. split; [reflexivity|]. apply Forall_app_2; [exact Ht|apply List.Forall_nil].
Qed.
End Lost.

(** ** Giving up *)

Section Retries.
Context {C1 C2 : Container cstring} {E : RegexEngine}.
Variable asserts : bool.

Lemma irc_run_app (es1 es2 : list irc_event) (s s1 : irc C1 C2) :
  irc_run asserts es1 s = Ok ((), s1) -> irc_run asserts (es1 ++ es2) s = irc_run asserts es2 s1.
Proof.
  revert s. induction es1 as [|e es IH]; intros s; [now intros [= <-]|]. cbn [irc_run app]. run.
  destruct (handle asserts e s) as [[[] s2]|]; [apply IH|discriminate].
Qed.

(** A connection that fails, and the 15 seconds behind it. *)
Definition failed_round : list irc_event := [Done 0 (Failure 0); Done 0 Success].

(** The client that waits for its connection behind [m] failures. *)
Definition retrying (s : irc C1 C2) (m : nat) (l : list pending) : irc C1 C2 :=
  set_todo l (set_cl (set_retry (Z.of_nat m) (cl s)) s).

(** The operation that [async_connect_irc] starts. *)
Definition connection (server : cstring) : list pending :=
  match regex_match server_re server with
  | Some what => [Connecting (sub_match what 0) (match what !! 1%nat with Some (Some p) => drop 1 p | _ => $"6667" end)]
  | None => []
  end.

Lemma connection_some server : regex_match server_re server <> None -> exists h p, connection server = [Connecting h p].
Proof. intros Hr. unfold connection. destruct (regex_match _ _); [eauto|contradiction]. Qed.

Lemma connect_run (s : irc C1 C2) m :
  regex_match server_re (server_ (cl s)) <> None ->
  connect (retrying s m []) = Ok ((), retrying s m (if retry_count_ (cl s) <? Z.of_nat m then [] else connection (server_ (cl s)))).
Proof.
  intros Hr. unfold connect, async_connect_irc, connection. run. change (retry_count_ (cl (retrying s m []))) with (retry_count_ (cl s)).
  change (server_ (cl (retrying s m []))) with (server_ (cl s)). change (c_retry_cuont (cl (retrying s m []))) with (Z.of_nat m).
  destruct (_ <? _); [reflexivity|]. destruct (regex_match _ _); [reflexivity|contradiction].
Qed.

Lemma failed_run (s : irc C1 C2) m server port :
  quitting_ (cl s) = false -> Z.of_nat m + 1 < 2 ^ 32 ->
  handle asserts (Done 0 (Failure 0)) (retrying s m [Connecting server port]) = Ok ((), retrying s (S m) [MainTimer Retry]).
Proof.
  intros Hq Hm. assert (wrapu 32 (Z.of_nat m + 1) = Z.of_nat (S m)) as Hs; [unfold wrapu; rewrite Z.mod_small; lia|].
  destruct s as [[u w sv r j rc cr q cq mq] so ss cb t]. cbn in Hq. subst q.
  unfold retrying. cbv [handle resume unless_quitting connected modify_cl start]. run. cbn. now rewrite Hs.
Qed.

Lemma waited_run (s : irc C1 C2) m :
  quitting_ (cl s) = false -> regex_match server_re (server_ (cl s)) <> None ->
  handle asserts (Done 0 Success) (retrying s m [MainTimer Retry])
  = Ok ((), retrying s m (if retry_count_ (cl s) <? Z.of_nat m then [] else connection (server_ (cl s)))).
Proof.
  intros Hq Hr. rewrite <- (connect_run s m Hr). unfold handle. run. cbn [todo retrying set_todo lookup list_lookup resume main_timer delete list_delete].
  unfold unless_quitting. run. cbn. now rewrite Hq.
Qed.

Lemma failed_rounds_run (s : irc C1 C2) m :
  quitting_ (cl s) = false -> regex_match server_re (server_ (cl s)) <> None ->
  0 <= retry_count_ (cl s) < 2 ^ 32 - 1 -> Z.of_nat m <= retry_count_ (cl s) + 1 ->
  irc_run asserts (concat (repeat failed_round m)) (retrying s 0 (connection (server_ (cl s))))
  = Ok ((), retrying s m (if retry_count_ (cl s) <? Z.of_nat m then [] else connection (server_ (cl s)))).
Proof.
  intros Hq Hr Hn. induction m as [|m IH]; intros Hm.
  - destruct (Z.ltb_spec (retry_count_ (cl s)) (Z.of_nat 0)); [lia|reflexivity].
  - cbn [repeat]. rewrite repeat_cons, concat_app. erewrite irc_run_app by (apply IH; lia).
    destruct (Z.ltb_spec (retry_count_ (cl s)) (Z.of_nat m)); [lia|].
    destruct (connection_some _ Hr) as (h & p & Ec). rewrite Ec at 1. cbn [concat app failed_round irc_run].
    rewrite (bind_ok _ _ _ _ _ (failed_run s m _ _ Hq ltac:(lia))).
    rewrite (bind_ok _ _ _ _ _ (waited_run s (S m) Hq Hr)). reflexivity.
Qed.
End Retries.

(** The main loop gives up behind as many failed connections as it was
    told: after [m] failures the client still connects when [m] is at most
    [max_retry_count], and at the next failure nothing is under way any more. *)
Theorem irc_gives_up {C1 C2 : Container cstring} {E : RegexEngine} (asserts : bool) (user pwd server : cstring) (n : Z) (m : nat) :
  regex_match server_re server <> None -> 0 <= n < 2 ^ 32 - 1 -> Z.of_nat m <= n + 1 ->
  exists s : irc C1 C2,
    irc_run asserts (Done 0 Success :: concat (repeat failed_round m)) (irc_init user pwd server n) = Ok ((), s)
    /\ c_retry_cuont (cl s) = Z.of_nat m
    /\ (Z.of_nat m <= n -> exists h p, todo s = [Connecting h p])
    /\ (Z.of_nat m = n + 1 -> todo s = []).
Proof.
  intros Hr Hn Hm. set (s0 := irc_init user pwd server n).
  assert (handle asserts (Done 0 Success) s0 = Ok ((), retrying s0 0 (connection server))) as H0.
  { change (handle asserts (Done 0 Success) s0) with (connect (retrying s0 0 [])). rewrite (connect_run s0 0 Hr).
    change (retry_count_ (cl s0)) with n. destruct (Z.ltb_spec n (Z.of_nat 0)); [lia|reflexivity]. }
  exists (retrying s0 m (if n <? Z.of_nat m then [] else connection server)). split; [|split; [reflexivity|split]].
  - cbn [irc_run]. rewrite (bind_ok _ _ _ _ _ H0). apply (failed_rounds_run asserts s0); [reflexivity|exact Hr|exact Hn|exact Hm].
  - intros H. cbn [todo retrying set_todo]. destruct (Z.ltb_spec n (Z.of_nat m)); [lia|].
    now apply connection_some.
  - intros H. cbn [todo retrying set_todo]. destruct (Z.ltb_spec n (Z.of_nat m)); [reflexivity|lia].
Qed.

Lemma irc_gives_up_witness :
  exists s : irc commands_buffer messages_buffer,
    irc_run true (Done 0 Success :: concat (repeat failed_round 3)) (irc_init ($"bot") [] ($"irc.freenode.net:6668") 2) = Ok ((), s)
    /\ c_retry_cuont (cl s) = 3
    /\ (3 <= 2 -> exists h p, todo s = [Connecting h p])
    /\ (3 = 2 + 1 -> todo s = []).
Proof.
  apply (irc_gives_up true ($"bot") [] ($"irc.freenode.net:6668") 2 3); [vm_compute; discriminate|lia|lia].
Defined.

(** When the connection is lost while the main loop waits for a timer
    (during the login, between two JOINs, in the 488 ms behind a message), the
    reader cancels a queue in which nobody waits, and the client never connects
    again, whatever happens and whatever the program asks for. *)
Theorem irc_lost_connection {C1 C2 : Container cstring} {E : RegexEngine} (asserts : bool) (s : irc C1 C2) (i n : nat) :
  todo s !! i = Some Reading -> Forall no_way_back (delete i (todo s)) ->
  m_handlers (messages_send_queue_ (cl s)) = [] ->
  exists s1, handle asserts (Done i (Failure n)) s = Ok ((), s1)
    /\ forall s2, irc_steps asserts (fun _ _ => True) s1 s2 ->
         socket_open s2 = false /\ forall h p, ~ In (Connecting h p) (todo s2).
Proof.
  intros Hi Ht Hq. destruct (reader_loses asserts (set_todo (delete i (todo s)) s) Hq Ht) as (s1 & E1 & HL).
  exists s1. split; [unfold handle; run; now rewrite Hi|]. intros s2 HS. destruct (lost_steps asserts _ _ _ HL HS) as [H1 H2].
  split; [exact H1|]. intros h p Hin. exact (proj1 (List.Forall_forall _ _) H2 _ Hin).
Qed.

(** The witness: the server closes the connection 2 seconds after NICK and USER. *)
Lemma irc_lost_connection_witness :
  let s := default example_irc (run_possible true [Done 0 Success; Done 0 Success; Done 2 Success] example_irc) in
  Forall no_way_back (delete 0%nat (todo s)) /\ socket_open s = true
  /\ exists s1, handle true (Done 0 (Failure 0)) s = Ok ((), s1)
    /\ forall s2, irc_steps true (fun _ _ => True) s1 s2 ->
         socket_open s2 = false /\ forall h p, ~ In (Connecting h p) (todo s2).
Proof.
  split; [vm_compute; repeat constructor|]. split; [vm_compute; reflexivity|].
  apply (irc_lost_connection true (default example_irc (run_possible true [Done 0 Success; Done 0 Success; Done 2 Success] example_irc)) 0 0).
  - vm_compute. reflexivity.
  - vm_compute. repeat constructor.
  - vm_compute. reflexivity.
Defined.
