(* ===== verification/FileUpload.v ===== *)
(** Uploading a file in a form: avhttp/file_upload.hpp and
    avhttp/impl/file_upload.ipp, the synchronous functions and the coroutines
    [open_coro] and [tail_coro].

    Sizes and names of files are the class [Filesystem] ([boost::filesystem]);
    the random part of the boundary is a member of the state.  The form is the
    list of the items of its [std::map], in the order of iteration.  The stream
    is that of HttpOpen.v and HttpAsync.v. *)

From S2P Require Import Prelude CLib EscapeString Url Settings Cookie HttpParsers HttpBody HttpStream Transport Socks.
From S2P Require Import HttpOpen HttpAsync.

(** ** MIME types *)

Definition mappings : list (cstring * cstring) :=
  [($".flv", $"video/flv"); ($".rmvb", $"video/x-pn-realvideo"); ($".gif", $"image/gif"); ($".htm", $"text/html");
   ($".html", $"text/html"); ($".jpg", $"image/jpeg"); ($".png", $"image/png");
   ($".htm", $"text/html"); ($".html", $"text/html"); ($".txt", $"text/plain"); ($".xml", $"text/xml");
   ($".dtd", $"text/dtd"); ($".css", $"text/css");
   ($".gif", $"image/gif"); ($".jpe", $"image/jpeg"); ($".jpg", $"image/jpeg"); ($".jpeg", $"image/jpeg");
   ($".png", $"image/png");
   ($".flv", $"video/flv"); ($".rmvb", $"video/x-pn-realvideo"); ($".mp4", $"video/mp4"); ($".3gp", $"video/3gpp");
   ($".divx", $"video/divx"); ($".avi", $"video/avi"); ($".asf", $"video/x-ms-asf"); ($".m1a", $"audio/mpeg");
   ($".m2a", $"audio/mpeg"); ($".m1v", $"video/mpeg"); ($".m2v", $"video/mpeg"); ($".mp2", $"audio/mpeg");
   ($".mp3", $"audio/mpeg"); ($".mpa", $"audio/mpeg"); ($".mpg", $"video/mpeg"); ($".mpeg", $"video/mpeg");
   ($".mpe", $"video/mpeg"); ($".mov", $"video/quicktime"); ($".moov", $"video/quicktime"); ($".oga", $"audio/ogg");
   ($".ogg", $"application/ogg"); ($".ogm", $"application/ogg"); ($".ogv", $"video/ogg"); ($".ogx", $"application/ogg");
   ($".opus", $"audio/ogg; codecs=opus"); ($".spx", $"audio/ogg"); ($".wav", $"audio/wav"); ($".wma", $"audio/x-ms-wma");
   ($".wmv", $"video/x-ms-wmv"); ($".webm", $"video/webm")].

Fixpoint lookup_type (l : list (cstring * cstring)) (extension : cstring) : cstring :=
  match l with
  | [] => $"application/octet-stream"
  | (e, t) :: l' => if str_eqb e extension then t else lookup_type l' extension
  end.
Definition extension_to_type (extension : cstring) : cstring := lookup_type mappings extension.

(** ** The file system *)

Class Filesystem := {
  (** [fs::file_size(name, ec)]. *)
  file_size : cstring -> result error Z;
  (** [fs::path(name).leaf().string()]. *)
  leaf : cstring -> cstring;
  (** [fs::extension(name)]. *)
  extension : cstring -> cstring
}.

(** The extension of a path is that of its last element. *)
Class FilesystemLaws (F : Filesystem) := { extension_leaf : forall f, extension (leaf f) = extension f }.

(** ** State *)

Abbreviation form_args := (list (cstring * cstring)).

Record upload {P : Platform} {N : Network} {T : Transport N} : Type := Upload {
  m_http_stream : async_stream;
  m_boundary : cstring;
  m_base_boundary : cstring;
  m_form_args : form_args;
  u_fake_continue : bool
}.

Definition FORMBOUNDARY : cstring := $"----AvHttpFormBound".
Definition quote : cstring := ["034"%char].

(** [form_boundary()] for a random text. *)
Definition form_boundary (random_str : cstring) : cstring := FORMBOUNDARY ++ random_str.

Section Upload.
Context {P : Platform} {N : Network} {T : Transport N} {F : Filesystem}.
Variable base64_text : cstring -> cstring.

Abbreviation U := (st upload fault).

Definition set_http_stream (x : async_stream) (u : upload) : upload :=
  Upload _ _ _ x (m_boundary u) (m_base_boundary u) (m_form_args u) (u_fake_continue u).
Definition set_boundary (b : cstring) (u : upload) : upload :=
  Upload _ _ _ (m_http_stream u) b (m_base_boundary u) (m_form_args u) (u_fake_continue u).
Definition set_form_args (l : form_args) (u : upload) : upload :=
  Upload _ _ _ (m_http_stream u) (m_boundary u) (m_base_boundary u) l (u_fake_continue u).

(** [file_upload(io, fake_continue)]. *)
Definition new_upload (random_str : cstring) (x : async_stream) (fake : bool) : upload :=
  Upload _ _ _ x [] (form_boundary random_str) [] fake.

(** Functions on the stream. *)
Definition on_http {R} (m : st async_stream fault R) : U R := fun u =>
  match m (m_http_stream u) with Ok (r, x) => Ok (r, set_http_stream x u) | Err f => Err f end.
Definition on_http_stream {R} (m : st http_stream fault R) : U R := on_http (on_conn (on_stream m)).

(** ** The length of the body *)

Definition args_length (boundary_size : Z) (args : form_args) (content_length : Z) : Z :=
  fold_left (fun n (i : cstring * cstring) =>
    let n := wrapu 64 (n + boundary_size) in
    let n := wrapu 64 (n + size ($"Content-Disposition: form-data; name=" ++ quote ++ quote ++ crlf ++ crlf ++ crlf)) in
    let n := wrapu 64 (n + size (fst i)) in
    wrapu 64 (n + size (snd i))) args content_length.

Definition calc_content_length (filename file_of_form base_boundary : cstring) (args : form_args) : result error Z :=
  match file_size filename with
  | Err e => Err e
  | Ok n =>
      let short_filename := leaf filename in
      let boundary_size := wrapu 64 (size base_boundary + 4) in
      let extension_size := size (extension_to_type (to_lower (extension filename))) in
      let n := args_length boundary_size args n in
      let n := wrapu 64 (n + boundary_size) in
      let n := wrapu 64 (n + size ($"Content-Disposition: form-data; name=" ++ quote ++ quote ++ $"; filename=" ++ quote ++ quote
                                   ++ crlf ++ $"Content-Type: " ++ crlf ++ crlf)) in
      let n := wrapu 64 (n + extension_size) in
      let n := wrapu 64 (n + size file_of_form) in
      let n := wrapu 64 (n + size short_filename) in
      let n := wrapu 64 (n + 4) in
      Ok (wrapu 64 (n + boundary_size))
  end.

(** ** The parts *)

Definition arg_text (name value : cstring) : cstring :=
  $"Content-Disposition: form-data; name=" ++ quote ++ name ++ quote ++ crlf ++ crlf ++ value ++ crlf.

(** The head of the part of the file; the two functions take the extension of
    the short and of the whole name. *)
Definition file_text (file_of_form short_filename ext : cstring) : cstring :=
  $"Content-Disposition: form-data; name=" ++ quote ++ file_of_form ++ quote ++ $"; filename=" ++ quote ++ short_filename
  ++ quote ++ crlf ++ $"Content-Type: " ++ extension_to_type (to_lower ext) ++ crlf ++ crlf.

Definition tail_text (base_boundary : cstring) : cstring := crlf ++ $"--" ++ base_boundary ++ $"--" ++ crlf.

(** [boost::asio::async_write(m_http_stream, buffer, handler)], and
    [boost::asio::write], over [write_some], which reports a connection that was
    shut down as its end. *)
Definition async_stream_write (text : cstring) : U error_code := on_http_stream (on_sock (sock_write text)).

Definition end_code (ec : error_code) : error_code := match ec with Some shut_down => Some eof | _ => ec end.
Definition stream_write (text : cstring) : U error_code := ec ← async_stream_write text; mret (end_code ec).

Definition is_continue (ec : error_code) : bool :=
  match ec with
  | None => true
  | Some (http_status n) => n =? continue_request
  | Some fake_continue => true
  | _ => false
  end.

(** [request_options()] of the stream. *)
Definition request_options (s : http_stream) : opts :=
  if Settings.size (m_request_opts s) =? 0 then m_request_opts_priv s else m_request_opts s.

Definition set_request_options (o : opts) (s : http_stream) : http_stream :=
  HttpStream _ _ (m_request_opts s) o (m_response_opts s) (m_proxy s) (m_protocol s)
    (m_url s) (m_status_code s) (m_content_type s) (m_location s) (m_jar s) (m_body s).

Definition upload_stream (u : upload) : http_stream := m_stream (a_conn (m_http_stream u)).

(** ** [open] *)

Fixpoint send_args (args : form_args) : U error_code :=
  match args with
  | [] => mret None
  | (name, value) :: args' =>
      u ← st_get;
      ec ← stream_write (m_boundary u);
      match ec with
      | Some _ => mret ec
      | None =>
          ec ← stream_write (arg_text name value);
          match ec with Some _ => mret ec | None => send_args args' end
      end
  end.

Definition send_file (file_of_form short_filename ext : cstring) : U error_code :=
  u ← st_get;
  ec ← stream_write (m_boundary u);
  match ec with
  | Some _ => mret ec
  | None => stream_write (file_text file_of_form short_filename ext)
  end.

(** The options of the request. *)
Definition sync_options (fake : bool) (boundary : cstring) (content_length : Z) (o : opts) : opts :=
  let o := Settings.insert http_options.request_method ($"POST") o in
  let o := Settings.insert http_options.content_length (itoa content_length) o in
  let o := if negb fake then Settings.insert ($"Expect") ($"100-continue") o else o in
  let o := Settings.set_fake_continue fake o in
  Settings.insert http_options.content_type ($"multipart/form-data; boundary=" ++ boundary) o.

(** [open(url, filename, file_of_form, args, ec)]; a text that is no URL
    throws. *)
Definition upload_open (depth fuel : nat) (url filename file_of_form : cstring) (args : form_args) : U error_code :=
  u ← st_get;
  let o := request_options (upload_stream u) in
  st_modify (set_form_args args) ;;
  st_modify (set_boundary (m_base_boundary u)) ;;
  let short_filename := leaf filename in
  match calc_content_length filename file_of_form (m_base_boundary u) args with
  | Err e => mret (Some e)
  | Ok content_length =>
      let o := sync_options (u_fake_continue u) (m_base_boundary u) content_length o in
      st_modify (set_boundary ($"--" ++ m_base_boundary u ++ crlf)) ;;
      on_http_stream (st_modify (set_request_options o)) ;;
      match Url.from_string url with
      | Err _ => st_fail Thrown
      | Ok v =>
          ec ← on_http (on_conn (HttpOpen.open base64_text depth fuel v));
          if negb (is_continue ec) then mret ec
          else
            ec ← send_args args;
            match ec with
            | Some _ => mret ec
            | None => send_file file_of_form short_filename (extension short_filename)
            end
      end
  end.

(** [write_some] until everything is written, as the users of the class do. *)
Definition write_data (text : cstring) : U error_code := stream_write text.

(** [write_tail(ec)]: the error of the write is overwritten. *)
Definition write_tail (fuel : nat) : U error_code :=
  u ← st_get;
  st_modify (set_boundary (tail_text (m_base_boundary u))) ;;
  _ ← stream_write (tail_text (m_base_boundary u));
  on_http_stream (receive_header fuel).

(** ** [open_coro] *)

(** Where it is suspended; [args] is [m_iter]. *)
Inductive open_point : Type :=
| Opened
| ArgBoundary (args : form_args)
| ArgSent (args : form_args)
| FileBoundary
| FileSent.

(** What it does: start a write, or call the handler. *)
Inductive coro_action : Type := CoroWrite (text : cstring) (next : open_point) | CoroHandler (ec : error_code).

(** The head of its loop. *)
Definition next_arg (boundary : cstring) (args : form_args) : coro_action :=
  match args with
  | [] => CoroWrite boundary FileBoundary
  | _ => CoroWrite boundary (ArgBoundary args)
  end.

Definition open_coro (filename file_of_form : cstring) (p : open_point) (ec : error_code) : U coro_action :=
  u ← st_get;
  if negb (is_continue ec) then mret (CoroHandler ec)
  else mret
    (match p with
     | Opened => next_arg (m_boundary u) (m_form_args u)
     | ArgBoundary [] => CoroHandler ec
     | ArgBoundary ((name, value) :: args) => CoroWrite (arg_text name value) (ArgSent args)
     | ArgSent args => next_arg (m_boundary u) args
     | FileBoundary => CoroWrite (file_text file_of_form (leaf filename) (extension filename)) FileSent
     | FileSent => CoroHandler ec
     end).

(** Its options: the order differs from that of [open]. *)
Definition async_options (fake : bool) (boundary : cstring) (content_length : Z) (o : opts) : opts :=
  let o := Settings.insert http_options.request_method ($"POST") o in
  let o := if negb fake then Settings.insert ($"Expect") ($"100-continue") o else o in
  let o := Settings.set_fake_continue fake o in
  let o := Settings.insert http_options.content_length (itoa content_length) o in
  Settings.insert http_options.content_type ($"multipart/form-data; boundary=" ++ boundary) o.

(** The writes, one after the other: the error that the handler gets. *)
Fixpoint run_coro (fuel : nat) (filename file_of_form : cstring) (a : coro_action) : U error_code :=
  match a, fuel with
  | CoroHandler ec, _ => mret ec
  | CoroWrite _ _, O => st_fail Hang
  | CoroWrite text p, S f =>
      ec ← async_stream_write text;
      a' ← open_coro filename file_of_form p ec;
      run_coro f filename file_of_form a'
  end.

(** [async_open], run to the call of the handler. *)
Definition upload_async_open (fuel : nat) (url filename file_of_form : cstring) (args : form_args) : U error_code :=
  st_modify (set_form_args args) ;;
  u ← st_get;
  let o := request_options (upload_stream u) in
  match calc_content_length filename file_of_form (m_base_boundary u) args with
  | Err e => mret (Some e)
  | Ok content_length =>
      let o := async_options (u_fake_continue u) (m_base_boundary u) content_length o in
      st_modify (set_boundary ($"--" ++ m_base_boundary u ++ crlf)) ;;
      on_http_stream (st_modify (set_request_options o)) ;;
      match Url.from_string url with
      | Err _ => st_fail Thrown
      | Ok v =>
          a ← on_http (HttpAsync.async_open v);
          a ← on_http (HttpAsync.run base64_text fuel a);
          match a with
          | Handler ec =>
              a ← open_coro filename file_of_form Opened ec;
              run_coro fuel filename file_of_form a
          | _ => st_fail Hang
          end
      end
  end.

(** ** [tail_coro] *)

Definition async_write_tail (fuel : nat) : U error_code :=
  u ← st_get;
  st_modify (set_boundary (tail_text (m_base_boundary u))) ;;
  ec ← async_stream_write (tail_text (m_base_boundary u));
  match ec with
  | Some _ => mret ec
  | None =>
      a ← on_http_stream async_receive_header;
      a ← on_http (HttpAsync.run base64_text fuel a);
      match a with Handler ec => mret ec | _ => st_fail Hang end
  end.
End Upload.

(** ** Lemmas *)

Lemma wrapu_add_l a b : wrapu 64 (wrapu 64 a + b) = wrapu 64 (a + b).
Proof. unfold wrapu. apply Z.add_mod_idemp_l. lia. Qed.

Lemma wrapu_add_r a b : wrapu 64 (a + wrapu 64 b) = wrapu 64 (a + b).
Proof. unfold wrapu. apply Z.add_mod_idemp_r. lia. Qed.

(** Only the outermost wrap-around of a sum matters. *)
Ltac unwrap := rewrite ?wrapu_add_r; repeat (rewrite <- ?Z.add_assoc; rewrite wrapu_add_l); rewrite <- ?Z.add_assoc.

Section Facts.
Context {P : Platform} {N : Network} {T : Transport N} {F : Filesystem}.
Variable base64_text : cstring -> cstring.

(** The parts as they are sent. *)
Definition boundary_line (base : cstring) : cstring := $"--" ++ base ++ crlf.
Definition args_text (base : cstring) (args : form_args) : cstring :=
  concat (map (fun i : cstring * cstring => boundary_line base ++ arg_text (fst i) (snd i)) args).
Definition head_text (base filename file_of_form : cstring) (args : form_args) : cstring :=
  args_text base args ++ boundary_line base ++ file_text file_of_form (leaf filename) (extension filename).

(** The whole body. *)
Definition body_text (base filename file_of_form : cstring) (args : form_args) (data : cstring) : cstring :=
  head_text base filename file_of_form args ++ data ++ tail_text base.

Lemma size_app a b : size (a ++ b) = size a + size b.
Proof. unfold size. rewrite length_app. lia. Qed.

Lemma args_length_sum base args : forall n,
  wrapu 64 (args_length (wrapu 64 (size base + 4)) args n) = wrapu 64 (n + size (args_text base args)).
Proof.
  induction args as [|[name value] args IH]; intros n; cbn [args_length fold_left args_text map concat].
  - change (size []) with 0. now rewrite Z.add_0_r.
  - unfold args_length, args_text in IH. rewrite IH. clear IH. unwrap.
    cbn [fst snd]. unfold boundary_line, arg_text. rewrite !size_app. change (size crlf) with 2. change (size quote) with 1.
    change (size ($"--")) with 2. f_equal.
    lia.
Qed.

Lemma calc_content_length_body filename file_of_form base args data :
  file_size filename = Ok (size data) ->
  calc_content_length filename file_of_form base args
  = Ok (wrapu 64 (size (body_text base filename file_of_form args data))).
Proof.
  intros E. unfold calc_content_length. rewrite E. f_equal. unwrap. rewrite <- wrapu_add_l, args_length_sum, wrapu_add_l.
  unfold body_text, head_text, boundary_line, file_text, tail_text. rewrite !size_app.
  change (size crlf) with 2. change (size quote) with 1. change (size ($"--")) with 2. f_equal. lia.
Qed.

Lemma calc_content_length_exact filename file_of_form base args data :
  file_size filename = Ok (size data) -> size (body_text base filename file_of_form args data) < 2 ^ 64 ->
  calc_content_length filename file_of_form base args = Ok (size (body_text base filename file_of_form args data)).
Proof.
  intros E H. rewrite (calc_content_length_body _ _ _ _ _ E), wrapu_id; [reflexivity|]. split; [unfold size; lia|exact H].
Qed.

(** *** Sequences of writes *)

Abbreviation U := (st upload fault).

Definition upload_sock (u : upload) : sock := m_sock (m_body (upload_stream u)).
Definition set_upload_sock (k : sock) (u : upload) : upload :=
  let x := m_http_stream u in
  set_http_stream (AsyncStream _ _ _ (set_stream (set_stream_sock k (m_stream (a_conn x))) (a_conn x))
                     (a_proxy_status x) (a_remote_endp x)) u.

Lemma set_upload_sock_id u : set_upload_sock (upload_sock u) u = u.
Proof. destruct u as [[[[? ? ? ? ? ? ? ? ? ? []] ? ? ? ? ? ? ? ?] ? ?] ? ? ? ?]. reflexivity. Qed.

Lemma async_stream_write_run text u ec k :
  sock_write text (upload_sock u) = (ec, k) -> async_stream_write text u = Ok (ec, set_upload_sock k u).
Proof.
  intros E. unfold async_stream_write, on_http_stream, on_http, on_conn, on_stream, on_sock. run.
  unfold upload_sock, upload_stream in E. now rewrite E.
Qed.

(** Texts written one after the other, up to the first error. *)
Fixpoint write_all (w : cstring -> U error_code) (texts : list cstring) : U error_code :=
  match texts with
  | [] => mret None
  | t :: ts => ec ← w t; match ec with Some _ => mret ec | None => write_all w ts end
  end.

Lemma write_all_app w ts1 ts2 u :
  write_all w (ts1 ++ ts2) u
  = (ec ← write_all w ts1; match ec with Some _ => mret ec | None => write_all w ts2 end) u.
Proof.
  revert u. induction ts1 as [|t ts IH]; intros u; cbn [app write_all]; [reflexivity|]. run.
  destruct (w t u) as [[[e|] u1]|f]; [reflexivity| |reflexivity]. rewrite IH. reflexivity.
Qed.

Definition arg_texts (base : cstring) (args : form_args) : list cstring :=
  flat_map (fun i : cstring * cstring => [boundary_line base; arg_text (fst i) (snd i)]) args.
Definition part_texts (base filename file_of_form : cstring) (args : form_args) : list cstring :=
  arg_texts base args ++ [boundary_line base; file_text file_of_form (leaf filename) (extension filename)].

Lemma part_texts_head base filename file_of_form args :
  concat (part_texts base filename file_of_form args) = head_text base filename file_of_form args.
Proof.
  unfold part_texts, head_text. rewrite concat_app. f_equal; [|cbn [concat]; now rewrite app_nil_r].
  unfold arg_texts, args_text. induction args as [|i args IH]; [reflexivity|]. cbn [flat_map map concat app].
  now rewrite IH, <- app_assoc.
Qed.

(** A write leaves the boundary alone. *)
Lemma stream_write_keeps text u r u' : stream_write text u = Ok (r, u') -> exists k, u' = set_upload_sock k u.
Proof.
  unfold stream_write. destruct (sock_write text (upload_sock u)) as [ec k] eqn:E.
  rewrite (bind_ok _ _ _ _ _ (async_stream_write_run _ _ _ _ E)). intros [= <- <-]. eauto.
Qed.

Lemma send_args_all base args : forall u, m_boundary u = boundary_line base ->
  send_args args u = write_all stream_write (arg_texts base args) u.
Proof.
  induction args as [|[name value] args IH]; intros u Hb; cbn [send_args arg_texts flat_map app write_all fst snd]; [reflexivity|].
  rewrite (bind_ok _ _ u u u) by reflexivity. rewrite Hb. run.
  destruct (stream_write (boundary_line base) u) as [[[e|] u1]|f] eqn:E1; [reflexivity| |reflexivity].
  destruct (stream_write (arg_text name value) u1) as [[[e|] u2]|f] eqn:E2; [reflexivity| |reflexivity].
  apply stream_write_keeps in E1 as [k1 ->]. apply stream_write_keeps in E2 as [k2 ->]. now apply IH.
Qed.

Lemma send_file_all base filename file_of_form u :
  m_boundary u = boundary_line base ->
  send_file file_of_form (leaf filename) (extension filename) u
  = write_all stream_write [boundary_line base; file_text file_of_form (leaf filename) (extension filename)] u.
Proof.
  intros Hb. unfold send_file. cbn [write_all]. rewrite (bind_ok _ _ u u u) by reflexivity. rewrite Hb. run.
  destruct (stream_write (boundary_line base) u) as [[[e|] u1]|f]; [reflexivity| |reflexivity].
  destruct (stream_write _ u1) as [[[e|] u2]|f]; reflexivity.
Qed.

Lemma write_all_keeps ts : forall u r u', write_all stream_write ts u = Ok (r, u') -> exists k, u' = set_upload_sock k u.
Proof.
  induction ts as [|t ts IH]; intros u r u'; cbn [write_all].
  - intros [= _ <-]. exists (upload_sock u). symmetry. apply set_upload_sock_id.
  - run. destruct (stream_write t u) as [[[e|] u1]|f] eqn:E; [| |discriminate]; apply stream_write_keeps in E as [k ->].
    + intros [= _ <-]. eauto.
    + intros H. apply IH in H as [k' ->]. eauto.
Qed.

(** The writes of [open] behind the response. *)
Lemma send_parts_all base filename file_of_form args u :
  m_boundary u = boundary_line base ->
  (ec ← send_args args;
   match ec with Some _ => mret ec | None => send_file file_of_form (leaf filename) (extension filename) end) u
  = write_all stream_write (part_texts base filename file_of_form args) u.
Proof.
  intros Hb. unfold part_texts. rewrite write_all_app. run. rewrite (send_args_all base args u Hb).
  destruct (write_all stream_write (arg_texts base args) u) as [[[e|] u1]|f] eqn:E; [reflexivity| |reflexivity].
  apply write_all_keeps in E as [k ->]. now apply send_file_all.
Qed.

(** *** The coroutine *)

(** Errors of a socket are not those of the HTTP library. *)
Definition socket_errors : Prop := forall text k e k', sock_write text k = (Some e, k') -> is_continue (Some e) = false.

(** What the coroutine does behind a write that succeeded. *)
Definition resumed (boundary filename file_of_form : cstring) (args0 : form_args) (p : open_point) : coro_action :=
  match p with
  | Opened => next_arg boundary args0
  | ArgBoundary [] => CoroHandler None
  | ArgBoundary ((name, value) :: args) => CoroWrite (arg_text name value) (ArgSent args)
  | ArgSent args => next_arg boundary args
  | FileBoundary => CoroWrite (file_text file_of_form (leaf filename) (extension filename)) FileSent
  | FileSent => CoroHandler None
  end.

Lemma run_coro_step fuel filename file_of_form text p u :
  socket_errors ->
  run_coro (S fuel) filename file_of_form (CoroWrite text p) u
  = (ec ← async_stream_write text;
     match ec with
     | Some _ => mret ec
     | None => run_coro fuel filename file_of_form (resumed (m_boundary u) filename file_of_form (m_form_args u) p)
     end) u.
Proof.
  intros HS. cbn [run_coro]. destruct (sock_write text (upload_sock u)) as [ec k] eqn:E.
  rewrite !(bind_ok _ _ _ _ _ (async_stream_write_run _ _ _ _ E)). unfold open_coro. run. destruct ec as [e|].
  - rewrite (HS _ _ _ _ E). destruct fuel; reflexivity.
  - cbn [is_continue negb]. change (m_boundary (set_upload_sock k u)) with (m_boundary u).
    change (m_form_args (set_upload_sock k u)) with (m_form_args u).
    destruct p as [|[|[? ?] ?]| | |]; reflexivity.
Qed.

Lemma run_coro_all base filename file_of_form args : forall fuel u,
  socket_errors -> m_boundary u = boundary_line base -> (2 * length args + 2 <= fuel)%nat ->
  run_coro fuel filename file_of_form (next_arg (boundary_line base) args) u
  = write_all async_stream_write (part_texts base filename file_of_form args) u.
Proof.
  induction args as [|[name value] args IH]; intros fuel u HS Hb Hf; cbn [length] in Hf;
    (destruct fuel as [|[|fuel]]; [lia..|]); cbn [next_arg part_texts arg_texts flat_map app write_all fst snd].
  - rewrite run_coro_step by exact HS. cbn [resumed]. run.
    destruct (async_stream_write (boundary_line base) u) as [[[e|] u1]|f]; [reflexivity| |reflexivity].
    rewrite run_coro_step by exact HS. cbn [resumed]. run.
    destruct (async_stream_write _ u1) as [[[e|] u2]|f]; [reflexivity| |reflexivity]. destruct fuel; reflexivity.
  - rewrite run_coro_step by exact HS. cbn [resumed]. run.
    destruct (sock_write (boundary_line base) (upload_sock u)) as [[e|] k1] eqn:E1;
      rewrite (async_stream_write_run _ _ _ _ E1); [reflexivity|].
    rewrite run_coro_step by exact HS. cbn [resumed]. run.
    destruct (sock_write (arg_text name value) (upload_sock (set_upload_sock k1 u))) as [[e|] k2] eqn:E2;
      rewrite (async_stream_write_run _ _ _ _ E2); [reflexivity|].
    change (m_boundary (set_upload_sock k1 u)) with (m_boundary u). rewrite Hb. apply IH; [exact HS|exact Hb|lia].
Qed.

Lemma write_all_total ts : forall u, exists ec u', write_all async_stream_write ts u = Ok (ec, u').
Proof.
  induction ts as [|t ts IH]; intros u; cbn [write_all]; [do 2 eexists; reflexivity|].
  destruct (sock_write t (upload_sock u)) as [[e|] k] eqn:E; rewrite (bind_ok _ _ _ _ _ (async_stream_write_run _ _ _ _ E));
    [do 2 eexists; reflexivity|apply IH].
Qed.

(** The two kinds of writes differ in one error code. *)
Lemma write_all_end ts : forall u,
  write_all stream_write ts u = (ec ← write_all async_stream_write ts; mret (end_code ec)) u.
Proof.
  induction ts as [|t ts IH]; intros u; cbn [write_all]; [reflexivity|]. run.
  change (stream_write t u) with ((ec ← async_stream_write t; mret (end_code ec)) u). run.
  destruct (async_stream_write t u) as [[[e|] u1]|f]; [destruct e; reflexivity| |reflexivity].
  change (write_all stream_write ts u1
          = (ec ← write_all async_stream_write ts; mret (end_code ec)) u1). apply IH.
Qed.

(** *** Writes that succeed *)

(** Everything can be written to a connection that is open. *)
Definition writes_succeed : Prop := forall k text, sock_is_open k = true ->
  exists k', sock_write text k = (None, k') /\ sock_is_open k' = true.
End Facts.

Section Sent.
Context {P : Platform} {N : Network} {T : Transport N} {L : NetworkLaws N} {TL : TransportLaws T L} {F : Filesystem}.

Lemma stream_write_sent u text :
  writes_succeed -> sock_is_open (upload_sock u) = true ->
  exists k, stream_write text u = Ok (None, set_upload_sock k u) /\ sock_is_open k = true
    /\ sent k = sent (upload_sock u) ++ text /\ incoming k = incoming (upload_sock u)
    /\ sock_write text (upload_sock u) = (None, k).
Proof.
  intros HW Ho. destruct (HW _ text Ho) as (k & E & Hk). exists k. unfold stream_write.
  rewrite (bind_ok _ _ _ _ _ (async_stream_write_run _ _ _ _ E)). split; [reflexivity|]. split; [exact Hk|].
  destruct (write_sent _ _ _ E). auto.
Qed.

Lemma write_all_sent ts : forall u,
  writes_succeed -> sock_is_open (upload_sock u) = true ->
  exists k, write_all stream_write ts u = Ok (None, set_upload_sock k u) /\ sock_is_open k = true
    /\ sent k = sent (upload_sock u) ++ concat ts /\ incoming k = incoming (upload_sock u).
Proof.
  induction ts as [|t ts IH]; intros u HW Ho; cbn [write_all concat].
  - exists (upload_sock u). rewrite set_upload_sock_id, app_nil_r. auto.
  - destruct (stream_write_sent u t HW Ho) as (k & E & Hk & Hs & Hi & _). rewrite (bind_ok _ _ _ _ _ E).
    destruct (IH (set_upload_sock k u) HW Hk) as (k' & E' & Hk' & Hs' & Hi'). exists k'. split; [exact E'|].
    split; [exact Hk'|]. change (upload_sock (set_upload_sock k u)) with k in *. rewrite Hs', Hs, <- app_assoc. split; [reflexivity|congruence].
Qed.

Context {FL : FilesystemLaws F}.
Variable base64_text : cstring -> cstring.

(** An upload with a new object to the server of [v], which accepts the
    connection [k0]; no proxy, no option that the function sets itself. *)
Record uploads (u : upload) (v : url) (k0 : sock) : Prop := {
  up_proxy : type (m_proxy (upload_stream u)) = none;
  up_fresh : Settings.size (m_request_opts (upload_stream u)) = 0;
  up_options : Forall (fun key => Settings.find key (m_request_opts_priv (upload_stream u)) = None)
                 [http_options.url; http_options.request_method; http_options.request_body];
  up_http : protocol_ v = $"http";
  up_reached : exists k, resolve_connect tcp_connect (host_ v) (port v) new_socket = (None, k)
    /\ set_no_delay k = (None, k0);
  up_open : sock_is_open k0 = true;
  up_writes : writes_succeed
}.

(** "100 Continue", with the empty line behind it. *)
Definition continue_line (a b r : cstring) : cstring := $"HTTP/" ++ a ++ $"." ++ b ++ $" 100 " ++ r ++ crlf ++ crlf.

(** How the server of [k0] answers.  Without [fake_continue] it first answers the
    request, in a packet of its own, with "100 Continue". *)
Definition server_answers (u : upload) (k0 : sock) (final : cstring) : Prop :=
  if u_fake_continue u then incoming k0 = final
  else forall text k, sock_write text k0 = (None, k) ->
    exists a b r n k1, read_until_crlf [] k = (n, None, continue_line a b r, k1)
      /\ (a <> [] /\ b <> []) /\ (StatusLineFacts.digits a /\ StatusLineFacts.digits b) /\ Forall (fun x => is_ctl x = false) r
      /\ sock_is_open k1 = true /\ sent k1 = sent k /\ incoming k1 = final.

Lemma request_fake fuel o s k :
  sock_is_open (m_sock (m_body s)) = true -> via_http_proxy s = false -> Settings.find http_options.url o = None ->
  m_fake_continue (m_request_opts_priv s) = true -> sock_write (request_text o s) (m_sock (m_body s)) = (None, k) ->
  exists ro, request base64_text fuel o s = Ok (Some fake_continue, awaiting ro k s).
Proof.
  intros Ho Hp Hu Hf Hw. destruct (build_request_run base64_text o s Hp Hu) as (ro & E & _). exists ro.
  unfold request. run. rewrite Ho, E. cbn [negb]. rewrite Hw, Hf. reflexivity.
Qed.

(** "100 Continue" for a POST request ends the wait for a response. *)
Lemma receive_continue fuel s a b r n k1 :
  read_until_crlf [] (m_sock (m_body s)) = (n, None, continue_line a b r, k1) ->
  a <> [] /\ b <> [] -> StatusLineFacts.digits a /\ StatusLineFacts.digits b -> Forall (fun x => is_ctl x = false) r ->
  Settings.find http_options.request_method (m_request_opts_priv s) = Some ($"POST") ->
  exists s', receive_header (S fuel) s = Ok (Some (http_status 100), s') /\ m_sock (m_body s') = k1 /\ m_jar s' = m_jar s.
Proof.
  intros Hr (Ha & Hb) (Da & Db) Dr Hm. unfold receive_header. run. cbn [status_loop]. run. unfold read_line at 1. run.
  cbn [m_body set_body m_sock set_response m_response]. rewrite Hr.
  assert (parse_http_status_line (continue_line a b r) 0 0 0 = (true, StatusLine.Data (int32 (dec_value a)) (int32 (dec_value b)) 100 r)) as EP.
  { apply (StatusLineFacts.line_parses a b ($"100") r crlf); auto; repeat constructor. }
  assert (unread StatusLine.http_version_h (StatusLine.Data 0 0 0 []) (continue_line a b r) = crlf) as EU.
  { eapply (unread_rest _ _ _ _ ($"HTTP/" ++ a ++ $"." ++ b ++ $" 100 " ++ r ++ [CR])); [exact EP| |].
    - unfold continue_line. now rewrite <- !app_assoc.
    - rewrite !free_of_app. repeat split; try (repeat constructor); auto using digits_free_lf, ctl_free_lf. }
  cbn [m_body set_body m_sock set_response set_sock m_response]. rewrite EP. cbn [negb StatusLine.status].
  rewrite EU. unfold skip_continue. change (100 =? continue_request) with true. cbv iota. unfold crlf at 1. cbn [continue_crlf]. run.
  change ((CR =c CR) && (LF =c LF)) with true. unfold stream_assert. rewrite andb_false_r. run.
  unfold consume. run. cbn [m_request_opts_priv set_status set_body]. unfold find_or_empty. rewrite Hm.
  cbn [negb orb]. change (str_eqb ($"POST") ($"POST")) with true. cbv iota. eexists. split; [reflexivity|]. now split.
Qed.

Lemma request_continue fuel o s k final :
  sock_is_open (m_sock (m_body s)) = true -> via_http_proxy s = false -> Settings.find http_options.url o = None ->
  sock_write (request_text o s) (m_sock (m_body s)) = (None, k) -> sock_is_open k = true ->
  Settings.find http_options.request_method (m_request_opts_priv s) = Some ($"POST") ->
  incoming k = incoming (m_sock (m_body s)) ->
  (if m_fake_continue (m_request_opts_priv s) then incoming (m_sock (m_body s)) = final
   else exists a b r n k1, read_until_crlf [] k = (n, None, continue_line a b r, k1)
      /\ (a <> [] /\ b <> []) /\ (StatusLineFacts.digits a /\ StatusLineFacts.digits b) /\ Forall (fun x => is_ctl x = false) r
      /\ sock_is_open k1 = true /\ sent k1 = sent k /\ incoming k1 = final) ->
  exists ec s', request base64_text (S fuel) o s = Ok (ec, s') /\ is_continue ec = true /\ is_redirect ec = false
    /\ m_jar s' = m_jar s /\ sock_is_open (m_sock (m_body s')) = true
    /\ sent (m_sock (m_body s')) = sent k /\ incoming (m_sock (m_body s')) = final.
Proof.
  intros Ho Hp Hu Hw Hko Hm Hki Ha. destruct (m_fake_continue (m_request_opts_priv s)) eqn:Ef.
  - destruct (request_fake (S fuel) o s k Ho Hp Hu Ef Hw) as (ro & E). do 2 eexists. split; [exact E|].
    repeat split; [exact Hko|]. cbn. congruence.
  - destruct Ha as (a & b & r & n & k1 & Er & Hne & Hd & Hr & Ho1 & Hs1 & Hi1).
    destruct (build_request_run base64_text o s Hp Hu) as (ro & E & _).
    destruct (receive_continue fuel (awaiting ro k s) a b r n k1 Er Hne Hd Hr Hm) as (s' & E' & Hk' & Hj').
    exists (Some (http_status 100)), s'. split.
    + unfold request. run. rewrite Ho, E. cbn [negb]. rewrite Hw, Ef. exact E'.
    + rewrite Hk'. now repeat split.
Qed.

(** What [open] of the stream does then. *)
Lemma open_continue d fuel v k0 k x final :
  protocol_ v = $"http" -> type (m_proxy (m_stream x)) = none ->
  Settings.find http_options.url (m_request_opts_priv (m_stream x)) = None ->
  Settings.find http_options.request_method (m_request_opts_priv (m_stream x)) = Some ($"POST") ->
  (exists k', resolve_connect tcp_connect (host_ v) (port v) new_socket = (None, k') /\ set_no_delay k' = (None, k0)) ->
  sock_is_open k0 = true ->
  sock_write (request_text (m_request_opts_priv (m_stream x)) (m_stream (ready v k0 x))) k0 = (None, k) -> sock_is_open k = true ->
  (if m_fake_continue (m_request_opts_priv (m_stream x)) then incoming k0 = final
   else exists a b r n k1, read_until_crlf [] k = (n, None, continue_line a b r, k1)
      /\ (a <> [] /\ b <> []) /\ (StatusLineFacts.digits a /\ StatusLineFacts.digits b) /\ Forall (fun x => is_ctl x = false) r
      /\ sock_is_open k1 = true /\ sent k1 = sent k /\ incoming k1 = final) ->
  exists ec y, HttpOpen.open base64_text (S d) (S fuel) v x = Ok (ec, y) /\ is_continue ec = true
    /\ m_jar (m_stream y) = m_jar (m_stream x) /\ sock_is_open (m_sock (m_body (m_stream y))) = true
    /\ sent (m_sock (m_body (m_stream y))) = sent k /\ incoming (m_sock (m_body (m_stream y))) = final.
Proof.
  intros Hh Pn Hu Hm (k' & Hc & Hd) Ho Hw Hko Ha. set (y := ready v k0 x) in *.
  destruct (request_continue fuel (m_request_opts_priv (m_stream x)) (m_stream y) k final) as (ec & s' & E & Hec & Hre & Hj & Ho' & Hs' & Hi'); auto.
  { unfold via_http_proxy. change (m_proxy (m_stream y)) with (m_proxy (m_stream x)). now rewrite Pn. }
  { now destruct (write_sent _ _ _ Hw). }
  exists ec, (set_redirects 0 (set_stream s' y)). split; [|now repeat split].
  cbn [HttpOpen.open]. rewrite (bind_ok _ _ x (inr ec) (set_stream s' y)).
  - cbv beta iota. rewrite Hre. reflexivity.
  - rewrite (exchange_request base64_text (S fuel) v k' k0 x Hh Pn Hc Hd). fold y.
    now rewrite (bind_ok _ _ y _ _ (on_stream_ok _ y _ _ E)).
Qed.

(** The options of the request: the method, and the headers of the form. *)
Lemma sync_options_find fake base n o key :
  Settings.find key o = None -> strcaseeq http_options.content_length key = false ->
  strcaseeq http_options.content_type key = false -> strcaseeq ($"Expect") key = false ->
  Settings.find key (sync_options fake base n o)
  = if strcaseeq http_options.request_method key then Some ($"POST") else None.
Proof.
  intros E H1 H2 H3. unfold sync_options.
  change (Settings.find key (Settings.insert http_options.content_type ($"multipart/form-data; boundary=" ++ base)
    (if negb fake then Settings.insert ($"Expect") ($"100-continue")
        (Settings.insert http_options.content_length (itoa n) (Settings.insert http_options.request_method ($"POST") o))
     else Settings.insert http_options.content_length (itoa n) (Settings.insert http_options.request_method ($"POST") o)))
    = if strcaseeq http_options.request_method key then Some ($"POST") else None).
  destruct fake; cbn [negb]; rewrite !find_insert, E, H1, H2, ?H3; now destruct (strcaseeq http_options.request_method key).
Qed.

Lemma in_remove_item key k v l : str_eqb k key = false -> In (k, v) l -> In (k, v) (remove_item key l).
Proof.
  intros Hk. induction l as [|[k' v'] l IH]; [easy|]. cbn [remove_item]. intros [[= -> ->]|H].
  - rewrite Hk. now left.
  - destruct (str_eqb k' key); [exact H|]. right. auto.
Qed.

Lemma in_other_options k v o :
  In (k, v) (m_opts o) -> existsb (str_eqb k) used_options = false -> internal_option k = false -> In (k, v) (other_options o).
Proof.
  intros H Hu Hi. unfold other_options. apply List.filter_In. split; [|cbn [fst]; now rewrite Hi].
  revert o H Hu. induction used_options as [|key ks IH]; intros o H Hu; [exact H|]. cbn [fold_left existsb] in *.
  apply orb_false_iff in Hu as [H1 H2]. apply IH; [|exact H2]. now apply in_remove_item.
Qed.

(** [open] sends the request and the heads of the parts. *)
Lemma upload_open_run d fuel url filename file_of_form args n u v k0 final :
  uploads u v k0 -> server_answers u k0 final -> Url.from_string url = Ok v ->
  calc_content_length filename file_of_form (m_base_boundary u) args = Ok n ->
  let base := m_base_boundary u in
  let o := sync_options (u_fake_continue u) base n (m_request_opts_priv (upload_stream u)) in
  exists s1 u1, upload_open base64_text (S d) (S fuel) url filename file_of_form args u = Ok (None, u1)
    /\ sent (upload_sock u1) = sent k0 ++ request_text o s1 ++ head_text base filename file_of_form args
    /\ incoming (upload_sock u1) = final /\ sock_is_open (upload_sock u1) = true
    /\ m_base_boundary u1 = base /\ m_jar (upload_stream u1) = m_jar (upload_stream u).
Proof.
  intros [Hp Hr Ho Hh Hc Hk HW] Ha Hu Hn base o. unfold upload_open. rewrite (bind_ok _ _ u u u) by reflexivity.
  unfold request_options. rewrite Hr. change (0 =? 0) with true. cbv iota. fold base o.
  set (u0 := set_boundary base (set_form_args args u)).
  rewrite (bind_ok _ _ u () (set_form_args args u)), (bind_ok _ _ (set_form_args args u) () u0) by reflexivity.
  fold base in Hn. rewrite Hn. fold o. set (u2 := set_boundary (boundary_line base) u0).
  rewrite (bind_ok _ _ u0 () u2) by reflexivity.
  set (x := set_stream (set_request_options o (upload_stream u)) (a_conn (m_http_stream u))).
  set (u3 := set_http_stream (AsyncStream _ _ _ x (a_proxy_status (m_http_stream u)) (a_remote_endp (m_http_stream u))) u2).
  rewrite (bind_ok _ _ u2 () u3) by reflexivity. rewrite Hu.
  destruct (HW k0 (request_text o (m_stream (ready v k0 x))) Hk) as (k & E & Hko).
  inversion_clear Ho as [|? ? Ho1 Ho']. inversion_clear Ho' as [|? ? Ho2 _].
  destruct (open_continue d fuel v k0 k x final Hh Hp) as (ec & y & Eo & Hec & Hj & Hyo & Hys & Hyi); auto.
  { change (Settings.find http_options.url o = None). unfold o. now rewrite sync_options_find. }
  { change (Settings.find http_options.request_method o = Some ($"POST")). unfold o. now rewrite sync_options_find. }
  { change (m_fake_continue (m_request_opts_priv (m_stream x))) with (u_fake_continue u). unfold server_answers in Ha.
    destruct (u_fake_continue u); [exact Ha|exact (Ha _ k E)]. }
  set (u4 := set_http_stream (AsyncStream _ _ _ y (a_proxy_status (m_http_stream u)) (a_remote_endp (m_http_stream u))) u2).
  rewrite (bind_ok _ _ u3 ec u4).
  2:{ unfold on_http. change (m_http_stream u3) with (AsyncStream _ _ _ x (a_proxy_status (m_http_stream u)) (a_remote_endp (m_http_stream u))).
      now rewrite (on_conn_ok _ (AsyncStream _ _ _ x _ _) _ _ Eo). }
  rewrite Hec. cbn [negb]. rewrite extension_leaf, (send_parts_all base) by reflexivity.
  destruct (write_all_sent (part_texts base filename file_of_form args) u4 HW Hyo) as (k1 & E1 & Hk1 & Hs1 & Hi1).
  destruct (write_sent _ _ _ E) as [Hs Hi]. change (upload_sock u4) with (m_sock (m_body (m_stream y))) in *.
  exists (m_stream (ready v k0 x)), (set_upload_sock k1 u4). split; [exact E1|].
  change (upload_sock (set_upload_sock k1 u4)) with k1. rewrite Hs1, Hys, Hs, part_texts_head, <- app_assoc.
  repeat split; [congruence|exact Hk1|exact Hj].
Qed.

(** Its request, for a body of [n] characters. *)
Lemma upload_request fake base n o s :
  Settings.find http_options.request_method o = None -> Settings.find http_options.request_body o = None ->
  exists line headers, request_text (sync_options fake base n o) s
    = ($"POST " ++ line) ++ crlf ++ header_lines headers ++ crlf
  /\ In (http_options.content_length, itoa n) headers
  /\ In (http_options.content_type, $"multipart/form-data; boundary=" ++ base) headers.
Proof.
  intros Hm Hb. set (o' := sync_options fake base n o).
  exists (to_string (Z.lor (Z.lor path_component query_component) fragment_component) (m_url s) ++ $" "
          ++ option_value http_options.http_version ($"HTTP/1.1") o'), (request_headers o' s).
  assert (option_value http_options.request_method ($"GET") o' = $"POST") as Em.
  { unfold option_value, o'. now rewrite sync_options_find. }
  assert (option_value http_options.request_body [] o' = []) as Eb.
  { unfold option_value, o'. now rewrite sync_options_find. }
  split; [unfold request_text, request_line; rewrite Em, Eb, app_nil_r, <- !app_assoc; reflexivity|].
  assert (forall k w, In (k, w) (m_opts o') -> existsb (str_eqb k) used_options = false -> internal_option k = false ->
    In (k, w) (request_headers o' s)) as Hin.
  { intros k w H1 H2 H3. unfold request_headers. rewrite !in_app_iff. right. right. right. now apply in_other_options. }
  split; apply Hin; try reflexivity; unfold o', sync_options; destruct fake;
    cbn [negb Settings.insert set_fake_continue m_opts m_fake_continue]; rewrite !in_app_iff; cbn [In]; auto 6.
Qed.

(** [write_tail] on an open connection. *)
Lemma write_tail_run fuel u k :
  stream_write (tail_text (m_base_boundary u)) u = Ok (None, set_upload_sock k u) ->
  write_tail fuel u
  = on_http_stream (receive_header fuel) (set_boundary (tail_text (m_base_boundary u)) (set_upload_sock k u)).
Proof.
  intros E. unfold write_tail. rewrite (bind_ok _ _ u u u) by reflexivity.
  rewrite (bind_ok _ _ u () (set_boundary (tail_text (m_base_boundary u)) u)) by reflexivity.
  unfold stream_write, async_stream_write, on_http_stream, on_http, on_conn, on_stream, on_sock in *. run.
  revert E. run. change (m_http_stream (set_boundary (tail_text (m_base_boundary u)) u)) with (m_http_stream u).
  destruct (sock_write _ _) as [ec k']. intros [= Hec Hu]. rewrite <- Hu. reflexivity.
Qed.
End Sent.

(** ** Properties *)

(** C39: the announced length is that of the body.  For a file of which
    [data] is the content, [calc_content_length] is the number of characters
    that [open], the writes of the data and [write_tail] send behind the header,
    as long as that fits in a [size_t]; it only reports an error when the size of
    the file is not known. *)
Theorem content_length_correct {F : Filesystem} (filename file_of_form base data : cstring) (args : form_args) :
  (file_size filename = Ok (size data) -> size (body_text base filename file_of_form args data) < 2 ^ 64 ->
   calc_content_length filename file_of_form base args = Ok (size (body_text base filename file_of_form args data)))
  /\ (forall e, calc_content_length filename file_of_form base args = Err e <-> file_size filename = Err e).
Proof.
  split.
  - apply calc_content_length_exact.
  - intros e. unfold calc_content_length. destruct (file_size filename); split; congruence.
Qed.

(** C18: a whole upload.  A new object, whose stream has no proxy, opens an [http]
    URL of a server that can be reached and to which everything can be written; the
    data of the file is written, then the tail.  With [fake_continue] the body
    follows the request at once; without it, the default, [open] waits for the server
    to answer the request with "100 Continue", which comes in a packet of its own.  All
    three operations succeed and what the server has received is one POST request,
    whose headers announce the type of the form and the length of its body, followed
    by exactly that body; the final response of the server, which is no
    "100 Continue", is then read: its status is the result. *)
Theorem upload_correct {P : Platform} {N : Network} {T : Transport N} {L : NetworkLaws N} {TL : TransportLaws T L}
    {F : Filesystem} {FL : FilesystemLaws F} (base64_text : cstring -> cstring) (d fuel : nat)
    (url filename file_of_form data : cstring) (args : form_args) (u : upload) (v : Url.url) (k0 : sock)
    (a b c r : cstring) (hs : option_item_list) (rest : cstring) (j : cookies) :
  uploads u v k0 -> Url.from_string url = Ok v ->
  file_size filename = Ok (size data) ->
  let body := body_text (m_base_boundary u) filename file_of_form args data in
  size body < 2 ^ 64 ->
  server_answers u k0 (response_text a b c r hs rest) -> wf_response a b c r hs -> (length hs <= fuel)%nat ->
  let status := int32 (dec_value c) in
  add_cookies (response_items status hs) (m_jar (upload_stream u)) = Ok j ->
  exists u1 u2 u3 k line headers,
    upload_open base64_text (S d) (S fuel) url filename file_of_form args u = Ok (None, u1)
    /\ write_data data u1 = Ok (None, u2)
    /\ write_tail (S fuel) u2 = Ok (status_code_error status, u3)
    /\ m_status_code (upload_stream u3) = status
    /\ sock_write (tail_text (m_base_boundary u)) (upload_sock u2) = (None, k)
    /\ sent k = sent k0 ++ ($"POST " ++ line) ++ crlf ++ header_lines headers ++ crlf ++ body
    /\ In (http_options.content_length, itoa (size body)) headers
    /\ In (http_options.content_type, $"multipart/form-data; boundary=" ++ m_base_boundary u) headers.
Proof.
  intros Hup Hu Hf body Hb Hi Hw Hl status Hj. set (base := m_base_boundary u) in *.
  pose proof (calc_content_length_exact filename file_of_form base args data Hf Hb) as Hn. fold body in Hn.
  pose proof (up_writes _ _ _ Hup) as HW. pose proof (up_options _ _ _ Hup) as Ho.
  inversion_clear Ho as [|? ? _ Ho']. inversion_clear Ho' as [|? ? Hm Ho'']. inversion_clear Ho'' as [|? ? Hrb _].
  destruct (upload_open_run base64_text d fuel url filename file_of_form args _ u v k0 _ Hup Hi Hu Hn)
    as (s1 & u1 & E1 & Hs1 & Hi1 & Ho1 & Hb1 & Hj1). fold base in Hb1.
  destruct (upload_request (u_fake_continue u) base (size body) (m_request_opts_priv (upload_stream u)) s1 Hm Hrb) as (line & headers & Et & I1 & I2).
  destruct (stream_write_sent u1 data HW Ho1) as (k2 & E2 & Hk2 & Hs2 & Hi2 & _). set (u2 := set_upload_sock k2 u1) in *.
  destruct (stream_write_sent u2 (tail_text base) HW Hk2) as (k & E3 & Hk & Hs3 & Hi3 & Ew).
  change (upload_sock u2) with k2 in *.
  assert (m_base_boundary u2 = base) as Hb2 by exact Hb1.
  pose proof (write_tail_run (S fuel) u2 k) as E4. rewrite Hb2 in E4. specialize (E4 E3).
  set (u3 := set_boundary _ _) in E4.
  destruct (receive_header_run (S fuel) (upload_stream u3) a b c r hs rest j Hw) as (s' & Er & R); [lia|..].
  { change (incoming k = response_text a b c r hs rest). congruence. }
  { change (m_jar (upload_stream u3)) with (m_jar (upload_stream u1)). now rewrite Hj1. }
  exists u1, u2. do 2 eexists. exists line, headers. split; [exact E1|]. split; [exact E2|]. split.
  { rewrite E4. unfold on_http_stream, on_http, on_conn, on_stream. unfold upload_stream in Er. rewrite Er. reflexivity. }
  split; [exact (got_status _ _ _ _ _ _ R)|]. split; [exact Ew|]. split; [|now split].
  rewrite Hs3, Hs2, Hs1. fold base. rewrite Et. unfold body, body_text. rewrite <- !app_assoc. reflexivity.
Qed.

(** The coroutine of [async_open] sends what [open] sends.  Resumed behind
    the response with any code, it ends after as many writes as there are parts,
    with the same object as the loop of [open] and with the same code, except
    that [write_some] reports a connection that was shut down as its end. *)
Theorem open_coro_equivalent {P : Platform} {N : Network} {T : Transport N} {F : Filesystem} {FL : FilesystemLaws F}
    (fuel : nat) (filename file_of_form : cstring) (ec : error_code) (u : upload) :
  socket_errors -> m_boundary u = boundary_line (m_base_boundary u) -> (2 * length (m_form_args u) + 2 <= fuel)%nat ->
  let sync :=
    if negb (is_continue ec) then mret ec
    else ec ← send_args (m_form_args u);
         match ec with
         | Some _ => mret ec
         | None => send_file file_of_form (leaf filename) (extension (leaf filename))
         end in
  exists ec' u', (a ← open_coro filename file_of_form Opened ec; run_coro fuel filename file_of_form a) u = Ok (ec', u')
    /\ sync u = Ok (if is_continue ec then end_code ec' else ec', u').
Proof.
  intros HS Hb Hf sync. unfold sync, open_coro. rewrite extension_leaf.
  rewrite (bind_ok _ _ u (if negb (is_continue ec) then CoroHandler ec else next_arg (m_boundary u) (m_form_args u)) u)
    by (run; now destruct (is_continue ec)).
  destruct (is_continue ec) eqn:Hc; cbn [negb].
  - rewrite (send_parts_all (m_base_boundary u)), Hb, (run_coro_all (m_base_boundary u)), write_all_end by assumption.
    run. destruct (write_all_total (part_texts (m_base_boundary u) filename file_of_form (m_form_args u)) u) as (ec' & u' & E).
    rewrite E. eauto.
  - exists ec, u. destruct fuel; split; reflexivity.
Qed.

(** A file system for the examples: names with slashes, and the contents of the
    files. *)
Definition after_last (c : ascii) (s : cstring) : cstring := rev (fst (span (fun x => negb (x =c c)) (rev s))).

Lemma span_idem p (s : cstring) : span p (fst (span p s)) = (fst (span p s), []).
Proof.
  induction s as [|c s IH]; [reflexivity|]. cbn [span]. destruct (p c) eqn:E; [|reflexivity].
  destruct (span p s) as [t rest] eqn:Es. cbn [fst] in *. cbn [span]. now rewrite E, IH.
Qed.

Lemma after_last_idem c s : after_last c (after_last c s) = after_last c s.
Proof. unfold after_last. now rewrite rev_involutive, span_idem. Qed.

#[refine] Instance posix_files (files : list (cstring * cstring)) : Filesystem := {
  file_size := fun f => match List.find (fun x => str_eqb (fst x) f) files with Some x => Ok (size (snd x)) | None => Err not_found end;
  leaf := after_last "/";
  extension := fun f =>
    let l := after_last "/" f in
    if existsb (fun x => x =c ".") l then "."%char :: after_last "." l else []
}.
Proof. Defined.
#[refine] Instance posix_files_laws files : FilesystemLaws (posix_files files) := {}.
Proof. intros f. cbn [extension leaf posix_files]. now rewrite after_last_idem. Defined.

Definition example_data : cstring := $"Hello".
#[local] Instance example_files : Filesystem := posix_files [($"/tmp/a.TXT", example_data)].
#[local] Instance example_files_laws : FilesystemLaws example_files := posix_files_laws _.

Definition example_form : form_args := [($"user", $"Cai")].

Lemma content_length_correct_witness :
  calc_content_length ($"/tmp/a.TXT") ($"file") ($"b") example_form
  = Ok (size (body_text ($"b") ($"/tmp/a.TXT") ($"file") example_form example_data)).
Proof. apply (content_length_correct ($"/tmp/a.TXT") ($"file") ($"b") example_data example_form); reflexivity. Defined.

(** The server of the example answers "100 Continue" before the page. *)
Definition example_waiting_server : list (cstring * list script_address) :=
  [($"up.com", [(1, Some (one_packet (continue_line ($"1") ($"1") ($"Continue")) ++ one_packet example_page))])].
Definition example_default_upload : upload (P := example_platform) (T := script_transport example_waiting_server) :=
  new_upload ($"42")
    (AsyncStream _ _ _
       (Connection _ _ _
          (HttpStream example_platform script_network (Opts [] false) (Opts [] false) (Opts [] false)
             (Proxy [] 0 [] [] none) [] empty_url 0 [] [] new_cookies example_closed)
          blank (ScriptSock false [] []) true [] [] empty_url 0 5) socks_proxy_resolve None) false.

Lemma upload_correct_witness :
  let u := example_default_upload in
  let body := body_text (m_base_boundary u) ($"/tmp/a.TXT") ($"file") example_form example_data in
  exists u1 u2 u3 k line headers,
    upload_open (fun s => s) 1 20 ($"http://up.com/form") ($"/tmp/a.TXT") ($"file") example_form u = Ok (None, u1)
    /\ write_data example_data u1 = Ok (None, u2)
    /\ write_tail 20 u2 = Ok (None, u3)
    /\ m_status_code (upload_stream u3) = 200
    /\ sock_write (tail_text (m_base_boundary u)) (upload_sock u2) = (None, k)
    /\ script_sent k = [] ++ ($"POST " ++ line) ++ crlf ++ header_lines headers ++ crlf ++ body
    /\ In (http_options.content_length, itoa (size body)) headers
    /\ In (http_options.content_type, $"multipart/form-data; boundary=" ++ m_base_boundary u) headers.
Proof.
  apply (upload_correct (TL := script_transport_laws example_waiting_server) (fun s => s) 0 19 ($"http://up.com/form") ($"/tmp/a.TXT") ($"file")
           example_data example_form example_default_upload (Url ($"http") [] ($"up.com") [] ($"/form") [] [] false)
           (ScriptSock true [] (one_packet (continue_line ($"1") ($"1") ($"Continue")) ++ one_packet example_page))
           ($"1") ($"1") ($"200") ($"OK") [($"Server", $"x")] ($"Hello") new_cookies).
  - constructor; try reflexivity; [repeat constructor|eexists; split; reflexivity|].
    intros k text Hk. eexists. split; [reflexivity|exact Hk].
  - vm_compute. reflexivity.
  - reflexivity.
  - vm_compute. reflexivity.
  - unfold server_answers. change (u_fake_continue example_default_upload) with false. cbv iota. intros text k [= <-].
    exists ($"1"), ($"1"), ($"Continue"). do 2 eexists. split; [reflexivity|].
    repeat split; try discriminate; try reflexivity; repeat constructor.
  - constructor; repeat split; try discriminate; repeat constructor; discriminate.
  - cbn. lia.
  - reflexivity.
Defined.

Lemma open_coro_equivalent_witness :
  let u := set_boundary (boundary_line ($"b")) (set_form_args example_form (Upload _ _ _ (example_async []) [] ($"b") [] true)) in
  exists ec' u', (a ← open_coro ($"/tmp/a.TXT") ($"file") Opened (Some fake_continue);
                  run_coro 4 ($"/tmp/a.TXT") ($"file") a) u = Ok (ec', u')
    /\ (ec ← send_args example_form;
        match ec with
        | Some _ => mret ec
        | None => send_file ($"file") (leaf ($"/tmp/a.TXT")) (extension (leaf ($"/tmp/a.TXT")))
        end) u = Ok (end_code ec', u').
Proof.
  apply (open_coro_equivalent 4 ($"/tmp/a.TXT") ($"file") (Some fake_continue)
           (set_boundary (boundary_line ($"b")) (set_form_args example_form (Upload _ _ _ (example_async []) [] ($"b") [] true)))).
  - intros text k e k' [=].
  - reflexivity.
  - cbn. lia.
Defined.

(** When an object is used for a second upload, [request_options] gives back the
    headers of the first one, to which the new ones are added: the request has
    the length of both. *)
Theorem second_upload_headers {P : Platform} {N : Network} (fake : bool) (base : cstring) (n1 n2 : Z) (o : opts) (s : http_stream) :
  In (http_options.content_length, itoa n1) (m_opts o) ->
  let headers := request_headers (sync_options fake base n2 o) s in
  In (http_options.content_length, itoa n1) headers /\ In (http_options.content_length, itoa n2) headers.
Proof.
  intros H headers.
  assert (forall n, In (http_options.content_length, itoa n) (m_opts (sync_options fake base n2 o)) ->
    In (http_options.content_length, itoa n) headers) as Hin.
  { intros n Hn. unfold headers, request_headers. rewrite !in_app_iff. right. right. right. now apply in_other_options. }
  split; apply Hin; unfold sync_options; destruct fake; cbn [negb Settings.insert set_fake_continue m_opts m_fake_continue];
    rewrite !in_app_iff; cbn [In]; auto 6.
Qed.
