(* ===== verification/Httpd.v ===== *)
(** The HTTP server helpers: avhttpd/settings.hpp, avhttpd/error_code.hpp,
    avhttpd/read_request.hpp and avhttpd/write_reponse.hpp.

    [async_read_request] is a coroutine whose operations are reads of a line from
    one stream: it is the function [read_request] over the stream, its buffer and
    the options, in the class [Network] of HttpBody.v.  [async_write_response] is
    one writing function for each of the overloads.  Regular expressions are those
    of Regex.v; [read_request] runs on fuel, since a client can send headers
    without end ([Hang]). *)

From S2P Require Import Prelude CLib EscapeString Url Settings Cookie HttpParsers HttpBody HttpStream Regex.

(** ** Options *)

Module httpd_options.
Definition request_method : cstring := $"_request_method".
Definition request_uri : cstring := $"_request_uri".
Definition http_version : cstring := $"_http_version".
Definition request_body : cstring := $"_request_body".
Definition status_code : cstring := $"_status_code".
Definition path : cstring := $"_path".
Definition url : cstring := $"_url".
Definition host : cstring := $"Host".
Definition accept : cstring := $"Accept".
Definition range : cstring := $"Range".
Definition cookie : cstring := $"Cookie".
Definition referer : cstring := $"Referer".
Definition user_agent : cstring := $"User-Agent".
Definition content_type : cstring := $"Content-Type".
Definition content_length : cstring := $"Content-Length".
Definition content_range : cstring := $"Content-Range".
Definition connection : cstring := $"Connection".
Definition proxy_connection : cstring := $"Proxy-Connection".
Definition accept_encoding : cstring := $"Accept-Encoding".
Definition transfer_encoding : cstring := $"Transfer-Encoding".
Definition content_encoding : cstring := $"Content-Encoding".
End httpd_options.

(** [class option], which is its list. *)
Abbreviation hopts := option_item_list.

Definition opt_insert (key val : cstring) (o : hopts) : hopts := o ++ [(key, val)].

Fixpoint opt_remove (key : cstring) (o : hopts) : hopts :=
  match o with
  | [] => []
  | (k, v) :: o' => if str_eqb k key then o' else (k, v) :: opt_remove key o'
  end.

Fixpoint opt_find_lower (s : cstring) (o : hopts) : option cstring :=
  match o with
  | [] => None
  | (k, v) :: o' => if str_eqb (to_lower k) s then Some v else opt_find_lower s o'
  end.
(** [find(key, val)] and [find(key)]. *)
Definition opt_find (key : cstring) (o : hopts) : option cstring := opt_find_lower (to_lower key) o.
Definition opt_value (key : cstring) (o : hopts) : cstring := default [] (opt_find key o).

(** Names that are empty or begin with an underscore are not sent. *)
Definition sent_option (key : cstring) : bool :=
  match key with [] => false | c :: _ => negb (c =c "_") end.
Fixpoint opt_header_string (o : hopts) : cstring :=
  match o with
  | [] => []
  | (k, v) :: o' => (if sent_option k then k ++ $": " ++ v ++ crlf else []) ++ opt_header_string o'
  end.

Definition opt_clear (o : hopts) : hopts := [].
Definition opt_size (o : hopts) : Z := int32 (Z.of_nat (length o)).

(** ** Errors *)

Inductive httpd_error : Type :=
| malformed_request_line | invalid_request_method | header_missing_host | post_without_content
| malformed_request_headers | header_too_large | httpd_invalid_chunked_encoding | version_not_supported
| stream_error (e : error).

(** [error_category_impl::message]. *)
Definition errc_value (e : httpd_error) : option Z :=
  match e with
  | malformed_request_line => Some 1
  | invalid_request_method => Some 2
  | header_missing_host => Some 3
  | post_without_content => Some 4
  | malformed_request_headers => Some 5
  | header_too_large => Some 6
  | httpd_invalid_chunked_encoding => Some 7
  | version_not_supported => Some 505
  | stream_error _ => None
  end.

Definition errc_message (e : Z) : cstring :=
  if e =? 1 then $"Malformed request line"
  else if e =? 505 then $"version not supported"
  else if e =? 2 then $"invalid request method"
  else if e =? 3 then $"header missing host"
  else if e =? 5 then $"Malformed request headers"
  else if e =? 4 then $"HTTP POST without content length"
  else if e =? 6 then $"header too large"
  else if e =? 7 then $"Invalid chunked encoding"
  else $"Unknown HTTP error".

(** ** [async_read_request] *)

Definition to_upper (s : cstring) : cstring := map toupper s.

Definition space : ascii -> bool := fun c => c =c " ".

Definition request_re : regex :=
  Seq (Group (Plus isalpha)) (Seq (Plus space) (Seq (Group (Plus (not_char " ")))
    (Opt (Group (Seq (Plus space) (Group (Star any_char))))))).

Definition header_re : regex :=
  Seq (Group (Star (not_char ":"))) (lit ($":") (Seq (Star space) (Group (Star any_char)))).

Record reading `{Network} : Type := Reading { rd_sock : sock; rd_buf : cstring; rd_opts : hopts }.

Section Server.
Context `{N : Network} {E : RegexEngine}.
Variable asserts : bool.

Abbreviation R := (st reading fault).

Definition set_rd_opts (o : hopts) (s : reading) : reading := Reading _ (rd_sock s) (rd_buf s) o.
Definition set_rd_buf (b : cstring) (s : reading) : reading := Reading _ (rd_sock s) b (rd_opts s).

Definition add_opt (key val : cstring) : R () := st_modify (fun s => set_rd_opts (opt_insert key val (rd_opts s)) s).

(** [async_read_until(m_stream, m_strembuf, CRLF, *this)]. *)
Definition read_request_line : R (nat * error_code) :=
  s ← st_get;
  let '(n, ec, buf, k) := read_until_crlf (rd_buf s) (rd_sock s) in
  st_modify (fun s => Reading _ k buf (rd_opts s)) ;; mret (n, ec).

(** [sgetn]: [n] characters of the buffer. *)
Definition get_line (n : nat) : R cstring :=
  s ← st_get; st_modify (set_rd_buf (drop n (rd_buf s))) ;; mret (take n (rd_buf s)).

(** The request line without its line break; an error ends the operation. *)
Definition process_request_line (line : cstring) : R (option httpd_error) :=
  match regex_match request_re line with
  | None => mret (Some malformed_request_line)
  | Some what =>
      add_opt httpd_options.request_method (to_upper (sub_match what 0)) ;;
      add_opt httpd_options.request_uri (sub_match what 1) ;;
      match what !! 2%nat with
      | Some (Some v) =>
          let http_version := to_upper (trim_left_if isspace v) in
          add_opt httpd_options.http_version http_version ;;
          if negb (str_eqb http_version ($"HTTP/1.1")) && negb (str_eqb http_version ($"HTTP/1.0"))
          then mret (Some version_not_supported) else mret None
      | _ => add_opt httpd_options.http_version ($"HTTP/1.0") ;; mret None
      end
  end.

(** Behind the headers. *)
Definition check_request (ec : error_code) : R (option httpd_error) :=
  s ← st_get;
  let o := rd_opts s in
  if str_eqb (opt_value httpd_options.http_version o) ($"HTTP/1.1") && str_eqb (opt_value httpd_options.host o) []
  then mret (Some header_missing_host)
  else if str_eqb (opt_value httpd_options.request_method o) ($"POST") && str_eqb (opt_value httpd_options.content_length o) []
  then mret (Some post_without_content)
  else mret (stream_error <$> ec).

(** The loop over the headers, with what the last read returned. *)
Fixpoint read_headers (fuel : nat) (bytes_transferred : nat) (ec : error_code) : R (option httpd_error) :=
  if (2 <? bytes_transferred)%nat && (match ec with None => true | Some _ => false end) then
    match fuel with
    | O => st_fail Hang
    | S f =>
        text ← get_line bytes_transferred;
        match regex_match header_re (take (bytes_transferred - 2) text) with
        | None => mret (Some malformed_request_headers)
        | Some what =>
            add_opt (sub_match what 0) (sub_match what 1) ;;
            '(n, ec) ← read_request_line;
            read_headers f n ec
        end
    end
  else
    (if (bytes_transferred =? 2)%nat then
       text ← get_line 2;
       if asserts && negb (str_eqb text crlf) then st_fail AssertFailed else mret ()
     else mret ()) ;;
    check_request ec.

Definition read_request (fuel : nat) : R (option httpd_error) :=
  '(n, ec) ← read_request_line;
  match ec with
  | Some e => mret (Some (stream_error e))
  | None =>
      text ← get_line n;
      r ← process_request_line (take (n - 2) text);
      match r with
      | Some e => mret (Some e)
      | None => '(n, ec) ← read_request_line; read_headers fuel n ec
      end
  end.

(** ** [async_write_response] *)

Definition strstatus (status : Z) : cstring :=
  match status with
  | 200 => $"OK" | 201 => $"Created" | 202 => $"Accepted" | 203 => $"Non-authoritative information"
  | 204 => $"No content" | 205 => $"Reset content" | 206 => $"Partial content"
  | 300 => $"Multiple choices" | 301 => $"Moved permanently" | 302 => $"Found" | 303 => $"See other"
  | 304 => $"Not modified" | 305 => $"Use proxy" | 307 => $"Temporary redirect"
  | 400 => $"Bad request" | 401 => $"Unauthorized" | 402 => $"Payment required" | 403 => $"Forbidden"
  | 404 => $"Not found" | 405 => $"Method not allowed" | 406 => $"Not acceptable"
  | 407 => $"Proxy authentication required" | 408 => $"Request time-out" | 409 => $"Conflict" | 410 => $"Gone"
  | 411 => $"Length required" | 412 => $"Precondition failed" | 413 => $"Request entity too large"
  | 414 => $"Request URI too large" | 415 => $"Unsupported media type"
  | 416 => $"Requested range not satisfiable" | 417 => $"Expectation failed"
  | 500 => $"Internal server error" | 501 => $"Not implemented" | 502 => $"Bad gateway"
  | 503 => $"Service unavailable" | 504 => $"Gateway time-out" | 505 => $"HTTP version not supported"
  | _ => $"bad code"
  end.

(** The text that [async_write_response_op] writes. *)
Definition response_head (status : Z) (o : hopts) : cstring :=
  let version := if str_eqb (opt_value httpd_options.http_version o) ($"HTTP/1.1") then $"HTTP/1.1 " else $"HTTP " in
  let o := opt_remove httpd_options.http_version o in
  version ++ itoa status ++ $" " ++ strstatus status ++ crlf
  ++ (if negb (opt_size o =? 0) then opt_header_string o else []) ++ crlf.

(** [async_write_response_op]: the error that the handler gets. *)
Definition write_response (status : Z) (o : hopts) (k : sock) : error_code * sock := sock_write (response_head status o) k.

(** [async_write_response_with_body_op]: the first write calls [operator()] with
    two arguments, which is not the one that writes [buffers]. *)
Definition write_response_with_body (status : Z) (o : hopts) (buffers : cstring) (k : sock) : error_code * sock :=
  write_response status o k.

(** [async_write_response_with_streambuf_op]: [coro] tells the two calls apart. *)
Definition write_response_with_streambuf (status : Z) (o : hopts) (streambuf : cstring) (k : sock) : error_code * sock :=
  let '(_, k) := write_response status o k in sock_write streambuf k.
End Server.

(** ** Lemmas *)

Section Facts.
Context {N : Network} {L : NetworkLaws N} {E : RegexEngine} {EL : RegexLaws E}.
Variable asserts : bool.

(** What the client still sends. *)
Definition rd_input (s : reading) : cstring := rd_buf s ++ incoming (rd_sock s).

Lemma read_line_get line rest s :
  free_of [LF] line -> rd_input s = line ++ crlf ++ rest ->
  exists buf k, read_request_line s = Ok (((length line + 2)%nat, None), Reading _ k (line ++ crlf ++ buf) (rd_opts s))
    /\ buf ++ incoming k = rest.
Proof.
  intros Hl Hi. pose proof (crlf_end_line line rest Hl) as Ec. unfold rd_input in Hi. rewrite <- Hi in Ec.
  destruct (read_until_found _ _ _ Ec) as (buf & k & Er & Hb & Hn). rewrite Hi, app_assoc in Hb.
  destruct (app_split buf (incoming k) (line ++ crlf) rest Hb) as (r & -> & Hr).
  { rewrite length_app. cbn [crlf length]. lia. }
  exists r, k. split; [|exact Hr]. unfold read_request_line. run. rewrite Er. now rewrite <- app_assoc.
Qed.

Lemma get_line_run line k buf o :
  get_line (length line + 2) (Reading _ k (line ++ crlf ++ buf) o) = Ok (line ++ crlf, Reading _ k buf o).
Proof.
  unfold get_line. run. cbn [rd_buf set_rd_buf rd_sock rd_opts].
  assert (length line + 2 = length (line ++ crlf))%nat as -> by (rewrite length_app; reflexivity).
  now rewrite (app_assoc line), take_app_length, drop_app_length.
Qed.

Lemma line_of (line : cstring) : take (length line + 2 - 2) (line ++ crlf) = line.
Proof. rewrite Nat.add_sub. apply take_app_length. Qed.

(** A text that does not begin with a space. *)
Definition no_space (s : cstring) : Prop := match s with [] => True | c :: _ => space c = false end.

Lemma request_match m u v :
  m <> [] -> Forall (fun c => isalpha c = true) m -> u <> [] -> Forall (fun c => not_char " " c = true) u -> no_space v ->
  regex_match request_re (m ++ $" " ++ u ++ $" " ++ v) = Some [Some m; Some u; Some ($" " ++ v); Some v].
Proof.
  intros Hm Ha Hu Hs Hv. rewrite regex_match_perl. unfold perl_match, request_re.
  rewrite match_at_seq. apply match_group_plus; [exact Ha|exact Hm|reflexivity|].
  rewrite match_at_seq. apply (match_plus space ($" ")); [repeat constructor|discriminate| |].
  { destruct u as [|c u]; [congruence|]. inversion_clear Hs as [|? ? Hc _]. unfold not_char in Hc. cbn. unfold space.
    now destruct (c =c " "). }
  rewrite match_at_seq. apply match_group_plus; [exact Hs|exact Hu|reflexivity|].
  apply match_opt. rewrite match_group, match_at_seq.
  apply (match_plus space ($" ")); [repeat constructor|discriminate|exact Hv|].
  rewrite match_group. now apply match_all.
Qed.

Lemma header_match name value :
  Forall (fun c => not_char ":" c = true) name -> no_space value ->
  regex_match header_re (name ++ $": " ++ value) = Some [Some name; Some value].
Proof.
  intros Hn Hv. rewrite regex_match_perl. unfold perl_match, header_re.
  rewrite match_at_seq, match_group. apply match_star; [exact Hn|reflexivity|].
  change ($": " ++ value) with ($":" ++ $" " ++ value). rewrite match_at_lit, match_at_seq.
  apply match_star; [repeat constructor|exact Hv|]. rewrite match_group. now apply match_all.
Qed.

(** *** Reading a request *)

Record wf_request (method uri version : cstring) : Prop := {
  wf_method : method <> [] /\ Forall (fun c => isalpha c = true) method;
  wf_uri : uri <> [] /\ Forall (fun c => not_char " " c = true) uri /\ free_of [LF] uri;
  wf_version : version = $"HTTP/1.1" \/ version = $"HTTP/1.0"
}.

(** The options of a request. *)
Definition request_items (method uri version : cstring) (hs : option_item_list) : hopts :=
  [(httpd_options.request_method, to_upper method); (httpd_options.request_uri, uri);
   (httpd_options.http_version, version)] ++ hs.

Lemma process_request_line_run method uri version s :
  wf_request method uri version ->
  process_request_line (method ++ $" " ++ uri ++ $" " ++ version) s
  = Ok (None, set_rd_opts (rd_opts s ++ request_items method uri version []) s).
Proof.
  intros [[Hm Ha] (Hu & Hs & _) Hv]. unfold process_request_line.
  rewrite request_match by (try assumption; now destruct Hv as [-> | ->]).
  destruct s as [k b o]. unfold add_opt, opt_insert. run.
  cbn [lookup list_lookup sub_match rd_opts set_rd_opts rd_sock rd_buf].
  destruct Hv as [-> | ->]; unfold request_items; cbn [app];
    change (trim_left_if isspace _) with ($"HTTP/1.1") || change (trim_left_if isspace _) with ($"HTTP/1.0");
    rewrite <- !app_assoc; reflexivity.
Qed.

Lemma name_not_colon name : Forall (fun c => HeadersFacts.name_char c = true) name -> Forall (fun c => not_char ":" c = true) name.
Proof.
  intros H. eapply Forall_impl; [exact H|]. intros c Hc. unfold not_char.
  apply HeadersFacts.name_char_facts in Hc as (_ & Hc & _). now rewrite Hc.
Qed.

Lemma trim_no_space v : trim v = v -> no_space v.
Proof.
  destruct v as [|c v]; [easy|]. intros H. cbn. destruct (space c) eqn:Ec; [|reflexivity]. exfalso.
  assert (isspace c = true) as Hc by (unfold space in Ec; apply Ascii.eqb_eq in Ec; now subst c).
  assert (length (trim (c :: v)) <= length v)%nat; [|rewrite H in *; cbn [length] in *; lia].
  unfold trim, trim_right_if, trim_left_if. cbn [drop_while]. rewrite Hc, length_rev.
  etransitivity; [apply drop_while_length|]. rewrite length_rev. apply drop_while_length.
Qed.

(** The headers, up to the empty line. *)
Lemma read_headers_run hs : forall fuel s rest,
  Forall HeadersFacts.wf_header hs -> (length hs < fuel)%nat -> rd_input s = header_lines hs ++ crlf ++ rest ->
  exists buf k, ('(n, ec) ← read_request_line; read_headers asserts fuel n ec) s
    = check_request None (Reading _ k buf (rd_opts s ++ hs)) /\ buf ++ incoming k = rest.
Proof.
  induction hs as [|[name value] hs IH]; intros fuel s rest Hw Hf Hi; cbn [length] in Hf.
  - destruct (read_line_get [] rest s) as (buf & k & Er & Hb); [apply List.Forall_nil|exact Hi|].
    rewrite (bind_ok _ _ _ _ _ Er). exists buf, k. split; [|exact Hb]. destruct fuel as [|fuel]; [lia|].
    cbn [length Nat.add read_headers Nat.ltb Nat.leb andb Nat.eqb]. rewrite app_nil_r.
    rewrite (bind_ok _ _ _ () (Reading _ k buf (rd_opts s))); [reflexivity|].
    rewrite (bind_ok _ _ _ _ _ (get_line_run [] k buf (rd_opts s))). cbn [app]. rewrite str_eqb_refl, andb_false_r. reflexivity.
  - apply Forall_cons_1 in Hw as [(Hne & Hn & Hs & Hv & Ht) Hw']. cbn [fst snd] in *. apply str_eqb_neq in Hs.
    cbn [header_lines] in Hi. rewrite Hs in Hi. cbn [negb] in Hi. set (line := name ++ $": " ++ value).
    assert (rd_input s = line ++ crlf ++ header_lines hs ++ crlf ++ rest) as Hi' by (rewrite Hi; unfold line; now rewrite <- !app_assoc).
    assert (free_of [LF] line) as Hl.
    { apply ctl_free_lf. unfold line. rewrite !Forall_app. repeat split; [|repeat constructor|exact Hv].
      eapply Forall_impl; [exact Hn|]. apply name_char_ctl. }
    destruct (read_line_get line _ s Hl Hi') as (buf & k & Er & Hb). rewrite (bind_ok _ _ _ _ _ Er).
    destruct fuel as [|fuel]; [lia|]. cbn [read_headers].
    assert ((2 <? length line + 2)%nat = true) as -> by (apply Nat.ltb_lt; unfold line; rewrite !length_app; cbn [length list_ascii_of_string]; lia).
    cbn [andb]. rewrite (bind_ok _ _ _ _ _ (get_line_run line k buf (rd_opts s))), line_of. unfold line at 1.
    rewrite header_match by (auto using name_not_colon, trim_no_space).
    set (s1 := Reading _ k buf (rd_opts s ++ [(name, value)])).
    rewrite (bind_ok _ _ _ () s1) by reflexivity.
    destruct (IH fuel s1 rest Hw' ltac:(lia) Hb) as (buf' & k' & E' & Hb'). exists buf', k'. split; [|exact Hb'].
    rewrite E'. unfold s1. cbn [rd_opts]. now rewrite <- app_assoc.
Qed.

(** A whole request. *)
Lemma read_request_run method uri version hs fuel s rest :
  wf_request method uri version -> Forall HeadersFacts.wf_header hs -> (length hs < fuel)%nat ->
  rd_input s = (method ++ $" " ++ uri ++ $" " ++ version) ++ crlf ++ header_lines hs ++ crlf ++ rest ->
  exists buf k, read_request asserts fuel s
    = check_request None (Reading _ k buf (rd_opts s ++ request_items method uri version hs)) /\ buf ++ incoming k = rest.
Proof.
  intros Hw Hh Hf Hi. set (line := method ++ $" " ++ uri ++ $" " ++ version) in *.
  assert (free_of [LF] line) as Hl.
  { destruct Hw as [[_ Ha] (_ & _ & Hu) Hv]. unfold line. unfold free_of in *. rewrite !Forall_app.
    repeat split; [|repeat constructor|exact Hu|repeat constructor|destruct Hv as [-> | ->]; repeat constructor].
    eapply Forall_impl; [exact Ha|]. intros c Hc. unfold mem_char. cbn [existsb].
    destruct (Ascii.eqb_spec c LF) as [->|Hne]; [discriminate|reflexivity]. }
  destruct (read_line_get line _ s Hl Hi) as (buf & k & Er & Hb). unfold read_request. rewrite (bind_ok _ _ _ _ _ Er).
  rewrite (bind_ok _ _ _ _ _ (get_line_run line k buf (rd_opts s))), line_of.
  rewrite (bind_ok _ _ _ _ _ (process_request_line_run method uri version _ Hw)).
  destruct (read_headers_run hs fuel (Reading _ k buf (rd_opts s ++ request_items method uri version [])) rest Hh Hf Hb)
    as (buf' & k' & E' & Hb'). exists buf', k'. split; [|exact Hb'].
  cbn [rd_opts] in E'. rewrite <- app_assoc in E'. exact E'.
Qed.

(** Requests that the last checks accept. *)
Lemma request_accepted method uri version hs k buf :
  opt_value httpd_options.host hs <> [] -> to_upper method <> $"POST" \/ opt_value httpd_options.content_length hs <> [] ->
  let s := Reading _ k buf (request_items method uri version hs) in
  check_request None s = Ok (None, s).
Proof.
  intros Hhost Hpost s. unfold check_request. run. unfold s. cbn [rd_opts].
  change (opt_value httpd_options.host (request_items method uri version hs)) with (opt_value httpd_options.host hs).
  change (opt_value httpd_options.request_method (request_items method uri version hs)) with (to_upper method).
  change (opt_value httpd_options.content_length (request_items method uri version hs))
    with (opt_value httpd_options.content_length hs).
  apply str_eqb_neq in Hhost. rewrite Hhost, andb_false_r.
  destruct Hpost as [Hp|Hp]; apply str_eqb_neq in Hp; rewrite Hp, ?andb_false_r; reflexivity.
Qed.
End Facts.

(** *** Writing a response *)

(** The statuses that [strstatus] knows. *)
Definition statuses : list Z :=
  [200; 201; 202; 203; 204; 205; 206; 300; 301; 302; 303; 304; 305; 307; 400; 401; 402; 403; 404; 405; 406; 407; 408;
   409; 410; 411; 412; 413; 414; 415; 416; 417; 500; 501; 502; 503; 504; 505].

(** Headers that are sent, and that the client reads back. *)
Definition wf_headers_sent (hs : hopts) : Prop :=
  Forall (fun kv => sent_option (fst kv) = true /\ HeadersFacts.wf_header kv) hs /\ Z.of_nat (length hs) < 2 ^ 31.

Lemma opt_header_string_lines hs :
  Forall (fun kv => sent_option (fst kv) = true /\ HeadersFacts.wf_header kv) hs -> opt_header_string hs = header_lines hs.
Proof.
  induction 1 as [|[k v] hs [Hs (_ & _ & Hk & _)] _ IH]; [reflexivity|]. cbn [fst] in *. apply str_eqb_neq in Hk.
  cbn [opt_header_string header_lines]. now rewrite Hs, Hk, IH.
Qed.

Lemma response_head_text status o :
  opt_value httpd_options.http_version o = $"HTTP/1.1" -> wf_headers_sent (opt_remove httpd_options.http_version o) ->
  response_head status o
  = response_text ($"1") ($"1") (itoa status) (strstatus status) (opt_remove httpd_options.http_version o) [].
Proof.
  intros Hv [Hh Hl]. unfold response_head. rewrite Hv, str_eqb_refl. set (hs := opt_remove _ o) in *.
  rewrite (opt_header_string_lines hs Hh). unfold response_text. rewrite app_nil_r.
  change ($"HTTP/1.1 ") with ($"HTTP/" ++ $"1" ++ $"." ++ $"1" ++ $" "). rewrite <- !app_assoc. do 9 f_equal.
  destruct (Z.eqb_spec (opt_size hs) 0) as [E0|E0]; [|reflexivity]. cbn [negb]. destruct hs as [|h hs]; [reflexivity|].
  unfold opt_size in E0. rewrite wraps_id in E0; cbn [length] in *; lia.
Qed.

Lemma response_wf status hs :
  In status statuses -> Forall HeadersFacts.wf_header hs ->
  wf_response ($"1") ($"1") (itoa status) (strstatus status) hs /\ int32 (dec_value (itoa status)) = status.
Proof.
  intros Hs Hh. unfold statuses in Hs. cbn [In] in Hs.
  repeat destruct Hs as [<-|Hs]; try contradiction;
    (split; [constructor; [repeat split; discriminate|repeat split; repeat constructor|repeat constructor|exact Hh|vm_compute; discriminate]
            |reflexivity]).
Qed.

(** ** Properties *)

(** A request is read as it was sent.  However the network splits it, a
    well-formed request leaves its method (in capitals), its URI, its version and
    its headers in the options, in order, and the text behind it in the buffer
    or the network; the result is no error, except that a request of version 1.1
    without a Host and a POST without a length are refused. *)
Theorem read_request_correct {N : Network} {L : NetworkLaws N} {E : RegexEngine} {EL : RegexLaws E} (asserts : bool)
    (fuel : nat) (method uri version rest : cstring) (hs : option_item_list) (s : reading) :
  wf_request method uri version -> Forall HeadersFacts.wf_header hs -> (length hs < fuel)%nat ->
  rd_input s = (method ++ $" " ++ uri ++ $" " ++ version) ++ crlf ++ header_lines hs ++ crlf ++ rest ->
  rd_opts s = [] ->
  exists s', read_request asserts fuel s
    = Ok ((if str_eqb version ($"HTTP/1.1") && str_eqb (opt_value httpd_options.host hs) [] then Some header_missing_host
           else if str_eqb (to_upper method) ($"POST") && str_eqb (opt_value httpd_options.content_length hs) []
           then Some post_without_content else None), s')
    /\ rd_opts s' = request_items method uri version hs /\ rd_input s' = rest.
Proof.
  intros Hw Hh Hf Hi Ho. destruct (read_request_run asserts method uri version hs fuel s rest Hw Hh Hf Hi) as (buf & k & Er & Hb).
  rewrite Er, Ho. exists (Reading _ k buf (request_items method uri version hs)). cbn [app].
  split; [|split; [reflexivity|exact Hb]]. unfold check_request. run. cbn [rd_opts].
  change (opt_value httpd_options.http_version (request_items method uri version hs)) with version.
  change (opt_value httpd_options.request_method (request_items method uri version hs)) with (to_upper method).
  change (opt_value httpd_options.host (request_items method uri version hs)) with (opt_value httpd_options.host hs).
  change (opt_value httpd_options.content_length (request_items method uri version hs))
    with (opt_value httpd_options.content_length hs).
  destruct (_ && _); [reflexivity|]. now destruct (_ && _).
Qed.

(** C31: client and server understand each other.  The server reads the
    request that [http_stream::request] sends, however the network splits it:
    method, URI, version and all headers arrive, the body is left to be read.
    The response that [async_write_response] sends for a request of version 1.1,
    with a status that it knows, is accepted by the client: [request] returns
    the code of that status, the headers arrive, the body is left to be read. *)
Theorem client_server {P : Platform} {N1 N2 : Network} {L1 : NetworkLaws N1} {L2 : NetworkLaws N2} {E : RegexEngine} {EL : RegexLaws E}
    (asserts : bool) (base64_text : cstring -> cstring) (fuel : nat) (o : opts) (c : http_stream (H0 := N1)) (k : sock (Network := N1))
    (sv : reading (H := N2)) (status : Z) (ro : hopts) (body : cstring) (j : cookies) :
  sends_request o c k ->
  let method := option_value http_options.request_method ($"GET") o in
  let uri := to_string (Z.lor (Z.lor path_component query_component) fragment_component) (m_url c) in
  let version := option_value http_options.http_version ($"HTTP/1.1") o in
  let hs := request_headers o c in
  wf_request method uri version -> Forall HeadersFacts.wf_header hs -> (length hs < fuel)%nat ->
  opt_value httpd_options.host hs <> [] -> to_upper method <> $"POST" \/ opt_value httpd_options.content_length hs <> [] ->
  rd_opts sv = [] -> rd_input sv = request_text o c ->
  In status statuses -> opt_value httpd_options.http_version ro = $"HTTP/1.1" ->
  let answer := opt_remove httpd_options.http_version ro in
  wf_headers_sent answer -> (length answer < fuel)%nat ->
  incoming k = response_head status ro ++ body -> add_cookies (response_items status answer) (m_jar c) = Ok j ->
  exists sv' c', read_request asserts fuel sv = Ok (None, sv')
    /\ rd_opts sv' = request_items method uri version hs
    /\ rd_input sv' = option_value http_options.request_body [] o
    /\ request base64_text fuel o c = Ok (status_code_error status, c')
    /\ m_status_code c' = status /\ m_opts (m_response_opts c') = response_items status answer
    /\ stream_input c' = body.
Proof.
  intros Hs method uri version hs Hw Hh Hf Hhost Hpost Ho Hi Hst Hv answer Ha Hfa Hk Hj.
  destruct (read_request_run asserts method uri version hs fuel sv (option_value http_options.request_body [] o) Hw Hh Hf)
    as (buf & k' & Er & Hb).
  { rewrite Hi. unfold request_text, request_line. fold method uri version hs. now rewrite <- !app_assoc. }
  destruct (response_wf status answer Hst) as [Wr Es]; [eapply Forall_impl; [exact (proj1 Ha)|now intros ? [_ ?]]|].
  rewrite <- Es in Hj.
  destruct (exchange_run base64_text fuel o c k ($"1") ($"1") (itoa status) (strstatus status) answer body j Hs Wr Hfa)
    as (ro' & c' & Ec & R & _); [|exact Hj|].
  { rewrite Hk, (response_head_text status ro Hv Ha). unfold response_text. now rewrite app_nil_r, <- !app_assoc. }
  rewrite Es in Ec, R. exists (Reading _ k' buf (request_items method uri version hs)), c'.
  split.
  { rewrite Er, Ho. now apply request_accepted. }
  split; [reflexivity|]. split; [exact Hb|]. split; [exact Ec|]. destruct R as [R1 R2 _ _ _ _ R3 _ _]. auto.
Qed.

(** A response to a request that is not of version 1.1, and every response
    without options, begins with "HTTP" and the status: the client's parser of
    status lines rejects it. *)
Theorem response_without_version (status : Z) (o : hopts) (rest : cstring) :
  opt_value httpd_options.http_version o <> $"HTTP/1.1" ->
  fst (parse_http_status_line (response_head status o ++ rest) 0 0 0) = false.
Proof.
  intros Hv. apply str_eqb_neq in Hv. unfold response_head. rewrite Hv, <- !app_assoc.
  match goal with |- context [$"HTTP " ++ ?t] => now destruct t end.
Qed.

(** A client on an open connection, and a server that gets its request in two
    packets. *)
Definition example_answer : hopts :=
  [($"Content-Type", $"text/plain"); ($"Content-Length", $"2"); (httpd_options.http_version, $"HTTP/1.1")].
Definition example_client : http_stream (H := example_platform) (H0 := packet_network) :=
  example_stream 0 [$"HTTP/1.1 200 O"; $"K" ++ crlf ++ $"Content-Type: text/plain" ++ crlf ++ $"Content-Length: 2" ++ crlf ++ crlf ++ $"ok"].
Definition example_request : reading (H := packet_network) :=
  Reading packet_network
    (example_packet ($"GET /a?q=1 HTTP/1.1" ++ crlf ++ $"Ho")
     ++ example_packet ($"st: example.com" ++ crlf ++ $"Accept: text/html, application/xhtml+xml, */*" ++ crlf
          ++ $"User-Agent: avhttp/2.9.9" ++ crlf ++ $"Connection: close" ++ crlf ++ crlf)) [] [].

Lemma client_server_witness :
  exists sv' c', read_request true 20 example_request = Ok (None, sv')
    /\ rd_opts sv' = request_items ($"GET") ($"/a?q=1") ($"HTTP/1.1") (request_headers (Opts [] false) example_client)
    /\ rd_input sv' = []
    /\ request (fun s => s) 20 (Opts [] false) example_client = Ok (None, c')
    /\ m_status_code c' = 200
    /\ m_opts (m_response_opts c') = response_items 200 [($"Content-Type", $"text/plain"); ($"Content-Length", $"2")]
    /\ stream_input c' = $"ok".
Proof.
  apply (client_server true (fun s => s) 20 (Opts [] false) example_client (m_sock (m_body example_client)) example_request
           200 example_answer ($"ok") new_cookies).
  - constructor; reflexivity.
  - constructor; [split; [discriminate|repeat constructor]|repeat split; [discriminate|repeat constructor..]|now left].
  - repeat (constructor; [repeat split; try discriminate; repeat constructor|]). constructor.
  - cbn. lia.
  - discriminate.
  - left. discriminate.
  - reflexivity.
  - vm_compute. reflexivity.
  - now left.
  - reflexivity.
  - split; [|cbn; lia]. repeat (constructor; [repeat split; try discriminate; repeat constructor|]). constructor.
  - cbn. lia.
  - vm_compute. reflexivity.
  - reflexivity.
Defined.

Lemma read_request_correct_witness :
  let s := Reading packet_network (example_packet ($"post /rpc HTTP/1.1" ++ crlf ++ $"Host: h" ++ crlf ++ crlf ++ $"x")) [] [] in
  exists s', read_request true 20 s = Ok (Some post_without_content, s')
    /\ rd_opts s' = request_items ($"post") ($"/rpc") ($"HTTP/1.1") [($"Host", $"h")] /\ rd_input s' = $"x".
Proof.
  apply (read_request_correct true 20 ($"post") ($"/rpc") ($"HTTP/1.1") ($"x") [($"Host", $"h")]
           (Reading packet_network (example_packet ($"post /rpc HTTP/1.1" ++ crlf ++ $"Host: h" ++ crlf ++ crlf ++ $"x")) [] [])).
  - constructor; [split; [discriminate|repeat constructor]|repeat split; [discriminate|repeat constructor..]|now left].
  - repeat (constructor; [repeat split; try discriminate; repeat constructor|]). constructor.
  - cbn. lia.
  - vm_compute. reflexivity.
  - reflexivity.
Defined.
