(* ===== verification/PTree.v ===== *)
(** Property trees, the messages of the bot: [boost::property_tree::ptree] is
    data with an ordered list of named children; a path is a text whose parts
    are separated by dots. *)

From S2P Require Import Prelude CLib.

Set Warnings "-register-all".

Inductive ptree : Type := PTree (data : cstring) (children : list (cstring * ptree)).

Definition pt_data (t : ptree) : cstring := let 'PTree d _ := t in d.
Definition pt_children (t : ptree) : list (cstring * ptree) := let 'PTree _ l := t in l.
Definition pt_value (s : cstring) : ptree := PTree s [].
Definition empty_tree : ptree := PTree [] [].

(** [push_back]. *)
Definition push_child (kv : cstring * ptree) (t : ptree) : ptree := PTree (pt_data t) (pt_children t ++ [kv]).

Fixpoint split_on (sep : ascii) (s : cstring) : list cstring :=
  match s with
  | [] => [[]]
  | c :: s' =>
      if c =c sep then [] :: split_on sep s'
      else match split_on sep s' with [] => [[c]] | w :: ws => (c :: w) :: ws end
  end.

(** [find]: the first child of that name. *)
Definition find_child (k : cstring) (l : list (cstring * ptree)) : option ptree :=
  snd <$> List.find (fun kv => str_eqb (fst kv) k) l.

(** The first child of that name replaced, or a new one. *)
Fixpoint update_child (k : cstring) (f : option ptree -> ptree) (l : list (cstring * ptree)) : list (cstring * ptree) :=
  match l with
  | [] => [(k, f None)]
  | (k', t) :: l' => if str_eqb k' k then (k', f (Some t)) :: l' else (k', t) :: update_child k f l'
  end.

Fixpoint walk (ks : list cstring) (t : ptree) : option ptree :=
  match ks with
  | [] => Some t
  | k :: ks' => match find_child k (pt_children t) with Some c => walk ks' c | None => None end
  end.

Definition path (s : cstring) : list cstring := match s with [] => [] | _ => split_on "." s end.

(** [get_child]; the absence of the path is the exception [ptree_bad_path]. *)
Definition get_child (p : cstring) (t : ptree) : option ptree := walk (path p) t.
(** [get<std::string>(path)] and [get<std::string>(path, default)]. *)
Definition pt_get (p : cstring) (t : ptree) : option cstring := pt_data <$> get_child p t.
Definition pt_get_or (p d : cstring) (t : ptree) : cstring := default d (pt_get p t).

(** [get<int>]: the whole text is a number, with white space around it. *)
Definition stream_int (s : cstring) : option Z :=
  let '(sign, rest) := strtol_sign (drop_while isspace s) in
  let '(ds, rest) := span isdigit rest in
  let n := if (sign : bool) then - dec_value ds else dec_value ds in
  match ds with
  | [] => None
  | _ => if forallb isspace rest && (- 2 ^ 31 <=? n) && (n <? 2 ^ 31) then Some n else None
  end.
(** [boost::lexical_cast<int>]: a sign and digits. *)
Definition lexical_int (s : cstring) : option Z :=
  let '(neg, ds) := strtol_sign s in
  let n := if (neg : bool) then - dec_value ds else dec_value ds in
  if forallb isdigit ds && negb (str_eqb ds []) && (- 2 ^ 31 <=? n) && (n <? 2 ^ 31) then Some n else None.
(** [boost::lexical_cast<unsigned int>]: a sign and digits. *)
Definition lexical_uint (s : cstring) : option Z :=
  let '(neg, ds) := strtol_sign s in
  if forallb isdigit ds && negb (str_eqb ds []) && (dec_value ds <? 2 ^ 32)
  then Some (wrapu 32 (if (neg : bool) then - dec_value ds else dec_value ds)) else None.
(** [force_path], then [f] on the parent with the last part of the path. *)
Fixpoint force_path (ks : list cstring) (f : cstring -> ptree -> ptree) (t : ptree) : ptree :=
  match ks with
  | [] => f [] t
  | [k] => f k t
  | k :: ks' =>
      PTree (pt_data t)
        (update_child k (fun o => force_path ks' f (default empty_tree o)) (pt_children t))
  end.

(** [put]: the data of the node at the path; [add] and [add_child]: always a new
    child. *)
Definition put (p v : cstring) (t : ptree) : ptree :=
  force_path (path p)
    (fun k t => PTree (pt_data t)
                  (update_child k (fun o => match o with Some c => PTree v (pt_children c) | None => pt_value v end)
                     (pt_children t))) t.
Definition add_child (p : cstring) (c : ptree) (t : ptree) : ptree := force_path (path p) (fun k => push_child (k, c)) t.
Definition add (p v : cstring) (t : ptree) : ptree := add_child p (pt_value v) t.

(** ** Induction over trees *)

Section PTreeInd.
Variable P : ptree -> Prop.
Hypothesis Hnode : forall d l, Forall (fun kv => P (snd kv)) l -> P (PTree d l).

Fixpoint ptree_ind' (t : ptree) : P t :=
  match t with
  | PTree d l =>
      Hnode d l ((fix go l : Forall (fun kv => P (snd kv)) l :=
                    match l with
                    | [] => @List.Forall_nil _ (fun kv => P (snd kv))
                    | x :: l' => @List.Forall_cons _ (fun kv => P (snd kv)) x l' (ptree_ind' (snd x)) (go l')
                    end) l)
  end.
End PTreeInd.

(** ** Reading what was put *)

Lemma find_update_same k f l : find_child k (update_child k f l) = Some (f (find_child k l)).
Proof.
  unfold find_child. induction l as [|[k' t] l IH]; cbn [update_child List.find fst]; [now rewrite str_eqb_refl|].
  destruct (str_eqb k' k) eqn:Ek; cbn [List.find fst]; now rewrite Ek.
Qed.

Lemma find_update_other k k' f l : k' <> k -> find_child k' (update_child k f l) = find_child k' l.
Proof.
  intros Hk. unfold find_child. induction l as [|[k1 t] l IH]; cbn [update_child List.find fst].
  - destruct (str_eqb_spec k k'); [congruence|reflexivity].
  - destruct (str_eqb_spec k1 k) as [->|H1]; cbn [List.find fst].
    + destruct (str_eqb_spec k k'); [congruence|reflexivity].
    + destruct (str_eqb k1 k'); [reflexivity|exact IH].
Qed.

Lemma walk_put v ks : ks <> [] -> forall t,
  pt_data <$> walk ks (force_path ks (fun k t => PTree (pt_data t)
    (update_child k (fun o => match o with Some c => PTree v (pt_children c) | None => pt_value v end) (pt_children t))) t) = Some v.
Proof.
  induction ks as [|k ks IH]; [congruence|]. intros _ t. destruct ks as [|k' ks]; cbn [force_path walk pt_children]; rewrite find_update_same.
  - cbn. now destruct (find_child k (pt_children t)).
  - now apply IH.
Qed.

(** [get] after [put] gives the value. *)
Lemma get_put p v t : path p <> [] -> pt_get p (put p v t) = Some v.
Proof. intros Hp. unfold pt_get, get_child, put. now apply walk_put. Qed.
