(* ===== verification/Json.v ===== *)
(** JSON, the text of the bot's messages: avboost json_parser_write.hpp
    ([write_json]) and json_parser_read.hpp ([read_json]).

    The reader is a grammar of Boost.Spirit (classic): a parser is a function on
    the scanner that tells whether it matched; what its semantic actions did to
    the context stays when it did not.  [expect] throws.  A pointer on the stack
    of the context is a node that is reached from the root through last children,
    so the stack is its depth.  Comments are the class [Comments]. *)

From S2P Require Import Prelude CLib PTree.

Definition quote_char : ascii := "034"%char.
Definition backslash : ascii := "092"%char.

(** ** Writing *)

Definition hexdigit (n : Z) : ascii := nth (Z.to_nat n) ($"0123456789ABCDEF") NUL.

Definition create_escape (c : ascii) : cstring :=
  let u := uchar c in
  if (u =? 32) || (u =? 33) || (35 <=? u) && (u <=? 46) || (48 <=? u) && (u <=? 91) || (93 <=? u) && (u <=? 255)
     || (-128 <=? schar c) && (schar c <? 0)
  then [c]
  else if u =? 8 then [backslash; "b"%char]
  else if u =? 12 then [backslash; "f"%char]
  else if u =? 10 then [backslash; "n"%char]
  else if u =? 13 then [backslash; "r"%char]
  else if c =c "/" then [backslash; "/"%char]
  else if c =c quote_char then [backslash; quote_char]
  else if c =c backslash then [backslash; backslash]
  else
    let u := Z.min u 65535 in
    let d1 := u / 4096 in let u := u - d1 * 4096 in
    let d2 := u / 256 in let u := u - d2 * 256 in
    let d3 := u / 16 in let d4 := u - d3 * 16 in
    [backslash; "u"%char; hexdigit d1; hexdigit d2; hexdigit d3; hexdigit d4].

Definition create_escapes (s : cstring) : cstring := concat (map create_escape s).

Definition spaces (n : nat) : cstring := repeat " "%char n.
Definition json_string (s : cstring) : cstring := [quote_char] ++ create_escapes s ++ [quote_char].

Section Write.
Variable pretty : bool.

Definition newline : cstring := if pretty then [LF] else [].
Definition indentation (indent : nat) : cstring := if pretty then spaces (4 * indent) else [].
Definition comma {A} (l : list A) : cstring := match l with [] => [] | _ => $"," end.

(** [pt.count(Str()) == pt.size()]. *)
Definition is_array (l : list (cstring * ptree)) : bool := forallb (fun kv => str_eqb (fst kv) []) l.

(** What stands between the colon and a value. *)
Definition before_value (indent : nat) (t : ptree) : cstring :=
  if pretty then match pt_children t with [] => $" " | _ => [LF] ++ spaces (4 * (indent + 1)) end else [].

Fixpoint write_json_helper (indent : nat) (t : ptree) : cstring :=
  let 'PTree data children := t in
  if (0 <? indent)%nat && (match children with [] => true | _ => false end) then json_string data
  else if (0 <? indent)%nat && is_array children then
    $"[" ++ newline
    ++ (fix items (l : list (cstring * ptree)) : cstring :=
          match l with
          | [] => []
          | (_, v) :: l' =>
              indentation (indent + 1) ++ write_json_helper (indent + 1) v ++ comma l' ++ newline ++ items l'
          end) children
    ++ spaces (4 * indent) ++ $"]"
  else
    $"{" ++ newline
    ++ (fix members (l : list (cstring * ptree)) : cstring :=
          match l with
          | [] => []
          | (k, v) :: l' =>
              indentation (indent + 1) ++ json_string k ++ $":" ++ before_value indent v
              ++ write_json_helper (indent + 1) v ++ comma l' ++ newline ++ members l'
          end) children
    ++ indentation indent ++ $"}".

(** Data that JSON does not have. *)
Fixpoint verify_json (depth : nat) (t : ptree) : bool :=
  let 'PTree data children := t in
  let no_data := match data with [] => true | _ => false end in
  negb ((depth =? 0)%nat && negb no_data)
  && negb (negb no_data && (match children with [] => false | _ => true end))
  && (fix all (l : list (cstring * ptree)) : bool :=
        match l with [] => true | (_, v) :: l' => verify_json (depth + 1) v && all l' end) children.

(** [write_json_internal]; [None] is [json_parser_error]. *)
Definition write_json (t : ptree) : option cstring :=
  if verify_json 0 t then Some (write_json_helper 0 t ++ [LF]) else None.
End Write.

(** ** Reading *)

(** [comment_p("//")] and [comment_p("/*", "*/")]: the text behind a comment. *)
Class Comments := { comment_p : cstring -> option cstring }.
Class CommentsLaws (C : Comments) := {
  comment_slash : forall c s, (c =c "/") = false -> comment_p (c :: s) = None;
  comment_shorter : forall s s', comment_p s = Some s' -> (length s' < length s)%nat
}.

(** The exceptions: the descriptor of a [parser_error], or an assertion; [Loop]
    is the end of the fuel. *)
Inductive json_error : Type :=
| expected_root | expected_eoi | expected_objclose | expected_arrclose | expected_name | expected_colon | expected_value
| invalid_escape | syntax_error | stack_empty | bad_escape | Loop.

Record scanner : Type := Scanner {
  (** The rest of the input. *)
  first : cstring;
  c_string : cstring;
  c_name : cstring;
  c_root : ptree;
  c_stack : nat
}.

Section Read.
Context {C : Comments}.

Abbreviation P := (st scanner json_error).

Definition set_first (f : cstring) (s : scanner) : scanner := Scanner f (c_string s) (c_name s) (c_root s) (c_stack s).
Definition set_string (t : cstring) (s : scanner) : scanner := Scanner (first s) t (c_name s) (c_root s) (c_stack s).
Definition set_name (t : cstring) (s : scanner) : scanner := Scanner (first s) (c_string s) t (c_root s) (c_stack s).
Definition set_root (t : ptree) (s : scanner) : scanner := Scanner (first s) (c_string s) (c_name s) t (c_stack s).
Definition set_stack (n : nat) (s : scanner) : scanner := Scanner (first s) (c_string s) (c_name s) (c_root s) n.

(** *** The context *)

Fixpoint update_last (f : ptree -> ptree) (l : list (cstring * ptree)) : list (cstring * ptree) :=
  match l with
  | [] => []
  | [(k, v)] => [(k, f v)]
  | x :: l' => x :: update_last f l'
  end.

(** [*stack.back()] of a stack of size [n] changed by [f]. *)
Fixpoint on_back (n : nat) (f : ptree -> ptree) (t : ptree) : ptree :=
  match n with
  | O => t
  | S O => f t
  | S n' => PTree (pt_data t) (update_last (on_back n' f) (pt_children t))
  end.

Definition push_value (t : ptree) (s : scanner) : scanner :=
  set_root (on_back (c_stack s) (push_child (c_name s, t)) (c_root s)) s.

Definition a_object_s : P () :=
  st_modify (fun s =>
    if (c_stack s =? 0)%nat then set_stack 1 s
    else set_name [] (set_stack (S (c_stack s)) (push_value empty_tree s))).

Definition assert_stack : P () := s ← st_get; if (1 <=? c_stack s)%nat then mret () else st_fail stack_empty.

Definition a_object_e : P () := assert_stack ;; st_modify (fun s => set_stack (c_stack s - 1) s).
Definition a_name : P () := st_modify (fun s => set_string [] (set_name (c_string s) s)).
Definition a_string_val : P () :=
  assert_stack ;; st_modify (fun s => set_string [] (set_name [] (push_value (pt_value (c_string s)) s))).
Definition a_literal_val (text : cstring) : P () :=
  assert_stack ;; st_modify (fun s => set_string [] (set_name [] (push_value (pt_value text) s))).

Definition add_string (t : cstring) : P () := st_modify (fun s => set_string (c_string s ++ t) s).

Definition a_char (c : ascii) : P () := add_string [c].
Definition a_escape (c : ascii) : P () :=
  if c =c quote_char then add_string [quote_char]
  else if c =c backslash then add_string [backslash]
  else if c =c "/" then add_string ["/"%char]
  else if c =c "b" then add_string ["008"%char]
  else if c =c "f" then add_string ["012"%char]
  else if c =c "n" then add_string [LF]
  else if c =c "r" then add_string [CR]
  else if c =c "t" then add_string [TAB]
  else st_fail bad_escape.

(** UTF-8, as [char] has one byte. *)
Definition utf8 (u : Z) : cstring :=
  if u <? 128 then [chr u]
  else if u <? 2048 then [chr (192 + Z.shiftr u 6); chr (128 + u mod 64)]
  else if (u <? 55296) || (57344 <=? u)
  then [chr (224 + Z.shiftr u 12); chr (128 + Z.shiftr (u mod 4096) 6); chr (128 + u mod 64)]
  else [chr (240 + Z.shiftr u 18); chr (128 + Z.shiftr (u mod 262144) 12); chr (128 + Z.shiftr (u mod 4096) 6);
        chr (128 + u mod 64)].
Definition a_unicode (u : Z) : P () := add_string (utf8 u).

(** *** Combinators *)

Fixpoint skip_loop (n : nat) (s : cstring) : cstring :=
  match n, s with
  | S n', c :: s' =>
      if isspace c then skip_loop n' s'
      else match comment_p s with Some s' => skip_loop n' s' | None => s end
  | _, _ => s
  end.
Definition skip_text (s : cstring) : cstring := skip_loop (length s) s.
Definition skip : P () := st_modify (fun s => set_first (skip_text (first s)) s).

Definition seq (p q : P bool) : P bool := h ← p; if (h : bool) then q else mret false.
Definition alt (p q : P bool) : P bool :=
  s ← st_get; h ← p;
  if (h : bool) then mret true else st_modify (set_first (first s)) ;; q.
Definition opt (p : P bool) : P bool :=
  s ← st_get; h ← p;
  if (h : bool) then mret true else st_modify (set_first (first s)) ;; mret true.
Fixpoint star_loop (n : nat) (p : P bool) : P bool :=
  match n with
  | O => st_fail Loop
  | S n' =>
      s ← st_get; h ← p;
      if (h : bool) then star_loop n' p else st_modify (set_first (first s)) ;; mret true
  end.
Definition star (p : P bool) : P bool := s ← st_get; star_loop (S (length (first s))) p.
Definition plus (p : P bool) : P bool := seq p (star p).
Definition list_p (item delim : P bool) : P bool := seq item (star (seq delim item)).
Definition expect (e : json_error) (p : P bool) : P bool := h ← p; if (h : bool) then mret true else st_fail e.

(** A character of a set, with a semantic action; without and with the skipper. *)
Definition lex_char (p : ascii -> bool) (a : ascii -> P ()) : P bool :=
  s ← st_get;
  match first s with
  | c :: rest => if p c then st_modify (set_first rest) ;; a c ;; mret true else mret false
  | [] => mret false
  end.
Definition char_p (p : ascii -> bool) (a : ascii -> P ()) : P bool := skip ;; lex_char p a.
Definition no_action : ascii -> P () := fun _ => mret ().
Definition ch_p (c : ascii) : P bool := char_p (fun x => x =c c) no_action.
Definition digit_p : P bool := char_p isdigit no_action.
Definition str_p (t : cstring) : P bool :=
  skip ;; s ← st_get;
  if is_prefix t (first s) then st_modify (set_first (drop (length t) (first s))) ;; mret true else mret false.
Definition end_p : P bool := skip ;; s ← st_get; mret (match first s with [] => true | _ => false end).

(** [p[a]] for an action on the text that was matched. *)
Definition action (p : P bool) (a : cstring -> P ()) : P bool :=
  skip ;; s ← st_get; h ← p;
  if (h : bool) then s' ← st_get; a (take (length (first s) - length (first s')) (first s)) ;; mret true
  else mret false.

(** *** The grammar *)

Definition hex_value (c : ascii) : option Z :=
  let u := uchar c in
  if isdigit c then Some (u - 48)
  else if (97 <=? u) && (u <=? 102) then Some (u - 87)
  else if (65 <=? u) && (u <=? 70) then Some (u - 55)
  else None.

(** [uint_parser<unsigned long, 16, 4, 4>()[a_unicode]]. *)
Definition unicode_p : P bool :=
  s ← st_get;
  match first s with
  | c1 :: c2 :: c3 :: c4 :: rest =>
      match hex_value c1, hex_value c2, hex_value c3, hex_value c4 with
      | Some d1, Some d2, Some d3, Some d4 =>
          st_modify (set_first rest) ;; a_unicode (((d1 * 16 + d2) * 16 + d3) * 16 + d4) ;; mret true
      | _, _, _, _ => mret false
      end
  | _ => mret false
  end.

Definition escape : P bool :=
  alt (lex_char (fun c => mem_char c ([quote_char; backslash] ++ $"/bfnrt")) a_escape)
      (seq (lex_char (fun c => c =c "u") no_action) unicode_p).

Definition character : P bool :=
  alt (lex_char (fun c => negb (c =c backslash) && negb (c =c quote_char)) a_char)
      (seq (lex_char (fun c => c =c backslash) no_action) (expect invalid_escape escape)).

(** [lexeme_d[confix_p('"', *character, '"')]]. *)
Definition quoted : P bool :=
  skip ;;
  seq (lex_char (fun c => c =c quote_char) no_action)
    (seq (star character) (lex_char (fun c => c =c quote_char) no_action)).
Definition string : P bool := plus quoted.

Definition number : P bool :=
  seq (opt (ch_p "-"))
    (seq (alt (ch_p "0") (seq (char_p (fun c => (49 <=? uchar c) && (uchar c <=? 57)) no_action) (star digit_p)))
       (seq (opt (seq (ch_p ".") (plus digit_p)))
          (opt (seq (char_p (fun c => mem_char c ($"eE")) no_action)
                  (seq (opt (char_p (fun c => mem_char c ($"-+")) no_action)) (plus digit_p)))))).

Definition literal : P bool := alt number (alt (str_p ($"true")) (alt (str_p ($"false")) (str_p ($"null")))).

Definition open_p (c : ascii) : P bool := char_p (fun x => x =c c) (fun _ => a_object_s).
Definition close_p (c : ascii) : P bool := char_p (fun x => x =c c) (fun _ => a_object_e).

(** [object] and [array], for the parser of values. *)
Definition member (value : P bool) : P bool :=
  seq (expect expected_name (action string (fun _ => a_name)))
    (seq (expect expected_colon (ch_p ":")) (expect expected_value value)).
Definition object (value : P bool) : P bool :=
  seq (open_p "{")
    (alt (close_p "}") (seq (list_p (member value) (ch_p ",")) (expect expected_objclose (close_p "}")))).
Definition array (value : P bool) : P bool :=
  seq (open_p "[")
    (alt (close_p "]") (seq (list_p (expect expected_value value) (ch_p ",")) (expect expected_arrclose (close_p "]")))).

(** The depth of the recursion is bounded by the fuel. *)
Fixpoint value (fuel : nat) : P bool :=
  match fuel with
  | O => st_fail Loop
  | S f =>
      let v := value f in
      alt (action string (fun _ => a_string_val)) (alt (action literal a_literal_val) (alt (object v) (array v)))
  end.

Definition root (fuel : nat) : P bool :=
  let v := value fuel in
  seq (expect expected_root (alt (object v) (array v))) (expect expected_eoi end_p).

(** [read_json_internal]. *)
Definition read_json (v : cstring) : result json_error ptree :=
  match root (S (length v)) (Scanner v [] [] empty_tree 0) with
  | Ok (h, s) => if (h : bool) then Ok (c_root s) else Err syntax_error
  | Err e => Err e
  end.
End Read.
