(* ===== verification/JsonFacts.v ===== *)
(** Properties of the JSON reader and writer of Json.v: what is written is
    read back, and every input is read to its end or refused. *)

From S2P Require Import Prelude CLib PTree Json.

(** ** Stepping through the combinators *)

Section Steps.
Context {C : Comments} {CL : CommentsLaws C}.

(** Text that the skipper leaves alone. *)
Definition solid (s : cstring) : Prop :=
  match s with [] => True | c :: _ => isspace c = false /\ (c =c "/") = false end.

Lemma skip_solid s : solid s -> skip_text s = s.
Proof.
  destruct s as [|c s]; [reflexivity|]. intros [H1 H2]. unfold skip_text. cbn [length skip_loop].
  now rewrite H1, comment_slash.
Qed.

Definition blank (w : cstring) : Prop := Forall (fun c => isspace c = true) w.

Lemma skip_blank w s : blank w -> skip_text (w ++ s) = skip_text s.
Proof.
  unfold skip_text. rewrite length_app. induction 1 as [|c w Hc _ IH]; [reflexivity|].
  cbn [length app Nat.add skip_loop]. now rewrite Hc.
Qed.

Lemma blank_solid w s : blank w -> solid s -> skip_text (w ++ s) = s.
Proof. intros Hw Hs. now rewrite skip_blank, skip_solid. Qed.

Lemma blank_app w w' : blank w -> blank w' -> blank (w ++ w').
Proof. intros H H'. now apply Forall_app. Qed.

Lemma blank_spaces n : blank (spaces n).
Proof. induction n; constructor; auto. Qed.

Lemma set_first_id s f : set_first (first s) (set_first f s) = s.
Proof. now destruct s. Qed.

Lemma seq_hit p q s s1 : p s = Ok (true, s1) -> seq p q s = q s1.
Proof. intros H. unfold seq. now rewrite (bind_ok _ _ _ _ _ H). Qed.

Lemma seq_miss p q s s1 : p s = Ok (false, s1) -> seq p q s = Ok (false, s1).
Proof. intros H. unfold seq. now rewrite (bind_ok _ _ _ _ _ H). Qed.

Lemma alt_hit p q s s1 : p s = Ok (true, s1) -> alt p q s = Ok (true, s1).
Proof. intros H. unfold alt. run. now rewrite H. Qed.

Lemma alt_miss p q s f : p s = Ok (false, set_first f s) -> alt p q s = q s.
Proof. intros H. unfold alt. run. now rewrite H, set_first_id. Qed.

Lemma opt_miss p s f : p s = Ok (false, set_first f s) -> opt p s = Ok (true, s).
Proof. intros H. unfold opt. run. now rewrite H, set_first_id. Qed.

Lemma expect_hit e p s s1 : p s = Ok (true, s1) -> expect e p s = Ok (true, s1).
Proof. intros H. unfold expect. now rewrite (bind_ok _ _ _ _ _ H). Qed.

Lemma lex_hit p a s c r : first s = c :: r -> p c = true -> lex_char p a s = (a c ;; mret true) (set_first r s).
Proof. intros H1 H2. unfold lex_char. run. now rewrite H1, H2. Qed.

Lemma lex_miss p a s c r : first s = c :: r -> p c = false -> lex_char p a s = Ok (false, s).
Proof. intros H1 H2. unfold lex_char. run. now rewrite H1, H2. Qed.

Lemma char_hit p a s c r :
  skip_text (first s) = c :: r -> p c = true -> char_p p a s = (a c ;; mret true) (set_first r s).
Proof.
  intros H1 H2. unfold char_p, skip. rewrite (bind_ok _ _ s () (set_first (skip_text (first s)) s)) by reflexivity.
  now rewrite (lex_hit _ _ _ c r).
Qed.

Lemma char_miss p a s c r :
  skip_text (first s) = c :: r -> p c = false -> char_p p a s = Ok (false, set_first (c :: r) s).
Proof.
  intros H1 H2. unfold char_p, skip. rewrite (bind_ok _ _ s () (set_first (skip_text (first s)) s)) by reflexivity.
  rewrite H1. now apply (lex_miss _ _ _ c r).
Qed.

(** *** Strings *)

Lemma character_escape c rest str name t n :
  character (Scanner (create_escape c ++ rest) str name t n) = Ok (true, Scanner rest (str ++ [c]) name t n).
Proof. destruct c as [[] [] [] [] [] [] [] []]; reflexivity. Qed.

Lemma character_quote rest s : first s = quote_char :: rest -> character s = Ok (false, s).
Proof.
  intros H. unfold character. rewrite (alt_miss _ _ _ (first s)).
  - apply seq_miss. now apply (lex_miss _ _ _ quote_char rest).
  - rewrite (lex_miss _ _ _ quote_char rest) by auto. now destruct s.
Qed.

Lemma star_character str : forall n str0 rest name t k, (length str < n)%nat ->
  star_loop n character (Scanner (create_escapes str ++ quote_char :: rest) str0 name t k)
  = Ok (true, Scanner (quote_char :: rest) (str0 ++ str) name t k).
Proof.
  induction str as [|c str IH]; intros [|n] str0 rest name t k Hn; cbn [length] in Hn; try lia; cbn [star_loop]; run.
  - cbn [create_escapes map concat app]. rewrite (character_quote rest) by reflexivity. now rewrite app_nil_r.
  - change (create_escapes (c :: str)) with (create_escape c ++ create_escapes str). rewrite <- app_assoc, character_escape.
    rewrite IH by lia. now rewrite <- app_assoc.
Qed.

Lemma create_escapes_length str : (length str <= length (create_escapes str))%nat.
Proof.
  induction str as [|c str IH]; [reflexivity|]. change (create_escapes (c :: str)) with (create_escape c ++ create_escapes str).
  rewrite length_app. assert (1 <= length (create_escape c))%nat by (apply Nat.leb_le; now destruct c as [[] [] [] [] [] [] [] []]).
  cbn [length]. lia.
Qed.

Lemma quoted_hit str rest s :
  skip_text (first s) = json_string str ++ rest -> quoted s = Ok (true, set_string (c_string s ++ str) (set_first rest s)).
Proof.
  intros H. unfold quoted, skip. rewrite (bind_ok _ _ s () (set_first (skip_text (first s)) s)) by reflexivity.
  rewrite H. rewrite (seq_hit _ _ _ (set_first (create_escapes str ++ quote_char :: rest) s)).
  2:{ rewrite (lex_hit _ _ _ quote_char (create_escapes str ++ quote_char :: rest)); [reflexivity| |reflexivity].
      cbn [first set_first]. unfold json_string. now rewrite <- !app_assoc. }
  destruct s as [f str0 name t k]. rewrite (seq_hit _ _ _ (Scanner (quote_char :: rest) (str0 ++ str) name t k)).
  - rewrite (lex_hit _ _ _ quote_char rest) by reflexivity. reflexivity.
  - unfold star. run. cbn [first set_first c_string c_name c_root c_stack]. apply star_character.
    rewrite length_app. pose proof (create_escapes_length str). lia.
Qed.

(** A text that does not go on with a string. *)
Definition no_quote (s : cstring) : Prop := match s with c :: _ => (c =c quote_char) = false | [] => True end.

Lemma quoted_miss s :
  no_quote (skip_text (first s)) -> quoted s = Ok (false, set_first (skip_text (first s)) s).
Proof.
  intros H. unfold quoted, skip. rewrite (bind_ok _ _ s () (set_first (skip_text (first s)) s)) by reflexivity.
  destruct (skip_text (first s)) as [|c r] eqn:E; apply seq_miss.
  - unfold lex_char. run. reflexivity.
  - now apply (lex_miss _ _ _ c r).
Qed.

Lemma string_hit str rest s :
  skip_text (first s) = json_string str ++ rest -> no_quote (skip_text rest) ->
  string s = Ok (true, set_string (c_string s ++ str) (set_first rest s)).
Proof.
  intros H Hn. unfold string, plus. rewrite (seq_hit _ _ _ _ (quoted_hit str rest s H)). unfold star. run.
  cbn [star_loop first set_string set_first]. run. rewrite quoted_miss by exact Hn. now rewrite set_first_id.
Qed.

Lemma string_miss s :
  no_quote (skip_text (first s)) -> string s = Ok (false, set_first (skip_text (first s)) s).
Proof. intros H. apply seq_miss. now apply quoted_miss. Qed.

Lemma action_hit p a s s1 :
  p (set_first (skip_text (first s)) s) = Ok (true, s1) ->
  action p (fun _ => a) s = (a ;; mret true) s1.
Proof. intros H. unfold action, skip. run. now rewrite H. Qed.

Lemma action_miss p a s f :
  p (set_first (skip_text (first s)) s) = Ok (false, set_first f s) -> action p a s = Ok (false, set_first f s).
Proof. intros H. unfold action, skip. run. now rewrite H. Qed.

(** Literals begin with other characters. *)
Definition literal_start (c : ascii) : bool := isdigit c || mem_char c ($"-tfn").

Lemma literal_miss c r s :
  first s = c :: r -> solid (c :: r) -> literal_start c = false -> literal s = Ok (false, s).
Proof.
  intros H Hs Hc. assert (skip_text (first s) = c :: r) as Hk by (rewrite H; now apply skip_solid).
  assert (set_first (c :: r) s = s) as Es by (destruct s; cbn in *; now subst).
  unfold literal_start in Hc. apply orb_false_iff in Hc as [Hd Hm]. unfold mem_char in Hm. cbn [existsb list_ascii_of_string] in Hm.
  rewrite !orb_false_iff in Hm. destruct Hm as (M1 & M2 & M3 & M4 & _).
  assert (forall p, p c = false -> char_p p no_action s = Ok (false, s)) as Hmiss.
  { intros p Hp. rewrite (char_miss _ _ _ c r) by assumption. now rewrite Es. }
  assert (forall x t, (c =c x) = false -> str_p (x :: t) s = Ok (false, s)) as Hstr.
  { intros x t Hx. unfold str_p, skip. run. rewrite Hk, Es, H. cbn [is_prefix]. now rewrite Ascii.eqb_sym, Hx. }
  assert (number s = Ok (false, s)) as Hn.
  { unfold number. rewrite (seq_hit _ _ _ s); [|rewrite (opt_miss _ _ (first s)); [reflexivity|]].
    2:{ unfold ch_p. rewrite Hmiss by exact M1. now destruct s. }
    apply seq_miss. rewrite (alt_miss _ _ _ (first s)).
    - apply seq_miss. apply Hmiss. unfold isdigit in Hd. destruct ((49 <=? uchar c) && (uchar c <=? 57)) eqn:E; [|reflexivity]. zbool.
    - unfold ch_p. rewrite Hmiss; [now destruct s|]. apply Ascii.eqb_neq. intros ->. discriminate. }
  unfold literal. rewrite (alt_miss _ _ _ (first s)) by (rewrite Hn; now destruct s).
  rewrite (alt_miss _ _ _ (first s)) by (etransitivity; [exact (Hstr _ _ M2)|now destruct s]).
  rewrite (alt_miss _ _ _ (first s)) by (etransitivity; [exact (Hstr _ _ M3)|now destruct s]).
  exact (Hstr _ _ M4).
Qed.

(** *** The context *)

Lemma update_last_snoc f l k v : update_last f (l ++ [(k, v)]) = l ++ [(k, f v)].
Proof.
  induction l as [|[k' v'] l IH]; [reflexivity|]. cbn [app update_last]. rewrite IH. now destruct l.
Qed.

Lemma update_last_twice f g l : update_last f (update_last g l) = update_last (fun t => f (g t)) l.
Proof.
  induction l as [|[k v] l IH]; [reflexivity|]. destruct l as [|kv l]; [reflexivity|].
  change (update_last g ((k, v) :: kv :: l)) with ((k, v) :: update_last g (kv :: l)).
  change (update_last (fun t => f (g t)) ((k, v) :: kv :: l)) with ((k, v) :: update_last (fun t => f (g t)) (kv :: l)).
  rewrite <- IH. destruct kv as [k2 v2]. cbn [update_last]. now destruct l.
Qed.

Lemma update_last_ext f g l : (forall t, f t = g t) -> update_last f l = update_last g l.
Proof.
  intros H. induction l as [|[k v] l IH]; [reflexivity|]. cbn [update_last]. destruct l; [now rewrite H|now rewrite IH].
Qed.

(** The node that was pushed last is on top. *)
Lemma on_back_push n f k t : forall r, (1 <= n)%nat ->
  on_back (S n) f (on_back n (push_child (k, t)) r) = on_back n (push_child (k, f t)) r.
Proof.
  induction n as [|n IH]; intros [d l] Hn; [lia|]. destruct n as [|n].
  - cbn [on_back push_child pt_data pt_children]. now rewrite update_last_snoc.
  - change (on_back (S (S (S n))) f (on_back (S (S n)) (push_child (k, t)) (PTree d l)))
      with (PTree d (update_last (on_back (S (S n)) f) (update_last (on_back (S n) (push_child (k, t))) l))).
    change (on_back (S (S n)) (push_child (k, f t)) (PTree d l)) with (PTree d (update_last (on_back (S n) (push_child (k, f t))) l)).
    f_equal. rewrite update_last_twice. apply update_last_ext. intros r. apply IH. lia.
Qed.

Definition push_all (n : nat) (l : list (cstring * ptree)) (r : ptree) : ptree :=
  fold_left (fun r kv => on_back n (push_child kv) r) l r.

Lemma push_all_inner n k l r :
  (1 <= n)%nat -> push_all (S n) l (on_back n (push_child (k, empty_tree)) r) = on_back n (push_child (k, PTree [] l)) r.
Proof.
  intros Hn. unfold push_all. rewrite <- (app_nil_l l) at 2. change empty_tree with (PTree [] []). generalize ([] : list (cstring * ptree)).
  induction l as [|kv l IH]; intros l0; cbn [fold_left]; [now rewrite app_nil_r|].
  rewrite on_back_push by exact Hn. change (push_child kv (PTree [] l0)) with (PTree [] (l0 ++ [kv])). rewrite IH. now rewrite <- app_assoc.
Qed.

Lemma push_all_root l : push_all 1 l empty_tree = PTree [] l.
Proof.
  unfold push_all. rewrite <- (app_nil_l l) at 2. change empty_tree with (PTree [] []). generalize ([] : list (cstring * ptree)).
  induction l as [|kv l IH]; intros l0; cbn [fold_left]; [now rewrite app_nil_r|].
  change (on_back 1 (push_child kv) (PTree [] l0)) with (PTree [] (l0 ++ [kv])). rewrite IH. now rewrite <- app_assoc.
Qed.

(** *** Lists of items *)

Definition closes (c : ascii) : Prop := c = "]"%char \/ c = "}"%char.

(** What may follow a value. *)
Definition follows (rest : cstring) : Prop :=
  exists c r, skip_text rest = c :: r /\ (c = ","%char \/ closes c).

Lemma follows_no_quote rest : follows rest -> no_quote (skip_text rest).
Proof. intros (c & r & -> & [->|[->| ->]]); reflexivity. Qed.

(** A parser reads [text] as a child. *)
Definition reads (item : st scanner json_error bool) (text : cstring) (kv : cstring * ptree) : Prop :=
  forall s rest w, follows rest -> blank w -> first s = w ++ text ++ rest -> c_string s = [] -> c_name s = [] ->
    (1 <= c_stack s)%nat ->
    item s = Ok (true, Scanner rest [] [] (on_back (c_stack s) (push_child kv) (c_root s)) (c_stack s)).

Section Items.
Variable item : st scanner json_error bool.
Variable text : cstring * ptree -> cstring.
Variables ind nl : cstring.
Hypothesis Hind : blank ind.
Hypothesis Hnl : blank nl.

Fixpoint items (l : list (cstring * ptree)) : cstring :=
  match l with [] => [] | kv :: l' => ind ++ text kv ++ comma l' ++ nl ++ items l' end.

Definition tail (l : list (cstring * ptree)) : cstring := comma l ++ nl ++ items l.

Lemma tail_length l : (length l <= length (tail l))%nat.
Proof.
  induction l as [|kv l IH]; [apply Nat.le_0_l|].
  change (tail (kv :: l)) with ([","%char] ++ nl ++ ind ++ text kv ++ tail l). rewrite !length_app. cbn [length]. lia.
Qed.

Lemma tail_follows l w c rest : blank w -> closes c -> follows (tail l ++ w ++ c :: rest).
Proof.
  intros Hw Hc. unfold tail. destruct l as [|kv l].
  - cbn [comma items app]. rewrite app_nil_r, app_assoc. exists c, rest.
    rewrite blank_solid by (try apply blank_app; auto; destruct Hc as [-> | ->]; now split). auto.
  - eexists _, _. split; [apply skip_solid; now split|now left].
Qed.

Lemma items_loop l : forall n s w c rest, Forall (fun kv => reads item (text kv) kv) l -> (length l < n)%nat ->
  blank w -> closes c -> first s = tail l ++ w ++ c :: rest -> c_string s = [] -> c_name s = [] -> (1 <= c_stack s)%nat ->
  star_loop n (seq (ch_p ",") item) s
  = Ok (true, Scanner (nl ++ w ++ c :: rest) [] [] (push_all (c_stack s) l (c_root s)) (c_stack s)).
Proof.
  induction l as [|kv l IH]; intros [|n] s w c rest Hr Hn Hw Hc Hf Hs Hm Hk; cbn [length] in Hn; try lia; cbn [star_loop]; run.
  - cbn [tail comma items app] in Hf. unfold tail in Hf. cbn [comma items app] in Hf. rewrite app_nil_r in Hf.
    rewrite (seq_miss _ _ _ (set_first (c :: rest) s)).
    + rewrite set_first_id. destruct s as [f str name t k]. cbn in Hf, Hs, Hm. now subst.
    + apply char_miss; [|now destruct Hc as [-> | ->]]. rewrite Hf, app_assoc.
      apply blank_solid; [now apply blank_app|destruct Hc as [-> | ->]; now split].
  - apply Forall_cons_1 in Hr as [Hr1 Hr]. set (more := tail l ++ w ++ c :: rest).
    assert (first s = ","%char :: (nl ++ ind) ++ text kv ++ more) as Hf'.
    { rewrite Hf. unfold more. change (tail (kv :: l)) with ([","%char] ++ nl ++ ind ++ text kv ++ tail l). now rewrite <- !app_assoc. }
    rewrite (seq_hit _ _ _ (set_first ((nl ++ ind) ++ text kv ++ more) s)).
    2:{ unfold ch_p. rewrite (char_hit _ _ _ ","%char ((nl ++ ind) ++ text kv ++ more)); [reflexivity| |reflexivity].
        rewrite Hf'. apply skip_solid. now split. }
    rewrite (Hr1 _ more (nl ++ ind)); auto; [|now apply tail_follows|now apply blank_app].
    rewrite (IH n _ w c rest) by (auto || cbn; lia || reflexivity). reflexivity.
Qed.

Lemma items_list kv l s w w0 c rest :
  Forall (fun kv => reads item (text kv) kv) (kv :: l) -> blank w -> blank w0 -> closes c ->
  first s = w0 ++ items (kv :: l) ++ w ++ c :: rest -> c_string s = [] -> c_name s = [] -> (1 <= c_stack s)%nat ->
  list_p item (ch_p ",") s
  = Ok (true, Scanner (nl ++ w ++ c :: rest) [] [] (push_all (c_stack s) (kv :: l) (c_root s)) (c_stack s)).
Proof.
  intros Hr Hw Hw0 Hc Hf Hs Hm Hk. apply Forall_cons_1 in Hr as [Hr1 Hr]. unfold list_p. set (more := tail l ++ w ++ c :: rest).
  assert (first s = (w0 ++ ind) ++ text kv ++ more) as Hf'.
  { rewrite Hf. unfold more. change (items (kv :: l)) with (ind ++ text kv ++ tail l). now rewrite <- !app_assoc. }
  erewrite seq_hit by (apply (Hr1 _ more (w0 ++ ind)); auto; [now apply tail_follows|now apply blank_app]).
  unfold star. run. cbn [first].
  rewrite (items_loop l _ _ w c rest); auto.
  unfold more. rewrite length_app. pose proof (tail_length l). lia.
Qed.

(** An object or an array; [opened] is the effect of its first character. *)
Definition opened (s : scanner) : scanner :=
  if (c_stack s =? 0)%nat then set_stack 1 s
  else set_name [] (set_stack (S (c_stack s)) (push_value empty_tree s)).

Definition container (o c : ascii) (e : json_error) : st scanner json_error bool :=
  seq (open_p o) (alt (close_p c) (seq (list_p item (ch_p ",")) (expect e (close_p c)))).

Lemma close_hit c s w rest : first s = w ++ c :: rest -> blank w -> closes c -> (1 <= c_stack s)%nat ->
  close_p c s = Ok (true, set_stack (c_stack s - 1) (set_first rest s)).
Proof.
  intros Hf Hw Hc Hk. unfold close_p. rewrite (char_hit _ _ _ c rest).
  - unfold a_object_e, assert_stack. run. destruct s as [f str name t [|k]]; [cbn in Hk; lia|]. reflexivity.
  - rewrite Hf. apply blank_solid; [exact Hw|]. destruct Hc as [-> | ->]; now split.
  - apply Ascii.eqb_refl.
Qed.

Lemma container_hit o c e l s w w0 rest :
  Forall (fun kv => reads item (text kv) kv) l ->
  Forall (fun kv => exists x r, text kv = x :: r /\ solid (x :: r) /\ (x =c c) = false) l ->
  solid [o] -> blank w -> blank w0 -> closes c -> c_string s = [] -> (c_stack s = 0%nat -> c_name s = []) ->
  first s = w0 ++ [o] ++ nl ++ items l ++ w ++ c :: rest ->
  let s1 := opened s in
  container o c e s = Ok (true, Scanner rest [] [] (push_all (c_stack s1) l (c_root s1)) (c_stack s)).
Proof.
  intros Hr Ht Ho Hw Hw0 Hc Hs Hm Hf s1. set (body := nl ++ items l ++ w ++ c :: rest).
  assert (c_stack s1 - 1 = c_stack s /\ c_name s1 = [] /\ c_string s1 = [] /\ 1 <= c_stack s1)%nat as (K1 & K2 & K3 & K4).
  { unfold s1, opened. destruct (Nat.eqb_spec (c_stack s) 0) as [E|E]; cbn [c_stack c_name c_string set_stack set_name push_value set_root];
      rewrite ?Hs, ?E; auto with lia. }
  unfold container. rewrite (seq_hit _ _ _ (set_first body s1)).
  2:{ unfold open_p. rewrite (char_hit _ _ _ o body); [|rewrite Hf; now apply blank_solid|apply Ascii.eqb_refl].
      unfold s1, opened. unfold a_object_s. run. cbn [c_stack set_first].
      destruct s as [f str name t k]. cbn [c_stack]. now destruct (k =? 0)%nat. }
  assert (forall w', blank w' -> close_p c (Scanner (w' ++ c :: rest) [] [] (push_all (c_stack s1) l (c_root s1)) (c_stack s1))
          = Ok (true, Scanner rest [] [] (push_all (c_stack s1) l (c_root s1)) (c_stack s))) as Hclose.
  { intros w' Hw'. rewrite (close_hit c _ w' rest) by auto. cbn [set_stack set_first c_stack c_string c_name c_root first]. now rewrite K1. }
  destruct l as [|kv l].
  - rewrite (alt_hit _ _ _ (Scanner rest [] [] (push_all (c_stack s1) [] (c_root s1)) (c_stack s))); [reflexivity|].
    rewrite <- (Hclose (nl ++ w)) by now apply blank_app. f_equal. unfold body. cbn [items app].
    rewrite <- app_assoc. destruct s1 as [f str name t k]. cbn in K2, K3. now subst.
  - apply Forall_cons_1 in Ht as [(x & r & Ex & Hx & Hxc) _].
    rewrite (alt_miss _ _ _ (x :: r ++ tail l ++ w ++ c :: rest)).
    + rewrite (seq_hit _ _ _ _ (items_list kv l (set_first body s1) w nl c rest Hr Hw Hnl Hc eq_refl K3 K2 K4)).
      apply expect_hit. rewrite app_assoc. apply Hclose. now apply blank_app.
    + unfold close_p. apply char_miss; [|exact Hxc]. cbn [first set_first]. unfold body.
      change (items (kv :: l)) with (ind ++ text kv ++ tail l). rewrite Ex, <- !app_assoc, app_assoc.
      apply blank_solid; [now apply blank_app|exact Hx].
Qed.
End Items.
End Steps.

(** ** The text of a tree *)

Section Text.
Variable pretty : bool.

Definition item_text (indent : nat) (kv : cstring * ptree) : cstring := write_json_helper pretty (indent + 1) (snd kv).
Definition member_text (indent : nat) (kv : cstring * ptree) : cstring :=
  json_string (fst kv) ++ $":" ++ before_value pretty indent (snd kv) ++ write_json_helper pretty (indent + 1) (snd kv).

Definition all (text : nat -> cstring * ptree -> cstring) (indent : nat) : list (cstring * ptree) -> cstring :=
  items (text indent) (indentation pretty (indent + 1)) (newline pretty).

Lemma write_value indent d : (0 < indent)%nat -> write_json_helper pretty indent (PTree d []) = json_string d.
Proof. intros H. cbn [write_json_helper]. now rewrite (proj2 (Nat.ltb_lt _ _) H). Qed.

Lemma write_array indent d l : (0 < indent)%nat -> l <> [] -> is_array l = true ->
  write_json_helper pretty indent (PTree d l)
  = $"[" ++ newline pretty ++ all item_text indent l ++ spaces (4 * indent) ++ $"]".
Proof.
  intros H Hl Ha.
  assert (forall l : list (cstring * ptree),
            (fix items (l : list (cstring * ptree)) : cstring :=
               match l with
               | [] => []
               | (_, v) :: l' =>
                   indentation pretty (indent + 1) ++ write_json_helper pretty (indent + 1) v ++ comma l' ++ newline pretty ++ items l'
               end) l = all item_text indent l) as E.
  { clear. induction l as [|[k v] l IH]; [reflexivity|]. rewrite IH. reflexivity. }
  cbn [write_json_helper]. rewrite E, (proj2 (Nat.ltb_lt _ _) H), Ha. destruct l as [|kv l]; [contradiction|reflexivity].
Qed.

Lemma write_object indent d l : indent = 0%nat \/ (0 < indent)%nat /\ l <> [] /\ is_array l = false ->
  write_json_helper pretty indent (PTree d l)
  = $"{" ++ newline pretty ++ all member_text indent l ++ indentation pretty indent ++ $"}".
Proof.
  intros H.
  assert (forall l : list (cstring * ptree),
            (fix members (l : list (cstring * ptree)) : cstring :=
               match l with
               | [] => []
               | (k, v) :: l' =>
                   indentation pretty (indent + 1) ++ json_string k ++ $":" ++ before_value pretty indent v
                   ++ write_json_helper pretty (indent + 1) v ++ comma l' ++ newline pretty ++ members l'
               end) l = all member_text indent l) as E.
  { clear. induction l as [|[k v] l IH]; [reflexivity|]. rewrite IH. unfold all at 2. cbn [items]. unfold member_text at 2. cbn [fst snd].
    now rewrite <- !app_assoc. }
  cbn [write_json_helper]. rewrite E. destruct H as [->|(H1 & H2 & H3)]; [reflexivity|]. rewrite H3, andb_false_r.
  destruct l; [contradiction|]. now rewrite andb_false_r.
Qed.

Lemma verify_children depth d l :
  verify_json depth (PTree d l) = true ->
  (depth = 0%nat -> d = []) /\ (l <> [] -> d = []) /\ Forall (fun kv => verify_json (depth + 1) (snd kv) = true) l.
Proof.
  cbn [verify_json]. intros H. apply andb_true_iff in H as [H H3]. apply andb_true_iff in H as [H1 H2]. split; [|split].
  - intros ->. destruct d; [reflexivity|discriminate].
  - intros Hl. destruct d; [reflexivity|]. destruct l; [contradiction|discriminate].
  - clear H1 H2. revert H3. induction l as [|[k v] l IH]; intros H3; constructor; apply andb_true_iff in H3 as [? ?]; auto.
Qed.

Lemma write_start indent t : (0 < indent)%nat ->
  exists x r, write_json_helper pretty indent t = x :: r /\ solid (x :: r) /\ (x = quote_char \/ x = "["%char \/ x = "{"%char).
Proof.
  intros H. destruct t as [d [|kv l]].
  - rewrite write_value by exact H. eexists _, _. split; [reflexivity|]. split; [now split|auto].
  - destruct (is_array (kv :: l)) eqn:Ea.
    + rewrite write_array by (auto || discriminate). eexists _, _. split; [reflexivity|]. split; [now split|auto].
    + rewrite write_object by (right; split; [exact H|split; [discriminate|exact Ea]]). eexists _, _.
      split; [reflexivity|]. split; [now split|auto].
Qed.

Lemma before_blank indent t : blank (before_value pretty indent t).
Proof.
  unfold before_value. destruct pretty; [|apply List.Forall_nil]. destruct (pt_children t).
  - repeat constructor.
  - apply blank_app; [repeat constructor|apply blank_spaces].
Qed.

Lemma indentation_blank n : blank (indentation pretty n).
Proof. unfold indentation. destruct pretty; [apply blank_spaces|apply List.Forall_nil]. Qed.

Lemma newline_blank : blank (newline pretty).
Proof. unfold newline. destruct pretty; repeat constructor. Qed.

Section Read.
Context {C : Comments} {CL : CommentsLaws C}.

(** [value] reads what was written for [t]. *)
Definition value_reads (fuel : nat) (t : ptree) (text : cstring) : Prop :=
  forall s rest w, follows rest -> blank w -> first s = w ++ text ++ rest -> c_string s = [] -> (1 <= c_stack s)%nat ->
    value fuel s = Ok (true, Scanner rest [] [] (on_back (c_stack s) (push_child (c_name s, t)) (c_root s)) (c_stack s)).

Lemma reads_item f indent kv :
  fst kv = [] -> value_reads f (snd kv) (item_text indent kv) ->
  reads (expect expected_value (value f)) (item_text indent kv) kv.
Proof.
  intros Hk Hv s rest w Hf Hw Hs Hc Hn Hd. destruct kv as [k v]. cbn [fst snd] in *. subst k. apply expect_hit.
  rewrite (Hv s rest w) by assumption. now rewrite Hn.
Qed.

Lemma reads_member f indent kv :
  value_reads f (snd kv) (write_json_helper pretty (indent + 1) (snd kv)) -> reads (member (value f)) (member_text indent kv) kv.
Proof.
  intros Hv s rest w Hf Hw Hs Hc Hn Hd. destruct kv as [k v]. cbn [fst snd] in *. unfold member, member_text in *. cbn [fst snd] in *.
  set (more := $":" ++ before_value pretty indent v ++ write_json_helper pretty (indent + 1) v ++ rest) in *.
  assert (first s = w ++ json_string k ++ more) as Hs' by (rewrite Hs; unfold more; now rewrite <- !app_assoc).
  assert (skip_text (first s) = json_string k ++ more) as Hk by (rewrite Hs'; apply blank_solid; [exact Hw|now split]).
  rewrite (seq_hit _ _ _ (Scanner more [] k (c_root s) (c_stack s))).
  2:{ apply expect_hit.
      erewrite action_hit.
      2:{ apply (string_hit k more); [|unfold more; now rewrite skip_solid by now split]. cbn [first set_first]. rewrite Hk. apply skip_solid. now split. }
      unfold a_name. run. cbn. now rewrite Hc. }
  rewrite (seq_hit _ _ _ (Scanner (before_value pretty indent v ++ write_json_helper pretty (indent + 1) v ++ rest) [] k (c_root s) (c_stack s))).
  2:{ apply expect_hit. unfold ch_p. unfold more.
      erewrite char_hit; [reflexivity|cbn [first]; apply skip_solid; now split|reflexivity]. }
  apply expect_hit. now rewrite (Hv _ rest (before_value pretty indent v)) by (auto || apply before_blank).
Qed.

Lemma skip_first s c r : skip_text (first s) = c :: r -> solid (c :: r) ->
  skip_text (first (set_first (skip_text (first s)) s)) = c :: r.
Proof. intros H Hs. cbn [first set_first]. rewrite H. now apply skip_solid. Qed.

(** Objects and arrays are no strings and no literals. *)
Lemma value_dispatch f s c r :
  skip_text (first s) = c :: r -> solid (c :: r) -> c = "["%char \/ c = "{"%char ->
  value (S f) s = alt (object (value f)) (array (value f)) s.
Proof.
  intros Hk Hs Hc. cbn [value]. set (s1 := set_first (skip_text (first s)) s).
  rewrite (alt_miss _ _ _ (c :: r)).
  2:{ apply action_miss. fold s1. rewrite string_miss; unfold s1; rewrite (skip_first s c r Hk Hs); [now destruct s|].
      now destruct Hc as [-> | ->]. }
  rewrite (alt_miss _ _ _ (c :: r)); [reflexivity|]. apply action_miss. fold s1.
  rewrite (literal_miss c r); [unfold s1; now rewrite Hk|exact Hk|exact Hs|now destruct Hc as [-> | ->]].
Qed.

Lemma object_miss f s r : skip_text (first s) = "["%char :: r -> object (value f) s = Ok (false, set_first ("["%char :: r) s).
Proof. intros H. apply seq_miss. now apply char_miss. Qed.

(** The child that an object or array becomes. *)
Lemma opened_push l (s : scanner) : (1 <= c_stack s)%nat ->
  push_all (c_stack (opened s)) l (c_root (opened s)) = on_back (c_stack s) (push_child (c_name s, PTree [] l)) (c_root s).
Proof.
  intros H. unfold opened. destruct (Nat.eqb_spec (c_stack s) 0) as [E|_]; [lia|].
  cbn [c_stack c_root set_name set_stack set_root push_value]. now apply push_all_inner.
Qed.

Lemma item_start indent kv : exists x r, item_text indent kv = x :: r /\ solid (x :: r) /\ (x =c "]") = false.
Proof.
  destruct (write_start (indent + 1) (snd kv) ltac:(lia)) as (x & r & E & Hs & Hx). exists x, r. split; [exact E|].
  split; [exact Hs|]. now destruct Hx as [->|[->| ->]].
Qed.

Lemma member_start indent kv : exists x r, member_text indent kv = x :: r /\ solid (x :: r) /\ (x =c "}") = false.
Proof. eexists _, _. split; [reflexivity|]. now split. Qed.

(** The text of a child is shorter than the text of its parent. *)
Lemma items_shorter text ind nl l kv : In kv l -> (length (text kv) <= length (items text ind nl l))%nat.
Proof.
  induction l as [|kv' l IH]; [contradiction|]. intros [->|H]; cbn [items]; rewrite !length_app; [lia|]. specialize (IH H). lia.
Qed.

Lemma children_shorter indent d l kv : In kv l ->
  (length (write_json_helper pretty (indent + 1) (snd kv)) < length (write_json_helper pretty indent (PTree d l)))%nat.
Proof.
  intros Hin. assert (l <> []) as Hl by (now intros ->). destruct (is_array l && (0 <? indent)%nat) eqn:Ea.
  - apply andb_true_iff in Ea as [Ea Hi]. apply Nat.ltb_lt in Hi. rewrite write_array by assumption.
    pose proof (items_shorter (item_text indent) (indentation pretty (indent + 1)) (newline pretty) _ _ Hin) as H.
    unfold item_text in H at 1. rewrite !length_app. unfold all. cbn [length list_ascii_of_string]. lia.
  - rewrite write_object by (apply andb_false_iff in Ea as [Ea|Ea]; [|apply Nat.ltb_ge in Ea]; destruct indent; auto with lia).
    pose proof (items_shorter (member_text indent) (indentation pretty (indent + 1)) (newline pretty) _ _ Hin) as H.
    unfold member_text in H at 1. rewrite !length_app in H. rewrite !length_app. unfold all. cbn [length list_ascii_of_string]. lia.
Qed.

(** The value that was read is the last child of the node on top. *)
Definition read_value (rest : cstring) (t : ptree) (s : scanner) : scanner :=
  Scanner rest [] [] (on_back (c_stack s) (push_child (c_name s, t)) (c_root s)) (c_stack s).

Lemma string_written f d s rest w :
  follows rest -> blank w -> first s = w ++ json_string d ++ rest -> c_string s = [] -> (1 <= c_stack s)%nat ->
  value (S f) s = Ok (true, read_value rest (pt_value d) s).
Proof.
  intros Hr Hw Hs Hc Hk. cbn [value].
  assert (skip_text (first s) = json_string d ++ rest) as Hsk by (rewrite Hs; apply blank_solid; [exact Hw|now split]).
  apply alt_hit. erewrite action_hit.
  2:{ apply (string_hit d rest); [|now apply follows_no_quote]. cbn [first set_first]. rewrite Hsk. apply skip_solid. now split. }
  clear - Hc Hk. destruct s as [fi str name t [|n]]; cbn in Hc, Hk; [lia|]. now subst str.
Qed.

Lemma array_written f indent d l s rest w :
  (0 < indent)%nat -> l <> [] -> is_array l = true -> Forall (fun kv => value_reads f (snd kv) (item_text indent kv)) l ->
  blank w -> first s = w ++ write_json_helper pretty indent (PTree d l) ++ rest -> c_string s = [] -> (1 <= c_stack s)%nat ->
  value (S f) s = Ok (true, read_value rest (PTree [] l) s).
Proof.
  intros Hi Hl Ha Hv Hw Hs Hc Hk. rewrite write_array in Hs by assumption. rewrite <- !app_assoc in Hs.
  unfold read_value. rewrite <- opened_push by exact Hk.
  assert (skip_text (first s) = "["%char :: newline pretty ++ all item_text indent l ++ spaces (4 * indent) ++ $"]" ++ rest) as Hsk
    by (rewrite Hs; apply blank_solid; [exact Hw|now split]).
  rewrite (value_dispatch f s _ _ Hsk) by (now split || now left). rewrite (alt_miss _ _ _ _ (object_miss f s _ Hsk)).
  apply (container_hit _ (item_text indent) (indentation pretty (indent + 1)) (newline pretty) (indentation_blank _) newline_blank
           "["%char "]"%char expected_arrclose l s (spaces (4 * indent)) w rest);
    [| |now split|apply blank_spaces|exact Hw|now left|exact Hc|lia|exact Hs].
  - unfold is_array in Ha. rewrite forallb_forall in Ha. apply List.Forall_forall. intros x Hin. rewrite List.Forall_forall in Hv.
    apply reads_item; [|now apply Hv]. apply str_eqb_eq. now apply Ha.
  - apply List.Forall_forall. intros x _. apply item_start.
Qed.

Lemma object_written f indent d l s rest w :
  indent = 0%nat \/ (0 < indent)%nat /\ l <> [] /\ is_array l = false ->
  Forall (fun kv => value_reads f (snd kv) (write_json_helper pretty (indent + 1) (snd kv))) l ->
  blank w -> first s = w ++ write_json_helper pretty indent (PTree d l) ++ rest -> c_string s = [] ->
  (c_stack s = 0%nat -> c_name s = []) ->
  object (value f) s = Ok (true, Scanner rest [] [] (push_all (c_stack (opened s)) l (c_root (opened s))) (c_stack s)).
Proof.
  intros Hi Hv Hw Hs Hc Hn. rewrite write_object in Hs by assumption. rewrite <- !app_assoc in Hs.
  apply (container_hit _ (member_text indent) (indentation pretty (indent + 1)) (newline pretty) (indentation_blank _) newline_blank
           "{"%char "}"%char expected_objclose l s (indentation pretty indent) w rest);
    [| |now split|apply indentation_blank|exact Hw|now right|exact Hc|exact Hn|exact Hs].
  - eapply Forall_impl; [exact Hv|]. intros x. apply reads_member.
  - apply List.Forall_forall. intros x _. apply member_start.
Qed.

Lemma value_written t : forall indent fuel, (0 < indent)%nat -> verify_json indent t = true ->
  (length (write_json_helper pretty indent t) <= fuel)%nat -> value_reads fuel t (write_json_helper pretty indent t).
Proof.
  induction t as [d l IH] using ptree_ind'. intros indent [|f] Hi Hv Hf.
  { destruct (write_start indent (PTree d l) Hi) as (x & r & E & _). rewrite E in Hf. cbn in Hf. lia. }
  apply verify_children in Hv as (_ & Hd & Hv). intros s rest w Hr Hw Hs Hc Hk.
  destruct l as [|kv0 l0]; [rewrite write_value in Hs by exact Hi; now apply (string_written f d s rest w)|].
  set (l := kv0 :: l0) in *. assert (l <> []) as Hl by discriminate. specialize (Hd Hl). subst d.
  assert (Forall (fun kv => value_reads f (snd kv) (write_json_helper pretty (indent + 1) (snd kv))) l) as Hx.
  { rewrite List.Forall_forall in *. intros x Hin. pose proof (children_shorter indent [] l x Hin). apply IH; auto with lia. }
  destruct (is_array l) eqn:Ea; [now apply (array_written f indent [] l s rest w)|].
  destruct (write_start indent (PTree [] l) Hi) as (x & r & E & Hso & _).
  rewrite (value_dispatch f s "{"%char (newline pretty ++ all member_text indent l ++ indentation pretty indent ++ $"}" ++ rest));
    [|rewrite Hs, write_object by auto; rewrite <- !app_assoc; apply blank_solid; [exact Hw|now split]|now split|now right].
  apply alt_hit. rewrite (object_written f indent [] l s rest w); auto with lia. now rewrite opened_push.
Qed.
End Read.
End Text.

(** ** Every input *)

(** Trees without data in inner nodes. *)
Definition valid (t : ptree) : Prop := verify_json 1 t = true.

Lemma verify_depth t : forall depth, verify_json (S depth) t = verify_json 1 t.
Proof.
  induction t as [d l IH] using ptree_ind'. intros depth. cbn [verify_json Nat.eqb Nat.add]. f_equal.
  induction IH as [|[k v] l Hv _ IHl]; [reflexivity|]. cbn [snd] in Hv. rewrite IHl. f_equal. rewrite (Hv 1%nat). apply Hv.
Qed.

Lemma valid_node d l : valid (PTree d l) <-> (d = [] \/ l = []) /\ Forall (fun kv => valid (snd kv)) l.
Proof.
  assert ((fix all (l : list (cstring * ptree)) : bool :=
             match l with [] => true | (_, v) :: l' => verify_json (1 + 1) v && all l' end) l = true
          <-> Forall (fun kv => valid (snd kv)) l) as E.
  { induction l as [|[k v] l IH]; [split; [intros _; apply List.Forall_nil|reflexivity]|].
    rewrite andb_true_iff, IH, Forall_cons. unfold valid. cbn [snd]. now rewrite verify_depth. }
  unfold valid at 1. cbn [verify_json Nat.eqb]. rewrite andb_true_iff, E. destruct d, l; cbn; intuition (auto; discriminate).
Qed.

Lemma verify_root l : Forall (fun kv => valid (snd kv)) l -> verify_json 0 (PTree [] l) = true.
Proof.
  intros H. cbn [verify_json Nat.eqb andb negb Nat.add].
  induction H as [|[k v] l Hv _ IH]; [reflexivity|]. cbn [snd] in Hv. unfold valid in Hv. now rewrite Hv.
Qed.

(** The nodes on the stack have no data. *)
Fixpoint opens (n : nat) (t : ptree) : Prop :=
  pt_data t = [] /\
  match n with
  | S (S _ as n') => exists l k c, pt_children t = l ++ [(k, c)] /\ opens n' c
  | _ => True
  end.

Lemma opens_data n t : opens n t -> pt_data t = [].
Proof. destruct n; now intros [? _]. Qed.

Lemma opens_pop n : forall t, opens (S n) t -> opens n t.
Proof.
  induction n as [|n IH]; intros t H; [exact H|]. destruct H as [Hd H]. split; [exact Hd|]. destruct n as [|n]; [exact I|].
  destruct H as (l & k & c & E & Hc). exists l, k, c. split; [exact E|]. now apply IH.
Qed.

Lemma push_valid t k v : pt_data t = [] -> valid t -> valid v -> valid (push_child (k, v) t).
Proof.
  destruct t as [d l]. cbn [pt_data]. intros -> Ht Hv. apply valid_node in Ht as [_ Ht]. apply valid_node. split; [now left|].
  apply Forall_app. split; [exact Ht|]. now constructor; [|apply List.Forall_nil].
Qed.

Lemma on_back_opens n k v : forall t, (1 <= n)%nat -> opens n t -> valid t -> valid v ->
  let t' := on_back n (push_child (k, v)) t in opens n t' /\ valid t' /\ (pt_data v = [] -> opens (S n) t').
Proof.
  induction n as [|n IH]; intros t Hn Ho Ht Hv; [lia|]. destruct n as [|n].
  - cbn [on_back]. split; [exact Ho|]. split; [apply push_valid; auto; exact (opens_data _ _ Ho)|].
    intros Hd. destruct t as [d l]. split; [exact (opens_data _ _ Ho)|]. exists l, k, v. split; [reflexivity|]. now split.
  - destruct t as [d l], Ho as [Hd (l0 & k0 & c & E & Hc)]. cbn [pt_data pt_children] in Hd, E. subst d l.
    apply valid_node in Ht as [_ Ht]. apply Forall_app in Ht as [Ht0 Ht]. apply Forall_cons_1 in Ht as [Htc _]. cbn [snd] in Htc.
    destruct (IH c ltac:(lia) Hc Htc Hv) as (H1 & H2 & H3).
    change (on_back (S (S n)) (push_child (k, v)) (PTree [] (l0 ++ [(k0, c)])))
      with (PTree [] (update_last (on_back (S n) (push_child (k, v))) (l0 ++ [(k0, c)]))).
    rewrite update_last_snoc. split; [|split].
    + split; [reflexivity|]. eexists l0, k0, _. split; [reflexivity|exact H1].
    + apply valid_node. split; [now left|]. apply Forall_app. split; [exact Ht0|]. constructor; [exact H2|apply List.Forall_nil].
    + intros Hp. split; [reflexivity|]. eexists l0, k0, _. split; [reflexivity|]. now apply H3.
Qed.

Section Safe.
Context {C : Comments} {CL : CommentsLaws C}.

(** The context with [n] nodes on the stack. *)
Definition in_context (n : nat) (s : scanner) : Prop := c_stack s = n /\ opens n (c_root s) /\ valid (c_root s).

(** An exception of the parser. *)
Definition thrown (e : json_error) : Prop := match e with Loop | stack_empty | bad_escape => False | _ => True end.

(** A semantic action. *)
Definition acts (n m : nat) (a : st scanner json_error ()) : Prop :=
  forall s, in_context n s -> match a s with Ok (_, s') => first s' = first s /\ in_context m s' | Err e => thrown e end.

(** A parser on less than [bound] characters: it ends, consumes, and leaves [m]
    nodes on the stack when it matches. *)
Definition parses (bound n m : nat) (strict : bool) (p : st scanner json_error bool) : Prop :=
  forall s, in_context n s -> (length (first s) < bound)%nat ->
    match p s with
    | Ok (h, s') =>
        (length (first s') <= length (first s))%nat /\ in_context (if (h : bool) then m else n) s'
        /\ (h = true -> strict = true -> length (first s') < length (first s))%nat
    | Err e => thrown e
    end.

(** A parser that throws or matches. *)
Definition sure (p : st scanner json_error bool) : Prop := forall s s', p s <> Ok (false, s').

Lemma in_context_first n s f : in_context n s -> in_context n (set_first f s).
Proof. exact (fun H => H). Qed.

Lemma skip_shorter s : (length (skip_text s) <= length s)%nat.
Proof.
  unfold skip_text. generalize (length s) at 1. intros n. revert s.
  induction n as [|n IH]; intros [|c s]; cbn [skip_loop]; try apply Nat.le_refl.
  destruct (isspace c); [etransitivity; [apply IH|cbn; lia]|].
  destruct (comment_p (c :: s)) as [s'|] eqn:E; [|apply Nat.le_refl]. apply comment_shorter in E. etransitivity; [apply IH|lia].
Qed.

Lemma parses_seq b n m k x y p q :
  parses b n m x p -> parses b m k y q -> sure q \/ n = m -> parses b n k (x || y) (seq p q).
Proof.
  intros Hp Hq Hn s Hs Hb. specialize (Hp s Hs Hb). unfold seq. run. destruct (p s) as [[[] s1]|e]; [|intuition; discriminate|exact Hp].
  destruct Hp as (L1 & C1 & S1). specialize (Hq s1 C1 ltac:(lia)). destruct (q s1) as [[[] s2]|e] eqn:E2; [| |exact Hq].
  - destruct Hq as (L2 & C2 & S2). split; [lia|]. split; [exact C2|]. intros _ Hx. apply orb_true_iff in Hx as [Hx|Hx]; [specialize (S1 eq_refl Hx)|specialize (S2 eq_refl Hx)]; lia.
  - destruct Hn as [Hn|<-]; [now apply Hn in E2|]. destruct Hq as (L2 & C2 & _). split; [lia|]. split; [exact C2|discriminate].
Qed.

(** Behind a character there is less to read. *)
Lemma parses_strict b n m k y p q :
  parses (S b) n m true p -> parses b m k y q -> sure q \/ n = m -> parses (S b) n k true (seq p q).
Proof.
  intros Hp Hq Hn s Hs Hb. specialize (Hp s Hs Hb). unfold seq. run. destruct (p s) as [[[] s1]|e]; [|intuition; discriminate|exact Hp].
  destruct Hp as (L1 & C1 & S1). specialize (S1 eq_refl eq_refl). specialize (Hq s1 C1 ltac:(lia)).
  destruct (q s1) as [[[] s2]|e] eqn:E2; [| |exact Hq]; destruct Hq as (L2 & C2 & _).
  - split; [lia|]. split; [exact C2|]. lia.
  - destruct Hn as [Hn|<-]; [now apply Hn in E2|]. split; [lia|]. split; [exact C2|discriminate].
Qed.

Lemma parses_alt b n m x p q : parses b n m x p -> parses b n m x q -> parses b n m x (alt p q).
Proof.
  intros Hp Hq s Hs Hb. specialize (Hp s Hs Hb). unfold alt. run. destruct (p s) as [[[] s1]|e]; [exact Hp| |exact Hp].
  destruct Hp as (_ & C1 & _). exact (Hq (set_first (first s) s1) C1 Hb).
Qed.

Lemma parses_opt b n x p : parses b n n x p -> parses b n n false (opt p).
Proof.
  intros Hp s Hs Hb. specialize (Hp s Hs Hb). unfold opt. run. destruct (p s) as [[[] s1]|e]; [|cbn; intuition; discriminate|exact Hp].
  destruct Hp as (L1 & C1 & _). split; [exact L1|]. split; [exact C1|discriminate].
Qed.

Lemma parses_loop n p : forall k b s, parses b n n true p -> in_context n s -> (length (first s) < b)%nat -> (length (first s) < k)%nat ->
  match star_loop k p s with
  | Ok (h, s') => h = true /\ (length (first s') <= length (first s))%nat /\ in_context n s'
  | Err e => thrown e
  end.
Proof.
  induction k as [|k IH]; intros b s Hp Hs Hb Hk; [lia|]. cbn [star_loop]. pose proof (Hp s Hs Hb) as H. run.
  destruct (p s) as [[[] s1]|e]; [|cbn; intuition|exact H]. destruct H as (L1 & C1 & S1). specialize (S1 eq_refl eq_refl).
  specialize (IH b s1 Hp C1 ltac:(lia) ltac:(lia)). destruct (star_loop k p s1) as [[h s2]|e]; [|exact IH].
  destruct IH as (-> & L2 & C2). split; [reflexivity|]. split; [lia|exact C2].
Qed.

Lemma parses_star b n p : parses b n n true p -> parses b n n false (star p).
Proof.
  intros Hp s Hs Hb. unfold star. run. pose proof (parses_loop n p (S (length (first s))) b s Hp Hs Hb ltac:(lia)) as H.
  destruct (star_loop _ p s) as [[h s2]|e]; [|exact H]. destruct H as (-> & L2 & C2). split; [exact L2|]. split; [exact C2|discriminate].
Qed.

Lemma parses_expect b n m x e p : parses b n m x p -> thrown e -> parses b n m x (expect e p).
Proof.
  intros Hp He s Hs Hb. specialize (Hp s Hs Hb). unfold expect. run. now destruct (p s) as [[[] s1]|e'].
Qed.

Lemma parses_bound b b' n m x p : parses b n m x p -> (b' <= b)%nat -> parses b' n m x p.
Proof. intros Hp Hb s Hs Hl. apply Hp; [exact Hs|lia]. Qed.

Lemma parses_weaken b n m x p : parses b n m x p -> parses b n m false p.
Proof.
  intros Hp s Hs Hb. specialize (Hp s Hs Hb). destruct (p s) as [[h s1]|e]; [|exact Hp].
  destruct Hp as (L & Hc & _). split; [exact L|]. split; [exact Hc|discriminate].
Qed.

Lemma parses_lex b n m p a : (forall c, p c = true -> acts n m (a c)) -> parses b n m true (lex_char p a).
Proof.
  intros Ha s Hs Hb. unfold lex_char. run. destruct (first s) as [|c r] eqn:Ef; [rewrite Ef; split; [apply Nat.le_refl|now split]|].
  destruct (p c) eqn:Ep; [|rewrite Ef; split; [apply Nat.le_refl|now split]]. specialize (Ha c Ep (set_first r s) Hs).
  destruct (a c (set_first r s)) as [[u s1]|e]; [|exact Ha]. destruct Ha as [E1 C1]. rewrite E1. cbn [first set_first length].
  split; [lia|]. split; [exact C1|lia].
Qed.

(** The skipper before a parser. *)
Lemma parses_skip b n m x p : parses b n m x p -> parses b n m x (skip ;; p).
Proof.
  intros Hp s Hs Hb. unfold skip. run. pose proof (skip_shorter (first s)) as Hk.
  specialize (Hp (set_first (skip_text (first s)) s) Hs). cbn [first set_first] in Hp. specialize (Hp ltac:(lia)).
  destruct (p _) as [[h s1]|e]; [|exact Hp]. destruct Hp as (L1 & C1 & S1). split; [lia|]. split; [exact C1|].
  intros H1 H2. specialize (S1 H1 H2). lia.
Qed.

Lemma parses_char b n m p a : (forall c, p c = true -> acts n m (a c)) -> parses b n m true (char_p p a).
Proof. intros Ha. apply parses_skip, parses_lex, Ha. Qed.

Lemma acts_none n c : acts n n (no_action c).
Proof. intros s Hs. now split. Qed.

Lemma parses_action b n m x p a :
  parses b n n x p -> (forall t, acts n m (a t)) -> parses b n m x (action p a).
Proof.
  intros Hp Ha. apply parses_skip. intros s Hs Hb. specialize (Hp s Hs Hb). run.
  destruct (p s) as [[[] s1]|e]; [| |exact Hp]; destruct Hp as (L1 & C1 & S1); [|now split].
  match goal with |- context [a ?t s1] => specialize (Ha t s1 C1); destruct (a t s1) as [[u s2]|e] end; [|exact Ha].
  destruct Ha as [E2 C2]. rewrite E2. auto.
Qed.

Lemma parses_str b n t : t <> [] -> parses b n n true (str_p t).
Proof.
  intros Ht. apply parses_skip. intros s Hs Hb. run. destruct (is_prefix t (first s)) eqn:E; [|split; [apply Nat.le_refl|now split]].
  cbn [first set_first]. rewrite length_drop. destruct t as [|c t]; [contradiction|]. destruct (first s) as [|c' r]; [discriminate|].
  cbn [length]. split; [lia|]. split; [exact Hs|lia].
Qed.

Lemma parses_end b n : parses b n n false end_p.
Proof. apply parses_skip. intros s Hs Hb. run. split; [apply Nat.le_refl|]. now destruct (first s). Qed.

Lemma acts_string n t : acts n n (add_string t).
Proof. intros s Hs. now split. Qed.

Lemma parses_unicode b n : parses b n n true unicode_p.
Proof.
  intros s Hs Hb. unfold unicode_p. run. destruct (first s) as [|c1 [|c2 [|c3 [|c4 r]]]] eqn:Ef;
    try (rewrite Ef; split; [apply Nat.le_refl|now split]).
  destruct (hex_value c1), (hex_value c2), (hex_value c3), (hex_value c4); try (rewrite Ef; split; [apply Nat.le_refl|now split]).
  cbn. split; [lia|]. split; [exact Hs|lia].
Qed.

Lemma parses_escape b n : parses b n n true escape.
Proof.
  apply parses_alt.
  - apply parses_lex. intros c Hc s Hs. unfold a_escape, mem_char in *.
    repeat (match goal with |- context [if ?x then _ else _] => destruct x eqn:? end; [now split|]).
    exfalso. revert Hc. cbn [existsb app list_ascii_of_string]. rewrite !orb_true_iff. intuition congruence.
  - apply (parses_seq b n n n true true); [apply parses_lex; intros; apply acts_none|apply parses_unicode|now right].
Qed.

Lemma parses_character b n : parses b n n true character.
Proof.
  apply parses_alt; [apply parses_lex; intros; apply acts_string|].
  apply (parses_seq b n n n true true); [apply parses_lex; intros; apply acts_none| |now right].
  apply parses_expect; [apply parses_escape|exact I].
Qed.

Lemma parses_string b n : parses b n n true string.
Proof.
  assert (parses b n n true quoted) as Hq.
  { apply parses_skip. apply (parses_seq b n n n true false); [apply parses_lex; intros; apply acts_none| |now right].
    apply parses_weaken with (x := false || true).
    apply (parses_seq b n n n); [apply parses_star, parses_character|apply parses_lex; intros; apply acts_none|now right]. }
  apply (parses_seq b n n n true false); [exact Hq|now apply parses_star|now right].
Qed.

Lemma parses_digits b n : parses b n n true (plus digit_p).
Proof.
  assert (parses b n n true digit_p) as H by (apply parses_char; intros; apply acts_none).
  apply (parses_seq b n n n true false); [exact H|now apply parses_star|now right].
Qed.

Lemma parses_set b n p : parses b n n true (char_p p no_action).
Proof. apply parses_char. intros. apply acts_none. Qed.

Lemma parses_number b n : parses b n n true number.
Proof.
  apply (parses_seq b n n n false true); [eapply parses_opt, parses_set| |now right].
  apply (parses_seq b n n n true false); [| |now right].
  - apply parses_alt; [apply parses_set|].
    apply (parses_seq b n n n true false); [apply parses_set|apply parses_star, parses_set|now right].
  - apply (parses_seq b n n n false false); [| |now right]; eapply parses_opt.
    + apply (parses_seq b n n n true true); [apply parses_set|apply parses_digits|now right].
    + apply (parses_seq b n n n true true); [apply parses_set| |now right].
      apply (parses_seq b n n n false true); [eapply parses_opt, parses_set|apply parses_digits|now right].
Qed.

Lemma parses_literal b n : parses b n n true literal.
Proof. apply parses_alt; [apply parses_number|]. repeat (apply parses_alt; [now apply parses_str|]). now apply parses_str. Qed.

(** *** The actions on the stack *)

Lemma acts_open n : acts n (S n) a_object_s.
Proof.
  intros s (Hn & Ho & Hv). unfold a_object_s. run. rewrite Hn. destruct n as [|n]; cbn [Nat.eqb].
  - split; [reflexivity|]. split; [reflexivity|]. split; [exact Ho|exact Hv].
  - split; [reflexivity|]. split; [reflexivity|]. cbn [c_root set_name set_stack set_root push_value]. rewrite Hn.
    destruct (on_back_opens (S n) (c_name s) empty_tree (c_root s)) as (_ & H2 & H3); [lia|exact Ho|exact Hv|reflexivity|].
    split; [now apply H3|exact H2].
Qed.

Lemma acts_close n : acts (S n) n a_object_e.
Proof.
  intros s (Hn & Ho & Hv). unfold a_object_e, assert_stack. run. rewrite Hn. cbn [Nat.leb]. rewrite Hn. split; [reflexivity|].
  split; [cbn; lia|]. split; [now apply opens_pop|exact Hv].
Qed.

Lemma acts_name n : acts n n a_name.
Proof. intros s Hs. now split. Qed.

Lemma acts_value n t : acts (S n) (S n) (a_literal_val t).
Proof.
  intros s (Hn & Ho & Hv). unfold a_literal_val, assert_stack. run. rewrite Hn. cbn [Nat.leb]. split; [reflexivity|]. split; [exact Hn|].
  cbn [c_root set_string set_name set_root push_value]. rewrite Hn.
  destruct (on_back_opens (S n) (c_name s) (pt_value t) (c_root s)) as (H1 & H2 & _); auto with lia.
  apply valid_node. split; [now right|apply List.Forall_nil].
Qed.

Lemma acts_string_val n : acts (S n) (S n) a_string_val.
Proof.
  intros s Hs. pose proof (acts_value n (c_string s) s Hs) as H. revert H. unfold a_string_val, a_literal_val, assert_stack. run.
  now destruct (1 <=? c_stack s)%nat.
Qed.

(** *** Parsers that throw or match *)

Lemma sure_expect e p : sure (expect e p).
Proof. intros s s'. unfold expect. run. now destruct (p s) as [[[] s1]|e']. Qed.

Lemma sure_seq p q : sure p -> sure q -> sure (seq p q).
Proof. intros Hp Hq s s'. unfold seq. run. destruct (p s) as [[[] s1]|e] eqn:E; [apply Hq|now apply Hp in E|discriminate]. Qed.

Lemma sure_alt p q : sure q -> sure (alt p q).
Proof. intros Hq s s'. unfold alt. run. destruct (p s) as [[[] s1]|e]; [discriminate|apply Hq|discriminate]. Qed.

Lemma sure_star p : sure (star p).
Proof.
  intros s s'. unfold star. run. generalize (S (length (first s))). intros k. revert s.
  induction k as [|k IH]; intros s; cbn [star_loop]; run; [discriminate|]. destruct (p s) as [[[] s1]|e]; [apply IH|discriminate..].
Qed.

Lemma sure_list p q : sure p -> sure (list_p p q).
Proof. intros Hp. apply sure_seq; [exact Hp|apply sure_star]. Qed.

Lemma sure_member v : sure (member v).
Proof. repeat apply sure_seq; apply sure_expect. Qed.

(** *** Values *)

Lemma parses_member b n v : parses b n n true v -> parses b n n true (member v).
Proof.
  intros Hv. apply (parses_seq b n n n true true); [| |now right].
  - apply parses_expect; [|exact I]. apply parses_action; [apply parses_string|intros; apply acts_name].
  - apply (parses_seq b n n n true true); [apply parses_expect; [apply parses_set|exact I]|now apply parses_expect|now right].
Qed.

Lemma parses_list b n item : parses b n n true item -> parses b n n true (list_p item (ch_p ",")).
Proof.
  intros Hi. apply (parses_seq b n n n true false); [exact Hi| |now right].
  apply parses_star. apply (parses_seq b n n n true true); [apply parses_set|exact Hi|now right].
Qed.

Lemma parses_container b n item o c e :
  parses b (S n) (S n) true item -> sure item -> thrown e -> parses (S b) n n true (container item o c e).
Proof.
  intros Hi Hsi He. assert (parses b (S n) n true (close_p c)) as Hc by (apply parses_char; intros; apply acts_close).
  apply (parses_strict b n (S n) n true).
  - apply parses_char. intros. apply acts_open.
  - apply parses_alt; [exact Hc|]. apply (parses_seq b (S n) (S n) n true true); [now apply parses_list|now apply parses_expect|now right].
  - left. apply sure_alt, sure_seq; [now apply sure_list|apply sure_expect].
Qed.

Lemma parses_containers b n v : parses b (S n) (S n) true v -> parses (S b) n n true (alt (object v) (array v)).
Proof.
  intros Hv. apply parses_alt.
  - apply (parses_container b n (member v) "{" "}" expected_objclose); [now apply parses_member|apply sure_member|exact I].
  - apply (parses_container b n (expect expected_value v) "[" "]" expected_arrclose); [now apply parses_expect|apply sure_expect|exact I].
Qed.

Lemma parses_value fuel : forall n, parses fuel (S n) (S n) true (value fuel).
Proof.
  induction fuel as [|f IH]; intros n; [intros s _ Hb; lia|]. cbn [value]. apply parses_alt; [|apply parses_alt].
  - apply parses_action; [apply parses_string|intros; apply acts_string_val].
  - apply parses_action; [apply parses_literal|intros; apply acts_value].
  - apply parses_containers, IH.
Qed.
End Safe.

(** ** The two together *)

Lemma read_written {C : Comments} {CL : CommentsLaws C} pretty t text :
  write_json pretty t = Some text -> read_json text = Ok t.
Proof.
  unfold write_json. destruct (verify_json 0 t) eqn:Hv; [|discriminate]. intros [= <-]. destruct t as [d l].
  apply verify_children in Hv as (Hd & _ & Hv). specialize (Hd eq_refl). subst d.
  set (text := write_json_helper pretty 0 (PTree [] l)). unfold read_json, root.
  rewrite (seq_hit _ _ _ (Scanner [LF] [] [] (PTree [] l) 0)); [reflexivity|].
  apply expect_hit, alt_hit. rewrite (object_written pretty _ 0 [] l _ [LF] []); auto.
  - cbn [opened c_stack c_root set_stack Nat.eqb]. now rewrite push_all_root.
  - rewrite List.Forall_forall in *. intros x Hin. pose proof (children_shorter pretty 0 [] l x Hin) as H.
    apply (value_written pretty (snd x) 1); [auto|now apply Hv|]. rewrite length_app. fold text in H. cbn [Nat.add] in H. lia.
  - apply List.Forall_nil.
Qed.

Lemma root_parses {C : Comments} {CL : CommentsLaws C} n : parses (S n) 0 0 false (root (S n)).
Proof.
  apply parses_weaken with (x := true). apply (parses_seq (S n) 0 0 0 true false); [| |now right].
  - apply parses_expect; [|exact I]. apply parses_bound with (b := S (S n)); [apply parses_containers, parses_value|lia].
  - apply parses_expect; [apply parses_end|exact I].
Qed.

Lemma read_safe {C : Comments} {CL : CommentsLaws C} text :
  match read_json text with Ok t => verify_json 0 t = true | Err e => thrown e end.
Proof.
  set (s0 := Scanner text [] [] empty_tree 0). assert (in_context 0 s0) as Hs by (repeat split).
  pose proof (root_parses (length text) s0 Hs (Nat.lt_succ_diag_r _)) as H. unfold read_json. fold s0.
  destruct (root _ s0) as [[[] s]|e]; [|exact I|exact H]. destruct H as (_ & (_ & Ho & Hv) & _).
  destruct (c_root s) as [d l]. apply opens_data in Ho. cbn [pt_data] in Ho. subst d.
  apply verify_root. now apply valid_node in Hv as [_ Hv].
Qed.

(** ** Properties *)

(** C15: messages survive JSON.  For every tree that can be written, with or
    without indentation, reading the text gives the tree back: data with any bytes,
    empty and duplicate names, objects and arrays of any depth.  Every text is read
    to its end or refused with one of the errors of the grammar: no assertion of
    the semantic actions fails and no loop runs forever, whatever the nesting; and
    what was read from any text can be written, and is read back again. *)
Theorem json_roundtrip {C : Comments} {CL : CommentsLaws C} (pretty : bool) :
  (forall t text, write_json pretty t = Some text -> read_json text = Ok t)
  /\ (forall text, match read_json text with
                   | Ok t => exists text', write_json pretty t = Some text' /\ read_json text' = Ok t
                   | Err e => thrown e
                   end).
Proof.
  split; [apply read_written|]. intros text. pose proof (read_safe text) as H. destruct (read_json text) as [t|e]; [|exact H].
  assert (write_json pretty t = Some (write_json_helper pretty 0 t ++ [LF])) as E by (unfold write_json; now rewrite H).
  eexists. split; [exact E|]. exact (read_written pretty t _ E).
Qed.

(** A code unit of a surrogate pair is not combined with its partner: it becomes
    four bytes that are no UTF-8, as F0 is never followed by 8D there. *)
Theorem utf8_surrogate (u : Z) :
  55296 <= u < 57344 -> exists b c, utf8 u = [chr 240; chr 141; b; c].
Proof.
  intros Hu. unfold utf8.
  replace (u <? 128) with false by (symmetry; apply Z.ltb_ge; lia). replace (u <? 2048) with false by (symmetry; apply Z.ltb_ge; lia).
  replace (u <? 55296) with false by (symmetry; apply Z.ltb_ge; lia). replace (57344 <=? u) with false by (symmetry; apply Z.leb_gt; lia).
  cbn [orb]. rewrite !Z.shiftr_div_pow2 by lia. rewrite (Z.mod_small u 262144) by lia.
  replace (u / 2 ^ 18) with 0 by (symmetry; apply Z.div_small; lia).
  replace (u / 2 ^ 12) with 13 by (change (2 ^ 12) with 4096; zdiv). now eexists _, _.
Qed.

(** Comments of both kinds. *)
#[refine] Instance c_comments : Comments := {
  comment_p := fun s =>
    match s with
    | a :: b :: r =>
        if (a =c "/") && (b =c "/") then Some (drop 1 (drop_while (fun c => negb (c =c LF)) r))
        else if (a =c "/") && (b =c "*") then
          match find_str ($"*/") r with Some n => Some (drop (n + 2) r) | None => None end
        else None
    | _ => None
    end
}.
Proof. Defined.

#[refine] Instance c_comments_laws : CommentsLaws c_comments := {}.
Proof.
  - intros c s Hc. cbn [comment_p c_comments]. destruct s as [|b r]; [reflexivity|]. now rewrite Hc.
  - intros [|a [|b r]] s'; cbn [comment_p c_comments]; try discriminate. pose proof (drop_while_length (fun c => negb (c =c LF)) r).
    destruct ((a =c "/") && (b =c "/")); [intros [= <-]; rewrite length_drop; cbn [length]; lia|].
    destruct ((a =c "/") && (b =c "*")); [|discriminate]. destruct (find_str _ r) as [n|]; [|discriminate].
    intros [= <-]. rewrite length_drop. cbn [length]. lia.
Defined.

Definition example_tree : ptree :=
  PTree [] [($"channel", pt_value ($"avplayer")); ($"message", PTree [] [($"text", pt_value ($"a/b" ++ [quote_char; TAB]))]);
            ($"list", PTree [] [([], pt_value ($"1")); ([], pt_value [])])].

Lemma json_roundtrip_witness :
  read_json (default [] (write_json true example_tree)) = Ok example_tree
  /\ exists text', write_json true empty_tree = Some text' /\ read_json text' = Ok empty_tree.
Proof.
  split; [apply (json_roundtrip true); reflexivity|].
  exact (proj2 (json_roundtrip true) ($"{ /* none */ } // end")).
Defined.
