(* ===== verification/Rpc.v ===== *)
(** The remote procedure server, rpc/server.cpp: [avbot_rpc_server], one object
    for each connection.

    Its coroutine [client_loop] is always suspended behind one operation, the
    member [rpc_at] of the state; [handle_rpc] ends it, or delivers a message of
    the bot to [callback_message].  Requests are read with Httpd.v, messages are
    written with Json.v and wait in a queue of CoroQueue.v; the reader of JSON is the class
    [JsonReader], and the search in the log of the bot ends with an event. *)

From S2P Require Import Prelude CLib EscapeString Url Settings Cookie HttpParsers HttpBody HttpStream Transport.
From S2P Require Import Regex CoroQueue Socks Httpd PTree Json JsonFacts.

(** [boost::property_tree::json_parser::read_json]; [None] is its exception.  *)
Class JsonReader := { parse_json : cstring -> option ptree }.
(** What was written is read back. *)
Class JsonReaderLaws (J : JsonReader) := {
  parse_written : forall pretty t text, write_json pretty t = Some text -> parse_json text = Some t
}.

(** Where [client_loop] is suspended.  [Popped] is the posted call of [on_pop],
    [WriteMessage] and [WriteResult] the writes of [on_pop] and [done_search],
    [Sent] the posted call behind them ([returns] tells whether the coroutine
    ends then); [Refuse] is a response without a body, behind which it ends. *)
Inductive rpc_point : Type :=
| ReadRequest
| InQueue
| Popped (v : cstring)
| WriteMessage (v : cstring)
| Searching (c q date : cstring)
| WriteResult (v : cstring)
| Sent (returns : bool)
| Refuse (status : Z)
| ReadBody (n : Z)
| WriteReply (status : Z)
| Idle
| Closed.

(** [BadCast] and [BadWrite] are the exceptions of [lexical_cast] and
    [write_json] that leave a handler. *)
Inductive rpc_fault : Type := HttpFault (f : fault) | RpcQueue (f : queue_fault) | BadCast | BadWrite.

Abbreviation responses := (coro_queue cstring (C := circular_buffer cstring 20) unit unit).

Record rpc {N : Network} : Type := RpcServer {
  m_socket : sock;
  m_streambuf : cstring;
  m_request : hopts;
  m_responses : responses;
  rpc_at : rpc_point;
  (** The messages that reached [m_responses]. *)
  broadcasts : list ptree
}.

(** ** Helpers of the source's libraries *)

Definition search_re : regex :=
  lit ($"/search?channel=") (Seq (Group (Star (not_char "&"))) (lit ($"&q=") (Seq (Group (Star (not_char "&")))
    (lit ($"&date=") (Seq (Group (Star (not_char "&"))) (Star any_char)))))).
Definition search_only_re : regex := lit ($"/search") (Opt (Group (Chr (fun c => c =c "?")))).
Definition status_re : regex := lit ($"/status") (Opt (Group (Chr (fun c => c =c "?")))).

(** [boost::lexical_cast<std::size_t>]: digits with an optional sign. *)
Definition lexical_cast_size (s : cstring) : option Z :=
  let '(neg, ds) := match s with
                    | c :: s' => if c =c "-" then (true, s') else if c =c "+" then (false, s') else (false, s)
                    | [] => (false, [])
                    end in
  match ds with
  | [] => None
  | _ =>
      if forallb isdigit ds && (dec_value ds <? 2 ^ 64)
      then Some (if (neg : bool) then wrapu 64 (- dec_value ds) else dec_value ds)
      else None
  end.

Section Rpc.
Context {N : Network} {T : Transport N} {E : RegexEngine} {J : JsonReader}.
Variable asserts : bool.
(** The slots of the bot, which the signal calls first: [false] is an exception
    of the property tree. *)
Variable forwards : ptree -> bool.

Abbreviation A := (st rpc rpc_fault).

Definition set_at (p : rpc_point) (s : rpc) : rpc :=
  RpcServer _ (m_socket s) (m_streambuf s) (m_request s) (m_responses s) p (broadcasts s).
Definition set_socket (k : sock) (s : rpc) : rpc :=
  RpcServer _ k (m_streambuf s) (m_request s) (m_responses s) (rpc_at s) (broadcasts s).
Definition set_streambuf (b : cstring) (s : rpc) : rpc :=
  RpcServer _ (m_socket s) b (m_request s) (m_responses s) (rpc_at s) (broadcasts s).
Definition set_rpc_request (o : hopts) (s : rpc) : rpc :=
  RpcServer _ (m_socket s) (m_streambuf s) o (m_responses s) (rpc_at s) (broadcasts s).
Definition set_responses (q : responses) (s : rpc) : rpc :=
  RpcServer _ (m_socket s) (m_streambuf s) (m_request s) q (rpc_at s) (broadcasts s).
Definition add_broadcast (j : ptree) (s : rpc) : rpc :=
  RpcServer _ (m_socket s) (m_streambuf s) (m_request s) (m_responses s) (rpc_at s) (broadcasts s ++ [j]).

Definition suspend (p : rpc_point) : A () := st_modify (set_at p).

(** An operation on [m_responses]; the call it posts is that of [on_pop]. *)
Definition on_responses (o : queue_op) : A () :=
  s ← st_get;
  match queue_step [] asserts o (m_responses s) with
  | Err f => st_fail (RpcQueue f)
  | Ok (calls, q) =>
      st_modify (set_responses q) ;;
      match calls with PopCall _ _ v :: _ => suspend (Popped v) | _ => mret () end
  end.

Definition callback_message (jsonmessage : ptree) : A bool :=
  match write_json true jsonmessage with
  | None => mret false
  | Some buf => st_modify (add_broadcast jsonmessage) ;; on_responses (OpPush buf) ;; mret true
  end.

(** The signal of the bot: every connection hears it, also the one that caused
    it; [false] tells that a slot threw. *)
Definition broadcast_message (j : ptree) : A bool := if forwards j then callback_message j else mret false.

Definition process_post (bytes_transfered : nat) : A Z :=
  s ← st_get;
  let messagebody := take bytes_transfered (m_streambuf s) in
  st_modify (set_streambuf (drop bytes_transfered (m_streambuf s))) ;;
  match parse_json messagebody with
  | None => mret 500
  | Some msg => sent ← broadcast_message msg; mret (if (sent : bool) then 200 else 500)
  end.

(** The options of [on_pop] and [done_search]. *)
Definition json_options (version v : cstring) : hopts :=
  let o := opt_insert httpd_options.content_type ($"application/json; charset=utf8") [] in
  let o := opt_insert httpd_options.content_length (itoa (size v)) o in
  let o := opt_insert ($"Cache-Control") ($"no-cache") o in
  let o := opt_insert httpd_options.connection ($"keep-alive") o in
  opt_insert httpd_options.http_version version o.

(** The options of the reply to a POST. *)
Definition reply_options (s : rpc) : hopts :=
  let o := opt_insert httpd_options.content_length ($"4") [] in
  let o := opt_insert httpd_options.content_type ($"text/plain") o in
  let o := opt_insert ($"Cache-Control") ($"no-cache") o in
  opt_insert httpd_options.http_version (opt_value httpd_options.http_version (m_request s)) o.

Definition on_socket (f : sock -> error_code * sock) : A error_code :=
  s ← st_get; let '(ec, k) := f (m_socket s) in st_modify (set_socket k) ;; mret ec.

Definition on_pop (v : cstring) : A () := suspend (WriteMessage v).
Definition done_search (jsonout : ptree) : A () :=
  match write_json true jsonout with Some v => suspend (WriteResult v) | None => st_fail BadWrite end.

(** ** [client_loop] *)

(** The head of its loop. *)
Definition next_request : A () :=
  st_modify (set_rpc_request (opt_clear [])) ;; st_modify (set_streambuf []) ;; suspend ReadRequest.

(** After the request was read. *)
Definition dispatch_get (uri : cstring) : A () :=
  if str_eqb uri ($"/message") then suspend InQueue ;; on_responses (OpPop ())
  else
    match regex_match search_re uri with
    | Some what => suspend (Searching (sub_match what 0) (sub_match what 1) (sub_match what 2))
    | None =>
        match regex_match search_only_re uri with
        | Some _ => suspend (Refuse 500)
        | None =>
            match regex_match status_re uri with
            | Some _ => suspend Idle
            | None => suspend (Refuse 404)
            end
        end
    end.

Definition dispatch (ec : option httpd_error) : A () :=
  match ec with
  | Some post_without_content => suspend (Refuse 204)
  | Some header_missing_host => suspend (Refuse 400)
  | Some _ => suspend Closed
  | None =>
      s ← st_get;
      let method := opt_value httpd_options.request_method (m_request s) in
      if str_eqb method ($"GET") then dispatch_get (opt_value httpd_options.request_uri (m_request s))
      else if str_eqb method ($"POST") then
        match lexical_cast_size (opt_value httpd_options.content_length (m_request s)) with
        | None => st_fail BadCast
        | Some n => suspend (ReadBody (wrapu 64 (n - size (m_streambuf s))))
        end
      else suspend Idle
  end.

(** [async_read_request] into [m_streambuf] and [m_request]. *)
Definition read_rpc_request (fuel : nat) : A (option httpd_error) :=
  s ← st_get;
  match read_request asserts fuel (Reading _ (m_socket s) (m_streambuf s) (m_request s)) with
  | Err f => st_fail (HttpFault f)
  | Ok (ec, r) =>
      st_modify (set_socket (rd_sock r)) ;; st_modify (set_streambuf (rd_buf r)) ;;
      st_modify (set_rpc_request (rd_opts r)) ;; mret ec
  end.

(** [async_read(socket, streambuf, transfer_exactly(n))]. *)
Definition read_rpc_body (n : Z) : A () :=
  s ← st_get;
  let '(d, _, k) := read_exactly n (m_socket s) in
  st_modify (set_socket k) ;; st_modify (set_streambuf (m_streambuf s ++ d)).

(** The end of the operation that is under way. *)
Definition resume_rpc (fuel : nat) (p : rpc_point) : A () :=
  match p with
  | ReadRequest => ec ← read_rpc_request fuel; dispatch ec
  | InQueue | Searching _ _ _ | Closed => mret ()
  | Popped v => on_pop v
  | WriteMessage v =>
      s ← st_get;
      on_socket (write_response_with_streambuf 200 (json_options (opt_value httpd_options.http_version (m_request s)) v) v) ;; suspend (Sent false)
  | WriteResult v =>
      s ← st_get;
      on_socket (write_response_with_streambuf 200 (json_options (opt_value httpd_options.http_version (m_request s)) v) v) ;; suspend (Sent true)
  | Sent returns => suspend (if returns then Closed else Idle)
  | Refuse status => on_socket (write_response status []) ;; suspend Closed
  | ReadBody n =>
      read_rpc_body n ;;
      s ← st_get;
      status ← process_post (length (m_streambuf s));
      suspend (WriteReply status)
  | WriteReply status =>
      s ← st_get;
      on_socket (write_response_with_body status (reply_options s) ($"done")) ;;
      suspend (if str_eqb (opt_value httpd_options.connection (m_request s)) ($"keep-alive") then Idle else Closed)
  | Idle => next_request
  end.

Inductive rpc_event : Type :=
| Complete
| SearchDone (result : ptree)
| Message (j : ptree).

(** The object and its connection to the signal are gone when the coroutine has
    ended. *)
Definition handle_rpc (fuel : nat) (e : rpc_event) : A () :=
  s ← st_get;
  match e, rpc_at s with
  | _, Closed => mret ()
  | Complete, p => resume_rpc fuel p
  | SearchDone result, Searching _ _ _ => done_search result
  | SearchDone _, _ => mret ()
  | Message j, _ => _ ← broadcast_message j; mret ()
  end.

Fixpoint rpc_run (fuel : nat) (es : list rpc_event) : A () :=
  match es with [] => mret () | e :: es' => handle_rpc fuel e ;; rpc_run fuel es' end.

(** The object after [start()]: the first call of [client_loop] is posted. *)
Definition rpc_start (k : sock) : rpc := RpcServer _ k [] [] new_queue Idle [].
End Rpc.

(** ** Lemmas *)

Section Facts.
Context {N : Network} {T : Transport N} {E : RegexEngine} {J : JsonReader}.
Variable asserts : bool.
Variable forwards : ptree -> bool.

(** The texts of the messages. *)
Definition texts (s : rpc) : list cstring := omap (write_json true) (broadcasts s).

(** The message on its way to the client. *)
Definition in_flight (p : rpc_point) : list cstring :=
  match p with Popped v | WriteMessage v => [v] | _ => [] end.

Definition waits (p : rpc_point) : bool := match p with InQueue => true | _ => false end.

(** [out] is what was delivered: with what is in flight and in the queue, it is
    in the order of the broadcasts, and complete while the buffer is not full. *)
Record rpc_inv (out : list cstring) (s : rpc) : Prop := {
  ri_waiters : m_wait_handlers (m_responses s) = [];
  ri_handlers : m_handlers (m_responses s) = if waits (rpc_at s) then [(false, ())] else [];
  ri_empty : waits (rpc_at s) = true -> m_list (m_responses s) = [];
  ri_values : sublist (out ++ in_flight (rpc_at s) ++ m_list (m_responses s)) (texts s);
  ri_exact : (length (texts s) <= 20)%nat -> out ++ in_flight (rpc_at s) ++ m_list (m_responses s) = texts s
}.

(** Steps that leave queue and broadcasts alone. *)
Lemma rpc_inv_frame out out' (s s' : rpc) :
  rpc_inv out s -> m_responses s' = m_responses s -> broadcasts s' = broadcasts s ->
  waits (rpc_at s) = false -> waits (rpc_at s') = false ->
  out' ++ in_flight (rpc_at s') = out ++ in_flight (rpc_at s) -> rpc_inv out' s'.
Proof.
  intros [H1 H2 H3 H4 H5] Eq Eb W W' Ef. rewrite W in H2. rewrite app_assoc, <- Ef, <- app_assoc in H4, H5.
  constructor; unfold texts; rewrite ?Eq, ?Eb, ?W'; auto. discriminate.
Qed.

Lemma broadcast_inv out j s :
  rpc_inv out s -> exists sent s', broadcast_message asserts forwards j s = Ok (sent, s') /\ rpc_inv out s'
    /\ (waits (rpc_at s) = false -> rpc_at s' = rpc_at s).
Proof.
  intros HI. unfold broadcast_message. destruct (forwards j); [|now exists false, s]. unfold callback_message.
  destruct (write_json true j) as [v|] eqn:Ev; [|now exists false, s]. destruct HI as [H1 H2 H3 H4 H5]. exists true.
  destruct s as [k b o [l hs ws] p bs]. unfold texts in *. cbn [m_responses m_wait_handlers m_handlers m_list rpc_at broadcasts] in *.
  subst ws hs. unfold on_responses. run. cbn [queue_step m_responses add_broadcast].
  unfold push, push_waiters. run. cbn [m_wait_handlers m_handlers].
  assert (omap (write_json true) (bs ++ [j]) = omap (write_json true) bs ++ [v]) as Et by (rewrite omap_app; cbn; now rewrite Ev).
  assert (sublist (out ++ in_flight p ++ l ++ [v]) (omap (write_json true) (bs ++ [j]))) as S1.
  { rewrite Et, !app_assoc. rewrite app_assoc in H4. now apply sublist_app. }
  assert ((length (omap (write_json true) (bs ++ [j])) <= 20)%nat -> out ++ in_flight p ++ l ++ [v] = omap (write_json true) (bs ++ [j])) as S2.
  { rewrite Et, length_app. cbn [length]. intros Hl. rewrite <- H5 by lia. now rewrite <- !app_assoc. }
  destruct (waits p) eqn:Ew; cbn [push_handlers].
  - specialize (H3 eq_refl). subst l. unfold queue_assert. run. cbn. rewrite andb_false_r.
    eexists. split; [reflexivity|]. destruct p; try discriminate. cbn [app in_flight] in *.
    split; [|now intros]. constructor; unfold texts; cbn; auto; discriminate.
  - run. eexists. split; [reflexivity|]. split; [|reflexivity].
    constructor; unfold texts; cbn [m_responses m_wait_handlers m_handlers m_list rpc_at broadcasts set_responses add_broadcast set_list]; rewrite ?Ew; auto.
    + discriminate.
    + cbn [push_back circular_buffer]. destruct (20 <=? length l)%nat; [|exact S1].
      etransitivity; [|exact S1]. apply sublist_app; [reflexivity|]. apply sublist_app; [reflexivity|].
      destruct (l ++ [v]) as [|x t]; [reflexivity|]. now apply sublist_cons.
    + intros Hl. cbn [push_back circular_buffer]. destruct (Nat.leb_spec 20 (length l)) as [Hc|_]; [|now apply S2].
      rewrite Et, length_app in Hl. cbn [length] in Hl. specialize (H5 ltac:(lia)). apply (f_equal length) in H5.
      rewrite !length_app in H5. lia.
Qed.

(** A step from a state of the invariant: no failure of the queue. *)
Definition rpc_safe (out : list cstring) (r : result rpc_fault (() * rpc)) : Prop :=
  match r with Ok (_, s') => rpc_inv out s' | Err (RpcQueue _) => False | Err _ => True end.

(** The coroutine goes from one point to another. *)
Lemma suspend_inv out p s :
  rpc_inv out s -> waits (rpc_at s) = false -> waits p = false -> in_flight p = in_flight (rpc_at s) ->
  rpc_inv out (set_at p s).
Proof. intros HI W W' Ef. apply (rpc_inv_frame out out s); auto. cbn [rpc_at set_at]. now rewrite Ef. Qed.

Lemma pop_inv out s :
  rpc_inv out s -> waits (rpc_at s) = false -> in_flight (rpc_at s) = [] ->
  rpc_safe out ((suspend InQueue ;; on_responses asserts (OpPop ())) s).
Proof.
  intros [H1 H2 H3 H4 H5] W Ef. rewrite W in H2. rewrite Ef in H4, H5. destruct s as [k b o [l hs ws] p bs].
  cbn [m_responses m_wait_handlers m_handlers m_list rpc_at broadcasts] in *. subst ws hs.
  unfold suspend, on_responses. run. cbn [queue_step set_at m_responses]. unfold async_pop. run.
  destruct l as [|v l]; cbn; constructor; cbn; auto; discriminate.
Qed.

Lemma dispatch_inv out ec s :
  rpc_inv out s -> waits (rpc_at s) = false -> in_flight (rpc_at s) = [] -> rpc_safe out (dispatch asserts ec s).
Proof.
  intros HI W Ef. unfold dispatch.
  assert (forall p, waits p = false -> in_flight p = [] -> rpc_safe out (suspend p s)) as Hs.
  { intros p Wp Fp. cbn. apply suspend_inv; auto. now rewrite Fp, Ef. }
  destruct ec as [[]|]; try (apply Hs; reflexivity). run. destruct (str_eqb _ ($"GET")).
  - unfold dispatch_get. destruct (str_eqb _ ($"/message")); [now apply pop_inv|].
    destruct (regex_match search_re _); [apply Hs; reflexivity|].
    destruct (regex_match search_only_re _); [apply Hs; reflexivity|].
    destruct (regex_match status_re _); apply Hs; reflexivity.
  - destruct (str_eqb _ ($"POST")); [|apply Hs; reflexivity].
    destruct (lexical_cast_size _); [apply Hs; reflexivity|exact I].
Qed.

Lemma process_post_inv out n s :
  rpc_inv out s -> waits (rpc_at s) = false ->
  exists status s', process_post asserts forwards n s = Ok (status, s') /\ rpc_inv out s' /\ rpc_at s' = rpc_at s.
Proof.
  intros HI W. unfold process_post. run. set (s1 := set_streambuf _ s).
  assert (rpc_inv out s1) as HI1 by (apply (rpc_inv_frame out out s); auto).
  destruct (parse_json _) as [j|]; [|now exists 500, s1].
  destruct (broadcast_inv out j s1 HI1) as (sent & s' & Eb & HI' & Ha). rewrite Eb.
  eexists _, s'. split; [reflexivity|]. split; [exact HI'|]. now rewrite Ha.
Qed.

(** What a step delivers. *)
Definition message_out (e : rpc_event) (s : rpc) : list cstring :=
  match e, rpc_at s with Complete, WriteMessage v => [v] | _, _ => [] end.

(** The point behind a step that is known. *)
Ltac at_point Ea :=
  cbn [rpc_at set_at set_socket set_streambuf set_rpc_request m_responses broadcasts]; rewrite ?Ea; reflexivity.
Ltac frame s Ea := eapply (rpc_inv_frame _ _ s); [eassumption|at_point Ea..].

Lemma resume_inv fuel out s :
  rpc_inv out s -> rpc_safe (out ++ message_out Complete s) (resume_rpc asserts forwards fuel (rpc_at s) s).
Proof.
  intros HI. unfold message_out. destruct (rpc_at s) as [| |v|v|c q d|v|[]|st|n|st| |] eqn:Ea; rewrite ?app_nil_r; cbn [resume_rpc].
  - unfold read_rpc_request. run. destruct (read_request _ _ _) as [[ec r]|f]; [|exact I].
    apply dispatch_inv; [|at_point Ea..]. frame s Ea.
  - exact HI.
  - frame s Ea.
  - unfold on_socket, suspend. run. destruct (write_response_with_streambuf _ _ _ _) as [ec k].
    apply (rpc_inv_frame out (out ++ [v]) s); [exact HI|at_point Ea..|]. cbn [rpc_at set_at]. rewrite Ea. apply app_nil_r.
  - exact HI.
  - unfold on_socket, suspend. run. destruct (write_response_with_streambuf _ _ _ _) as [ec k]. frame s Ea.
  - frame s Ea.
  - frame s Ea.
  - unfold on_socket, suspend. run. destruct (write_response _ _ _) as [ec k]. frame s Ea.
  - unfold read_rpc_body. run. destruct (read_exactly _ _) as [[d ec] k].
    match goal with |- context [process_post asserts forwards ?n ?s1] => destruct (process_post_inv out n s1) as (st & s' & Ep & HI' & Ha) end.
    + frame s Ea.
    + at_point Ea.
    + rewrite Ep. change (rpc_at s' = rpc_at s) in Ha. rewrite Ea in Ha. frame s' Ha.
  - unfold on_socket, suspend. run. destruct (write_response_with_body _ _ _ _) as [ec k].
    destruct (str_eqb _ _); frame s Ea.
  - frame s Ea.
  - exact HI.
Qed.

Lemma handle_rpc_inv fuel e out s :
  rpc_inv out s -> rpc_safe (out ++ message_out e s) (handle_rpc asserts forwards fuel e s).
Proof.
  intros HI. pose proof (resume_inv fuel out s HI) as HR. unfold handle_rpc. run.
  destruct e as [|result|j].
  - destruct (rpc_at s) eqn:Ea; exact HR.
  - unfold message_out. rewrite app_nil_r. destruct (rpc_at s) eqn:Ea; try exact HI.
    unfold done_search. destruct (write_json true result); [frame s Ea|exact I].
  - unfold message_out. rewrite app_nil_r. destruct (broadcast_inv out j s HI) as (sent & s' & Eb & HI' & _).
    destruct (rpc_at s) eqn:Ea; rewrite ?Eb; try exact HI'. exact HI.
Qed.

(** The messages that a sequence of events delivers. *)
Fixpoint delivered_messages (fuel : nat) (es : list rpc_event) (s : rpc) : list cstring :=
  match es with
  | [] => []
  | e :: es' =>
      message_out e s
      ++ match handle_rpc asserts forwards fuel e s with Ok (_, s') => delivered_messages fuel es' s' | Err _ => [] end
  end.

Lemma rpc_run_inv fuel es : forall out s,
  rpc_inv out s -> rpc_safe (out ++ delivered_messages fuel es s) (rpc_run asserts forwards fuel es s).
Proof.
  induction es as [|e es IH]; intros out s HI; cbn [delivered_messages rpc_run]; [now rewrite app_nil_r|].
  pose proof (handle_rpc_inv fuel e out s HI) as HS. run.
  destruct (handle_rpc asserts forwards fuel e s) as [[[] s1]|f].
  - rewrite app_assoc. now apply IH.
  - destruct f; auto.
Qed.

(** The client's parser takes the length of the body from these headers. *)
Lemma json_headers_length n i :
  INT64_MIN <= n <= INT64_MAX ->
  content_length (fold_left (fun h '(k, w) => check_header k w h)
    [(httpd_options.content_type, $"application/json; charset=utf8"); (httpd_options.content_length, itoa n);
     ($"Cache-Control", $"no-cache"); (httpd_options.connection, $"keep-alive")] i) = Z.max n (content_length i).
Proof.
  intros Hn. cbn [fold_left].
  assert (forall k w h, headers_equal k ($"Content-Type") = false -> headers_equal k ($"Content-Length") = false ->
            headers_equal k ($"Location") = false -> headers_equal k ($"Content-Range") = false ->
            check_header k w h = h) as Hskip by (intros k w h H1 H2 H3 H4; unfold check_header; now rewrite H1, H2, H3, H4).
  rewrite !Hskip by reflexivity. unfold check_header.
  change (headers_equal httpd_options.content_length ($"Content-Type")) with false.
  change (headers_equal httpd_options.content_length ($"Content-Length")) with true.
  change (headers_equal httpd_options.content_type ($"Content-Type")) with true.
  cbv iota. cbn [content_length]. now rewrite strtoll_c_str_itoa.
Qed.

Lemma rpc_start_inv k : rpc_inv [] (rpc_start k).
Proof. constructor; cbn; reflexivity || discriminate. Qed.

Lemma handle_complete fuel s : handle_rpc asserts forwards fuel Complete s = resume_rpc asserts forwards fuel (rpc_at s) s.
Proof. unfold handle_rpc. run. now destruct (rpc_at s). Qed.

Lemma rpc_run_cons fuel e es s s' :
  handle_rpc asserts forwards fuel e s = Ok ((), s') -> rpc_run asserts forwards fuel (e :: es) s = rpc_run asserts forwards fuel es s'.
Proof. intros E1. cbn [rpc_run]. run. now rewrite E1. Qed.

Lemma rpc_run_app fuel es es' : forall s s',
  rpc_run asserts forwards fuel es s = Ok ((), s') -> rpc_run asserts forwards fuel (es ++ es') s = rpc_run asserts forwards fuel es' s'.
Proof.
  induction es as [|e es IH]; intros s s'; cbn [app rpc_run]; run; [now intros [= <-]|].
  destruct (handle_rpc asserts forwards fuel e s) as [[[] s1]|f]; [apply IH|discriminate].
Qed.

(** What waits for the message. *)
Definition asks_messages {P : Platform} {N1 : Network} (o : opts) (c : http_stream (H0 := N1)) : Prop :=
  option_value http_options.request_method ($"GET") o = $"GET"
  /\ to_string (Z.lor (Z.lor path_component query_component) fragment_component) (m_url c) = $"/message"
  /\ option_value http_options.http_version ($"HTTP/1.1") o = $"HTTP/1.1".

(** A request for messages waits in the queue. *)
Lemma wait_run {P : Platform} {N1 : Network} {L : NetworkLaws N} {EL : RegexLaws E} fuel o (c : http_stream (H0 := N1)) k :
  asks_messages o c -> Forall HeadersFacts.wf_header (request_headers o c) ->
  opt_value httpd_options.host (request_headers o c) <> [] -> (length (request_headers o c) < fuel)%nat ->
  incoming k = request_text o c ->
  exists k' b r, opt_value httpd_options.http_version r = $"HTTP/1.1"
    /\ rpc_run asserts forwards fuel [Complete; Complete] (rpc_start k)
       = Ok ((), RpcServer _ k' b r (CoroQueue ([] : list_t (Container := circular_buffer cstring 20)) [(false, ())] []) InQueue []).
Proof.
  intros (Hm & Hu & Hv) Hh Hhost Hf Hi. set (hs := request_headers o c) in *.
  destruct (read_request_run asserts ($"GET") ($"/message") ($"HTTP/1.1") hs fuel (Reading _ k [] [])
              (option_value http_options.request_body [] o)) as (b & k' & Er & _); auto.
  { constructor; [split; [discriminate|repeat constructor]|repeat split; [discriminate|repeat constructor..]|now left]. }
  { cbn [rd_input rd_buf rd_sock app]. unfold rd_input. cbn [app rd_buf rd_sock]. rewrite Hi. unfold request_text, request_line. rewrite Hm, Hu, Hv. fold hs. now rewrite <- !app_assoc. }
  exists k', b, (request_items ($"GET") ($"/message") ($"HTTP/1.1") hs). split; [reflexivity|].
  erewrite rpc_run_cons by (rewrite handle_complete; reflexivity).
  erewrite rpc_run_cons; [reflexivity|]. rewrite handle_complete. cbn [rpc_at set_at resume_rpc]. unfold read_rpc_request. run.
  cbn [m_socket m_streambuf m_request set_at set_streambuf set_rpc_request rpc_start]. change (opt_clear []) with ([] : hopts). rewrite Er. cbn [rd_opts app].
  rewrite request_accepted by (assumption || (left; discriminate)). unfold dispatch. run. reflexivity.
Qed.

(** A message goes to the connection that waits, which begins to write it. *)
Lemma message_run fuel k b r j v :
  forwards j = true -> write_json true j = Some v ->
  rpc_run asserts forwards fuel [Message j; Complete]
    (RpcServer _ k b r (CoroQueue ([] : list_t (Container := circular_buffer cstring 20)) [(false, ())] []) InQueue [])
  = Ok ((), RpcServer _ k b r new_queue (WriteMessage v) [j]).
Proof.
  intros Hj Hv. rewrite (rpc_run_cons fuel _ _ _ (RpcServer _ k b r new_queue (Popped v) [j])).
  - now erewrite rpc_run_cons by (rewrite handle_complete; reflexivity).
  - unfold handle_rpc. run. cbn [rpc_at]. unfold broadcast_message, callback_message. rewrite Hj, Hv. unfold on_responses. run.
    cbn [queue_step m_responses add_broadcast]. unfold push, push_waiters. run. cbn. unfold queue_assert. run. cbn.
    now rewrite andb_false_r.
Qed.

Lemma write_message_run {L : NetworkLaws N} {TL : TransportLaws T L} fuel v s :
  opt_value httpd_options.http_version (m_request s) = $"HTTP/1.1" -> rpc_at s = WriteMessage v ->
  (forall t k, exists k', sock_write t k = (None, k')) ->
  exists k', handle_rpc asserts forwards fuel Complete s = Ok ((), set_at (Sent false) (set_socket k' s))
    /\ sent k' = sent (m_socket s) ++ response_head 200 (json_options ($"HTTP/1.1") v) ++ v.
Proof.
  intros Hv Ha Hok. set (head := response_head 200 (json_options ($"HTTP/1.1") v)).
  destruct (Hok head (m_socket s)) as (k1 & W1), (Hok v k1) as (k2 & W2). exists k2. rewrite handle_complete, Ha. split.
  - cbn [resume_rpc]. unfold on_socket, write_response_with_streambuf, write_response, suspend. run. rewrite Hv. fold head.
    now rewrite W1, W2.
  - destruct (write_sent _ _ _ W1) as [S1 _], (write_sent _ _ _ W2) as [S2 _]. rewrite S2, S1. now rewrite <- app_assoc.
Qed.

Lemma message_received {P : Platform} {N1 : Network} {L1 : NetworkLaws N1} base64_text fuel v o (c : http_stream (H0 := N1)) k :
  size v < 2 ^ 63 -> (4 < fuel)%nat -> sends_request o c k -> m_content_length (m_body c) <= size v ->
  incoming k = response_head 200 (json_options ($"HTTP/1.1") v) ++ v ->
  exists c', request base64_text fuel o c = Ok (None, c') /\ m_status_code c' = 200
    /\ m_content_length (m_body c') = size v /\ stream_input c' = v.
Proof.
  intros Hl Hf Hs Hm Hi. set (hs := opt_remove httpd_options.http_version (json_options ($"HTTP/1.1") v)).
  assert (hs = [(httpd_options.content_type, $"application/json; charset=utf8"); (httpd_options.content_length, itoa (size v));
                ($"Cache-Control", $"no-cache"); (httpd_options.connection, $"keep-alive")]) as Ehs by reflexivity.
  assert (wf_headers_sent hs) as Hw.
  { rewrite Ehs. split; [|cbn; lia].
    repeat (constructor; [split; [reflexivity|split; [discriminate|split; [repeat constructor|split; [discriminate|]]]]|]); try apply List.Forall_nil;
      try (split; [repeat constructor|reflexivity]). apply HeadersFacts.number_value. unfold size. lia. }
  destruct (response_wf 200 hs) as [Wr _]; [now left|eapply Forall_impl; [exact (proj1 Hw)|now intros ? [_ ?]]|].
  destruct (exchange_run base64_text fuel o c k ($"1") ($"1") (itoa 200) (strstatus 200) hs v (m_jar c) Hs Wr)
    as (ro & c' & Ec & R & _); [rewrite Ehs; cbn; lia| |rewrite Ehs; reflexivity|].
  { rewrite Hi, response_head_text by (reflexivity || exact Hw). fold hs. unfold response_text. now rewrite app_nil_r, <- !app_assoc. }
  exists c'. split; [exact Ec|]. destruct R as [R1 _ (_ & R2 & _) _ _ _ R3 _ _]. split; [exact R1|]. split; [|exact R3].
  rewrite R2, Ehs, json_headers_length by (unfold INT64_MIN, INT64_MAX, size in *; lia).
  apply Z.max_l. exact Hm.
Qed.

End Facts.

(** ** Properties *)

(** Messages reach a client in order.  Over all sequences of requests,
    broadcasts and ends of operations on a connection: what was delivered,
    followed by the message in flight and those in the queue, is in the order
    of the broadcasts, nothing twice and nothing invented; while there were no
    more broadcasts than the queue holds, nothing is lost either.  The queue never
    fails: a step fails only for a request that is malformed. *)
Theorem rpc_in_order {N : Network} {T : Transport N} {E : RegexEngine} {J : JsonReader} (asserts : bool)
    (forwards : ptree -> bool) (fuel : nat) (es : list rpc_event) (k : sock) :
  match rpc_run asserts forwards fuel es (rpc_start k) with
  | Ok (_, s) =>
      let l := delivered_messages asserts forwards fuel es (rpc_start k) ++ in_flight (rpc_at s) ++ m_list (m_responses s) in
      sublist l (texts s) /\ ((length (texts s) <= 20)%nat -> l = texts s)
  | Err f => match f with RpcQueue _ => False | _ => True end
  end.
Proof.
  pose proof (rpc_run_inv asserts forwards fuel es [] (rpc_start k) (rpc_start_inv k)) as H. cbn [app] in H.
  destruct (rpc_run asserts forwards fuel es (rpc_start k)) as [[[] s]|f]; [|destruct f; exact H].
  destruct H as [_ _ _ H4 H5]. now split.
Qed.

(** The reader of json_parser_read.hpp. *)
#[refine] Instance spirit_reader {C : Comments} : JsonReader := {
  parse_json := fun text => match read_json text with Ok t => Some t | Err _ => None end
}.
Proof. Defined.

#[refine] Instance spirit_reader_laws {C : Comments} {CL : CommentsLaws C} : JsonReaderLaws spirit_reader := {}.
Proof. intros pretty t text E. cbn [parse_json spirit_reader]. now rewrite (read_written pretty t text E). Defined.

(** C3: a client that waits for messages gets them.  A client of this
    library asks the server for "/message", on a new connection; the request is
    read, however the network splits it, and waits; the next message of the bot
    that can be written as JSON is written behind a header.  A client that gets exactly
    this, split in any way, ends its request with status 200, the length of the
    text as the length of the body, and the text as what is left to read, from
    which a reader of JSON gets the message. *)
Theorem rpc_long_poll {P : Platform} {N1 N2 : Network} {L1 : NetworkLaws N1} {L2 : NetworkLaws N2} {T : Transport N2}
    {TL : TransportLaws T L2} {E : RegexEngine} {EL : RegexLaws E} {J : JsonReader} {JL : JsonReaderLaws J} (asserts : bool)
    (forwards : ptree -> bool) (base64_text : cstring -> cstring) (fuel : nat) (o : opts) (c : http_stream (H0 := N1))
    (k1 : sock (Network := N1)) (k2 : sock (Network := N2)) (j : ptree) (v : cstring) :
  let hs := request_headers o c in
  let answer := response_head 200 (json_options ($"HTTP/1.1") v) ++ v in
  forwards j = true -> write_json true j = Some v ->
  sends_request o c k1 -> m_content_length (m_body c) <= size v < 2 ^ 63 -> asks_messages o c ->
  Forall HeadersFacts.wf_header hs -> opt_value httpd_options.host hs <> [] -> (length hs + 4 < fuel)%nat ->
  (forall t (k : sock (Network := N2)), exists k', sock_write t k = (None, k')) ->
  incoming k2 = request_text o c -> incoming k1 = answer ->
  exists s1 s2 c',
    rpc_run asserts forwards fuel [Complete; Complete; Message j; Complete] (rpc_start k2) = Ok ((), s1)
    /\ handle_rpc asserts forwards fuel Complete s1 = Ok ((), s2) /\ rpc_at s2 = Sent false
    /\ sent (m_socket s2) = sent (m_socket s1) ++ answer
    /\ request base64_text fuel o c = Ok (None, c') /\ m_status_code c' = 200
    /\ m_content_length (m_body c') = size v /\ stream_input c' = v /\ parse_json v = Some j.
Proof.
  intros hs answer Hj Ev Hs [Hm Hl] Ha Hh Hhost Hf Hok Hi2 Hi1.
  destruct (wait_run asserts forwards fuel o c k2 Ha Hh Hhost ltac:(fold hs; lia) Hi2) as (k & b & r & Hv & Er).
  destruct (write_message_run asserts forwards fuel v (RpcServer _ k b r new_queue (WriteMessage v) [j]) Hv eq_refl Hok)
    as (k' & Ew & Sw).
  destruct (message_received base64_text fuel v o c k1 Hl ltac:(lia) Hs Hm Hi1) as (c' & Ec & H1 & H2 & H3).
  eexists _, _, c'. split; [|split; [exact Ew|split; [reflexivity|split; [exact Sw|]]]].
  - change [Complete; Complete; Message j; Complete] with ([Complete; Complete] ++ [Message j; Complete]).
    rewrite (rpc_run_app asserts forwards fuel _ _ _ _ Er). now apply message_run.
  - do 4 (split; [assumption|]). now apply (parse_written true).
Qed.

(** A client that asks for messages. *)
Definition example_poll (packets : list cstring) : http_stream (H := example_platform) (H0 := packet_network) :=
  HttpStream example_platform packet_network (Opts [] false) (Opts [] false) (Opts [] false) (Proxy [] 0 [] [] none) ($"http")
    (Url ($"http") [] ($"example.com") [] ($"/message") [] [] false) 0 [] [] new_cookies (m_body (example_stream 0 packets)).
Definition example_poll_text : cstring := $"{" ++ [LF] ++ $"}" ++ [LF].
Definition example_poll_answer : list cstring :=
  [$"HTTP/1.1 200 O"; $"K" ++ crlf ++ $"Content-Type: application/json; charset=utf8" ++ crlf ++ $"Content-Length: 4" ++ crlf
     ++ $"Cache-Control: no-cache" ++ crlf ++ $"Connection: keep-al"; $"ive" ++ crlf ++ crlf ++ $"{"; [LF] ++ $"}"; [LF]].
Definition example_poll_request : cstring :=
  $"GET /message HTTP/1.1" ++ crlf ++ $"Host: example.com" ++ crlf ++ $"Accept: text/html, application/xhtml+xml, */*" ++ crlf
  ++ $"User-Agent: avhttp/2.9.9" ++ crlf ++ $"Connection: close" ++ crlf ++ crlf.

Lemma rpc_long_poll_witness :
  let c := example_poll example_poll_answer in
  let k2 := ScriptSock true [] (one_packet example_poll_request) in
  exists s1 s2 c',
    rpc_run (T := script_transport []) true (fun _ => true) 20 [Complete; Complete; Message empty_tree; Complete]
      (rpc_start (N := script_network) k2) = Ok ((), s1)
    /\ handle_rpc (T := script_transport []) true (fun _ => true) 20 Complete s1 = Ok ((), s2) /\ rpc_at s2 = Sent false
    /\ script_sent (m_socket s2)
       = script_sent (m_socket s1) ++ response_head 200 (json_options ($"HTTP/1.1") example_poll_text) ++ example_poll_text
    /\ request (fun s => s) 20 (Opts [] false) c = Ok (None, c') /\ m_status_code c' = 200
    /\ m_content_length (m_body c') = 4 /\ stream_input c' = example_poll_text /\ parse_json example_poll_text = Some empty_tree.
Proof.
  apply (rpc_long_poll (TL := script_transport_laws []) true (fun _ => true) (fun s => s) 20 (Opts [] false)
           (example_poll example_poll_answer) (m_sock (m_body (example_poll example_poll_answer)))
           (ScriptSock true [] (one_packet example_poll_request)) empty_tree example_poll_text).
  - reflexivity.
  - reflexivity.
  - constructor; reflexivity.
  - now split.
  - repeat split.
  - repeat (constructor; [repeat split; try discriminate; repeat constructor|]). constructor.
  - discriminate.
  - cbn. lia.
  - intros t k. now eexists.
  - vm_compute. reflexivity.
  - vm_compute. reflexivity.
Defined.
