(* ===== verification/Avbot.v ===== *)
(** The bot, libavbot/avbot.cpp: rooms of several protocols are joined to
    channels, and a message from one room of a channel is sent to the others.

    Messages are the property trees of PTree.v.  The accounts are what the bot
    uses of them: the groups of QQ with their members, and whether there is an
    account for IRC and XMPP; what is sent to them is recorded.  The signal
    [on_message] calls [forward_message] first, the slots of other parts of the
    program only hear the message. *)

From S2P Require Import Prelude CLib OrdMap PTree Irc.

(** ** Data of the QQ account *)

Record qqBuddy : Type := QQBuddy { uin : cstring; nick : cstring; card : cstring; mflag : Z; buddy_qqnum : cstring }.

Record qqGroup : Type := QQGroup {
  gid : cstring; group_name : cstring; code : cstring; qqnum : cstring; owner : cstring;
  get_Buddy_by_uin : cstring -> option qqBuddy
}.

Record qqMsgCface : Type := QQMsgCface {
  cface_gid : cstring; cface_uin : cstring; vfwebqq : cstring; cface_name : cstring; file_id : cstring; key : cstring;
  server : cstring; gchatpicurl : cstring
}.

Inductive qqMsg : Type := MsgFont | MsgText (text : cstring) | MsgFace (face : Z) | MsgCface (cface : qqMsgCface).

Record qq_account : Type := QQAccount {
  get_Group_by_gid : cstring -> option qqGroup;
  get_Group_by_qq : cstring -> option qqGroup;
  is_online : bool
}.

(** ** State *)

Inductive sent_message : Type :=
| ToIrc (channel text : cstring)
| ToXmpp (room text : cstring)
| ToQQ (group : qqGroup) (text : cstring).

Record avbot : Type := Avbot {
  m_qq_account : option qq_account;
  m_irc_account : bool;
  m_xmpp_account : bool;
  m_channel_map : list (cstring * list cstring);
  preamble_qq_fmt : cstring;
  preamble_irc_fmt : cstring;
  preamble_xmpp_fmt : cstring;
  m_urlformater : option (ptree -> cstring);
  (** What was sent, the calls of [on_message] and [signal_new_channel]. *)
  sent_messages : list sent_message;
  on_messages : list ptree;
  new_channels : list cstring
}.

(** [ptree_bad_path], [std::out_of_range], and a call on a null pointer. *)
Inductive avbot_error : Type := bad_path | out_of_range | null_account.

Abbreviation B := (st avbot avbot_error).

Definition set_channel_map (m : list (cstring * list cstring)) (s : avbot) : avbot :=
  Avbot (m_qq_account s) (m_irc_account s) (m_xmpp_account s) m (preamble_qq_fmt s) (preamble_irc_fmt s) (preamble_xmpp_fmt s)
    (m_urlformater s) (sent_messages s) (on_messages s) (new_channels s).
Definition add_sent (m : sent_message) (s : avbot) : avbot :=
  Avbot (m_qq_account s) (m_irc_account s) (m_xmpp_account s) (m_channel_map s) (preamble_qq_fmt s) (preamble_irc_fmt s)
    (preamble_xmpp_fmt s) (m_urlformater s) (sent_messages s ++ [m]) (on_messages s) (new_channels s).
Definition add_message (m : ptree) (s : avbot) : avbot :=
  Avbot (m_qq_account s) (m_irc_account s) (m_xmpp_account s) (m_channel_map s) (preamble_qq_fmt s) (preamble_irc_fmt s)
    (preamble_xmpp_fmt s) (m_urlformater s) (sent_messages s) (on_messages s ++ [m]) (new_channels s).
Definition add_channel_signal (c : cstring) (s : avbot) : avbot :=
  Avbot (m_qq_account s) (m_irc_account s) (m_xmpp_account s) (m_channel_map s) (preamble_qq_fmt s) (preamble_irc_fmt s)
    (preamble_xmpp_fmt s) (m_urlformater s) (sent_messages s) (on_messages s) (new_channels s ++ [c]).

(** The constructor. *)
Definition new_avbot (qq : option qq_account) (irc xmpp : bool) : avbot :=
  Avbot qq irc xmpp [] ($"qq(%a)说：") ($"%a 说：") ($"(%a)说：") None [] [] [].

(** [std::string::substr(n)]. *)
Definition substr (n : nat) (s : cstring) : B cstring := if (n <=? length s)%nat then mret (drop n s) else st_fail out_of_range.
Definition need {A} (o : option A) : B A := match o with Some a => mret a | None => st_fail bad_path end.

(** ** Formats *)

(** [boost::replace_all]. *)
Fixpoint replace_loop (n : nat) (pat rep s : cstring) : cstring :=
  match n with
  | O => s
  | S n' =>
      match find_str pat s with
      | Some i => take i s ++ rep ++ replace_loop n' pat rep (drop (i + length pat) s)
      | None => s
      end
  end.
Definition replace_all (pat rep s : cstring) : cstring := replace_loop (length s) pat rep s.

Definition or_else (a b : cstring) : cstring := match a with [] => b | _ => a end.

Definition preamble_formater (fmt : cstring) (buddy : option qqBuddy) (falbacknick : cstring) (group : option qqGroup) : cstring :=
  let autonick :=
    match buddy with
    | None => falbacknick
    | Some b => or_else (or_else (or_else (card b) (nick b)) (buddy_qqnum b)) (uin b)
    end in
  let b := default (QQBuddy [] [] [] 0 []) buddy in
  let p := replace_all ($"%a") autonick fmt in
  let p := replace_all ($"%n") (nick b) p in
  let p := replace_all ($"%u") (uin b) p in
  let p := replace_all ($"%q") (buddy_qqnum b) p in
  let p := replace_all ($"%c") (card b) p in
  match group with
  | Some g => replace_all ($"%R") (group_name g) (replace_all ($"%r") (qqnum g) p)
  | None => p
  end.

Definition preamble_irc (fmt : cstring) (pmsg : irc_msg) : cstring :=
  replace_all ($"%n") (whom pmsg) (replace_all ($"%r") (from pmsg) (replace_all ($"%a") (whom pmsg) fmt)).

Definition preamble_xmpp (fmt who room : cstring) : cstring :=
  replace_all ($"%n") who (replace_all ($"%r") room (replace_all ($"%a") who fmt)).

(** [catch (...)]: a path that is missing gives "none". *)
Definition room_name (message : ptree) : cstring :=
  default ($"none")
    (protocol ← pt_get ($"protocol") message;
     if str_eqb protocol ($"mail") then Some ($"mail")
     else if str_eqb protocol ($"qq") then
       number ← pt_get ($"room.groupnumber") message; Some (protocol ++ $":" ++ number)
     else room ← pt_get ($"room") message; Some (protocol ++ $":" ++ room)).

(** The loop over the parts of a message. *)
Fixpoint format_parts (l : list (cstring * ptree)) (linermessage : cstring) : B cstring :=
  match l with
  | [] => mret linermessage
  | (k, v) :: l' =>
      if str_eqb k ($"text") then format_parts l' (linermessage ++ pt_data v)
      else if str_eqb k ($"url") || str_eqb k ($"img") then format_parts l' (linermessage ++ $" " ++ pt_data v ++ $" ")
      else if str_eqb k ($"cface") then
        s ← st_get;
        url ← match m_urlformater s with Some f => mret (f v) | None => need (pt_get ($"gchatpicurl") v) end;
        format_parts l' (linermessage ++ url ++ $" ")
      else format_parts l' linermessage
  end.

Definition format_message (message : ptree) : B cstring :=
  protocol ← need (pt_get ($"protocol") message);
  if negb (str_eqb protocol ($"mail")) then
    parts ← need (get_child ($"message") message);
    format_parts (pt_children parts) (pt_get_or ($"preamble") [] message)
  else
    f ← need (pt_get ($"from") message);
    t ← need (pt_get ($"to") message);
    subject ← need (pt_get ($"subject") message);
    m ← need (get_child ($"message") message);
    mret ($"[QQ邮件]" ++ [LF] ++ $"发件人:" ++ f ++ [LF] ++ $"收件人:" ++ t ++ [LF] ++ $"主题:" ++ subject ++ [LF; LF] ++ pt_data m).

(** ** Channels *)

Definition add_to_channel (channel_name room_name : cstring) : B () :=
  s ← st_get;
  match map_find channel_name (m_channel_map s) with
  | Some c =>
      if existsb (str_eqb room_name) c then mret ()
      else st_modify (set_channel_map (insert_or_assign channel_name (c ++ [room_name]) (m_channel_map s)))
  | None =>
      st_modify (set_channel_map (map_insert channel_name [room_name] (m_channel_map s))) ;;
      st_modify (add_channel_signal channel_name)
  end.

Definition get_channel_name (room_name : cstring) (s : avbot) : cstring :=
  match List.find (fun c => existsb (str_eqb room_name) (snd c)) (m_channel_map s) with
  | Some c => fst c
  | None => $"none"
  end.

(** [m_channel_map[channel_name]] adds an empty channel when there is none. *)
Definition channel_rooms (channel_name : cstring) : B (list cstring) :=
  s ← st_get;
  match map_find channel_name (m_channel_map s) with
  | Some c => mret c
  | None => st_modify (set_channel_map (insert_or_assign channel_name [] (m_channel_map s))) ;; mret []
  end.

(** A message to one room. *)
Definition send_to_room (room msg : cstring) : B () :=
  s ← st_get;
  if str_eqb (take 3 room) ($"irc") then
    if m_irc_account s then r ← substr 4 room; st_modify (add_sent (ToIrc ($"#" ++ r) msg)) else mret ()
  else if str_eqb (take 4 room) ($"xmpp") then
    if m_xmpp_account s then r ← substr 5 room; st_modify (add_sent (ToXmpp r msg)) else mret ()
  else if str_eqb (take 2 room) ($"qq") then
    match m_qq_account s with
    | None => mret ()
    | Some qq =>
        number ← substr 3 room;
        match get_Group_by_qq qq number with
        | Some g => st_modify (add_sent (ToQQ g msg))
        | None => mret ()
        end
    end
  else mret ().

Fixpoint send_to_rooms (rooms : list cstring) (exclude_room msg : cstring) : B () :=
  match rooms with
  | [] => mret ()
  | r :: rooms' =>
      (if str_eqb r exclude_room then mret () else send_to_room r msg) ;;
      send_to_rooms rooms' exclude_room msg
  end.

Definition broadcast_message (channel_name exclude_room msg : cstring) : B () :=
  rooms ← channel_rooms channel_name; send_to_rooms rooms exclude_room msg.

(** The overload for all channels. *)
Fixpoint broadcast_channels (channels : list (cstring * list cstring)) (msg : cstring) : B () :=
  match channels with
  | [] => mret ()
  | c :: channels' => broadcast_message (fst c) [] msg ;; broadcast_channels channels' msg
  end.
Definition broadcast_all (msg : cstring) : B () := s ← st_get; broadcast_channels (m_channel_map s) msg.

Definition forward_message (message : ptree) : B () :=
  channel_name ← need (pt_get ($"channel") message);
  formated ← format_message message;
  match channel_name with
  | [] => broadcast_all formated
  | _ =>
      s ← st_get;
      match map_find channel_name (m_channel_map s) with
      | Some _ => broadcast_message channel_name (room_name message) formated
      | None => mret ()
      end
  end.

Definition on_message (message : ptree) : B () := st_modify (add_message message) ;; forward_message message.

(** ** Messages of the protocols *)

Definition callback_on_irc_message (pMsg : irc_msg) : B () :=
  room ← substr 1 (from pMsg);
  s ← st_get;
  let message := put ($"protocol") ($"irc") empty_tree in
  let message := put ($"room") room message in
  let message := put ($"who.nick") (whom pMsg) message in
  let message := put ($"channel") (get_channel_name ($"irc:" ++ room) s) message in
  let message := put ($"preamble") (preamble_irc (preamble_irc_fmt s) pMsg) message in
  let textmsg := add ($"text") (msg pMsg) empty_tree in
  on_message (add_child ($"message") textmsg message).

Definition callback_on_xmpp_group_message (xmpproom who text : cstring) : B () :=
  s ← st_get;
  let message := put ($"protocol") ($"xmpp") empty_tree in
  let message := put ($"channel") (get_channel_name ($"xmpp:" ++ xmpproom) s) message in
  let message := put ($"room") xmpproom message in
  let message := put ($"who.nick") who message in
  let message := put ($"preamble") (preamble_xmpp (preamble_xmpp_fmt s) who xmpproom) message in
  let textmsg := add ($"text") text empty_tree in
  on_message (add_child ($"message") textmsg message).

(** One part of a QQ message; the picture itself is not fetched here. *)
Definition add_cface (c : qqMsgCface) (textmsg : ptree) : ptree :=
  let t := add ($"cface.name") (cface_name c) textmsg in
  let t := add ($"cface.gid") (cface_gid c) t in
  let t := add ($"cface.uin") (cface_uin c) t in
  let t := add ($"cface.key") (key c) t in
  let t := add ($"cface.server") (server c) t in
  let t := add ($"cface.file_id") (file_id c) t in
  let t := add ($"cface.vfwebqq") (vfwebqq c) t in
  add ($"cface.gchatpicurl") (gchatpicurl c) t.

Definition face_url (face : Z) : cstring := $"http://0.web.qstatic.com/webqqpic/style/face/" ++ itoa face ++ $".gif".

Definition add_part (textmsg : ptree) (m : qqMsg) : ptree :=
  match m with
  | MsgText text => add ($"text") text textmsg
  | MsgCface c => add_cface c textmsg
  | MsgFace face => add ($"img") (face_url face) textmsg
  | MsgFont => textmsg
  end.

Definition add_op (mask : Z) (b : qqBuddy) (g : qqGroup) (message : ptree) : ptree :=
  add ($"op") (if (Z.land (mflag b) mask =? mask) || str_eqb (uin b) (owner g) then $"1" else $"0") message.

Definition callback_on_qq_group_message (group_code who : cstring) (m : list qqMsg) : B () :=
  s ← st_get;
  match m_qq_account s with
  | None => st_fail null_account
  | Some qq =>
      let group := get_Group_by_gid qq group_code in
      let message := put ($"protocol") ($"qq") empty_tree in
      let ptree_group := add ($"code") group_code empty_tree in
      let '(ptree_group, message) :=
        match group with
        | Some g => (add ($"name") (group_name g) (add ($"groupnumber") (qqnum g) ptree_group),
                     put ($"channel") (get_channel_name ($"qq:" ++ qqnum g) s) message)
        | None => (ptree_group, put ($"channel") group_code message)
        end in
      let message := add_child ($"room") ptree_group message in
      let ptree_who := add ($"code") who empty_tree in
      let buddy := match group with Some g => get_Buddy_by_uin g who | None => None end in
      let '(ptree_who, message) :=
        match buddy, group with
        | Some b, Some g =>
            (add ($"card") (card b) (add ($"qqnumber") (buddy_qqnum b)
               (add ($"name") (nick b) (add ($"nick") (or_else (nick b) (uin b)) ptree_who))), add_op 1 b g message)
        | _, _ => (add ($"nick") who ptree_who, message)
        end in
      let message := add_child ($"who") ptree_who message in
      let message := add ($"preamble") (preamble_formater (preamble_qq_fmt s) buddy who group) message in
      on_message (add_child ($"message") (fold_left add_part m empty_tree) message)
  end.

(** The tree is built and then dropped: [on_message] is not called. *)
Definition callback_on_mail : B bool :=
  s ← st_get;
  match m_qq_account s with None => st_fail null_account | Some qq => mret (is_online qq) end.

Definition callback_on_qq_group_found (group : qqGroup) : B () :=
  s ← st_get;
  if str_eqb (get_channel_name ($"qq:" ++ qqnum group) s) ($"none")
  then add_to_channel (qqnum group) ($"qq:" ++ qqnum group) else mret ().

Definition callback_on_qq_group_newbee (group : qqGroup) (buddy : option qqBuddy) : B () :=
  s ← st_get;
  if str_eqb (get_channel_name ($"qq:" ++ qqnum group) s) ($"none") then mret ()
  else
    match buddy with
    | None => mret ()
    | Some b =>
        let message := put ($"protocol") ($"qq") empty_tree in
        let ptree_group := add ($"name") (group_name group) (add ($"groupnumber") (qqnum group)
                             (add ($"code") (code group) empty_tree)) in
        let message := put ($"channel") (get_channel_name ($"qq:" ++ qqnum group) s) message in
        let message := add_child ($"room") ptree_group message in
        let ptree_who := add ($"nick") (or_else (card b) (nick b)) (add ($"card") (card b) (add ($"qqnumber") (buddy_qqnum b)
                           (add ($"name") (nick b) (add ($"code") (uin b) empty_tree)))) in
        let message := add ($"newbee") (uin b) (add_op 21 b group message) in
        let message := add_child ($"who") ptree_who message in
        let message := add ($"preamble") ($"群系统消息: ") message in
        on_message (add ($"message.text") ($"新人 " ++ nick b ++ $" 入群.") message)
    end.

Definition image_subdir_name (cface : cstring) : cstring :=
  take 2 (replace_all ($"-") [] (replace_all ($"}") [] (replace_all ($"{") [] cface))).

(** ** Accounts with a coroutine of their own *)

(** [m_accouts] and the coroutine of one account: where it is suspended. *)
Inductive account_point : Type := LoggingIn | Receiving | AccountEnded.

(** [std::remove]: what is kept moves to the front, the length stays. *)
Definition std_remove (eqb : nat -> nat -> bool) (a : nat) (l : list nat) : list nat :=
  let kept := List.filter (fun x => negb (eqb x a)) l in kept ++ drop (length kept) l.

Section Account.
Variable error_code : Type.
Variable is_error_fatal : option error_code -> bool.

(** [async_login] ended. *)
Definition account_login (quit : bool) (ec : option error_code) : account_point :=
  if quit then AccountEnded
  else if is_error_fatal ec then AccountEnded
  else match ec with Some _ => LoggingIn | None => Receiving end.

(** [async_recv_message] ended. *)
Definition account_received (quit : bool) (ec : option error_code) (message : ptree) : B account_point :=
  if quit then mret AccountEnded
  else
    (match ec with None => on_message message | Some _ => mret () end) ;;
    mret (if is_error_fatal ec then LoggingIn else Receiving).

(** The ends of operations, each with the value of the flag at that time. *)
Definition account_step (p : account_point) (e : bool * option error_code * ptree) : B account_point :=
  let '(quit, ec, message) := e in
  match p with
  | LoggingIn => mret (account_login quit ec)
  | Receiving => account_received quit ec message
  | AccountEnded => mret AccountEnded
  end.
End Account.

(** ** Lemmas *)

(** Rooms of the protocols, and their names in a channel. *)
Inductive room : Type := IrcRoom (r : cstring) | XmppRoom (r : cstring) | QQRoom (number : cstring) | MailRoom.

Definition room_text (r : room) : cstring :=
  match r with
  | IrcRoom r => $"irc:" ++ r
  | XmppRoom r => $"xmpp:" ++ r
  | QQRoom n => $"qq:" ++ n
  | MailRoom => $"mail"
  end.

Lemma room_text_inj a b : room_text a = room_text b -> a = b.
Proof. destruct a, b; cbn [room_text list_ascii_of_string app]; intros [=]; congruence. Qed.

Definition room_eqb (a b : room) : bool := str_eqb (room_text a) (room_text b).

Lemma room_eqb_spec a b : reflect (a = b) (room_eqb a b).
Proof.
  unfold room_eqb. destruct (str_eqb_spec (room_text a) (room_text b)) as [E|E]; constructor; [now apply room_text_inj|].
  intros ->. now apply E.
Qed.

(** What one room gets. *)
Definition deliver (s : avbot) (text : cstring) (r : room) : list sent_message :=
  match r with
  | IrcRoom r => if m_irc_account s then [ToIrc ($"#" ++ r) text] else []
  | XmppRoom r => if m_xmpp_account s then [ToXmpp r text] else []
  | QQRoom n =>
      match m_qq_account s with
      | Some qq => match get_Group_by_qq qq n with Some g => [ToQQ g text] | None => [] end
      | None => []
      end
  | MailRoom => []
  end.

(** More was sent, the rest is as before. *)
Definition add_all (l : list sent_message) (s : avbot) : avbot := fold_left (fun s m => add_sent m s) l s.

Lemma add_all_app l l' s : add_all l' (add_all l s) = add_all (l ++ l') s.
Proof. unfold add_all. now rewrite fold_left_app. Qed.

Lemma add_all_sent l : forall s, sent_messages (add_all l s) = sent_messages s ++ l
  /\ m_channel_map (add_all l s) = m_channel_map s /\ on_messages (add_all l s) = on_messages s.
Proof.
  induction l as [|m l IH]; intros s; cbn [add_all fold_left]; [now rewrite app_nil_r|].
  destruct (IH (add_sent m s)) as (H1 & H2 & H3). unfold add_all in *. rewrite H1, H2, H3. cbn. now rewrite <- app_assoc.
Qed.

Lemma deliver_add_all l text r : forall s, deliver (add_all l s) text r = deliver s text r.
Proof. induction l as [|m l IH]; intros s; [reflexivity|]. exact (IH (add_sent m s)). Qed.

Lemma send_to_room_run r text s : send_to_room (room_text r) text s = Ok ((), add_all (deliver s text r) s).
Proof.
  destruct r as [r|r|n|]; unfold send_to_room; run; cbn [room_text list_ascii_of_string app take str_eqb Ascii.eqb Bool.eqb andb].
  - cbn [deliver]. now destruct (m_irc_account s).
  - cbn [deliver]. now destruct (m_xmpp_account s).
  - cbn [deliver]. destruct (m_qq_account s) as [qq|]; [|reflexivity].
    change (substr 3 ("q" :: "q" :: ":" :: n)%char) with (mret n : B cstring). run. now destruct (get_Group_by_qq qq n).
  - reflexivity.
Qed.

Lemma send_to_rooms_run x text rs : forall s,
  send_to_rooms (map room_text rs) x text s
  = Ok ((), add_all (flat_map (deliver s text) (List.filter (fun r => negb (str_eqb (room_text r) x)) rs)) s).
Proof.
  induction rs as [|r rs IH]; intros s; cbn [map send_to_rooms List.filter flat_map]; [reflexivity|]. run.
  destruct (str_eqb (room_text r) x); cbn [negb]; [exact (IH s)|]. rewrite send_to_room_run, IH. cbn [flat_map].
  rewrite add_all_app. do 4 f_equal. apply flat_map_ext. intros y. apply deliver_add_all.
Qed.

(** A message of a channel goes to its other rooms. *)
Lemma forward_run s message text ch rs x :
  pt_get ($"channel") message = Some ch -> ch <> [] -> room_name message = x ->
  format_message message s = Ok (text, s) -> map_find ch (m_channel_map s) = Some (map room_text rs) ->
  forward_message message s
  = Ok ((), add_all (flat_map (deliver s text) (List.filter (fun r => negb (str_eqb (room_text r) x)) rs)) s).
Proof.
  intros Hc Hch Hr Hf Hm. unfold forward_message. rewrite Hc. unfold need. run. rewrite Hf.
  destruct ch as [|c ch]; [contradiction|]. rewrite Hm, Hr. unfold broadcast_message, channel_rooms. run. rewrite Hm.
  apply send_to_rooms_run.
Qed.

(** *** The text of a message *)

Definition picture (s : avbot) (v : ptree) : option cstring :=
  match m_urlformater s with Some f => Some (f v) | None => pt_get ($"gchatpicurl") v end.

Definition cface_tree (c : qqMsgCface) : ptree :=
  PTree [] [($"name", pt_value (cface_name c)); ($"gid", pt_value (cface_gid c)); ($"uin", pt_value (cface_uin c));
            ($"key", pt_value (key c)); ($"server", pt_value (server c)); ($"file_id", pt_value (file_id c));
            ($"vfwebqq", pt_value (vfwebqq c)); ($"gchatpicurl", pt_value (gchatpicurl c))].

(** What a part of a QQ message looks like elsewhere. *)
Definition part_text (s : avbot) (m : qqMsg) : cstring :=
  match m with
  | MsgFont => []
  | MsgText t => t
  | MsgFace face => $" " ++ face_url face ++ $" "
  | MsgCface c => (match m_urlformater s with Some f => f (cface_tree c) | None => gchatpicurl c end) ++ $" "
  end.

(** The child of the tree for a part. *)
Definition part_child (m : qqMsg) : list (cstring * ptree) :=
  match m with
  | MsgFont => []
  | MsgText t => [($"text", pt_value t)]
  | MsgFace face => [($"img", pt_value (face_url face))]
  | MsgCface c => [($"cface", cface_tree c)]
  end.

Definition is_cface (m : qqMsg) : bool := match m with MsgCface _ => true | _ => false end.

Lemma update_child_new k f l : Forall (fun kv => str_eqb (fst kv) k = false) l -> update_child k f l = l ++ [(k, f None)].
Proof. induction 1 as [|[k' t] l H _ IH]; [reflexivity|]. cbn [update_child fst app] in *. now rewrite H, IH. Qed.

Lemma update_child_last k f l t :
  Forall (fun kv => str_eqb (fst kv) k = false) l -> update_child k f (l ++ [(k, t)]) = l ++ [(k, f (Some t))].
Proof.
  induction 1 as [|[k' t'] l H _ IH]; cbn [update_child fst app] in *; [now rewrite str_eqb_refl|]. now rewrite H, IH.
Qed.

Lemma force_new k1 k2 f l :
  Forall (fun kv => str_eqb (fst kv) k1 = false) l -> force_path [k1; k2] f (PTree [] l) = PTree [] (l ++ [(k1, f k2 empty_tree)]).
Proof. intros H. cbn [force_path pt_data pt_children]. now rewrite update_child_new. Qed.

Lemma force_last k1 k2 f l t :
  Forall (fun kv => str_eqb (fst kv) k1 = false) l ->
  force_path [k1; k2] f (PTree [] (l ++ [(k1, t)])) = PTree [] (l ++ [(k1, f k2 t)]).
Proof. intros H. cbn [force_path pt_data pt_children]. now rewrite update_child_last. Qed.

(** The first picture of a message. *)
Lemma add_cface_new c l :
  Forall (fun kv => str_eqb (fst kv) ($"cface") = false) l -> add_cface c (PTree [] l) = PTree [] (l ++ [($"cface", cface_tree c)]).
Proof.
  intros Hl. unfold add_cface, add, add_child.
  change (path ($"cface.name")) with [$"cface"; $"name"]. change (path ($"cface.gid")) with [$"cface"; $"gid"].
  change (path ($"cface.uin")) with [$"cface"; $"uin"]. change (path ($"cface.key")) with [$"cface"; $"key"].
  change (path ($"cface.server")) with [$"cface"; $"server"]. change (path ($"cface.file_id")) with [$"cface"; $"file_id"].
  change (path ($"cface.vfwebqq")) with [$"cface"; $"vfwebqq"]. change (path ($"cface.gchatpicurl")) with [$"cface"; $"gchatpicurl"].
  rewrite force_new by exact Hl. rewrite !force_last by exact Hl. reflexivity.
Qed.

(** The tree of a message with at most one picture. *)
Lemma add_parts_run m : forall l, Forall (fun kv => str_eqb (fst kv) ($"cface") = false) l \/ existsb is_cface m = false ->
  (length (List.filter is_cface m) <= 1)%nat ->
  fold_left add_part m (PTree [] l) = PTree [] (l ++ flat_map part_child m).
Proof.
  induction m as [|p m IH]; intros l Hl Hm; cbn [fold_left flat_map]; [now rewrite app_nil_r|].
  assert (forall k v, str_eqb k ($"cface") = false ->
            fold_left add_part m (PTree [] (l ++ [(k, v)])) = PTree [] (l ++ [(k, v)] ++ flat_map part_child m)) as Hk.
  { intros k v Hk. rewrite IH.
    - now rewrite <- app_assoc.
    - destruct Hl as [Hl|Hl]; [left|right; cbn [existsb] in Hl; now apply orb_false_iff in Hl as [_ Hl]].
      apply Forall_app. split; [exact Hl|]. now constructor; [|apply List.Forall_nil].
    - cbn [List.filter] in Hm. destruct (is_cface p); cbn [length] in Hm; lia. }
  destruct p as [|t|face|c]; cbn [add_part part_child].
  - apply IH; [|exact Hm]. destruct Hl; [now left|now right].
  - now apply (Hk ($"text")).
  - now apply (Hk ($"img")).
  - destruct Hl as [Hl|Hl]; [|discriminate]. rewrite add_cface_new by exact Hl. cbn [List.filter is_cface length] in Hm.
    rewrite IH; [now rewrite <- app_assoc| |lia]. right. apply not_true_is_false. intros He. apply existsb_exists in He as (x & Hx & Ex).
    assert (In x (List.filter is_cface m)) as Hin by now apply filter_In. destruct (List.filter is_cface m); [contradiction|cbn in Hm; lia].
Qed.

Lemma format_parts_run s m : forall acc,
  format_parts (flat_map part_child m) acc s = Ok (acc ++ concat (map (part_text s) m), s).
Proof.
  induction m as [|p m IH]; intros acc; cbn [flat_map map concat]; [now rewrite app_nil_r|].
  destruct p as [|t|face|c]; cbn [part_child part_text app]; [apply IH| | |].
  - change (format_parts (($"text", pt_value t) :: flat_map part_child m) acc s) with (format_parts (flat_map part_child m) (acc ++ t) s).
    rewrite IH. now rewrite <- app_assoc.
  - change (format_parts (($"img", pt_value (face_url face)) :: flat_map part_child m) acc s)
      with (format_parts (flat_map part_child m) (acc ++ $" " ++ face_url face ++ $" ") s).
    rewrite IH. now rewrite <- !app_assoc.
  - assert (format_parts (($"cface", cface_tree c) :: flat_map part_child m) acc s
            = format_parts (flat_map part_child m)
                (acc ++ (match m_urlformater s with Some f => f (cface_tree c) | None => gchatpicurl c end) ++ $" ") s) as ->.
    { change (format_parts (($"cface", cface_tree c) :: flat_map part_child m) acc s)
        with ((url ← match m_urlformater s with Some f => mret (f (cface_tree c)) | None => mret (gchatpicurl c) end;
               format_parts (flat_map part_child m) (acc ++ url ++ $" ")) s).
      run. now destruct (m_urlformater s). }
    rewrite IH. now rewrite <- !app_assoc.
Qed.

(** *** Channels *)

Definition rooms_of (ch : cstring) (s : avbot) : list cstring := default [] (map_find ch (m_channel_map s)).
Definition in_channel (ch r : cstring) (s : avbot) : Prop := In r (rooms_of ch s).

(** Sorted by name, no room twice in a channel. *)
Definition channels_ok (s : avbot) : Prop := sorted (m_channel_map s) /\ Forall (fun c => NoDup (snd c)) (m_channel_map s).

Lemma existsb_str r l : existsb (str_eqb r) l = true <-> In r l.
Proof.
  rewrite existsb_exists. split; [intros (x & Hx & E); apply str_eqb_eq in E; now subst|]. intros H. exists r. split; [exact H|apply str_eqb_refl].
Qed.

Lemma forall_assign {V} (P : cstring * V -> Prop) ch v (m : list (cstring * V)) :
  Forall P m -> P (ch, v) -> Forall P (insert_or_assign ch v m).
Proof.
  induction 1 as [|[k w] m Hk Hm IH]; intros Hv; cbn [insert_or_assign]; [now constructor; [|apply List.Forall_nil]|].
  destruct (key_ltb ch k); [now repeat constructor|]. destruct (key_ltb k ch); now constructor; auto.
Qed.

Lemma insert_assign {V} ch (v : V) m : map_find ch m = None -> map_insert ch v m = insert_or_assign ch v m.
Proof.
  induction m as [|[k w] m IH]; [reflexivity|]. cbn [map_find map_insert insert_or_assign]. destruct (key_ltb ch k); [reflexivity|].
  destruct (key_ltb k ch); [|discriminate]. intros H. now rewrite IH.
Qed.

(** The first channel with the room, in the order of the names. *)
Lemma get_channel_spec r s :
  sorted (m_channel_map s) ->
  (exists ch, in_channel ch r s) -> in_channel (get_channel_name r s) r s.
Proof.
  intros Hs (ch & Hr). unfold get_channel_name. destruct (List.find _ _) as [[c l]|] eqn:E.
  - apply find_some in E as [Hin He]. apply existsb_str in He. unfold in_channel, rooms_of. apply find_In in Hin; [|exact Hs].
    cbn [fst snd] in *. now rewrite Hin.
  - exfalso. unfold in_channel, rooms_of in Hr. destruct (map_find ch (m_channel_map s)) as [l|] eqn:Hl; [|contradiction].
    apply find_In in Hl; [|exact Hs]. pose proof (find_none _ _ E _ Hl) as Hn. cbn [snd] in Hn. change (In r l) in Hr. apply existsb_str in Hr. congruence.
Qed.

(** A room joins a channel. *)
Lemma channel_added s s' ch r :
  channels_ok s -> ~ in_channel ch r s ->
  m_channel_map s' = insert_or_assign ch (rooms_of ch s ++ [r]) (m_channel_map s) ->
  channels_ok s' /\ (forall ch' r', in_channel ch' r' s' <-> in_channel ch' r' s \/ ch' = ch /\ r' = r).
Proof.
  intros [Hs Hd] Hr E. split.
  - split; rewrite E; [now apply sorted_assign|]. apply forall_assign; [exact Hd|]. cbn [snd].
    apply NoDup_app. split; [|split; [|apply NoDup_singleton]].
    + unfold rooms_of. destruct (map_find ch (m_channel_map s)) as [l|] eqn:El; [|constructor].
      apply find_In in El; [|exact Hs]. rewrite List.Forall_forall in Hd. exact (Hd _ El).
    + intros x Hx Hxr. apply list_elem_of_singleton in Hxr. subst x. apply Hr. now apply list_elem_of_In.
  - intros ch' r'. unfold in_channel. unfold rooms_of at 1. rewrite E, find_assign by exact Hs.
    assert (ch' <> ch -> In r' (rooms_of ch' s) <-> In r' (rooms_of ch' s) \/ ch' = ch /\ r' = r) as Hne by tauto.
    destruct (key_ltb ch' ch) eqn:L1; [apply Hne; intros ->; now rewrite key_ltb_irrefl in L1|].
    destruct (key_ltb ch ch') eqn:L2; [apply Hne; intros ->; now rewrite key_ltb_irrefl in L2|].
    rewrite (key_ltb_total ch' ch L1 L2). change (In r' (rooms_of ch s ++ [r]) <-> In r' (rooms_of ch s) \/ ch = ch /\ r' = r). rewrite in_app_iff. cbn [In]. intuition (subst; auto).
Qed.

(** ** Properties *)

(** A message that comes in. *)
Inductive speech : Type :=
| FromIrc (m : irc_msg)
| FromXmpp (xmpproom who text : cstring)
| FromQQ (group_code who : cstring) (m : list qqMsg).

Definition receive (e : speech) : B () :=
  match e with
  | FromIrc m => callback_on_irc_message m
  | FromXmpp xmpproom who text => callback_on_xmpp_group_message xmpproom who text
  | FromQQ group_code who m => callback_on_qq_group_message group_code who m
  end.

(** Where it was said, and the text the other rooms see. *)
Definition spoken (s : avbot) (e : speech) : option (room * cstring) :=
  match e with
  | FromIrc m =>
      match from m with
      | _ :: r => Some (IrcRoom r, preamble_irc (preamble_irc_fmt s) m ++ msg m)
      | [] => None
      end
  | FromXmpp xmpproom who text => Some (XmppRoom xmpproom, preamble_xmpp (preamble_xmpp_fmt s) who xmpproom ++ text)
  | FromQQ group_code who m =>
      match m_qq_account s with
      | Some qq =>
          match get_Group_by_gid qq group_code with
          | Some g =>
              Some (QQRoom (qqnum g),
                    preamble_formater (preamble_qq_fmt s) (get_Buddy_by_uin g who) who (Some g) ++ concat (map (part_text s) m))
          | None => None
          end
      | None => None
      end
  end.

Definition pictures (e : speech) : nat :=
  match e with FromQQ _ _ m => length (List.filter is_cface m) | _ => 0%nat end.

(** The message in the signal. *)
Lemma receive_run s e r0 text :
  spoken s e = Some (r0, text) -> (pictures e <= 1)%nat ->
  exists message, receive e s = on_message message s
    /\ pt_get ($"channel") message = Some (get_channel_name (room_text r0) s) /\ room_name message = room_text r0
    /\ forall s', m_urlformater s' = m_urlformater s -> format_message message s' = Ok (text, s').
Proof.
  destruct e as [[w f loc t]|xr who t|gc who m]; cbn [spoken receive pictures from].
  - destruct f as [|c r]; [discriminate|]. intros [= <- <-] _. unfold callback_on_irc_message. cbn [from].
    change (substr 1 (c :: r)) with (mret r : B cstring). run. eexists. split; [reflexivity|].
    split; [reflexivity|]. split; [reflexivity|]. intros s' _. reflexivity.
  - intros [= <- <-] _. unfold callback_on_xmpp_group_message. run. eexists. split; [reflexivity|].
    split; [reflexivity|]. split; [reflexivity|]. intros s' _. reflexivity.
  - destruct (m_qq_account s) as [qq|] eqn:Eq; [|discriminate]. destruct (get_Group_by_gid qq gc) as [g|] eqn:Eg; [|discriminate].
    intros [= <- <-] Hm. unfold callback_on_qq_group_message. run. rewrite Eq, Eg.
    pose proof (add_parts_run m [] (or_introl (List.Forall_nil _)) Hm) as Hp. cbn [app] in Hp. unfold empty_tree at 3.
    change empty_tree with (PTree [] []) in *. rewrite Hp.
    destruct (get_Buddy_by_uin g who) as [b|]; (eexists; split; [reflexivity|]; split; [reflexivity|]; split; [reflexivity|]);
      intros s' Hu;
      (etransitivity; [refine (_ : _ = format_parts (flat_map part_child m) (preamble_formater (preamble_qq_fmt s) _ who (Some g)) s'); reflexivity|]);
      rewrite format_parts_run; (replace (map (part_text s') m) with (map (part_text s) m); [reflexivity|]);
      apply map_ext; intros []; cbn [part_text]; now rewrite ?Hu.
Qed.

(** What the other rooms of the channel get. *)
Definition relayed (s : avbot) (text : cstring) (r0 : room) (rs : list room) : list sent_message :=
  flat_map (deliver s text) (List.filter (fun r => negb (room_eqb r r0)) rs).

Lemma receive_relays s e r0 text ch rs :
  spoken s e = Some (r0, text) -> (pictures e <= 1)%nat ->
  sorted (m_channel_map s) -> get_channel_name (room_text r0) s = ch -> ch <> [] -> In (ch, map room_text rs) (m_channel_map s) ->
  exists message, receive e s = Ok ((), add_all (relayed s text r0 rs) (add_message message s)).
Proof.
  intros Hs Hp Hm Hc Hne Hin. destruct (receive_run s e r0 text Hs Hp) as (message & Er & Ec & En & Ef).
  apply find_In in Hin; [|exact Hm]. rewrite Hc in Ec. rewrite Er. unfold on_message. run.
  exists message. apply (forward_run (add_message message s) message text ch rs (room_text r0) Ec Hne En); auto.
Qed.

(** C30: the bot relays.  A message that comes in from a room of a channel,
    over IRC, XMPP or QQ, is sent to every other room of the channel, in their
    order and once to each, through the account of its protocol, as the preamble
    with the name of the speaker followed by the text; never back to the room
    it came from, and nothing else is sent. *)
Theorem relay (s : avbot) (e : speech) (r0 : room) (text ch : cstring) (rs : list room) :
  spoken s e = Some (r0, text) -> (pictures e <= 1)%nat ->
  sorted (m_channel_map s) -> get_channel_name (room_text r0) s = ch -> ch <> [] -> In (ch, map room_text rs) (m_channel_map s) ->
  exists s', receive e s = Ok ((), s')
    /\ sent_messages s' = sent_messages s ++ relayed s text r0 rs /\ m_channel_map s' = m_channel_map s.
Proof.
  intros Hs Hp Hm Hc Hne Hin. destruct (receive_relays s e r0 text ch rs Hs Hp Hm Hc Hne Hin) as (message & Er).
  eexists. split; [exact Er|]. destruct (add_all_sent (relayed s text r0 rs) (add_message message s)) as (H1 & H2 & _).
  now rewrite H1, H2.
Qed.

Lemma add_to_channel_run (s : avbot) (ch r : cstring) :
  channels_ok s ->
  exists s', add_to_channel ch r s = Ok ((), s') /\ channels_ok s'
    /\ (forall ch' r', in_channel ch' r' s' <-> in_channel ch' r' s \/ ch' = ch /\ r' = r)
    /\ new_channels s' = new_channels s ++ (match map_find ch (m_channel_map s) with Some _ => [] | None => [ch] end)
    /\ in_channel (get_channel_name r s') r s'
    /\ ((forall ch', ~ in_channel ch' r s) -> get_channel_name r s' = ch).
Proof.
  intros Hok. pose proof Hok as [Hs _]. unfold add_to_channel. run.
  assert (forall s', channels_ok s' -> (forall ch' r', in_channel ch' r' s' <-> in_channel ch' r' s \/ ch' = ch /\ r' = r) ->
            in_channel (get_channel_name r s') r s' /\ ((forall ch', ~ in_channel ch' r s) -> get_channel_name r s' = ch)) as Hget.
  { intros s' [Hs' _] Hin. assert (in_channel (get_channel_name r s') r s') as Hg.
    { apply get_channel_spec; [exact Hs'|]. exists ch. apply Hin. now right. }
    split; [exact Hg|]. intros Hno. apply Hin in Hg as [Hg|[Hg _]]; [now apply Hno in Hg|exact Hg]. }
  destruct (map_find ch (m_channel_map s)) as [c|] eqn:Ec.
  - assert (rooms_of ch s = c) as Er by (unfold rooms_of; now rewrite Ec). destruct (existsb (str_eqb r) c) eqn:Ee.
    + apply existsb_str in Ee. rewrite <- Er in Ee. exists s. rewrite app_nil_r. split; [reflexivity|]. split; [exact Hok|].
      assert (forall ch' r', in_channel ch' r' s <-> in_channel ch' r' s \/ ch' = ch /\ r' = r) as Hin
        by (intros ch' r'; split; [now left|intros [H|[-> ->]]; assumption]).
      split; [exact Hin|]. split; [reflexivity|now apply Hget].
    + eexists. split; [reflexivity|]. rewrite app_nil_r.
      destruct (channel_added s (set_channel_map (insert_or_assign ch (c ++ [r]) (m_channel_map s)) s) ch r Hok) as [H1 H2];
        [unfold in_channel; rewrite Er, <- existsb_str, Ee; discriminate|now rewrite Er|].
      split; [exact H1|]. split; [exact H2|]. split; [reflexivity|now apply Hget].
  - assert (rooms_of ch s = []) as Er by (unfold rooms_of; now rewrite Ec). eexists. split; [reflexivity|].
    match goal with |- channels_ok ?x /\ _ => destruct (channel_added s x ch r Hok) as [H1 H2] end;
      [unfold in_channel; now rewrite Er|rewrite Er; cbn; now apply insert_assign|].
    split; [exact H1|]. split; [exact H2|]. split; [reflexivity|now apply Hget].
Qed.

(** Rooms are joined to channels.  [add_to_channel] puts the room into
    the channel and changes no other membership, keeps the channels sorted and
    without a room twice, and tells the listeners exactly when the channel is new;
    [get_channel_name] then gives a channel with the room, and the given one when
    the room was in no channel before. *)
Theorem add_to_channel_correct (s : avbot) (ch r : cstring) :
  channels_ok s ->
  exists s', add_to_channel ch r s = Ok ((), s') /\ channels_ok s'
    /\ (forall ch' r', in_channel ch' r' s' <-> in_channel ch' r' s \/ ch' = ch /\ r' = r)
    /\ new_channels s' = new_channels s ++ (match map_find ch (m_channel_map s) with Some _ => [] | None => [ch] end)
    /\ in_channel (get_channel_name r s') r s'
    /\ ((forall ch', ~ in_channel ch' r s) -> get_channel_name r s' = ch).
Proof. apply add_to_channel_run. Qed.

(** Two pictures in one QQ message: [add] puts the second into the node of the
    first, and only the first is seen. *)
Theorem two_pictures (s : avbot) (c1 c2 : qqMsgCface) (acc : cstring) :
  m_urlformater s = None ->
  format_parts (pt_children (fold_left add_part [MsgCface c1; MsgCface c2] empty_tree)) acc s
  = Ok (acc ++ gchatpicurl c1 ++ $" ", s).
Proof.
  intros Hu. change (pt_children (fold_left add_part [MsgCface c1; MsgCface c2] empty_tree))
    with [($"cface", PTree [] (pt_children (cface_tree c1) ++ pt_children (cface_tree c2)))].
  change (format_parts [($"cface", PTree [] (pt_children (cface_tree c1) ++ pt_children (cface_tree c2)))] acc s)
    with ((url ← match m_urlformater s with
                 | Some f => mret (f (PTree [] (pt_children (cface_tree c1) ++ pt_children (cface_tree c2))))
                 | None => mret (gchatpicurl c1) end;
           mret (acc ++ url ++ $" ") : B cstring) s).
  run. now rewrite Hu.
Qed.

Definition percent_free (s : cstring) : Prop := Forall (fun c => (c =c "%") = false) s.

Lemma find_percent pat s : percent_free s -> find_str ("%"%char :: pat) s = None.
Proof.
  induction 1 as [|c s Hc _ IH]; [reflexivity|]. cbn [find_str is_prefix]. rewrite Ascii.eqb_sym, Hc. cbn [andb]. now rewrite IH.
Qed.

Lemma replace_percent pat rep s : percent_free s -> replace_all ("%"%char :: pat) rep s = s.
Proof. intros H. unfold replace_all. destruct (length s); cbn [replace_loop]; [reflexivity|]. now rewrite find_percent. Qed.

(** A name is not only shown: the later replacements see it, so the card "%q"
    makes the bot publish the QQ number. *)
Theorem preamble_injection (u n q : cstring) (f : Z) (who : cstring) :
  percent_free q ->
  preamble_formater ($"qq(%a)说：") (Some (QQBuddy u n ($"%q") f q)) who None = $"qq(" ++ q ++ $")说：".
Proof.
  intros Hq. change (preamble_formater ($"qq(%a)说：") (Some (QQBuddy u n ($"%q") f q)) who None)
    with (replace_all ($"%c") ($"%q") (replace_all ($"%q") q ($"qq(%q)说："))).
  change (replace_all ($"%q") q ($"qq(%q)说：")) with ($"qq(" ++ q ++ $")说：").
  apply replace_percent. apply Forall_app. split; [repeat constructor|]. apply Forall_app. split; [exact Hq|repeat constructor].
Qed.

(** [std::remove] without [erase]: the account stays in the list, as a pointer to
    an object that is gone. *)
Theorem account_not_removed (a : nat) (l : list nat) :
  length (std_remove Nat.eqb a l) = length l /\ std_remove Nat.eqb a [a] = [a].
Proof.
  unfold std_remove. split; [|cbn; now rewrite Nat.eqb_refl].
  assert (length (List.filter (fun x => negb (x =? a)%nat) l) <= length l)%nat as H by apply filter_length_le.
  rewrite length_app, length_drop. lia.
Qed.

(** A channel with a room of each protocol. *)
Definition example_group : qqGroup := QQGroup ($"g1") ($"avplayer") ($"c1") ($"123") ($"u0") (fun _ => None).
Definition example_bot : avbot :=
  let qq := QQAccount (fun g => if str_eqb g ($"g1") then Some example_group else None)
              (fun n => if str_eqb n ($"123") then Some example_group else None) true in
  set_channel_map [($"avplayer", [$"irc:avplayer"; $"xmpp:a@b"; $"qq:123"])] (new_avbot (Some qq) true true).
Definition example_irc_message : irc_msg := IrcMsg ($"cai") ($"#avplayer") ($"x@y") ($"hi").

Lemma relay_witness :
  exists s', receive (FromIrc example_irc_message) example_bot = Ok ((), s')
    /\ sent_messages s' = [ToXmpp ($"a@b") ($"cai 说：hi"); ToQQ example_group ($"cai 说：hi")]
    /\ m_channel_map s' = m_channel_map example_bot.
Proof.
  apply (relay example_bot (FromIrc example_irc_message) (IrcRoom ($"avplayer")) ($"cai 说：hi") ($"avplayer")
           [IrcRoom ($"avplayer"); XmppRoom ($"a@b"); QQRoom ($"123")]).
  - reflexivity.
  - cbn. lia.
  - repeat constructor.
  - reflexivity.
  - discriminate.
  - now left.
Defined.

Lemma add_to_channel_correct_witness :
  exists s', add_to_channel ($"avplayer") ($"irc:qt") example_bot = Ok ((), s') /\ get_channel_name ($"irc:qt") s' = $"avplayer".
Proof.
  destruct (add_to_channel_correct example_bot ($"avplayer") ($"irc:qt")) as (s' & E & _ & _ & _ & _ & H).
  - split; [repeat constructor|]. constructor; [|apply List.Forall_nil]. now apply (bool_decide_unpack _).
  - exists s'. split; [exact E|]. apply H. intros ch' Hin. unfold in_channel, rooms_of in Hin.
    cbn [m_channel_map example_bot set_channel_map map_find] in Hin.
    destruct (key_ltb ch' _); [exact Hin|]. destruct (key_ltb _ ch'); [exact Hin|].
    change (In ($"irc:qt") [$"irc:avplayer"; $"xmpp:a@b"; $"qq:123"]) in Hin. destruct Hin as [Hi|[Hi|[Hi|[]]]]; discriminate Hi.
Defined.
