(* ===== verification/System.v ===== *)
(** The bot with its IRC client: Avbot.v joined to Irc.v as libavbot/avbot.cpp
    joins them.

    A line of the IRC server becomes a call of [callback_on_irc_message], and
    what the bot sends to a room of IRC becomes calls of [chat]; these calls are
    made in their order, behind the handler that caused them. *)

From S2P Require Import Prelude CLib OrdMap Settings Cookie HttpParsers HttpBody HttpStream Transport.
From S2P Require Import Regex CoroQueue Irc IrcSafety PTree Avbot.

Section System.
Context {C1 C2 : Container cstring} {E : RegexEngine}.
Variable asserts : bool.

Record system : Type := System { the_irc : irc C1 C2; the_bot : avbot }.

Inductive system_fault : Type := IrcFault (f : irc_fault) | BotFault (e : avbot_error).

Abbreviation S := (st system system_fault).

Definition on_irc {A} (m : st (irc C1 C2) irc_fault A) : S A :=
  fun s => match m (the_irc s) with Ok (a, i) => Ok (a, System i (the_bot s)) | Err f => Err (IrcFault f) end.
Definition on_bot {A} (m : st avbot avbot_error A) : S A :=
  fun s => match m (the_bot s) with Ok (a, b) => Ok (a, System (the_irc s) b) | Err f => Err (BotFault f) end.

(** What the bot has sent is handed to the client. *)
Fixpoint chats (l : list sent_message) : st (irc C1 C2) irc_fault () :=
  match l with
  | [] => mret ()
  | ToIrc channel text :: l' => chat asserts channel text ;; chats l'
  | _ :: l' => chats l'
  end.

(** A message reaches the bot. *)
Definition bot_receives (e : speech) : S () :=
  s ← st_get;
  on_bot (receive e) ;;
  s' ← st_get;
  on_irc (chats (drop (length (sent_messages (the_bot s))) (sent_messages (the_bot s')))).

Fixpoint call_backs (l : list irc_msg) : S () :=
  match l with [] => mret () | m :: l' => bot_receives (FromIrc m) ;; call_backs l' end.

Inductive system_event : Type :=
| OnIrc (e : irc_event)
| OnRoom (e : speech)
| AddRoom (channel_name room_name : cstring).

Definition system_handle (e : system_event) : S () :=
  match e with
  | OnIrc e =>
      s ← st_get;
      on_irc (handle asserts e) ;;
      s' ← st_get;
      call_backs (drop (length (cb_calls (the_irc s))) (cb_calls (the_irc s')))
  | OnRoom e => bot_receives e
  | AddRoom ch r => on_bot (add_to_channel ch r)
  end.

(** Events that can happen, with what they may carry: the names that come from
    the configuration have no line breaks, the texts of messages are any. *)
Definition system_allowed (e : system_event) (s : system) : Prop :=
  match e with
  | OnIrc e => possible e (the_irc s) = true /\ allowed e (the_irc s)
  | OnRoom _ => True
  | AddRoom _ r => clean r
  end.

Inductive system_steps (s : system) : system -> Prop :=
| system_none : system_steps s s
| system_more s1 e s2 : system_steps s s1 -> system_allowed e s1 -> system_handle e s1 = Ok ((), s2) -> system_steps s s2.

(** Before anything happens. *)
Definition system_init (user pwd server : cstring) (n : Z) (qq : option qq_account) (xmpp : bool) : system :=
  System (irc_init user pwd server n) (new_avbot qq true xmpp).
End System.
#[global] Arguments system C1 C2 : clear implicits.

(** ** What the bot sends *)

(** Names of rooms without line breaks. *)
Definition bot_ok (s : avbot) : Prop := Forall (fun c => Forall clean (snd c)) (m_channel_map s).
Definition target_ok (m : sent_message) : Prop := match m with ToIrc channel _ => clean channel | _ => True end.

(** A method of the bot, from this state: it only adds messages to such rooms. *)
Definition sends {A} (m : st avbot avbot_error A) (Q : A -> Prop) (s : avbot) : Prop :=
  forall a s', m s = Ok (a, s') -> Q a /\ bot_ok s' /\ exists l, sent_messages s' = sent_messages s ++ l /\ Forall target_ok l.

Section Sends.
Variable s : avbot.
Hypothesis Hs : bot_ok s.

Lemma sends_ret {A} (a : A) (Q : A -> Prop) : Q a -> sends (mret a) Q s.
Proof. intros HQ a' s' [= <- <-]. split; [exact HQ|]. split; [exact Hs|]. exists []. now rewrite app_nil_r. Qed.

Lemma sends_fail {A} e (Q : A -> Prop) : sends (st_fail e) Q s.
Proof. intros a s' [=]. Qed.

Lemma sends_bind {A A'} (m : st avbot avbot_error A) (k : A -> st avbot avbot_error A') P Q :
  sends m P s -> (forall a s', bot_ok s' -> P a -> sends (k a) Q s') -> sends (m ≫= k) Q s.
Proof.
  intros Hm Hk a' s2 E2. unfold mbind, st_bind in E2. destruct (m s) as [[a s1]|e] eqn:E1; [|discriminate].
  destruct (Hm _ _ E1) as (Ha & H1 & l1 & S1 & T1). destruct (Hk a s1 H1 Ha _ _ E2) as (HQ & H2 & l2 & S2 & T2).
  split; [exact HQ|]. split; [exact H2|]. exists (l1 ++ l2). rewrite S2, S1, app_assoc. split; [reflexivity|]. now apply Forall_app_2.
Qed.

Lemma sends_get {A} (k : avbot -> st avbot avbot_error A) Q : sends (k s) Q s -> sends (st_get ≫= k) Q s.
Proof. exact (fun H => H). Qed.

Lemma sends_modify f :
  bot_ok (f s) -> (exists l, sent_messages (f s) = sent_messages s ++ l /\ Forall target_ok l) -> sends (st_modify f) (fun _ => True) s.
Proof. intros H1 H2 a s' [= <- <-]. split; [exact I|now split]. Qed.

Lemma sends_quiet f : bot_ok (f s) -> sent_messages (f s) = sent_messages s -> sends (st_modify f) (fun _ => True) s.
Proof. intros H1 H2. apply sends_modify; [exact H1|]. exists []. rewrite app_nil_r. split; [exact H2|constructor]. Qed.

Lemma sends_sent m : target_ok m -> sends (st_modify (add_sent m)) (fun _ => True) s.
Proof. intros Hm. apply sends_modify; [exact Hs|]. exists [m]. now repeat constructor. Qed.

Lemma sends_substr n x : clean x -> sends (substr n x) clean s.
Proof.
  intros Hx. unfold substr. destruct (n <=? length x)%nat; [|apply sends_fail]. apply sends_ret.
  unfold clean in *. rewrite <- (take_drop n x) in Hx. now apply Forall_app in Hx.
Qed.

Lemma sends_need {A} (o : option A) : sends (need o) (fun _ => True) s.
Proof. destruct o; [now apply sends_ret|apply sends_fail]. Qed.
End Sends.

Lemma sends_weaken {A} (m : st avbot avbot_error A) Q s : sends m Q s -> sends m (fun _ => True) s.
Proof. intros H a s' Em. now destruct (H a s' Em) as (_ & ?). Qed.

(** A path that is read first. *)
Ltac needs := apply sends_bind with (fun _ => True); [now apply sends_need|intros ? ? ? _].

Lemma format_parts_sends l : forall acc s, bot_ok s -> sends (format_parts l acc) (fun _ => True) s.
Proof.
  induction l as [|[k v] l IH]; intros acc s Hs; cbn [format_parts]; [now apply sends_ret|].
  destruct (str_eqb k _); [now apply IH|]. destruct (_ || _); [now apply IH|]. destruct (str_eqb k _); [|now apply IH].
  apply sends_get. apply sends_bind with (fun _ => True); [|auto].
  destruct (m_urlformater s); [now apply sends_ret|now apply sends_need].
Qed.

Lemma format_message_sends t s : bot_ok s -> sends (format_message t) (fun _ => True) s.
Proof.
  intros Hs. unfold format_message. needs. destruct (negb _); needs; [now apply format_parts_sends|].
  do 3 needs. now apply sends_ret.
Qed.

Lemma send_to_room_sends r msg s : bot_ok s -> clean r -> sends (send_to_room r msg) (fun _ => True) s.
Proof.
  intros Hs Hr. unfold send_to_room. apply sends_get.
  assert (forall n (k : cstring -> st avbot avbot_error ()), (forall x s', bot_ok s' -> clean x -> sends (k x) (fun _ => True) s') ->
            sends (substr n r ≫= k) (fun _ => True) s) as Hsub.
  { intros n k Hk. apply sends_bind with clean; [now apply sends_substr|exact Hk]. }
  destruct (str_eqb _ _); [destruct (m_irc_account s); [|now apply sends_ret]|].
  { apply Hsub. intros x s' Hs' Hx. apply sends_sent; [exact Hs'|]. apply clean_app. split; [apply clean_text; reflexivity|exact Hx]. }
  destruct (str_eqb _ _); [destruct (m_xmpp_account s); [|now apply sends_ret]|].
  { apply Hsub. intros x s' Hs' Hx. now apply sends_sent. }
  destruct (str_eqb _ _); [destruct (m_qq_account s) as [qq|]; [|now apply sends_ret]|now apply sends_ret].
  apply Hsub. intros x s' Hs' Hx. destruct (get_Group_by_qq qq x); [now apply sends_sent|now apply sends_ret].
Qed.

Lemma send_to_rooms_sends x msg l : Forall clean l -> forall s, bot_ok s -> sends (send_to_rooms l x msg) (fun _ => True) s.
Proof.
  induction 1 as [|r l Hr _ IH]; intros s Hs; cbn [send_to_rooms]; [now apply sends_ret|].
  apply sends_bind with (fun _ => True); [|auto]. destruct (str_eqb r x); [now apply sends_ret|now apply send_to_room_sends].
Qed.

(** The rooms of a channel. *)
Lemma find_clean s ch c : bot_ok s -> map_find ch (m_channel_map s) = Some c -> Forall clean c.
Proof.
  unfold bot_ok. induction 1 as [|[k v] m Hv _ IH]; cbn [map_find]; [discriminate|].
  destruct (key_ltb ch k); [discriminate|]. destruct (key_ltb k ch); [exact IH|]. now intros [= <-].
Qed.

Lemma channel_rooms_sends ch s : bot_ok s -> sends (channel_rooms ch) (Forall clean) s.
Proof.
  intros Hs. apply sends_get. destruct (map_find ch (m_channel_map s)) as [c|] eqn:Ec.
  - apply sends_ret; [exact Hs|]. now apply find_clean with s ch.
  - apply sends_bind with (fun _ => True); [|intros; now apply sends_ret].
    apply sends_quiet; [|reflexivity]. apply forall_assign; [exact Hs|]. constructor.
Qed.

Lemma broadcast_message_sends ch x msg s : bot_ok s -> sends (Avbot.broadcast_message ch x msg) (fun _ => True) s.
Proof.
  intros Hs. apply sends_bind with (Forall clean); [now apply channel_rooms_sends|].
  intros l s' Hs' Hl. now apply send_to_rooms_sends.
Qed.

Lemma forward_message_sends t s : bot_ok s -> sends (forward_message t) (fun _ => True) s.
Proof.
  intros Hs. unfold forward_message. needs.
  apply sends_bind with (fun _ => True); [now apply format_message_sends|]. intros text s2 H2 _. destruct a as [|c ch].
  - apply sends_get. generalize (m_channel_map s2). intros l. revert s2 H2.
    induction l as [|c l IH]; intros s2 H2; cbn [broadcast_channels]; [now apply sends_ret|].
    apply sends_bind with (fun _ => True); [now apply broadcast_message_sends|auto].
  - apply sends_get. destruct (map_find _ _); [now apply broadcast_message_sends|now apply sends_ret].
Qed.

Lemma on_message_sends t s : bot_ok s -> sends (on_message t) (fun _ => True) s.
Proof.
  intros Hs. apply sends_bind with (fun _ => True); [now apply sends_quiet|]. intros _ s' Hs' _. now apply forward_message_sends.
Qed.

(** Whatever was said: the message in the signal has some form, or there is none. *)
Lemma receive_sends e s : bot_ok s -> sends (receive e) (fun _ => True) s.
Proof.
  intros Hs. destruct e as [m|r who text|gc who m]; cbn [receive].
  - apply sends_bind with (fun _ => True).
    + unfold substr. destruct (1 <=? length (from m))%nat; [now apply sends_ret|apply sends_fail].
    + intros room s' Hs' _. apply sends_get. cbv zeta. now apply on_message_sends.
  - apply sends_get. cbv zeta. now apply on_message_sends.
  - apply sends_get. destruct (m_qq_account s) as [qq|]; [|apply sends_fail].
    destruct (get_Group_by_gid qq gc) as [g|]; cbv zeta beta iota; [|now apply on_message_sends].
    destruct (get_Buddy_by_uin g who); now apply on_message_sends.
Qed.

Lemma add_to_channel_sends ch r s : bot_ok s -> clean r -> sends (add_to_channel ch r) (fun _ => True) s.
Proof.
  intros Hs Hr. apply sends_get. destruct (map_find ch (m_channel_map s)) as [c|] eqn:Ec.
  - destruct (existsb _ _); [now apply sends_ret|]. apply sends_quiet; [|reflexivity]. apply forall_assign; [exact Hs|].
    apply Forall_app_2; [now apply find_clean with s ch|now repeat constructor].
  - apply sends_bind with (fun _ => True); [|intros; now apply sends_quiet].
    apply sends_quiet; [|reflexivity]. unfold bot_ok. cbn [m_channel_map set_channel_map]. rewrite insert_assign by exact Ec.
    apply forall_assign; [exact Hs|now repeat constructor].
Qed.

(** ** The invariant of the system *)

Section Invariant.
Context {C1 C2 : Container cstring} {L1 : ContainerLaws C1} {L2 : ContainerLaws C2} {E : RegexEngine} {EL : RegexLaws E}.
Variable asserts : bool.

Definition system_inv (s : system C1 C2) : Prop := irc_inv (the_irc s) /\ bot_ok (the_bot s).

Lemma keeps_chats l : Forall target_ok l -> keeps (C1 := C1) (C2 := C2) (chats asserts l).
Proof.
  induction 1 as [|m l Hm _ IH]; [apply keeps_ret|].
  destruct m; [|exact IH|exact IH]. apply keeps_bind; [now apply keeps_chat|exact IH].
Qed.

Lemma bot_receives_inv e s s' : system_inv s -> bot_receives asserts e s = Ok ((), s') -> system_inv s'.
Proof.
  intros [Hi Hb]. unfold bot_receives, on_bot, on_irc. run.
  destruct (receive e (the_bot s)) as [[[] b]|f] eqn:Er; [|discriminate]. cbn [the_irc the_bot].
  destruct (receive_sends e _ Hb _ _ Er) as (_ & Hb' & l & Hl & Ht). rewrite Hl, drop_app_length.
  pose proof (keeps_chats l Ht _ Hi) as Hk. unfold wp in Hk. destruct (chats asserts l (the_irc s)) as [[[] i]|f]; [|contradiction].
  intros [= <-]. now split.
Qed.

Lemma call_backs_inv l : forall s s', system_inv s -> call_backs asserts l s = Ok ((), s') -> system_inv s'.
Proof.
  induction l as [|m l IH]; intros s s' Hs; cbn [call_backs]; [now intros [= <-]|]. unfold mbind, st_bind.
  destruct (bot_receives asserts (FromIrc m) s) as [[[] s1]|f] eqn:E1; [|discriminate].
  apply IH. now apply bot_receives_inv with (FromIrc m) s.
Qed.

Lemma system_handle_inv e s s' :
  system_inv s -> system_allowed e s -> system_handle asserts e s = Ok ((), s') -> system_inv s'.
Proof.
  intros Hs Ha. destruct e as [e|e|ch r]; cbn [system_handle].
  - destruct Hs as [Hi Hb], Ha as [Hp Ha]. pose proof (inv_handle asserts e (the_irc s) Hi Hp Ha) as Hw. unfold wp in Hw.
    unfold on_irc. run. destruct (handle asserts e (the_irc s)) as [[[] i]|f]; [|contradiction]. apply call_backs_inv. now split.
  - now apply bot_receives_inv.
  - unfold on_bot. destruct (add_to_channel ch r (the_bot s)) as [[[] b]|f] eqn:Er; [|discriminate]. intros [= <-].
    destruct (add_to_channel_sends ch r _ (proj2 Hs) Ha _ _ Er) as (_ & Hb & _). now split; [apply Hs|].
Qed.

Lemma system_steps_inv s s' : system_inv s -> system_steps asserts s s' -> system_inv s'.
Proof. intros Hs. induction 1 as [|s1 e s2 _ IH Ha Eh]; [exact Hs|]. now apply system_handle_inv with e s1. Qed.

Lemma system_init_inv user pwd server n qq xmpp :
  clean user -> clean pwd -> regex_match server_re server <> None -> system_inv (system_init user pwd server n qq xmpp).
Proof. intros Hu Hw Hs. split; [now apply inv_init|constructor]. Qed.
End Invariant.

(** C5: nobody can speak for the bot.  However rooms whose names have no line
    end are joined to channels and whatever is said in them, over IRC, XMPP or QQ, in
    any order with the events of the connection, as long as the handlers return: what
    the IRC client has sent on an open connection is a sequence of commands, each one
    line; a text that is relayed to IRC never becomes a command of its own.  And in
    every such state the IRC client itself handles each of its events that can happen
    (a completion, a timer, a call of [chat] or [join] with clean texts, a line whose
    characters are those of a line) without a failure of its queues. *)
Theorem system_sends_lines {C1 C2 : Container cstring} {L1 : ContainerLaws C1} {L2 : ContainerLaws C2} {E : RegexEngine}
    {EL : RegexLaws E} (asserts : bool) (user pwd server : cstring) (n : Z) (qq : option qq_account) (xmpp : bool)
    (s : system C1 C2) :
  clean user -> clean pwd -> regex_match server_re server <> None ->
  system_steps asserts (system_init user pwd server n qq xmpp) s ->
  (socket_open (the_irc s) = true -> exists ls, socket_sent (the_irc s) = concat ls /\ Forall command ls)
  /\ forall e, possible e (the_irc s) = true -> allowed e (the_irc s) -> exists i, handle asserts e (the_irc s) = Ok ((), i).
Proof.
  intros Hu Hw Hs HS. destruct (system_steps_inv asserts _ _ (system_init_inv user pwd server n qq xmpp Hu Hw Hs) HS) as [Hi _].
  split; [exact (inv_sent _ Hi)|]. intros e Hp Ha. pose proof (inv_handle asserts e _ Hi Hp Ha) as Hk.
  apply wp_run in Hk as ([] & i & Eh & _). now exists i.
Qed.

(** ** A line of IRC and what becomes of it *)

Section Relay.
Context {C1 C2 : Container cstring} {L1 : ContainerLaws C1} {L2 : ContainerLaws C2} {E : RegexEngine} {EL : RegexLaws E}.
Variable asserts : bool.

(** The line that a server sends for what [nick] says in a channel. *)
Definition said (nick loc r text : cstring) : cstring := $":" ++ nick ++ $"!" ++ loc ++ $" " ++ privmsg ($"#" ++ r) text.

Record said_ok (nick loc r text : cstring) : Prop := {
  so_nick : Forall (fun c => not_char "!" c = true) nick /\ nick <> [];
  so_loc : Forall (fun c => not_char " " c = true) loc /\ loc <> [];
  so_room : Forall (fun c => not_char " " c = true) r;
  so_clean : clean (said nick loc r text);
  so_name : find_str nick_in_use (said nick loc r text) = None
}.

Lemma clean_lf x : clean x -> free_of [LF] x.
Proof.
  apply List.Forall_impl. intros c Hc. unfold line_char in Hc. apply orb_false_iff in Hc as [_ Hc].
  unfold mem_char. cbn [existsb]. now rewrite Hc.
Qed.

(** The read that is under way gets the rest of the line. *)
Lemma said_handled (s : irc C1 C2) i data nick loc r text more :
  said_ok nick loc r text -> todo s !! i = Some Reading -> response_ (cl s) ++ data = said nick loc r text ++ crlf ++ more ->
  exists s', handle asserts (Done i (Received data)) s = Ok ((), s')
    /\ cb_calls s' = cb_calls s ++ [IrcMsg nick ($"#" ++ r) loc text].
Proof.
  intros [[Hn Hn'] [Hl Hl'] Hr Hc Hf] Ht Hd. unfold handle. rewrite (bind_ok _ _ s s s) by reflexivity. rewrite Ht.
  set (s1 := set_todo (delete i (todo s)) s). rewrite (bind_ok _ _ s () s1) by reflexivity. cbn [resume].
  set (s2 := set_cl (set_irc_response (response_ (cl s) ++ data) (cl s)) s1). rewrite (bind_ok _ _ s1 () s2) by reflexivity.
  rewrite (bind_ok _ _ s2 s2 s2) by reflexivity. change (response_ (cl s2)) with (response_ (cl s) ++ data).
  rewrite Hd, crlf_end_line by now apply clean_lf. cbn [reader].
  pose proof (privmsg_received asserts nick loc ($"#" ++ r) text more s2 Hn Hn' Hl Hl' (Forall_cons_2 _ "#"%char r eq_refl Hr)
                ltac:(discriminate) Hf Hd) as Ep. rewrite (bind_ok _ _ _ _ _ Ep). now eexists.
Qed.

(** The default format shows the name in front of the text. *)
Lemma default_preamble nick r loc text :
  percent_free nick -> preamble_irc ($"%a 说：") (IrcMsg nick r loc text) = nick ++ $" 说：".
Proof.
  intros Hn. unfold preamble_irc. cbn [whom from].
  assert (replace_all ($"%a") nick ($"%a 说：") = nick ++ $" 说：") as -> by reflexivity.
  assert (percent_free (nick ++ $" 说：")) as Hp by (apply Forall_app_2; [exact Hn|repeat constructor]).
  rewrite (replace_percent ["r"%char] r _ Hp : replace_all ($"%r") r _ = _).
  exact (replace_percent ["n"%char] nick _ Hp).
Qed.

Lemma bot_receives_relays s e r0 text ch rs :
  system_inv (C1 := C1) (C2 := C2) s -> spoken (the_bot s) e = Some (r0, text) -> (pictures e <= 1)%nat -> sorted (m_channel_map (the_bot s)) ->
  get_channel_name (room_text r0) (the_bot s) = ch -> ch <> [] -> In (ch, map room_text rs) (m_channel_map (the_bot s)) ->
  exists s', bot_receives asserts e s = Ok ((), s') /\ system_inv s'
    /\ sent_messages (the_bot s') = sent_messages (the_bot s) ++ relayed (the_bot s) text r0 rs
    /\ chats asserts (relayed (the_bot s) text r0 rs) (the_irc s) = Ok ((), the_irc s').
Proof.
  intros [Hi Hb] Hs Hp Hm Hc Hne Hin. destruct (receive_relays _ e r0 text ch rs Hs Hp Hm Hc Hne Hin) as (message & Er).
  destruct (add_all_sent (relayed (the_bot s) text r0 rs) (add_message message (the_bot s))) as (Hsent & _ & _).
  destruct (receive_sends e _ Hb _ _ Er) as (_ & Hb' & l & Hl & Ht). rewrite Hsent in Hl.
  change (sent_messages (add_message message (the_bot s))) with (sent_messages (the_bot s)) in Hl, Hsent. apply app_inv_head in Hl.
  pose proof (keeps_chats asserts l Ht _ Hi) as Hk. apply wp_run in Hk as ([] & i & Ek & Hi').
  exists (System i (add_all (relayed (the_bot s) text r0 rs) (add_message message (the_bot s)))). split.
  - unfold bot_receives, on_bot, on_irc. run. rewrite Er. cbn [the_bot the_irc]. rewrite Hsent, Hl, drop_app_length. now rewrite Ek.
  - split; [now split|]. split; [exact Hsent|]. now rewrite Hl.
Qed.
End Relay.

(** C4: what is said on IRC is heard elsewhere.  The client waits for a line;
    the server sends what someone said in a channel of IRC, in any number of
    pieces of which this is the last.  Then the bot has called each other room
    of its channel, once and in order, with the name of the speaker in front of
    the text, and each call for a room of IRC was passed on to the client; the
    invariant of the system holds again. *)
Theorem irc_relayed {C1 C2 : Container cstring} {L1 : ContainerLaws C1} {L2 : ContainerLaws C2} {E : RegexEngine} {EL : RegexLaws E}
    (asserts : bool) (s : system C1 C2) (i : nat) (data nick loc r text more ch : cstring) (rs : list room) :
  system_inv s -> said_ok nick loc r text -> percent_free nick ->
  todo (the_irc s) !! i = Some Reading -> socket_open (the_irc s) = true ->
  response_ (cl (the_irc s)) ++ data = said nick loc r text ++ crlf ++ more ->
  preamble_irc_fmt (the_bot s) = $"%a 说：" -> sorted (m_channel_map (the_bot s)) ->
  get_channel_name ($"irc:" ++ r) (the_bot s) = ch -> ch <> [] -> In (ch, map room_text rs) (m_channel_map (the_bot s)) ->
  let out := relayed (the_bot s) (nick ++ $" 说：" ++ text) (IrcRoom r) rs in
  exists s1 s', handle asserts (Done i (Received data)) (the_irc s) = Ok ((), s1)
    /\ system_handle asserts (OnIrc (Done i (Received data))) s = Ok ((), s') /\ system_inv s'
    /\ sent_messages (the_bot s') = sent_messages (the_bot s) ++ out /\ chats asserts out s1 = Ok ((), the_irc s').
Proof.
  intros [Hi Hb] Hsaid Hpf Ht Ho Hd Hfmt Hm Hc Hne Hin out.
  destruct (said_handled asserts (the_irc s) i data nick loc r text more Hsaid Ht Hd) as (s1 & Eh & Ecb).
  assert (irc_inv s1) as Hi1.
  { pose proof (inv_handle asserts (Done i (Received data)) (the_irc s) Hi) as Hk. unfold wp in Hk. rewrite Eh in Hk. apply Hk.
    - cbn [possible]. rewrite Ht, Ho, Hd, crlf_end_line by apply clean_lf, (so_clean _ _ _ _ Hsaid). reflexivity.
    - cbn [allowed]. rewrite Hd, crlf_end_line by apply clean_lf, (so_clean _ _ _ _ Hsaid).
      rewrite Nat.add_sub, take_app_length. exact (so_clean _ _ _ _ Hsaid). }
  destruct (bot_receives_relays asserts (System s1 (the_bot s)) (FromIrc (IrcMsg nick ($"#" ++ r) loc text)) (IrcRoom r)
              (nick ++ $" 说：" ++ text) ch rs) as (s' & Er & Hs' & H1 & H2); try assumption.
  - now split.
  - cbn [spoken from the_bot]. change ($"#" ++ r) with ("#"%char :: r). cbv iota. rewrite Hfmt, default_preamble by exact Hpf.
    now rewrite <- app_assoc.
  - cbn. lia.
  - exists s1, s'. split; [exact Eh|]. split; [|now split].
    unfold system_handle, on_irc. rewrite (bind_ok _ _ s s s) by reflexivity. rewrite (bind_ok _ _ s () (System s1 (the_bot s))) by now rewrite Eh.
    rewrite (bind_ok _ _ _ (System s1 (the_bot s)) (System s1 (the_bot s))) by reflexivity. cbn [the_irc]. rewrite Ecb, drop_app_length.
    cbn [call_backs]. now rewrite (bind_ok _ _ _ () s') by exact Er.
Qed.

(** ** Examples *)

(** A run of events; those of the client must be possible. *)
Fixpoint run_system {C1 C2 : Container cstring} {E : RegexEngine} (asserts : bool) (es : list system_event) (s : system C1 C2)
    : option (system C1 C2) :=
  match es with
  | [] => Some s
  | e :: es' =>
      if match e with OnIrc e => possible e (the_irc s) | _ => true end
      then match system_handle asserts e s with Ok (_, s') => run_system asserts es' s' | Err _ => None end
      else None
  end.

Lemma system_steps_cons {C1 C2 : Container cstring} {E : RegexEngine} asserts (s s1 s2 : system C1 C2) e :
  system_allowed e s -> system_handle asserts e s = Ok ((), s1) -> system_steps asserts s1 s2 -> system_steps asserts s s2.
Proof.
  intros Ha Eh. induction 1 as [|s3 e' s4 _ IH Ha' Eh']; [now apply system_more with s e; [constructor|..]|].
  now apply system_more with s3 e'.
Qed.

Lemma run_system_steps {C1 C2 : Container cstring} {E : RegexEngine} asserts es : forall (s s' : system C1 C2),
  run_system asserts es s = Some s' ->
  Forall (fun e => match e with OnIrc e => forall i : irc C1 C2, allowed e i | OnRoom _ => True | AddRoom _ r => clean r end) es ->
  system_steps asserts s s'.
Proof.
  induction es as [|e es IH]; intros s s' Hr Hok; cbn [run_system] in Hr; [injection Hr as <-; constructor|].
  inversion_clear Hok as [|? ? He Hes]. destruct (match e with OnIrc e => possible e (the_irc s) | _ => true end) eqn:Ep; [|discriminate].
  destruct (system_handle asserts e s) as [[[] s1]|] eqn:Eh; [|discriminate].
  apply system_steps_cons with s1 e; [|exact Eh|now apply IH]. destruct e; cbn [system_allowed]; auto.
Qed.

(** Someone tries to end the session of the bot from a room of XMPP. *)
Definition example_system_events : list system_event :=
  [AddRoom ($"avplayer") ($"irc:avplayer"); AddRoom ($"avplayer") ($"xmpp:a@b"); OnIrc (Done 0 Success); OnIrc (Done 0 Success);
   OnRoom (FromXmpp ($"a@b") ($"eve") ($"hi" ++ crlf ++ $"QUIT")); OnIrc (Done 1 Success); OnIrc (Done 2 Success)].

Definition example_system : system commands_buffer messages_buffer :=
  default (system_init ($"bot") ($"pw") ($"irc.freenode.net") 1000 None true)
    (run_system true example_system_events (system_init ($"bot") ($"pw") ($"irc.freenode.net") 1000 None true)).

Lemma system_sends_lines_witness :
  m_list (messages_send_queue_ (cl (the_irc example_system))) = [$"PRIVMSG #avplayer :(eve)说：hi"; $"PRIVMSG #avplayer :QUIT"]
  /\ (socket_open (the_irc example_system) = true -> exists ls, socket_sent (the_irc example_system) = concat ls /\ Forall command ls)
  /\ forall e, possible e (the_irc example_system) = true -> allowed e (the_irc example_system) ->
       exists i, handle true e (the_irc example_system) = Ok ((), i).
Proof.
  split; [vm_compute; reflexivity|].
  apply (system_sends_lines (L1 := circular_buffer_laws cstring 200) (L2 := circular_buffer_laws cstring 50) true
           ($"bot") ($"pw") ($"irc.freenode.net") 1000 None true).
  - apply clean_text. reflexivity.
  - apply clean_text. reflexivity.
  - vm_compute. discriminate.
  - apply (run_system_steps true example_system_events).
    + vm_compute. reflexivity.
    + repeat constructor; apply clean_text; reflexivity.
Defined.

(** The client waits for the first line, beside the bot with three rooms. *)
Definition example_waiting : system commands_buffer messages_buffer :=
  System (default example_irc (run_possible true [Done 0 Success; Done 0 Success] example_irc)) example_bot.

Lemma example_waiting_inv : system_inv example_waiting.
Proof.
  split.
  - apply (inv_steps (L1 := circular_buffer_laws cstring 200) (L2 := circular_buffer_laws cstring 50) true example_irc).
    + apply inv_init; [apply clean_text; reflexivity..|vm_compute; discriminate].
    + apply (run_possible_steps true allowed [Done 0 Success; Done 0 Success]); [vm_compute; reflexivity|repeat constructor].
  - repeat (constructor; [repeat (constructor; [apply clean_text; reflexivity|]); apply List.Forall_nil|]). constructor.
Qed.

Lemma irc_relayed_witness :
  let s := example_waiting in
  let data := $":cai!x@y PRIVMSG #avplayer :hi" ++ crlf in
  exists s1 s', handle true (Done 0 (Received data)) (the_irc s) = Ok ((), s1)
    /\ system_handle true (OnIrc (Done 0 (Received data))) s = Ok ((), s') /\ system_inv s'
    /\ sent_messages (the_bot s') = [ToXmpp ($"a@b") ($"cai 说：hi"); ToQQ example_group ($"cai 说：hi")]
    /\ chats true [ToXmpp ($"a@b") ($"cai 说：hi"); ToQQ example_group ($"cai 说：hi")] s1 = Ok ((), the_irc s').
Proof.
  apply (irc_relayed (L1 := circular_buffer_laws cstring 200) (L2 := circular_buffer_laws cstring 50) true example_waiting 0
           ($":cai!x@y PRIVMSG #avplayer :hi" ++ crlf) ($"cai") ($"x@y") ($"avplayer") ($"hi") [] ($"avplayer")
           [IrcRoom ($"avplayer"); XmppRoom ($"a@b"); QQRoom ($"123")]).
  - exact example_waiting_inv.
  - split; [now split; [repeat constructor|]|now split; [repeat constructor|]|repeat constructor|apply clean_text; reflexivity|reflexivity].
  - repeat constructor.
  - vm_compute. reflexivity.
  - vm_compute. reflexivity.
  - vm_compute. reflexivity.
  - reflexivity.
  - repeat constructor.
  - reflexivity.
  - discriminate.
  - now left.
Defined.
