(* ===== verification/BotRpc.v ===== *)
(** The bot with its remote procedure server: Avbot.v joined to Rpc.v.  The server
    gives what is posted to the signal of the bot, whose first slot is
    [forward_message]. *)

From S2P Require Import Prelude CLib OrdMap Settings HttpParsers HttpBody HttpStream Transport.
From S2P Require Import Regex CoroQueue Socks Httpd PTree Json JsonFacts Rpc Avbot.

(** ** A message that is posted *)

(** The bot behind the remote procedure server. *)
Definition bot_forwards (bot : avbot) (t : ptree) : bool := is_ok (forward_message t bot).

Section Posted.
Context {N : Network} {L : NetworkLaws N} {T : Transport N} {TL : TransportLaws T L} {E : RegexEngine} {EL : RegexLaws E}.
Context {J : JsonReader} {JL : JsonReaderLaws J}.
Variables (asserts : bool) (forwards : ptree -> bool).

(** A request with a body, as it is sent. *)
Definition post_text (uri : cstring) (hs : option_item_list) (v : cstring) : cstring :=
  ($"POST" ++ $" " ++ uri ++ $" " ++ $"HTTP/1.1") ++ crlf ++ header_lines hs ++ crlf ++ v.

Record post_ok (uri : cstring) (hs : option_item_list) (v : cstring) : Prop := {
  po_line : wf_request ($"POST") uri ($"HTTP/1.1");
  po_headers : Forall HeadersFacts.wf_header hs;
  po_host : opt_value httpd_options.host hs <> [];
  po_length : opt_value httpd_options.content_length hs = itoa (size v);
  po_size : size v < 2 ^ 63
}.

Lemma lexical_cast_itoa n : 0 <= n < 2 ^ 63 -> lexical_cast_size (itoa n) = Some n.
Proof.
  intros Hn. destruct (itoa_nonneg_digits n) as [H1 H2]; [lia|]. unfold lexical_cast_size.
  assert (dec_value (itoa n) = n) as Hv.
  { unfold itoa, dec_value. replace (n <? 0) with false by lia. rewrite dec_digits_value; cbn; lia. }
  destruct (itoa n) as [|c ds] eqn:Ei; [contradiction|]. inversion_clear H2 as [|? ? Hc Hds].
  replace (c =c "-") with false by (symmetry; apply Ascii.eqb_neq; intros ->; discriminate).
  replace (c =c "+") with false by (symmetry; apply Ascii.eqb_neq; intros ->; discriminate).
  cbv iota beta. rewrite Hv. cbn [forallb]. rewrite Hc. replace (forallb isdigit ds) with true.
  - replace (n <? 2 ^ 64) with true by lia. reflexivity.
  - symmetry. apply forallb_forall. rewrite List.Forall_forall in Hds. exact Hds.
Qed.

(** The request is read, and the rest of its body is awaited. *)
Lemma post_read fuel uri hs v k :
  post_ok uri hs v -> (length hs < fuel)%nat -> incoming k = post_text uri hs v ->
  exists k' b r, b ++ incoming k' = v
    /\ rpc_run asserts forwards fuel [Complete; Complete] (rpc_start k)
       = Ok ((), RpcServer _ k' b r new_queue (ReadBody (size v - size b)) []).
Proof.
  intros [Hw Hh Hhost Hlen Hsize] Hf Hi.
  destruct (read_request_run asserts ($"POST") uri ($"HTTP/1.1") hs fuel (Reading _ k [] []) v) as (b & k' & Er & Hb); auto.
  exists k', b, (request_items ($"POST") uri ($"HTTP/1.1") hs). split; [exact Hb|].
  erewrite rpc_run_cons by (rewrite handle_complete; reflexivity).
  erewrite rpc_run_cons; [reflexivity|]. rewrite handle_complete. cbn [rpc_at set_at resume_rpc]. unfold read_rpc_request. run.
  cbn [m_socket m_streambuf m_request set_at set_streambuf set_rpc_request rpc_start]. change (opt_clear []) with ([] : hopts).
  rewrite Er. cbn [rd_opts app].
  rewrite request_accepted; [|exact Hhost|right; rewrite Hlen; apply itoa_nonneg_digits; unfold size; lia].
  unfold dispatch. run. cbn [m_request set_rpc_request set_streambuf set_socket m_streambuf rd_opts rd_buf rd_sock].
  change (opt_value httpd_options.request_method (request_items ($"POST") uri ($"HTTP/1.1") hs)) with ($"POST").
  change (opt_value httpd_options.content_length (request_items ($"POST") uri ($"HTTP/1.1") hs))
    with (opt_value httpd_options.content_length hs).
  rewrite Hlen, lexical_cast_itoa by (unfold size in *; lia). cbn [str_eqb].
  apply (f_equal length) in Hb. rewrite length_app in Hb. rewrite wrapu_id by (unfold size in *; lia). reflexivity.
Qed.

(** A message that the bot takes is answered well. *)
Lemma post_body fuel v t k b r :
  b ++ incoming k = v -> write_json true t = Some v -> forwards t = true ->
  exists s', handle_rpc asserts forwards fuel Complete (RpcServer _ k b r new_queue (ReadBody (size v - size b)) []) = Ok ((), s')
    /\ rpc_at s' = WriteReply 200 /\ broadcasts s' = [t] /\ m_list (m_responses s') = [v].
Proof.
  intros Hb Hv Hf. rewrite handle_complete. cbn [rpc_at resume_rpc]. unfold read_rpc_body.
  destruct (read_exactly_data (incoming k) [] k (eq_sym (app_nil_r _))) as (k' & Ek & _ & _).
  assert (size v - size b = Z.of_nat (length (incoming k))) as -> by (unfold size; rewrite <- Hb, length_app; lia).
  run. cbn [m_socket]. rewrite Ek. cbn [m_streambuf set_streambuf set_socket]. rewrite Hb. unfold process_post. run.
  cbn [m_streambuf set_streambuf set_socket]. rewrite firstn_all, (parse_written true t v Hv).
  unfold Rpc.broadcast_message, callback_message. rewrite Hf, Hv. unfold on_responses. run. eexists. split; [reflexivity|]. now repeat split.
Qed.

(** ** The other connections

    Every object of [avbot_rpc_server] is a slot of the same signal, behind those
    of the bot: what one of them broadcasts is heard by all that are not gone. *)

Definition hear_message (j : ptree) (s : rpc) : result rpc_fault rpc :=
  match rpc_at s with
  | Closed => Ok s
  | _ => match callback_message asserts j s with Ok (_, s') => Ok s' | Err f => Err f end
  end.

Fixpoint hear_all (j : ptree) (cs : list rpc) : result rpc_fault (list rpc) :=
  match cs with
  | [] => Ok []
  | s :: cs' => s' ← hear_message j s; r ← hear_all j cs'; Ok (s' :: r)
  end.

Fixpoint hear_each (js : list ptree) (cs : list rpc) : result rpc_fault (list rpc) :=
  match js with [] => Ok cs | j :: js' => cs' ← hear_all j cs; hear_each js' cs' end.

(** An event of one connection beside the others. *)
Definition serve (fuel : nat) (e : rpc_event) (x : rpc * list rpc) : result rpc_fault (rpc * list rpc) :=
  match handle_rpc asserts forwards fuel e (fst x) with
  | Err f => Err f
  | Ok (_, s') =>
      cs ← hear_each (drop (length (broadcasts (fst x))) (broadcasts s')) (snd x);
      Ok (s', cs)
  end.

Fixpoint serve_all (fuel : nat) (es : list rpc_event) (x : rpc * list rpc) : result rpc_fault (rpc * list rpc) :=
  match es with [] => Ok x | e :: es' => y ← serve fuel e x; serve_all fuel es' y end.

(** A connection after any events. *)
Definition reached (s : rpc) : Prop :=
  exists forwards fuel es k, rpc_run asserts forwards fuel es (rpc_start k) = Ok ((), s).

(** The message [v] was queued: a client that waits for it gets it next; for
    another it stands behind those in its queue, of which a full one loses the
    oldest; a connection that is gone stays as it is. *)
Definition queued (v : cstring) (s s' : rpc) : Prop :=
  m_socket s' = m_socket s /\ m_request s' = m_request s
  /\ match rpc_at s with
     | Closed => s' = s
     | InQueue => rpc_at s' = Popped v /\ m_list (m_responses s') = []
     | p => rpc_at s' = p
            /\ m_list (m_responses s') = (if (20 <=? length (m_list (m_responses s)))%nat then drop 1 (m_list (m_responses s))
                                          else m_list (m_responses s)) ++ [v]
     end.

Lemma hear_queued j v s : reached s -> write_json true j = Some v -> exists s', hear_message j s = Ok s' /\ queued v s s'.
Proof.
  intros (f & fu & es & k & Er) Hv. pose proof (rpc_run_inv asserts f fu es [] (rpc_start k) (rpc_start_inv k)) as HI.
  rewrite Er in HI. destruct HI as [H1 H2 H3 _ _]. clear Er. unfold hear_message, callback_message. rewrite Hv.
  destruct s as [k0 b o [l hs ws] p bs]. cbn [m_responses m_wait_handlers m_handlers m_list rpc_at] in *. subst ws hs.
  assert (waits p = false ->
    (if (20 <=? length l)%nat then List.tl (l ++ [v]) else l ++ [v]) = (if (20 <=? length l)%nat then drop 1 l else l) ++ [v]) as Et
    by (intros _; destruct (20 <=? length l)%nat eqn:El; [destruct l; [discriminate|reflexivity]|reflexivity]).
  unfold on_responses. run. cbn [queue_step m_responses add_broadcast]. unfold push, push_waiters. run. cbn [m_wait_handlers m_handlers].
  destruct (waits p) eqn:Ew; cbn [push_handlers].
  - specialize (H3 eq_refl). subst l. unfold queue_assert. run. cbn. rewrite andb_false_r.
    destruct p; try discriminate. eexists. split; [reflexivity|]. now repeat split.
  - destruct p; try discriminate; run; eexists; (split; [reflexivity|]); unfold queued; cbn; auto.
Qed.

Lemma hear_all_queued j v cs : Forall reached cs -> write_json true j = Some v ->
  exists cs', hear_all j cs = Ok cs' /\ Forall2 (queued v) cs cs'.
Proof.
  intros Hc Hv. induction Hc as [|s cs Hs _ (cs' & Ec & H)]; [now exists []|].
  destruct (hear_queued j v s Hs Hv) as (s' & Es & Hq). exists (s' :: cs'). cbn [hear_all]. rewrite Es. cbn [mbind result_bind].
  rewrite Ec. split; [reflexivity|now constructor].
Qed.

(** Without a broadcast the others stay as they are. *)
Lemma serve_quiet fuel e s s' cs :
  handle_rpc asserts forwards fuel e s = Ok ((), s') -> broadcasts s' = broadcasts s -> serve fuel e (s, cs) = Ok (s', cs).
Proof. intros E1 Eb. unfold serve. cbn [fst snd]. rewrite E1, Eb, drop_all. reflexivity. Qed.
End Posted.

(** C6: a message that is posted reaches the rooms and the clients that wait.  A
    client sends a message as JSON with POST to the remote procedure server, with its
    length and split by the network in any way, on a new connection beside any others;
    the server reads it, and when the message names a channel of the bot, each room of
    the channel except the one it names as its own gets the text once, in order; the
    reply has status 200.  Every other connection that is not gone gets the message: a
    client that waits for one gets it next, for the others it is queued, behind those
    that wait already (a full queue loses its oldest); and so it is for the connection
    of the client itself. *)
Theorem rpc_posted {N : Network} {L : NetworkLaws N} {T : Transport N} {TL : TransportLaws T L} {E : RegexEngine} {EL : RegexLaws E}
    {J : JsonReader} {JL : JsonReaderLaws J} (asserts : bool) (fuel : nat) (bot : avbot) (uri : cstring) (hs : option_item_list)
    (t : ptree) (v text ch : cstring) (rs : list room) (k : sock) (others : list rpc) :
  post_ok uri hs v -> (length hs < fuel)%nat -> incoming k = post_text uri hs v -> write_json true t = Some v ->
  pt_get ($"channel") t = Some ch -> ch <> [] -> format_message t bot = Ok (text, bot) ->
  map_find ch (m_channel_map bot) = Some (map room_text rs) -> Forall (reached asserts) others ->
  exists s others' bot',
    serve_all asserts (bot_forwards bot) fuel [Complete; Complete; Complete] (rpc_start k, others) = Ok (s, others')
    /\ rpc_at s = WriteReply 200 /\ m_list (m_responses s) = [v] /\ Forall2 (queued v) others others'
    /\ forward_message t bot = Ok ((), bot')
    /\ sent_messages bot'
       = sent_messages bot ++ flat_map (deliver bot text) (List.filter (fun r => negb (str_eqb (room_text r) (room_name t))) rs).
Proof.
  intros Hp Hf Hi Hv Hc Hne Ht Hm Ho. pose proof (forward_run bot t text ch rs (room_name t) Hc Hne eq_refl Ht Hm) as Ef.
  destruct (post_read asserts (bot_forwards bot) fuel uri hs v k Hp Hf Hi) as (k' & b & r & Hb & Er).
  destruct (post_body asserts (bot_forwards bot) fuel v t k' b r Hb Hv) as (s & Es & H1 & H2 & H3).
  { unfold bot_forwards. now rewrite Ef. }
  destruct (hear_all_queued asserts t v others Ho Hv) as (others' & Eo & Hq).
  eexists s, others', _. split; [|split; [exact H1|split; [exact H3|split; [exact Hq|split; [exact Ef|]]]]].
  - erewrite rpc_run_cons in Er by (rewrite handle_complete; reflexivity). cbn [rpc_run] in Er. revert Er. run. intros Er.
    destruct (handle_rpc asserts (bot_forwards bot) fuel Complete (set_at ReadRequest _)) as [[[] s1]|] eqn:E1; [|discriminate].
    injection Er as ->. cbn [serve_all]. erewrite serve_quiet by (rewrite ?handle_complete; reflexivity). cbn [mbind result_bind].
    erewrite serve_quiet by (exact E1 || reflexivity). cbn [mbind result_bind].
    unfold serve. cbn [fst snd]. rewrite Es, H2. cbn [broadcasts drop length hear_each]. rewrite Eo. reflexivity.
  - now destruct (add_all_sent (flat_map (deliver bot text)
      (List.filter (fun r => negb (str_eqb (room_text r) (room_name t))) rs)) bot) as (-> & _).
Qed.

(** ** Example *)

Definition example_post : ptree :=
  PTree [] [($"protocol", pt_value ($"rpc")); ($"channel", pt_value ($"avplayer")); ($"room", pt_value ($"web"));
            ($"message", PTree [] [($"text", pt_value ($"hi"))])].
Definition example_post_body : cstring := default [] (write_json true example_post).
Definition example_post_headers : option_item_list :=
  [($"Host", $"localhost"); ($"Content-Length", $"121")].

(** Another client, which asked for a message. *)
Definition example_asked : sock (Network := script_network) :=
  ScriptSock true [] (one_packet ($"GET /message HTTP/1.1" ++ crlf ++ $"Host: localhost" ++ crlf ++ crlf)).
Definition example_waiter : rpc (N := script_network) :=
  match rpc_run (N := script_network) (T := script_transport []) true (fun _ => true) 20 [Complete; Complete] (rpc_start example_asked) with
  | Ok (_, s) => s
  | Err _ => rpc_start example_asked
  end.

Lemma rpc_posted_witness :
  let k := ScriptSock true [] (one_packet (post_text ($"/") example_post_headers example_post_body)) in
  rpc_at example_waiter = InQueue
  /\ exists s others' bot',
    serve_all (N := script_network) (T := script_transport []) true (bot_forwards example_bot) 20 [Complete; Complete; Complete]
      (rpc_start k, [example_waiter]) = Ok (s, others')
    /\ rpc_at s = WriteReply 200 /\ m_list (m_responses s) = [example_post_body] /\ Forall2 (queued example_post_body) [example_waiter] others'
    /\ forward_message example_post example_bot = Ok ((), bot')
    /\ sent_messages bot' = [ToIrc ($"#avplayer") ($"hi"); ToXmpp ($"a@b") ($"hi"); ToQQ example_group ($"hi")].
Proof.
  split; [vm_compute; reflexivity|].
  apply (rpc_posted (TL := script_transport_laws []) true 20 example_bot ($"/") example_post_headers example_post example_post_body
           ($"hi") ($"avplayer") [IrcRoom ($"avplayer"); XmppRoom ($"a@b"); QQRoom ($"123")]
           (ScriptSock true [] (one_packet (post_text ($"/") example_post_headers example_post_body))) [example_waiter]).
  - split.
    + split; [split; [discriminate|repeat constructor]|repeat split; [discriminate|repeat constructor..]|now left].
    + repeat (constructor; [repeat split; try discriminate; repeat constructor|]). constructor.
    + discriminate.
    + vm_compute. reflexivity.
    + vm_compute. reflexivity.
  - cbn. lia.
  - vm_compute. reflexivity.
  - vm_compute. reflexivity.
  - reflexivity.
  - discriminate.
  - reflexivity.
  - reflexivity.
  - constructor; [|constructor]. exists (fun _ => true), 20%nat, [Complete; Complete], example_asked. vm_compute. reflexivity.
Defined.
