(* ===== verification/Base64.v ===== *)
(** Base64 of mail, avboost/include/boost/base64.hpp: [base64_encode] in both
    overloads and [base64_decode].

    The iterators of Boost that turn bits into digits are the class
    [Base64Iterators]; the code's own part is the division in whole groups, the
    padding, and what is removed from the end. *)

From S2P Require Import Prelude CLib EscapeString.

(** ** The encoding of RFC 4648 *)

Definition quad (a b c : ascii) : cstring :=
  let n := uchar a * 65536 + uchar b * 256 + uchar c in
  [b64_char (n / 262144); b64_char (n / 4096 mod 64); b64_char (n / 64 mod 64); b64_char (n mod 64)].

Fixpoint base64 (s : cstring) : cstring :=
  match s with
  | a :: b :: c :: s' => quad a b c ++ base64 s'
  | [a; b] => take 3 (quad a b NUL) ++ $"="
  | [a] => take 2 (quad a NUL NUL) ++ $"=="
  | [] => []
  end.

(** The value of a digit; the padding counts as zero. *)
Fixpoint index_of (c : ascii) (l : cstring) (i : Z) : option Z :=
  match l with [] => None | d :: l' => if d =c c then Some i else index_of c l' (i + 1) end.
Definition b64_value (c : ascii) : option Z :=
  if c =c "=" then Some 0
  else index_of c $"ABCDEFGHIJKLMNOPQRSTUVWXYZabcdefghijklmnopqrstuvwxyz0123456789+/" 0.

Fixpoint b64_bytes (s : cstring) : option cstring :=
  match s with
  | [] => Some []
  | a :: b :: c :: d :: s' =>
      a ← b64_value a; b ← b64_value b; c ← b64_value c; d ← b64_value d; rest ← b64_bytes s';
      let n := a * 262144 + b * 4096 + c * 64 + d in
      Some (chr (n / 65536) :: chr (n / 256) :: chr n :: rest)
  | _ => None
  end.

(** Lines of [n] characters. *)
Fixpoint breaks (n m : nat) (s : cstring) : cstring :=
  match s with
  | [] => []
  | c :: s' => match m with O => LF :: c :: breaks n (n - 1) s' | S m' => c :: breaks n m' s' end
  end.

(** ** The iterators *)

Class Base64Iterators := {
  (** [base64_from_binary] over [transform_width<6, 8>]. *)
  base64_from_binary : cstring -> cstring;
  (** [transform_width<8, 6>] over [binary_from_base64] without white space;
      [None] is its exception. *)
  binary_from_base64 : cstring -> option cstring;
  insert_linebreaks : nat -> cstring -> cstring
}.
Class Base64Laws (B : Base64Iterators) := {
  from_binary_groups : forall s, (length s mod 3 = 0)%nat -> base64_from_binary s = base64 s;
  from_base64_groups : forall s t, b64_bytes (List.filter (fun c => negb (isspace c)) s) = Some t -> binary_from_base64 s = Some t;
  (** A digit has six bits. *)
  from_base64_length : forall s t, binary_from_base64 s = Some t -> (length t <= length s)%nat;
  linebreaks_lines : forall n s, (0 < n)%nat -> insert_linebreaks n s = breaks n n s
}.

#[refine] Instance rfc4648_iterators : Base64Iterators := {
  base64_from_binary := base64;
  binary_from_base64 := fun s => b64_bytes (List.filter (fun c => negb (isspace c)) s);
  insert_linebreaks := fun n s => breaks n n s
}.
Proof. Defined.

Lemma b64_bytes_length n : forall s t, (length s <= n)%nat -> b64_bytes s = Some t -> (length t <= length s)%nat.
Proof.
  induction n as [|n IH]; intros s t Hn; [destruct s; [|cbn in Hn; lia]; now intros [= <-]|].
  destruct s as [|a [|b [|c [|d s]]]]; cbn [b64_bytes]; try discriminate; [now intros [= <-]|].
  destruct (b64_value a), (b64_value b), (b64_value c), (b64_value d), (b64_bytes s) as [r|] eqn:Er; cbn [mbind option_bind]; try discriminate.
  intros [= <-]. cbn [length] in *. apply IH in Er; lia.
Qed.

#[refine] Instance rfc4648_laws : Base64Laws rfc4648_iterators := {}.
Proof.
  - reflexivity.
  - now intros s t <-.
  - intros s t H. apply (b64_bytes_length _ _ _ (Nat.le_refl _)) in H. pose proof (filter_length_le (fun c => negb (isspace c)) s). lia.
  - reflexivity.
Defined.

(** ** The functions *)

Section Base64.
Context {B : Base64Iterators}.

(** [for (k = 0; k < 3 - i; k++) tailbase[3 - k] = '=']. *)
Definition pad_tail (i : nat) (tailbase : cstring) : cstring := take (S i) tailbase ++ repeat "="%char (3 - i).

(** The characters behind the whole groups; more than four would be written past
    the end of [tail]. *)
Definition encode_tail (encode : cstring -> cstring) (rest : cstring) : option cstring :=
  if (length rest <=? 3)%nat then
    let tail := rest ++ repeat NUL (4 - length rest) in
    Some (c_str (pad_tail (length rest) (take 4 (encode (take 3 tail)))))
  else None.

Definition len_rounded_down (src : cstring) : nat := Z.to_nat (wrapu 32 (wrapu 32 (Z.of_nat (length src) / 3) * 3)).

Definition encode_with (encode : cstring -> cstring) (data : cstring -> cstring) (src : cstring) : option cstring :=
  let body := data (encode (take (len_rounded_down src) src)) in
  if (len_rounded_down src =? length src)%nat then Some body
  else tail ← encode_tail encode (drop (len_rounded_down src) src); Some (body ++ tail).

(** The text is taken from the vector as a C string. *)
Definition base64_encode (src : cstring) : option cstring := encode_with base64_from_binary c_str src.

(** The overload with lines, written to an iterator. *)
Definition base64_encode_lines (n : nat) (src : cstring) : option cstring :=
  encode_with (fun s => insert_linebreaks n (base64_from_binary s)) (fun s => s) src.

(** [*str.rbegin()] of an empty string, an index outside of [shrik_map], a
    character that is no digit, and [std::out_of_range]. *)
Inductive base64_error : Type := EmptyText | BadIndex | BadDigit | EraseRange.

Definition shrik_map : list nat := [0; 2; 1]%nat.

(** The loop that removes line breaks and dots from the end. *)
Fixpoint strip_end (reversed : cstring) : result base64_error cstring :=
  match reversed with
  | [] => Err EmptyText
  | c :: s' => if mem_char c [CR; LF; "."%char] then strip_end s' else Ok (rev reversed)
  end.

(** [find_first_of] and [find_last_of]. *)
Definition first_of (c : ascii) (s : cstring) : option nat := fst <$> list_find (fun x => (x =c c) = true) s.
Definition last_of (c : ascii) (s : cstring) : option nat :=
  (fun i => (length s - 1 - i)%nat) <$> first_of c (rev s).

Definition padding (s : cstring) : nat :=
  match first_of "=" s, last_of "=" s with Some i, Some j => j - i + 1 | _, _ => 0 end%nat.

(** [erase(length() - 1 - n, n)]. *)
Definition erase_end (n : nat) (s : cstring) : result base64_error cstring :=
  if (n + 1 <=? length s)%nat then Ok (take (length s - 1 - n) s ++ drop (length s - 1) s) else Err EraseRange.

Definition base64_decode (str : cstring) : result base64_error cstring :=
  str ← strip_end (rev str);
  match shrik_map !! padding str, binary_from_base64 str with
  | None, _ => Err BadIndex
  | _, None => Err BadDigit
  | Some num_to_shrik, Some res => erase_end num_to_shrik res
  end.
End Base64.

(** ** Lemmas *)

(** Induction in groups of three. *)
Lemma groups_ind (P : cstring -> Prop) :
  P [] -> (forall a, P [a]) -> (forall a b, P [a; b]) -> (forall a b c s, P s -> P (a :: b :: c :: s)) -> forall s, P s.
Proof.
  intros H0 H1 H2 H3. enough (forall s, P s /\ (forall a, P (a :: s)) /\ forall a b, P (a :: b :: s)) as H by (intros s; apply H).
  induction s as [|c s (IH1 & IH2 & IH3)]; [auto|]. split; [apply IH2|]. split; [intros a; apply IH3|]. intros a b. now apply H3.
Qed.

Definition group_end (s : cstring) : nat := (3 * (length s / 3))%nat.

Lemma group_end_step a b c s : group_end (a :: b :: c :: s) = S (S (S (group_end s))).
Proof.
  unfold group_end. cbn [length]. replace (S (S (S (length s)))) with (length s + 1 * 3)%nat by lia.
  rewrite Nat.div_add by lia. lia.
Qed.

(** What a rest of one or two characters becomes. *)
Definition last_quad (rest : cstring) : cstring :=
  match rest with [] => [] | [a] => take 2 (quad a NUL NUL) ++ $"==" | a :: b :: _ => take 3 (quad a b NUL) ++ $"=" end.

Lemma base64_groups s : base64 s = base64 (take (group_end s) s) ++ last_quad (drop (group_end s) s).
Proof.
  induction s as [|a|a b|a b c s IH] using groups_ind; try reflexivity.
  rewrite group_end_step. cbn [take drop base64]. rewrite <- app_assoc. now f_equal.
Qed.

Lemma group_end_length s : (length (take (group_end s) s) mod 3 = 0)%nat.
Proof.
  rewrite length_take. unfold group_end. pose proof (Nat.Div0.mul_div_le (length s) 3).
  rewrite Nat.min_l by lia. rewrite Nat.mul_comm. apply Nat.Div0.mod_mul.
Qed.

Lemma group_end_rest s : (length (drop (group_end s) s) = length s mod 3)%nat.
Proof. rewrite length_drop. unfold group_end. pose proof (Nat.div_mod_eq (length s) 3). lia. Qed.

Lemma rounded_down s : Z.of_nat (length s) < 2 ^ 32 -> len_rounded_down s = group_end s.
Proof.
  intros Hs. unfold len_rounded_down, group_end. rewrite (wrapu_id 32 (Z.of_nat (length s) / 3)) by zdiv. rewrite wrapu_id by zdiv.
  rewrite <- (Nat2Z.id (3 * (length s / 3))). f_equal. rewrite Nat2Z.inj_mul, Nat2Z.inj_div. lia.
Qed.

Lemma b64_char_ok i : 0 <= i < 64 -> b64_value (b64_char i) = Some i /\ isspace (b64_char i) = false /\ b64_char i <> "="%char.
Proof.
  intros Hi. assert (forallb (fun i => match b64_value (b64_char i) with
                              | Some j => (i =? j) && negb (isspace (b64_char i)) && negb (b64_char i =c "=")
                              | None => false end) (map Z.of_nat (seq 0 64)) = true) as H by (vm_compute; reflexivity).
  rewrite forallb_forall in H. specialize (H i). destruct (b64_value (b64_char i)) as [j|].
  - destruct (i =? j) eqn:E, (isspace (b64_char i)), (Ascii.eqb_spec (b64_char i) "=");
      try (enough (false = true) by discriminate; apply H; apply in_map_iff; exists (Z.to_nat i); split; [lia|apply in_seq; lia]).
    apply Z.eqb_eq in E. now subst.
  - enough (false = true) by discriminate. apply H. apply in_map_iff. exists (Z.to_nat i). split; [lia|apply in_seq; lia].
Qed.

Definition digit (c : ascii) : Prop := exists i, 0 <= i < 64 /\ c = b64_char i.

Lemma quad_digits a b c : Forall digit (quad a b c).
Proof.
  pose proof (uchar_range a). pose proof (uchar_range b). pose proof (uchar_range c). unfold quad.
  repeat (constructor; [eexists; split; [|reflexivity]; zdiv|]). constructor.
Qed.

Lemma digit_not_nul c : digit c -> (c =c NUL) = false.
Proof.
  intros (i & Hi & ->). destruct (b64_char_ok i Hi) as (Hv & _). destruct (Ascii.eqb_spec (b64_char i) NUL) as [E|E]; [|reflexivity].
  rewrite E in Hv. vm_compute in Hv. discriminate.
Qed.

Lemma base64_digits s : Forall (fun c => digit c \/ c = "="%char) (base64 s).
Proof.
  assert (forall a b c n, Forall (fun c => digit c \/ c = "="%char) (take n (quad a b c))) as Hq.
  { intros a b c n. apply Forall_take. eapply Forall_impl; [apply quad_digits|]. auto. }
  induction s as [|a|a b|a b c s IH] using groups_ind; cbn [base64]; [constructor|..].
  - apply Forall_app_2; [apply Hq|]. repeat (constructor; [now right|]). constructor.
  - apply Forall_app_2; [apply Hq|]. repeat (constructor; [now right|]). constructor.
  - apply Forall_app_2; [exact (Hq a b c 4%nat)|exact IH].
Qed.

Lemma c_str_digits s : Forall (fun c => digit c \/ c = "="%char) s -> c_str s = s.
Proof.
  intros H. apply c_str_id. unfold free_of. eapply Forall_impl; [exact H|]. cbv beta. intros c [Hc| ->]; [|reflexivity].
  unfold mem_char. cbn [existsb]. now rewrite (digit_not_nul c Hc).
Qed.

Lemma breaks_filter n : forall s m, Forall (fun c => c <> LF) s -> List.filter (fun c => negb (c =c LF)) (breaks n m s) = s.
Proof.
  intros s m H. revert m. induction H as [|c s Hc _ IH]; intros m; [reflexivity|]. apply Ascii.eqb_neq in Hc.
  destruct m; cbn [breaks List.filter]; rewrite ?Ascii.eqb_refl, Hc; cbn [negb]; now rewrite IH.
Qed.

Lemma filter_no_lf s : Forall (fun c => c <> LF) s -> List.filter (fun c => negb (c =c LF)) s = s.
Proof. induction 1 as [|c s Hc _ IH]; [reflexivity|]. apply Ascii.eqb_neq in Hc. cbn [List.filter]. rewrite Hc. cbn [negb]. now rewrite IH. Qed.

Lemma breaks_short n : forall s m, (length s <= m)%nat -> breaks n m s = s.
Proof. induction s as [|c s IH]; intros m Hm; [reflexivity|]. destruct m; cbn [length] in Hm; [lia|]. cbn [breaks]. rewrite IH by lia. reflexivity. Qed.

Lemma quad_bytes a b c :
  (x ← b64_value (nth 0 (quad a b c) NUL); y ← b64_value (nth 1 (quad a b c) NUL);
   z ← b64_value (nth 2 (quad a b c) NUL); w ← b64_value (nth 3 (quad a b c) NUL);
   Some (x * 262144 + y * 4096 + z * 64 + w)) = Some (uchar a * 65536 + uchar b * 256 + uchar c).
Proof.
  pose proof (uchar_range a). pose proof (uchar_range b). pose proof (uchar_range c).
  unfold quad. set (n := uchar a * 65536 + uchar b * 256 + uchar c). cbn [nth].
  assert (0 <= n < 16777216) as Hn by lia. clearbody n.
  destruct (b64_char_ok (n / 262144)) as (-> & _); [zdiv|]. destruct (b64_char_ok (n / 4096 mod 64)) as (-> & _); [zdiv|].
  destruct (b64_char_ok (n / 64 mod 64)) as (-> & _); [zdiv|]. destruct (b64_char_ok (n mod 64)) as (-> & _); [zdiv|].
  cbn. f_equal. zdiv.
Qed.

Lemma chr_uchar_mod c n : n mod 256 = uchar c -> chr n = c.
Proof. intros H. unfold chr. rewrite H. unfold uchar. rewrite N2Z.id. apply ascii_N_embedding. Qed.

Lemma three_bytes a b c :
  let n := uchar a * 65536 + uchar b * 256 + uchar c in [chr (n / 65536); chr (n / 256); chr n] = [a; b; c].
Proof.
  pose proof (uchar_range a). pose proof (uchar_range b). pose proof (uchar_range c). intros n.
  rewrite (chr_uchar_mod a), (chr_uchar_mod b), (chr_uchar_mod c); [reflexivity|unfold n; zdiv..].
Qed.

(** A group of digits that stands for three bytes, with or without padding. *)
Lemma bytes_group p q r t s a b c :
  (x ← b64_value p; y ← b64_value q; z ← b64_value r; w ← b64_value t; Some (x * 262144 + y * 4096 + z * 64 + w))
    = Some (uchar a * 65536 + uchar b * 256 + uchar c) ->
  b64_bytes (p :: q :: r :: t :: s) = (rest ← b64_bytes s; Some (a :: b :: c :: rest)).
Proof.
  cbn [b64_bytes]. destruct (b64_value p) as [x|]; [|discriminate]. destruct (b64_value q) as [y|]; [|discriminate].
  destruct (b64_value r) as [z|]; [|discriminate]. destruct (b64_value t) as [w|]; [|discriminate]. cbn. intros [= E].
  destruct (b64_bytes s) as [rest|]; [|reflexivity]. cbn. f_equal. rewrite E. pose proof (three_bytes a b c) as H. now injection H as -> -> ->.
Qed.

Definition missing (s : cstring) : nat := ((3 - length s mod 3) mod 3)%nat.

Lemma missing_step a b c s : missing (a :: b :: c :: s) = missing s.
Proof.
  unfold missing. cbn [length]. replace (S (S (S (length s)))) with (length s + 1 * 3)%nat by lia. now rewrite Nat.Div0.mod_add.
Qed.

Lemma base64_bytes s : b64_bytes (base64 s) = Some (s ++ repeat NUL (missing s)).
Proof.
  induction s as [|a|a b|a b c s IH] using groups_ind; [reflexivity|..].
  - pose proof (quad_bytes a NUL NUL) as H. cbn [base64 quad take app list_ascii_of_string nth] in *.
    rewrite (bytes_group _ _ _ _ _ a NUL NUL); [reflexivity|]. etransitivity; [|exact H].
    set (n := uchar a * 65536 + uchar NUL * 256 + uchar NUL).
    assert (n / 64 mod 64 = 0 /\ n mod 64 = 0) as [-> ->] by (unfold n; change (uchar NUL) with 0; zdiv). reflexivity.
  - pose proof (quad_bytes a b NUL) as H. cbn [base64 quad take app list_ascii_of_string nth] in *.
    rewrite (bytes_group _ _ _ _ _ a b NUL); [reflexivity|]. etransitivity; [|exact H].
    set (n := uchar a * 65536 + uchar b * 256 + uchar NUL).
    assert (n mod 64 = 0) as -> by (unfold n; change (uchar NUL) with 0; zdiv). reflexivity.
  - pose proof (quad_bytes a b c) as H. rewrite missing_step. cbn [base64 quad app nth] in *.
    rewrite (bytes_group _ _ _ _ _ a b c) by exact H. now rewrite IH.
Qed.

Section Encode.
Context {B : Base64Iterators} {BL : Base64Laws B}.

(** [encode] is an iterator that does not break these four characters. *)
Lemma encode_tail_run encode rest :
  (forall a b c, encode [a; b; c] = quad a b c) -> (1 <= length rest <= 2)%nat -> encode_tail encode rest = Some (last_quad rest).
Proof.
  intros He Hl. unfold encode_tail. destruct rest as [|a [|b [|]]]; cbn [length] in *; try lia;
    cbn [Nat.leb Nat.sub repeat app take]; rewrite He; f_equal; unfold pad_tail.
  - exact (c_str_digits (base64 [a]) (base64_digits _)).
  - exact (c_str_digits (base64 [a; b]) (base64_digits _)).
Qed.

Lemma encode_with_run encode data src :
  Z.of_nat (length src) < 2 ^ 32 -> (forall a b c, encode [a; b; c] = quad a b c) ->
  encode_with encode data src = Some (data (encode (take (group_end src) src)) ++ last_quad (drop (group_end src) src)).
Proof.
  intros Hs He. unfold encode_with. rewrite (rounded_down src Hs). pose proof (group_end_rest src) as Hr.
  pose proof (Nat.mod_upper_bound (length src) 3 ltac:(lia)) as Hb.
  destruct (Nat.eqb_spec (group_end src) (length src)) as [E|E].
  - rewrite E at 3. rewrite drop_all. cbn [last_quad]. now rewrite app_nil_r.
  - rewrite length_drop in Hr. unfold group_end in E, Hr. pose proof (Nat.Div0.mul_div_le (length src) 3).
    rewrite encode_tail_run; [reflexivity|exact He|]. rewrite length_drop. unfold group_end. lia.
Qed.

Lemma encode_lines_run n src :
  Z.of_nat (length src) < 2 ^ 32 -> (4 <= n)%nat ->
  base64_encode_lines n src = Some (breaks n n (base64 (take (group_end src) src)) ++ last_quad (drop (group_end src) src)).
Proof.
  intros Hs Hn. unfold base64_encode_lines. rewrite encode_with_run; [|exact Hs|].
  - cbv beta. rewrite linebreaks_lines by lia. now rewrite from_binary_groups by apply group_end_length.
  - intros a b c. rewrite from_binary_groups by reflexivity. rewrite linebreaks_lines by lia. now apply breaks_short.
Qed.
End Encode.

(** ** Properties *)

(** Mail is encoded as RFC 4648 says.  [base64_encode] gives the base64 text
    of its argument, with its padding; the overload that breaks lines gives
    a text that is the same without the line breaks. *)
Theorem base64_encode_correct {B : Base64Iterators} {BL : Base64Laws B} (src : cstring) (n : nat) :
  Z.of_nat (length src) < 2 ^ 32 -> (4 <= n)%nat ->
  base64_encode src = Some (base64 src)
  /\ exists text, base64_encode_lines n src = Some text /\ List.filter (fun c => negb (c =c LF)) text = base64 src.
Proof.
  intros Hs Hn. assert (forall s, Forall (fun c => digit c \/ c = "="%char) s -> Forall (fun c => c <> LF) s) as Hlf.
  { intros s. apply List.Forall_impl. intros c [(i & Hi & ->)| ->]; [|discriminate]. destruct (b64_char_ok i Hi) as (_ & Hsp & _).
    intros E. rewrite E in Hsp. discriminate. }
  split.
  - unfold base64_encode. rewrite encode_with_run; [|exact Hs|intros a b c; now rewrite from_binary_groups].
    rewrite from_binary_groups by apply group_end_length. rewrite c_str_digits by apply base64_digits. now rewrite <- base64_groups.
  - eexists. split; [now apply encode_lines_run|]. rewrite List.filter_app, breaks_filter by apply Hlf, base64_digits.
    pose proof (base64_digits src) as Hd. rewrite (base64_groups src) in Hd |- *. apply Forall_app in Hd as [_ Hd].
    now rewrite filter_no_lf by now apply Hlf.
Qed.

(** ** Decoding *)

(** An encoded text with white space in it, but not at its end. *)
Definition encodes (t s : cstring) : Prop :=
  List.filter (fun c => negb (isspace c)) t = base64 s
  /\ (exists u c, t = u ++ [c] /\ isspace c = false)
  /\ exists d, t = d ++ repeat "="%char (missing s) /\ Forall (fun c => c <> "="%char) d.

Lemma digit_facts c : digit c \/ c = "="%char -> isspace c = false /\ mem_char c [CR; LF; "."%char] = false.
Proof.
  intros [(i & Hi & ->)| ->]; [|now split]. destruct (b64_char_ok i Hi) as (Hv & Hs & _). split; [exact Hs|]. unfold mem_char. cbn [existsb].
  destruct (Ascii.eqb_spec (b64_char i) CR) as [E|_]; [rewrite E in Hv; discriminate|].
  destruct (Ascii.eqb_spec (b64_char i) LF) as [E|_]; [rewrite E in Hv; discriminate|].
  destruct (Ascii.eqb_spec (b64_char i) ".") as [E|_]; [rewrite E in Hv; discriminate|]. reflexivity.
Qed.

Lemma encodes_chars t s c : encodes t s -> In c t -> isspace c = true \/ digit c \/ c = "="%char.
Proof.
  intros (Hf & _) Hc. destruct (isspace c) eqn:Hs; [now left|right]. pose proof (base64_digits s) as Hd. rewrite <- Hf, List.Forall_forall in Hd.
  apply Hd. apply filter_In. now rewrite Hs.
Qed.

(** Line breaks and dots behind the text are removed. *)
Lemma strip_encoded t s rest :
  encodes t s -> Forall (fun c => mem_char c [CR; LF; "."%char] = true) rest -> strip_end (rev (t ++ rest)) = Ok t.
Proof.
  intros He Hr. rewrite rev_app_distr. apply List.Forall_rev in Hr. induction Hr as [|c l Hc _ IH]; cbn [app strip_end].
  - pose proof He as (_ & (u & c & -> & Hc) & _). rewrite rev_app_distr. cbn [rev app strip_end].
    destruct (encodes_chars _ _ c He) as [H|H]; [apply in_app_iff; right; now left|congruence|].
    destruct (digit_facts c H) as [_ ->]. change (rev (c :: rev u)) with (rev (rev u) ++ [c]). now rewrite rev_involutive.
  - now rewrite Hc.
Qed.

Lemma first_of_app c a b : Forall (fun x => x <> c) a -> first_of c (a ++ b) = Nat.add (length a) <$> first_of c b.
Proof.
  unfold first_of. induction 1 as [|x a Hx _ IH]; cbn [app length]; [now destruct (list_find _ b) as [[]|]|].
  cbn [list_find]. rewrite decide_False by (rewrite Ascii.eqb_eq; exact Hx). destruct (list_find _ (a ++ b)) as [[i y]|]; cbn in *.
  - destruct (list_find _ b) as [[j z]|]; [|discriminate]. cbn in *. injection IH as ->. reflexivity.
  - now destruct (list_find _ b) as [[j z]|].
Qed.

(** [d] is the part without padding. *)
Lemma padding_spec d k : Forall (fun x => x <> "="%char) d -> (k <= 2)%nat -> padding (d ++ repeat "="%char k) = k.
Proof.
  intros Hd Hk. unfold padding, last_of. rewrite rev_app_distr.
  assert (rev (repeat "="%char k) = repeat "="%char k) as -> by (destruct k as [|[|[|]]]; [reflexivity..|lia]).
  rewrite (first_of_app _ d) by exact Hd. rewrite length_app, repeat_length.
  assert (forall l, first_of "=" ("="%char :: l) = Some 0%nat) as Hf by reflexivity.
  destruct k as [|[|[|]]]; [reflexivity| | |lia]; cbn [repeat app]; rewrite !Hf; cbn [fmap option_fmap option_map]; lia.
Qed.

(** The digits and the padding of an encoded text. *)
Lemma base64_padded s : exists d, base64 s = d ++ repeat "="%char (missing s) /\ Forall digit d.
Proof.
  induction s as [|a|a b|a b c s (d & E & Hd)] using groups_ind.
  - now exists [].
  - exists (take 2 (quad a NUL NUL)). split; [reflexivity|]. apply Forall_take, quad_digits.
  - exists (take 3 (quad a b NUL)). split; [reflexivity|]. apply Forall_take, quad_digits.
  - exists (quad a b c ++ d). rewrite missing_step. cbn [base64]. rewrite E, <- app_assoc. split; [reflexivity|].
    apply Forall_app_2; [apply quad_digits|exact Hd].
Qed.

Lemma missing_small s : (missing s <= 2)%nat.
Proof. unfold missing. pose proof (Nat.mod_upper_bound (3 - length s mod 3) 3). lia. Qed.

Lemma missing_mod s : ((length s + missing s) mod 3 = 0)%nat.
Proof.
  unfold missing. pose proof (Nat.mod_upper_bound (length s) 3). pose proof (Nat.div_mod_eq (length s) 3) as E.
  set (q := (length s / 3)%nat) in *. destruct (length s mod 3)%nat as [|[|[|]]]; [| | |lia]; cbn [Nat.sub]; rewrite E.
  - replace (3 * q + 0 + 3 mod 3)%nat with (0 + q * 3)%nat by (cbn; lia). now rewrite Nat.Div0.mod_add.
  - replace (3 * q + 1 + 2 mod 3)%nat with (0 + (q + 1) * 3)%nat by (cbn; lia). now rewrite Nat.Div0.mod_add.
  - replace (3 * q + 2 + 1 mod 3)%nat with (0 + (q + 1) * 3)%nat by (cbn; lia). now rewrite Nat.Div0.mod_add.
Qed.

Lemma filter_digits s : List.filter (fun c => negb (isspace c)) (base64 s) = base64 s.
Proof.
  pose proof (base64_digits s) as Hd. induction Hd as [|c l Hc _ IH]; [reflexivity|]. cbn [List.filter].
  destruct (digit_facts c Hc) as [-> _]. cbn [negb]. now rewrite IH.
Qed.

Lemma base64_encodes s : s <> [] -> encodes (base64 s) s.
Proof.
  intros Hs. split; [apply filter_digits|]. split.
  - destruct (base64 s) as [|c l] eqn:Eb using rev_ind; [destruct s as [|a [|b [|c s]]]; [contradiction|discriminate..]|]. clear IHl.
    exists l, c. split; [reflexivity|]. apply digit_facts. pose proof (base64_digits s) as Hd. rewrite Eb, List.Forall_forall in Hd.
    apply Hd, in_app_iff. right. now left.
  - destruct (base64_padded s) as (d & Ed & Hd). exists d. split; [exact Ed|]. eapply Forall_impl; [exact Hd|].
    intros c (i & Hi & ->). now apply b64_char_ok.
Qed.

(** What is left after the wrong bytes were removed. *)
Definition decoded_bytes (s : cstring) : cstring :=
  match missing s with
  | O => s
  | S O => take (length s - 2) s ++ [NUL]
  | _ => s ++ [NUL]
  end.

Lemma erase_decoded s : s <> [] ->
  match shrik_map !! missing s with Some n => erase_end n (s ++ repeat NUL (missing s)) | None => Err BadIndex end = Ok (decoded_bytes s).
Proof.
  intros Hs. unfold decoded_bytes. pose proof (length_app s (repeat NUL (missing s))) as Hl. rewrite repeat_length in Hl.
  assert (length s <> 0)%nat by (now destruct s). pose proof (missing_mod s) as H3. pose proof (missing_small s) as Hm.
  destruct (missing s) as [|[|[|]]]; [| | |lia]; cbn [shrik_map lookup list_lookup repeat] in *; unfold erase_end; rewrite Hl.
  - rewrite (proj2 (Nat.leb_le _ _)) by lia. rewrite app_nil_r, Nat.sub_0_r, Nat.add_0_r. now rewrite take_drop.
  - assert (2 <= length s)%nat by (destruct (length s) as [|[|]]; cbn in H3; lia).
    rewrite (proj2 (Nat.leb_le _ _)) by lia. rewrite take_app_le, drop_app_ge by lia.
    replace (length s + 1 - 1 - 2)%nat with (length s - 2)%nat by lia. replace (length s + 1 - 1 - length s)%nat with 0%nat by lia. reflexivity.
  - rewrite (proj2 (Nat.leb_le _ _)) by lia. replace (length s + 2 - 1 - 1)%nat with (length s) by lia.
    rewrite take_app_length, drop_app_ge by lia. replace (length s + 2 - 1 - length s)%nat with 1%nat by lia. reflexivity.
Qed.

Lemma decode_run {B : Base64Iterators} {BL : Base64Laws B} t s rest :
  encodes t s -> s <> [] -> Forall (fun c => mem_char c [CR; LF; "."%char] = true) rest -> base64_decode (t ++ rest) = Ok (decoded_bytes s).
Proof.
  intros He Hs Hr. unfold base64_decode. rewrite (strip_encoded t s rest He Hr). cbn [mbind result_bind].
  destruct He as (Hf & _ & d & Ed & Hd). replace (padding t) with (missing s) by (rewrite Ed; symmetry; apply padding_spec; [exact Hd|apply missing_small]).
  rewrite (from_base64_groups t (s ++ repeat NUL (missing s))) by (rewrite Hf; apply base64_bytes).
  pose proof (erase_decoded s Hs) as He. now destruct (shrik_map !! missing s).
Qed.

(** What decoding gives.  [base64_decode] of an encoded text, with line
    breaks and dots behind it, gives the text back when its length is a multiple of
    three.  Otherwise its table for the padding is the wrong way round and the
    wrong bytes are removed: one missing byte leaves the text without its last two
    characters and with a NUL instead, two missing bytes leave a NUL behind the
    text. *)
Theorem base64_decode_encoded {B : Base64Iterators} {BL : Base64Laws B} (s rest : cstring) :
  s <> [] -> Forall (fun c => mem_char c [CR; LF; "."%char] = true) rest ->
  base64_decode (base64 s ++ rest)
  = Ok (match (length s mod 3)%nat with
        | O => s
        | S O => s ++ [NUL]
        | _ => take (length s - 2) s ++ [NUL]
        end).
Proof.
  intros Hs Hr. rewrite (decode_run (base64 s) s rest (base64_encodes s Hs) Hs Hr). unfold decoded_bytes, missing.
  pose proof (Nat.mod_upper_bound (length s) 3). now destruct (length s mod 3)%nat as [|[|[|]]]; [| | |lia].
Qed.

Lemma base64_encode_correct_witness :
  base64_encode ($"abcd") = Some ($"YWJjZA==")
  /\ exists text, base64_encode_lines 4 ($"abcd") = Some text /\ List.filter (fun c => negb (c =c LF)) text = $"YWJjZA==".
Proof. apply (base64_encode_correct ($"abcd") 4); cbn; lia. Defined.

Lemma base64_decode_encoded_witness : base64_decode ($"YWJjZGU=" ++ [CR; LF]) = Ok ($"abc" ++ [NUL]).
Proof. apply (base64_decode_encoded ($"abcde") [CR; LF]); [discriminate|repeat constructor]. Defined.
