(* ===== verification/MailFormat.v ===== *)
(** Mail, libmailexchange/internet_mail_format.hpp: writing and reading of the
    internet message format, and libmailexchange/pop3.cpp: the part of a mail that
    is shown.

    A stream is the list of the lines that [std::getline] will return; it is
    at its end when the list is empty.  The headers of a mail are listed in the
    order in which the unordered map is traversed, which the program does not
    depend on when it reads.  Conversion between character sets is the class
    [Locale]. *)

From S2P Require Import Prelude CLib EscapeString Settings Regex Base64 PTree Avbot.

(** [boost::locale::conv::between(source, "UTF-8", charset)]; [None] is its
    exception. *)
Class Locale := { to_utf8 : cstring -> cstring -> option cstring }.

(** ** Data *)

Abbreviation headers := (list (cstring * cstring)).

Set Warnings "-register-all".
Inductive mail : Type := Mail (header : headers) (have_multipart : bool) (body : cstring + list mail).

Definition m_header (m : mail) : headers := let 'Mail h _ _ := m in h.
Definition m_multipart (m : mail) : bool := let 'Mail _ b _ := m in b.
Definition m_text (m : mail) : cstring + list mail := let 'Mail _ _ t := m in t.

Record mailcontent : Type := MailContent {
  mail_from : cstring; mail_to : cstring; mail_subject : cstring; mail_type : cstring; mail_content : cstring
}.

(** [header[k]] gives the empty string for a header that is missing. *)
Definition header_of (k : cstring) (h : headers) : cstring :=
  match List.find (fun kv => str_eqb (fst kv) k) h with Some kv => snd kv | None => [] end.
(** [insert] keeps the first value. *)
Definition insert_header (kv : cstring * cstring) (h : headers) : headers :=
  if existsb (fun kv' => str_eqb (fst kv') (fst kv)) h then h else h ++ [kv].

(** Failures: of [base64_encode] and [base64_decode], of the conversion, a match whose text is gone,
    the wrong alternative of the variant, and a failed assertion. *)
Inductive mail_fault : Type := BadTail | BadBase64 (e : base64_error) | BadCharset | Dangling | BadGet | BadAssert | NoFuel.

(** The lines of a text, as [getline] returns them. *)
Definition lines_of (s : cstring) : list cstring := split_on LF s.

Section MailFormat.
Context {B : Base64Iterators} {E : RegexEngine} {L : Locale}.
Variable asserts : bool.

(** The result is used as a C string. *)
Definition ansi_utf8 (source charset : cstring) : result mail_fault cstring :=
  match to_utf8 source charset with Some t => Ok (c_str t) | None => Err BadCharset end.

(** ** Writing *)

Fixpoint split_any (seps s : cstring) : list cstring :=
  match s with
  | [] => [[]]
  | c :: s' =>
      if mem_char c seps then [] :: split_any seps s'
      else match split_any seps s' with w :: ws => (c :: w) :: ws | [] => [[c]] end
  end.
Definition mail_address_split (in_mailline : cstring) : list cstring := split_any ($";,") in_mailline.

(** [find_last_of("\r\n")]. *)
Definition last_break (s : cstring) : option nat :=
  (fun i => (length s - 1 - i)%nat) <$> (fst <$> list_find (fun c => mem_char c crlf = true) (rev s)).

Definition checked_newline_append (to add : cstring) : cstring :=
  let len := Z.of_nat (length to) in
  let xpos :=
    match last_break to with
    | Some O => len
    | Some pos => wrapu 64 (len - (Z.of_nat pos + 2))
    | None => wrapu 64 (len - wrapu 64 (2 ^ 64 - 1 + 2))
    end in
  (if 78 <=? wrapu 64 (xpos + Z.of_nat (length add)) then to ++ crlf ++ [TAB] else to) ++ add.

Definition written (o : option cstring) : result mail_fault cstring := match o with Some t => Ok t | None => Err BadTail end.
Definition imf_base64inline_encode (str : cstring) : result mail_fault cstring :=
  t ← written (base64_encode str); Ok ($"=?utf8?B?" ++ t ++ $"?=").

Definition quote : ascii := "034"%char.
Definition quote_p : ascii -> bool := fun c => c =c quote.

(** The end of an expression. *)
Definition nothing : regex := Star (fun _ => false).

Definition bracketed_re : regex := lit ($"<") (Seq (Star any_char) (lit ($"@") (Seq (Lazy any_char) (lit ($">") nothing)))).
Definition address_re : regex :=
  Seq (Opt (Chr quote_p)) (Seq (Opt (Group (Star (fun c => negb (isspace c || quote_p c)))))
    (Seq (Opt (Chr quote_p)) (Seq (Star isspace) (Group bracketed_re)))).

Definition encode_address (out mail : cstring) : result mail_fault cstring :=
  match regex_search address_re (c_str mail) with
  | Some (_, _, what) =>
      let mailaddress := trim (sub_match what 1) in
      name ← imf_base64inline_encode (sub_match what 0);
      Ok (checked_newline_append out ([quote] ++ name ++ [quote] ++ $" " ++ mailaddress ++ $"; "))
  | None => Ok (checked_newline_append out (mail ++ $"; "))
  end.
Fixpoint encode_addresses (mails : list cstring) (out : cstring) : result mail_fault cstring :=
  match mails with [] => Ok out | m :: mails' => out' ← encode_address out m; encode_addresses mails' out' end.
Definition imf_mailaddr_base64inline_encode (out_addressline str : cstring) : result mail_fault cstring :=
  encode_addresses (mail_address_split str) out_addressline.

(** The value of a header behind its name. *)
Definition write_value (key value headerdata : cstring) : result mail_fault cstring :=
  if str_eqb key ($"from") || str_eqb key ($"to") then imf_mailaddr_base64inline_encode headerdata value
  else if str_eqb key ($"subject") then t ← imf_base64inline_encode value; Ok (checked_newline_append headerdata t)
  else Ok (checked_newline_append headerdata value).
Fixpoint write_headers (h : headers) (headerdata : cstring) : result mail_fault cstring :=
  match h with
  | [] => Ok headerdata
  | (key, value) :: h' => t ← write_value key value (headerdata ++ key ++ $": "); write_headers h' (t ++ crlf)
  end.

Definition imf_write_stream (imf : mail) : result mail_fault cstring :=
  if asserts && m_multipart imf then Err BadAssert
  else
    headerdata ← write_headers (m_header imf) [];
    match m_text imf with
    | inr _ => Err BadGet
    | inl body =>
        text ← written (base64_encode_lines 78 body);
        Ok (headerdata ++ $"content-transfer-encoding: base64" ++ crlf ++ crlf ++ text)
    end.

(** ** Reading *)

Definition inline_re : regex := lit ($"=?") (Seq (Opt (Group (Chr (not_char "?")))) (lit ($"?=") nothing)).
Definition word_re : regex :=
  Seq (Group (Star any_char)) (lit ($"?") (Seq (Group (Chr (not_char "?"))) (lit ($"?") (Group (Star any_char))))).

(** The loop.  The groups of the inner match point into a temporary string that
    is gone when they are read. *)
Fixpoint inline_loop (fuel : nat) (ex : regex) (str : cstring) : result mail_fault cstring :=
  match fuel with
  | O => Err NoFuel
  | S fuel' =>
      match regex_search ex (c_str str) with
      | None => Ok str
      | Some (_, matched, what) =>
          match regex_search word_re (sub_match what 0) with
          | Some _ => Err Dangling
          | None => inline_loop fuel' word_re (replace_all matched ($"decodeerror") str)
          end
      end
  end.
Definition imf_base64inline_decode (str : cstring) : result mail_fault cstring := inline_loop 4 inline_re str.

Definition line_re : regex :=
  Seq (Opt (Group (Star (not_char ":")))) (lit ($":") (Seq (Plus (fun c => (c =c " ") || (c =c TAB))) (Opt (Group (Star any_char))))).

(** [None] is [bad_expression], which the caller ignores. *)
Definition process_line (line : cstring) : result mail_fault (option (cstring * cstring)) :=
  match regex_match line_re (c_str line) with
  | Some what => v ← imf_base64inline_decode (sub_match what 1); Ok (Some (to_lower (sub_match what 0), v))
  | None => Ok None
  end.

(** The body, from its first line, which was trimmed. *)
Definition body_text (line : cstring) (rest : list cstring) : cstring := line ++ crlf ++ concat (map (fun l => l ++ [LF]) rest).

Definition decode_body (h : headers) (body : cstring) : result mail_fault cstring :=
  if str_eqb (to_lower (header_of ($"content-transfer-encoding") h)) ($"base64")
  then match base64_decode body with Ok t => Ok t | Err e => Err (BadBase64 e) end
  else Ok body.

(** The state machine over the lines: the headers, and the body if it begins. *)
Fixpoint read_lines (ls : list cstring) (pre_line : cstring) (h : headers) : result mail_fault (headers * option cstring) :=
  match ls with
  | [] => Ok (h, None)
  | l :: ls' =>
      let line := trim_right_if isspace l in
      if match line with c :: _ => isspace c | [] => false end then read_lines ls' (pre_line ++ trim_left_if isspace line) h
      else
        match pre_line, line with
        | _ :: _, _ =>
            kv ← process_line pre_line;
            read_lines ls' line (match kv with Some kv => insert_header kv h | None => h end)
        | [], _ :: _ => Ok (h, Some (body_text line ls'))
        | [], [] => read_lines ls' line h
        end
  end.

Definition multipart_re : regex :=
  lit ($"multipart/") (Seq (Star any_char) (lit ($";") (Seq (Lazy any_char) (lit ($"boundary=" ++ [quote])
    (Seq (Opt (Group (Star any_char))) (Chr quote_p)))))).

(** The parts between the boundaries; [inside] tells whether the first was seen. *)
Fixpoint mime_parts (boundary : cstring) (ls : list cstring) (inside : bool) (part : cstring) : list cstring :=
  match ls with
  | [] => []
  | l :: ls' =>
      if inside then
        if str_eqb (trim l) ($"--" ++ boundary) || str_eqb (trim l) ($"--" ++ boundary ++ $"--")
        then part :: mime_parts boundary ls' true []
        else mime_parts boundary ls' true (part ++ l ++ [LF])
      else mime_parts boundary ls' (str_eqb (trim l) ($"--" ++ boundary)) []
  end.

(** [imf_read_stream], with [imf_decode_multipart] and [mime_read_stream]; the
    depth of the nesting is bounded by [fuel]. *)
Fixpoint imf_read_stream (fuel : nat) (ls : list cstring) : result mail_fault mail :=
  match fuel with
  | O => Err NoFuel
  | S fuel' =>
      match ls with
      | [] => Ok (Mail [] false (inl []))
      | pre_line :: ls' =>
          r ← read_lines ls' pre_line [];
          match r with
          | (h, None) => Ok (Mail h false (inl []))
          | (h, Some body) =>
              text ← decode_body h body;
              match regex_search multipart_re (c_str (header_of ($"content-type") h)) with
              | None => Ok (Mail h false (inl text))
              | Some (_, _, what) =>
                  let parts := mime_parts (sub_match what 0) (lines_of text) false [] in
                  ms ← (fix read_parts (ps : list cstring) : result mail_fault (list mail) :=
                          match ps with
                          | [] => Ok []
                          | p :: ps' => m ← imf_read_stream fuel' (lines_of p); ms ← read_parts ps'; Ok (m :: ms)
                          end) parts;
                  Ok (Mail h true (inr ms))
              end
          end
      end
  end.

(** ** The content that is shown *)

Definition find_mimetype (contenttype : cstring) : cstring :=
  match contenttype with
  | [] => $"text/plain"
  | _ => match split_any ($"; ") contenttype with w :: _ => or_else w contenttype | [] => contenttype end
  end.

Definition charset_re : regex :=
  Seq (Opt (Group (Star any_char))) (lit ($";") (Seq (Opt (Chr (fun c => mem_char c [TAB; " "%char; CR; "007"%char])))
    (lit ($"charset=") (Opt (Group (Star any_char)))))).

Definition decode_content_charset (body content_type : cstring) : result mail_fault cstring :=
  match regex_search charset_re (c_str content_type) with
  | Some (_, _, what) => ansi_utf8 body (sub_match what 1)
  | None => Ok body
  end.

(** [boost::get<std::string>]. *)
Definition get_text (m : mail) : result mail_fault cstring :=
  match m_text m with inl t => Ok t | inr _ => Err BadGet end.

(** Both overloads of [select_best_mailcontent]: of a mail, and of the parts of
    one: the first part of the type, unless a part in front of it has parts. *)
Fixpoint select_best (m : mail) : result mail_fault (cstring * cstring) :=
  let 'Mail h multipart body := m in
  let first_of_type (want : cstring) :=
    fix go (ms : list mail) : result mail_fault (option (cstring * cstring)) :=
      match ms with
      | [] => Ok None
      | v :: ms' =>
          if m_multipart v then r ← select_best v; Ok (Some r)
          else if str_eqb (find_mimetype (header_of ($"content-type") (m_header v))) want
          then t ← get_text v; Ok (Some (header_of ($"content-type") (m_header v), t))
          else go ms'
      end in
  match multipart, body with
  | true, inr ms =>
      r ← first_of_type ($"text/plain") ms;
      match r with
      | Some r => Ok r
      | None => r ← first_of_type ($"text/html") ms; Ok (default ([], []) r)
      end
  | true, inl _ => Err BadGet
  | false, inl t =>
      c ← decode_content_charset t (header_of ($"content-type") h);
      Ok (find_mimetype (header_of ($"content-type") h), c)
  | false, inr _ => Err BadGet
  end.

Definition select_content (m : mail) : result mail_fault (cstring * cstring) :=
  mc ← select_best m;
  c ← decode_content_charset (snd mc) (fst mc);
  Ok (find_mimetype (fst mc), c).

(** [pop3::process_mail], up to the call of the handler. *)
Definition read_mail (fuel : nat) (stream : cstring) : result mail_fault mailcontent :=
  imf ← imf_read_stream fuel (lines_of stream);
  c ← select_content imf;
  Ok (MailContent (header_of ($"from") (m_header imf)) (header_of ($"to") (m_header imf)) (header_of ($"subject") (m_header imf))
        (fst c) (snd c)).
End MailFormat.
