(* ===== verification/MailFacts.v ===== *)
(** Theorems on mail: lines that are folded, encoded words, and what becomes of a
    mail that is written and read again. *)

From S2P Require Import Prelude CLib EscapeString Settings Regex Base64 PTree Avbot MailFormat.

(** ** Lines *)

Abbreviation is_break c := (mem_char c crlf).
Definition break_free (s : cstring) : Prop := Forall (fun c => is_break c = false) s.

(** What is behind the last line break. *)
Definition last_line (s : cstring) : cstring := match last_break s with Some p => drop (S p) s | None => s end.

Lemma last_break_snoc s c : last_break (s ++ [c]) = if is_break c then Some (length s) else last_break s.
Proof.
  unfold last_break. rewrite rev_app_distr, length_app. cbn [rev app list_find length]. destruct (is_break c) eqn:Hc.
  - rewrite decide_True by reflexivity. cbn. f_equal. lia.
  - rewrite decide_False by discriminate. destruct (list_find _ (rev s)) as [[i x]|]; [|reflexivity]. cbn. f_equal. lia.
Qed.

Lemma last_break_app s t : break_free t -> last_break (s ++ t) = last_break s.
Proof.
  intros Ht. induction t as [|c t IH] using rev_ind; [now rewrite app_nil_r|]. apply Forall_app in Ht as [Ht Hc].
  inversion_clear Hc as [|? ? Hc' _]. rewrite app_assoc, last_break_snoc, Hc'. now apply IH.
Qed.

Lemma last_break_split s : break_free (last_line s) /\ match last_break s with
  | Some p => (p < length s)%nat /\ exists c, is_break c = true /\ s = take p s ++ [c] ++ last_line s
  | None => last_line s = s end.
Proof.
  unfold last_line. induction s as [|c s [IH1 IH2]] using rev_ind; [split; [constructor|reflexivity]|].
  rewrite last_break_snoc. destruct (is_break c) eqn:Hc.
  - rewrite length_app. cbn [length]. rewrite drop_ge by (rewrite length_app; cbn; lia). split; [constructor|]. split; [lia|].
    exists c. split; [exact Hc|]. now rewrite take_app_length.
  - destruct (last_break s) as [p|].
    + destruct IH2 as (Hp & c' & Hc' & Es). rewrite length_app. cbn [length]. rewrite drop_app_le by lia. split.
      { apply Forall_app_2; [exact IH1|]. now constructor; [|constructor]. }
      split; [lia|]. exists c'. split; [exact Hc'|]. rewrite take_app_le by lia. rewrite Es at 1. now rewrite <- !app_assoc.
    + split; [|reflexivity]. apply Forall_app_2; [exact IH1|]. now constructor; [|constructor].
Qed.

Lemma last_line_app s t : break_free t -> last_line (s ++ t) = last_line s ++ t.
Proof.
  intros Ht. unfold last_line. rewrite last_break_app by exact Ht. pose proof (last_break_split s) as [_ H].
  destruct (last_break s) as [p|]; [|reflexivity]. rewrite drop_app_le by lia. reflexivity.
Qed.

(** The position that the function computes is one less than the length of the
    line, except for a text whose only line break is its first character. *)
Lemma append_choice to add :
  Z.of_nat (length to) + Z.of_nat (length add) < 2 ^ 62 -> (0 < length (last_line to))%nat -> last_break to <> Some 0%nat ->
  checked_newline_append to add
  = (if (length (last_line to) + length add <=? 78)%nat then to else to ++ crlf ++ [TAB]) ++ add.
Proof.
  intros Hl Hp Hb. unfold checked_newline_append. f_equal.
  assert (forall x, x = Z.of_nat (length (last_line to)) - 1 ->
            (if 78 <=? wrapu 64 (x + Z.of_nat (length add)) then to ++ crlf ++ [TAB] else to)
            = (if (length (last_line to) + length add <=? 78)%nat then to else to ++ crlf ++ [TAB])) as Hx.
  { intros x ->. pose proof (last_break_split to) as [_ H]. assert (length (last_line to) <= length to)%nat as Hle.
    { unfold last_line. destruct (last_break to); [rewrite length_drop; lia|lia]. }
    rewrite wrapu_id by lia. destruct (Nat.leb_spec (length (last_line to) + length add) 78);
      [rewrite (proj2 (Z.leb_gt _ _)) by lia|rewrite (proj2 (Z.leb_le _ _)) by lia]; reflexivity. }
  pose proof (last_break_split to) as [_ H]. destruct (last_break to) as [[|p]|] eqn:Eb; [congruence| |].
  - apply Hx. destruct H as (Hlt & c & _ & Es). apply (f_equal length) in Es. rewrite !length_app, length_take in Es. cbn [length] in Es.
    rewrite wrapu_id by lia. lia.
  - apply Hx. rewrite H. change (wrapu 64 (2 ^ 64 - 1 + 2)) with 1. rewrite H in Hp. rewrite wrapu_id by lia. lia.
Qed.

(** Lines stay short.  [checked_newline_append] adds the text behind the last
    line, or behind a line break and a tab when the line would be longer than 78
    characters; so the last line has at most 78 characters unless the text alone
    is longer. *)
Theorem checked_newline_bound (to add : cstring) :
  Z.of_nat (length to) + Z.of_nat (length add) < 2 ^ 62 -> break_free add -> (0 < length (last_line to))%nat ->
  last_break to <> Some 0%nat ->
  let r := checked_newline_append to add in
  (length (last_line r) <= Nat.max 78 (S (length add)))%nat
  /\ (r = to ++ add /\ (length (last_line to) + length add <= 78)%nat
      \/ r = to ++ crlf ++ [TAB] ++ add /\ (78 < length (last_line to) + length add)%nat).
Proof.
  intros Hl Ha Hp Hb. cbv zeta. rewrite append_choice by assumption. destruct (Nat.leb_spec (length (last_line to) + length add) 78).
  - rewrite last_line_app by exact Ha. rewrite length_app. split; [lia|left; now split].
  - rewrite <- !app_assoc. split; [|right; now split]. rewrite app_assoc. rewrite last_line_app.
    + assert (last_line (to ++ crlf) = []) as ->; [|cbn [app length]; lia]. unfold last_line. change crlf with ([CR] ++ [LF]).
      rewrite app_assoc, last_break_snoc. change (is_break LF) with true. cbv iota. apply drop_ge. rewrite length_app. cbn. lia.
    + now constructor.
Qed.

Lemma checked_newline_bound_witness :
  let r := checked_newline_append ($"subject: ") (repeat "x"%char 80) in
  (length (last_line r) <= 81)%nat /\ r = $"subject: " ++ crlf ++ [TAB] ++ repeat "x"%char 80.
Proof.
  destruct (checked_newline_bound ($"subject: ") (repeat "x"%char 80)) as (H1 & [(_ & H2)|(H2 & _)]).
  - vm_compute. reflexivity.
  - repeat constructor.
  - vm_compute. lia.
  - discriminate.
  - vm_compute in H2. lia.
  - now split.
Defined.

(** ** Encoded words *)

(** A text that an expression matches has the characters that it asks for. *)
Fixpoint needs (c : ascii) (r : regex) : Prop :=
  match r with
  | Chr p => forall x, p x = true -> x = c
  | Seq a b => needs c a \/ needs c b
  | Group a => needs c a
  | _ => False
  end.

Lemma needs_parses c r t caps : parses r t caps -> needs c r -> In c t.
Proof.
  induction 1 as [p x Hx| | |a b s1 s2 c1 c2 _ IH1 _ IH2| | |a s0 c0 _ IH]; cbn [needs]; intros Hn; try contradiction; [left; now apply Hn| |now apply IH].
  apply in_app_iff. destruct Hn; [left; now apply IH1|right; now apply IH2].
Qed.

Section Words.
Context {E : RegexEngine} {EL : RegexLaws E}.

(** The second expression of the loop matches a whole text, or no part of it. *)
Lemma word_search s b m c : perl_search word_re s = Some (b, m, c) -> b = [] /\ m = s /\ m <> [].
Proof.
  intros Es. pose proof (perl_search_correct word_re s) as H. rewrite Es in H. destruct H as ((rest & E1) & P & Hl).
  assert (parses word_re (b ++ m) (Some (b ++ sub_match c 0) :: tl c)) as P0.
  { unfold word_re in *. inversion P as [| | |a1 a2 s1 s2 c1 c2 P1 P2 Ea| | |]; subst. rewrite app_assoc.
    inversion P1 as [| | | | | |a3 s3 c3 P3]; subst. inversion P3; subst. cbn [sub_match lookup list_lookup tl app].
    apply (parses_seq _ _ (b ++ s1) s2 [Some (b ++ s1)] c2); [|exact P2]. constructor. constructor. apply any_all. }
  assert (b = []) as ->.
  { assert (length b <= 0)%nat; [|now destruct b; [|cbn in *; lia]]. eapply (fun H => Hl [] (b ++ m) _ rest H P0). cbn. now rewrite <- app_assoc. }
  split; [reflexivity|]. cbn [app] in *. unfold perl_search in Es.
  assert (match_at word_re s (fun t c _ => Some ([] : cstring, t, c)) = Some ([], m, c)) as Em.
  { destruct s as [|x s]; cbn [search_from] in Es; destruct (match_at word_re _ _) as [y|] eqn:Em; try exact Es; try discriminate.
    exfalso. rewrite E1 in Em. now apply (match_at_complete word_re m _ P0 (fun t c _ => Some ([] : cstring, t, c)) rest). }
  clear -Em. unfold word_re in Em. rewrite match_at_seq, match_group in Em. cbn [match_at] in Em.
  apply star_at_sound in Em as (t & r & -> & _ & Em).
  cbn [list_ascii_of_string lit match_at] in Em.
  destruct r as [|x1 r]; [discriminate|]. destruct (x1 =c "?"); [|discriminate].
  destruct r as [|x2 r]; [discriminate|]. destruct (not_char "?" x2); [|discriminate].
  destruct r as [|x3 r]; [discriminate|]. destruct (x3 =c "?"); [|discriminate].
  pose proof (star_at_greedy any_char r [] (fun t0 rest : cstring => Some ([] : cstring, ([] ++ t) ++ [x1] ++ [x2] ++ [x3] ++ t0, [Some ([] ++ t)] ++ [Some [x2]] ++ [Some t0])) [] _ (any_all r) I eq_refl) as Eg.
  rewrite app_nil_r in Eg. cbn in Em, Eg. rewrite Eg in Em. injection Em as <- _. split; [reflexivity|]. now destruct t.
Qed.

Lemma c_str_split s : exists r, s = c_str s ++ r /\ (forall c r', r = c :: r' -> c = NUL) /\ Forall (fun c => c <> NUL) (c_str s).
Proof.
  unfold c_str. induction s as [|c s (r & Es & Hr & Hf)]; [exists []; repeat split; [discriminate|constructor]|]. cbn [span].
  destruct (Ascii.eqb_spec c NUL) as [->|Hc]; cbn [negb].
  - exists (NUL :: s). repeat split; [now intros c r' [= <- _]|constructor].
  - destruct (span _ s) as [a b] eqn:Esp. cbn [fst] in *. exists r. split; [now rewrite Es at 1|]. split; [exact Hr|]. now constructor.
Qed.

(** After a whole C string was replaced, the new text is all that a C function
    sees. *)
Lemma replace_whole s t : c_str s <> [] -> Forall (fun c => c <> NUL) t -> c_str (replace_all (c_str s) t s) = t.
Proof.
  intros Hne Ht. destruct (c_str_split s) as (r & Es & Hr & Hf). set (m := c_str s) in *. clearbody m. subst s.
  assert (forall x, (forall c r', x = c :: r' -> c = NUL) -> c_str (t ++ x) = t) as Hc.
  { intros x Hx. unfold c_str. clear -Ht Hx. induction Ht as [|c t Hc _ IH]; cbn [app span].
    - destruct x as [|c x]; [reflexivity|]. now rewrite (Hx c x eq_refl).
    - apply Ascii.eqb_neq in Hc. rewrite Hc. cbn [negb]. destruct (span _ (t ++ x)). cbn [fst] in *. now rewrite IH. }
  unfold replace_all. rewrite length_app. destruct m as [|y m]; [contradiction|]. cbn [length Nat.add replace_loop].
  assert (find_str (y :: m) ((y :: m) ++ r) = Some 0%nat) as ->.
  { pose proof (is_prefix_app (y :: m) r) as Hp. destruct ((y :: m) ++ r) as [|z l] eqn:El; [discriminate|]. cbn [find_str]. now rewrite Hp. }
  rewrite (drop_app_length' (y :: m)) by reflexivity. cbn [take app]. apply Hc. destruct r as [|z r].
  - intros c r'. now destruct (length m + _)%nat.
  - pose proof (Hr z r eq_refl) as ->. inversion_clear Hf as [|? ? Hy _]. apply Ascii.eqb_neq in Hy.
    assert (forall n c r', replace_loop n (y :: m) t (NUL :: r) = c :: r' -> c = NUL) as H; [|now apply H].
    intros n c r'. destruct n; cbn [replace_loop]; [now intros [= <- _]|]. cbn [find_str is_prefix]. rewrite Hy. cbn [andb].
    destruct (find_str (y :: m) r) as [i|]; cbn; now intros [= <- _].
Qed.

(** The decoding of encoded words comes to an end.  Whatever is in a header, [imf_base64inline_decode] needs at most three turns of its loop. *)
Theorem inline_decode_terminates (str : cstring) : imf_base64inline_decode str <> Err NoFuel.
Proof.
  unfold imf_base64inline_decode. cbn [inline_loop].
  destruct (regex_search inline_re (c_str str)) as [[[b1 m1] c1]|]; [|discriminate].
  destruct (regex_search word_re (sub_match c1 0)); [discriminate|]. set (s1 := replace_all m1 _ str).
  destruct (regex_search word_re (c_str s1)) as [[[b2 m2] c2]|] eqn:E2; [|discriminate].
  destruct (regex_search word_re (sub_match c2 0)); [discriminate|].
  rewrite regex_search_perl in E2. apply word_search in E2 as (_ & -> & Hne). rewrite regex_search_perl.
  rewrite replace_whole by (exact Hne || (repeat constructor; discriminate)).
  change (perl_search word_re ($"decodeerror")) with (None : option (cstring * cstring * captures)). discriminate.
Qed.

(** An encoded word is not decoded, since the expression only knows words of one
    character between the question marks. *)
Theorem encoded_word_kept (t : cstring) :
  Forall (fun c => negb (c =c "?") && negb (c =c "=") && negb (c =c NUL) = true) t ->
  imf_base64inline_decode ($"=?utf8?B?" ++ t ++ $"?=") = Ok ($"=?utf8?B?" ++ t ++ $"?=").
Proof.
  intros Ht. unfold imf_base64inline_decode. cbn [inline_loop]. rewrite regex_search_perl, c_str_id.
  - enough (perl_search inline_re ($"=?utf8?B?" ++ t ++ $"?=") = None) as -> by reflexivity.
    unfold perl_search. cbn [list_ascii_of_string app]. repeat (cbn [search_from app]; match goal with
      |- (match match_at inline_re ?s ?k with _ => _ end) = _ => change (match_at inline_re s k) with (None : option (cstring * cstring * captures)) end).
    generalize (["="; "?"; "u"; "t"; "f"; "8"; "?"; "B"; "?"]%char : cstring). induction Ht as [|c t Hc _ IH]; intros b; [reflexivity|].
    cbn [app search_from]. apply andb_true_iff in Hc as [Hc _]. apply andb_true_iff in Hc as [_ Hc].
    assert (match_at inline_re (c :: t ++ ["?"; "="]%char) (fun t c _ => Some (b, t, c)) = None) as ->; [|apply IH].
    unfold inline_re. cbn [list_ascii_of_string lit match_at]. now destruct (c =c "=").
  - unfold free_of. rewrite !Forall_app. split; [repeat constructor|]. split; [|repeat constructor].
    eapply Forall_impl; [exact Ht|]. cbv beta. intros c Hc. apply andb_true_iff in Hc as [_ Hc]. unfold mem_char. cbn [existsb].
    apply negb_true_iff in Hc. now rewrite Hc.
Qed.
End Words.

(** ** Writing and reading a mail *)

Definition as_line (kv : cstring * cstring) : cstring := fst kv ++ $": " ++ snd kv.

(** Headers that survive being read: a lower-case name, a value without line
    breaks, question marks and white space at its ends. *)
Definition name_char (c : ascii) : bool := negb (isspace c) && negb (c =c ":") && negb (c =c NUL) && (tolower c =c c).
Definition value_char (c : ascii) : bool := negb (is_break c) && negb (c =c NUL) && negb (c =c "?").

Record line_ok (kv : cstring * cstring) : Prop := {
  lo_name : Forall (fun c => name_char c = true) (fst kv) /\ fst kv <> [];
  lo_value : Forall (fun c => value_char c = true) (snd kv);
  lo_first : match snd kv with c :: _ => isspace c = false | [] => False end;
  lo_last : exists v c, snd kv = v ++ [c] /\ isspace c = false
}.

(** An address is written with a semicolon and a blank behind it, any other value
    as it is: what is read of a header, and the blanks that are not. *)
Definition is_address (k : cstring) : bool := str_eqb k ($"from") || str_eqb k ($"to").
Definition sent (kv : cstring * cstring) : cstring * cstring := if is_address (fst kv) then (fst kv, snd kv ++ $";") else kv.
Definition blank (kv : cstring * cstring) : cstring := if is_address (fst kv) then $" " else [].

Lemma fst_sent kv : fst (sent kv) = fst kv.
Proof. unfold sent. now destruct (is_address (fst kv)). Qed.

Lemma names_sent h : map fst (map sent h) = map fst h.
Proof. rewrite map_map. apply map_ext, fst_sent. Qed.

Lemma blank_space kv : Forall (fun c => isspace c = true) (blank kv).
Proof. unfold blank. destruct (is_address (fst kv)); repeat constructor. Qed.

(** Headers that are written on one line, as they are or with a plain address. *)
Definition transfer : cstring := $"content-transfer-encoding".
Record header_ok (kv : cstring * cstring) : Prop := {
  ho_line : line_ok (sent kv);
  ho_length : (length (as_line (sent kv) ++ blank kv) <= 78)%nat;
  ho_address : is_address (fst kv) = true -> Forall (fun c => mem_char c ($";,<") = false) (snd kv);
  ho_plain : ~ In (fst kv) [$"subject"; $"content-type"; transfer]
}.

Section Read.
Context {E : RegexEngine} {EL : RegexLaws E}.

Lemma no_question s : Forall (fun c => value_char c = true) s -> perl_search inline_re s = None.
Proof.
  intros H. unfold perl_search. generalize ([] : cstring). induction H as [|c s Hc Hs IH]; intros b; cbn [search_from]; [reflexivity|].
  assert (match_at inline_re (c :: s) (fun t c _ => Some (b, t, c)) = None) as ->; [|apply IH].
  unfold inline_re. cbn [list_ascii_of_string lit match_at]. destruct (c =c "="); [|reflexivity].
  destruct s as [|d s]; [reflexivity|]. inversion_clear Hs as [|? ? Hd _]. unfold value_char in Hd. apply andb_true_iff in Hd as [_ Hd].
  apply negb_true_iff in Hd. now rewrite Hd.
Qed.

Lemma value_c_str s : Forall (fun c => value_char c = true) s -> c_str s = s.
Proof.
  intros H. apply c_str_id. unfold free_of. eapply Forall_impl; [exact H|]. cbv beta. intros c Hc. unfold value_char in Hc.
  rewrite !andb_true_iff, !negb_true_iff in Hc. unfold mem_char. cbn [existsb]. now rewrite (proj2 (proj1 Hc)).
Qed.

Lemma header_c_str kv : line_ok kv -> c_str (as_line kv) = as_line kv.
Proof.
  intros [[Hn _] Hv _ _]. apply c_str_id. unfold free_of, as_line. rewrite !Forall_app. split; [|split; [repeat constructor|]].
  - eapply Forall_impl; [exact Hn|]. cbv beta. intros c Hc. unfold name_char in Hc. rewrite !andb_true_iff, !negb_true_iff in Hc.
    unfold mem_char. cbn [existsb]. destruct Hc as [[_ ->] _]. reflexivity.
  - eapply Forall_impl; [exact Hv|]. cbv beta. intros c Hc. unfold value_char in Hc. rewrite !andb_true_iff, !negb_true_iff in Hc.
    unfold mem_char. cbn [existsb]. destruct Hc as [[_ ->] _]. reflexivity.
Qed.

Lemma name_lower s : Forall (fun c => name_char c = true) s -> to_lower s = s.
Proof.
  induction 1 as [|c s Hc _ IH]; [reflexivity|]. cbn [to_lower map]. unfold to_lower in IH. rewrite IH. unfold name_char in Hc.
  apply andb_true_iff in Hc as [_ Hc]. now apply Ascii.eqb_eq in Hc as ->.
Qed.

Lemma process_line_run kv : line_ok kv -> process_line (as_line kv) = Ok (Some kv).
Proof.
  intros H. pose proof H as [[Hn Hne] Hv Hf _]. unfold process_line. rewrite (header_c_str kv H), regex_match_perl.
  assert (perl_match line_re (as_line kv) = Some [Some (fst kv); Some (snd kv)]) as ->.
  { unfold perl_match, line_re, as_line. rewrite match_at_seq. apply match_opt. rewrite match_group. apply match_star.
    - eapply Forall_impl; [exact Hn|]. cbv beta. intros c Hc. unfold name_char in Hc. rewrite !andb_true_iff, !negb_true_iff in Hc.
      unfold not_char. destruct Hc as [[[_ ->] _] _]. reflexivity.
    - reflexivity.
    - change ($": " ++ snd kv) with ($":" ++ $" " ++ snd kv). rewrite match_at_lit, match_at_seq. apply (match_plus _ ($" ")).
      + repeat constructor.
      + discriminate.
      + destruct (snd kv) as [|c v]; [exact I|]. cbn [stops]. destruct (Ascii.eqb_spec c " ") as [->|_]; [discriminate|].
        destruct (Ascii.eqb_spec c TAB) as [->|_]; [discriminate|reflexivity].
      + apply match_opt. rewrite match_group. apply match_all. reflexivity. }
  cbn [sub_match lookup list_lookup]. unfold imf_base64inline_decode. cbn [inline_loop].
  rewrite regex_search_perl, (value_c_str _ Hv), (no_question _ Hv). cbn [mbind result_bind]. rewrite (name_lower _ Hn). now destruct kv.
Qed.

Lemma skip_spaces b t : Forall (fun c => isspace c = true) b -> drop_while isspace (b ++ t) = drop_while isspace t.
Proof. induction 1 as [|c b Hc _ IH]; cbn [app drop_while]; [reflexivity|]. now rewrite Hc. Qed.

Lemma trim_line kv : line_ok (sent kv) -> trim_right_if isspace (as_line (sent kv) ++ blank kv ++ [CR]) = as_line (sent kv).
Proof.
  intros [_ _ _ (v & c & Hv & Hc)]. unfold as_line, trim_right_if. rewrite rev_app_distr, skip_spaces.
  - rewrite Hv, !app_assoc, rev_app_distr. cbn [rev app drop_while]. rewrite Hc. cbn [rev]. now rewrite rev_involutive.
  - apply List.Forall_rev, Forall_app_2; [apply blank_space|repeat constructor].
Qed.

Lemma insert_new kv h : ~ In (fst kv) (map fst h) -> insert_header kv h = h ++ [kv].
Proof.
  intros Hn. unfold insert_header. destruct (existsb _ h) eqn:Ee; [|reflexivity]. apply existsb_exists in Ee as (x & Hx & Ex).
  apply str_eqb_eq in Ex. exfalso. apply Hn. rewrite <- Ex. now apply in_map.
Qed.

(** The lines of headers, with the one before them, up to the empty line. *)
Lemma header_lines_run ks : forall kv0 acc rest,
  Forall (fun kv => line_ok (sent kv)) (kv0 :: ks) -> NoDup (map fst (acc ++ kv0 :: ks)) ->
  read_lines (map (fun kv => as_line (sent kv) ++ blank kv ++ [CR]) ks ++ [CR] :: rest) (as_line (sent kv0)) acc
  = read_lines rest [] (acc ++ map sent (kv0 :: ks)).
Proof.
  assert (forall kv, line_ok kv -> exists c l, as_line kv = c :: l /\ isspace c = false) as Hhead.
  { intros kv [[Hn Hne] _ _ _]. unfold as_line. destruct (fst kv) as [|c k]; [contradiction|]. eexists c, _. split; [reflexivity|].
    inversion_clear Hn as [|? ? Hc _]. unfold name_char in Hc. rewrite !andb_true_iff, !negb_true_iff in Hc. apply Hc. }
  assert (forall kv0 l acc, NoDup (map fst (acc ++ kv0 :: l)) -> insert_header (sent kv0) acc = acc ++ [sent kv0]) as Hins.
  { intros kv0 l acc Hd. apply insert_new. rewrite fst_sent. rewrite map_app in Hd. apply NoDup_app in Hd as (_ & Hd & _). intros Hin.
    apply (Hd (fst kv0)); [now apply list_elem_of_In|]. cbn [map]. apply list_elem_of_here. }
  induction ks as [|kv ks IH]; intros kv0 acc rest Hok Hd; inversion_clear Hok as [|? ? H0 Hks].
  - destruct (Hhead _ H0) as (c & l & El & _). cbn [map app read_lines]. change (trim_right_if isspace [CR]) with ([] : cstring). cbv iota.
    rewrite El. rewrite <- El, (process_line_run _ H0). cbn [mbind result_bind]. now rewrite (Hins kv0 [] acc Hd).
  - inversion_clear Hks as [|? ? Hkv Hks']. destruct (Hhead _ H0) as (c & l & El & _). destruct (Hhead _ Hkv) as (c' & l' & El' & Hc').
    cbn [map app read_lines]. rewrite (trim_line kv Hkv). rewrite El' at 1. rewrite Hc'. rewrite El. rewrite <- El, (process_line_run _ H0).
    cbn [mbind result_bind]. rewrite (Hins kv0 (kv :: ks) acc Hd), IH.
    + cbn [map]. now rewrite <- app_assoc.
    + now constructor.
    + revert Hd. rewrite !map_app. cbn [map]. now rewrite fst_sent, <- app_assoc.
Qed.
End Read.

(** *** The text that is written *)

Lemma value_break_free s : Forall (fun c => value_char c = true) s -> break_free s.
Proof. apply List.Forall_impl. intros c Hc. unfold value_char in Hc. rewrite !andb_true_iff, !negb_true_iff in Hc. apply Hc. Qed.

Lemma name_break_free s : Forall (fun c => name_char c = true) s -> break_free s.
Proof.
  apply List.Forall_impl. intros c Hc. unfold name_char in Hc. rewrite !andb_true_iff, !negb_true_iff in Hc. destruct Hc as [[[Hs _] _] _].
  unfold mem_char. cbn [existsb crlf]. destruct (Ascii.eqb_spec c CR) as [->|_]; [discriminate|].
  destruct (Ascii.eqb_spec c LF) as [->|_]; [discriminate|reflexivity].
Qed.

(** A value on the line of its name. *)
Lemma append_fits pre k v :
  Forall (fun c => name_char c = true) k -> (length (as_line (k, v)) <= 78)%nat ->
  pre = [] \/ (exists x, pre = x ++ crlf) -> Z.of_nat (length pre) < 2 ^ 61 ->
  checked_newline_append (pre ++ k ++ $": ") v = pre ++ as_line (k, v).
Proof.
  intros Hn Hl Hpre Hs. unfold as_line in *. cbn [fst snd] in *. rewrite !length_app in Hl. cbn [length list_ascii_of_string] in Hl.
  assert (break_free (k ++ $": ")) as Hb by (apply Forall_app_2; [now apply name_break_free|repeat constructor]).
  assert (last_line (pre ++ k ++ $": ") = k ++ $": " /\ last_break (pre ++ k ++ $": ") <> Some 0%nat) as [El Eb].
  { rewrite last_line_app, last_break_app by exact Hb. destruct Hpre as [-> |(x & ->)]; [now split|]. unfold last_line.
    change (x ++ crlf) with (x ++ [CR] ++ [LF]). rewrite (app_assoc x [CR] [LF]), last_break_snoc. change (is_break LF) with true. cbv iota. split.
    - rewrite drop_ge by (rewrite length_app; cbn; lia). reflexivity.
    - rewrite length_app. cbn [length]. intros [=]. lia. }
  rewrite append_choice.
  - rewrite El, length_app. cbn [length list_ascii_of_string]. rewrite (proj2 (Nat.leb_le _ _)) by lia. now rewrite <- !app_assoc.
  - rewrite !length_app. cbn [length list_ascii_of_string]. lia.
  - rewrite El, length_app. cbn. lia.
  - exact Eb.
Qed.

Section Write.
Context {B : Base64Iterators} {E : RegexEngine} {EL : RegexLaws E}.

(** A plain address is one, and has no name to encode. *)
Lemma split_single v : Forall (fun c => mem_char c ($";,<") = false) v -> mail_address_split v = [v].
Proof.
  unfold mail_address_split. induction 1 as [|c v Hc _ IH]; [reflexivity|]. cbn [split_any]. rewrite IH.
  unfold mem_char in *. cbn [existsb list_ascii_of_string] in *. rewrite !orb_false_iff in *. destruct Hc as (-> & -> & _). reflexivity.
Qed.

Lemma no_bracket v : Forall (fun c => mem_char c ($";,<") = false) v -> perl_search address_re v = None.
Proof.
  intros Hv. pose proof (perl_search_correct address_re v) as H. destruct (perl_search address_re v) as [[[b t] c]|]; [exfalso|reflexivity].
  destruct H as ((rest & ->) & P & _). apply (needs_parses "<") in P.
  - rewrite List.Forall_forall in Hv. specialize (Hv "<"%char). rewrite !in_app_iff in Hv. specialize (Hv (or_intror (or_introl P))). discriminate.
  - do 4 right. left. intros x. apply Ascii.eqb_eq.
Qed.

Lemma write_value_run pre kv :
  header_ok kv -> pre = [] \/ (exists x, pre = x ++ crlf) -> Z.of_nat (length pre) < 2 ^ 61 ->
  write_value (fst kv) (snd kv) (pre ++ fst kv ++ $": ") = Ok (pre ++ as_line (sent kv) ++ blank kv).
Proof.
  intros [[[Hn _] Hv _ _] Hl Ha Hp] Hpre Hs. rewrite fst_sent in Hn. unfold write_value. fold (is_address (fst kv)).
  unfold sent, blank in *. destruct (is_address (fst kv)).
  - cbn [fst snd] in Hv. apply Forall_app in Hv as [Hv _]. specialize (Ha eq_refl). unfold imf_mailaddr_base64inline_encode.
    rewrite (split_single _ Ha). cbn [encode_addresses]. unfold encode_address. rewrite (value_c_str _ Hv), regex_search_perl, (no_bracket _ Ha).
    cbn [mbind result_bind]. assert (as_line (fst kv, snd kv ++ $";") ++ $" " = as_line (fst kv, snd kv ++ $"; ")) as El.
    { unfold as_line. cbn [fst snd]. now rewrite <- !app_assoc. }
    rewrite El in Hl. now rewrite (append_fits pre _ _ Hn Hl Hpre Hs), El.
  - rewrite app_nil_r in *. destruct (str_eqb_spec (fst kv) ($"subject")) as [Ek|_]; [exfalso; apply Hp; rewrite Ek; now left|].
    destruct kv as [k v]. cbn [fst snd] in *. now rewrite (append_fits pre k v Hn Hl Hpre Hs).
Qed.

Definition header_lines (h : headers) : cstring := concat (map (fun kv => as_line (sent kv) ++ blank kv ++ crlf) h).

Lemma write_headers_run h : forall pre,
  Forall header_ok h -> pre = [] \/ (exists x, pre = x ++ crlf) -> Z.of_nat (length pre + 80 * length h) < 2 ^ 61 ->
  write_headers h pre = Ok (pre ++ header_lines h).
Proof.
  induction h as [|[k v] h IH]; intros pre Hh Hpre Hs; unfold header_lines in *; cbn [write_headers map concat]; [now rewrite app_nil_r|].
  inversion_clear Hh as [|? ? Hkv Hh']. cbn [length] in Hs.
  pose proof (write_value_run pre (k, v) Hkv Hpre ltac:(lia)) as Ha. cbn [fst snd] in Ha. rewrite Ha. cbn [mbind result_bind]. rewrite IH.
  - now rewrite <- !app_assoc.
  - exact Hh'.
  - right. now exists (pre ++ as_line (sent (k, v)) ++ blank (k, v)).
  - pose proof (ho_length _ Hkv) as Hl. rewrite !length_app in *. cbn [length crlf]. lia.
Qed.
End Write.

(** *** The body *)

Lemma breaks_last n c : forall s m, exists u, breaks n m (s ++ [c]) = u ++ [c].
Proof.
  induction s as [|x s IH]; intros m; cbn [app breaks].
  - destruct m; [now exists [LF]|now exists []].
  - destruct m; [destruct (IH (n - 1)%nat) as (u & ->); now exists (LF :: x :: u)|destruct (IH m) as (u & ->); now exists (x :: u)].
Qed.

Lemma breaks_no_eq n : forall s m, Forall (fun c => c <> "="%char) s -> Forall (fun c => c <> "="%char) (breaks n m s).
Proof.
  intros s m H. revert m. induction H as [|c s Hc _ IH]; intros m; [constructor|]. destruct m; cbn [breaks]; repeat constructor; (auto || discriminate).
Qed.

Lemma no_eq_digits d : Forall digit d -> Forall (fun c => c <> "="%char) d.
Proof. apply List.Forall_impl. intros c (i & Hi & ->). now apply b64_char_ok. Qed.

Lemma last_quad_padded s : exists d, last_quad (drop (group_end s) s) = d ++ repeat "="%char (missing s) /\ Forall digit d.
Proof.
  pose proof (group_end_rest s) as Hr. pose proof (Nat.mod_upper_bound (length s) 3). unfold missing.
  destruct (drop (group_end s) s) as [|a [|b [|]]]; cbn [length] in Hr; rewrite <- Hr in *; [| | |lia].
  - now exists [].
  - exists (take 2 (quad a NUL NUL)). split; [reflexivity|]. apply Forall_take, quad_digits.
  - exists (take 3 (quad a b NUL)). split; [reflexivity|]. apply Forall_take, quad_digits.
Qed.

(** The text with its line breaks. *)
Definition body_lines (n : nat) (s : cstring) : cstring :=
  breaks n n (base64 (take (group_end s) s)) ++ last_quad (drop (group_end s) s).

Lemma body_lines_encodes n s : s <> [] -> encodes (body_lines n s) s.
Proof.
  intros Hs. pose proof (base64_digits s) as Hd. rewrite base64_groups in Hd. apply Forall_app in Hd as [Hd1 Hd2].
  set (g := base64 (take (group_end s) s)) in *.
  assert (forall l m, Forall (fun c => digit c \/ c = "="%char) l -> List.filter (fun c => negb (isspace c)) (breaks n m l) = l) as Hfb.
  { intros l m Hl. revert m. induction Hl as [|c l Hc _ IH]; intros m; [reflexivity|]. destruct (digit_facts c Hc) as [Hsp _].
    destruct m; cbn [breaks List.filter]; [change (isspace LF) with true; cbn [negb]|]; rewrite Hsp; cbn [negb]; now rewrite IH. }
  split; [|split].
  - unfold body_lines. fold g. rewrite List.filter_app, Hfb by exact Hd1.
    rewrite (base64_groups s). f_equal. pose proof (Hfb _ (length (last_quad (drop (group_end s) s))) Hd2) as H. now rewrite breaks_short in H by lia.
  - unfold body_lines. fold g. destruct (last_quad (drop (group_end s) s)) as [|c l _] eqn:El using rev_ind.
    + rewrite app_nil_r. destruct g as [|c l _] eqn:Eg using rev_ind.
      * exfalso. pose proof (base64_groups s) as Eb. fold g in Eb. rewrite Eg, El in Eb. destruct s as [|a [|b [|c s]]]; [contradiction|discriminate..].
      * destruct (breaks_last n c l n) as (u & ->). exists u, c. split; [reflexivity|]. apply Forall_app in Hd1 as [_ Hc].
        inversion_clear Hc as [|? ? Hc' _]. now apply digit_facts.
    + exists (breaks n n g ++ l), c. split; [now rewrite app_assoc|]. apply Forall_app in Hd2 as [_ Hc].
      inversion_clear Hc as [|? ? Hc' _]. now apply digit_facts.
  - destruct (last_quad_padded s) as (d & Ed & Hdig). exists (breaks n n g ++ d). unfold body_lines. fold g. rewrite Ed, <- app_assoc. split; [reflexivity|].
    apply Forall_app_2; [|now apply no_eq_digits]. apply breaks_no_eq.
    destruct (base64_padded (take (group_end s) s)) as (d' & Ed' & Hd'). fold g in Ed'. unfold missing in Ed'. rewrite group_end_length in Ed'.
    change (repeat "="%char ((3 - 0) mod 3)) with ([] : cstring) in Ed'. rewrite app_nil_r in Ed'. rewrite Ed'. now apply no_eq_digits.
Qed.

(** *** The lines of a text *)

Abbreviation lf_free := (Forall (fun c => (c =c LF) = false)).

Lemma lines_single l : lf_free l -> lines_of l = [l].
Proof. unfold lines_of. induction 1 as [|c l Hc _ IH]; cbn [split_on]; [reflexivity|]. now rewrite Hc, IH. Qed.

Lemma lines_cons l rest : lf_free l -> lines_of (l ++ LF :: rest) = l :: lines_of rest.
Proof.
  unfold lines_of. induction 1 as [|c l Hc _ IH]; cbn [app split_on]; [now rewrite Ascii.eqb_refl|]. now rewrite Hc, IH.
Qed.

Lemma lines_join x : concat (map (fun l => l ++ [LF]) (lines_of x)) = x ++ [LF].
Proof.
  unfold lines_of. induction x as [|c x IH]; [reflexivity|]. cbn [split_on]. destruct (Ascii.eqb_spec c LF) as [->|Hc].
  - cbn [map concat app]. now rewrite IH.
  - destruct (split_on LF x) as [|w ws] eqn:Ex; [destruct x; cbn [split_on] in Ex; repeat case_match; discriminate|].
    cbn [map concat app] in *. now rewrite IH.
Qed.

Lemma split_lf x : lf_free x \/ exists l r, x = l ++ LF :: r /\ lf_free l.
Proof.
  induction x as [|c x IH]; [left; constructor|]. destruct (c =c LF) eqn:Hc.
  - right. apply Ascii.eqb_eq in Hc as ->. exists [], x. split; [reflexivity|constructor].
  - destruct IH as [H|(l & r & -> & Hl)]; [left; now constructor|right]. exists (c :: l), r. split; [reflexivity|now constructor].
Qed.

(** The first line break becomes two characters, which changes nothing for the
    decoder. *)
Lemma encodes_crlf l r s : encodes (l ++ LF :: r) s -> encodes (l ++ crlf ++ r) s.
Proof.
  intros (Hf & (u & c & Eu & Hc) & d & Ed & Hd). split; [|split].
  - rewrite <- Hf, !List.filter_app. reflexivity.
  - destruct r as [|z r _] using rev_ind.
    + apply app_inj_tail in Eu as [_ <-]. discriminate.
    + change (l ++ LF :: (r ++ [z])) with (l ++ (LF :: r) ++ [z]) in Eu. rewrite app_assoc in Eu. apply app_inj_tail in Eu as [_ ->].
      exists (l ++ crlf ++ r), c. split; [now rewrite <- !app_assoc|exact Hc].
  - set (p := repeat "="%char (missing s)) in *. pose proof (f_equal length Ed) as El. rewrite !length_app in El. cbn [length] in El.
    pose proof (f_equal (drop (length d)) Ed) as Ep. rewrite drop_app_length in Ep. assert (length p <= length r)%nat as Hlen.
    { destruct (Nat.leb_spec (length p) (length r)) as [H|H]; [exact H|exfalso]. assert (In LF p) as Hin.
      { rewrite <- Ep, drop_app_le by lia. apply in_app_iff. right. now left. }
      apply repeat_spec in Hin. discriminate. }
    assert (r = take (length r - length p) r ++ p) as Er.
    { rewrite <- (take_drop (length r - length p) r) at 1. f_equal. rewrite <- Ep at 2. rewrite drop_app_ge by lia.
      replace (length d - length l)%nat with (S (length r - length p)) by lia. reflexivity. }
    exists (l ++ crlf ++ take (length r - length p) r). rewrite <- !app_assoc, <- Er. split; [reflexivity|].
    assert (Forall (fun c => c <> "="%char) (l ++ LF :: take (length r - length p) r)) as H.
    { rewrite Er, app_comm_cons, app_assoc in Ed. apply app_inv_tail in Ed. now rewrite Ed. }
    apply Forall_app in H as [H1 H2]. inversion_clear H2. apply Forall_app_2; [exact H1|]. repeat (constructor; [discriminate|]). assumption.
Qed.

Lemma body_lines_chars n s : Forall (fun c => c = LF \/ digit c \/ c = "="%char) (body_lines n s).
Proof.
  pose proof (base64_digits s) as Hd. rewrite base64_groups in Hd. apply Forall_app in Hd as [H1 H2]. apply Forall_app_2.
  - generalize n at 2. induction H1 as [|c l Hc _ IH]; intros m; [constructor|].
    destruct m; cbn [breaks]; [constructor; [now left|]|]; (constructor; [now right|apply IH]).
  - eapply Forall_impl; [exact H2|]. auto.
Qed.

Lemma body_lines_head s : s <> [] -> exists c r, body_lines 78 s = c :: r /\ isspace c = false /\ (c =c LF) = false.
Proof.
  intros Hs. destruct (body_lines_encodes 78 s Hs) as (_ & (u & c & Eu & _) & _).
  assert (forall c, digit c \/ c = "="%char -> isspace c = false /\ (c =c LF) = false) as Hdig.
  { intros x Hx. destruct (digit_facts x Hx) as [H1 _]. split; [exact H1|]. apply Ascii.eqb_neq. intros ->. discriminate. }
  pose proof (base64_digits s) as Hd. rewrite base64_groups in Hd. unfold body_lines in *.
  destruct (base64 (take (group_end s) s)) as [|x g]; cbn [breaks app] in *.
  - destruct (last_quad _) as [|y l]; [now destruct u|]. inversion_clear Hd as [|? ? Hy _]. exists y, l. now split; [|apply Hdig].
  - inversion_clear Hd as [|? ? Hx _]. eexists x, _. split; [reflexivity|now apply Hdig].
Qed.

(** What a server sends behind a mail. *)
Definition mail_end (rest : cstring) : Prop := rest = [] \/ rest = crlf ++ $"." ++ crlf.

(** What the reader takes as the body, and what it decodes. *)
Lemma body_read {B : Base64Iterators} {BL : Base64Laws B} {E : RegexEngine} s h rest :
  s <> [] -> to_lower (header_of transfer h) = $"base64" -> mail_end rest ->
  exists text, read_lines (lines_of (body_lines 78 s ++ rest)) [] h = Ok (h, Some text) /\ decode_body h text = Ok (decoded_bytes s).
Proof.
  intros Hs Hh Hend. pose proof (body_lines_encodes 78 s Hs) as He. destruct (body_lines_head s Hs) as (c & r & Eb & Hc & Hlf).
  assert (forall l0 l ls t rest', lines_of (body_lines 78 s ++ rest) = l0 :: ls -> trim_right_if isspace l0 = c :: l ->
            body_text (c :: l) ls = t ++ rest' -> encodes t s -> Forall (fun c => mem_char c [CR; LF; "."%char] = true) rest' ->
            exists text, read_lines (lines_of (body_lines 78 s ++ rest)) [] h = Ok (h, Some text) /\ decode_body h text = Ok (decoded_bytes s)) as Hgo.
  { intros l0 l ls t rest' El Et Etext Het Hrest. exists (body_text (c :: l) ls). split.
    - rewrite El. cbn [read_lines]. rewrite Et, Hc. reflexivity.
    - unfold decode_body. fold transfer. rewrite Hh, str_eqb_refl, Etext. now rewrite (decode_run t s rest' Het Hs Hrest). }
  assert (forall l r', body_lines 78 s = l ++ r' -> lf_free l -> trim_right_if isspace l = l) as Htrim.
  { intros l r' El Hl. unfold trim_right_if. rewrite drop_while_id; [apply rev_involutive|]. apply List.Forall_rev. apply List.Forall_forall.
    intros x Hx. pose proof (body_lines_chars 78 s) as Hch. rewrite El, List.Forall_forall in Hch. rewrite List.Forall_forall in Hl.
    destruct (Hch x ltac:(apply in_app_iff; now left)) as [->|Hd]; [discriminate (Hl LF Hx)|now apply digit_facts]. }
  destruct (split_lf (body_lines 78 s)) as [Hfree|(l & r' & El & Hfree)].
  - pose proof (Htrim _ [] (eq_sym (app_nil_r _)) Hfree) as Ht. destruct Hend as [-> | ->].
    + rewrite app_nil_r in *. apply (Hgo (c :: r) r [] (body_lines 78 s) crlf); [now rewrite lines_single, Eb|congruence|unfold body_text; now rewrite Eb|exact He|repeat constructor].
    + apply (Hgo (body_lines 78 s ++ [CR]) r (lines_of ($"." ++ crlf)) (body_lines 78 s) (crlf ++ $"." ++ crlf ++ [LF])); [| | |exact He|repeat constructor].
      * change (crlf ++ $"." ++ crlf) with ([CR] ++ LF :: ($"." ++ crlf)). rewrite app_assoc. apply lines_cons, Forall_app_2; [exact Hfree|repeat constructor].
      * unfold trim_right_if in *. rewrite rev_app_distr. cbn [rev app drop_while]. change (isspace CR) with true. cbv iota. now rewrite Ht.
      * unfold body_text. now rewrite Eb.
  - rewrite Eb in El. destruct l as [|c' l]; [injection El as -> _; discriminate|]. injection El as <- El.
    apply (Hgo (c :: l) l (lines_of (r' ++ rest)) ((c :: l) ++ crlf ++ r') (rest ++ [LF])).
    + rewrite Eb, El. change (((c :: l ++ LF :: r') ++ rest)) with ((c :: (l ++ LF :: r') ++ rest)). rewrite <- app_assoc. exact (lines_cons (c :: l) (r' ++ rest) Hfree).
    + apply (Htrim _ (LF :: r')); [now rewrite Eb, El|exact Hfree].
    + unfold body_text. rewrite lines_join. now rewrite <- !app_assoc.
    + apply encodes_crlf. now rewrite Eb, El in He.
    + destruct Hend as [-> | ->]; repeat constructor.
Qed.

(** *** The whole mail *)

Definition transfer_header : cstring * cstring := (transfer, $"base64").

Lemma transfer_ok : line_ok (sent transfer_header).
Proof. split; [split; [repeat constructor|discriminate]|repeat constructor|reflexivity|]. now exists ($"base6"), "4"%char. Qed.

Lemma line_lf_free kv : line_ok (sent kv) -> lf_free (as_line (sent kv) ++ blank kv ++ [CR]).
Proof.
  intros [[Hn _] Hv _ _]. assert (forall s, break_free s -> lf_free s) as H.
  { intros s. apply List.Forall_impl. intros c Hc. unfold mem_char in Hc. cbn [existsb crlf] in Hc. apply orb_false_iff in Hc as [_ Hc].
    now apply orb_false_iff in Hc as [Hc _]. }
  unfold as_line. rewrite !Forall_app. repeat split; [now apply H, name_break_free|repeat constructor|now apply H, value_break_free| |repeat constructor].
  unfold blank. destruct (is_address _); repeat constructor.
Qed.

Lemma header_lines_of hs x : Forall (fun kv => line_ok (sent kv)) hs ->
  lines_of (header_lines hs ++ x) = map (fun kv => as_line (sent kv) ++ blank kv ++ [CR]) hs ++ lines_of x.
Proof.
  unfold header_lines. induction 1 as [|kv hs Hkv _ IH]; [reflexivity|]. cbn [map concat app]. rewrite <- IH, <- (lines_cons _ _ (line_lf_free kv Hkv)).
  f_equal. change crlf with ([CR] ++ [LF]). now rewrite <- !app_assoc.
Qed.

Lemma no_colon_line {E : RegexEngine} {EL : RegexLaws E} s : Forall (fun c => c <> ":"%char) s -> process_line s = Ok None.
Proof.
  intros Hs. unfold process_line. rewrite regex_match_perl. destruct (perl_match line_re (c_str s)) as [c|] eqn:Em; [exfalso|reflexivity].
  apply perl_match_correct, (needs_parses ":") in Em; [|right; left; intros x; apply Ascii.eqb_eq].
  destruct (c_str_split s) as (r & Es & _). rewrite Es in Hs. apply Forall_app in Hs as [Hs _]. rewrite List.Forall_forall in Hs. now apply (Hs _ Em).
Qed.

Lemma header_of_absent k (h t : headers) : ~ In k (map fst h) -> header_of k (h ++ t) = header_of k t.
Proof.
  unfold header_of. induction h as [|kv h IH]; intros Hn; [reflexivity|]. cbn [app List.find map] in *. apply not_in_cons in Hn as [Hk Hn].
  destruct (str_eqb_spec (fst kv) k) as [Ek|_]; [congruence|now apply IH].
Qed.

(** Nothing but the header of the encoding has these names. *)
Lemma written_headers h : Forall header_ok h ->
  ~ In transfer (map fst h) /\ header_of transfer (map sent h ++ [transfer_header]) = $"base64"
  /\ header_of ($"content-type") (map sent h ++ [transfer_header]) = [] /\ header_of ($"subject") (map sent h ++ [transfer_header]) = [].
Proof.
  intros Hh. assert (forall k, In k [$"subject"; $"content-type"; transfer] -> ~ In k (map fst h)) as Hk.
  { intros k Hk Hin. apply in_map_iff in Hin as (kv & <- & Hin). rewrite List.Forall_forall in Hh. now apply (ho_plain _ (Hh kv Hin)). }
  split; [apply Hk; cbn; tauto|]. rewrite !header_of_absent by (rewrite names_sent; apply Hk; cbn; tauto). now split.
Qed.

Section Mail.
Context {B : Base64Iterators} {BL : Base64Laws B} {E : RegexEngine} {EL : RegexLaws E}.

(** The text that is written, and its headers when they are read. *)
Definition mail_text (h : headers) (s : cstring) : cstring := header_lines (h ++ [transfer_header]) ++ crlf ++ body_lines 78 s.
Definition read_as (h : headers) (s : cstring) : mail :=
  Mail (map sent h ++ [transfer_header]) false (inl (match s with [] => [] | _ => decoded_bytes s end)).

Lemma written_mail asserts h s :
  Forall header_ok h -> Z.of_nat (length h) < 2 ^ 32 -> Z.of_nat (length s) < 2 ^ 32 ->
  imf_write_stream asserts (Mail h false (inl s)) = Ok (mail_text h s).
Proof.
  intros Hh Hn Hs. unfold imf_write_stream. cbn [m_multipart m_header m_text]. rewrite andb_false_r, write_headers_run by (auto || cbn [length]; lia).
  cbn [mbind result_bind app]. rewrite encode_lines_run by (lia || exact Hs). cbn [written mbind result_bind]. f_equal.
  unfold mail_text, header_lines. rewrite map_app, concat_app. cbn [map concat]. rewrite app_nil_r, <- !app_assoc. reflexivity.
Qed.

(** The headers behind the rest of the line of the answer. *)
Lemma answer_headers_run h answer rest :
  Forall (fun kv => line_ok (sent kv)) h -> h <> [] -> NoDup (map fst h) -> Forall (fun c => c <> ":"%char) answer -> answer <> [] ->
  read_lines (map (fun kv => as_line (sent kv) ++ blank kv ++ [CR]) h ++ [CR] :: rest) answer [] = read_lines rest [] (map sent h).
Proof.
  intros Hl Hh Hd Hcol Hne. destruct h as [|kv h]; [contradiction|]. inversion Hl as [|? ? Hkv _]; subst. destruct answer as [|c answer']; [contradiction|].
  cbn [map app read_lines]. rewrite (trim_line kv Hkv).
  assert (match as_line (sent kv) with c :: _ => isspace c | [] => false end = false) as ->.
  { destruct Hkv as [[Hnm Hnn] _ _ _]. unfold as_line. destruct (fst (sent kv)) as [|x k]; [contradiction|]. inversion_clear Hnm as [|? ? Hx _].
    unfold name_char in Hx. rewrite !andb_true_iff, !negb_true_iff in Hx. apply Hx. }
  rewrite (no_colon_line _ Hcol). cbn [mbind result_bind]. now rewrite (header_lines_run h kv [] _ Hl).
Qed.

(** The text up to the body. *)
Lemma read_mail_head h s answer rest fuel :
  Forall header_ok h -> NoDup (map fst h) -> lf_free answer -> Forall (fun c => c <> ":"%char) answer -> answer <> [] ->
  imf_read_stream (S fuel) (lines_of (answer ++ [LF] ++ mail_text h s ++ rest))
  = (r ← read_lines (lines_of (body_lines 78 s ++ rest)) [] (map sent h ++ [transfer_header]);
     match r with
     | (h, None) => Ok (Mail h false (inl []))
     | (h, Some body) =>
         text ← decode_body h body;
         match regex_search multipart_re (c_str (header_of ($"content-type") h)) with
         | None => Ok (Mail h false (inl text))
         | Some (_, _, what) =>
             ms ← (fix read_parts (ps : list cstring) : result mail_fault (list mail) :=
                     match ps with
                     | [] => Ok []
                     | p :: ps' => m ← imf_read_stream fuel (lines_of p); ms ← read_parts ps'; Ok (m :: ms)
                     end) (mime_parts (sub_match what 0) (lines_of text) false []);
             Ok (Mail h true (inr ms))
         end
     end).
Proof.
  intros Hh Hd Hlf Hcol Hne. destruct (written_headers h Hh) as (Ht & _). unfold mail_text. set (hs := h ++ [transfer_header]).
  assert (Forall (fun kv => line_ok (sent kv)) hs) as Hl.
  { apply Forall_app_2; [eapply Forall_impl; [exact Hh|apply ho_line]|]. constructor; [apply transfer_ok|constructor]. }
  assert (NoDup (map fst hs)) as Hd'.
  { unfold hs. rewrite map_app. apply NoDup_app. split; [exact Hd|]. split; [|apply NoDup_singleton]. intros x Hx Hx'.
    apply list_elem_of_singleton in Hx' as ->. now apply Ht, list_elem_of_In. }
  cbn [app]. rewrite (lines_cons _ _ Hlf), <- !app_assoc, (header_lines_of hs _ Hl).
  change (lines_of (crlf ++ body_lines 78 s ++ rest)) with ([CR] :: lines_of (body_lines 78 s ++ rest)). cbn [imf_read_stream].
  rewrite (answer_headers_run hs answer _ Hl) by (exact Hd' || exact Hcol || exact Hne || (unfold hs; now destruct h)).
  unfold hs. now rewrite map_app.
Qed.

Lemma read_run h s answer rest fuel :
  Forall header_ok h -> NoDup (map fst h) -> lf_free answer -> Forall (fun c => c <> ":"%char) answer -> answer <> [] ->
  mail_end rest -> s <> [] \/ rest = [] ->
  imf_read_stream (S fuel) (lines_of (answer ++ [LF] ++ mail_text h s ++ rest)) = Ok (read_as h s).
Proof.
  intros Hh Hd Hlf Hcol Hne Hend Hs. rewrite read_mail_head by assumption. destruct (written_headers h Hh) as (Ht & Htv & Hct & _). destruct s as [|c s].
  - destruct Hs as [Hs| ->]; [contradiction|reflexivity].
  - destruct (body_read (c :: s) (map sent h ++ [transfer_header]) rest) as (text & -> & Etext); [discriminate|now rewrite Htv|exact Hend|].
    cbn [mbind result_bind]. rewrite Etext. cbn [mbind result_bind]. rewrite Hct, regex_search_perl. reflexivity.
Qed.
End Mail.

(** A mail that was written can be read.  A mail with plain headers, plain
    addresses and a text, written by [imf_write_stream] and received behind the
    line of a server's answer and before the end of a mail, is read with these
    headers, in order, a semicolon behind each address, and with the text as
    [base64_decode] leaves it: the same text when it is empty or its length is a
    multiple of three, and otherwise with wrong bytes at its end. *)
Theorem mail_roundtrip {B : Base64Iterators} {BL : Base64Laws B} {E : RegexEngine} {EL : RegexLaws E}
    (asserts : bool) (h : headers) (s answer rest : cstring) (fuel : nat) :
  Forall header_ok h -> NoDup (map fst h) -> Z.of_nat (length h) < 2 ^ 32 -> Z.of_nat (length s) < 2 ^ 32 ->
  lf_free answer -> Forall (fun c => c <> ":"%char) answer -> answer <> [] -> mail_end rest -> s <> [] \/ rest = [] ->
  exists text, imf_write_stream asserts (Mail h false (inl s)) = Ok text
    /\ imf_read_stream (S fuel) (lines_of (answer ++ [LF] ++ text ++ rest))
       = Ok (Mail (map sent h ++ [transfer_header]) false (inl (match s with [] => [] | _ => decoded_bytes s end))).
Proof. intros. exists (mail_text h s). split; [now apply written_mail|now apply read_run]. Qed.

Lemma mail_roundtrip_witness :
  exists text, imf_write_stream true (Mail [($"to", $"a@b.c"); ($"x-mailer", $"avbot")] false (inl ($"abcdef"))) = Ok text
    /\ imf_read_stream 1 (lines_of ($" 120 octets" ++ [CR] ++ [LF] ++ text ++ crlf ++ $"." ++ crlf))
       = Ok (Mail [($"to", $"a@b.c;"); ($"x-mailer", $"avbot"); transfer_header] false (inl ($"abcdef"))).
Proof.
  apply (mail_roundtrip true [($"to", $"a@b.c"); ($"x-mailer", $"avbot")] ($"abcdef") ($" 120 octets" ++ [CR]) (crlf ++ $"." ++ crlf) 0).
  - constructor; [|constructor; [|apply List.Forall_nil]]; split.
    + split; [split; [repeat constructor|discriminate]|repeat constructor|reflexivity|]. now exists ($"a@b.c"), ";"%char.
    + cbn. lia.
    + repeat constructor.
    + intros [Hk|[Hk|[Hk|[]]]]; discriminate Hk.
    + split; [split; [repeat constructor|discriminate]|repeat constructor|reflexivity|]. now exists ($"avbo"), "t"%char.
    + cbn. lia.
    + discriminate.
    + intros [Hk|[Hk|[Hk|[]]]]; discriminate Hk.
  - apply NoDup_cons. split; [|apply NoDup_singleton]. intros Hin. apply list_elem_of_singleton in Hin. discriminate.
  - reflexivity.
  - reflexivity.
  - repeat constructor.
  - repeat (constructor; [discriminate|]). constructor.
  - discriminate.
  - now right.
  - left. discriminate.
Defined.

(** A header whose value was put on the next line is lost: when the lines are
    joined, no white space is left behind its name. *)
Theorem folded_header_lost {E : RegexEngine} {EL : RegexLaws E} (c : ascii) (v : cstring) :
  isspace c = false -> (c =c NUL) = false -> process_line ($"subject:" ++ c :: v) = Ok None.
Proof.
  intros Hc Hn. unfold process_line. rewrite regex_match_perl.
  assert (exists v', c_str ($"subject:" ++ c :: v) = $"subject:" ++ c :: v') as (v' & ->).
  { unfold c_str. cbn [list_ascii_of_string app span Ascii.eqb Bool.eqb negb]. rewrite Hn. cbn [negb]. destruct (span _ v) as [a b]. now exists a. }
  assert ((c =c " ") || (c =c TAB) = false) as Hsp.
  { destruct (Ascii.eqb_spec c " ") as [->|_]; [discriminate|]. destruct (Ascii.eqb_spec c TAB) as [->|_]; [discriminate|reflexivity]. }
  unfold perl_match, line_re, Plus.
  cbn [list_ascii_of_string app lit match_at star_at not_char Ascii.eqb Bool.eqb negb groups Nat.add replicate]. now rewrite Hsp.
Qed.

(** A mail without a text cannot be read when it comes from a server: the end of
    the mail is taken for its text, and nothing of it is left when it is decoded. *)
Theorem empty_mail_fails {B : Base64Iterators} {E : RegexEngine} {EL : RegexLaws E} (h : headers) (answer : cstring) (fuel : nat) :
  Forall header_ok h -> NoDup (map fst h) -> lf_free answer -> Forall (fun c => c <> ":"%char) answer -> answer <> [] ->
  imf_read_stream (S fuel) (lines_of (answer ++ [LF] ++ mail_text h [] ++ crlf ++ $"." ++ crlf)) = Err (BadBase64 EmptyText).
Proof.
  intros Hh Hd Hlf Hcol Hne. rewrite read_mail_head by assumption. destruct (written_headers h Hh) as (_ & Htv & _).
  cbn [body_lines]. change (body_lines 78 []) with ([] : cstring). cbn [app].
  set (hs := map sent h ++ [transfer_header]) in *.
  change (read_lines (lines_of (crlf ++ $"." ++ crlf)) [] hs) with (Ok (hs, Some ($"." ++ crlf ++ [LF])) : result mail_fault (headers * option cstring)).
  cbn [mbind result_bind]. unfold decode_body. fold transfer. rewrite Htv. reflexivity.
Qed.
