(* ===== verification/MailReading.v ===== *)
(** Theorems on the end of the reading of a mail: the parts of a mail are shorter
    than the mail, so a fuel above its length is never used up. *)

From S2P Require Import Prelude CLib EscapeString Settings Regex Base64 PTree Avbot MailFormat MailFacts.

(** ** Lengths *)

(** The characters of lines, each with its line feed. *)
Definition total (ls : list cstring) : nat := fold_right (fun l n => length l + 1 + n)%nat 0%nat ls.

Lemma total_lines s : total (lines_of s) = S (length s).
Proof.
  unfold lines_of. induction s as [|c s IH]; [reflexivity|]. cbn [split_on length]. destruct (c =c LF); [cbn [total fold_right length] in *; unfold total in *; lia|].
  destruct (split_on LF s) as [|w ws]; cbn [total fold_right length] in *; lia.
Qed.

Lemma trim_right_length p s : (length (trim_right_if p s) <= length s)%nat.
Proof. unfold trim_right_if. pose proof (drop_while_length p (rev s)) as H. rewrite length_rev in *. lia. Qed.

Lemma trim_length s : (length (trim s) <= length s)%nat.
Proof. pose proof (trim_right_length isspace (trim_left_if isspace s)). pose proof (drop_while_length isspace s). unfold trim, trim_left_if in *. lia. Qed.

Lemma body_text_length line rest : length (body_text line rest) = (length line + 2 + total rest)%nat.
Proof.
  unfold body_text. rewrite !length_app, <- Nat.add_assoc. f_equal. f_equal.
  induction rest as [|l rest IH]; [reflexivity|]. cbn [map concat]. rewrite !length_app, IH. reflexivity.
Qed.

(** A part lies between two boundaries. *)
Lemma mime_parts_length b ls : forall inside part p,
  In p (mime_parts b ls inside part) -> (length p + (if inside then 3 else 6) <= (if inside then length part else 0) + total ls)%nat.
Proof.
  assert (forall l t, trim l = $"--" ++ t -> (2 <= length l)%nat) as Hb.
  { intros l t El. pose proof (trim_length l) as H. rewrite El, length_app in H. cbn in H. lia. }
  induction ls as [|l ls IH]; intros inside part p; cbn [mime_parts]; [now destruct inside|]. cbn [total fold_right]. fold (total ls). destruct inside.
  - destruct (str_eqb (trim l) ($"--" ++ b) || str_eqb (trim l) ($"--" ++ b ++ $"--")) eqn:El.
    + assert (2 <= length l)%nat as Hl by (apply orb_true_iff in El as [El|El]; apply str_eqb_eq in El; eapply Hb; exact El).
      intros [<-|Hp]; [lia|]. apply IH in Hp. cbn [length] in Hp. lia.
    + intros Hp. apply IH in Hp. rewrite !length_app in Hp. cbn [length] in Hp. lia.
  - destruct (str_eqb (trim l) ($"--" ++ b)) eqn:El; intros Hp; apply IH in Hp; cbn [length] in Hp; [|lia].
    apply str_eqb_eq, Hb in El. lia.
Qed.

Section Reading.
Context {B : Base64Iterators} {BL : Base64Laws B} {E : RegexEngine} {EL : RegexLaws E} {L : Locale}.

Lemma read_lines_ends ls : forall pre h,
  read_lines ls pre h <> Err NoFuel
  /\ forall h' body, read_lines ls pre h = Ok (h', Some body) -> (length body <= S (total ls))%nat.
Proof.
  induction ls as [|l ls IH]; intros pre h; cbn [read_lines]; [split; discriminate|].
  cbn [total fold_right]. fold (total ls). pose proof (trim_right_length isspace l) as Hl. set (line := trim_right_if isspace l) in *.
  assert (forall pre h, read_lines ls pre h <> Err NoFuel
          /\ forall h' body, read_lines ls pre h = Ok (h', Some body) -> (length body <= S (length l + 1 + total ls))%nat) as Hrec.
  { intros pre' h1. destruct (IH pre' h1) as (H1 & H2). split; [exact H1|]. intros h' body Hr. apply H2 in Hr. lia. }
  destruct (match line with c :: _ => isspace c | [] => false end); [apply Hrec|].
  destruct pre as [|c pre].
  - destruct line as [|d line'] eqn:El; [apply Hrec|]. split; [discriminate|]. intros h' body [= _ <-]. rewrite body_text_length. lia.
  - destruct (process_line (c :: pre)) as [kv|e] eqn:Ep; cbn [mbind result_bind]; [apply Hrec|]. split; [|discriminate].
    intros [= ->]. revert Ep. unfold process_line. destruct (regex_match line_re (c_str (c :: pre))) as [what|]; [|discriminate].
    pose proof (inline_decode_terminates (sub_match what 1)) as Hi. destruct (imf_base64inline_decode (sub_match what 1)); cbn; congruence.
Qed.

Lemma strip_end_length r t : strip_end r = Ok t -> (length t <= length r)%nat.
Proof.
  induction r as [|c r IH]; cbn [strip_end]; [discriminate|]. destruct (mem_char c _); [intros H; apply IH in H; cbn; lia|].
  intros [= <-]. rewrite length_app, length_rev. cbn [length]. lia.
Qed.

Lemma decode_body_ends h body : decode_body h body <> Err NoFuel /\ forall t, decode_body h body = Ok t -> (length t <= length body)%nat.
Proof.
  unfold decode_body. destruct (str_eqb _ _); [|split; [discriminate|now intros t [= <-]]].
  destruct (base64_decode body) as [t|e] eqn:Ed; [|split; discriminate]. split; [discriminate|]. intros t' [= <-]. revert Ed. unfold base64_decode.
  destruct (strip_end (rev body)) as [u|] eqn:Eu; cbn [mbind result_bind]; [|discriminate]. apply strip_end_length in Eu. rewrite length_rev in Eu.
  destruct (shrik_map !! padding u) as [n|]; [|discriminate]. destruct (binary_from_base64 u) as [r|] eqn:Er; [|discriminate].
  apply from_base64_length in Er. unfold erase_end. destruct (_ <=? _)%nat eqn:Hn; [|discriminate]. intros [= <-]. apply Nat.leb_le in Hn.
  rewrite length_app, length_take, length_drop. lia.
Qed.

(** The nested parts. *)
Lemma imf_read_ends fuel : forall s, (length s < fuel)%nat -> imf_read_stream fuel (lines_of s) <> Err NoFuel.
Proof.
  induction fuel as [|fuel IH]; intros s Hs; [lia|]. cbn [imf_read_stream]. pose proof (total_lines s) as Ht.
  destruct (lines_of s) as [|pre ls]; [discriminate|]. cbn [total fold_right] in Ht. fold (total ls) in Ht.
  destruct (read_lines_ends ls pre []) as (H1 & H2). destruct (read_lines ls pre []) as [[h [body|]]|e]; cbn [mbind result_bind]; [|discriminate|congruence].
  specialize (H2 h body eq_refl). destruct (decode_body_ends h body) as (H3 & H4).
  destruct (decode_body h body) as [text|e]; cbn [mbind result_bind]; [|congruence]. specialize (H4 text eq_refl).
  destruct (regex_search multipart_re _) as [[[b m] what]|]; [|discriminate].
  assert (forall p, In p (mime_parts (sub_match what 0) (lines_of text) false []) -> (length p < fuel)%nat) as Hp.
  { intros p Hp. apply mime_parts_length in Hp. rewrite total_lines in Hp. lia. }
  revert Hp. generalize (mime_parts (sub_match what 0) (lines_of text) false []). intros ps Hp.
  match goal with |- (mbind _ (?f ps)) <> _ => assert (f ps <> Err NoFuel) as Hf end.
  { induction ps as [|p ps IHp]; [discriminate|]. pose proof (IH p (Hp p (or_introl eq_refl))) as Hq.
    destruct (imf_read_stream fuel (lines_of p)); cbn [mbind result_bind]; [|congruence].
    specialize (IHp (fun q Hq => Hp q (or_intror Hq))). destruct (_ ps); cbn [mbind result_bind]; congruence. }
  match goal with |- (mbind _ (?f ps)) <> _ => destruct (f ps) end; cbn [mbind result_bind]; congruence.
Qed.

Lemma charset_ends body ct : decode_content_charset body ct <> Err NoFuel.
Proof. unfold decode_content_charset, ansi_utf8. destruct (regex_search _ _) as [[[? ?] ?]|]; [|discriminate]. now destruct (to_utf8 _ _). Qed.

Lemma select_best_ends : forall m, select_best m <> Err NoFuel.
Proof.
  fix IH 1. intros [h multipart body]. cbn [select_best].
  assert (forall want ms, (forall v, In v ms -> select_best v <> Err NoFuel) ->
    (fix go (ms : list mail) : result mail_fault (option (cstring * cstring)) :=
      match ms with
      | [] => Ok None
      | v :: ms' =>
          if m_multipart v then r ← select_best v; Ok (Some r)
          else if str_eqb (find_mimetype (header_of ($"content-type") (m_header v))) want
          then t ← get_text v; Ok (Some (header_of ($"content-type") (m_header v), t))
          else go ms'
      end) ms <> Err NoFuel) as Hgo.
  { intros want. induction ms as [|v ms IHm]; intros Hv; [discriminate|]. pose proof (Hv v (or_introl eq_refl)).
    destruct (m_multipart v); [destruct (select_best v); cbn [mbind result_bind]; congruence|].
    destruct (str_eqb _ want); [|apply IHm; intros w Hw; apply Hv; now right]. unfold get_text. destruct (m_text v); discriminate. }
  destruct multipart, body as [t|ms]; try discriminate.
  - assert (forall v, In v ms -> select_best v <> Err NoFuel) as Hv.
    { induction ms as [|v ms IHm]; [intros v []|]. intros w [<-|Hw]; [apply IH|now apply IHm]. }
    pose proof (Hgo ($"text/plain") ms Hv) as G1. pose proof (Hgo ($"text/html") ms Hv) as G2.
    match goal with |- (mbind _ (?f ms)) <> _ => destruct (f ms) as [[r|]|] end; cbn [mbind result_bind]; [discriminate| |congruence].
    match goal with |- (mbind _ (?f ms)) <> _ => destruct (f ms) end; cbn [mbind result_bind]; congruence.
  - pose proof (charset_ends t (header_of ($"content-type") h)). destruct (decode_content_charset t _); cbn [mbind result_bind]; congruence.
Qed.

(** The reading of a mail comes to an end.  Whatever the server sends, with
    headers that contain encoded words, and parts in parts in any coding, a fuel
    above the length of the text is never used up: the content of the mail, or a
    real failure of the code, is the result. *)
Theorem read_mail_terminates (fuel : nat) (stream : cstring) : (length stream < fuel)%nat -> read_mail fuel stream <> Err NoFuel.
Proof.
  intros Hf. unfold read_mail, select_content. pose proof (imf_read_ends fuel stream Hf) as H1.
  destruct (imf_read_stream fuel (lines_of stream)) as [imf|]; cbn [mbind result_bind]; [|congruence]. pose proof (select_best_ends imf) as H2.
  destruct (select_best imf) as [mc|]; cbn [mbind result_bind]; [|congruence]. pose proof (charset_ends (snd mc) (fst mc)) as H3.
  destruct (decode_content_charset (snd mc) (fst mc)); cbn [mbind result_bind]; congruence.
Qed.
End Reading.

Lemma read_mail_terminates_witness :
  read_mail (L := Build_Locale (fun s _ => Some s)) 100 ($" ok" ++ crlf ++ $"subject: =?a?=" ++ crlf ++ crlf ++ $"text") <> Err NoFuel.
Proof. apply (read_mail_terminates (L := Build_Locale (fun s _ => Some s)) 100). apply Nat.ltb_lt. vm_compute. reflexivity. Defined.
