(* ===== verification/Smtp.v ===== *)
(** Sending mail, libmailexchange/smtp.hpp and smtp.cpp: the class
    [mx::detail::smtp] with the coroutine that talks to the server, and
    [send_rcpt_tos_op].

    The coroutine is always suspended behind one operation, the member [smtp_at]
    of the state; [handle_smtp] ends it with an outcome.  The object is copied into
    each handler, so a mail that is being sent has a state of its own; what was
    written to the server is recorded, with the way it took.  The stream of TLS
    holds a reference to the socket it was made on, and every attempt makes a new
    socket: sockets are numbered, so that an operation on a stream whose socket is
    gone is a fault. *)

From S2P Require Import Prelude CLib EscapeString Settings Regex Base64 PTree Avbot MailFormat.

(** ** State *)

(** The exchanges of a session: what is sent, what must be answered. *)
Inductive stage : Type := Welcome | Ehlo | StartTls | Auth | MailFrom | DataCommand | Content.

(** [Checked] is the posted call behind the check of an answer, [RcptStart] and
    [RcptDone] the posted calls around [send_rcpt_tos_op], [Waiting] the delay
    before a new attempt. *)
Inductive smtp_point : Type :=
| Connecting
| Writing (p : stage)
| Reading (p : stage)
| Checked (p : stage) (ok : bool)
| Handshaking
| RcptStart
| RcptWriting (i sended_rcpt : nat) (second : bool)
| RcptReading (i sended_rcpt : nat) (second : bool)
| RcptDone (sended_rcpt : nat)
| Waiting (seconds : Z)
| SmtpEnded.

Record smtp : Type := Smtp {
  m_mailaddr : cstring;
  m_mailserver : cstring;
  m_AUTH : cstring;
  m_imf : mail;
  m_readbuf : cstring;
  m_writebuf : cstring;
  (** The number of the socket; the one that the stream of TLS refers to. *)
  m_socket : nat;
  m_sslsocket : option nat;
  rcpts : list cstring;
  retry_count : Z;
  smtp_at : smtp_point;
  (** What was written, and whether through TLS; the calls of the handler, [true]
      without an error. *)
  wire : list (bool * cstring);
  handler_calls : list bool
}.

Definition set_smtp_at (p : smtp_point) (s : smtp) : smtp :=
  Smtp (m_mailaddr s) (m_mailserver s) (m_AUTH s) (m_imf s) (m_readbuf s) (m_writebuf s) (m_socket s) (m_sslsocket s) (rcpts s) (retry_count s) p
    (wire s) (handler_calls s).
Definition set_readbuf (b : cstring) (s : smtp) : smtp :=
  Smtp (m_mailaddr s) (m_mailserver s) (m_AUTH s) (m_imf s) b (m_writebuf s) (m_socket s) (m_sslsocket s) (rcpts s) (retry_count s) (smtp_at s)
    (wire s) (handler_calls s).
Definition set_writebuf (b : cstring) (s : smtp) : smtp :=
  Smtp (m_mailaddr s) (m_mailserver s) (m_AUTH s) (m_imf s) (m_readbuf s) b (m_socket s) (m_sslsocket s) (rcpts s) (retry_count s) (smtp_at s)
    (wire s) (handler_calls s).
Definition reset_socket (s : smtp) : smtp :=
  Smtp (m_mailaddr s) (m_mailserver s) (m_AUTH s) (m_imf s) (m_readbuf s) (m_writebuf s) (S (m_socket s)) (m_sslsocket s) (rcpts s) (retry_count s)
    (smtp_at s) (wire s) (handler_calls s).
Definition reset_sslsocket (s : smtp) : smtp :=
  Smtp (m_mailaddr s) (m_mailserver s) (m_AUTH s) (m_imf s) (m_readbuf s) (m_writebuf s) (m_socket s) (Some (m_socket s)) (rcpts s) (retry_count s)
    (smtp_at s) (wire s) (handler_calls s).
Definition set_retry_count (n : Z) (s : smtp) : smtp :=
  Smtp (m_mailaddr s) (m_mailserver s) (m_AUTH s) (m_imf s) (m_readbuf s) (m_writebuf s) (m_socket s) (m_sslsocket s) (rcpts s) n (smtp_at s)
    (wire s) (handler_calls s).
Definition add_wire (tls : bool) (t : cstring) (s : smtp) : smtp :=
  Smtp (m_mailaddr s) (m_mailserver s) (m_AUTH s) (m_imf s) (m_readbuf s) (m_writebuf s) (m_socket s) (m_sslsocket s) (rcpts s) (retry_count s) (smtp_at s)
    (wire s ++ [(tls, t)]) (handler_calls s).
Definition call_smtp_handler (ok : bool) (s : smtp) : smtp :=
  Smtp (m_mailaddr s) (m_mailserver s) (m_AUTH s) (m_imf s) (m_readbuf s) (m_writebuf s) (m_socket s) (m_sslsocket s) (rcpts s) (retry_count s) SmtpEnded
    (wire s) (handler_calls s ++ [ok]).

(** [if( m_sslsocket )], and whether its socket was destroyed. *)
Definition has_stream (s : smtp) : bool := match m_sslsocket s with Some _ => true | None => false end.
Definition stale_stream (s : smtp) : bool := match m_sslsocket s with Some k => negb (k =? m_socket s)%nat | None => false end.

(** A mail that cannot be written, and an operation on a destroyed socket. *)
Inductive smtp_fault : Type := Unwritable (e : mail_fault) | DanglingSocket.

Section Smtp.
Context {B : Base64Iterators} {E : RegexEngine}.
Variable asserts : bool.

Abbreviation A := (st smtp smtp_fault).

(** ** Construction *)

(** The token for [AUTH PLAIN]. *)
Definition auth_token (user passwd : cstring) : option cstring := base64_encode ([NUL] ++ user ++ [NUL] ++ passwd).

(** [substr(find_last_of("@") + 1)], behind a test for the character. *)
Definition default_server (prefix user : cstring) : cstring :=
  match last_of "@" user with Some i => prefix ++ drop (S i) user | None => prefix ++ $"qq.com" end.

Definition port_re : regex := Seq (Group (Star any_char)) (lit ($":") (Group (Plus isdigit))).

(** Host and port for the connection. *)
Definition server_query (mailserver : cstring) : cstring * cstring :=
  match regex_search port_re (c_str mailserver) with
  | Some (_, _, what) => (sub_match what 0, sub_match what 1)
  | None => (mailserver, $"25")
  end.

(** ** Answers *)

(** [trim_right] and [getline] on the buffer; what is behind the line with the
    last answer stays in it. *)
Definition code_re (sep : ascii) (code : Z) : regex := lit (itoa code ++ [sep]) (Opt (Group (Star any_char))).

Fixpoint join_lines (ls : list cstring) : cstring :=
  match ls with [] => [] | [l] => l | l :: ls' => l ++ [LF] ++ join_lines ls' end.

(** Whether the answer is right, the texts for the callback, the lines left. *)
Fixpoint check_lines (code : Z) (ls : list cstring) : bool * list cstring * list cstring :=
  match ls with
  | [] => (false, [], [])
  | l :: ls' =>
      let line := trim_right_if isspace l in
      match line with
      | [] => check_lines code ls'
      | _ =>
          match regex_match (code_re " " code) (c_str line) with
          | Some what => (true, [sub_match what 0], ls')
          | None =>
              match regex_match (code_re "-" code) (c_str line) with
              | Some what => let '(ok, caps, rest) := check_lines code ls' in (ok, sub_match what 0 :: caps, rest)
              | None => (false, [], ls')
              end
          end
      end
  end.

Definition server_cap_handler (cap : cstring) (s : smtp) : smtp :=
  if str_eqb cap ($"STARTTLS") then reset_sslsocket s else s.

(** [check_smtp_response], with the callback of [check_server_cap]. *)
Definition check_smtp_response (callback : bool) (code : Z) : A bool :=
  s ← st_get;
  let '(ok, caps, rest) := check_lines code (lines_of (m_readbuf s)) in
  st_modify (set_readbuf (join_lines rest)) ;;
  (if callback then st_modify (fun s => fold_left (fun s c => server_cap_handler c s) caps s) else mret ()) ;;
  mret ok.

(** The expression that ends a read. *)
Definition response_re : regex := Seq (Lazy isdigit) (lit ($" ") (Seq (Lazy any_char) (lit [LF] nothing))).

(** ** The session *)

Definition expected (p : stage) : Z :=
  match p with Welcome => 220 | Ehlo => 250 | StartTls => 220 | Auth => 235 | MailFrom => 250 | DataCommand => 354 | Content => 250 end.

(** The stages that use the encrypted stream when there is one. *)
Definition encrypted (p : stage) : bool := match p with Welcome | Ehlo | StartTls => false | _ => true end.
Definition through_tls (p : stage) (s : smtp) : bool := encrypted p && has_stream s.

(** The points at which an operation of the stream, or of its socket, is started. *)
Definition uses_stream (p : smtp_point) : bool :=
  match p with
  | Writing q | Reading q => encrypted q
  | Handshaking | RcptStart | RcptWriting _ _ _ | RcptReading _ _ _ | RcptDone _ => true
  | _ => false
  end.

(** The coroutine starts an operation and returns. *)
Definition suspend (p : smtp_point) : A () :=
  s ← st_get;
  if uses_stream p && stale_stream s then st_fail DanglingSocket else st_modify (set_smtp_at p).

(** What is put into the buffer before a write. *)
Definition stage_text (p : stage) (s : smtp) : result smtp_fault cstring :=
  match p with
  | Welcome => Ok []
  | Ehlo => Ok ($"EHLO " ++ m_mailserver s ++ crlf)
  | StartTls => Ok ($"STARTTLS" ++ crlf)
  | Auth => Ok ($"AUTH PLAIN " ++ m_AUTH s ++ crlf)
  | MailFrom => Ok ($"MAIL FROM: <" ++ m_mailaddr s ++ $">" ++ crlf)
  | DataCommand => Ok ($"DATA" ++ crlf)
  | Content =>
      match imf_write_stream asserts (m_imf s) with
      | Ok t => Ok (t ++ crlf ++ $"." ++ crlf)
      | Err e => Err (Unwritable e)
      end
  end.

Definition begin (p : stage) : A () :=
  s ← st_get;
  t ← st_lift (stage_text p s);
  st_modify (set_writebuf (m_writebuf s ++ t)) ;;
  suspend (Writing p).

(** The handler was called with an error. *)
Definition failed : A () :=
  s ← st_get;
  st_modify (set_retry_count (int32 (retry_count s + 1))) ;;
  if retry_count s <=? 20 then st_modify (fun s => set_smtp_at (Waiting (int32 (retry_count s * 10 + 20))) s)
  else st_modify (call_smtp_handler false).

(** The head of the coroutine: a new socket in place of the old one. *)
Definition connect_smtp : A () := st_modify reset_socket ;; suspend Connecting.

(** After the answer of a stage. *)
Definition next_stage (p : stage) : A () :=
  s ← st_get;
  match p with
  | Welcome => begin Ehlo
  | Ehlo => if has_stream s then begin StartTls else begin Auth
  | StartTls => suspend Handshaking
  | Auth => begin MailFrom
  | MailFrom => suspend RcptStart
  | DataCommand => begin Content
  | Content => st_modify (call_smtp_handler true)
  end.

(** *** [send_rcpt_tos_op] *)

Definition rcpt_text (second : bool) (r : cstring) : cstring :=
  if second then $"rcpt to: <" ++ r ++ $">" ++ crlf else $"rcpt to: " ++ r ++ crlf.

(** The head of its loop. *)
Definition rcpt_loop (i sended_rcpt : nat) : A () :=
  s ← st_get;
  suspend (if (i <? length (rcpts s))%nat then RcptWriting i sended_rcpt false else RcptDone sended_rcpt).

(** *** The end of an operation *)

Inductive smtp_outcome : Type := Success | Failure (written : nat) | Received (data : cstring).

Definition write_done (tls : bool) (text : cstring) (o : smtp_outcome) : A () :=
  match o with Failure n => st_modify (add_wire tls (take n text)) | _ => st_modify (add_wire tls text) end.

Definition received (o : smtp_outcome) : cstring := match o with Received d => d | _ => [] end.

Definition is_failure (o : smtp_outcome) : bool := match o with Failure _ => true | _ => false end.

(** The coroutine of [send_rcpt_tos_op]; an error ends its loop. *)
Definition handle_rcpt (o : smtp_outcome) : A () :=
  s ← st_get;
  match smtp_at s with
  | RcptStart => rcpt_loop 0 0
  | RcptWriting i n second =>
      write_done (has_stream s) (rcpt_text second (nth i (rcpts s) [])) o ;;
      suspend (if is_failure o then RcptDone n else RcptReading i n second)
  | RcptReading i n second =>
      if is_failure o then suspend (RcptDone n)
      else
        st_modify (set_readbuf (m_readbuf s ++ received o)) ;;
        ok ← check_smtp_response false 250;
        if (ok : bool) then rcpt_loop (S i) (S n)
        else if (second : bool) then rcpt_loop (S i) n
        else suspend (RcptWriting i n true)
  | _ => mret ()
  end.

Definition handle_smtp (o : smtp_outcome) : A () :=
  s ← st_get;
  match smtp_at s with
  | Connecting => if is_failure o then failed else st_modify (set_readbuf []) ;; suspend (Reading Welcome)
  | Writing p =>
      write_done (through_tls p s) (m_writebuf s) o ;;
      st_modify (set_writebuf (match o with Failure n => drop n (m_writebuf s) | _ => [] end)) ;;
      if is_failure o then failed else suspend (Reading p)
  | Reading p =>
      if is_failure o then failed
      else
        st_modify (set_readbuf (m_readbuf s ++ received o)) ;;
        ok ← check_smtp_response (match p with Ehlo => true | _ => false end) (expected p);
        suspend (Checked p ok)
  | Checked p ok => if ok then next_stage p else failed
  | Handshaking => if is_failure o then failed else begin Auth
  | RcptStart | RcptWriting _ _ _ | RcptReading _ _ _ => handle_rcpt o
  | RcptDone n => if (n =? 0)%nat then failed else begin DataCommand
  | Waiting _ => connect_smtp
  | SmtpEnded => mret ()
  end.

Fixpoint smtp_run (os : list smtp_outcome) : A () :=
  match os with [] => mret () | o :: os' => handle_smtp o ;; smtp_run os' end.

(** ** Sending a mail *)

Definition address_char (c : ascii) : bool := isalnum c || mem_char c ($"._-").
Definition rcpt_re : regex := Seq (Star address_char) (lit ($"@") (Star address_char)).

(** The addresses of the header; texts without one are skipped. *)
Definition recipients (to : cstring) : list cstring :=
  omap (fun mail => match regex_search rcpt_re (c_str mail) with Some (_, t, _) => Some t | None => None end) (mail_address_split to).

(** The object: its recipients stay from one mail to the next. *)
Record smtp_object : Type := SmtpObject { o_mailaddr : cstring; o_mailserver : cstring; o_AUTH : cstring; o_rcpts : list cstring }.

(** [None] is the exception of [header.at("to")]. *)
Definition async_sendmail (imf : mail) (o : smtp_object) : option (smtp_object * smtp) :=
  match List.find (fun kv => str_eqb (fst kv) ($"to")) (m_header imf) with
  | None => None
  | Some kv =>
      let rs := o_rcpts o ++ recipients (snd kv) in
      Some (SmtpObject (o_mailaddr o) (o_mailserver o) (o_AUTH o) rs,
            Smtp (o_mailaddr o) (o_mailserver o) (o_AUTH o) imf [] [] 1 None rs 0 Connecting [] [])
  end.

Definition new_smtp (user passwd mailserver : cstring) : option smtp_object :=
  a ← auth_token user passwd;
  Some (SmtpObject user (match mailserver with [] => default_server ($"smtp.") user | _ => mailserver end) a []).
End Smtp.
