(* ===== verification/SmtpFacts.v ===== *)
(** Theorems on the sending of mail: every attempt ends, a session with a server
    that agrees, and what the object remembers of other mails. *)

From S2P Require Import Prelude CLib EscapeString Settings Regex Base64 PTree Avbot MailFormat MailFacts Smtp.

(** ** Every run ends *)

Section Ends.
Context {B : Base64Iterators} {E : RegexEngine}.
Variable asserts : bool.

(** What a check leaves alone. *)
Definition same_mail (s s' : smtp) : Prop :=
  rcpts s' = rcpts s /\ retry_count s' = retry_count s /\ handler_calls s' = handler_calls s /\ m_imf s' = m_imf s /\ wire s' = wire s
  /\ m_writebuf s' = m_writebuf s /\ m_mailserver s' = m_mailserver s /\ m_socket s' = m_socket s /\ m_mailaddr s' = m_mailaddr s /\ m_AUTH s' = m_AUTH s.

Lemma caps_same caps : forall s, same_mail s (fold_left (fun s c => server_cap_handler c s) caps s)
  /\ m_readbuf (fold_left (fun s c => server_cap_handler c s) caps s) = m_readbuf s
  /\ m_sslsocket (fold_left (fun s c => server_cap_handler c s) caps s)
     = if existsb (fun c => str_eqb c ($"STARTTLS")) caps then Some (m_socket s) else m_sslsocket s.
Proof.
  induction caps as [|c caps IH]; intros s; cbn [fold_left existsb]; [repeat split|].
  destruct (IH (server_cap_handler c s)) as (H1 & H2 & H3). unfold server_cap_handler in *. destruct (str_eqb c ($"STARTTLS")).
  - split; [exact H1|]. split; [exact H2|]. rewrite H3. cbn. now destruct (existsb _ caps).
  - split; [exact H1|]. split; [exact H2|exact H3].
Qed.

Lemma check_run callback code s :
  let '(ok, caps, rest) := check_lines code (lines_of (m_readbuf s)) in
  exists s', check_smtp_response callback code s = Ok (ok, s') /\ same_mail s s' /\ m_readbuf s' = join_lines rest
    /\ m_sslsocket s' = if callback && existsb (fun c => str_eqb c ($"STARTTLS")) caps then Some (m_socket s) else m_sslsocket s.
Proof.
  unfold check_smtp_response. run. destruct (check_lines code (lines_of (m_readbuf s))) as [[ok caps] rest]. destruct callback.
  - destruct (caps_same caps (set_readbuf (join_lines rest) s)) as (H1 & H2 & H3). eexists. split; [reflexivity|]. split; [exact H1|].
    split; [exact H2|exact H3].
  - eexists. split; [reflexivity|]. split; [repeat split|]. now split.
Qed.

(** How far an attempt is from its end, with [n] recipients. *)
Definition stage_rank (p : stage) : nat :=
  match p with Content => 0 | DataCommand => 3 | MailFrom => 12 | Auth => 15 | StartTls => 19 | Ehlo => 22 | Welcome => 25 end.
Definition behind_rcpt (p : stage) : bool := match p with Content | DataCommand => true | _ => false end.

Definition point_rank (n : nat) (p : smtp_point) : nat :=
  let base (p : stage) := ((if behind_rcpt p then 0 else 4 * n) + stage_rank p)%nat in
  match p with
  | SmtpEnded => 0
  | Checked p _ => base p + 1
  | Reading p => base p + 2
  | Writing p => base p + 3
  | RcptDone _ => 7
  | RcptReading i _ second => 7 + 4 * (n - i) + (if second then 1 else 3)
  | RcptWriting i _ second => 7 + 4 * (n - i) + (if second then 2 else 4)
  | RcptStart => 4 * n + 12
  | Handshaking => 4 * n + 19
  | Connecting => 4 * n + 29
  | Waiting _ => 4 * n + 30
  end%nat.

(** The attempts that are left, and the rest of this one. *)
Definition smtp_measure (s : smtp) : nat :=
  match smtp_at s with
  | SmtpEnded => 0
  | p => Z.to_nat (22 - retry_count s) * (4 * length (rcpts s) + 31) + point_rank (length (rcpts s)) p
  end%nat.

(** From here on the stream of TLS is used. *)
Definition secured (p : smtp_point) : bool := uses_stream p || match p with Checked q _ => encrypted q | _ => false end.

(** The stream was made on the socket of this attempt or of an earlier one; when
    it is used it was made on this one. *)
Definition stream_inv (s : smtp) : Prop :=
  match m_sslsocket s with
  | Some k => (k <= m_socket s)%nat /\ (secured (smtp_at s) = true -> k = m_socket s)
  | None => True
  end.

Definition smtp_inv (s : smtp) : Prop :=
  match smtp_at s with
  | SmtpEnded => length (handler_calls s) = 1%nat
  | _ => handler_calls s = [] /\ 0 <= retry_count s <= 21 /\ stream_inv s
  end.

(** Where a run can stop: the mail cannot be written, or the server agreed to
    STARTTLS and the stream is that of an earlier attempt. *)
Definition stops_at (s : smtp) (f : smtp_fault) : Prop :=
  handler_calls s = []
  /\ match f with
     | Unwritable e => smtp_at s = Checked DataCommand true /\ imf_write_stream asserts (m_imf s) = Err e
     | DanglingSocket => smtp_at s = Checked StartTls true /\ exists k, m_sslsocket s = Some k /\ (k < m_socket s)%nat
     end.

(** A step that is not the last. *)
Definition advances (s : smtp) (r : result smtp_fault (() * smtp)) : Prop :=
  match r with
  | Ok (_, s') => smtp_inv s' /\ (smtp_measure s' < smtp_measure s)%nat /\ m_imf s' = m_imf s
  | Err f => stops_at s f
  end.

Definition kept (s s' : smtp) : Prop :=
  rcpts s' = rcpts s /\ m_imf s' = m_imf s /\ retry_count s' = retry_count s /\ handler_calls s' = handler_calls s.

Lemma inv_at s : smtp_at s <> SmtpEnded -> smtp_inv s -> handler_calls s = [] /\ 0 <= retry_count s <= 21 /\ stream_inv s.
Proof. unfold smtp_inv. now destruct (smtp_at s). Qed.

Lemma inv_here s p : p <> SmtpEnded -> handler_calls s = [] /\ 0 <= retry_count s <= 21 /\ stream_inv (set_smtp_at p s) -> smtp_inv (set_smtp_at p s).
Proof. unfold smtp_inv. cbn [smtp_at set_smtp_at]. now destruct p. Qed.

(** The same socket and stream, not before. *)
Lemma stream_later s s' p :
  stream_inv s -> m_socket s' = m_socket s -> m_sslsocket s' = m_sslsocket s ->
  (secured p = true -> secured (smtp_at s) = true \/ m_sslsocket s = None) -> stream_inv (set_smtp_at p s').
Proof.
  unfold stream_inv. cbn [smtp_at set_smtp_at m_socket m_sslsocket]. intros HS -> -> Hp. destruct (m_sslsocket s) as [k|]; [|exact I].
  destruct HS as [Hk Hs]. split; [exact Hk|]. intros H. destruct (Hp H) as [H'|[=]]. exact (Hs H').
Qed.

Lemma suspend_run p s : stream_inv (set_smtp_at p s) -> suspend p s = Ok ((), set_smtp_at p s).
Proof.
  unfold suspend, stream_inv, stale_stream, secured. run. cbn [smtp_at set_smtp_at m_socket m_sslsocket]. intros HS.
  destruct (uses_stream p); [|reflexivity]. destruct (m_sslsocket s) as [k|]; [|reflexivity]. destruct HS as [_ HS]. rewrite (HS eq_refl), Nat.eqb_refl.
  reflexivity.
Qed.

(** From one point to a later one. *)
Lemma advance_at s s' p :
  smtp_at s <> SmtpEnded -> smtp_inv s -> kept s s' -> p <> SmtpEnded -> stream_inv (set_smtp_at p s') ->
  (point_rank (length (rcpts s)) p < point_rank (length (rcpts s)) (smtp_at s))%nat ->
  advances s (suspend p s').
Proof.
  intros Hn HI (Hr & Hi & Hc & Hh) Hp HS Hlt. rewrite suspend_run by exact HS. destruct (inv_at s Hn HI) as (Hcalls & Hrange & _).
  split; [apply inv_here; [exact Hp|rewrite Hh, Hc; now repeat split]|]. split; [|exact Hi].
  unfold smtp_measure. cbn [smtp_at set_smtp_at rcpts retry_count]. rewrite Hr, Hc. destruct (smtp_at s); try contradiction; destruct p; try contradiction; lia.
Qed.

Lemma advance_failed s s' :
  smtp_at s <> SmtpEnded -> smtp_inv s -> kept s s' -> stream_inv (set_smtp_at Connecting s') -> advances s (failed s').
Proof.
  intros Hn HI (Hr & Hi & Hc & Hh) HS. unfold failed. run. destruct (inv_at s Hn HI) as (Hcalls & Hrange & _).
  assert (int32 (retry_count s + 1) = retry_count s + 1) as Hw by (apply int32_id; lia).
  assert (smtp_measure s >= Z.to_nat (22 - retry_count s) * (4 * length (rcpts s) + 31))%nat as Hm by (unfold smtp_measure; destruct (smtp_at s); try contradiction; lia).
  rewrite Hc. destruct (Z.leb_spec (retry_count s) 20).
  - unfold advances, smtp_inv, smtp_measure at 1. cbn [smtp_at set_smtp_at rcpts m_imf retry_count handler_calls set_retry_count].
    rewrite Hw, Hr, Hi, Hh. split; [split; [exact Hcalls|]|]; [split; [lia|exact HS]|]. split; [|reflexivity]. cbn [point_rank].
    replace (Z.to_nat (22 - retry_count s)) with (S (Z.to_nat (22 - (retry_count s + 1)))) in Hm by lia. lia.
  - unfold advances, smtp_inv, smtp_measure at 1. cbn [smtp_at call_smtp_handler rcpts m_imf retry_count handler_calls set_retry_count].
    rewrite Hi, Hh, Hcalls. split; [reflexivity|]. split; [|reflexivity].
    replace (Z.to_nat (22 - retry_count s)) with 1%nat in Hm by lia. lia.
Qed.

Lemma advance_begin s s' p :
  smtp_at s <> SmtpEnded -> smtp_inv s -> kept s s' -> stream_inv (set_smtp_at (Writing p) s') ->
  (p = Content -> smtp_at s = Checked DataCommand true) ->
  (point_rank (length (rcpts s)) (Writing p) < point_rank (length (rcpts s)) (smtp_at s))%nat -> advances s (begin asserts p s').
Proof.
  intros Hn HI Hk HS Hp Hlt. unfold begin. run. destruct (stage_text asserts p s') as [t|e] eqn:Et.
  - apply (advance_at s (set_writebuf (m_writebuf s' ++ t) s')); assumption || discriminate.
  - destruct Hk as (_ & Hi & _ & Hh). destruct p; cbn [stage_text] in Et; try discriminate. rewrite Hi in Et. specialize (Hp eq_refl).
    destruct (imf_write_stream asserts (m_imf s)) as [t|e'] eqn:Ew; [discriminate|]. injection Et as <-. split; [now apply inv_at|now split].
Qed.

(** The conditions of the lemmas above, at a known point. *)
Ltac at_rank Ea HS :=
  try assumption; try discriminate; try (now repeat split);
  try first [ rewrite Ea; discriminate
        | rewrite Ea; cbn [point_rank stage_rank behind_rcpt]; repeat case_match; lia
        | apply (stream_later _ _ _ HS); [reflexivity|reflexivity|rewrite Ea; intros Hsec; first [discriminate Hsec | now left | right; assumption]] ].

Lemma rcpt_loop_advances s s' i n :
  smtp_at s <> SmtpEnded -> smtp_inv s -> kept s s' -> m_socket s' = m_socket s -> m_sslsocket s' = m_sslsocket s -> secured (smtp_at s) = true ->
  (7 + 4 * (length (rcpts s) - i) + 4 < point_rank (length (rcpts s)) (smtp_at s) \/ length (rcpts s) <= i)%nat ->
  (7 < point_rank (length (rcpts s)) (smtp_at s))%nat -> advances s (rcpt_loop i n s').
Proof.
  intros Hn HI Hk Hs1 Hs2 Hsec Hlt H7. destruct (inv_at s Hn HI) as (_ & _ & HS). unfold rcpt_loop. run. rewrite (proj1 Hk).
  destruct (Nat.ltb_spec i (length (rcpts s))); apply advance_at; try assumption; try discriminate; try (apply (stream_later s); tauto);
    cbn [point_rank]; lia.
Qed.

(** After an answer is checked: the socket is the same, the stream is, or it is
    made new by the answer to EHLO. *)
Lemma reading_advances o s p : smtp_at s = Reading p -> smtp_inv s -> advances s (handle_smtp asserts o s).
Proof.
  intros Ea HI. assert (smtp_at s <> SmtpEnded) as Hn by congruence. destruct (inv_at s Hn HI) as (_ & _ & HS).
  unfold handle_smtp. run. rewrite Ea. destruct (is_failure o); [apply advance_failed; at_rank Ea HS|].
  pose proof (check_run (match p with Ehlo => true | _ => false end) (expected p) (set_readbuf (m_readbuf s ++ received o) s)) as Hc.
  destruct (check_lines _ _) as [[ok caps] rest]. destruct Hc as (s1 & -> & (H1 & H2 & H3 & H4 & _ & _ & _ & H5 & _) & _ & H6). cbv iota.
  apply (advance_at s s1); at_rank Ea HS. cbn [m_sslsocket m_socket set_readbuf] in H5, H6.
  unfold stream_inv in *. cbn [smtp_at set_smtp_at m_socket m_sslsocket]. rewrite H5, H6, Ea in *.
  destruct p; cbn [andb] in *; try exact HS. destruct (existsb _ caps); [split; [lia|reflexivity]|]. destruct (m_sslsocket s); [|exact I].
  split; [apply HS|discriminate].
Qed.

Lemma checked_advances o s p ok : smtp_at s = Checked p ok -> smtp_inv s -> advances s (handle_smtp asserts o s).
Proof.
  intros Ea HI. assert (smtp_at s <> SmtpEnded) as Hn by congruence. destruct (inv_at s Hn HI) as (Hcalls & _ & HS).
  unfold handle_smtp. run. rewrite Ea. destruct ok; [|apply advance_failed; at_rank Ea HS]. unfold next_stage. run. destruct p.
  - apply advance_begin; at_rank Ea HS.
  - unfold has_stream. destruct (m_sslsocket s) eqn:Es; apply advance_begin; at_rank Ea HS.
  - destruct (stale_stream s) eqn:Est; unfold stale_stream in Est.
    + unfold suspend, stale_stream. run. rewrite Est. cbn [uses_stream andb]. split; [exact Hcalls|]. split; [exact Ea|].
      destruct (m_sslsocket s) as [k|] eqn:Es; [|discriminate]. exists k. split; [reflexivity|].
      unfold stream_inv in HS. rewrite Es in HS. destruct HS as [Hk _]. apply negb_true_iff, Nat.eqb_neq in Est. lia.
    + apply (advance_at s s); at_rank Ea HS. unfold stream_inv in *. cbn [smtp_at set_smtp_at m_socket m_sslsocket].
      destruct (m_sslsocket s) as [k|]; [|exact I]. split; [apply HS|]. intros _. now apply Nat.eqb_eq, negb_false_iff.
  - apply advance_begin; at_rank Ea HS.
  - apply (advance_at s s); at_rank Ea HS.
  - apply advance_begin; at_rank Ea HS.
  - unfold advances, smtp_inv, smtp_measure in *. rewrite Ea in *. cbn [smtp_at call_smtp_handler handler_calls m_imf].
    rewrite Hcalls. split; [reflexivity|]. split; [apply Nat.add_pos_r; cbn; lia|reflexivity].
Qed.

Lemma rcpt_advances o s :
  (smtp_at s = RcptStart \/ (exists i n b, smtp_at s = RcptWriting i n b) \/ exists i n b, smtp_at s = RcptReading i n b) ->
  smtp_inv s -> advances s (handle_rcpt o s).
Proof.
  intros Hat HI. assert (smtp_at s <> SmtpEnded) as Hn by (destruct Hat as [->|[(i & n & b & ->)|(i & n & b & ->)]]; discriminate).
  destruct (inv_at s Hn HI) as (_ & _ & HS). unfold handle_rcpt. run. destruct Hat as [Ea|[(i & n & second & Ea)|(i & n & second & Ea)]]; rewrite Ea.
  - apply rcpt_loop_advances; try assumption; try (now repeat split); rewrite Ea; cbn; lia || reflexivity.
  - destruct o; cbn [write_done is_failure]; run; apply advance_at; at_rank Ea HS.
  - run. destruct (is_failure o); [apply (advance_at s s); at_rank Ea HS|].
    pose proof (check_run false 250 (set_readbuf (m_readbuf s ++ received o) s)) as Hc.
    destruct (check_lines _ _) as [[ok caps] rest]. destruct Hc as (s1 & -> & (H1 & H2 & H3 & H4 & _ & _ & _ & H5 & _) & _ & H6). cbv iota.
    assert (forall m, advances s (rcpt_loop (S i) m s1)) as Hloop.
    { intros m. apply rcpt_loop_advances; try assumption; try (now repeat split); rewrite Ea; [reflexivity|cbn [point_rank]; destruct second; lia..]. }
    destruct ok; [apply Hloop|]. destruct second; [apply Hloop|]. apply (advance_at s s1); at_rank Ea HS.
    apply (stream_later s); [exact HS|exact H5|exact H6|rewrite Ea; now left].
Qed.

Lemma handle_advances o s : smtp_at s <> SmtpEnded -> smtp_inv s -> advances s (handle_smtp asserts o s).
Proof.
  intros Hn HI. destruct (inv_at s Hn HI) as (_ & _ & HS).
  destruct (smtp_at s) as [|p|p|p ok| | |i n second|i n second|n|secs|] eqn:Ea; try contradiction;
    try (now apply (reading_advances o s p)); try (now apply (checked_advances o s p ok));
    unfold handle_smtp; run; rewrite Ea; try (apply rcpt_advances; [rewrite Ea; eauto 6|exact HI]).
  - destruct (is_failure o); [apply advance_failed; at_rank Ea HS|]. run. apply (advance_at s (set_readbuf [] s)); at_rank Ea HS.
  - destruct o; cbn [write_done is_failure]; run; [|apply advance_failed; at_rank Ea HS|];
      apply (advance_at s (set_writebuf [] (add_wire (through_tls p s) (m_writebuf s) s))); at_rank Ea HS.
  - destruct (is_failure o); [apply advance_failed; at_rank Ea HS|]. apply advance_begin; at_rank Ea HS.
  - destruct (n =? 0)%nat; [apply advance_failed; at_rank Ea HS|apply advance_begin; at_rank Ea HS].
  - unfold connect_smtp. run. apply (advance_at s (reset_socket s)); at_rank Ea HS. unfold stream_inv in *. cbn [smtp_at set_smtp_at m_socket m_sslsocket reset_socket].
    destruct (m_sslsocket s); [split; [lia|discriminate]|exact I].
Qed.

(** A run ends, or stops behind some of its events. *)
Lemma smtp_run_ends os : forall s, smtp_inv s -> (smtp_measure s <= length os)%nat ->
  match smtp_run asserts os s with
  | Ok (_, s') => smtp_at s' = SmtpEnded /\ length (handler_calls s') = 1%nat
  | Err f => exists os1 o os2 s1, os = os1 ++ o :: os2 /\ smtp_run asserts os1 s = Ok ((), s1) /\ m_imf s1 = m_imf s /\ stops_at s1 f
  end.
Proof.
  induction os as [|o os IH]; intros s HI Hm; cbn [smtp_run length] in *.
  - run. unfold smtp_measure, smtp_inv in *. destruct (smtp_at s) as [| | | | | |? ? []|? ? []| | |]; cbn [point_rank] in Hm; try lia. now split.
  - run. destruct (handle_smtp asserts o s) as [[[] s1]|f] eqn:Eh.
    + assert (smtp_inv s1 /\ (smtp_measure s1 <= length os)%nat /\ m_imf s1 = m_imf s) as (HI1 & Hm1 & Hi).
      { destruct (smtp_at s) eqn:Ea; try (pose proof (handle_advances o s ltac:(congruence) HI) as Ha; rewrite Eh in Ha; destruct Ha as (? & ? & ?);
          repeat split; [assumption|lia|assumption]).
        unfold handle_smtp in Eh. revert Eh. run. rewrite Ea. intros [= <-]. repeat split; [exact HI|]. unfold smtp_measure. rewrite Ea. lia. }
      specialize (IH s1 HI1 Hm1). destruct (smtp_run asserts os s1) as [[[] s']|f]; [exact IH|].
      destruct IH as (os1 & o' & os2 & s2 & -> & Hrun & Hi2 & Hstop). exists (o :: os1), o', os2, s2. cbn [smtp_run app].
      unfold mbind, st_bind. rewrite Eh. repeat split; [exact Hrun|congruence|apply Hstop..].
    + assert (stops_at s f) as Hstop.
      { pose proof (handle_advances o s) as Ha. rewrite Eh in Ha. apply Ha; [|exact HI]. intros Ea. unfold handle_smtp in Eh. revert Eh. run. now rewrite Ea. }
      exists [], o, os, s. cbn [smtp_run app]. repeat split; apply Hstop.
Qed.
End Ends.

(** C33: sending comes to an end.  Whatever the server and the network do, after
    at most [23 * (4 * n + 31)] ends of operations for [n] recipients the coroutine
    has ended and has called the handler exactly once, unless it stops with a
    fault before it, and without a call of the handler.  There are two faults: when the server
    has answered DATA, a mail that cannot be written; and when the server has agreed
    to STARTTLS, the operation on a socket that is gone, because the stream of TLS
    is that of an earlier attempt, the answer to EHLO of this attempt having no
    STARTTLS in it. *)
Theorem smtp_terminates {B : Base64Iterators} {E : RegexEngine} (asserts : bool) (imf : mail) (o o' : smtp_object) (s : smtp)
    (os : list smtp_outcome) :
  async_sendmail imf o = Some (o', s) -> (23 * (4 * length (rcpts s) + 31) <= length os)%nat ->
  match smtp_run asserts os s with
  | Ok (_, s') => smtp_at s' = SmtpEnded /\ length (handler_calls s') = 1%nat
  | Err f =>
      exists os1 o1 os2 s1, os = os1 ++ o1 :: os2 /\ smtp_run asserts os1 s = Ok ((), s1) /\ handler_calls s1 = []
        /\ match f with
           | Unwritable e => smtp_at s1 = Checked DataCommand true /\ imf_write_stream asserts imf = Err e
           | DanglingSocket => smtp_at s1 = Checked StartTls true /\ exists k, m_sslsocket s1 = Some k /\ (k < m_socket s1)%nat
           end
  end.
Proof.
  unfold async_sendmail. destruct (List.find _ _) as [kv|]; [|discriminate]. intros [= <- <-] Hl. cbn [rcpts] in Hl.
  set (s0 := Smtp _ _ _ _ _ _ _ _ _ _ _ _ _). pose proof (smtp_run_ends asserts os s0) as Hr.
  destruct (smtp_run asserts os s0) as [[[] s']|f]; [apply Hr|destruct Hr as (os1 & o1 & os2 & s1 & Ho & Hrun & Hi & Hcalls & Hf)];
    try (repeat split; cbn; lia);
    try (unfold smtp_measure; cbn [s0 smtp_at rcpts retry_count point_rank]; change (Z.to_nat (22 - 0)) with 22%nat; lia).
  rewrite Hi in Hf. exists os1, o1, os2, s1. now repeat split.
Qed.

(** ** A session with a server that agrees *)

(** The text of an answer: not empty, without line breaks, no white space at its
    end. *)
Definition answer_text (t : cstring) : Prop :=
  Forall (fun c => (c =c LF) = false /\ (c =c NUL) = false) t /\ exists u c, t = u ++ [c] /\ isspace c = false.

(** An answer of several lines. *)
Definition answer_line (code : Z) (sep : ascii) (t : cstring) : cstring := itoa code ++ [sep] ++ t.
Definition answer (code : Z) (caps : list cstring) (t : cstring) : cstring :=
  concat (map (fun c => answer_line code "-" c ++ crlf) caps) ++ answer_line code " " t ++ crlf.

Section Answers.
Context {E : RegexEngine} {EL : RegexLaws E}.

Lemma lit_app a b r : lit (a ++ b) r = lit a (lit b r).
Proof. induction a as [|c a IH]; cbn [app lit]; [reflexivity|now rewrite IH]. Qed.

Lemma code_digits code : 0 <= code -> Forall (fun c => (c =c LF) = false /\ (c =c NUL) = false) (itoa code) /\ itoa code <> [].
Proof.
  intros Hc. destruct (itoa_nonneg_digits code Hc) as [H1 H2]. split; [|exact H1]. eapply Forall_impl; [exact H2|]. cbv beta. intros c Hd.
  split; apply Ascii.eqb_neq; intros ->; discriminate.
Qed.

Lemma line_trim code sep t : answer_text t -> trim_right_if isspace (answer_line code sep t ++ [CR]) = answer_line code sep t.
Proof.
  intros [_ (u & c & -> & Hc)]. unfold answer_line, trim_right_if. rewrite !app_assoc, rev_app_distr. cbn [rev app drop_while].
  change (isspace CR) with true. cbv iota. rewrite rev_app_distr. cbn [rev app drop_while]. rewrite Hc. cbn [rev]. now rewrite rev_involutive.
Qed.

Lemma line_c_str code sep t : 0 <= code -> answer_text t -> (sep =c NUL) = false -> c_str (answer_line code sep t) = answer_line code sep t.
Proof.
  intros Hc [Ht _] Hs. apply c_str_id. unfold free_of, answer_line. rewrite !Forall_app. destruct (code_digits code Hc) as [Hd _].
  assert (forall c, (c =c LF) = false /\ (c =c NUL) = false -> mem_char c [NUL] = false) as H.
  { intros c [_ Hn]. unfold mem_char. cbn [existsb]. now rewrite Hn. }
  repeat split; [eapply Forall_impl; [exact Hd|exact H]| |eapply Forall_impl; [exact Ht|exact H]]. constructor; [|constructor].
  unfold mem_char. cbn [existsb]. now rewrite Hs.
Qed.

(** The two expressions on a line. *)
Lemma code_match code sep t : answer_text t -> perl_match (code_re sep code) (answer_line code sep t) = Some [Some t].
Proof.
  intros _. unfold perl_match, code_re, answer_line. rewrite app_assoc, match_at_lit. apply match_opt. rewrite match_group. now apply match_all.
Qed.

Lemma code_mismatch code code' sep sep' t :
  is_prefix (itoa code ++ [sep]) (answer_line code' sep' t) = false -> perl_match (code_re sep code) (answer_line code' sep' t) = None.
Proof.
  unfold perl_match, code_re. generalize (answer_line code' sep' t) as s.
  assert (forall R p r s (k : cstring -> captures -> cstring -> option R), is_prefix p s = false -> match_at (lit p r) s k = None) as H; [|intros s Hs; now apply H].
  intros R p r. induction p as [|c p IH]; intros s k; cbn [is_prefix]; [discriminate|]. destruct s as [|d s]; [reflexivity|]. cbn [lit match_at].
  rewrite (Ascii.eqb_sym d c). destruct (c =c d); cbn [andb]; [apply IH|reflexivity].
Qed.

Lemma dash_not_blank code t : is_prefix (itoa code ++ [" "%char]) (answer_line code "-" t) = false.
Proof. unfold answer_line. induction (itoa code) as [|c l IH]; cbn [app is_prefix]; [reflexivity|]. now rewrite Ascii.eqb_refl. Qed.

Lemma line_lf code sep t : 0 <= code -> answer_text t -> (sep =c LF) = false -> lf_free (answer_line code sep t ++ [CR]).
Proof.
  intros Hc [Ht _] Hs. unfold answer_line. rewrite !Forall_app. destruct (code_digits code Hc) as [Hd _].
  repeat split; [eapply Forall_impl; [exact Hd|now intros c [? _]]|now repeat constructor|eapply Forall_impl; [exact Ht|now intros c [? _]]|repeat constructor].
Qed.

Lemma answer_line_cons code sep t : 0 <= code -> exists c l, answer_line code sep t = c :: l.
Proof. intros Hc. destruct (code_digits code Hc) as [_ Hn]. unfold answer_line. destruct (itoa code) as [|c l]; [contradiction|]. now eexists c, _. Qed.

(** One line of the buffer. *)
Lemma lines_answer code sep t rest :
  0 <= code -> answer_text t -> (sep =c LF) = false ->
  lines_of (answer_line code sep t ++ crlf ++ rest) = (answer_line code sep t ++ [CR]) :: lines_of rest.
Proof.
  intros Hc Ht Hs. rewrite <- (lines_cons _ rest (line_lf code sep t Hc Ht Hs)). f_equal. rewrite <- app_assoc. reflexivity.
Qed.

(** The right answer is accepted and removed from the buffer. *)
Lemma check_answer code caps t :
  0 <= code -> Forall answer_text caps -> answer_text t ->
  check_lines code (lines_of (answer code caps t)) = (true, caps ++ [t], [[]]).
Proof.
  intros Hc Hcaps Ht. unfold answer. induction Hcaps as [|c caps Hcap _ IH]; cbn [map concat app].
  - pose proof (lines_answer code " " t [] Hc Ht eq_refl) as El. rewrite app_nil_r in El. rewrite El. cbn [check_lines lines_of split_on].
    rewrite (line_trim code " " t Ht). destruct (answer_line_cons code " " t Hc) as (x & l & Ex). rewrite Ex at 1.
    rewrite (line_c_str code " " t Hc Ht eq_refl), regex_match_perl, (code_match code " " t Ht). reflexivity.
  - rewrite <- !app_assoc, (lines_answer code "-" c _ Hc Hcap eq_refl). cbn [check_lines]. rewrite (line_trim code "-" c Hcap).
    destruct (answer_line_cons code "-" c Hc) as (x & l & Ex). rewrite Ex at 1.
    rewrite (line_c_str code "-" c Hc Hcap eq_refl), !regex_match_perl, (code_mismatch code code " " "-" c (dash_not_blank code c)).
    rewrite (code_match code "-" c Hcap). cbn [app] in IH. rewrite IH. reflexivity.
Qed.

(** A recipient that the server does not know. *)
Lemma check_refused t : answer_text t -> check_lines 250 (lines_of (answer 550 [] t)) = (false, [], [[]]).
Proof.
  intros Ht. unfold answer. cbn [map concat app]. pose proof (lines_answer 550 " " t [] ltac:(lia) Ht eq_refl) as El. rewrite app_nil_r in El.
  rewrite El. cbn [check_lines lines_of split_on]. rewrite (line_trim 550 " " t Ht).
  destruct (answer_line_cons 550 " " t) as (x & l & Ex); [lia|]. rewrite Ex at 1.
  now rewrite (line_c_str 550 " " t ltac:(lia) Ht eq_refl), !regex_match_perl, !code_mismatch by reflexivity.
Qed.
End Answers.

(** What the server answers: the lines for each stage, the text for each
    recipient, and whether it takes the recipient. *)
Record server : Type := Server { caps_of : stage -> list cstring; text_of : stage -> cstring; rcpt_answer : cstring; takes : cstring -> bool }.

Definition server_ok (v : server) : Prop :=
  (forall p, Forall answer_text (caps_of v p) /\ answer_text (text_of v p)) /\ answer_text (rcpt_answer v).

Definition reply (v : server) (p : stage) : cstring := answer (expected p) (caps_of v p) (text_of v p).
Definition offers_tls (v : server) : bool := existsb (fun c => str_eqb c ($"STARTTLS")) (caps_of v Ehlo ++ [text_of v Ehlo]).

(** The ends of the operations of such a session. *)
Definition step_events (v : server) (p : stage) : list smtp_outcome := [Success; Received (reply v p); Success].
Definition rcpt_events (v : server) (r : cstring) : list smtp_outcome :=
  if takes v r then [Success; Received (answer 250 [] (rcpt_answer v))]
  else [Success; Received (answer 550 [] (rcpt_answer v)); Success; Received (answer 550 [] (rcpt_answer v))].
Definition session_events (v : server) (rs : list cstring) : list smtp_outcome :=
  step_events v Welcome ++ step_events v Ehlo
  ++ (if offers_tls v then step_events v StartTls ++ [Success] else []) ++ step_events v Auth ++ step_events v MailFrom
  ++ [Success] ++ concat (map (rcpt_events v) rs) ++ [Success] ++ step_events v DataCommand ++ step_events v Content.

(** What is written. *)
Definition rcpt_wire (v : server) (r : cstring) : list (bool * cstring) :=
  (offers_tls v, rcpt_text false r) :: (if takes v r then [] else [(offers_tls v, rcpt_text true r)]).

Section Session.
Context {B : Base64Iterators} {E : RegexEngine} {EL : RegexLaws E}.
Variables (asserts : bool) (addr srv auth : cstring) (imf : mail) (rcs : list cstring) (retry : Z) (v : server).
Hypothesis Hv : server_ok v.

Definition session (tls : bool) (p : smtp_point) (w : cstring) (wr : list (bool * cstring)) : smtp :=
  Smtp addr srv auth imf [] w 1 (if tls then Some 1%nat else None) rcs retry p wr [].

Lemma has_session tls p w wr : has_stream (session tls p w wr) = tls.
Proof. now destruct tls. Qed.

Lemma suspend_session tls p q w wr : suspend q (session tls p w wr) = Ok ((), session tls q w wr).
Proof. unfold suspend. run. destruct (uses_stream q), tls; reflexivity. Qed.

Lemma caps_session caps : forall s, fold_left (fun s c => server_cap_handler c s) caps s
  = if existsb (fun c => str_eqb c ($"STARTTLS")) caps then reset_sslsocket s else s.
Proof.
  induction caps as [|c caps IH]; intros s; cbn [fold_left existsb]; [reflexivity|]. rewrite IH. unfold server_cap_handler.
  destruct (str_eqb c ($"STARTTLS")); [now destruct (existsb _ caps)|reflexivity].
Qed.

(** The answer of a stage arrives. *)
Lemma reply_run p s :
  smtp_at s = Reading p -> m_readbuf s = [] ->
  handle_smtp asserts (Received (reply v p)) s
  = suspend (Checked p true) (match p with Ehlo => if offers_tls v then reset_sslsocket s else s | _ => s end).
Proof.
  intros Hat Hbuf. destruct (proj1 Hv p) as [Hc Ht]. unfold handle_smtp, check_smtp_response. run. rewrite Hat, Hbuf.
  cbn [is_failure received app]. run. cbn [m_readbuf set_readbuf].
  unfold reply. rewrite check_answer by (exact Hc || exact Ht || (destruct p; cbn; lia)).
  assert (set_readbuf (join_lines [[]]) (set_readbuf (answer (expected p) (caps_of v p) (text_of v p)) s) = s) as Hs
    by (clear - Hbuf; destruct s; cbn in *; now subst).
  destruct p; try (now rewrite Hs). rewrite caps_session. cbv iota. fold (offers_tls v). now rewrite Hs.
Qed.

Lemma reading_run p tls wr :
  handle_smtp asserts (Received (reply v p)) (session tls (Reading p) [] wr)
  = Ok ((), session (match p with Ehlo => tls || offers_tls v | _ => tls end) (Checked p true) [] wr).
Proof.
  rewrite (reply_run p) by reflexivity. destruct p; try (exact (suspend_session tls _ _ _ _)). destruct tls, (offers_tls v); reflexivity.
Qed.

Lemma step_run p tls w wr :
  p <> Welcome ->
  smtp_run asserts (step_events v p) (session tls (Writing p) w wr)
  = next_stage asserts p (session (match p with Ehlo => tls || offers_tls v | _ => tls end) (Checked p true) []
      (wr ++ [(match p with Ehlo | StartTls => false | _ => tls end, w)])).
Proof.
  intros Hp. cbn [step_events smtp_run]. unfold mbind, st_bind.
  assert (handle_smtp asserts Success (session tls (Writing p) w wr)
          = Ok ((), session tls (Reading p) [] (wr ++ [(match p with Ehlo | StartTls => false | _ => tls end, w)]))) as ->.
  { unfold handle_smtp. run. cbn [smtp_at session write_done is_failure]. run. unfold through_tls. rewrite has_session.
    destruct p; try contradiction; exact (suspend_session tls _ _ _ _). }
  rewrite reading_run. unfold handle_smtp at 1. run. cbn [smtp_at session].
  now destruct (next_stage asserts p _) as [[[] s']|e].
Qed.

Lemma begin_run p tls q wr t :
  stage_text asserts p (session tls q [] wr) = Ok t -> begin asserts p (session tls q [] wr) = Ok ((), session tls (Writing p) t wr).
Proof. intros Et. unfold begin. run. rewrite Et. exact (suspend_session tls _ _ _ _). Qed.

(** One recipient. *)
Definition rcpt_next (i n : nat) : smtp_point := if (i <? length rcs)%nat then RcptWriting i n false else RcptDone n.

Lemma rcpt_write_run i n second tls wr :
  handle_smtp asserts Success (session tls (RcptWriting i n second) [] wr)
  = Ok ((), session tls (RcptReading i n second) [] (wr ++ [(tls, rcpt_text second (nth i rcs []))])).
Proof. unfold handle_smtp, handle_rcpt. run. cbn [smtp_at session write_done is_failure]. rewrite has_session. exact (suspend_session tls _ _ _ _). Qed.

Lemma rcpt_taken_run i n second tls wr :
  handle_smtp asserts (Received (answer 250 [] (rcpt_answer v))) (session tls (RcptReading i n second) [] wr)
  = Ok ((), session tls (rcpt_next (S i) (S n)) [] wr).
Proof.
  unfold handle_smtp, handle_rcpt, check_smtp_response. run. cbn [smtp_at session is_failure received m_readbuf set_readbuf app].
  rewrite check_answer by (lia || apply List.Forall_nil || apply Hv). cbv iota. unfold rcpt_loop. run. exact (suspend_session tls _ _ _ _).
Qed.

Lemma rcpt_refused_run i n second tls wr :
  handle_smtp asserts (Received (answer 550 [] (rcpt_answer v))) (session tls (RcptReading i n second) [] wr)
  = Ok ((), session tls (if (second : bool) then rcpt_next (S i) n else RcptWriting i n true) [] wr).
Proof.
  unfold handle_smtp, handle_rcpt, check_smtp_response. run. cbn [smtp_at session is_failure received m_readbuf set_readbuf app].
  rewrite check_refused by apply Hv. cbv iota. destruct second; [unfold rcpt_loop; run|]; exact (suspend_session tls _ _ _ _).
Qed.

(** The recipients that are left. *)
Lemma rcpts_run tls : tls = offers_tls v -> forall todo done n wr, rcs = done ++ todo ->
  smtp_run asserts (concat (map (rcpt_events v) todo)) (session tls (rcpt_next (length done) n) [] wr)
  = Ok ((), session tls (RcptDone (n + length (List.filter (takes v) todo))) [] (wr ++ concat (map (rcpt_wire v) todo))).
Proof.
  intros Ht. induction todo as [|r todo IH]; intros done n wr Er; unfold rcpt_next.
  - rewrite app_nil_r in Er. subst done. cbn [map concat]. rewrite Nat.ltb_irrefl, app_nil_r. cbn [List.filter length]. now rewrite Nat.add_0_r.
  - assert (nth (length done) rcs [] = r) as Enth by (rewrite Er, app_nth2, Nat.sub_diag by lia; reflexivity).
    assert ((length done <? length rcs)%nat = true) as -> by (apply Nat.ltb_lt; rewrite Er, length_app; cbn [length]; lia).
    specialize (IH (done ++ [r])). rewrite length_app, Nat.add_1_r, <- app_assoc in IH.
    cbn [map concat List.filter]. unfold rcpt_events at 1, rcpt_wire at 1. rewrite <- Ht.
    destruct (takes v r); cbn [app smtp_run]; unfold mbind, st_bind; rewrite rcpt_write_run, Enth.
    + rewrite rcpt_taken_run, IH by exact Er. cbn [length]. rewrite Nat.add_succ_r, <- app_assoc. reflexivity.
    + rewrite rcpt_refused_run, rcpt_write_run, Enth, rcpt_refused_run, IH by exact Er. now rewrite <- !app_assoc.
Qed.

Lemma smtp_run_cons o os s s' : handle_smtp asserts o s = Ok ((), s') -> smtp_run asserts (o :: os) s = smtp_run asserts os s'.
Proof. intros H. cbn [smtp_run]. unfold mbind, st_bind. now rewrite H. Qed.

Lemma smtp_run_app os os' s s' : smtp_run asserts os s = Ok ((), s') -> smtp_run asserts (os ++ os') s = smtp_run asserts os' s'.
Proof.
  revert s. induction os as [|o os IH]; intros s; cbn [app smtp_run]; unfold mbind, st_bind; [now intros [= <-]|].
  destruct (handle_smtp asserts o s) as [[[] s1]|e]; [apply IH|discriminate].
Qed.

Lemma rcpt_start_run tls w wr :
  smtp_run asserts [Success] (session tls RcptStart w wr) = Ok ((), session tls (rcpt_next 0 0) w wr).
Proof.
  cbn [smtp_run]. unfold mbind, st_bind, handle_smtp, handle_rcpt, rcpt_loop. run. cbn [smtp_at session]. run. change (rcpts (session tls RcptStart w wr)) with rcs.
  now rewrite suspend_session.
Qed.

(** A stage and the beginning of the next. *)
Definition tls_after (p : stage) (tls : bool) : bool := match p with Ehlo => tls || offers_tls v | _ => tls end.
Definition tls_of (p : stage) (tls : bool) : bool := match p with Ehlo | StartTls => false | _ => tls end.

Lemma stage_run p q tls w wr t os :
  p <> Welcome -> (forall wr', next_stage asserts p (session (tls_after p tls) (Checked p true) [] wr')
                    = begin asserts q (session (tls_after p tls) (Checked p true) [] wr')
                    /\ stage_text asserts q (session (tls_after p tls) (Checked p true) [] wr') = Ok t) ->
  smtp_run asserts (step_events v p ++ os) (session tls (Writing p) w wr)
  = smtp_run asserts os (session (tls_after p tls) (Writing q) t (wr ++ [(tls_of p tls, w)])).
Proof.
  intros Hp Hq. apply smtp_run_app. rewrite step_run by exact Hp. destruct (Hq (wr ++ [(tls_of p tls, w)])) as [Hn Ht].
  etransitivity; [exact Hn|]. now apply begin_run.
Qed.

Lemma welcome_run os :
  smtp_run asserts (step_events v Welcome ++ os) (session false Connecting [] [])
  = smtp_run asserts os (session false (Writing Ehlo) ($"EHLO " ++ srv ++ crlf) []).
Proof.
  apply smtp_run_app. cbn [step_events smtp_run]. unfold mbind, st_bind.
  change (handle_smtp asserts Success (session false Connecting [] [])) with (Ok ((), session false (Reading Welcome) [] []) : result smtp_fault (() * smtp)).
  cbv iota. rewrite reading_run. reflexivity.
Qed.

(** From the answer to EHLO to the login. *)
Definition tls_wire : list (bool * cstring) :=
  (false, $"EHLO " ++ srv ++ crlf) :: (if offers_tls v then [(false, $"STARTTLS" ++ crlf)] else []).

Lemma ehlo_run os :
  smtp_run asserts (step_events v Ehlo ++ (if offers_tls v then step_events v StartTls ++ [Success] else []) ++ os)
    (session false (Writing Ehlo) ($"EHLO " ++ srv ++ crlf) [])
  = smtp_run asserts os (session (offers_tls v) (Writing Auth) ($"AUTH PLAIN " ++ auth ++ crlf) tls_wire).
Proof.
  unfold tls_wire. destruct (offers_tls v) eqn:Et.
  - rewrite (stage_run Ehlo StartTls _ _ _ ($"STARTTLS" ++ crlf)) by (discriminate || (intros wr'; unfold tls_after; rewrite Et; now split)).
    unfold tls_after at 1, tls_of at 1. rewrite Et. cbn [orb app]. rewrite <- app_assoc.
    erewrite (smtp_run_app (step_events v StartTls)) by (rewrite step_run by discriminate; reflexivity). now apply smtp_run_app.
  - cbn [app]. rewrite (stage_run Ehlo Auth _ _ _ ($"AUTH PLAIN " ++ auth ++ crlf)) by (discriminate || (intros wr'; unfold tls_after; rewrite Et; now split)).
    unfold tls_after, tls_of. now rewrite Et.
Qed.

Lemma smtp_session_run text :
  existsb (takes v) rcs = true -> imf_write_stream asserts imf = Ok text ->
  exists s', smtp_run asserts (session_events v rcs) (session false Connecting [] []) = Ok ((), s')
    /\ smtp_at s' = SmtpEnded /\ handler_calls s' = [true]
    /\ wire s' = tls_wire
        ++ map (fun t => (offers_tls v, t)) [$"AUTH PLAIN " ++ auth ++ crlf; $"MAIL FROM: <" ++ addr ++ $">" ++ crlf]
        ++ concat (map (rcpt_wire v) rcs)
        ++ map (fun t => (offers_tls v, t)) [$"DATA" ++ crlf; text ++ crlf ++ $"." ++ crlf].
Proof.
  intros Htake Htext. unfold session_events. rewrite welcome_run, ehlo_run. set (tls := offers_tls v).
  rewrite (stage_run Auth MailFrom tls _ _ ($"MAIL FROM: <" ++ addr ++ $">" ++ crlf)) by (discriminate || now intros wr'; split).
  change (tls_after Auth tls) with tls. change (tls_of Auth tls) with tls. set (wr1 := tls_wire ++ _).
  erewrite (smtp_run_app (step_events v MailFrom)) by (rewrite step_run by discriminate; exact (suspend_session tls _ _ _ _)).
  set (wr2 := wr1 ++ _).
  rewrite (smtp_run_app [Success] _ _ _ (rcpt_start_run tls _ _)).
  rewrite (smtp_run_app _ _ _ _ (rcpts_run tls eq_refl rcs [] 0 wr2 eq_refl)).
  set (wr3 := wr2 ++ _). set (k := length (List.filter (takes v) rcs)).
  assert ((k =? 0)%nat = false) as Hk.
  { apply existsb_exists in Htake as (r & Hr & Htr). apply Nat.eqb_neq. unfold k.
    assert (In r (List.filter (takes v) rcs)) as Hin by now apply filter_In. destruct (List.filter (takes v) rcs); [contradiction|discriminate]. }
  rewrite (smtp_run_app [Success] _ _ (session tls (Writing DataCommand) ($"DATA" ++ crlf) wr3)).
  2:{ cbn [smtp_run]. unfold mbind, st_bind, handle_smtp. run. cbn [smtp_at session Nat.add]. rewrite Hk. now rewrite (begin_run DataCommand tls _ _ ($"DATA" ++ crlf)). }
  rewrite (stage_run DataCommand Content tls _ _ (text ++ crlf ++ $"." ++ crlf)).
  - change (tls_after DataCommand tls) with tls. change (tls_of DataCommand tls) with tls. rewrite step_run by discriminate.
    eexists. split; [reflexivity|]. split; [reflexivity|]. split; [reflexivity|]. cbn [wire call_smtp_handler session map].
    unfold wr3, wr2, wr1, tls. now rewrite <- !app_assoc.
  - discriminate.
  - intros wr'. split; [reflexivity|]. cbn [stage_text session m_imf]. now rewrite Htext.
Qed.
End Session.

(** C32: a mail is sent.  With a server that gives the answers of the protocol,
    in as many lines as it likes, and takes at least one of the recipients, the
    session sends EHLO, then, when the server offers it, STARTTLS, and behind it
    everything else encrypted: the login, the sender, each recipient (in
    brackets once more when it is refused), the mail and its end; then the
    handler is called once, without an error. *)
Theorem smtp_session {B : Base64Iterators} {E : RegexEngine} {EL : RegexLaws E} (asserts : bool) (imf : mail) (o o' : smtp_object) (s : smtp)
    (v : server) (text : cstring) :
  async_sendmail imf o = Some (o', s) -> server_ok v -> existsb (takes v) (rcpts s) = true -> imf_write_stream asserts imf = Ok text ->
  exists s', smtp_run asserts (session_events v (rcpts s)) s = Ok ((), s')
    /\ smtp_at s' = SmtpEnded /\ handler_calls s' = [true]
    /\ wire s' = tls_wire (o_mailserver o) v
        ++ map (fun t => (offers_tls v, t)) [$"AUTH PLAIN " ++ o_AUTH o ++ crlf; $"MAIL FROM: <" ++ o_mailaddr o ++ $">" ++ crlf]
        ++ concat (map (rcpt_wire v) (rcpts s))
        ++ map (fun t => (offers_tls v, t)) [$"DATA" ++ crlf; text ++ crlf ++ $"." ++ crlf].
Proof.
  unfold async_sendmail. destruct (List.find _ _) as [kv|]; [|discriminate]. intros [= <- <-] Hv Htake Htext. cbn [rcpts] in *.
  exact (smtp_session_run asserts (o_mailaddr o) (o_mailserver o) (o_AUTH o) imf _ 0 v Hv text Htake Htext).
Qed.

(** The recipients of a mail are never forgotten: the next mail of the object goes
    to them too. *)
Theorem recipients_kept {E : RegexEngine} (imf1 imf2 : mail) (o o1 o2 : smtp_object) (s1 s2 : smtp) :
  async_sendmail imf1 o = Some (o1, s1) -> async_sendmail imf2 o1 = Some (o2, s2) ->
  rcpts s2 = rcpts s1 ++ recipients (header_of ($"to") (m_header imf2)).
Proof.
  unfold async_sendmail, header_of. destruct (List.find _ (m_header imf1)) as [kv1|]; [|discriminate]. intros [= <- <-]. cbn [o_rcpts].
  destruct (List.find _ (m_header imf2)) as [kv2|]; [|discriminate]. now intros [= <- <-].
Qed.

(** What could not be written is written before the first command of the next
    attempt. *)
Theorem unwritten_kept {B : Base64Iterators} {E : RegexEngine} {EL : RegexLaws E} (asserts : bool) (v : server) (addr srv auth w : cstring)
    (imf : mail) (rcs : list cstring) (wr : list (bool * cstring)) (p : stage) :
  server_ok v ->
  exists s', smtp_run asserts ([Failure 0; Success] ++ step_events v Welcome) (session addr srv auth imf rcs 0 false (Writing p) w wr) = Ok ((), s')
    /\ smtp_at s' = Writing Ehlo /\ m_writebuf s' = w ++ $"EHLO " ++ srv ++ crlf.
Proof.
  intros Hv. destruct (proj1 Hv Welcome) as [Hc Ht]. eexists. split.
  - cbn [app step_events smtp_run]. unfold mbind, st_bind.
    change (handle_smtp asserts (Failure 0) (session addr srv auth imf rcs 0 false (Writing p) w wr))
      with (Ok ((), Smtp addr srv auth imf [] w 1 None rcs 1 (Waiting 30) (wr ++ [(through_tls p (session addr srv auth imf rcs 0 false (Writing p) w wr), [])]) [])
            : result smtp_fault (() * smtp)). cbv iota.
    set (wr1 := wr ++ _). change (handle_smtp asserts Success (Smtp addr srv auth imf [] w 1 None rcs 1 (Waiting 30) wr1 []))
      with (Ok ((), Smtp addr srv auth imf [] w 2 None rcs 1 Connecting wr1 []) : result smtp_fault (() * smtp)). cbv iota.
    change (handle_smtp asserts Success (Smtp addr srv auth imf [] w 2 None rcs 1 Connecting wr1 []))
      with (Ok ((), Smtp addr srv auth imf [] w 2 None rcs 1 (Reading Welcome) wr1 []) : result smtp_fault (() * smtp)). cbv iota.
    unfold handle_smtp at 1, check_smtp_response. run. cbn [smtp_at is_failure received m_readbuf set_readbuf app]. unfold reply.
    rewrite check_answer by (exact Hc || exact Ht || (cbn; lia)). reflexivity.
  - now split.
Qed.

(** The stream of an earlier attempt is used: when the handshake failed, and the
    server does not offer STARTTLS any more but agrees to it all the same. *)
Theorem stale_stream_used {B : Base64Iterators} {E : RegexEngine} {EL : RegexLaws E} (asserts : bool) (v v' : server)
    (addr srv auth : cstring) (imf : mail) (rcs : list cstring) :
  server_ok v -> offers_tls v = true -> server_ok v' -> offers_tls v' = false ->
  smtp_run asserts
    ((step_events v Welcome ++ step_events v Ehlo ++ step_events v StartTls) ++ [Failure 0; Success]
     ++ step_events v' Welcome ++ step_events v' Ehlo ++ step_events v' StartTls)
    (session addr srv auth imf rcs 0 false Connecting [] []) = Err DanglingSocket.
Proof.
  intros Hv Ho Hv' Ho'. set (wr := [(false, $"EHLO " ++ srv ++ crlf); (false, $"STARTTLS" ++ crlf)]).
  rewrite (smtp_run_app asserts _ _ _ (session addr srv auth imf rcs 0 true Handshaking [] wr)).
  - cbn [app step_events]. set (here := fun n p w wr => Smtp addr srv auth imf [] w n (Some 1%nat) rcs 1 p wr []).
    rewrite (smtp_run_cons asserts _ _ _ (here 1%nat (Waiting 30) [] wr)) by reflexivity.
    rewrite (smtp_run_cons asserts _ _ _ (here 2%nat Connecting [] wr)) by reflexivity.
    rewrite (smtp_run_cons asserts _ _ _ (here 2%nat (Reading Welcome) [] wr)) by reflexivity.
    rewrite (smtp_run_cons asserts _ _ _ (here 2%nat (Checked Welcome true) [] wr)) by (now rewrite (reply_run asserts v' Hv' Welcome)).
    set (ehlo := $"EHLO " ++ srv ++ crlf) in *. set (wr1 := wr ++ [(false, ehlo)]). set (wr2 := wr1 ++ [(false, $"STARTTLS" ++ crlf)]).
    rewrite (smtp_run_cons asserts _ _ _ (here 2%nat (Writing Ehlo) ehlo wr)) by reflexivity.
    rewrite (smtp_run_cons asserts _ _ _ (here 2%nat (Reading Ehlo) [] wr1)) by reflexivity.
    rewrite (smtp_run_cons asserts _ _ _ (here 2%nat (Checked Ehlo true) [] wr1)) by (rewrite (reply_run asserts v' Hv' Ehlo) by reflexivity; now rewrite Ho').
    rewrite (smtp_run_cons asserts _ _ _ (here 2%nat (Writing StartTls) ($"STARTTLS" ++ crlf) wr1)) by reflexivity.
    unfold step_events.
    rewrite (smtp_run_cons asserts _ _ _ (here 2%nat (Reading StartTls) [] wr2)) by reflexivity.
    rewrite (smtp_run_cons asserts _ _ _ (here 2%nat (Checked StartTls true) [] wr2)) by (now rewrite (reply_run asserts v' Hv' StartTls)).
    reflexivity.
  - rewrite (welcome_run asserts addr srv auth imf rcs 0 v Hv).
    rewrite (stage_run asserts addr srv auth imf rcs 0 v Hv Ehlo StartTls _ _ _ ($"STARTTLS" ++ crlf)) by (discriminate || (intros wr'; unfold tls_after; rewrite Ho; now split)).
    unfold tls_after, tls_of. rewrite Ho. cbn [orb]. rewrite (step_run asserts addr srv auth imf rcs 0 v Hv) by discriminate. reflexivity.
Qed.

(** A read of an answer can end with a line that is not its last: a blank
    anywhere before a line break is enough.  The check then fails. *)
Theorem answer_read_early {E : RegexEngine} {EL : RegexLaws E} :
  let first_line := $"250-SIZE 73400320" ++ crlf in
  regex_search response_re first_line <> None /\ fst (fst (check_lines 250 (lines_of first_line))) = false.
Proof.
  intros first_line. split; [rewrite regex_search_perl; vm_compute; discriminate|]. unfold first_line.
  change (lines_of ($"250-SIZE 73400320" ++ crlf)) with [answer_line 250 "-" ($"SIZE 73400320") ++ [CR]; []]. cbn [check_lines].
  assert (answer_text ($"SIZE 73400320")) as Ht.
  { split; [repeat constructor|]. now exists ($"SIZE 7340032"), "0"%char. }
  rewrite (line_trim 250 "-" _ Ht). destruct (answer_line_cons 250 "-" ($"SIZE 73400320")) as (x & l & Ex); [lia|]. rewrite Ex at 1.
  rewrite (line_c_str 250 "-") by (lia || exact Ht || reflexivity).
  rewrite !regex_match_perl, (code_mismatch 250 250 " " "-") by apply dash_not_blank. now rewrite code_match.
Qed.

(** ** Examples *)

Definition example_mail : mail := Mail [($"to", $"a@b.c")] false (inl ($"abc")).
Definition example_object : smtp_object := SmtpObject ($"me@b.c") ($"smtp.b.c") ($"AG1l") [].
Definition example_sending : smtp := Smtp ($"me@b.c") ($"smtp.b.c") ($"AG1l") example_mail [] [] 1 None [$"a@b.c"] 0 Connecting [] [].
Definition example_server : server :=
  Server (fun p => match p with Ehlo => [$"smtp.b.c"; $"STARTTLS"] | _ => [] end) (fun _ => $"ok") ($"ok") (fun _ => true).

Lemma example_server_ok : server_ok example_server.
Proof.
  assert (forall t, In t [$"smtp.b.c"; $"STARTTLS"; $"ok"] -> answer_text t) as Ht.
  { intros t [<-|[<-|[<-|[]]]]; (split; [repeat constructor|]);
      [now exists ($"smtp.b."), "c"%char|now exists ($"STARTTL"), "S"%char|now exists ($"o"), "k"%char]. }
  split; [|apply Ht; cbn; tauto]. intros p. split; [|apply Ht; cbn; tauto].
  destruct p; try apply List.Forall_nil. repeat (constructor; [apply Ht; cbn; tauto|]). apply List.Forall_nil.
Qed.

Lemma smtp_terminates_witness :
  match smtp_run true (repeat (Failure 0) 900) example_sending with
  | Ok (_, s') => smtp_at s' = SmtpEnded /\ length (handler_calls s') = 1%nat
  | Err f =>
      exists os1 o1 os2 s1, repeat (Failure 0) 900 = os1 ++ o1 :: os2 /\ smtp_run true os1 example_sending = Ok ((), s1) /\ handler_calls s1 = []
        /\ match f with
           | Unwritable e => smtp_at s1 = Checked DataCommand true /\ imf_write_stream true example_mail = Err e
           | DanglingSocket => smtp_at s1 = Checked StartTls true /\ exists k, m_sslsocket s1 = Some k /\ (k < m_socket s1)%nat
           end
  end.
Proof.
  apply (smtp_terminates true example_mail example_object (SmtpObject ($"me@b.c") ($"smtp.b.c") ($"AG1l") [$"a@b.c"]) example_sending).
  - vm_compute. reflexivity.
  - rewrite repeat_length. cbn. lia.
Defined.

Lemma smtp_session_witness :
  exists s', smtp_run true (session_events example_server [$"a@b.c"]) example_sending = Ok ((), s')
    /\ smtp_at s' = SmtpEnded /\ handler_calls s' = [true]
    /\ wire s' = [(false, $"EHLO smtp.b.c" ++ crlf); (false, $"STARTTLS" ++ crlf); (true, $"AUTH PLAIN AG1l" ++ crlf);
                  (true, $"MAIL FROM: <me@b.c>" ++ crlf); (true, $"rcpt to: a@b.c" ++ crlf); (true, $"DATA" ++ crlf);
                  (true, $"to: a@b.c; " ++ crlf ++ $"content-transfer-encoding: base64" ++ crlf ++ crlf ++ $"YWJj" ++ crlf ++ $"." ++ crlf)].
Proof.
  apply (smtp_session true example_mail example_object (SmtpObject ($"me@b.c") ($"smtp.b.c") ($"AG1l") [$"a@b.c"]) example_sending example_server
           ($"to: a@b.c; " ++ crlf ++ $"content-transfer-encoding: base64" ++ crlf ++ crlf ++ $"YWJj")).
  - vm_compute. reflexivity.
  - exact example_server_ok.
  - reflexivity.
  - vm_compute. reflexivity.
Defined.
