(* ===== verification/Pop3.v ===== *)
(** Fetching mail, libmailexchange/pop3.hpp and pop3.cpp: the class [mx::pop3], a
    coroutine without an end.

    It is always suspended behind one operation, the member [pop3_at] of the
    state; [handle_pop3] ends it.  The local variables of [operator()] are new at
    each call; so is the stream on [m_readbuf], from which [>>] takes words. *)

From S2P Require Import Prelude CLib EscapeString Settings Regex Base64 PTree Avbot MailFormat Smtp.

(** ** State *)

(** The commands with an answer of one line; [Greeting] has no command. *)
Inductive pop3_command : Type := Greeting | User | Pass | ListCmd | Retr | Dele.

(** [Delay n] is the timer before the step [n] of the source: the connection, the
    next attempt, the end of a session and the next session. *)
Inductive pop3_delay : Type := BeforeConnect | AfterFailure | AfterQuit | BeforeRestart.

Inductive pop3_point : Type :=
| Delay (d : pop3_delay)
| Connect
| WriteCommand (c : pop3_command)
| ReadAnswer (c : pop3_command)
| ReadList (first : bool)
| ReadMail
| InHandler
| WriteQuit.

Record pop3 : Type := Pop3 {
  p_mailaddr : cstring;
  p_passwd : cstring;
  p_readbuf : cstring;
  p_writebuf : cstring;
  maillist : list cstring;
  pop3_at : pop3_point;
  (** What was written, and the mails that were given to the handler. *)
  p_written : list cstring;
  p_mails : list mailcontent
}.

Definition set_pop3_at (p : pop3_point) (s : pop3) : pop3 :=
  Pop3 (p_mailaddr s) (p_passwd s) (p_readbuf s) (p_writebuf s) (maillist s) p (p_written s) (p_mails s).
Definition set_p_readbuf (b : cstring) (s : pop3) : pop3 :=
  Pop3 (p_mailaddr s) (p_passwd s) b (p_writebuf s) (maillist s) (pop3_at s) (p_written s) (p_mails s).
Definition set_p_writebuf (b : cstring) (s : pop3) : pop3 :=
  Pop3 (p_mailaddr s) (p_passwd s) (p_readbuf s) b (maillist s) (pop3_at s) (p_written s) (p_mails s).
Definition set_maillist (l : list cstring) (s : pop3) : pop3 :=
  Pop3 (p_mailaddr s) (p_passwd s) (p_readbuf s) (p_writebuf s) l (pop3_at s) (p_written s) (p_mails s).
Definition add_written (t : cstring) (s : pop3) : pop3 :=
  Pop3 (p_mailaddr s) (p_passwd s) (p_readbuf s) (p_writebuf s) (maillist s) (pop3_at s) (p_written s ++ [t]) (p_mails s).
Definition add_mail (m : mailcontent) (s : pop3) : pop3 :=
  Pop3 (p_mailaddr s) (p_passwd s) (p_readbuf s) (p_writebuf s) (maillist s) (pop3_at s) (p_written s) (p_mails s ++ [m]).

(** ** Words of a stream *)

(** [inbuffer >> word]: the word, the rest, and whether the end was reached. *)
Definition next_word (s : cstring) : cstring * cstring * bool :=
  let '(w, rest) := span (fun c => negb (isspace c)) (drop_while isspace s) in
  (w, rest, match rest with [] => true | _ => false end).

(** The loop over the list, up to its end or the end of the buffer: the numbers,
    the rest, and whether the final dot was found. *)
Fixpoint list_words (fuel : nat) (buf : cstring) (acc : list cstring) : list cstring * cstring * bool :=
  match fuel with
  | O => (acc, buf, false)
  | S fuel' =>
      let '(status, r1, eof1) := next_word buf in
      let '(maillength, r2, eof2) := if (eof1 : bool) then ([], r1, true) else next_word r1 in
      let acc' := match maillength with [] => acc | _ => acc ++ [status] end in
      if (eof2 : bool) && negb (str_eqb status ($".")) then (acc', r2, false)
      else if str_eqb status ($".") then (acc', r2, true)
      else list_words fuel' r2 acc'
  end.

Section Pop3.
Context {B : Base64Iterators} {E : RegexEngine} {L : Locale}.

Abbreviation A := (st pop3 mail_fault).

(** ** The coroutine *)

Definition suspend_at (p : pop3_point) : A () := st_modify (set_pop3_at p).

(** [goto restart]. *)
Definition restart : A () := suspend_at (Delay BeforeConnect).

Definition command_text (c : pop3_command) (s : pop3) : cstring :=
  match c with
  | Greeting => []
  | User => $"user " ++ p_mailaddr s ++ [LF]
  | Pass => $"pass " ++ p_passwd s ++ crlf
  | ListCmd => $"list" ++ [LF]
  | Retr => $"retr " ++ hd [] (maillist s) ++ crlf
  | Dele => $"dele " ++ hd [] (maillist s) ++ crlf
  end.

Definition send_pop3 (text : cstring) (p : pop3_point) : A () :=
  st_modify (fun s => set_pop3_at p (set_p_writebuf (p_writebuf s ++ text) s)).
Definition command (c : pop3_command) : A () := s ← st_get; send_pop3 (command_text c s) (WriteCommand c).

(** The head of the loop over the mails. *)
Definition next_mail : A () :=
  s ← st_get;
  match maillist s with
  | [] => send_pop3 ($"quit" ++ [LF]) WriteQuit
  | _ => command Retr
  end.

(** The next mail, after one was dealt with. *)
Definition mail_done : A () := st_modify (fun s => set_maillist (tl (maillist s)) s) ;; next_mail.

(** The word in front of an answer; the rest of its line stays in the buffer. *)
Definition take_status : A cstring :=
  s ← st_get;
  let '(status, rest, _) := next_word (p_readbuf s) in
  st_modify (set_p_readbuf rest) ;; mret status.

(** The loop over the list. *)
Definition read_list : A () :=
  s ← st_get;
  let '(l, rest, found) := list_words (S (length (p_readbuf s))) (p_readbuf s) (maillist s) in
  st_modify (fun s => set_maillist l (set_p_readbuf rest s)) ;;
  if (found : bool) then next_mail else suspend_at (ReadList false).

Definition answered (c : pop3_command) (ec : bool) : A () :=
  status ← take_status;
  let ok := str_eqb status ($"+OK") in
  match c with
  | Greeting => if ok then command User else restart
  | User => if ok then command Pass else restart
  | Pass => if ok then command ListCmd else restart
  | ListCmd => if ok then st_modify (set_maillist []) ;; suspend_at (ReadList true) else restart
  | Retr => if ok then suspend_at ReadMail else restart
  | Dele => if negb ok && ec then restart else mail_done
  end.

(** [process_mail]: the rest of the buffer is read as a mail, the handler is
    called. *)
Definition process_mail (fuel : nat) : A () :=
  s ← st_get;
  m ← st_lift (read_mail fuel (p_readbuf s));
  st_modify (fun s => add_mail m (set_p_readbuf [] s)) ;;
  suspend_at InHandler.

(** How an operation ends: with the data that was read before, if any, and with
    an error or not; the handler ends with a number. *)
Inductive pop3_outcome : Type := Finished (ec : bool) (written : nat) (data : cstring) | Returned (n : Z).

Definition outcome_ec (o : pop3_outcome) : bool := match o with Finished ec _ _ => ec | Returned _ => false end.
Definition outcome_data (o : pop3_outcome) : cstring := match o with Finished _ _ d => d | Returned _ => [] end.

(** A write ends: with an error, only a part of the buffer was taken. *)
Definition write_ended (o : pop3_outcome) : A () :=
  s ← st_get;
  let n := match o with Finished true n _ => n | _ => length (p_writebuf s) end in
  st_modify (add_written (take n (p_writebuf s))) ;;
  st_modify (set_p_writebuf (drop n (p_writebuf s))).

(** [m_readbuf.reset()] before the answer is read. *)
Definition await (c : pop3_command) : A () := st_modify (fun s => set_pop3_at (ReadAnswer c) (set_p_readbuf [] s)).

Definition handle_pop3 (fuel : nat) (o : pop3_outcome) : A () :=
  s ← st_get;
  match pop3_at s with
  | Delay BeforeConnect => suspend_at Connect
  | Connect => if outcome_ec o then suspend_at (Delay AfterFailure) else await Greeting
  | Delay AfterFailure => suspend_at (Delay BeforeConnect)
  | WriteCommand c =>
      write_ended o ;;
      match c with User => if outcome_ec o then restart else await c | _ => await c end
  | ReadAnswer c => st_modify (set_p_readbuf (p_readbuf s ++ outcome_data o)) ;; answered c (outcome_ec o)
  | ReadList first =>
      (if (first : bool) then st_modify (set_p_readbuf (p_readbuf s ++ outcome_data o)) else mret ()) ;; read_list
  | ReadMail => st_modify (set_p_readbuf (p_readbuf s ++ outcome_data o)) ;; process_mail fuel
  | InHandler => match o with Returned n => if n =? 0 then mail_done else command Dele | _ => mret () end
  | WriteQuit => write_ended o ;; suspend_at (Delay AfterQuit)
  | Delay AfterQuit => suspend_at (Delay BeforeRestart)
  | Delay BeforeRestart => restart
  end.

Fixpoint pop3_run (fuel : nat) (os : list pop3_outcome) : A () :=
  match os with [] => mret () | o :: os' => handle_pop3 fuel o ;; pop3_run fuel os' end.

(** The constructor, with the server it will connect to, and the first call. *)
Definition pop3_server (user mailserver : cstring) : cstring :=
  match mailserver with [] => default_server ($"pop.") user | _ => mailserver end.
Definition new_pop3 (user passwd : cstring) : pop3 := Pop3 user passwd [] [] [] (Delay BeforeConnect) [] [].
End Pop3.
