(* ===== verification/Pop3Facts.v ===== *)
(** Theorems on the fetching of mail: a whole session, a list that never ends, and
    the words that are taken for numbers of mails. *)

From S2P Require Import Prelude CLib EscapeString Settings Regex Base64 PTree Avbot MailFormat MailFacts Smtp Pop3.

(** ** Words *)

Definition word (w : cstring) : Prop := Forall (fun c => isspace c = false) w /\ w <> [].

Lemma skip_blanks b s : Forall (fun c => isspace c = true) b -> drop_while isspace (b ++ s) = drop_while isspace s.
Proof. induction 1 as [|c b Hc _ IH]; cbn [app drop_while]; [reflexivity|]. now rewrite Hc. Qed.

(** A word between blanks. *)
Lemma next_word_run b w c rest :
  Forall (fun c => isspace c = true) b -> word w -> isspace c = true -> next_word (b ++ w ++ c :: rest) = (w, c :: rest, false).
Proof.
  intros Hb [Hw Hne] Hc. unfold next_word. rewrite (skip_blanks b _ Hb).
  assert (drop_while isspace (w ++ c :: rest) = w ++ c :: rest) as ->.
  { destruct w as [|x w]; [contradiction|]. inversion_clear Hw as [|? ? Hx _]. cbn [app drop_while]. now rewrite Hx. }
  rewrite span_stop; [reflexivity| |].
  - eapply Forall_impl; [exact Hw|]. cbv beta. intros x Hx. now rewrite Hx.
  - cbn. now rewrite Hc.
Qed.

(** The answer to LIST behind its first line: numbers and lengths, then a dot. *)
Definition list_text (items : list (cstring * cstring)) : cstring :=
  concat (map (fun it => fst it ++ $" " ++ snd it ++ crlf) items) ++ $"." ++ crlf.

Definition item_ok (it : cstring * cstring) : Prop := word (fst it) /\ word (snd it) /\ fst it <> $".".

Lemma list_words_run items : forall fuel b acc,
  Forall (fun c => isspace c = true) b -> Forall item_ok items -> (length items < fuel)%nat ->
  list_words fuel (b ++ list_text items) acc = (acc ++ map fst items, [], true).
Proof.
  induction items as [|[n l] items IH]; intros fuel b acc Hb Hi Hf; (destruct fuel as [|fuel]; [cbn in Hf; lia|]); cbn [list_words].
  - unfold list_text. cbn [map concat app].
    assert (next_word (b ++ $"." ++ crlf) = ($".", crlf, false)) as ->
      by (apply (next_word_run b ($".") CR [LF] Hb); [split; [repeat constructor|discriminate]|reflexivity]).
    cbv beta iota. change (next_word crlf) with (([] : cstring), ([] : cstring), true). cbv beta iota. cbn [str_eqb andb negb app]. now rewrite app_nil_r.
  - inversion_clear Hi as [|? ? (Hn & Hl & Hd) Hi']. cbn [fst snd] in *. cbn [length] in Hf.
    assert (b ++ list_text ((n, l) :: items) = b ++ n ++ " "%char :: (l ++ CR :: [LF] ++ list_text items)) as ->.
    { unfold list_text. cbn [map concat fst snd]. rewrite <- !app_assoc. reflexivity. }
    rewrite (next_word_run b n " " _ Hb Hn eq_refl). cbv beta iota.
    assert (next_word (" "%char :: (l ++ CR :: [LF] ++ list_text items)) = (l, CR :: [LF] ++ list_text items, false)) as ->
      by (apply (next_word_run [" "%char] l CR ([LF] ++ list_text items)); [repeat constructor|exact Hl|reflexivity]).
    cbv beta iota. cbn [andb]. apply str_eqb_neq in Hd. rewrite Hd. destruct Hl as [_ Hl]. destruct l as [|y l]; [contradiction|].
    change (CR :: [LF] ++ list_text items) with (crlf ++ list_text items). rewrite IH; [|repeat constructor|exact Hi'|lia].
    cbn [map fst]. now rewrite <- app_assoc.
Qed.

Lemma list_text_length items : (length items <= length (list_text items))%nat.
Proof.
  unfold list_text. rewrite length_app. induction items as [|it items IH]; cbn [map concat length]; [lia|]. rewrite !length_app in *. cbn [length list_ascii_of_string] in *.
  change (length crlf) with 2%nat in *. lia.
Qed.

(** ** A session *)

(** A mail on the server: its number and length, the rest of the line of the
    answer and the text behind it, what the bot reads in it, and what the handler
    returns. *)
Record pop3_mail : Type := Pop3Mail {
  pm_number : cstring; pm_length : cstring; pm_rest : cstring; pm_text : cstring; pm_content : mailcontent; pm_delete : Z
}.

Definition ended (data : cstring) : pop3_outcome := Finished false 0 data.
Definition ok_answer (rest : cstring) : pop3_outcome := ended ($"+OK" ++ rest).

Definition mail_events (m : pop3_mail) : list pop3_outcome :=
  [ended []; ok_answer (pm_rest m); ended (pm_text m); Returned (pm_delete m)]
  ++ (if pm_delete m =? 0 then [] else [ended []; ok_answer crlf]).

(** The login, up to the accepted LIST. *)
Definition login_events (rest : cstring) : list pop3_outcome :=
  [ended []; ended []; ok_answer rest; ended []; ok_answer rest; ended []; ok_answer rest; ended []; ok_answer crlf].

(** A whole session. *)
Definition pop3_events (rest : cstring) (ms : list pop3_mail) : list pop3_outcome :=
  login_events rest ++ ended (list_text (map (fun m => (pm_number m, pm_length m)) ms)) :: concat (map mail_events ms) ++ [ended []].

Definition mail_commands (m : pop3_mail) : list cstring :=
  ($"retr " ++ pm_number m ++ crlf) :: (if pm_delete m =? 0 then [] else [$"dele " ++ pm_number m ++ crlf]).

Section Session.
Context {B : Base64Iterators} {E : RegexEngine} {L : Locale}.
Variables (user passwd : cstring) (fuel : nat).

Record mail_ok (m : pop3_mail) : Prop := {
  mo_item : item_ok (pm_number m, pm_length m);
  mo_rest : exists c r, pm_rest m = c :: r /\ isspace c = true;
  mo_read : read_mail fuel (pm_rest m ++ pm_text m) = Ok (pm_content m)
}.

Definition pop3_state (b w : cstring) (l : list cstring) (p : pop3_point) (out : list cstring) (ms : list mailcontent) : pop3 :=
  Pop3 user passwd b w l p out ms.

Lemma pop3_run_app os os' s s' : pop3_run fuel os s = Ok ((), s') -> pop3_run fuel (os ++ os') s = pop3_run fuel os' s'.
Proof.
  revert s. induction os as [|o os IH]; intros s; cbn [app pop3_run]; unfold mbind, st_bind; [now intros [= <-]|].
  destruct (handle_pop3 fuel o s) as [[[] s1]|e]; [apply IH|discriminate].
Qed.

(** The word of an answer. *)
Lemma ok_word rest : (exists c r, rest = c :: r /\ isspace c = true) -> next_word ($"+OK" ++ rest) = ($"+OK", rest, false).
Proof. intros (c & r & -> & Hc). apply (next_word_run [] ($"+OK")); [constructor|split; [repeat constructor|discriminate]|exact Hc]. Qed.

(** A command is written and answered. *)
Lemma write_run c b w l out ms :
  c <> Greeting ->
  handle_pop3 fuel (ended []) (pop3_state b w l (WriteCommand c) out ms) = Ok ((), pop3_state [] [] l (ReadAnswer c) (out ++ [w]) ms).
Proof.
  intros Hc. unfold handle_pop3, write_ended, ended, pop3_state. run. cbn [pop3_at p_writebuf]. rewrite firstn_all, drop_all.
  now destruct c.
Qed.

Lemma answer_run c rest l out ms :
  (exists x r, rest = x :: r /\ isspace x = true) ->
  handle_pop3 fuel (ok_answer rest) (pop3_state [] [] l (ReadAnswer c) out ms)
  = match c with
    | Greeting => command User | User => command Pass | Pass => command ListCmd
    | ListCmd => st_modify (set_maillist []) ;; suspend_at (ReadList true)
    | Retr => suspend_at ReadMail | Dele => mail_done
    end (pop3_state rest [] l (ReadAnswer c) out ms).
Proof.
  intros Hr. unfold handle_pop3, answered, take_status. run. cbn [pop3_at pop3_state p_readbuf set_p_readbuf outcome_data ok_answer ended app].
  change ("+"%char :: "O"%char :: "K"%char :: rest) with ($"+OK" ++ rest). rewrite (ok_word rest Hr). cbv beta iota. now destruct c.
Qed.

Lemma command_run c b l p out ms :
  command c (pop3_state b [] l p out ms) = Ok ((), pop3_state b (command_text c (pop3_state b [] l p out ms)) l (WriteCommand c) out ms).
Proof. reflexivity. Qed.

(** The state behind [next_mail]: the next mail is asked for, or the session
    ends. *)
Definition asked (b : cstring) (l : list cstring) (out : list cstring) (ms : list mailcontent) : pop3 :=
  match l with
  | [] => pop3_state b ($"quit" ++ [LF]) [] WriteQuit out ms
  | n :: _ => pop3_state b ($"retr " ++ n ++ crlf) l (WriteCommand Retr) out ms
  end.

Lemma next_mail_run b l p out ms : next_mail (pop3_state b [] l p out ms) = Ok ((), asked b l out ms).
Proof. now destruct l. Qed.

Lemma mail_done_run b n l p out ms : mail_done (pop3_state b [] (n :: l) p out ms) = Ok ((), asked b l out ms).
Proof. exact (next_mail_run b l p out ms). Qed.

(** The text of a mail is read. *)
Lemma text_run m l out ms :
  mail_ok m ->
  handle_pop3 fuel (ended (pm_text m)) (pop3_state (pm_rest m) [] l ReadMail out ms)
  = Ok ((), pop3_state [] [] l InHandler out (ms ++ [pm_content m])).
Proof. intros [_ _ Hm]. unfold handle_pop3, process_mail. run. cbn [pop3_at pop3_state p_readbuf set_p_readbuf outcome_data ended]. now rewrite Hm. Qed.

(** One mail, deleted or not. *)
Lemma mail_run m b ms l out :
  mail_ok m ->
  exists b', pop3_run fuel (mail_events m) (asked b (pm_number m :: l) out ms)
             = Ok ((), asked b' l (out ++ mail_commands m) (ms ++ [pm_content m])).
Proof.
  intros Hm. pose proof (mo_rest m Hm) as Hr. unfold mail_events, mail_commands. cbn [asked app pop3_run]. unfold mbind, st_bind.
  rewrite write_run by discriminate. rewrite answer_run by exact Hr.
  unfold suspend_at, st_modify. cbv beta iota. unfold set_pop3_at at 1. cbn [pop3_state p_mailaddr p_passwd p_readbuf p_writebuf maillist p_written p_mails].
  fold (pop3_state (pm_rest m) [] (pm_number m :: l) ReadMail (out ++ [$"retr " ++ pm_number m ++ crlf]) ms).
  rewrite text_run by exact Hm.
  unfold handle_pop3 at 1. unfold mbind, st_bind, st_get. cbn [pop3_at pop3_state]. destruct (pm_delete m =? 0).
  - exists []. fold (pop3_state [] [] (pm_number m :: l) InHandler (out ++ [$"retr " ++ pm_number m ++ crlf]) (ms ++ [pm_content m])).
    rewrite mail_done_run. reflexivity.
  - exists crlf. unfold command, send_pop3, mbind, st_bind, st_get, st_modify. cbv beta iota.
    cbn [app pop3_run]. unfold mbind, st_bind.
    change (set_pop3_at _ _) with (pop3_state [] ($"dele " ++ pm_number m ++ crlf) (pm_number m :: l) (WriteCommand Dele) (out ++ [$"retr " ++ pm_number m ++ crlf]) (ms ++ [pm_content m])).
    rewrite write_run by discriminate. rewrite answer_run by (exists CR, [LF]; split; reflexivity).
    rewrite mail_done_run, <- app_assoc. reflexivity.
Qed.

(** All mails, and the end of the session. *)
Lemma mails_run mails : forall b out ms,
  Forall mail_ok mails ->
  exists b', pop3_run fuel (concat (map mail_events mails) ++ [ended []]) (asked b (map pm_number mails) out ms)
             = Ok ((), pop3_state b' [] [] (Delay AfterQuit) (out ++ concat (map mail_commands mails) ++ [$"quit" ++ [LF]]) (ms ++ map pm_content mails)).
Proof.
  induction mails as [|m mails IH]; intros b out ms Hm.
  - exists b. cbn [map concat app]. rewrite app_nil_r. reflexivity.
  - inversion_clear Hm as [|? ? Hm0 Hms]. cbn [map concat]. destruct (mail_run m b ms (map pm_number mails) out Hm0) as [b1 H1].
    destruct (IH b1 (out ++ mail_commands m) (ms ++ [pm_content m]) Hms) as [b2 H2]. exists b2.
    rewrite <- app_assoc, (pop3_run_app _ _ _ _ H1), H2, <- !app_assoc. reflexivity.
Qed.

(** The list of the mails. *)
Lemma list_run items out :
  Forall item_ok items ->
  handle_pop3 fuel (ended (list_text items)) (pop3_state crlf [] [] (ReadList true) out []) = Ok ((), asked [] (map fst items) out []).
Proof.
  intros Hi. unfold handle_pop3, read_list. run. cbn [pop3_at pop3_state p_readbuf set_p_readbuf outcome_data ended maillist].
  rewrite list_words_run; [|repeat constructor|exact Hi|].
  - cbn [app]. run. apply (next_mail_run [] (map fst items) (ReadList true) out []).
  - rewrite length_app. pose proof (list_text_length items). lia.
Qed.

Definition login_commands : list cstring := [$"user " ++ user ++ [LF]; $"pass " ++ passwd ++ crlf; $"list" ++ [LF]].

Lemma login_run rest :
  (exists c r, rest = c :: r /\ isspace c = true) ->
  pop3_run fuel (login_events rest) (new_pop3 user passwd) = Ok ((), pop3_state crlf [] [] (ReadList true) login_commands []).
Proof.
  intros Hr. unfold login_events. cbn [pop3_run]. unfold mbind, st_bind.
  change (handle_pop3 fuel (ended []) (new_pop3 user passwd)) with (Ok ((), pop3_state [] [] [] Connect [] []) : result mail_fault (() * pop3)). cbv iota.
  change (handle_pop3 fuel (ended []) (pop3_state [] [] [] Connect [] [])) with (Ok ((), pop3_state [] [] [] (ReadAnswer Greeting) [] []) : result mail_fault (() * pop3)). cbv iota.
  rewrite answer_run by exact Hr. rewrite command_run, write_run by discriminate.
  rewrite answer_run by exact Hr. rewrite command_run, write_run by discriminate.
  rewrite answer_run by exact Hr. rewrite command_run, write_run by discriminate.
  rewrite answer_run by (exists CR, [LF]; split; reflexivity). reflexivity.
Qed.

Lemma session_run rest mails :
  (exists c r, rest = c :: r /\ isspace c = true) -> Forall mail_ok mails ->
  exists s, pop3_run fuel (pop3_events rest mails) (new_pop3 user passwd) = Ok ((), s)
  /\ p_written s = login_commands ++ concat (map mail_commands mails) ++ [$"quit" ++ [LF]]
  /\ p_mails s = map pm_content mails /\ pop3_at s = Delay AfterQuit /\ maillist s = [].
Proof.
  intros Hr Hm.
  assert (Forall item_ok (map (fun m => (pm_number m, pm_length m)) mails)) as Hi
    by (apply Forall_map; eapply Forall_impl; [exact Hm|]; intros m [H _ _]; exact H).
  destruct (mails_run mails [] login_commands [] Hm) as [b H]. eexists. split; [|split; [|split; [|split]]; cycle 2].
  1: unfold pop3_events; rewrite (pop3_run_app _ _ _ _ (login_run rest Hr)); cbn [pop3_run]; unfold mbind, st_bind.
  1: rewrite (list_run _ login_commands Hi), map_map; exact H.
  all: reflexivity.
Qed.

(** C34: a session of the mail fetcher with a server that accepts the name, the
    password and every command, that answers LIST by the bare line +OK, and whose list of mails
    arrives whole, in one read of its own, as every other answer and every
    mail does: the client writes the name, the password, LIST, one RETR per
    listed mail in the order of the list, a DELE behind each mail for which the
    handler returns a number other than 0, and QUIT, and nothing else; the handler
    is given every mail once, as it is read from the text that the server sent. *)
Theorem pop3_session rest mails :
  (exists c r, rest = c :: r /\ isspace c = true) -> Forall mail_ok mails ->
  exists s, pop3_run fuel (pop3_events rest mails) (new_pop3 user passwd) = Ok ((), s)
  /\ p_written s = login_commands ++ concat (map mail_commands mails) ++ [$"quit" ++ [LF]]
  /\ p_mails s = map pm_content mails /\ pop3_at s = Delay AfterQuit /\ maillist s = [].
Proof. exact (session_run rest mails). Qed.
End Session.

(** ** An example *)

Definition example_locale : Locale := Build_Locale (fun s _ => Some s).

Definition example_pop3_mail : pop3_mail :=
  Pop3Mail ($"1") ($"38") ($" 38 octets" ++ crlf) ($"from: me@b.c" ++ crlf ++ $"subject: hi" ++ crlf ++ crlf ++ $"hello" ++ crlf ++ $"." ++ crlf)
    (MailContent ($"me@b.c") [] ($"hi") ($"text/plain") ($"hello" ++ crlf ++ $"." ++ crlf ++ [LF])) 1.

Lemma pop3_session_witness :
  exists s, pop3_run (L := example_locale) 1 (pop3_events crlf [example_pop3_mail]) (new_pop3 ($"you") ($"secret")) = Ok ((), s)
  /\ p_written s = [$"user you" ++ [LF]; $"pass secret" ++ crlf; $"list" ++ [LF]; $"retr 1" ++ crlf; $"dele 1" ++ crlf; $"quit" ++ [LF]]
  /\ p_mails s = [pm_content example_pop3_mail] /\ pop3_at s = Delay AfterQuit /\ maillist s = [].
Proof.
  apply (pop3_session (L := example_locale) ($"you") ($"secret") 1 crlf [example_pop3_mail]).
  - now exists CR, [LF].
  - constructor; [|apply List.Forall_nil]. split.
    + repeat split; try discriminate; repeat constructor.
    + now exists " "%char, ($"38 octets" ++ crlf).
    + vm_compute. reflexivity.
Defined.

(** ** Lists in pieces *)

(** A list whose end is not in the first packet is never read: what arrives later
    is not committed to the buffer, so every later packet only makes the loop run
    over the buffer that is already empty, and the session stays there for ever. *)
Theorem split_list_stuck {B : Base64Iterators} {E : RegexEngine} {L : Locale} fuel (s : pop3) (os : list pop3_outcome) :
  p_readbuf s = [] -> pop3_at s = ReadList false ->
  exists s', pop3_run fuel os s = Ok ((), s') /\ pop3_at s' = ReadList false /\ maillist s' = maillist s /\ p_written s' = p_written s.
Proof.
  revert s. induction os as [|o os IH]; intros s Hb Hp; [now exists s|].
  assert (handle_pop3 fuel o s = Ok ((), set_pop3_at (ReadList false) (set_maillist (maillist s) (set_p_readbuf [] s)))) as E1.
  { unfold handle_pop3, read_list. run. rewrite Hp. cbv beta iota. run. rewrite Hb. reflexivity. }
  destruct (IH (set_pop3_at (ReadList false) (set_maillist (maillist s) (set_p_readbuf [] s))) eq_refl eq_refl) as (s' & H & Hat & Hl & Hw).
  exists s'. cbn [pop3_run]. unfold mbind, st_bind. rewrite E1. auto.
Qed.

(** The words behind the "+OK" of LIST are taken for the number and the length of
    a mail. *)
Theorem list_answer_misread :
  list_words 9 ($" 2 messages" ++ crlf ++ $"1 120" ++ crlf ++ $"2 200" ++ crlf ++ $"." ++ crlf) []
  = ([$"2"; $"1"; $"2"], [], true).
Proof. vm_compute. reflexivity. Qed.
