(* ===== verification/MailSystem.v ===== *)
(** The mail components together: what [mx::detail::smtp] hands to a server and
    [mx::pop3] gets back from it. *)

From S2P Require Import Prelude CLib EscapeString Settings Regex Base64 PTree Avbot MailFormat MailFacts Smtp SmtpFacts Pop3 Pop3Facts.

Lemma header_of_snoc k (h : headers) kv : fst kv <> k -> header_of k (h ++ [kv]) = header_of k h.
Proof.
  intros Hk. unfold header_of. induction h as [|x h IH]; cbn [app List.find].
  - now rewrite (proj2 (str_eqb_neq _ _) Hk).
  - now destruct (str_eqb (fst x) k).
Qed.

Section Delivery.
Context {B : Base64Iterators} {BL : Base64Laws B} {E : RegexEngine} {EL : RegexLaws E} {L : Locale}.

Definition delivered (h : headers) (s : cstring) : mailcontent :=
  MailContent (header_of ($"from") (map sent h)) (header_of ($"to") (map sent h)) [] ($"text/plain") (decoded_bytes s).

(** What [process_mail] makes of a mail that was written. *)
Lemma read_mail_run h s answer rest fuel :
  Forall header_ok h -> NoDup (map fst h) -> lf_free answer -> Forall (fun c => c <> ":"%char) answer -> answer <> [] -> mail_end rest -> s <> [] ->
  read_mail (S fuel) (answer ++ [LF] ++ mail_text h s ++ rest) = Ok (delivered h s).
Proof.
  intros Hh Hd Hlf Hcol Hne Hend Hs. unfold read_mail. rewrite read_run by (assumption || now left). cbn [mbind result_bind].
  destruct (written_headers h Hh) as (_ & _ & Hct & Hsub). unfold select_content, read_as. cbn [select_best m_header]. rewrite Hct.
  assert (forall t ct, perl_search charset_re (c_str ct) = None -> decode_content_charset t ct = Ok t) as Hdec.
  { intros t ct Hn. unfold decode_content_charset. now rewrite regex_search_perl, Hn. }
  rewrite (Hdec _ []) by reflexivity. cbn [mbind result_bind find_mimetype fst snd].
  rewrite (Hdec _ ($"text/plain")) by (vm_compute; reflexivity). cbn [mbind result_bind fst snd].
  rewrite Hsub, !header_of_snoc by discriminate. unfold delivered. destruct s; [contradiction|reflexivity].
Qed.

(** C7: a mail reaches its reader.  A mail with a text and with headers of
    one line each, none of them a subject, a content type or a transfer encoding, and
    one bare address at most in [from] and in [to], is sent by the SMTP client
    to a server that takes a recipient and whose answers arrive whole: the client
    ends with one call of the handler without an error, and the mail is the last it
    wrote.  When a POP3 server then lists this mail alone, answers LIST by a bare +OK line
    and sends the list in one read of its own, and hands out the mail as it was written, the POP3 client
    calls its handler once, with the addresses of the mail, each with a semicolon
    behind it, no subject, and the text as [base64_decode] leaves it. *)
Theorem mail_delivered (asserts : bool) (h : headers) (s : cstring) (o o' : smtp_object) (s0 : smtp) (v : server)
    (user passwd number len answer rest : cstring) (n : Z) (fuel : nat) :
  async_sendmail (Mail h false (inl s)) o = Some (o', s0) -> server_ok v -> existsb (takes v) (rcpts s0) = true ->
  Forall header_ok h -> NoDup (map fst h) -> Z.of_nat (length h) < 2 ^ 32 -> Z.of_nat (length s) < 2 ^ 32 -> s <> [] ->
  item_ok (number, len) -> lf_free answer -> Forall (fun c => c <> ":"%char) answer -> (exists c r, answer = c :: r /\ isspace c = true) ->
  (exists c r, rest = c :: r /\ isspace c = true) ->
  exists s1 data s2,
    smtp_run asserts (session_events v (rcpts s0)) s0 = Ok ((), s1) /\ smtp_at s1 = SmtpEnded /\ handler_calls s1 = [true]
    /\ last (wire s1) = Some (offers_tls v, data)
    /\ pop3_run (S fuel) (pop3_events rest [Pop3Mail number len (answer ++ [LF]) data (delivered h s) n]) (new_pop3 user passwd) = Ok ((), s2)
    /\ p_mails s2 = [delivered h s].
Proof.
  intros Hsend Hv Htake Hh Hd Hn Hl Hs Hi Hlf Hcol (c & r & -> & Hc) Hrest. pose proof (written_mail asserts h s Hh Hn Hl) as Hw.
  unfold async_sendmail in Hsend. destruct (List.find _ _) as [kv|]; [|discriminate]. injection Hsend as <- <-. cbn [rcpts] in *.
  destruct (smtp_session_run asserts (o_mailaddr o) (o_mailserver o) (o_AUTH o) _ _ 0 v Hv _ Htake Hw) as (s1 & Hrun & Hat & Hcall & Hwire).
  set (data := mail_text h s ++ crlf ++ $"." ++ crlf) in *.
  set (m := Pop3Mail number len ((c :: r) ++ [LF]) data (delivered h s) n).
  destruct (session_run user passwd (S fuel) rest [m]) as (s2 & Hpop & _ & Hmails & _); [exact Hrest| |].
  - constructor; [|constructor]. split; [exact Hi|now exists c, (r ++ [LF])|]. unfold m, data. cbn [pm_rest pm_text pm_content].
    rewrite <- app_assoc. apply read_mail_run; try assumption; [discriminate|now right].
  - exists s1, data, s2. repeat split; try assumption. rewrite Hwire, !last_app. reflexivity.
Qed.
End Delivery.

Lemma example_header_ok : header_ok ($"to", $"a@b.c").
Proof.
  split.
  - split; [split; [repeat constructor|discriminate]|repeat constructor|reflexivity|]. now exists ($"a@b.c"), ";"%char.
  - cbn. lia.
  - repeat constructor.
  - intros [Hk|[Hk|[Hk|[]]]]; discriminate Hk.
Qed.

Lemma mail_delivered_witness :
  exists s1 data s2,
    smtp_run true (session_events example_server [$"a@b.c"]) example_sending = Ok ((), s1) /\ smtp_at s1 = SmtpEnded /\ handler_calls s1 = [true]
    /\ last (wire s1) = Some (true, data)
    /\ pop3_run (L := example_locale) 1
         (pop3_events crlf [Pop3Mail ($"1") ($"70") ($" 70 octets" ++ crlf) data (MailContent [] ($"a@b.c;") [] ($"text/plain") ($"abc")) 1])
         (new_pop3 ($"you") ($"secret")) = Ok ((), s2)
    /\ p_mails s2 = [MailContent [] ($"a@b.c;") [] ($"text/plain") ($"abc")].
Proof.
  apply (mail_delivered (L := example_locale) true [($"to", $"a@b.c")] ($"abc") example_object (SmtpObject ($"me@b.c") ($"smtp.b.c") ($"AG1l") [$"a@b.c"])
           example_sending example_server ($"you") ($"secret") ($"1") ($"70") ($" 70 octets" ++ [CR]) crlf 1 0).
  - vm_compute. reflexivity.
  - exact example_server_ok.
  - reflexivity.
  - constructor; [exact example_header_ok|apply List.Forall_nil].
  - apply NoDup_singleton.
  - reflexivity.
  - reflexivity.
  - discriminate.
  - repeat split; try discriminate; repeat constructor.
  - repeat constructor.
  - repeat (constructor; [discriminate|]). constructor.
  - now exists " "%char, ($"70 octets" ++ [CR]).
  - now exists CR, [LF].
Defined.
