(* ===== verification/Html.v ===== *)
(** Character references of HTML, extension/html.hpp: [html_unescape], and the
    escaping of the chat log, libavlog/avlog.cpp: [html_escape]. *)

From S2P Require Import Prelude CLib OrdMap PTree Irc Avbot.

(** ** Unescaping *)

(** The names, in the order in which they are compared. *)
Definition html_entities : list (cstring * cstring) :=
  [($"nbsp", $" "); ($"mdash", $"-"); ($"quot", ["034"%char]); ($"amp", $"&"); ($"lt", $"<"); ($"gt", $">"); ($"ndash", $"–"); ($"euro", $"€");
   ($"sup1", $"¹"); ($"sup2", $"²"); ($"sup3", $"³"); ($"iexcl", $"¡"); ($"cent", $"¢"); ($"pound", $"£"); ($"curren", $"¤"); ($"yen", $"¥");
   ($"brvbar", $"¦"); ($"sect", $"§"); ($"uml", $"¨"); ($"copy", $"©"); ($"ordf", $"ª"); ($"not", $"¬"); ($"reg", $"®"); ($"macr", $"¯");
   ($"deg", $"°"); ($"plusmn", $"±"); ($"acute", $"´"); ($"micro", $"µ"); ($"para", $"¶"); ($"middot", $"·"); ($"cedil", $"¸"); ($"ordm", $"º");
   ($"raquo", $"»"); ($"frac14", $"¼"); ($"frac12", $"½"); ($"frac34", $"¾"); ($"iquest", $"¿"); ($"Agrave", $"À"); ($"Aacute", $"Á");
   ($"Acirc", $"Â"); ($"Atilde", $"Ã"); ($"Auml", $"Ä"); ($"Aring", $"Å"); ($"AElig", $"Æ"); ($"Ccedil", $"Ç"); ($"Egrave", $"È"); ($"Eacute", $"É");
   ($"Ecirc", $"Ê"); ($"Euml", $"Ë"); ($"Igrave", $"Ì"); ($"Iacute", $"Í"); ($"Icirc", $"Î"); ($"Iuml", $"Ï"); ($"ETH", $"Ð"); ($"Ntilde", $"Ñ");
   ($"Ograve", $"Ò"); ($"Oacute", $"Ó"); ($"Ocirc", $"Ô"); ($"Otilde", $"Õ"); ($"Ouml", $"Ö"); ($"times", $"×"); ($"Oslash", $"Ø");
   ($"Ugrave", $"Ù"); ($"Uacute", $"Ú"); ($"Ucirc", $"Û"); ($"Uuml", $"Ü"); ($"Yacute", $"Ý"); ($"THORN", $"Þ"); ($"szlig", $"ß"); ($"agrave", $"à");
   ($"aacute", $"á"); ($"acirc", $"â"); ($"atilde", $"ã"); ($"auml", $"ä"); ($"aring", $"å"); ($"aelig", $"æ"); ($"ccedil", $"ç"); ($"egrave", $"è");
   ($"eacute", $"é"); ($"ecirc", $"ê"); ($"euml", $"ë"); ($"igrave", $"ì"); ($"iacute", $"í"); ($"agrave", $"í"); ($"icirc", $"î"); ($"iuml", $"ï");
   ($"eth", $"ð"); ($"ntilde", $"ñ"); ($"ograve", $"ò"); ($"oacute", $"ó"); ($"ocirc", $"ô"); ($"otilde", $"õ"); ($"ouml", $"ö"); ($"divide", $"÷");
   ($"oslash", $"ø"); ($"ugrave", $"ù"); ($"uacute", $"ú"); ($"ucirc", $"û"); ($"uuml", $"ü"); ($"yacute", $"ý"); ($"thorn", $"þ")].

Section Html.
(** [boost::locale::conv::utf_to_utf<char>] of one wide character. *)
Variable utf_to_utf : Z -> cstring.

(** [escaped[0]] of an empty text is NUL; [strtol] reads up to a NUL. *)
Definition html_unescape_char (escaped : cstring) : cstring :=
  match escaped with
  | c :: s => if c =c "#" then utf_to_utf (int32 (fst (strtoll (c_str s))))
              else match List.find (fun e => str_eqb escaped (fst e)) html_entities with Some e => snd e | None => [] end
  | [] => []
  end.

(** The loop; [fuel] bounds its turns by the length of the text.  A final [&] sets
    the flag and ends the loop. *)
Fixpoint html_unescape_loop (fuel : nat) (s retstr : cstring) : cstring :=
  match fuel, s with
  | O, _ | _, [] => retstr
  | S fuel', c :: s' =>
      if c =c "&" then
        match s' with
        | [] => retstr
        | _ =>
            let '(es_seq, rest) := span (fun c => negb (c =c ";")) s' in
            match rest with
            | [] => $"解码错误"
            | _ :: rest' => html_unescape_loop fuel' rest' (retstr ++ html_unescape_char es_seq)
            end
        end
      else html_unescape_loop fuel' s' (retstr ++ [c])
  end.
Definition html_unescape (htmlcharseq : cstring) : cstring := html_unescape_loop (length htmlcharseq) htmlcharseq [].
End Html.

(** ** Escaping *)

Definition html_escape (txt : cstring) : cstring :=
  replace_all ($" ") ($"&nbsp;") (replace_all ($">") ($"&gt;") (replace_all ($"<") ($"&lt;") (replace_all ($"&") ($"&amp;") txt))).

(** ** Lemmas *)

(** One character at a time. *)
Definition subst_char (c : ascii) (rep : cstring) (x : ascii) : cstring := if x =c c then rep else [x].

Lemma find_single c s :
  find_str [c] s = None /\ flat_map (subst_char c []) s = s
  \/ exists a b, s = a ++ c :: b /\ find_str [c] s = Some (length a) /\ Forall (fun x => (x =c c) = false) a.
Proof.
  induction s as [|x s IH]; [now left|]. cbn [find_str is_prefix]. rewrite Ascii.eqb_sym, andb_true_r. unfold subst_char in *. cbn [flat_map].
  destruct (x =c c) eqn:Ex.
  - apply Ascii.eqb_eq in Ex as ->. right. now exists [], s.
  - destruct IH as [(-> & IH)|(a & b & -> & -> & Ha)]; [left; cbn; now rewrite IH|]. right. exists (x :: a), b. repeat split. now constructor.
Qed.

Lemma subst_none c rep s : Forall (fun x => (x =c c) = false) s -> flat_map (subst_char c rep) s = s.
Proof. induction 1 as [|x s Hx _ IH]; [reflexivity|]. cbn [flat_map]. unfold subst_char at 1. now rewrite Hx, IH. Qed.

Lemma subst_same c rep : subst_char c rep c = rep.
Proof. unfold subst_char. now rewrite Ascii.eqb_refl. Qed.

Lemma replace_single c rep s : replace_all [c] rep s = flat_map (subst_char c rep) s.
Proof.
  unfold replace_all. enough (forall n, (length s <= n)%nat -> replace_loop n [c] rep s = flat_map (subst_char c rep) s) as H by now apply H.
  intros n. revert s. induction n as [|n IH]; intros s Hn; [now destruct s; [|cbn in Hn; lia]|]. cbn [replace_loop].
  destruct (find_single c s) as [(-> & Hs)|(a & b & -> & -> & Ha)].
  - symmetry. apply subst_none. apply List.Forall_forall. intros x Hx. destruct (x =c c) eqn:Ex; [exfalso|reflexivity].
    apply (f_equal (@length _)) in Hs. clear - Hs Hx Ex. assert (length (flat_map (subst_char c []) s) < length s)%nat; [|lia]. clear Hs.
    induction s as [|y s IH]; [destruct Hx|]. cbn [flat_map length]. rewrite length_app. unfold subst_char at 1.
    assert (length (flat_map (subst_char c []) s) <= length s)%nat as Hle.
    { clear. induction s as [|y s IH]; [cbn; lia|]. cbn [flat_map length]. rewrite length_app. unfold subst_char at 1. destruct (y =c c); cbn; lia. }
    destruct Hx as [<-|Hx]; [rewrite Ex; cbn; lia|]. specialize (IH Hx). destruct (y =c c); cbn; lia.
  - rewrite flat_map_app. cbn [flat_map length]. rewrite (subst_none c rep a Ha). rewrite (subst_same c rep).
    rewrite take_app_length. rewrite (app_assoc a [c] b : a ++ c :: b = (a ++ [c]) ++ b). rewrite drop_app_length' by (rewrite length_app; cbn; lia).
    rewrite IH; [reflexivity|]. rewrite length_app in Hn. cbn in Hn. lia.
Qed.

(** What becomes of a character. *)
Definition escaped_char (x : ascii) : cstring :=
  if x =c "&" then $"&amp;" else if x =c "<" then $"&lt;" else if x =c ">" then $"&gt;" else if x =c " " then $"&nbsp;" else [x].

Lemma html_escape_chars s : html_escape s = flat_map escaped_char s.
Proof.
  unfold html_escape. change ($"&") with ["&"%char]. change ($"<") with ["<"%char]. change ($">") with [">"%char]. change ($" ") with [" "%char].
  rewrite !replace_single. induction s as [|x s IH]; [reflexivity|]. cbn [flat_map]. rewrite !flat_map_app, IH. f_equal.
  unfold escaped_char, subst_char at 4. destruct (x =c "&") eqn:E1; [reflexivity|]. cbn [flat_map]. unfold subst_char at 3.
  destruct (x =c "<") eqn:E2; [reflexivity|]. cbn [flat_map app]. unfold subst_char at 2. destruct (x =c ">") eqn:E3; [reflexivity|].
  cbn [flat_map app]. unfold subst_char at 1. now destruct (x =c " ").
Qed.

(** One reference is unescaped. *)
Lemma unescape_step utf fuel e rest ret :
  Forall (fun c => negb (c =c ";") = true) e -> e <> [] ->
  html_unescape_loop utf (S fuel) (("&"%char :: e) ++ ";"%char :: rest) ret = html_unescape_loop utf fuel rest (ret ++ html_unescape_char utf e).
Proof.
  intros He Hne. cbn [app html_unescape_loop Ascii.eqb Bool.eqb]. destruct (e ++ ";"%char :: rest) as [|x l] eqn:Ee; [now destruct e|].
  rewrite <- Ee, span_stop; [reflexivity|exact He|reflexivity].
Qed.

Lemma escaped_length x : (0 < length (escaped_char x))%nat.
Proof. unfold escaped_char. repeat case_match; cbn; lia. Qed.

Lemma escaped_step utf fuel x rest ret :
  html_unescape_loop utf (S fuel) (escaped_char x ++ rest) ret = html_unescape_loop utf fuel rest (ret ++ [x]).
Proof.
  assert (forall e c, Forall (fun c => negb (c =c ";") = true) e -> e <> [] -> html_unescape_char utf e = [c] ->
            html_unescape_loop utf (S fuel) (("&"%char :: e) ++ ";"%char :: rest) ret = html_unescape_loop utf fuel rest (ret ++ [c])) as H.
  { intros e c He Hne <-. now apply unescape_step. }
  unfold escaped_char. destruct (Ascii.eqb_spec x "&") as [->|E1]; [apply (H ($"amp")); (discriminate || reflexivity || (repeat constructor))|].
  destruct (Ascii.eqb_spec x "<") as [->|_]; [apply (H ($"lt")); (discriminate || reflexivity || (repeat constructor))|].
  destruct (Ascii.eqb_spec x ">") as [->|_]; [apply (H ($"gt")); (discriminate || reflexivity || (repeat constructor))|].
  destruct (Ascii.eqb_spec x " ") as [->|_]; [apply (H ($"nbsp")); (discriminate || reflexivity || (repeat constructor))|].
  cbn [app html_unescape_loop]. apply Ascii.eqb_neq in E1. now rewrite E1.
Qed.

(** The text of the chat log can be read back, and is only text.  Whatever
    was said, [html_unescape] of what [html_escape] makes of it is what was said;
    the escaped text has no blanks and no angle brackets, so nothing that was
    said becomes a tag of the log. *)
Theorem html_roundtrip (utf_to_utf : Z -> cstring) (s : cstring) :
  html_unescape utf_to_utf (html_escape s) = s
  /\ Forall (fun c => negb (c =c "<") && negb (c =c ">") && negb (c =c " ") = true) (html_escape s).
Proof.
  rewrite html_escape_chars. split.
  - unfold html_unescape. enough (forall fuel ret, (length (flat_map escaped_char s) <= fuel)%nat ->
      html_unescape_loop utf_to_utf fuel (flat_map escaped_char s) ret = ret ++ s) as H by now apply H.
    induction s as [|x s IH]; intros fuel ret Hf; [now destruct fuel; cbn; rewrite app_nil_r|]. cbn [flat_map] in *. rewrite length_app in Hf.
    pose proof (escaped_length x). destruct fuel as [|fuel]; [lia|]. rewrite escaped_step, IH by lia. now rewrite <- app_assoc.
  - apply Forall_flat_map, List.Forall_forall. intros x _. unfold escaped_char.
    destruct (x =c "&"); [repeat constructor|]. destruct (x =c "<") eqn:E2; [repeat constructor|]. destruct (x =c ">") eqn:E3; [repeat constructor|].
    destruct (x =c " ") eqn:E4; repeat constructor. now rewrite E2, E3, E4.
Qed.

(** A reference without its semicolon loses the whole text. *)
Theorem unescape_error utf (s e : cstring) :
  Forall (fun c => (c =c "&") = false) s -> Forall (fun c => negb (c =c ";") = true) e -> e <> [] -> html_unescape utf (s ++ $"&" ++ e) = $"解码错误".
Proof.
  intros Hs He Hne. unfold html_unescape.
  enough (forall ret, html_unescape_loop utf (length (s ++ $"&" ++ e)) (s ++ $"&" ++ e) ret = $"解码错误") as H by apply H.
  rewrite !length_app. cbn [length list_ascii_of_string Nat.add]. induction Hs as [|c s Hc _ IH]; intros ret.
  - cbn [length Nat.add app html_unescape_loop Ascii.eqb Bool.eqb]. destruct e as [|x e'] eqn:Ee; [contradiction|]. rewrite <- Ee in *.
    pose proof (span_stop (fun c => negb (c =c ";")) e [] He I) as Hs. rewrite app_nil_r in Hs. now rewrite Hs.
  - cbn [length Nat.add app html_unescape_loop]. rewrite Hc. apply IH.
Qed.
