(* ===== verification/Avlog.v ===== *)
(** The chat log, libavlog/avlog.hpp and avlog.cpp, and what main.cpp writes to it.

    Files are a function from names to contents, directories a list of names.
    What the operating system decides is a parameter: whether a directory can be
    created and whether a file whose directory exists can be opened.  The date and
    the time of a call are its arguments.  A stream is the name of its file; it
    writes at the end. *)

From S2P Require Import Prelude CLib EscapeString OrdMap PTree Irc Avbot Html.

(** ** State *)

(** A null pointer in [m_group_list] is [None]; a stream of a lecture that could
    not be opened stays in [m_lecture_file]. *)
Record avlog : Type := AvLog {
  m_path : cstring;
  m_group_list : list (cstring * option cstring);
  m_lecture_file : option (cstring * bool);
  m_lecture_groupid : cstring;
  log_files : cstring -> option cstring;
  log_dirs : list cstring
}.

(** A call through a null pointer. *)
Inductive log_fault : Type := NullFile.

Definition set_group_list (l : list (cstring * option cstring)) (s : avlog) : avlog :=
  AvLog (m_path s) l (m_lecture_file s) (m_lecture_groupid s) (log_files s) (log_dirs s).
Definition set_lecture (f : option (cstring * bool)) (g : cstring) (s : avlog) : avlog :=
  AvLog (m_path s) (m_group_list s) f g (log_files s) (log_dirs s).
Definition put_file (p t : cstring) (s : avlog) : avlog :=
  AvLog (m_path s) (m_group_list s) (m_lecture_file s) (m_lecture_groupid s) (fun q => if str_eqb q p then Some t else log_files s q) (log_dirs s).
Definition add_dir (d : cstring) (s : avlog) : avlog :=
  AvLog (m_path s) (m_group_list s) (m_lecture_file s) (m_lecture_groupid s) (log_files s) (d :: log_dirs s).

(** ** Names *)

(** [fs::path / name]. *)
Definition path_join (p name : cstring) : cstring :=
  match name with
  | [] => p
  | c :: _ =>
      if (c =c "/") || match p with [] => true | _ => bool_decide (last p = Some "/"%char) end then p ++ name else p ++ $"/" ++ name
  end.

Definition make_path (s : avlog) (groupid : cstring) : cstring := path_join (m_path s) groupid.
Definition make_filename (date p : cstring) : cstring := path_join p (date ++ $".html").

(** The text before the last separator. *)
Definition parent_path (p : cstring) : cstring :=
  match list_find (fun c => c = "/"%char) (rev p) with Some (i, _) => take (length p - 1 - i) p | None => [] end.

Definition path_exists (p : cstring) (s : avlog) : bool :=
  existsb (str_eqb p) (log_dirs s) || match log_files s p with Some _ => true | None => false end.

Section Avlog.
Variables (can_mkdir can_open : cstring -> bool).

Abbreviation A := (st avlog log_fault).

(** [std::ofstream] with [app] for a file that exists and [out] for a new one. *)
Definition open_file (p : cstring) : A bool :=
  s ← st_get;
  if existsb (str_eqb (parent_path p)) (log_dirs s) && can_open p then
    st_modify (put_file p (default [] (log_files s p))) ;; mret true
  else mret false.

Definition write_file (p data : cstring) : A () := st_modify (fun s => put_file p (default [] (log_files s p) ++ data) s).

Definition log_head : cstring :=
  $"<head><meta http-equiv=" ++ ["034"%char] ++ $"Content-Type" ++ ["034"%char] ++ $" content=" ++ ["034"%char]
  ++ $"text/plain; charset=UTF-8" ++ ["034"%char] ++ $">" ++ [LF].

Definition create_file (date groupid : cstring) : A (option cstring) :=
  s ← st_get;
  let save_path := make_path s groupid in
  made ← (if path_exists save_path s then mret true
          else if can_mkdir save_path then st_modify (add_dir save_path) ;; mret true
          else mret false);
  if (made : bool) then
    let name := make_filename date save_path in
    ok ← open_file name;
    if (ok : bool) then write_file name log_head ;; mret (Some name) else mret None
  else mret None.

(** The entry for a message. *)
Definition log_entry (time msg : cstring) (id : Z) : cstring :=
  if 0 <? id then $"<p id=" ++ ["034"%char] ++ itoa id ++ ["034"%char] ++ $"> " ++ time ++ $" " ++ msg ++ $" </p>" ++ [LF]
  else $"<p> " ++ time ++ $" " ++ msg ++ $" </p>" ++ [LF].

(** Whether the stream of the group is that of the day: otherwise a new file is
    created, and the old stream is closed. *)
Definition roll_file (date groupid : cstring) (f : option cstring) : A (option cstring) :=
  s ← st_get;
  if path_exists (make_filename date (make_path s groupid)) s then mret f
  else
    f' ← create_file date groupid;
    match f with
    | None => st_fail NullFile
    | Some _ => st_modify (fun s => set_group_list (insert_or_assign groupid f' (m_group_list s)) s) ;; mret f'
    end.

(** The stream for a message. *)
Definition group_stream (date groupid : cstring) : A (option cstring) :=
  s ← st_get;
  f ← match map_find groupid (m_group_list s) with
      | Some f => mret f
      | None =>
          f ← create_file date groupid;
          st_modify (fun s => set_group_list (insert_or_assign groupid f (m_group_list s)) s) ;; mret f
      end;
  roll_file date groupid f.

Definition add_log (date time groupid msg : cstring) (id : Z) : A bool :=
  f ← group_stream date groupid;
  match f with
  | None => st_fail NullFile
  | Some name =>
      let data := log_entry time msg id in
      write_file name data ;;
      s ← st_get;
      (match m_lecture_file s with
       | Some (lecture, good) => if str_eqb (m_lecture_groupid s) groupid && good then write_file lecture data else mret ()
       | None => mret ()
       end) ;;
      mret true
  end.

(** ** Lectures *)

Definition lecture_title (title : cstring) : cstring := $"<title>" ++ title ++ $"</title>" ++ [CR; LF].

Definition begin_lecture (groupid title : cstring) : A bool :=
  s ← st_get;
  match m_lecture_file s with
  | Some _ => mret false
  | None =>
      let save_path := make_path s groupid ++ $"/" ++ title ++ $".html" in
      ok ← open_file save_path;
      if (ok : bool) then
        st_modify (set_lecture (Some (save_path, true)) groupid) ;;
        write_file save_path (log_head ++ lecture_title title) ;;
        mret true
      else st_modify (fun s => set_lecture (Some (save_path, false)) (m_lecture_groupid s) s) ;; mret false
  end.

Definition end_lecture : A () := st_modify (set_lecture None []).
End Avlog.
