(* ===== verification/AvlogFacts.v ===== *)
(** Theorems on the chat log: what a call of [add_log] and of [begin_lecture] does
    to every file. *)

From S2P Require Import Prelude CLib EscapeString OrdMap PTree Irc Avbot Html Avlog.

(** ** Names *)

Definition plain_name (n : cstring) : Prop := n <> [] /\ Forall (fun c => c <> "/"%char) n.

Lemma join_plain p n : p <> [] -> last p <> Some "/"%char -> plain_name n -> path_join p n = p ++ "/"%char :: n.
Proof.
  intros Hp Hl [Hn Hs]. unfold path_join. destruct n as [|c n]; [contradiction|]. inversion_clear Hs as [|? ? Hc _]. apply Ascii.eqb_neq in Hc. rewrite Hc.
  destruct p as [|x p]; [contradiction|]. now rewrite bool_decide_eq_false_2.
Qed.

Lemma parent_join p n : Forall (fun c => c <> "/"%char) n -> parent_path (p ++ "/"%char :: n) = p.
Proof.
  intros Hn. unfold parent_path. rewrite rev_app_distr. cbn [rev]. rewrite <- app_assoc.
  assert (list_find (fun c => c = "/"%char) (rev n ++ ["/"%char] ++ rev p) = Some (length n, "/"%char)) as ->.
  { apply list_find_Some. rewrite lookup_app_r by (rewrite length_rev; lia). rewrite length_rev, Nat.sub_diag. split; [reflexivity|]. split; [reflexivity|].
    intros j y Hj Hlt. rewrite lookup_app_l in Hj by (rewrite length_rev; lia). apply list_elem_of_lookup_2, list_elem_of_In, in_rev in Hj.
    rewrite List.Forall_forall in Hn. now apply Hn. }
  rewrite length_app. cbn [length]. replace (length p + S (length n) - 1 - length n)%nat with (length p) by lia. apply take_app_length.
Qed.

(** The file of a group for a day. *)
Definition dir_of (s : avlog) (g : cstring) : cstring := m_path s ++ "/"%char :: g.
Definition file_in (s : avlog) (g title : cstring) : cstring := dir_of s g ++ "/"%char :: title ++ $".html".

Lemma html_plain n : Forall (fun c => c <> "/"%char) n -> Forall (fun c => c <> "/"%char) (n ++ $".html").
Proof. intros Hn. apply Forall_app_2; [exact Hn|]. repeat (constructor; [discriminate|]). constructor. Qed.

Lemma split_slash a b (x y : cstring) :
  Forall (fun c => c <> "/"%char) a -> Forall (fun c => c <> "/"%char) b -> a ++ "/"%char :: x = b ++ "/"%char :: y -> a = b /\ x = y.
Proof.
  intros Ha. revert b. induction Ha as [|c a Hc _ IH]; intros b Hb He; destruct b as [|d b]; cbn [app] in He.
  - injection He as ->. now split.
  - injection He as <- _. now inversion_clear Hb.
  - injection He as -> _. contradiction.
  - injection He as <- He. inversion_clear Hb. destruct (IH b) as [-> ->]; [assumption..|]. now split.
Qed.

Lemma file_in_inj s g t g' t' :
  plain_name g -> plain_name g' -> file_in s g t = file_in s g' t' -> g = g' /\ t = t'.
Proof.
  intros [_ Hg] [_ Hg'] He. unfold file_in, dir_of in He. rewrite <- !app_assoc in He. apply app_inv_head in He. injection He as He.
  apply split_slash in He as [-> He]; [|assumption..]. now apply app_inv_tail in He as ->.
Qed.

Lemma file_not_dir s g t g' : plain_name g' -> file_in s g t <> dir_of s g'.
Proof.
  intros [_ Hg'] He. unfold file_in, dir_of in He. rewrite <- app_assoc in He. apply app_inv_head in He. injection He as He.
  rewrite <- He in Hg'. apply Forall_app in Hg' as [_ Hg']. now inversion_clear Hg'.
Qed.

Lemma find_assigned {V} (g g' : cstring) (v : V) m :
  sorted m -> map_find g' (insert_or_assign g v m) = if str_eqb g' g then Some v else map_find g' m.
Proof.
  intros Hm. rewrite find_assign by exact Hm. destruct (str_eqb_spec g' g) as [->|Hne].
  - cbn. now rewrite str_ltb_irrefl.
  - cbn. destruct (str_ltb g' g) eqn:E1; [reflexivity|]. destruct (str_ltb g g') eqn:E2; [reflexivity|]. exfalso. now apply Hne, str_ltb_total.
Qed.

Lemma str_eqb_sym a b : str_eqb a b = str_eqb b a.
Proof. destruct (str_eqb_spec a b) as [->|Hne]; [now rewrite str_eqb_refl|]. symmetry. apply str_eqb_neq. congruence. Qed.

(** ** The state of a log in use *)

Section Log.
Variables (can_mkdir can_open : cstring -> bool) (date : cstring).
Hypothesis mkdir_works : forall p, can_mkdir p = true.
Hypothesis open_works : forall p, can_open p = true.
Hypothesis date_plain : plain_name date.

(** The directory of the log is named without a final separator; no file has the
    name of the directory of a group; streams are open, on the file of the day
    unless there is none yet; the lecture is not written to a file of the day. *)
Record log_ok (s : avlog) : Prop := {
  lo_path : m_path s <> [] /\ last (m_path s) <> Some "/"%char;
  lo_dirs : forall g, plain_name g -> log_files s (dir_of s g) = None;
  lo_file : forall g d, In d (log_dirs s) -> d <> file_in s g date;
  lo_stream : forall g f, map_find g (m_group_list s) = Some f ->
    plain_name g /\ In (dir_of s g) (log_dirs s)
    /\ exists p, f = Some p /\ (p = file_in s g date /\ log_files s p <> None \/ log_files s (file_in s g date) = None);
  lo_lecture : forall p good g, plain_name g -> m_lecture_file s = Some (p, good) -> p <> file_in s g date;
  lo_title : forall p, m_lecture_file s = Some (p, true) -> exists g t, p = file_in s g t;
  lo_sorted : sorted (m_group_list s)
}.

(** Only the files, the directories and the streams of groups differ. *)
Definition same_log (s s' : avlog) : Prop :=
  m_path s' = m_path s /\ m_lecture_file s' = m_lecture_file s /\ m_lecture_groupid s' = m_lecture_groupid s.

Lemma make_path_plain s g : log_ok s -> plain_name g -> make_path s g = dir_of s g.
Proof. intros [[Hp Hl] _ _ _ _ _ _] Hg. unfold make_path. now apply join_plain. Qed.

Lemma make_filename_plain s g : plain_name g -> make_filename date (dir_of s g) = file_in s g date.
Proof.
  intros [Hg Hs]. unfold make_filename. apply join_plain.
  - unfold dir_of. now destruct (m_path s).
  - unfold dir_of. rewrite last_app_cons. destruct g as [|c g _] using rev_ind; [contradiction|]. rewrite app_comm_cons, last_snoc. intros [= ->].
    apply Forall_app in Hs as [_ Hs]. now inversion_clear Hs.
  - destruct date_plain as [Hne Hd]. split; [now destruct date|now apply html_plain].
Qed.

(** A file for the day, with its head. *)
Lemma create_file_run s g : log_ok s -> plain_name g ->
  exists s1, create_file can_mkdir can_open date g s = Ok (Some (file_in s g date), s1)
    /\ same_log s s1 /\ m_group_list s1 = m_group_list s
    /\ (forall q, log_files s1 q = if str_eqb q (file_in s g date) then Some (default [] (log_files s (file_in s g date)) ++ log_head) else log_files s q)
    /\ (forall d, In d (log_dirs s1) <-> In d (log_dirs s) \/ d = dir_of s g).
Proof.
  intros Hs Hg. unfold create_file. run. rewrite (make_path_plain s g Hs Hg). unfold path_exists. rewrite (lo_dirs s Hs g Hg), orb_false_r, mkdir_works, (make_filename_plain s g Hg).
  assert (forall s0, m_path s0 = m_path s -> In (dir_of s g) (log_dirs s0) -> existsb (str_eqb (parent_path (file_in s g date))) (log_dirs s0) = true) as Hpar.
  { intros s0 _ Hin. unfold file_in. rewrite parent_join by (apply html_plain, date_plain). now apply existsb_str. }
  destruct (existsb (str_eqb (dir_of s g)) (log_dirs s)) eqn:Ed.
  - apply existsb_str in Ed. unfold open_file, write_file. run. rewrite Hpar, open_works by (reflexivity || exact Ed). cbn [andb]. eexists. split; [reflexivity|].
    split; [now split|]. split; [reflexivity|]. split.
    + intros q. cbn [log_files put_file]. rewrite str_eqb_refl. now destruct (str_eqb q _).
    + intros d. cbn [log_dirs put_file]. split; [auto|]. intros [Hd| ->]; assumption.
  - unfold open_file, write_file. run. rewrite Hpar, open_works by (reflexivity || now left). cbn [andb]. eexists. split; [reflexivity|].
    split; [now split|]. split; [reflexivity|]. split.
    + intros q. cbn [log_files put_file add_dir]. rewrite str_eqb_refl. now destruct (str_eqb q _).
    + intros d. cbn [log_dirs put_file add_dir In]. split; [intros [<-|]; auto|intros [| ->]; auto].
Qed.

(** *** The state is kept *)

Lemma log_ok_put s q t :
  (forall g, plain_name g -> q <> dir_of s g) -> log_files s q <> None \/ (forall g, plain_name g -> q <> file_in s g date) ->
  log_ok s -> log_ok (put_file q t s).
Proof.
  intros Hq Hold [H1 H2 H3 H4 H5 H6 H7]. split; try assumption.
  - intros g Hg. cbn [put_file log_files]. change (dir_of (put_file q t s) g) with (dir_of s g).
    destruct (str_eqb_spec (dir_of s g) q) as [<-|_]; [now apply Hq in Hg|now apply H2].
  - intros g f Hf. destruct (H4 g f Hf) as (Hg & Hd & p & -> & Hp). split; [exact Hg|]. split; [exact Hd|]. exists p. split; [reflexivity|].
    cbn [put_file log_files]. change (file_in (put_file q t s) g date) with (file_in s g date). destruct Hp as [(-> & Hp)|Hp].
    + left. split; [reflexivity|]. now destruct (str_eqb _ q).
    + right. destruct (str_eqb_spec (file_in s g date) q) as [<-|_]; [|exact Hp]. destruct Hold as [Hold|Hold]; [congruence|now apply Hold in Hg].
Qed.

(** The stream of a group becomes that of the day. *)
Lemma log_ok_stream s s1 g :
  log_ok s -> plain_name g -> same_log s s1 -> log_files s1 (file_in s g date) <> None ->
  (forall q, q <> file_in s g date -> log_files s1 q = log_files s q) ->
  (forall d, In d (log_dirs s1) <-> In d (log_dirs s) \/ d = dir_of s g) -> m_group_list s1 = m_group_list s ->
  log_ok (set_group_list (insert_or_assign g (Some (file_in s g date)) (m_group_list s1)) s1).
Proof.
  intros [H1 H2 H3 H4 H5 H6 H7] Hg (E1 & E2 & E3) Hnew Hfiles Hdirs El.
  assert (forall g0, dir_of (set_group_list (insert_or_assign g (Some (file_in s g date)) (m_group_list s1)) s1) g0 = dir_of s g0) as Ed.
  { intros g0. unfold dir_of. cbn [m_path set_group_list]. now rewrite E1. }
  assert (forall g0 t, file_in (set_group_list (insert_or_assign g (Some (file_in s g date)) (m_group_list s1)) s1) g0 t = file_in s g0 t) as Ef.
  { intros g0 t. unfold file_in. now rewrite Ed. }
  split; cbn [m_path m_group_list m_lecture_file log_files log_dirs set_group_list]; try setoid_rewrite Ed; try setoid_rewrite Ef; rewrite ?E1, ?E2.
  - exact H1.
  - intros g0 Hg0. rewrite Hfiles by (intros He; now apply (file_not_dir s g date g0 Hg0)). now apply H2.
  - intros g0 d Hd. apply Hdirs in Hd as [Hd| ->]; [now apply H3|]. intros He. symmetry in He. now apply file_not_dir in He.
  - intros g0 f. rewrite El, find_assigned by exact H7. destruct (str_eqb_spec g0 g) as [->|Hne].
    + intros [= <-]. split; [exact Hg|]. split; [apply Hdirs; now right|]. eexists. split; [reflexivity|]. left. now split.
    + intros Hf. destruct (H4 g0 f Hf) as (Hg0 & Hd & p & -> & Hp). split; [exact Hg0|]. split; [apply Hdirs; now left|]. exists p. split; [reflexivity|].
      assert (file_in s g0 date <> file_in s g date) as Hdiff by (intros He; now apply file_in_inj in He as [He _]).
      rewrite (Hfiles _ Hdiff). destruct Hp as [(-> & Hp)|Hp]; [left; now rewrite (Hfiles _ Hdiff)|now right].
  - exact H5.
  - exact H6.
  - rewrite El. now apply sorted_assign.
Qed.

(** The text of the day in front of a message. *)
Definition day_text (s : avlog) (g : cstring) : cstring :=
  match map_find g (m_group_list s), log_files s (file_in s g date) with
  | Some _, Some t => t
  | _, o => default [] o ++ log_head
  end.

Lemma group_stream_run s g : log_ok s -> plain_name g ->
  exists s1, group_stream can_mkdir can_open date g s = Ok (Some (file_in s g date), s1) /\ log_ok s1 /\ same_log s s1
    /\ log_files s1 (file_in s g date) = Some (day_text s g) /\ (forall q, q <> file_in s g date -> log_files s1 q = log_files s q)
    /\ forall g0, map_find g0 (m_group_list s1) = if str_eqb g0 g then Some (Some (file_in s g date)) else map_find g0 (m_group_list s).
Proof.
  intros Hs Hg. destruct (create_file_run s g Hs Hg) as (s1 & Ec & Hsame & El & Ef & Ed).
  assert (forall q, q <> file_in s g date -> log_files s1 q = log_files s q) as Hrest.
  { intros q Hq. rewrite Ef. now rewrite (proj2 (str_eqb_neq _ _) Hq). }
  assert (log_files s1 (file_in s g date) = Some (default [] (log_files s (file_in s g date)) ++ log_head)) as Hnew by (rewrite Ef; now rewrite str_eqb_refl).
  assert (log_ok (set_group_list (insert_or_assign g (Some (file_in s g date)) (m_group_list s1)) s1)) as Hok1.
  { apply log_ok_stream; try assumption. now rewrite Hnew. }
  assert (forall g0, map_find g0 (insert_or_assign g (Some (file_in s g date)) (m_group_list s1))
            = if str_eqb g0 g then Some (Some (file_in s g date)) else map_find g0 (m_group_list s)) as Hlist.
  { intros g0. rewrite El. apply find_assigned, Hs. }
  unfold group_stream, roll_file, day_text. run. destruct (map_find g (m_group_list s)) as [f|] eqn:Em.
  - destruct (lo_stream s Hs g f Em) as (_ & Hd & p & -> & Hp). rewrite (make_path_plain s g Hs Hg), (make_filename_plain s g Hg). unfold path_exists.
    assert (existsb (str_eqb (file_in s g date)) (log_dirs s) = false) as ->.
    { destruct (existsb _ _) eqn:Ee; [|reflexivity]. apply existsb_str in Ee. now apply (lo_file s Hs g) in Ee. }
    cbn [orb]. destruct (log_files s (file_in s g date)) as [t|] eqn:Et.
    + destruct Hp as [(-> & _)|Hp]; [|congruence]. exists s. do 5 (split; [assumption || reflexivity || now split|]).
      intros g0. now destruct (str_eqb_spec g0 g) as [->|_].
    + rewrite Ec. eexists. do 5 (split; [assumption || reflexivity|]). exact Hlist.
  - rewrite Ec. assert (make_path (set_group_list (insert_or_assign g (Some (file_in s g date)) (m_group_list s1)) s1) g = dir_of s g) as ->.
    { rewrite (make_path_plain _ g Hok1 Hg). unfold dir_of. cbn [m_path set_group_list]. now rewrite (proj1 Hsame). }
    rewrite (make_filename_plain s g Hg). unfold path_exists. cbn [log_files set_group_list log_dirs]. rewrite Hnew, orb_true_r.
    eexists. do 5 (split; [assumption || reflexivity|]). exact Hlist.
Qed.

(** A message is logged.  In a log in use, where directories and files can be
    created, [add_log] succeeds; it adds one entry behind the text of the day in
    the file of the group, which begins with its head when it is new, and the
    same entry to the file of the lecture exactly when the lecture is that of the
    group; it changes no other file. *)
Lemma add_log_run (s : avlog) (time g msg : cstring) (id : Z) :
  log_ok s -> plain_name g ->
  exists s', add_log can_mkdir can_open date time g msg id s = Ok (true, s') /\ log_ok s' /\ same_log s s'
    /\ (forall g0, map_find g0 (m_group_list s') = if str_eqb g0 g then Some (Some (file_in s g date)) else map_find g0 (m_group_list s))
    /\ forall q, log_files s' q =
         if str_eqb q (file_in s g date) then Some (day_text s g ++ log_entry time msg id)
         else match m_lecture_file s with
              | Some (p, true) =>
                  if str_eqb q p && str_eqb (m_lecture_groupid s) g then Some (default [] (log_files s q) ++ log_entry time msg id) else log_files s q
              | _ => log_files s q
              end.
Proof.
  intros Hs Hg. destruct (group_stream_run s g Hs Hg) as (s1 & Es & Hok & (E1 & E2 & E3) & Hday & Hrest & Hlist).
  unfold add_log. unfold mbind at 1, st_bind at 1. rewrite Es. unfold write_file. run. cbn [m_lecture_file put_file m_lecture_groupid]. rewrite E2, E3, Hday.
  assert (forall g0 t, file_in s g0 t = file_in s1 g0 t) as Efi by (intros; unfold file_in, dir_of; now rewrite E1).
  set (entry := log_entry time msg id). set (s2 := put_file (file_in s g date) (default [] (Some (day_text s g)) ++ entry) s1).
  assert (log_ok s2) as Hok2.
  { apply log_ok_put; [|left; now rewrite Hday|exact Hok]. intros g0 Hg0 He. rewrite Efi in He. now apply file_not_dir in He. }
  assert (forall q, log_files s2 q = if str_eqb q (file_in s g date) then Some (day_text s g ++ entry) else log_files s q) as Hq.
  { intros q. cbn [s2 put_file log_files]. destruct (str_eqb_spec q (file_in s g date)) as [_|Hne]; [reflexivity|now apply Hrest]. }
  assert (same_log s s2) as Hsame2 by (now split).
  destruct (m_lecture_file s) as [[p good]|] eqn:El; [|now exists s2].
  destruct (str_eqb (m_lecture_groupid s) g) eqn:Eg; cbn [andb]; [destruct good|].
  - eexists. split; [reflexivity|]. assert (p <> file_in s g date) as Hp by exact (lo_lecture s Hs p true g Hg El). split; [|split; [exact Hsame2|split; [exact Hlist|]]].
    + destruct (lo_title s Hs p El) as (g0 & t & ->). apply log_ok_put; [intros g1 Hg1 He|right; intros g1 Hg1 He|exact Hok2].
      * assert (dir_of s2 g1 = dir_of s g1) as E by (unfold dir_of; cbn; now rewrite E1). rewrite E in He. now apply file_not_dir in He.
      * assert (file_in s2 g1 date = file_in s g1 date) as E by (unfold file_in, dir_of; cbn; now rewrite E1). rewrite E in He. now apply (lo_lecture s Hs _ true g1 Hg1 El).
    + intros q. cbn [put_file log_files]. rewrite andb_true_r. destruct (str_eqb_spec q p) as [->|Hne].
      * rewrite (proj2 (str_eqb_neq _ _) Hp), Hq, (proj2 (str_eqb_neq _ _) Hp). reflexivity.
      * apply Hq.
  - now exists s2.
  - exists s2. split; [reflexivity|]. split; [exact Hok2|]. split; [exact Hsame2|]. split; [exact Hlist|]. intros q. rewrite Hq. destruct good; [|reflexivity]. now rewrite andb_false_r.
Qed.

(** *** The messages of a day *)

Record said : Type := Said { said_time : cstring; said_group : cstring; said_msg : cstring; said_id : Z }.

Fixpoint log_all (l : list said) : st avlog log_fault () :=
  match l with
  | [] => mret ()
  | m :: l' => add_log can_mkdir can_open date (said_time m) (said_group m) (said_msg m) (said_id m) ;; log_all l'
  end.

(** The entries of the messages of a group. *)
Definition entries (g : cstring) (l : list said) : cstring :=
  concat (map (fun m => log_entry (said_time m) (said_msg m) (said_id m)) (List.filter (fun m => str_eqb (said_group m) g) l)).

Definition is_lecture (s : avlog) (q : cstring) : Prop := exists p, m_lecture_file s = Some (p, true) /\ q = p.

(** C10: the log of a day.  In a log in use, where directories and files can be
    created, any sequence of messages of any groups is logged without a failure:
    the file of each group that said something has the text it had, or its head,
    and then one entry for each of its messages, in order; the file of the
    lecture has in addition the entries of its group; no other file changes. *)
Theorem day_logged (s : avlog) (l : list said) :
  log_ok s -> Forall (fun m => plain_name (said_group m)) l ->
  exists s', log_all l s = Ok ((), s') /\ log_ok s'
    /\ (forall g, In g (map said_group l) -> log_files s' (file_in s g date) = Some (day_text s g ++ entries g l))
    /\ (forall p, m_lecture_file s = Some (p, true) ->
          default [] (log_files s' p) = default [] (log_files s p) ++ entries (m_lecture_groupid s) l)
    /\ forall q, (forall g, In g (map said_group l) -> q <> file_in s g date) -> ~ is_lecture s q -> log_files s' q = log_files s q.
Proof.
  revert s. induction l as [|m l IH]; intros s Hs Hl.
  { exists s. split; [reflexivity|]. split; [exact Hs|]. split; [intros g []|]. split; [intros p _; now rewrite app_nil_r|reflexivity]. }
  inversion_clear Hl as [|? ? Hg Hl']. set (gm := said_group m) in *. set (e := log_entry (said_time m) (said_msg m) (said_id m)).
  destruct (add_log_run s (said_time m) gm (said_msg m) (said_id m) Hs Hg) as (s1 & E1 & Hok1 & (Ep & Elf & Elg) & Hlist & Hfiles). fold e in Hfiles.
  destruct (IH s1 Hok1 Hl') as (s' & E2 & Hok' & Hday & Hlec & Hrest). cbn [log_all]. unfold mbind, st_bind. fold gm. rewrite E1, E2.
  assert (forall g t, file_in s1 g t = file_in s g t) as Efi by (intros; unfold file_in, dir_of; now rewrite Ep).
  assert (forall g, plain_name g -> ~ is_lecture s (file_in s g date)) as Hnl by (intros g Hpg (p & Hp & Eq); now apply (lo_lecture s Hs p true g Hpg Hp)).
  assert (forall g, entries g (m :: l) = (if str_eqb gm g then e else []) ++ entries g l) as He.
  { intros g. unfold entries. cbn [List.filter]. fold gm. now destruct (str_eqb gm g). }
  assert (forall q, q <> file_in s gm date -> ~ is_lecture s q -> log_files s1 q = log_files s q) as Hkeep.
  { intros q Hq Hn. rewrite Hfiles, (proj2 (str_eqb_neq _ _) Hq). destruct (m_lecture_file s) as [[p [|]]|] eqn:El; try reflexivity.
    destruct (str_eqb_spec q p) as [->|_]; [|reflexivity]. exfalso. apply Hn. now exists p. }
  assert (log_files s1 (file_in s gm date) = Some (day_text s gm ++ e)) as Hgm by (rewrite Hfiles; now rewrite str_eqb_refl).
  exists s'. split; [reflexivity|]. split; [exact Hok'|]. split; [|split].
  - intros g Hin. rewrite He. destruct (in_dec (List.list_eq_dec ascii_dec) g (map said_group l)) as [Hin'|Hout].
    + rewrite <- Efi, (Hday g Hin'). f_equal. unfold day_text. rewrite Hlist, Efi. destruct (str_eqb_spec g gm) as [->|Hne].
      * rewrite Hgm, str_eqb_refl. unfold day_text. now rewrite <- app_assoc.
      * rewrite (proj2 (str_eqb_neq gm g)) by congruence. assert (plain_name g) as Hpg.
        { rewrite List.Forall_forall in Hl'. apply in_map_iff in Hin' as (m' & <- & Hm'). now apply Hl'. }
        rewrite (Hkeep (file_in s g date)); [reflexivity| |now apply Hnl]. intros Eq. now apply file_in_inj in Eq as [Eq _].
    + destruct Hin as [<-|Hin]; [|contradiction]. fold gm. rewrite str_eqb_refl.
      assert (entries gm l = []) as ->.
      { unfold entries. enough (List.filter (fun m0 => str_eqb (said_group m0) gm) l = []) as -> by reflexivity. fold gm in Hout. clear - Hout.
        induction l as [|m' l IH]; [reflexivity|]. cbn [map] in Hout. apply not_in_cons in Hout as [Hne Hout]. cbn [List.filter].
        rewrite (proj2 (str_eqb_neq _ _)) by congruence. now apply IH. }
      rewrite Hrest, Hgm, app_nil_r; [reflexivity| |].
      * intros g Hg' Eq. rewrite Efi in Eq. assert (plain_name g) as Hpg.
        { rewrite List.Forall_forall in Hl'. apply in_map_iff in Hg' as (m' & <- & Hm'). now apply Hl'. }
        apply file_in_inj in Eq as [<- _]; [|assumption..]. contradiction.
      * intros (p & Hp & Eq). rewrite Elf in Hp. now apply (lo_lecture s Hs p true gm Hg Hp).
  - intros p Hp. rewrite Hlec by (now rewrite Elf). rewrite Elg, He, app_assoc. f_equal. rewrite Hfiles, Hp.
    rewrite (proj2 (str_eqb_neq _ _) (lo_lecture s Hs p true gm Hg Hp)), str_eqb_refl. cbn [andb]. rewrite (str_eqb_sym gm). destruct (str_eqb _ gm); [reflexivity|now rewrite app_nil_r].
  - intros q Hq Hn. rewrite Hrest.
    + apply Hkeep; [apply Hq; now left|exact Hn].
    + intros g Hin. rewrite Efi. apply Hq. now right.
    + intros (p & Hp & ->). apply Hn. exists p. now rewrite <- Elf.
Qed.

(** *** Lectures *)

(** A lecture begins in the directory of a group that was logged; its title is not
    a date. *)
Theorem begin_lecture_correct (s : avlog) (g title : cstring) :
  log_ok s -> plain_name g -> In (dir_of s g) (log_dirs s) -> plain_name title -> title <> date -> m_lecture_file s = None ->
  exists s', begin_lecture can_open g title s = Ok (true, s') /\ log_ok s'
    /\ m_lecture_file s' = Some (file_in s g title, true) /\ m_lecture_groupid s' = g
    /\ forall q, log_files s' q = if str_eqb q (file_in s g title) then Some (default [] (log_files s q) ++ log_head ++ lecture_title title) else log_files s q.
Proof.
  intros Hs Hg Hd Ht Hne El. unfold begin_lecture. run. rewrite El, (make_path_plain s g Hs Hg).
  change (dir_of s g ++ $"/" ++ title ++ $".html") with (file_in s g title).
  unfold open_file, write_file. run. rewrite open_works, andb_true_r.
  assert (existsb (str_eqb (parent_path (file_in s g title))) (log_dirs s) = true) as ->.
  { unfold file_in. rewrite parent_join by (apply html_plain, Ht). now apply existsb_str. }
  eexists. split; [reflexivity|]. assert (forall g0, plain_name g0 -> file_in s g title <> file_in s g0 date) as Hf.
  { intros g0 Hg0 He. now apply file_in_inj in He as [_ He]. }
  split; [|split; [reflexivity|split; [reflexivity|]]].
  - apply log_ok_put; [intros g0 Hg0; exact (file_not_dir s g title g0 Hg0)|right; exact Hf|].
    destruct (log_ok_put s (file_in s g title) (default [] (log_files s (file_in s g title)))) as [H1 H2 H3 H4 H5 H6 H7];
      [intros g0 Hg0; exact (file_not_dir s g title g0 Hg0)|right; exact Hf|exact Hs|].
    split; try assumption.
    + intros p good g0 Hg0 [= <- _]. now apply Hf.
    + intros p [= <-]. now exists g, title.
  - intros q. cbn [put_file log_files set_lecture]. rewrite str_eqb_refl. destruct (str_eqb_spec q (file_in s g title)) as [->|_]; reflexivity.
Qed.
End Log.

(** A new log. *)
Definition new_log (path : cstring) : avlog := AvLog path [] None [] (fun _ => None) [].

Lemma new_log_ok date path : path <> [] -> last path <> Some "/"%char -> log_ok date (new_log path).
Proof. intros Hp Hl. split; try (intros; discriminate); try (now split); try (intros; contradiction). constructor. Qed.

Lemma day_logged_witness :
  exists s', log_all (fun _ => true) (fun _ => true) ($"20130102")
       [Said ($"t1") ($"12") ($"hi") 1; Said ($"t2") ($"34") ($"ho") 0; Said ($"t3") ($"12") ($"bye") 2] (new_log ($"/log")) = Ok ((), s')
    /\ log_files s' ($"/log/12/20130102.html") = Some (log_head ++ log_entry ($"t1") ($"hi") 1 ++ log_entry ($"t3") ($"bye") 2)
    /\ log_files s' ($"/log/34/20130102.html") = Some (log_head ++ log_entry ($"t2") ($"ho") 0).
Proof.
  destruct (day_logged (fun _ => true) (fun _ => true) ($"20130102") (fun _ => eq_refl) (fun _ => eq_refl)) with
    (s := new_log ($"/log")) (l := [Said ($"t1") ($"12") ($"hi") 1; Said ($"t2") ($"34") ($"ho") 0; Said ($"t3") ($"12") ($"bye") 2])
    as (s' & E & _ & H & _).
  - split; [discriminate|]. repeat (constructor; [discriminate|]). constructor.
  - apply new_log_ok; discriminate.
  - repeat constructor; discriminate.
  - exists s'. split; [exact E|]. split; [apply (H ($"12")); cbn; tauto|apply (H ($"34")); cbn; tauto].
Defined.

(** ** Failures *)

(** When the directory of a group cannot be created the program calls through a
    null pointer. *)
Theorem log_crash can_open date time (g msg : cstring) (id : Z) (s : avlog) :
  map_find g (m_group_list s) = None -> path_exists (make_path s g) s = false -> path_exists (make_filename date (make_path s g)) s = false ->
  add_log (fun _ => false) can_open date time g msg id s = Err NullFile.
Proof.
  intros Hf Hd Hn. assert (forall s0, log_files s0 = log_files s -> log_dirs s0 = log_dirs s -> m_path s0 = m_path s ->
    create_file (fun _ => false) can_open date g s0 = Ok (None, s0) /\ path_exists (make_filename date (make_path s0 g)) s0 = false) as H.
  { intros s0 E1 E2 E3. unfold make_path, path_exists in *. rewrite E1, E2, E3. split; [|exact Hn]. unfold create_file, make_path, path_exists. run.
    rewrite E1, E2, E3, Hd. reflexivity. }
  unfold add_log, group_stream, roll_file. run. rewrite Hf, (proj1 (H s eq_refl eq_refl eq_refl)).
  destruct (H (set_group_list (insert_or_assign g None (m_group_list s)) s) eq_refl eq_refl eq_refl) as [H1 H2]. rewrite H2. cbv beta iota. rewrite H1. reflexivity.
Qed.

(** A lecture whose file cannot be opened counts as begun: until [end_lecture], no
    lecture can begin. *)
Theorem lecture_blocked can_open (g title g' title' : cstring) (s : avlog) :
  m_lecture_file s = None -> existsb (str_eqb (parent_path (make_path s g ++ $"/" ++ title ++ $".html"))) (log_dirs s) = false ->
  exists s', begin_lecture can_open g title s = Ok (false, s') /\ begin_lecture can_open g' title' s' = Ok (false, s').
Proof. intros Hl Hd. unfold begin_lecture, open_file. run. rewrite Hl, Hd. eexists. split; reflexivity. Qed.
