(* ===== verification/Botctl.v ===== *)
(** The program around the bot: main.cpp (the log, the channels of the settings,
    captchas, input from the terminal) and botctl.cpp (the commands of the bot and
    the recording of mails), with auto_welcome.hpp.

    A call can have effects and then throw an exception, so the monad [sx]
    keeps the state on a failure.  What the program asks of other parts is
    recorded as [effect]s; the client of WebQQ answers with the events that
    [handle_search_group] and [handle_join_group] handle. *)

From S2P Require Import Prelude CLib EscapeString Settings OrdMap PTree Regex Irc Avbot Base64 MailFormat Html Avlog.

(** ** State *)

(** What [do_vc_code] calls with the text of a captcha. *)
Inductive vc_call : Type :=
| SearchAgain (groupqqnum channel : cstring)
| JoinAgain (group : qqGroup) (channel : cstring)
| OtherCall (n : nat).

Inductive effect : Type :=
| Post (channel msg : cstring)
| FeedVc (vcode : cstring)
| CallVc (c : vc_call) (vcode : cstring)
| SearchGroup (groupqqnum vfcode : cstring)
| JoinGroup (group : qqGroup) (vfcode : cstring)
| UpdateMembers (group : qqGroup)
| AddBuddy (group : qqGroup) (uin nick : cstring)
| SendMail (channel : cstring) (imf : mail)
| WriteVcode (data : cstring)
| CommandLater (message : ptree).

Record mail_recoder : Type := MailRecoder { rec_channel : cstring; pimf : mail }.

(** A row of the table of the database. *)
Record log_row : Type := LogRow { row_date : cstring; row_protocol : cstring; row_channel : cstring; row_nick : cstring; row_message : cstring }.

Record program : Type := Program {
  bot : avbot;
  logfile : avlog;
  avlogdb : list log_row;
  fetch_img : bool;
  need_vc : bool;
  (** The address of the mail account and whether it can send. *)
  m_mail_account : option (cstring * bool);
  do_vc_code : option vc_call;
  recoders : list mail_recoder;
  effects : list effect
}.

Definition set_bot (b : avbot) (s : program) : program :=
  Program b (logfile s) (avlogdb s) (fetch_img s) (need_vc s) (m_mail_account s) (do_vc_code s) (recoders s) (effects s).
Definition set_logfile (l : avlog) (s : program) : program :=
  Program (bot s) l (avlogdb s) (fetch_img s) (need_vc s) (m_mail_account s) (do_vc_code s) (recoders s) (effects s).
Definition add_row (r : log_row) (s : program) : program :=
  Program (bot s) (logfile s) (avlogdb s ++ [r]) (fetch_img s) (need_vc s) (m_mail_account s) (do_vc_code s) (recoders s) (effects s).
Definition set_need_vc (b : bool) (s : program) : program :=
  Program (bot s) (logfile s) (avlogdb s) (fetch_img s) b (m_mail_account s) (do_vc_code s) (recoders s) (effects s).
Definition set_vc_call (c : option vc_call) (s : program) : program :=
  Program (bot s) (logfile s) (avlogdb s) (fetch_img s) (need_vc s) (m_mail_account s) c (recoders s) (effects s).
Definition set_recoders (l : list mail_recoder) (s : program) : program :=
  Program (bot s) (logfile s) (avlogdb s) (fetch_img s) (need_vc s) (m_mail_account s) (do_vc_code s) l (effects s).
Definition add_effect (e : effect) (s : program) : program :=
  Program (bot s) (logfile s) (avlogdb s) (fetch_img s) (need_vc s) (m_mail_account s) (do_vc_code s) (recoders s) (effects s ++ [e]).

(** [ptree_bad_path] and [ptree_bad_data], exceptions of the bot, a null pointer in
    the log and for the account, and [exit(0)]. *)
Inductive program_fault : Type := BadPath | BadData | BotFault (e : avbot_error) | LogFault (e : log_fault) | NullQQ | Exited.

(** ** Exceptions *)

Abbreviation ex := (sx program program_fault).
Abbreviation ex_get := (sx_get (S := program) (E := program_fault)).
Abbreviation ex_modify := (sx_modify (S := program) (E := program_fault)).
Definition ex_fail {A} (e : program_fault) : ex A := sx_fail e.
Definition ex_need {A} (o : option A) : ex A := match o with Some a => mret a | None => ex_fail BadPath end.

(** A call of the bot or of the log; one that fails changes nothing here. *)
Definition ex_bot {A} (m : B A) : ex A :=
  fun s => match m (bot s) with Ok (a, b) => (set_bot b s, Ok a) | Err e => (s, Err (BotFault e)) end.
Definition ex_log {A} (m : st avlog log_fault A) : ex A :=
  fun s => match m (logfile s) with Ok (a, l) => (set_logfile l s, Ok a) | Err e => (s, Err (LogFault e)) end.

(** What [catch (...)] catches. *)
Definition is_exception (e : program_fault) : bool :=
  match e with BadPath | BadData | BotFault bad_path | BotFault out_of_range => true | _ => false end.
Definition catch_all (m : ex ()) : ex () :=
  fun s => match m s with (s', Err e) => (s', if is_exception e then Ok () else Err e) | r => r end.

(** Nothing, or a part of the code behind a condition. *)
Definition when (b : bool) (m : ex ()) : ex () := if b then m else mret ().

(** [get<int>]. *)
Definition get_int (p : cstring) (t : ptree) : ex Z :=
  v ← ex_need (pt_get p t);
  match stream_int v with Some n => mret n | None => ex_fail BadData end.

(** ** The program *)

Section Program.
Context {E : RegexEngine}.
(** The operating system, the clock, the row number of the database, the files
    with welcome messages, and the text of the version. *)
Variables (can_mkdir can_open : cstring -> bool) (date time : cstring) (rowid : list log_row -> Z).
Variables (welcome_file : cstring -> option cstring) (version build_date build_time : cstring).

Definition add_logfile (groupid msg : cstring) (id : Z) : ex () := ex_log (add_log can_mkdir can_open date time groupid msg id) ;; mret ().

(** *** Messages to the rooms *)

(** [msg_sender], and [sendmsg], which posts it and writes to the log. *)
Definition msg_sender (channel msg : cstring) : ex () := ex_bot (broadcast_message channel [] msg).
Definition sendmsg (channel msg : cstring) : ex () := ex_modify (add_effect (Post channel msg)) ;; add_logfile channel msg 0.

(** *** The log *)

Definition quoted (s : cstring) : cstring := [quote] ++ s ++ [quote].

(** The loop over the parts: the line of the log, and the text alone. *)
Fixpoint log_parts (fetch : bool) (l : list (cstring * ptree)) (linemessage textonly : cstring) : ex (cstring * cstring) :=
  match l with
  | [] => mret (linemessage, textonly)
  | (k, v) :: l' =>
      if str_eqb k ($"text") then log_parts fetch l' (linemessage ++ html_escape (pt_data v)) (textonly ++ pt_data v)
      else if str_eqb k ($"url") then
        log_parts fetch l' (linemessage ++ $"<a href=" ++ quoted (pt_data v) ++ $">" ++ pt_data v ++ $"</a>") textonly
      else if str_eqb k ($"cface") then
        if fetch then
          cface ← ex_need (pt_get ($"name") v);
          log_parts fetch l' (linemessage ++ $"<img src=" ++ quoted ($"../images/" ++ image_subdir_name cface ++ $"/" ++ cface) ++ $" />") textonly
        else
          url ← ex_need (pt_get ($"gchatpicurl") v);
          log_parts fetch l' (linemessage ++ [TAB; TAB] ++ $"<img src=" ++ quoted url ++ $" />" ++ crlf) textonly
      else if str_eqb k ($"img") then
        log_parts fetch l' (linemessage ++ [TAB; TAB] ++ $"<img src=" ++ quoted (pt_data v) ++ $" />" ++ crlf) textonly
      else log_parts fetch l' linemessage textonly
  end.

(** The logs of the QQ groups of the channel. *)
Fixpoint log_rooms (rooms : list cstring) (channel_name linemessage : cstring) (id : Z) : ex () :=
  match rooms with
  | [] => mret ()
  | r :: rooms' =>
      when (str_eqb (take 3 r) ($"qq:") && negb (str_eqb (drop 3 r) channel_name)) (add_logfile (drop 3 r) linemessage id) ;;
      log_rooms rooms' channel_name linemessage id
  end.

Definition avbot_log (message : ptree) : ex () :=
  protocol ← ex_need (pt_get ($"protocol") message);
  if str_eqb protocol ($"mail") then mret ()
  else
    parts ← ex_need (get_child ($"message") message);
    s ← ex_get;
    lt ← log_parts (fetch_img s) (pt_children parts) (pt_get_or ($"preamble") [] message) [];
    let channel_name := pt_get_or ($"channel") [] message in
    let nick := if str_eqb protocol ($"rpc") then [] else pt_get_or ($"who.nick") [] message in
    match channel_name with
    | [] => mret ()
    | _ =>
        ex_modify (add_row (LogRow time protocol channel_name nick (snd lt))) ;;
        s ← ex_get;
        let id := rowid (avlogdb s) in
        rooms ← ex_bot (channel_rooms channel_name);
        add_logfile channel_name (fst lt) id ;;
        log_rooms rooms channel_name (fst lt) id
    end.

(** *** Welcome *)

(** [auto_welcome]: a file that is missing or too big gives the text of the
    program. *)
Definition default_welcome : cstring :=
  $"欢迎加入本群." ++ [LF] ++ repeat TAB 8 ++ $"[请在群对应的 log 文件夹下放置一个 welcome.txt 文件存放欢迎内容.]".
Definition load_question (filename : cstring) : cstring :=
  match welcome_file filename with
  | Some t => if (81920 <? Z.of_nat (length t)) then default_welcome else t
  | None => default_welcome
  end.
(** [handle_question] for one name; it catches the exceptions of the sender. *)
Definition welcome (channel nick : cstring) : ex () :=
  let body := load_question (channel ++ $"/welcome.txt") in
  catch_all (msg_sender channel (nick ++ $"@" ++ $" " ++ body ++ [LF] ++ $" " ++ $"@" ++ nick)).

(** *** Captchas *)

Definition feed_login_verify_code (vcode : cstring) : ex () :=
  s ← ex_get;
  match m_qq_account (bot s) with
  | None => ex_fail NullQQ
  | Some qq => when (negb (is_online qq)) (ex_modify (add_effect (FeedVc vcode)))
  end.

Definition vc_code_decoded (ec : bool) (provider vccode : cstring) : ex () :=
  ex_modify (set_vc_call None) ;;
  ex_modify (set_need_vc false) ;;
  if ec then ex_bot (broadcast_all ($"验证码有错，重新登录QQ")) ;; feed_login_verify_code []
  else
    when (str_eqb provider ($"IRC/XMPP 好友辅助验证码解码器")) (ex_bot (broadcast_all ($"验证码已输入"))) ;;
    feed_login_verify_code vccode.

Definition on_verify_code (imgbuf : cstring) : ex () := ex_modify (set_need_vc true) ;; ex_modify (add_effect (WriteVcode imgbuf)).

(** A line from the terminal. *)
Definition stdin_feed_broadcast (line_input : cstring) : ex () :=
  s ← ex_get;
  if need_vc s then mret ()
  else
    let line := trim_right_if isspace line_input in
    when (1 <? Z.of_nat (length line)) (ex_bot (broadcast_all ($"来自 avbot 命令行的消息: " ++ line))).

(** *** Joining a group *)

Definition handle_join_group (channel : cstring) (group : option qqGroup) (needvc : bool) (vc_img_data : cstring) : ex () :=
  match group, needvc with
  | Some g, true =>
      ex_modify (add_effect (WriteVcode vc_img_data)) ;;
      msg_sender channel ($"哎呀，加入群" ++ qqnum g ++ $"的过程中要输入验证码，请使用 .qqbot vc XXXX 输入。文件为 qqlog 目录下的 vercode.jpeg") ;;
      ex_modify (set_vc_call (Some (JoinAgain g channel)))
  | Some g, false => msg_sender channel ($"哎呦妈呀，群加入了呢～等待对方管理员通过" ++ [LF] ++ $"记得修改 qqbotrc 将群添加到频道组哦~")
  | None, _ => msg_sender channel ($"哎呦妈呀，群加不了!")
  end.

Definition handle_search_group (groupqqnum channel : cstring) (group : option qqGroup) (needvc : bool) (vc_img_data : cstring) : ex () :=
  if needvc then
    ex_modify (add_effect (WriteVcode vc_img_data)) ;;
    msg_sender channel ($"哎呀，查找群" ++ groupqqnum ++ $"的过程中要输入验证码，请使用 .qqbot vc XXXX 输入。文件为 qqlog 目录下的 vercode.jpeg") ;;
    ex_modify (set_vc_call (Some (SearchAgain groupqqnum channel)))
  else
    match group with
    | Some g =>
        msg_sender channel ($"哈呀，验证码正确了个去的，申请加入ing") ;;
        ex_modify (add_effect (JoinGroup g []))
    | None => msg_sender channel ($"没找到没找到!")
    end.

(** *** Mails *)

Definition command_re (name : cstring) (r : regex) : regex := Seq (Chr any_char) (lit name r).
Definition subject_re : regex := command_re ($"qqbot mail subject ") (Seq (Opt (Chr quote_p)) (Seq (Group (Star any_char)) (Opt (Chr quote_p)))).

Definition set_header (k v : cstring) (m : mail) : mail :=
  let 'Mail h b t := m in
  Mail (if existsb (fun kv => str_eqb (fst kv) k) h then map (fun kv => if str_eqb (fst kv) k then (k, v) else kv) h else h ++ [(k, v)]) b t.
Definition append_body (t : cstring) (m : mail) : mail :=
  let 'Mail h b body := m in Mail h b (match body with inl s => inl (s ++ t) | inr ms => inr ms end).

Definition record_text (r : mail_recoder) (message : ptree) : ex (option mail_recoder) :=
  t ← ex_bot (format_message message);
  mret (Some (MailRecoder (rec_channel r) (append_body t (pimf r)))).

(** [mail_recoder::operator()] for a message; [None]: the slot is disconnected. *)
Definition record_message (r : mail_recoder) (message : ptree) : ex (option mail_recoder) :=
  match pt_get ($"channel") message with
  | None => record_text r message
  | Some channel =>
      if negb (str_eqb channel (rec_channel r)) then mret (Some r)
      else
        match pt_get ($"message.text") message with
        | None => record_text r message
        | Some text =>
            let tmsg := trim text in
            if negb (str_eqb tmsg ($".qqbot end mail")) && negb (str_eqb tmsg ($".qqbot mail end")) then
              match regex_match subject_re (c_str tmsg) with
              | Some what => mret (Some (MailRecoder (rec_channel r) (set_header ($"subject") (sub_match what 0) (pimf r))))
              | None => record_text r message
              end
            else
              s ← ex_get;
              when (match m_mail_account s with Some (_, enabled) => enabled | None => false end)
                (ex_modify (add_effect (SendMail (rec_channel r) (pimf r)))) ;;
              mret None
        end
  end.

(** The slots of [n] recorders from the [i]th, in the order in which they were
    connected. *)
Fixpoint record_slots (n i : nat) (message : ptree) : ex () :=
  match n with
  | O => mret ()
  | S n' =>
      s ← ex_get;
      match recoders s !! i with
      | None => mret ()
      | Some r =>
          r' ← record_message r message;
          match r' with
          | Some r1 => ex_modify (fun s => set_recoders (<[i := r1]> (recoders s)) s) ;; record_slots n' (S i) message
          | None => ex_modify (fun s => set_recoders (delete i (recoders s)) s) ;; record_slots n' i message
          end
      end
  end.

(** The mail was sent, or not. *)
Definition mail_finished (channel : cstring) (ec : bool) : ex () :=
  msg_sender channel (if ec then $"邮件发送失败！以上!" else $"邮件发送成功！以上!").

(** *** Commands *)

Definition help_text : cstring :=
  $"可用的命令" ++ [LF]
  ++ [TAB] ++ $".qqbot help" ++ [LF]
  ++ [TAB] ++ $".qqbot version" ++ [LF]
  ++ [TAB] ++ $".qqbot ping" ++ [LF]
  ++ [TAB] ++ $".qqbot joke off 关闭笑话" ++ [LF]
  ++ [TAB] ++ $".qqbot joke on 开启笑话" ++ [LF]
  ++ [TAB] ++ $".qqbot joke interval 80 设定笑话间隔到80s" ++ [LF]
  ++ [TAB] ++ $".qqbot 给大爷讲个笑话  讲个笑话" ++ [LF]
  ++ [TAB] ++ $".qqbot mail to " ++ quoted ($"emailaddress") ++ [LF]
  ++ [TAB] ++ $" 将命令中间的聊天内容发送到邮件 emailaddress,  注意引号" ++ [LF]
  ++ [TAB] ++ $" 使用 .qqbot mail subject 设置主题" ++ [LF]
  ++ [TAB] ++ $".qqbot mail end" ++ [LF]
  ++ [TAB] ++ $".qqbot welcome newbie 欢迎新人" ++ [LF]
  ++ $"== 以下命令需要管理员才能使用==" ++ [LF]
  ++ [TAB] ++ $".qqbot relogin 强制重新登录qq" ++ [LF] ++ [TAB] ++ $".qqbot reload 重新加载群成员列表" ++ [LF]
  ++ [TAB] ++ $".qqbot begin class XXX" ++ [TAB] ++ $"开课" ++ [LF] ++ [TAB] ++ $".qqbot end class 下课" ++ [LF]
  ++ $"以上!".

Definition mailto_re : regex := command_re ($"qqbot mail to ") (Seq (Opt (Chr quote_p)) (Seq (Group (Star any_char)) (Opt (Chr quote_p)))).
Definition login_vc_re : regex := command_re ($"vc ") (Group (Star any_char)).
Definition vc_re : regex := command_re ($"qqbot vc ") (Group (Star any_char)).
(** The group of the names of the command, by its alternatives. *)
Definition welcome_re (name : cstring) : regex := command_re ($"qqbot ") (lit name (lit ($" ") (Group (Star any_char)))).
Definition nickmap_re : regex :=
  lit ($".qqbot qqnickmap") (Seq (Plus (fun c => c =c " ")) (Seq (Group (Plus isdigit)) (Seq (Plus (fun c => c =c " "))
    (Group (Plus (not_char " ")))))).
Definition class_re : regex :=
  command_re ($"qqbot begin class") (Seq (Opt (Chr (fun c => c =c " "))) (Seq (Chr quote_p) (Seq (Opt (Group (Star any_char))) (Chr quote_p)))).
Definition join_re : regex := command_re ($"qqbot join group ") (Group (Plus isdigit)).

(** [regex_search] of an expression that begins with [^]: the first start of a
    line with a match; the text behind it is free. *)
Fixpoint search_lines (r : regex) (start : bool) (s : cstring) : option captures :=
  match (if start then regex_match (Seq r (Star any_char)) s else None) with
  | Some c => Some c
  | None =>
      match s with
      | [] => None
      | c :: s' =>
          let crlf := (c =c CR) && match s' with d :: _ => d =c LF | [] => false end in
          search_lines r (((c =c LF) || (c =c CR) || (c =c "012")) && negb crlf) s'
      end
  end.

Definition is_command (message name : cstring) : bool := str_eqb message name.

(** A mail to the address: a new slot. *)
Definition begin_mail (channel addr to : cstring) : ex () :=
  let imf := Mail [($"from", addr); ($"to", to); ($"subject", $"send by avbot")] false (inl []) in
  ex_modify (fun s => set_recoders (recoders s ++ [MailRecoder channel imf]) s).

(** The account of QQ, used without a check. *)
Definition get_qq : ex qq_account :=
  s ← ex_get;
  match m_qq_account (bot s) with Some qq => mret qq | None => ex_fail NullQQ end.

Definition vc_commands (channel message : cstring) : ex () :=
  match regex_match login_vc_re message with Some what => feed_login_verify_code (sub_match what 0) | None => mret () end ;;
  match regex_match vc_re message with
  | Some what =>
      s ← ex_get;
      match do_vc_code s with
      | Some c => ex_modify (add_effect (CallVc c (sub_match what 0)))
      | None => sendmsg channel ($"哈? 输入验证码干嘛?")
      end
  | None => mret ()
  end.

(** The name in a command to welcome somebody. *)
Definition welcome_name (message : cstring) : option cstring :=
  let try name := (fun what => sub_match what 0) <$> regex_match (welcome_re name) message in
  match try ($"newbee") with
  | Some n => Some n
  | None => match try ($"newbie") with Some n => Some n | None => try ($"welcome") end
  end.

Definition qqnickmap (channel message : cstring) : ex () :=
  match search_lines nickmap_re true message with
  | Some what =>
      qq ← get_qq;
      match get_Group_by_qq qq channel with
      | Some g =>
          match get_Buddy_by_uin g (sub_match what 0) with
          | Some _ => mret ()
          | None => ex_modify (add_effect (AddBuddy g (sub_match what 0) (sub_match what 1)))
          end
      | None => mret ()
      end
  | None => mret ()
  end.

Definition begin_class (channel title : cstring) : ex () :=
  match title with
  | [] => mret ()
  | _ =>
      qq ← get_qq;
      match get_Group_by_qq qq channel with
      | Some g =>
          ok ← ex_log (begin_lecture can_open (qqnum g) title);
          when (negb ok) (sendmsg channel ($"lecture failed!" ++ [LF]))
      | None => mret ()
      end
  end.

Definition reload_members (channel : cstring) : ex () :=
  qq ← get_qq;
  match get_Group_by_qq qq channel with Some g => ex_modify (add_effect (UpdateMembers g)) | None => mret () end ;;
  sendmsg channel ($"群成员列表重加载.").

(** What only an operator can do. *)
Definition operator_commands (channel message : cstring) : ex () :=
  match regex_match class_re message with
  | Some what => begin_class channel (sub_match what 0)
  | None =>
      if is_command message ($".qqbot end class") then ex_log end_lecture
      else if is_command message ($".qqbot exit") then ex_fail Exited
      else
        match regex_match join_re message with
        | Some what => qq ← get_qq; ex_modify (add_effect (SearchGroup (sub_match what 0) []))
        | None => mret ()
        end ;;
        when (is_command message ($".qqbot reload")) (reload_members channel)
  end.

(** From the check of [op]. *)
Definition checked_commands (jsonmessage : ptree) (channel message : cstring) : ex () :=
  qqnickmap channel message ;;
  op ← get_int ($"op") jsonmessage;
  if negb (op =? 1) then mret () else operator_commands channel message.

Definition on_bot_command (jsonmessage : ptree) : ex () :=
  channel ← ex_need (pt_get ($"channel") jsonmessage);
  text ← ex_need (pt_get ($"message.text") jsonmessage);
  let message := trim text in
  when (is_command message ($".qqbot help")) (sendmsg channel help_text) ;;
  if is_command message ($".qqbot ping") then sendmsg channel ($"我还活着!")
  else if is_command message ($".qqbot version")
  then sendmsg channel ($"我的版本是 " ++ version ++ $" (" ++ build_date ++ $" " ++ build_time ++ $")")
  else
    s ← ex_get;
    match regex_match mailto_re message, m_mail_account s with
    | Some what, Some (addr, _) => begin_mail channel addr (sub_match what 0)
    | _, _ =>
        vc_commands channel message ;;
        match welcome_name message with
        | Some [] => mret ()
        | Some nick => welcome channel nick ;; checked_commands jsonmessage channel message
        | None => checked_commands jsonmessage channel message
        end
    end.

(** A newcomer is welcomed after six seconds. *)
Definition my_on_bot_command (message : ptree) : ex () :=
  catch_all
    (match pt_get ($"newbee") message, pt_get ($"who.name") message with
     | Some _, Some nick =>
         ex_modify (add_effect (CommandLater (put ($"op") ($"1") (put ($"message.text") ($".qqbot newbee " ++ nick) message))))
     | _, _ => ex_need (pt_get ($"message.text") message) ;; on_bot_command message
     end).

(** The slots behind [forward_message]; a recorder that is connected while they
    run does not hear the message. *)
Definition slots (message : ptree) : ex () :=
  s ← ex_get;
  let n := length (recoders s) in
  avbot_log message ;; my_on_bot_command message ;; record_slots n 0 message.

(** A message of a protocol: the callback of the bot builds it and emits the
    signal, with [forward_message] as its first slot. *)
Definition hear (e : speech) : ex () :=
  ex_bot (receive e) ;;
  s ← ex_get;
  match last (on_messages (bot s)) with Some message => slots message | None => mret () end.

(** *** Settings *)

Fixpoint add_rooms (channel_name : cstring) (rooms : list cstring) : ex () :=
  match rooms with
  | [] => mret ()
  | c :: rooms' => ex_bot (add_to_channel channel_name c) ;; add_rooms channel_name rooms'
  end.

Fixpoint build_groups (m : Z) (gs : list cstring) : ex () :=
  match gs with
  | [] => mret ()
  | pergroup :: gs' =>
      let groups := split_on "," pergroup in
      match List.find (fun r => str_eqb (take 3 r) ($"qq:")) groups with
      | Some qqgroup => add_rooms (drop 3 qqgroup) groups ;; build_groups m gs'
      | None => add_rooms ($"group" ++ itoa (m + 1)) groups ;; build_groups (m + 1) gs'
      end
  end.
Definition build_group (chanelmapstring : cstring) : ex () := build_groups 1 (split_on ";" chanelmapstring).

Definition imgurlformater (baseurl : cstring) (qqmessage : ptree) : option cstring :=
  cface ← pt_get ($"name") qqmessage;
  Some (escape_path (baseurl ++ $"/images/" ++ image_subdir_name cface ++ $"/" ++ cface)).
End Program.
