(* ===== verification/BotctlFacts.v ===== *)
(** What the commands of the bot do: who may use which of them, and the mails it
    records. *)

From S2P Require Import Prelude CLib EscapeString Settings OrdMap PTree Regex Irc Avbot Base64 MailFormat Html Avlog Botctl.

(** ** What everybody may cause *)

(** A command that runs later only welcomes somebody.  [pending] is what waits for
    the text of a captcha. *)
Definition welcomes (message : ptree) : Prop := exists nick, pt_get ($"message.text") message = Some ($".qqbot newbee " ++ nick).
Definition user_effect (pending : option vc_call) (e : effect) : Prop :=
  match e with
  | SearchGroup _ _ | JoinGroup _ _ | UpdateMembers _ => False
  | CallVc c _ => pending = Some c
  | CommandLater m => welcomes m
  | _ => True
  end.

(** The lecture and what waits for a captcha are as before, and nothing new was
    asked for that is for operators. *)
Definition kept (s s' : program) : Prop :=
  m_lecture_file (logfile s') = m_lecture_file (logfile s) /\ m_lecture_groupid (logfile s') = m_lecture_groupid (logfile s)
  /\ do_vc_code s' = do_vc_code s
  /\ exists l, effects s' = effects s ++ l /\ Forall (user_effect (do_vc_code s)) l.
Definition safe {A} (m : ex A) : Prop := forall s, kept s (fst (m s)) /\ snd (m s) <> Err Exited.

#[export] Instance kept_preorder : PreOrder kept.
Proof.
  split.
  - intros s. repeat split. exists []. split; [now rewrite app_nil_r|constructor].
  - intros s1 s2 s3 (A1 & A2 & A4 & l & A3 & Al) (B1 & B2 & B4 & l' & B3 & Bl). split; [congruence|]. split; [congruence|]. split; [congruence|].
    exists (l ++ l'). split; [rewrite B3, A3; now rewrite app_assoc|]. rewrite A4 in Bl. now apply Forall_app.
Qed.

Create HintDb safe.

Lemma safe_ret {A} (a : A) : safe (mret a : ex A).
Proof. intros s. split; [reflexivity|discriminate]. Qed.
Lemma safe_get : safe ex_get.
Proof. intros s. split; [reflexivity|discriminate]. Qed.
Lemma safe_fail {A} e : e <> Exited -> safe (ex_fail e : ex A).
Proof. intros H s. split; [reflexivity|]. cbn. congruence. Qed.
Lemma safe_need {A} (o : option A) : safe (ex_need o).
Proof. destruct o; [apply safe_ret|now apply safe_fail]. Qed.
(** With what is known of the value. *)
Lemma safe_bind_eq {A B} (m : ex A) (k : A -> ex B) :
  safe m -> (forall a, (exists s s', m s = (s', Ok a)) -> safe (k a)) -> safe (m ≫= k).
Proof.
  intros Hm Hk s. unfold mbind, sx_bind. specialize (Hm s). destruct (m s) as [s' [a|e]] eqn:Em; cbn [fst snd] in Hm.
  - specialize (Hk a (ex_intro _ s (ex_intro _ s' Em)) s'). destruct Hm as [Hm _], Hk as [Hk Hr]. split; [now transitivity s'|exact Hr].
  - destruct Hm as [Hm He]. split; [exact Hm|]. cbn. congruence.
Qed.
Lemma safe_bind {A B} (m : ex A) (k : A -> ex B) : safe m -> (forall a, safe (k a)) -> safe (m ≫= k).
Proof. intros Hm Hk. apply safe_bind_eq; auto. Qed.
Lemma safe_need_bind {A B} (o : option A) (k : A -> ex B) : (forall a, o = Some a -> safe (k a)) -> safe (ex_need o ≫= k).
Proof. intros H. apply safe_bind_eq; [apply safe_need|]. intros a (s & s' & Ea). apply H. destruct o; [|discriminate]. now injection Ea as _ <-. Qed.
Lemma safe_when b m : safe m -> safe (when b m).
Proof. destruct b; [auto|intros _; apply safe_ret]. Qed.
Lemma safe_catch m : safe m -> safe (catch_all m).
Proof.
  intros Hm s. specialize (Hm s). unfold catch_all. destruct (m s) as [s' [a|e]]; [exact Hm|]. destruct Hm as [Hm He]. split; [exact Hm|].
  cbn. destruct (is_exception e); [discriminate|exact He].
Qed.
Lemma safe_bot {A} (m : B A) : safe (ex_bot m).
Proof.
  intros s. unfold ex_bot. destruct (m (bot s)) as [[a b]|e]; (split; [|discriminate]); [|reflexivity].
  repeat split. exists []. split; [now rewrite app_nil_r|constructor].
Qed.
Lemma safe_same f : (forall s, logfile (f s) = logfile s /\ do_vc_code (f s) = do_vc_code s /\ effects (f s) = effects s) -> safe (ex_modify f).
Proof.
  intros H s. split; [|discriminate]. cbn. destruct (H s) as (E1 & E2 & E3). unfold kept. rewrite E1, E2, E3. repeat split. exists [].
  split; [now rewrite app_nil_r|constructor].
Qed.
Lemma safe_effect e : (forall p, user_effect p e) -> safe (ex_modify (add_effect e)).
Proof. intros H s. split; [|discriminate]. repeat split. exists [e]. split; [reflexivity|]. now repeat constructor. Qed.

#[export] Hint Resolve safe_ret safe_get safe_need safe_bind safe_when safe_catch safe_bot safe_effect : safe.
#[export] Hint Extern 1 (_ <> Exited) => discriminate : safe.
#[export] Hint Resolve safe_fail : safe.
#[export] Hint Extern 1 (user_effect _ _) => exact I : safe.
#[export] Hint Extern 1 (safe (ex_modify _)) => (apply safe_same; intros; repeat split; reflexivity) : safe.

(** One step of a proof that a part of the program is safe. *)
Ltac safe_step :=
  match goal with
  | |- safe (mbind _ _) => apply safe_bind; [|intros ?]
  | |- safe (match ?x with _ => _ end) => destruct x
  | |- safe _ => solve [eauto 4 with safe]
  | |- forall _, _ => intros ?
  end.
Ltac safety := repeat safe_step.

(** *** The log *)

Definition lecture_kept {A} (m : st avlog log_fault A) : Prop :=
  forall s a s', m s = Ok (a, s') -> m_lecture_file s' = m_lecture_file s /\ m_lecture_groupid s' = m_lecture_groupid s.

Lemma lecture_bind {A B} (m : st avlog log_fault A) (k : A -> st avlog log_fault B) :
  lecture_kept m -> (forall a, lecture_kept (k a)) -> lecture_kept (m ≫= k).
Proof.
  intros Hm Hk s a s'. unfold mbind, st_bind. destruct (m s) as [[b s1]|e] eqn:Em; [|discriminate]. intros H. apply Hm in Em as [<- <-].
  now apply Hk in H.
Qed.
Lemma lecture_ret {A} (a : A) : lecture_kept (mret a).
Proof. intros s b s' [= _ <-]. now split. Qed.
Lemma lecture_get : lecture_kept (st_get (S := avlog)).
Proof. intros s b s' [= _ <-]. now split. Qed.
Lemma lecture_fail {A} e : lecture_kept (st_fail (A := A) e).
Proof. discriminate. Qed.
Lemma lecture_modify f :
  (forall s, m_lecture_file (f s) = m_lecture_file s /\ m_lecture_groupid (f s) = m_lecture_groupid s) -> lecture_kept (st_modify f).
Proof. intros H s b s' [= _ <-]. apply H. Qed.

Ltac lecture_step :=
  match goal with
  | |- lecture_kept (mbind _ _) => apply lecture_bind; [|intros ?]
  | |- lecture_kept (match ?x with _ => _ end) => destruct x
  | |- lecture_kept (mret _) => apply lecture_ret
  | |- lecture_kept st_get => apply lecture_get
  | |- lecture_kept (st_fail _) => apply lecture_fail
  | |- lecture_kept (st_modify _) => apply lecture_modify; now intros
  end.

Lemma create_file_lecture can_mkdir can_open date g : lecture_kept (create_file can_mkdir can_open date g).
Proof. unfold create_file, open_file, write_file. repeat lecture_step. Qed.

Lemma add_log_lecture can_mkdir can_open date time g msg id : lecture_kept (add_log can_mkdir can_open date time g msg id).
Proof.
  unfold add_log, group_stream, roll_file, write_file. repeat (lecture_step || apply create_file_lecture).
Qed.

Lemma safe_log {A} (m : st avlog log_fault A) : lecture_kept m -> safe (ex_log m).
Proof.
  intros H s. unfold ex_log. destruct (m (logfile s)) as [[a l]|e] eqn:Em; (split; [|discriminate]); [|reflexivity].
  apply H in Em as [E1 E2]. split; [exact E1|]. split; [exact E2|]. split; [reflexivity|]. exists []. split; [now rewrite app_nil_r|constructor].
Qed.

(** The number in the message says that the speaker is an operator. *)
Definition claims_op (message : ptree) : Prop := (pt_get ($"op") message ≫= stream_int) = Some 1.

Lemma later_text v m : pt_get ($"message.text") (put ($"op") ($"1") (put ($"message.text") v m)) = Some v.
Proof.
  change (pt_get ($"message.text") (put ($"op") ($"1") (put ($"message.text") v m))) with
    (pt_data <$> match find_child ($"message") (pt_children (put ($"op") ($"1") (put ($"message.text") v m))) with
                 | Some c => walk [$"text"] c | None => None end).
  change (put ($"op") ($"1") ?t) with (PTree (pt_data t)
    (update_child ($"op") (fun o => match o with Some c => PTree ($"1") (pt_children c) | None => pt_value ($"1") end) (pt_children t))).
  cbn [pt_children]. rewrite find_update_other by discriminate. now apply (get_put ($"message.text")).
Qed.

Lemma get_int_op json s s' n : get_int ($"op") json s = (s', Ok n) -> (pt_get ($"op") json ≫= stream_int) = Some n.
Proof.
  unfold get_int, mbind, sx_bind, option_bind. destruct (pt_get ($"op") json) as [v|]; [|discriminate]. cbn.
  destruct (stream_int v); [|discriminate]. now intros [= _ ->].
Qed.

(** White space around a text does not touch its words. *)
Lemma trim_prefix (c d : ascii) (p s : cstring) :
  isspace c = false -> isspace d = false -> exists y, trim (c :: p ++ d :: s) = c :: p ++ d :: y.
Proof.
  intros Hc Hd. unfold trim, trim_left_if, trim_right_if. cbn [drop_while]. rewrite Hc.
  exists (rev (drop_while isspace (rev s))). cbn [rev]. rewrite rev_app_distr. cbn [rev].
  replace (((rev s ++ [d]) ++ rev p) ++ [c]) with (rev s ++ d :: rev p ++ [c]) by (now rewrite <- !app_assoc).
  assert (forall x y, drop_while isspace (x ++ d :: y) = drop_while isspace x ++ d :: y) as E.
  { intros x y. induction x as [|a x IH]; cbn [app drop_while]; [now rewrite Hd|]. now destruct (isspace a). }
  rewrite E, rev_app_distr. cbn [rev]. rewrite rev_app_distr, rev_involutive. cbn [rev app]. now rewrite <- app_assoc.
Qed.

(** *** The message of a speech *)

(** A member of the group with the rights of an operator, or its owner. *)
Definition operator (s : avbot) (e : speech) : Prop :=
  match e with
  | FromQQ group_code who _ =>
      exists qq g b, m_qq_account s = Some qq /\ get_Group_by_gid qq group_code = Some g /\ get_Buddy_by_uin g who = Some b
        /\ (Z.land (mflag b) 1 = 1 \/ uin b = owner g)
  | _ => False
  end.

Lemma receive_message s e :
  (exists err, receive e s = Err err) \/ exists message, receive e s = on_message message s /\ (claims_op message -> operator s e).
Proof.
  destruct e as [[w f loc t]|xr who t|gc who m]; cbn [receive].
  - destruct f as [|c f]; [left; now eexists|right]. eexists. split; [reflexivity|]. intros H. vm_compute in H. discriminate.
  - right. eexists. split; [reflexivity|]. intros H. vm_compute in H. discriminate.
  - unfold callback_on_qq_group_message. run. cbn [operator]. destruct (m_qq_account s) as [qq|]; [|left; now eexists]. right.
    destruct (get_Group_by_gid qq gc) as [g|] eqn:Eg; cbv zeta iota beta.
    + destruct (get_Buddy_by_uin g who) as [b|] eqn:Eb; cbv iota beta.
      * eexists. split; [reflexivity|]. intros H. exists qq, g, b. repeat split; auto.
        unfold claims_op in H. unfold add_op in H.
        destruct (Z.eqb_spec (Z.land (mflag b) 1) 1) as [Hf|_]; [now left|].
        destruct (str_eqb_spec (uin b) (owner g)) as [Ho|_]; [now right|]. cbv in H. discriminate.
      * eexists. split; [reflexivity|]. intros H. cbv in H. discriminate.
    + eexists. split; [reflexivity|]. intros H. cbv in H. discriminate.
Qed.

Definition messages_kept {A} (m : B A) : Prop := forall s a s', m s = Ok (a, s') -> on_messages s' = on_messages s.

Lemma messages_bind {A A'} (m : B A) (k : A -> B A') : messages_kept m -> (forall a, messages_kept (k a)) -> messages_kept (m ≫= k).
Proof.
  intros Hm Hk s a s'. unfold mbind, st_bind. destruct (m s) as [[b s1]|e] eqn:Em; [|discriminate]. intros H. apply Hm in Em as <-.
  now apply Hk in H.
Qed.
Lemma messages_step {A} (m : B A) : (forall s, match m s with Ok (_, s') => on_messages s' = on_messages s | Err _ => True end) -> messages_kept m.
Proof. intros H s a s' Em. specialize (H s). now rewrite Em in H. Qed.

Ltac messages_tac :=
  match goal with
  | |- messages_kept (mbind _ _) => apply messages_bind; [|intros ?]
  | |- messages_kept (match ?x with _ => _ end) => destruct x
  | |- messages_kept _ => solve [apply messages_step; intros; exact I || reflexivity]
  end.

Lemma send_to_room_messages r text : messages_kept (send_to_room r text).
Proof. unfold send_to_room, substr. repeat messages_tac. Qed.
Lemma send_to_rooms_messages rooms x text : messages_kept (send_to_rooms rooms x text).
Proof. induction rooms as [|r rooms IH]; cbn [send_to_rooms]; repeat (messages_tac || apply send_to_room_messages || exact IH). Qed.
Lemma broadcast_messages ch x text : messages_kept (broadcast_message ch x text).
Proof. unfold broadcast_message, channel_rooms. repeat (messages_tac || apply send_to_rooms_messages). Qed.
Lemma broadcast_channels_messages l text : messages_kept (broadcast_channels l text).
Proof. induction l as [|c l IH]; cbn [broadcast_channels]; repeat (messages_tac || apply broadcast_messages || exact IH). Qed.
Lemma format_parts_messages l : forall acc, messages_kept (format_parts l acc).
Proof.
  induction l as [|[k v] l IH]; intros acc; cbn [format_parts]; [messages_tac|]. unfold need.
  repeat (apply IH || messages_tac).
Qed.
Lemma forward_messages m : messages_kept (forward_message m).
Proof.
  unfold forward_message, format_message, broadcast_all, need.
  repeat (messages_tac || apply format_parts_messages || apply broadcast_messages || apply broadcast_channels_messages).
Qed.

(** The signal hears the message of the speech. *)
Lemma receive_last s e s' : receive e s = Ok ((), s') -> exists m, last (on_messages s') = Some m /\ (claims_op m -> operator s e).
Proof.
  intros Er. destruct (receive_message s e) as [[err H]|(m & H & Hop)]; [congruence|]. rewrite Er in H. symmetry in H.
  unfold on_message in H. unfold mbind, st_bind, st_modify in H. apply forward_messages in H. exists m. split; [|exact Hop].
  rewrite H. apply last_snoc.
Qed.

Section Facts.
Context {E : RegexEngine}.
Variables (can_mkdir can_open : cstring -> bool) (date time : cstring) (rowid : list log_row -> Z).
Variables (welcome_file : cstring -> option cstring) (version build_date build_time : cstring).

Abbreviation add_logfile := (add_logfile can_mkdir can_open date time).
Abbreviation sendmsg := (sendmsg can_mkdir can_open date time).
Abbreviation on_bot_command := (on_bot_command can_mkdir can_open date time welcome_file version build_date build_time).
Abbreviation slots := (slots can_mkdir can_open date time rowid welcome_file version build_date build_time).

Lemma add_logfile_safe g msg id : safe (add_logfile g msg id).
Proof. apply safe_bind; [apply safe_log, add_log_lecture|intros; apply safe_ret]. Qed.
#[local] Hint Resolve add_logfile_safe : safe.

Lemma sendmsg_safe ch msg : safe (sendmsg ch msg).
Proof. unfold Botctl.sendmsg. safety. Qed.
#[local] Hint Resolve sendmsg_safe : safe.

Lemma get_int_safe p t : safe (get_int p t).
Proof. unfold get_int. safety. Qed.

Lemma log_parts_safe fetch l : forall a b, safe (log_parts fetch l a b).
Proof. induction l as [|[k v] l IH]; intros a b; cbn [log_parts]; safety; auto. Qed.

Lemma log_rooms_safe rooms ch t id : safe (log_rooms can_mkdir can_open date time rooms ch t id).
Proof. induction rooms as [|r rooms IH]; cbn [log_rooms]; safety; auto. Qed.
#[local] Hint Resolve get_int_safe log_parts_safe log_rooms_safe : safe.

Lemma avbot_log_safe m : safe (avbot_log can_mkdir can_open date time rowid m).
Proof. unfold avbot_log. cbv zeta. safety. Qed.

Lemma get_qq_safe : safe get_qq.
Proof. unfold get_qq. safety. Qed.
Lemma feed_safe v : safe (feed_login_verify_code v).
Proof. unfold feed_login_verify_code. safety. Qed.
Lemma welcome_safe ch n : safe (welcome welcome_file ch n).
Proof. unfold welcome, msg_sender. cbv zeta. safety. Qed.
#[local] Hint Resolve get_qq_safe feed_safe welcome_safe : safe.

Lemma qqnickmap_safe ch m : safe (qqnickmap ch m).
Proof. unfold qqnickmap. safety. Qed.
Lemma vc_call_safe ch v : safe (s ← ex_get; match do_vc_code s with
  | Some c => ex_modify (add_effect (CallVc c v))
  | None => sendmsg ch ($"哈? 输入验证码干嘛?")
  end).
Proof.
  intros s. unfold mbind, sx_bind, ex_get. destruct (do_vc_code s) as [c|] eqn:Ec; [|apply sendmsg_safe].
  split; [|discriminate]. repeat split. exists [CallVc c v]. split; [reflexivity|]. constructor; [exact Ec|constructor].
Qed.
#[local] Hint Resolve vc_call_safe : safe.
Lemma vc_commands_safe ch m : safe (vc_commands can_mkdir can_open date time ch m).
Proof. unfold vc_commands. apply safe_bind; [safety|]. intros _. destruct (regex_match vc_re m); [apply vc_call_safe|apply safe_ret]. Qed.
Lemma begin_mail_safe ch a t : safe (begin_mail ch a t).
Proof. unfold begin_mail. safety. Qed.
Lemma record_text_safe r m : safe (record_text r m).
Proof. unfold record_text. safety. Qed.
#[local] Hint Resolve qqnickmap_safe vc_commands_safe begin_mail_safe record_text_safe : safe.

Lemma record_message_safe r m : safe (record_message r m).
Proof. unfold record_message. cbv zeta. safety. Qed.
#[local] Hint Resolve record_message_safe : safe.

Lemma record_slots_safe n m : forall i, safe (record_slots n i m).
Proof. induction n as [|n IH]; intros i; cbn [record_slots]; safety; auto. Qed.
#[local] Hint Resolve avbot_log_safe record_slots_safe : safe.

Lemma checked_safe json ch msg :
  (claims_op json -> safe (operator_commands can_mkdir can_open date time ch msg)) ->
  safe (checked_commands can_mkdir can_open date time json ch msg).
Proof.
  intros H. unfold checked_commands. apply safe_bind; [apply qqnickmap_safe|intros _].
  apply safe_bind_eq; [apply get_int_safe|]. intros n (s & s' & En). apply get_int_op in En.
  destruct (Z.eqb_spec n 1) as [->|Hn]; cbn [negb]; auto with safe.
Qed.

Lemma on_bot_command_safe json :
  (forall ch text, claims_op json -> pt_get ($"message.text") json = Some text ->
     safe (operator_commands can_mkdir can_open date time ch (trim text))) ->
  safe (on_bot_command json).
Proof.
  intros H. unfold Botctl.on_bot_command. apply safe_need_bind; intros ch _. apply safe_need_bind; intros text Et. cbv zeta.
  assert (safe (checked_commands can_mkdir can_open date time json ch (trim text))) as Hc by (apply checked_safe; auto).
  safety.
Qed.

Lemma my_command_safe json : ~ claims_op json -> safe (my_on_bot_command can_mkdir can_open date time welcome_file version build_date build_time json).
Proof.
  intros H. assert (safe (on_bot_command json)) as Hc by (apply on_bot_command_safe; tauto). unfold my_on_bot_command.
  apply safe_catch. safety. apply safe_effect. intros ?. eexists. apply later_text.
Qed.
#[local] Hint Resolve my_command_safe : safe.

Lemma slots_safe json : ~ claims_op json -> safe (slots json).
Proof. intros H. unfold Botctl.slots. cbv zeta. safety. Qed.

Context {L : RegexLaws E}.

(** The command of [my_on_bot_command] for a newcomer, which has the rights of an
    operator. *)
Lemma later_safe json : welcomes json -> safe (on_bot_command json).
Proof.
  intros [nick En]. apply on_bot_command_safe. intros ch text _ Et. assert (text = "."%char :: $"qqbot newbe" ++ "e"%char :: " "%char :: nick) as -> by (rewrite En in Et; now injection Et).
  destruct (trim_prefix "." "e" ($"qqbot newbe") (" "%char :: nick) eq_refl eq_refl) as [y Ey].
  rewrite Ey.
  unfold operator_commands. rewrite !regex_match_perl. apply safe_ret.
Qed.

(** C8: only operators command.  Whatever somebody says in a room of IRC, XMPP or
    QQ who is not an operator of its QQ group - everybody, on IRC and XMPP - the
    program does not exit, the recording of a lecture neither begins nor ends, and no
    group is searched, joined or reloaded, but for one thing that everybody may do:
    to give the text of the captcha that a search or a joining already under way has
    asked for, which repeats just that one; what waits for a captcha stays the same.
    A command that runs later, with the rights of an operator, is the welcome of a
    newcomer, and does none of this either, whatever the name of the newcomer is. *)
Theorem commands_authorized (s : program) (e : speech) :
  ~ operator (bot s) e ->
  (let '(s', r) := hear can_mkdir can_open date time rowid welcome_file version build_date build_time e s in
   kept s s' /\ r <> Err Exited)
  /\ forall later s1, welcomes later -> let '(s2, r) := on_bot_command later s1 in kept s1 s2 /\ r <> Err Exited.
Proof.
  intros Hno. split.
  - unfold hear, mbind, sx_bind, ex_bot. destruct (receive e (bot s)) as [[[] b]|err] eqn:Er; cbn; [|split; [reflexivity|discriminate]].
    destruct (receive_last _ _ _ Er) as (m & -> & Hm).
    destruct (slots_safe m ltac:(tauto) (set_bot b s)) as [Hk Hr]. destruct (slots m (set_bot b s)) as [s' r].
    split; [|exact Hr]. destruct Hk as (H1 & H2 & H3 & H4). now repeat split.
  - intros later s1 Hl. destruct (later_safe later Hl s1) as [Hk Hr]. now destruct (on_bot_command later s1).
Qed.

Lemma search_lines_perl r s : forall b, search_lines r b s = search_lines (E := perl_engine) r b s.
Proof.
  induction s as [|c s IH]; intros b; cbn [search_lines]; rewrite regex_match_perl; [reflexivity|]. now rewrite IH.
Qed.

(** An operator can: the program exits. *)
Theorem operator_exits (m : ptree) (channel : cstring) (s : program) :
  pt_get ($"channel") m = Some channel -> pt_get ($"message.text") m = Some ($".qqbot exit") -> claims_op m ->
  on_bot_command m s = (s, Err Exited).
Proof.
  intros Hc Ht Hop. unfold claims_op in Hop. destruct (pt_get ($"op") m) as [v|] eqn:Ev; [|discriminate]. cbn in Hop.
  unfold Botctl.on_bot_command. rewrite Hc, Ht. cbv beta iota zeta delta [mbind sx_bind ex_need mret sx_ret when ex_get].
  change (trim ($".qqbot exit")) with ($".qqbot exit"). unfold vc_commands, welcome_name, checked_commands, qqnickmap, operator_commands, get_int.
  rewrite search_lines_perl, !regex_match_perl, Ev.
  change (search_lines (E := perl_engine) nickmap_re true ($".qqbot exit")) with (@None captures).
  change (perl_match mailto_re ($".qqbot exit")) with (@None captures). cbn. unfold mbind, sx_bind. cbn. rewrite Hop. reflexivity.
Qed.
End Facts.

(** ** Mails *)

Lemma lit_match {R} p r : forall s (k : cstring -> captures -> cstring -> option R),
  match_at (lit p r) (p ++ s) k = match_at r s (fun t c rest => k (p ++ t) c rest).
Proof.
  induction p as [|c p IH]; intros s k; [reflexivity|]. cbn [lit match_at app]. rewrite Ascii.eqb_refl. apply IH.
Qed.

(** The rest of the text, when nothing forbids it. *)
Lemma star_any {R} s : forall acc (k : cstring -> cstring -> option R) x, k (acc ++ s) [] = Some x -> star_at any_char acc s k = Some x.
Proof.
  induction s as [|c s IH]; intros acc k x Hk; cbn [star_at]; [now rewrite app_nil_r in Hk|]. cbn [any_char].
  rewrite (IH (acc ++ [c]) k x); [reflexivity|]. now rewrite <- app_assoc.
Qed.

(** A quote before the text is dropped; one behind it is not. *)
Definition strip_quote (a : cstring) : cstring := match a with c :: a' => if quote_p c then a' else a | [] => [] end.

Lemma quoted_match (name a : cstring) :
  perl_match (command_re name (Seq (Opt (Chr quote_p)) (Seq (Group (Star any_char)) (Opt (Chr quote_p))))) ("."%char :: name ++ a)
  = Some [Some (strip_quote a)].
Proof.
  unfold perl_match, command_re. cbn [match_at any_char]. rewrite lit_match. cbn [match_at groups replicate].
  destruct a as [|c a]; [reflexivity|]. cbn [strip_quote]. destruct (quote_p c).
  - rewrite (star_any a [] _ [Some a]); [reflexivity|]. reflexivity.
  - rewrite (star_any (c :: a) [] _ [Some (c :: a)]); [reflexivity|]. reflexivity.
Qed.

(** The quotes of the text of the help do not work: the second one belongs to the
    address. *)
Theorem trailing_quote_kept (a : cstring) :
  perl_match mailto_re ($".qqbot mail to " ++ quoted a) = Some [Some (a ++ [quote])].
Proof. exact (quoted_match ($"qqbot mail to ") (quoted a)). Qed.

(** What a message changes in the mail that is recorded in a channel. *)
Inductive edit : Type := NoEdit | AddText (t : cstring) | SetSubject (t : cstring).

Definition end_of_mail (t : cstring) : bool := str_eqb (trim t) ($".qqbot end mail") || str_eqb (trim t) ($".qqbot mail end").

Inductive edits (ch : cstring) (b : avbot) (m : ptree) : edit -> Prop :=
| edits_other c : pt_get ($"channel") m = Some c -> c <> ch -> edits ch b m NoEdit
| edits_text t :
    pt_get ($"channel") m = Some ch -> format_message m b = Ok (t, b) ->
    match pt_get ($"message.text") m with
    | Some x => end_of_mail x = false /\ perl_match subject_re (c_str (trim x)) = None
    | None => True
    end -> edits ch b m (AddText t)
| edits_subject x t :
    pt_get ($"channel") m = Some ch -> pt_get ($"message.text") m = Some x ->
    c_str (trim x) = $".qqbot mail subject " ++ t -> trim x = c_str (trim x) -> edits ch b m (SetSubject (strip_quote t)).

Definition text_of (e : edit) : cstring := match e with AddText t => t | _ => [] end.
Definition subject_after (s : cstring) (e : edit) : cstring := match e with SetSubject t => t | _ => s end.

Definition recorded (from to subject body : cstring) : mail :=
  Mail [($"from", from); ($"to", to); ($"subject", subject)] false (inl body).

(** The messages of the bot, one after the other, for the recorders. *)
Fixpoint record_session {E : RegexEngine} (ms : list ptree) : ex () :=
  match ms with
  | [] => mret ()
  | m :: ms' => s ← ex_get; record_slots (length (recoders s)) 0 m ;; record_session ms'
  end.

Section Mails.
Context {E : RegexEngine} {L : RegexLaws E}.

Lemma record_edit (s : program) (m : ptree) (e : edit) ch from to subject body :
  recoders s = [MailRecoder ch (recorded from to subject body)] -> edits ch (bot s) m e ->
  record_slots 1 0 m s = (set_recoders [MailRecoder ch (recorded from to (subject_after subject e) (body ++ text_of e))] s, Ok ()).
Proof.
  intros Hr He. cbn [record_slots]. unfold mbind, sx_bind, sx_get. rewrite Hr. cbn [lookup list_lookup].
  unfold record_message, record_text. cbn [rec_channel pimf]. destruct He as [c Hc Hne|t Hc Hf Hx|x t Hc Hx Ht Hz]; rewrite Hc.
  - destruct (str_eqb_spec c ch); [congruence|]. cbn. now rewrite Hr, app_nil_r.
  - rewrite str_eqb_refl. cbn [negb]. destruct (pt_get ($"message.text") m) as [x|].
    + destruct Hx as [He Hs]. unfold end_of_mail in He. apply orb_false_iff in He as [-> ->]. cbn [negb andb].
      rewrite regex_match_perl, Hs. unfold mbind, sx_bind, ex_bot. rewrite Hf. cbn. rewrite Hr. now destruct s.
    + unfold mbind, sx_bind, ex_bot. rewrite Hf. cbn. rewrite Hr. now destruct s.
  - rewrite str_eqb_refl, Hx. cbn [negb]. rewrite regex_match_perl, Ht, Hz, Ht.
    change (str_eqb ($".qqbot mail subject " ++ t) ($".qqbot end mail")) with false.
    change (str_eqb ($".qqbot mail subject " ++ t) ($".qqbot mail end")) with false. cbn [negb andb].
    change ($".qqbot mail subject " ++ t) with ("."%char :: $"qqbot mail subject " ++ t). unfold subject_re. rewrite quoted_match.
    cbn. rewrite Hr, app_nil_r. reflexivity.
Qed.

Lemma record_edits (l : list (ptree * edit)) : forall (s : program) ch from to subject body,
  recoders s = [MailRecoder ch (recorded from to subject body)] -> Forall (fun me => edits ch (bot s) (fst me) (snd me)) l ->
  record_session (map fst l) s
  = (set_recoders [MailRecoder ch (recorded from to (fold_left subject_after (map snd l) subject) (body ++ concat (map (text_of ∘ snd) l)))] s, Ok ()).
Proof.
  induction l as [|[m e] l IH]; intros s ch from to subject body Hr Hl; cbn [map record_session].
  - cbn. rewrite app_nil_r, <- Hr. now destruct s.
  - apply List.Forall_cons_iff in Hl as [He Hl]. unfold mbind, sx_bind, sx_get. rewrite Hr. cbn [length fst].
    rewrite (record_edit s m e ch from to subject body Hr He).
    rewrite (IH (set_recoders [MailRecoder ch (recorded from to (subject_after subject e) (body ++ text_of e))] s)
              ch from to (subject_after subject e) (body ++ text_of e) eq_refl Hl).
    cbn. now rewrite <- app_assoc.
Qed.

Lemma record_end (s : program) (stop : ptree) (ch x addr : cstring) (imf : mail) :
  m_mail_account s = Some (addr, true) -> recoders s = [MailRecoder ch imf] ->
  pt_get ($"channel") stop = Some ch -> pt_get ($"message.text") stop = Some x -> end_of_mail x = true ->
  record_slots 1 0 stop s = (set_recoders [] (add_effect (SendMail ch imf) s), Ok ()).
Proof.
  intros Hm Hr Hc Hx Hend. cbn [record_slots]. unfold mbind, sx_bind, sx_get. rewrite Hr. cbn [lookup list_lookup].
  unfold record_message. cbn [rec_channel pimf]. rewrite Hc, Hx, str_eqb_refl. cbn [negb].
  replace (negb (str_eqb (trim x) ($".qqbot end mail")) && negb (str_eqb (trim x) ($".qqbot mail end"))) with false
    by (rewrite <- negb_orb; unfold end_of_mail in Hend; now rewrite Hend).
  cbn. unfold mbind, sx_bind. cbn. rewrite Hm. cbn. now rewrite Hr.
Qed.

Lemma session_app l1 l2 s : record_session (l1 ++ l2) s = (record_session l1 ;; record_session l2) s.
Proof.
  revert s. induction l1 as [|m l1 IH]; intros s; [reflexivity|]. cbn [app record_session]. unfold mbind, sx_bind, sx_get in *.
  destruct (record_slots (length (recoders s)) 0 m s) as [s' [[]|e]]; [|reflexivity]. apply IH.
Qed.

Variables (can_mkdir can_open : cstring -> bool) (date time : cstring).
Variables (welcome_file : cstring -> option cstring) (version build_date build_time : cstring).

Lemma mailto_run (m : ptree) ch text a addr enabled (s : program) :
  pt_get ($"channel") m = Some ch -> pt_get ($"message.text") m = Some text -> trim text = $".qqbot mail to " ++ a ->
  m_mail_account s = Some (addr, enabled) -> recoders s = [] ->
  on_bot_command can_mkdir can_open date time welcome_file version build_date build_time m s
  = (set_recoders [MailRecoder ch (recorded addr (strip_quote a) ($"send by avbot") [])] s, Ok ()).
Proof.
  intros Hc Ht Ha Hm Hr. unfold on_bot_command. rewrite Hc, Ht. cbv beta iota zeta delta [mbind sx_bind ex_need mret sx_ret when ex_get].
  rewrite Ha. unfold is_command.
  change (str_eqb ($".qqbot mail to " ++ a) ($".qqbot help")) with false.
  change (str_eqb ($".qqbot mail to " ++ a) ($".qqbot ping")) with false.
  change (str_eqb ($".qqbot mail to " ++ a) ($".qqbot version")) with false. cbv iota.
  rewrite regex_match_perl, Hm. change ($".qqbot mail to " ++ a) with ("."%char :: $"qqbot mail to " ++ a).
  unfold mailto_re. rewrite quoted_match. unfold begin_mail, ex_modify. now rewrite Hr.
Qed.

(** C9: a conversation becomes a mail.  Between ".qqbot mail to", with an
    address, and ".qqbot mail end" in the same channel, the texts that the bot
    forwards from that channel form the body, in order, messages of other channels
    change nothing, and the last "mail subject" gives the subject; at the end the
    mail is handed once to the mail account, to the address that was given, and the
    recorder is gone. *)
Theorem mail_recorded (s : program) (start stop : ptree) (l : list (ptree * edit)) (ch text a addr x : cstring) :
  m_mail_account s = Some (addr, true) -> recoders s = [] ->
  pt_get ($"channel") start = Some ch -> pt_get ($"message.text") start = Some text -> trim text = $".qqbot mail to " ++ a ->
  Forall (fun me => edits ch (bot s) (fst me) (snd me)) l ->
  pt_get ($"channel") stop = Some ch -> pt_get ($"message.text") stop = Some x -> end_of_mail x = true ->
  (on_bot_command can_mkdir can_open date time welcome_file version build_date build_time start ;;
   record_session (map fst l ++ [stop])) s
  = (add_effect (SendMail ch (recorded addr (strip_quote a) (fold_left subject_after (map snd l) ($"send by avbot"))
                                (concat (map (text_of ∘ snd) l)))) s, Ok ()).
Proof.
  intros Hm Hr Hc Ht Ha Hl Hc2 Hx Hend. unfold mbind at 1, sx_bind at 1. rewrite (mailto_run start ch text a addr true s Hc Ht Ha Hm Hr).
  rewrite session_app. unfold mbind, sx_bind.
  rewrite (record_edits l (set_recoders _ s) ch addr (strip_quote a) ($"send by avbot") [] eq_refl Hl). cbn [app].
  cbn [record_session]. unfold mbind, sx_bind, sx_get. cbn [recoders set_recoders length].
  erewrite record_end; [|exact Hm|reflexivity|exact Hc2|exact Hx|exact Hend]. cbn. rewrite <- Hr. now destruct s.
Qed.
End Mails.

(** ** The channels of the settings *)

Fixpoint join (sep : ascii) (l : list cstring) : cstring :=
  match l with [] => [] | [w] => w | w :: l' => w ++ sep :: join sep l' end.

Lemma split_word sep w : Forall (fun c => c <> sep) w -> split_on sep w = [w].
Proof.
  induction 1 as [|c w Hc _ IH]; [reflexivity|]. cbn [split_on]. destruct (Ascii.eqb_spec c sep); [congruence|]. now rewrite IH.
Qed.

Lemma split_word_app sep w s : Forall (fun c => c <> sep) w -> split_on sep (w ++ sep :: s) = w :: split_on sep s.
Proof.
  induction 1 as [|c w Hc _ IH]; cbn [app split_on]; [now rewrite Ascii.eqb_refl|].
  destruct (Ascii.eqb_spec c sep); [congruence|]. now rewrite IH.
Qed.

(** [boost::split] gives back the parts. *)
Lemma split_join sep l : l <> [] -> Forall (Forall (fun c => c <> sep)) l -> split_on sep (join sep l) = l.
Proof.
  intros Hne Hl. induction Hl as [|w l Hw Hl IH]; [congruence|]. destruct l as [|w' l]; cbn [join]; [now apply split_word|].
  change (split_on sep (w ++ sep :: join sep (w' :: l)) = w :: w' :: l). rewrite split_word_app by exact Hw. now rewrite IH.
Qed.

Lemma join_forall sep l c : c <> sep -> Forall (Forall (fun x => x <> c)) l -> Forall (fun x => x <> c) (join sep l).
Proof.
  intros Hc. induction 1 as [|w l Hw Hl IH]; [constructor|]. destruct l as [|w' l]; [exact Hw|].
  change (Forall (fun x => x <> c) (w ++ sep :: join sep (w' :: l))). apply Forall_app. split; [exact Hw|].
  constructor; [now intros ->|exact IH].
Qed.

(** The names of the channels: the number of the first QQ group of the channel, or
    a name with a number, which is counted from 2. *)
Fixpoint named (m : Z) (gs : list (list cstring)) : list (cstring * list cstring) :=
  match gs with
  | [] => []
  | rooms :: gs' =>
      match List.find (fun r => str_eqb (take 3 r) ($"qq:")) rooms with
      | Some q => (drop 3 q, rooms) :: named m gs'
      | None => ($"group" ++ itoa (m + 1), rooms) :: named (m + 1) gs'
      end
  end.

Lemma add_rooms_run ch rooms : forall s, channels_ok (bot s) ->
  exists b, add_rooms ch rooms s = (set_bot b s, Ok ()) /\ channels_ok b
    /\ forall ch' r, in_channel ch' r b <-> in_channel ch' r (bot s) \/ (ch' = ch /\ In r rooms).
Proof.
  induction rooms as [|c rooms IH]; intros s Hs; cbn [add_rooms].
  - exists (bot s). split; [now destruct s|]. split; [exact Hs|]. intros. cbn. tauto.
  - destruct (add_to_channel_run (bot s) ch c Hs) as (b1 & E1 & H1 & Hin1 & _). unfold mbind, sx_bind, ex_bot. rewrite E1.
    destruct (IH (set_bot b1 s) H1) as (b & -> & Hb & Hin). exists b. split; [reflexivity|]. split; [exact Hb|].
    intros ch' r. rewrite Hin. cbn [bot set_bot In]. rewrite Hin1. split.
    + intros [[H|[-> ->]]|[-> H]]; [now left|right; now split; [|left]|right; now split; [|right]].
    + intros [H|[-> [->|H]]]; [now left; left|now left; right|now right].
Qed.

Definition group_text (rooms : list cstring) : cstring := join "," rooms.
Definition room_ok (r : cstring) : Prop := Forall (fun c => c <> ","%char) r /\ Forall (fun c => c <> ";"%char) r.

Lemma build_groups_run gs : forall m s, Forall (fun rooms => rooms <> [] /\ Forall room_ok rooms) gs -> channels_ok (bot s) ->
  exists b, build_groups m (map group_text gs) s = (set_bot b s, Ok ()) /\ channels_ok b
    /\ forall ch r, in_channel ch r b <-> in_channel ch r (bot s) \/ exists rooms, In (ch, rooms) (named m gs) /\ In r rooms.
Proof.
  induction gs as [|rooms gs IH]; intros m s Hgs Hs; cbn [map build_groups named].
  - exists (bot s). split; [now destruct s|]. split; [exact Hs|]. intros. split; [now left|]. intros [H|(? & [] & _)]. exact H.
  - apply List.Forall_cons_iff in Hgs as [[Hne Hok] Hgs]. cbv zeta. replace (split_on "," (group_text rooms)) with rooms.
    2: { symmetry. apply split_join; [exact Hne|]. eapply List.Forall_impl; [|exact Hok]. now intros a [Ha _]. }
    assert (forall ch m', exists b, (add_rooms ch rooms ;; build_groups m' (map group_text gs)) s = (set_bot b s, Ok ()) /\ channels_ok b
              /\ forall ch' r, in_channel ch' r b <-> in_channel ch' r (bot s)
                   \/ exists rooms', In (ch', rooms') ((ch, rooms) :: named m' gs) /\ In r rooms') as Hstep.
    { intros ch m'. destruct (add_rooms_run ch rooms s Hs) as (b1 & E1 & H1 & Hin1). unfold mbind, sx_bind. rewrite E1.
      destruct (IH m' (set_bot b1 s) Hgs H1) as (b & -> & Hb & Hin). exists b. split; [reflexivity|]. split; [exact Hb|].
      intros ch' r. rewrite Hin. cbn [bot set_bot]. rewrite Hin1. split.
      - intros [[H|[-> H]]|(rs & H & Hr)]; [now left| |]; right; eexists; (split; [|eassumption]); [now left|now right].
      - intros [H|(rs & [[= -> ->]|H] & Hr)]; [now left; left|now left; right|right; now exists rs]. }
    destruct (List.find _ rooms) as [q|]; apply Hstep.
Qed.

(** The channels of the settings.  From the text with the rooms of the
    channels, [build_group] puts every room into the channel of its list and into
    no other: the channel is named by the number of the first QQ group in the list,
    or "group2", "group3", ... for the lists without one. *)
Theorem build_group_correct (gs : list (list cstring)) (s : program) :
  gs <> [] -> Forall (fun rooms => rooms <> [] /\ Forall room_ok rooms) gs -> channels_ok (bot s) ->
  exists b, build_group (join ";" (map group_text gs)) s = (set_bot b s, Ok ()) /\ channels_ok b
    /\ forall ch r, in_channel ch r b <-> in_channel ch r (bot s) \/ exists rooms, In (ch, rooms) (named 1 gs) /\ In r rooms.
Proof.
  intros Hne Hgs Hs. unfold build_group. rewrite split_join; [now apply build_groups_run|now destruct gs|].
  apply List.Forall_map. eapply List.Forall_impl; [|exact Hgs]. intros rooms [_ Hok]. apply join_forall; [discriminate|].
  eapply List.Forall_impl; [|exact Hok]. now intros a [_ Ha].
Qed.

(** ** Examples *)

(** The bot of Avbot.v, with a log and a mail account. *)
Definition example_program : program :=
  Program example_bot (AvLog ($"log") [] None [] (fun _ => None) []) [] false false (Some ($"bot@avplayer.org", true)) None [] [].
Definition example_said (text : cstring) : ptree :=
  add ($"message.text") text (put ($"preamble") ($"cai: ") (put ($"channel") ($"avplayer") (put ($"protocol") ($"irc") empty_tree))).
Definition exit_message : irc_msg := IrcMsg ($"cai") ($"#avplayer") ($"x@y") ($".qqbot exit").

Lemma commands_authorized_witness :
  let '(s', r) := hear (E := perl_engine) (fun _ => true) (fun _ => true) ($"20140101") ($"10:00") (fun _ => 1) (fun _ => None) [] [] []
                    (FromIrc exit_message) example_program in
  kept example_program s' /\ r <> Err Exited.
Proof.
  apply (commands_authorized (fun _ => true) (fun _ => true) ($"20140101") ($"10:00") (fun _ => 1) (fun _ => None) [] [] []
           example_program (FromIrc exit_message)). intros [].
Defined.

Lemma mail_recorded_witness :
  (on_bot_command (E := perl_engine) (fun _ => true) (fun _ => true) [] [] (fun _ => None) [] [] [] (example_said ($".qqbot mail to a@b.org ")) ;;
   record_session [example_said ($"hello"); example_said ($".qqbot mail subject news"); example_said ($"bye"); example_said ($".qqbot mail end")])
    example_program
  = (add_effect (SendMail ($"avplayer") (recorded ($"bot@avplayer.org") ($"a@b.org") ($"news") ($"cai: hellocai: bye"))) example_program, Ok ()).
Proof.
  apply (mail_recorded (fun _ => true) (fun _ => true) [] [] (fun _ => None) [] [] [] example_program
           (example_said ($".qqbot mail to a@b.org ")) (example_said ($".qqbot mail end"))
           [(example_said ($"hello"), AddText ($"cai: hello")); (example_said ($".qqbot mail subject news"), SetSubject ($"news"));
            (example_said ($"bye"), AddText ($"cai: bye"))]
           ($"avplayer") ($".qqbot mail to a@b.org ") ($"a@b.org") ($"bot@avplayer.org") ($".qqbot mail end")); try (vm_compute; reflexivity).
  apply List.Forall_cons; [|apply List.Forall_cons; [|apply List.Forall_cons; [|apply List.Forall_nil]]]; cbn [fst snd].
  - apply edits_text; [reflexivity|reflexivity|]. now split.
  - apply (edits_subject _ _ _ ($".qqbot mail subject news") ($"news")); reflexivity.
  - apply edits_text; [reflexivity|reflexivity|]. now split.
Defined.

Lemma build_group_correct_witness :
  let s := Program (new_avbot None true true) (AvLog ($"log") [] None [] (fun _ => None) []) [] false false None None [] [] in
  exists b, build_group ($"qq:123,irc:avplayer;irc:qt,xmpp:a@b") s = (set_bot b s, Ok ())
    /\ in_channel ($"123") ($"irc:avplayer") b /\ in_channel ($"group2") ($"xmpp:a@b") b.
Proof.
  intros s. assert (forall r, forallb (fun c => negb (c =c ",") && negb (c =c ";")) r = true -> room_ok r) as Hok.
  { intros r Hr. split; apply List.Forall_forall; intros c Hc ->; rewrite forallb_forall in Hr; apply Hr in Hc; discriminate. }
  destruct (build_group_correct [[$"qq:123"; $"irc:avplayer"]; [$"irc:qt"; $"xmpp:a@b"]] s) as (b & Eb & _ & Hin).
  - discriminate.
  - apply List.Forall_cons; [|apply List.Forall_cons; [|apply List.Forall_nil]];
      (split; [discriminate|repeat (apply List.Forall_cons; [now apply Hok|]); apply List.Forall_nil]).
  - split; constructor.
  - exists b. split; [exact Eb|]. split; apply Hin; right.
    + exists [$"qq:123"; $"irc:avplayer"]. split; [now left|right; now left].
    + exists [$"irc:qt"; $"xmpp:a@b"]. split; [right; now left|right; now left].
Defined.
