(* ===== verification/BuddyMgr.v ===== *)
(** The groups and their members, libwebqq/src/impl/buddy_mgr.cpp, with the
    handlers that fill them (webqq_group_member.hpp, webqq_group_list.hpp).

    A table is the list of its rows in the order of their numbers; NULL is [None].
    The statements are those of the source with their parameters bound by
    position, as the SQLite backend of SOCI does it.  A column is read up to a
    NUL.  A select without a row leaves the variables as they are, indicators that
    were never set included: what these hold is a parameter. *)

From S2P Require Import Prelude CLib OrdMap PTree Irc Avbot.

(** ** Tables *)

Record group_row : Type := GroupRow {
  row_gid : cstring; row_code : cstring; row_name : cstring; row_qqnum : option cstring; row_owner : option cstring; generate_time : Z
}.
Record member_row : Type := MemberRow {
  member_gid : cstring; member_uid : cstring; member_nick : option cstring; member_card : option cstring; member_mflag : option cstring;
  member_qqnum : option cstring
}.
Record category_row : Type := CategoryRow { category_index : Z; category_sort : Z; category_name : cstring }.
Record friend_row : Type := FriendRow {
  friend_uid : cstring; friend_nick : option cstring; friend_flag : Z; friend_markname : option cstring; friend_category : Z
}.

Record buddy_db : Type := BuddyDb {
  db_groups : list group_row; group_buddies : list member_row; buddy_categories : list category_row; buddies : list friend_row
}.

(** [db_initialize]. *)
Definition empty_db : buddy_db := BuddyDb [] [] [] [].

Definition set_groups (l : list group_row) (d : buddy_db) : buddy_db := BuddyDb l (group_buddies d) (buddy_categories d) (buddies d).
Definition set_members (l : list member_row) (d : buddy_db) : buddy_db := BuddyDb (db_groups d) l (buddy_categories d) (buddies d).
Definition set_categories (l : list category_row) (d : buddy_db) : buddy_db := BuddyDb (db_groups d) (group_buddies d) l (buddies d).
Definition set_friends (l : list friend_row) (d : buddy_db) : buddy_db := BuddyDb (db_groups d) (group_buddies d) (buddy_categories d) l.

(** The rows with [p] changed by [f]. *)
Definition update_rows {A} (p : A -> bool) (f : A -> A) (l : list A) : list A := map (fun r => if p r then f r else r) l.
Definition delete_rows {A} (p : A -> bool) (l : list A) : list A := List.filter (fun r => negb (p r)) l.

(** A column with an indicator: NULL leaves the variable empty. *)
Definition column (v : option cstring) : cstring := match v with Some t => c_str t | None => [] end.

Inductive indicator : Type := i_ok | i_null | i_truncated.
Definition is_i_ok (i : indicator) : bool := match i with i_ok => true | _ => false end.
(** A null value for a variable without an indicator. *)
Inductive soci_error : Type := NullFetched.

Section BuddyMgr.
(** What an indicator and a number hold that were never set. *)
Variables (stale : indicator) (stale_flag : Z).

(** ** Groups *)

Definition has_gid (gid : cstring) (r : group_row) : bool := str_eqb (row_gid r) gid.
Definition has_code (code : cstring) (r : group_row) : bool := str_eqb (row_code r) code.

Definition update_group_list (now : Z) (gid name code : cstring) (d : buddy_db) : buddy_db :=
  let '(qqnum, owner) :=
    match List.find (has_code code) (db_groups d) with
    | Some r => (column (row_qqnum r), column (row_owner r))
    | None => ([], [])
    end in
  set_groups (delete_rows (fun r => has_gid gid r || has_code code r) (db_groups d)
              ++ [GroupRow gid code name (Some qqnum) (Some owner) now]) d.

Definition group_has_qqnum (code : cstring) (d : buddy_db) : bool :=
  match List.find (has_code code) (db_groups d) with
  | Some r => match row_qqnum r with Some q => negb (str_eqb (c_str q) []) | None => false end
  | None => false
  end.

Definition map_group_qqnum (code qqnum : cstring) (d : buddy_db) : buddy_db :=
  set_groups (update_rows (has_code code)
    (fun r => GroupRow (row_gid r) (row_code r) (row_name r) (Some qqnum) (row_owner r) (generate_time r)) (db_groups d)) d.

Definition set_group_owner (gid owner : cstring) (d : buddy_db) : buddy_db :=
  set_groups (update_rows (has_gid gid)
    (fun r => GroupRow (row_gid r) (row_code r) (row_name r) (row_qqnum r) (Some owner) (generate_time r)) (db_groups d)) d.

(** ** Members *)

Definition has_uid (uid : cstring) (r : member_row) : bool := str_eqb (member_uid r) uid.

Definition buddy_has_qqnum (uid : cstring) (d : buddy_db) : bool :=
  match List.find (has_uid uid) (group_buddies d) with
  | Some r => match member_qqnum r with Some q => negb (str_eqb (c_str q) []) | None => false end
  | None => false
  end.

Definition map_buddy_qqnum (uid qqnum : cstring) (d : buddy_db) : buddy_db :=
  set_members (update_rows (has_uid uid)
    (fun r => MemberRow (member_gid r) (member_uid r) (member_nick r) (member_card r) (member_mflag r) (Some qqnum)) (group_buddies d)) d.

(** The number comes into [uid], not into [uin], which stays empty. *)
Definition get_buddy_by_uin (uid : cstring) (d : buddy_db) : option qqBuddy :=
  match List.find (has_uid uid) (group_buddies d) with
  | Some r =>
      let mflag := match member_mflag r with Some t => wrapu 32 (fst (strtoll (c_str t))) | None => stale_flag end in
      Some (QQBuddy [] (column (member_nick r)) (column (member_card r)) mflag (column (member_qqnum r)))
  | None => if is_i_ok stale then Some (QQBuddy [] [] [] stale_flag []) else None
  end.

(** The unique number replaces a row that has it. *)
Definition group_new_buddy (gid uid qqnum nick : cstring) (d : buddy_db) : buddy_db :=
  set_members (delete_rows (has_uid uid) (group_buddies d) ++ [MemberRow gid uid (Some nick) None None (Some qqnum)]) d.

(** "set mflag = :mflag where uid = :uid", with [uid] as the first parameter and
    [mflag] as the second. *)
Definition group_buddy_update_mflag (uid : cstring) (mflag : Z) (d : buddy_db) : buddy_db :=
  set_members (update_rows (has_uid (itoa mflag))
    (fun r => MemberRow (member_gid r) (member_uid r) (member_nick r) (member_card r) (Some uid) (member_qqnum r)) (group_buddies d)) d.

Definition group_buddy_update_card (uid card : cstring) (d : buddy_db) : buddy_db :=
  set_members (update_rows (has_uid uid)
    (fun r => MemberRow (member_gid r) (member_uid r) (member_nick r) (Some card) (member_mflag r) (member_qqnum r)) (group_buddies d)) d.

Definition get_group_all_buddies_uin (gid : cstring) (d : buddy_db) : list cstring :=
  map (fun r => c_str (member_uid r)) (take (Z.to_nat 10000) (List.filter (fun r => str_eqb (member_gid r) gid) (group_buddies d))).

(** ** Reading groups *)

Definition get_group_by_gid (gid : cstring) (d : buddy_db) : result soci_error (option qqGroup) :=
  match List.find (has_gid gid) (db_groups d) with
  | Some r =>
      match row_qqnum r, row_owner r with
      | Some q, Some o =>
          Ok (Some (QQGroup (c_str (row_gid r)) (c_str (row_name r)) (c_str (row_code r)) (c_str q) (c_str o) (fun u => get_buddy_by_uin u d)))
      | _, _ => Err NullFetched
      end
  | None => Ok (if is_i_ok stale then Some (QQGroup [] [] [] [] [] (fun u => get_buddy_by_uin u d)) else None)
  end.

(** The newest of the rows, the first of them when several are. *)
Fixpoint newest (l : list group_row) (best : option group_row) : option group_row :=
  match l with
  | [] => best
  | r :: l' =>
      newest l' (match best with Some b => if generate_time b <? generate_time r then Some r else Some b | None => Some r end)
  end.

Definition get_group_by_qq (qqnum : cstring) (d : buddy_db) : result soci_error (option qqGroup) :=
  let has_qq r := match row_qqnum r with Some q => str_eqb q qqnum | None => false end in
  get_group_by_gid (match newest (List.filter has_qq (db_groups d)) None with Some r => c_str (row_gid r) | None => [] end) d.

(** ** Friends *)

Definition new_catgory (index sort : Z) (name : cstring) (d : buddy_db) : buddy_db :=
  set_categories (delete_rows (fun r => category_index r =? index) (buddy_categories d) ++ [CategoryRow index sort name]) d.

Definition has_friend (uid : cstring) (r : friend_row) : bool := str_eqb (friend_uid r) uid.

Definition new_buddy (uid : cstring) (flag category : Z) (d : buddy_db) : buddy_db :=
  set_friends (delete_rows (has_friend uid) (buddies d) ++ [FriendRow uid None flag None category]) d.

Definition buddy_update_markname (uid markname : cstring) (d : buddy_db) : buddy_db :=
  set_friends (update_rows (has_friend uid)
    (fun r => FriendRow (friend_uid r) (friend_nick r) (friend_flag r) (Some markname) (friend_category r)) (buddies d)) d.

Definition buddy_update_nick (uid nickname : cstring) (d : buddy_db) : buddy_db :=
  set_friends (update_rows (has_friend uid)
    (fun r => FriendRow (friend_uid r) (Some nickname) (friend_flag r) (friend_markname r) (friend_category r)) (buddies d)) d.

(** The vectors of flags and numbers are never filled. *)
Definition get_buddies (d : buddy_db) : list qqBuddy :=
  map (fun r => QQBuddy (c_str (friend_uid r)) (column (friend_nick r)) (column (friend_markname r)) 0 []) (take 1000 (buddies d)).

(** Groups older than two days, and members without a group. *)
Definition clean_out_outdated (now : Z) (d : buddy_db) : buddy_db :=
  let gs := delete_rows (fun r => generate_time r <? now - 2 * 86400) (db_groups d) in
  set_members (delete_rows (fun r => negb (existsb (has_gid (member_gid r)) gs)) (group_buddies d)) (set_groups gs d).
End BuddyMgr.

(** ** Answers of the server *)

(** [ptree_bad_path], [ptree_bad_data] and [json_parser_error] are all
    [ptree_error]s. *)
Inductive ptree_error : Type := PtreeError.
Abbreviation D := (sx buddy_db ptree_error).
Definition d_get (p : cstring) (t : ptree) : D cstring := match pt_get p t with Some v => mret v | None => sx_fail PtreeError end.
Definition d_child (p : cstring) (t : ptree) : D ptree := match get_child p t with Some c => mret c | None => sx_fail PtreeError end.
Definition d_int (p : cstring) (t : ptree) : D Z :=
  v ← d_get p t;
  match stream_int v with Some n => mret n | None => sx_fail PtreeError end.

Fixpoint add_members (gid : cstring) (l : list (cstring * ptree)) : D () :=
  match l with
  | [] => mret ()
  | (_, minfo) :: l' =>
      uin ← d_get ($"uin") minfo;
      nick ← d_get ($"nick") minfo;
      sx_modify (group_new_buddy gid uin [] nick) ;; add_members gid l'
  end.

Fixpoint add_flags (l : list (cstring * ptree)) : D () :=
  match l with
  | [] => mret ()
  | (_, minfo) :: l' =>
      muin ← d_get ($"muin") minfo;
      mflag ← d_get ($"mflag") minfo;
      match lexical_uint mflag with Some f => sx_modify (group_buddy_update_mflag muin f) | None => mret () end ;;
      add_flags l'
  end.

Fixpoint add_cards (l : list (cstring * ptree)) : D () :=
  match l with
  | [] => mret ()
  | (_, minfo) :: l' =>
      muin ← d_get ($"muin") minfo;
      card ← d_get ($"card") minfo;
      sx_modify (group_buddy_update_card muin card) ;; add_cards l'
  end.

(** A missing path is ignored. *)
Definition ignore_bad_path (m : D ()) : D () := fun d => match m d with (d', _) => (d', Ok ()) end.

Definition group_member_process_json (gid : cstring) (jsonobj : ptree) : D () :=
  retcode ← d_int ($"retcode") jsonobj;
  if retcode =? 0 then
    owner ← d_get ($"result.ginfo.owner") jsonobj;
    sx_modify (set_group_owner gid owner) ;;
    minfo ← d_child ($"result.minfo") jsonobj;
    add_members gid (pt_children minfo) ;;
    members ← d_child ($"result.ginfo.members") jsonobj;
    add_flags (pt_children members) ;;
    ignore_bad_path (cards ← d_child ($"result.cards") jsonobj; add_cards (pt_children cards))
  else mret ().

(** The handler is told success in both cases; the result says whether the numbers
    of the members are asked for. *)
Definition update_group_member (gid : cstring) (json : option ptree) (d : buddy_db) : buddy_db * bool :=
  match json with
  | None => (d, false)
  | Some t => match group_member_process_json gid t d with (d', Ok _) => (d', true) | (d', Err _) => (d', false) end
  end.

(** The handler of the list of groups: the tables, [m_groups] and the new list
    from names to codes. *)
Record list_state : Type := ListState {
  ls_db : buddy_db; m_groups : list (cstring * cstring); newlist : list (cstring * cstring); replace_list : bool; retry : bool
}.

(** A name that begins with a dash is an error. *)
Definition add_group (now : Z) (gid name code : cstring) (s : list_state) : list_state :=
  if str_eqb (take 1 gid) ($"-") then ListState (ls_db s) (m_groups s) (newlist s) (replace_list s) true
  else
    let known := match map_find gid (m_groups s) with Some _ => true | None => false end in
    ListState (update_group_list now gid name code (ls_db s)) (map_insert gid code (m_groups s)) (map_insert gid code (newlist s))
      (replace_list s || known) (retry s).

Fixpoint add_groups (now : Z) (l : list (cstring * ptree)) : sx list_state ptree_error () :=
  match l with
  | [] => mret ()
  | (_, r) :: l' =>
      match pt_get ($"gid") r, pt_get ($"name") r, pt_get ($"code") r with
      | Some gid, Some name, Some code => sx_modify (add_group now gid name code) ;; add_groups now l'
      | _, _, _ => sx_fail PtreeError
      end
  end.

Definition process_group_list (now : Z) (jsonobj : ptree) : sx list_state ptree_error () :=
  match pt_get ($"retcode") jsonobj ≫= stream_int with
  | Some retcode =>
      if retcode =? 0 then
        match get_child ($"result.gnamelist") jsonobj with
        | Some l =>
            add_groups now (pt_children l) ;;
            sx_modify (fun s => if replace_list s then ListState (ls_db s) (newlist s) (m_groups s) (replace_list s) (retry s) else s)
        | None => sx_fail PtreeError
        end
      else mret ()
  | None => sx_fail PtreeError
  end.

(** The new tables and [m_groups], and whether the list could be fetched. *)
Definition group_list_received (now : Z) (json : option ptree) (d : buddy_db) (groups : list (cstring * cstring)) :
    buddy_db * list (cstring * cstring) * bool :=
  match json with
  | None => (d, groups, false)
  | Some t =>
      match process_group_list now t (ListState d groups [] false false) with
      | (s, Ok _) => (ls_db s, m_groups s, negb (retry s))
      | (s, Err _) => (ls_db s, m_groups s, false)
      end
  end.

(** The numbers of the groups; [answer] is what [async_update_group_qqnumber] got. *)
Fixpoint update_group_numbers (answer : cstring -> option cstring) (groups : list (cstring * cstring)) (d : buddy_db) : buddy_db :=
  match groups with
  | [] => d
  | (_, code) :: groups' =>
      update_group_numbers answer groups'
        (if group_has_qqnum code d then d else match answer code with Some q => map_group_qqnum code q d | None => d end)
  end.

(** The numbers of the members; "-1" ends the loop. *)
Fixpoint update_member_numbers (answer : cstring -> cstring) (uins : list cstring) (d : buddy_db) : buddy_db :=
  match uins with
  | [] => d
  | u :: uins' =>
      if buddy_has_qqnum u d then update_member_numbers answer uins' d
      else if str_eqb (answer u) ($"-1") then d
      else update_member_numbers answer uins' (map_buddy_qqnum u (answer u) d)
  end.
Definition update_group_member_qq (answer : cstring -> cstring) (gid : cstring) (d : buddy_db) : buddy_db :=
  update_member_numbers answer (get_group_all_buddies_uin gid d) d.
