(* ===== verification/BuddyFacts.v ===== *)
(** The tables of groups and members: their keys stay unique, and the answers of
    the server arrive in them. *)

From S2P Require Import Prelude CLib OrdMap PTree Irc Avbot BuddyMgr.

(** ** Rows *)

Lemma in_delete {A} (p : A -> bool) l r : In r (delete_rows p l) <-> In r l /\ p r = false.
Proof. unfold delete_rows. rewrite List.filter_In, negb_true_iff. reflexivity. Qed.

Lemma nodup_delete {A K} (k : A -> K) p l : List.NoDup (map k l) -> List.NoDup (map k (delete_rows p l)).
Proof.
  unfold delete_rows. induction l as [|r l IH]; [auto|]. cbn [map List.filter]. intros H. apply List.NoDup_cons_iff in H as [Hr H].
  destruct (p r); cbn [negb map]; [auto|]. constructor; [|auto]. rewrite in_map_iff. intros (r' & E & Hin). apply List.filter_In in Hin as [Hin _].
  apply Hr. rewrite <- E. now apply in_map.
Qed.

(** A new row with a key whose rows were deleted. *)
Lemma nodup_replace {A K} (k : A -> K) p l r :
  List.NoDup (map k l) -> (forall r', p r' = false -> k r' <> k r) -> List.NoDup (map k (delete_rows p l ++ [r])).
Proof.
  intros Hl Hp. rewrite map_app. apply List.NoDup_app; [now apply nodup_delete|repeat constructor; intros []|].
  intros x Hx [<-|[]]. apply in_map_iff in Hx as (r' & E & Hin). apply in_delete in Hin as [_ Hin]. now apply (Hp r' Hin).
Qed.

Lemma update_keys {A K} (k : A -> K) p f l : (forall r, k (f r) = k r) -> map k (update_rows p f l) = map k l.
Proof. intros H. unfold update_rows. rewrite map_map. apply map_ext. intros r. now destruct (p r). Qed.

Lemma update_forall {A} (P : A -> Prop) p f l : (forall r, P r -> P (f r)) -> Forall P l -> Forall P (update_rows p f l).
Proof. intros H. unfold update_rows. rewrite Forall_map. apply List.Forall_impl. intros r Hr. destruct (p r); auto. Qed.

Lemma delete_forall {A} (P : A -> Prop) p l : Forall P l -> Forall P (delete_rows p l).
Proof. rewrite !List.Forall_forall. intros H r Hr. apply in_delete in Hr as [Hr _]. auto. Qed.

(** ** The invariant *)

(** No two groups with a name or with a code, no two members, friends or
    categories with a number; the columns of a group that are read without an
    indicator are not NULL. *)
Definition full_row (r : group_row) : Prop := row_qqnum r <> None /\ row_owner r <> None.
Record db_ok (d : buddy_db) : Prop := DbOk {
  ok_gid : List.NoDup (map row_gid (db_groups d));
  ok_code : List.NoDup (map row_code (db_groups d));
  ok_full : Forall full_row (db_groups d);
  ok_uid : List.NoDup (map member_uid (group_buddies d));
  ok_friend : List.NoDup (map friend_uid (buddies d));
  ok_category : List.NoDup (map category_index (buddy_categories d))
}.

(** The operations that change the tables. *)
Inductive db_op : Type :=
| OpGroup (now : Z) (gid name code : cstring)
| OpGroupNumber (code qqnum : cstring)
| OpOwner (gid owner : cstring)
| OpMember (gid uid qqnum nick : cstring)
| OpMemberNumber (uid qqnum : cstring)
| OpFlag (uid : cstring) (mflag : Z)
| OpCard (uid card : cstring)
| OpCategory (index sort : Z) (name : cstring)
| OpFriend (uid : cstring) (flag category : Z)
| OpMark (uid markname : cstring)
| OpNick (uid nickname : cstring)
| OpClean (now : Z).

Definition run_op (d : buddy_db) (o : db_op) : buddy_db :=
  match o with
  | OpGroup now gid name code => update_group_list now gid name code d
  | OpGroupNumber code qqnum => map_group_qqnum code qqnum d
  | OpOwner gid owner => set_group_owner gid owner d
  | OpMember gid uid qqnum nick => group_new_buddy gid uid qqnum nick d
  | OpMemberNumber uid qqnum => map_buddy_qqnum uid qqnum d
  | OpFlag uid mflag => group_buddy_update_mflag uid mflag d
  | OpCard uid card => group_buddy_update_card uid card d
  | OpCategory index sort name => new_catgory index sort name d
  | OpFriend uid flag category => new_buddy uid flag category d
  | OpMark uid markname => buddy_update_markname uid markname d
  | OpNick uid nickname => buddy_update_nick uid nickname d
  | OpClean now => clean_out_outdated now d
  end.

Lemma key_absent (a b : cstring) : str_eqb a b = false -> a <> b.
Proof. destruct (str_eqb_spec a b); [discriminate|auto]. Qed.

Lemma update_group_list_ok now gid name code d : db_ok d -> db_ok (update_group_list now gid name code d).
Proof.
  intros [H1 H2 H3 H4 H5 H6]. unfold update_group_list.
  destruct (match List.find _ _ with Some r => _ | None => _ end) as [q o]. split; cbn; auto.
  - apply nodup_replace; [exact H1|]. intros r Hr. apply orb_false_iff in Hr as [Hr _]. now apply key_absent.
  - apply nodup_replace; [exact H2|]. intros r Hr. apply orb_false_iff in Hr as [_ Hr]. now apply key_absent.
  - apply Forall_app. split; [now apply delete_forall|]. repeat constructor; discriminate.
Qed.

Lemma run_op_ok o d : db_ok d -> db_ok (run_op d o).
Proof.
  intros H. pose proof H as [H1 H2 H3 H4 H5 H6].
  destruct o; cbn [run_op]; [now apply update_group_list_ok| | | | | | | | | | |]; split; cbn; rewrite ?update_keys by reflexivity; auto.
  - apply update_forall; [|exact H3]. now intros r [Hq Ho].
  - apply update_forall; [|exact H3]. now intros r [Hq Ho].
  - apply nodup_replace; [exact H4|]. intros r. apply key_absent.
  - apply nodup_replace; [exact H6|]. intros r Hr. now apply Z.eqb_neq.
  - apply nodup_replace; [exact H5|]. intros r. apply key_absent.
  - now apply nodup_delete.
  - now apply nodup_delete.
  - now apply delete_forall.
  - now apply nodup_delete.
Qed.

(** C28: the tables stay consistent.  After any sequence of the operations of
    [buddy_mgr], no two groups have the column [gid] or the column [group_code] in common (their names may
    be equal), no two members and no two friends the column [uid], no two categories
    the column [index]; and no read of a group fails. *)
Theorem db_invariant (stale : indicator) (stale_flag : Z) (ops : list db_op) :
  let d := fold_left run_op ops empty_db in
  db_ok d /\ (forall gid, is_ok (get_group_by_gid stale stale_flag gid d) = true)
  /\ forall qqnum, is_ok (get_group_by_qq stale stale_flag qqnum d) = true.
Proof.
  intros d. assert (db_ok d) as Hd.
  { subst d. enough (forall d, db_ok d -> db_ok (fold_left run_op ops d)) as H by (apply H; repeat constructor).
    induction ops as [|o ops IH]; intros d Hd; [exact Hd|]. now apply IH, run_op_ok. }
  split; [exact Hd|]. enough (forall gid, is_ok (get_group_by_gid stale stale_flag gid d) = true) as H by (split; auto; intros; apply H).
  intros gid. unfold get_group_by_gid. destruct (List.find (has_gid gid) (db_groups d)) as [r|] eqn:Er; [|reflexivity].
  apply List.find_some in Er as [Hin _]. destruct Hd as [_ _ Hf _ _ _]. rewrite List.Forall_forall in Hf.
  destruct (Hf r Hin) as [Hq Ho]. destruct (row_qqnum r), (row_owner r); (reflexivity || congruence).
Qed.

(** ** Looking for a row *)

Lemma find_delete {A} (p q : A -> bool) l r : List.find p l = Some r -> q r = false -> List.find p (delete_rows q l) = Some r.
Proof.
  unfold delete_rows. intros H Hq. induction l as [|x l IH]; [discriminate|]. cbn [List.find List.filter] in *.
  destruct (p x) eqn:Ep.
  - injection H as ->. rewrite Hq. cbn. now rewrite Ep.
  - destruct (negb (q x)); cbn [List.find]; rewrite ?Ep; auto.
Qed.

Lemma find_delete_none {A} (p q : A -> bool) l : List.find p l = None -> List.find p (delete_rows q l) = None.
Proof.
  unfold delete_rows. intros H. induction l as [|x l IH]; [reflexivity|]. cbn [List.find List.filter] in *.
  destruct (p x) eqn:Ep; [discriminate|]. destruct (negb (q x)); cbn [List.find]; rewrite ?Ep; auto.
Qed.

Lemma find_delete_all {A} (p q : A -> bool) l : (forall r, p r = true -> q r = true) -> List.find p (delete_rows q l) = None.
Proof.
  intros H. destruct (List.find p (delete_rows q l)) as [r|] eqn:E; [|reflexivity]. apply List.find_some in E as [Hin Hp].
  apply in_delete in Hin as [_ Hq]. rewrite (H r Hp) in Hq. discriminate.
Qed.

Lemma find_app {A} (p : A -> bool) l l' : List.find p (l ++ l') = match List.find p l with Some r => Some r | None => List.find p l' end.
Proof. induction l as [|x l IH]; [reflexivity|]. cbn [app List.find]. now destruct (p x). Qed.

Lemma find_update {A} (p q : A -> bool) f l :
  (forall r, p (f r) = p r) -> List.find p (update_rows q f l) = (fun r => if q r then f r else r) <$> List.find p l.
Proof.
  intros H. unfold update_rows. induction l as [|x l IH]; [reflexivity|]. cbn [map List.find].
  assert (p (if q x then f x else x) = p x) as -> by (destruct (q x); auto). destruct (p x); [reflexivity|exact IH].
Qed.

(** A row with a new key: it is found, others are as before. *)
Lemma find_replaced {A} (p q : A -> bool) l r : (forall x, p x = true -> q x = true) -> p r = true -> List.find p (delete_rows q l ++ [r]) = Some r.
Proof. intros H Hr. rewrite find_app, find_delete_all by exact H. cbn. now rewrite Hr. Qed.

Lemma find_other {A} (p q : A -> bool) l r :
  p r = false -> (forall x, List.find p l = Some x -> q x = false) -> List.find p (delete_rows q l ++ [r]) = List.find p l.
Proof.
  intros Hr Hq. rewrite find_app. destruct (List.find p l) as [x|] eqn:E.
  - rewrite (find_delete p q l x E); [reflexivity|auto].
  - rewrite find_delete_none by exact E. cbn. now rewrite Hr.
Qed.

Lemma has_same_code code r : has_code code r = true <-> row_code r = code.
Proof. unfold has_code. destruct (str_eqb_spec (row_code r) code); split; congruence. Qed.
Lemma has_same_gid gid r : has_gid gid r = true <-> row_gid r = gid.
Proof. unfold has_gid. destruct (str_eqb_spec (row_gid r) gid); split; congruence. Qed.
Lemma has_same_uid uid r : has_uid uid r = true <-> member_uid r = uid.
Proof. unfold has_uid. destruct (str_eqb_spec (member_uid r) uid); split; congruence. Qed.

(** ** The list of groups *)

Record listed : Type := Listed { l_gid : cstring; l_name : cstring; l_code : cstring }.

Definition known_qqnum (code : cstring) (d : buddy_db) : cstring :=
  match List.find (has_code code) (db_groups d) with Some r => column (row_qqnum r) | None => [] end.
Definition known_owner (code : cstring) (d : buddy_db) : cstring :=
  match List.find (has_code code) (db_groups d) with Some r => column (row_owner r) | None => [] end.

Definition listed_row (now : Z) (e : listed) (d : buddy_db) : group_row :=
  GroupRow (l_gid e) (l_code e) (l_name e) (Some (known_qqnum (l_code e) d)) (Some (known_owner (l_code e) d)) now.

Lemma update_group_row now e d :
  update_group_list now (l_gid e) (l_name e) (l_code e) d
  = set_groups (delete_rows (fun r => has_gid (l_gid e) r || has_code (l_code e) r) (db_groups d) ++ [listed_row now e d]) d.
Proof. unfold update_group_list, listed_row, known_qqnum, known_owner. now destruct (List.find _ _). Qed.

(** The name of a listed group was not that of a group with another code. *)
Definition not_reused (d : buddy_db) (l : list listed) : Prop :=
  forall r e, In r (db_groups d) -> In e l -> row_gid r = l_gid e -> row_code r = l_code e.

Definition list_all (now : Z) (l : list listed) (d : buddy_db) : buddy_db :=
  fold_left (fun d e => update_group_list now (l_gid e) (l_name e) (l_code e) d) l d.

(** One group of the list, for the groups behind it and the ones not in the list. *)
Lemma listed_step now e l d :
  not_reused d (e :: l) -> ~ In (l_gid e) (map l_gid l) -> ~ In (l_code e) (map l_code l) ->
  let d1 := update_group_list now (l_gid e) (l_name e) (l_code e) d in
  not_reused d1 l
  /\ List.find (has_gid (l_gid e)) (db_groups d1) = Some (listed_row now e d)
  /\ (forall e', In e' l -> listed_row now e' d1 = listed_row now e' d)
  /\ forall g r, List.find (has_gid g) (db_groups d) = Some r -> g <> l_gid e -> row_code r <> l_code e -> List.find (has_gid g) (db_groups d1) = Some r.
Proof.
  intros Hr Hg Hc d1. assert (Ed : db_groups d1 = delete_rows (fun r => has_gid (l_gid e) r || has_code (l_code e) r) (db_groups d) ++ [listed_row now e d])
    by (unfold d1; now rewrite update_group_row).
  split; [|split; [|split]].
  - intros r e' Hin He' Eg. rewrite Ed in Hin. apply in_app_or in Hin as [Hin|[<-|[]]].
    + apply in_delete in Hin as [Hin _]. apply Hr; [exact Hin|now right|exact Eg].
    + cbn in Eg. exfalso. apply Hg. rewrite Eg. now apply in_map.
  - rewrite Ed. apply find_replaced; [intros x Hx; now rewrite Hx|]. apply has_same_gid. reflexivity.
  - intros e' He'. assert (List.find (has_code (l_code e')) (db_groups d1) = List.find (has_code (l_code e')) (db_groups d)) as E.
    { assert (l_code e' <> l_code e) as Hne by (intros E; apply Hc; rewrite <- E; now apply in_map).
      rewrite Ed. apply find_other.
      - unfold has_code. cbn. destruct (str_eqb_spec (l_code e) (l_code e')); congruence.
      - intros x Hx. apply List.find_some in Hx as [Hin Hx]. apply has_same_code in Hx. apply orb_false_iff. split.
        + destruct (has_gid (l_gid e) x) eqn:Eg; [|reflexivity]. apply has_same_gid in Eg. apply (Hr x e) in Eg; [congruence|exact Hin|now left].
        + destruct (has_code (l_code e) x) eqn:Ec; [|reflexivity]. apply has_same_code in Ec. congruence. }
    unfold listed_row, known_qqnum, known_owner. now rewrite E.
  - intros g r Hf Hne Hcr. rewrite Ed, find_app. rewrite (find_delete _ _ _ r Hf); [reflexivity|].
    apply List.find_some in Hf as [_ Hgr]. apply has_same_gid in Hgr. apply orb_false_iff. split.
    + destruct (has_gid (l_gid e) r) eqn:Eg; [|reflexivity]. apply has_same_gid in Eg. congruence.
    + destruct (has_code (l_code e) r) eqn:Ec; [|reflexivity]. apply has_same_code in Ec. congruence.
Qed.

Lemma listed_run now l : forall d, List.NoDup (map l_gid l) -> List.NoDup (map l_code l) -> not_reused d l ->
  (forall e, In e l -> List.find (has_gid (l_gid e)) (db_groups (list_all now l d)) = Some (listed_row now e d))
  /\ forall g r, List.find (has_gid g) (db_groups d) = Some r -> ~ In g (map l_gid l) -> ~ In (row_code r) (map l_code l) ->
       List.find (has_gid g) (db_groups (list_all now l d)) = Some r.
Proof.
  induction l as [|e l IH]; intros d Hg Hc Hr; [now split|]. cbn [map] in Hg, Hc.
  apply List.NoDup_cons_iff in Hg as [Hg1 Hg], Hc as [Hc1 Hc].
  destruct (listed_step now e l d Hr Hg1 Hc1) as (Hr1 & Hf & He & Ho). destruct (IH _ Hg Hc Hr1) as [IH1 IH2].
  unfold list_all. cbn [fold_left]. fold (list_all now l (update_group_list now (l_gid e) (l_name e) (l_code e) d)). split.
  - intros e' [<-|Hin]; [|rewrite IH1, He by exact Hin; reflexivity]. now apply IH2.
  - intros g r Hfr Hng Hnc. cbn [map In] in *. apply IH2; [|tauto|tauto]. apply Ho; [exact Hfr|intros ->; tauto|intros E; apply Hnc; now left].
Qed.

(** The entry of a group in the answer. *)
Definition json_group (kv : cstring * ptree) (e : listed) : Prop :=
  pt_get ($"gid") (snd kv) = Some (l_gid e) /\ pt_get ($"name") (snd kv) = Some (l_name e) /\ pt_get ($"code") (snd kv) = Some (l_code e).
Definition group_list_json (t : ptree) (l : list listed) : Prop :=
  (pt_get ($"retcode") t ≫= stream_int) = Some 0
  /\ exists c, get_child ($"result.gnamelist") t = Some c /\ Forall2 json_group (pt_children c) l.

Lemma add_groups_run now cs l : Forall2 json_group cs l -> Forall (fun e => str_eqb (take 1 (l_gid e)) ($"-") = false) l ->
  forall s, exists s', add_groups now cs s = (s', Ok ()) /\ ls_db s' = list_all now l (ls_db s) /\ retry s' = retry s.
Proof.
  induction 1 as [|[k r] e cs l (Eg & En & Ec) _ IH]; intros Hd s; [now exists s|]. apply List.Forall_cons_iff in Hd as [Hd1 Hd].
  cbn [snd] in *. cbn [add_groups]. rewrite Eg, En, Ec. unfold mbind, sx_bind, sx_modify.
  destruct (IH Hd (add_group now (l_gid e) (l_name e) (l_code e) s)) as (s' & -> & Edb & Er). exists s'. split; [reflexivity|].
  rewrite Edb, Er. unfold add_group. now rewrite Hd1.
Qed.

Lemma group_list_run now t l d groups :
  group_list_json t l -> Forall (fun e => str_eqb (take 1 (l_gid e)) ($"-") = false) l ->
  exists groups', group_list_received now (Some t) d groups = (list_all now l d, groups', true).
Proof.
  intros (Hret & c & Hc & Hl) Hd. unfold group_list_received, process_group_list. rewrite Hret, Hc. cbn [Z.eqb]. unfold mbind at 1, sx_bind at 1.
  destruct (add_groups_run now _ l Hl Hd (ListState d groups [] false false)) as (s' & -> & Edb & Er). unfold sx_modify.
  cbn [retry] in Er. destruct (replace_list s'); eexists; cbn; rewrite Edb, Er; reflexivity.
Qed.

Lemma c_str_twice s : c_str (c_str s) = c_str s.
Proof. apply c_str_id, c_str_nul_free. Qed.

Lemma column_twice v : c_str (column v) = column v.
Proof. destruct v; [apply c_str_twice|reflexivity]. Qed.

Lemma known_c_str code d : c_str (known_qqnum code d) = known_qqnum code d /\ c_str (known_owner code d) = known_owner code d.
Proof. unfold known_qqnum, known_owner. destruct (List.find _ _); [split; apply column_twice|now split]. Qed.

(** The list of groups arrives.  When the server answers with a list of
    groups, each of them can be looked up by its new name afterwards, with the name
    and code of the answer and with the QQ number and the owner that were known
    for its code under its old name; groups that are not in the list stay as
    they are. *)
Theorem groups_listed (stale : indicator) (stale_flag now : Z) (t : ptree) (l : list listed) (d : buddy_db) (groups : list (cstring * cstring)) :
  group_list_json t l -> Forall (fun e => str_eqb (take 1 (l_gid e)) ($"-") = false) l ->
  List.NoDup (map l_gid l) -> List.NoDup (map l_code l) -> not_reused d l ->
  exists d' groups', group_list_received now (Some t) d groups = (d', groups', true)
    /\ (forall e, In e l -> get_group_by_gid stale stale_flag (l_gid e) d'
          = Ok (Some (QQGroup (c_str (l_gid e)) (c_str (l_name e)) (c_str (l_code e)) (known_qqnum (l_code e) d) (known_owner (l_code e) d)
                        (fun u => get_buddy_by_uin stale stale_flag u d'))))
    /\ forall g r, List.find (has_gid g) (db_groups d) = Some r -> ~ In g (map l_gid l) -> ~ In (row_code r) (map l_code l) ->
         List.find (has_gid g) (db_groups d') = Some r.
Proof.
  intros Hj Hd Hg Hc Hr. destruct (group_list_run now t l d groups Hj Hd) as (groups' & Er). exists (list_all now l d), groups'.
  split; [exact Er|]. destruct (listed_run now l d Hg Hc Hr) as [H1 H2]. split; [|exact H2].
  intros e He. unfold get_group_by_gid. rewrite (H1 e He). destruct (known_c_str (l_code e) d) as [Eq Eo]. cbn. now rewrite Eq, Eo.
Qed.

(** ** The members of a group *)

(** What the answer says: the members with their nicks, flags and cards. *)
Record members_answer : Type := MembersAnswer {
  a_owner : cstring; a_members : list (cstring * cstring); a_flags : list (cstring * cstring); a_cards : list (cstring * cstring)
}.

Definition json_pair (k1 k2 : cstring) (kv : cstring * ptree) (p : cstring * cstring) : Prop :=
  pt_get k1 (snd kv) = Some (fst p) /\ pt_get k2 (snd kv) = Some (snd p).
Definition json_list (path k1 k2 : cstring) (t : ptree) (l : list (cstring * cstring)) : Prop :=
  exists c, get_child path t = Some c /\ Forall2 (json_pair k1 k2) (pt_children c) l.
Definition members_json (t : ptree) (a : members_answer) : Prop :=
  (pt_get ($"retcode") t ≫= stream_int) = Some 0 /\ pt_get ($"result.ginfo.owner") t = Some (a_owner a)
  /\ json_list ($"result.minfo") ($"uin") ($"nick") t (a_members a)
  /\ json_list ($"result.ginfo.members") ($"muin") ($"mflag") t (a_flags a)
  /\ (json_list ($"result.cards") ($"muin") ($"card") t (a_cards a) \/ get_child ($"result.cards") t = None /\ a_cards a = []).

(** The tables after the three loops. *)
Definition with_members (gid : cstring) (l : list (cstring * cstring)) (d : buddy_db) : buddy_db :=
  fold_left (fun d m => group_new_buddy gid (fst m) [] (snd m) d) l d.
Definition with_flags (l : list (cstring * cstring)) (d : buddy_db) : buddy_db :=
  fold_left (fun d m => match lexical_uint (snd m) with Some f => group_buddy_update_mflag (fst m) f d | None => d end) l d.
Definition with_cards (l : list (cstring * cstring)) (d : buddy_db) : buddy_db :=
  fold_left (fun d m => group_buddy_update_card (fst m) (snd m) d) l d.

Lemma add_members_run gid cs l : Forall2 (json_pair ($"uin") ($"nick")) cs l -> forall d, add_members gid cs d = (with_members gid l d, Ok ()).
Proof.
  induction 1 as [|[k r] m cs l (E1 & E2) _ IH]; intros d; [reflexivity|]. cbn [snd] in *. cbn [add_members].
  unfold d_get. rewrite E1, E2. unfold mbind, sx_bind. cbn. apply IH.
Qed.

Lemma add_flags_run cs l : Forall2 (json_pair ($"muin") ($"mflag")) cs l -> forall d, add_flags cs d = (with_flags l d, Ok ()).
Proof.
  induction 1 as [|[k r] m cs l (E1 & E2) _ IH]; intros d; [reflexivity|]. cbn [snd] in *. cbn [add_flags].
  unfold d_get. rewrite E1, E2. unfold mbind, sx_bind. cbn. destruct (lexical_uint (snd m)); apply IH.
Qed.

Lemma add_cards_run cs l : Forall2 (json_pair ($"muin") ($"card")) cs l -> forall d, add_cards cs d = (with_cards l d, Ok ()).
Proof.
  induction 1 as [|[k r] m cs l (E1 & E2) _ IH]; intros d; [reflexivity|]. cbn [snd] in *. cbn [add_cards].
  unfold d_get. rewrite E1, E2. unfold mbind, sx_bind. cbn. apply IH.
Qed.

Lemma members_run gid t a d : members_json t a ->
  update_group_member gid (Some t) d = (with_cards (a_cards a) (with_flags (a_flags a) (with_members gid (a_members a) (set_group_owner gid (a_owner a) d))), true).
Proof.
  intros (Hr & Ho & (c1 & Hc1 & H1) & (c2 & Hc2 & H2) & H3). unfold update_group_member, group_member_process_json, d_int, d_get, d_child.
  destruct (pt_get ($"retcode") t) as [v|]; [|discriminate]. cbn [mbind option_bind] in Hr. unfold mbind, sx_bind, mret, sx_ret. rewrite Hr. cbn [Z.eqb].
  rewrite Ho. unfold sx_modify. rewrite Hc1, (add_members_run gid _ _ H1), Hc2, (add_flags_run _ _ H2). unfold ignore_bad_path.
  destruct H3 as [(c3 & Hc3 & H3)|[Hc3 ->]]; rewrite Hc3; [|reflexivity]. now rewrite (add_cards_run _ _ H3).
Qed.

Lemma members_find gid l u : forall d,
  (forall n, List.NoDup (map fst l) -> In (u, n) l ->
     List.find (has_uid u) (group_buddies (with_members gid l d)) = Some (MemberRow gid u (Some n) None None (Some [])))
  /\ (~ In u (map fst l) -> List.find (has_uid u) (group_buddies (with_members gid l d)) = List.find (has_uid u) (group_buddies d)).
Proof.
  induction l as [|[u' n'] l IH]; intros d; [now split|]. unfold with_members. cbn [fold_left fst snd].
  fold (with_members gid l (group_new_buddy gid u' [] n' d)). destruct (IH (group_new_buddy gid u' [] n' d)) as [IH1 IH2]. split.
  - intros n Hnd Hin. cbn [map fst] in Hnd. apply List.NoDup_cons_iff in Hnd as [Hn Hnd]. destruct Hin as [[= -> ->]|Hin]; [|now apply IH1].
    rewrite IH2 by exact Hn. apply find_replaced; [auto|]. now apply has_same_uid.
  - cbn [map fst In]. intros Hn. rewrite IH2 by tauto. apply find_other.
    + destruct (has_uid u _) eqn:E; [apply has_same_uid in E; cbn in E; tauto|reflexivity].
    + intros x Hx. apply List.find_some in Hx as [_ Hx]. apply has_same_uid in Hx. destruct (has_uid u' x) eqn:E; [|reflexivity].
      apply has_same_uid in E. rewrite E in Hx. tauto.
Qed.

(** The card of a member, and the text that gets into the column of its flag. *)
Definition card_of (u : cstring) (l : list (cstring * cstring)) (c : option cstring) : option cstring :=
  fold_left (fun c m => if str_eqb u (fst m) then Some (snd m) else c) l c.
Definition flag_of (u : cstring) (l : list (cstring * cstring)) (f : option cstring) : option cstring :=
  fold_left (fun f m => match lexical_uint (snd m) with Some z => if str_eqb u (itoa z) then Some (fst m) else f | None => f end) l f.
Definition set_flag (f : option cstring) (r : member_row) : member_row :=
  MemberRow (member_gid r) (member_uid r) (member_nick r) (member_card r) f (member_qqnum r).
Definition set_card (c : option cstring) (r : member_row) : member_row :=
  MemberRow (member_gid r) (member_uid r) (member_nick r) c (member_mflag r) (member_qqnum r).

Lemma flags_find l u : forall d,
  List.find (has_uid u) (group_buddies (with_flags l d))
  = (fun r => set_flag (flag_of u l (member_mflag r)) r) <$> List.find (has_uid u) (group_buddies d).
Proof.
  induction l as [|[u' t'] l IH]; intros d.
  - cbn. destruct (List.find _ _) as [[]|]; reflexivity.
  - unfold with_flags, flag_of. cbn [fold_left fst snd]. destruct (lexical_uint t') as [z|]; [|apply IH].
    change (List.find (has_uid u) (group_buddies (with_flags l (group_buddy_update_mflag u' z d)))
            = (fun r => set_flag (flag_of u l (if str_eqb u (itoa z) then Some u' else member_mflag r)) r) <$> List.find (has_uid u) (group_buddies d)).
    rewrite IH. cbn [group_buddies group_buddy_update_mflag set_members]. rewrite find_update by reflexivity.
    destruct (List.find (has_uid u) (group_buddies d)) as [r|] eqn:E; [|reflexivity]. cbn. f_equal.
    apply List.find_some in E as [_ E]. apply has_same_uid in E. destruct r. cbn in E. subst. unfold has_uid. cbn. now destruct (str_eqb u (itoa z)).
Qed.

Lemma cards_find l u : forall d,
  List.find (has_uid u) (group_buddies (with_cards l d))
  = (fun r => set_card (card_of u l (member_card r)) r) <$> List.find (has_uid u) (group_buddies d).
Proof.
  induction l as [|[u' c'] l IH]; intros d.
  - cbn. destruct (List.find _ _) as [[]|]; reflexivity.
  - change (List.find (has_uid u) (group_buddies (with_cards l (group_buddy_update_card u' c' d)))
            = (fun r => set_card (card_of u l (if str_eqb u u' then Some c' else member_card r)) r) <$> List.find (has_uid u) (group_buddies d)).
    rewrite IH. cbn [group_buddies group_buddy_update_card set_members]. rewrite find_update by reflexivity.
    destruct (List.find (has_uid u) (group_buddies d)) as [r|] eqn:E; [|reflexivity]. cbn. f_equal.
    apply List.find_some in E as [_ E]. apply has_same_uid in E. destruct r. cbn in E. subst. unfold has_uid. cbn. now destruct (str_eqb u u').
Qed.

Lemma fold_groups {A} (f : buddy_db -> A -> buddy_db) l : (forall d m, db_groups (f d m) = db_groups d) -> forall d, db_groups (fold_left f l d) = db_groups d.
Proof. intros H. induction l as [|m l IH]; intros d; [reflexivity|]. cbn. now rewrite IH. Qed.

Lemma members_groups gid a d :
  db_groups (with_cards (a_cards a) (with_flags (a_flags a) (with_members gid (a_members a) (set_group_owner gid (a_owner a) d))))
  = db_groups (set_group_owner gid (a_owner a) d).
Proof.
  unfold with_cards, with_flags, with_members. rewrite fold_groups by reflexivity.
  rewrite fold_groups by (intros ? m; now destruct (lexical_uint (snd m))). now rewrite fold_groups.
Qed.

Lemma card_of_other u l c : ~ In u (map fst l) -> card_of u l c = c.
Proof.
  unfold card_of. revert c. induction l as [|m l IH]; intros c Hu; [reflexivity|]. cbn [map In] in Hu. cbn [fold_left].
  destruct (str_eqb_spec u (fst m)); [subst; tauto|]. apply IH. tauto.
Qed.

Lemma flag_of_some u l : forall x, flag_of u l (Some x) <> None.
Proof.
  unfold flag_of. induction l as [|m l IH]; intros x; [discriminate|]. cbn [fold_left].
  destruct (lexical_uint (snd m)); [destruct (str_eqb u (itoa z))|]; apply IH.
Qed.

Lemma flag_of_other u l f : flag_of u l None = None -> flag_of u l f = f.
Proof.
  revert f. induction l as [|m l IH]; intros f; [reflexivity|]. unfold flag_of. cbn [fold_left].
  destruct (lexical_uint (snd m)); [destruct (str_eqb u (itoa z))|]; [|apply IH|apply IH]. intros H. now apply flag_of_some in H.
Qed.

(** C27: the members arrive.  When the server answers with the members of a
    group, each of them can be looked up by its number afterwards, with its nick
    and its card, and the group has the owner of the answer; the members the
    answer does not name are as before. *)
Theorem members_refreshed (stale : indicator) (stale_flag : Z) (gid : cstring) (t : ptree) (a : members_answer) (r : group_row) (d : buddy_db) :
  members_json t a -> List.NoDup (map fst (a_members a)) -> List.find (has_gid gid) (db_groups d) = Some r -> full_row r ->
  exists d', update_group_member gid (Some t) d = (d', true)
    /\ (forall u n, In (u, n) (a_members a) -> exists f,
          get_buddy_by_uin stale stale_flag u d' = Some (QQBuddy [] (c_str n) (column (card_of u (a_cards a) None)) f []))
    /\ (exists g, get_group_by_gid stale stale_flag gid d' = Ok (Some g) /\ owner g = c_str (a_owner a))
    /\ forall u, ~ In u (map fst (a_members a)) -> ~ In u (map fst (a_cards a)) -> flag_of u (a_flags a) None = None ->
         get_buddy_by_uin stale stale_flag u d' = get_buddy_by_uin stale stale_flag u d.
Proof.
  intros Hj Hnd Hg [Hq Ho]. eexists. split; [exact (members_run gid t a d Hj)|]. split; [|split].
  - intros u n Hin. unfold get_buddy_by_uin. rewrite cards_find, flags_find.
    destruct (members_find gid (a_members a) u (set_group_owner gid (a_owner a) d)) as [Hm _].
    rewrite (Hm n Hnd Hin). cbn. eexists. reflexivity.
  - unfold get_group_by_gid. rewrite members_groups.
    cbn [db_groups set_group_owner set_groups]. rewrite find_update by reflexivity. rewrite Hg. cbn. apply List.find_some in Hg as [_ ->]. cbn.
    destruct (row_qqnum r); [|congruence]. eexists. split; reflexivity.
  - intros u Hu Hc Hf. unfold get_buddy_by_uin. rewrite cards_find, flags_find.
    destruct (members_find gid (a_members a) u (set_group_owner gid (a_owner a) d)) as [_ ->]; [|exact Hu].
    cbn [group_buddies set_group_owner set_groups]. destruct (List.find (has_uid u) (group_buddies d)) as [m|]; [|reflexivity].
    cbn. rewrite (card_of_other u _ _ Hc), (flag_of_other u _ _ Hf). reflexivity.
Qed.

(** The flag of a member is lost: the two parameters of the statement are swapped, so
    the flag is what the variable held that is never set. *)
Theorem flags_lost (stale : indicator) (stale_flag : Z) (gid : cstring) (t : ptree) (a : members_answer) (u n : cstring) (d : buddy_db) :
  members_json t a -> List.NoDup (map fst (a_members a)) -> In (u, n) (a_members a) -> flag_of u (a_flags a) None = None ->
  exists b, get_buddy_by_uin stale stale_flag u (fst (update_group_member gid (Some t) d)) = Some b /\ mflag b = stale_flag.
Proof.
  intros Hj Hnd Hin Hf. rewrite (members_run gid t a d Hj). cbn [fst]. unfold get_buddy_by_uin. rewrite cards_find, flags_find.
  destruct (members_find gid (a_members a) u (set_group_owner gid (a_owner a) d)) as [Hm _].
  rewrite (Hm n Hnd Hin). cbn. rewrite Hf. eexists. split; reflexivity.
Qed.

(** The number of every member is read into another variable.  So in a group whose
    owner is not known yet everybody is taken for the owner, and once it is known
    nobody is. *)
Theorem everybody_owner (stale : indicator) (stale_flag : Z) (u : cstring) (d : buddy_db) (b : qqBuddy) (g : qqGroup) (message : ptree) :
  get_buddy_by_uin stale stale_flag u d = Some b -> owner g = [] -> add_op 1 b g message = add ($"op") ($"1") message.
Proof.
  intros Hb Ho. assert (uin b = []) as Hu.
  { unfold get_buddy_by_uin in Hb. destruct (List.find _ _); [now injection Hb as <-|]. destruct (is_i_ok stale); [now injection Hb as <-|discriminate]. }
  unfold add_op. now rewrite Hu, Ho, orb_true_r.
Qed.

(** ** Examples *)

Definition leaf (k v : cstring) : cstring * ptree := (k, pt_value v).
Definition example_groups : ptree :=
  PTree [] [leaf ($"retcode") ($"0");
            ($"result", PTree [] [($"gnamelist", PTree [] [([], PTree [] [leaf ($"gid") ($"77"); leaf ($"name") ($"avplayer"); leaf ($"code") ($"500")])])])].
Definition example_members : ptree :=
  PTree [] [leaf ($"retcode") ($"0");
            ($"result", PTree [] [
              ($"ginfo", PTree [] [leaf ($"owner") ($"u1"); ($"members", PTree [] [([], PTree [] [leaf ($"muin") ($"u1"); leaf ($"mflag") ($"4")])])]);
              ($"minfo", PTree [] [([], PTree [] [leaf ($"uin") ($"u1"); leaf ($"nick") ($"cai")])])])].
(** The group was known under another name. *)
Definition example_db : buddy_db :=
  BuddyDb [GroupRow ($"66") ($"500") ($"old") (Some ($"123")) (Some ($"u1")) 1] [] [] [].

Lemma groups_listed_witness :
  exists d' groups', group_list_received 2 (Some example_groups) example_db [] = (d', groups', true)
    /\ get_group_by_gid i_null 0 ($"77") d'
       = Ok (Some (QQGroup ($"77") ($"avplayer") ($"500") ($"123") ($"u1") (fun u => get_buddy_by_uin i_null 0 u d'))).
Proof.
  destruct (groups_listed i_null 0 2 example_groups [Listed ($"77") ($"avplayer") ($"500")] example_db []) as (d' & groups' & E & H & _).
  - split; [reflexivity|]. eexists. split; [reflexivity|]. repeat constructor.
  - repeat constructor.
  - repeat constructor. intros [].
  - repeat constructor. intros [].
  - intros r e [<-|[]] [<-|[]]. discriminate.
  - exists d', groups'. split; [exact E|]. exact (H (Listed ($"77") ($"avplayer") ($"500")) (or_introl eq_refl)).
Defined.

Lemma members_refreshed_witness :
  exists d', update_group_member ($"66") (Some example_members) example_db = (d', true)
    /\ exists f, get_buddy_by_uin i_null 0 ($"u1") d' = Some (QQBuddy [] ($"cai") [] f []).
Proof.
  destruct (members_refreshed i_null 0 ($"66") example_members (MembersAnswer ($"u1") [($"u1", $"cai")] [($"u1", $"4")] [])
              (GroupRow ($"66") ($"500") ($"old") (Some ($"123")) (Some ($"u1")) 1) example_db) as (d' & E & H & _).
  - split; [reflexivity|]. split; [reflexivity|]. split; [eexists; split; [reflexivity|repeat constructor]|].
    split; [eexists; split; [reflexivity|repeat constructor]|]. right. now split.
  - repeat constructor. intros [].
  - reflexivity.
  - now split.
  - exists d'. split; [exact E|]. apply (H ($"u1") ($"cai")). now left.
Defined.
