(* ===== verification/WebqqCodec.v ===== *)
(** The encodings of the WebQQ client: the hash of the account
    (libwebqq/src/impl/webqq_hash.hpp), the number and the password in a login
    (webqq_login.hpp) and the text of a message that is sent
    (group_message_sender.hpp).

    MD5 is a parameter, and so is the decoder of UTF-8 of the Boost library. *)

From S2P Require Import Prelude CLib EscapeString Base64.

(** ** The hash of the account *)

(** The loop that repeats the number up to the length of [N]. *)
Fixpoint hash_loop (fuel : nat) (uin N T : cstring) : option cstring :=
  match fuel with
  | O => None
  | S fuel' =>
      if (length T <=? length N)%nat then
        let T := T ++ uin in
        if (length T =? length N)%nat then Some T else hash_loop fuel' uin N T
      else Some (take (length N) T)
  end.

Definition hash_xor (T N : cstring) : cstring := zip_with (fun t n => chr (Z.lxor (uchar t) (uchar n))) T N.

Definition hash_func_u (fuel : nat) (uin ptwebqq : cstring) : option cstring :=
  let N := ptwebqq ++ $"password error" in
  T ← hash_loop fuel uin N [];
  Some (to_hex (hash_xor T N)).

(** The algorithm that the comment before the function gives as the reference,
    in JavaScript: the same repetition of the number, and the digits of its table
    ["0" .. "9", "A" .. "F"]. *)
Definition comment_digits : cstring := $"0123456789ABCDEF".

Definition comment_hex (v : Z) : cstring :=
  [nth (Z.to_nat (Z.land (Z.shiftr v 4) 15)) comment_digits NUL; nth (Z.to_nat (Z.land v 15)) comment_digits NUL].

Definition comment_hash (fuel : nat) (uin ptwebqq : cstring) : option cstring :=
  let N := ptwebqq ++ $"password error" in
  T ← hash_loop fuel uin N [];
  let V := zip_with (fun t n => Z.lxor (uchar t) (uchar n)) T N in
  Some (concat (map comment_hex V)).

(** ** The number in a login *)

Inductive codec_fault : Type := ArrayOverflow.

(** [strtol(u, NULL, 16)] of at most two characters. *)
Definition hex_digit (c : ascii) : option Z := hex_value c.
Definition strtol16 (u : cstring) : Z :=
  let '(neg, s) := strtol_sign (drop_while isspace u) in
  let v := (fix go (s : cstring) (acc : Z) : Z :=
              match s with c :: s' => match hex_digit c with Some d => go s' (16 * acc + d) | None => acc end | [] => acc end) s 0 in
  if (neg : bool) then - v else v.

(** [n] more turns; the array has nine bytes. *)
Fixpoint uin_loop (n i : nat) (uin buf : cstring) : result codec_fault cstring :=
  match n with
  | O => Ok buf
  | S n' =>
      let u := c_str (take 2 (drop (i * 4 + 2) uin)) in
      if (i <? 9)%nat then uin_loop n' (S i) uin (<[i := chr (strtol16 u)]> buf) else Err ArrayOverflow
  end.
Definition uin_decode (uin : cstring) : result codec_fault cstring :=
  buf ← uin_loop (length uin / 4) 0 uin (repeat NUL 9);
  Ok (take 8 buf).

(** ** The password *)

Definition is_hex (c : ascii) : bool := match hex_value c with Some _ => true | None => false end.
Definition is_md5 (s : cstring) : bool := (length s =? 32)%nat && forallb is_hex s.

(** [bin_from_hex], two digits for a byte. *)
Definition hex_to_int (c : ascii) : Z := match hex_value c with Some v => v | None => uchar "?" end.
Fixpoint hexstring_to_bin (s : cstring) : cstring :=
  match s with
  | a :: b :: s' => chr (Z.lor (Z.shiftl (hex_to_int a) 4) (hex_to_int b)) :: hexstring_to_bin s'
  | _ => []
  end.

Section Password.
(** [compute_digest<md5>], and [digest_type::str]. *)
Variables md5_digest md5_data : cstring -> cstring.

Definition webqq_password_encode (pwd vc uin : cstring) : result codec_fault cstring :=
  let I := if is_md5 pwd then hexstring_to_bin pwd else md5_digest pwd in
  u ← uin_decode uin;
  let H := md5_data (I ++ u) in
  let G := md5_data (map toupper (H ++ vc)) in
  Ok (map toupper G).
End Password.

(** ** The text of a message *)

(** [snprintf("\\\\u%04X")] into eight bytes. *)
Fixpoint hex_upper (n : nat) (z : Z) (acc : cstring) : cstring :=
  match n with O => acc | S n' => hex_upper n' (z / 16) (nth (Z.to_nat (z mod 16)) ($"0123456789ABCDEF") NUL :: acc) end.
Fixpoint hex_width (fuel : nat) (z : Z) : nat := match fuel with O => 0%nat | S f => if z <? 16 then 1%nat else S (hex_width f (z / 16)) end.
Definition escape_point (z : Z) : cstring := take 7 (["\"%char; "\"%char; "u"%char] ++ hex_upper (Nat.max 4 (hex_width 8 z)) z []).

(** The code points of a text, and whether an invalid sequence ends them. *)
Definition parse_unescape (points : cstring -> list Z * bool) (source : cstring) : cstring :=
  let '(l, bad) := points source in
  concat (map escape_point l) ++ (if (bad : bool) then $"broken encode sended" else []).

(** ** Lemmas *)

(** The number repeated: the character at a position of the repetition. *)
Lemma cycle_lookup (uin : cstring) k i :
  uin <> [] -> (i < k * length uin)%nat -> concat (repeat uin k) !! i = uin !! (i mod length uin)%nat.
Proof.
  intros Hne. assert (length uin <> 0)%nat as Hl by (now destruct uin). revert i. induction k as [|k IH]; intros i Hi; [lia|].
  cbn [repeat concat]. destruct (Nat.lt_ge_cases i (length uin)) as [H|H].
  - rewrite lookup_app_l by exact H. now rewrite Nat.mod_small.
  - rewrite lookup_app_r by exact H. rewrite IH by lia.
    replace (i mod length uin)%nat with ((i - length uin) mod length uin)%nat; [reflexivity|].
    replace i with ((i - length uin) + 1 * length uin)%nat at 2 by lia. now rewrite Nat.Div0.mod_add.
Qed.

Lemma cycle_length (uin : cstring) k : length (concat (repeat uin k)) = (k * length uin)%nat.
Proof. induction k as [|k IH]; [reflexivity|]. cbn [repeat concat]. rewrite length_app, IH. lia. Qed.

Lemma cycle_snoc (uin : cstring) k : concat (repeat uin k) ++ uin = concat (repeat uin (S k)).
Proof. induction k as [|k IH]; [cbn; now rewrite app_nil_r|]. cbn [repeat concat] in *. now rewrite <- app_assoc, IH. Qed.

(** The loop ends with the repetition cut to the length of [N]. *)
Lemma hash_loop_run uin N : uin <> [] -> forall fuel k,
  (length N + 2 <= fuel + Nat.min (k * length uin) (length N + 1))%nat ->
  exists m, hash_loop fuel uin N (concat (repeat uin k)) = Some (take (length N) (concat (repeat uin m))) /\ (length N <= m * length uin)%nat.
Proof.
  intros Hne fuel. assert (1 <= length uin)%nat as Hl by (destruct uin; [congruence|cbn; lia]).
  induction fuel as [|fuel IH]; intros k Hf; [lia|]. cbn [hash_loop]. rewrite cycle_length.
  destruct (Nat.leb_spec (k * length uin) (length N)) as [Hk|Hk]; [|exists k; split; [reflexivity|lia]].
  rewrite cycle_snoc, cycle_length. destruct (Nat.eqb_spec (S k * length uin) (length N)) as [He|He].
  - exists (S k). split; [|lia]. rewrite <- He, <- (cycle_length uin (S k)), take_ge by lia. reflexivity.
  - apply IH. lia.
Qed.

Lemma hash_empty_loop N fuel : hash_loop fuel [] (N ++ $"password error") [] = None.
Proof.
  induction fuel as [|fuel IH]; [reflexivity|]. cbn [hash_loop length app].
  assert (length (N ++ $"password error") <> 0)%nat as H by (rewrite length_app; cbn; lia).
  destruct (Nat.leb_spec 0 (length (N ++ $"password error"))); [|lia].
  destruct (Nat.eqb_spec 0 (length (N ++ $"password error"))); [lia|exact IH].
Qed.

Lemma hash_func_u_hex uin ptwebqq fuel :
  let N := ptwebqq ++ $"password error" in
  uin <> [] -> (length N + 2 <= fuel)%nat ->
  hash_func_u fuel uin ptwebqq
  = Some (to_hex (imap (fun i n => chr (Z.lxor (uchar (default NUL (uin !! (i mod length uin)%nat))) (uchar n))) N)).
Proof.
  intros N Hne Hf. unfold hash_func_u. fold N. destruct (hash_loop_run uin N Hne fuel 0) as (m & Em & Hm); [cbn; lia|].
  change (concat (repeat uin 0)) with (@nil ascii) in Em. rewrite Em. cbn [mbind option_bind]. f_equal. f_equal. apply list_eq. intros i.
  unfold hash_xor. rewrite lookup_zip_with, list_lookup_imap. destruct (Nat.lt_ge_cases i (length N)) as [Hi|Hi].
  - rewrite lookup_take_lt by exact Hi. rewrite cycle_lookup by (auto; lia).
    destruct (lookup_lt_is_Some_2 N i Hi) as [n En]. rewrite En. assert (i mod length uin < length uin)%nat as Hmod
      by (apply Nat.mod_upper_bound; destruct uin; [congruence|discriminate]).
    destruct (lookup_lt_is_Some_2 uin _ Hmod) as [c Ec]. rewrite Ec. reflexivity.
  - rewrite (lookup_ge_None_2 N i Hi). now destruct (take (length N) (concat (repeat uin m)) !! i).
Qed.

(** The digits of the comment are those of [to_hex] in upper case; they are the
    same when no letter is among them. *)
Lemma comment_hex_upper c : comment_hex (uchar c) = map toupper (to_hex [c]).
Proof.
  apply str_eqb_eq. revert c. apply forall_ascii. vm_compute. reflexivity.
Qed.

Lemma xor_byte t n : Z.lxor (uchar t) (uchar n) = uchar (chr (Z.lxor (uchar t) (uchar n))).
Proof.
  pose proof (uchar_range t). pose proof (uchar_range n). assert (0 <= Z.lxor (uchar t) (uchar n)) as Hpos by (apply Z.lxor_nonneg; lia).
  rewrite uchar_chr, Z.mod_small; [reflexivity|]. split; [exact Hpos|].
  destruct (Z.eq_dec (Z.lxor (uchar t) (uchar n)) 0) as [->|Hn]; [lia|].
  change 256 with (2 ^ 8). apply Z.log2_lt_pow2; [lia|]. eapply Z.le_lt_trans; [apply Z.log2_lxor; lia|].
  apply Z.max_lub_lt; (eapply Z.le_lt_trans; [apply (Z.log2_le_mono _ 255); lia|reflexivity]).
Qed.

Lemma comment_hash_upper fuel uin ptwebqq :
  comment_hash fuel uin ptwebqq = map toupper <$> hash_func_u fuel uin ptwebqq.
Proof.
  unfold comment_hash, hash_func_u. destruct (hash_loop _ _ _ _) as [T|]; [|reflexivity].
  cbn [mbind option_bind fmap option_fmap option_map]. f_equal. generalize (ptwebqq ++ $"password error").
  unfold hash_xor. induction T as [|t T IH]; intros [|n N]; try reflexivity.
  cbn [zip_with map concat]. rewrite IH.
  change (comment_hex (Z.lxor (uchar t) (uchar n)) ++ map toupper (to_hex (zip_with (fun t n => chr (Z.lxor (uchar t) (uchar n))) T N))
    = map toupper (to_hex [chr (Z.lxor (uchar t) (uchar n))])
      ++ map toupper (to_hex (zip_with (fun t n => chr (Z.lxor (uchar t) (uchar n))) T N))).
  now rewrite <- comment_hex_upper, <- xor_byte.
Qed.

Lemma to_hex_app s t : to_hex (s ++ t) = to_hex s ++ to_hex t.
Proof. induction s as [|c s IH]; [reflexivity|]. cbn [app to_hex]. now rewrite IH. Qed.

Lemma hex_upper_fixed s : map toupper (to_hex s) = to_hex s <-> forallb isdigit (to_hex s) = true.
Proof.
  assert (forall c, bool_decide (map toupper (to_hex [c]) = to_hex [c]) = forallb isdigit (to_hex [c])) as Hc
    by (intros c; apply eqb_prop; revert c; apply forall_ascii; vm_compute; reflexivity).
  induction s as [|c s IH]; [now split|]. change (c :: s) with ([c] ++ s). rewrite to_hex_app, map_app, forallb_app, andb_true_iff, <- IH.
  rewrite <- Hc, bool_decide_eq_true. split; [|intros [-> ->]; reflexivity].
  intros E. apply app_inj_1 in E; [exact E|]. now rewrite length_map.
Qed.

(** C38: the hash of the account is the reference of the comment before it, in
    lower-case digits.  For every account with a number the loop ends, after at most
    as many turns as the key is long, and the result is the lower-case hexadecimal
    text of the key, each character of it combined with the character of the number
    at its position, the number repeated without end.  The algorithm of the comment
    gives the same text with upper-case letters; so the two are equal exactly when
    the text has no letter, and differ else.  A missing number lets both run for
    ever. *)
Theorem hash_func_u_correct (uin ptwebqq : cstring) (fuel : nat) :
  let N := ptwebqq ++ $"password error" in
  let r := to_hex (imap (fun i n => chr (Z.lxor (uchar (default NUL (uin !! (i mod length uin)%nat))) (uchar n))) N) in
  (uin <> [] -> (length N + 2 <= fuel)%nat ->
   hash_func_u fuel uin ptwebqq = Some r
   /\ comment_hash fuel uin ptwebqq = Some (map toupper r)
   /\ (hash_func_u fuel uin ptwebqq = comment_hash fuel uin ptwebqq <-> forallb isdigit r = true))
  /\ hash_func_u fuel [] ptwebqq = None /\ comment_hash fuel [] ptwebqq = None.
Proof.
  intros N r. split.
  - intros Hne Hf. assert (hash_func_u fuel uin ptwebqq = Some r) as E by now apply hash_func_u_hex.
    rewrite comment_hash_upper, E. cbn [fmap option_fmap option_map]. split; [reflexivity|]. split; [reflexivity|].
    pose proof (hex_upper_fixed (imap (fun i n => chr (Z.lxor (uchar (default NUL (uin !! (i mod length uin)%nat))) (uchar n))) N)) as Hfix.
    fold r in Hfix. split; [intros [= E']; apply Hfix; congruence|intros Hd; f_equal; symmetry; now apply Hfix].
  - rewrite comment_hash_upper. unfold hash_func_u. rewrite hash_empty_loop. now split.
Qed.

(** ** The number in a login *)

Definition print_uin (b : cstring) : cstring := concat (map (fun c => $"\x" ++ to_hex [c]) b).

Lemma strtol16_hex c : chr (strtol16 (c_str (to_hex [c]))) = c.
Proof.
  apply Ascii.eqb_eq. revert c. apply forall_ascii. vm_compute. reflexivity.
Qed.

Lemma print_uin_length b : length (print_uin b) = (length b * 4)%nat.
Proof. unfold print_uin. induction b as [|c b IH]; [reflexivity|]. cbn [map concat]. rewrite length_app, IH. cbn. lia. Qed.

Lemma print_uin_at b i c : b !! i = Some c -> take 2 (drop (i * 4 + 2) (print_uin b)) = to_hex [c].
Proof.
  unfold print_uin. revert i. induction b as [|a b IH]; intros i Hi; [discriminate|]. destruct i as [|i].
  - injection Hi as ->. reflexivity.
  - cbn [lookup list_lookup] in Hi. cbn [map concat]. rewrite drop_app_ge by (cbn; lia).
    replace (S i * 4 + 2 - length ($"\x" ++ to_hex [a]))%nat with (i * 4 + 2)%nat by (cbn; lia). now apply IH.
Qed.

Lemma uin_loop_run b : (length b <= 8)%nat -> forall n i,
  (i + n = length b)%nat ->
  uin_loop n i (print_uin b) (take i b ++ repeat NUL (9 - i)) = Ok (b ++ repeat NUL (9 - length b)).
Proof.
  intros Hb n. induction n as [|n IH]; intros i Hi; cbn [uin_loop].
  - rewrite take_ge by lia. now replace i with (length b) by lia.
  - destruct (Nat.ltb_spec i 9) as [_|]; [|lia]. destruct (lookup_lt_is_Some_2 b i) as [c Ec]; [lia|].
    rewrite (print_uin_at b i c Ec), strtol16_hex.
    replace (<[i:=c]> (take i b ++ repeat NUL (9 - i))) with (take (S i) b ++ repeat NUL (9 - S i)); [apply IH; lia|].
    rewrite (take_S_r b i c Ec). rewrite insert_app_r_alt by (rewrite length_take; lia).
    rewrite length_take, Nat.min_l by lia. replace (i - i)%nat with 0%nat by lia.
    replace (9 - i)%nat with (S (9 - S i)) by lia. cbn [repeat]. now rewrite <- app_assoc.
Qed.

(** The number in a login is decoded.  The text of up to eight bytes, each
    written as a hexadecimal escape, decodes to these bytes, with zeros behind
    them; nothing is written behind the array. *)
Theorem uin_roundtrip (b : cstring) : (length b <= 8)%nat -> uin_decode (print_uin b) = Ok (b ++ repeat NUL (8 - length b)).
Proof.
  intros Hb. unfold uin_decode. rewrite print_uin_length, Nat.div_mul by lia.
  pose proof (uin_loop_run b Hb (length b) 0 eq_refl) as E. change (take 0 b ++ repeat NUL (9 - 0)) with (repeat NUL 9) in E.
  rewrite E. cbn [mbind result_bind]. f_equal. rewrite take_app_ge by lia. f_equal.
  replace (9 - length b)%nat with (S (8 - length b)) by lia. clear. generalize (8 - length b)%nat. intros k.
  replace (repeat NUL (S k)) with (repeat NUL k ++ [NUL]) by (induction k; cbn in *; congruence).
  rewrite take_app_le by (rewrite repeat_length; lia). rewrite take_ge by (rewrite repeat_length; lia). reflexivity.
Qed.

(** A longer text is written behind the array. *)
Theorem uin_overflow (b : cstring) : (9 < length b)%nat -> uin_decode (print_uin b) = Err ArrayOverflow.
Proof.
  intros Hb. unfold uin_decode. rewrite print_uin_length, Nat.div_mul by lia.
  assert (forall n i buf, (i <= 9)%nat -> (9 < i + n)%nat -> uin_loop n i (print_uin b) buf = Err ArrayOverflow) as H.
  { induction n as [|n IH]; intros i buf Hi Hn; [lia|]. cbn [uin_loop]. destruct (Nat.ltb_spec i 9); [|reflexivity]. apply IH; lia. }
  now rewrite H by lia.
Qed.

(** ** The password *)

Lemma hex_digits_hex c : forallb is_hex (to_hex [c]) = true.
Proof. revert c. apply forall_ascii. vm_compute. reflexivity. Qed.

Lemma hex_byte c a b : to_hex [c] = [a; b] -> chr (Z.lor (Z.shiftl (hex_to_int a) 4) (hex_to_int b)) = c.
Proof.
  intros E. assert (match to_hex [c] with
                    | [a; b] => chr (Z.lor (Z.shiftl (hex_to_int a) 4) (hex_to_int b)) =c c
                    | _ => false end = true) as H by (clear; revert c; apply forall_ascii; vm_compute; reflexivity).
  rewrite E in H. now apply Ascii.eqb_eq.
Qed.

Lemma hex_bytes s : hexstring_to_bin (to_hex s) = s /\ forallb is_hex (to_hex s) = true.
Proof.
  induction s as [|c s [IH1 IH2]]; [now split|]. change (to_hex (c :: s)) with (to_hex [c] ++ to_hex s).
  pose proof (hex_digits_hex c) as Hh. pose proof (hex_byte c) as Hb.
  destruct (to_hex [c]) as [|a [|b [|? ?]]] eqn:E; [discriminate E|discriminate E| |discriminate E].
  cbn [app hexstring_to_bin]. split; [now rewrite (Hb a b eq_refl), IH1|]. cbn [forallb] in *. now rewrite IH2.
Qed.

(** The password can be given as its hash.  When [str] of a digest is its
    hexadecimal text, as the library documents, then a password and the text of
    its MD5 hash give the same login, for every captcha and every account. *)
Theorem password_or_hash (md5_digest md5_data : cstring -> cstring) (pwd vc uin : cstring) :
  (forall s, md5_data s = to_hex (md5_digest s)) -> (forall s, length (md5_digest s) = 16%nat) -> is_md5 pwd = false ->
  webqq_password_encode md5_digest md5_data (md5_data pwd) vc uin = webqq_password_encode md5_digest md5_data pwd vc uin.
Proof.
  intros Hx Hl Hp. unfold webqq_password_encode. rewrite Hp. assert (is_md5 (md5_data pwd) = true) as ->.
  { unfold is_md5. rewrite Hx, to_hex_length, Hl. cbn [Nat.mul Nat.add Nat.eqb andb]. apply hex_bytes. }
  replace (hexstring_to_bin (md5_data pwd)) with (md5_digest pwd); [reflexivity|]. rewrite Hx. symmetry. apply hex_bytes.
Qed.

(** ** Examples *)

Lemma hash_func_u_correct_witness :
  hash_func_u 100 ($"12") ($"a") = Some ($"5042504142455e4055125440435d43")
  /\ comment_hash 100 ($"12") ($"a") = Some ($"5042504142455E4055125440435D43")
  /\ ~ hash_func_u 100 ($"12") ($"a") = comment_hash 100 ($"12") ($"a").
Proof.
  destruct (hash_func_u_correct ($"12") ($"a") 100) as [H _]. destruct H as (H1 & H2 & H3); [discriminate|cbn; lia|].
  split; [rewrite H1; vm_compute; reflexivity|]. split; [rewrite H2; vm_compute; reflexivity|].
  intros E. apply H3 in E. vm_compute in E. discriminate.
Defined.

Lemma uin_roundtrip_witness : uin_decode ($"\x00\x00\x00\x00\x54\xb3\x3c\x53") = Ok (map chr [0; 0; 0; 0; 84; 179; 60; 83]).
Proof. apply (uin_roundtrip (map chr [0; 0; 0; 0; 84; 179; 60; 83])). vm_compute. lia. Defined.

Lemma password_or_hash_witness :
  let digest := fun s => take 16 (s ++ repeat NUL 16) in
  let data := fun s => to_hex (digest s) in
  webqq_password_encode digest data (data ($"secret")) ($"!ABC") [] = webqq_password_encode digest data ($"secret") ($"!ABC") [].
Proof.
  intros digest data. apply (password_or_hash digest data ($"secret") ($"!ABC") []).
  - reflexivity.
  - intros s. unfold digest. rewrite length_take, length_app, repeat_length. lia.
  - reflexivity.
Defined.
