(* ===== verification/WebqqPoll.v ===== *)
(** Polling of WebQQ: the answers of the server and the group messages in them,
    libwebqq/src/impl/webqq_poll_message.hpp, process_group_msg.hpp and
    webqq_face.cpp.

    The JSON of an answer is a property tree of UTF-8 texts.  The address of a
    picture comes from the server: a parameter.  An exception that is not caught
    ends the program and is a fault here, and so is a null pointer. *)

From S2P Require Import Prelude CLib OrdMap PTree Irc Avbot BuddyMgr.

(** ** Errors *)

Inductive webqq_error : Type :=
| poll_failed_network_error | poll_failed_need_login | poll_failed_user_quit | poll_failed_need_refresh | poll_failed_unknow_ret_code
| poll_failed_user_kicked_off
| login_check_need_vc | login_failed_wrong_vc | login_failed_wrong_passwd | login_failed_blocked_account | other_error (code : Z).

Inductive poll_fault : Type := BadPathThrown | BadCastThrown | NullGroup | SociThrown.

(** ** The answer *)

(** What the handler is told; a new cookie; or the results are gone through. *)
Inductive poll_answer : Type := Told (ec : option webqq_error) | NewCookie (ptwebqq : cstring) | Results.

Definition on_retcode (retcode : Z) (t : ptree) : poll_answer :=
  if retcode =? 116 then match pt_get ($"p") t with Some p => NewCookie p | None => Told (Some poll_failed_network_error) end
  else if retcode =? 102 then Told None
  else if (retcode =? 121) || (retcode =? 120) || (retcode =? 100) then Told (Some poll_failed_need_login)
  else if retcode =? 103 then Told (Some poll_failed_need_login)
  else if retcode =? 110 then Told (Some poll_failed_user_quit)
  else if retcode =? 100006 then Told (Some poll_failed_need_refresh)
  else if negb (retcode =? 0) then Told (Some poll_failed_unknow_ret_code)
  else Results.

(** [ec]: the network failed; [None]: the text is not JSON. *)
Definition on_answer (ec : bool) (json : option ptree) : poll_answer :=
  if ec then Told (Some poll_failed_network_error)
  else
    match json with
    | None => Told (Some poll_failed_network_error)
    | Some t =>
        match pt_get ($"retcode") t ≫= stream_int with
        | Some retcode => on_retcode retcode t
        | None => Told (Some poll_failed_network_error)
        end
    end.

(** ** Faces *)

Definition face_table : list (Z * Z) :=
  [(0, 14); (14, 0); (50, 15); (51, 16); (96, 17); (53, 18); (54, 19); (73, 20); (74, 21); (75, 22); (76, 23); (77, 24); (78, 25); (56, 26);
   (55, 27); (57, 28); (58, 29); (79, 30); (80, 31); (81, 32); (83, 33); (82, 34); (84, 35); (85, 36); (86, 37); (87, 38); (88, 39);
   (97, 40); (98, 41); (99, 42); (100, 43); (101, 44); (102, 45); (103, 46); (104, 47); (105, 48); (106, 49); (108, 50); (107, 51);
   (109, 52); (110, 53); (111, 54); (112, 55); (32, 56); (113, 57); (114, 58); (115, 59); (63, 60); (64, 61); (59, 62); (33, 63); (34, 64);
   (116, 65); (36, 66); (37, 67); (38, 68); (91, 69); (92, 70); (93, 71); (29, 72); (117, 73); (72, 74); (45, 75); (42, 76); (39, 77);
   (62, 78); (46, 79); (47, 80); (71, 81); (95, 82); (118, 83); (119, 84); (120, 85); (121, 86); (122, 87); (123, 88); (124, 89); (27, 90);
   (21, 91); (23, 92); (25, 93); (26, 94); (125, 95); (126, 96); (127, 97); (128, 98); (129, 99); (130, 100); (131, 101); (132, 102);
   (133, 103); (134, 104)].

(** [insert] keeps the first value of a key; a key that is missing gives 0. *)
Definition facemap (k : Z) : Z :=
  match List.find (fun e => fst e =? k) face_table with
  | Some e => snd e
  | None => if (0 <=? k) && (k <=? 134) then k else 0
  end.

(** ** Messages *)

Section Poll.
Variables (stale : indicator) (stale_flag : Z) (vfwebqq : cstring).
(** [async_cface_url_final]: the result for the picture. *)
Variable cface_url : qqMsgCface -> option webqq_error * cstring.

Definition p_get (p : cstring) (t : ptree) : result poll_fault cstring := match pt_get p t with Some v => Ok v | None => Err BadPathThrown end.
Definition p_group (gid : cstring) (d : buddy_db) : result poll_fault (option qqGroup) :=
  match get_group_by_gid stale stale_flag gid d with Ok g => Ok g | Err _ => Err SociThrown end.

(** An array has children without names. *)
Definition is_array (t : ptree) : bool := existsb (fun kv => str_eqb (fst kv) []) (pt_children t).
Definition first_data (t : ptree) : cstring := match pt_children t with kv :: _ => pt_data (snd kv) | [] => [] end.
Definition last_child (t : ptree) : ptree := match last (pt_children t) with Some kv => snd kv | None => empty_tree end.

Definition parse_cface (group_code who : cstring) (d : buddy_db) (t : ptree) : result poll_fault (option webqq_error * qqMsg) :=
  g ← p_group group_code d;
  match g with
  | None => Err NullGroup
  | Some g =>
      file_id ← p_get ($"file_id") t;
      name ← p_get ($"name") t;
      key ← p_get ($"key") t;
      server ← p_get ($"server") t;
      let '(ec, url) := cface_url (QQMsgCface (code g) who vfwebqq name file_id key server []) in
      Ok (ec, MsgCface (QQMsgCface (code g) who vfwebqq name file_id key server url))
  end.

(** One part; the error is that of the last operation that ended. *)
Definition parse_part (group_code who : cstring) (d : buddy_db) (ec : option webqq_error) (t : ptree) :
    result poll_fault (option webqq_error * list qqMsg) :=
  if is_array t then
    if str_eqb (first_data t) ($"font") then p_get ($"name") (last_child t) ≫= fun _ => Ok (ec, [MsgFont])
    else if str_eqb (first_data t) ($"face") then
      match lexical_int (pt_data (last_child t)) with Some wface => Ok (ec, [MsgFace (facemap wface)]) | None => Err BadCastThrown end
    else if str_eqb (first_data t) ($"cface") then
      r ← parse_cface group_code who d (last_child t); Ok (fst r, [snd r])
    else Ok (ec, [])
  else Ok (ec, [MsgText (pt_data t)]).

Fixpoint parse_content (group_code who : cstring) (d : buddy_db) (ec : option webqq_error) (l : list (cstring * ptree)) :
    result poll_fault (option webqq_error * list qqMsg) :=
  match l with
  | [] => Ok (ec, [])
  | (_, t) :: l' =>
      r ← parse_part group_code who d ec t;
      r' ← parse_content group_code who d (fst r) l';
      Ok (fst r', snd r ++ snd r')
  end.

Definition is_some {A} (o : option A) : bool := match o with Some _ => true | None => false end.

(** What comes out of a message: the handler of the poll, the signal for the
    message, and the one for a new member. *)
Record group_message : Type := GroupMessage {
  gm_ec : option webqq_error; gm_group : cstring; gm_who : cstring; gm_content : list qqMsg; gm_new : option cstring
}.

(** [refreshed]: the tables and the result when the members had to be fetched. *)
Definition process_group_message (d : buddy_db) (refreshed : option webqq_error * buddy_db) (t : ptree) :
    result poll_fault (buddy_db * group_message) :=
  group_code ← p_get ($"value.from_uin") t;
  who ← p_get ($"value.send_uin") t;
  g ← p_group group_code d;
  let known := is_some (get_buddy_by_uin stale stale_flag who d) in
  let '(ec, d', new) :=
    match g with
    | None => (Some poll_failed_need_refresh, d, None)
    | Some _ =>
        if known then (None, d, None)
        else (fst refreshed, snd refreshed, if is_some (get_buddy_by_uin stale stale_flag who (snd refreshed)) then Some who else None)
    end in
  match get_child ($"value.content") t with
  | None => Err BadPathThrown
  | Some content =>
      r ← parse_content group_code who d' ec (pt_children content);
      Ok (d', GroupMessage (fst r) group_code who (snd r) new)
  end.

(** The results: anything that is not a group message is only printed. *)
Fixpoint process_results (d : buddy_db) (refresh : buddy_db -> option webqq_error * buddy_db) (ec : option webqq_error) (l : list (cstring * ptree)) :
    result poll_fault (buddy_db * option webqq_error * list group_message) :=
  match l with
  | [] => Ok (d, ec, [])
  | (_, t) :: l' =>
      poll_type ← p_get ($"poll_type") t;
      if negb (str_eqb poll_type ($"group_message")) then process_results d refresh ec l'
      else
        r ← process_group_message d (refresh d) t;
        r' ← process_results (fst r) refresh (gm_ec (snd r)) l';
        Ok (fst (fst r'), snd (fst r'), snd r :: snd r')
  end.

Definition poll_results (d : buddy_db) (refresh : buddy_db -> option webqq_error * buddy_db) (t : ptree) :
    result poll_fault (buddy_db * option webqq_error * list group_message) :=
  match get_child ($"result") t with Some l => process_results d refresh None (pt_children l) | None => Err BadPathThrown end.
End Poll.
