(* ===== verification/WebqqSystem.v ===== *)
(** The WebQQ client and the bot together: what is said in a QQ group reaches the
    other rooms of its channel. *)

From S2P Require Import Prelude CLib OrdMap PTree Irc Avbot BuddyMgr WebqqPoll.

(** ** The client as the account of the bot *)

Section System.
Variables (stale : indicator) (stale_flag : Z) (vfwebqq : cstring).
Variable cface_url : qqMsgCface -> option webqq_error * cstring.

Definition found_group (r : result soci_error (option qqGroup)) : option qqGroup := match r with Ok g => g | Err _ => None end.
Definition qq_account_of (d : buddy_db) (online : bool) : qq_account :=
  QQAccount (fun gid => found_group (get_group_by_gid stale stale_flag gid d))
            (fun qq => found_group (get_group_by_qq stale stale_flag qq d)) online.

(** The signal of each message, in order. *)
Fixpoint hear_all (l : list group_message) : B () :=
  match l with
  | [] => mret ()
  | m :: l' => receive (FromQQ (gm_group m) (gm_who m) (gm_content m)) ;; hear_all l'
  end.

(** ** Messages in an answer *)

Record said : Type := Said { said_group : cstring; said_who : cstring; said_parts : list qqMsg }.
(** The group and the speaker are in the tables. *)
Definition known_in (d : buddy_db) (m : said) (g : qqGroup) : Prop :=
  get_group_by_gid stale stale_flag (said_group m) d = Ok (Some g) /\ get_buddy_by_uin stale stale_flag (said_who m) d <> None.

(** A part of a message of [who] in the group [g]; what is known of a picture
    before its address was asked for is [asked]. *)
Definition asked (c : qqMsgCface) : qqMsgCface :=
  QQMsgCface (cface_gid c) (cface_uin c) (Avbot.vfwebqq c) (cface_name c) (file_id c) (key c) (server c) [].

Inductive json_part (g : qqGroup) (who : cstring) (kv : cstring * ptree) : qqMsg -> Prop :=
| json_text : is_array (snd kv) = false -> json_part g who kv (MsgText (pt_data (snd kv)))
| json_face n : is_array (snd kv) = true -> first_data (snd kv) = $"face" -> lexical_int (pt_data (last_child (snd kv))) = Some n ->
    json_part g who kv (MsgFace (facemap n))
| json_font n : is_array (snd kv) = true -> first_data (snd kv) = $"font" -> pt_get ($"name") (last_child (snd kv)) = Some n ->
    json_part g who kv MsgFont
| json_cface c : is_array (snd kv) = true -> first_data (snd kv) = $"cface" ->
    pt_get ($"file_id") (last_child (snd kv)) = Some (file_id c) -> pt_get ($"name") (last_child (snd kv)) = Some (cface_name c) ->
    pt_get ($"key") (last_child (snd kv)) = Some (key c) -> pt_get ($"server") (last_child (snd kv)) = Some (server c) ->
    cface_gid c = code g -> cface_uin c = who -> Avbot.vfwebqq c = vfwebqq -> gchatpicurl c = snd (cface_url (asked c)) ->
    json_part g who kv (MsgCface c).

(** The error of the last picture whose address was asked for. *)
Definition parts_error (ec : option webqq_error) (ms : list qqMsg) : option webqq_error :=
  fold_left (fun ec m => match m with MsgCface c => fst (cface_url (asked c)) | _ => ec end) ms ec.

Lemma part_run group_code who d g ec k t m :
  get_group_by_gid stale stale_flag group_code d = Ok (Some g) -> json_part g who (k, t) m ->
  parse_part stale stale_flag vfwebqq cface_url group_code who d ec t = Ok (parts_error ec [m], [m]).
Proof.
  intros Hg Hm. unfold parse_part. destruct Hm as [Ha|n Ha Hf Hn|n Ha Hf Hn|c Ha Hf H1 H2 H3 H4 H5 H6 H7 H8]; cbn [snd] in *; rewrite Ha;
    [reflexivity|rewrite Hf..].
  - change (str_eqb ($"face") ($"font")) with false. change (str_eqb ($"face") ($"face")) with true. cbv iota. now rewrite Hn.
  - change (str_eqb ($"font") ($"font")) with true. cbv iota. unfold p_get. now rewrite Hn.
  - change (str_eqb ($"cface") ($"font")) with false. change (str_eqb ($"cface") ($"face")) with false.
    change (str_eqb ($"cface") ($"cface")) with true. cbv iota. unfold parse_cface, p_group, p_get. rewrite Hg. cbn [mbind result_bind].
    rewrite H1, H2, H3, H4. cbn [mbind result_bind]. unfold parts_error. cbn [fold_left]. unfold asked in *. rewrite H5, H6, H7 in *.
    destruct (cface_url _) as [e u]. cbn [mbind result_bind fst snd] in *. destruct c; cbn in *. now subst.
Qed.

Lemma content_run group_code who d g l ms : get_group_by_gid stale stale_flag group_code d = Ok (Some g) ->
  Forall2 (json_part g who) l ms -> forall ec,
  parse_content stale stale_flag vfwebqq cface_url group_code who d ec l = Ok (parts_error ec ms, ms).
Proof.
  intros Hg. induction 1 as [|[k t] m l ms Hm _ IH]; intros ec; [reflexivity|]. cbn [parse_content].
  rewrite (part_run group_code who d g ec k t m Hg Hm). cbn [mbind result_bind fst snd]. now rewrite IH.
Qed.

(** A message of a group and a member in the tables. *)
Definition json_message (d : buddy_db) (kv : cstring * ptree) (m : said) : Prop :=
  pt_get ($"poll_type") (snd kv) = Some ($"group_message")
  /\ pt_get ($"value.from_uin") (snd kv) = Some (said_group m) /\ pt_get ($"value.send_uin") (snd kv) = Some (said_who m)
  /\ exists g c, known_in d m g /\ get_child ($"value.content") (snd kv) = Some c /\ Forall2 (json_part g (said_who m)) (pt_children c) (said_parts m).

Definition as_group_message (m : said) : group_message :=
  GroupMessage (parts_error None (said_parts m)) (said_group m) (said_who m) (said_parts m) None.
(** The error that the poll ends with: that of the last message. *)
Definition poll_error (ec : option webqq_error) (ms : list said) : option webqq_error :=
  fold_left (fun _ m => parts_error None (said_parts m)) ms ec.

Lemma results_run d refresh l ms : Forall2 (json_message d) l ms -> forall ec,
  process_results stale stale_flag vfwebqq cface_url d refresh ec l = Ok (d, poll_error ec ms, map as_group_message ms).
Proof.
  induction 1 as [|[k t] m l ms (Ht & Hg & Hw & g & c & [Eg Hb] & Hc & Hp) _ IH]; intros ec; [reflexivity|].
  cbn [snd] in *. cbn [process_results]. unfold p_get at 1. rewrite Ht.
  cbn [mbind result_bind]. change (str_eqb ($"group_message") ($"group_message")) with true. cbn [negb].
  unfold process_group_message, p_get, p_group. rewrite Hg, Hw. cbn [mbind result_bind]. rewrite Eg. cbn [mbind result_bind].
  destruct (get_buddy_by_uin stale stale_flag (said_who m) d); [|congruence]. cbn [is_some]. rewrite Hc, (content_run _ _ _ _ _ _ Eg Hp).
  cbn [mbind result_bind fst snd gm_ec]. now rewrite IH.
Qed.

(** ** The bot *)

(** States of the bot that differ only in what was sent and heard. *)
Record same_bot (s s' : avbot) : Prop := SameBot {
  sb_qq : m_qq_account s' = m_qq_account s;
  sb_channels : m_channel_map s' = m_channel_map s;
  sb_format : preamble_qq_fmt s' = preamble_qq_fmt s;
  sb_url : m_urlformater s' = m_urlformater s;
  sb_deliver : forall text r, deliver s' text r = deliver s text r
}.

Lemma same_bot_sent l : forall s, same_bot s (add_all l s).
Proof.
  induction l as [|m l IH]; intros s; [now split|]. destruct (IH (add_sent m s)) as [H1 H2 H3 H4 H5]. split; [exact H1|exact H2|exact H3|exact H4|].
  intros text r. exact (H5 text r).
Qed.

Lemma same_bot_heard l m s : same_bot s (add_all l (add_message m s)).
Proof. destruct (same_bot_sent l (add_message m s)) as [H1 H2 H3 H4 H5]. split; [exact H1|exact H2|exact H3|exact H4|]. intros text r. exact (H5 text r). Qed.

(** What the other rooms get for a message of the group [g]. *)
Definition said_text (s : avbot) (m : said) (g : qqGroup) : cstring :=
  preamble_formater (preamble_qq_fmt s) (get_Buddy_by_uin g (said_who m)) (said_who m) (Some g) ++ concat (map (part_text s) (said_parts m)).

(** The group is in a channel with the rooms [rs]. *)
Definition in_rooms (s : avbot) (g : qqGroup) (ch : cstring) (rs : list room) : Prop :=
  get_channel_name (room_text (QQRoom (qqnum g))) s = ch /\ ch <> [] /\ In (ch, map room_text rs) (m_channel_map s).

Definition reaches (d : buddy_db) (s : avbot) (m : said) (out : list sent_message) : Prop :=
  exists g ch rs, known_in d m g /\ in_rooms s g ch rs /\ (length (List.filter is_cface (said_parts m)) <= 1)%nat
    /\ out = relayed s (said_text s m g) (QQRoom (qqnum g)) rs.

Lemma reaches_same d s s' m out : same_bot s s' -> reaches d s m out -> reaches d s' m out.
Proof.
  intros [H1 H2 H3 H4 H5] (g & ch & rs & Hk & (Hc & Hne & Hin) & Hp & ->). exists g, ch, rs. split; [exact Hk|]. split.
  - split; [|split; [exact Hne|now rewrite H2]]. unfold get_channel_name in *. now rewrite H2.
  - split; [exact Hp|]. assert (said_text s m g = said_text s' m g) as ->.
    { unfold said_text. rewrite H3. f_equal. f_equal. apply map_ext. intros []; cbn [part_text]; now rewrite ?H4. }
    unfold relayed. apply flat_map_ext. intros r. now rewrite H5.
Qed.

Lemma hear_run d online ms outs : forall s,
  m_qq_account s = Some (qq_account_of d online) -> sorted (m_channel_map s) -> Forall2 (reaches d s) ms outs ->
  exists s', hear_all (map as_group_message ms) s = Ok ((), s') /\ sent_messages s' = sent_messages s ++ concat outs /\ same_bot s s'.
Proof.
  revert outs. induction ms as [|m ms IH]; intros outs s Hq Hs H.
  - inversion H. exists s. cbn. rewrite app_nil_r. now repeat split.
  - inversion H as [|? out ? outs' Hm Hr]. subst. destruct Hm as (g & ch & rs & [Hg Hb] & (Hc & Hne & Hin) & Hp & ->).
    cbn [map hear_all]. destruct (receive_relays s (FromQQ (said_group m) (said_who m) (said_parts m)) (QQRoom (qqnum g)) (said_text s m g) ch rs)
      as (message & Er); auto.
    { cbn [spoken]. rewrite Hq. cbn [get_Group_by_gid qq_account_of]. now rewrite Hg. }
    cbn [as_group_message gm_group gm_who gm_content]. rewrite (bind_ok _ _ _ _ _ Er).
    set (s1 := add_all _ _). pose proof (same_bot_heard (relayed s (said_text s m g) (QQRoom (qqnum g)) rs) message s) as Hsame. fold s1 in Hsame.
    destruct (IH outs' s1) as (s' & Eh & Es & Hs'); [now rewrite (sb_qq _ _ Hsame)|now rewrite (sb_channels _ _ Hsame)| |].
    { eapply Forall2_impl; [exact Hr|]. intros m' out. now apply reaches_same. }
    exists s'. split; [exact Eh|]. rewrite Es. unfold s1. destruct (add_all_sent (relayed s (said_text s m g) (QQRoom (qqnum g)) rs) (add_message message s)) as (-> & _).
    split; [cbn [concat sent_messages add_message]; now rewrite <- app_assoc|].
    destruct Hsame as [A1 A2 A3 A4 A5], Hs' as [B1 B2 B3 B4 B5]. split; congruence.
Qed.

(** C11: what is said on QQ is heard.  When a poll is answered with messages of
    groups and members the client knows, made of texts, faces, fonts and at most one
    picture each, then each of them goes to the other rooms of the channel of its
    group, in the order of the answer, as the preamble of its speaker followed by its
    parts, a picture as the text for its address, which is asked for first.  The
    tables stay as they are, and the poll ends with the error of the last message, the
    one of asking for the address of its picture: none for a message without one. *)
Theorem qq_relayed (d : buddy_db) (online : bool) (refresh : buddy_db -> option webqq_error * buddy_db) (t l : ptree) (ms : list said)
    (outs : list (list sent_message)) (s : avbot) :
  (pt_get ($"retcode") t ≫= stream_int) = Some 0 -> get_child ($"result") t = Some l -> Forall2 (json_message d) (pt_children l) ms ->
  m_qq_account s = Some (qq_account_of d online) -> sorted (m_channel_map s) -> Forall2 (reaches d s) ms outs ->
  on_answer false (Some t) = Results
  /\ exists msgs s', poll_results stale stale_flag vfwebqq cface_url d refresh t = Ok (d, poll_error None ms, msgs)
       /\ hear_all msgs s = Ok ((), s') /\ sent_messages s' = sent_messages s ++ concat outs.
Proof.
  intros Hr Hl Hj Hq Hs Ho. split; [unfold on_answer; now rewrite Hr|]. exists (map as_group_message ms).
  destruct (hear_run d online ms outs s Hq Hs Ho) as (s' & Eh & Es & _). exists s'. split; [|now split].
  unfold poll_results. rewrite Hl. now apply results_run.
Qed.

(** A new member and being logged out are never noticed: every result that is not a
    group message is skipped before its type is looked at. *)
Theorem other_results_skipped (d : buddy_db) refresh (t : ptree) (k poll_type : cstring) (l : list (cstring * ptree)) (ec : option webqq_error) :
  pt_get ($"poll_type") t = Some poll_type -> poll_type <> $"group_message" ->
  process_results stale stale_flag vfwebqq cface_url d refresh ec ((k, t) :: l)
  = process_results stale stale_flag vfwebqq cface_url d refresh ec l.
Proof.
  intros Ht Hne. cbn [process_results]. unfold p_get at 1. rewrite Ht. cbn [mbind result_bind].
  destruct (str_eqb_spec poll_type ($"group_message")); [contradiction|reflexivity].
Qed.
End System.

(** ** Example *)

(** A group of one member, in a channel with an IRC room; a text and a picture. *)
Definition example_tables : buddy_db :=
  BuddyDb [GroupRow ($"77") ($"500") ($"avplayer") (Some ($"123")) (Some []) 1]
          [MemberRow ($"77") ($"u1") (Some ($"cai")) None None (Some [])] [] [].
Definition example_picture : ptree :=
  PTree [] [($"name", pt_value ($"{8F}.jpg")); ($"file_id", pt_value ($"9")); ($"key", pt_value ($"k")); ($"server", pt_value ($"1.2.3.4:80"))].
Definition example_poll : ptree :=
  PTree [] [($"retcode", pt_value ($"0"));
            ($"result", PTree [] [([], PTree [] [
               ($"poll_type", pt_value ($"group_message"));
               ($"value", PTree [] [($"from_uin", pt_value ($"77")); ($"send_uin", pt_value ($"u1"));
                  ($"content", PTree [] [
                     ([], PTree [] [([], pt_value ($"font")); ([], PTree [] [($"name", pt_value ($"SimSun"))])]);
                     ([], pt_value ($"hello "));
                     ([], PTree [] [([], pt_value ($"cface")); ([], example_picture)])])])])])].
Definition example_qq_bot : avbot :=
  set_channel_map [($"avplayer", [$"irc:avplayer"; $"qq:123"])] (new_avbot (Some (qq_account_of i_null 0 example_tables true)) true false).
Definition example_address (c : qqMsgCface) : option webqq_error * cstring := (None, $"http://web.qq.com/" ++ file_id c).

Lemma qq_relayed_witness :
  exists msgs s', poll_results i_null 0 [] example_address example_tables (fun d => (None, d)) example_poll = Ok (example_tables, None, msgs)
    /\ hear_all msgs example_qq_bot = Ok ((), s')
    /\ sent_messages s' = [ToIrc ($"#avplayer") ($"qq(cai)说：hello http://web.qq.com/9 ")].
Proof.
  set (c := QQMsgCface ($"500") ($"u1") [] ($"{8F}.jpg") ($"9") ($"k") ($"1.2.3.4:80") ($"http://web.qq.com/9")).
  destruct (qq_relayed i_null 0 [] example_address example_tables true (fun d => (None, d)) example_poll
              (snd (nth 1 (pt_children example_poll) ([], empty_tree)))
              [Said ($"77") ($"u1") [MsgFont; MsgText ($"hello "); MsgCface c]] [[ToIrc ($"#avplayer") ($"qq(cai)说：hello http://web.qq.com/9 ")]] example_qq_bot)
    as [_ (msgs & s' & H1 & H2 & H3)].
  - reflexivity.
  - reflexivity.
  - constructor; [|constructor]. split; [reflexivity|]. split; [reflexivity|]. split; [reflexivity|].
    do 2 eexists. split; [split; [reflexivity|discriminate]|]. split; [reflexivity|]. constructor; [|constructor; [|constructor; [|constructor]]].
    + now apply (json_font _ _ _ _ _ ($"SimSun")).
    + now apply json_text.
    + now apply json_cface.
  - reflexivity.
  - repeat constructor.
  - constructor; [|constructor]. eexists. exists ($"avplayer"), [IrcRoom ($"avplayer"); QQRoom ($"123")].
    split; [split; [reflexivity|discriminate]|]. split; [split; [reflexivity|split; [discriminate|now left]]|]. split; [cbn; lia|]. reflexivity.
  - exists msgs, s'. split; [exact H1|]. split; [exact H2|exact H3].
Defined.
