(* ===== verification/WebqqLoop.v ===== *)
(** The main loop of the WebQQ client, libwebqq/src/impl/webqq_loop.cpp, and the
    login, webqq_login.hpp.

    A coroutine is the point where it is suspended, and an event ends the
    operation there.  What the loop starts and signals is recorded, and so are the
    delays, in seconds.  [Cleared] and [WentOnline] are the changes that
    [async_check_login] and [async_login] make to the status while they run;
    [BadVc] is the call of [m_sigbadvc], when there is one. *)

From S2P Require Import Prelude CLib OrdMap PTree Regex Irc Avbot CoroQueue BuddyMgr WebqqPoll.

(** ** The main loop *)

Inductive LWQQ_STATUS : Type :=
| LWQQ_STATUS_UNKNOW | LWQQ_STATUS_ONLINE | LWQQ_STATUS_OFFLINE | LWQQ_STATUS_AWAY | LWQQ_STATUS_HIDDEN | LWQQ_STATUS_BUSY
| LWQQ_STATUS_CALLME | LWQQ_STATUS_SLIENT | LWQQ_STATUS_QUITTING.

Inductive loop_point : Type :=
| Starting | Polling | PollDelay (ec : option webqq_error)
| Checking | CheckDelay | WaitVc | LoggingIn | BlockedDelay | RetryDelay | Ended.

Inductive loop_output : Type :=
| StartPoll | Delay (seconds : Z) | DropSession | StartCheck | NeedVc (str : cstring) | StartLogin (vc : cstring) | BadVc | Logined.

(** The queue of captchas keeps the last one. *)
Abbreviation vc_queue := (coro_queue cstring (C := circular_buffer cstring 1) unit unit).

(** [vc_calls]: the calls that the queue posted. *)
Record webqq_loop : Type := WebqqLoop {
  m_status : LWQQ_STATUS;
  firs_start : Z;
  m_counted_network_error : Z;
  m_vc_queue : vc_queue;
  vc_calls : list cstring;
  loop_at : loop_point;
  outputs : list loop_output
}.

Definition set_status (st : LWQQ_STATUS) (s : webqq_loop) : webqq_loop :=
  WebqqLoop st (firs_start s) (m_counted_network_error s) (m_vc_queue s) (vc_calls s) (loop_at s) (outputs s).
Definition set_first (n : Z) (s : webqq_loop) : webqq_loop :=
  WebqqLoop (m_status s) n (m_counted_network_error s) (m_vc_queue s) (vc_calls s) (loop_at s) (outputs s).
Definition set_counted (n : Z) (s : webqq_loop) : webqq_loop :=
  WebqqLoop (m_status s) (firs_start s) n (m_vc_queue s) (vc_calls s) (loop_at s) (outputs s).
Definition set_vc_calls (l : list cstring) (s : webqq_loop) : webqq_loop :=
  WebqqLoop (m_status s) (firs_start s) (m_counted_network_error s) (m_vc_queue s) l (loop_at s) (outputs s).
(** An operation of the queue; a fault of it does not happen ([vc_queue_never_faults]). *)
Definition on_vc_queue (o : queue_op) (s : webqq_loop) : webqq_loop :=
  match queue_step [] true o (m_vc_queue s) with
  | Ok (calls, q) => WebqqLoop (m_status s) (firs_start s) (m_counted_network_error s) q (vc_calls s ++ delivered calls) (loop_at s) (outputs s)
  | Err _ => s
  end.
(** The operation is started, and the coroutine waits for it. *)
Definition suspend (p : loop_point) (o : list loop_output) (s : webqq_loop) : webqq_loop :=
  WebqqLoop (m_status s) (firs_start s) (m_counted_network_error s) (m_vc_queue s) (vc_calls s) p (outputs s ++ o).

(** The constructor: [clientid] is that of the cookies. *)
Definition webqq_main_loop_op (clientid : cstring) : webqq_loop :=
  let first := match clientid with [] => 1 | _ => 0 end in
  WebqqLoop (if first =? 0 then LWQQ_STATUS_ONLINE else LWQQ_STATUS_OFFLINE) first 0 new_queue [] Starting [].

(** The loop over polls, and what is behind it. *)
Definition enter_poll (s : webqq_loop) : webqq_loop :=
  match m_status s with
  | LWQQ_STATUS_ONLINE => suspend Polling [StartPoll] s
  | _ => suspend Checking [DropSession; StartCheck] s
  end.
Definition enter_for (s : webqq_loop) : webqq_loop :=
  match m_status s with
  | LWQQ_STATUS_QUITTING => suspend Ended [] s
  | _ => enter_poll (set_counted 0 s)
  end.

Definition after_poll (ec : option webqq_error) (s : webqq_loop) : webqq_loop :=
  let s := match ec with
           | None => if 0 <? m_counted_network_error s then set_counted (m_counted_network_error s - 1) s else s
           | Some _ => s
           end in
  enter_poll (set_first 1 s).

Definition on_poll (ec : option webqq_error) (s : webqq_loop) : webqq_loop :=
  match ec with
  | Some poll_failed_need_login | Some poll_failed_user_kicked_off =>
      suspend (PollDelay ec) [Delay (60 * firs_start s)] (set_status LWQQ_STATUS_OFFLINE s)
  | Some poll_failed_network_error =>
      let s := set_counted (m_counted_network_error s + 1) s in
      let s := if 3 <=? m_counted_network_error s then set_status LWQQ_STATUS_OFFLINE s else s in
      suspend (PollDelay ec) [Delay 12] s
  | Some poll_failed_need_refresh => suspend (PollDelay ec) [Delay 12] (set_status LWQQ_STATUS_OFFLINE s)
  | _ => after_poll ec s
  end.

Definition on_check (ec : option webqq_error) (str : cstring) (s : webqq_loop) : webqq_loop :=
  match ec with
  | Some login_check_need_vc => suspend WaitVc [NeedVc str] (on_vc_queue (OpPop ()) s)
  | Some _ => suspend CheckDelay [Delay 300] s
  | None => suspend WaitVc [] (on_vc_queue (OpPop ()) (on_vc_queue (OpPush str) s))
  end.

Definition on_vc (str : cstring) (s : webqq_loop) : webqq_loop :=
  match str with
  | [] => enter_for s
  | _ => suspend LoggingIn [StartLogin str] s
  end.

Definition on_login (ec : option webqq_error) (s : webqq_loop) : webqq_loop :=
  match ec with
  | None => enter_for (suspend LoggingIn [Logined] s)
  | Some login_failed_wrong_passwd => suspend Ended [] (set_status LWQQ_STATUS_QUITTING s)
  | Some login_failed_blocked_account => suspend BlockedDelay [Delay 300] s
  | Some login_failed_wrong_vc => suspend RetryDelay [BadVc; Delay 30] s
  | Some _ => suspend RetryDelay [Delay 30] s
  end.

(** ** Events *)

Inductive loop_event : Type :=
| Posted
| PollEnded (ec : option webqq_error)
| Timer
| Cleared
| CheckEnded (ec : option webqq_error) (str : cstring)
| VcPopped
| WentOnline
| LoginEnded (ec : option webqq_error)
| Cancelled
| FeedVcode (vc : cstring)
| Stop.

Definition step_loop (e : loop_event) (s : webqq_loop) : webqq_loop :=
  match e, loop_at s with
  | FeedVcode vc, _ => on_vc_queue (OpPush vc) s
  | Stop, _ => set_status LWQQ_STATUS_QUITTING s
  | _, Ended => s
  | Cancelled, _ => suspend Ended [] s
  | Posted, Starting => enter_for s
  | PollEnded ec, Polling => on_poll ec s
  | Timer, PollDelay ec => after_poll ec s
  | Cleared, Checking => set_status LWQQ_STATUS_OFFLINE s
  | CheckEnded ec str, Checking => on_check ec str s
  | Timer, CheckDelay => suspend Checking [StartCheck] s
  | VcPopped, WaitVc => match vc_calls s with vc :: l => on_vc vc (set_vc_calls l s) | [] => s end
  | WentOnline, LoggingIn => set_status LWQQ_STATUS_ONLINE s
  | LoginEnded ec, LoggingIn => on_login ec s
  | Timer, BlockedDelay => suspend RetryDelay [Delay 30] s
  | Timer, RetryDelay => enter_for s
  | _, _ => s
  end.

Definition run_loop (es : list loop_event) (s : webqq_loop) : webqq_loop := fold_left (fun s e => step_loop e s) es s.

(** ** The invariant *)

(** What separates two logins: a delay of at least 30 seconds, or a success. *)
Definition pause (o : loop_output) : bool := match o with Delay n => 30 <=? n | Logined => true | _ => false end.
Definition is_login (o : loop_output) : bool := match o with StartLogin _ => true | _ => false end.

(** Whether the last login had no pause yet. *)
Definition pending (b : bool) (l : list loop_output) : bool :=
  fold_left (fun b o => if is_login o then true else if pause o then false else b) l b.
(** No login while one is pending, and none without a captcha. *)
Fixpoint paced (b : bool) (l : list loop_output) : Prop :=
  match l with
  | [] => True
  | StartLogin vc :: l' => b = false /\ vc <> [] /\ paced true l'
  | o :: l' => paced (if pause o then false else b) l'
  end.

Lemma pending_app b l l' : pending b (l ++ l') = pending (pending b l) l'.
Proof. unfold pending. apply fold_left_app. Qed.

Lemma paced_app b l l' : paced b (l ++ l') <-> paced b l /\ paced (pending b l) l'.
Proof.
  revert b. induction l as [|o l IH]; intros b; [cbn; tauto|].
  destruct o; cbn [app paced pending fold_left is_login pause]; try apply IH. rewrite (IH true). unfold pending. tauto.
Qed.

Record loop_ok (s : webqq_loop) : Prop := LoopOk {
  lo_paced : paced false (outputs s);
  lo_pending : pending false (outputs s) = true -> loop_at s = LoggingIn \/ loop_at s = Ended;
  lo_count : 0 <= m_counted_network_error s;
  lo_polling : loop_at s = Polling -> m_counted_network_error s <= 2;
  lo_delay : forall ec, loop_at s = PollDelay ec -> m_counted_network_error s <= 2 \/ m_status s <> LWQQ_STATUS_ONLINE
}.

(** No login is pending. *)
Record quiet (s : webqq_loop) : Prop := Quiet {
  q_paced : paced false (outputs s); q_pending : pending false (outputs s) = false; q_count : 0 <= m_counted_network_error s
}.
Definition may_poll (s : webqq_loop) : Prop := m_counted_network_error s <= 2 \/ m_status s <> LWQQ_STATUS_ONLINE.

Lemma loop_quiet s : loop_ok s -> loop_at s <> LoggingIn -> loop_at s <> Ended -> quiet s.
Proof.
  intros [H1 H2 H3 _ _] Hl He. split; auto. destruct (pending false (outputs s)); [|reflexivity]. destruct H2; congruence.
Qed.

(** The next suspension. *)
Lemma suspend_ok p o s :
  paced false (outputs s) -> 0 <= m_counted_network_error s -> paced (pending false (outputs s)) o ->
  (pending (pending false (outputs s)) o = true -> p = LoggingIn \/ p = Ended) ->
  (p = Polling -> m_counted_network_error s <= 2) -> (forall ec, p = PollDelay ec -> may_poll s) ->
  loop_ok (suspend p o s).
Proof.
  intros H1 H2 H3 H4 H5 H6. split; cbn [suspend outputs loop_at m_counted_network_error m_status]; auto.
  - apply paced_app. now split.
  - now rewrite pending_app.
Qed.

Lemma suspend_quiet p o s :
  quiet s -> paced false o -> (pending false o = true -> p = LoggingIn \/ p = Ended) ->
  (p = Polling -> m_counted_network_error s <= 2) -> (forall ec, p = PollDelay ec -> may_poll s) -> loop_ok (suspend p o s).
Proof. intros [H1 H2 H3] Ho Hp Hc Hd. apply suspend_ok; auto; now rewrite H2. Qed.

Lemma queue_quiet o s : quiet s -> quiet (on_vc_queue o s).
Proof. intros [H1 H2 H3]. unfold on_vc_queue. destruct (queue_step [] true o (m_vc_queue s)) as [[calls q]|]; split; assumption. Qed.

Lemma queue_ok o s : loop_ok s -> loop_ok (on_vc_queue o s).
Proof. intros [H1 H2 H3 H4 H5]. unfold on_vc_queue. destruct (queue_step [] true o (m_vc_queue s)) as [[calls q]|]; split; assumption. Qed.

Ltac suspended := apply suspend_quiet; [assumption|cbn; repeat split; congruence|cbn; intros; try discriminate; auto|discriminate|discriminate].

Lemma enter_poll_ok s : quiet s -> may_poll s -> loop_ok (enter_poll s).
Proof.
  intros Hq Hm. unfold enter_poll. destruct (m_status s) eqn:Es; try suspended.
  apply suspend_quiet; [exact Hq|exact I|discriminate| |discriminate]. intros _. destruct Hm; [assumption|congruence].
Qed.

Lemma enter_for_ok s : quiet s -> loop_ok (enter_for s).
Proof.
  intros Hq. unfold enter_for. destruct (m_status s); try suspended.
  all: apply enter_poll_ok; [destruct Hq; split; cbn; auto; lia|left; cbn; lia].
Qed.

Lemma after_poll_ok ec s : quiet s -> may_poll s -> loop_ok (after_poll ec s).
Proof.
  intros Hq Hm. unfold after_poll. apply enter_poll_ok; destruct ec; try (destruct Hq; split; assumption); try exact Hm.
  - destruct (Z.ltb_spec 0 (m_counted_network_error s)); [|destruct Hq; split; assumption]. destruct Hq. split; cbn; auto. lia.
  - destruct (Z.ltb_spec 0 (m_counted_network_error s)); [|exact Hm]. unfold may_poll in *. cbn. destruct Hm; [left; lia|now right].
Qed.

Lemma on_poll_ok ec s : quiet s -> m_counted_network_error s <= 2 -> loop_ok (on_poll ec s).
Proof.
  intros Hq Hc. assert (may_poll s) as Hm by (now left).
  assert (forall p d s', quiet s' -> may_poll s' -> loop_ok (suspend (PollDelay p) [Delay d] s')) as Hd.
  { intros p d s' Hq' Hm'. apply suspend_quiet; auto; [exact I|cbn; now destruct (30 <=? d)|discriminate]. }
  assert (quiet (set_status LWQQ_STATUS_OFFLINE s) /\ may_poll (set_status LWQQ_STATUS_OFFLINE s)) as [Hq1 Hm1]
    by (split; [destruct Hq; split; assumption|right; discriminate]).
  destruct ec as [[]|]; cbn [on_poll]; auto using after_poll_ok.
  assert (0 <= m_counted_network_error s) by (now destruct Hq). cbn [m_counted_network_error set_counted].
  destruct (Z.leb_spec 3 (m_counted_network_error s + 1)); apply Hd.
  - destruct Hq. split; cbn; auto; lia.
  - right. discriminate.
  - destruct Hq. split; cbn; auto; lia.
  - left. cbn. lia.
Qed.

Lemma on_check_ok ec str s : quiet s -> loop_ok (on_check ec str s).
Proof.
  intros Hq. destruct ec as [[]|]; cbn [on_check]; try suspended; apply suspend_quiet; try discriminate; auto using queue_quiet; exact I.
Qed.

Lemma on_vc_ok str s : quiet s -> loop_ok (on_vc str s).
Proof.
  intros Hq. destruct str as [|c str]; cbn [on_vc]; [now apply enter_for_ok|].
  apply suspend_quiet; try discriminate; auto. cbn. repeat split; auto; discriminate.
Qed.

Lemma on_login_ok ec s : loop_ok s -> loop_ok (on_login ec s).
Proof.
  intros [H1 H2 H3 H4 H5].
  assert (forall p o, paced (pending false (outputs s)) o -> (pending (pending false (outputs s)) o = true -> p = LoggingIn \/ p = Ended) ->
            p <> Polling -> (forall ec, p <> PollDelay ec) -> loop_ok (suspend p o s)) as Hs.
  { intros p o Ho Hp Hpo Hd. apply suspend_ok; auto; [congruence|intros e ->; now destruct (Hd e)]. }
  destruct ec as [[]|]; cbn [on_login]; try (apply Hs; cbn; auto; discriminate).
  - apply suspend_ok; cbn; auto; try discriminate.
  - apply enter_for_ok. split; cbn [outputs suspend m_counted_network_error]; [apply paced_app; now split|now rewrite pending_app|exact H3].
Qed.

Lemma step_ok e s : loop_ok s -> loop_ok (step_loop e s).
Proof.
  intros H. pose proof (loop_quiet s H) as Hq. pose proof H as [H1 H2 H3 H4 H5].
  assert (forall st, st <> LWQQ_STATUS_ONLINE -> loop_ok (set_status st s)) as Hst.
  { intros st Hst. split; cbn; auto. }
  destruct e; cbn [step_loop]; [| | | | | | | | |now apply queue_ok|now apply Hst].
  all: destruct (loop_at s) eqn:Ep; try exact H.
  all: try (apply Hst; discriminate).
  all: try (apply suspend_ok; cbn; auto; discriminate).
  all: try (assert (quiet s) as Hq' by (apply Hq; discriminate)).
  all: try (now apply enter_for_ok).
  all: try suspended.
  - apply on_poll_ok; auto.
  - apply after_poll_ok; [exact Hq'|]. now apply (H5 ec).
  - now apply on_check_ok.
  - destruct (vc_calls s); [exact H|]. apply on_vc_ok. destruct Hq'. split; assumption.
  - split; cbn; auto; congruence.
  - now apply on_login_ok.
Qed.

Lemma start_ok clientid : loop_ok (webqq_main_loop_op clientid).
Proof. split; cbn; auto; try discriminate; lia. Qed.

Lemma run_ok es : forall s, loop_ok s -> loop_ok (run_loop es s).
Proof. induction es as [|e es IH]; intros s H; [exact H|]. now apply IH, step_ok. Qed.

(** Nobody waits in the queue of captchas while it has a value. *)
Lemma on_vc_queue_wf o s : queue_wf (m_vc_queue s) -> queue_wf (m_vc_queue (on_vc_queue o s)).
Proof.
  intros H. unfold on_vc_queue. destruct (queue_step_effect [] true o (m_vc_queue s) H) as (calls & q & -> & F). exact (eff_wf _ _ _ _ F).
Qed.

Lemma enter_for_queue s : m_vc_queue (enter_for s) = m_vc_queue s.
Proof. unfold enter_for, enter_poll. destruct (m_status s) eqn:E; cbn; rewrite ?E; reflexivity. Qed.

Lemma after_poll_queue ec s : m_vc_queue (after_poll ec s) = m_vc_queue s.
Proof. unfold after_poll, enter_poll. destruct ec; cbn; destruct (0 <? m_counted_network_error s); cbn; now destruct (m_status s). Qed.

Lemma step_queue e s : queue_wf (m_vc_queue s) -> queue_wf (m_vc_queue (step_loop e s)).
Proof.
  intros H. destruct e; cbn [step_loop]; [| | | | | | | | |now apply on_vc_queue_wf|exact H].
  all: destruct (loop_at s) eqn:Ep; try exact H; rewrite ?enter_for_queue, ?after_poll_queue; try exact H.
  - destruct ec as [[]|]; cbn [on_poll]; rewrite ?after_poll_queue; try exact H. cbn. now destruct (3 <=? _).
  - destruct ec as [[]|]; cbn [on_check suspend m_vc_queue]; try exact H; now repeat apply on_vc_queue_wf.
  - destruct (vc_calls s) as [|[|c vc] l]; [exact H| |exact H]. cbn [on_vc]. now rewrite enter_for_queue.
  - destruct ec as [[]|]; cbn [on_login]; rewrite ?enter_for_queue; exact H.
Qed.

Lemma vc_queue_never_faults clientid es o :
  is_ok (queue_step [] true o (m_vc_queue (run_loop es (webqq_main_loop_op clientid)))) = true.
Proof.
  assert (queue_wf (m_vc_queue (run_loop es (webqq_main_loop_op clientid)))) as H.
  { enough (forall es s, queue_wf (m_vc_queue s) -> queue_wf (m_vc_queue (run_loop es s))) as H by (apply H; now intros [E|E]).
    clear. induction es as [|e es IH]; intros s Hs; [exact Hs|]. now apply IH, step_queue. }
  destruct (queue_step_effect [] true o _ H) as (calls & q & -> & _). reflexivity.
Qed.

Lemma paced_pause b mid vc l : paced b (mid ++ StartLogin vc :: l) -> b = true -> existsb pause mid = true.
Proof.
  revert b. induction mid as [|o mid IH]; intros b H ->; [destruct H; discriminate|].
  cbn [existsb]. destruct (pause o) eqn:Eo; [reflexivity|]. cbn [orb]. destruct o; cbn [app paced] in H; try (rewrite Eo in H); try (now apply (IH true H)).
  destruct H; discriminate.
Qed.

Lemma ended_kept es : forall s, loop_at s = Ended -> outputs (run_loop es s) = outputs s /\ loop_at (run_loop es s) = Ended.
Proof.
  induction es as [|e es IH]; intros s He; [now split|]. unfold run_loop. cbn [fold_left]. fold (run_loop es (step_loop e s)).
  assert (outputs (step_loop e s) = outputs s /\ loop_at (step_loop e s) = Ended) as [<- He'] by (destruct e; cbn; rewrite ?He; try (now split); unfold on_vc_queue; destruct (queue_step [] true (OpPush vc) (m_vc_queue s)) as [[calls q]|]; now split).
  now apply IH.
Qed.

(** C12: the client does not storm the server.  Whatever the server and the user
    do, in every order: between two logins there is a delay of at least thirty
    seconds, or the first of them succeeded; no login is tried without a captcha;
    at most two network errors are counted while the client polls; and after a
    wrong password the client does nothing any more. *)
Theorem login_paced (clientid : cstring) (es : list loop_event) :
  let s := run_loop es (webqq_main_loop_op clientid) in
  (forall before vc mid vc' after, outputs s = before ++ StartLogin vc :: mid ++ StartLogin vc' :: after -> existsb pause mid = true)
  /\ ~ In (StartLogin []) (outputs s)
  /\ (loop_at s = Polling -> 0 <= m_counted_network_error s <= 2)
  /\ (loop_at s = LoggingIn -> forall es', outputs (run_loop (LoginEnded (Some login_failed_wrong_passwd) :: es') s) = outputs s).
Proof.
  intros s. pose proof (run_ok es _ (start_ok clientid)) as Hok. fold s in Hok. destruct Hok as [H1 H2 H3 H4 H5]. split; [|split; [|split]].
  - intros before vc mid vc' after E. rewrite E in H1. apply paced_app in H1 as [_ H1]. cbn [paced] in H1. destruct H1 as (_ & _ & H1).
    now apply paced_pause in H1.
  - intros Hin. apply in_split in Hin as (l1 & l2 & E). rewrite E in H1. apply paced_app in H1 as [_ H1]. now destruct H1 as (_ & H1 & _).
  - intros Hp. split; [exact H3|exact (H4 Hp)].
  - intros Hl es'. unfold run_loop. cbn [fold_left]. fold (run_loop es' (step_loop (LoginEnded (Some login_failed_wrong_passwd)) s)).
    cbn [step_loop]. rewrite Hl. cbn [on_login]. destruct (ended_kept es' (suspend Ended [] (set_status LWQQ_STATUS_QUITTING s)) eq_refl) as [-> _].
    cbn. apply app_nil_r.
Qed.

Definition lost : list loop_event := [PollEnded (Some poll_failed_network_error); Timer].

Lemma lost_run f c q l o :
  run_loop lost (WebqqLoop LWQQ_STATUS_ONLINE f c q l Polling o)
  = if 3 <=? c + 1 then WebqqLoop LWQQ_STATUS_OFFLINE 1 (c + 1) q l Checking ((o ++ [Delay 12]) ++ [DropSession; StartCheck])
    else WebqqLoop LWQQ_STATUS_ONLINE 1 (c + 1) q l Polling ((o ++ [Delay 12]) ++ [StartPoll]).
Proof.
  unfold run_loop, lost. cbn [fold_left]. cbn [step_loop loop_at on_poll set_counted m_counted_network_error]. now destruct (3 <=? c + 1).
Qed.

Lemma run_loop_app l l' s : run_loop (l ++ l') s = run_loop l' (run_loop l s).
Proof. apply fold_left_app. Qed.

(** The client recovers.  While polls fail with network errors it polls again
    every twelve seconds, and with the third error it drops its session and checks
    the login anew. *)
Theorem network_errors_relogin (s : webqq_loop) :
  loop_at s = Polling -> m_status s = LWQQ_STATUS_ONLINE -> m_counted_network_error s = 0 ->
  outputs (run_loop (lost ++ lost) s) = outputs s ++ [Delay 12; StartPoll; Delay 12; StartPoll]
  /\ loop_at (run_loop (lost ++ lost) s) = Polling
  /\ outputs (run_loop (lost ++ lost ++ lost) s) = outputs s ++ [Delay 12; StartPoll; Delay 12; StartPoll; Delay 12; DropSession; StartCheck]
  /\ loop_at (run_loop (lost ++ lost ++ lost) s) = Checking.
Proof.
  destruct s as [st f c q l p o]. cbn [loop_at m_status m_counted_network_error outputs]. intros -> -> ->.
  rewrite !run_loop_app, !lost_run. change (3 <=? 0 + 1) with false. cbv iota. rewrite !lost_run. change (3 <=? 0 + 1 + 1) with false. cbv iota.
  rewrite !lost_run. change (3 <=? 0 + 1 + 1 + 1) with true. cbv iota. cbn [outputs loop_at]. rewrite <- !app_assoc. now repeat split.
Qed.

(** [stop] only sets the status: a client that polls leaves the loop over polls,
    checks the login, which overwrites the status, and logs in again. *)
Theorem stop_logs_in (vc : cstring) : vc <> [] ->
  let s := run_loop [Posted; Stop; PollEnded None; Cleared; CheckEnded None vc; VcPopped; WentOnline; LoginEnded None] (webqq_main_loop_op ($"1")) in
  outputs s = [StartPoll; DropSession; StartCheck; StartLogin vc; Logined; StartPoll] /\ loop_at s = Polling.
Proof. intros Hvc. destruct vc as [|c vc]; [congruence|]. now split. Qed.
