(* ===== verification/WebqqLogin.v ===== *)
(** The login of the WebQQ client, libwebqq/src/impl/webqq_login.hpp: the answer to
    the login and the coroutine behind it, up to the lists of groups and members.

    The coroutine is the point where it is suspended; every operation ends with an
    [answer], of which a point uses its part.  The regular expressions are the
    class [RegexEngine]. *)

From S2P Require Import Prelude CLib OrdMap PTree Regex Irc Avbot BuddyMgr WebqqPoll WebqqLoop.

(** ** The answer to the login *)

Definition blank_re (r : regex) : regex := Seq (Opt (Chr (fun c => c =c " "))) r.
Definition in_quotes (a r : regex) : regex := lit ($"'") (Seq (Group a) (lit ($"'") r)).
Definition next_part (a r : regex) : regex := lit ($",") (blank_re (in_quotes a r)).
Definition ptuiCB_re : regex :=
  lit ($"ptuiCB(") (in_quotes (Plus isdigit) (next_part (Chr isdigit) (next_part (Star (not_char "'")) (next_part (Chr isdigit)
    (next_part (Star (not_char "'")) (next_part (Star (not_char "'"))
      (Seq (Star (fun c => c =c " ")) (Seq (Chr (fun c => c =c ")")) (Chr (fun c => c =c ";")))))))))).

Definition login_failed_other : webqq_error := other_error 9.
(** The enumerators of the error code. *)
Definition login_error (status : Z) : option webqq_error :=
  if status =? 0 then None
  else if status =? 3 then Some login_failed_wrong_passwd
  else if status =? 4 then Some login_failed_wrong_vc
  else if status =? 19 then Some login_failed_blocked_account
  else if (1 <=? status) && (status <=? 8) then Some (other_error status)
  else Some login_failed_other.

Section Login.
Context {E : RegexEngine}.

(** The error, the nick and the next address; [None]: the number does not fit and
    [lexical_cast] throws. *)
Definition check_login (response : cstring) : option (option webqq_error * option (cstring * cstring)) :=
  match regex_search ptuiCB_re (c_str response) with
  | Some (_, _, what) =>
      status ← lexical_int (sub_match what 0);
      Some (login_error status, Some (sub_match what 5, sub_match what 2))
  | None => Some (Some login_failed_other, None)
  end.

(** ** The coroutine *)

Inductive login_point : Type :=
| LoginAnswer | Redirected | RedirectedAgain | GetVfwebqq | ChangeStatus | FetchBuddies
| FetchGroups (i : Z) | GroupsDelay (i : Z) (ec : option webqq_error)
| FetchMembers (group : cstring) (rest : list cstring) | MembersDelay (rest : list cstring) (ec : option webqq_error)
| LoginDone (ec : option webqq_error) | LoginThrown.

Record login_state : Type := LoginState {
  lg_at : login_point; lg_online : bool; lg_nick : cstring; m_next_url : cstring; m_clientid : cstring; lg_delays : list Z
}.

(** How an operation ended: its text, its error, whether the server redirects
    again, and the groups that are known then. *)
Record answer : Type := Answer { an_text : cstring; an_ec : option webqq_error; an_found : bool; an_groups : list cstring }.

Definition go (p : login_point) (s : login_state) : login_state :=
  LoginState p (lg_online s) (lg_nick s) (m_next_url s) (m_clientid s) (lg_delays s).
Definition wait (p : login_point) (n : Z) (s : login_state) : login_state :=
  LoginState p (lg_online s) (lg_nick s) (m_next_url s) (m_clientid s) (lg_delays s ++ [n]).

Variables (clientid : cstring) (m_fetch_groups : bool).

Definition on_login_answer (a : answer) (s : login_state) : login_state :=
  match check_login (an_text a) with
  | None => go LoginThrown s
  | Some (ec, what) =>
      let '(nick, url) := match what with Some p => p | None => (lg_nick s, m_next_url s) end in
      let s := LoginState (lg_at s) (match ec with None => true | Some _ => lg_online s end) nick url (m_clientid s) (lg_delays s) in
      match ec with None => go Redirected s | Some _ => go (LoginDone ec) s end
  end.

Definition redirecting_success (s : login_state) : login_state :=
  LoginState GetVfwebqq (lg_online s) (lg_nick s) (m_next_url s) (match m_clientid s with [] => clientid | c => c end) (lg_delays s).

(** The members of the next group. *)
Definition next_members (groups : list cstring) (ec : option webqq_error) (s : login_state) : login_state :=
  match groups with [] => go (LoginDone ec) s | g :: rest => go (FetchMembers g rest) s end.

Definition login_step (a : answer) (s : login_state) : login_state :=
  match lg_at s with
  | LoginAnswer => on_login_answer a s
  | Redirected => if an_found a then go RedirectedAgain s else redirecting_success s
  | RedirectedAgain => redirecting_success s
  | GetVfwebqq => go ChangeStatus s
  | ChangeStatus => match an_ec a with Some _ => go (LoginDone (an_ec a)) s | None => go FetchBuddies s end
  | FetchBuddies => if m_fetch_groups then go (FetchGroups 0) s else go (LoginDone (an_ec a)) s
  | FetchGroups i =>
      match an_ec a with
      | Some _ => wait (GroupsDelay i (an_ec a)) (i * 20 + 50) s
      | None => next_members (an_groups a) None s
      end
  | GroupsDelay i ec => if i <? 5 then go (FetchGroups (i + 1)) s else go (LoginDone ec) s
  | FetchMembers _ rest => go (MembersDelay rest (an_ec a)) s
  | MembersDelay rest ec => next_members rest ec s
  | LoginDone _ | LoginThrown => s
  end.

Definition run_login (l : list answer) (s : login_state) : login_state := fold_left (fun s a => login_step a s) l s.
Definition login_vc_op (client : cstring) : login_state := LoginState LoginAnswer false [] [] client [].

(** ** It ends *)

Definition login_ended (p : login_point) : bool := match p with LoginDone _ | LoginThrown => true | _ => false end.

(** The operations that are left, when a list has at most [n] groups. *)
Definition operations_left (n : nat) (p : login_point) : nat :=
  match p with
  | LoginAnswer => 18 + 2 * n
  | Redirected => 17 + 2 * n
  | RedirectedAgain => 16 + 2 * n
  | GetVfwebqq => 15 + 2 * n
  | ChangeStatus => 14 + 2 * n
  | FetchBuddies => 13 + 2 * n
  | FetchGroups i => 2 * (5 - Z.to_nat i) + 2 + 2 * n
  | GroupsDelay i _ => 2 * (5 - Z.to_nat i) + 1 + 2 * n
  | FetchMembers _ rest => 2 + 2 * length rest
  | MembersDelay rest _ => 1 + 2 * length rest
  | LoginDone _ | LoginThrown => 0
  end%nat.

Definition tries_ok (p : login_point) : Prop :=
  match p with FetchGroups i | GroupsDelay i _ => 0 <= i <= 5 | _ => True end.

Lemma next_members_left n groups ec s :
  (operations_left n (lg_at (next_members groups ec s)) <= 2 * length groups)%nat /\ tries_ok (lg_at (next_members groups ec s)).
Proof. destruct groups; cbn; split; (lia || exact I). Qed.

Lemma login_step_left n a s :
  (length (an_groups a) <= n)%nat -> tries_ok (lg_at s) -> login_ended (lg_at s) = false ->
  (operations_left n (lg_at (login_step a s)) < operations_left n (lg_at s))%nat /\ tries_ok (lg_at (login_step a s)).
Proof.
  intros Hn Ht He. unfold login_step. destruct (lg_at s) as [| | | | | |i|i ec|g rest|rest ec|ec|] eqn:Ep; try discriminate.
  - unfold on_login_answer. destruct (check_login (an_text a)) as [[[e|] what]|]; [| |cbn; split; [lia|exact I]];
      destruct what as [[? ?]|]; cbn; (split; [lia|exact I]).
  - destruct (an_found a); cbn; (split; [lia|exact I]).
  - cbn. split; [lia|exact I].
  - cbn. split; [lia|exact I].
  - destruct (an_ec a); cbn; (split; [lia|exact I]).
  - destruct m_fetch_groups; cbn; split; (lia || exact I).
  - destruct (an_ec a) as [e|].
    + cbn in *. split; lia.
    + destruct (next_members_left n (an_groups a) None s) as [H1 H2]. split; [|exact H2]. cbn [operations_left]. lia.
  - cbn in Ht. destruct (Z.ltb_spec i 5) as [H|H]; cbn; split; (lia || exact I).
  - cbn. split; [lia|exact I].
  - destruct (next_members_left n rest ec s) as [H1 H2]. split; [|exact H2]. cbn [operations_left]. lia.
Qed.

Lemma login_run_ended n l : forall s,
  Forall (fun a => (length (an_groups a) <= n)%nat) l -> tries_ok (lg_at s) -> (operations_left n (lg_at s) <= length l)%nat ->
  login_ended (lg_at (run_login l s)) = true.
Proof.
  induction l as [|a l IH]; intros s Hl Ht Hlen.
  - destruct (lg_at s) eqn:Ep; cbn in Hlen; try lia; cbn; now rewrite Ep.
  - apply List.Forall_cons_iff in Hl as [Ha Hl]. unfold run_login. cbn [fold_left]. fold (run_login l (login_step a s)).
    destruct (login_ended (lg_at s)) eqn:Ee.
    + assert (login_step a s = s) as -> by (unfold login_step; destruct (lg_at s); try discriminate; reflexivity).
      apply IH; auto. destruct (lg_at s); try discriminate; cbn; lia.
    + destruct (login_step_left n a s Ha Ht Ee) as [H1 H2]. apply IH; auto. cbn [length] in Hlen. lia.
Qed.

(** The delays before the list of groups is asked for again. *)
Definition tries_of (p : login_point) : nat :=
  match p with
  | FetchGroups i => Z.to_nat i
  | GroupsDelay i _ => S (Z.to_nat i)
  | FetchMembers _ _ | MembersDelay _ _ | LoginDone _ | LoginThrown => 6
  | _ => 0
  end.
Definition delays_ok (s : login_state) : Prop := (length (lg_delays s) <= tries_of (lg_at s))%nat.

Lemma delays_step a s : tries_ok (lg_at s) -> delays_ok s -> delays_ok (login_step a s).
Proof.
  unfold delays_ok. intros Ht Hd. unfold login_step. destruct (lg_at s) as [| | | | | |i|i ec|g rest|rest ec|ec|] eqn:Ep; cbn [tries_of] in Hd.
  - unfold on_login_answer. destruct (check_login (an_text a)) as [[[e|] what]|]; [| |cbn; lia]; destruct what as [[? ?]|]; cbn; lia.
  - destruct (an_found a); cbn; lia.
  - cbn. lia.
  - cbn. lia.
  - destruct (an_ec a); cbn; lia.
  - destruct m_fetch_groups; cbn; lia.
  - cbn in Ht. destruct (an_ec a); [cbn; rewrite length_app; cbn; lia|]. destruct (an_groups a); cbn; lia.
  - cbn in Ht. destruct (Z.ltb_spec i 5); cbn; lia.
  - cbn. lia.
  - destruct rest; cbn; lia.
  - rewrite Ep. exact Hd.
  - rewrite Ep. exact Hd.
Qed.

(** C37: a login ends.  Whatever the server answers, with lists of at most [n]
    groups, after at most [18 + 2 * n] operations the handler was called or the
    number in the answer was too big; and the list of groups was asked for at most
    six times. *)
Theorem login_terminates (n : nat) (client : cstring) (l : list answer) :
  Forall (fun a => (length (an_groups a) <= n)%nat) l -> (18 + 2 * n <= length l)%nat ->
  login_ended (lg_at (run_login l (login_vc_op client))) = true
  /\ (length (lg_delays (run_login l (login_vc_op client))) <= 6)%nat.
Proof.
  intros Hl Hn. split; [now apply (login_run_ended n)|].
  enough (forall l s, Forall (fun a => (length (an_groups a) <= n)%nat) l -> tries_ok (lg_at s) -> delays_ok s -> delays_ok (run_login l s)) as H.
  { pose proof (login_run_ended n l (login_vc_op client) Hl I Hn) as He. specialize (H l (login_vc_op client) Hl I). unfold delays_ok in H.
    destruct (lg_at (run_login l (login_vc_op client))); try discriminate; apply H; cbn; lia. }
  clear. induction l as [|a l IH]; intros s Hl Ht Hd; [exact Hd|]. apply List.Forall_cons_iff in Hl as [Ha Hl]. apply IH; [exact Hl| |now apply delays_step].
  destruct (login_ended (lg_at s)) eqn:Ee; [|now apply (login_step_left n)]. unfold login_step. destruct (lg_at s) eqn:Ep; try discriminate; now rewrite Ep.
Qed.

Lemma login_accepted client text nick url :
  check_login text = Some (None, Some (nick, url)) ->
  login_step (Answer text None false []) (login_vc_op client) = LoginState Redirected true nick url client [].
Proof. intros Hc. unfold login_step, login_vc_op, on_login_answer. cbn [lg_at an_text]. now rewrite Hc. Qed.

(** The status stays online when a step behind the password fails: the main loop
    then polls instead of logging in again. *)
Theorem failed_login_online (client text nick url : cstring) (e : webqq_error) :
  check_login text = Some (None, Some (nick, url)) ->
  let ok := Answer [] None false [] in
  let s := run_login [Answer text None false []; ok; ok; Answer [] (Some e) false []] (login_vc_op client) in
  lg_at s = LoginDone (Some e) /\ lg_online s = true.
Proof.
  intros Hc ok s. unfold s, run_login. cbn [fold_left]. rewrite (login_accepted _ _ _ _ Hc). now split.
Qed.

(** A login succeeds.  When the answer to the login is a success and nothing
    fails behind it, the client is online, has asked for the members of every
    group once, in order, and tells its handler success. *)
Theorem login_succeeds (client text nick url : cstring) (gs : list cstring) :
  m_fetch_groups = true -> check_login text = Some (None, Some (nick, url)) ->
  let ok := Answer [] None false [] in
  let s := run_login ([Answer text None false []; ok; ok; ok; ok; Answer [] None false gs] ++ repeat ok (2 * length gs)) (login_vc_op client) in
  lg_at s = LoginDone None /\ lg_online s = true /\ lg_nick s = nick /\ lg_delays s = []
  /\ forall i, (i < length gs)%nat ->
       lg_at (run_login ([Answer text None false []; ok; ok; ok; ok; Answer [] None false gs] ++ repeat ok (2 * i)) (login_vc_op client))
       = FetchMembers (nth i gs []) (drop (S i) gs).
Proof.
  intros Hf Hc ok s.
  set (s0 := LoginState ChangeStatus true nick url (match client with [] => clientid | c => c end) []).
  assert (forall l, run_login ([Answer text None false []; ok; ok; ok; ok; Answer [] None false gs] ++ l) (login_vc_op client)
                    = run_login l (next_members gs None (go (FetchGroups 0) s0))) as Erun.
  { intros l. unfold run_login. rewrite fold_left_app. f_equal. cbn [fold_left]. rewrite (login_accepted _ _ _ _ Hc). cbn. rewrite Hf. now destruct client, gs. }
  assert (forall gs, run_login (repeat ok (2 * length gs)) (next_members gs None (go (FetchGroups 0) s0)) = go (LoginDone None) s0) as Ed.
  { clear. induction gs as [|g gs IH]; [reflexivity|]. replace (2 * length (g :: gs))%nat with (S (S (2 * length gs))) by (cbn; lia).
    cbn [repeat]. unfold run_login. cbn [fold_left]. exact IH. }
  assert (forall gs i, (i < length gs)%nat ->
            lg_at (run_login (repeat ok (2 * i)) (next_members gs None (go (FetchGroups 0) s0))) = FetchMembers (nth i gs []) (drop (S i) gs)) as Em.
  { clear. intros gs i. revert gs. induction i as [|i IH]; intros [|g gs] Hi; cbn [length] in Hi; try lia; [reflexivity|].
    replace (2 * S i)%nat with (S (S (2 * i))) by lia. cbn [repeat]. unfold run_login. cbn [fold_left nth]. rewrite skipn_cons.
    apply (IH gs). lia. }
  unfold s. rewrite Erun, Ed. repeat split. intros i Hi. rewrite Erun. now apply Em.
Qed.
End Login.

(** ** Examples *)

Definition example_answer : cstring := $"ptuiCB('0','0','http://w.qq.com/x','0','ok', 'avbot');".

Lemma login_terminates_witness :
  login_ended (lg_at (run_login (E := perl_engine) [] true (repeat (Answer example_answer None true []) 18) (login_vc_op []))) = true.
Proof.
  apply (login_terminates (E := perl_engine) [] true 0 [] (repeat (Answer example_answer None true []) 18)).
  - apply List.Forall_forall. intros a Ha. apply repeat_spec in Ha as ->. cbn. lia.
  - cbn. lia.
Defined.

Lemma login_succeeds_witness :
  let ok := Answer [] None false [] in
  lg_at (run_login (E := perl_engine) ($"55") true
           [Answer example_answer None false []; ok; ok; ok; ok; Answer [] None false [$"77"]; ok; ok] (login_vc_op [])) = LoginDone None.
Proof.
  apply (login_succeeds (E := perl_engine) ($"55") true [] example_answer ($"avbot") ($"http://w.qq.com/x") [$"77"]); vm_compute; reflexivity.
Defined.

Lemma network_errors_relogin_witness :
  loop_at (run_loop (lost ++ lost ++ lost) (step_loop Posted (webqq_main_loop_op ($"1")))) = Checking.
Proof. apply (network_errors_relogin (step_loop Posted (webqq_main_loop_op ($"1")))); reflexivity. Defined.
