(* ===== verification/CookieStore.v ===== *)
(** The cookies that the WebQQ client keeps, libwebqq/src/impl/cookie_mgr.hpp.

    The table is the list of its rows in the order of their numbers.  Statements
    with parameters bind them by position.  The statements of [drop_session] and
    [get_cookie] are put together as texts: for a text with a quote in it, or one
    that is the name of a column, they are other statements than the ones that are
    meant, which is a fault here.  The jar is that of Cookie.v, whose class
    [Platform] has the clock. *)

From S2P Require Import Prelude CLib Cookie BuddyMgr.

(** ** The table *)

Record cookie_row : Type := CookieRow { ck_domain : cstring; ck_path : cstring; ck_name : cstring; ck_value : cstring; expiration : cstring }.

(** [check_db_initialized]. *)
Definition empty_store : list cookie_row := [].

Inductive sql_fault : Type := OtherStatement.

Definition has_key (d p n : cstring) (r : cookie_row) : bool := str_eqb (ck_domain r) d && str_eqb (ck_path r) p && str_eqb (ck_name r) n.

Definition delete_cookie (d p n : cstring) (db : list cookie_row) : list cookie_row := delete_rows (has_key d p n) db.

(** [save_cookie(domain, path, name, value, expiration)]. *)
Definition save_cookie (d p n v e : cstring) (db : list cookie_row) : list cookie_row :=
  delete_cookie d p n db ++ [CookieRow d p n v e].

(** ** The cookies of a response *)

Section Response.
Context `{P : Platform}.
(** A time on a stream. *)
Variable ptime_text : ptime -> cstring.

Definition to_str (t : ptime) : cstring := if is_not_a_date_time t then $"session" else ptime_text t.

Definition key_of (host : cstring) (c : cookie_t) : cstring * cstring * cstring :=
  (if str_eqb (domain c) [] then host else domain c, if str_eqb (path c) [] then $"/" else path c, name c).
Definition key_eqb (a b : cstring * cstring * cstring) : bool :=
  str_eqb (fst (fst a)) (fst (fst b)) && str_eqb (snd (fst a)) (snd (fst b)) && str_eqb (snd a) (snd b).

Definition shall_delete (c : cookie_t) : bool :=
  if negb (str_eqb (value c) []) && is_not_a_date_time (expires c) then ptime_ltb (expires c) local_time else str_eqb (value c) [].

Fixpoint save_cookies_loop (host : cstring) (inserted : list (cstring * cstring * cstring)) (l : list cookie_t) (db : list cookie_row) :
    list cookie_row :=
  match l with
  | [] => db
  | c :: l' =>
      let '(d, p, n) := key_of host c in
      if shall_delete c then
        save_cookies_loop host inserted l' (if existsb (key_eqb (d, p, n)) inserted then db else delete_cookie d p n db)
      else save_cookies_loop host (inserted ++ [(d, p, n)]) l' (save_cookie d p n (value c) (to_str (expires c)) db)
  end.
Definition save_cookies (j : cookies) (host : cstring) (db : list cookie_row) : list cookie_row := save_cookies_loop host [] (m_cookies j) db.
End Response.

(** ** Statements that are put together *)

(** [like]: [%] is any text, [_] any character, and the case of letters does not
    matter. *)
Fixpoint like (pat s : cstring) : bool :=
  match pat with
  | [] => match s with [] => true | _ => false end
  | c :: pat' =>
      if c =c "%" then (fix any (s : cstring) : bool := like pat' s || match s with [] => false | _ :: s' => any s' end) s
      else match s with [] => false | x :: s' => ((c =c "_") || (tolower c =c tolower x)) && like pat' s' end
  end.

Definition no_quote (s : cstring) : bool := negb (mem_char "034"%char s).
Definition is_column (s : cstring) : bool :=
  existsb (strcaseeq s) [$"domain"; $"path"; $"name"; $"value"; $"expiration"; $"rowid"; $"oid"; $"_rowid_"].
(** A text in quotes that stands for itself. *)
Definition sql_text (s : cstring) : bool := no_quote s && negb (is_column s).

Definition drop_session (domain : cstring) (db : list cookie_row) : result sql_fault (list cookie_row) :=
  if no_quote domain then Ok (delete_rows (fun r => str_eqb (expiration r) ($"session") && like ("%"%char :: domain) (ck_domain r)) db)
  else Err OtherStatement.

(** Behind the first dot; before the last slash. *)
Definition after_dot (s : cstring) : option cstring := match find_char "." s with Some i => Some (drop (S i) s) | None => None end.
Definition before_slash (s : cstring) : option cstring :=
  match find_char "/" (rev s) with Some i => Some (rev (drop (S i) (rev s))) | None => None end.

(** The turns of the loop of [build_domain_conditions]. *)
Fixpoint domain_turns (fuel : nat) (domain : cstring) : list cstring :=
  match fuel with
  | O => []
  | S fuel' =>
      let domain' := match after_dot domain with Some d => d | None => domain end in
      domain :: (match after_dot domain' with Some _ => domain_turns fuel' domain' | None => [] end)
  end.
Definition domain_list (domain : cstring) : list cstring := domain_turns (S (length domain)) domain.

Definition quoted (s : cstring) : cstring := "034"%char :: s ++ ["034"%char].
Fixpoint joined (sep : cstring) (l : list cstring) : cstring :=
  match l with [] => [] | [s] => s | s :: l' => s ++ sep ++ joined sep l' end.
Definition build_domain_conditions (domain : cstring) : cstring :=
  $"domain in (" ++ joined ($" ,  ") (map (fun d => quoted d ++ $" , " ++ quoted ("."%char :: d) ++ $" ") (domain_list domain)) ++ $")".

Fixpoint path_turns (fuel : nat) (path : cstring) : list cstring :=
  match fuel with
  | O => []
  | S fuel' =>
      let path' := match before_slash path with Some p => p | None => path end in
      path :: (match before_slash path' with Some _ => path_turns fuel' path' | None => [] end)
  end.
Definition cut_query (path : cstring) : cstring := match find_char "?" path with Some i => take i path | None => path end.
Definition path_list (path : cstring) : list cstring := path_turns (S (length path)) (cut_query path).
Definition build_path_conditions (path : cstring) : cstring :=
  $"path in ( " ++ quoted ($"/") ++ concat (map (fun p => $", " ++ quoted p) (path_list path)) ++ $")".

(** Whether the conditions hold for a row. *)
Definition in_domains (host : cstring) (r : cookie_row) : bool :=
  existsb (fun d => str_eqb (ck_domain r) d || str_eqb (ck_domain r) ("."%char :: d)) (domain_list host).
Definition in_paths (path : cstring) (r : cookie_row) : bool :=
  str_eqb (ck_path r) ($"/") || existsb (str_eqb (ck_path r)) (path_list path).

Section Get.
Context `{P : Platform}.

(** [get_cookie(url)], with the host and the path of the address. *)
Definition get_cookie (host path : cstring) (db : list cookie_row) : result sql_fault cookies :=
  if forallb sql_text (domain_list host) && forallb sql_text (path_list path) then
    Ok (fold_left (fun j r => add_pair (c_str (ck_name r)) (c_str (ck_value r)) j)
          (take 100 (List.filter (fun r => in_domains host r && in_paths path r) db)) new_cookies)
  else Err OtherStatement.
End Get.
