(* ===== verification/CookieFacts.v ===== *)
(** The store of cookies against its specification: which cookies an address gets,
    and what the store holds after any sequence of operations. *)

From S2P Require Import Prelude CLib Cookie BuddyMgr CookieStore.

(** ** Suffixes behind a character *)

Lemma find_char_cut c s i : find_char c s = Some i -> s = take i s ++ c :: drop (S i) s /\ ~ In c (take i s).
Proof.
  revert i. induction s as [|x s IH]; intros i E; [discriminate|]. cbn [find_char] in E. destruct (Ascii.eqb_spec x c) as [->|Hx].
  - injection E as <-. now split.
  - destruct (find_char c s) as [j|]; [|discriminate]. injection E as <-. destruct (IH j eq_refl) as [Es Hn]. split.
    + cbn [take drop app]. now rewrite <- Es.
    + cbn [take]. intros [->|Hin]; [congruence|now apply Hn].
Qed.

Lemma find_char_absent c s : find_char c s = None <-> ~ In c s.
Proof.
  induction s as [|x s IH]; [cbn; tauto|]. cbn [find_char In]. destruct (Ascii.eqb_spec x c) as [->|Hx].
  - split; [discriminate|]. intros H. now destruct H; left.
  - destruct (find_char c s); cbn; [|tauto]. split; [discriminate|]. intros H. exfalso. destruct IH as [_ IH]. discriminate IH. tauto.
Qed.

Definition after_char (c : ascii) (s : cstring) : option cstring := match find_char c s with Some i => Some (drop (S i) s) | None => None end.
Fixpoint suffix_turns (c : ascii) (fuel : nat) (s : cstring) : list cstring :=
  match fuel with
  | O => []
  | S fuel' =>
      let s' := match after_char c s with Some t => t | None => s end in
      s :: (match after_char c s' with Some _ => suffix_turns c fuel' s' | None => [] end)
  end.

Lemma after_char_some c s t : after_char c s = Some t -> exists a, s = a ++ c :: t /\ ~ In c a.
Proof.
  unfold after_char. destruct (find_char c s) as [i|] eqn:E; [|discriminate]. intros [= <-]. destruct (find_char_cut c s i E) as [H1 H2]. eauto.
Qed.

Lemma after_char_none c s : after_char c s = None -> ~ In c s.
Proof. unfold after_char. destruct (find_char c s) eqn:E; [discriminate|]. intros _. now apply find_char_absent. Qed.

(** A character behind the first one of its kind. *)
Lemma first_cut {c : ascii} {a t p d} : a ++ c :: t = p ++ c :: d -> ~ In c a ->
  (p = a /\ d = t) \/ exists p', p = a ++ c :: p' /\ t = p' ++ c :: d.
Proof.
  revert p. induction a as [|x a IH]; intros [|y p] E Ha; cbn in E.
  - injection E as ->. left. now split.
  - injection E as <- ->. right. exists p. now split.
  - injection E as -> _. destruct Ha. now left.
  - injection E as <- E2. destruct (IH p E2) as [[-> ->]|(p' & -> & ->)]; [|left; now split|right; now exists p']. intros Hin. apply Ha. now right.
Qed.

(** The text, and what is behind a character as long as there is another one. *)
Definition suffix_of (c : ascii) (d s : cstring) : Prop := d = s \/ exists p, s = p ++ c :: d /\ In c d.

Lemma suffix_turns_spec c d fuel : forall s, (length s < fuel)%nat -> (In d (suffix_turns c fuel s) <-> suffix_of c d s).
Proof.
  unfold suffix_of. induction fuel as [|fuel IH]; intros s Hf; [lia|]. cbn [suffix_turns In]. destruct (after_char c s) as [t|] eqn:Et.
  - destruct (after_char_some _ _ _ Et) as (a & -> & Ha). rewrite length_app in Hf. cbn [length] in Hf. destruct (after_char c t) as [u|] eqn:Eu.
    + destruct (after_char_some _ _ _ Eu) as (b & Eb & _). assert (In c t) as Hc by (rewrite Eb; apply in_elt). rewrite IH by lia. split.
      * intros [<-|[->|(p & -> & Hd)]]; [now left|right; now exists a|]. right. exists (a ++ c :: p). now rewrite <- app_assoc.
      * intros [->|(p & E & Hd)]; [now left|]. right. destruct (first_cut E Ha) as [[-> ->]|(p' & -> & ->)]; [now left|]. right. now exists p'.
    + apply after_char_none in Eu. split; [intros [<-|[]]; now left|]. intros [->|(p & E & Hd)]; [now left|].
      destruct (first_cut E Ha) as [[-> ->]|(p' & -> & ->)]; [contradiction|]. destruct Eu. apply in_elt.
  - rewrite Et. apply after_char_none in Et. split; [intros [<-|[]]; now left|]. intros [->|(p & -> & _)]; [now left|]. destruct Et. apply in_elt.
Qed.

Lemma domain_turns_suffix fuel s : domain_turns fuel s = suffix_turns "." fuel s.
Proof. revert s. induction fuel as [|fuel IH]; intros s; [reflexivity|]. cbn [domain_turns suffix_turns]. now rewrite IH. Qed.

Lemma before_slash_rev s : before_slash s = @rev ascii <$> after_char "/" (rev s).
Proof. unfold before_slash, after_char. now destruct (find_char "/" (rev s)). Qed.

Lemma path_turns_suffix fuel s : path_turns fuel s = map (@rev ascii) (suffix_turns "/" fuel (rev s)).
Proof.
  revert s. induction fuel as [|fuel IH]; intros s; [reflexivity|]. cbn [path_turns suffix_turns map]. rewrite rev_involutive. f_equal.
  rewrite !before_slash_rev. destruct (after_char "/" (rev s)) as [t|] eqn:E; cbn [fmap option_fmap option_map].
  - rewrite rev_involutive. destruct (after_char "/" t); cbn; [|reflexivity]. now rewrite IH, rev_involutive.
  - now rewrite E.
Qed.

(** ** The scope of a cookie *)

(** A domain covers its hosts, with or without a dot in front; top-level domains
    cover only themselves. *)
Definition domain_covers (d host : cstring) : Prop := exists d0, (d = d0 \/ d = "."%char :: d0) /\ suffix_of "." d0 host.
(** A path covers itself and what is below it; the root covers everything. *)
Definition path_covers (p path : cstring) : Prop := p = $"/" \/ p = path \/ exists q, path = p ++ "/"%char :: q /\ In "/"%char p.

Lemma in_domains_spec host r : in_domains host r = true <-> domain_covers (ck_domain r) host.
Proof.
  unfold in_domains, domain_covers, domain_list. rewrite existsb_exists, domain_turns_suffix. split; intros (d & H1 & H2); exists d.
  - rewrite orb_true_iff, !str_eqb_eq in H2. split; [exact H2|]. now apply suffix_turns_spec in H1; [|lia].
  - rewrite orb_true_iff, !str_eqb_eq. split; [|exact H1]. apply suffix_turns_spec; [lia|exact H2].
Qed.

Lemma cut_query_length path : (length (cut_query path) <= length path)%nat.
Proof. unfold cut_query. destruct (find_char "?" path); [|lia]. rewrite length_take. lia. Qed.

Lemma in_paths_spec path r : in_paths path r = true <-> path_covers (ck_path r) (cut_query path).
Proof.
  unfold in_paths, path_covers. rewrite orb_true_iff, str_eqb_eq, existsb_exists. apply or_iff_compat_l.
  unfold path_list. rewrite path_turns_suffix. pose proof (cut_query_length path) as Hl. generalize (cut_query path) Hl. clear Hl. intros s Hl.
  transitivity (In (rev (ck_path r)) (suffix_turns "/" (S (length path)) (rev s))).
  { split.
    - intros (p & Hp & E). apply str_eqb_eq in E. subst p. apply in_map_iff in Hp as (q & <- & Hq). now rewrite rev_involutive.
    - intros H. exists (ck_path r). split; [|apply str_eqb_refl]. apply in_map_iff. exists (rev (ck_path r)). now rewrite rev_involutive. }
  rewrite suffix_turns_spec by (rewrite length_rev; lia). unfold suffix_of. split.
  - intros [E|(q & E & Hs)]; [left; now apply (f_equal (@rev ascii)) in E; rewrite !rev_involutive in E|]. right.
    apply (f_equal (@rev ascii)) in E. rewrite rev_involutive, rev_app_distr in E. cbn in E. rewrite rev_involutive, <- app_assoc in E.
    exists (rev q). split; [exact E|]. now apply in_rev.
  - intros [->|(q & -> & Hs)]; [now left|]. right. exists (rev q). split; [|now apply in_rev in Hs]. rewrite rev_app_distr. cbn. now rewrite <- app_assoc.
Qed.

(** ** The store as a map *)

Abbreviation cookie_key := (cstring * cstring * cstring)%type.
Definition row_key (r : cookie_row) : cookie_key := (ck_domain r, ck_path r, ck_name r).
Definition has_row (k : cookie_key) (r : cookie_row) : bool := key_eqb (row_key r) k.
Definition stored (db : list cookie_row) (k : cookie_key) : option (cstring * cstring) :=
  match List.find (has_row k) db with Some r => Some (ck_value r, expiration r) | None => None end.
Definition unique_keys (db : list cookie_row) : Prop := List.NoDup (map row_key db).

Lemma key_eqb_spec a b : reflect (a = b) (key_eqb a b).
Proof.
  destruct a as [[a1 a2] a3], b as [[b1 b2] b3]. unfold key_eqb. cbn [fst snd].
  destruct (str_eqb_spec a1 b1), (str_eqb_spec a2 b2), (str_eqb_spec a3 b3); constructor; congruence.
Qed.

Lemma key_eqb_sym a b : key_eqb a b = key_eqb b a.
Proof. destruct (key_eqb_spec a b), (key_eqb_spec b a); congruence. Qed.

Inductive store_op : Type := SaveOp (k : cookie_key) (v e : cstring) | DeleteOp (k : cookie_key) | DropOp (domain : cstring).

Definition run_store (o : store_op) (db : list cookie_row) : list cookie_row :=
  match o with
  | SaveOp (d, p, n) v e => save_cookie d p n v e db
  | DeleteOp (d, p, n) => delete_cookie d p n db
  | DropOp domain => match drop_session domain db with Ok db' => db' | Err _ => db end
  end.

(** What the operations do to a map from keys to values and expirations. *)
Definition spec_store (o : store_op) (m : cookie_key -> option (cstring * cstring)) : cookie_key -> option (cstring * cstring) :=
  match o with
  | SaveOp k v e => fun k' => if key_eqb k' k then Some (v, e) else m k'
  | DeleteOp k => fun k' => if key_eqb k' k then None else m k'
  | DropOp domain => fun k' =>
      match m k' with
      | Some (v, e) => if no_quote domain && str_eqb e ($"session") && like ("%"%char :: domain) (fst (fst k')) then None else Some (v, e)
      | None => None
      end
  end.

Lemma has_key_row d p n r : has_key d p n r = has_row (d, p, n) r.
Proof. reflexivity. Qed.

Lemma find_delete_rows (p q : cookie_row -> bool) db :
  (forall r, q r = true -> p r = false) -> List.find q (delete_rows p db) = List.find q db.
Proof.
  intros H. unfold delete_rows. induction db as [|r db IH]; [reflexivity|]. cbn [List.filter List.find]. destruct (q r) eqn:Eq.
  - rewrite (H r Eq). cbn [negb List.find]. now rewrite Eq.
  - destruct (p r); cbn [negb List.find]; now rewrite ?Eq.
Qed.

Lemma find_deleted (p q : cookie_row -> bool) db : (forall r, q r = true -> p r = true) -> List.find q (delete_rows p db) = None.
Proof.
  intros H. unfold delete_rows. induction db as [|r db IH]; [reflexivity|]. cbn [List.filter]. destruct (p r) eqn:Ep; [exact IH|].
  cbn [negb List.find]. destruct (q r) eqn:Eq; [|exact IH]. rewrite (H r Eq) in Ep. discriminate.
Qed.

Lemma has_row_key k r : has_row k r = true <-> row_key r = k.
Proof. unfold has_row. destruct (key_eqb_spec (row_key r) k); split; congruence. Qed.

Lemma stored_delete k db k' : stored (delete_rows (has_row k) db) k' = if key_eqb k' k then None else stored db k'.
Proof.
  unfold stored. destruct (key_eqb_spec k' k) as [->|Hne]; [now rewrite find_deleted|].
  rewrite find_delete_rows; [reflexivity|]. intros r Hr. apply has_row_key in Hr. destruct (has_row k r) eqn:E; [|reflexivity].
  apply has_row_key in E. congruence.
Qed.

Lemma find_snoc {A} (q : A -> bool) l x : List.find q (l ++ [x]) = match List.find q l with Some r => Some r | None => if q x then Some x else None end.
Proof. induction l as [|y l IH]; [reflexivity|]. cbn [app List.find]. now destruct (q y). Qed.

Lemma stored_save d p n v e db k' : stored (save_cookie d p n v e db) k' = if key_eqb k' (d, p, n) then Some (v, e) else stored db k'.
Proof.
  unfold save_cookie, delete_cookie. pose proof (stored_delete (d, p, n) db k') as H. unfold stored in *. rewrite find_snoc.
  change (delete_rows (has_key d p n) db) with (delete_rows (has_row (d, p, n)) db).
  destruct (List.find (has_row k') (delete_rows (has_row (d, p, n)) db)) as [r|].
  - destruct (key_eqb k' (d, p, n)); [discriminate|exact H].
  - destruct (key_eqb_spec k' (d, p, n)) as [E|Hne].
    + rewrite E. now rewrite (proj2 (has_row_key (d, p, n) (CookieRow d p n v e)) eq_refl).
    + destruct (has_row k' (CookieRow d p n v e)) eqn:E; [|exact H]. apply has_row_key in E. destruct Hne. now symmetry.
Qed.

Lemma filter_keys_incl (f : cookie_row -> bool) db k : In k (map row_key (List.filter f db)) -> In k (map row_key db).
Proof. rewrite !in_map_iff. intros (r & <- & Hr). apply filter_In in Hr as [Hr _]. eauto. Qed.

Lemma filter_unique (f : cookie_row -> bool) db : unique_keys db -> unique_keys (List.filter f db).
Proof.
  unfold unique_keys. induction db as [|r db IH]; [constructor|]. cbn [map List.filter]. intros H. apply List.NoDup_cons_iff in H as [H1 H2].
  destruct (f r); [|now apply IH]. cbn [map]. apply List.NoDup_cons; [|now apply IH]. intros Hin. apply H1. now apply filter_keys_incl in Hin.
Qed.

Lemma find_unique k r db : unique_keys db -> In r db -> row_key r = k -> List.find (has_row k) db = Some r.
Proof.
  unfold unique_keys. induction db as [|r' db IH]; [contradiction|]. cbn [map List.find]. intros H Hin <-. apply List.NoDup_cons_iff in H as [H1 H2].
  destruct Hin as [->|Hin]; [now rewrite (proj2 (has_row_key _ _) eq_refl)|]. destruct (has_row (row_key r) r') eqn:E; [|now apply IH].
  apply has_row_key in E. destruct H1. rewrite E. now apply in_map.
Qed.

Lemma stored_row k db v e : unique_keys db ->
  (stored db k = Some (v, e) <-> exists r, In r db /\ row_key r = k /\ ck_value r = v /\ expiration r = e).
Proof.
  intros Hu. unfold stored. split.
  - destruct (List.find (has_row k) db) as [r|] eqn:E; [|discriminate]. intros [= <- <-]. apply List.find_some in E as [H1 H2].
    apply has_row_key in H2. eauto.
  - intros (r & Hin & Hk & <- & <-). now rewrite (find_unique k r db Hu Hin Hk).
Qed.

Lemma stored_filter f db k : unique_keys db ->
  stored (List.filter f db) k = match List.find (has_row k) db with Some r => if f r then Some (ck_value r, expiration r) else None | None => None end.
Proof.
  intros Hu. destruct (List.find (has_row k) db) as [r|] eqn:E.
  - pose proof (List.find_some _ _ E) as [Hin Hk]. apply has_row_key in Hk. unfold stored. destruct (f r) eqn:Ef.
    + rewrite (find_unique k r); auto using filter_unique. apply filter_In. now split.
    + destruct (List.find (has_row k) (List.filter f db)) as [r'|] eqn:E'; [|reflexivity]. apply List.find_some in E' as [Hin' Hk'].
      apply has_row_key in Hk'. apply filter_In in Hin' as [Hin' Hf']. rewrite (find_unique k r' db Hu Hin' Hk') in E. congruence.
  - unfold stored. destruct (List.find (has_row k) (List.filter f db)) as [r'|] eqn:E'; [|reflexivity]. apply List.find_some in E' as [Hin' Hk'].
    apply filter_In in Hin' as [Hin' _]. now rewrite (List.find_none _ _ E r' Hin') in Hk'.
Qed.

Lemma save_unique d p n v e db : unique_keys db -> unique_keys (save_cookie d p n v e db).
Proof.
  intros Hu. unfold save_cookie, delete_cookie, delete_rows. set (l := List.filter _ db). assert (unique_keys l) as Hl by (now apply filter_unique).
  unfold unique_keys in *. rewrite map_app. apply List.NoDup_app; [exact Hl|repeat constructor; intros []|].
  intros k Hk [<-|[]]. apply in_map_iff in Hk as (r & Er & Hr). apply filter_In in Hr as [_ Hr]. rewrite has_key_row in Hr.
  now rewrite (proj2 (has_row_key (d, p, n) r) Er) in Hr.
Qed.

Lemma store_step o db : unique_keys db -> unique_keys (run_store o db) /\ forall k, stored (run_store o db) k = spec_store o (stored db) k.
Proof.
  intros Hu. destruct o as [[[d p] n] v e|[[d p] n]|domain]; cbn [run_store spec_store].
  - split; [now apply save_unique|]. intros k. apply stored_save.
  - split; [now apply filter_unique|]. intros k. exact (stored_delete (d, p, n) db k).
  - unfold drop_session. destruct (no_quote domain); cbn [andb].
    + split; [now apply filter_unique|]. intros k. unfold delete_rows. rewrite stored_filter by exact Hu. unfold stored.
      destruct (List.find (has_row k) db) as [r|] eqn:E; [|reflexivity]. apply List.find_some in E as [_ Hk]. apply has_row_key in Hk as <-.
      cbn [row_key fst]. now destruct (str_eqb (expiration r) ($"session") && like _ _).
    + split; [exact Hu|]. intros k. now destruct (stored db k) as [[v e]|].
Qed.

(** C24: the store is a map.  After any sequence of saving, deleting and dropping of
    sessions, no two rows have domain, path and name in common, and the store holds
    for each of these what a map holds that is changed in the same way. *)
Theorem store_refines (ops : list store_op) :
  let db := fold_left (fun db o => run_store o db) ops empty_store in
  unique_keys db /\ forall k, stored db k = fold_left (fun m o => spec_store o m) ops (fun _ => None) k.
Proof.
  cbv zeta. enough (forall ops db m, unique_keys db -> (forall k, stored db k = m k) ->
    unique_keys (fold_left (fun db o => run_store o db) ops db)
    /\ forall k, stored (fold_left (fun db o => run_store o db) ops db) k = fold_left (fun m o => spec_store o m) ops m k) as H
    by (apply H; [constructor|reflexivity]).
  clear ops. induction ops as [|o ops IH]; intros db m Hu Hm; [now split|]. cbn [fold_left]. destruct (store_step o db Hu) as [H1 H2].
  apply IH; [exact H1|]. intros k. rewrite H2. destruct o; cbn [spec_store]; now rewrite !Hm.
Qed.

(** ** Cookies for an address *)

Section Jar.
Context `{P : Platform}.

Lemma add_pairs_cookies (l : list cookie_row) : forall j,
  map (fun c => (name c, value c)) (m_cookies (fold_left (fun j r => add_pair (c_str (ck_name r)) (c_str (ck_value r)) j) l j))
  = map (fun c => (name c, value c)) (m_cookies j) ++ map (fun r => (c_str (ck_name r), c_str (ck_value r))) l.
Proof.
  induction l as [|r l IH]; intros j; cbn [fold_left map]; [now rewrite app_nil_r|]. rewrite IH. cbn [add_pair push_back m_cookies].
  rewrite map_app. cbn. now rewrite <- app_assoc.
Qed.

(** The rows that cover an address. *)
Definition covering (host path : cstring) (db : list cookie_row) : list cookie_row :=
  List.filter (fun r => in_domains host r && in_paths path r) db.

(** An address gets its cookies.  A request gets exactly the cookies that are
    stored for its host, for the host with a dot or for a domain above it that has
    a dot itself, and for the root, for its path or for a path above it, the part
    behind a question mark left out, as long as these are not more than a
    hundred. *)
Theorem cookies_scoped (host path : cstring) (db : list cookie_row) :
  unique_keys db -> forallb sql_text (domain_list host) = true -> forallb sql_text (path_list path) = true ->
  (length (covering host path db) <= 100)%nat ->
  exists j, get_cookie host path db = Ok j
    /\ forall n v, In (n, v) (map (fun c => (name c, value c)) (m_cookies j))
         <-> exists d p n0 v0 e, stored db (d, p, n0) = Some (v0, e) /\ n = c_str n0 /\ v = c_str v0
               /\ domain_covers d host /\ path_covers p (cut_query path).
Proof.
  intros Hu Hd Hp Hl. unfold get_cookie. rewrite Hd, Hp. cbn [andb]. eexists. split; [reflexivity|]. intros n v.
  rewrite add_pairs_cookies. cbn [new_cookies m_cookies map app]. fold (covering host path db). rewrite take_ge by exact Hl. rewrite in_map_iff. split.
  - intros (r & [= <- <-] & Hr). apply filter_In in Hr as [Hr Hc]. apply andb_true_iff in Hc as [Hc1 Hc2].
    exists (ck_domain r), (ck_path r), (ck_name r), (ck_value r), (expiration r). split; [apply stored_row; [exact Hu|]; now exists r|].
    split; [reflexivity|]. split; [reflexivity|]. split; [now apply in_domains_spec|now apply in_paths_spec].
  - intros (d & p & n0 & v0 & e & Hs & -> & -> & Hc1 & Hc2). apply stored_row in Hs as (r & Hr & Hk & <- & <-); [|exact Hu].
    injection Hk as <- <- <-. exists r. split; [reflexivity|]. apply filter_In. split; [exact Hr|]. apply andb_true_iff.
    split; [now apply in_domains_spec|now apply in_paths_spec].
Qed.

(** ** The cookies of a response *)

Variable ptime_text : ptime -> cstring.

(** The last cookie with this key that is not to be deleted. *)
Definition last_set (host : cstring) (k : cookie_key) (l : list cookie_t) : option cookie_t :=
  List.find (fun c => key_eqb (key_of host c) k && negb (shall_delete c)) (rev l).
Definition deleted_in (host : cstring) (k : cookie_key) (l : list cookie_t) : bool :=
  existsb (fun c => key_eqb (key_of host c) k && shall_delete c) l.

Lemma find_last_cons {A} (p : A -> bool) x l :
  List.find p (rev (x :: l)) = match List.find p (rev l) with Some y => Some y | None => if p x then Some x else None end.
Proof. cbn [rev]. apply find_snoc. Qed.

Lemma existsb_key k ins : existsb (key_eqb k) ins = true <-> In k ins.
Proof.
  rewrite existsb_exists. split; [|intros H; exists k; split; [exact H|]; now destruct (key_eqb_spec k k)].
  intros (x & Hx & E). now destruct (key_eqb_spec k x) as [->|].
Qed.

Lemma save_loop_stored host k l : forall ins db,
  (In k ins -> stored db k <> None) ->
  stored (save_cookies_loop ptime_text host ins l db) k
  = match last_set host k l with
    | Some c => Some (value c, to_str ptime_text (expires c))
    | None => if deleted_in host k l && negb (existsb (key_eqb k) ins) then None else stored db k
    end.
Proof.
  unfold last_set, deleted_in. induction l as [|c l IH]; intros ins db Hins; [reflexivity|]. rewrite find_last_cons. cbn [save_cookies_loop existsb].
  destruct (key_of host c) as [[d p] n] eqn:Ek. destruct (shall_delete c); cbn [negb].
  - rewrite andb_false_r, andb_true_r, (key_eqb_sym (d, p, n)). destruct (existsb (key_eqb (d, p, n)) ins) eqn:Ei.
    + rewrite IH by exact Hins. destruct (List.find _ (rev l)); [reflexivity|]. destruct (key_eqb_spec k (d, p, n)) as [E|Hne]; cbn [orb]; [|reflexivity].
      rewrite E, Ei. cbn [negb]. now rewrite andb_false_r.
    + change (delete_cookie d p n db) with (delete_rows (has_row (d, p, n)) db). rewrite IH.
      * rewrite stored_delete. destruct (List.find _ (rev l)); [reflexivity|].
        destruct (key_eqb_spec k (d, p, n)) as [E|Hne]; cbn [orb]; [|reflexivity]. rewrite E, Ei. cbn [negb andb]. now destruct (_ && true).
      * intros Hin. rewrite stored_delete. destruct (key_eqb_spec k (d, p, n)) as [E|]; [|now apply Hins]. apply existsb_key in Hin. congruence.
  - rewrite andb_true_r, andb_false_r, (key_eqb_sym (d, p, n)). cbn [orb]. rewrite IH.
    + rewrite stored_save. destruct (List.find _ (rev l)); [reflexivity|]. rewrite existsb_app. cbn [existsb].
      destruct (key_eqb k (d, p, n)); cbn [orb]; [|now rewrite orb_false_r]. rewrite orb_true_r. cbn [negb]. now rewrite andb_false_r.
    + intros Hin. rewrite stored_save. destruct (key_eqb_spec k (d, p, n)) as [|Hne]; [discriminate|].
      apply in_app_or in Hin as [Hin|[E|[]]]; [now apply Hins|now destruct Hne].
Qed.

(** A response is kept.  For every domain, path and name the store holds,
    after a response, the last value the response sets for it; a deletion in the
    same response does not undo it; without a value it is gone when the response
    deletes it, and unchanged otherwise. *)
Theorem response_saved (j : cookies) (host : cstring) (db : list cookie_row) (k : cookie_key) :
  stored (save_cookies ptime_text j host db) k
  = match last_set host k (m_cookies j) with
    | Some c => Some (value c, to_str ptime_text (expires c))
    | None => if deleted_in host k (m_cookies j) then None else stored db k
    end.
Proof. unfold save_cookies. rewrite save_loop_stored by contradiction. cbn [existsb negb]. now rewrite andb_true_r. Qed.

(** The time of a cookie is only looked at when it has none: a server cannot delete
    a cookie with a time that is over. *)
Theorem expired_kept (c : cookie_t) (host : cstring) (db : list cookie_row) :
  value c <> [] -> is_not_a_date_time (expires c) = false ->
  stored (save_cookies ptime_text (add_cookie c new_cookies) host db) (key_of host c) = Some (value c, ptime_text (expires c)).
Proof.
  intros Hv He. unfold save_cookies. rewrite save_loop_stored by contradiction. unfold last_set. cbn [add_cookie push_back m_cookies new_cookies app rev].
  cbn [List.find]. unfold shall_delete. destruct (str_eqb_spec (value c) []); [contradiction|]. rewrite He. cbn [negb andb].
  destruct (key_eqb_spec (key_of host c) (key_of host c)); [|congruence]. cbn [andb]. unfold to_str. now rewrite He.
Qed.
End Jar.

(** ** Example *)

Definition example_store : list cookie_row :=
  save_cookie ($"psession.qq.com") ($"/") ($"clientid") ($"1234") ($"session") (save_cookie ($".qq.com") ($"/") ($"ptwebqq") ($"ab") ($"session") empty_store).

Lemma cookies_scoped_witness :
  exists j, get_cookie (P := example_platform) ($"psession.qq.com") ($"/") example_store = Ok j
    /\ In ($"ptwebqq", $"ab") (map (fun c => (name c, value c)) (m_cookies j)).
Proof.
  destruct (cookies_scoped (P := example_platform) ($"psession.qq.com") ($"/") example_store) as (j & Ej & H).
  - apply save_unique, save_unique. constructor.
  - reflexivity.
  - reflexivity.
  - cbn. lia.
  - exists j. split; [exact Ej|]. apply H. exists ($".qq.com"), ($"/"), ($"ptwebqq"), ($"ab"), ($"session"). repeat split.
    + exists ($"qq.com"). split; [now right|]. right. exists ($"psession"). split; [reflexivity|]. cbn. tauto.
    + now left.
Defined.
