(* ===== verification/WebqqSender.v ===== *)
(** Sending of group messages, libwebqq/src/impl/group_message_sender.hpp, with the
    queue of messages of [WebQQ].

    The coroutine is the point where it is suspended.  Its queue is that of
    CoroQueue.v over a circular buffer of twenty messages.  The status and the
    session belong to the whole client: an event can change them at any time. *)

From S2P Require Import Prelude CLib EscapeString CoroQueue BuddyMgr WebqqPoll WebqqCodec WebqqLoop.

(** ** State *)

(** A message of the queue; its callback is a number. *)
Record group_msg : Type := GroupMsg { to_group : cstring; msg_text : cstring; done_cb : Z }.
Definition no_msg : group_msg := GroupMsg [] [] 0.

Abbreviation msg_queue := (coro_queue group_msg (C := circular_buffer group_msg 20) unit unit).

Inductive send_error : Type := SendCanceled | SendFailed.

Inductive sender_point : Type :=
| WaitFirst | OfflineDelay (v : group_msg) | Sending (v : group_msg) | SentDelay | WaitNext | SenderEnded.

(** [sent]: the messages that were sent, with the bodies of their requests; [told]:
    the callbacks that were called; [naps]: the delays, in milliseconds. *)
Record sender : Type := Sender {
  sd_status : LWQQ_STATUS; m_psessionid : cstring; m_msg_id : Z;
  m_group_message_queue : msg_queue; sd_calls : list (option queue_error * group_msg);
  sd_at : sender_point; sent : list (group_msg * cstring); told : list (Z * option send_error); naps : list Z
}.

Definition set_sender_status (st : LWQQ_STATUS) (s : sender) : sender :=
  Sender st (m_psessionid s) (m_msg_id s) (m_group_message_queue s) (sd_calls s) (sd_at s) (sent s) (told s) (naps s).
Definition set_session (ps : cstring) (s : sender) : sender :=
  Sender (sd_status s) ps (m_msg_id s) (m_group_message_queue s) (sd_calls s) (sd_at s) (sent s) (told s) (naps s).
Definition set_sd_calls (l : list (option queue_error * group_msg)) (s : sender) : sender :=
  Sender (sd_status s) (m_psessionid s) (m_msg_id s) (m_group_message_queue s) l (sd_at s) (sent s) (told s) (naps s).
Definition sender_goes (p : sender_point) (s : sender) : sender :=
  Sender (sd_status s) (m_psessionid s) (m_msg_id s) (m_group_message_queue s) (sd_calls s) p (sent s) (told s) (naps s).
Definition nap (p : sender_point) (ms : Z) (s : sender) : sender :=
  Sender (sd_status s) (m_psessionid s) (m_msg_id s) (m_group_message_queue s) (sd_calls s) p (sent s) (told s) (naps s ++ [ms]).
Definition tell (cb : Z) (ec : option send_error) (s : sender) : sender :=
  Sender (sd_status s) (m_psessionid s) (m_msg_id s) (m_group_message_queue s) (sd_calls s) (sd_at s) (sent s) (told s ++ [(cb, ec)]) (naps s).

(** The calls of [async_pop] that were posted. *)
Definition pop_results (calls : list (post group_msg unit unit)) : list (option queue_error * group_msg) :=
  flat_map (fun c => match c with PopCall _ ec v => [(ec, v)] | WaitCall _ _ => [] end) calls.

(** An operation of the queue; its faults do not happen ([sender_never_faults]). *)
Definition on_msg_queue (o : queue_op) (s : sender) : sender :=
  match queue_step no_msg true o (m_group_message_queue s) with
  | Ok (calls, q) =>
      Sender (sd_status s) (m_psessionid s) (m_msg_id s) q (sd_calls s ++ pop_results calls) (sd_at s) (sent s) (told s) (naps s)
  | Err _ => s
  end.

Section Sender.
(** The code points of a text, as in [parse_unescape], and the client number. *)
Variables (points : cstring -> list Z * bool) (clientid : cstring).

(** The constructor. *)
Definition group_message_sender_op (st : LWQQ_STATUS) (ps : cstring) (msg_id : Z) : sender :=
  on_msg_queue (OpPop ()) (Sender st ps msg_id new_queue [] WaitFirst [] [] []).

(** ** The request *)

(** Quotes for apostrophes. *)
Definition dq (s : cstring) : cstring := map (fun c => if c =c "'" then "034"%char else c) s.

Definition messagejson (v : group_msg) (ps : cstring) (msg_id : Z) : cstring :=
  dq ($"{'group_uin':'") ++ to_group v ++ dq ($"', 'content':'[\'") ++ parse_unescape points (msg_text v)
  ++ dq ($"\',[\'font\',{\'name\':\'宋体\',\'size\':\'10\',\'style\':[0,0,0],\'color\':\'000000\'}]]','face':600, 'msg_id':")
  ++ itoa msg_id ++ dq ($",'clientid':'") ++ clientid ++ dq ($"','psessionid':'") ++ ps ++ dq ($"'}").
Definition postdata (v : group_msg) (ps : cstring) (msg_id : Z) : cstring :=
  $"r=" ++ escape_string (messagejson v ps msg_id) ++ $"&clientid=" ++ clientid ++ $"&psessionid=" ++ ps.

Definition send_group_message (v : group_msg) (s : sender) : sender :=
  Sender (sd_status s) (m_psessionid s) (m_msg_id s + 1) (m_group_message_queue s) (sd_calls s) (Sending v) (sent s ++ [(v, postdata v (m_psessionid s) (m_msg_id s))]) (told s)
    (naps s).

(** ** The coroutine *)

Definition is_online (s : sender) : bool := match sd_status s with LWQQ_STATUS_ONLINE => true | _ => false end.
Definition is_quitting (s : sender) : bool := match sd_status s with LWQQ_STATUS_QUITTING => true | _ => false end.

(** The loop that waits for the login, which does not look for the end. *)
Definition wait_online (v : group_msg) (s : sender) : sender :=
  if negb (is_online s) || str_eqb (m_psessionid s) [] then nap (OfflineDelay v) 20000 s else send_group_message v s.
Definition enter_sender (v : group_msg) (s : sender) : sender :=
  if is_quitting s then sender_goes SenderEnded s else wait_online v s.
(** The inner loop. *)
Definition while_online (v : group_msg) (s : sender) : sender :=
  if is_online s then send_group_message v s else enter_sender v s.

(** A call of the queue; [enter] is what follows.  The only error of a pop without
    a time limit is that it was cancelled. *)
Definition woken (enter : group_msg -> sender -> sender) (s : sender) : sender :=
  match sd_calls s with
  | [] => s
  | (Some _, _) :: l => sender_goes SenderEnded (set_sd_calls l s)
  | (None, v) :: l => enter v (set_sd_calls l s)
  end.

Inductive sender_event : Type :=
| Push (v : group_msg) | Woken | SendDone (ec : option send_error) | SenderTimer | SetStatus (st : LWQQ_STATUS) | SetSession (ps : cstring) | StopSender.

Definition sender_step (e : sender_event) (s : sender) : sender :=
  match e, sd_at s with
  | Push v, _ => on_msg_queue (OpPush v) s
  | SetStatus st, _ => set_sender_status st s
  | SetSession ps, _ => set_session ps s
  | StopSender, _ => set_sender_status LWQQ_STATUS_QUITTING (on_msg_queue OpCancel s)
  | Woken, WaitFirst => woken enter_sender s
  | Woken, WaitNext => woken while_online s
  | SendDone (Some SendCanceled), Sending _ => sender_goes SenderEnded s
  | SendDone ec, Sending v => nap SentDelay 400 (tell (done_cb v) ec s)
  | SenderTimer, OfflineDelay v => wait_online v s
  | SenderTimer, SentDelay => on_msg_queue (OpPop ()) (sender_goes WaitNext s)
  | _, _ => s
  end.
Definition run_sender (es : list sender_event) (s : sender) : sender := fold_left (fun s e => sender_step e s) es s.
End Sender.

(** ** Every message once and in order *)

(** The values of the calls that were posted, and the message that waits for the
    login. *)
Definition posted (l : list (option queue_error * group_msg)) : list group_msg :=
  flat_map (fun p : option queue_error * group_msg => match fst p with None => [snd p] | Some _ => [] end) l.
Definition held (p : sender_point) : list group_msg := match p with OfflineDelay v => [v] | _ => [] end.
Definition waiting (s : sender) : list group_msg := contents (m_list (m_group_message_queue s)).
(** The messages in the order of their way. *)
Definition line_up (s : sender) : list group_msg := map fst (sent s) ++ held (sd_at s) ++ posted (sd_calls s) ++ waiting s.

Definition pushed_msgs (es : list sender_event) : list group_msg := flat_map (fun e => match e with Push v => [v] | _ => [] end) es.

Lemma posted_app l l' : posted (l ++ l') = posted l ++ posted l'.
Proof. apply flat_map_app. Qed.

Lemma posted_results calls : posted (pop_results calls) = delivered calls.
Proof.
  induction calls as [|[h [e|] v|w ec] calls IH]; [reflexivity|exact IH| |exact IH].
  change (v :: posted (pop_results calls) = v :: delivered calls). now rewrite IH.
Qed.

Section Facts.
Variables (points : cstring -> list Z * bool) (clientid : cstring).
Abbreviation step := (sender_step points clientid).
Abbreviation run_all := (run_sender points clientid).

(** The messages are on their way, and none is lost while the queue has room. *)
Record sender_ok (exact : Prop) (pushed : list group_msg) (s : sender) : Prop := SenderOk {
  so_wf : queue_wf (m_group_message_queue s);
  so_values : sublist (line_up s) pushed;
  so_exact : exact -> (length (waiting s) <= 20)%nat /\ (sd_at s <> SenderEnded -> line_up s = pushed)
}.

Lemma queue_op_ok (exact : Prop) pushed o s :
  sender_ok exact pushed s -> clears [o] = false -> (exact -> (length (waiting s ++ CoroQueue.pushed [o]) <= 20)%nat) ->
  sender_ok exact (pushed ++ CoroQueue.pushed [o]) (on_msg_queue o s) /\ sd_at (on_msg_queue o s) = sd_at s.
Proof.
  intros [H1 H2 H3] Ho Hx. unfold on_msg_queue. destruct (queue_step_effect no_msg true o _ H1) as (calls & q & -> & [F1 F2 F3 _]).
  cbn [sd_at]. split; [|reflexivity]. split; unfold line_up, waiting in *; cbn [m_group_message_queue sd_calls sd_at sent].
  - exact F1.
  - rewrite posted_app, posted_results, <- (app_assoc (posted _)).
    assert (forall a b c d e f : list group_msg, sublist d (e ++ f) -> a ++ b ++ c ++ e = (a ++ b ++ c ++ e) -> sublist (a ++ b ++ c ++ d) ((a ++ b ++ c ++ e) ++ f)) as Ha.
    { intros a b c d e f Hd _. rewrite <- !app_assoc. repeat (apply sublist_app; [reflexivity|]). exact Hd. }
    etransitivity; [apply Ha; [exact F2|reflexivity]|]. now apply sublist_app.
  - intros He. assert (delivered calls ++ contents (m_list q) = contents (m_list (m_group_message_queue s)) ++ CoroQueue.pushed [o]) as E
      by (apply F3; [exact Ho|exact (Hx He)]).
    split.
    + specialize (Hx He). apply (f_equal length) in E. rewrite !length_app in E. rewrite length_app in Hx. lia.
    + intros Hne. destruct (H3 He) as [_ H4]. rewrite <- (H4 Hne), posted_app, posted_results, <- !app_assoc, E. reflexivity.
Qed.

(** Changes that leave the line as it is. *)
Lemma same_line_ok (exact : Prop) pushed s s' :
  m_group_message_queue s' = m_group_message_queue s -> line_up s' = line_up s \/ (sd_at s' = SenderEnded /\ sublist (line_up s') (line_up s)) ->
  (sd_at s = SenderEnded -> sd_at s' = SenderEnded) -> sender_ok exact pushed s -> sender_ok exact pushed s'.
Proof.
  intros Hq Hl He [H1 H2 H3]. split.
  - now rewrite Hq.
  - destruct Hl as [->|[_ Hl]]; [exact H2|now transitivity (line_up s)].
  - intros Hx. destruct (H3 Hx) as [H4 H5]. unfold waiting in *. rewrite Hq. split; [exact H4|]. intros Hn. destruct Hl as [->|[E _]]; [|contradiction].
    apply H5. intros E. now apply Hn, He.
Qed.

Lemma sent_line v s : line_up (send_group_message points clientid v s) = map fst (sent s) ++ v :: posted (sd_calls s) ++ waiting s.
Proof. unfold line_up. cbn. rewrite map_app. cbn. now rewrite <- app_assoc. Qed.

(** What becomes of a message that the coroutine holds. *)
Lemma enter_line v s :
  let on := fun s' => m_group_message_queue s' = m_group_message_queue s
    /\ (line_up s' = map fst (sent s) ++ v :: posted (sd_calls s) ++ waiting s
        \/ (sd_at s' = SenderEnded /\ line_up s' = map fst (sent s) ++ posted (sd_calls s) ++ waiting s)) in
  on (wait_online points clientid v s) /\ on (enter_sender points clientid v s) /\ on (while_online points clientid v s).
Proof.
  intros on. assert (on (send_group_message points clientid v s)) as Hs by (split; [reflexivity|left; apply sent_line]).
  assert (on (wait_online points clientid v s)) as Hw.
  { unfold wait_online. destruct (negb (is_online s) || str_eqb (m_psessionid s) []); [|exact Hs]. split; [reflexivity|left; reflexivity]. }
  assert (on (enter_sender points clientid v s)) as He.
  { unfold enter_sender. destruct (is_quitting s); [|exact Hw]. split; [reflexivity|right; now split]. }
  split; [exact Hw|]. split; [exact He|]. unfold while_online. destruct (is_online s); [exact Hs|exact He].
Qed.

Lemma drop_mid {A} (a b : list A) x : sublist (a ++ b) (a ++ x :: b).
Proof. apply sublist_app; [reflexivity|]. now apply sublist_cons. Qed.

Lemma woken_ok (exact : Prop) pushed enter s :
  (forall v s, m_group_message_queue (enter v s) = m_group_message_queue s
     /\ (line_up (enter v s) = map fst (sent s) ++ v :: posted (sd_calls s) ++ waiting s
         \/ (sd_at (enter v s) = SenderEnded /\ line_up (enter v s) = map fst (sent s) ++ posted (sd_calls s) ++ waiting s))) ->
  sd_at s <> SenderEnded -> held (sd_at s) = [] -> sender_ok exact pushed s -> sender_ok exact pushed (woken enter s).
Proof.
  intros He Hn Hh H. unfold woken. destruct (sd_calls s) as [|[ec v] l] eqn:Ec; [exact H|].
  assert (line_up s = map fst (sent s) ++ posted ((ec, v) :: l) ++ waiting s) as El by (unfold line_up; now rewrite Hh, Ec).
  assert (sender_ok exact pushed (sender_goes SenderEnded (set_sd_calls l s))) as Hend.
  { apply (same_line_ok exact pushed s); [reflexivity| |contradiction|exact H]. right. split; [reflexivity|]. rewrite El. unfold line_up. cbn.
    destruct ec; cbn; [reflexivity|apply drop_mid]. }
  destruct ec as [e|]; [exact Hend|]. destruct (He v (set_sd_calls l s)) as [Hq Hl].
  apply (same_line_ok exact pushed s); [exact Hq| |contradiction|exact H]. rewrite El.
  destruct Hl as [->|[E ->]]; [now left|right; split; [exact E|]; apply drop_mid].
Qed.

(** Whether the queue has room for every message. *)
Fixpoint roomy (es : list sender_event) (s : sender) : Prop :=
  match es with
  | [] => True
  | e :: es' => match e with Push _ => (length (waiting s) < 20)%nat | _ => True end /\ roomy es' (step e s)
  end.

Lemma sender_step_ok (exact : Prop) pushed e s :
  sender_ok exact pushed s -> (exact -> match e with Push _ => (length (waiting s) < 20)%nat | _ => True end) ->
  sender_ok exact (pushed ++ pushed_msgs [e]) (step e s).
Proof.
  intros H Hr. assert (forall o, clears [o] = false -> CoroQueue.pushed [o] = [] -> forall s, sender_ok exact pushed s -> sender_ok exact pushed (on_msg_queue o s)) as Hq.
  { intros o Ho Hp s' H'. pose proof (queue_op_ok exact pushed o s' H' Ho) as Hk. rewrite Hp, !app_nil_r in Hk. apply Hk. intros He.
    now destruct (so_exact _ _ _ H' He). }
  assert (forall s', m_group_message_queue s' = m_group_message_queue s -> line_up s' = line_up s -> sd_at s' = sd_at s -> sender_ok exact pushed s') as Hsame.
  { intros s' E1 E2 E3. apply (same_line_ok exact pushed s); auto. now rewrite E3. }
  destruct e as [v| |ec| |st|ps|]; cbn [pushed_msgs flat_map sender_step]; rewrite ?app_nil_r.
  - apply (queue_op_ok exact pushed (OpPush v)); [exact H|reflexivity|]. intros He. specialize (Hr He). cbn beta iota in Hr. rewrite length_app.
    unfold CoroQueue.pushed. cbn [flat_map app length]. lia.
  - destruct (sd_at s) eqn:Ep; try exact H; apply woken_ok; rewrite ?Ep; auto; try discriminate.
    + intros v s'. apply enter_line.
    + intros v s'. apply enter_line.
  - destruct ec as [[]|]; destruct (sd_at s) eqn:Ep; try exact H.
    all: apply (same_line_ok exact pushed s); try reflexivity; try exact H; try congruence; unfold line_up; cbn; rewrite Ep; now left.
  - destruct (sd_at s) eqn:Ep; try exact H.
    + destruct (enter_line v s) as [[E1 E2] _]. apply (same_line_ok exact pushed s); auto; [|congruence].
      assert (line_up s = map fst (sent s) ++ v :: posted (sd_calls s) ++ waiting s) as -> by (unfold line_up; now rewrite Ep). destruct E2 as [->|[E ->]]; [now left|]. right. split; [exact E|]. apply drop_mid.
    + apply Hq; auto. apply (same_line_ok exact pushed s); auto; [|congruence]. left. unfold line_up. cbn. now rewrite Ep.
  - now apply Hsame.
  - now apply Hsame.
  - assert (sender_ok exact pushed (on_msg_queue OpCancel s)) as Hc by (now apply Hq).
    now apply (same_line_ok exact pushed (on_msg_queue OpCancel s)); auto.
Qed.

Lemma sender_run_ok es : forall exact pushed s,
  sender_ok exact pushed s -> (exact -> roomy es s) -> sender_ok exact (pushed ++ pushed_msgs es) (run_all es s).
Proof.
  induction es as [|e es IH]; intros exact pushed s H Hr; [now rewrite app_nil_r|].
  unfold run_sender. cbn [fold_left]. replace (pushed_msgs (e :: es)) with (pushed_msgs [e] ++ pushed_msgs es) by (cbn; now rewrite app_nil_r).
  rewrite app_assoc. apply IH.
  - apply sender_step_ok; [exact H|]. intros He. now destruct (Hr He).
  - intros He. now destruct (Hr He).
Qed.

Lemma sender_start_ok exact st ps msg_id : sender_ok exact [] (group_message_sender_op st ps msg_id).
Proof. split; [now intros _|reflexivity|intros _; split; [change (0 <= 20)%nat; lia|reflexivity]]. Qed.

(** ** Callbacks *)

Definition sending_cb (p : sender_point) : list Z := match p with Sending v => [done_cb v] | _ => [] end.
Record told_ok (s : sender) : Prop := ToldOk {
  to_line : sd_at s <> SenderEnded -> map (fun p => done_cb (fst p)) (sent s) = map fst (told s) ++ sending_cb (sd_at s);
  to_ended : exists rest, (length rest <= 1)%nat /\ map (fun p => done_cb (fst p)) (sent s) = map fst (told s) ++ rest;
  to_paced : length (List.filter (Z.eqb 400) (naps s)) = length (told s)
}.

Lemma told_same s s' : sent s' = sent s -> told s' = told s -> naps s' = naps s -> sending_cb (sd_at s') = sending_cb (sd_at s) ->
  (sd_at s = SenderEnded -> sd_at s' = SenderEnded) -> told_ok s -> told_ok s'.
Proof.
  intros E1 E2 E3 E4 E5 [H1 H2 H3]. split; rewrite ?E1, ?E2, ?E3, ?E4; auto.
Qed.

Lemma told_queue o s : told_ok s -> told_ok (on_msg_queue o s).
Proof. intros H. unfold on_msg_queue. destruct (queue_step _ _ _ _) as [[calls q]|]; [|exact H]. now apply (told_same s). Qed.

Lemma told_send v s : map (fun p => done_cb (fst p)) (sent s) = map fst (told s) -> told_ok s -> told_ok (send_group_message points clientid v s).
Proof.
  intros E [_ _ H3]. assert (map (fun p => done_cb (fst p)) (sent (send_group_message points clientid v s)) = map fst (told s) ++ [done_cb v]) as E'
    by (cbn; now rewrite map_app, E).
  split; [intros _; exact E'| |exact H3]. exists [done_cb v]. split; [cbn; lia|exact E'].
Qed.

Lemma told_enter v s : sending_cb (sd_at s) = [] -> sd_at s <> SenderEnded -> told_ok s ->
  told_ok (wait_online points clientid v s) /\ told_ok (enter_sender points clientid v s) /\ told_ok (while_online points clientid v s).
Proof.
  intros Hc Hn H. assert (map (fun p => done_cb (fst p)) (sent s) = map fst (told s)) as E by (rewrite (to_line _ H Hn), Hc; apply app_nil_r).
  assert (told_ok (wait_online points clientid v s)) as Hw.
  { unfold wait_online. destruct (negb (is_online s) || str_eqb (m_psessionid s) []); [|now apply told_send]. destruct H as [H1 H2 H3].
    split; cbn [sd_at nap sent told naps sending_cb]; [now rewrite app_nil_r|exact H2|]. rewrite List.filter_app. cbn. now rewrite app_nil_r. }
  assert (told_ok (enter_sender points clientid v s)) as He.
  { unfold enter_sender. destruct (is_quitting s); [|exact Hw]. now apply (told_same s). }
  split; [exact Hw|]. split; [exact He|]. unfold while_online. destruct (is_online s); [now apply told_send|exact He].
Qed.

Lemma told_done v ec s : sd_at s = Sending v -> told_ok s -> told_ok (nap SentDelay 400 (tell (done_cb v) ec s)).
Proof.
  intros Ep [H1 _ H3]. assert (map (fun p => done_cb (fst p)) (sent s) = map fst (told s ++ [(done_cb v, ec)])) as E
    by (rewrite H1 by congruence; rewrite Ep, map_app; reflexivity).
  split; cbn [sd_at nap tell sent told naps sending_cb].
  - intros _. now rewrite app_nil_r.
  - exists []. split; [cbn; lia|]. now rewrite app_nil_r.
  - rewrite List.filter_app, !length_app, H3. reflexivity.
Qed.

Lemma told_step e s : told_ok s -> told_ok (step e s).
Proof.
  intros H. destruct e as [v| |ec| |st|ps|]; cbn [sender_step].
  - now apply told_queue.
  - destruct (sd_at s) eqn:Ep; try exact H; unfold woken; destruct (sd_calls s) as [|[[e|] v] l]; try exact H.
    all: try (apply (told_same s); try reflexivity; try exact H; cbn; now rewrite Ep).
    all: apply told_enter; cbn [sd_at set_sd_calls]; rewrite ?Ep; try reflexivity; try discriminate; now apply (told_same s).
  - destruct ec as [[]|]; destruct (sd_at s) eqn:Ep; try exact H.
    + destruct H as [H1 H2 H3]. split; [intros Hn; now destruct Hn|exact H2|exact H3].
    + now apply told_done.
    + now apply told_done.
  - destruct (sd_at s) eqn:Ep; try exact H.
    + apply told_enter; rewrite ?Ep; try reflexivity; try discriminate. exact H.
    + apply told_queue. apply (told_same s); try reflexivity; try exact H; cbn; now rewrite Ep.
  - now apply (told_same s).
  - now apply (told_same s).
  - apply (told_same (on_msg_queue OpCancel s)); try reflexivity; auto using told_queue.
Qed.

Lemma told_run es : forall s, told_ok s -> told_ok (run_all es s).
Proof. induction es as [|e es IH]; intros s H; [exact H|]. now apply IH, told_step. Qed.

Lemma sender_never_faults es st ps msg_id o :
  is_ok (queue_step no_msg true o (m_group_message_queue (run_all es (group_message_sender_op st ps msg_id)))) = true.
Proof.
  pose proof (sender_run_ok es False [] _ (sender_start_ok False st ps msg_id) ltac:(contradiction)) as [Hwf _ _].
  destruct (queue_step_effect no_msg true o _ Hwf) as (calls & q & -> & _). reflexivity.
Qed.

(** C14: group messages are sent in order.  Whatever happens to the connection, to
    the login and to the queue: the messages that were sent, the one that waits for
    the login and those in the queue are, in this order, messages that were given
    to the client, none of them twice and none overtaken; as long as the queue has
    room for each of them and the sender was not stopped, none is lost; every
    message that was sent has its callback called once, before the next one is
    sent, with a delay of 400 milliseconds. *)
Theorem messages_in_order (es : list sender_event) (st : LWQQ_STATUS) (ps : cstring) (msg_id : Z) :
  let s0 := group_message_sender_op st ps msg_id in
  let s := run_all es s0 in
  sublist (line_up s) (pushed_msgs es)
  /\ (roomy es s0 -> sd_at s <> SenderEnded -> line_up s = pushed_msgs es)
  /\ (sd_at s <> SenderEnded -> map (fun p => done_cb (fst p)) (sent s) = map fst (told s) ++ sending_cb (sd_at s))
  /\ length (List.filter (Z.eqb 400) (naps s)) = length (told s).
Proof.
  intros s0 s. destruct (sender_run_ok es (roomy es s0) [] s0 (sender_start_ok _ st ps msg_id) (fun H => H)) as [_ H2 H3].
  assert (told_ok s) as [T1 _ T3].
  { apply told_run. split; [reflexivity|exists []; now split; [cbn; lia|]|reflexivity]. }
  split; [exact H2|]. split; [intros Hr Hn; now apply H3|]. now split.
Qed.
End Facts.

(** ** Delivery *)

Section Delivery.
Variables (points : cstring -> list Z * bool) (clientid : cstring).
Abbreviation body := (postdata points clientid).

Definition turn : list sender_event := [Woken; SendDone None; SenderTimer].

Definition buffered (l : list group_msg) (hs : list (bool * unit)) : msg_queue :=
  CoroQueue (l : list_t (Container := circular_buffer group_msg 20)) hs [].

Lemma push_run ps id l calls p sn td np v : (length l < 20)%nat ->
  sender_step points clientid (Push v) (Sender LWQQ_STATUS_ONLINE ps id (buffered l []) calls p sn td np)
  = Sender LWQQ_STATUS_ONLINE ps id (buffered (l ++ [v]) []) calls p sn td np.
Proof.
  intros Hl. unfold sender_step, on_msg_queue, queue_step, push, push_waiters, push_handlers, buffered. run. cbn [m_group_message_queue m_wait_handlers m_handlers m_list].
  unfold set_list. cbn [m_list m_handlers m_wait_handlers push_back circular_buffer]. rewrite (proj2 (Nat.leb_gt _ _) Hl). cbn. now rewrite app_nil_r.
Qed.

Lemma pushes_run ps id calls p sn td np rest : forall l, (length l + length rest <= 20)%nat ->
  run_sender points clientid (map Push rest) (Sender LWQQ_STATUS_ONLINE ps id (buffered l []) calls p sn td np)
  = Sender LWQQ_STATUS_ONLINE ps id (buffered (l ++ rest) []) calls p sn td np.
Proof.
  induction rest as [|v rest IH]; intros l Hl; [now rewrite app_nil_r|]. cbn [length] in Hl. unfold run_sender. cbn [map fold_left].
  rewrite push_run by lia. fold (run_sender points clientid (map Push rest) (Sender LWQQ_STATUS_ONLINE ps id (buffered (l ++ [v]) []) calls p sn td np)).
  rewrite IH by (rewrite length_app; cbn; lia). now rewrite <- app_assoc.
Qed.

Lemma turn_run ps id m rest p sn td np : ps <> [] -> p = WaitFirst \/ p = WaitNext ->
  run_sender points clientid turn (Sender LWQQ_STATUS_ONLINE ps id (buffered rest []) [(None, m)] p sn td np)
  = Sender LWQQ_STATUS_ONLINE ps (id + 1) (match rest with [] => buffered [] [(false, ())] | _ :: r => buffered r [] end)
      (match rest with [] => [] | m' :: _ => [(None, m')] end) WaitNext (sn ++ [(m, body m ps id)]) (td ++ [(done_cb m, None)]) (np ++ [400]).
Proof. intros Hps Hp. destruct ps as [|c ps]; [congruence|]. destruct Hp as [-> | ->]; now destruct rest. Qed.

(** The messages with their bodies. *)
Definition bodies (ps : cstring) (id : Z) (l : list group_msg) : list (group_msg * cstring) :=
  imap (fun i v => (v, body v ps (id + Z.of_nat i))) l.

Lemma bodies_cons ps id m l : bodies ps id (m :: l) = (m, body m ps id) :: bodies ps (id + 1) l.
Proof.
  unfold bodies. rewrite imap_cons, Z.add_0_r. f_equal. apply imap_ext. intros i v _. cbn [compose]. f_equal. f_equal. lia.
Qed.

Lemma bodies_msgs ps id l : map fst (bodies ps id l) = l.
Proof. revert id. induction l as [|m l IH]; intros id; [reflexivity|]. rewrite bodies_cons. cbn [map fst]. now rewrite IH. Qed.

Lemma turns_run ps rest : ps <> [] -> forall id m p sn td np, p = WaitFirst \/ p = WaitNext ->
  let s := run_sender points clientid (concat (repeat turn (S (length rest))))
             (Sender LWQQ_STATUS_ONLINE ps id (buffered rest []) [(None, m)] p sn td np) in
  sent s = sn ++ bodies ps id (m :: rest)
  /\ told s = td ++ map (fun v => (done_cb v, None)) (m :: rest) /\ sd_at s = WaitNext /\ posted (sd_calls s) ++ waiting s = [].
Proof.
  intros Hps. induction rest as [|m' rest IH]; intros id m p sn td np Hp s; unfold s; clear s.
  - cbn [length repeat concat]. rewrite app_nil_r, turn_run by assumption. rewrite bodies_cons. now repeat split.
  - change (S (length (m' :: rest))) with (1 + S (length rest))%nat. rewrite repeat_app, concat_app. unfold run_sender. rewrite fold_left_app.
    cbn [repeat concat]. rewrite app_nil_r. pose proof (turn_run ps id m (m' :: rest) p sn td np Hps Hp) as Et. unfold run_sender in Et. rewrite Et.
    destruct (IH (id + 1) m' WaitNext (sn ++ [(m, body m ps id)]) (td ++ [(done_cb m, None)]) (np ++ [400]) (or_intror eq_refl)) as (H1 & H2 & H3 & H4).
    unfold run_sender in H1, H2, H3, H4. cbn [repeat concat] in H1, H2, H3, H4. rewrite H1, H2, H3, H4, (bodies_cons ps id m (m' :: rest)), <- !app_assoc.
    split; [reflexivity|]. split; [reflexivity|]. now split.
Qed.

(** Group messages are delivered.  When the client is online and has a
    session, up to twenty-one messages that are given to it at once are sent, each
    with its text, in order and with increasing numbers, the callback of each is
    told success, and the sender waits for the next one. *)
Theorem messages_delivered (ps : cstring) (id : Z) (m : group_msg) (rest : list group_msg) :
  ps <> [] -> (length rest <= 20)%nat ->
  let s := run_sender points clientid (map Push (m :: rest) ++ concat (repeat turn (S (length rest))))
             (group_message_sender_op LWQQ_STATUS_ONLINE ps id) in
  sent s = bodies ps id (m :: rest)
  /\ told s = map (fun v => (done_cb v, None)) (m :: rest) /\ sd_at s = WaitNext /\ line_up s = m :: rest.
Proof.
  intros Hps Hl s. assert (s = run_sender points clientid (concat (repeat turn (S (length rest))))
    (Sender LWQQ_STATUS_ONLINE ps id (buffered rest []) [(None, m)] WaitFirst [] [] [])) as Es.
  { unfold s, run_sender. rewrite fold_left_app. f_equal. cbn [map fold_left].
    exact (pushes_run ps id [(None, m)] WaitFirst [] [] [] rest [] Hl). }
  destruct (turns_run ps rest Hps id m WaitFirst [] [] [] (or_introl eq_refl)) as (H1 & H2 & H3 & H4). rewrite <- Es in *. rewrite app_nil_l in H1, H2.
  split; [exact H1|]. split; [exact H2|]. split; [exact H3|]. unfold line_up. rewrite H1, H3, H4, bodies_msgs. apply app_nil_r.
Qed.

(** A sender that waits for the login does not notice that the client quits. *)
Theorem quitting_unnoticed (n : nat) (v : group_msg) (s : sender) :
  sd_at s = OfflineDelay v -> sd_status s = LWQQ_STATUS_QUITTING -> sd_at (run_sender points clientid (repeat SenderTimer n) s) = OfflineDelay v.
Proof.
  intros Hp Hs. revert s Hp Hs. induction n as [|n IH]; intros s Hp Hs; [exact Hp|]. unfold run_sender. cbn [repeat fold_left]. apply IH.
  - unfold sender_step, wait_online, is_online. now rewrite Hp, Hs.
  - unfold sender_step, wait_online, is_online. now rewrite Hp, Hs.
Qed.
End Delivery.

(** ** The text of a message *)

(** The code points of escapes of the form of [escape_point]. *)
Fixpoint read_points (s : cstring) : option (list Z) :=
  match s with
  | [] => Some []
  | x :: y :: u :: a :: b :: c :: d :: s' =>
      if (x =c "\") && (y =c "\") && (u =c "u") then
        a ← hex_value a; b ← hex_value b; c ← hex_value c; d ← hex_value d; l ← read_points s';
        Some (((a * 16 + b) * 16 + c) * 16 + d :: l)
      else None
  | _ => None
  end.

Lemma upper_digit d : 0 <= d < 16 ->
  hex_value (nth (Z.to_nat d) ($"0123456789ABCDEF") NUL) = Some d /\ nth (Z.to_nat d) ($"0123456789ABCDEF") NUL <> "034"%char.
Proof.
  intros Hd. assert (In d (map Z.of_nat (seq 0 16))) as H by (apply in_map_iff; exists (Z.to_nat d); split; [lia|apply in_seq; lia]).
  cbn in H. repeat (destruct H as [<-|H]; [split; [reflexivity|discriminate]|]). contradiction.
Qed.

Lemma hex_width_small z : 0 <= z < 65536 -> (hex_width 8 z <= 4)%nat.
Proof.
  intros Hz. cbn [hex_width]. destruct (Z.ltb_spec z 16); [lia|]. destruct (Z.ltb_spec (z / 16) 16); [lia|].
  destruct (Z.ltb_spec (z / 16 / 16) 16); [lia|]. destruct (Z.ltb_spec (z / 16 / 16 / 16) 16); [lia|]. Z.to_euclidean_division_equations. lia.
Qed.

Lemma point_read z rest : 0 <= z < 65536 ->
  read_points (escape_point z ++ rest) = (l ← read_points rest; Some (z :: l)) /\ ~ In "034"%char (escape_point z).
Proof.
  intros Hz. unfold escape_point. rewrite Nat.max_l by (now apply hex_width_small). cbn [hex_upper app take read_points andb Ascii.eqb].
  set (dg := fun d => nth (Z.to_nat d) ($"0123456789ABCDEF") NUL).
  assert (forall y, hex_value (dg (y mod 16)) = Some (y mod 16) /\ dg (y mod 16) <> "034"%char) as Hd by (intros y; apply upper_digit, Z.mod_pos_bound; lia).
  destruct (Hd z) as [E0 N0], (Hd (z / 16)) as [E1 N1], (Hd (z / 16 / 16)) as [E2 N2], (Hd (z / 16 / 16 / 16)) as [E3 N3]. unfold dg in *. split.
  - rewrite E3, E2, E1, E0. cbn [mbind option_bind]. destruct (read_points rest); [|reflexivity]. cbn [mbind option_bind]. do 2 f_equal.
    Z.to_euclidean_division_equations. lia.
  - cbn [In]. intuition discriminate.
Qed.

(** The text of a message arrives.  A text of valid UTF-8 whose code points are
    below 0x10000 is written as escapes that can be read back to its code points;
    no quote of a text ends the string it is put into. *)
Theorem message_readable (points : cstring -> list Z * bool) (source : cstring) (l : list Z) :
  points source = (l, false) -> Forall (fun z => 0 <= z < 65536) l ->
  read_points (parse_unescape points source) = Some l /\ ~ In "034"%char (parse_unescape points source).
Proof.
  intros Hp Hl. unfold parse_unescape. rewrite Hp, app_nil_r. clear Hp. induction Hl as [|z l Hz _ [IH1 IH2]]; [split; [reflexivity|intros []]|].
  cbn [map concat]. destruct (point_read z (concat (map escape_point l)) Hz) as [E N]. rewrite E, IH1. split; [reflexivity|].
  intros Hin. apply in_app_or in Hin as [Hin|Hin]; [now apply N|now apply IH2].
Qed.

(** ** Examples *)

(** Bytes as code points. *)
Definition ascii_points (s : cstring) : list Z * bool := (map uchar s, false).

Lemma messages_delivered_witness :
  let s := run_sender ascii_points ($"77") (map Push [GroupMsg ($"5") ($"a") 1; GroupMsg ($"5") ($"b") 2] ++ turn ++ turn)
             (group_message_sender_op LWQQ_STATUS_ONLINE ($"ps") 10) in
  map fst (sent s) = [GroupMsg ($"5") ($"a") 1; GroupMsg ($"5") ($"b") 2] /\ told s = [(1, None); (2, None)].
Proof.
  destruct (messages_delivered ascii_points ($"77") ($"ps") 10 (GroupMsg ($"5") ($"a") 1) [GroupMsg ($"5") ($"b") 2]) as (H1 & H2 & _ & _);
    [discriminate|cbn; lia|].
  split; [|exact H2]. etransitivity; [apply (f_equal (map fst) H1)|]. apply bodies_msgs.
Defined.

Lemma message_readable_witness : read_points (parse_unescape ascii_points (dq ($"say 'x'"))) = Some (map uchar (dq ($"say 'x'"))).
Proof.
  apply (message_readable ascii_points (dq ($"say 'x'")) (map uchar (dq ($"say 'x'")))); [reflexivity|].
  apply List.Forall_forall. intros z Hz. apply in_map_iff in Hz as (c & <- & _). pose proof (uchar_range c). lia.
Defined.
