(* ===== verification/WebqqSession.v ===== *)
(** The session of the WebQQ client: the check before a login
    (webqq_check_login.hpp, webqq_verify_image.hpp), the steps of a login that make
    the session (webqq_login.hpp, webqq_vfwebqq.hpp, webqq_status.hpp), and the
    cookies that keep it for the next start (webqq_loop.cpp).

    An answer of the server is its text, whether it failed, and the cookies that
    came with it; a JSON text is its tree.  The regular expressions are the class
    [RegexEngine], the time is that of the class [Platform]. *)

From S2P Require Import Prelude CLib OrdMap PTree Regex Irc Avbot BuddyMgr Cookie CookieStore CookieFacts WebqqPoll WebqqCodec WebqqLoop.

(** ** State *)

Record session : Type := Session {
  ss_status : LWQQ_STATUS; m_version : cstring; ss_clientid : cstring; ss_psessionid : cstring; m_vfwebqq : cstring; m_myself_uin : cstring;
  m_login_sig : cstring; verifycode_uin : cstring; ss_groups : list (cstring * cstring); m_cookie_mgr : list cookie_row
}.

Definition set_cookies (db : list cookie_row) (s : session) : session :=
  Session (ss_status s) (m_version s) (ss_clientid s) (ss_psessionid s) (m_vfwebqq s) (m_myself_uin s) (m_login_sig s) (verifycode_uin s) (ss_groups s) db.
Definition set_version (v : cstring) (s : session) : session :=
  Session (ss_status s) v (ss_clientid s) (ss_psessionid s) (m_vfwebqq s) (m_myself_uin s) (m_login_sig s) (verifycode_uin s) (ss_groups s) (m_cookie_mgr s).
Definition set_login_sig (g : cstring) (s : session) : session :=
  Session (ss_status s) (m_version s) (ss_clientid s) (ss_psessionid s) (m_vfwebqq s) (m_myself_uin s) g (verifycode_uin s) (ss_groups s) (m_cookie_mgr s).
Definition set_verify_uin (u : cstring) (s : session) : session :=
  Session (ss_status s) (m_version s) (ss_clientid s) (ss_psessionid s) (m_vfwebqq s) (m_myself_uin s) (m_login_sig s) u (ss_groups s) (m_cookie_mgr s).
Definition set_clientid (c : cstring) (s : session) : session :=
  Session (ss_status s) (m_version s) c (ss_psessionid s) (m_vfwebqq s) (m_myself_uin s) (m_login_sig s) (verifycode_uin s) (ss_groups s) (m_cookie_mgr s).
(** The members a login sets. *)
Definition set_online (ps vf uin : cstring) (s : session) : session :=
  Session LWQQ_STATUS_ONLINE (m_version s) (ss_clientid s) ps vf uin (m_login_sig s) (verifycode_uin s) (ss_groups s) (m_cookie_mgr s).
(** What the check before a login clears. *)
Definition clear_session (s : session) : session :=
  Session LWQQ_STATUS_OFFLINE (m_version s) [] [] [] (m_myself_uin s) (m_login_sig s) (verifycode_uin s) [] (m_cookie_mgr s).

(** A session cookie of the client itself. *)
Definition remember (n v : cstring) (s : session) : session :=
  set_cookies (save_cookie ($"psession.qq.com") ($"/") n v ($"session") (m_cookie_mgr s)) s.

(** ** The check before a login *)

Definition ptuiV_re : regex := lit ($"ptuiV(") (Seq (Group (Star isdigit)) (lit ($")") (Chr (fun c => c =c ";")))).
Definition blanks : regex := Star (fun c => c =c " ").
Definition encoded_part : regex :=
  lit ($"encodeURIComponent(") (Seq (Chr (fun c => c =c "034")) (Seq (Group (Star (not_char "034")))
    (Seq (Chr (fun c => c =c "034")) (lit ($")") (Chr (fun c => c =c ";")))))).
Definition login_sig_re : regex := lit ($"g_login_sig") (Seq blanks (lit ($"=") (Seq blanks encoded_part))).
Definition login_sig_re2 : regex := lit ($"g_login_sig=") encoded_part.

Definition is_vc_char (c : ascii) : bool := isalnum c || (c =c "!").
Definition is_vc_char2 (c : ascii) : bool := is_vc_char c || (c =c "_") || (c =c "-").
Definition is_uin_char (c : ascii) : bool := isalnum c || (c =c "\").
Definition opt_blank (r : regex) : regex := Seq (Opt (Chr (fun c => c =c " "))) r.
Definition apostrophes (a r : regex) : regex := lit ($"'") (Seq (Group a) (lit ($"'") r)).
Definition apostrophes_end (a : regex) : regex := lit ($"'") (Seq (Group a) (Chr (fun c => c =c "'"))).
Definition checkVC_re : regex :=
  lit ($"ptui_checkVC(") (apostrophes (Chr isdigit) (lit ($",") (opt_blank (apostrophes (Star is_vc_char)
    (lit ($",") (opt_blank (apostrophes_end (Star is_uin_char)))))))).
Definition checkVC_re2 : regex :=
  lit ($"ptui_checkVC(") (apostrophes (Chr isdigit) (lit ($",") (apostrophes (Star is_vc_char2)
    (lit ($",") (apostrophes_end (Star is_uin_char)))))).

Inductive check_point : Type :=
| GoHome | GetVersion | GetLoginSig | GetCheckVC | GetImage | CheckedOut (ec : option webqq_error) (vc : cstring) | ImageAssert.

Definition fetch_verifycode_failed : webqq_error := other_error 1001.
Definition failed_to_change_status : webqq_error := other_error 1002.

Section Session.
Context {E : RegexEngine} `{P : Platform}.
Variable ptime_text : ptime -> cstring.
(** Whether [BOOST_ASSERT] is active. *)
Variable image_asserts : bool.

Record reply : Type := Reply { re_text : cstring; re_failed : bool; re_cookies : cookies; re_host : cstring }.

(** [save_cookie] of a stream. *)
Definition save_stream (a : reply) (s : session) : session := set_cookies (save_cookies ptime_text (re_cookies a) (re_host a) (m_cookie_mgr s)) s.

(** The group of the first expression that is found. *)
Definition find_sig (text : cstring) : option cstring :=
  match regex_search login_sig_re text with
  | Some (_, _, what) => Some (sub_match what 0)
  | None => match regex_search login_sig_re2 text with Some (_, _, what) => Some (sub_match what 0) | None => None end
  end.
Definition find_vc (text : cstring) : option captures :=
  match regex_search checkVC_re text with
  | Some (_, _, what) => Some what
  | None => match regex_search checkVC_re2 text with Some (_, _, what) => Some what | None => None end
  end.

Definition on_check_vc (a : reply) (s : session) : check_point * session :=
  match find_vc (re_text a) with
  | Some what =>
      let vc := sub_match what 1 in
      let s := set_verify_uin (sub_match what 2) s in
      if str_eqb (sub_match what 0) ($"0") then (CheckedOut None vc, save_stream a s)
      else if str_eqb (sub_match what 0) ($"1") then
        if image_asserts && negb (8 <? length vc)%nat then (ImageAssert, s) else (GetImage, s)
      else (CheckedOut (Some (other_error 9)) [], s)
  | None => (CheckedOut (Some (other_error 9)) [], s)
  end.

Definition check_login_step (a : reply) (p : check_point) (s : session) : check_point * session :=
  match p with
  | GoHome => (GetVersion, save_stream a s)
  | GetVersion =>
      (GetLoginSig, clear_session (match regex_search ptuiV_re (re_text a) with Some (_, _, what) => set_version (sub_match what 0) s | None => s end))
  | GetLoginSig => (GetCheckVC, match find_sig (re_text a) with Some g => set_login_sig g s | None => s end)
  | GetCheckVC => on_check_vc a s
  | GetImage => (CheckedOut (Some (if re_failed a then fetch_verifycode_failed else login_check_need_vc)) (re_text a), save_stream a s)
  | CheckedOut _ _ | ImageAssert => (p, s)
  end.
Definition run_check (l : list reply) (ps : check_point * session) : check_point * session :=
  fold_left (fun ps a => check_login_step a (fst ps) (snd ps)) l ps.

(** ** The steps of a login *)

(** The client number, behind the redirections. *)
Definition make_clientid (generated : cstring) (s : session) : session :=
  match ss_clientid s with [] => remember ($"clientid") generated (set_clientid generated s) | _ => s end.

(** [update_vfwebqq_op]; [None] as tree: the text is not JSON. *)
Definition vfwebqq_received (failed : bool) (json : option ptree) (s : session) : session * option webqq_error :=
  match failed, json with
  | false, Some t =>
      match pt_get ($"retcode") t, pt_get ($"result.vfwebqq") t with
      | Some r, Some vf =>
          if str_eqb r ($"0") then (remember ($"vfwebqq") vf (set_online (ss_psessionid s) vf (m_myself_uin s) s), None) else (s, Some failed_to_change_status)
      | _, _ => (s, Some failed_to_change_status)
      end
  | _, _ => (s, Some failed_to_change_status)
  end.

(** [change_status_op]: a path that is missing leaves what was set before it. *)
Definition status_received (failed : bool) (json : option ptree) (s : session) : session * option webqq_error :=
  match failed, json with
  | false, Some t =>
      if str_eqb (default [] (pt_get ($"retcode") t)) ($"0") then
        match pt_get ($"result.psessionid") t, pt_get ($"result.vfwebqq") t, pt_get ($"result.uin") t with
        | None, _, _ => (s, Some failed_to_change_status)
        | Some ps, None, _ =>
            (Session (ss_status s) (m_version s) (ss_clientid s) ps (m_vfwebqq s) (m_myself_uin s) (m_login_sig s) (verifycode_uin s) (ss_groups s)
               (m_cookie_mgr s), Some failed_to_change_status)
        | Some ps, Some vf, None =>
            (Session (ss_status s) (m_version s) (ss_clientid s) ps vf (m_myself_uin s) (m_login_sig s) (verifycode_uin s) (ss_groups s)
               (m_cookie_mgr s), Some failed_to_change_status)
        | Some ps, Some vf, Some uin =>
            (remember ($"uin") uin (remember ($"psessionid") ps (remember ($"vfwebqq") vf (set_online ps vf uin s))), None)
        end
      else (s, Some failed_to_change_status)
  | _, _ => (s, Some failed_to_change_status)
  end.

(** ** The next start *)

(** The constructor of the main loop reads the session from the cookies. *)
Definition load_session (s : session) : result sql_fault session :=
  j ← get_cookie ($"psession.qq.com") ($"/") (m_cookie_mgr s);
  let c := get_value ($"clientid") j in
  Ok (Session (match c with [] => LWQQ_STATUS_OFFLINE | _ => LWQQ_STATUS_ONLINE end) (m_version s) c (get_value ($"psessionid") j) (get_value ($"vfwebqq") j)
        (m_myself_uin s) (m_login_sig s) (verifycode_uin s) (ss_groups s) (m_cookie_mgr s)).
End Session.

(** ** Cookies of the session *)

Section Facts.
Context {E : RegexEngine} `{P : Platform}.
Variable ptime_text : ptime -> cstring.
Variable image_asserts : bool.

Abbreviation own_host := ($"psession.qq.com").
Abbreviation own_rows db := (covering own_host ($"/") db).

(** No other cookie that the host gets has this name. *)
Definition own_name (n : cstring) (db : list cookie_row) : Prop :=
  forall r, In r (own_rows db) -> c_str (ck_name r) = n -> row_key r = (own_host, $"/", n).

Lemma own_subset n (f : cookie_row -> bool) db : own_name n db -> own_name n (List.filter f db).
Proof.
  intros H r Hr. apply H. unfold covering in *. apply filter_In in Hr as [Hr Hc]. apply filter_In in Hr as [Hr _]. apply filter_In. now split.
Qed.

Lemma own_save n n' v db : c_str n' = n' -> own_name n db -> own_name n (save_cookie own_host ($"/") n' v ($"session") db).
Proof.
  intros Hn' H r Hr Hn. unfold save_cookie, delete_cookie, delete_rows, covering in Hr. rewrite List.filter_app in Hr. apply in_app_or in Hr as [Hr|Hr].
  - now apply (own_subset n (fun r => negb (has_key own_host ($"/") n' r)) db H r).
  - apply filter_In in Hr as [[<-|[]] _]. cbn in Hn |- *. now rewrite <- Hn, Hn'.
Qed.

Lemma jar_value n db j : get_cookie own_host ($"/") db = Ok j -> (length (own_rows db) <= 100)%nat ->
  get_value n j = match List.find (fun r => str_eqb (c_str (ck_name r)) n && negb (str_eqb (c_str (ck_value r)) [])) (own_rows db) with
                  | Some r => c_str (ck_value r)
                  | None => []
                  end.
Proof.
  unfold get_cookie. change (forallb sql_text _ && forallb sql_text _) with true. cbv iota. intros Hj Hl.
  assert (j = fold_left (fun j r => add_pair (c_str (ck_name r)) (c_str (ck_value r)) j) (take 100 (own_rows db)) new_cookies) as -> by (unfold covering; congruence).
  rewrite take_ge by exact Hl. clear Hj Hl. generalize (own_rows db). clear. intros l.
  assert (forall l j, m_cookies (fold_left (fun j r => add_pair (c_str (ck_name r)) (c_str (ck_value r)) j) l j)
            = m_cookies j ++ map (fun r => with_pair (c_str (ck_name r)) (c_str (ck_value r)) new_cookie) l) as Em.
  { clear. induction l as [|r l IH]; intros j; cbn [fold_left map]; [now rewrite app_nil_r|]. rewrite IH. cbn. now rewrite <- app_assoc. }
  unfold get_value. rewrite Em. cbn [m_cookies new_cookies app]. induction l as [|r l IH]; [reflexivity|]. cbn [map List.find name value with_pair].
  destruct (str_eqb (c_str (ck_name r)) n && negb (str_eqb (c_str (ck_value r)) [])); [reflexivity|exact IH].
Qed.

Lemma value_kept n v e db j : get_cookie own_host ($"/") db = Ok j -> (length (own_rows db) <= 100)%nat -> unique_keys db -> own_name n db ->
  c_str n = n -> c_str v = v -> v <> [] -> stored db (own_host, $"/", n) = Some (v, e) -> get_value n j = v.
Proof.
  intros Hj Hl Hu Ho Hn Hv Hne Hs. rewrite (jar_value n db j Hj Hl). apply stored_row in Hs as (r & Hr & Hk & <- & _); [|exact Hu].
  assert (In r (own_rows db)) as Hc.
  { apply filter_In. split; [exact Hr|]. injection Hk as E1 E2 _. unfold in_domains, in_paths. rewrite E1, E2. reflexivity. }
  assert (ck_name r = n) as E3 by exact (f_equal snd Hk). destruct (List.find _ (own_rows db)) as [r'|] eqn:Ef.
  - apply List.find_some in Ef as [Hr' Hp]. apply andb_true_iff in Hp as [Hp _]. apply str_eqb_eq in Hp. pose proof (Ho r' Hr' Hp) as Hk'.
    apply filter_In in Hr' as [Hr' _]. pose proof (find_unique _ r' db Hu Hr' Hk') as F1.
    rewrite (find_unique _ r db Hu Hr Hk) in F1. injection F1 as <-. exact Hv.
  - pose proof (List.find_none _ _ Ef r Hc) as Hx. cbn beta in Hx. rewrite E3, Hn, str_eqb_refl, Hv in Hx. apply negb_false_iff, str_eqb_eq in Hx. contradiction.
Qed.

Lemma value_gone n db j : get_cookie own_host ($"/") db = Ok j -> (length (own_rows db) <= 100)%nat -> unique_keys db -> own_name n db ->
  stored db (own_host, $"/", n) = None -> get_value n j = [].
Proof.
  intros Hj Hl Hu Ho Hs. rewrite (jar_value n db j Hj Hl). destruct (List.find _ (own_rows db)) as [r|] eqn:Ef; [|reflexivity].
  apply List.find_some in Ef as [Hr Hp]. apply andb_true_iff in Hp as [Hp _]. apply str_eqb_eq in Hp. pose proof (Ho r Hr Hp) as Hk.
  apply filter_In in Hr as [Hr _]. unfold stored in Hs. now rewrite (find_unique _ r db Hu Hr Hk) in Hs.
Qed.

Lemma filter_filter_length {A} (f g : A -> bool) l : (length (List.filter f (List.filter g l)) <= length (List.filter f l))%nat.
Proof. induction l as [|x l IH]; [cbn; lia|]. cbn. destruct (g x); cbn; destruct (f x); cbn; lia. Qed.

Lemma like_any s : like ["%"%char] s = true.
Proof. induction s as [|c s IH]; [reflexivity|exact IH]. Qed.

(** What a login needs for the next start. *)
Record session_answer (t : ptree) (ps vf uin : cstring) : Prop := SessionAnswer {
  sa_retcode : pt_get ($"retcode") t = Some ($"0");
  sa_psessionid : pt_get ($"result.psessionid") t = Some ps;
  sa_vfwebqq : pt_get ($"result.vfwebqq") t = Some vf;
  sa_uin : pt_get ($"result.uin") t = Some uin
}.

Definition plain_value (v : cstring) : Prop := v <> [] /\ c_str v = v.
Definition store_ready (db : list cookie_row) : Prop :=
  unique_keys db /\ own_name ($"clientid") db /\ own_name ($"psessionid") db /\ own_name ($"vfwebqq") db.

Lemma ready_save n v db : c_str n = n -> store_ready db -> store_ready (save_cookie own_host ($"/") n v ($"session") db).
Proof. intros Hn (H1 & H2 & H3 & H4). split; [now apply save_unique|]. split; [|split]; now apply own_save. Qed.

(** The cookies behind a login. *)
Definition session_store (c ps vf uin : cstring) (db : list cookie_row) : list cookie_row :=
  save_cookie own_host ($"/") ($"uin") uin ($"session") (save_cookie own_host ($"/") ($"psessionid") ps ($"session")
    (save_cookie own_host ($"/") ($"vfwebqq") vf ($"session") (save_cookie own_host ($"/") ($"clientid") c ($"session") db))).

Lemma session_store_values c ps vf uin db : store_ready db ->
  let db' := session_store c ps vf uin db in
  store_ready db' /\ stored db' (own_host, $"/", $"clientid") = Some (c, $"session")
  /\ stored db' (own_host, $"/", $"psessionid") = Some (ps, $"session") /\ stored db' (own_host, $"/", $"vfwebqq") = Some (vf, $"session").
Proof.
  intros H db'. split; [now repeat (apply ready_save; [reflexivity|])|]. unfold db', session_store. rewrite !stored_save.
  now repeat split.
Qed.

Lemma get_cookie_ok db : exists j, get_cookie own_host ($"/") db = Ok j.
Proof. unfold get_cookie. change (forallb sql_text _ && forallb sql_text _) with true. cbv iota. eauto. Qed.

Lemma login_session c ps vf uin t s :
  ss_clientid s = [] -> session_answer t ps vf uin ->
  let '(s2, ec) := status_received false (Some t) (make_clientid c s) in
  ec = None /\ ss_status s2 = LWQQ_STATUS_ONLINE /\ m_cookie_mgr s2 = session_store c ps vf uin (m_cookie_mgr s).
Proof.
  intros Hc [H1 H2 H3 H4]. unfold status_received. rewrite H1, H2, H3, H4. change (str_eqb (default [] (Some ($"0"))) ($"0")) with true. cbv iota.
  unfold make_clientid. rewrite Hc. now repeat split.
Qed.

Lemma session_dropped c s2 :
  unique_keys (m_cookie_mgr s2) -> own_name ($"clientid") (m_cookie_mgr s2) -> (length (own_rows (m_cookie_mgr s2)) <= 100)%nat ->
  stored (m_cookie_mgr s2) (own_host, $"/", $"clientid") = Some (c, $"session") ->
  exists db s4, drop_session [] (m_cookie_mgr s2) = Ok db /\ load_session (set_cookies db s2) = Ok s4 /\ ss_status s4 = LWQQ_STATUS_OFFLINE
     /\ outputs (step_loop Posted (webqq_main_loop_op (ss_clientid s4))) = [DropSession; StartCheck].
Proof.
  intros Hu Ho Hl Hv. unfold drop_session. change (no_quote []) with true. cbv iota. set (db := delete_rows _ _). destruct (get_cookie_ok db) as [j Ej].
  assert (get_value ($"clientid") j = []) as Eg.
  { apply (value_gone _ db j Ej).
    - etransitivity; [apply filter_filter_length|exact Hl].
    - now apply filter_unique.
    - now apply own_subset.
    - unfold db, delete_rows. rewrite stored_filter by exact Hu. unfold stored in Hv. destruct (List.find _ (m_cookie_mgr s2)) as [r|]; [|reflexivity].
      assert (expiration r = $"session") as -> by congruence. now rewrite str_eqb_refl, like_any. }
  exists db. unfold load_session. cbn [m_cookie_mgr set_cookies]. rewrite Ej. cbn [mbind result_bind]. rewrite Eg. eexists. split; [reflexivity|]. now split.
Qed.

(** C13: a session outlives the program.  When a login succeeds, the numbers of the
    session are in the store of cookies, and the next start finds them there: the
    client is online and polls without a login.  When the session is dropped, the
    next start checks the login instead. *)
Theorem session_resumed (c ps vf uin : cstring) (t : ptree) (s : session) :
  plain_value c -> plain_value ps -> plain_value vf -> ss_clientid s = [] -> session_answer t ps vf uin -> store_ready (m_cookie_mgr s) ->
  (length (own_rows (session_store c ps vf uin (m_cookie_mgr s))) <= 100)%nat ->
  let s2 := fst (status_received false (Some t) (make_clientid c s)) in
  (exists s3, load_session s2 = Ok s3 /\ ss_status s3 = LWQQ_STATUS_ONLINE /\ ss_clientid s3 = c /\ ss_psessionid s3 = ps /\ m_vfwebqq s3 = vf
     /\ outputs (step_loop Posted (webqq_main_loop_op (ss_clientid s3))) = [StartPoll])
  /\ exists db s4, drop_session [] (m_cookie_mgr s2) = Ok db /\ load_session (set_cookies db s2) = Ok s4 /\ ss_status s4 = LWQQ_STATUS_OFFLINE
     /\ outputs (step_loop Posted (webqq_main_loop_op (ss_clientid s4))) = [DropSession; StartCheck].
Proof.
  intros [Hc Hc'] [Hp Hp'] [Hv Hv'] Hs Ht Hr Hl s2. pose proof (login_session c ps vf uin t s Hs Ht) as Hlogin. subst s2.
  destruct (status_received false (Some t) (make_clientid c s)) as [s2 ec]. destruct Hlogin as (_ & _ & Hm). cbn [fst].
  destruct (session_store_values c ps vf uin _ Hr) as ((Hu & O1 & O2 & O3) & V1 & V2 & V3). rewrite <- Hm in *. split.
  - unfold load_session. destruct (get_cookie_ok (m_cookie_mgr s2)) as [j Ej]. rewrite Ej. cbn [mbind result_bind].
    rewrite (value_kept _ _ _ _ _ Ej Hl Hu O1 eq_refl Hc' Hc V1), (value_kept _ _ _ _ _ Ej Hl Hu O2 eq_refl Hp' Hp V2),
      (value_kept _ _ _ _ _ Ej Hl Hu O3 eq_refl Hv' Hv V3).
    eexists. split; [reflexivity|]. destruct c as [|x c]; [congruence|]. now repeat split.
  - now apply (session_dropped c).
Qed.

End Facts.

(** ** The check

    The two forms of an answer, as the comment in webqq_check_login.hpp shows them:
    one allows a blank behind each comma, the other the signs [_] and [-] in the
    code. *)

Definition plain_answer (text : cstring) (d : ascii) (vc uin : cstring) : Prop :=
  exists b1 b2 rest, text = $"ptui_checkVC('" ++ [d] ++ $"'," ++ b1 ++ $"'" ++ vc ++ $"'," ++ b2 ++ $"'" ++ uin ++ $"'" ++ rest
    /\ (b1 = [] \/ b1 = $" ") /\ (b2 = [] \/ b2 = $" ") /\ isdigit d = true
    /\ Forall (fun c => isalnum c || (c =c "!") = true) vc /\ Forall (fun c => isalnum c || (c =c "\") = true) uin.
Definition signed_answer (text : cstring) (d : ascii) (vc uin : cstring) : Prop :=
  exists rest, text = $"ptui_checkVC('" ++ [d] ++ $"','" ++ vc ++ $"','" ++ uin ++ $"'" ++ rest
    /\ isdigit d = true /\ Forall (fun c => isalnum c || (c =c "!") || (c =c "_") || (c =c "-") = true) vc
    /\ Forall (fun c => isalnum c || (c =c "\") = true) uin.

(** An answer of this form is in the text, and none begins before it. *)
Definition first_answer (form : cstring -> ascii -> cstring -> cstring -> Prop) (text : cstring) (d : ascii) (vc uin : cstring) : Prop :=
  exists i, form (drop i text) d vc uin /\ forall j d' vc' uin', (j < i)%nat -> ~ form (drop j text) d' vc' uin'.
Definition no_answer (form : cstring -> ascii -> cstring -> cstring -> Prop) (text : cstring) : Prop :=
  forall i d vc uin, ~ form (drop i text) d vc uin.

Section Check.
Context {E : RegexEngine} {EL : RegexLaws E} `{P : Platform}.
Variable ptime_text : ptime -> cstring.
Variable image_asserts : bool.

Lemma quoted_unique p (a a' x x' : cstring) : p "'"%char = false ->
  Forall (fun c => p c = true) a -> Forall (fun c => p c = true) a' -> a ++ $"'" ++ x = a' ++ $"'" ++ x' -> a = a' /\ x = x'.
Proof.
  intros Hq Ha. revert a'. induction Ha as [|c a Hc Ha IH]; intros a' Ha'; destruct Ha' as [|c' a' Hc' Ha']; intros Heq.
  - now injection Heq.
  - injection Heq as <- _. congruence.
  - injection Heq as -> _. congruence.
  - injection Heq as <- Heq. destruct (IH a' Ha' Heq) as [-> ->]. now split.
Qed.

Lemma blank_unique (b b' x x' : cstring) :
  (b = [] \/ b = $" ") -> (b' = [] \/ b' = $" ") -> b ++ $"'" ++ x = b' ++ $"'" ++ x' -> x = x'.
Proof. intros [->| ->] [->| ->]; intros Heq; [now injection Heq|discriminate|discriminate|now injection Heq]. Qed.

Lemma plain_unique text d vc uin d' vc' uin' :
  plain_answer text d vc uin -> plain_answer text d' vc' uin' -> d = d' /\ vc = vc' /\ uin = uin'.
Proof.
  intros (b1 & b2 & r & -> & B1 & B2 & _ & Hv & Hu) (b1' & b2' & r' & Heq & B1' & B2' & _ & Hv' & Hu').
  apply app_inv_head in Heq. injection Heq as -> Heq. apply blank_unique in Heq; [|assumption..].
  change ($"'," ++ b2 ++ $"'" ++ uin ++ $"'" ++ r) with ($"'" ++ $"," ++ b2 ++ $"'" ++ uin ++ $"'" ++ r) in Heq.
  change ($"'," ++ b2' ++ $"'" ++ uin' ++ $"'" ++ r') with ($"'" ++ $"," ++ b2' ++ $"'" ++ uin' ++ $"'" ++ r') in Heq.
  apply (quoted_unique _ _ _ _ _ eq_refl Hv Hv') in Heq as [-> Heq]. injection Heq as Heq. apply blank_unique in Heq; [|assumption..].
  now apply (quoted_unique _ _ _ _ _ eq_refl Hu Hu') in Heq as [-> _].
Qed.

Lemma signed_unique text d vc uin d' vc' uin' :
  signed_answer text d vc uin -> signed_answer text d' vc' uin' -> d = d' /\ vc = vc' /\ uin = uin'.
Proof.
  intros (r & -> & _ & Hv & Hu) (r' & Heq & _ & Hv' & Hu').
  apply app_inv_head in Heq. injection Heq as -> Heq.
  change ($"','" ++ uin ++ $"'" ++ r) with ($"'" ++ $",'" ++ uin ++ $"'" ++ r) in Heq.
  change ($"','" ++ uin' ++ $"'" ++ r') with ($"'" ++ $",'" ++ uin' ++ $"'" ++ r') in Heq.
  apply (quoted_unique _ _ _ _ _ eq_refl Hv Hv') in Heq as [-> Heq]. injection Heq as Heq.
  now apply (quoted_unique _ _ _ _ _ eq_refl Hu Hu') in Heq as [-> _].
Qed.

(** Parses of the parts of the two expressions. *)
Lemma parses_apostrophes a r t c : parses (apostrophes a r) t c <->
  exists t1 t2 c1 c2, t = $"'" ++ t1 ++ $"'" ++ t2 /\ c = Some t1 :: c1 ++ c2 /\ parses a t1 c1 /\ parses r t2 c2.
Proof.
  unfold apostrophes. split.
  - intros H. apply parses_lit in H as (t' & -> & H). apply parses_seq_inv in H as (t1 & t2 & c1 & c2 & -> & -> & H1 & H2).
    inversion H1 as [| | | | | |a' s c' H1']; subst. apply parses_lit in H2 as (t3 & -> & H2). now exists t1, t3, c', c2.
  - intros (t1 & t2 & c1 & c2 & -> & -> & H1 & H2). apply parses_lit_text.
    change (Some t1 :: c1 ++ c2) with ((Some t1 :: c1) ++ c2). apply parses_seq; [now constructor|now apply parses_lit_text].
Qed.

Lemma parses_apostrophes_end a t c : parses (apostrophes_end a) t c <->
  exists t1 c1, t = $"'" ++ t1 ++ $"'" /\ c = Some t1 :: c1 /\ parses a t1 c1.
Proof.
  unfold apostrophes_end. split.
  - intros H. apply parses_lit in H as (t' & -> & H). apply parses_seq_inv in H as (t1 & t2 & c1 & c2 & -> & -> & H1 & H2).
    inversion H1 as [| | | | | |a' s c' H1']; subst. inversion H2 as [p x Hx| | | | | |]; subst. apply Ascii.eqb_eq in Hx as ->.
    exists t1, c'. now rewrite app_nil_r.
  - intros (t1 & c1 & -> & -> & H1). apply parses_lit_text. rewrite <- (app_nil_r (Some t1 :: c1)).
    apply parses_seq; [now constructor|]. constructor. reflexivity.
Qed.

Lemma parses_opt_blank r t c : parses (opt_blank r) t c <-> exists b t', t = b ++ t' /\ (b = [] \/ b = $" ") /\ parses r t' c.
Proof.
  unfold opt_blank. split.
  - intros H. apply parses_seq_inv in H as (t1 & t2 & c1 & c2 & -> & -> & H1 & H2). inversion H1 as [| | | |a s c' H1'|a|]; subst.
    + inversion H1' as [p x Hx| | | | | |]; subst. apply Ascii.eqb_eq in Hx as ->. exists ($" "), t2. auto.
    + exists [], t2. auto.
  - intros (b & t' & -> & Hb & H). change c with ([] ++ c). apply parses_seq; [|exact H]. destruct Hb as [->| ->].
    + exact (parses_none (Chr (fun c => c =c " "))).
    + constructor. now constructor.
Qed.

Lemma parses_chr_inv p t c : parses (Chr p) t c <-> exists x, t = [x] /\ c = [] /\ p x = true.
Proof. split; [intros H; inversion H; subst; eauto|intros (x & -> & -> & Hx); now constructor]. Qed.

Lemma parses_star_inv p t c : parses (Star p) t c <-> c = [] /\ Forall (fun x => p x = true) t.
Proof. split; [intros H; inversion H; now subst|intros [-> Hx]; now constructor]. Qed.

Lemma lit_parses s r t c : parses (lit s r) t c <-> exists t', t = s ++ t' /\ parses r t' c.
Proof. split; [apply parses_lit|intros (t' & -> & H); now apply parses_lit_text]. Qed.

(** The expressions are the forms. *)
Definition vc_captures (d : ascii) (vc uin : cstring) : captures := [Some [d]; Some vc; Some uin].

Lemma checkVC_form t c : parses checkVC_re t c -> exists d vc uin, c = vc_captures d vc uin /\ forall rest, plain_answer (t ++ rest) d vc uin.
Proof.
  unfold checkVC_re. intros H. apply lit_parses in H as (t1 & -> & H). apply parses_apostrophes in H as (d & t2 & c1 & c2 & -> & -> & H1 & H2).
  apply parses_chr_inv in H1 as (x & -> & -> & Hx). apply lit_parses in H2 as (t3 & -> & H2).
  apply parses_opt_blank in H2 as (b1 & t4 & -> & B1 & H2). apply parses_apostrophes in H2 as (vc & t5 & c3 & c4 & -> & -> & H3 & H4).
  apply parses_star_inv in H3 as [-> Hv]. apply lit_parses in H4 as (t6 & -> & H4). apply parses_opt_blank in H4 as (b2 & t7 & -> & B2 & H4).
  apply parses_apostrophes_end in H4 as (uin & c5 & -> & -> & H4). apply parses_star_inv in H4 as [-> Hu].
  exists x, vc, uin. split; [reflexivity|]. intros rest. exists b1, b2, rest. split; [|now repeat split]. rewrite <- !app_assoc. reflexivity.
Qed.

Lemma form_checkVC s d vc uin : plain_answer s d vc uin -> exists t rest, s = t ++ rest /\ parses checkVC_re t (vc_captures d vc uin).
Proof.
  intros (b1 & b2 & rest & -> & B1 & B2 & Hd & Hv & Hu).
  exists ($"ptui_checkVC('" ++ [d] ++ $"'," ++ b1 ++ $"'" ++ vc ++ $"'," ++ b2 ++ $"'" ++ uin ++ $"'"), rest.
  split; [now rewrite <- !app_assoc|]. apply lit_parses. eexists. split; [reflexivity|]. apply parses_apostrophes.
  exists [d], ($"," ++ b1 ++ $"'" ++ vc ++ $"'," ++ b2 ++ $"'" ++ uin ++ $"'"), [], [Some vc; Some uin].
  split; [reflexivity|]. split; [reflexivity|]. split; [now constructor|]. apply lit_parses. eexists. split; [reflexivity|].
  apply parses_opt_blank. exists b1. eexists. split; [reflexivity|]. split; [exact B1|]. apply parses_apostrophes.
  exists vc, ($"," ++ b2 ++ $"'" ++ uin ++ $"'"), [], [Some uin].
  split; [reflexivity|]. split; [reflexivity|]. split; [now constructor|]. apply lit_parses. eexists. split; [reflexivity|].
  apply parses_opt_blank. exists b2. eexists. split; [reflexivity|]. split; [exact B2|]. apply parses_apostrophes_end.
  exists uin, []. split; [reflexivity|]. split; [reflexivity|]. now constructor.
Qed.

Lemma checkVC2_form t c : parses checkVC_re2 t c -> exists d vc uin, c = vc_captures d vc uin /\ forall rest, signed_answer (t ++ rest) d vc uin.
Proof.
  unfold checkVC_re2. intros H. apply lit_parses in H as (t1 & -> & H). apply parses_apostrophes in H as (d & t2 & c1 & c2 & -> & -> & H1 & H2).
  apply parses_chr_inv in H1 as (x & -> & -> & Hx). apply lit_parses in H2 as (t3 & -> & H2).
  apply parses_apostrophes in H2 as (vc & t5 & c3 & c4 & -> & -> & H3 & H4).
  apply parses_star_inv in H3 as [-> Hv]. apply lit_parses in H4 as (t6 & -> & H4).
  apply parses_apostrophes_end in H4 as (uin & c5 & -> & -> & H4). apply parses_star_inv in H4 as [-> Hu].
  exists x, vc, uin. split; [reflexivity|]. intros rest. exists rest. split; [|now repeat split]. rewrite <- !app_assoc. reflexivity.
Qed.

Lemma form_checkVC2 s d vc uin : signed_answer s d vc uin -> exists t rest, s = t ++ rest /\ parses checkVC_re2 t (vc_captures d vc uin).
Proof.
  intros (rest & -> & Hd & Hv & Hu).
  exists ($"ptui_checkVC('" ++ [d] ++ $"','" ++ vc ++ $"','" ++ uin ++ $"'"), rest.
  split; [now rewrite <- !app_assoc|]. apply lit_parses. eexists. split; [reflexivity|]. apply parses_apostrophes.
  exists [d], ($",'" ++ vc ++ $"','" ++ uin ++ $"'"), [], [Some vc; Some uin].
  split; [reflexivity|]. split; [reflexivity|]. split; [now constructor|]. apply lit_parses. eexists. split; [reflexivity|].
  apply parses_apostrophes. exists vc, ($",'" ++ uin ++ $"'"), [], [Some uin].
  split; [reflexivity|]. split; [reflexivity|]. split; [now constructor|]. apply lit_parses. eexists. split; [reflexivity|].
  apply parses_apostrophes_end. exists uin, []. split; [reflexivity|]. split; [reflexivity|]. now constructor.
Qed.

(** What a search for an expression finds is the first answer of its form. *)
Section Form.
Variable r : regex.
Variable form : cstring -> ascii -> cstring -> cstring -> Prop.
Hypothesis parse_form : forall t c, parses r t c -> exists d vc uin, c = vc_captures d vc uin /\ forall rest, form (t ++ rest) d vc uin.
Hypothesis form_parse : forall s d vc uin, form s d vc uin -> exists t rest, s = t ++ rest /\ parses r t (vc_captures d vc uin).
Hypothesis form_unique : forall s d vc uin d' vc' uin', form s d vc uin -> form s d' vc' uin' -> d = d' /\ vc = vc' /\ uin = uin'.

Lemma search_first text : match regex_search r text with
  | Some (_, _, what) => exists d vc uin, what = vc_captures d vc uin /\ first_answer form text d vc uin
  | None => no_answer form text
  end.
Proof.
  rewrite regex_search_perl. pose proof (perl_search_correct r text) as H.
  destruct (perl_search r text) as [[[b t] c]|].
  - destruct H as ((rest & ->) & Hp & Hfirst). destruct (parse_form t c Hp) as (d & vc & uin & -> & Hf).
    exists d, vc, uin. split; [reflexivity|]. exists (length b). rewrite drop_app_length. split; [apply Hf|].
    intros j d' vc' uin' Hj Hf'. destruct (form_parse _ _ _ _ Hf') as (t' & rest' & Hd & Hp').
    assert (b ++ t ++ rest = take j (b ++ t ++ rest) ++ t' ++ rest') as Heq by (rewrite <- Hd; symmetry; apply take_drop).
    specialize (Hfirst _ _ _ _ Heq Hp'). rewrite length_take in Hfirst. lia.
  - intros i d vc uin Hf. destruct (form_parse _ _ _ _ Hf) as (t' & rest' & Hd & Hp').
    apply (H (take i text) t' (vc_captures d vc uin) rest'); [|exact Hp']. rewrite <- Hd. symmetry. apply take_drop.
Qed.

Lemma first_unique text d vc uin d' vc' uin' :
  first_answer form text d vc uin -> first_answer form text d' vc' uin' -> d = d' /\ vc = vc' /\ uin = uin'.
Proof.
  intros (i & Hi & Hmin) (i' & Hi' & Hmin'). destruct (Nat.lt_trichotomy i i') as [Hl|[<-|Hl]].
  - now destruct (Hmin' i d vc uin Hl).
  - exact (form_unique _ _ _ _ _ _ _ Hi Hi').
  - now destruct (Hmin i' d' vc' uin' Hl).
Qed.

Lemma first_not_none text d vc uin : first_answer form text d vc uin -> ~ no_answer form text.
Proof. intros (i & Hi & _) Hn. exact (Hn i d vc uin Hi). Qed.

Lemma search_found text d vc uin : first_answer form text d vc uin ->
  exists b t, regex_search r text = Some (b, t, vc_captures d vc uin).
Proof.
  intros Hf. pose proof (search_first text) as H. destruct (regex_search r text) as [[[b t] c]|].
  - destruct H as (d' & vc' & uin' & -> & Hf'). destruct (first_unique _ _ _ _ _ _ _ Hf Hf') as (-> & -> & ->). now exists b, t.
  - now destruct (first_not_none _ _ _ _ Hf).
Qed.

Lemma search_none text : no_answer form text -> regex_search r text = None.
Proof.
  intros Hn. pose proof (search_first text) as H. destruct (regex_search r text) as [[[b t] c]|]; [|reflexivity].
  destruct H as (d & vc & uin & _ & Hf). now destruct (first_not_none _ _ _ _ Hf).
Qed.
End Form.

(** The answer that counts: the first of the plain form, else the first with
    signs. *)
Definition check_answer (text : cstring) (d : ascii) (vc uin : cstring) : Prop :=
  first_answer plain_answer text d vc uin \/ no_answer plain_answer text /\ first_answer signed_answer text d vc uin.

Lemma find_vc_answer text d vc uin : check_answer text d vc uin -> find_vc text = Some (vc_captures d vc uin).
Proof.
  unfold find_vc. intros [Hf|[Hn Hf]].
  - now destruct (search_found _ _ checkVC_form form_checkVC plain_unique text d vc uin Hf) as (b & t & ->).
  - rewrite (search_none _ _ checkVC_form form_checkVC text Hn).
    now destruct (search_found _ _ checkVC2_form form_checkVC2 signed_unique text d vc uin Hf) as (b & t & ->).
Qed.

Lemma find_vc_none text : no_answer plain_answer text -> no_answer signed_answer text -> find_vc text = None.
Proof.
  intros Hn Hn'. unfold find_vc. now rewrite (search_none _ _ checkVC_form form_checkVC text Hn),
    (search_none _ _ checkVC2_form form_checkVC2 text Hn').
Qed.

(** The check forgets the session, whatever the answers are. *)
Lemma check_forgets a1 a2 a3 a4 a5 s :
  let s' := snd (run_check ptime_text image_asserts [a1; a2; a3; a4; a5] (GoHome, s)) in
  ss_status s' = LWQQ_STATUS_OFFLINE /\ ss_clientid s' = [] /\ ss_psessionid s' = [] /\ m_vfwebqq s' = [] /\ ss_groups s' = [].
Proof.
  unfold run_check. cbn [fold_left fst snd check_login_step]. unfold on_check_vc.
  destruct (find_sig (re_text a3)), (find_vc (re_text a4)) as [what|]; cbn [fst snd check_login_step]; try (now repeat split).
  all: destruct (str_eqb (sub_match what 0) ($"0")); [cbn; now repeat split|]; destruct (str_eqb (sub_match what 0) ($"1")); [|cbn; now repeat split].
  all: destruct (image_asserts && negb (8 <? length (sub_match what 1))%nat); cbn; now repeat split.
Qed.

(** How it ends, after its captcha was asked for. *)
Lemma check_ends a1 a2 a3 a4 a5 s :
  exists s3, run_check ptime_text image_asserts [a1; a2; a3; a4; a5] (GoHome, s)
    = run_check ptime_text image_asserts [a5] (on_check_vc ptime_text image_asserts a4 s3).
Proof. eexists. unfold run_check. cbn [fold_left fst snd check_login_step]. reflexivity. Qed.

(** C40: the check of a login has its outcome.  Whatever was before, the check
    forgets the session and the groups.  What it comes to depends on the answer
    [ptui_checkVC('d','code','uin')], the first of the plain form (letters, digits
    and [!] in the code, a blank allowed behind each comma), or, when there is none,
    the first with the signs [_] and [-] in the code.  Its number is kept.  With [d]
    0 the check gives the code for the login; with 1 it gives the picture, or an
    error when it could not be fetched (when [BOOST_ASSERT] is active and the code
    has no more than eight characters, the program stops there instead); with any
    other digit it is an error, and so is a text without such an answer. *)
Theorem check_outcome (a1 a2 a3 a4 a5 : reply) (s : session) :
  let '(p, s') := run_check ptime_text image_asserts [a1; a2; a3; a4; a5] (GoHome, s) in
  (ss_status s' = LWQQ_STATUS_OFFLINE /\ ss_clientid s' = [] /\ ss_psessionid s' = [] /\ m_vfwebqq s' = [] /\ ss_groups s' = [])
  /\ (forall d vc uin, check_answer (re_text a4) d vc uin ->
      verifycode_uin s' = uin
      /\ (d = "0"%char -> p = CheckedOut None vc)
      /\ (d = "1"%char -> image_asserts = false \/ (8 < length vc)%nat ->
          p = CheckedOut (Some (if re_failed a5 then fetch_verifycode_failed else login_check_need_vc)) (re_text a5))
      /\ (d = "1"%char -> image_asserts = true -> (length vc <= 8)%nat -> p = ImageAssert)
      /\ (d <> "0"%char -> d <> "1"%char -> p = CheckedOut (Some (other_error 9)) []))
  /\ (no_answer plain_answer (re_text a4) -> no_answer signed_answer (re_text a4) -> p = CheckedOut (Some (other_error 9)) []).
Proof.
  pose proof (check_forgets a1 a2 a3 a4 a5 s) as Hs. destruct (check_ends a1 a2 a3 a4 a5 s) as [s3 E3].
  destruct (run_check _ _ _ _) as [p s']. split; [exact Hs|]. clear Hs. unfold on_check_vc in E3. split.
  - intros d vc uin Ha. rewrite (find_vc_answer _ _ _ _ Ha) in E3.
    change (sub_match (vc_captures d vc uin) 0) with [d] in E3. change (sub_match (vc_captures d vc uin) 1) with vc in E3.
    change (sub_match (vc_captures d vc uin) 2) with uin in E3. clear Ha.
    destruct (str_eqb_spec [d] ($"0")) as [E0|E0].
    { injection E0 as ->. injection E3 as -> ->. repeat split; (congruence || discriminate). }
    assert (d <> "0"%char) as D0 by (intros ->; now apply E0). destruct (str_eqb_spec [d] ($"1")) as [E1|E1].
    + injection E1 as ->. destruct image_asserts; cbn [andb] in E3; [destruct (Nat.ltb_spec 8 (length vc))|]; injection E3 as -> ->;
        repeat split; try discriminate; try congruence; try lia; intros _ [?|?]; (discriminate || lia).
    + assert (d <> "1"%char) as D1 by (intros ->; now apply E1). injection E3 as -> ->. repeat split; congruence.
  - intros Hn Hn'. rewrite (find_vc_none _ Hn Hn') in E3. now injection E3.
Qed.
End Check.

(** ** Examples *)

Definition example_session : session := Session LWQQ_STATUS_OFFLINE [] [] [] [] [] [] [] [] empty_store.
Definition example_login : ptree :=
  PTree [] [($"retcode", pt_value ($"0")); ($"result", PTree [] [($"psessionid", pt_value ($"85")); ($"vfwebqq", pt_value ($"4f")); ($"uin", pt_value ($"99"))])].

Lemma session_resumed_witness :
  exists s3, load_session (P := example_platform) (fst (status_received false (Some example_login) (make_clientid ($"12") example_session))) = Ok s3
    /\ ss_status s3 = LWQQ_STATUS_ONLINE /\ ss_psessionid s3 = $"85".
Proof.
  destruct (session_resumed (P := example_platform) ($"12") ($"85") ($"4f") ($"99") example_login example_session) as [(s3 & H1 & H2 & _ & H4 & _) _].
  - split; [discriminate|reflexivity].
  - split; [discriminate|reflexivity].
  - split; [discriminate|reflexivity].
  - reflexivity.
  - split; reflexivity.
  - split; [constructor|]. split; [|split]; intros r [].
  - vm_compute. lia.
  - now exists s3.
Defined.

(** The second example of the comment, with signs in the code. *)
Definition signed_example : cstring :=
  $"ptui_checkVC('1','6kn6cK_Xz9skMLUNbxNq3RcG9uYR7-H2','\x00\x00\x00\x00\x68\xe9\x0b\x58');".

Lemma signed_example_answer :
  check_answer signed_example "1" ($"6kn6cK_Xz9skMLUNbxNq3RcG9uYR7-H2") ($"\x00\x00\x00\x00\x68\xe9\x0b\x58").
Proof.
  right. split.
  - pose proof (search_first (E := perl_engine) _ _ checkVC_form form_checkVC signed_example) as H.
    assert (regex_search (RegexEngine := perl_engine) checkVC_re signed_example = None) as En by (vm_compute; reflexivity).
    rewrite En in H. exact H.
  - exists 0%nat. split; [|intros; lia]. exists ($");"). split; [reflexivity|]. split; [reflexivity|]. split; apply List.Forall_forall; apply forallb_forall; vm_compute; reflexivity.
Qed.

Lemma check_outcome_witness :
  let a := fun t => Reply t false (new_cookies (P := example_platform)) [] in
  let '(p, s') := run_check (E := perl_engine) (fun _ => []) true [a []; a []; a []; a signed_example; a ($"picture")] (GoHome, example_session) in
  p = CheckedOut (Some login_check_need_vc) ($"picture") /\ verifycode_uin s' = $"\x00\x00\x00\x00\x68\xe9\x0b\x58".
Proof.
  intros a. pose proof (check_outcome (E := perl_engine) (fun _ => []) true (a []) (a []) (a []) (a signed_example) (a ($"picture")) example_session) as H.
  destruct (run_check _ _ _ _) as [p s']. destruct H as (_ & H & _). destruct (H _ _ _ signed_example_answer) as (Hu & _ & H1 & _).
  split; [|exact Hu]. apply H1; [reflexivity|]. right. cbn. lia.
Defined.

(** The number that a server sends with its answer can be longer than the array the
    login decodes it into. *)
Theorem server_overflows (md5_digest md5_data : cstring -> cstring) (pwd : cstring) :
  let a := Reply ($"ptui_checkVC('0','!IJG','\x00\x01\x02\x03\x04\x05\x06\x07\x08\x09');") false (new_cookies (P := example_platform)) [] in
  let '(p, s) := on_check_vc (E := perl_engine) (fun _ => []) false a example_session in
  p = CheckedOut None ($"!IJG") /\ webqq_password_encode md5_digest md5_data pwd ($"!IJG") (verifycode_uin s) = Err ArrayOverflow.
Proof.
  intros a. assert (find_vc (E := perl_engine) (re_text a) = Some [Some ($"0"); Some ($"!IJG"); Some ($"\x00\x01\x02\x03\x04\x05\x06\x07\x08\x09")]) as Ef
    by (vm_compute; reflexivity).
  unfold on_check_vc. rewrite Ef. split; [reflexivity|]. unfold webqq_password_encode.
  change (verifycode_uin _) with ($"\x00\x01\x02\x03\x04\x05\x06\x07\x08\x09").
  assert (uin_decode ($"\x00\x01\x02\x03\x04\x05\x06\x07\x08\x09") = Err ArrayOverflow) as -> by (vm_compute; reflexivity). reflexivity.
Qed.
