(* ===== verification/WebqqRefresh.v ===== *)
(** Lists and numbers that the WebQQ client fetches: the friends
    (webqq_buddy_info.hpp), the numbers of groups and members
    (webqq_group_qqnumber.hpp, webqq_impl.cpp), the search for a group and joining it
    (webqq_impl.cpp), and the loop that refreshes groups (webqq_loop.cpp).

    The coroutine of the loop is the point where it is suspended.  An event has the
    time at which it happens, in seconds. *)

From S2P Require Import Prelude CLib OrdMap PTree CoroQueue BuddyMgr BuddyFacts WebqqPoll WebqqLoop.

(** ** Friends *)

Fixpoint add_friends (l : list (cstring * ptree)) : D () :=
  match l with
  | [] => mret ()
  | (_, r) :: l' =>
      uin ← d_get ($"uin") r;
      flag ← d_int ($"flag") r;
      categories ← d_int ($"categories") r;
      sx_modify (new_buddy uin flag categories) ;; add_friends l'
  end.

Fixpoint add_marknames (l : list (cstring * ptree)) : D () :=
  match l with
  | [] => mret ()
  | (_, r) :: l' =>
      uin ← d_get ($"uin") r;
      markname ← d_get ($"markname") r;
      sx_modify (buddy_update_markname uin markname) ;; add_marknames l'
  end.

Fixpoint add_categories (l : list (cstring * ptree)) : D () :=
  match l with
  | [] => mret ()
  | (_, r) :: l' =>
      index ← d_int ($"index") r;
      sort ← d_int ($"sort") r;
      name ← d_get ($"name") r;
      sx_modify (new_catgory index sort name) ;; add_categories l'
  end.

Fixpoint add_nicks (l : list (cstring * ptree)) : D () :=
  match l with
  | [] => mret ()
  | (_, r) :: l' =>
      uin ← d_get ($"uin") r;
      nick ← d_get ($"nick") r;
      sx_modify (buddy_update_nick uin nick) ;; add_nicks l'
  end.

Definition process_buddy_list (jsonobj : ptree) : D () :=
  retcode ← d_int ($"retcode") jsonobj;
  if retcode =? 0 then
    friends ← d_child ($"result.friends") jsonobj;
    add_friends (pt_children friends) ;;
    ignore_bad_path (c ← d_child ($"result.marknames") jsonobj; add_marknames (pt_children c)) ;;
    ignore_bad_path (c ← d_child ($"result.categories") jsonobj; add_categories (pt_children c)) ;;
    ignore_bad_path (c ← d_child ($"result.info") jsonobj; add_nicks (pt_children c))
  else mret ().

Definition failed_to_fetch_buddy_list : webqq_error := other_error 1004.
Definition failed_to_fetch_group_qqnumber : webqq_error := other_error 1005.

(** [update_buddy_list_op]; [None]: the text is not JSON. *)
Definition buddy_list_received (json : option ptree) (d : buddy_db) : buddy_db * option webqq_error :=
  match json with
  | None => (d, Some failed_to_fetch_buddy_list)
  | Some t => match process_buddy_list t d with (d', Ok _) => (d', None) | (d', Err _) => (d', Some failed_to_fetch_buddy_list) end
  end.

(** ** Numbers *)

(** [update_group_qqnumber_op]. *)
Definition group_qqnumber_received (json : option ptree) : result webqq_error cstring :=
  match json ≫= fun t => pt_get ($"retcode") t ≫= stream_int, json ≫= pt_get ($"result.account") with
  | Some 0, Some q => Ok q
  | _, _ => Err failed_to_fetch_group_qqnumber
  end.
(** [buddy_uin_to_qqnumber]: an error gives the empty number. *)
Definition buddy_number_received (json : option ptree) : cstring :=
  match json ≫= fun t => pt_get ($"retcode") t ≫= stream_int, json ≫= pt_get ($"result.account") with
  | Some 0, Some q => q
  | _, _ => []
  end.

(** ** Searching and joining a group *)

(** What the handler is told: the number and the code of the group, whether a
    captcha is needed, and its picture. *)
Record group_answer : Type := GroupAnswer { ga_group : option (cstring * cstring); needvc : Z; vcodedata : cstring }.
Inductive group_outcome : Type := HandlerCalled (a : group_answer) | FetchAid (group : cstring * cstring) | JsonThrown.

(** The text is read outside the [try]. *)
Definition cb_search_group (groupqqnum : cstring) (failed : bool) (json : option ptree) : group_outcome :=
  if failed then HandlerCalled (GroupAnswer None 0 [])
  else
    match json with
    | None => JsonThrown
    | Some t =>
        match pt_get ($"retcode") t ≫= stream_int with
        | Some retcode =>
            if retcode =? 0 then
              match pt_get ($"result..GE") t, pt_get ($"result..GEX") t with
              | Some ge, Some gex => HandlerCalled (GroupAnswer (Some (ge, gex)) 0 [])
              | _, _ => HandlerCalled (GroupAnswer None 0 [])
              end
            else if retcode =? 100110 then FetchAid (groupqqnum, [])
            else if retcode =? 100102 then HandlerCalled (GroupAnswer None 0 [])
            else HandlerCalled (GroupAnswer (Some (groupqqnum, [])) 0 [])
        | None => HandlerCalled (GroupAnswer None 0 [])
        end
    end.

(** Missing tips are an error when the code of the answer asks for them. *)
Definition cb_join_group (group : cstring * cstring) (json : option ptree) : group_outcome :=
  match json with
  | None => HandlerCalled (GroupAnswer None 0 [])
  | Some t =>
      match pt_get ($"retcode") t ≫= stream_int with
      | Some retcode =>
          if retcode =? 0 then HandlerCalled (GroupAnswer (Some group) 0 [])
          else if retcode =? 100001 then
            match pt_get ($"tips") t with Some _ => FetchAid group | None => HandlerCalled (GroupAnswer None 0 []) end
          else FetchAid group
      | None => HandlerCalled (GroupAnswer None 0 [])
      end
  end.

(** [cb_search_group_vcode] and [cb_join_group_vcode]. *)
Definition cb_group_vcode (group : cstring * cstring) (failed : bool) (data : cstring) : group_answer :=
  if failed then GroupAnswer None 0 data else GroupAnswer (Some group) 1 data.

(** ** The loop that refreshes groups *)

(** A command: its callback, and the group, or nothing for all of them. *)
Record refresh_cmd : Type := RefreshCmd { rc_handler : option Z; rc_gid : cstring }.
Definition no_cmd : refresh_cmd := RefreshCmd None [].
Abbreviation cmd_queue := (coro_queue refresh_cmd (C := unbounded refresh_cmd) unit unit).

Inductive refresh_point : Type := RfWait | RfRapid (v : refresh_cmd) | RfList (v : refresh_cmd) | RfMembers (v : refresh_cmd) | RfEnded.
Inductive refresh_output : Type :=
| RfDelay (at_time seconds : Z) | RfFetchList (at_time : Z) | RfFetchMembers (gid : cstring) | RfHandler (h : Z) (ec : option webqq_error).

Record refresher : Type := Refresher {
  rf_status : LWQQ_STATUS; m_group_refresh_queue : cmd_queue; rf_calls : list (option queue_error * refresh_cmd);
  m_last_sync : Z; rf_at : refresh_point; rf_out : list refresh_output
}.

Definition rf_goes (p : refresh_point) (o : list refresh_output) (s : refresher) : refresher :=
  Refresher (rf_status s) (m_group_refresh_queue s) (rf_calls s) (m_last_sync s) p (rf_out s ++ o).
Definition set_rf_calls (l : list (option queue_error * refresh_cmd)) (s : refresher) : refresher :=
  Refresher (rf_status s) (m_group_refresh_queue s) l (m_last_sync s) (rf_at s) (rf_out s).
Definition set_last_sync (t : Z) (s : refresher) : refresher :=
  Refresher (rf_status s) (m_group_refresh_queue s) (rf_calls s) t (rf_at s) (rf_out s).
Definition set_rf_status (st : LWQQ_STATUS) (s : refresher) : refresher :=
  Refresher st (m_group_refresh_queue s) (rf_calls s) (m_last_sync s) (rf_at s) (rf_out s).

Definition cmd_results (calls : list (post refresh_cmd unit unit)) : list (option queue_error * refresh_cmd) :=
  flat_map (fun c => match c with PopCall _ ec v => [(ec, v)] | WaitCall _ _ => [] end) calls.
(** An operation of the queue; its faults do not happen ([refresh_never_faults]). *)
Definition on_cmd_queue (o : queue_op) (s : refresher) : refresher :=
  match queue_step no_cmd true o (m_group_refresh_queue s) with
  | Ok (calls, q) => Refresher (rf_status s) q (rf_calls s ++ cmd_results calls) (m_last_sync s) (rf_at s) (rf_out s)
  | Err _ => s
  end.

(** The constructor. *)
Definition group_refresh_loop_op (st : LWQQ_STATUS) : refresher := on_cmd_queue (OpPop ()) (Refresher st new_queue [] 0 RfWait []).

(** [minutes()] and [seconds()] of a duration: its parts below an hour and below a
    minute. *)
Definition minutes (d : Z) : Z := Z.rem (Z.quot d 60) 60.
Definition seconds (d : Z) : Z := Z.rem d 60.

(** A turn of the loop with the command [v]. *)
Definition enter_refresh (now : Z) (v : refresh_cmd) (s : refresher) : refresher :=
  match rf_status s with
  | LWQQ_STATUS_QUITTING => rf_goes RfEnded [] s
  | _ =>
      match rc_gid v with
      | [] =>
          if minutes (now - m_last_sync s) <=? 30 then rf_goes (RfRapid v) [RfDelay now (1800 - seconds (now - m_last_sync s))] s
          else rf_goes (RfList v) [RfFetchList now] s
      | gid => rf_goes (RfMembers v) [RfFetchMembers gid] s
      end
  end.

(** The end of a command: its callback, the time, and the next one. *)
Definition command_done (now : Z) (v : refresh_cmd) (ec : option webqq_error) (s : refresher) : refresher :=
  on_cmd_queue (OpPop ())
    (set_last_sync now (rf_goes RfWait (match rc_handler v with Some h => [RfHandler h ec] | None => [] end) s)).

Definition list_done (now : Z) (v : refresh_cmd) (ec : option webqq_error) (s : refresher) : refresher :=
  command_done now v ec (match ec with Some _ => on_cmd_queue (OpPush v) s | None => s end).
Definition members_done (now : Z) (v : refresh_cmd) (ec : option webqq_error) (s : refresher) : refresher :=
  command_done now v ec (match ec with Some _ => on_cmd_queue (OpPush (RefreshCmd None [])) s | None => s end).

Inductive refresh_event : Type :=
| RfPush (v : refresh_cmd) | RfWoken | RfTimer | RfFetched (ec : option webqq_error) | RfStatus (st : LWQQ_STATUS) | RfStop.

Definition refresh_step (now : Z) (e : refresh_event) (s : refresher) : refresher :=
  match e, rf_at s with
  | RfPush v, _ => on_cmd_queue (OpPush v) s
  | RfStatus st, _ => set_rf_status st s
  | RfStop, _ => set_rf_status LWQQ_STATUS_QUITTING (on_cmd_queue OpCancel s)
  | RfWoken, RfWait =>
      match rf_calls s with
      | [] => s
      | (Some _, _) :: l => rf_goes RfEnded [] (set_rf_calls l s)
      | (None, v) :: l => enter_refresh now v (set_rf_calls l s)
      end
  | RfTimer, RfRapid v => rf_goes (RfList v) [RfFetchList now] s
  | RfFetched ec, RfList v => list_done now v ec s
  | RfFetched ec, RfMembers v => members_done now v ec s
  | _, _ => s
  end.
Definition run_refresh (es : list (Z * refresh_event)) (s : refresher) : refresher := fold_left (fun s e => refresh_step (fst e) (snd e) s) es s.

(** ** The list of friends *)

Record friends_answer : Type := FriendsAnswer {
  fa_friends : list (cstring * (Z * Z)); fa_marknames : list (cstring * cstring); fa_nicks : list (cstring * cstring)
}.

Definition int_at (p : cstring) (t : ptree) : option Z := pt_get p t ≫= stream_int.
Definition json_friend (kv : cstring * ptree) (f : cstring * (Z * Z)) : Prop :=
  pt_get ($"uin") (snd kv) = Some (fst f) /\ int_at ($"flag") (snd kv) = Some (fst (snd f)) /\ int_at ($"categories") (snd kv) = Some (snd (snd f)).
Definition friends_json (t : ptree) (a : friends_answer) : Prop :=
  int_at ($"retcode") t = Some 0
  /\ (exists c, get_child ($"result.friends") t = Some c /\ Forall2 json_friend (pt_children c) (fa_friends a))
  /\ json_list ($"result.marknames") ($"uin") ($"markname") t (fa_marknames a)
  /\ json_list ($"result.info") ($"uin") ($"nick") t (fa_nicks a).

Definition with_friends (l : list (cstring * (Z * Z))) (d : buddy_db) : buddy_db :=
  fold_left (fun d f => new_buddy (fst f) (fst (snd f)) (snd (snd f)) d) l d.
Definition with_marknames (l : list (cstring * cstring)) (d : buddy_db) : buddy_db :=
  fold_left (fun d m => buddy_update_markname (fst m) (snd m) d) l d.
Definition with_nicks (l : list (cstring * cstring)) (d : buddy_db) : buddy_db :=
  fold_left (fun d m => buddy_update_nick (fst m) (snd m) d) l d.

Lemma int_run p t z d : int_at p t = Some z -> d_int p t d = (d, Ok z).
Proof.
  unfold int_at, d_int, d_get. destruct (pt_get p t) as [v|]; [|discriminate]. cbn [mbind option_bind]. intros E. unfold mbind, sx_bind, mret, sx_ret.
  now rewrite E.
Qed.

Lemma add_friends_run cs l : Forall2 json_friend cs l -> forall d, add_friends cs d = (with_friends l d, Ok ()).
Proof.
  induction 1 as [|[k r] m cs l (E1 & E2 & E3) _ IH]; intros d; [reflexivity|]. cbn [snd] in *. cbn [add_friends].
  unfold d_get. rewrite E1. unfold mbind, sx_bind, mret, sx_ret. rewrite (int_run _ _ _ _ E2), (int_run _ _ _ _ E3). apply IH.
Qed.

Lemma add_marknames_run cs l : Forall2 (json_pair ($"uin") ($"markname")) cs l -> forall d, add_marknames cs d = (with_marknames l d, Ok ()).
Proof.
  induction 1 as [|[k r] m cs l (E1 & E2) _ IH]; intros d; [reflexivity|]. cbn [snd] in *. cbn [add_marknames].
  unfold d_get. rewrite E1, E2. unfold mbind, sx_bind. cbn. apply IH.
Qed.

Lemma add_nicks_run cs l : Forall2 (json_pair ($"uin") ($"nick")) cs l -> forall d, add_nicks cs d = (with_nicks l d, Ok ()).
Proof.
  induction 1 as [|[k r] m cs l (E1 & E2) _ IH]; intros d; [reflexivity|]. cbn [snd] in *. cbn [add_nicks].
  unfold d_get. rewrite E1, E2. unfold mbind, sx_bind. cbn. apply IH.
Qed.

Lemma add_categories_friends cs : forall d, buddies (fst (add_categories cs d)) = buddies d.
Proof.
  induction cs as [|[k r] cs IH]; intros d; [reflexivity|]. cbn [add_categories]. unfold d_int, d_get, mbind, sx_bind, mret, sx_ret.
  destruct (pt_get ($"index") r) as [v1|]; [|reflexivity]. destruct (stream_int v1); [|reflexivity]. destruct (pt_get ($"sort") r) as [v2|]; [|reflexivity].
  destruct (stream_int v2); [|reflexivity]. destruct (pt_get ($"name") r); [|reflexivity]. unfold sx_modify. rewrite IH. reflexivity.
Qed.

Lemma friends_run t a d : friends_json t a ->
  exists d2, buddies d2 = buddies (with_marknames (fa_marknames a) (with_friends (fa_friends a) d))
    /\ buddy_list_received (Some t) d = (with_nicks (fa_nicks a) d2, None).
Proof.
  intros (Hr & (c1 & Hc1 & H1) & (c2 & Hc2 & H2) & (c3 & Hc3 & H3)). unfold buddy_list_received, process_buddy_list, d_child.
  unfold mbind, sx_bind at 1. rewrite (int_run _ _ _ _ Hr). cbn [Z.eqb]. unfold sx_bind, mret, sx_ret. rewrite Hc1, (add_friends_run _ _ H1).
  unfold ignore_bad_path at 1. rewrite Hc2, (add_marknames_run _ _ H2). unfold ignore_bad_path at 1.
  set (d1 := with_marknames (fa_marknames a) (with_friends (fa_friends a) d)). destruct (get_child ($"result.categories") t) as [c4|].
  - pose proof (add_categories_friends (pt_children c4) d1) as Hd. destruct (add_categories (pt_children c4) d1) as [d2 r2].
    exists d2. split; [exact Hd|]. unfold ignore_bad_path. rewrite Hc3. now rewrite (add_nicks_run _ _ H3).
  - exists d1. split; [reflexivity|]. unfold ignore_bad_path, sx_fail. rewrite Hc3. cbv beta iota. now rewrite (add_nicks_run _ _ H3).
Qed.

Lemma has_friend_uid u r : has_friend u r = true <-> friend_uid r = u.
Proof. unfold has_friend. apply str_eqb_eq. Qed.

Lemma friends_find l u : forall d,
  (forall f c, List.NoDup (map fst l) -> In (u, (f, c)) l -> List.find (has_friend u) (buddies (with_friends l d)) = Some (FriendRow u None f None c))
  /\ (~ In u (map fst l) -> List.find (has_friend u) (buddies (with_friends l d)) = List.find (has_friend u) (buddies d)).
Proof.
  induction l as [|[u' [f' c']] l IH]; intros d; [now split|]. unfold with_friends. cbn [fold_left fst snd].
  fold (with_friends l (new_buddy u' f' c' d)). destruct (IH (new_buddy u' f' c' d)) as [IH1 IH2]. split.
  - intros f c Hnd Hin. cbn [map fst] in Hnd. apply List.NoDup_cons_iff in Hnd as [Hn Hnd]. destruct Hin as [[= -> -> ->]|Hin]; [|now apply IH1].
    rewrite IH2 by exact Hn. apply find_replaced; [auto|]. now apply has_friend_uid.
  - cbn [map fst In]. intros Hn. rewrite IH2 by tauto. apply find_other.
    + destruct (has_friend u _) eqn:E; [apply has_friend_uid in E; cbn in E; tauto|reflexivity].
    + intros x Hx. apply List.find_some in Hx as [_ Hx]. apply has_friend_uid in Hx. destruct (has_friend u' x) eqn:E; [|reflexivity].
      apply has_friend_uid in E. rewrite E in Hx. tauto.
Qed.

Definition set_markname (m : option cstring) (r : friend_row) : friend_row := FriendRow (friend_uid r) (friend_nick r) (friend_flag r) m (friend_category r).
Definition set_nick (n : option cstring) (r : friend_row) : friend_row := FriendRow (friend_uid r) n (friend_flag r) (friend_markname r) (friend_category r).

Lemma marknames_find l u : forall d,
  List.find (has_friend u) (buddies (with_marknames l d))
  = (fun r => set_markname (card_of u l (friend_markname r)) r) <$> List.find (has_friend u) (buddies d).
Proof.
  induction l as [|[u' m'] l IH]; intros d.
  - cbn. destruct (List.find _ _) as [[]|]; reflexivity.
  - change (List.find (has_friend u) (buddies (with_marknames l (buddy_update_markname u' m' d)))
            = (fun r => set_markname (card_of u l (if str_eqb u u' then Some m' else friend_markname r)) r) <$> List.find (has_friend u) (buddies d)).
    rewrite IH. cbn [buddies buddy_update_markname set_friends]. rewrite find_update by reflexivity.
    destruct (List.find (has_friend u) (buddies d)) as [r|] eqn:E; [|reflexivity]. cbn. f_equal.
    apply List.find_some in E as [_ E]. apply has_friend_uid in E. destruct r. cbn in E. subst. unfold has_friend. cbn. now destruct (str_eqb u u').
Qed.

Lemma nicks_find l u : forall d,
  List.find (has_friend u) (buddies (with_nicks l d)) = (fun r => set_nick (card_of u l (friend_nick r)) r) <$> List.find (has_friend u) (buddies d).
Proof.
  induction l as [|[u' m'] l IH]; intros d.
  - cbn. destruct (List.find _ _) as [[]|]; reflexivity.
  - change (List.find (has_friend u) (buddies (with_nicks l (buddy_update_nick u' m' d)))
            = (fun r => set_nick (card_of u l (if str_eqb u u' then Some m' else friend_nick r)) r) <$> List.find (has_friend u) (buddies d)).
    rewrite IH. cbn [buddies buddy_update_nick set_friends]. rewrite find_update by reflexivity.
    destruct (List.find (has_friend u) (buddies d)) as [r|] eqn:E; [|reflexivity]. cbn. f_equal.
    apply List.find_some in E as [_ E]. apply has_friend_uid in E. destruct r. cbn in E. subst. unfold has_friend. cbn. now destruct (str_eqb u u').
Qed.

(** The friends arrive.  When the server answers with the list of friends,
    each of them is in the table with the flag and the category of the answer, and
    with its nick and the name it was given; the friends the answer does not name
    are as before; and the handler is told success. *)
Theorem friends_listed (t : ptree) (a : friends_answer) (d : buddy_db) :
  friends_json t a -> List.NoDup (map fst (fa_friends a)) ->
  exists d', buddy_list_received (Some t) d = (d', None)
    /\ (forall u f c, In (u, (f, c)) (fa_friends a) ->
          List.find (has_friend u) (buddies d') = Some (FriendRow u (card_of u (fa_nicks a) None) f (card_of u (fa_marknames a) None) c))
    /\ forall u, ~ In u (map fst (fa_friends a)) -> ~ In u (map fst (fa_marknames a)) -> ~ In u (map fst (fa_nicks a)) ->
         List.find (has_friend u) (buddies d') = List.find (has_friend u) (buddies d).
Proof.
  intros Hj Hn. destruct (friends_run t a d Hj) as (d2 & E2 & ->). eexists. split; [reflexivity|]. split.
  - intros u f c Hin. rewrite nicks_find, E2, marknames_find, (proj1 (friends_find (fa_friends a) u d) f c Hn Hin). reflexivity.
  - intros u H1 H2 H3. rewrite nicks_find, E2, marknames_find, (proj2 (friends_find (fa_friends a) u d) H1).
    destruct (List.find (has_friend u) (buddies d)) as [[]|]; [|reflexivity]. cbn. now rewrite !card_of_other.
Qed.

(** ** Refreshing *)

Lemma seconds_bound d : 0 <= d -> 0 <= seconds d <= 59.
Proof. intros H. unfold seconds. pose proof (Z.rem_bound_pos d 60 H ltac:(lia)). lia. Qed.

(** The times at which the list of all groups was asked for. *)
Definition fetch_times (l : list refresh_output) : list Z := flat_map (fun o => match o with RfFetchList t => [t] | _ => [] end) l.
(** Each time at least [n] seconds behind the one before it. *)
Definition spaced (n : Z) (l : list Z) : Prop := forall i t1 t2, l !! i = Some t1 -> l !! S i = Some t2 -> n <= t2 - t1.

(** Time does not go back, and a delay takes as long as it was asked for. *)
Fixpoint honest (t : Z) (es : list (Z * refresh_event)) (s : refresher) : Prop :=
  match es with
  | [] => True
  | (now, e) :: es' =>
      t <= now
      /\ match e, rf_at s, last (rf_out s) with RfTimer, RfRapid _, Some (RfDelay t0 n) => t0 + n <= now | _, _, _ => True end
      /\ honest now es' (refresh_step now e s)
  end.

Record refresh_ok (t : Z) (s : refresher) : Prop := RefreshOk {
  ro_spaced : spaced 1741 (fetch_times (rf_out s));
  ro_last : forall f, last (fetch_times (rf_out s)) = Some f -> f <= match rf_at s with RfList _ => t | _ => m_last_sync s end;
  ro_sync : 0 <= m_last_sync s <= t;
  ro_rapid : forall v, rf_at s = RfRapid v -> exists t0 n, last (rf_out s) = Some (RfDelay t0 n) /\ m_last_sync s <= t0 /\ 1741 <= n
}.

Lemma spaced_snoc n l t : spaced n l -> (forall f, last l = Some f -> n <= t - f) -> spaced n (l ++ [t]).
Proof.
  intros H Hl i t1 t2 E1 E2. destruct (Nat.lt_ge_cases (S i) (length l)) as [Hi|Hi].
  - rewrite lookup_app_l in E1, E2 by lia. now apply (H i).
  - apply lookup_lt_Some in E2 as Hlt. rewrite length_app in Hlt. cbn in Hlt. rewrite lookup_app_r in E2 by lia.
    replace (S i - length l)%nat with 0%nat in E2 by lia. injection E2 as <-. rewrite lookup_app_l in E1 by lia.
    apply Hl. rewrite last_lookup. replace (Nat.pred (length l)) with i by lia. exact E1.
Qed.

Lemma fetch_times_app a b : fetch_times (a ++ b) = fetch_times a ++ fetch_times b.
Proof. apply flat_map_app. Qed.

(** A step that asks for no list. *)
Lemma refresh_goes p o t now s s' :
  refresh_ok t s -> t <= now -> rf_out s' = rf_out s ++ o -> fetch_times o = [] -> rf_at s' = p ->
  (m_last_sync s' = m_last_sync s /\ (forall v, p <> RfList v) /\ (forall v, rf_at s <> RfList v) \/ m_last_sync s' = now) ->
  (forall v, p = RfRapid v -> exists n, o = [RfDelay now n] /\ 1741 <= n) -> refresh_ok now s'.
Proof.
  intros [H1 H2 H3 H4] Ht Eo Ef Ep Hs Hr. split; rewrite ?Eo, ?fetch_times_app, ?Ef, ?app_nil_r.
  - exact H1.
  - intros f Hf. apply H2 in Hf. rewrite Ep. destruct Hs as [(-> & Hp & Hq)| ->].
    + destruct (rf_at s) eqn:Ea, p eqn:Epp; try exact Hf; try (now destruct (Hp v)); try (now destruct (Hq v)); now destruct (Hp v0).
    + assert (f <= now) by (destruct (rf_at s); lia). destruct p; lia.
  - destruct Hs as [(-> & _)| ->]; lia.
  - intros v Hv. rewrite Ep in Hv. destruct (Hr v Hv) as (n & -> & Hn). exists now, n. rewrite last_snoc. split; [reflexivity|]. split; [|exact Hn].
    destruct Hs as [(-> & _)| ->]; lia.
Qed.

(** A step that asks for the list. *)
Lemma refresh_fetches v t now s :
  refresh_ok t s -> t <= now -> (forall v, rf_at s <> RfList v) -> 1741 <= now - m_last_sync s -> refresh_ok now (rf_goes (RfList v) [RfFetchList now] s).
Proof.
  intros [H1 H2 H3 H4] Ht Hp Hn.
  assert (forall f, last (fetch_times (rf_out s)) = Some f -> f <= m_last_sync s) as Hf.
  { intros f E. apply H2 in E. destruct (rf_at s) eqn:Ea; try exact E. now destruct (Hp v0). }
  split; cbn [rf_out rf_goes rf_at m_last_sync]; rewrite ?fetch_times_app.
  - apply spaced_snoc; [exact H1|]. intros f E. apply Hf in E. lia.
  - intros f. cbn [fetch_times flat_map app]. rewrite last_snoc. intros [= <-]. lia.
  - lia.
  - discriminate.
Qed.

Lemma cmd_queue_same o s : rf_out (on_cmd_queue o s) = rf_out s /\ rf_at (on_cmd_queue o s) = rf_at s /\ m_last_sync (on_cmd_queue o s) = m_last_sync s.
Proof. unfold on_cmd_queue. destruct (queue_step _ _ _ _) as [[calls q]|]; now repeat split. Qed.

Lemma refresh_same t now s s' :
  refresh_ok t s -> t <= now -> rf_out s' = rf_out s -> rf_at s' = rf_at s -> m_last_sync s' = m_last_sync s -> refresh_ok now s'.
Proof.
  intros [H1 H2 H3 H4] Ht E1 E2 E3. split; rewrite ?E1, ?E2, ?E3; auto; [|lia]. intros f Hf. apply H2 in Hf. destruct (rf_at s); lia.
Qed.

Lemma enter_refresh_ok t now v s : refresh_ok t s -> t <= now -> rf_at s = RfWait -> refresh_ok now (enter_refresh now v s).
Proof.
  intros H Ht Hp. assert (forall p o, fetch_times o = [] -> (forall v, p <> RfList v) -> (forall v, p <> RfRapid v) -> refresh_ok now (rf_goes p o s)) as Hg.
  { intros p o Ho H1 H2. apply (refresh_goes p o t now s); auto; [|intros v' ->; now destruct (H2 v')]. left. split; [reflexivity|].
    split; [exact H1|]. intros v'. now rewrite Hp. }
  unfold enter_refresh. destruct (rf_status s); try (now apply Hg).
  all: destruct (rc_gid v); [|now apply Hg]; destruct (Z.leb_spec (minutes (now - m_last_sync s)) 30) as [Hm|Hm].
  all: pose proof (ro_sync _ _ H) as Hs.
  all: try (apply (refresh_goes (RfRapid v) [RfDelay now (1800 - seconds (now - m_last_sync s))] t now s); auto;
    [left; split; [reflexivity|]; split; [discriminate|]; intros v'; now rewrite Hp|
     intros v' _; eexists; split; [reflexivity|]; pose proof (seconds_bound (now - m_last_sync s) ltac:(lia)); lia]).
  all: apply (refresh_fetches v t now s); auto; [intros v'; now rewrite Hp|]; unfold minutes in Hm.
  all: rewrite Z.rem_mod_nonneg, Z.quot_div_nonneg in Hm by (try apply Z.quot_pos; lia); Z.to_euclidean_division_equations; lia.
Qed.

Lemma done_ok t now v ec s : refresh_ok t s -> t <= now -> refresh_ok now (command_done now v ec s).
Proof.
  intros H Ht. unfold command_done. set (o := match rc_handler v with Some h => [RfHandler h ec] | None => [] end).
  apply (refresh_goes RfWait o t now s); auto; try discriminate; try apply (cmd_queue_same (OpPop ()) (set_last_sync now (rf_goes RfWait o s))).
  - unfold o. now destruct (rc_handler v).
  - right. apply cmd_queue_same.
Qed.

Lemma refresh_step_ok t now e s :
  refresh_ok t s -> t <= now ->
  match e, rf_at s, last (rf_out s) with RfTimer, RfRapid _, Some (RfDelay t0 n) => t0 + n <= now | _, _, _ => True end ->
  refresh_ok now (refresh_step now e s).
Proof.
  intros H Ht Hh. assert (refresh_ok now s) as Hnow by (now apply (refresh_same t now s)).
  assert (forall o, refresh_ok t (on_cmd_queue o s) /\ refresh_ok now (on_cmd_queue o s)) as Hq.
  { intros o. destruct (cmd_queue_same o s) as (E1 & E2 & E3). split; apply (refresh_same t _ s); auto; lia. }
  destruct e as [v| | |ec|st|]; cbn [refresh_step].
  - apply Hq.
  - destruct (rf_at s) eqn:Ep; try exact Hnow. destruct (rf_calls s) as [|[[e|] v] l]; [exact Hnow| |].
    + apply (refresh_goes RfEnded [] t now s); auto; [|discriminate]. left. split; [reflexivity|]. split; [discriminate|]. now rewrite Ep.
    + apply (enter_refresh_ok t); auto. now apply (refresh_same t t s).
  - destruct (rf_at s) eqn:Ep; try exact Hnow. destruct (ro_rapid _ _ H v Ep) as (t0 & n & E & H1 & H2). rewrite E in Hh.
    apply (refresh_fetches v t); auto; [now rewrite Ep|lia].
  - destruct (rf_at s) eqn:Ep; try exact Hnow; [unfold list_done|unfold members_done]; apply (done_ok t); auto; destruct ec; auto; apply Hq.
  - now apply (refresh_same t now s).
  - now apply (refresh_same now now (on_cmd_queue OpCancel s)); [apply Hq|lia| | |].
Qed.

(** The list of groups is not asked for too often.  Whatever commands come, and
    however their answers fail, at least 1741 seconds are between two requests for
    the list of all groups. *)
Theorem refresh_paced (st : LWQQ_STATUS) (es : list (Z * refresh_event)) :
  honest 0 es (group_refresh_loop_op st) -> spaced 1741 (fetch_times (rf_out (run_refresh es (group_refresh_loop_op st)))).
Proof.
  enough (forall es t s, refresh_ok t s -> honest t es s -> spaced 1741 (fetch_times (rf_out (run_refresh es s)))) as H.
  { apply H. split; [intros i t1 t2 E; discriminate E|discriminate|change (0 <= 0 <= 0); lia|discriminate]. }
  clear. induction es as [|[now e] es IH]; intros t s Hok Hh; [exact (ro_spaced _ _ Hok)|]. destruct Hh as (H1 & H2 & H3).
  apply (IH now); [|exact H3]. now apply (refresh_step_ok t).
Qed.

(** The parts of a duration are taken for the whole: an hour after the last command
    the loop waits another half an hour. *)
Theorem hour_waits (h : Z) (v : refresh_cmd) (s : refresher) (now : Z) :
  0 <= h -> now = m_last_sync s + 3600 * h -> rc_gid v = [] -> rf_status s = LWQQ_STATUS_ONLINE ->
  enter_refresh now v s = rf_goes (RfRapid v) [RfDelay now 1800] s.
Proof.
  intros Hh -> Hg Hs. unfold enter_refresh. rewrite Hs, Hg. replace (m_last_sync s + 3600 * h - m_last_sync s) with (3600 * h) by lia.
  assert (minutes (3600 * h) = 0 /\ seconds (3600 * h) = 0) as [-> ->]; [|reflexivity]. unfold minutes, seconds.
  rewrite Z.quot_div_nonneg, !Z.rem_mod_nonneg by (try apply Z.div_pos; lia). split; Z.to_euclidean_division_equations; lia.
Qed.

Lemma refresh_never_faults st es o : is_ok (queue_step no_cmd true o (m_group_refresh_queue (run_refresh es (group_refresh_loop_op st)))) = true.
Proof.
  assert (forall o s, queue_wf (m_group_refresh_queue s) -> queue_wf (m_group_refresh_queue (on_cmd_queue o s))) as Hq.
  { intros o' s Hs. unfold on_cmd_queue. destruct (queue_step_effect no_cmd true o' _ Hs) as (calls & q & -> & F). exact (eff_wf _ _ _ _ F). }
  assert (forall es s, queue_wf (m_group_refresh_queue s) -> queue_wf (m_group_refresh_queue (run_refresh es s))) as H.
  { clear es. induction es as [|[now e] es IH]; intros s Hs; [exact Hs|]. apply IH. cbn [fst snd].
    destruct e as [v| | |ec|st'|]; cbn [refresh_step]; try (apply Hq, Hs); try exact Hs; destruct (rf_at s); try exact Hs.
    - destruct (rf_calls s) as [|[[e|] v] l]; try exact Hs. unfold enter_refresh. cbn [rf_status set_rf_calls m_last_sync].
      destruct (rf_status s); try exact Hs; destruct (rc_gid v); try exact Hs; now destruct (_ <=? 30).
    - unfold list_done, command_done. destruct ec; now repeat apply Hq.
    - unfold members_done, command_done. destruct ec; now repeat apply Hq. }
  assert (queue_wf (m_group_refresh_queue (run_refresh es (group_refresh_loop_op st)))) as Hw by (apply H; now intros _).
  destruct (queue_step_effect no_cmd true o _ Hw) as (calls & q & -> & _). reflexivity.
Qed.

(** ** Examples *)

Definition example_friends : ptree :=
  PTree [] [($"retcode", pt_value ($"0"));
    ($"result", PTree [] [
      ($"friends", PTree [] [([], PTree [] [($"flag", pt_value ($"0")); ($"uin", pt_value ($"907")); ($"categories", pt_value ($"2"))])]);
      ($"marknames", PTree [] [([], PTree [] [($"uin", pt_value ($"907")); ($"markname", pt_value ($"boss"))])]);
      ($"info", PTree [] [([], PTree [] [($"uin", pt_value ($"907")); ($"nick", pt_value ($"cai"))])])])].

Lemma friends_listed_witness :
  exists d', buddy_list_received (Some example_friends) empty_db = (d', None)
    /\ List.find (has_friend ($"907")) (buddies d') = Some (FriendRow ($"907") (Some ($"cai")) 0 (Some ($"boss")) 2).
Proof.
  destruct (friends_listed example_friends (FriendsAnswer [($"907", (0, 2))] [($"907", $"boss")] [($"907", $"cai")]) empty_db) as (d' & H1 & H2 & _).
  - split; [reflexivity|]. split; [|split]; eexists; (split; [reflexivity|]); repeat constructor.
  - constructor; [intros []|constructor].
  - exists d'. split; [exact H1|]. apply (H2 ($"907") 0 2). now left.
Defined.

Definition example_refresh : list (Z * refresh_event) :=
  [(5000, RfPush no_cmd); (5000, RfWoken); (6780, RfTimer); (6790, RfFetched (Some failed_to_fetch_buddy_list)); (6790, RfWoken); (8590, RfTimer)].

Lemma refresh_paced_witness :
  fetch_times (rf_out (run_refresh example_refresh (group_refresh_loop_op LWQQ_STATUS_ONLINE))) = [6780; 8590] /\ spaced 1741 [6780; 8590].
Proof.
  split; [reflexivity|]. apply (refresh_paced LWQQ_STATUS_ONLINE example_refresh). vm_compute. repeat split; discriminate.
Defined.
