(* ===== verification/Bulletin.v ===== *)
(** The bulletin of a channel, extension/bulletin.hpp and bulletin.cpp: messages
    that are sent at the times a settings file names.

    Time is local time in seconds; the calendar, which date a day has, is a
    parameter.  [second_clock::local_time] and [std::rand] are arguments of the
    operations that call them.  A file is missing, can not be read, or has a text.
    The timer keeps the waits that were started and the handlers that a later
    [expires_from_now] cancelled. *)

From S2P Require Import Prelude CLib PTree Regex EscapeString OrdMap Irc Avbot Html Avlog.

(** ** The settings file *)

Inductive file : Type := NoFile | NoRead (size : nat) | Text (t : cstring).

(** [BadLexicalCast] leaves [io_service::run]; [Endless] is a loop that does not
    end. *)
Inductive bulletin_fault : Type := BadLexicalCast | Endless.

(** One [std::getline]: the line, the stream behind it and whether the end of the
    file was reached.  A stream that is not open fails without reaching the end,
    and leaves the line as it is. *)
Definition getline (stream : option cstring) (line : cstring) : cstring * option cstring * bool :=
  match stream with
  | None => (line, None, false)
  | Some t => let '(l, rest) := span (fun c => negb (c =c LF)) t in
              match rest with [] => (l, Some [], true) | _ :: rest' => (l, Some rest', false) end
  end.

(** [while (std::getline(...), !eof())]. *)
Fixpoint settings_loop (fuel : nat) (stream : option cstring) (line : cstring) (acc : list cstring) : option (list cstring) :=
  match fuel with
  | O => None
  | S fuel' =>
      let '(line', stream', eof) := getline stream line in
      if (eof : bool) then Some acc else settings_loop fuel' stream' line' (acc ++ [line'])
  end.

Definition stream_of (f : file) : option cstring := match f with Text t => Some t | _ => None end.
Definition stream_size (f : file) : nat := match f with Text t => length t | _ => 0 end.

(** ** Times *)

Definition cron_char (c : ascii) : bool := isdigit c || (c =c "*").
Definition blank_char (c : ascii) : bool := (c =c " ") || (c =c TAB).
Definition cron_field : regex := Group (Plus cron_char).
Definition cron_re (last : regex) : regex :=
  Seq cron_field (lit ($"-") (Seq cron_field (lit ($"-") (Seq cron_field (lit ($"-") (Seq cron_field (lit ($"-") last))))))).
Definition ex1 : regex := cron_re (Seq cron_field (Seq (Plus blank_char) (Group (Star any_char)))).
Definition ex2 : regex := cron_re cron_field.

Definition is_match (cronline_field : cstring) (field : Z) : result bulletin_fault bool :=
  if str_eqb cronline_field ($"*") then Ok true
  else match lexical_int cronline_field with Some n => Ok (n =? field) | None => Err BadLexicalCast end.

(** [&&]: the second operand only when the first is true. *)
Definition and_then (a b : result bulletin_fault bool) : result bulletin_fault bool :=
  match a with Ok true => b | _ => a end.

(** ** State *)

(** A wait has its time and, for the handler that sends, the name of its file. *)
Record bulletin : Type := Bulletin {
  m_channel_name : cstring;
  m_settings : list cstring;
  m_timer : list (Z * option cstring);
  timer_aborted : list (option cstring);
  bulletin_sent : list (Z * cstring)
}.

Definition set_settings (l : list cstring) (s : bulletin) : bulletin :=
  Bulletin (m_channel_name s) l (m_timer s) (timer_aborted s) (bulletin_sent s).
(** [expires_from_now], which cancels the waits, then [async_wait]. *)
Definition wait_until (t : Z) (f : option cstring) (s : bulletin) : bulletin :=
  Bulletin (m_channel_name s) (m_settings s) [(t, f)] (timer_aborted s ++ map snd (m_timer s)) (bulletin_sent s).
Definition m_sender (now : Z) (text : cstring) (s : bulletin) : bulletin :=
  Bulletin (m_channel_name s) (m_settings s) (m_timer s) (timer_aborted s) (bulletin_sent s ++ [(now, text)]).

Section Bulletin.
Context {E : RegexEngine}.
Variable date_of : Z -> Z * Z * Z.
(** The files, by their path below the current directory. *)
Variable files : cstring -> file.

Abbreviation B := (st bulletin bulletin_fault).

Definition date_year (t : Z) : Z := fst (fst (date_of (t / 86400))).
Definition date_month (t : Z) : Z := snd (fst (date_of (t / 86400))).
Definition date_day (t : Z) : Z := snd (date_of (t / 86400)).
Definition time_hours (t : Z) : Z := t mod 86400 / 3600.
Definition time_minutes (t : Z) : Z := t mod 3600 / 60.

Definition cron_matches (what : captures) (titr : Z) : result bulletin_fault bool :=
  and_then (is_match (sub_match what 0) (date_year titr))
    (and_then (is_match (sub_match what 1) (date_month titr))
      (and_then (is_match (sub_match what 2) (date_day titr))
        (and_then (is_match (sub_match what 3) (time_hours titr))
          (is_match (sub_match what 4) (time_minutes titr))))).

(** The body of the loop over the lines: the file of the first line that
    matches. *)
Fixpoint scan_lines (titr : Z) (lines : list cstring) : result bulletin_fault (option cstring) :=
  match lines with
  | [] => Ok None
  | cronline :: lines' =>
      match regex_match ex1 (c_str cronline) with
      | Some what =>
          match cron_matches what titr with
          | Ok true => Ok (Some (sub_match what 5))
          | Ok false => scan_lines titr lines'
          | Err e => Err e
          end
      | None =>
          match regex_match ex2 (c_str cronline) with
          | Some what =>
              match cron_matches what titr with
              | Ok true => Ok (Some ($"bulletin.txt"))
              | Ok false => scan_lines titr lines'
              | Err e => Err e
              end
          | None => scan_lines titr lines'
          end
      end
  end.

(** The loop over the minutes; [fuel] bounds its turns. *)
Fixpoint scan_times (fuel : nat) (titr end_ : Z) (lines : list cstring) : result bulletin_fault (option (Z * cstring)) :=
  match fuel with
  | O => Err Endless
  | S fuel' =>
      if titr <? end_ then
        match scan_lines titr lines with
        | Ok (Some f) => Ok (Some (titr, f))
        | Ok None => scan_times fuel' (titr + 60) end_ lines
        | Err e => Err e
        end
      else Ok None
  end.

(** Two hours in steps of a minute from 45 seconds on are 120 turns. *)
Definition schedule_next (now rand : Z) : B () :=
  s ← st_get;
  found ← st_lift (scan_times 121 (now + 45) (now + 7200) (m_settings s));
  match found with
  | Some (titr, f) => st_modify (wait_until (now + (titr - now + (rand mod 30 + 15))) (Some f))
  | None => st_modify (wait_until (now + 3600) None)
  end.

Definition load_settings : B () :=
  st_modify (set_settings []) ;;
  s ← st_get;
  let settingsfile := files (path_join (m_channel_name s) ($"bulletin_setting")) in
  match settingsfile with
  | NoFile => mret ()
  | _ =>
      match settings_loop (S (stream_size settingsfile)) (stream_of settingsfile) [] [] with
      | Some l => st_modify (set_settings l)
      | None => st_fail Endless
      end
  end.

(** A file that has a size and can not be opened is a text of NULs. *)
Definition send_msg_file (now : Z) (msgfile : cstring) : B () :=
  s ← st_get;
  st_modify (m_sender now
    match files (path_join (m_channel_name s) msgfile) with
    | Text t => t
    | NoRead n => repeat NUL n
    | NoFile => $"无法打开 [logdir]/" ++ $"/" ++ m_channel_name s ++ $"/" ++ msgfile ++ $" 请检查文件是否存在."
    end).

(** The two handlers of the timer; only the one that sends looks at the error. *)
Definition on_timer_send (ec : bool) (now rand : Z) (msgfile : cstring) : B () :=
  if ec then mret () else load_settings ;; schedule_next now rand ;; send_msg_file now msgfile.
Definition on_timer_scan (now rand : Z) : B () := load_settings ;; schedule_next now rand.

Definition construct (channel_name : cstring) (now rand : Z) : result bulletin_fault (() * bulletin) :=
  (load_settings ;; schedule_next now rand) (Bulletin channel_name [] [] [] []).

(** The time of the wait comes, [late] seconds after it the handler runs. *)
Definition expire (late rand : Z) : B () :=
  s ← st_get;
  match m_timer s with
  | [] => mret ()
  | (t, f) :: rest =>
      st_modify (fun s => Bulletin (m_channel_name s) (m_settings s) rest (timer_aborted s) (bulletin_sent s)) ;;
      match f with Some msgfile => on_timer_send false (t + late) rand msgfile | None => on_timer_scan (t + late) rand end
  end.

Fixpoint expire_all (ds : list (Z * Z)) : B () :=
  match ds with [] => mret () | (late, rand) :: ds' => expire late rand ;; expire_all ds' end.

End Bulletin.
