(* ===== verification/BulletinFacts.v ===== *)
(** The bulletin is kept.  Lines of the settings file as data ([cron]), which
    minutes they name ([due_file]), and that the timer of Bulletin.v goes through
    those minutes: [bulletins_kept].  What a bad line, an unreadable file and a last
    line without an end do. *)

From Stdlib Require Import Sorting.Sorted.
From S2P Require Import Prelude CLib PTree Regex EscapeString OrdMap Irc Avbot Html Avlog Bulletin.

(** ** Lines as data *)

Record cron : Type := Cron {
  cron_year : cstring; cron_month : cstring; cron_day : cstring; cron_hour : cstring; cron_minute : cstring;
  cron_message : option (cstring * cstring)
}.

Definition field_ok (t : cstring) : Prop :=
  t = $"*" \/ t <> [] /\ Forall (fun c => isdigit c = true) t /\ dec_value t < 2 ^ 31.
Definition cron_fields (c : cron) : list cstring := [cron_year c; cron_month c; cron_day c; cron_hour c; cron_minute c].
Record cron_ok (c : cron) : Prop := CronOk {
  ok_fields : Forall field_ok (cron_fields c);
  ok_message : match cron_message c with
               | None => True
               | Some (b, f) => b <> [] /\ Forall (fun c => blank_char c = true) b /\ stops blank_char f /\ free_of [NUL; LF] f
               end
}.

Definition cron_text (c : cron) : cstring :=
  cron_year c ++ $"-" ++ cron_month c ++ $"-" ++ cron_day c ++ $"-" ++ cron_hour c ++ $"-" ++ cron_minute c
  ++ match cron_message c with Some (b, f) => b ++ f | None => [] end.
Definition cron_file (c : cron) : cstring := match cron_message c with Some (_, f) => f | None => $"bulletin.txt" end.
Definition field_due (t : cstring) (v : Z) : bool := str_eqb t ($"*") || (dec_value t =? v).

(** A file of lines, and what is left behind the last end of a line. *)
Definition lines_text (lines : list cstring) (rest : cstring) : cstring := concat (map (fun l => l ++ [LF]) lines) ++ rest.

(** ** Reading the settings *)

Lemma settings_lines lines rest : forall fuel line acc,
  Forall (free_of [LF]) lines -> free_of [LF] rest -> (length (lines_text lines rest) < fuel)%nat ->
  settings_loop fuel (Some (lines_text lines rest)) line acc = Some (acc ++ lines).
Proof.
  assert (forall l : cstring, free_of [LF] l -> Forall (fun c => negb (c =c LF) = true) l) as Hf.
  { intros l. apply List.Forall_impl. intros c. unfold mem_char. cbn [existsb]. rewrite orb_false_r. now intros ->. }
  unfold lines_text. induction lines as [|l lines IH]; intros fuel line acc Hl Hr Hn; (destruct fuel as [|fuel]; [lia|]);
    cbn [settings_loop getline concat map app].
  - rewrite <- (app_nil_r rest), span_stop by (auto; exact I). now rewrite app_nil_r.
  - inversion_clear Hl as [|? ? H1 H2]. rewrite <- !app_assoc. cbn [app].
    rewrite span_stop by (auto; cbn; now rewrite Ascii.eqb_refl). rewrite IH by
      (auto; cbn [concat map] in Hn; rewrite !length_app in *; cbn [length] in *; lia). now rewrite <- app_assoc.
Qed.

(** A file that exists and can not be read keeps the loop going for ever. *)
Lemma settings_endless fuel : forall line acc, settings_loop fuel None line acc = None.
Proof. induction fuel as [|fuel IH]; intros; [reflexivity|apply IH]. Qed.

(** ** Matching a line *)

(** The texts that the expressions take for a field. *)
Definition field_text (t : cstring) : Prop := t <> [] /\ Forall (fun c => cron_char c = true) t.

Lemma field_chars t : field_ok t -> field_text t.
Proof.
  intros [->|(H & Hd & _)]; [split; [discriminate|now repeat constructor]|]. split; [exact H|].
  revert Hd. apply List.Forall_impl. unfold cron_char. now intros c ->.
Qed.

Lemma field_match {R} t rest (k : cstring -> captures -> cstring -> option R) x :
  field_text t -> stops cron_char rest -> k t [Some t] rest = Some x -> match_at cron_field (t ++ rest) k = Some x.
Proof. intros [H1 H2] Hr Hk. now apply match_group_plus. Qed.

Lemma fields_chars c : cron_ok c -> Forall field_text (cron_fields c).
Proof. intros [H _]. revert H. apply List.Forall_impl, field_chars. Qed.

Lemma cron_fields_match {R} c last rest (k : cstring -> captures -> cstring -> option R) x :
  Forall field_text (cron_fields c) ->
  match_at last (cron_minute c ++ rest)
    (fun t cs r => k (cron_year c ++ $"-" ++ cron_month c ++ $"-" ++ cron_day c ++ $"-" ++ cron_hour c ++ $"-" ++ t)
                     (map Some [cron_year c; cron_month c; cron_day c; cron_hour c] ++ cs) r) = Some x ->
  match_at (cron_re last)
    (cron_year c ++ $"-" ++ cron_month c ++ $"-" ++ cron_day c ++ $"-" ++ cron_hour c ++ $"-" ++ cron_minute c ++ rest) k = Some x.
Proof.
  intros H Hk. unfold cron_fields in H. repeat (apply Forall_cons_1 in H as [?H H]). unfold cron_re.
  do 4 (rewrite match_at_seq; apply field_match; [assumption|reflexivity|]; rewrite match_at_lit). exact Hk.
Qed.

Lemma cron_char_plain c : implb (cron_char c) (negb (mem_char c [NUL; LF; TAB; " "%char])) = true.
Proof. now apply (forall_ascii (fun c => implb (cron_char c) (negb (mem_char c [NUL; LF; TAB; " "%char])))). Qed.

Lemma field_free t : field_text t -> free_of [NUL; LF; TAB; " "%char] t.
Proof.
  intros [_ H]. revert H. apply List.Forall_impl. intros c Hc.
  pose proof (cron_char_plain c) as P. rewrite Hc in P. now apply negb_true_iff in P.
Qed.

Lemma cron_free c : cron_ok c -> free_of [NUL; LF] (cron_text c).
Proof.
  intros Hc. pose proof (fields_chars c Hc) as Hf. destruct Hc as [_ Hm]. unfold cron_fields in Hf. repeat (apply Forall_cons_1 in Hf as [?H Hf]).
  unfold cron_text. assert (forall t, field_text t -> free_of [NUL; LF] t) as Hp by
    (intros t Ht; apply (free_of_sub [NUL; LF; TAB; " "%char]); [intros x; rewrite !list_elem_of_In; cbn; tauto|now apply field_free]).
  assert (free_of [NUL; LF] ($"-")) as Hd by (repeat constructor).
  rewrite !free_of_app. repeat (split; [auto|]). destruct (cron_message c) as [[b f]|]; [|constructor].
  destruct Hm as (_ & Hb & _ & Hff). apply free_of_app. split; [|exact Hff]. revert Hb. apply List.Forall_impl.
  unfold blank_char. intros x Hx. apply orb_true_iff in Hx as [Hx|Hx]; apply Ascii.eqb_eq in Hx as ->; reflexivity.
Qed.

Lemma ex1_match {E : RegexEngine} {L : RegexLaws E} c b f : cron_ok c -> cron_message c = Some (b, f) ->
  regex_match ex1 (cron_text c) = Some (map Some (cron_fields c ++ [f])).
Proof.
  intros Hc Em. pose proof (fields_chars c Hc) as Hf. destruct Hc as [_ Hm]. rewrite Em in Hm. destruct Hm as (Hb & Hb' & Hs & _). rewrite regex_match_perl. unfold perl_match, ex1, cron_text.
  rewrite Em. apply cron_fields_match; [exact Hf|]. unfold cron_fields in *. repeat (apply Forall_cons_1 in Hf as [?H Hf]).
  rewrite match_at_seq. apply field_match; [assumption| |].
  { destruct b as [|x b]; [congruence|]. inversion_clear Hb' as [|? ? Hx _]. cbn. unfold blank_char in Hx.
    apply orb_true_iff in Hx as [Hx|Hx]; apply Ascii.eqb_eq in Hx as ->; reflexivity. }
  rewrite match_at_seq. apply match_plus; [exact Hb'|exact Hb|exact Hs|]. rewrite match_group. now apply match_all.
Qed.

Lemma ex2_match {E : RegexEngine} {L : RegexLaws E} c : Forall field_text (cron_fields c) -> cron_message c = None ->
  regex_match ex2 (cron_text c) = Some (map Some (cron_fields c)).
Proof.
  intros Hf Em. rewrite regex_match_perl. unfold perl_match, ex2, cron_text.
  rewrite Em. apply cron_fields_match; [exact Hf|]. unfold cron_fields in *. repeat (apply Forall_cons_1 in Hf as [?H Hf]).
  apply field_match; [assumption|exact I|reflexivity].
Qed.

(** The longer expression needs a blank. *)
Lemma ex1_needs_blank {E : RegexEngine} {L : RegexLaws E} s : free_of [TAB; " "%char] s -> regex_match ex1 s = None.
Proof.
  intros Hs. rewrite regex_match_perl. apply perl_match_correct. intros cs H. unfold ex1, cron_re, cron_field in H. cbn [lit] in H.
  repeat match goal with
         | H : parses (Seq _ _) _ _ |- _ => inversion H; clear H; subst
         | H : free_of _ (_ ++ _) |- _ => apply free_of_app in H as [? ?]
         end.
  match goal with H : parses (Plus blank_char) _ _ |- _ => inversion H; clear H; subst end.
  match goal with H : parses (Chr blank_char) _ _ |- _ => inversion H; clear H; subst end.
  match goal with H : free_of _ (_ ++ _) |- _ => apply free_of_app in H as [H _]; inversion_clear H end.
  unfold blank_char in *. match goal with H : _ || _ = true |- _ => apply orb_true_iff in H as [H|H]; apply Ascii.eqb_eq in H as -> end; discriminate.
Qed.

(** A line without a message has no blank. *)
Lemma short_match {E : RegexEngine} {L : RegexLaws E} c : Forall field_text (cron_fields c) -> cron_message c = None ->
  regex_match ex1 (cron_text c) = None /\ regex_match ex2 (cron_text c) = Some (map Some (cron_fields c)).
Proof.
  intros Hf Em. split; [|now apply ex2_match]. apply ex1_needs_blank. unfold cron_text. rewrite Em, app_nil_r.
  unfold cron_fields in Hf. repeat (apply Forall_cons_1 in Hf as [?H Hf]).
  assert (forall t, field_text t -> free_of [TAB; " "%char] t) as Hp by
    (intros t Ht; apply (free_of_sub [NUL; LF; TAB; " "%char]); [intros x; rewrite !list_elem_of_In; cbn; tauto|now apply field_free]).
  assert (free_of [TAB; " "%char] ($"-")) as Hd by (repeat constructor).
  rewrite !free_of_app. repeat (split; [auto|]). auto.
Qed.

Lemma is_match_due t v : field_ok t -> is_match t v = Ok (field_due t v).
Proof.
  unfold is_match, field_due. intros [->|(Hn & Hd & Hv)]; [reflexivity|]. destruct (str_eqb t ($"*")); [reflexivity|].
  assert (lexical_int t = Some (dec_value t)) as ->; [|reflexivity]. unfold lexical_int.
  assert (strtol_sign t = (false, t)) as ->.
  { destruct t as [|c t]; [congruence|]. inversion_clear Hd as [|? ? Hc _]. destruct (isdigit_not_sign c Hc) as [H1 H2].
    unfold strtol_sign. now rewrite H1, H2. }
  assert (forallb isdigit t = true) as Hf by (apply forallb_forall, List.Forall_forall; exact Hd). rewrite Hf.
  pose proof (dec_value_nonneg t Hf). destruct (str_eqb_spec t []) as [->|_]; [congruence|]. cbn [negb andb].
  destruct (Z.leb_spec (- 2 ^ 31) (dec_value t)); [|lia]. destruct (Z.ltb_spec (dec_value t) (2 ^ 31)); [reflexivity|lia].
Qed.

Section Due.
Context {E : RegexEngine} {L : RegexLaws E}.
Variable date_of : Z -> Z * Z * Z.
Variable files : cstring -> file.
Variable crons : list cron.

(** Minute [M] is the time from second [60 * M] on. *)
Definition cron_due (M : Z) (c : cron) : bool :=
  field_due (cron_year c) (date_year date_of (60 * M)) && field_due (cron_month c) (date_month date_of (60 * M))
  && field_due (cron_day c) (date_day date_of (60 * M)) && field_due (cron_hour c) (time_hours (60 * M))
  && field_due (cron_minute c) (time_minutes (60 * M)).
Definition due_file (M : Z) : option cstring := cron_file <$> List.find (cron_due M) crons.

Lemma matches_due c f titr : Forall field_ok (cron_fields c) ->
  cron_matches date_of (map Some (cron_fields c ++ f)) titr = Ok (cron_due (titr / 60) c).
Proof.
  intros Hf. unfold cron_matches, cron_fields in *. repeat (apply Forall_cons_1 in Hf as [?H Hf]). cbn [map app sub_match lookup list_lookup].
  rewrite !is_match_due by assumption. unfold cron_due.
  assert (60 * (titr / 60) / 86400 = titr / 86400) as Ed by (Z.to_euclidean_division_equations; lia).
  assert (time_hours (60 * (titr / 60)) = time_hours titr) as -> by (unfold time_hours; Z.to_euclidean_division_equations; lia).
  assert (time_minutes (60 * (titr / 60)) = time_minutes titr) as -> by (unfold time_minutes; Z.to_euclidean_division_equations; lia).
  unfold date_year, date_month, date_day. rewrite Ed. unfold and_then.
  repeat match goal with |- context [field_due ?t ?v] => destruct (field_due t v) end; reflexivity.
Qed.

Lemma scan_lines_due titr : Forall cron_ok crons -> scan_lines date_of titr (map cron_text crons) = Ok (due_file (titr / 60)).
Proof.
  unfold due_file. induction crons as [|c cs IH]; intros Hc; [reflexivity|]. inversion_clear Hc as [|? ? H1 H2].
  cbn [map scan_lines List.find]. rewrite c_str_id by
    (apply (free_of_sub [NUL; LF]); [intros x; rewrite !list_elem_of_In; cbn; tauto|now apply cron_free]).
  pose proof (ok_fields c H1) as Hf. destruct (cron_message c) as [[b f]|] eqn:Em.
  - rewrite (ex1_match c b f H1 Em), matches_due by exact Hf.
    destruct (cron_due (titr / 60) c); [|now apply IH]. unfold cron_file. cbn. now rewrite Em.
  - destruct (short_match c (fields_chars c H1) Em) as [-> ->]. rewrite <- (app_nil_r (cron_fields c)), matches_due by exact Hf.
    destruct (cron_due (titr / 60) c); [|now apply IH]. unfold cron_file. cbn. now rewrite Em.
Qed.

(** The first minute of the search that is due. *)
Lemma scan_times_due fuel : forall titr end_, Forall cron_ok crons -> (0 < fuel)%nat -> end_ - titr <= 60 * (Z.of_nat fuel - 1) ->
  exists r, scan_times date_of fuel titr end_ (map cron_text crons) = Ok r
    /\ match r with
       | Some (t, f) => exists k, 0 <= k /\ t = titr + 60 * k /\ t < end_ /\ due_file (titr / 60 + k) = Some f
                          /\ forall j, 0 <= j < k -> due_file (titr / 60 + j) = None
       | None => forall j, 0 <= j -> titr + 60 * j < end_ -> due_file (titr / 60 + j) = None
       end.
Proof.
  induction fuel as [|fuel IH]; intros titr end_ Hc H0 Hn; [lia|]. cbn [scan_times].
  destruct (Z.ltb_spec titr end_) as [Hlt|Hge]; [|exists None; split; [reflexivity|]; intros; lia].
  rewrite scan_lines_due by exact Hc. destruct (due_file (titr / 60)) as [f|] eqn:Ed.
  { eexists. split; [reflexivity|]. exists 0. rewrite Z.add_0_r, Z.add_0_r. repeat split; (lia || auto). }
  destruct (IH (titr + 60) end_ Hc) as (r & Er & Hr); [lia|lia|]. exists r. split; [exact Er|].
  assert ((titr + 60) / 60 = titr / 60 + 1) as E1 by (Z.to_euclidean_division_equations; lia). rewrite E1 in Hr.
  assert (forall j, 1 <= j -> titr / 60 + j = titr / 60 + 1 + (j - 1)) as E2 by lia.
  destruct r as [[t f]|].
  - destruct Hr as (k & H1 & H2 & H3 & H4 & H5). exists (k + 1). repeat split; [lia|lia|exact H3|rewrite <- H4; f_equal; lia|].
    intros j Hj. destruct (Z.eq_dec j 0) as [->|]; [now rewrite Z.add_0_r|]. rewrite E2 by lia. apply H5. lia.
  - intros j Hj Hl. destruct (Z.eq_dec j 0) as [->|]; [now rewrite Z.add_0_r|]. rewrite E2 by lia. apply Hr; lia.
Qed.

(** ** One search *)

(** What the timer waits for after a search at [now], as far as the minutes
    tell. *)
Definition armed (now : Z) (w : Z * option cstring) : Prop :=
  let W := (now + 45) / 60 in
  match w with
  | (t, Some f) => exists titr, W <= titr / 60 < W + 120 /\ titr + 15 <= t < titr + 45 /\ now + 45 <= titr
                     /\ due_file (titr / 60) = Some f /\ forall M, W <= M < titr / 60 -> due_file M = None
  | (t, None) => t = now + 3600 /\ forall M, W <= M < W + 120 -> due_file M = None
  end.

Lemma schedule_armed now rand s : Forall cron_ok crons -> m_settings s = map cron_text crons ->
  exists w, schedule_next date_of now rand s
            = Ok ((), Bulletin (m_channel_name s) (m_settings s) [w] (timer_aborted s ++ map snd (m_timer s)) (bulletin_sent s))
    /\ armed now w.
Proof.
  intros Hc Es. unfold schedule_next. run. rewrite Es.
  destruct (scan_times_due 121 (now + 45) (now + 7200) Hc) as (r & Er & Hr); [lia|lia|]. rewrite Er. destruct r as [[t f]|].
  - destruct Hr as (k & H1 & -> & H3 & H4 & H5). eexists. split; [now unfold wait_until; rewrite Es|].
    assert ((now + 45 + 60 * k) / 60 = (now + 45) / 60 + k) as Ek by (Z.to_euclidean_division_equations; lia).
    pose proof (Z.mod_pos_bound rand 30 ltac:(lia)). exists (now + 45 + 60 * k). rewrite Ek.
    repeat split; try lia; [exact H4|]. intros M HM. specialize (H5 (M - (now + 45) / 60)).
    rewrite <- H5 by lia. f_equal. lia.
  - eexists. split; [now unfold wait_until; rewrite Es|]. split; [reflexivity|]. intros M HM.
    rewrite <- (Hr (M - (now + 45) / 60)) by lia. f_equal. lia.
Qed.

(** ** The run *)

Variables (ch rest : cstring).
Definition settings_kept : Prop :=
  files (path_join ch ($"bulletin_setting")) = Text (lines_text (map cron_text crons) rest) /\ free_of [LF] rest /\ Forall cron_ok crons.

(** The text of a message file. *)
Definition message_text (f : cstring) : cstring :=
  match files (path_join ch f) with
  | Text t => t
  | NoRead n => repeat NUL n
  | NoFile => $"无法打开 [logdir]/" ++ $"/" ++ ch ++ $"/" ++ f ++ $" 请检查文件是否存在."
  end.

(** The message of minute [M]: what was sent, and when. *)
Definition message_of (M : Z) (e : Z * cstring) : Prop :=
  60 * M + 15 <= fst e < 60 * M + 135 /\ exists f, due_file M = Some f /\ snd e = message_text f.

(** A minute that is due and the one before it is not. *)
Definition alone (M : Z) : Prop := due_file M <> None /\ due_file (M - 1) = None.

Lemma load_kept s : settings_kept -> m_channel_name s = ch ->
  load_settings files s = Ok ((), set_settings (map cron_text crons) s).
Proof.
  intros (Hf & Hr & Hc) Ec. unfold load_settings. run. change (m_channel_name (set_settings [] s)) with (m_channel_name s). rewrite Ec, Hf. cbn [stream_size stream_of].
  rewrite settings_lines; [reflexivity| |exact Hr|lia]. apply Forall_map. revert Hc. apply List.Forall_impl. intros c Hc.
  apply (free_of_sub [NUL; LF]); [intros x; rewrite !list_elem_of_In; cbn; tauto|now apply cron_free].
Qed.

Lemma load_schedule now rand s : settings_kept -> m_channel_name s = ch ->
  exists w, (load_settings files ;; schedule_next date_of now rand) s
            = Ok ((), Bulletin ch (map cron_text crons) [w] (timer_aborted s ++ map snd (m_timer s)) (bulletin_sent s))
    /\ armed now w.
Proof.
  intros Hk Ec. destruct (schedule_armed now rand (set_settings (map cron_text crons) s)) as (w & Ew & Hw); [apply Hk|reflexivity|].
  exists w. split; [|exact Hw]. erewrite bind_ok by now apply load_kept. rewrite Ew. cbn. now rewrite Ec.
Qed.

(** The minutes below [C] are done: what was sent are the messages of minutes
    in order, each minute once, and those that stand alone are among them. *)
Definition covered (start C : Z) (sent : list (Z * cstring)) : Prop :=
  exists Ms, StronglySorted Z.lt Ms /\ Forall (fun M => start <= M < C) Ms /\ Forall2 message_of Ms sent
    /\ forall M, start <= M < C -> alone M -> In M Ms.

(** [n] counts the times the timer expired, [w] is the wait. *)
Definition progress (start : Z) (n : nat) (sent : list (Z * cstring)) (w : Z * option cstring) : Prop :=
  match w with
  | (t, Some f) => exists titr, covered start (titr / 60) sent /\ titr + 15 <= t < titr + 45 /\ due_file (titr / 60) = Some f
                     /\ Z.of_nat n <= 2 * (titr / 60 - start) + 1
  | (t, None) => exists now, let W := (now + 45) / 60 in
                   t = now + 3600 /\ covered start (W + 120) sent /\ (forall M, W <= M < W + 120 -> due_file M = None)
                   /\ Z.of_nat n <= 2 * (W + 120 - start)
  end.

Lemma covered_more start C C' sent : covered start C sent -> C <= C' -> (forall M, C <= M < C' -> ~ alone M) -> covered start C' sent.
Proof.
  intros (Ms & Hs & HC & Hm & Ha) Hle Hn. exists Ms. repeat split; [exact Hs| |exact Hm|].
  - revert HC. apply List.Forall_impl. lia.
  - intros M HM HA. destruct (Z.lt_ge_cases M C); [apply Ha; [lia|exact HA]|]. now apply Hn in HA; [|lia].
Qed.

(** A search that begins at or before the first minute that is not done, and
    before which nothing else is due. *)
Lemma progress_armed start n sent C now w :
  let W := (now + 45) / 60 in
  covered start C sent -> W <= C <= W + 119 -> (forall M, W <= M < C -> due_file M = None) -> Z.of_nat n <= 2 * (C - start) + 1 ->
  armed now w -> progress start n sent w.
Proof.
  intros W Hcov HW Hnone Hn. assert (forall M, due_file M = None -> ~ alone M) as Hd by (now intros M HM [H _]).
  destruct w as [t [f|]]; cbn [armed progress]; fold W.
  - intros (titr & H1 & H2 & _ & H3 & H4). assert (C <= titr / 60) as Hle.
    { destruct (Z.lt_ge_cases (titr / 60) C) as [Hlt|]; [|lia]. now rewrite Hnone in H3 by lia. }
    exists titr. repeat split; [|lia|lia|exact H3|lia]. apply (covered_more _ C); [exact Hcov|exact Hle|]. intros M HM. apply Hd, H4. lia.
  - intros [-> H]. exists now. fold W. repeat split; [|exact H|lia]. apply (covered_more _ C); [exact Hcov|lia|].
    intros M HM. apply Hd, H. lia.
Qed.

Lemma minutes_snoc (l : list Z) x : StronglySorted Z.lt l -> Forall (fun y => y < x) l -> StronglySorted Z.lt (l ++ [x]).
Proof.
  induction 1 as [|y l Hl IH Hy]; intros Hx; [repeat constructor|]. inversion_clear Hx as [|? ? H1 H2]. cbn. constructor; [now apply IH|].
  apply Forall_app. split; [exact Hy|now repeat constructor].
Qed.

Lemma covered_sent start M sent e : covered start M sent -> start <= M -> message_of M e -> covered start (M + 1) (sent ++ [e]).
Proof.
  intros (Ms & Hs & HC & Hm & Ha) Hle He. exists (Ms ++ [M]). repeat split.
  - apply minutes_snoc; [exact Hs|]. revert HC. apply List.Forall_impl. lia.
  - apply Forall_app. split; [|repeat constructor; lia]. revert HC. apply List.Forall_impl. lia.
  - apply Forall2_app; [exact Hm|]. constructor; [exact He|constructor].
  - intros M' HM HA. apply in_or_app. destruct (Z.eq_dec M' M) as [->|]; [right; now left|left; apply Ha; [lia|exact HA]].
Qed.

(** Minutes between the one that is announced and the first of the next
    search. *)
Lemma next_search titr t late :
  titr + 15 <= t < titr + 45 -> 0 <= late <= 31 ->
  titr / 60 + 1 <= (t + late + 45) / 60 <= titr / 60 + 2 /\ 60 * (titr / 60) + 15 <= t + late < 60 * (titr / 60) + 135.
Proof. Z.to_euclidean_division_equations; lia. Qed.

Lemma progress_send start n sent t f late w : progress start n sent (t, Some f) -> 0 <= late <= 31 -> armed (t + late) w ->
  progress start (S n) (sent ++ [(t + late, message_text f)]) w.
Proof.
  intros (titr & Hcov & Ht & Hf & Hn) Hl. destruct (next_search titr t late Ht Hl) as [HW HT].
  apply (progress_armed start (S n) _ ((t + late + 45) / 60)); [|lia|intros; lia|lia].
  apply (covered_more _ (titr / 60 + 1)); [apply covered_sent; [exact Hcov|lia|split; [exact HT|eauto]]|lia|].
  intros M HM [_ Hb]. replace (M - 1) with (titr / 60) in Hb by lia. congruence.
Qed.

Lemma progress_scan start n sent t late w : progress start n sent (t, None) -> 0 <= late <= 31 -> armed (t + late) w ->
  progress start (S n) sent w.
Proof.
  intros (now & -> & Hcov & Hd & Hn) Hl. set (W := (now + 45) / 60) in *.
  assert (W + 60 <= (now + 3600 + late + 45) / 60 <= W + 61) as HW by (unfold W; Z.to_euclidean_division_equations; lia).
  apply (progress_armed start (S n) _ (W + 120)); [exact Hcov|lia|intros M HM; apply Hd; lia|lia].
Qed.

Record kept (start : Z) (n : nat) (s : bulletin) : Prop := Kept {
  kept_channel : m_channel_name s = ch;
  kept_aborted : timer_aborted s = [];
  kept_progress : exists w, m_timer s = [w] /\ progress start n (bulletin_sent s) w
}.

Lemma kept_start now rand : settings_kept ->
  exists s, construct date_of files ch now rand = Ok ((), s) /\ kept ((now + 45) / 60) 0 s.
Proof.
  intros Hk. destruct (load_schedule now rand (Bulletin ch [] [] [] []) Hk eq_refl) as (w & Ew & Hw). eexists. split; [exact Ew|].
  split; [reflexivity|reflexivity|]. exists w. split; [reflexivity|].
  apply (progress_armed _ _ _ ((now + 45) / 60) now); [|lia|intros; lia|lia|exact Hw].
  exists []. repeat split; try constructor. lia.
Qed.

Lemma kept_step start n s late rand : settings_kept -> kept start n s -> 0 <= late <= 31 ->
  exists s', expire date_of files late rand s = Ok ((), s') /\ kept start (S n) s'.
Proof.
  intros Hk [Hc Ha ([t f] & Et & Hp)] Hl. unfold expire. run. rewrite Et.
  set (s0 := Bulletin (m_channel_name s) (m_settings s) [] (timer_aborted s) (bulletin_sent s)).
  destruct (load_schedule (t + late) rand s0 Hk Hc) as (w & Ew & Hw). cbn [s0 timer_aborted m_timer bulletin_sent map] in Ew.
  rewrite Ha, app_nil_r in Ew. destruct f as [f|].
  - unfold on_timer_send. unfold mbind, st_bind in Ew |- *. destruct (load_settings files s0) as [[? s1]|] eqn:E1; [|discriminate].
    rewrite Ew. run. eexists. split; [reflexivity|]. split; [reflexivity|reflexivity|]. exists w. split; [reflexivity|].
    now apply progress_send.
  - unfold on_timer_scan. rewrite Ew. eexists. split; [reflexivity|]. split; [reflexivity|reflexivity|]. exists w. split; [reflexivity|].
    now apply (progress_scan _ _ _ t late).
Qed.

Lemma kept_run start ds : forall n s, settings_kept -> kept start n s -> Forall (fun d => 0 <= fst d <= 31) ds ->
  exists s', expire_all date_of files ds s = Ok ((), s') /\ kept start (n + length ds) s'.
Proof.
  induction ds as [|[late rand] ds IH]; intros n s Hk Hs Hd; cbn [expire_all length].
  - exists s. split; [reflexivity|]. now rewrite Nat.add_0_r.
  - inversion_clear Hd as [|? ? H1 H2]. destruct (kept_step start n s late rand Hk Hs H1) as (s1 & E1 & K1).
    destruct (IH (S n) s1 Hk K1 H2) as (s2 & E2 & K2). exists s2. erewrite bind_ok by exact E1. split; [exact E2|].
    now replace (n + S (length ds))%nat with (S n + length ds)%nat by lia.
Qed.

End Due.

(** C35: the bulletin is kept.  The settings file does not change; each of its lines
    ends with a line break, has the form of a setting, and its fields are stars or decimal
    numbers below [2^31]; an unterminated text at its end is no line, and never announced.  The bulletin of the channel is made at [now] and its
    timer expires any number of times, each time at most 31 seconds late, whatever the random numbers
    are.  Then nothing is thrown and exactly one wait is left; what was sent are the
    messages of minutes that a line of the settings names, in the order of the
    minutes and each minute once, the file of the first line that names it, at least 15 and less than 135
    seconds from the minute's begin; and a minute that is named while the minute before
    it is not is announced as soon as the timer expired often enough: twice for each
    minute since the start, and twice more. *)
Theorem bulletins_kept {E : RegexEngine} {L : RegexLaws E} (date_of : Z -> Z * Z * Z) (files : cstring -> file) (crons : list cron)
    (ch rest : cstring) (now rand : Z) (ds : list (Z * Z)) :
  settings_kept files crons ch rest -> Forall (fun d => 0 <= fst d <= 31) ds ->
  exists s0 s Ms w,
    construct date_of files ch now rand = Ok ((), s0) /\ expire_all date_of files ds s0 = Ok ((), s) /\ m_timer s = [w]
    /\ StronglySorted Z.lt Ms /\ Forall2 (message_of date_of files crons ch) Ms (bulletin_sent s)
    /\ forall M, (now + 45) / 60 <= M -> alone date_of crons M -> (2 * (Z.to_nat (M - (now + 45) / 60) + 1) <= length ds)%nat -> In M Ms.
Proof.
  intros Hk Hd. destruct (kept_start date_of files crons ch rest now rand Hk) as (s0 & E0 & K0).
  destruct (kept_run date_of files crons ch rest _ ds 0 s0 Hk K0 Hd) as (s & E1 & [_ _ ([t f] & Et & Hp)]).
  exists s0, s. destruct f as [f|]; [destruct Hp as (titr & (Ms & H1 & H2 & H3 & H4) & _ & _ & Hn)|destruct Hp as (n0 & _ & (Ms & H1 & H2 & H3 & H4) & _ & Hn)];
    exists Ms; eexists; (split; [exact E0|]; split; [exact E1|]; split; [exact Et|]; split; [exact H1|]; split; [exact H3|]);
    intros M HM HA Hl; apply H4; auto; lia.
Qed.

(** Eight in the morning, every day, and a message of its own at noon on the first
    of January. *)
Definition example_crons : list cron :=
  [Cron ($"*") ($"*") ($"*") ($"08") ($"00") None; Cron ($"*") ($"1") ($"1") ($"12") ($"0") (Some ($" ", $"newyear.txt"))].
Definition example_files (p : cstring) : file :=
  if str_eqb p ($"room/bulletin_setting") then Text (lines_text (map cron_text example_crons) ($"*-*-*-*-*"))
  else if str_eqb p ($"room/bulletin.txt") then Text ($"good morning") else NoFile.
Definition example_date (d : Z) : Z * Z * Z := (1970, 1, d + 1).

Lemma example_settings_kept : settings_kept example_files example_crons ($"room") ($"*-*-*-*-*").
Proof.
  split; [reflexivity|]. split; [now repeat constructor|].
  assert (forall t, t <> [] -> forallb isdigit t = true -> dec_value t < 2 ^ 31 -> field_ok t) as Hf.
  { intros t H1 H2 H3. right. split; [exact H1|]. split; [|exact H3]. apply List.Forall_forall, forallb_forall. exact H2. }
  repeat constructor; try discriminate; try (left; reflexivity); try reflexivity; apply Hf; try discriminate; reflexivity.
Qed.

(** From midnight on, 970 times are enough for the message of eight o'clock. *)
Lemma bulletins_kept_witness :
  exists s0 s Ms w,
    construct (E := perl_engine) example_date example_files ($"room") 0 7 = Ok ((), s0)
    /\ expire_all (E := perl_engine) example_date example_files (repeat (1, 7) 970) s0 = Ok ((), s) /\ m_timer s = [w]
    /\ StronglySorted Z.lt Ms /\ Forall2 (message_of example_date example_files example_crons ($"room")) Ms (bulletin_sent s)
    /\ In 480 Ms.
Proof.
  destruct (bulletins_kept (E := perl_engine) example_date example_files example_crons ($"room") ($"*-*-*-*-*") 0 7 (repeat (1, 7) 970))
    as (s0 & s & Ms & w & H1 & H2 & H3 & H4 & H5 & H6).
  - exact example_settings_kept.
  - apply List.Forall_forall. intros d Hd. apply repeat_spec in Hd as ->. cbn. lia.
  - exists s0, s, Ms, w. repeat (split; [assumption|]). apply H6; [vm_compute; discriminate| |rewrite repeat_length; vm_compute; lia].
    split; [vm_compute; discriminate|vm_compute; reflexivity].
Defined.

(** A minute is passed over when the one before it is announced late: every minute
    is named, made at second 14 with the largest random number, the second message
    is that of minute 2. *)
Theorem next_minute_skipped :
  let files p := if str_eqb p ($"room/bulletin_setting") then Text ($"*-*-*-*-*" ++ [LF]) else Text ($"hello") in
  exists s0 s, construct (E := perl_engine) example_date files ($"room") 14 29 = Ok ((), s0)
    /\ expire_all (E := perl_engine) example_date files [(0, 29); (0, 29)] s0 = Ok ((), s)
    /\ bulletin_sent s = [(103, $"hello"); (192, $"hello")] /\ m_timer s0 = [(103, Some ($"bulletin.txt"))]
    /\ m_timer s = [(281, Some ($"bulletin.txt"))].
Proof. eexists _, _. split; [vm_compute; reflexivity|]. split; [vm_compute; reflexivity|]. split; [reflexivity|]. split; reflexivity. Qed.

Lemma scan_times_throws {E : RegexEngine} date_of fuel titr end_ lines e :
  titr < end_ -> scan_lines date_of titr lines = Err e -> scan_times date_of (S fuel) titr end_ lines = Err e.
Proof. intros H He. cbn [scan_times]. apply Z.ltb_lt in H. now rewrite H, He. Qed.

(** The first line of the settings has fields of digits and stars, and its year is
    neither a star nor a number: every search throws, and no wait is started. *)
Theorem bad_field_throws {E : RegexEngine} {L : RegexLaws E} (date_of : Z -> Z * Z * Z) (now rand : Z) (s : bulletin)
    (c : cron) (ls : list cstring) :
  m_settings s = cron_text c :: ls -> Forall field_text (cron_fields c) -> cron_message c = None ->
  cron_year c <> $"*" -> lexical_int (cron_year c) = None -> schedule_next date_of now rand s = Err BadLexicalCast.
Proof.
  intros Es Hf Em Hy Hl. unfold schedule_next. run. rewrite Es. rewrite (scan_times_throws _ _ _ _ _ BadLexicalCast); [reflexivity|lia|].
  cbn [scan_lines]. destruct (short_match c Hf Em) as [E1 E2]. rewrite c_str_id.
  - rewrite E1, E2. unfold cron_matches, is_match, cron_fields. cbn [map sub_match lookup list_lookup]. apply str_eqb_neq in Hy. now rewrite Hy, Hl.
  - unfold cron_text. rewrite Em, app_nil_r. unfold cron_fields in Hf. repeat (apply Forall_cons_1 in Hf as [?H Hf]).
    assert (forall t, field_text t -> free_of [NUL] t) as Hp by
      (intros t Ht; apply (free_of_sub [NUL; LF; TAB; " "%char]); [intros x; rewrite !list_elem_of_In; cbn; tauto|now apply field_free]).
    assert (free_of [NUL] ($"-")) as Hd by (repeat constructor). rewrite !free_of_app. repeat (split; [auto|]). auto.
Qed.

Lemma bad_field_throws_witness :
  schedule_next (E := perl_engine) example_date 0 0 (Bulletin ($"room") [$"**-*-*-*-*"] [] [] []) = Err BadLexicalCast.
Proof.
  apply (bad_field_throws (E := perl_engine) example_date 0 0 _ (Cron ($"**") ($"*") ($"*") ($"*") ($"*") None) []);
    [reflexivity| |reflexivity|discriminate|reflexivity]. repeat constructor; discriminate.
Defined.

(** A settings file that exists and can not be read: the bulletin is never
    made. *)
Theorem unreadable_settings {E : RegexEngine} (date_of : Z -> Z * Z * Z) (files : cstring -> file) (ch : cstring) (n : nat) (now rand : Z) :
  files (path_join ch ($"bulletin_setting")) = NoRead n ->
  construct date_of files ch now rand = Err Endless /\ forall fuel line acc, settings_loop fuel (stream_of (NoRead n)) line acc = None.
Proof.
  intros Hf. split; [|intros; apply settings_endless]. unfold construct, load_settings. run. cbn [set_settings m_channel_name]. rewrite Hf.
  now rewrite settings_endless.
Qed.

Lemma unreadable_settings_witness :
  construct (E := perl_engine) example_date (fun _ => NoRead 3) ($"room") 0 0 = Err Endless.
Proof. apply (unreadable_settings (E := perl_engine) example_date (fun _ => NoRead 3) ($"room") 3 0 0). reflexivity. Defined.
