(* ===== verification/Joke.v ===== *)
(** Jokes, extension/joke.hpp and joke.cpp: a joke is fetched from a web site and
    sent to the channel when the channel was quiet for an interval, or on request.

    The object is copied into its handlers; the copies share the interval and the
    timer.  The state has the waits of the timer (by their time), the handlers of
    waits that are ready to run ([true] for a wait that was cancelled), the number of
    pages that are being fetched, what was sent, and the files of the settings.  The
    time is an argument of the operations; the generator of random numbers, seeded with
    the time, is a parameter. *)

From S2P Require Import Prelude CLib OrdMap PTree Regex EscapeString Irc Avbot Html Json JsonFacts.

(** ** The page *)

Section Page.
Context {E : RegexEngine}.
Variable utf_to_utf : Z -> cstring.
(** The first number of [boost::mt19937] after [seed]. *)
Variable mt19937 : Z -> Z.

Definition quoted_text (s : cstring) (r : regex) : regex := lit [quote_char] (lit s (lit [quote_char] r)).
Definition joke_re : regex :=
  lit ($"<div class=") (quoted_text ($"content") (lit ($" title=") (Seq (Lazy any_char) (lit ($">") (Seq (Group (Lazy any_char))
    (lit ($"</div><div class=") (lit [quote_char] (Seq (Group (Lazy any_char)) (Chr (fun c => c =c quote_char)))))))))).

Definition joke_text (content : cstring) : cstring :=
  replace_all ($"<br/>") [CR; LF] (replace_all ($"<br/><br/>") [CR; LF] content).

(** The jokes of the page; [fuel] bounds the turns of the loop. *)
Fixpoint jokes_loop (fuel : nat) (message : cstring) (v : list cstring) : list cstring :=
  match fuel with
  | O => v
  | S fuel' =>
      match regex_search joke_re message with
      | Some (before, t, what) =>
          let content := sub_match what 0 in
          let cls := sub_match what 1 in
          jokes_loop fuel' (drop (length before + length t) message)
            (if negb (str_eqb cls ($"thumb")) then v ++ [joke_text content] else v)
      | None => v
      end
  end.

Definition page_text (page : cstring) : cstring := replace_all [LF] [] (replace_all [CR] [] page).
Definition page_jokes (page : cstring) : list cstring := jokes_loop (S (length (page_text page))) (page_text page) [].

Definition get_joke_content (time : Z) (page : cstring) : cstring :=
  let v := page_jokes page in
  match v with
  | [] => $"获取笑话出错， v.size() == 0 "
  | _ => html_unescape utf_to_utf (nth (Z.to_nat (mt19937 time mod Z.of_nat (length v))) v [])
  end.

Definition joke_url (time : Z) : cstring :=
  $"http://www.qiushibaike.com/month/page/" ++ itoa (1 + mt19937 time mod 1000) ++ $"?slow".

(** The handler of [async_read_body]: what is posted to the handler of the
    fetch. *)
Definition fetched (ec : bool) (time : Z) (page : cstring) : cstring :=
  if ec then $"获取笑话出错" else get_joke_content time page.
End Page.

(** ** State *)

Record joke : Type := JokeObject {
  j_channel_name : cstring;
  j_interval : Z;
  j_timer : list Z;
  j_ready : list bool;
  j_fetching : list cstring;
  j_sent : list cstring;
  j_files : cstring -> option cstring
}.

Definition set_interval (n : Z) (s : joke) : joke :=
  JokeObject (j_channel_name s) n (j_timer s) (j_ready s) (j_fetching s) (j_sent s) (j_files s).
Definition j_sender (t : cstring) (s : joke) : joke :=
  JokeObject (j_channel_name s) (j_interval s) (j_timer s) (j_ready s) (j_fetching s) (j_sent s ++ [t]) (j_files s).
Definition set_file (p : cstring) (t : cstring) (s : joke) : joke :=
  JokeObject (j_channel_name s) (j_interval s) (j_timer s) (j_ready s) (j_fetching s) (j_sent s)
    (fun q => if str_eqb q p then Some t else j_files s q).
(** [expires_from_now], which cancels the waits, then [async_wait]. *)
Definition wait_for (t : Z) (s : joke) : joke :=
  JokeObject (j_channel_name s) (j_interval s) [t] (j_ready s ++ map (fun _ => true) (j_timer s)) (j_fetching s) (j_sent s) (j_files s).
(** [cancel]. *)
Definition cancel_waits (s : joke) : nat * joke :=
  (length (j_timer s),
   JokeObject (j_channel_name s) (j_interval s) [] (j_ready s ++ map (fun _ => true) (j_timer s)) (j_fetching s) (j_sent s) (j_files s)).

Definition start (now : Z) (s : joke) : joke := wait_for (now + j_interval s) s.

(** ** Settings *)

Section Joke.
Context {E : RegexEngine} {C : Comments}.
Variable utf_to_utf : Z -> cstring.
Variable mt19937 : Z -> Z.
(** Whether the file of the settings can be written. *)
Variable can_write : bool.

Definition setting_path (s : joke) : cstring := $"joke_setting_" ++ j_channel_name s.

Definition load_setting (s : joke) : joke :=
  let set := match j_files s (setting_path s) with Some t => match read_json t with Ok set => Some set | Err _ => None end | None => None end in
  match set ≫= fun set => pt_get ($"interval") set ≫= stream_int with
  | Some n => set_interval n s
  | None => set_interval (3600 * 24) s
  end.

(** The file is emptied when it is opened; a tree that can not be written leaves it
    so. *)
Definition save_setting (s : joke) : joke :=
  let set := put ($"interval") (itoa (wrapu 64 (j_interval s))) empty_tree in
  if can_write then set_file (setting_path s) (match write_json true set with Some t => t | None => [] end) s else s.

(** ** Handlers *)

(** A fetch is kept by the page it asks for. *)
Definition m_async_jokefecher (now : Z) (s : joke) : joke :=
  JokeObject (j_channel_name s) (j_interval s) (j_timer s) (j_ready s) (j_fetching s ++ [joke_url mt19937 now]) (j_sent s) (j_files s).

(** The joke was fetched. *)
Definition on_joke (now : Z) (text : cstring) (s : joke) : joke := start now (j_sender text s).

(** The timer. *)
Definition on_wait (error : bool) (now : Z) (s : joke) : joke := if error then s else m_async_jokefecher now s.

Definition can_joke (msg : cstring) : bool :=
  str_eqb msg ($".qqbot joke") || str_eqb msg ($".qqbot 给大爷来一个笑话")
  || match find_str ($"大爷") msg, find_str ($"笑话") msg with Some _, Some _ => true | _, _ => false end.

Definition interval_re : regex := lit ($".qqbot joke interval ") (Group (Star any_char)).

(** The end of the handler of messages. *)
Definition restart (now : Z) (s : joke) : joke :=
  let '(n, s') := cancel_waits s in if (0 <? n)%nat then start now s' else s'.

Definition on_interval (sec : Z) (s : joke) : joke :=
  if sec <? 10 then j_sender ($"混蛋, " ++ itoa sec ++ $" 秒太短了!") s
  else save_setting (j_sender ($"笑话间隔为 " ++ itoa sec ++ $" 秒.") (set_interval sec s)).

Definition on_message (now : Z) (msg : ptree) (s : joke) : joke :=
  match pt_get ($"message.text") msg with
  | None => restart now s
  | Some t =>
      let textmsg := trim t in
      if str_eqb textmsg ($".qqbot joke off") then restart now (save_setting (j_sender ($"笑话关闭.") (set_interval (3600 * 24) s)))
      else if str_eqb textmsg ($".qqbot joke on") then restart now (save_setting (j_sender ($"笑话开启.") (set_interval 600 s)))
      else if can_joke textmsg then wait_for (now + 2) s
      else
        match regex_match interval_re (c_str textmsg) with
        | Some what => match lexical_int (sub_match what 0) with Some sec => restart now (on_interval sec s) | None => restart now s end
        | None => restart now s
        end
  end.

(** The constructor; [load_setting] sets the interval in any case. *)
Definition construct (channel_name : cstring) (interval now : Z) (files : cstring -> option cstring) : joke :=
  start now (load_setting (JokeObject channel_name interval [] [] [] [] files)).

(** ** Runs *)

(** What the service of the timer and the network do: the time comes, a handler
    runs, a page arrives. *)
Inductive joke_event : Type :=
| Tick (now : Z)
| RunReady (now : Z)
| Page (now : Z) (ec : bool) (page : cstring)
| Said (now : Z) (msg : ptree).

Definition step (e : joke_event) (s : joke) : joke :=
  match e with
  | Tick now =>
      let due := List.filter (fun t => t <=? now) (j_timer s) in
      JokeObject (j_channel_name s) (j_interval s) (List.filter (fun t => negb (t <=? now)) (j_timer s))
        (j_ready s ++ map (fun _ => false) due) (j_fetching s) (j_sent s) (j_files s)
  | RunReady now =>
      match j_ready s with
      | [] => s
      | error :: rest => on_wait error now
                           (JokeObject (j_channel_name s) (j_interval s) (j_timer s) rest (j_fetching s) (j_sent s) (j_files s))
      end
  | Page now ec page =>
      match j_fetching s with
      | [] => s
      | _ :: rest => on_joke now (fetched utf_to_utf mt19937 ec now page)
                       (JokeObject (j_channel_name s) (j_interval s) (j_timer s) (j_ready s) rest (j_sent s) (j_files s))
      end
  | Said now msg => on_message now msg s
  end.
Definition run_events (es : list joke_event) (s : joke) : joke := fold_left (fun s e => step e s) es s.

End Joke.
