(* ===== verification/JokeFacts.v ===== *)
(** Properties of Joke.v: the teller never stops, settings survive a restart of the
    program, talk puts the next joke off, and jokes are parts of the page. *)

From S2P Require Import Prelude CLib OrdMap PTree EscapeString Irc Avbot Html Json JsonFacts Regex Joke.

(** ** The teller never stops *)

Definition runs (l : list bool) : nat := length (List.filter negb l).

Record alive (s : joke) : Prop := Alive {
  one_wait : (length (j_timer s) <= 1)%nat;
  some_work : (1 <= length (j_timer s) + runs (j_ready s) + length (j_fetching s))%nat
}.

Lemma runs_app l l' : runs (l ++ l') = (runs l + runs l')%nat.
Proof. unfold runs. now rewrite List.filter_app, length_app. Qed.

Lemma runs_aborted {A} (l : list A) : runs (map (fun _ => true) l) = 0%nat.
Proof. unfold runs. now induction l. Qed.

Lemma runs_ready {A} (l : list A) : runs (map (fun _ => false) l) = length l.
Proof. unfold runs. induction l as [|x l IH]; [reflexivity|]. cbn. now f_equal. Qed.

Lemma filter_split {A} (p : A -> bool) l :
  (length (List.filter p l) + length (List.filter (fun x => negb (p x)) l) = length l)%nat.
Proof. induction l as [|x l IH]; [reflexivity|]. cbn. destruct (p x); cbn; lia. Qed.

Section Alive.
Context {E : RegexEngine} {C : Comments}.
Variable utf_to_utf : Z -> cstring.
Variable mt19937 : Z -> Z.
Variable can_write : bool.

Lemma wait_alive t s : alive (wait_for t s).
Proof. split; cbn; lia. Qed.

Lemma restart_alive now s : alive s -> alive (restart now s).
Proof.
  intros [H1 H2]. unfold restart, cancel_waits. destruct (Nat.ltb_spec 0 (length (j_timer s))); [apply wait_alive|].
  split; cbn [j_timer j_ready j_fetching length]; [lia|]. rewrite runs_app, runs_aborted. lia.
Qed.

(** The parts that the waits depend on. *)
Lemma alive_same s s' : j_timer s' = j_timer s -> j_ready s' = j_ready s -> j_fetching s' = j_fetching s -> alive s -> alive s'.
Proof. intros E1 E2 E3 [H1 H2]. split; now rewrite E1, ?E2, ?E3. Qed.

Lemma save_same s : j_timer (save_setting can_write s) = j_timer s /\ j_ready (save_setting can_write s) = j_ready s
  /\ j_fetching (save_setting can_write s) = j_fetching s.
Proof. unfold save_setting. now destruct can_write. Qed.

Lemma save_alive s : alive s -> alive (save_setting can_write s).
Proof. destruct (save_same s) as (H1 & H2 & H3). now apply alive_same. Qed.

Lemma message_alive now msg s : alive s -> alive (on_message can_write now msg s).
Proof.
  intros H. unfold on_message, on_interval. destruct (pt_get _ msg) as [t|]; [|now apply restart_alive]. cbv zeta.
  repeat match goal with
         | |- alive (wait_for _ _) => apply wait_alive
         | |- alive (restart _ _) => apply restart_alive
         | |- alive (save_setting _ _) => apply save_alive
         | |- alive (if ?b then _ else _) => destruct b
         | |- alive (match ?o with Some _ => _ | None => _ end) => destruct o
         | |- _ => now apply (alive_same s)
         end.
Qed.

Lemma step_alive e s : alive s -> alive (step utf_to_utf mt19937 can_write e s).
Proof.
  intros H. destruct e as [now|now|now ec page|now msg]; cbn [step]; [| | |now apply message_alive].
  - destruct H as [H1 H2]. pose proof (filter_split (fun t => t <=? now) (j_timer s)). split; cbn [j_timer j_ready j_fetching]; [lia|].
    rewrite runs_app, runs_ready. lia.
  - destruct (j_ready s) as [|error rest] eqn:Er; [exact H|]. destruct H as [H1 H2]. rewrite Er in H2. unfold on_wait.
    destruct error; split; cbn in *; [lia|exact H2|lia|rewrite length_app; cbn; lia].
  - destruct (j_fetching s); [exact H|apply wait_alive].
Qed.

Lemma run_alive es : forall s, alive s -> alive (run_events utf_to_utf mt19937 can_write es s).
Proof. induction es as [|e es IH]; intros s H; [exact H|]. apply IH, step_alive, H. Qed.

Lemma run_events_app es es' s :
  run_events utf_to_utf mt19937 can_write (es ++ es') s
  = run_events utf_to_utf mt19937 can_write es' (run_events utf_to_utf mt19937 can_write es s).
Proof. apply fold_left_app. Qed.

Lemma run_events_cons e es s :
  run_events utf_to_utf mt19937 can_write (e :: es) s = run_events utf_to_utf mt19937 can_write es (step utf_to_utf mt19937 can_write e s).
Proof. reflexivity. Qed.

(** All the handlers that are ready run. *)
Lemma run_ready now n : forall s, (length (j_ready s) <= n)%nat ->
  let s' := run_events utf_to_utf mt19937 can_write (repeat (RunReady now) n) s in
  j_sent s' = j_sent s /\ length (j_fetching s') = (runs (j_ready s) + length (j_fetching s))%nat.
Proof.
  induction n as [|n IH]; intros s Hn; cbn [repeat].
  - cbv zeta. change (run_events _ _ _ [] s) with s. destruct (j_ready s); [split; reflexivity|cbn in Hn; lia].
  - rewrite run_events_cons. cbn [step]. destruct (j_ready s) as [|error rest] eqn:Er.
    + destruct (IH s) as [I1 I2]; [rewrite Er; cbn; lia|]. rewrite Er in I2. now split.
    + cbn [length] in Hn. destruct error; cbn [on_wait];
        match goal with |- context [run_events _ _ _ _ ?s1] => destruct (IH s1) as [I1 I2]; [cbn; lia|] end;
        (split; [exact I1|]); rewrite I2; cbn [j_ready j_fetching m_async_jokefecher]; unfold runs; cbn; rewrite ?length_app; cbn; lia.
Qed.
End Alive.

(** The teller never stops.  Whatever is said and whatever the network
    does, there is at most one wait of the timer, and always a wait, a handler that is
    ready to fetch or a page that is fetched; and when the time of the wait has come,
    the handlers run and one page arrives, with or without an error, one more joke was
    sent. *)
Theorem jokes_never_stop {E : RegexEngine} {C : Comments} (utf_to_utf : Z -> cstring) (mt : Z -> Z) (can_write : bool) (ch : cstring) (interval t0 : Z)
    (files : cstring -> option cstring) (es : list joke_event) :
  let run := run_events utf_to_utf mt can_write in
  let s := run es (construct ch interval t0 files) in
  alive s
  /\ exists t1, forall now ec page n, t1 <= now -> (length (j_ready s) + length (j_timer s) <= n)%nat ->
       j_sent (run (Tick now :: repeat (RunReady now) n ++ [Page now ec page]) s) = j_sent s ++ [fetched utf_to_utf mt ec now page].
Proof.
  intros run s. assert (alive s) as Ha by (apply run_alive; unfold construct, start; apply wait_alive). split; [exact Ha|].
  exists (fold_right Z.max 0 (j_timer s)). intros now ec page n Hn Hl. unfold run. rewrite run_events_cons, run_events_app.
  set (s1 := step utf_to_utf mt can_write (Tick now) s).
  assert (forall l, fold_right Z.max 0 l <= now -> List.filter (fun t => t <=? now) l = l) as Hf.
  { induction l as [|x l IH]; intros Hx; [reflexivity|]. cbn in *. destruct (Z.leb_spec x now); [f_equal; apply IH; lia|lia]. }
  assert (j_ready s1 = j_ready s ++ map (fun _ => false) (j_timer s)) as Er by (cbn; now rewrite Hf).
  destruct (run_ready utf_to_utf mt can_write now n s1) as [H1 H2]; [rewrite Er, length_app, length_map; exact Hl|].
  rewrite run_events_cons. change (run_events _ _ _ [] ?x) with x.
  destruct (run_events _ _ _ (repeat _ n) s1) as [c i t r f st fs]. cbn [j_sent j_fetching] in *. cbn [step j_fetching].
  destruct f as [|u f].
  - exfalso. destruct Ha as [_ Hw]. rewrite Er, runs_app, runs_ready in H2. cbn in *. lia.
  - cbn. now rewrite H1.
Qed.

Lemma jokes_never_stop_witness :
  exists t1, forall now n, t1 <= now -> (1 <= n)%nat ->
    j_sent (run_events (E := perl_engine) (fun _ => []) (fun t => t) true
              (Tick now :: repeat (RunReady now) n ++ [Page now true []]) (construct (C := c_comments) ($"room") 600 0 (fun _ => None)))
    = [$"获取笑话出错"].
Proof.
  destruct (jokes_never_stop (E := perl_engine) (C := c_comments) (fun _ => []) (fun t => t) true ($"room") 600 0 (fun _ => None) [])
    as (_ & t1 & H). exists t1. intros now n H1 H2. exact (H now true [] n H1 H2).
Defined.

(** ** Settings *)

Lemma find_str_absent c pat s : free_of [c] s -> find_str (c :: pat) s = None.
Proof.
  induction 1 as [|x s Hx _ IH]; [reflexivity|]. cbn [find_str is_prefix]. unfold mem_char in Hx. cbn [existsb] in Hx.
  rewrite orb_false_r in Hx. now rewrite Ascii.eqb_sym, Hx, IH.
Qed.

Lemma dec_value_itoa n : 0 <= n < 2 ^ 63 -> dec_value (itoa n) = n.
Proof.
  intros Hn. unfold itoa. destruct (Z.ltb_spec n 0); [lia|]. unfold dec_value. rewrite dec_digits_value; cbn; lia.
Qed.

Lemma itoa_numbers n : 0 <= n < 2 ^ 31 -> lexical_int (itoa n) = Some n /\ stream_int (itoa n) = Some n.
Proof.
  intros Hn. destruct (itoa_nonneg_digits n) as [H1 H2]; [lia|].
  assert (forallb isdigit (itoa n) = true) as Hf by (apply forallb_forall, List.Forall_forall; exact H2).
  assert (strtol_sign (itoa n) = (false, itoa n)) as Es.
  { destruct (itoa n) as [|c t]; [congruence|]. inversion_clear H2 as [|? ? Hc _]. destruct (isdigit_not_sign c Hc) as [E1 E2].
    unfold strtol_sign. now rewrite E1, E2. }
  pose proof (dec_value_itoa n ltac:(lia)) as Ev.
  assert ((- 2 ^ 31 <=? n) && (n <? 2 ^ 31) = true) as Er by (apply andb_true_iff; split; [apply Z.leb_le|apply Z.ltb_lt]; lia).
  split.
  - unfold lexical_int. rewrite Es, Hf, Ev. destruct (str_eqb_spec (itoa n) []); [congruence|]. cbn [negb andb]. now rewrite Er.
  - unfold stream_int. rewrite drop_while_id by (revert H2; apply List.Forall_impl; intros c; apply isdigit_not_space).
    rewrite Es. rewrite <- (app_nil_r (itoa n)), span_stop by (exact H2 || exact I). rewrite Ev.
    destruct (itoa n); [congruence|]. cbn [forallb andb]. now rewrite Er.
Qed.

(** The commands, the interval they set and the answer. *)
Inductive command : cstring -> Z -> cstring -> Prop :=
| command_off : command ($".qqbot joke off") 86400 ($"笑话关闭.")
| command_on : command ($".qqbot joke on") 600 ($"笑话开启.")
| command_interval n : 10 <= n < 2 ^ 31 ->
    command ($".qqbot joke interval " ++ itoa n) n ($"笑话间隔为 " ++ itoa n ++ $" 秒.").

Section Settings.
Context {E : RegexEngine} {L : RegexLaws E} {C : Comments} {CL : CommentsLaws C}.

Lemma joke_command_run can_write now msg t cmd n reply s :
  pt_get ($"message.text") msg = Some t -> trim t = cmd -> command cmd n reply ->
  on_message can_write now msg s = restart now (save_setting can_write (j_sender reply (set_interval n s))).
Proof.
  intros Et Ec Hc. unfold on_message. rewrite Et. cbv zeta. rewrite Ec. destruct Hc as [| |n Hn]; [reflexivity|reflexivity|].
  set (cmd := $".qqbot joke interval " ++ itoa n).
  assert (str_eqb cmd ($".qqbot joke off") = false) as -> by reflexivity.
  assert (str_eqb cmd ($".qqbot joke on") = false) as -> by reflexivity.
  assert (can_joke cmd = false) as ->.
  { unfold can_joke. change (str_eqb cmd _) with false. change (str_eqb cmd ($".qqbot 给大爷来一个笑话")) with false. cbn [orb].
    change ($"大爷") with ("229"%char :: drop 1 ($"大爷")). rewrite find_str_absent; [reflexivity|]. unfold cmd. apply free_of_app.
    split; [now repeat constructor|now apply itoa_free]. }
  assert (regex_match interval_re (c_str cmd) = Some [Some (itoa n)]) as ->.
  { rewrite c_str_id by (apply free_of_app; split; [now repeat constructor|now apply itoa_free]).
    rewrite regex_match_perl. unfold perl_match, interval_re, cmd. rewrite match_at_lit, match_group. now apply match_all. }
  cbn [sub_match lookup list_lookup]. destruct (itoa_numbers n) as [-> _]; [lia|]. unfold on_interval.
  destruct (Z.ltb_spec n 10); [lia|reflexivity].
Qed.

Lemma save_load s n ch i : 0 <= n < 2 ^ 31 -> j_interval s = n -> j_channel_name s = ch ->
  forall files, files ($"joke_setting_" ++ ch) = j_files (save_setting true s) ($"joke_setting_" ++ ch) ->
  j_interval (load_setting (JokeObject ch i [] [] [] [] files)) = n.
Proof.
  intros Hn Ei Ec files Hf. unfold load_setting, setting_path. cbn [j_files j_channel_name]. rewrite Hf. unfold save_setting, setting_path.
  rewrite Ec, Ei, wrapu_id by lia. cbn [set_file j_files]. rewrite str_eqb_refl.
  destruct (write_json true _) as [t|] eqn:Ew; [|exfalso; revert Ew; unfold write_json; now destruct (itoa n)]. rewrite (read_written _ _ _ Ew).
  assert (pt_get ($"interval") (put ($"interval") (itoa n) empty_tree) = Some (itoa n)) as Eg by reflexivity.
  unfold mbind, option_bind. rewrite Eg. now destruct (itoa_numbers n Hn) as [_ ->].
Qed.

Lemma restart_same now s : j_channel_name (restart now s) = j_channel_name s /\ j_interval (restart now s) = j_interval s
  /\ j_sent (restart now s) = j_sent s /\ j_files (restart now s) = j_files s
  /\ j_timer (restart now s) = match j_timer s with [] => [] | _ => [now + j_interval s] end.
Proof. unfold restart, cancel_waits. now destruct (j_timer s). Qed.
End Settings.

(** The settings of the jokes survive a restart.  After one of the commands
    that set the interval, the interval is the one it names, the answer was sent, a
    wait that was pending is one for the new interval, and a teller that is made later
    for the channel, from the files that were left, has that interval. *)
Theorem joke_setting_kept {E : RegexEngine} {L : RegexLaws E} {C : Comments} {CL : CommentsLaws C} (now now' i : Z) (msg : ptree)
    (t cmd reply : cstring) (n : Z) (s : joke) :
  pt_get ($"message.text") msg = Some t -> trim t = cmd -> command cmd n reply ->
  let s' := on_message true now msg s in
  j_interval s' = n /\ j_sent s' = j_sent s ++ [reply] /\ (j_timer s <> [] -> j_timer s' = [now + n])
  /\ j_interval (construct (j_channel_name s) i now' (j_files s')) = n.
Proof.
  intros Et Ec Hc s'. unfold s'. rewrite (joke_command_run true now msg t cmd n reply s Et Ec Hc).
  set (s1 := j_sender reply (set_interval n s)). destruct (restart_same now (save_setting true s1)) as (_ & H1 & H2 & H3 & H4).
  rewrite H1, H2, H3, H4. split; [reflexivity|]. split; [reflexivity|]. split.
  - intros Hne. cbn. now destruct (j_timer s).
  - unfold construct, start. change (j_interval (wait_for _ ?x)) with (j_interval x).
    apply (save_load s1); [|reflexivity|reflexivity|reflexivity]. destruct Hc; lia.
Qed.

Lemma joke_setting_kept_witness :
  let s' := on_message (E := perl_engine) true 5 (PTree [] [($"message", PTree [] [($"text", pt_value ($" .qqbot joke interval 90 "))])])
              (construct (C := c_comments) ($"room") 600 0 (fun _ => None)) in
  j_interval s' = 90 /\ j_sent s' = [$"笑话间隔为 90 秒."] /\ j_timer s' = [95]
  /\ j_interval (construct (C := c_comments) ($"room") 600 0 (j_files s')) = 90.
Proof.
  destruct (joke_setting_kept (E := perl_engine) (C := c_comments) 5 0 600
    (PTree [] [($"message", PTree [] [($"text", pt_value ($" .qqbot joke interval 90 "))])]) ($" .qqbot joke interval 90 ")
    ($".qqbot joke interval 90") ($"笑话间隔为 90 秒.") 90 (construct (C := c_comments) ($"room") 600 0 (fun _ => None)))
    as (H1 & H2 & H3 & H4); [reflexivity|reflexivity|exact (command_interval 90 ltac:(lia))|].
  split; [exact H1|]. split; [exact H2|]. split; [apply H3; discriminate|exact H4].
Defined.

(** Whatever is said, a request for a joke apart, puts the next joke off by the
    whole interval: in a channel that is never quiet for so long none is told. *)
Theorem talk_puts_off {E : RegexEngine} (can_write : bool) (now : Z) (msg : ptree) (s : joke) :
  (forall t, pt_get ($"message.text") msg = Some t -> can_joke (trim t) = false) -> j_timer s <> [] ->
  j_timer (on_message can_write now msg s) = [now + j_interval (on_message can_write now msg s)].
Proof.
  intros Hj Hne. assert (forall s1, j_timer s1 = j_timer s -> j_timer (restart now s1) = [now + j_interval (restart now s1)]) as Hr.
  { intros s1 E1. destruct (restart_same now s1) as (_ & -> & _ & _ & ->). rewrite E1. now destruct (j_timer s). }
  assert (forall s1, j_timer s1 = j_timer s -> j_timer (save_setting can_write s1) = j_timer s) as Hs.
  { intros s1 <-. apply save_same. }
  unfold on_message. destruct (pt_get _ msg) as [t|]; [|now apply Hr]. cbv zeta. rewrite (Hj t eq_refl). unfold on_interval.
  repeat match goal with |- context [if ?b then _ else _] => destruct b end; try (now apply Hr, Hs).
  destruct (regex_match _ _) as [what|]; [|now apply Hr]. destruct (lexical_int _) as [sec|]; [|now apply Hr].
  apply Hr. destruct (sec <? 10); [reflexivity|now apply Hs].
Qed.

Lemma talk_puts_off_witness :
  j_timer (on_message (E := perl_engine) true 5 (PTree [] [($"message", PTree [] [($"text", pt_value ($"hello"))])])
             (construct (C := c_comments) ($"room") 600 0 (fun _ => None))) = [5 + 86400].
Proof.
  apply (talk_puts_off (E := perl_engine)); [|discriminate]. intros t [= <-]. reflexivity.
Defined.

(** The interval that the program passes, ten minutes, is never used: without a
    file of settings it is a day. *)
Theorem interval_ignored {C : Comments} (ch : cstring) (i i' now : Z) (files : cstring -> option cstring) :
  construct ch i now files = construct ch i' now files
  /\ (files ($"joke_setting_" ++ ch) = None -> j_interval (construct ch i now files) = 86400).
Proof.
  unfold construct, load_setting, setting_path. cbn [j_files j_channel_name]. split.
  - destruct (_ ≫= _); reflexivity.
  - now intros ->.
Qed.

(** ** The page *)

Section Page.
Context {E : RegexEngine} {L : RegexLaws E}.

(** A joke of a text: what stands between the tags, when the next tag is not that
    of a picture. *)
Definition joke_in (text c : cstring) : Prop :=
  exists a title cls b,
    text = a ++ $"<div class=" ++ [quote_char] ++ $"content" ++ [quote_char] ++ $" title=" ++ title ++ $">" ++ c
             ++ $"</div><div class=" ++ [quote_char] ++ cls ++ [quote_char] ++ b
    /\ cls <> $"thumb".

Lemma parses_group_lazy t c : parses (Group (Lazy any_char)) t c -> c = [Some t].
Proof. intros H. inversion H as [| | | | | |a s c' H']; subst. now inversion H'. Qed.

Lemma joke_parsed t c : parses joke_re t c ->
  exists title content cls, c = [Some content; Some cls]
    /\ t = $"<div class=" ++ [quote_char] ++ $"content" ++ [quote_char] ++ $" title=" ++ title ++ $">" ++ content
             ++ $"</div><div class=" ++ [quote_char] ++ cls ++ [quote_char].
Proof.
  unfold joke_re, quoted_text. intros H. do 5 apply parses_lit in H as (? & -> & H).
  apply parses_seq_inv in H as (title & t2 & c1 & c2 & -> & -> & H1 & H). inversion H1; clear H1; subst.
  apply parses_lit in H as (? & -> & H). apply parses_seq_inv in H as (content & t3 & c3 & c4 & -> & -> & Hg & H).
  apply parses_group_lazy in Hg as ->. do 2 apply parses_lit in H as (? & -> & H).
  apply parses_seq_inv in H as (cls & t4 & c5 & c6 & -> & -> & Hk & H). apply parses_group_lazy in Hk as ->.
  inversion H as [p y Hy| | | | | |]; subst. apply Ascii.eqb_eq in Hy as ->. exists title, content, cls. split; reflexivity.
Qed.

Lemma jokes_loop_sound fuel : forall a text v j, In j (jokes_loop fuel text v) ->
  In j v \/ exists c, j = joke_text c /\ joke_in (a ++ text) c.
Proof.
  induction fuel as [|fuel IH]; intros a text v j; cbn [jokes_loop]; [now left|]. rewrite regex_search_perl.
  pose proof (perl_search_correct joke_re text) as Hs. destruct (perl_search joke_re text) as [[[b t] c]|]; [|now left].
  destruct Hs as ((rest & ->) & P & _). apply joke_parsed in P as (title & content & cls & -> & Et).
  intros Hj. rewrite (app_assoc b t rest), drop_app_length' in Hj by (now rewrite length_app).
  apply (IH (a ++ b ++ t)) in Hj as [Hj|(c & -> & Hc)].
  - cbn [sub_match lookup list_lookup] in Hj. destruct (str_eqb_spec cls ($"thumb")) as [_|Hcls]; [now left|].
    cbn [negb] in Hj. apply in_app_or in Hj as [Hj|[<-|[]]]; [now left|]. right. exists content. split; [reflexivity|].
    exists (a ++ b), title, cls, rest. split; [|exact Hcls]. rewrite Et, <- !app_assoc. reflexivity.
  - right. exists c. split; [reflexivity|]. now rewrite <- !app_assoc in Hc.
Qed.

(** More turns find nothing more. *)
Lemma jokes_loop_enough fuel fuel' : forall text v, (length text < fuel)%nat -> (length text < fuel')%nat ->
  jokes_loop fuel text v = jokes_loop fuel' text v.
Proof.
  revert fuel'. induction fuel as [|fuel IH]; intros fuel' text v H1 H2; [lia|]. destruct fuel' as [|fuel']; [lia|]. cbn [jokes_loop].
  rewrite regex_search_perl. pose proof (perl_search_correct joke_re text) as Hs. destruct (perl_search joke_re text) as [[[b t] c]|]; [|reflexivity].
  destruct Hs as ((rest & ->) & P & _). apply joke_parsed in P as (title & content & cls & -> & ->).
  apply IH; rewrite length_drop, !length_app in *; cbn [length] in *; lia.
Qed.
End Page.

(** What is told was on the page: the text that is sent is the note that there is no
    joke, or the unescaped text of a [div] of the page that no picture follows, with
    line breaks; and the loop that collects the jokes ends. *)
Theorem joke_told {E : RegexEngine} {L : RegexLaws E} (utf_to_utf : Z -> cstring) (mt : Z -> Z) (time : Z) (page : cstring) :
  (get_joke_content utf_to_utf mt time page = $"获取笑话出错， v.size() == 0 "
   \/ exists c, get_joke_content utf_to_utf mt time page = html_unescape utf_to_utf (joke_text c) /\ joke_in (page_text page) c)
  /\ forall fuel, (length (page_text page) < fuel)%nat -> jokes_loop fuel (page_text page) [] = page_jokes page.
Proof.
  split; [|intros fuel Hf; apply jokes_loop_enough; lia]. unfold get_joke_content.
  destruct (page_jokes page) as [|j v] eqn:Ej; [now left|]. right.
  set (n := Z.to_nat _). assert (In (nth n (j :: v) []) (page_jokes page)) as Hin.
  { rewrite Ej. apply nth_In. unfold n. pose proof (Z.mod_pos_bound (mt time) (Z.of_nat (length (j :: v)))) as Hb.
    cbn [length] in *. lia. }
  apply (jokes_loop_sound _ []) in Hin as [[]|(c & Ec & Hc)]. exists c. split; [now rewrite Ec|exact Hc].
Qed.

(** Two jokes, a picture after the second. *)
Example example_page :
  let q := [quote_char] in
  let item t k := $"<div class=" ++ q ++ $"content" ++ q ++ $" title=1>" ++ t ++ $"</div><div class=" ++ q ++ k ++ q ++ $">x</div>" in
  page_jokes (E := perl_engine) (item ($"one<br/>two") ($"stats") ++ [CR; LF] ++ item ($"pic") ($"thumb") ++ item ($"three") ($"stats"))
  = [$"one" ++ [CR; LF] ++ $"two"; $"three"].
Proof. vm_compute. reflexivity. Qed.
