(* ===== verification/UrlPreview.v ===== *)
(** Previews of links, extension/urlpreview.hpp and urlpreview.cpp: the title of
    the page behind a link that somebody posted.

    [urlpreview] is the object of a channel, with the links it saw; [detail::urlpreview]
    is one preview: it opens the page, reads its beginning and sends the title.  The
    network gives the outcome of opening, the options of the response and the pieces of
    the body; expressions of the file [blockurls], which is any text, are matched by a
    parameter, and so is the conversion between character sets.  Times are seconds. *)

From S2P Require Import Prelude CLib OrdMap PTree Regex EscapeString Url Irc Avbot Html Json.

(** ** One preview *)

Definition is_html (contenttype : cstring) : bool :=
  if str_eqb contenttype [] then false
  else str_eqb contenttype ($"text/html") || match find_str ($"text/html") contenttype with Some _ => true | None => false end.

Definition charset_char (c : ascii) : bool := isalnum c || mem_char c ($"-_").
Definition quote_p (c : ascii) : bool := (c =c quote_char) || (c =c "'").
Definition charset_re : regex := lit ($"charset=") (Group (Plus charset_char)).
Definition meta_charset_re : regex :=
  lit ($"<meta charset=") (Seq (Opt (Chr quote_p)) (Seq (Group (Plus charset_char)) (Opt (Chr quote_p)))).
Definition title_re : regex :=
  lit ($"<title") (Seq (Star (not_char ">")) (lit ($">") (Seq (Group (Star any_char)) (lit ($"</title") (Chr (fun c => c =c ">")))))).
Definition refresh_re : regex :=
  lit ($"<meta") (Seq (Plus (fun c => c =c " ")) (lit ($"http-equiv=" ++ [quote_char] ++ $"refresh" ++ [quote_char])
    (Seq (Plus (fun c => c =c " ")) (lit ($"content=" ++ [quote_char]) (Seq (Chr (not_char ";")) (lit ($";url=")
      (Seq (Group (Star any_char)) (lit [quote_char] (Seq (Star (fun c => c =c " ")) (Chr (fun c => c =c ">"))))))))))).

(** [read_until_title]: how much more to read. *)
Definition read_until_title (ec : bool) (bytes_transferred max_transfer : Z) (buf : cstring) : Z :=
  if ec then 0
  else if max_transfer <=? bytes_transferred then 0
  else
    let data := to_lower buf in
    match find_str ($"</title>") data with
    | None => max_transfer - bytes_transferred
    | Some _ => match find_str ($"<meta>") data with None => max_transfer - bytes_transferred | Some _ => 0 end
    end.

(** [async_read] with that condition: each piece of the body as far as it is asked
    for; [true] when the body ended first. *)
Fixpoint read_page (max_transfer : Z) (pieces : list cstring) (buf : cstring) : cstring * bool :=
  let n := read_until_title false (Z.of_nat (length buf)) max_transfer buf in
  if n =? 0 then (buf, false)
  else match pieces with
       | [] => (buf, true)
       | p :: pieces' => read_page max_transfer pieces' (buf ++ take (Z.to_nat n) p)
       end.

Inductive preview_output : Type :=
| PreviewSent (text : cstring)
| OpenUrl (speaker url : cstring) (redirect : Z).

Section Preview.
Context {E : RegexEngine}.
Variable utf_to_utf : Z -> cstring.
(** [boost::locale::conv::between(title, "UTF-8", charset)]; [None] is an exception. *)
Variable conv_between : cstring -> cstring -> option cstring.

Definition get_char_set (type header : cstring) : cstring :=
  match regex_search charset_re (c_str type) with
  | Some (_, _, what) => sub_match what 0
  | None =>
      match regex_search meta_charset_re (c_str type) with
      | Some (_, _, what) => sub_match what 0
      | None =>
          match regex_search charset_re (c_str header) with
          | Some (_, _, what) => sub_match what 0
          | None => match regex_search meta_charset_re (c_str header) with Some (_, _, what) => sub_match what 0 | None => $"utf8" end
          end
      end
  end.

(** The page was opened: a message, or how much of it to read. *)
Definition on_open (speaker : cstring) (ec : option cstring) (content_type content_length : cstring) : preview_output + Z :=
  match ec with
  | Some message => inl (PreviewSent ($"@" ++ speaker ++ $", 获取url有错 " ++ message))
  | None =>
      if negb (is_html content_type) then inl (PreviewSent (speaker ++ $" 发的 ⇪ 类型是 " ++ content_type ++ $" "))
      else inr (Z.min (match lexical_uint content_length with Some n => n | None => 4096 end) 4096)
  end.

(** The text up to the first end of a title; [npos + 8] is 7. *)
Definition cut_title (content : cstring) : cstring :=
  match find_str ($"</title>") content with Some n => take (n + 8) content | None => take 7 content end.

Definition page_content (buf : cstring) : cstring := replace_all [LF] [] (replace_all [CR] [] (to_lower buf)).

Definition is_utf8 (charset : cstring) : bool :=
  str_eqb charset ($"utf8") || str_eqb charset ($"utf") || str_eqb charset ($"utf-8").

(** The body was read; an error is not the end of the body. *)
Definition on_read (speaker : cstring) (redirect : Z) (ec : option cstring) (content_type buf : cstring) : preview_output :=
  match ec with
  | Some message => PreviewSent ($"@" ++ speaker ++ $", 获取url有错 " ++ message)
  | None =>
      let content := page_content buf in
      let charset := get_char_set content_type content in
      let content := cut_title content in
      match regex_search title_re (c_str content) with
      | Some (_, _, what) =>
          let title := trim_left_if isspace (sub_match what 0) in
          match (if is_utf8 charset then Some title else conv_between title charset) with
          | Some title => PreviewSent ($"@" ++ speaker ++ $" ⇪ 标题： " ++ html_unescape utf_to_utf (trim title) ++ $" ")
          | None => PreviewSent ($"@" ++ speaker ++ $" ⇪ 解码网页发生错误 ")
          end
      | None =>
          if redirect <? 10 then
            match regex_search refresh_re (c_str content) with
            | Some (_, _, what) => OpenUrl speaker (sub_match what 0) (redirect + 1)
            | None => PreviewSent ($"@" ++ speaker ++ $" ⇪ url 无标题 ")
            end
          else PreviewSent ($"@" ++ speaker ++ $" ⇪ url 无标题 ")
      end
  end.

(** A preview from the opened page on: the pieces of the body and, behind them,
    the error or the end. *)
Definition preview (speaker : cstring) (redirect : Z) (ec : option cstring) (content_type content_length : cstring)
    (pieces : list cstring) (after : option cstring) : preview_output :=
  match on_open speaker ec content_type content_length with
  | inl o => o
  | inr n => let '(buf, ended) := read_page n pieces [] in
             on_read speaker redirect (if (ended : bool) then after else None) content_type buf
  end.
End Preview.

(** ** The links of a channel *)

Record urlpreview : Type := UrlPreview {
  urllist : list (cstring * Z);
  preview_outputs : list preview_output
}.

(** The list is a circular buffer of 20: a full one loses its first. *)
Definition urllist_capacity : nat := 20.
Definition push_url (x : cstring * Z) (l : list (cstring * Z)) : list (cstring * Z) :=
  if (length l <? urllist_capacity)%nat then l ++ [x] else drop 1 l ++ [x].

(** [find_if] and [erase]: the first entry of the link. *)
Fixpoint find_erase (url : cstring) (l : list (cstring * Z)) : option (Z * list (cstring * Z)) :=
  match l with
  | [] => None
  | (u, t) :: l' =>
      if str_eqb u url then Some (t, l')
      else match find_erase url l' with Some (t', r) => Some (t', (u, t) :: r) | None => None end
  end.

(** [time_duration::minutes]: the minutes beside the hours. *)
Definition duration_minutes (d : Z) : Z := Z.rem (Z.quot d 60) 60.

Section Channel.
Context {E : RegexEngine}.
(** The file [blockurls], and whether one of its expressions matches a link; [None]
    is an expression that does not compile. *)
Variable blockurls : option cstring.
Variable block_match : cstring -> cstring -> option bool.

(** The lines up to the first empty one. *)
Fixpoint blocked (lines : list cstring) (urlstr : cstring) : bool :=
  match lines with
  | [] => false
  | urlregex :: lines' =>
      if str_eqb urlregex [] then false
      else match block_match urlregex (c_str urlstr) with Some true => true | _ => blocked lines' urlstr end
  end.

Definition can_preview (urlstr : cstring) : bool :=
  match from_string urlstr with
  | Err _ => false
  | Ok u =>
      if str_eqb (host_ u) ($"web.qq.com") || str_eqb (host_ u) ($"web2.qq.com") then false
      else match blockurls with Some text => negb (blocked (split_on LF text) urlstr) | None => true end
  end.

Definition do_urlpreview (speaker url : cstring) (current : Z) (s : urlpreview) : urlpreview :=
  if negb (can_preview url) then s
  else
    let '(jiange, l) := match find_erase url (urllist s) with
                        | Some (t, l) => (current - t, l)
                        | None => (99 * 60, urllist s)
                        end in
    UrlPreview (push_url (url, current) l)
      (if 5 <=? duration_minutes jiange then preview_outputs s ++ [OpenUrl speaker url 0] else preview_outputs s).

Definition url_char (c : ascii) : bool := isalnum c || mem_char c ($"_.?$-+|&@#/%=~!:,").
Definition url_last (c : ascii) : bool := isalnum c || mem_char c ($"_+&@#/%=~|$").
Definition url_re : regex :=
  lit ($"http") (Seq (Opt (Chr (fun c => c =c "s"))) (lit ($"://") (Seq (Star url_char) (Chr url_last)))).

(** [find_first_of]: the first character that is one of the link's. *)
Fixpoint find_first_of (set s : cstring) : nat :=
  match s with [] => 0 | c :: s' => if mem_char c set then 0 else S (find_first_of set s') end.

(** The loop over the links of a message; [fuel] bounds its turns. *)
Fixpoint links_loop (fuel : nat) (speaker txt : cstring) (now : Z) (s : urlpreview) : urlpreview :=
  match fuel with
  | O => s
  | S fuel' =>
      match regex_search url_re (c_str txt) with
      | Some (_, url, _) =>
          links_loop fuel' speaker (drop (find_first_of url txt + length url) txt) now (do_urlpreview speaker (trim url) now s)
      | None => s
      end
  end.

(** A message; [None] is an exception of the property tree. *)
Definition on_message (now : Z) (message : ptree) (s : urlpreview) : option urlpreview :=
  txt ← pt_get ($"message.text") message;
  speaker ← pt_get ($"who.nick") message;
  Some (links_loop (S (length txt)) speaker txt now s).
End Channel.
