(* ===== verification/UrlPreviewFacts.v ===== *)
(** Properties of UrlPreview.v: which links are previewed, that none is overlooked,
    the title that is sent, and what happens without a title. *)

From S2P Require Import Prelude CLib OrdMap PTree Regex EscapeString Url Irc Avbot Html Json UrlPreview.

(** ** The list of links *)

Definition lastn {A} (k : nat) (l : list A) : list A := drop (length l - k) l.

(** The links of a history, each at its latest time, in the order of those times. *)
Definition note (l : list (cstring * Z)) (x : cstring * Z) : list (cstring * Z) :=
  List.filter (fun y => negb (str_eqb (fst y) (fst x))) l ++ [x].
Definition latest (h : list (cstring * Z)) : list (cstring * Z) := fold_left note h [].
Definition known (url : cstring) (l : list (cstring * Z)) : option Z :=
  snd <$> List.find (fun y => str_eqb (fst y) url) l.

Lemma lastn_all {A} k (l : list A) : (length l <= k)%nat -> lastn k l = l.
Proof. intros H. unfold lastn. now replace (length l - k)%nat with 0%nat by lia. Qed.

Lemma lastn_app {A} (a b : list A) : lastn (length b) (a ++ b) = b.
Proof. unfold lastn. rewrite length_app, Nat.add_sub. apply drop_app_length. Qed.

Lemma filter_absent url (l : list (cstring * Z)) : ~ In url (map fst l) ->
  List.filter (fun y => negb (str_eqb (fst y) url)) l = l.
Proof.
  induction l as [|[u t] l IH]; intros H; [reflexivity|]. cbn in *. destruct (str_eqb_spec u url) as [->|_]; [now destruct H; left|].
  cbn. f_equal. apply IH. tauto.
Qed.

Lemma filter_length url (l : list (cstring * Z)) : List.NoDup (map fst l) -> In url (map fst l) ->
  S (length (List.filter (fun y => negb (str_eqb (fst y) url)) l)) = length l.
Proof.
  induction l as [|[u t] l IH]; intros Hn Hi; [destruct Hi|]. cbn in *. inversion_clear Hn as [|? ? H1 H2].
  destruct (str_eqb_spec u url) as [->|Hne]; cbn; [now rewrite filter_absent|]. destruct Hi as [->|Hi]; [congruence|]. now rewrite IH.
Qed.

Lemma find_erase_known url l : List.NoDup (map fst l) ->
  find_erase url l = match known url l with Some t => Some (t, List.filter (fun y => negb (str_eqb (fst y) url)) l) | None => None end.
Proof.
  unfold known. induction l as [|[u t] l IH]; intros Hn; [reflexivity|]. cbn in *. inversion_clear Hn as [|? ? H1 H2].
  destruct (str_eqb_spec u url) as [->|_]; cbn; [now rewrite filter_absent|]. rewrite (IH H2). now destruct (List.find _ l).
Qed.

Lemma known_none url l : known url l = None -> ~ In url (map fst l).
Proof.
  unfold known. intros H Hi. apply in_map_iff in Hi as ([u t] & <- & Hi). destruct (List.find _ l) eqn:Ef; [discriminate|].
  apply (List.find_none _ _ Ef) in Hi. cbn in Hi. now rewrite str_eqb_refl in Hi.
Qed.

Lemma note_nodup l x : List.NoDup (map fst l) -> List.NoDup (map fst (note l x)).
Proof.
  intros Hn. unfold note. rewrite map_app. cbn [map]. apply List.NoDup_app; [|repeat constructor; intros []|].
  - induction l as [|y l IH]; [constructor|]. inversion_clear Hn as [|? ? H1 H2]. cbn. destruct (negb _); [|now apply IH]. cbn.
    constructor; [|now apply IH]. intros Hi. apply H1. apply in_map_iff in Hi as (z & <- & Hi). apply filter_In in Hi. now apply in_map.
  - intros u Hi [<-|[]]. apply in_map_iff in Hi as (z & Ez & Hi). apply filter_In in Hi as [_ Hi].
    rewrite Ez, str_eqb_refl in Hi. discriminate.
Qed.

Lemma latest_snoc h x : latest (h ++ [x]) = note (latest h) x.
Proof. unfold latest. now rewrite fold_left_app. Qed.

Lemma latest_nodup h : List.NoDup (map fst (latest h)).
Proof.
  unfold latest. assert (List.NoDup (map fst ([] : list (cstring * Z)))) as H by constructor. revert H. generalize ([] : list (cstring * Z)).
  induction h as [|x h IH]; intros l Hl; [exact Hl|]. apply IH. now apply note_nodup.
Qed.

Lemma nodup_lastn k (l : list (cstring * Z)) : List.NoDup (map fst l) -> List.NoDup (map fst (lastn k l)).
Proof.
  intros H. unfold lastn. rewrite <- (take_drop (length l - k) l), map_app in H. now apply List.NoDup_app_remove_l in H.
Qed.

(** The circular buffer keeps the last 20 of them. *)
Lemma push_lastn l url t : List.NoDup (map fst l) ->
  push_url (url, t) (List.filter (fun y => negb (str_eqb (fst y) url)) (lastn 20 l)) = lastn 20 (note l (url, t)).
Proof.
  intros Hn. unfold push_url, urllist_capacity, note. cbn [fst]. set (p := fun y : cstring * Z => negb (str_eqb (fst y) url)).
  assert (forall a b : list (cstring * Z), length b = 19%nat -> lastn 20 (a ++ b ++ [(url, t)]) = b ++ [(url, t)]) as H20.
  { intros a b Hb. rewrite <- (lastn_app a (b ++ [(url, t)])) at 2. now rewrite length_app, Hb. }
  assert (forall a b : list (cstring * Z), length b = 20%nat -> lastn 20 (a ++ b ++ [(url, t)]) = drop 1 b ++ [(url, t)]) as H21.
  { intros a [|y b] Hb; [discriminate|]. cbn in Hb. change (a ++ (y :: b) ++ [(url, t)]) with (a ++ [y] ++ b ++ [(url, t)]).
    rewrite app_assoc. rewrite H20 by lia. reflexivity. }
  destruct (Nat.le_gt_cases (length l) 20) as [Hle|Hgt].
  - rewrite (lastn_all 20 l Hle). pose proof (List.filter_length_le p l) as Hf. destruct (Nat.ltb_spec (length (List.filter p l)) 20).
    + rewrite lastn_all; [reflexivity|]. rewrite length_app. cbn. lia.
    + symmetry. apply (H21 []). lia.
  - change (lastn 20 l) with (drop (length l - 20) l). replace (List.filter p l) with (List.filter p (take (length l - 20) l ++ drop (length l - 20) l)) by now rewrite take_drop.
    rewrite List.filter_app, <- app_assoc.
    rewrite <- (take_drop (length l - 20) l), map_app in Hn.
    set (a := take (length l - 20) l) in *. set (b := drop (length l - 20) l) in *.
    assert (length b = 20%nat) as Hb by (unfold b; rewrite length_drop; lia).
    destruct (in_dec (fun x y => decide (x = y)) url (map fst b)) as [Hi|Hi].
    + pose proof (filter_length url b (List.NoDup_app_remove_l _ _ Hn) Hi) as Hf. fold p in Hf.
      destruct (Nat.ltb_spec (length (List.filter p b)) 20); [|lia]. symmetry. apply H20. lia.
    + pose proof (filter_absent url b Hi) as Hf. fold p in Hf. rewrite Hf, Hb. cbn [Nat.ltb Nat.leb]. symmetry. now apply H21.
Qed.

(** ** Previews *)

Section Posts.
Variable blockurls : option cstring.
Variable block_match : cstring -> cstring -> option bool.

(** A post: who, the link and when. *)
Abbreviation post := (cstring * (cstring * Z))%type.
Definition run_posts (ps : list post) (s : urlpreview) : urlpreview :=
  fold_left (fun s p => do_urlpreview blockurls block_match (fst p) (fst (snd p)) (snd (snd p)) s) ps s.
Definition allowed (p : post) : bool := can_preview blockurls block_match (fst (snd p)).

(** The links that may be previewed: one that parses, of another host than the two
    of the client, and matched by no expression that stands in a line of the file
    before its first empty line. *)
Definition link_ok (url : cstring) : Prop :=
  (exists u, from_string url = Ok u /\ host_ u <> $"web.qq.com" /\ host_ u <> $"web2.qq.com")
  /\ forall text i line, blockurls = Some text -> split_on LF text !! i = Some line ->
      (forall j, (j <= i)%nat -> split_on LF text !! j <> Some []) -> block_match line (c_str url) <> Some true.

(** Is a link previewed that is posted at [t], after the history [h]?  The second
    is what the comment of [do_urlpreview] asks for: five minutes have passed. *)
Definition previewed (h : list (cstring * Z)) (url : cstring) (t : Z) : bool :=
  match known url (lastn 20 (latest h)) with
  | None => true
  | Some t0 => (300 <=? t - t0) && (300 <=? (t - t0) mod 3600)
  end.
Definition wanted (h : list (cstring * Z)) (url : cstring) (t : Z) : bool :=
  match known url (lastn 20 (latest h)) with None => true | Some t0 => 300 <=? t - t0 end.

Lemma minutes_passed d : (5 <=? duration_minutes d) = (300 <=? d) && (300 <=? d mod 3600).
Proof.
  apply eq_bool_prop_intro. rewrite !Is_true_true, andb_true_iff, !Z.leb_le. unfold duration_minutes.
  destruct (Z.le_gt_cases 0 d) as [Hd|Hd].
  - rewrite Z.quot_div_nonneg, Z.rem_mod_nonneg by (try lia; apply Z.div_pos; lia). Z.to_euclidean_division_equations; lia.
  - assert (Z.rem (Z.quot d 60) 60 <= 0); [|lia]. apply Z.rem_nonpos; [lia|]. Z.to_euclidean_division_equations; lia.
Qed.

Lemma blocked_lines url lines : blocked block_match lines url = false <->
  forall i line, lines !! i = Some line -> (forall j, (j <= i)%nat -> lines !! j <> Some []) -> block_match line (c_str url) <> Some true.
Proof.
  induction lines as [|x lines IH]; cbn [blocked]; [split; [intros _ i line E; now destruct i|reflexivity]|].
  destruct (str_eqb_spec x []) as [->|Hx].
  { split; [intros _ i line _ H; now destruct (H 0%nat ltac:(lia))|reflexivity]. }
  assert ((forall i line, (x :: lines) !! i = Some line -> (forall j, (j <= i)%nat -> (x :: lines) !! j <> Some []) -> block_match line (c_str url) <> Some true)
    <-> block_match x (c_str url) <> Some true /\ blocked block_match lines url = false) as ->.
  { rewrite IH. split.
    - intros H. split; [apply (H 0%nat x eq_refl); intros [|j] Hj; [cbn; congruence|lia]|]. intros i line E Hj. apply (H (S i) line E).
      intros [|j] Hl; [cbn; congruence|apply Hj; lia].
    - intros [H1 H2] [|i] line E Hj; [now injection E as <-|]. apply (H2 i line E). intros j Hl. apply (Hj (S j)). lia. }
  destruct (block_match x (c_str url)) as [[]|]; [split; [discriminate|now intros [[] _]]|..];
    (split; [intros ->; split; [discriminate|reflexivity]|now intros [_ ->]]).
Qed.

Lemma can_preview_ok url : can_preview blockurls block_match url = true <-> link_ok url.
Proof.
  unfold can_preview, link_ok. destruct (from_string url) as [u|e]; [|split; [discriminate|intros [(u & [=] & _) _]]].
  destruct (str_eqb_spec (host_ u) ($"web.qq.com")) as [H1|H1]; [split; [discriminate|intros [(u' & Eu & H & _) _]; injection Eu as <-; now destruct (H H1)]|].
  destruct (str_eqb_spec (host_ u) ($"web2.qq.com")) as [H2|H2]; [split; [discriminate|intros [(u' & Eu & _ & H) _]; injection Eu as <-; now destruct (H H2)]|].
  cbn [orb]. destruct blockurls as [text|]; [|split; [|reflexivity]; intros _; split; [now exists u|discriminate]].
  rewrite negb_true_iff, blocked_lines. split.
  - intros H. split; [now exists u|]. intros t i line [= <-]. now apply H.
  - intros [_ H] i line. now apply H.
Qed.

Lemma post_step h o url t speaker : can_preview blockurls block_match url = true ->
  do_urlpreview blockurls block_match speaker url t (UrlPreview (lastn 20 (latest h)) o)
  = UrlPreview (lastn 20 (latest (h ++ [(url, t)]))) (if previewed h url t then o ++ [OpenUrl speaker url 0] else o).
Proof.
  intros Hc. unfold do_urlpreview, previewed. rewrite Hc. cbn [negb urllist preview_outputs].
  rewrite find_erase_known by apply nodup_lastn, latest_nodup.
  rewrite latest_snoc, <- push_lastn by apply latest_nodup.
  destruct (known url (lastn 20 (latest h))) as [t0|] eqn:Ek; [now rewrite <- minutes_passed|]. apply known_none in Ek. now rewrite filter_absent.
Qed.

(** The previews of posts that follow the history. *)
Fixpoint expected (h : list (cstring * Z)) (ps : list post) : list preview_output :=
  match ps with
  | [] => []
  | (speaker, (url, t)) :: ps' => (if previewed h url t then [OpenUrl speaker url 0] else []) ++ expected (h ++ [(url, t)]) ps'
  end.

Lemma posts_run ps : forall h o,
  run_posts ps (UrlPreview (lastn 20 (latest h)) o)
  = UrlPreview (lastn 20 (latest (h ++ map snd (List.filter allowed ps)))) (o ++ expected h (List.filter allowed ps)).
Proof.
  induction ps as [|[speaker [url t]] ps IH]; intros h o; [cbn; now rewrite !app_nil_r|].
  cbn [List.filter]. change (run_posts (?p :: ps) ?s) with (run_posts ps (do_urlpreview blockurls block_match speaker url t s)).
  destruct (allowed (speaker, (url, t))) eqn:Ea; unfold allowed in Ea; cbn [fst snd] in Ea.
  - rewrite post_step, IH by exact Ea. cbn [map expected fst snd]. rewrite <- app_assoc. f_equal.
    destruct (previewed h url t); [now rewrite <- app_assoc|reflexivity].
  - rewrite <- IH. unfold do_urlpreview. now rewrite Ea.
Qed.
End Posts.

Lemma previewed_wanted h url t :
  (previewed h url t = true -> wanted h url t = true)
  /\ (wanted h url t = true /\ previewed h url t = false
      <-> exists t0, known url (lastn 20 (latest h)) = Some t0 /\ 3600 <= t - t0 /\ (t - t0) mod 3600 < 300).
Proof.
  unfold previewed, wanted. destruct (known url _) as [t0|]; [|split; [reflexivity|split; [now intros [_ ?]|now intros (t0 & ? & _)]]].
  rewrite andb_true_iff, andb_false_iff, !Z.leb_le, !Z.leb_gt. split; [tauto|]. split.
  - intros [H1 H2]. exists t0. split; [reflexivity|]. Z.to_euclidean_division_equations; lia.
  - intros (t1 & [= <-] & H1 & H2). lia.
Qed.

(** C25: links are previewed once.  A link may be previewed when it parses, its host
    is none of the client's two and no expression in the lines of [blockurls] before
    the first empty one matches it.  Whatever links are posted, those that may not be
    previewed change nothing; the list has the last twenty different ones of the
    others, each with its latest time, and a post of them opens its page exactly when
    its link is not among these, or at least five minutes have passed since it was
    last posted and the minutes beside the whole hours are five or more.  The comment
    in the code asks for the five minutes only: the two differ exactly for a link
    that is posted again less than five minutes after a whole number of hours, which
    is not previewed. *)
Theorem previews_correct (blockurls : option cstring) (block_match : cstring -> cstring -> option bool) (ps : list (cstring * (cstring * Z))) :
  let s := run_posts blockurls block_match ps (UrlPreview [] []) in
  let ok := List.filter (allowed blockurls block_match) ps in
  (forall p, allowed blockurls block_match p = true <-> link_ok blockurls block_match (fst (snd p)))
  /\ urllist s = lastn 20 (latest (map snd ok)) /\ List.NoDup (map fst (urllist s)) /\ (length (urllist s) <= 20)%nat
  /\ preview_outputs s = expected [] ok
  /\ forall h url t, (previewed h url t = true -> wanted h url t = true)
     /\ (wanted h url t = true /\ previewed h url t = false
         <-> exists t0, known url (lastn 20 (latest h)) = Some t0 /\ 3600 <= t - t0 /\ (t - t0) mod 3600 < 300).
Proof.
  cbv zeta. change (UrlPreview [] []) with (UrlPreview (lastn 20 (latest [])) []). rewrite posts_run. cbn [urllist preview_outputs app].
  split; [intros p; apply can_preview_ok|]. split; [reflexivity|]. split; [apply nodup_lastn, latest_nodup|].
  split; [unfold lastn; rewrite length_drop; lia|]. split; [reflexivity|]. exact previewed_wanted.
Qed.

(** Only the minutes beside the hours count: a link that is posted again after an
    hour is not previewed during the next five minutes. *)
Theorem hour_ignored (h : list (cstring * Z)) (url : cstring) (t0 t : Z) :
  known url (lastn 20 (latest h)) = Some t0 -> 3600 <= t - t0 < 3900 -> previewed h url t = false.
Proof.
  intros Hk Ht. unfold previewed. rewrite Hk. apply andb_false_iff. right. apply Z.leb_gt. Z.to_euclidean_division_equations; lia.
Qed.

Lemma hour_ignored_witness : previewed [($"http://a.b", 0)] ($"http://a.b") 3700 = false.
Proof. apply (hour_ignored _ _ 0); [reflexivity|lia]. Defined.

(** ** The links of a message *)

Section Links.
Context {E : RegexEngine} {L : RegexLaws E}.

(** The links that the loop takes, with their places in the text. *)
Fixpoint links (fuel off : nat) (txt : cstring) : list (nat * cstring) :=
  match fuel with
  | O => []
  | S fuel' =>
      match regex_search url_re (c_str txt) with
      | Some (before, url, _) =>
          (off + length before, url)%nat :: links fuel' (off + (find_first_of url txt + length url)) (drop (find_first_of url txt + length url) txt)
      | None => []
      end
  end.

Lemma links_loop_run blockurls block_match fuel : forall off speaker txt now s,
  links_loop blockurls block_match fuel speaker txt now s
  = run_posts blockurls block_match (map (fun x => (speaker, (trim (snd x), now))) (links fuel off txt)) s.
Proof.
  induction fuel as [|fuel IH]; intros off speaker txt now s; cbn [links_loop links]; [reflexivity|].
  destruct (regex_search url_re (c_str txt)) as [[[before url] what]|]; [|reflexivity]. now rewrite (IH (off + (find_first_of url txt + length url))%nat).
Qed.

Lemma url_nonempty url c : parses url_re url c -> exists x u, url = x :: u.
Proof. intros H. unfold url_re in H. cbn in H. inversion H as [| | |? ? ? ? ? ? H1| | |]; subst. inversion H1; subst. cbn. eauto. Qed.

(** What is removed ends no later than the link. *)
Lemma find_first_of_link b x u rest : (find_first_of (x :: u) (b ++ x :: rest) <= length b)%nat.
Proof.
  induction b as [|y b IH]; cbn [app find_first_of length].
  - unfold mem_char. cbn. rewrite Ascii.eqb_refl. cbn. lia.
  - destruct (mem_char y _); lia.
Qed.

(** Every place where a link begins lies in a link that the loop takes. *)
Lemma links_cover fuel : forall off txt b url c rest, free_of [NUL] txt -> (length txt < fuel)%nat -> txt = b ++ url ++ rest -> parses url_re url c ->
  exists p l, In (p, l) (links fuel off txt) /\ (p <= off + length b < p + length l)%nat.
Proof.
  induction fuel as [|fuel IH]; intros off txt b url c rest Hn Hl Et P; [lia|]. cbn [links]. rewrite c_str_id by exact Hn. rewrite regex_search_perl.
  pose proof (perl_search_correct url_re txt) as Hs. destruct (perl_search url_re txt) as [[[b1 u1] c1]|]; [|now destruct (Hs b url c rest Et)].
  destruct Hs as ((r1 & E1) & P1 & Hmin). specialize (Hmin b url c rest Et P).
  destruct (Nat.lt_ge_cases (length b) (length b1 + length u1)) as [Hin|Hout].
  - exists (off + length b1)%nat, u1. split; [now left|lia].
  - destruct (url_nonempty u1 c1 P1) as (x & u & Eu). set (n := (find_first_of u1 txt + length u1)%nat).
    assert (n <= length b1 + length u1)%nat as Hle.
    { unfold n. rewrite E1, Eu. pose proof (find_first_of_link b1 x u (u ++ r1)) as Hf. change (x :: u ++ r1) with ((x :: u) ++ r1) in Hf. lia. }
    assert (drop n txt = drop n b ++ url ++ rest) as Ed by (rewrite Et, drop_app_le by lia; reflexivity).
    destruct (IH (off + n)%nat (drop n txt) (drop n b) url c rest) as (p & l & Hp & Hb).
    + now apply Forall_drop.
    + pose proof (f_equal length E1) as El. rewrite !length_app, Eu in El. rewrite length_drop. unfold n. rewrite Eu. cbn [length] in *. lia.
    + exact Ed.
    + exact P.
    + exists p, l. split; [now right|]. rewrite length_drop in Hb. lia.
Qed.

Lemma links_parts fuel : forall off txt p l, free_of [NUL] txt -> In (p, l) (links fuel off txt) ->
  exists a b c, txt = a ++ l ++ b /\ p = (off + length a)%nat /\ parses url_re l c.
Proof.
  induction fuel as [|fuel IH]; intros off txt p l Hn; cbn [links]; [intros []|]. rewrite c_str_id by exact Hn. rewrite regex_search_perl.
  pose proof (perl_search_correct url_re txt) as Hs. destruct (perl_search url_re txt) as [[[b1 u1] c1]|]; [|intros []].
  destruct Hs as ((r1 & E1) & P1 & _). intros [[= <- <-]|Hi]; [now exists b1, r1, c1|].
  set (n := (find_first_of u1 txt + length u1)%nat) in *.
  destruct (IH (off + n)%nat (drop n txt) p l) as (a & b & c & Ea & -> & P); [now apply Forall_drop|exact Hi|].
  destruct (Nat.le_gt_cases n (length txt)) as [Hle|Hgt].
  - exists (take n txt ++ a), b, c. rewrite <- app_assoc, <- Ea, take_drop. repeat split; [|exact P]. rewrite length_app, length_take. lia.
  - rewrite drop_ge in Ea by lia. symmetry in Ea. apply app_eq_nil in Ea as [-> Ea]. apply app_eq_nil in Ea as [-> _].
    destruct (url_nonempty [] c P) as (x & u & H). discriminate.
Qed.
End Links.

(** No link of a message is overlooked.  A message is handled as the posts of the links
    that the loop takes; each of them is a part of the text in the language of the
    expression; and every place of the text where a link begins lies in one of them,
    although the loop removes less of the text than up to the end of the link. *)
Theorem links_found {E : RegexEngine} {L : RegexLaws E} (blockurls : option cstring) (block_match : cstring -> cstring -> option bool)
    (now : Z) (message : ptree) (txt speaker : cstring) (s : urlpreview) :
  pt_get ($"message.text") message = Some txt -> pt_get ($"who.nick") message = Some speaker -> free_of [NUL] txt ->
  let ls := links (S (length txt)) 0 txt in
  on_message blockurls block_match now message s
    = Some (run_posts blockurls block_match (map (fun x => (speaker, (trim (snd x), now))) ls) s)
  /\ (forall p l, In (p, l) ls -> exists a b c, txt = a ++ l ++ b /\ p = length a /\ parses url_re l c)
  /\ (forall a url b c, txt = a ++ url ++ b -> parses url_re url c -> exists p l, In (p, l) ls /\ (p <= length a < p + length l)%nat).
Proof.
  intros Et Es Hn ls. unfold on_message. rewrite Et, Es. cbn [mbind option_bind]. split.
  - f_equal. apply links_loop_run.
  - split; [intros p l; now apply (links_parts (S (length txt)) 0)|]. intros a url b c Ea P.
    apply (links_cover (S (length txt)) 0 txt a url c b Hn); [lia|exact Ea|exact P].
Qed.

Lemma links_found_witness :
  let m := PTree [] [($"message", PTree [] [($"text", pt_value ($"a http://x.y/z, https://b.c!"))]); ($"who", PTree [] [($"nick", pt_value ($"me"))])] in
  on_message (E := perl_engine) None (fun _ _ => None) 7 m (UrlPreview [] [])
  = Some (run_posts None (fun _ _ => None) [($"me", ($"http://x.y/z", 7)); ($"me", ($"https://b.c", 7))] (UrlPreview [] [])).
Proof.
  cbv zeta. destruct (links_found (E := perl_engine) None (fun _ _ => None) 7
    (PTree [] [($"message", PTree [] [($"text", pt_value ($"a http://x.y/z, https://b.c!"))]); ($"who", PTree [] [($"nick", pt_value ($"me"))])])
    ($"a http://x.y/z, https://b.c!") ($"me") (UrlPreview [] [])) as [H _]; [reflexivity|reflexivity|now repeat constructor|].
  rewrite H. vm_compute. reflexivity.
Defined.

(** ** The page *)

Lemma title_parsed t c : parses title_re t c ->
  exists attrs title, t = $"<title" ++ attrs ++ $">" ++ title ++ $"</title>" /\ c = [Some title] /\ Forall (fun x => not_char ">" x = true) attrs.
Proof.
  unfold title_re. intros H. apply parses_lit in H as (? & -> & H).
  apply parses_seq_inv in H as (attrs & ? & ? & ? & -> & -> & H1 & H). inversion H1 as [|p s Hp| | | | |]; subst.
  apply parses_lit in H as (? & -> & H). apply parses_seq_inv in H as (title & ? & ? & ? & -> & -> & H2 & H).
  inversion H2 as [| | | | | |a s c' H3]; subst. inversion H3; subst. apply parses_lit in H as (? & -> & H).
  inversion H as [p y Hy| | | | | |]; subst. apply Ascii.eqb_eq in Hy as ->. now exists attrs, title.
Qed.

Lemma drop_while_idem p s : drop_while p (drop_while p s) = drop_while p s.
Proof. induction s as [|c s IH]; [reflexivity|]. cbn [drop_while]. destruct (p c) eqn:Ep; [exact IH|]. cbn [drop_while]. now rewrite Ep. Qed.

Lemma trim_twice s : trim (trim_left_if isspace s) = trim s.
Proof. unfold trim, trim_left_if. now rewrite drop_while_idem. Qed.

Lemma refresh_parsed t c : parses refresh_re t c -> (8 <= length t)%nat.
Proof.
  unfold refresh_re. intros H. apply parses_lit in H as (? & -> & H). apply parses_seq_inv in H as (t1 & t2 & c1 & c2 & -> & -> & _ & H).
  apply parses_lit in H as (? & -> & _). rewrite !length_app. change (length ($"<meta")) with 5%nat. change (length ($"http-equiv=")) with 11%nat. lia.
Qed.

Section Page.
Context {E : RegexEngine} {L : RegexLaws E}.

Lemma title_parses attrs title : Forall (fun x => not_char ">" x = true) attrs ->
  parses title_re ($"<title" ++ attrs ++ $">" ++ title ++ $"</title>") [Some title].
Proof.
  intros Ha. apply parses_lit_text. change [Some title] with ([] ++ [Some title]). constructor; [now constructor|]. apply parses_lit_text.
  change [Some title] with ([Some title] ++ []). constructor; [constructor; constructor; apply any_all|].
  change ($"</title>") with ($"</title" ++ $">"). apply parses_lit_text. now constructor.
Qed.

Lemma same_title attrs attrs' x y :
  $"<title" ++ attrs ++ $">" ++ x = ($"<title" ++ attrs' ++ $">" ++ y) ->
  Forall (fun x => not_char ">" x = true) attrs -> Forall (fun x => not_char ">" x = true) attrs' -> attrs = attrs' /\ x = y.
Proof.
  intros H Ha Ha'. apply app_inv_head in H. pose proof (span_stop (not_char ">") attrs ($">" ++ x) Ha eq_refl) as H1.
  pose proof (span_stop (not_char ">") attrs' ($">" ++ y) Ha' eq_refl) as H2. rewrite H, H2 in H1. now injection H1 as -> ->.
Qed.

(** The search in the text that ends with the first title. *)
Lemma title_found a attrs title :
  let page := a ++ $"<title" ++ attrs ++ $">" ++ title ++ $"</title>" in
  find_str ($"<title") page = Some (length a) -> find_str ($"</title>") page = Some (length (a ++ $"<title" ++ attrs ++ $">" ++ title)) ->
  Forall (fun x => not_char ">" x = true) attrs ->
  exists t, regex_search title_re page = Some (a, t, [Some title]).
Proof.
  intros page Ho Hc Ha. rewrite regex_search_perl. pose proof (perl_search_correct title_re page) as Hs.
  pose proof (title_parses attrs title Ha) as P. assert (page = a ++ ($"<title" ++ attrs ++ $">" ++ title ++ $"</title>") ++ []) as Ep
    by (now rewrite app_nil_r).
  destruct (perl_search title_re page) as [[[b t] c]|]; [|now destruct (Hs _ _ _ _ Ep P)].
  destruct Hs as ((rest & Es) & Pt & Hmin). specialize (Hmin _ _ _ _ Ep P). exists t.
  apply title_parsed in Pt as (attrs' & title' & -> & -> & Ha'). apply find_str_first in Ho as [_ Ho]. apply find_str_first in Hc as [_ Hc].
  assert (length a <= length b)%nat as Hle by (eapply Ho; rewrite Es, <- app_assoc; reflexivity).
  pose proof Es as Es'. unfold page in Es'. apply app_inj_1 in Es' as [<- Et]; [|lia].
  rewrite <- !app_assoc in Et. apply (same_title attrs attrs') in Et as [<- Et]; [|exact Ha|exact Ha'].
  assert (length (a ++ $"<title" ++ attrs ++ $">" ++ title) <= length (a ++ $"<title" ++ attrs ++ $">" ++ title'))%nat as Hl.
  { eapply Hc. rewrite Es, <- !app_assoc. reflexivity. }
  pose proof (f_equal length Et) as El. rewrite !length_app in *. apply app_inj_1 in Et as [<- _]; [reflexivity|lia].
Qed.
End Page.

(** What is read of a page: a part of it, at most as much as was asked for, and less
    only when the body ended or both tags are there. *)
Lemma read_page_spec max_transfer pieces : forall buf, 0 <= max_transfer -> Z.of_nat (length buf) <= max_transfer ->
  let '(page, ended) := read_page max_transfer pieces buf in
  Z.of_nat (length page) <= max_transfer
  /\ (ended = false -> Z.of_nat (length page) = max_transfer
                       \/ find_str ($"</title>") (to_lower page) <> None /\ find_str ($"<meta>") (to_lower page) <> None).
Proof.
  induction pieces as [|p pieces IH]; intros buf H0 Hb; cbn [read_page]; set (n := read_until_title _ _ _ _); destruct (Z.eqb_spec n 0) as [Hn|Hn].
  1, 3: split; [exact Hb|]; intros _; revert Hn; unfold n, read_until_title; destruct (Z.leb_spec max_transfer (Z.of_nat (length buf)));
    [left; lia|]; destruct (find_str _ _); [|lia]; destruct (find_str _ _); [right; split; discriminate|lia].
  - split; [exact Hb|discriminate].
  - apply IH; [exact H0|]. rewrite length_app, length_take.
    assert (n <= max_transfer - Z.of_nat (length buf)) as Hm.
    { unfold n, read_until_title. destruct (Z.leb_spec max_transfer (Z.of_nat (length buf))); [lia|].
      destruct (find_str _ _); [|lia]. destruct (find_str _ _); lia. }
    lia.
Qed.

(** The title is sent.  A page of type HTML whose beginning (as much of it as is
    read, in lower case and without line ends) has a title is answered with the text
    of its first title, trimmed and with its character references replaced, addressed to
    who posted the link: for a page in UTF-8, however the body comes in pieces. *)
Theorem title_sent {E : RegexEngine} {L : RegexLaws E} (utf_to_utf : Z -> cstring) (conv : cstring -> cstring -> option cstring)
    (speaker content_type content_length a attrs title b : cstring) (redirect n : Z) (pieces : list cstring) (page : cstring) (ended : bool) :
  on_open speaker None content_type content_length = inr n -> read_page n pieces [] = (page, ended) ->
  let content := page_content page in
  content = a ++ $"<title" ++ attrs ++ $">" ++ title ++ $"</title>" ++ b ->
  find_str ($"<title") content = Some (length a) -> find_str ($"</title>") content = Some (length (a ++ $"<title" ++ attrs ++ $">" ++ title)) ->
  Forall (fun x => not_char ">" x = true) attrs -> free_of [NUL] content -> is_utf8 (get_char_set content_type content) = true ->
  preview utf_to_utf conv speaker redirect None content_type content_length pieces None
    = PreviewSent ($"@" ++ speaker ++ $" ⇪ 标题： " ++ html_unescape utf_to_utf (trim title) ++ $" ")
  /\ Z.of_nat (length page) <= 4096.
Proof.
  intros Ho Hr content Ec Hopen Hclose Ha Hn Hu. split.
  - unfold preview. rewrite Ho, Hr. unfold on_read. replace (if ended then None else None : option cstring) with (None : option cstring) by now destruct ended.
    fold content. unfold cut_title. rewrite Hclose. set (pre := a ++ $"<title" ++ attrs ++ $">" ++ title) in *.
    assert (take (length pre + 8) content = a ++ $"<title" ++ attrs ++ $">" ++ title ++ $"</title>") as Et.
    { rewrite Ec. replace (a ++ _) with ((pre ++ $"</title>") ++ b) by (unfold pre; now rewrite <- !app_assoc).
      rewrite take_app_length' by (rewrite length_app; reflexivity). unfold pre. now rewrite <- !app_assoc. }
    rewrite Et. assert (free_of [NUL] (a ++ $"<title" ++ attrs ++ $">" ++ title ++ $"</title>")) as Hf by (rewrite <- Et; now apply Forall_take).
    rewrite c_str_id by exact Hf. destruct (title_found a attrs title) as [t Es]; [| |exact Ha|].
    + apply (find_str_take _ _ _ (length pre + 8)) in Hopen; [now rewrite Et in Hopen|]. unfold pre. rewrite !length_app. cbn. lia.
    + apply (find_str_take _ _ _ (length pre + 8)) in Hclose; [now rewrite Et in Hclose|]. cbn. lia.
    + rewrite Es. cbn [sub_match lookup list_lookup]. rewrite Hu. now rewrite trim_twice.
  - unfold on_open in Ho. destruct (negb _); [discriminate|]. injection Ho as <-.
    pose proof (read_page_spec (Z.min (match lexical_uint content_length with Some n => n | None => 4096 end) 4096) pieces []) as Hp.
    rewrite Hr in Hp. assert (0 <= match lexical_uint content_length with Some n => n | None => 4096 end) as H0.
    { unfold lexical_uint. destruct (strtol_sign _). destruct (_ && _); [|lia]. unfold wrapu. apply Z.mod_pos_bound. lia. }
    destruct Hp as [Hp _]; cbn [length]; lia.
Qed.

Lemma title_sent_witness :
  let page := $"<HTML><Title lang=en> A &amp; B </TITLE>" in
  preview (E := perl_engine) (fun _ => []) (fun _ _ => None) ($"me") 0 None ($"text/html; charset=utf-8") ($"2000") [take 10 page; drop 10 page] None
    = PreviewSent ($"@me ⇪ 标题： a & b ").
Proof.
  cbv zeta. set (page := $"<HTML><Title lang=en> A &amp; B </TITLE>").
  destruct (title_sent (E := perl_engine) (fun _ => []) (fun _ _ => None) ($"me") ($"text/html; charset=utf-8") ($"2000")
    ($"<html>") ($" lang=en") ($" a &amp; b ") [] 0 2000 [take 10 page; drop 10 page] page true) as [H _];
    [reflexivity|vm_compute; reflexivity|vm_compute; reflexivity|vm_compute; reflexivity|vm_compute; reflexivity| | |vm_compute; reflexivity|].
  - now repeat constructor.
  - vm_compute. now repeat constructor.
  - rewrite H. vm_compute. reflexivity.
Defined.

(** Without the end of a title the text is cut to seven characters: no title is found, and
    the page is not searched for a redirection, whatever is on it. *)
Theorem no_title {E : RegexEngine} {L : RegexLaws E} (utf_to_utf : Z -> cstring) (conv : cstring -> cstring -> option cstring)
    (speaker content_type page : cstring) (redirect : Z) :
  find_str ($"</title>") (page_content page) = None ->
  on_read utf_to_utf conv speaker redirect None content_type page = PreviewSent ($"@" ++ speaker ++ $" ⇪ url 无标题 ").
Proof.
  intros Hf. unfold on_read, cut_title. rewrite Hf. set (s := c_str (take 7 (page_content page))).
  assert (length s <= 7)%nat as Hs.
  { pose proof (f_equal length (span_app (fun c => negb (c =c NUL)) (take 7 (page_content page)))) as Hl.
    rewrite length_app, length_take in Hl. unfold s, c_str. lia. }
  assert (forall r, (forall t c, parses r t c -> (8 <= length t)%nat) -> regex_search r s = None) as Hnone.
  { intros r Hr. rewrite regex_search_perl. pose proof (perl_search_correct r s) as H. destruct (perl_search r s) as [[[b t] c]|]; [|reflexivity].
    destruct H as ((rest & Es) & P & _). apply Hr in P. apply (f_equal length) in Es. rewrite !length_app in Es. lia. }
  rewrite (Hnone title_re), (Hnone refresh_re) by (apply refresh_parsed || (intros t c P; apply title_parsed in P as (at' & ti & -> & _);
    rewrite !length_app; change (length ($"<title")) with 6%nat; change (length ($"</title>")) with 8%nat; lia)).
  now destruct (redirect <? 10).
Qed.

Lemma no_title_witness :
  let q := ["034"%char] in
  on_read (E := perl_engine) (fun _ => []) (fun _ _ => None) ($"me") 0 None ($"text/html")
    ($"<meta http-equiv=" ++ q ++ $"refresh" ++ q ++ $" content=" ++ q ++ $"0;url=http://a.b" ++ q ++ $">") = PreviewSent ($"@me ⇪ url 无标题 ").
Proof. apply (no_title (E := perl_engine)). vm_compute. reflexivity. Defined.

(** The end of the title does not end the reading: as long as the text [<meta>] is missing,
    all that is left of the first 4096 bytes is asked for. *)
Theorem title_reads_on (max_transfer : Z) (buf : cstring) :
  Z.of_nat (length buf) < max_transfer -> find_str ($"<meta>") (to_lower buf) = None ->
  read_until_title false (Z.of_nat (length buf)) max_transfer buf = max_transfer - Z.of_nat (length buf).
Proof.
  intros Hl Hm. unfold read_until_title. destruct (Z.leb_spec max_transfer (Z.of_nat (length buf))); [lia|]. cbv zeta. rewrite Hm. now destruct (find_str ($"</title>") _).
Qed.

Lemma title_reads_on_witness : read_until_title false 18 4096 ($"<title>x</title>ab") = 4078.
Proof. apply (title_reads_on 4096 ($"<title>x</title>ab")); [vm_compute|]; reflexivity. Defined.
