(* ===== verification/Extension.v ===== *)
(** The extensions of a channel, extension/extension.hpp and extension.cpp.

    An extension is an object that takes messages and has a function to send texts,
    which it may call later too, when a timer expires or a page arrives: the class
    [Extension], with the objects of Joke.v, UrlPreview.v and Bulletin.v as its
    instances.  [avbot_extension] gives an object the messages of its channel only;
    [sender] is what the object sends with: to the rooms of the channel and, if the
    extension was made so, to the chat log.  [new_channel_set_extension] connects the
    extensions of a channel to the bot. *)

From S2P Require Import Prelude CLib EscapeString OrdMap PTree Irc Avbot Html Avlog AvlogFacts Json JsonFacts Regex Bulletin Joke JokeFacts UrlPreview UrlPreviewFacts.

(** ** The interface *)

(** The events of an object are the ends of its own operations.  [None] is an
    exception: of the property tree for a message, of any kind for an event. *)
Class Extension (X : Type) := {
  ext_event : Type;
  ext_message : Z -> ptree -> X -> option X;
  ext_own : ext_event -> X -> option X;
  ext_sent : X -> list cstring
}.
(** Messages and events are only answered: what was sent stays. *)
Class ExtensionLaws (X : Type) (I : Extension X) := {
  ext_appends : forall now msg x x', ext_message now msg x = Some x' -> exists l, ext_sent x' = ext_sent x ++ l;
  ext_own_appends : forall e x x', ext_own e x = Some x' -> exists l, ext_sent x' = ext_sent x ++ l
}.

Record avbot_extension (X : Type) : Type := AvbotExtension { ext_channel : cstring; ext_obj : X }.
Arguments AvbotExtension {X} ext_channel ext_obj.
Arguments ext_channel {X} a.
Arguments ext_obj {X} a.

(** [operator()]: exceptions of the tree are ignored. *)
Definition call_extension {X} {I : Extension X} (now : Z) (msg : ptree) (e : avbot_extension X) : avbot_extension X :=
  match pt_get ($"channel") msg with
  | None => e
  | Some c =>
      if negb (str_eqb c (ext_channel e)) then e
      else match ext_message now msg (ext_obj e) with
           | Some x => AvbotExtension (ext_channel e) x
           | None => e
           end
  end.

(** What reaches an extension: a message of the bot, at a time, or an event. *)
Inductive ext_input (X : Type) {I : Extension X} : Type :=
| BotMessage (now : Z) (msg : ptree)
| OwnEvent (e : ext_event).
Arguments BotMessage {X I} now msg.
Arguments OwnEvent {X I} e.

Definition react {X} {I : Extension X} (i : ext_input X) (e : avbot_extension X) : option (avbot_extension X) :=
  match i with
  | BotMessage now msg => Some (call_extension now msg e)
  | OwnEvent ev => AvbotExtension (ext_channel e) <$> ext_own ev (ext_obj e)
  end.

(** ** The objects *)

(** The object of the previews, with the pages that are being opened: who posted
    the link, the link and the number of redirections. *)
Record previews : Type := Previews {
  pv_links : list (cstring * Z);
  pv_open : list (cstring * cstring * Z);
  pv_sent : list cstring
}.

(** What the network does for one of these pages. *)
Record page_answer : Type := PageAnswer {
  pa_error : option cstring; pa_type : cstring; pa_length : cstring; pa_pieces : list cstring; pa_after : option cstring
}.

Section Objects.
Context {E : RegexEngine} {C : Comments}.
Variable utf_to_utf : Z -> cstring.

(** The events of a joke, but for [Said], which comes as a message. *)
#[refine] Instance joke_extension (mt19937 : Z -> Z) (can_write : bool) : Extension joke := {
  ext_event := joke_event;
  ext_message := fun now msg s => Some (Joke.on_message can_write now msg s);
  ext_own := fun e s => match e with Said _ _ => Some s | _ => Some (Joke.step utf_to_utf mt19937 can_write e s) end;
  ext_sent := j_sent
}.
Proof. Defined.

Definition opened (l : list preview_output) : list (cstring * cstring * Z) :=
  flat_map (fun o => match o with OpenUrl speaker url redirect => [(speaker, url, redirect)] | PreviewSent _ => [] end) l.

Definition preview_message (blockurls : option cstring) (block_match : cstring -> cstring -> option bool) (now : Z) (msg : ptree)
    (x : previews) : option previews :=
  match UrlPreview.on_message blockurls block_match now msg (UrlPreview (pv_links x) []) with
  | Some s => Some (Previews (urllist s) (pv_open x ++ opened (preview_outputs s)) (pv_sent x))
  | None => None
  end.

(** A page is answered: a text, or another page. *)
Definition preview_answered (conv : cstring -> cstring -> option cstring) (i : nat) (a : page_answer) (x : previews) : previews :=
  match pv_open x !! i with
  | None => x
  | Some (speaker, _, redirect) =>
      match preview utf_to_utf conv speaker redirect (pa_error a) (pa_type a) (pa_length a) (pa_pieces a) (pa_after a) with
      | PreviewSent t => Previews (pv_links x) (delete i (pv_open x)) (pv_sent x ++ [t])
      | OpenUrl speaker' url' redirect' => Previews (pv_links x) (delete i (pv_open x) ++ [(speaker', url', redirect')]) (pv_sent x)
      end
  end.

#[refine] Instance urlpreview_extension (conv : cstring -> cstring -> option cstring) (blockurls : option cstring)
    (block_match : cstring -> cstring -> option bool) : Extension previews := {
  ext_event := nat * page_answer;
  ext_message := preview_message blockurls block_match;
  ext_own := fun e x => Some (preview_answered conv (fst e) (snd e) x);
  ext_sent := pv_sent
}.
Proof. Defined.

(** The bulletin does nothing with messages; the event is the timer, with the
    files as they are then, the seconds it is late and the next random number. *)
#[refine] Instance bulletin_extension (date_of : Z -> Z * Z * Z) : Extension bulletin := {
  ext_event := (cstring -> file) * (Z * Z);
  ext_message := fun _ _ s => Some s;
  ext_own := fun e s => match expire date_of (fst e) (fst (snd e)) (snd (snd e)) s with Ok (_, s') => Some s' | Err _ => None end;
  ext_sent := fun s => map snd (bulletin_sent s)
}.
Proof. Defined.
End Objects.

(** ** Sending *)

Record bot_and_log : Type := BotAndLog { the_bot : avbot; the_log : avlog }.
Inductive sender_fault : Type := BotFault (e : avbot_error) | LogFault (e : log_fault) | ObjectFault.

Section Sender.
Variables (can_mkdir can_open : cstring -> bool).
Abbreviation S := (st bot_and_log sender_fault).

Definition on_bot {A} (m : st avbot avbot_error A) : S A :=
  fun s => match m (the_bot s) with Ok (a, b) => Ok (a, BotAndLog b (the_log s)) | Err e => Err (BotFault e) end.
Definition on_log {A} (m : st avlog log_fault A) : S A :=
  fun s => match m (the_log s) with Ok (a, l) => Ok (a, BotAndLog (the_bot s) l) | Err e => Err (LogFault e) end.

Definition sender (channel_name date time txt : cstring) (logtohtml : bool) : S () :=
  on_bot (broadcast_message channel_name [] txt) ;;
  if logtohtml then _ ← on_log (add_log can_mkdir can_open date time channel_name (html_escape txt) 0); mret () else mret ().

(** The texts that an object sent, one after the other through [io_service::wrap]. *)
Fixpoint send_all (channel_name date time : cstring) (logtohtml : bool) (texts : list cstring) : S () :=
  match texts with
  | [] => mret ()
  | t :: texts' => sender channel_name date time t logtohtml ;; send_all channel_name date time logtohtml texts'
  end.

(** A message or an event reaches the object, and what it sends then is sent. *)
Definition answer {X} {I : Extension X} (date time : cstring) (logtohtml : bool) (i : ext_input X) (e : avbot_extension X) : S (avbot_extension X) :=
  match react i e with
  | Some e' =>
      send_all (ext_channel e) date time logtohtml (drop (length (ext_sent (ext_obj e))) (ext_sent (ext_obj e'))) ;;
      mret e'
  | None => st_fail ObjectFault
  end.

(** One after the other, each at its time. *)
Fixpoint answers {X} {I : Extension X} (date : cstring) (logtohtml : bool) (ins : list (cstring * ext_input X)) (e : avbot_extension X) :
    S (avbot_extension X) :=
  match ins with
  | [] => mret e
  | (time, i) :: ins' => e' ← answer date time logtohtml i e; answers date logtohtml ins' e'
  end.
End Sender.

(** ** Lemmas *)

Section Laws.
Context {E : RegexEngine} {C : Comments}.
Variable utf_to_utf : Z -> cstring.

Lemma appends_same {A} (l : list A) : exists l', l = l ++ l'.
Proof. exists []. now rewrite app_nil_r. Qed.

Lemma joke_appends can_write now msg s : exists l, j_sent (Joke.on_message can_write now msg s) = j_sent s ++ l.
Proof.
  pose proof (appends_same (j_sent s)) as Hs.
  assert (forall s1, j_sent (restart now s1) = j_sent s1) as Hr by (intros; apply restart_same).
  assert (forall s1, j_sent (save_setting can_write s1) = j_sent s1) as Hw by (intros; unfold save_setting; now destruct can_write).
  unfold Joke.on_message, on_interval. destruct (pt_get _ msg) as [t|]; [|now rewrite Hr]. cbv zeta.
  repeat match goal with
         | |- context [if ?b then _ else _] => destruct b
         | |- context [match ?o with Some _ => _ | None => _ end] => destruct o
         end; rewrite ?Hr, ?Hw; try exact Hs; eexists; reflexivity.
Qed.

#[refine] Instance joke_extension_laws (mt19937 : Z -> Z) (can_write : bool) :
  ExtensionLaws joke (joke_extension utf_to_utf mt19937 can_write) := {}.
Proof.
  - intros now msg x x' [= <-]. apply joke_appends.
  - intros [now|now|now ec page|now msg] x x' [= <-]; cbn [ext_sent joke_extension Joke.step].
    + apply appends_same.
    + destruct (j_ready x) as [|[] l]; apply appends_same.
    + destruct (j_fetching x) as [|u l]; [apply appends_same|]. unfold on_joke, start. cbn [j_sent wait_for j_sender]. eauto.
    + apply appends_same.
Defined.

#[refine] Instance urlpreview_extension_laws conv blockurls block_match :
  ExtensionLaws previews (urlpreview_extension utf_to_utf conv blockurls block_match) := {}.
Proof.
  - intros now msg x x'. cbn [ext_message ext_sent urlpreview_extension]. unfold preview_message.
    destruct (UrlPreview.on_message _ _ _ _ _); [|discriminate]. intros [= <-]. apply appends_same.
  - intros [i a] x x' [= <-]. cbn [ext_sent urlpreview_extension fst snd]. unfold preview_answered.
    destruct (pv_open x !! i) as [[[sp u] r]|]; [|apply appends_same].
    destruct (preview _ _ _ _ _ _ _ _ _); cbn [pv_sent]; eauto using appends_same.
Defined.

Lemma load_settings_sent files s s' : load_settings files s = Ok ((), s') -> bulletin_sent s' = bulletin_sent s.
Proof.
  unfold load_settings. run. destruct (files _); [now intros [= <-]|..]; (destruct (settings_loop _ _ _ _); [|discriminate]); now intros [= <-].
Qed.

Lemma schedule_next_sent date_of now rand s s' : schedule_next date_of now rand s = Ok ((), s') -> bulletin_sent s' = bulletin_sent s.
Proof. unfold schedule_next. run. destruct (scan_times _ _ _ _ _) as [[[t f]|]|]; [..|discriminate]; now intros [= <-]. Qed.

Lemma expire_appends date_of files late rand s s' : expire date_of files late rand s = Ok ((), s') ->
  exists l, bulletin_sent s' = bulletin_sent s ++ l.
Proof.
  unfold expire. run. destruct (m_timer s) as [|[t f] rest]; [intros [= <-]; apply appends_same|]. run.
  set (s0 := Bulletin _ _ rest _ _). change (bulletin_sent s) with (bulletin_sent s0). generalize s0. clear. intros s.
  unfold on_timer_send, on_timer_scan. destruct f as [f|]; run; (destruct (load_settings files s) as [[[] s1]|] eqn:E1; [|discriminate]);
    apply load_settings_sent in E1; (destruct (schedule_next _ _ _ s1) as [[[] s2]|] eqn:E2; [|discriminate]); apply schedule_next_sent in E2.
  - unfold send_msg_file. run. intros [= <-]. cbn [bulletin_sent m_sender]. rewrite E2, E1. eauto.
  - intros [= <-]. rewrite E2, E1. apply appends_same.
Qed.

#[refine] Instance bulletin_extension_laws date_of : ExtensionLaws bulletin (bulletin_extension date_of) := {}.
Proof.
  - intros now msg x x' [= <-]. apply appends_same.
  - intros [files [late rand]] x x'. cbn [ext_own ext_sent bulletin_extension fst snd].
    destruct (expire date_of files late rand x) as [[[] s]|] eqn:Ee; [|discriminate]. intros [= <-].
    apply expire_appends in Ee as [l ->]. rewrite map_app. eauto.
Defined.
End Laws.

(** *** What is sent and logged *)

Section Answers.
Variables (can_mkdir can_open : cstring -> bool) (date : cstring).
Hypothesis mkdir_works : forall p, can_mkdir p = true.
Hypothesis open_works : forall p, can_open p = true.
Hypothesis date_plain : plain_name date.

(** The text of the day's file of the channel. *)
Definition day_file (s : avlog) (g : cstring) : cstring := day_text date s g.

(** The log is in use, when it is written to. *)
Definition may_log (logtohtml : bool) (ch : cstring) (l : avlog) : Prop := logtohtml = true -> log_ok date l /\ plain_name ch.
Definition log_entries (time : cstring) (texts : list cstring) : cstring := concat (map (fun t => log_entry time (html_escape t) 0) texts).

Lemma rooms_all rs : List.filter (fun r => negb (str_eqb (room_text r) [])) rs = rs.
Proof. induction rs as [|r rs IH]; [reflexivity|]. cbn. rewrite IH. now destruct r. Qed.

Lemma broadcast_run ch text rs (b : avbot) : map_find ch (m_channel_map b) = Some (map room_text rs) ->
  broadcast_message ch [] text b = Ok ((), add_all (flat_map (deliver b text) rs) b).
Proof. intros Hm. unfold broadcast_message, channel_rooms. run. rewrite Hm. rewrite send_to_rooms_run. now rewrite rooms_all. Qed.

Lemma sender_run ch time text logtohtml rs s :
  map_find ch (m_channel_map (the_bot s)) = Some (map room_text rs) -> may_log logtohtml ch (the_log s) ->
  exists l, sender can_mkdir can_open ch date time text logtohtml s
            = Ok ((), BotAndLog (add_all (flat_map (deliver (the_bot s) text) rs) (the_bot s)) l)
    /\ may_log logtohtml ch l
    /\ if logtohtml then day_file l ch = day_file (the_log s) ch ++ log_entry time (html_escape text) 0 else l = the_log s.
Proof.
  intros Hm Hl. unfold sender, on_bot, on_log. run. rewrite (broadcast_run ch text rs _ Hm). destruct logtohtml; [|now exists (the_log s)].
  destruct (Hl eq_refl) as [Hok Hp]. cbn [the_log the_bot].
  destruct (add_log_run can_mkdir can_open date mkdir_works open_works date_plain (the_log s) time ch (html_escape text) 0 Hok Hp)
    as (l & El & Hok' & (Ep & _ & _) & Hlist & Hfiles).
  exists l. rewrite El. split; [reflexivity|]. split; [now intros _|]. unfold day_file at 1, day_text. rewrite Hlist, str_eqb_refl.
  unfold file_in at 1, dir_of at 1. rewrite Ep. change (m_path (the_log s) ++ _) with (dir_of (the_log s) ch). fold (file_in (the_log s) ch date).
  now rewrite Hfiles, str_eqb_refl.
Qed.

Lemma send_all_run ch time logtohtml rs texts : forall s,
  map_find ch (m_channel_map (the_bot s)) = Some (map room_text rs) -> may_log logtohtml ch (the_log s) ->
  exists l, send_all can_mkdir can_open ch date time logtohtml texts s
            = Ok ((), BotAndLog (add_all (flat_map (fun t => flat_map (deliver (the_bot s) t) rs) texts) (the_bot s)) l)
    /\ may_log logtohtml ch l
    /\ if logtohtml then day_file l ch = day_file (the_log s) ch ++ log_entries time texts else l = the_log s.
Proof.
  induction texts as [|t texts IH]; intros s Hm Hl; cbn [send_all flat_map].
  - exists (the_log s). destruct s as [b l]. split; [reflexivity|]. split; [exact Hl|]. destruct logtohtml; [|reflexivity]. cbn. now rewrite app_nil_r.
  - destruct (sender_run ch time t logtohtml rs s Hm Hl) as (l1 & E1 & Hl1 & H1). erewrite bind_ok by exact E1.
    set (b1 := add_all _ _) in *. destruct (IH (BotAndLog b1 l1)) as (l & E2 & Hl2 & H2).
    + cbn [the_bot]. unfold b1. now rewrite (proj1 (proj2 (add_all_sent _ _))).
    + exact Hl1.
    + exists l. cbn [the_bot the_log] in *. split; [|split; [exact Hl2|]].
      * rewrite E2. unfold b1. rewrite add_all_app. do 4 f_equal. apply f_equal, flat_map_ext. intros t'. apply flat_map_ext. intros r. apply deliver_add_all.
      * destruct logtohtml; [|congruence]. unfold log_entries. cbn [map concat]. now rewrite app_assoc, <- H1.
Qed.
End Answers.

(** *** Sequences of messages and events *)

Section Runs.
Context {X : Type} {I : Extension X} {L : ExtensionLaws X I}.

Fixpoint react_all (ins : list (cstring * ext_input X)) (e : avbot_extension X) : option (avbot_extension X) :=
  match ins with [] => Some e | (_, i) :: ins' => react i e ≫= react_all ins' end.

(** The texts that the object sends, with the time of the event. *)
Fixpoint said (ins : list (cstring * ext_input X)) (e : avbot_extension X) : list (cstring * cstring) :=
  match ins with
  | [] => []
  | (time, i) :: ins' =>
      match react i e with
      | Some e' => map (pair time) (drop (length (ext_sent (ext_obj e))) (ext_sent (ext_obj e'))) ++ said ins' e'
      | None => []
      end
  end.

Lemma react_appends i e e' : react i e = Some e' ->
  ext_channel e' = ext_channel e /\ exists l, ext_sent (ext_obj e') = ext_sent (ext_obj e) ++ l.
Proof.
  destruct i as [now msg|ev]; cbn [react].
  - intros [= <-]. unfold call_extension. assert (exists l, ext_sent (ext_obj e) = ext_sent (ext_obj e) ++ l) as Hs by (exists []; now rewrite app_nil_r).
    destruct (pt_get _ msg) as [c|]; [|now split]. destruct (negb _); [now split|].
    destruct (ext_message now msg (ext_obj e)) as [x|] eqn:Em; [|now split]. split; [reflexivity|]. exact (ext_appends _ _ _ _ Em).
  - destruct (ext_own ev (ext_obj e)) as [x|] eqn:Ev; [|discriminate]. intros [= <-]. split; [reflexivity|]. exact (ext_own_appends _ _ _ Ev).
Qed.

Lemma said_sent ins : forall e e', react_all ins e = Some e' ->
  ext_sent (ext_obj e') = ext_sent (ext_obj e) ++ map snd (said ins e).
Proof.
  induction ins as [|[time i] ins IH]; intros e e'; cbn [react_all said]; [intros [= <-]; now rewrite app_nil_r|].
  destruct (react i e) as [e1|] eqn:Er; [|discriminate]. intros H. rewrite (IH e1 e' H). destruct (react_appends i e e1 Er) as [_ [l ->]].
  rewrite drop_app_length, map_app, map_map, app_assoc. cbn [snd]. now rewrite map_id.
Qed.

Variables (can_mkdir can_open : cstring -> bool) (date : cstring) (logtohtml : bool) (rs : list room).
Hypothesis mkdir_works : forall p, can_mkdir p = true.
Hypothesis open_works : forall p, can_open p = true.
Hypothesis date_plain : plain_name date.

Lemma flat_map_pair {A B C} (a : A) (f : B -> list C) l : flat_map f l = flat_map (fun t => f (snd t)) (map (pair a) l).
Proof. induction l as [|x l IH]; [reflexivity|]. cbn. now rewrite IH. Qed.

Lemma answers_run ins : forall e e' s,
  map_find (ext_channel e) (m_channel_map (the_bot s)) = Some (map room_text rs) -> may_log date logtohtml (ext_channel e) (the_log s) ->
  react_all ins e = Some e' ->
  exists l, answers can_mkdir can_open date logtohtml ins e s
      = Ok (e', BotAndLog (add_all (flat_map (fun t => flat_map (deliver (the_bot s) (snd t)) rs) (said ins e)) (the_bot s)) l)
    /\ if logtohtml then day_file date l (ext_channel e) = day_file date (the_log s) (ext_channel e)
                          ++ concat (map (fun t => log_entry (fst t) (html_escape (snd t)) 0) (said ins e))
       else l = the_log s.
Proof.
  induction ins as [|[time i] ins IH]; intros e e' s Hm Hl; cbn [answers react_all said].
  - intros [= <-]. exists (the_log s). destruct s as [b l]. split; [reflexivity|]. destruct logtohtml; [|reflexivity]. cbn. now rewrite app_nil_r.
  - destruct (react i e) as [e1|] eqn:Er; [|discriminate]. cbn [mbind option_bind]. intros Ha.
    destruct (react_appends i e e1 Er) as [Ec _]. set (texts := drop _ _).
    destruct (send_all_run can_mkdir can_open date mkdir_works open_works date_plain (ext_channel e) time logtohtml rs texts s Hm Hl)
      as (l1 & E1 & Hl1 & H1).
    assert (answer can_mkdir can_open date time logtohtml i e s
            = Ok (e1, BotAndLog (add_all (flat_map (fun t => flat_map (deliver (the_bot s) t) rs) texts) (the_bot s)) l1)) as Ea.
    { unfold answer. rewrite Er. fold texts. now erewrite bind_ok by exact E1. }
    erewrite bind_ok by exact Ea. set (b1 := add_all _ _) in *. destruct (IH e1 e' (BotAndLog b1 l1)) as (l & E2 & H2).
    + cbn [the_bot]. unfold b1. now rewrite Ec, (proj1 (proj2 (add_all_sent _ _))).
    + now rewrite Ec.
    + exact Ha.
    + exists l. cbn [the_bot the_log] in *. rewrite Ec in H2. split.
      * rewrite E2. unfold b1. rewrite add_all_app, flat_map_app. do 4 f_equal. f_equal.
        -- apply (flat_map_pair time (fun t => flat_map (deliver (the_bot s) t) rs)).
        -- apply flat_map_ext. intros t'. apply flat_map_ext. intros r. apply deliver_add_all.
      * destruct logtohtml; [|congruence]. rewrite H2, H1, map_app, concat_app, <- app_assoc. unfold log_entries. now rewrite map_map.
Qed.
End Runs.

(** ** Properties *)

(** C26: an extension hears its channel and answers there.  For every object of the
    interface and all sequences of messages of the bot and of events of the object
    (timers, pages that arrive), each at its time of one day, in which no event
    throws: a message of another channel, or without one, changes nothing; a message
    of the channel is given to the object; and the texts that the object sends then or
    later go, in order and each once, to every room of the channel and nowhere else.
    When the extension was made to log, the log is in use ([may_log]), directories and
    files can be made and the names are plain, the entries of these texts, with their
    times, are put at the end of the day's file of the channel. *)
Theorem extension_answers {X} {I : Extension X} {L : ExtensionLaws X I} (can_mkdir can_open : cstring -> bool) (date : cstring)
    (logtohtml : bool) (ins : list (cstring * ext_input X)) (e e' : avbot_extension X) (rs : list room) (s : bot_and_log) :
  (forall p, can_mkdir p = true) -> (forall p, can_open p = true) -> plain_name date ->
  map_find (ext_channel e) (m_channel_map (the_bot s)) = Some (map room_text rs) -> may_log date logtohtml (ext_channel e) (the_log s) ->
  react_all ins e = Some e' ->
  (exists b l, answers can_mkdir can_open date logtohtml ins e s = Ok (e', BotAndLog b l)
    /\ ext_sent (ext_obj e') = ext_sent (ext_obj e) ++ map snd (said ins e)
    /\ sent_messages b = sent_messages (the_bot s) ++ flat_map (fun t => flat_map (deliver (the_bot s) (snd t)) rs) (said ins e)
    /\ if logtohtml then day_file date l (ext_channel e) = day_file date (the_log s) (ext_channel e)
                          ++ concat (map (fun t => log_entry (fst t) (html_escape (snd t)) 0) (said ins e))
       else l = the_log s)
  /\ forall now msg,
       (pt_get ($"channel") msg <> Some (ext_channel e) -> react (BotMessage now msg) e = Some e)
       /\ forall x, pt_get ($"channel") msg = Some (ext_channel e) -> ext_message now msg (ext_obj e) = Some x ->
          react (BotMessage now msg) e = Some (AvbotExtension (ext_channel e) x).
Proof.
  intros Hmk Hop Hd Hm Hl Ha. split.
  - destruct (answers_run can_mkdir can_open date logtohtml rs Hmk Hop Hd ins e e' s Hm Hl Ha) as (l & El & Hlog).
    do 2 eexists. split; [exact El|]. split; [now apply said_sent|]. split; [apply add_all_sent|exact Hlog].
  - intros now msg. cbn [react]. unfold call_extension. split.
    + intros Hc. destruct (pt_get ($"channel") msg) as [c|]; [|reflexivity].
      destruct (str_eqb_spec c (ext_channel e)) as [->|_]; [congruence|reflexivity].
    + intros x Hc Hx. rewrite Hc, str_eqb_refl. cbn [negb]. now rewrite Hx.
Qed.

(** A link is posted, its page arrives ten minutes later: the title is sent to all
    rooms and logged. *)
Definition example_previews : Extension previews := urlpreview_extension (E := perl_engine) (fun _ => []) (fun _ _ => None) None (fun _ _ => None).
Definition example_link : ptree :=
  PTree [] [($"channel", pt_value ($"avplayer")); ($"message", PTree [] [($"text", pt_value ($"look: http://x.y/z"))]);
            ($"who", PTree [] [($"nick", pt_value ($"me"))])].
Definition example_inputs : list (cstring * ext_input previews (I := example_previews)) :=
  [($"10:00", BotMessage (I := example_previews) 7 example_link);
   ($"10:10", OwnEvent (I := example_previews) (0%nat, PageAnswer None ($"text/html; charset=utf-8") ($"2000") [$"<title> A </title>"] None))].

Lemma extension_answers_witness :
  let e := AvbotExtension ($"avplayer") (Previews [] [] []) in
  let s := BotAndLog example_bot (new_log ($"/log")) in
  exists e' b l, answers (fun _ => true) (fun _ => true) ($"20130102") true example_inputs e s = Ok (e', BotAndLog b l)
    /\ sent_messages b = [ToIrc ($"#avplayer") ($"@me ⇪ 标题： a "); ToXmpp ($"a@b") ($"@me ⇪ 标题： a "); ToQQ example_group ($"@me ⇪ 标题： a ")]
    /\ day_file ($"20130102") l ($"avplayer") = day_file ($"20130102") (new_log ($"/log")) ($"avplayer") ++ log_entry ($"10:10") ($"@me&nbsp;⇪&nbsp;标题：&nbsp;a&nbsp;") 0.
Proof.
  intros e s. destruct (react_all example_inputs e) as [e'|] eqn:Ee; [|vm_compute in Ee; discriminate].
  destruct (extension_answers (I := example_previews) (L := urlpreview_extension_laws (E := perl_engine) (fun _ => []) (fun _ _ => None) None (fun _ _ => None))
    (fun _ => true) (fun _ => true) ($"20130102") true example_inputs e e' [IrcRoom ($"avplayer"); XmppRoom ($"a@b"); QQRoom ($"123")] s)
    as [(b & l & H1 & _ & H2 & H3) _]; [reflexivity|reflexivity| |reflexivity| |exact Ee|].
  - split; [discriminate|]. repeat (constructor; [discriminate|]). constructor.
  - intros _. split; [apply new_log_ok; discriminate|]. split; [discriminate|]. repeat (constructor; [discriminate|]). constructor.
  - exists e', b, l. split; [exact H1|]. split.
    + rewrite H2. vm_compute. reflexivity.
    + change (ext_channel e) with ($"avplayer") in H3. rewrite H3. reflexivity.
Defined.
