(* ===== verification/StaticContent.v ===== *)
(** Fixed answers, extension/staticcontent.cpp: a message that matches a keyword is
    answered with one of the texts of the keyword.

    Keywords are regular expressions of a file, any text: whether one compiles and where it
    matches are parameters, and so is the generator of random numbers, a state and its
    next number.  The file is read by a library; its tree is the argument of
    [StaticContent].  [boost::regex] is ordered by its text. *)

From S2P Require Import Prelude CLib OrdMap PTree.

(** [BadRegex] and [BadTree] are exceptions of the constructor; [DivisionByZero] is the
    remainder by an empty list. *)
Inductive static_fault : Type := BadRegex | BadTree | DivisionByZero.

Record StaticContent : Type := Static {
  static_contents_ : list (cstring * list cstring);
  g_ : Z;
  static_sent : list cstring
}.

Section StaticContent.
Variable compiles : cstring -> bool.
Variable keyword_search : cstring -> cstring -> bool.
(** [d_(g_)] with [d_(0, 10000)]. *)
Variable draw : Z -> Z * Z.

Definition item_messages (t : ptree) : list cstring := map (fun kv => pt_data (snd kv)) (pt_children t).

(** The loop over the items of the file. *)
Fixpoint load_items (items : list (cstring * ptree)) (m : list (cstring * list cstring)) : result static_fault (list (cstring * list cstring)) :=
  match items with
  | [] => Ok m
  | (_, item) :: items' =>
      match pt_get ($"keyword") item, get_child ($"messages") item with
      | Some keyword, Some messages =>
          if compiles keyword then load_items items' (insert_or_assign keyword (item_messages messages) m) else Err BadRegex
      | _, _ => Err BadTree
      end
  end.

(** [None] when there is no file. *)
Definition StaticContent_new (time : Z) (pt : option ptree) : result static_fault StaticContent :=
  match pt with
  | None => Ok (Static [] time [])
  | Some pt =>
      match get_child ($"static") pt with
      | None => Err BadTree
      | Some items => m ← load_items (pt_children items) []; Ok (Static m time [])
      end
  end.

(** The loop over the keywords. *)
Fixpoint answer_items (text : cstring) (items : list (cstring * list cstring)) : st StaticContent static_fault () :=
  match items with
  | [] => mret ()
  | (keyword, messages) :: items' =>
      (if keyword_search keyword text then
         s ← st_get;
         let '(n, g) := draw (g_ s) in
         match messages with
         | [] => st_fail DivisionByZero
         | _ =>
             let m := nth (Z.to_nat (n mod Z.of_nat (length messages))) messages [] in
             st_modify (fun s => Static (static_contents_ s) g (static_sent s ++ [m]))
         end
       else mret ()) ;;
      answer_items text items'
  end.

(** A message without a text is an exception of the tree, which the caller ignores. *)
Definition static_message (pt : ptree) : st StaticContent static_fault () :=
  match pt_get ($"message.text") pt with
  | None => mret ()
  | Some text => s ← st_get; answer_items text (static_contents_ s)
  end.

(** ** Properties *)

(** The keywords that match, in their order. *)
Definition matching (text : cstring) (items : list (cstring * list cstring)) : list (cstring * list cstring) :=
  List.filter (fun kv => keyword_search (fst kv) text) items.

Lemma answer_items_run text items : forall s, Forall (fun kv => snd kv <> []) (matching text items) ->
  exists s' replies, answer_items text items s = Ok ((), s') /\ static_contents_ s' = static_contents_ s
    /\ static_sent s' = static_sent s ++ replies /\ Forall2 (fun kv r => In r (snd kv)) (matching text items) replies.
Proof.
  induction items as [|[k ms] items IH]; intros s Hne; cbn [answer_items matching List.filter fst] in *.
  - exists s, []. rewrite app_nil_r. repeat split. constructor.
  - destruct (keyword_search k text) eqn:Ek; cbn [fst] in *.
    + inversion_clear Hne as [|? ? H1 H2]. run. destruct (draw (g_ s)) as [n g]. destruct ms as [|m0 ms]; [contradiction|].
      set (m := nth _ (m0 :: ms) []). destruct (IH (Static (static_contents_ s) g (static_sent s ++ [m])) H2) as (s' & rs & E1 & E2 & E3 & E4).
      exists s', (m :: rs). split; [exact E1|]. split; [exact E2|]. split; [rewrite E3; cbn; now rewrite <- app_assoc|]. constructor; [|exact E4].
      cbn [snd]. apply nth_In. pose proof (Z.mod_pos_bound n (Z.of_nat (length (m0 :: ms)))). cbn [length] in *. lia.
    + destruct (IH s Hne) as (s' & rs & H). now exists s', rs.
Qed.
End StaticContent.

(** Every keyword that matches is answered: one of its texts for each, in the order of the
    keywords, and nothing else is sent. *)
Theorem keywords_answered (keyword_search : cstring -> cstring -> bool) (draw : Z -> Z * Z) (pt : ptree) (text : cstring) (s : StaticContent) :
  pt_get ($"message.text") pt = Some text -> Forall (fun kv => snd kv <> []) (static_contents_ s) ->
  exists s' replies, static_message keyword_search draw pt s = Ok ((), s') /\ static_contents_ s' = static_contents_ s
    /\ static_sent s' = static_sent s ++ replies
    /\ Forall2 (fun kv r => In r (snd kv)) (matching keyword_search text (static_contents_ s)) replies.
Proof.
  intros Ht Hne. unfold static_message. rewrite Ht. run. apply answer_items_run. revert Hne. rewrite !List.Forall_forall.
  intros H kv Hin. apply filter_In in Hin as [Hin _]. now apply H.
Qed.

Lemma keywords_answered_witness :
  exists s' replies,
    static_message (fun k t => match find_str k t with Some _ => true | None => false end) (fun g => (g, g + 1))
      (PTree [] [($"message", PTree [] [($"text", pt_value ($"hello you"))])]) (Static [($"bye", [$"b"]); ($"hello", [$"hi"; $"ho"])] 7 []) = Ok ((), s')
    /\ static_sent s' = replies /\ Forall2 (fun kv r => In r (snd kv)) [($"hello", [$"hi"; $"ho"])] replies.
Proof.
  destruct (keywords_answered (fun k t => match find_str k t with Some _ => true | None => false end) (fun g => (g, g + 1))
    (PTree [] [($"message", PTree [] [($"text", pt_value ($"hello you"))])]) ($"hello you") (Static [($"bye", [$"b"]); ($"hello", [$"hi"; $"ho"])] 7 []))
    as (s' & rs & H1 & _ & H2 & H3); [reflexivity|repeat constructor; discriminate|]. exists s', rs. split; [exact H1|]. split; [exact H2|exact H3].
Defined.

(** A keyword without texts that matches divides by zero. *)
Theorem empty_keyword_faults (keyword_search : cstring -> cstring -> bool) (draw : Z -> Z * Z) (pt : ptree) (text k : cstring) (s : StaticContent) rest :
  pt_get ($"message.text") pt = Some text -> static_contents_ s = (k, []) :: rest -> keyword_search k text = true ->
  static_message keyword_search draw pt s = Err DivisionByZero.
Proof.
  intros Ht Hs Hk. unfold static_message. rewrite Ht. run. rewrite Hs. cbn [answer_items]. run. rewrite Hk. now destruct (draw (g_ s)).
Qed.

Lemma empty_keyword_faults_witness :
  static_message (fun _ _ => true) (fun g => (g, g)) (PTree [] [($"message", PTree [] [($"text", pt_value ($"x"))])]) (Static [($"k", [])] 0 [])
  = Err DivisionByZero.
Proof. apply (empty_keyword_faults (fun _ _ => true) (fun g => (g, g)) _ ($"x") ($"k") _ []); reflexivity. Defined.
